(* ===== verification/_CoqProject ===== *)
-Q . S2P
Prelude.v
PyText.v
PyJson.v
JsonText.v
PyFloat.v
FloatOps.v
Geometry.v
CaptureFormat.v
DevIolog.v
Intent.v
Representation.v
RepresentationCorrect.v
Intent2.v
Workload3.v
ContentProfile.v
IntentExec.v
ExecCorrect.v
ExecRun.v
ExecReal.v
ExecRealCorrect.v
FakeFS.v
FakeFSCorrect.v
Engines.v
EnginesCorrect.v
FakeS3.v
FakeS3Correct.v
AgentTrace.v
AgentPlan.v
AgentRun.v
Release.v
ReleaseCorrect.v
Coordinator.v
CoordinatorCorrect.v
CompareStreams.v
CompareCorrect.v
RuntimeBundle.v
RuntimeBundleCorrect.v
CaptureEvents.v
CaptureCorrect.v
CaptureThreads.v
Naming.v
RecordFS.v
CaptureDoc.v
RecordFSCorrect.v
RecordS3.v
RecordS3Correct.v
Catalog.v
BlkParse.v
BlkAnalyze.v
BlkCorrect.v
BlkCompare.v
ReplayPlan.v
SyscallFilter.v
SyscallFilterCorrect.v
NvmeTrace.v
NvmeCorrect.v
IoPath.v
IoPathCorrect.v
SyscallViz.v
FixJson.v
Perfetto.v
PerfettoCorrect.v
