(* ===== verification/Prelude.v ===== *)
(** * kvio: a verified model of the KV-cache storage IO tool

    ** The program

    kvio ([tools/kvio]) captures, describes, replays and compares the storage
    traffic of a KV-cache engine.  Its data are JSON documents, and the program
    is a chain of steps from one document to the next:

    - an engine adapter records its operations ([capture_events.py]); the
      recorded lines are normalized into a [kvio.intent.v2] document
      ([intent2.py]), which is carried into a [kvio.workload.v3] document
      ([workload3.py]);
    - a synthetic offload run is described by a [kvio.intent.v1] document
      ([intent.py]), lowered into target commands, or carried into v2;
    - the bytes of a chunk and of each stored form of it come from the
      dimensions of the model ([kv_geometry.py], [kv_representation.py]);
    - application traces become cache plans ([agent_trace.py]) that run on a
      raw-block engine ([workload.py]);
    - an application's file and object calls are recorded under synthetic names
      and normalized into [kvio.workload.v3] documents ([posix_fs.py],
      [s3_client.py]);
    - an executor runs a workload on a backend ([intent_exec.py]), in simulated
      time or on threads, with payloads that are a function of their identity
      ([content_profile.py]); the backend is one of a registry of engines
      ([engines.py]), which include an in-memory file system and an in-memory
      bucket ([posix_fs.py], [s3_client.py]); a coordinator shards a workload
      over clients ([coordinator.py]);
    - NVMe captures of the device are checked ([examples/replay/capture_format.py]),
      exported as a fio log with a certificate ([mk_dev_iolog.py]), and a
      replay is compared with its source ([compare_streams.py]);
    - a result leaves the site only through a closed grammar ([release.py]), and
      the workloads that ship with the tool are listed in a checked catalog
      ([workload_catalog.py]);
    - semantic traces of LMCache become replay manifests whose cost is projected
      before the run and whose report is validated after it
      ([examples/lmcache/kvio_plan.py], [kvio_sem2manifest.py], [kvio_validate.py]),
      and are joined with the device commands of a capture on one time line
      ([kvio2perfetto.py]);
    - block traces are read, matched into requests and summarized
      ([analyzers/blktrace_analyzer.py]), two of them are set side by side
      ([analyzers/blktrace_compare.py]), and another analyzer samples them in one
      pass ([analyzers/nvme_io_analyzer.py]);
    - the log of the system-call monitor is repaired ([fix_json.py]), filtered
      for a replay ([filter_syscall_log.py]) and plotted
      ([syscall_visualizer.py]); an observer relates system calls to memory
      mappings and pages ([io_path_observer.py]).

    ** The files

    Foundations: [Prelude] (exceptions, the error monad [res], monadic loops,
    the stable sort, integers), [PyText] (the [str] operations used), [PyJson] (JSON values with
    Python's [==], truth, [in], [int], arithmetic, [sorted]), [JsonText]
    ([json.loads], [json.dumps]), [PyFloat] (division and order of binary64),
    [FloatOps] (its sum, difference, [ceil] and [int], and when the division of
    integers is exact enough for them).

    Models, each function under the source's name: [CaptureFormat]
    ([capture_format.py]), [DevIolog] ([mk_dev_iolog.py]), [Intent]
    ([intent.py]), [Intent2] ([intent2.py]), [Workload3] ([workload3.py]),
    [ContentProfile] ([content_profile.py] and [synthetic_bytes]), [IntentExec]
    ([intent_exec.py]) and [ExecReal] (its [_run_real]), [Engines]
    ([engines.py]), [FakeFS] and [RecordFS] ([posix_fs.py]: the in-memory file
    system; the recorder and [normalize_posix_capture]), [FakeS3] and [RecordS3]
    ([s3_client.py], likewise), [Naming] (the synthetic names of both recorders),
    [AgentTrace] ([agent_trace.py]), the first half of
    [AgentRun] ([workload.py]), [Release] ([release.py]), [Coordinator]
    ([coordinator.py]), [CompareStreams] and [RuntimeBundle]
    ([compare_streams.py]), [CaptureEvents] ([capture_events.py], call by call)
    and [CaptureThreads] (its recorder step by step, on threads), [Geometry]
    ([kv_geometry.py]), [Representation] ([kv_representation.py]), [Catalog]
    ([workload_catalog.py]), [ReplayPlan] (three LMCache scripts), [Perfetto]
    ([kvio2perfetto.py]), [BlkParse]
    (reading a block trace), [BlkAnalyze] (matching, latencies, depths,
    alignment, histograms and series), [BlkCompare] ([blktrace_compare.py]),
    [SyscallFilter] ([filter_syscall_log.py]), [FixJson] ([fix_json.py]),
    [SyscallViz] ([syscall_visualizer.py]), [NvmeTrace] ([BlktraceParser] and the
    reader of [FtraceIOCollector] in [nvme_io_analyzer.py]), [IoPath]
    ([io_path_observer.py]).
    Correctness: the theorems on a component are in its own file
    ([CaptureFormat], [DevIolog], [Intent], [Intent2], [Workload3],
    [ContentProfile], [Geometry], [Catalog], [ReplayPlan], [BlkParse],
    [BlkCompare], [FixJson], [SyscallViz]) or in the file named after it: [ExecCorrect] and
    [ExecRun], [ExecRealCorrect], [FakeFSCorrect], [EnginesCorrect],
    [FakeS3Correct], [Naming], [RecordFSCorrect] and [RecordS3Correct] (with
    [CaptureDoc], what both normalizers share), [AgentPlan] and [AgentRun], [ReleaseCorrect],
    [CoordinatorCorrect], [CompareCorrect], [RuntimeBundleCorrect],
    [CaptureCorrect] and [CaptureThreads], [RepresentationCorrect], [BlkCorrect], [SyscallFilterCorrect],
    [NvmeCorrect], [IoPathCorrect], [PerfettoCorrect].

    ** What the theorems show

    - Validators: each one is sound for a stated predicate (paths confined,
      dependencies backward, ranges inside objects, no load of an absent
      version unless its source outcome says that nothing was read), and [validate_envelope] and [validate_result] accept exactly
      the documents of their contract.
    - Builders and adapters: what [build_kv_offload_intent] produces passes its
      validator, lowering conserves bytes and respects limits, plans and
      bundles pass the checks of their consumers, v2 documents are carried into
      v3 operation by operation.
    - Runs: the simulated executor ends, completes every operation and respects
      dependencies and delays on every backend of the class [Backend]; on
      threads, in every interleaving, with calls that overlap and whatever they
      answer or raise below [Exception], no step fails, every operation is called
      once after its prerequisites and its row holds the answer of its own call,
      and the threads neither deadlock nor run for ever; when calls do not
      overlap, outcomes and backend are those of one sequence of calls; plans of
      both trace compilers run to their end on every engine that satisfies
      [RawCoreLaws], and the compiled cache is exactly LRU.
    - Storage: the preflight accepts exactly the engine that serves a workload;
      the in-memory file system is total on validated calls that carry their
      expectation, isolates the data behind a handle and never reads foreign
      content in a regular run, so a workload accepted for it runs to its end when
      its calls do not overlap; the in-memory bucket refines an abstract store of
      objects and uploads, a completed upload being its parts in order.
    - Application captures: synthetic names identify exactly the entries that
      the real names do and keep their structure; every capture of a sane
      session, closed or cut short, is normalized to a valid workload with
      exactly the recorded calls in order.
    - Distribution: with the computed assignment the shards partition the
      operations; frames survive any fragmentation; a run that ends complete was
      served by every client; a run ends unless a connected client stays silent
      after the start; clock offsets are within the reported uncertainty.
    - Captures: the recorder loses nothing without counting it; a capture that
      was closed after the calls returned is never called complete when a record
      was dropped, however the threads raced; normalization keeps every operation,
      in order of time; pairing of completions and the comparison of streams are characterised;
      updating a bundle is atomic under failures and crashes.
    - Sizes: the bytes of a cache are the exact product of its dimensions below
      [2^53] although they are computed in floats, ranks divide them without a
      remainder, every stored form accounts for exactly the bytes of a rank,
      and a derived set of forms passes its own check.
    - Text: printing and parsing are inverse for JSON documents without floats
      and for fio logs; the bytes hashed for a bundle determine it.
    - Catalog: of Latin-1 texts the loader accepts exactly the documents of its
      contract, without a repeated key at any level, and
      what the tool prints of a catalog is one that it loads again.
    - Replay plans: the projection counts exactly the commands and the bytes of
      the split requests, within a transfer limit of whole blocks; a manifest has the payloads of the trace, and the
      counts of a validation are those of its events.
    - Time lines: a completion answers the latest submission that waits; the
      join by byte range agrees with a scan of all records; spans hold their
      commands, never touch on a lane and use the fewest lanes; the counters
      show at every instant what they are named after.
    - Block traces: a printed trace is read back event by event; completions
      are matched first in, first out per request key, with the issue time the
      last issue gives; the depth is the
      reflected walk of issues and completions; alignment and its waste are the
      exact arithmetic of the units; every completion is counted in exactly one
      bucket of the series, that of its time.  The other analyzer credits a
      completion to the request with its number and address when numbers are not
      reused at another address, counts every completion in its histograms whatever
      it samples, and its sample is a bounded choice of distinct records.
    - Monitor logs: the filter equals a reference that answers every question
      from the log itself, loses and duplicates nothing and never mixes
      processes; a log that needs no repair passes the repair unchanged; the
      processes of the plots partition the log.
    - Mappings and pages: a memory map is read as it is printed, an [mmap] is
      attributed to the mapping that holds its result, and a scan finds exactly
      the pages that are present or dirty.
    - Divergences: concrete inputs on which the code does not do what its
      documentation says are proved as such, each on the definitions above.

    ** Modelling choices

    A function that can raise is a function into [res]; an exception keeps its
    class and the format string of its message.  Text is Latin-1: code points
    below 256, and a [\u] escape above U+00FF is rejected where Python would
    decode it.  Python's limits on recursion depth and on the digits of an
    integer literal are not modelled.  Dictionaries keep their insertion order, and
    [sorted] is stable.
    Objects that the code shares and mutates are in a store where a claim
    depends on it ([CompareStreams]); [json.loads (json.dumps d)] used as a copy
    is the identity.  Files are maps from names to contents, and a failure of
    the system is an explicit argument of the operation that can meet it.
    Threads are interleavings of steps ([Coordinator], [CaptureThreads],
    [ExecReal]).  In a real run a call of a backend begins and ends with steps of
    its own, and what overlapping calls answer is arbitrary; only the statements
    on the in-memory backends assume that calls do not overlap, since these hold
    no lock.  The recorder's threads interleave inside a call, at every read and
    write of a counter.  In the coordinator a critical section is one step; a
    message must have arrived to be received.
    Times of the executor are integers: a delay that is a float raises in the
    model, where Python would compare it, so the statements ask for integer
    delays.  What the operating system
    or the S3 client answers to a recorded call is an argument of the call.
    SHA-256, the tokenizer, the parser of ISO dates, clocks and the engines are
    parameters.  When the cleanup after a failed write of a bundle fails too
    ([RuntimeBundle]), the temporary file remains, as after a crash: one of the
    directories that the theorem on the update covers.

    Fuel: the JSON parser takes [2 * length + 2] steps, enough because each
    step consumes a character or closes a value, and the round trip is proved
    with it; the simulated run takes [4 * n + 2] turns for [n] operations and
    is proved to end within them; payload loops take one turn per byte; reading
    a frame takes one turn per byte; draining the recorder takes one turn per
    queued record; naming a path takes one turn per character, enough because a
    parent is shorter; a bisection takes one turn per element and the
    segmentation of commands one per operation, which the theorems on them need.
    Everything else is structural.

    ** Not modelled

    Argument parsing, printing and the opening of files; the backends on a real
    mount, a real bucket and a raw block device ([PosixBackend], [S3Backend],
    [RawBlockBackend]) and the clients' side of a distributed run, which are I/O
    against a kernel, a server or a device; the benchmark driver ([bench.py],
    [run_kv_offload_io.py]), which times and reports processes; the hooks into
    LMCache ([lmcache_adapter.py], [lmcache_capture_hook.py]) and the vendored
    LMCache; the eBPF monitors, the tracers and collectors that attach to a kernel or poll
    it ([LiveCollector], [SyscallTracer], [PageMonVisualizer]), and of the
    analyzers what draws the figures and prints the reports; of the time line the
    identifiers of tracks, the names of slices, the flow arrows and the encoding of
    packets. *)

From stdpp Require Import prelude strings list sorting.
From Stdlib Require Import ZArith Lia.

(** ** Exceptions and the error monad

    Every Python function that can raise is modelled by a function into
    [res]: either a value or the exception that leaves the function.  An
    exception carries its class and the format string of its message, written
    as in the source (the interpolated fields are not kept), so that each
    [raise] statement of the source is a distinct value.  [OutOfFuel] is not a
    Python exception: it marks a loop whose fuel ran out, i.e. one that had
    not ended after the bound given for it. *)
Inductive exn_class :=
  | CaptureFormatError | DuplicateKeyError | CaptureError
  | IntentError | Intent2Error | Workload3Error
  | ReleaseError (code : string) | TraceError | CrossShardError | ComparisonError | RepresentationError
  | PreflightError | CatalogError
  | ValueError | KeyError | TypeError | AttributeError | OverflowError
  | IndexError | JSONDecodeError | OSError | ZeroDivisionError | RuntimeError | SystemExit | StructError
  | ArgumentTypeError | KeyboardInterrupt
  | OutOfFuel.

Record exn := Exn { exn_cls : exn_class; exn_msg : string }.

Inductive res (A : Type) :=
  | Ok (a : A)
  | Raise (e : exn).
Arguments Ok {A} a.
Arguments Raise {A} e.

#[export] Instance exn_class_eq_dec : EqDecision exn_class.
Proof. solve_decision. Defined.
#[export] Instance exn_eq_dec : EqDecision exn.
Proof. solve_decision. Defined.
#[export] Instance res_eq_dec `{EqDecision A} : EqDecision (res A).
Proof. solve_decision. Defined.

#[export] Instance res_ret : MRet res := λ A a, Ok a.
#[export] Instance res_bind : MBind res := λ A B f x,
  match x with Ok a => f a | Raise e => Raise e end.
#[export] Instance res_fmap : FMap res := λ A B f x,
  match x with Ok a => Ok (f a) | Raise e => Raise e end.

(** [raise_unless b e]: the [if not b: raise e] statement. *)
Definition raise_unless (b : bool) (e : exn) : res unit :=
  if b then Ok tt else Raise e.

(** [raise_if b e]: the [if b: raise e] statement. *)
Definition raise_if (b : bool) (e : exn) : res unit :=
  if b then Raise e else Ok tt.

Definition is_ok {A} (r : res A) : bool :=
  match r with Ok _ => true | Raise _ => false end.

(** A [for] loop over a list that threads a state and may raise. *)
Fixpoint foldM {A S} (f : S → A → res S) (s : S) (l : list A) : res S :=
  match l with
  | [] => Ok s
  | x :: l => s' ← f s x; foldM f s' l
  end.

(** A [for i, x in enumerate(l, i0)] loop. *)
Fixpoint foldiM {A S} (f : S → nat → A → res S) (i : nat) (s : S) (l : list A)
    : res S :=
  match l with
  | [] => Ok s
  | x :: l => s' ← f s i x; foldiM f (Datatypes.S i) s' l
  end.

(** A comprehension whose body may raise. *)
Fixpoint mapMR {A B} (f : A → res B) (l : list A) : res (list B) :=
  match l with
  | [] => Ok []
  | x :: l => y ← f x; ys ← mapMR f l; Ok (y :: ys)
  end.

(** *** Laws of the monad *)
Lemma Ok_inj {A} (a b : A) : Ok a = Ok b → a = b.
Proof. congruence. Qed.

Lemma bind_Ok {A B} (x : res A) (f : A → res B) b :
  x ≫= f = Ok b ↔ ∃ a, x = Ok a ∧ f a = Ok b.
Proof. destruct x; split; [naive_solver..|intros (?&[=]&_)]. Qed.

Lemma raise_unless_Ok b e : raise_unless b e = Ok tt ↔ b = true.
Proof. by destruct b. Qed.

Lemma raise_if_Ok b e : raise_if b e = Ok tt ↔ b = false.
Proof. by destruct b. Qed.

Lemma raise_unless_Ok' b e u : raise_unless b e = Ok u ↔ b = true.
Proof. destruct u. by destruct b. Qed.

Lemma raise_if_Ok' b e u : raise_if b e = Ok u ↔ b = false.
Proof. destruct u. by destruct b. Qed.

(** [res_inv]: peel every successful bind and guard of the hypotheses. *)
Ltac res_inv :=
  repeat match goal with
  | H : Ok _ = Ok _ |- _ => apply Ok_inj in H; try subst
  | H : Raise _ = Ok _ |- _ => discriminate H
  | H : Ok _ = Raise _ |- _ => discriminate H
  | H : (_ ≫= _) = Ok _ |- _ =>
      let a := fresh "v" in let H1 := fresh "E" in
      apply bind_Ok in H as (a & H1 & H)
  | H : raise_unless _ _ = Ok _ |- _ => apply raise_unless_Ok' in H
  | H : raise_if _ _ = Ok _ |- _ => apply raise_if_Ok' in H
  | u : unit |- _ => destruct u
  end.

Lemma foldM_app {A S} (f : S → A → res S) s l1 l2 :
  foldM f s (l1 ++ l2) = s' ← foldM f s l1; foldM f s' l2.
Proof.
  revert s. induction l1 as [|x l1 IH]; intros s; [done|]; simpl.
  destruct (f s x); simpl; [apply IH|done].
Qed.

Lemma foldM_map {A B S} (f : S → B → res S) (g : A → B) s l :
  foldM f s (map g l) = foldM (λ s x, f s (g x)) s l.
Proof. revert s. induction l as [|x l IH]; intros s; [done|]. simpl. destruct (f s (g x)); simpl; auto. Qed.

(** Rule for a raising loop: an invariant indexed by the processed prefix. *)
Lemma foldM_inv {A S} (f : S → A → res S) (P : list A → S → Prop) s0 l s :
  P [] s0 →
  (∀ pre x s1 s2, P pre s1 → (∃ post, l = pre ++ x :: post) →
     f s1 x = Ok s2 → P (pre ++ [x]) s2) →
  foldM f s0 l = Ok s → P l s.
Proof.
  intros H0 Hstep.
  assert (∀ post pre s1, l = pre ++ post → P pre s1 →
    foldM f s1 post = Ok s → P l s) as Hgen.
  { induction post as [|x post IH]; intros pre s1 Hl Hp Hf; simpl in Hf.
    - rewrite app_nil_r in Hl. by res_inv.
    - apply bind_Ok in Hf as (s2 & Hx & Hf).
      eapply (IH (pre ++ [x])); [by rewrite <- app_assoc| |exact Hf].
      eapply Hstep; eauto. }
  by apply (Hgen l []).
Qed.

Lemma foldiM_inv {A S} (f : S → nat → A → res S) (P : list A → S → Prop) s0 l s :
  P [] s0 →
  (∀ pre x s1 s2, P pre s1 → (∃ post, l = pre ++ x :: post) →
     f s1 (length pre) x = Ok s2 → P (pre ++ [x]) s2) →
  foldiM f 0 s0 l = Ok s → P l s.
Proof.
  intros H0 Hstep.
  assert (∀ post pre s1, l = pre ++ post → P pre s1 →
    foldiM f (length pre) s1 post = Ok s → P l s) as Hgen.
  { induction post as [|x post IH]; intros pre s1 Hl Hp Hf; simpl in Hf.
    - rewrite app_nil_r in Hl. by res_inv.
    - apply bind_Ok in Hf as (s2 & Hx & Hf).
      eapply (IH (pre ++ [x])); [by rewrite <- app_assoc| |].
      + eapply Hstep; eauto.
      + rewrite length_app; simpl. by rewrite Nat.add_1_r. }
  by apply (Hgen l []).
Qed.

(** The same rules for loops whose steps cannot raise while the invariant holds. *)
Lemma foldM_total {A S} (f : S → A → res S) (P : list A → S → Prop) s0 l :
  P [] s0 →
  (∀ pre x post s, l = pre ++ x :: post → P pre s → ∃ s', f s x = Ok s' ∧ P (pre ++ [x]) s') →
  ∃ s, foldM f s0 l = Ok s ∧ P l s.
Proof.
  intros H0 Hstep.
  assert (∀ post pre s1, l = pre ++ post → P pre s1 → ∃ s, foldM f s1 post = Ok s ∧ P l s) as Hgen;
    [|by apply (Hgen l [])].
  induction post as [|x post IH]; intros pre s1 Hl Hp; simpl.
  - rewrite app_nil_r in Hl. subst. eauto.
  - destruct (Hstep pre x post s1 Hl Hp) as (s2 & -> & Hp2). simpl.
    apply (IH (pre ++ [x])); [by rewrite <- app_assoc|done].
Qed.

Lemma foldiM_total {A S} (f : S → nat → A → res S) (P : list A → S → Prop) s0 l :
  P [] s0 →
  (∀ pre x post s, l = pre ++ x :: post → P pre s → ∃ s', f s (length pre) x = Ok s' ∧ P (pre ++ [x]) s') →
  ∃ s, foldiM f 0 s0 l = Ok s ∧ P l s.
Proof.
  intros H0 Hstep.
  assert (∀ post pre s1, l = pre ++ post → P pre s1 →
    ∃ s, foldiM f (length pre) s1 post = Ok s ∧ P l s) as Hgen; [|by apply (Hgen l [])].
  induction post as [|x post IH]; intros pre s1 Hl Hp; simpl.
  - rewrite app_nil_r in Hl. subst. eauto.
  - destruct (Hstep pre x post s1 Hl Hp) as (s2 & -> & Hp2). simpl.
    destruct (IH (pre ++ [x]) s2) as (s & Hs & HP); [by rewrite <- app_assoc|done|].
    rewrite length_app in Hs. simpl in Hs. rewrite Nat.add_1_r in Hs. eauto.
Qed.

Lemma mapMR_Ok {A B} (f : A → res B) l k :
  mapMR f l = Ok k ↔ Forall2 (λ x y, f x = Ok y) l k.
Proof.
  revert k. induction l as [|x l IH]; intros k; simpl.
  - split; [intros; by res_inv|by inversion 1].
  - split.
    + intros H. res_inv. constructor; [done|]. by apply IH.
    + inversion 1 as [|? y ? ys Hy Hys]; subst.
      rewrite Hy; simpl. apply IH in Hys. by rewrite Hys.
Qed.

Lemma mapMR_total {A C} (f : A → res C) (P : A → C → Prop) l :
  (∀ x, x ∈ l → ∃ y, f x = Ok y ∧ P x y) → ∃ k, mapMR f l = Ok k ∧ Forall2 P l k.
Proof.
  induction l as [|x l IH]; intros Hf; [exists []; split; [done|constructor]|].
  destruct (Hf x) as (y & Hy & HP); [by left|]. destruct IH as (k & Hk & HF); [intros; apply Hf; by right|].
  exists (y :: k). cbn [mapMR]. rewrite Hy. cbn [mbind res_bind]. rewrite Hk. split; [done|by constructor].
Qed.

(** ** Sequences of events that set and clear a key *)
Section latch.
Context {A K : Type} (init : K → Prop) (sets clears : A → K → Prop).

(** After the events [pre] the key [k] is set, told by its history: it was
    set at the start and never cleared, or some event set it and no later one
    cleared it. *)
Definition latched (pre : list A) (k : K) : Prop :=
  (init k ∧ ∀ j x, pre !! j = Some x → ¬ clears x k) ∨
  (∃ i x, pre !! i = Some x ∧ sets x k ∧ ∀ j y, i < j → pre !! j = Some y → ¬ clears y k).

Lemma latched_nil k : latched [] k ↔ init k.
Proof. unfold latched. split; [intros [[? _]|(i & ? & ? & _)]; done|intros; by left]. Qed.

Lemma lookup_snoc_cases {B} (l : list B) x i y :
  (l ++ [x]) !! i = Some y ↔ l !! i = Some y ∨ (i = length l ∧ y = x).
Proof.
  rewrite lookup_app_Some, list_lookup_singleton_Some. split.
  - intros [?|[? [? ->]]]; [by left|right; split; [lia|done]].
  - intros [?|[-> ->]]; [by left|right; split; [done|split; [lia|done]]].
Qed.

Lemma latched_snoc pre x k :
  ¬ (sets x k ∧ clears x k) →
  latched (pre ++ [x]) k ↔ sets x k ∨ (latched pre k ∧ ¬ clears x k).
Proof.
  intros Hx. unfold latched. setoid_rewrite lookup_snoc_cases. split.
  - intros [[Hl Hn]|(i & o & [Hi|[-> ->]] & Hs & Hn)].
    + right. split; [left; split; [done|]; intros j o ?; apply (Hn j); by left|].
      apply (Hn (length pre)). by right.
    + right. split; [|apply (Hn (length pre)); [by eapply lookup_lt_Some|by right]].
      right. exists i, o. split_and!; [done|done|]. intros j o' ??. apply (Hn j); [done|by left].
    + by left.
  - intros [Hs|[[[Hl Hn]|(i & o & Hi & Hs & Hn)] Hr]].
    + right. exists (length pre), x. split_and!; [by right|done|].
      intros j o' Hj [Hlt%lookup_lt_Some|[-> _]]; lia.
    + left. split; [done|]. intros j o [?|[-> ->]]; [by eapply Hn|done].
    + right. exists i, o. split_and!; [by left|done|].
      intros j o' ? [?|[-> ->]]; [by eapply Hn|done].
Qed.
End latch.

(** ** [sorted] and [list.sort]

    Python's sort is stable: elements that compare equal keep their order. *)
Section stable_sort.
Context {A : Type} (R : relation A) `{!RelDecision R}.

Fixpoint sort_insert (x : A) (l : list A) : list A :=
  match l with
  | [] => [x]
  | y :: k => if decide (R x y) then x :: l else y :: sort_insert x k
  end.

Definition stable_sort (l : list A) : list A := foldr sort_insert [] l.

Lemma sort_insert_Permutation x l : sort_insert x l ≡ₚ x :: l.
Proof.
  induction l as [|y l IH]; [done|]. cbn. destruct (decide (R x y)); [done|]. rewrite IH. apply Permutation_swap.
Qed.

Lemma stable_sort_Permutation l : stable_sort l ≡ₚ l.
Proof. induction l as [|x l IH]; [done|]. cbn. by rewrite sort_insert_Permutation, IH. Qed.

Lemma Sorted_sort_insert `{!Total R} x k : Sorted R k → Sorted R (sort_insert x k).
Proof.
  induction 1 as [|y k Hk IH Hhd]; [repeat constructor|]. cbn.
  destruct (decide (R x y)) as [Hxy|Hxy]; [by repeat constructor|]. apply total_not in Hxy. constructor; [done|].
  destruct Hhd as [|z k Hyz]; cbn; [by constructor|]. destruct (decide (R x z)); by constructor.
Qed.

Lemma Sorted_stable_sort `{!Total R} l : Sorted R (stable_sort l).
Proof. induction l as [|x l IH]; [constructor|]. by apply Sorted_sort_insert. Qed.

Lemma StronglySorted_stable_sort `{!Transitive R, !Total R} l : StronglySorted R (stable_sort l).
Proof. auto using Sorted_StronglySorted, Sorted_stable_sort. Qed.

(** Stability: elements of one class are not reordered. *)
Lemma stable_sort_class (P : A → bool) l : (∀ x y, P x = true → P y = true → R x y) →
  List.filter P (stable_sort l) = List.filter P l.
Proof.
  intros HP. assert (∀ x k, List.filter P (sort_insert x k) = List.filter P (x :: k)) as Hi.
  { intros x k. induction k as [|y k IH]; [done|]. cbn [sort_insert]. destruct (decide (R x y)) as [|Hxy]; [done|].
    cbn in *. rewrite IH. destruct (P x) eqn:Hx, (P y) eqn:Hy; try done. by destruct Hxy; apply HP. }
  induction l as [|x l IH]; [done|]. cbn [stable_sort foldr]. fold (stable_sort l). rewrite Hi. cbn. by rewrite IH.
Qed.
End stable_sort.

(** Sorting commutes with a map that keeps the order of the elements at hand. *)
Lemma stable_sort_map {A B} (f : A → B) (Q : A → Prop) (R : relation A) (S : relation B) `{!RelDecision R, !RelDecision S} l :
  (∀ x y, Q x → Q y → R x y ↔ S (f x) (f y)) → Forall Q l → map f (stable_sort R l) = stable_sort S (map f l).
Proof.
  intros HRS. assert (∀ x k, Q x → Forall Q k → map f (sort_insert R x k) = sort_insert S (f x) (map f k)) as Hi.
  { intros x k Hx Hk. induction Hk as [|y k Hy Hk IH]; [done|]. cbn. destruct (decide (R x y)) as [Hr|Hr].
    - by rewrite decide_True by (by apply HRS).
    - rewrite decide_False by (by rewrite <- HRS). cbn. by rewrite IH. }
  induction 1 as [|x l Hx Hl IH]; [done|]. cbn. fold (stable_sort R l) (stable_sort S (map f l)). rewrite <- IH. apply Hi; [done|].
  by rewrite stable_sort_Permutation.
Qed.

(** ** Lists whose pieces have one length *)
Lemma length_bind_const {A B} (f : A → list B) (k : nat) l :
  (∀ x, length (f x) = k) → length (l ≫= f) = (length l * k).
Proof.
  intros Hk. induction l as [|x l IH]; [done|].
  change ((x :: l) ≫= f) with (f x ++ (l ≫= f)). rewrite length_app, Hk, IH. simpl. lia.
Qed.

Lemma lookup_bind_const {A B} (f : A → list B) (k : nat) l i j :
  (∀ x, length (f x) = k) → (j < k) →
  (l ≫= f) !! (i * k + j) = x ← l !! i; f x !! j.
Proof.
  intros Hk Hj. revert i. induction l as [|x l IH]; intros i; [done|].
  change ((x :: l) ≫= f) with (f x ++ (l ≫= f)). destruct i as [|i]; simpl.
  - by rewrite lookup_app_l by (rewrite Hk; lia).
  - rewrite lookup_app_r by (rewrite Hk; lia). rewrite Hk.
    replace (k + i * k + j - k) with (i * k + j) by lia. apply IH.
Qed.

(** ** Generic lemmas on integers *)
Section integers.
Local Open Scope Z_scope.

(** The bit trick [x & (x - 1) == 0] tests for a power of two. *)
Lemma land_pred_pow2 x :
  0 < x → (Z.land x (x - 1) = 0 ↔ ∃ k, 0 ≤ k ∧ x = 2 ^ k).
Proof.
  intros Hx. split.
  - intros Hl. exists (Z.log2 x).
    pose proof (Z.log2_nonneg x) as Hk. split; [done|].
    destruct (Z.log2_spec x Hx) as [Hlo Hhi].
    destruct (decide (x = 2 ^ Z.log2 x)) as [?|Hne]; [done|exfalso].
    assert (Z.log2 (x - 1) = Z.log2 x) as Hlog by (apply Z.log2_unique; lia).
    assert (Z.testbit (Z.land x (x - 1)) (Z.log2 x) = true) as Hb.
    { rewrite Z.land_spec, Z.bit_log2 by done.
      rewrite <- Hlog, Z.bit_log2; [done|].
      pose proof (Z.pow_pos_nonneg 2 (Z.log2 x)). lia. }
    rewrite Hl, Z.bits_0 in Hb. done.
  - intros (k & Hk & ->).
    replace (2 ^ k - 1) with (Z.ones k) by (rewrite Z.ones_equiv; lia).
    rewrite Z.land_ones by done. apply Z.mod_same. lia.
Qed.

Lemma Z_div_floor_error a d : 0 < d → 0 ≤ a - d * (a / d) < d.
Proof. intros Hd. pose proof (Z.div_mod a d). pose proof (Z.mod_pos_bound a d). lia. Qed.

End integers.

(** ** Hint database of the development *)
Create HintDb kvio.
