(* ===== verification/PyText.v ===== *)
(** * Python text: the [str] operations the tool relies on

    A Python [str] is modelled by [string], i.e. by text whose code points
    are below 256 (Latin-1).  The classes of characters ([isdigit],
    whitespace, line boundaries, printable) are Python's, restricted to that
    range.  The file holds [str(int)], [int(str)], [split], [splitlines],
    [join], [strip], [isdigit], [startswith], [split(sep)], and [repr] of a
    string, with the round-trip lemmas the parsers of the tool need. *)

From S2P Require Import Prelude.
From stdpp Require Import prelude strings list.
From Stdlib Require Import ZArith Lia Ascii.
Local Open Scope Z_scope.

#[global] Arguments String.eqb : simpl never.

Definition code (c : ascii) : Z := Z.of_N (N_of_ascii c).

Definition chr (z : Z) : ascii := ascii_of_N (Z.to_N z).

Lemma code_chr z : 0 ≤ z < 256 → code (chr z) = z.
Proof.
  intros Hz. unfold code, chr. rewrite N_ascii_embedding by lia. lia.
Qed.

(** ** Character classes *)
Definition is_digit09 (c : ascii) : bool := (48 <=? code c) && (code c <=? 57).

(** [str.isdigit] also accepts the superscripts U+00B2, U+00B3, U+00B9. *)
Definition is_pydigit (c : ascii) : bool :=
  is_digit09 c || (code c =? 178) || (code c =? 179) || (code c =? 185).

Definition is_space (c : ascii) : bool :=
  ((9 <=? code c) && (code c <=? 13)) || ((28 <=? code c) && (code c <=? 32))
  || (code c =? 133) || (code c =? 160).

(** Line boundaries of [str.splitlines]. *)
Definition is_linebreak (c : ascii) : bool :=
  ((10 <=? code c) && (code c <=? 13)) || ((28 <=? code c) && (code c <=? 30))
  || (code c =? 133).

Definition is_printable (c : ascii) : bool :=
  ((32 <=? code c) && (code c <=? 126)) || ((161 <=? code c) && negb (code c =? 173)).

Lemma linebreak_is_space c : is_linebreak c = true → is_space c = true.
Proof. unfold is_linebreak, is_space. lia. Qed.

Fixpoint sforall (p : ascii → bool) (s : string) : bool :=
  match s with
  | EmptyString => true
  | String c s => p c && sforall p s
  end.

Lemma sapp_cons c (s t : string) : String c s +:+ t = String c (s +:+ t).
Proof. done. Qed.

Lemma sforall_app p s t : sforall p (s +:+ t) = sforall p s && sforall p t.
Proof. induction s as [|c s IH]; [done|]. rewrite sapp_cons. simpl. by rewrite IH, andb_assoc. Qed.

Lemma sforall_impl (p q : ascii → bool) s :
  (∀ c, p c = true → q c = true) → sforall p s = true → sforall q s = true.
Proof.
  intros Hpq. induction s as [|c s IH]; simpl; [done|].
  rewrite !andb_true_iff. intros [??]; auto.
Qed.

(** [str.isdigit()] *)
Definition isdigit (s : string) : bool :=
  negb (String.eqb s "") && sforall is_pydigit s.

(** ** Rope-free string algebra *)
Lemma sapp_assoc (s t u : string) : (s +:+ t) +:+ u = s +:+ (t +:+ u).
Proof. induction s as [|c s IH]; [done|]. by rewrite !sapp_cons, IH. Qed.

Lemma sapp_nil_r (s : string) : s +:+ "" = s.
Proof. induction s as [|c s IH]; [done|]. by rewrite sapp_cons, IH. Qed.

Lemma sapp_inj_l (p s t : string) : p +:+ s = p +:+ t → s = t.
Proof. induction p as [|c p IH]; [done|]. rewrite !sapp_cons. intros [=]; auto. Qed.

(** ** [str(int)] and [int(str)] *)
Definition digit (d : Z) : ascii := chr (48 + d).

Definition digit_val (c : ascii) : Z := code c - 48.

Lemma digit_val_digit d : 0 ≤ d < 10 → digit_val (digit d) = d.
Proof. intros Hd. unfold digit_val, digit. rewrite code_chr; lia. Qed.

Lemma is_digit09_digit d : 0 ≤ d < 10 → is_digit09 (digit d) = true.
Proof. intros Hd. unfold is_digit09, digit. rewrite code_chr; lia. Qed.

(** Decimal digits of a natural number, most significant first, consed onto
    [acc]; [fuel] bounds the number of digits. *)
Fixpoint dec_digits (fuel : nat) (n : Z) (acc : string) : string :=
  match fuel with
  | O => acc
  | S fuel =>
      let acc' := String (digit (n mod 10)) acc in
      if n <? 10 then acc' else dec_digits fuel (n / 10) acc'
  end.

(** One digit per bit is plenty. *)
Definition dec_fuel (n : Z) : nat := S (Z.to_nat (Z.log2 n)).

Definition str_of_nat (n : Z) : string := dec_digits (dec_fuel n) n "".

(** [str(z)] for a Python [int]. *)
Definition str_of_Z (z : Z) : string :=
  if z <? 0 then String "-"%char (str_of_nat (- z)) else str_of_nat z.

(** The value of a run of decimal digits that starts at value [acc]; [None]
    when a character is not a digit.  A single underscore is accepted between
    two digits, as in [int("1_000")]; [prev] says whether the previous
    character was a digit. *)
Fixpoint parse_digits (acc : Z) (prev : bool) (s : string) : option Z :=
  match s with
  | EmptyString => if prev then Some acc else None
  | String c s =>
      if is_digit09 c then parse_digits (10 * acc + digit_val c) true s
      else if (code c =? 95) && prev then parse_digits acc false s
      else None
  end.

Fixpoint lstrip (s : string) : string :=
  match s with
  | EmptyString => EmptyString
  | String c s' => if is_space c then lstrip s' else s
  end.

(** Drop the trailing whitespace. *)
Fixpoint rstrip (s : string) : string :=
  match s with
  | EmptyString => EmptyString
  | String c s' =>
      let r := rstrip s' in
      if is_space c && String.eqb r "" then EmptyString else String c r
  end.

(** [s.strip()] *)
Definition strip (s : string) : string := rstrip (lstrip s).

(** [int(s)] for a [str] argument. *)
Definition int_of_str (s : string) : res Z :=
  let bad := Raise (Exn ValueError "invalid literal for int()") in
  match strip s with
  | EmptyString => bad
  | String c t =>
      if code c =? 45 then
        match parse_digits 0 false t with Some n => Ok (- n) | None => bad end
      else if code c =? 43 then
        match parse_digits 0 false t with Some n => Ok n | None => bad end
      else match parse_digits 0 false (String c t) with
           | Some n => Ok n | None => bad end
  end.

Lemma parse_dec_digits fuel n acc :
  0 ≤ n < 2 ^ Z.of_nat fuel → (0 < fuel)%nat →
  parse_digits 0 false (dec_digits fuel n acc) = parse_digits n true acc.
Proof.
  revert n acc. induction fuel as [|fuel IH]; intros n acc Hn Hf; [lia|]; simpl.
  destruct (Z.ltb_spec n 10) as [Hlt|Hge].
  - simpl. rewrite is_digit09_digit, digit_val_digit by (apply Z.mod_pos_bound; lia).
    by rewrite Z.mod_small by lia.
  - assert (0 < fuel)%nat as Hf'.
    { destruct fuel; [simpl in Hn; lia|lia]. }
    rewrite IH; [|split|done].
    + simpl. rewrite is_digit09_digit, digit_val_digit
        by (apply Z.mod_pos_bound; lia).
      f_equal. pose proof (Z.div_mod n 10). lia.
    + apply Z.div_pos; lia.
    + apply Z.div_lt_upper_bound; [lia|].
      rewrite Nat2Z.inj_succ, Z.pow_succ_r in Hn by lia. lia.
Qed.

Lemma dec_fuel_enough n : 0 ≤ n → n < 2 ^ Z.of_nat (dec_fuel n).
Proof.
  intros Hn. unfold dec_fuel. rewrite Nat2Z.inj_succ, Z2Nat.id by apply Z.log2_nonneg.
  destruct (decide (n = 0)) as [->|]; [done|].
  apply Z.log2_spec. lia.
Qed.

Lemma parse_str_of_nat n : 0 ≤ n → parse_digits 0 false (str_of_nat n) = Some n.
Proof.
  intros Hn. unfold str_of_nat. rewrite parse_dec_digits; [done| |unfold dec_fuel; lia].
  split; [done|]. by apply dec_fuel_enough.
Qed.

Lemma dec_digits_digits fuel n acc :
  0 ≤ n → sforall is_digit09 acc = true →
  sforall is_digit09 (dec_digits fuel n acc) = true.
Proof.
  revert n acc. induction fuel as [|fuel IH]; intros n acc Hn Ha; [done|]; simpl.
  assert (sforall is_digit09 (String (digit (n mod 10)) acc) = true) as Hc.
  { simpl. rewrite is_digit09_digit by (apply Z.mod_pos_bound; lia). done. }
  destruct (Z.ltb_spec n 10); [done|]. apply IH; [apply Z.div_pos; lia|done].
Qed.

Lemma str_of_nat_digits n : 0 ≤ n → sforall is_digit09 (str_of_nat n) = true.
Proof. intros. by apply dec_digits_digits. Qed.

Lemma dec_digits_cons fuel n acc : ∃ c s, dec_digits (S fuel) n acc = String c s.
Proof.
  revert n acc. induction fuel as [|fuel IH]; intros n acc; simpl.
  - destruct (n <? 10); eauto.
  - destruct (n <? 10); [eauto|]. apply IH.
Qed.

Lemma str_of_nat_nonempty n : str_of_nat n ≠ "".
Proof. unfold str_of_nat, dec_fuel. destruct (dec_digits_cons (Z.to_nat (Z.log2 n)) n "") as (?&?&->). done. Qed.

Lemma digit09_not_space c : is_digit09 c = true → is_space c = false.
Proof. unfold is_digit09, is_space. lia. Qed.

Lemma rstrip_app s t : rstrip t ≠ "" → rstrip (s +:+ t) = s +:+ rstrip t.
Proof.
  intros Ht. induction s as [|c s IH]; [done|]. rewrite !sapp_cons. cbn [rstrip]. rewrite IH.
  destruct (String.eqb_spec (s +:+ rstrip t) "") as [E|E]; [|by rewrite andb_false_r].
  destruct s; [exfalso; by apply Ht|done].
Qed.

Lemma rstrip_end s t : t ≠ "" → rstrip t = t → rstrip (s +:+ t) = s +:+ t.
Proof. intros Hne Ht. rewrite rstrip_app; rewrite Ht; done. Qed.

Lemma rstrip_nospace s : sforall (λ c, negb (is_space c)) s = true → rstrip s = s.
Proof.
  induction s as [|c s IH]; simpl; [done|].
  intros [Hc Hs]%andb_true_iff. rewrite IH by done.
  apply negb_true_iff in Hc. by rewrite Hc.
Qed.

Lemma strip_nospace s : sforall (λ c, negb (is_space c)) s = true → strip s = s.
Proof.
  intros Hs. unfold strip. destruct s as [|c s]; [done|].
  assert (lstrip (String c s) = String c s) as ->.
  { simpl in *. apply andb_true_iff in Hs as [Hc _].
    apply negb_true_iff in Hc. by rewrite Hc. }
  by apply rstrip_nospace.
Qed.

Lemma digits_nospace s :
  sforall is_digit09 s = true → sforall (λ c, negb (is_space c)) s = true.
Proof. apply sforall_impl. intros c Hc. by rewrite digit09_not_space. Qed.

Lemma str_of_Z_nospace z : sforall (λ c, negb (is_space c)) (str_of_Z z) = true.
Proof.
  unfold str_of_Z. destruct (Z.ltb_spec z 0).
  - simpl. apply digits_nospace, str_of_nat_digits. lia.
  - apply digits_nospace, str_of_nat_digits. lia.
Qed.

Lemma str_of_Z_nonempty z : str_of_Z z ≠ "".
Proof. unfold str_of_Z. destruct (z <? 0); [done|apply str_of_nat_nonempty]. Qed.

(** [int(str(z)) == z]. *)
Lemma int_of_str_of_Z z : int_of_str (str_of_Z z) = Ok z.
Proof.
  unfold int_of_str. rewrite strip_nospace by apply str_of_Z_nospace.
  unfold str_of_Z. destruct (Z.ltb_spec z 0) as [Hz|Hz].
  - change (code "-" =? 45) with true. cbv iota.
    rewrite parse_str_of_nat by lia. f_equal. lia.
  - pose proof (str_of_nat_digits z Hz) as Hd.
    pose proof (parse_str_of_nat z Hz) as Hp.
    destruct (str_of_nat z) as [|c t] eqn:E; [by apply str_of_nat_nonempty in E|].
    simpl in Hd. apply andb_true_iff in Hd as [Hc _].
    unfold is_digit09 in Hc.
    destruct (Z.eqb_spec (code c) 45); [lia|].
    destruct (Z.eqb_spec (code c) 43); [lia|].
    by rewrite Hp.
Qed.

#[export] Instance str_of_Z_inj : Inj (=) (=) str_of_Z.
Proof.
  intros x y Hxy. pose proof (int_of_str_of_Z x) as Hx.
  rewrite Hxy, int_of_str_of_Z in Hx. by injection Hx.
Qed.

(** ** [split], [splitlines], [join] *)
Definition cons_nonempty (w : string) (ws : list string) : list string :=
  if String.eqb w "" then ws else w :: ws.

Fixpoint split_go (s : string) : string * list string :=
  match s with
  | EmptyString => (EmptyString, [])
  | String c s =>
      let '(w, ws) := split_go s in
      if is_space c then (EmptyString, cons_nonempty w ws) else (String c w, ws)
  end.

(** [s.split()] *)
Definition py_split (s : string) : list string :=
  let '(w, ws) := split_go s in cons_nonempty w ws.

Fixpoint splitlines (s : string) : list string :=
  match s with
  | EmptyString => []
  | String c s' =>
      if is_linebreak c then
        EmptyString ::
        match s' with
        | String c2 s'' =>
            if (code c =? 13) && (code c2 =? 10) then splitlines s''
            else splitlines s'
        | EmptyString => []
        end
      else match splitlines s' with
           | [] => [String c EmptyString]
           | l :: ls => String c l :: ls
           end
  end.

Definition LF : string := String (chr 10) EmptyString.

(** [sep.join(parts)] *)
Fixpoint py_join (sep : string) (parts : list string) : string :=
  match parts with
  | [] => ""
  | [p] => p
  | p :: ps => p +:+ sep +:+ py_join sep ps
  end.

Definition nospace (s : string) : bool := sforall (λ c, negb (is_space c)) s.

Lemma split_go_word w s :
  nospace w = true → split_go (w +:+ s) = let '(v, ws) := split_go s in (w +:+ v, ws).
Proof.
  induction w as [|c w IH]; simpl; intros Hw.
  - change ("" +:+ s) with s. by destruct (split_go s).
  - apply andb_true_iff in Hw as [Hc Hw]. change (String c w +:+ s) with (String c (w +:+ s)).
    simpl. rewrite IH by done. apply negb_true_iff in Hc.
    destruct (split_go s) as [v ws]. by rewrite Hc.
Qed.

Lemma py_split_word_space w c s :
  nospace w = true → w ≠ "" → is_space c = true →
  py_split (w +:+ String c s) = w :: py_split s.
Proof.
  intros Hw Hne Hc. unfold py_split. rewrite split_go_word by done. simpl.
  destruct (split_go s) as [v ws]. rewrite Hc, sapp_nil_r. unfold cons_nonempty at 1.
  by destruct (String.eqb_spec w "") as [->|].
Qed.

Lemma py_split_word w : nospace w = true → w ≠ "" → py_split w = [w].
Proof.
  intros Hw Hne. unfold py_split. rewrite <- (sapp_nil_r w) at 1.
  rewrite split_go_word by done. simpl. rewrite sapp_nil_r. unfold cons_nonempty.
  by destruct (String.eqb_spec w "") as [->|].
Qed.

Definition oneline (s : string) : bool := sforall (λ c, negb (is_linebreak c)) s.

Lemma nospace_oneline s : nospace s = true → oneline s = true.
Proof.
  apply sforall_impl. intros c. rewrite !negb_true_iff. intros Hc.
  destruct (is_linebreak c) eqn:E; [|done]. apply linebreak_is_space in E. congruence.
Qed.

Lemma splitlines_line l s :
  oneline l = true → splitlines (l +:+ LF +:+ s) = l :: splitlines s.
Proof.
  induction l as [|c l IH]; intros Hl; simpl.
  - change ("" +:+ LF +:+ s) with (String (chr 10) s). simpl.
    by destruct s.
  - simpl in Hl. apply andb_true_iff in Hl as [Hc Hl]. apply negb_true_iff in Hc.
    change (String c l +:+ LF +:+ s) with (String c (l +:+ LF +:+ s)). simpl.
    by rewrite Hc, IH.
Qed.

(** Reading back ["\n".join(lines) + "\n"]. *)
Lemma splitlines_join ls :
  Forall (λ l, oneline l = true) ls → ls ≠ [] →
  splitlines (py_join LF ls +:+ LF) = ls.
Proof.
  intros Hls Hne. induction Hls as [|l ls Hl Hls IH]; [done|].
  destruct ls as [|l2 ls].
  - simpl. rewrite <- (sapp_nil_r LF) at 1. by rewrite splitlines_line.
  - change (py_join LF (l :: l2 :: ls)) with (l +:+ LF +:+ py_join LF (l2 :: ls)).
    rewrite !sapp_assoc, splitlines_line by done. f_equal. by apply IH.
Qed.

(** ** [repr] of a string *)
Definition hex_digit (d : Z) : ascii :=
  if d <? 10 then chr (48 + d) else chr (87 + d).

Definition hex2 (z : Z) : string :=
  String (hex_digit (z / 16)) (String (hex_digit (z mod 16)) EmptyString).

Fixpoint has_char (z : Z) (s : string) : bool :=
  match s with
  | EmptyString => false
  | String c s => (code c =? z) || has_char z s
  end.

Definition repr_char (q : Z) (c : ascii) : string :=
  let z := code c in
  if (z =? q) || (z =? 92) then String (chr 92) (String c EmptyString)
  else if z =? 9 then String (chr 92) "t"
  else if z =? 10 then String (chr 92) "n"
  else if z =? 13 then String (chr 92) "r"
  else if is_printable c then String c EmptyString
  else String (chr 92) ("x" +:+ hex2 z).

Fixpoint repr_body (q : Z) (s : string) : string :=
  match s with
  | EmptyString => ""
  | String c s => repr_char q c +:+ repr_body q s
  end.

(** [repr(s)]: single quotes unless the text has one and no double quote. *)
Definition repr_str (s : string) : string :=
  let q := if has_char 39 s && negb (has_char 34 s) then 34 else 39 in
  String (chr q) (repr_body q s +:+ String (chr q) "").

(** ** Prefix test and [split(sep)] for a one-character separator *)
Fixpoint startswith (p s : string) : bool :=
  match p, s with
  | EmptyString, _ => true
  | String a p, String b s => Ascii.eqb a b && startswith p s
  | String _ _, EmptyString => false
  end.

Fixpoint split_on (z : Z) (s : string) : list string :=
  match s with
  | EmptyString => [EmptyString]
  | String c s =>
      if code c =? z then EmptyString :: split_on z s
      else match split_on z s with
           | [] => [String c EmptyString]
           | w :: ws => String c w :: ws
           end
  end.

Lemma split_on_nonempty z s : split_on z s ≠ [].
Proof. destruct s as [|c s]; [done|]; simpl. destruct (code c =? z); [done|]. by destruct (split_on z s). Qed.

Lemma split_on_no z s : has_char z s = false → split_on z s = [s].
Proof.
  induction s as [|c s IH]; simpl; [done|]. intros [Hc Hs]%orb_false_iff.
  by rewrite Hc, IH.
Qed.

Lemma split_on_sep z p s :
  has_char z p = false → 0 ≤ z < 256 →
  split_on z (p +:+ String (chr z) s) = p :: split_on z s.
Proof.
  intros Hp Hz. induction p as [|c p IH].
  - change ("" +:+ String (chr z) s) with (String (chr z) s). simpl.
    rewrite code_chr by done. by rewrite Z.eqb_refl.
  - simpl in Hp. apply orb_false_iff in Hp as [Hc Hp].
    rewrite sapp_cons. simpl. by rewrite Hc, IH.
Qed.

(** [s in t] for a [str] needle. *)
Fixpoint substr (p s : string) : bool :=
  startswith p s || match s with EmptyString => false | String _ s => substr p s end.

Example int_underscore : int_of_str " 1_000 " = Ok 1000.
Proof. reflexivity. Qed.
Example int_bad : int_of_str "1__0" = Raise (Exn ValueError "invalid literal for int()").
Proof. reflexivity. Qed.
Example str_neg : str_of_Z (-120) = "-120".
Proof. reflexivity. Qed.
Example split_ex : py_split "  12 /dev/x  read " = ["12"; "/dev/x"; "read"].
Proof. reflexivity. Qed.
