(* ===== verification/PyJson.v ===== *)
(** * Python values read from JSON

    The documents of the tool are plain JSON decoded by [json.loads]; the
    validators inspect them with [isinstance], [.get], [==], [in], [int()] and
    [str()].  This file models those values and operations: numbers keep
    Python's three numeric types apart ([bool], [int], [float]) and compare
    across them as Python does, dictionaries keep insertion order, and
    operations on a value of the wrong type raise what Python raises. *)

From S2P Require Import Prelude PyText.
From stdpp Require Import prelude strings list sorting.
From Stdlib Require Import ZArith Lia Ascii.
Local Open Scope Z_scope.

(** ** Floats: [(-1)^neg * m * 2^e], the infinities and NaN *)
Inductive pyfloat :=
  | FFin (neg : bool) (m : N) (e : Z)
  | FInf (neg : bool)
  | FNaN.

Inductive json :=
  | JNull
  | JBool (b : bool)
  | JInt (z : Z)
  | JFloat (f : pyfloat)
  | JStr (s : string)
  | JList (l : list json)
  | JObj (d : list (string * json)).

(** Induction with hypotheses for the elements of lists and dictionaries. *)
Section json_ind.
Variable P : json → Prop.
Hypothesis Hnull : P JNull.
Hypothesis Hbool : ∀ b, P (JBool b).
Hypothesis Hint : ∀ z, P (JInt z).
Hypothesis Hfloat : ∀ f, P (JFloat f).
Hypothesis Hstr : ∀ s, P (JStr s).
Hypothesis Hlist : ∀ l, Forall P l → P (JList l).
Hypothesis Hobj : ∀ d, Forall (λ kv, P kv.2) d → P (JObj d).
Fixpoint json_ind' (v : json) : P v :=
  match v with
  | JNull => Hnull
  | JBool b => Hbool b
  | JInt z => Hint z
  | JFloat f => Hfloat f
  | JStr s => Hstr s
  | JList l => Hlist l
      ((fix go l : Forall P l :=
          match l with
          | [] => Forall_nil_2 P
          | x :: l => Forall_cons_2 P x l (json_ind' x) (go l)
          end) l)
  | JObj d => Hobj d
      ((fix go d : Forall (λ kv, P kv.2) d :=
          match d with
          | [] => Forall_nil_2 _
          | kv :: d => Forall_cons_2 _ kv d (json_ind' kv.2) (go d)
          end) d)
  end.
End json_ind.

(** ** Dictionaries with string keys: insertion-ordered association lists *)
Section dict.
Context {A : Type}.
Implicit Types d : list (string * A).

Fixpoint dget (k : string) d : option A :=
  match d with
  | [] => None
  | (k', v) :: d => if String.eqb k k' then Some v else dget k d
  end.

(** [d[k] = v]: replace in place, or append. *)
Fixpoint dset (k : string) (v : A) d : list (string * A) :=
  match d with
  | [] => [(k, v)]
  | (k', v') :: d => if String.eqb k k' then (k, v) :: d else (k', v') :: dset k v d
  end.

Definition dhas (k : string) d : bool :=
  match dget k d with Some _ => true | None => false end.

Definition keys d : list string := map fst d.

Lemma dget_dset k v d k' :
  dget k' (dset k v d) = if String.eqb k' k then Some v else dget k' d.
Proof.
  induction d as [|[k2 v2] d IH]; simpl; [done|].
  destruct (String.eqb_spec k k2) as [->|Hne]; simpl.
  - by destruct (String.eqb_spec k' k2).
  - rewrite IH. destruct (String.eqb_spec k' k2) as [->|]; [|done].
    by destruct (String.eqb_spec k2 k).
Qed.

Lemma dget_dset_eq k v d : dget k (dset k v d) = Some v.
Proof. rewrite dget_dset. by rewrite String.eqb_refl. Qed.

Lemma dget_Some_In k d v : dget k d = Some v → (k, v) ∈ d.
Proof.
  induction d as [|[k' v'] d IH]; simpl; [done|].
  destruct (String.eqb_spec k k') as [->|]; [intros [=->]; left|right; auto].
Qed.

Lemma dget_None_keys k d : dget k d = None ↔ k ∉ keys d.
Proof.
  induction d as [|[k' v'] d IH]; simpl; [set_solver|].
  rewrite not_elem_of_cons. destruct (String.eqb_spec k k'); naive_solver.
Qed.

Lemma dget_NoDup k v d : NoDup (keys d) → (k, v) ∈ d → dget k d = Some v.
Proof.
  induction d as [|[k' v'] d IH]; simpl; [set_solver|].
  intros Hnd [[= -> ->]|Hin]%elem_of_cons; [by rewrite String.eqb_refl|].
  apply NoDup_cons in Hnd as [Hni Hnd].
  destruct (String.eqb_spec k k') as [->|]; [|auto].
  exfalso. apply Hni. apply list_elem_of_In, in_map_iff. exists (k', v).
  split; [done|]. by apply list_elem_of_In.
Qed.

Lemma dhas_keys k d : dhas k d = true ↔ k ∈ keys d.
Proof.
  unfold dhas. destruct (dget k d) eqn:E; split; intros H; try done.
  - apply dget_Some_In in E. apply list_elem_of_In, in_map_iff.
    exists (k, a). split; [done|]. by apply list_elem_of_In.
  - by apply dget_None_keys in E.
Qed.

Lemma keys_dset k v d :
  keys (dset k v d) = if dhas k d then keys d else keys d ++ [k].
Proof.
  unfold dhas. induction d as [|[k' v'] d IH]; simpl; [done|].
  destruct (String.eqb_spec k k') as [->|]; simpl; [done|].
  rewrite IH. by destruct (dget k d).
Qed.

Lemma NoDup_dset k v d : NoDup (keys d) → NoDup (keys (dset k v d)).
Proof.
  intros H. rewrite keys_dset. destruct (dhas k d) eqn:E; [done|]. apply NoDup_app. split; [done|]. split; [|apply NoDup_singleton].
  intros x Hx ->%list_elem_of_singleton. apply dhas_keys in Hx. congruence.
Qed.

Lemma dget_app k d1 d2 : dget k (d1 ++ d2) = match dget k d1 with Some v => Some v | None => dget k d2 end.
Proof. induction d1 as [|[k' v] d1 IH]; [done|]. simpl. by destruct (String.eqb k k'). Qed.
End dict.

(** ** Numeric values *)
Inductive pynum := NRat (m e : Z) | NInf (neg : bool) | NNaN.

Definition b2Z (b : bool) : Z := if b then 1 else 0.

Definition sgn (neg : bool) (m : N) : Z := if neg then - Z.of_N m else Z.of_N m.

Definition num_of (v : json) : option pynum :=
  match v with
  | JBool b => Some (NRat (b2Z b) 0)
  | JInt z => Some (NRat z 0)
  | JFloat (FFin neg m e) => Some (NRat (sgn neg m) e)
  | JFloat (FInf neg) => Some (NInf neg)
  | JFloat FNaN => Some NNaN
  | _ => None
  end.

(** Exact comparison of [m1 * 2^e1] and [m2 * 2^e2]. *)
Definition rat_eqb (m1 e1 m2 e2 : Z) : bool :=
  let lo := Z.min e1 e2 in m1 * 2 ^ (e1 - lo) =? m2 * 2 ^ (e2 - lo).

Definition num_eqb (a b : pynum) : bool :=
  match a, b with
  | NRat m1 e1, NRat m2 e2 => rat_eqb m1 e1 m2 e2
  | NInf n1, NInf n2 => Bool.eqb n1 n2
  | NNaN, NNaN => true
  | _, _ => false
  end.

(** Equality of elements of containers: identity or [==].  [json.loads]
    returns one shared NaN object, hence NaN equals itself here. *)
Fixpoint py_eqc (a b : json) {struct a} : bool :=
  match a, b with
  | JNull, JNull => true
  | JStr s, JStr t => String.eqb s t
  | JList l, JList k =>
      (fix go (l k : list json) : bool :=
         match l, k with
         | [], [] => true
         | x :: l, y :: k => py_eqc x y && go l k
         | _, _ => false
         end) l k
  | JObj d, JObj d' =>
      (length d =? length d')%nat &&
      (fix go (d : list (string * json)) : bool :=
         match d with
         | [] => true
         | (k, v) :: d =>
             match dget k d' with
             | Some v' => py_eqc v v' && go d
             | None => false
             end
         end) d
  | _, _ =>
      match num_of a, num_of b with
      | Some x, Some y => num_eqb x y
      | _, _ => false
      end
  end.

(** [a == b] at the top level, where NaN differs from itself. *)
Definition py_eq (a b : json) : bool :=
  match a, b with
  | JFloat FNaN, _ | _, JFloat FNaN => false
  | _, _ => py_eqc a b
  end.

Definition eq_str (v : json) (s : string) : bool :=
  match v with JStr t => String.eqb t s | _ => false end.

Lemma py_eq_str v s : py_eq v (JStr s) = eq_str v s.
Proof. destruct v as [| | | [| |] | | |]; done. Qed.

Lemma eq_str_true v s : eq_str v s = true ↔ v = JStr s.
Proof.
  destruct v; simpl; split; try done; [|injection 1 as ->; apply String.eqb_refl].
  by intros ->%String.eqb_eq.
Qed.

Lemma py_eq_int v z : py_eq v (JInt z) = match num_of v with
  | Some x => num_eqb x (NRat z 0) | None => false end.
Proof. destruct v as [| | | [| |] | | |]; done. Qed.

Lemma num_eqb_int x z : num_eqb (NRat x 0) (NRat z 0) = (x =? z).
Proof. unfold num_eqb, rat_eqb. simpl. by rewrite !Z.mul_1_r. Qed.

Lemma py_eq_int_int x z : py_eq (JInt x) (JInt z) = (x =? z).
Proof. apply num_eqb_int. Qed.

(** ** Type tests *)
Definition is_dict (v : json) : bool := match v with JObj _ => true | _ => false end.
Definition is_list (v : json) : bool := match v with JList _ => true | _ => false end.
Definition is_str (v : json) : bool := match v with JStr _ => true | _ => false end.
Definition is_none (v : json) : bool := match v with JNull => true | _ => false end.
(** [type(v) is int], also [isinstance(v, int) and not isinstance(v, bool)]. *)
Definition is_int (v : json) : bool := match v with JInt _ => true | _ => false end.
Definition is_bool (v : json) : bool := match v with JBool _ => true | _ => false end.
Definition hashable (v : json) : bool :=
  match v with JList _ | JObj _ => false | _ => true end.

(** Truth value of an object. *)
Definition py_true (v : json) : bool :=
  match v with
  | JNull => false
  | JBool b => b
  | JInt z => negb (z =? 0)
  | JFloat (FFin _ m _) => negb (m =? 0)%N
  | JFloat _ => true
  | JStr s => negb (String.eqb s "")
  | JList l => match l with [] => false | _ => true end
  | JObj d => match d with [] => false | _ => true end
  end.

(** ** Access *)
Definition no_attribute {A} : res A := Raise (Exn AttributeError "object has no attribute 'get'").
Definition unhashable {A} : res A := Raise (Exn TypeError "unhashable type").

(** [d.get(k)] on a dictionary, [None] when absent. *)
Definition getd (d : list (string * json)) (k : string) : json :=
  default JNull (dget k d).

(** Evaluate [getd] on a literal dictionary, leaving the values alone. *)
Ltac getd_eval d k :=
  eval lazy [getd dget from_option id String.eqb Ascii.eqb Bool.eqb] in (getd d k).
Ltac getd_simpl :=
  repeat match goal with
  | |- context [getd ?d ?k] => let v := getd_eval d k in progress change (getd d k) with v
  end.

(** [v.get(k)] on any value. *)
Definition get (v : json) (k : string) : res json :=
  match v with JObj d => Ok (getd d k) | _ => no_attribute end.

(** [v.get(k, dflt)]. *)
Definition get_default (v : json) (k : string) (dflt : json) : res json :=
  match v with JObj d => Ok (default dflt (dget k d)) | _ => no_attribute end.

(** [v[k]] for a string key. *)
Definition item (v : json) (k : string) : res json :=
  match v with
  | JObj d => match dget k d with Some x => Ok x | None => Raise (Exn KeyError k) end
  | _ => Raise (Exn TypeError "indices must be integers")
  end.

(** [v in d] for a dictionary or set of strings given by its keys. *)
Definition in_keys {A} (v : json) (d : list (string * A)) : res bool :=
  match v with
  | JStr s => Ok (dhas s d)
  | JList _ | JObj _ => unhashable
  | _ => Ok false
  end.

(** [v in ("a", "b", ...)]: membership in a tuple of strings uses [==]. *)
Definition in_tuple (v : json) (l : list string) : bool :=
  existsb (λ s, eq_str v s) l.

Lemma in_tuple_true v l : in_tuple v l = true ↔ ∃ s, v = JStr s ∧ s ∈ l.
Proof.
  unfold in_tuple. rewrite existsb_exists.
  setoid_rewrite eq_str_true. setoid_rewrite list_elem_of_In. naive_solver.
Qed.

(** ** [int(v)] *)
Definition float_trunc (neg : bool) (m : N) (e : Z) : Z :=
  let a := if 0 <=? e then Z.of_N m * 2 ^ e else Z.of_N m / 2 ^ (- e) in
  if neg then - a else a.

Definition py_int (v : json) : res Z :=
  match v with
  | JInt z => Ok z
  | JBool b => Ok (b2Z b)
  | JFloat (FFin neg m e) => Ok (float_trunc neg m e)
  | JFloat (FInf _) => Raise (Exn OverflowError "cannot convert float infinity to integer")
  | JFloat FNaN => Raise (Exn ValueError "cannot convert float NaN to integer")
  | JStr s => int_of_str s
  | _ => Raise (Exn TypeError "int() argument must be a string or a number")
  end.

(** ** [str(v)] and [repr(v)]

    The decimal form of a float is the shortest one that reads back as the
    same binary64 number. *)
Section float_repr.

(** Nearest binary64 to [num / den], ties to even, as mantissa and exponent. *)
Definition round_double (num den : Z) : Z * Z :=
  let e0 := Z.log2 num - Z.log2 den - 52 in
  let quo e := if 0 <=? e then (num, den * 2 ^ e) else (num * 2 ^ (- e), den) in
  let q0 := let '(a, b) := quo e0 in a / b in
  let e1 := if q0 <? 2 ^ 52 then e0 - 1 else if 2 ^ 53 <=? q0 then e0 + 1 else e0 in
  let e := Z.max e1 (-1074) in
  let '(a, b) := quo e in
  let q := a / b in let r := a mod b in
  let q' := if (2 * r <? b) then q else if (b <? 2 * r) then q + 1
            else if Z.even q then q else q + 1 in
  if q' =? 2 ^ 53 then (2 ^ 52, e + 1) else (q', e).

(** [floor(log10(num / den))] *)
Fixpoint dec_exp_small (fuel : nat) (j num den : Z) : Z :=
  match fuel with
  | O => - j
  | S fuel => if den <=? num * 10 ^ j then - j else dec_exp_small fuel (j + 1) num den
  end.

Definition dec_exp (num den : Z) : Z :=
  if den <=? num then Z.of_nat (String.length (str_of_nat (num / den))) - 1
  else dec_exp_small 330 1 num den.

Definition scale10 (num den k : Z) : Z * Z :=
  if 0 <=? k then (num, den * 10 ^ k) else (num * 10 ^ (- k), den).

Definition round_half_even (a b : Z) : Z :=
  let q := a / b in let r := a mod b in
  if 2 * r <? b then q else if b <? 2 * r then q + 1
  else if Z.even q then q else q + 1.

(** First number of digits whose rounding reads back; digits and exponent. *)
Fixpoint shortest (fuel : nat) (nd num den p : Z) : Z * Z :=
  let k := p - nd + 1 in
  let d := let '(a, b) := scale10 num den k in round_half_even a b in
  let back := if 0 <=? k then round_double (d * 10 ^ k) 1
              else round_double d (10 ^ (- k)) in
  let '(m1, e1) := back in let '(m2, e2) := round_double num den in
  let ok := (m1 =? m2) && (e1 =? e2) in
  match fuel with
  | O => (d, k)
  | S fuel => if ok then (d, k) else shortest fuel (nd + 1) num den p
  end.

Fixpoint zeros (n : nat) : string :=
  match n with O => "" | S n => String "0"%char (zeros n) end.

Definition fmt_float (ds : string) (p : Z) : string :=
  let nd := Z.of_nat (String.length ds) in
  if (-4 <=? p) && (p <? 16) then
    if p <? 0 then "0." +:+ zeros (Z.to_nat (- p - 1)) +:+ ds
    else if nd <=? p + 1 then ds +:+ zeros (Z.to_nat (p + 1 - nd)) +:+ ".0"
    else String.substring 0 (Z.to_nat (p + 1)) ds +:+ "." +:+
         String.substring (Z.to_nat (p + 1)) (String.length ds) ds
  else
    String.substring 0 1 ds +:+
    (if nd =? 1 then "" else "." +:+ String.substring 1 (String.length ds) ds) +:+
    "e" +:+ (if p <? 0 then "-" else "+") +:+
    (if Z.abs p <? 10 then "0" else "") +:+ str_of_Z (Z.abs p).

Definition float_repr (f : pyfloat) : string :=
  match f with
  | FInf neg => if neg then "-inf" else "inf"
  | FNaN => "nan"
  | FFin neg m e =>
      let body :=
        if (m =? 0)%N then "0.0" else
        let num := if 0 <=? e then Z.of_N m * 2 ^ e else Z.of_N m in
        let den := if 0 <=? e then 1 else 2 ^ (- e) in
        let '(d, k) := shortest 16 1 num den (dec_exp num den) in
        let ds := str_of_nat d in
        fmt_float ds (k + Z.of_nat (String.length ds) - 1) in
      if neg then "-" +:+ body else body
  end.
End float_repr.

(** [repr(v)] *)
Fixpoint py_repr (v : json) : string :=
  match v with
  | JNull => "None"
  | JBool b => if b then "True" else "False"
  | JInt z => str_of_Z z
  | JFloat f => float_repr f
  | JStr s => repr_str s
  | JList l => "[" +:+ py_join ", " (map py_repr l) +:+ "]"
  | JObj d => "{" +:+ py_join ", " (map (λ kv, repr_str kv.1 +:+ ": " +:+ py_repr kv.2) d) +:+ "}"
  end.

(** [str(v)], also what an f-string field inserts. *)
Definition py_str (v : json) : string :=
  match v with JStr s => s | _ => py_repr v end.

Example repr_tenth : float_repr (FFin false 3602879701896397 (-55)) = "0.1".
Proof. vm_compute. reflexivity. Qed.
Example repr_one : float_repr (FFin false 1 0) = "1.0".
Proof. vm_compute. reflexivity. Qed.
Example repr_big : float_repr (FFin false 152587890625 16) = "1e+16".
Proof. vm_compute. reflexivity. Qed.
Example repr_denorm : float_repr (FFin true 1 (-1074)) = "-5e-324".
Proof. vm_compute. reflexivity. Qed.

(** ** Arithmetic on numbers read from JSON

    Two integers (or booleans) give an exact integer; as soon as one operand
    is a float both are converted to binary64 and the result is rounded. *)
Definition int_val (v : json) : option Z :=
  match v with JInt z => Some z | JBool b => Some (b2Z b) | _ => None end.

(** The binary64 nearest to [m * 2^e]. *)
Definition rnd (m e : Z) : pyfloat :=
  if m =? 0 then FFin false 0 0 else
  let '(q, e') := if 0 <=? e then round_double (Z.abs m * 2 ^ e) 1
                  else round_double (Z.abs m) (2 ^ (- e)) in
  if 971 <? e' then FInf (m <? 0) else FFin (m <? 0) (Z.to_N q) e'.

(** Operand of a float operation.  The callers only pass numbers already
    compared equal to an integer, so the other values are not distinguished. *)
Definition as_float (v : json) : res (Z * Z) :=
  let r := match int_val v with Some z => rnd z 0 | None =>
             match v with JFloat f => f | _ => FNaN end end in
  match r with
  | FFin neg m e => Ok (sgn neg m, e)
  | _ => Raise (Exn OverflowError "int too large to convert to float")
  end.

Definition py_arith (f : Z → Z → Z) (g : Z * Z → Z * Z → Z * Z) (a b : json) : res json :=
  match int_val a, int_val b with
  | Some x, Some y => Ok (JInt (f x y))
  | _, _ => x ← as_float a; y ← as_float b;
            let '(m, e) := g x y in Ok (JFloat (rnd m e))
  end.

Definition rat_lin (f : Z → Z → Z) (x y : Z * Z) : Z * Z :=
  let e := Z.min x.2 y.2 in (f (x.1 * 2 ^ (x.2 - e)) (y.1 * 2 ^ (y.2 - e)), e).

Definition py_add : json → json → res json := py_arith Z.add (rat_lin Z.add).
Definition py_sub : json → json → res json := py_arith Z.sub (rat_lin Z.sub).
Definition py_mul : json → json → res json :=
  py_arith Z.mul (λ x y, (x.1 * y.1, x.2 + y.2)).

Definition num_ltb (a b : pynum) : bool :=
  match a, b with
  | NRat m1 e1, NRat m2 e2 =>
      let lo := Z.min e1 e2 in m1 * 2 ^ (e1 - lo) <? m2 * 2 ^ (e2 - lo)
  | NInf true, NRat _ _ | NInf true, NInf false | NRat _ _, NInf false => true
  | _, _ => false
  end.

(** [a < b] on numbers. *)
Definition py_ltb (a b : json) : bool :=
  match num_of a, num_of b with Some x, Some y => num_ltb x y | _, _ => false end.

(** [a >= b] on numbers. *)
Definition py_geb (a b : json) : bool :=
  match num_of a, num_of b with
  | Some NNaN, _ | _, Some NNaN => false
  | Some x, Some y => negb (num_ltb x y)
  | _, _ => false
  end.

(** [min(a, b)]: the first of the least values. *)
Definition py_min (a b : json) : json := if py_ltb b a then b else a.

Lemma py_ltb_int x y : py_ltb (JInt x) (JInt y) = (x <? y).
Proof. unfold py_ltb. simpl. by rewrite !Z.mul_1_r. Qed.

Lemma py_geb_int x y : py_geb (JInt x) (JInt y) = (y <=? x).
Proof. unfold py_geb. simpl. rewrite !Z.mul_1_r. lia. Qed.

Lemma py_min_int x y : py_min (JInt x) (JInt y) = JInt (Z.min x y).
Proof. unfold py_min. rewrite py_ltb_int. destruct (Z.ltb_spec y x); f_equal; lia. Qed.

(** ** Well-formed values: no dictionary repeats a key *)
Fixpoint json_wf (v : json) : Prop :=
  match v with
  | JList l => (fix go (l : list json) : Prop :=
                  match l with [] => True | x :: l => json_wf x ∧ go l end) l
  | JObj d => NoDup (keys d) ∧
              (fix go (d : list (string * json)) : Prop :=
                 match d with [] => True | (_, x) :: d => json_wf x ∧ go d end) d
  | _ => True
  end.

Lemma json_wf_list l : json_wf (JList l) ↔ Forall json_wf l.
Proof.
  simpl. induction l as [|x l IH]; [by split; [constructor|]|].
  rewrite IH. by rewrite Forall_cons.
Qed.

Lemma json_wf_obj d : json_wf (JObj d) ↔ NoDup (keys d) ∧ Forall (λ kv, json_wf kv.2) d.
Proof.
  simpl. f_equiv. induction d as [|[k x] d IH]; [by split; [constructor|]|].
  rewrite IH. by rewrite Forall_cons.
Qed.

(** Executable form of [json_wf]. *)
Fixpoint json_wfb (v : json) : bool :=
  match v with
  | JList l => forallb json_wfb l
  | JObj d => bool_decide (NoDup (keys d)) && forallb (λ kv, json_wfb kv.2) d
  | _ => true
  end.

Lemma json_wfb_sound v : json_wfb v = true → json_wf v.
Proof.
  induction v as [| | | | |l IH|d IH] using json_ind'; try done; simpl json_wfb; intros H.
  - apply json_wf_list. induction IH as [|x l Hx _ IH]; [done|]. simpl in H.
    apply andb_true_iff in H as [? ?]. constructor; auto.
  - apply andb_true_iff in H as [Hn H]. apply bool_decide_eq_true in Hn.
    apply json_wf_obj. split; [done|]. clear Hn. induction IH as [|x l Hx _ IH]; [done|]. simpl in H.
    apply andb_true_iff in H as [? ?]. constructor; auto.
Qed.

Lemma num_eqb_refl n : num_eqb n n = true.
Proof. destruct n as [m e|[]|]; simpl; [unfold rat_eqb|done..]. by apply Z.eqb_eq. Qed.

(** Equality of container elements is reflexive on well-formed values. *)
Lemma py_eqc_refl v : json_wf v → py_eqc v v = true.
Proof.
  induction v as [| | |f|s|l IH|d IH] using json_ind'; intros Hwf.
  - done.
  - apply num_eqb_refl.
  - apply num_eqb_refl.
  - destruct f; apply num_eqb_refl.
  - apply String.eqb_refl.
  - apply json_wf_list in Hwf. simpl.
    induction IH as [|x l Hx _ IHl]; [done|].
    apply Forall_cons in Hwf as [? ?]. rewrite Hx by done. auto.
  - apply json_wf_obj in Hwf as [Hnd Hwf]. simpl. rewrite Nat.eqb_refl. simpl.
    assert (∀ e, Forall (λ kv : string * json, kv ∈ d) e →
      Forall (λ kv, json_wf kv.2 → py_eqc kv.2 kv.2 = true) e →
      Forall (λ kv, json_wf kv.2) e →
      (fix go (d0 : list (string * json)) : bool :=
         match d0 with
         | [] => true
         | (k, v) :: d0 =>
             match dget k d with
             | Some v' => py_eqc v v' && go d0
             | None => false
             end
         end) e = true) as Hgo.
    { induction e as [|[k v] e IHe]; [done|]. intros Hin Hr Hw.
      apply Forall_cons in Hin as [Hk Hin]. apply Forall_cons in Hr as [Hr1 Hr].
      apply Forall_cons in Hw as [Hw1 Hw]. simpl in *.
      rewrite (dget_NoDup k v d Hnd Hk), Hr1 by done. auto. }
    apply Hgo; [by apply Forall_forall|done..].
Qed.

Lemma py_eq_refl v : json_wf v → v ≠ JFloat FNaN → py_eq v v = true.
Proof.
  intros Hwf Hn. pose proof (py_eqc_refl v Hwf) as H.
  destruct v as [| | |[]| | |]; done.
Qed.

(** ** The [object_pairs_hook] that rejects duplicate keys *)
Definition unique_object {A} (e : string → exn) (pairs : list (string * A))
    : res (list (string * A)) :=
  foldM (λ result '(key, value),
           if dhas key result then Raise (e key) else Ok (dset key value result))
        [] pairs.

Lemma unique_object_Ok {A} e (pairs d : list (string * A)) :
  unique_object e pairs = Ok d ↔ d = pairs ∧ NoDup (keys pairs).
Proof.
  assert (∀ ps acc, NoDup (keys acc) →
    foldM (λ result '(key, value), if dhas key result then Raise (e key)
             else Ok (dset key value result)) acc ps = Ok d
    ↔ d = acc ++ ps ∧ NoDup (keys (acc ++ ps))) as Hgen.
  { induction ps as [|[k v] ps IH]; intros acc Hacc; simpl.
    - rewrite app_nil_r. naive_solver.
    - destruct (dhas k acc) eqn:Hk; simpl.
      + apply dhas_keys in Hk. split; [done|].
        unfold keys. rewrite map_app. intros (_ & Hnd). simpl in Hnd.
        apply NoDup_app in Hnd as (_ & Hd & _). specialize (Hd k Hk). set_solver.
      + assert (dset k v acc = acc ++ [(k, v)]) as ->.
        { clear -Hk. induction acc as [|[k' v'] acc IH]; simpl in *; [done|].
          unfold dhas in *. simpl in *. destruct (String.eqb k k'); [done|].
          f_equal. by apply IH. }
        rewrite IH; [by rewrite <- app_assoc|].
        assert (k ∉ keys acc) as Hni by (rewrite <- dhas_keys; by rewrite Hk).
        unfold keys. rewrite map_app. apply NoDup_app. split; [done|].
        split; [|simpl; apply NoDup_singleton].
        intros x Hx ->%list_elem_of_singleton. done. }
  unfold unique_object. rewrite Hgen by constructor. done.
Qed.

(** ** Hashing and iteration *)

(** The key under which a value is stored in a set or dictionary: equal
    numbers are one key, whatever their type.  Lists and dictionaries cannot
    be hashed. *)
Inductive hkey :=
  | KNone
  | KNum (m e : Z)  (** [m * 2^e], with [m] odd or [(0, 0)] *)
  | KInf (neg : bool)
  | KNaN
  | KStr (s : string).

#[export] Instance hkey_eq_dec : EqDecision hkey.
Proof. solve_decision. Defined.

Fixpoint halve (fuel : nat) (m e : Z) : Z * Z :=
  match fuel with
  | O => (m, e)
  | S fuel => if Z.even m then halve fuel (m / 2) (e + 1) else (m, e)
  end.

Definition odd_part (m e : Z) : Z * Z :=
  if m =? 0 then (0, 0) else halve (Z.to_nat (Z.log2 (Z.abs m))) m e.

Definition hkey_of (v : json) : res hkey :=
  match v with
  | JNull => Ok KNone
  | JStr s => Ok (KStr s)
  | JList _ | JObj _ => unhashable
  | _ => match num_of v with
         | Some (NRat m e) => let '(m', e') := odd_part m e in Ok (KNum m' e')
         | Some (NInf b) => Ok (KInf b)
         | _ => Ok KNaN
         end
  end.

(** [k in s] for a set of keys; the NaN values of a document are one object,
    which the identity test of the set finds. *)
Definition hmem (k : hkey) (s : list hkey) : bool := bool_decide (k ∈ s).

(** [for x in v]: the elements of a list, the characters of a string, the
    keys of a dictionary. *)
Fixpoint chars (s : string) : list json :=
  match s with
  | EmptyString => []
  | String c s => JStr (String c EmptyString) :: chars s
  end.

Definition iterate (v : json) : res (list json) :=
  match v with
  | JList l => Ok l
  | JStr s => Ok (chars s)
  | JObj d => Ok (map (λ kv, JStr kv.1) d)
  | _ => Raise (Exn TypeError "object is not iterable")
  end.

(** [x in v] for any [v]. *)
Definition py_in (x v : json) : res bool :=
  match v with
  | JObj d => in_keys x d
  | JList l => Ok (existsb (λ y, py_eq y x) l)
  | JStr s => match x with
              | JStr p => Ok (substr p s)
              | _ => Raise (Exn TypeError "'in <string>' requires string as left operand")
              end
  | _ => Raise (Exn TypeError "argument is not iterable")
  end.

Lemma halve_value fuel m e m' e' : halve fuel m e = (m', e') → e ≤ e' ∧ m = m' * 2 ^ (e' - e).
Proof.
  revert m e. induction fuel as [|fuel IH]; intros m e H; simpl in H.
  - injection H as <- <-. rewrite Z.sub_diag. lia.
  - destruct (Z.even m) eqn:E; [|injection H as <- <-; rewrite Z.sub_diag; lia].
    apply IH in H as [Hle Hm]. split; [lia|].
    apply Z.even_spec in E as [k ->]. rewrite Z.mul_comm, Z.div_mul in Hm by lia. rewrite Hm.
    replace (e' - e) with (1 + (e' - (e + 1))) by lia. rewrite Z.pow_add_r by lia. lia.
Qed.

Lemma hkey_int_inj a b : hkey_of (JInt a) = hkey_of (JInt b) → a = b.
Proof.
  assert (∀ x m e, odd_part x 0 = (m, e) → x = m * 2 ^ e) as Hv.
  { intros x m e. unfold odd_part. destruct (Z.eqb_spec x 0) as [->|]; [by intros [= <- <-]|].
    intros H%halve_value. rewrite Z.sub_0_r in H. lia. }
  cbn. destruct (odd_part a 0) as [m e] eqn:Ea, (odd_part b 0) as [m' e'] eqn:Eb.
  intros H. apply Ok_inj in H as [= <- <-]. by rewrite (Hv _ _ _ Ea), (Hv _ _ _ Eb).
Qed.

(** ** Dictionaries keyed by hashable values *)
Section hdict.
Context {A : Type}.
Fixpoint hget (k : hkey) (d : list (hkey * A)) : option A :=
  match d with
  | [] => None
  | (k', v) :: d => if decide (k = k') then Some v else hget k d
  end.
Fixpoint hset (k : hkey) (v : A) (d : list (hkey * A)) : list (hkey * A) :=
  match d with
  | [] => [(k, v)]
  | (k', v') :: d => if decide (k = k') then (k', v) :: d else (k', v') :: hset k v d
  end.
Lemma hget_hset k k' (v : A) d : hget k (hset k' v d) = if decide (k = k') then Some v else hget k d.
Proof.
  induction d as [|[k2 v2] d IH]; simpl; [done|].
  destruct (decide (k' = k2)) as [->|Hne]; simpl.
  - by destruct (decide (k = k2)).
  - destruct (decide (k = k2)) as [->|]; [|done]. by rewrite decide_False by congruence.
Qed.
End hdict.

(** ** [sorted(l)] of hashable values: all text or all numbers *)
Definition num_le (x y : json) : Prop := py_ltb y x = false.
#[export] Instance num_le_dec : RelDecision num_le.
Proof. intros x y. unfold num_le. apply _. Defined.
Definition str_le (x y : json) : Prop := String.le (py_str x) (py_str y).
#[export] Instance str_le_dec : RelDecision str_le.
Proof. intros x y. unfold str_le. apply _. Defined.

Definition py_sorted (l : list json) : res (list json) :=
  if forallb is_str l then Ok (stable_sort str_le l)
  else if forallb (λ v, match num_of v with Some _ => true | None => false end) l then Ok (stable_sort num_le l)
  else match l with
       | [_] => Ok l
       | _ => Raise (Exn TypeError "'<' not supported between instances")
       end.
