(* ===== verification/JsonText.v ===== *)
(** * JSON text: [json.loads] and [json.dumps]

    The decoder follows Python's scanner: the same whitespace, strict control
    characters, [NaN]/[Infinity] literals, integers kept exact, floats rounded
    to binary64, and an [object_pairs_hook] called on each finished object.
    An escape for a code point above 255 is outside the text model and is
    reported as an error.  The encoder covers the two styles the tool uses:
    compact separators and [indent=2], always with [sort_keys=True].  The main
    lemma is the round trip [loads (dumps v)] for float-free documents. *)

From stdpp Require Import prelude strings list sorting.
From Stdlib Require Import ZArith Lia Ascii.
From S2P Require Import Prelude PyText PyJson.
Local Open Scope Z_scope.

Abbreviation dict := (list (string * json)).

(** ** Decoding *)
Definition bad_json {A} : res A := Raise (Exn JSONDecodeError "invalid JSON").

Definition is_ws (c : ascii) : bool :=
  (code c =? 32) || (code c =? 9) || (code c =? 10) || (code c =? 13).

Fixpoint skip_ws (s : string) : string :=
  match s with
  | EmptyString => EmptyString
  | String c t => if is_ws c then skip_ws t else s
  end.

Definition hex_val (c : ascii) : option Z :=
  let z := code c in
  if (48 <=? z) && (z <=? 57) then Some (z - 48)
  else if (97 <=? z) && (z <=? 102) then Some (z - 87)
  else if (65 <=? z) && (z <=? 70) then Some (z - 55)
  else None.

Definition hex4 (a b c d : ascii) : option Z :=
  match hex_val a, hex_val b, hex_val c, hex_val d with
  | Some x, Some y, Some z, Some w => Some (((x * 16 + y) * 16 + z) * 16 + w)
  | _, _, _, _ => None
  end.

Definition simple_escape (c : ascii) : option ascii :=
  let z := code c in
  if (z =? 34) || (z =? 92) || (z =? 47) then Some c
  else if z =? 98 then Some (chr 8) else if z =? 102 then Some (chr 12)
  else if z =? 110 then Some (chr 10) else if z =? 114 then Some (chr 13)
  else if z =? 116 then Some (chr 9) else None.

(** The characters of a string literal up to its closing quote. *)
Fixpoint p_string (s : string) : option (string * string) :=
  match s with
  | EmptyString => None
  | String c t =>
      if code c =? 34 then Some (EmptyString, t)
      else if code c <? 32 then None
      else if code c =? 92 then
        match t with
        | EmptyString => None
        | String e u =>
            if code e =? 117 then
              match u with
              | String a (String b (String x (String y v))) =>
                  match hex4 a b x y with
                  | Some z => if z <? 256 then
                      match p_string v with
                      | Some (w, r) => Some (String (chr z) w, r) | None => None end
                      else None
                  | None => None
                  end
              | _ => None
              end
            else match simple_escape e with
                 | Some k => match p_string u with
                             | Some (w, r) => Some (String k w, r) | None => None end
                 | None => None
                 end
        end
      else match p_string t with Some (w, r) => Some (String c w, r) | None => None end
  end.

Fixpoint take_digits (s : string) : string * string :=
  match s with
  | EmptyString => (EmptyString, EmptyString)
  | String c t =>
      if is_digit09 c then let '(d, r) := take_digits t in (String c d, r)
      else (EmptyString, s)
  end.

Definition digits_val (s : string) : Z := default 0 (parse_digits 0 false s).

(** The binary64 nearest to [m * 10^k]. *)
Definition float_of_dec (neg : bool) (m k : Z) : pyfloat :=
  if m =? 0 then FFin neg 0 0 else
  let '(q, e) := if 0 <=? k then round_double (m * 10 ^ k) 1
                 else round_double m (10 ^ (- k)) in
  if 971 <? e then FInf neg else FFin neg (Z.to_N q) e.

(** Optional fraction: a dot followed by at least one digit. *)
Definition p_frac (s : string) : option string * string :=
  match s with
  | String c t =>
      if code c =? 46 then
        let '(d, r) := take_digits t in
        if String.eqb d "" then (None, s) else (Some d, r)
      else (None, s)
  | EmptyString => (None, s)
  end.

Definition p_exp (s : string) : option Z * string :=
  match s with
  | String c t =>
      if (code c =? 101) || (code c =? 69) then
        let '(neg, u) := match t with
          | String c2 u => if code c2 =? 45 then (true, u)
                           else if code c2 =? 43 then (false, u) else (false, t)
          | EmptyString => (false, t) end in
        let '(d, r) := take_digits u in
        if String.eqb d "" then (None, s)
        else (Some (if neg then - digits_val d else digits_val d), r)
      else (None, s)
  | EmptyString => (None, s)
  end.

(** A number whose sign has been read. *)
Definition p_number (neg : bool) (s : string) : option (json * string) :=
  let '(ip, r) :=
    match s with
    | String c t => if code c =? 48 then (String c EmptyString, t) else take_digits s
    | EmptyString => (EmptyString, s)
    end in
  if String.eqb ip "" then None else
  let '(fr, r1) := p_frac r in
  let '(ex, r2) := p_exp r1 in
  match fr, ex with
  | None, None => Some (JInt (if neg then - digits_val ip else digits_val ip), r2)
  | _, _ =>
      let f := default "" fr in
      Some (JFloat (float_of_dec neg (digits_val (ip +:+ f))
              (default 0 ex - Z.of_nat (String.length f))), r2)
  end.

Fixpoint drop_prefix (p s : string) : option string :=
  match p, s with
  | EmptyString, _ => Some s
  | String a p, String b s => if Ascii.eqb a b then drop_prefix p s else None
  | String _ _, EmptyString => None
  end.

(** Literals and numbers. *)
Definition p_atom (s : string) : option (json * string) :=
  match drop_prefix "null" s with Some r => Some (JNull, r) | None =>
  match drop_prefix "true" s with Some r => Some (JBool true, r) | None =>
  match drop_prefix "false" s with Some r => Some (JBool false, r) | None =>
  match drop_prefix "NaN" s with Some r => Some (JFloat FNaN, r) | None =>
  match drop_prefix "Infinity" s with Some r => Some (JFloat (FInf false), r) | None =>
  match drop_prefix "-Infinity" s with Some r => Some (JFloat (FInf true), r) | None =>
  match s with
  | String c t => if code c =? 45 then p_number true t else p_number false s
  | EmptyString => None
  end end end end end end end.

Section decoder.
(** The [object_pairs_hook]. *)
Variable hook : dict → res dict.

Fixpoint p_value (n : nat) (s : string) : res (json * string) :=
  match n with
  | O => bad_json
  | S n =>
      match s with
      | EmptyString => bad_json
      | String c t =>
          if code c =? 34 then
            match p_string t with
            | Some (w, r) => Ok (JStr w, r) | None => bad_json end
          else if code c =? 123 then
            match skip_ws t with
            | String c2 r => if code c2 =? 125
                then d ← hook []; Ok (JObj d, r)
                else p_members n [] (String c2 r)
            | EmptyString => bad_json
            end
          else if code c =? 91 then
            match skip_ws t with
            | String c2 r => if code c2 =? 93 then Ok (JList [], r)
                else p_elements n [] (String c2 r)
            | EmptyString => bad_json
            end
          else match p_atom s with Some x => Ok x | None => bad_json end
      end
  end
with p_members (n : nat) (acc : dict) (s : string) : res (json * string) :=
  match n with
  | O => bad_json
  | S n =>
      match s with
      | String q t =>
          if code q =? 34 then
            match p_string t with
            | Some (k, r) =>
                match skip_ws r with
                | String col r1 =>
                    if code col =? 58 then
                      vr ← p_value n (skip_ws r1);
                      let '(v, r2) := vr in
                      match skip_ws r2 with
                      | String c r3 =>
                          if code c =? 125
                          then d ← hook (acc ++ [(k, v)]); Ok (JObj d, r3)
                          else if code c =? 44
                          then p_members n (acc ++ [(k, v)]) (skip_ws r3)
                          else bad_json
                      | EmptyString => bad_json
                      end
                    else bad_json
                | EmptyString => bad_json
                end
            | None => bad_json
            end
          else bad_json
      | EmptyString => bad_json
      end
  end
with p_elements (n : nat) (acc : list json) (s : string) : res (json * string) :=
  match n with
  | O => bad_json
  | S n =>
      vr ← p_value n s;
      let '(v, r) := vr in
      match skip_ws r with
      | String c r1 =>
          if code c =? 93 then Ok (JList (acc ++ [v]), r1)
          else if code c =? 44 then p_elements n (acc ++ [v]) (skip_ws r1)
          else bad_json
      | EmptyString => bad_json
      end
  end.

(** [json.loads(s, object_pairs_hook=hook)]; every call consumes a
    character, so twice the length of the text is enough fuel. *)
Definition loads_hook (s : string) : res json :=
  vr ← p_value (2 * String.length s + 2) (skip_ws s);
  let '(v, r) := vr in
  match skip_ws r with EmptyString => Ok v | _ => bad_json end.
End decoder.

(** [dict(pairs)]: a repeated key keeps its first position, last value. *)
Definition dict_of_pairs (pairs : dict) : res dict :=
  Ok (fold_left (λ d kv, dset kv.1 kv.2 d) pairs []).

(** [json.loads(s)] *)
Definition loads (s : string) : res json := loads_hook dict_of_pairs s.

(** Text with the quotes of JSON written as apostrophes, for examples. *)
Fixpoint q2 (s : string) : string :=
  match s with
  | EmptyString => EmptyString
  | String c s => String (if code c =? 39 then chr 34 else c) (q2 s)
  end.

Example loads_ex :
  loads (q2 " {'a': [1, -2.5e0, true, null], 'b': 'x\u0041\n'} ") =
  Ok (JObj [("a", JList [JInt 1; JFloat (FFin true 5629499534213120 (-51)); JBool true; JNull]);
            ("b", JStr ("xA" +:+ LF))]).
Proof. vm_compute. reflexivity. Qed.

(** ** Encoding *)
Inductive style := Compact | Spaced | Indent2.

Fixpoint spaces (n : nat) : string :=
  match n with O => "" | S n => String " "%char (spaces n) end.

(** Whitespace after an opening bracket, after a comma, before a closing
    bracket and after a colon, at nesting level [lvl]. *)
Definition nl (st : style) (lvl : nat) : string :=
  match st with Indent2 => LF +:+ spaces (2 * lvl) | _ => "" end.
Definition ws_item (st : style) (lvl : nat) : string :=
  match st with Compact => "" | Spaced => " " | Indent2 => nl st lvl end.
Definition ws_key (st : style) : string :=
  match st with Compact => "" | _ => " " end.

(** One character of a string literal under [ensure_ascii]. *)
Definition enc_char (c : ascii) : string :=
  let z := code c in
  let esc k := String (chr 92) (String (chr k) "") in
  if z =? 34 then esc 34 else if z =? 92 then esc 92
  else if z =? 10 then esc 110 else if z =? 13 then esc 114
  else if z =? 9 then esc 116 else if z =? 12 then esc 102
  else if z =? 8 then esc 98
  else if (32 <=? z) && (z <=? 126) then String c ""
  else String (chr 92) ("u00" +:+ hex2 z).

Fixpoint enc_body (s : string) : string :=
  match s with
  | EmptyString => String (chr 34) ""
  | String c s => enc_char c +:+ enc_body s
  end.

Definition enc_str (s : string) : string := String (chr 34) (enc_body s).

Definition enc_float (f : pyfloat) : string :=
  match f with
  | FNaN => "NaN"
  | FInf neg => if neg then "-Infinity" else "Infinity"
  | FFin _ _ _ => float_repr f
  end.

Fixpoint enc (st : style) (lvl : nat) (v : json) : string :=
  match v with
  | JNull => "null"
  | JBool b => if b then "true" else "false"
  | JInt z => str_of_Z z
  | JFloat f => enc_float f
  | JStr s => enc_str s
  | JList [] => "[]"
  | JList l =>
      "[" +:+ nl st (S lvl) +:+
      py_join ("," +:+ ws_item st (S lvl)) (map (enc st (S lvl)) l) +:+
      nl st lvl +:+ "]"
  | JObj [] => "{}"
  | JObj d =>
      "{" +:+ nl st (S lvl) +:+
      py_join ("," +:+ ws_item st (S lvl))
        (map (λ kv, enc_str kv.1 +:+ ":" +:+ ws_key st +:+ enc st (S lvl) kv.2) d) +:+
      nl st lvl +:+ "}"
  end.

Definition key_le (a b : string * json) : Prop := String.le a.1 b.1.
#[export] Instance key_le_dec : RelDecision key_le.
Proof. intros a b. unfold key_le. apply _. Defined.
#[export] Instance key_le_total : Total key_le.
Proof. intros a b. unfold key_le. apply (total String.le). Qed.
#[export] Instance key_le_trans : Transitive key_le.
Proof. intros a b c. unfold key_le. apply transitivity. Qed.

(** [sort_keys=True], at every level. *)
Fixpoint sort_keys (v : json) : json :=
  match v with
  | JList l => JList (map sort_keys l)
  | JObj d => JObj (stable_sort key_le (map (λ kv, (kv.1, sort_keys kv.2)) d))
  | _ => v
  end.

(** [json.dumps(v, sort_keys=True, ...)] *)
Definition dumps (st : style) (v : json) : string := enc st 0 (sort_keys v).

Example dumps_ex :
  dumps Spaced (JObj [("b", JList [JInt 1; JNull]); ("a", JStr "x'y")]) =
  "{" +:+ enc_str "a" +:+ ": " +:+ enc_str "x'y" +:+ ", " +:+ enc_str "b" +:+ ": [1, null]}".
Proof. vm_compute. reflexivity. Qed.

(** ** Round trip *)
Fixpoint float_free (v : json) : bool :=
  match v with
  | JFloat _ => false
  | JList l => forallb float_free l
  | JObj d => forallb (λ kv, float_free kv.2) d
  | _ => true
  end.

Definition allws (s : string) : bool := sforall is_ws s.

Lemma skip_ws_app w s : allws w = true → skip_ws (w +:+ s) = skip_ws s.
Proof.
  induction w as [|c w IH]; [done|]. rewrite sapp_cons. simpl.
  intros [-> Hw]%andb_true_iff. auto.
Qed.

Lemma allws_nl st lvl : allws (nl st lvl) = true.
Proof.
  destruct st; try done. unfold nl, allws. rewrite sforall_app. simpl.
  induction (lvl + (lvl + 0))%nat; done.
Qed.

Lemma allws_item st lvl : allws (ws_item st lvl) = true.
Proof. destruct st; try done. apply (allws_nl Indent2). Qed.

Lemma allws_key st : allws (ws_key st) = true.
Proof. by destruct st. Qed.

Lemma p_string_char c s :
  p_string (enc_char c +:+ s) =
  match p_string s with Some (w, r) => Some (String c w, r) | None => None end.
Proof. destruct c as [[] [] [] [] [] [] [] []]; reflexivity. Qed.

Lemma p_string_enc s r : p_string (enc_body s +:+ r) = Some (s, r).
Proof.
  induction s as [|c s IH]; [done|]. simpl. rewrite sapp_assoc, p_string_char. by rewrite IH.
Qed.

(** A character that cannot continue a number. *)
Definition stops (s : string) : bool :=
  match s with
  | EmptyString => true
  | String c _ => negb (is_digit09 c || (code c =? 46) || (code c =? 101) || (code c =? 69))
  end.

Lemma take_digits_app d r :
  sforall is_digit09 d = true → stops r = true → take_digits (d +:+ r) = (d, r).
Proof.
  intros Hd Hr. induction d as [|c d IH].
  - change ("" +:+ r) with r. destruct r as [|c r]; [done|]. simpl in *.
    destruct (is_digit09 c); done.
  - cbn [sforall] in Hd. apply andb_true_iff in Hd as [Hc Hd].
    rewrite sapp_cons. simpl. by rewrite Hc, IH.
Qed.

Lemma stops_frac_exp r : stops r = true → p_frac r = (None, r) ∧ p_exp r = (None, r).
Proof.
  destruct r as [|c r]; [done|]. simpl. intros H. apply negb_true_iff in H.
  rewrite !orb_false_iff in H. destruct H as [[[_ H1] H2] H3]. by rewrite H1, H2, H3.
Qed.

Lemma dec_digits_lead fuel n acc :
  0 < n < 2 ^ Z.of_nat fuel →
  ∃ c s, dec_digits fuel n acc = String c s ∧ code c ≠ 48.
Proof.
  revert n acc. induction fuel as [|fuel IH]; intros n acc Hn; [simpl in Hn; lia|]. simpl.
  destruct (Z.ltb_spec n 10).
  - eexists _, _. split; [done|]. unfold digit. rewrite Z.mod_small, code_chr by lia. lia.
  - apply IH. split; [apply Z.div_str_pos; lia|]. apply Z.div_lt_upper_bound; [lia|].
    rewrite Nat2Z.inj_succ, Z.pow_succ_r in Hn by lia. lia.
Qed.

Lemma p_number_str neg n r :
  0 ≤ n → stops r = true →
  p_number neg (str_of_nat n +:+ r) = Some (JInt (if neg then - n else n), r).
Proof.
  intros Hn Hr. destruct (stops_frac_exp r Hr) as [Hf He]. unfold p_number.
  assert (digits_val (str_of_nat n) = n) as Hv.
  { unfold digits_val. by rewrite parse_str_of_nat. }
  destruct (decide (n = 0)) as [->|Hn0].
  - change (str_of_nat 0) with "0". rewrite sapp_cons. change ("" +:+ r) with r.
    change (code "0" =? 48) with true. cbv iota. rewrite Hf, He. by destruct neg.
  - destruct (dec_digits_lead (dec_fuel n) n "") as (c & s & Hs & Hc).
    { split; [lia|]. by apply dec_fuel_enough. }
    change (dec_digits (dec_fuel n) n "") with (str_of_nat n) in Hs.
    pose proof (take_digits_app (str_of_nat n) r (str_of_nat_digits n Hn) Hr) as Ht.
    rewrite Hs in Ht |- *. rewrite sapp_cons in Ht |- *.
    destruct (Z.eqb_spec (code c) 48); [done|]. rewrite Ht.
    destruct (String.eqb_spec (String c s) ""); [done|]. rewrite Hf, He, <- Hs, Hv. by destruct neg.
Qed.

Lemma p_atom_int z r : stops r = true → p_atom (str_of_Z z +:+ r) = Some (JInt z, r).
Proof.
  intros Hr. unfold str_of_Z. destruct (Z.ltb_spec z 0) as [Hz|Hz].
  - rewrite sapp_cons.
    pose proof (p_number_str true (- z) r ltac:(lia) Hr) as Hp.
    pose proof (str_of_nat_digits (- z) ltac:(lia)) as Hd.
    destruct (str_of_nat (- z)) as [|c s] eqn:E; [by apply str_of_nat_nonempty in E|].
    simpl in Hd. apply andb_true_iff in Hd as [Hc _]. rewrite sapp_cons in *.
    unfold p_atom. cbn [drop_prefix].
    change (Ascii.eqb "n" "-") with false. change (Ascii.eqb "t" "-") with false.
    change (Ascii.eqb "f" "-") with false. change (Ascii.eqb "N" "-") with false.
    change (Ascii.eqb "I" "-") with false. change (Ascii.eqb "-" "-") with true. cbv iota.
    destruct (Ascii.eqb_spec "I" c) as [<-|]; [done|].
    change (code "-" =? 45) with true. cbv iota. rewrite Hp. do 3 f_equal. lia.
  - pose proof (p_number_str false z r Hz Hr) as Hp.
    pose proof (str_of_nat_digits z Hz) as Hd.
    destruct (str_of_nat z) as [|c s] eqn:E; [by apply str_of_nat_nonempty in E|].
    simpl in Hd. apply andb_true_iff in Hd as [Hc _]. rewrite sapp_cons in *.
    unfold p_atom. cbn [drop_prefix].
    assert (∀ a, is_digit09 a = false → Ascii.eqb a c = false) as Hne.
    { intros a Ha. destruct (Ascii.eqb_spec a c) as [->|]; [congruence|done]. }
    rewrite !Hne by done. unfold is_digit09 in Hc.
    destruct (Z.eqb_spec (code c) 45); [lia|]. done.
Qed.

Lemma stops_app_ws w c r :
  allws w = true → stops (String c r) = true → stops (w +:+ String c r) = true.
Proof.
  destruct w as [|c' w]; [done|]. rewrite sapp_cons. simpl.
  intros [Hc _]%andb_true_iff _. unfold is_ws, is_digit09 in *. lia.
Qed.

Fixpoint weight (v : json) : nat :=
  match v with
  | JList l => S (sum_list_with (λ x, S (weight x)) l)
  | JObj d => S (sum_list_with (λ kv, S (weight kv.2)) d)
  | _ => 1
  end.

Lemma py_join_cons sep x y l : py_join sep (x :: y :: l) = x +:+ sep +:+ py_join sep (y :: l).
Proof. done. Qed.

Lemma enc_head st lvl v :
  float_free v = true →
  ∃ c t, enc st lvl v = String c t ∧ is_ws c = false ∧ code c ≠ 93 ∧ code c ≠ 125.
Proof.
  destruct v as [|[]|z| |s|[|x l]|[|kv d]]; intros Hf; try done; simpl enc;
    try (eexists _, _; split; [reflexivity|]; by vm_compute).
  unfold str_of_Z. destruct (z <? 0) eqn:Hz.
  - eexists _, _. split; [reflexivity|]. by vm_compute.
  - pose proof (str_of_nat_digits z ltac:(lia)) as Hd.
    destruct (str_of_nat z) as [|c t] eqn:E; [by apply str_of_nat_nonempty in E|].
    exists c, t. cbn [sforall] in Hd. apply andb_true_iff in Hd as [Hd _].
    unfold is_digit09, is_ws in *. repeat split; lia.
Qed.

Lemma skip_ws_enc st lvl v s :
  float_free v = true → skip_ws (enc st lvl v +:+ s) = enc st lvl v +:+ s.
Proof.
  intros Hf. destruct (enc_head st lvl v Hf) as (c & t & -> & Hc & _).
  rewrite sapp_cons. simpl. by rewrite Hc.
Qed.

Section roundtrip.
Variable hook : dict → res dict.
Hypothesis hook_ok : ∀ d, NoDup (keys d) → hook d = Ok d.

(** The statement of the round trip for one value. *)
Definition rt (v : json) : Prop :=
  float_free v = true → json_wf v → ∀ st lvl n r,
  (weight v ≤ n)%nat → (is_int v = true → stops r = true) →
  p_value hook n (enc st lvl v +:+ r) = Ok (v, r).

Lemma p_elements_enc st lvl lvl' l : Forall rt l → l ≠ [] →
  forallb float_free l = true → Forall json_wf l → ∀ acc n r,
  (sum_list_with (λ x, S (weight x)) l ≤ n)%nat →
  p_elements hook n acc
    (py_join ("," +:+ ws_item st lvl) (map (enc st lvl) l) +:+ nl st lvl' +:+ "]" +:+ r)
  = Ok (JList (acc ++ l), r).
Proof.
  induction 1 as [|x l Hx Hl IH]; [done|]. intros _ Hf Hw acc n r Hn.
  simpl in Hf, Hn. apply andb_true_iff in Hf as [Hfx Hf]. apply Forall_cons in Hw as [Hwx Hw].
  destruct n as [|n]; [lia|]. cbn [p_elements].
  destruct l as [|y l].
  - cbn [map py_join]. rewrite Hx; [|done..|lia|].
    + cbn [mbind res_bind]. rewrite skip_ws_app by apply allws_nl. done.
    + intros _. apply stops_app_ws; [apply allws_nl|done].
  - cbn [map]. rewrite py_join_cons, !sapp_assoc. rewrite Hx; [|done..|lia|done].
    cbn [mbind res_bind]. change ("," +:+ ?s) with (String ","%char s). cbn [skip_ws].
    change (is_ws ",") with false. change (code "," =? 93) with false.
    change (code "," =? 44) with true. cbv iota.
    simpl in Hf. pose proof Hf as Hf'. apply andb_true_iff in Hf' as [Hfy _].
    rewrite skip_ws_app by apply allws_item.
    assert (∃ t, py_join ("," +:+ ws_item st lvl) (map (enc st lvl) (y :: l)) = enc st lvl y +:+ t) as [t Ht].
    { destruct l; [exists ""; by rewrite sapp_nil_r|eexists; reflexivity]. }
    change (enc st lvl y :: map (enc st lvl) l) with (map (enc st lvl) (y :: l)).
    rewrite Ht, sapp_assoc, skip_ws_enc, <- (sapp_assoc (enc st lvl y) t), <- Ht by done.
    rewrite IH; [|done..|simpl in *; lia]. by rewrite <- app_assoc.
Qed.

Definition enc_member (st : style) (lvl : nat) (kv : string * json) : string :=
  enc_str kv.1 +:+ ":" +:+ ws_key st +:+ enc st lvl kv.2.

Lemma skip_ws_member st lvl kv s :
  skip_ws (enc_member st lvl kv +:+ s) = enc_member st lvl kv +:+ s.
Proof. done. Qed.

Lemma p_members_enc st lvl lvl' d : Forall (λ kv, rt kv.2) d → d ≠ [] →
  forallb (λ kv, float_free kv.2) d = true → Forall (λ kv, json_wf kv.2) d → ∀ acc n r,
  NoDup (keys (acc ++ d)) →
  (sum_list_with (λ kv, S (weight kv.2)) d ≤ n)%nat →
  p_members hook n acc
    (py_join ("," +:+ ws_item st lvl) (map (enc_member st lvl) d) +:+ nl st lvl' +:+ "}" +:+ r)
  = Ok (JObj (acc ++ d), r).
Proof.
  induction 1 as [|[k v] d Hx Hl IH]; [done|]. intros _ Hf Hw acc n r Hnd Hn.
  simpl in Hf, Hn, Hx. apply andb_true_iff in Hf as [Hfx Hf].
  apply Forall_cons in Hw as [Hwx Hw]. destruct n as [|n]; [lia|]. cbn [p_members].
  assert (∀ t, enc_member st lvl (k, v) +:+ t =
    String (chr 34) (enc_body k +:+ ":" +:+ ws_key st +:+ enc st lvl v +:+ t)) as Hm.
  { intros t. unfold enc_member, enc_str. cbn [fst snd]. by rewrite !sapp_assoc. }
  destruct d as [|kv2 d].
  - cbn [map py_join]. rewrite Hm. change (code (chr 34) =? 34) with true. cbv iota.
    rewrite p_string_enc. change (":" +:+ ?s) with (String ":"%char s). cbn [skip_ws].
    change (is_ws ":") with false. change (code ":" =? 58) with true. cbv iota.
    rewrite skip_ws_app, skip_ws_enc by (done || apply allws_key).
    rewrite Hx; [|done..|lia|intros _; apply stops_app_ws; [apply allws_nl|done]].
    cbn [mbind res_bind]. rewrite skip_ws_app by apply allws_nl.
    change (skip_ws ("}" +:+ r)) with (String "}"%char r).
    change (code "}" =? 125) with true. cbv iota. by rewrite hook_ok.
  - cbn [map]. rewrite py_join_cons, !sapp_assoc, Hm. change (code (chr 34) =? 34) with true.
    cbv iota. rewrite p_string_enc. change (":" +:+ ?s) with (String ":"%char s). cbn [skip_ws].
    change (is_ws ":") with false. change (code ":" =? 58) with true. cbv iota.
    rewrite skip_ws_app, skip_ws_enc by (done || apply allws_key).
    rewrite Hx; [|done..|lia|done]. cbn [mbind res_bind].
    change ("," +:+ ?s) with (String ","%char s). cbn [skip_ws].
    change (is_ws ",") with false. change (code "," =? 125) with false.
    change (code "," =? 44) with true. cbv iota. rewrite skip_ws_app by apply allws_item.
    assert (∃ t, py_join ("," +:+ ws_item st lvl) (map (enc_member st lvl) (kv2 :: d)) = enc_member st lvl kv2 +:+ t) as [t Ht].
    { destruct d; [exists ""; by rewrite sapp_nil_r|eexists; reflexivity]. }
    change (enc_member st lvl kv2 :: map (enc_member st lvl) d)
      with (map (enc_member st lvl) (kv2 :: d)).
    rewrite Ht, sapp_assoc, skip_ws_member, <- (sapp_assoc (enc_member st lvl kv2) t), <- Ht.
    rewrite IH; [by rewrite <- app_assoc|done..|by rewrite <- app_assoc|simpl in *; lia].
Qed.

Lemma p_value_int n z r :
  stops r = true → p_value hook (S n) (str_of_Z z +:+ r) = Ok (JInt z, r).
Proof.
  intros Hr. pose proof (p_atom_int z r Hr) as Ha.
  assert (∃ c t, str_of_Z z = String c t ∧ (code c = 45 ∨ is_digit09 c = true)) as (c & t & E & Hc).
  { unfold str_of_Z. destruct (Z.ltb_spec z 0); [eexists _, _; split; [done|by left]|].
    pose proof (str_of_nat_digits z ltac:(lia)) as Hd.
    destruct (str_of_nat z) as [|c t] eqn:E; [by apply str_of_nat_nonempty in E|].
    cbn [sforall] in Hd. apply andb_true_iff in Hd as [Hd _]. eauto. }
  rewrite E, sapp_cons in *. cbn [p_value]. unfold is_digit09 in Hc.
  destruct (Z.eqb_spec (code c) 34); [lia|]. destruct (Z.eqb_spec (code c) 123); [lia|].
  destruct (Z.eqb_spec (code c) 91); [lia|]. by rewrite Ha.
Qed.

Lemma p_value_list st lvl x l n r :
  Forall rt (x :: l) → forallb float_free (x :: l) = true → Forall json_wf (x :: l) →
  (sum_list_with (λ x, S (weight x)) (x :: l) ≤ n)%nat →
  p_value hook (S n) (enc st lvl (JList (x :: l)) +:+ r) = Ok (JList (x :: l), r).
Proof.
  intros IH Hf Hw Hn. cbn [enc].
  rewrite !sapp_assoc. change ("[" +:+ ?s) with (String "["%char s). cbn [p_value].
  change (code "[" =? 34) with false. change (code "[" =? 123) with false.
  change (code "[" =? 91) with true. cbv iota.
  rewrite skip_ws_app by apply allws_nl.
  pose proof (p_elements_enc st (S lvl) lvl (x :: l) IH ltac:(done) Hf Hw [] n r Hn) as Hp.
  simpl in Hf. apply andb_true_iff in Hf as [Hfx _].
  destruct (enc_head st (S lvl) x Hfx) as (c & t & Ec & Hc & H93 & _).
  assert (∃ u, py_join ("," +:+ ws_item st (S lvl)) (map (enc st (S lvl)) (x :: l)) = String c u) as [u Hu].
  { destruct l; cbn [map]; [exists t; done|]. rewrite py_join_cons, Ec. by eexists. }
  rewrite Hu, sapp_cons in Hp |- *. cbn [skip_ws]. rewrite Hc.
  destruct (Z.eqb_spec (code c) 93); [done|]. exact Hp.
Qed.

Lemma p_value_obj st lvl kv d n r :
  Forall (λ kv, rt kv.2) (kv :: d) → forallb (λ kv, float_free kv.2) (kv :: d) = true →
  NoDup (keys (kv :: d)) → Forall (λ kv, json_wf kv.2) (kv :: d) →
  (sum_list_with (λ kv, S (weight kv.2)) (kv :: d) ≤ n)%nat →
  p_value hook (S n) (enc st lvl (JObj (kv :: d)) +:+ r) = Ok (JObj (kv :: d), r).
Proof.
  intros IH Hf Hnd Hw Hn. destruct kv as [k v]. cbn [enc].
  rewrite !sapp_assoc. change ("{" +:+ ?s) with (String "{"%char s). cbn [p_value].
  change (code "{" =? 34) with false. change (code "{" =? 123) with true. cbv iota.
  rewrite skip_ws_app by apply allws_nl.
  pose proof (p_members_enc st (S lvl) lvl ((k, v) :: d) IH ltac:(done) Hf Hw [] n r Hnd Hn) as Hp.
  assert (∃ u, py_join ("," +:+ ws_item st (S lvl)) (map (enc_member st (S lvl)) ((k, v) :: d))
    = String (chr 34) u) as [u Hu].
  { destruct d; cbn [map]; [|rewrite py_join_cons]; by eexists. }
  unfold enc_member at 1 in Hp. unfold enc_member at 1 in Hu.
  rewrite Hu, sapp_cons in Hp |- *. cbn [skip_ws].
  change (is_ws (chr 34)) with false. change (code (chr 34) =? 125) with false.
  exact Hp.
Qed.

Lemma p_value_enc v : rt v.
Proof.
  induction v as [|b|z|f|s|l IH|d IH] using json_ind'; intros Hf Hw st lvl n r Hn Hr;
    (destruct n as [|n]; [simpl in Hn; lia|]).
  - done.
  - by destruct b.
  - by apply p_value_int, Hr.
  - done.
  - cbn [enc]. unfold enc_str. rewrite sapp_cons. cbn [p_value].
    change (code (chr 34) =? 34) with true. cbv iota. by rewrite p_string_enc.
  - apply json_wf_list in Hw. destruct l as [|x l]; [done|]. apply p_value_list; [done..|]. simpl in *; lia.
  - apply json_wf_obj in Hw as [Hnd Hw]. destruct d as [|kv d]; [cbn; by rewrite hook_ok by constructor|].
    apply p_value_obj; [done..|]. simpl in *; lia.
Qed.
End roundtrip.

(** *** Fuel *)
Lemma slen_app (s t : string) : String.length (s +:+ t) = (String.length s + String.length t)%nat.
Proof. induction s as [|c s IH]; [done|]. rewrite sapp_cons. cbn [String.length]. by rewrite IH. Qed.

Lemma slen_join sep l :
  (sum_list_with String.length l + (length l - 1) * String.length sep)%nat
  = String.length (py_join sep l).
Proof.
  induction l as [|x l IH]; [done|]. destruct l as [|y l]; [simpl; lia|].
  rewrite py_join_cons, !slen_app, <- IH. simpl. lia.
Qed.

Lemma slen_enc_str s : (2 ≤ String.length (enc_str s))%nat.
Proof.
  assert (1 ≤ String.length (enc_body s))%nat
    by (induction s; cbn [enc_body]; [done|rewrite slen_app; lia]).
  unfold enc_str. cbn [String.length]. lia.
Qed.

Lemma weight_len st v : ∀ lvl, float_free v = true →
  (weight v ≤ 2 * String.length (enc st lvl v))%nat.
Proof.
  induction v as [|b|z|f|s|l IH|d IH] using json_ind'; intros lvl Hf.
  - simpl; lia.
  - destruct b; simpl; lia.
  - simpl. destruct (str_of_Z z) eqn:E; [by apply str_of_Z_nonempty in E|simpl; lia].
  - done.
  - pose proof (slen_enc_str s). simpl weight. cbn [enc]. lia.
  - destruct l as [|x l]; [simpl; lia|].
    cbn [enc]. rewrite !slen_app, <- slen_join. simpl weight. cbn [float_free] in Hf.
    assert (∀ k, Forall (λ v, ∀ lvl, float_free v = true → (weight v ≤ 2 * String.length (enc st lvl v))%nat) k →
      forallb float_free k = true →
      (sum_list_with (λ x, S (weight x)) k ≤
       length k + 2 * sum_list_with String.length (map (enc st (S lvl)) k))%nat) as Hs.
    { induction 1 as [|y k Hy _ IHk]; [simpl; lia|]. simpl.
      intros [Hfy Hfk]%andb_true_iff. specialize (IHk Hfk). specialize (Hy (S lvl) Hfy). lia. }
    specialize (Hs _ IH Hf). simpl in Hs. rewrite length_map. simpl.
    change (String.length ("," +:+ ws_item st (S lvl))) with (S (String.length (ws_item st (S lvl)))).
    simpl in *. nia.
  - destruct d as [|x d]; [simpl; lia|].
    cbn [enc]. rewrite !slen_app, <- slen_join. simpl weight. cbn [float_free] in Hf.
    set (em := λ kv : string * json, enc_str kv.1 +:+ ":" +:+ ws_key st +:+ enc st (S lvl) kv.2).
    assert (∀ kv, (String.length (enc st (S lvl) kv.2) ≤ String.length (em kv))%nat) as Hem
      by (intros kv; unfold em; rewrite !slen_app; lia).
    clearbody em.
    assert (∀ k : dict, Forall (λ kv, ∀ lvl, float_free kv.2 = true → (weight kv.2 ≤ 2 * String.length (enc st lvl kv.2))%nat) k →
      forallb (λ kv, float_free kv.2) k = true →
      (sum_list_with (λ kv, S (weight kv.2)) k ≤
       length k + 2 * sum_list_with String.length (map em k))%nat) as Hs.
    { induction 1 as [|y k Hy _ IHk]; [simpl; lia|]. simpl.
      intros [Hfy Hfk]%andb_true_iff. specialize (IHk Hfk). specialize (Hy (S lvl) Hfy).
      specialize (Hem y). lia. }
    specialize (Hs _ IH Hf). simpl in Hs. rewrite length_map. simpl in *. nia.
Qed.

(** [loads] reads back what [enc] wrote, for every hook that accepts
    dictionaries without repeated keys. *)
Lemma loads_enc hook st v :
  (∀ d, NoDup (keys d) → hook d = Ok d) →
  float_free v = true → json_wf v → loads_hook hook (enc st 0 v) = Ok v.
Proof.
  intros Hh Hf Hw. unfold loads_hook.
  pose proof (weight_len st v 0 Hf) as Hfuel.
  pose proof (skip_ws_enc st 0 v "" Hf) as Hs. rewrite sapp_nil_r in Hs. rewrite Hs.
  pose proof (p_value_enc hook Hh v Hf Hw st 0%nat (2 * String.length (enc st 0 v) + 2)%nat ""
    ltac:(lia) (λ _, eq_refl)) as Hp.
  rewrite sapp_nil_r in Hp. by rewrite Hp.
Qed.

Lemma dict_of_pairs_NoDup d : NoDup (keys d) → dict_of_pairs d = Ok d.
Proof.
  intros Hd. unfold dict_of_pairs. f_equal.
  assert (∀ l acc : dict, NoDup (keys (acc ++ l)) →
    fold_left (λ d kv, dset kv.1 kv.2 d) l acc = acc ++ l) as Hgen; [|by apply (Hgen d [])].
  induction l as [|[k v] l IH]; intros acc Hnd; simpl; [by rewrite app_nil_r|].
  assert (dset k v acc = acc ++ [(k, v)]) as ->.
  { assert (k ∉ keys acc) as Hni.
    { unfold keys in *. rewrite map_app in Hnd. apply NoDup_app in Hnd as (_ & Hx & _).
      intros Hk. specialize (Hx k Hk). simpl in Hx. set_solver. }
    clear -Hni. induction acc as [|[k' v'] acc IH]; [done|]. simpl in *.
    apply not_elem_of_cons in Hni as [Hne Hni].
    destruct (String.eqb_spec k k'); [done|]. by rewrite IH. }
  rewrite IH; [by rewrite <- app_assoc|by rewrite <- app_assoc].
Qed.

Lemma unique_object_NoDup e (d : dict) : NoDup (keys d) → unique_object e d = Ok d.
Proof. intros Hd. by apply unique_object_Ok. Qed.

(** *** Sorting the keys keeps the value *)
Lemma sort_keys_perm d :
  stable_sort key_le (map (λ kv, (kv.1, sort_keys kv.2)) d) ≡ₚ
  map (λ kv : string * json, (kv.1, sort_keys kv.2)) d.
Proof. apply stable_sort_Permutation. Qed.

Lemma sort_keys_wf v : json_wf v → json_wf (sort_keys v).
Proof.
  induction v as [| | | | |l IH|d IH] using json_ind'; intros Hw; try done.
  - cbn [sort_keys]. apply json_wf_list in Hw. apply json_wf_list.
    induction IH as [|x l Hx _ IHl]; [constructor|].
    apply Forall_cons in Hw as [? ?]. constructor; auto.
  - cbn [sort_keys]. apply json_wf_obj in Hw as [Hnd Hw]. apply json_wf_obj.
    unfold keys. rewrite sort_keys_perm. split; [by rewrite map_map|].
    apply Forall_forall. intros kv Hin.
    apply list_elem_of_In, in_map_iff in Hin as (kv0 & <- & Hin).
    apply list_elem_of_In in Hin. rewrite Forall_forall in IH, Hw. simpl. auto.
Qed.

Lemma forallb_perm {A} (p : A → bool) l k : l ≡ₚ k → forallb p l = forallb p k.
Proof.
  induction 1; simpl; [done|by f_equal| |congruence].
  destruct (p x), (p y); done.
Qed.

Lemma sort_keys_float_free v : float_free (sort_keys v) = float_free v.
Proof.
  induction v as [| | | | |l IH|d IH] using json_ind'; try done; cbn [sort_keys float_free].
  - induction IH as [|x l Hx _ IHl]; [done|]. simpl. by rewrite Hx, IHl.
  - rewrite (forallb_perm _ _ _ (sort_keys_perm d)).
    induction IH as [|x l Hx _ IHl]; [done|]. simpl. by rewrite Hx, IHl.
Qed.

(** [json.loads(json.dumps(v, sort_keys=True)) ] is [v] with its keys sorted,
    with or without the duplicate-rejecting hook, in each output style. *)
Lemma loads_dumps st v :
  float_free v = true → json_wf v → loads (dumps st v) = Ok (sort_keys v).
Proof.
  intros Hf Hw. apply loads_enc; [apply dict_of_pairs_NoDup| |by apply sort_keys_wf].
  by rewrite sort_keys_float_free.
Qed.

Lemma loads_unique_dumps e st v :
  float_free v = true → json_wf v →
  loads_hook (unique_object e) (dumps st v) = Ok (sort_keys v).
Proof.
  intros Hf Hw. apply loads_enc; [apply unique_object_NoDup| |by apply sort_keys_wf].
  by rewrite sort_keys_float_free.
Qed.

(** ... which is equal to [v] in Python's sense. *)
Lemma sort_keys_eq v : json_wf v → py_eqc (sort_keys v) v = true.
Proof.
  induction v as [| |z|f|s|l IH|d IH] using json_ind'; intros Hw;
    try (by apply py_eqc_refl).
  - apply json_wf_list in Hw. simpl. induction IH as [|x l Hx _ IHl]; [done|].
    apply Forall_cons in Hw as [? ?]. simpl. rewrite Hx by done. auto.
  - apply json_wf_obj in Hw as [Hnd Hw]. cbn [sort_keys py_eqc].
    set (e := stable_sort _ _).
    assert (e ≡ₚ map (λ kv, (kv.1, sort_keys kv.2)) d) as He by apply sort_keys_perm.
    rewrite (Permutation_length He), length_map, Nat.eqb_refl. cbn [andb].
    assert (Forall (λ kv : string * json, ∃ x, dget kv.1 d = Some x ∧ py_eqc kv.2 x = true) e) as Hall.
    { apply Forall_forall. intros kv Hin. rewrite He in Hin.
      apply list_elem_of_In, in_map_iff in Hin as ([k x] & <- & Hin).
      apply list_elem_of_In in Hin. exists x. rewrite Forall_forall in IH, Hw.
      split; [by apply dget_NoDup|]. apply (IH (k, x)); [done|]. by apply (Hw (k, x)). }
    clear -Hall. induction Hall as [|[k v] e (x & Hk & Hx) _ IHe]; [done|].
    simpl in *. by rewrite Hk, Hx.
Qed.

(** The encoding of an object is self-delimiting: it is determined by any
    text it starts. *)
Lemma dumps_obj_prefix st d1 d2 r1 r2 :
  float_free (JObj d1) = true → json_wf (JObj d1) → float_free (JObj d2) = true → json_wf (JObj d2) →
  dumps st (JObj d1) +:+ r1 = dumps st (JObj d2) +:+ r2 →
  sort_keys (JObj d1) = sort_keys (JObj d2) ∧ r1 = r2.
Proof.
  intros Hf1 Hw1 Hf2 Hw2 He. unfold dumps in He.
  set (n := (weight (sort_keys (JObj d1)) + weight (sort_keys (JObj d2)))%nat).
  pose proof (p_value_enc dict_of_pairs dict_of_pairs_NoDup (sort_keys (JObj d1))
    ltac:(by rewrite sort_keys_float_free) (sort_keys_wf _ Hw1) st 0%nat n r1 ltac:(lia) ltac:(done)) as H1.
  pose proof (p_value_enc dict_of_pairs dict_of_pairs_NoDup (sort_keys (JObj d2))
    ltac:(by rewrite sort_keys_float_free) (sort_keys_wf _ Hw2) st 0%nat n r2 ltac:(lia) ltac:(done)) as H2.
  rewrite He, H2 in H1. apply Ok_inj in H1. split; congruence.
Qed.

(** Sorting the keys commutes with looking one up. *)
Lemma getd_sort_keys d k :
  json_wf (JObj d) → match sort_keys (JObj d) with JObj e => getd e k | _ => JNull end = sort_keys (getd d k).
Proof.
  intros Hw. pose proof (sort_keys_wf _ Hw) as Hw'. apply json_wf_obj in Hw as [Hnd _].
  cbn [sort_keys] in Hw' |- *. apply json_wf_obj in Hw' as [Hnd' _].
  pose proof (sort_keys_perm d) as Hp. set (e := stable_sort _ _) in *. unfold getd.
  destruct (dget k d) as [x|] eqn:E; cbn [from_option id].
  - rewrite (dget_NoDup k (sort_keys x) e); [done..|]. rewrite Hp.
    apply list_elem_of_In, in_map_iff. exists (k, x). split; [done|]. by apply list_elem_of_In, dget_Some_In.
  - assert (dget k e = None) as ->; [|done]. apply dget_None_keys. intros Hin.
    apply dget_None_keys in E. apply E. unfold keys in Hin |- *. rewrite Hp, map_map in Hin. exact Hin.
Qed.

(** The fields of an object written with its keys sorted. *)
Definition sorted_fields (d : dict) : dict := stable_sort key_le (map (λ kv, (kv.1, sort_keys kv.2)) d).

Lemma dget_sorted_fields d k : NoDup (keys d) → dget k (sorted_fields d) = sort_keys <$> dget k d.
Proof.
  intros Hnd. unfold sorted_fields. pose proof (sort_keys_perm d) as Hp. set (e := stable_sort _ _) in *.
  assert (NoDup (keys e)) as Hnd' by (unfold keys; rewrite Hp, map_map; exact Hnd).
  destruct (dget k d) as [x|] eqn:E; simpl.
  - rewrite (dget_NoDup k (sort_keys x) e); [done..|]. rewrite Hp.
    apply list_elem_of_In, in_map_iff. exists (k, x). split; [done|]. by apply list_elem_of_In, dget_Some_In.
  - apply dget_None_keys. intros Hin. apply dget_None_keys in E. apply E.
    unfold keys in Hin |- *. rewrite Hp, map_map in Hin. exact Hin.
Qed.

Lemma sorted_fields_NoDup d : NoDup (keys d) → NoDup (keys (sorted_fields d)).
Proof. intros H. unfold keys, sorted_fields. rewrite sort_keys_perm, map_map. exact H. Qed.

(** A line of a file of records reads back. *)
Lemma loads_line st d : float_free (JObj d) = true → json_wf (JObj d) →
  loads (dumps st (JObj d) +:+ LF) = Ok (sort_keys (JObj d)).
Proof.
  intros Hf Hw. unfold loads, loads_hook, dumps.
  assert (float_free (sort_keys (JObj d)) = true) as Hf' by (by rewrite sort_keys_float_free).
  rewrite (skip_ws_enc st 0 _ LF Hf').
  rewrite (p_value_enc dict_of_pairs dict_of_pairs_NoDup _ Hf' (sort_keys_wf _ Hw) st 0%nat _ LF);
    [done| |done].
  pose proof (weight_len st _ 0 Hf'). rewrite slen_app. lia.
Qed.

Lemma dumps_line_strip st d : strip (dumps st (JObj d) +:+ LF) ≠ "".
Proof.
  unfold dumps. cbn [sort_keys enc].
  assert (∀ s, strip (String "{" s) ≠ "") as H.
  { intros s. unfold strip. simpl. by destruct (rstrip s). }
  destruct (stable_sort _ _); [done|]. rewrite !sapp_assoc. apply H.
Qed.
