(* ===== verification/PyFloat.v ===== *)
(** * Division and order of Python floats

    True division of integers and of floats, the product of an integer and a
    float, and the order of floats, on the binary64 values of [PyJson].
    Every result is the exact rational rounded once, to nearest, ties to
    even, as IEEE 754 and CPython do. *)

From stdpp Require Import prelude strings list sorting.
From Stdlib Require Import ZArith Lia Ascii.
From S2P Require Import Prelude PyText PyJson JsonText.
Local Open Scope Z_scope.

(** The binary64 nearest to [num / den], for [0 <= num] and [0 < den]. *)
Definition quotient (neg : bool) (num den : Z) : pyfloat :=
  if num =? 0 then FFin neg 0 0 else
  let '(q, e) := round_double num den in
  if 971 <? e then FInf neg else FFin neg (Z.to_N q) e.

(** [a / b] on integers. *)
Definition int_truediv (a b : Z) : res pyfloat :=
  if b =? 0 then Raise (Exn ZeroDivisionError "division by zero") else
  match quotient (xorb (a <? 0) (b <? 0)) (Z.abs a) (Z.abs b) with
  | FInf _ => Raise (Exn OverflowError "integer division result too large for a float")
  | f => Ok f
  end.

(** [float(z)], also the conversion of an integer operand of a float operation. *)
Definition float_of_Z (z : Z) : res pyfloat :=
  match quotient (z <? 0) (Z.abs z) 1 with
  | FInf _ => Raise (Exn OverflowError "int too large to convert to float")
  | f => Ok f
  end.

(** [m * 2^e] as a fraction. *)
Definition frac (m : N) (e : Z) : Z * Z :=
  if 0 <=? e then (Z.of_N m * 2 ^ e, 1) else (Z.of_N m, 2 ^ (- e)).

Definition fneg (f : pyfloat) : bool :=
  match f with FFin n _ _ | FInf n => n | FNaN => false end.

(** [x / y] on floats. *)
Definition fdiv (x y : pyfloat) : res pyfloat :=
  match x, y with
  | _, FFin _ 0 _ => Raise (Exn ZeroDivisionError "float division by zero")
  | FNaN, _ | _, FNaN | FInf _, FInf _ => Ok FNaN
  | FInf n, FFin n' _ _ => Ok (FInf (xorb n n'))
  | FFin n _ _, FInf n' => Ok (FFin (xorb n n') 0 0)
  | FFin n m e, FFin n' m' e' =>
      let '(a, b) := frac m e in let '(c, d) := frac m' e' in
      Ok (quotient (xorb n n') (a * d) (b * c))
  end.

(** [x * y] on floats. *)
Definition fmul (x y : pyfloat) : pyfloat :=
  match x, y with
  | FNaN, _ | _, FNaN => FNaN
  | FInf _, FFin _ 0 _ | FFin _ 0 _, FInf _ => FNaN
  | FInf n, _ | _, FInf n => FInf (xorb n (fneg (match x with FInf _ => y | _ => x end)))
  | FFin n m e, FFin n' m' e' =>
      let '(a, b) := frac m e in let '(c, d) := frac m' e' in
      quotient (xorb n n') (a * c) (b * d)
  end.

(** [a < b] on floats. *)
Definition fltb (a b : pyfloat) : bool := py_ltb (JFloat a) (JFloat b).

(** The order by which [sorted] arranges floats: [not b < a]. *)
Definition fle (a b : pyfloat) : Prop := fltb b a = false.
#[export] Instance fle_dec : RelDecision fle.
Proof. intros a b. unfold fle. apply _. Defined.

Example div_ex : int_truediv 1 10 = Ok (FFin false 7205759403792794 (-56)).
Proof. vm_compute. reflexivity. Qed.
Example div_ex_neg : int_truediv (-7) 2 = Ok (FFin true 7881299347898368 (-51)).
Proof. vm_compute. reflexivity. Qed.

(** ** No overflow below the range of binary64 *)
Lemma round_double_exp num den :
  (round_double num den).2 ≤ Z.max (Z.log2 num - Z.log2 den - 51) (-1074) + 1.
Proof.
  unfold round_double. repeat case_match; simpl in *; repeat case_match; simplify_eq; simpl; lia.
Qed.

Lemma quotient_finite neg num den :
  Z.log2 num - Z.log2 den ≤ 1000 → ∃ m e, quotient neg num den = FFin neg m e.
Proof.
  intros H. unfold quotient. destruct (num =? 0); [eauto|].
  pose proof (round_double_exp num den) as He. destruct (round_double num den) as [q e]. simpl in He.
  destruct (Z.ltb_spec 971 e); [lia|eauto].
Qed.

Lemma log2_below z k : 0 ≤ k → z < 2 ^ k → Z.log2 z ≤ k.
Proof.
  intros Hk Hz. destruct (Z.le_gt_cases z 0) as [H|H]; [rewrite Z.log2_nonpos by done; done|].
  apply Z.log2_lt_pow2 in Hz; lia.
Qed.

Lemma int_truediv_small a b : b ≠ 0 → Z.abs a < 2 ^ 1000 → ∃ n m e, int_truediv a b = Ok (FFin n m e).
Proof.
  intros Hb Ha. unfold int_truediv. destruct (Z.eqb_spec b 0); [done|].
  destruct (quotient_finite (xorb (a <? 0) (b <? 0)) (Z.abs a) (Z.abs b)) as (m & e & ->); [|eauto].
  pose proof (log2_below (Z.abs a) 1000 ltac:(lia) Ha). pose proof (Z.log2_nonneg (Z.abs b)). lia.
Qed.

Lemma float_of_Z_small z : 0 ≤ z < 2 ^ 1000 → ∃ m e, float_of_Z z = Ok (FFin false m e) ∧ quotient false z 1 = FFin false m e.
Proof.
  intros Hz. unfold float_of_Z. destruct (Z.ltb_spec z 0); [lia|]. rewrite Z.abs_eq by lia.
  destruct (quotient_finite false z 1) as (m & e & E); [|rewrite E; eauto].
  pose proof (log2_below z 1000 ltac:(lia) ltac:(lia)). change (Z.log2 1) with 0. lia.
Qed.

(** ** The size and the exactness of rounding *)
Definition scaled (num den e : Z) : Z * Z := if 0 <=? e then (num, den * 2 ^ e) else (num * 2 ^ (- e), den).

Lemma scaled_pos num den e : 0 < num → 0 < den → 0 < (scaled num den e).1 ∧ 0 < (scaled num den e).2.
Proof.
  intros Hn Hd. unfold scaled. destruct (Z.leb_spec 0 e); simpl.
  - assert (0 < 2 ^ e) by lia. nia.
  - assert (0 < 2 ^ (- e)) by lia. nia.
Qed.

Lemma scaled_below num den e k : 0 < num → 0 < den → 0 ≤ k → Z.log2 num + 1 ≤ Z.log2 den + k + e →
  (scaled num den e).1 / (scaled num den e).2 < 2 ^ k.
Proof.
  intros Hn Hd Hk H. apply Z.div_lt_upper_bound; [by apply scaled_pos|].
  destruct (Z.log2_spec num Hn) as [_ Hnum]. destruct (Z.log2_spec den Hd) as [Hden _].
  pose proof (Z.log2_nonneg num). pose proof (Z.log2_nonneg den).
  unfold scaled. destruct (Z.leb_spec 0 e); simpl.
  - assert (2 ^ Z.succ (Z.log2 num) ≤ 2 ^ (Z.log2 den + e + k)) as Hle by (apply Z.pow_le_mono_r; lia).
    rewrite !Z.pow_add_r in Hle by lia. assert (0 < 2 ^ e * 2 ^ k) by nia. nia.
  - assert (2 ^ (Z.succ (Z.log2 num) + - e) ≤ 2 ^ (Z.log2 den + k)) as Hle by (apply Z.pow_le_mono_r; lia).
    rewrite !Z.pow_add_r in Hle by lia. assert (0 < 2 ^ k) by lia. assert (0 < 2 ^ (- e)) by lia. nia.
Qed.

Lemma scaled_half num den e : 0 < num → 0 < den →
  (scaled num den (e - 1)).1 / (scaled num den (e - 1)).2 ≤ 2 * ((scaled num den e).1 / (scaled num den e).2) + 1.
Proof.
  intros Hn Hd. destruct (scaled_pos num den e Hn Hd) as [Ha Hb]. destruct (scaled_pos num den (e - 1) Hn Hd) as [Ha' Hb'].
  apply Z.lt_succ_r. apply Z.div_lt_upper_bound; [done|].
  pose proof (Z.mul_succ_div_gt (scaled num den e).1 (scaled num den e).2 Hb) as Hq.
  set (q := (scaled num den e).1 / (scaled num den e).2) in *.
  assert ((scaled num den (e - 1)).1 * (scaled num den e).2 = 2 * ((scaled num den e).1 * (scaled num den (e - 1)).2)) as Heq.
  { unfold scaled. destruct (Z.leb_spec 0 e), (Z.leb_spec 0 (e - 1)); simpl; try lia.
    - replace e with (1 + (e - 1)) at 1 by lia. rewrite Z.pow_add_r by lia. lia.
    - assert (e = 0) as -> by lia. simpl. lia.
    - replace (- (e - 1)) with (1 + - e) by lia. rewrite Z.pow_add_r by lia. lia. }
  nia.
Qed.

Lemma round_double_small num den : 0 < num → 0 < den → 0 ≤ (round_double num den).1 < 2 ^ 53.
Proof.
  intros Hn Hd. unfold round_double. set (e0 := Z.log2 num - Z.log2 den - 52).
  change (if 0 <=? e0 then (num, den * 2 ^ e0) else (num * 2 ^ (- e0), den)) with (scaled num den e0).
  assert ((let '(a, b) := scaled num den e0 in a / b) = (scaled num den e0).1 / (scaled num den e0).2) as -> by (by destruct (scaled num den e0)).
  assert ((scaled num den e0).1 / (scaled num den e0).2 < 2 ^ 53) as Hq0 by (apply scaled_below; lia).
  set (q0 := (scaled num den e0).1 / (scaled num den e0).2) in *.
  set (e1 := if q0 <? 2 ^ 52 then e0 - 1 else if 2 ^ 53 <=? q0 then e0 + 1 else e0).
  set (e := Z.max e1 (-1074)).
  change (if 0 <=? e then (num, den * 2 ^ e) else (num * 2 ^ (- e), den)) with (scaled num den e).
  assert ((scaled num den e).1 / (scaled num den e).2 < 2 ^ 53) as Hq.
  { unfold e. destruct (Z.le_gt_cases e0 e1).
    - apply scaled_below; lia.
    - destruct (Z.le_gt_cases e0 (-1074)); [apply scaled_below; lia|].
      unfold e1 in *. destruct (Z.ltb_spec q0 (2 ^ 52)) as [Hlt|]; [|destruct (2 ^ 53 <=? q0); lia].
      rewrite Z.max_l by lia. pose proof (scaled_half num den e0 Hn Hd) as Hh. fold q0 in Hh. lia. }
  destruct (scaled_pos num den e Hn Hd) as [Ha Hb]. destruct (scaled num den e) as [a b] eqn:Es. simpl in *.
  assert (0 ≤ a / b) by (apply Z.div_pos; lia).
  set (q' := if 2 * (a mod b) <? b then a / b else if b <? 2 * (a mod b) then a / b + 1 else if Z.even (a / b) then a / b else a / b + 1).
  assert (0 ≤ q' ≤ 2 ^ 53) by (unfold q'; repeat case_match; lia).
  destruct (Z.eqb_spec q' (2 ^ 53)); simpl; lia.
Qed.

(** A quotient that is an integer below [2^53] is a float, and is returned. *)
Lemma round_double_exact v den : 0 < v < 2 ^ 53 → 0 < den →
  (round_double (v * den) den).2 ≤ 0 ∧ (round_double (v * den) den).1 = v * 2 ^ (- (round_double (v * den) den).2).
Proof.
  intros Hv Hd. assert (0 < v * den) as Hn by nia. unfold round_double.
  set (e0 := Z.log2 (v * den) - Z.log2 den - 52).
  assert (Z.log2 v ≤ 52) as Hlv by (assert (Z.log2 v < 53); [apply Z.log2_lt_pow2; lia|lia]).
  assert (-52 ≤ e0 ≤ 1) as He0.
  { pose proof (Z.log2_mul_below v den ltac:(lia) ltac:(lia)). pose proof (Z.log2_mul_above v den ltac:(lia) ltac:(lia)).
    pose proof (Z.log2_nonneg v). unfold e0. lia. }
  change (if 0 <=? e0 then (v * den, den * 2 ^ e0) else (v * den * 2 ^ (- e0), den)) with (scaled (v * den) den e0).
  assert ((let '(a, b) := scaled (v * den) den e0 in a / b) = (scaled (v * den) den e0).1 / (scaled (v * den) den e0).2) as ->
    by (by destruct (scaled (v * den) den e0)).
  set (q0 := (scaled (v * den) den e0).1 / (scaled (v * den) den e0).2).
  assert (e0 = 1 → q0 < 2 ^ 52) as Hone.
  { intros E. unfold q0, scaled. rewrite E. simpl. apply Z.div_lt_upper_bound; [lia|]. change (Z.pow_pos 2 1) with 2. nia. }
  assert (q0 < 2 ^ 53) as Hq0 by (apply scaled_below; lia).
  set (e1 := if q0 <? 2 ^ 52 then e0 - 1 else if 2 ^ 53 <=? q0 then e0 + 1 else e0).
  assert (-53 ≤ e1 ≤ 0) as He1.
  { unfold e1. destruct (Z.ltb_spec q0 (2 ^ 52)); [lia|]. destruct (Z.leb_spec (2 ^ 53) q0); [lia|].
    assert (e0 ≠ 1) by (intros E; specialize (Hone E); lia). lia. }
  rewrite Z.max_l by lia.
  assert ((if 0 <=? e1 then (v * den, den * 2 ^ e1) else (v * den * 2 ^ (- e1), den)) = (v * 2 ^ (- e1) * den, den)) as ->.
  { destruct (Z.leb_spec 0 e1); [|f_equal; lia]. assert (e1 = 0) as -> by lia. simpl. f_equal; lia. }
  rewrite Z.div_mul, Z.mod_mul by lia. change (2 * 0) with 0. destruct (Z.ltb_spec 0 den); [|lia].
  destruct (Z.eqb_spec (v * 2 ^ (- e1)) (2 ^ 53)) as [E|E]; simpl; [|split; [lia|done]].
  assert (e1 ≠ 0) by (intros ->; simpl in E; lia).
  assert (0 < - e1) as Hneg by lia. replace (- e1) with (1 + (- (e1 + 1))) in E by lia.
  rewrite Z.pow_add_r in E by lia. split; [lia|]. change (2 ^ 53) with (2 * 2 ^ 52) in E. change (Z.pow_pos 2 52) with (2 ^ 52). lia.
Qed.

Lemma quotient_exact v den : 0 ≤ v < 2 ^ 53 → 0 < den →
  ∃ m e, quotient false (v * den) den = FFin false m e ∧ e ≤ 0 ∧ Z.of_N m = v * 2 ^ (- e).
Proof.
  intros Hv Hd. unfold quotient. destruct (Z.eqb_spec (v * den) 0) as [E|E].
  - exists 0%N, 0. assert (v = 0) as -> by nia. done.
  - destruct (round_double_exact v den) as [H1 H2]; [nia|done|].
    pose proof (round_double_small (v * den) den ltac:(nia) Hd) as [H3 _].
    destruct (round_double (v * den) den) as [q e]. simpl in *. destruct (Z.ltb_spec 971 e); [lia|].
    exists (Z.to_N q), e. split_and!; [done|done|]. rewrite Z2N.id by done. done.
Qed.

(** [int(f)] of such a float. *)
Lemma trunc_exact m e v : e ≤ 0 → Z.of_N m = v * 2 ^ (- e) → float_trunc false m e = v.
Proof.
  intros He Hm. unfold float_trunc. rewrite Hm. destruct (Z.leb_spec 0 e).
  - assert (e = 0) as -> by lia. simpl. lia.
  - apply Z.div_mul. assert (0 < 2 ^ (- e)) by lia. lia.
Qed.

(** ** The order of finite floats *)
Lemma fltb_fin n m e n' m' e' lo : lo ≤ e → lo ≤ e' →
  fltb (FFin n m e) (FFin n' m' e') = (sgn n m * 2 ^ (e - lo) <? sgn n' m' * 2 ^ (e' - lo)).
Proof.
  intros H1 H2. unfold fltb, py_ltb. simpl. set (l := Z.min e e').
  replace (e - lo) with ((e - l) + (l - lo)) by lia. replace (e' - lo) with ((e' - l) + (l - lo)) by lia.
  rewrite !Z.pow_add_r by lia. assert (0 < 2 ^ (l - lo)) by (apply Z.pow_pos_nonneg; lia).
  set (x := sgn n m * 2 ^ (e - l)). set (y := sgn n' m' * 2 ^ (e' - l)).
  replace (sgn n m * (2 ^ (e - l) * 2 ^ (l - lo))) with (x * 2 ^ (l - lo)) by (unfold x; lia).
  replace (sgn n' m' * (2 ^ (e' - l) * 2 ^ (l - lo))) with (y * 2 ^ (l - lo)) by (unfold y; lia).
  destruct (Z.ltb_spec x y), (Z.ltb_spec (x * 2 ^ (l - lo)) (y * 2 ^ (l - lo))); try done; nia.
Qed.

Definition finite (f : pyfloat) : Prop := ∃ n m e, f = FFin n m e.

Lemma fle_refl a : finite a → fle a a.
Proof. intros (n & m & e & ->). unfold fle. rewrite (fltb_fin _ _ _ _ _ _ e) by lia. lia. Qed.

Lemma fle_trans a b c : finite a → finite b → finite c → fle a b → fle b c → fle a c.
Proof.
  intros (n1 & m1 & e1 & ->) (n2 & m2 & e2 & ->) (n3 & m3 & e3 & ->). unfold fle.
  set (lo := Z.min e1 (Z.min e2 e3)). rewrite !(fltb_fin _ _ _ _ _ _ lo) by lia. lia.
Qed.

#[export] Instance fle_total : Total fle.
Proof.
  intros a b. unfold fle, fltb, py_ltb. destruct a as [n m e|[]|], b as [n' m' e'|[]|]; simpl; auto.
  rewrite (Z.min_comm e' e). lia.
Qed.

(** A sorted list of finite floats is sorted pairwise. *)
Lemma sorted_floats l : Forall finite l → StronglySorted fle (stable_sort fle l).
Proof.
  intros Hf. pose proof (Sorted_stable_sort fle l) as Hs. rewrite <- (stable_sort_Permutation fle l) in Hf.
  induction Hs as [|a k Hk IH Hhd]; [constructor|]. apply Forall_cons in Hf as [Ha Hf]. specialize (IH Hf).
  constructor; [done|]. destruct Hhd as [|b k Hab]; [done|]. inversion IH as [|? ? _ Hall]; subst.
  apply Forall_cons in Hf as [Hb Hf]. constructor; [done|]. rewrite Forall_forall in Hall, Hf |- *.
  intros x Hx. apply (fle_trans a b x); auto.
Qed.
