(* ===== verification/FloatOps.v ===== *)
(** * Sums and ceilings of Python floats

    Addition and subtraction of binary64 numbers, [math.ceil], and the fact
    the programs rely on when they round a quotient of integers up: below
    [2^53] the ceiling of the rounded quotient is the exact ceiling. *)

From stdpp Require Import prelude strings list.
From Stdlib Require Import ZArith Lia Ascii.
From S2P Require Import Prelude PyText PyJson JsonText PyFloat.
Local Open Scope Z_scope.

(** [x + y]: the exact sum, rounded once.  A sum that is zero is positive
    unless both operands are negative (zeros). *)
Definition fadd (x y : pyfloat) : pyfloat :=
  match x, y with
  | FNaN, _ | _, FNaN => FNaN
  | FInf a, FInf b => if Bool.eqb a b then FInf a else FNaN
  | FInf a, FFin _ _ _ => FInf a
  | FFin _ _ _, FInf b => FInf b
  | FFin n m e, FFin n' m' e' =>
      let lo := Z.min e e' in
      let s := sgn n m * 2 ^ (e - lo) + sgn n' m' * 2 ^ (e' - lo) in
      if s =? 0 then FFin (n && n') 0 0 else
      let '(a, b) := if 0 <=? lo then (Z.abs s * 2 ^ lo, 1) else (Z.abs s, 2 ^ (- lo)) in
      quotient (s <? 0) a b
  end.

Definition fopp (x : pyfloat) : pyfloat :=
  match x with FFin n m e => FFin (negb n) m e | FInf n => FInf (negb n) | FNaN => FNaN end.

Definition fsub (x y : pyfloat) : pyfloat := fadd x (fopp y).

Definition fzero : pyfloat := FFin false 0 0.

(** [math.ceil(x)] and [int(np.ceil(x))]. *)
Definition ceil_of (x : pyfloat) : res Z :=
  match x with
  | FFin false m e => Ok (if 0 <=? e then Z.of_N m * 2 ^ e else - ((- Z.of_N m) / 2 ^ (- e)))
  | FFin true m e => Ok (float_trunc true m e)
  | FInf _ => Raise (Exn OverflowError "cannot convert float infinity to integer")
  | FNaN => Raise (Exn ValueError "cannot convert float NaN to integer")
  end.

(** [int(x)] *)
Definition int_of (x : pyfloat) : res Z := py_int (JFloat x).

Example fadd_ex : fadd (FFin false 1 0) (FFin false 1 (-60)) = FFin false 4503599627370496 (-52).
Proof. vm_compute. reflexivity. Qed.
Example fsub_ex : fsub (FFin false 3 0) (FFin false 1 2) = FFin true 4503599627370496 (-52).
Proof. vm_compute. reflexivity. Qed.
Example ceil_ex : map ceil_of [FFin false 5 (-1); FFin true 5 (-1); FFin false 4 (-1)] = [Ok 3; Ok (-2); Ok 2].
Proof. vm_compute. reflexivity. Qed.

(** ** What rounding does *)

Lemma scaled_above num den e k : 0 < num → 0 < den → 0 ≤ k → Z.log2 den + 1 + k + e ≤ Z.log2 num →
  2 ^ k ≤ (scaled num den e).1 / (scaled num den e).2.
Proof.
  intros Hn Hd Hk H. apply Z.div_le_lower_bound; [by apply scaled_pos|].
  destruct (Z.log2_spec num Hn) as [Hnum _]. destruct (Z.log2_spec den Hd) as [_ Hden].
  pose proof (Z.log2_nonneg num). pose proof (Z.log2_nonneg den).
  unfold scaled. destruct (Z.leb_spec 0 e); simpl.
  - assert (2 ^ (Z.succ (Z.log2 den) + e + k) ≤ 2 ^ Z.log2 num) as Hle by (apply Z.pow_le_mono_r; lia).
    rewrite !Z.pow_add_r in Hle by lia. assert (0 < 2 ^ e * 2 ^ k) by nia. nia.
  - assert (2 ^ (Z.succ (Z.log2 den) + k) ≤ 2 ^ (Z.log2 num + - e)) as Hle by (apply Z.pow_le_mono_r; lia).
    rewrite !Z.pow_add_r in Hle by lia. assert (0 < 2 ^ k) by lia. assert (0 < 2 ^ (- e)) by lia. nia.
Qed.

(** The mantissa is normal and the scaled quotient rounded to nearest. *)
Lemma round_double_spec num den : 0 < num → 0 < den → -1000 ≤ Z.log2 num - Z.log2 den →
  ∃ q e, let '(a, b) := scaled num den e in
    0 < b ∧ 2 ^ 52 ≤ a / b ∧ a / b ≤ q ≤ a / b + 1 ∧
    (q = a / b → 2 * (a mod b) ≤ b) ∧ (q = a / b + 1 → b ≤ 2 * (a mod b)) ∧
    round_double num den = (if q =? 2 ^ 53 then (2 ^ 52, e + 1) else (q, e)).
Proof.
  intros Hn Hd Hlog. unfold round_double. set (e0 := Z.log2 num - Z.log2 den - 52).
  change (if 0 <=? e0 then (num, den * 2 ^ e0) else (num * 2 ^ (- e0), den)) with (scaled num den e0).
  assert ((let '(a, b) := scaled num den e0 in a / b) = (scaled num den e0).1 / (scaled num den e0).2) as ->
    by (by destruct (scaled num den e0)).
  set (q0 := (scaled num den e0).1 / (scaled num den e0).2).
  set (e1 := if q0 <? 2 ^ 52 then e0 - 1 else if 2 ^ 53 <=? q0 then e0 + 1 else e0).
  rewrite (Z.max_l e1) by (unfold e1; repeat case_match; lia).
  change (if 0 <=? e1 then (num, den * 2 ^ e1) else (num * 2 ^ (- e1), den)) with (scaled num den e1).
  assert (2 ^ 52 ≤ (scaled num den e1).1 / (scaled num den e1).2) as Hbig.
  { unfold e1. destruct (Z.ltb_spec q0 (2 ^ 52)); [apply scaled_above; lia|].
    assert (q0 < 2 ^ 53) by (apply scaled_below; lia). destruct (Z.leb_spec (2 ^ 53) q0); [lia|done]. }
  destruct (scaled_pos num den e1 Hn Hd) as [Ha Hb]. destruct (scaled num den e1) as [a b] eqn:Es. cbn [fst snd] in *.
  exists (if 2 * (a mod b) <? b then a / b else if b <? 2 * (a mod b) then a / b + 1
          else if Z.even (a / b) then a / b else a / b + 1), e1.
  rewrite Es. split; [done|]. split; [done|].
  destruct (Z.ltb_spec (2 * (a mod b)) b); [split_and!; [lia..|done]|].
  destruct (Z.ltb_spec b (2 * (a mod b))); [split_and!; [lia..|done]|].
  destruct (Z.even (a / b)); split_and!; try lia; done.
Qed.

(** The ceiling of [num / den]. *)
Definition ceil_div (num den : Z) : Z := - ((- num) / den).

Lemma ceil_div_spec num den k : 0 < den → (k - 1) * den < num ≤ k * den → ceil_div num den = k.
Proof.
  intros Hd Hk. unfold ceil_div. enough ((- num) / den = - k) by lia.
  symmetry. apply (Z.div_unique _ _ _ (k * den - num)); lia.
Qed.

Lemma ceil_div_bounds num den : 0 < den → (ceil_div num den - 1) * den < num ≤ ceil_div num den * den.
Proof.
  intros Hd. unfold ceil_div. pose proof (Z.div_mod (- num) den ltac:(lia)).
  pose proof (Z.mod_pos_bound (- num) den Hd). nia.
Qed.

(** Rounding an up-scaled quotient does not cross an integer. *)
Lemma ceil_rounded num den q s k : 0 < den → 0 < s → num < 2 ^ 53 →
  (k - 1) * den < num ≤ k * den →
  2 ^ 52 ≤ num * s / den → num * s / den ≤ q ≤ num * s / den + 1 →
  (q = num * s / den → 2 * ((num * s) mod den) ≤ den) →
  (q = num * s / den + 1 → den ≤ 2 * ((num * s) mod den)) →
  (k - 1) * s < q ≤ k * s.
Proof.
  intros Hd Hs Hn Hk Hbig Hq Hdown Hup.
  pose proof (Z.div_mod (num * s) den ltac:(lia)) as Hdm. pose proof (Z.mod_pos_bound (num * s) den Hd) as Hm.
  set (x := num * s / den) in *. set (r := (num * s) mod den) in *.
  assert ((k - 1) * s ≤ x) as Hlo by (apply Z.div_le_lower_bound; nia).
  assert (x < k * s ∨ x = k * s ∧ r = 0) as Hhi.
  { destruct (Z.lt_total x (k * s)) as [|[E|]]; [by left|right|]; nia. }
  split.
  - destruct (Z.eq_dec q (x + 1)); [lia|]. assert (q = x) as -> by lia. specialize (Hdown eq_refl).
    destruct (Z.eq_dec x ((k - 1) * s)) as [E|]; [|lia].
    assert (s ≤ r) by nia. assert (2 ^ 52 * den ≤ num * s) by nia. nia.
  - destruct Hhi as [|[-> Hr]]; [lia|]. destruct (Z.eq_dec q (k * s + 1)); [specialize (Hup e); lia|lia].
Qed.

Lemma floor_rounded num den q s k : 0 < den → 0 < s → num < 2 ^ 53 →
  k * den ≤ num < (k + 1) * den →
  2 ^ 52 ≤ num * s / den → num * s / den ≤ q ≤ num * s / den + 1 →
  (q = num * s / den + 1 → den ≤ 2 * ((num * s) mod den)) →
  k * s ≤ q < (k + 1) * s.
Proof.
  intros Hd Hs Hn Hk Hbig Hq Hup.
  pose proof (Z.div_mod (num * s) den ltac:(lia)) as Hdm. pose proof (Z.mod_pos_bound (num * s) den Hd) as Hm.
  set (x := num * s / den) in *. set (r := (num * s) mod den) in *.
  assert (k * s ≤ x) as Hlo by (apply Z.div_le_lower_bound; nia).
  assert (x < (k + 1) * s) as Hhi by (apply Z.div_lt_upper_bound; nia).
  split; [lia|]. destruct (Z.eq_dec q (x + 1)) as [E|]; [|lia]. specialize (Hup E).
  destruct (Z.eq_dec (x + 1) ((k + 1) * s)) as [E'|]; [|lia].
  assert (s ≤ den - r) by nia. assert (2 ^ 52 * den ≤ num * s) by nia. nia.
Qed.

(** The float [a / b] lies on the same side of every integer as the exact
    quotient, for operands below [2^53]. *)
Lemma truediv_separates a b : 0 < a < 2 ^ 53 → 0 < b < 2 ^ 53 →
  ∃ q e, int_truediv a b = Ok (FFin false (Z.to_N q) e) ∧ 0 ≤ q ∧ e ≤ 0 ∧
    ∀ k, (k * 2 ^ (- e) < q ↔ k * b < a) ∧ (q < k * 2 ^ (- e) ↔ a < k * b).
Proof.
  intros Ha Hb. unfold int_truediv, quotient. destruct (Z.eqb_spec b 0); [lia|].
  rewrite !Z.abs_eq by lia. destruct (Z.eqb_spec a 0); [lia|].
  destruct (Z.ltb_spec a 0); [lia|]. destruct (Z.ltb_spec b 0); [lia|]. cbn [xorb].
  pose proof (log2_below b 53 ltac:(lia) ltac:(lia)). pose proof (Z.log2_nonneg a).
  destruct (round_double_spec a b) as (q & e & Hr); [lia..|].
  pose proof (ceil_div_bounds a b ltac:(lia)) as Hk. set (k := ceil_div a b) in *.
  assert (e ≤ 0) as He.
  { destruct (Z.le_gt_cases e 0); [done|]. exfalso. unfold scaled in Hr. destruct (Z.leb_spec 0 e); [|lia].
    destruct Hr as (_ & Hbig & _). assert (2 ≤ 2 ^ e) by (change 2 with (2 ^ 1) at 1; apply Z.pow_le_mono_r; lia).
    assert (a / (b * 2 ^ e) < 2 ^ 52) by (apply Z.div_lt_upper_bound; nia). lia. }
  assert (scaled a b e = (a * 2 ^ (- e), b)) as Es.
  { unfold scaled. destruct (Z.leb_spec 0 e); [|done]. assert (e = 0) as -> by lia. simpl. f_equal; lia. }
  rewrite Es in Hr. destruct Hr as (_ & Hbig & Hq & Hdown & Hup & ->).
  assert (0 < 2 ^ (- e)) as Hs by lia. set (s := 2 ^ (- e)) in *.
  pose proof (ceil_rounded a b q s k ltac:(lia) Hs ltac:(lia) Hk Hbig Hq Hdown Hup) as Hc.
  assert (a / b * b ≤ a < (a / b + 1) * b) as Hf.
  { pose proof (Z.div_mod a b ltac:(lia)). pose proof (Z.mod_pos_bound a b ltac:(lia)). lia. }
  pose proof (floor_rounded a b q s (a / b) ltac:(lia) Hs ltac:(lia) Hf Hbig Hq Hup) as Hc'. set (f := a / b) in *.
  assert (∀ i, (i * s < q ↔ i * b < a) ∧ (q < i * s ↔ a < i * b)) as Hsep.
  { clear -Hk Hf Hc Hc' Hs Hb. intros i.
    destruct (Z.lt_total (i * b) a) as [Hlt|[Heq|Hgt]].
    - assert (i ≤ k - 1) by nia. split; nia.
    - assert (i ≤ f) by nia. assert (k ≤ i) by nia. split; nia.
    - assert (f + 1 ≤ i) by nia. split; nia. }
  destruct (Z.eqb_spec q (2 ^ 53)) as [Eq|].
  - assert (e ≠ 0).
    { intros ->. unfold s in Hc. change (2 ^ (- 0)) with 1 in Hc. assert (k < 2 ^ 53) by nia. lia. }
    destruct (Z.ltb_spec 971 (e + 1)); [lia|]. exists (2 ^ 52), (e + 1). split_and!; [done|lia|lia|].
    intros i. specialize (Hsep i). unfold s in Hsep. replace (- e) with (1 + - (e + 1)) in Hsep by lia.
    rewrite Z.pow_add_r in Hsep by lia. rewrite Eq in Hsep. set (u := 2 ^ (- (e + 1))) in *.
    change (2 ^ 53) with (2 * 2 ^ 52) in Hsep. change (2 ^ 1) with 2 in Hsep.
    assert (i * (2 * u) = 2 * (i * u)) as E by lia. rewrite E in Hsep. lia.
  - destruct (Z.ltb_spec 971 e); [lia|]. exists q, e. split_and!; [done|lia|lia|done].
Qed.

Lemma ceil_of_scaled q e k : 0 ≤ q → e ≤ 0 → (k - 1) * 2 ^ (- e) < q ≤ k * 2 ^ (- e) →
  ceil_of (FFin false (Z.to_N q) e) = Ok k.
Proof.
  intros Hq He Hk. unfold ceil_of. rewrite Z2N.id by done. f_equal. destruct (Z.leb_spec 0 e).
  - assert (e = 0) as -> by lia. change (2 ^ (- 0)) with 1 in Hk. change (2 ^ 0) with 1. lia.
  - apply ceil_div_spec; [lia|done].
Qed.

(** [math.ceil(a / b)] and [int(a / b)] are exact below [2^53]. *)
Lemma ceil_truediv a b : 0 < a < 2 ^ 53 → 0 < b < 2 ^ 53 →
  int_truediv a b ≫= ceil_of = Ok (ceil_div a b).
Proof.
  intros Ha Hb. destruct (truediv_separates a b Ha Hb) as (q & e & -> & Hq & He & Hsep).
  cbn [mbind res_bind]. pose proof (ceil_div_bounds a b ltac:(lia)). set (k := ceil_div a b) in *.
  apply ceil_of_scaled; [done..|]. pose proof (Hsep (k - 1)). pose proof (Hsep k). lia.
Qed.

Lemma trunc_truediv a b : 0 < a < 2 ^ 53 → 0 < b < 2 ^ 53 → int_truediv a b ≫= int_of = Ok (a / b).
Proof.
  intros Ha Hb. destruct (truediv_separates a b Ha Hb) as (q & e & -> & Hq & He & Hsep).
  cbn [mbind res_bind int_of py_int]. f_equal. unfold float_trunc. rewrite Z2N.id by done.
  pose proof (Z.div_mod a b ltac:(lia)). pose proof (Z.mod_pos_bound a b ltac:(lia)).
  pose proof (Hsep (a / b)). pose proof (Hsep (a / b + 1)). set (k := a / b) in *.
  destruct (Z.leb_spec 0 e).
  - assert (e = 0) as -> by lia. change (2 ^ (- 0)) with 1 in *. change (2 ^ 0) with 1. lia.
  - symmetry. apply (Z.div_unique _ _ _ (q - k * 2 ^ (- e))); [|lia]. left. lia.
Qed.

(** Comparing such a quotient with an integer float. *)
Lemma truediv_compare a b q e k m e' : 0 ≤ q → e ≤ 0 → e' ≤ 0 → Z.of_N m = k * 2 ^ (- e') →
  (k * 2 ^ (- e) < q ↔ k * b < a) ∧ (q < k * 2 ^ (- e) ↔ a < k * b) →
  fltb (FFin false (Z.to_N q) e) (FFin false m e') = (a <? k * b) ∧
  fltb (FFin false m e') (FFin false (Z.to_N q) e) = (k * b <? a).
Proof.
  intros Hq He He' Hm [H1 H2]. set (lo := Z.min e e').
  rewrite !(fltb_fin _ _ _ _ _ _ lo) by lia. cbn [sgn]. rewrite Z2N.id, Hm by done.
  assert (2 ^ (- e') * 2 ^ (e' - lo) = 2 ^ (- e) * 2 ^ (e - lo)) as E
    by (rewrite <- !Z.pow_add_r by lia; f_equal; lia).
  assert (0 < 2 ^ (e - lo)) by (apply Z.pow_pos_nonneg; lia).
  replace (k * 2 ^ (- e') * 2 ^ (e' - lo)) with (k * 2 ^ (- e) * 2 ^ (e - lo)) by nia.
  set (u := 2 ^ (e - lo)) in *. set (v := k * 2 ^ (- e)) in *. split.
  - destruct (Z.ltb_spec (q * u) (v * u)), (Z.ltb_spec a (k * b)); try done; nia.
  - destruct (Z.ltb_spec (v * u) (q * u)), (Z.ltb_spec (k * b) a); try done; nia.
Qed.

(** ** Signs *)
Definition nonneg (f : pyfloat) : Prop :=
  match f with FFin n m _ => n = false ∨ m = 0%N | FInf n => n = false | FNaN => False end.

Lemma nonneg_fltb f : nonneg f → fltb f fzero = false.
Proof.
  destruct f as [n m e|n|]; simpl; [|by intros ->|done]. intros H. unfold fzero.
  rewrite (fltb_fin _ _ _ _ _ _ (Z.min e 0)) by lia. cbn [sgn]. apply Z.ltb_ge.
  assert (0 < 2 ^ (e - Z.min e 0)) by (apply Z.pow_pos_nonneg; lia). unfold sgn.
  destruct H as [-> | ->]; [nia|]. destruct n; simpl; lia.
Qed.

Lemma quotient_nonneg num den : nonneg (quotient false num den).
Proof. unfold quotient. repeat case_match; simpl; auto. Qed.

(** A difference of ordered times is not negative. *)
Lemma fsub_nonneg x y : finite x → finite y → fle y x → nonneg (fsub x y).
Proof.
  intros (n & m & e & ->) (n' & m' & e' & ->). unfold fle.
  rewrite (fltb_fin _ _ _ _ _ _ (Z.min e e')) by lia. intros Hle%Z.ltb_ge. unfold fsub, fadd, fopp.
  replace (sgn (negb n') m') with (- sgn n' m') by (destruct n'; simpl; lia).
  set (s := sgn n m * _ + _). assert (0 ≤ s) as Hs by (unfold s; lia).
  destruct (s =? 0); [simpl; auto|]. destruct (Z.ltb_spec s 0); [lia|].
  destruct (0 <=? Z.min e e'); apply quotient_nonneg.
Qed.

Lemma fmul_nonneg x m e : m ≠ 0%N → nonneg x → nonneg (fmul x (FFin false m e)).
Proof.
  intros Hm. destruct x as [n k e1|n|]; [|by destruct m; [|intros ->]|done]. cbn [nonneg fmul].
  destruct (frac k e1) as [a b] eqn:E1, (frac m e) as [c d] eqn:E2. intros [-> | ->]; [destruct k; apply quotient_nonneg|].
  assert (a = 0) as ->; [|by simpl; right]. unfold frac in E1. destruct (0 <=? e1); injection E1; lia.
Qed.

(** ** Integers as floats *)
Definition fint (z : Z) : pyfloat := quotient false z 1.

Lemma round_normal num den : 0 < num → 0 < den → -1000 ≤ Z.log2 num - Z.log2 den → 2 ^ 52 ≤ (round_double num den).1.
Proof.
  intros Hn Hd Hl. destruct (round_double_spec num den Hn Hd Hl) as (q & e & H).
  destruct (scaled num den e) as [a b]. destruct H as (_ & Hbig & Hq & _ & _ & ->).
  destruct (q =? 2 ^ 53); simpl; lia.
Qed.

(** A quotient that is an integer below [2^53] has one representation. *)
Lemma quotient_int v d : 0 ≤ v < 2 ^ 53 → 0 < d → quotient false (v * d) d = fint v.
Proof.
  intros Hv Hd. unfold fint, quotient. destruct (Z.eqb_spec v 0) as [->|Hnz]; [done|].
  destruct (Z.eqb_spec (v * d) 0); [nia|].
  assert (∀ d, 0 < d → let r := round_double (v * d) d in
    2 ^ 52 ≤ r.1 < 2 ^ 53 ∧ r.2 ≤ 0 ∧ r.1 = v * 2 ^ (- r.2)) as H.
  { intros d' Hd'. assert (0 < v * d') by nia. cbv zeta.
    pose proof (Z.log2_mul_below v d' ltac:(lia) Hd'). pose proof (Z.log2_nonneg v).
    pose proof (round_normal (v * d') d' ltac:(lia) Hd' ltac:(lia)).
    pose proof (round_double_small (v * d') d' ltac:(lia) Hd').
    destruct (round_double_exact v d' ltac:(lia) Hd'). split_and!; try done; lia. }
  pose proof (H d Hd) as H1. pose proof (H 1 ltac:(lia)) as H2. rewrite Z.mul_1_r in H2. cbv zeta in *.
  destruct (round_double (v * d) d) as [q1 e1], (round_double v 1) as [q2 e2]. cbn [fst snd] in *.
  assert (e1 = e2) as ->.
  { destruct H1 as (Hq1 & He1 & E1), H2 as (Hq2 & He2 & E2).
    assert (∀ a b, a ≤ 0 → b ≤ 0 → a < b → 2 ^ 52 ≤ v * 2 ^ (- b) → v * 2 ^ (- a) < 2 ^ 53 → False) as Hno.
    { intros a b Ha Hb Hab Hlo Hhi. replace (- a) with ((b - a) + - b) in Hhi by lia. rewrite Z.pow_add_r in Hhi by lia.
      assert (2 ≤ 2 ^ (b - a)) by (change 2 with (2 ^ 1) at 1; apply Z.pow_le_mono_r; lia). nia. }
    destruct (Z.lt_total e1 e2) as [Hlt|[|Hlt]]; [|done|]; exfalso;
      [apply (Hno e1 e2)|apply (Hno e2 e1)]; lia. }
  assert (q1 = q2) as -> by lia. done.
Qed.

Lemma fint_exact v : 0 ≤ v < 2 ^ 53 → ∃ m e, fint v = FFin false m e ∧ e ≤ 0 ∧ Z.of_N m = v * 2 ^ (- e).
Proof. intros Hv. pose proof (quotient_exact v 1 Hv ltac:(lia)) as H. by rewrite Z.mul_1_r in H. Qed.

(** Integer floats add exactly below [2^53]. *)
Lemma fadd_fint a b : 0 ≤ a → 0 ≤ b → a + b < 2 ^ 53 → fadd (fint a) (fint b) = fint (a + b).
Proof.
  intros Ha Hb Hab. destruct (fint_exact a) as (m & e & -> & He & Hm); [lia|].
  destruct (fint_exact b) as (m' & e' & -> & He' & Hm'); [lia|]. unfold fadd. cbn [sgn andb]. rewrite Hm, Hm'.
  set (lo := Z.min e e').
  replace (a * 2 ^ (- e) * 2 ^ (e - lo) + b * 2 ^ (- e') * 2 ^ (e' - lo)) with ((a + b) * 2 ^ (- lo)).
  2:{ rewrite <- !Z.mul_assoc, <- !Z.pow_add_r by lia. replace (- e + (e - lo)) with (- lo) by lia.
      replace (- e' + (e' - lo)) with (- lo) by lia. lia. }
  assert (0 < 2 ^ (- lo)) as Hp by (apply Z.pow_pos_nonneg; lia).
  destruct (Z.eqb_spec ((a + b) * 2 ^ (- lo)) 0) as [E|E]; [replace (a + b) with 0 by nia; done|].
  destruct (Z.ltb_spec ((a + b) * 2 ^ (- lo)) 0); [nia|]. rewrite Z.abs_eq by nia.
  destruct (Z.leb_spec 0 lo).
  - assert (lo = 0) as Hlo by lia. rewrite Hlo. change (2 ^ (- 0)) with 1. change (2 ^ 0) with 1. rewrite !Z.mul_1_r. done.
  - apply quotient_int; lia.
Qed.

Lemma float_of_fint z : 0 ≤ z < 2 ^ 53 → float_of_Z z = Ok (fint z).
Proof. intros Hz. destruct (float_of_Z_small z) as (m & e & -> & E); [lia|]. unfold fint. by rewrite E. Qed.

(** ** Quotients of moderate floats *)

(** A finite float that is not negative and not huge. *)
Definition below (B : Z) (f : pyfloat) : Prop := ∃ m e, f = FFin false m e ∧ Z.of_N m < 2 ^ 53 ∧ e ≤ B.

Lemma quotient_below num den B : 0 ≤ num → 0 < den → Z.log2 num - Z.log2 den ≤ B → 0 ≤ B ≤ 900 →
  below B (quotient false num den).
Proof.
  intros Hn Hd Hl HB. unfold quotient. destruct (Z.eqb_spec num 0); [exists 0%N, 0; split_and!; [done|lia|lia]|].
  pose proof (round_double_exp num den) as He. pose proof (round_double_small num den ltac:(lia) Hd) as Hq.
  destruct (round_double num den) as [q e]. cbn [fst snd] in *. destruct (Z.ltb_spec 971 e); [lia|].
  exists (Z.to_N q), e. rewrite Z2N.id by lia. split_and!; [done|lia|lia].
Qed.

Lemma log2_mul_pow a k : 0 ≤ a → 0 ≤ k → Z.log2 (a * 2 ^ k) ≤ Z.log2 a + k.
Proof.
  intros Ha Hk. destruct (Z.eq_dec a 0) as [->|]; [rewrite Z.mul_0_l; simpl; lia|].
  rewrite Z.log2_mul_pow2 by lia. lia.
Qed.

(** Dividing by a float that is not tiny. *)
Lemma fdiv_below x m' e' : below 300 x → m' ≠ 0%N → -400 ≤ e' ≤ 400 → Z.of_N m' < 2 ^ 53 →
  ∃ f, fdiv x (FFin false m' e') = Ok f ∧ below 800 f.
Proof.
  intros (m & e & -> & Hm & He) Hm' He' Hlt. unfold fdiv. destruct m' as [|p]; [done|]. set (m' := N.pos p) in *.
  destruct (frac m e) as [a b] eqn:E1, (frac m' e') as [c d] eqn:E2. eexists. split; [reflexivity|]. cbn [xorb].
  assert (0 < Z.of_N m') by lia. pose proof (log2_below (Z.of_N m) 53 ltac:(lia) Hm) as Hlm.
  pose proof (Z.log2_nonneg (Z.of_N m')) as Hlm'. unfold frac in *.
  assert (0 ≤ a ∧ 0 < b ∧ Z.log2 a - Z.log2 b ≤ 353) as (Ha & Hb & Hab).
  { destruct (Z.leb_spec 0 e); injection E1 as <- <-.
    - pose proof (log2_mul_pow (Z.of_N m) e ltac:(lia) ltac:(lia)). change (Z.log2 1) with 0. split_and!; [nia|lia|lia].
    - rewrite Z.log2_pow2 by lia. split_and!; [lia|apply Z.pow_pos_nonneg; lia|lia]. }
  assert (0 < c ∧ 0 < d ∧ -400 ≤ Z.log2 c - Z.log2 d) as (Hc & Hd & Hcd).
  { destruct (Z.leb_spec 0 e'); injection E2 as <- <-.
    - pose proof (Z.pow_pos_nonneg 2 e' ltac:(lia) ltac:(lia)). pose proof (Z.log2_nonneg (Z.pos p * 2 ^ e')).
      change (Z.log2 1) with 0. split_and!; [nia|lia|lia].
    - pose proof (Z.log2_nonneg (Z.pos p)). rewrite Z.log2_pow2 by lia.
      split_and!; [lia|apply Z.pow_pos_nonneg; lia|lia]. }
  apply quotient_below; [nia|nia| |lia].
  pose proof (Z.log2_mul_below b c ltac:(lia) Hc).
  destruct (Z.eq_dec a 0) as [->|]; [rewrite Z.mul_0_l; change (Z.log2 0) with 0; pose proof (Z.log2_nonneg (b * c)); lia|].
  pose proof (Z.log2_mul_above a d ltac:(lia) ltac:(lia)). lia.
Qed.

Lemma below_finite B f : below B f → finite f.
Proof. intros (m & e & -> & _). by exists false, m, e. Qed.

(** The difference of two times in order. *)
Lemma fsub_below x y B : below 200 x → below B y → fle y x → below 300 (fsub x y).
Proof.
  intros (m & e & -> & Hm & He) (m' & e' & -> & Hm' & He'). unfold fle.
  rewrite (fltb_fin _ _ _ _ _ _ (Z.min e e')) by lia. intros Hle%Z.ltb_ge. unfold fsub, fadd, fopp. cbn [sgn negb andb] in *.
  set (lo := Z.min e e') in *. set (s := Z.of_N m * 2 ^ (e - lo) + - Z.of_N m' * 2 ^ (e' - lo)).
  assert (0 < 2 ^ (e' - lo)) by (apply Z.pow_pos_nonneg; lia).
  assert (0 ≤ s ≤ Z.of_N m * 2 ^ (e - lo)) as Hs by (unfold s; nia).
  destruct (Z.eqb_spec s 0); [exists 0%N, 0; split_and!; [done|done|lia]|].
  destruct (Z.ltb_spec s 0); [lia|]. rewrite Z.abs_eq by lia.
  pose proof (log2_below (Z.of_N m) 53 ltac:(lia) Hm).
  pose proof (log2_mul_pow (Z.of_N m) (e - lo) ltac:(lia) ltac:(lia)).
  assert (Z.log2 s ≤ Z.log2 (Z.of_N m * 2 ^ (e - lo))) by (apply Z.log2_le_mono; lia).
  destruct (Z.leb_spec 0 lo); apply quotient_below; try lia.
  - pose proof (log2_mul_pow s lo ltac:(lia) ltac:(lia)). change (Z.log2 1) with 0. lia.
  - rewrite Z.log2_pow2 by lia. lia.
Qed.

Lemma int_of_below B f : below B f → ∃ i, int_of f = Ok i ∧ 0 ≤ i.
Proof.
  intros (m & e & -> & _). eexists. split; [reflexivity|]. unfold float_trunc. destruct (Z.leb_spec 0 e).
  - pose proof (Z.pow_pos_nonneg 2 e ltac:(lia) ltac:(lia)). nia.
  - apply Z.div_pos; [lia|]. apply Z.pow_pos_nonneg; lia.
Qed.

Lemma ceil_of_below B f : below B f → ∃ i, ceil_of f = Ok i.
Proof. intros (m & e & -> & _). by eexists. Qed.
