(* ===== verification/Geometry.v ===== *)
(** * Bytes of a KV cache ([tools/kvio/kv_geometry.py])

    The size of the KV cache of a number of tokens from the dimensions of a
    model, for the four families of layouts, and its division over
    tensor-parallel ranks.  A model configuration is a JSON object; sizes go
    through Python's true division and therefore through binary64.  The
    theorems say that the result is nevertheless the exact product of the
    dimensions as long as it is below [2^53], and that ranks divide it without
    a remainder.  Fetching a configuration from a model hub is a parameter. *)

From stdpp Require Import prelude strings list numbers.
From Stdlib Require Import ZArith Lia Ascii.
From S2P Require Import Prelude PyText PyJson JsonText PyFloat.
Local Open Scope Z_scope.

(** ** Numbers *)

(** [str.lower()] on Latin-1. *)
Definition lower_char (c : ascii) : ascii :=
  let z := code c in
  if ((65 <=? z) && (z <=? 90)) || ((192 <=? z) && (z <=? 222) && negb (z =? 215)) then chr (z + 32) else c.

Fixpoint py_lower (s : string) : string :=
  match s with EmptyString => EmptyString | String c s => String (lower_char c) (py_lower s) end.

(** The float of an operand. *)
Definition to_float (v : json) : res pyfloat :=
  match v with
  | JInt z => float_of_Z z
  | JBool b => float_of_Z (b2Z b)
  | JFloat f => Ok f
  | _ => Raise (Exn TypeError "unsupported operand type(s)")
  end.

(** [a * b] and [a / b] on numbers. *)
Definition num_mul (a b : json) : res json :=
  match int_val a, int_val b with
  | Some x, Some y => Ok (JInt (x * y))
  | _, _ => x ← to_float a; y ← to_float b; Ok (JFloat (fmul x y))
  end.

Definition num_truediv (a b : json) : res json :=
  match int_val a, int_val b with
  | Some x, Some y => f ← int_truediv x y; Ok (JFloat f)
  | _, _ => x ← to_float a; y ← to_float b; f ← fdiv x y; Ok (JFloat f)
  end.

(** [a + b] on numbers. *)
Definition fadd (x y : pyfloat) : pyfloat :=
  match x, y with
  | FNaN, _ | _, FNaN => FNaN
  | FInf n, FInf n' => if Bool.eqb n n' then FInf n else FNaN
  | FInf n, _ | _, FInf n => FInf n
  | FFin n m e, FFin n' m' e' => let '(m, e) := rat_lin Z.add (sgn n m, e) (sgn n' m', e') in rnd m e
  end.

Definition num_add (a b : json) : res json :=
  match int_val a, int_val b with
  | Some x, Some y => Ok (JInt (x + y))
  | _, _ => x ← to_float a; y ← to_float b; Ok (JFloat (fadd x y))
  end.

(** [round(v)] to an integer, ties to even. *)
Definition py_round (v : json) : res Z :=
  match v with
  | JInt z => Ok z
  | JBool b => Ok (b2Z b)
  | JFloat (FFin neg m e) =>
      let '(a, b) := frac m e in
      let r := round_half_even a b in Ok (if neg then - r else r)
  | JFloat (FInf _) => Raise (Exn OverflowError "cannot convert float infinity to integer")
  | JFloat FNaN => Raise (Exn ValueError "cannot convert float NaN to integer")
  | _ => Raise (Exn TypeError "type doesn't define __round__ method")
  end.

(** [f"{x:.2f}"] of a finite non-negative float. *)
Definition fixed2 (f : pyfloat) : string :=
  match f with
  | FFin neg m e =>
      let '(a, b) := frac m e in
      let h := round_half_even (100 * a) b in
      (if neg then "-" else "") +:+ str_of_Z (h / 100) +:+ "." +:+ str_of_Z (h mod 100 / 10) +:+ str_of_Z (h mod 10)
  | FInf neg => if neg then "-inf" else "inf"
  | FNaN => "nan"
  end.

(** ** Families *)
Definition DTYPE_BYTES : list (string * Z) :=
  [("float32", 4); ("float16", 2); ("bfloat16", 2); ("int8", 1); ("fp8", 1); ("float8", 1)].

Definition model_family (m : string) : string :=
  let ml := py_lower m in
  if startswith "deepseek-ai/DeepSeek-V3" m || String.eqb m "deepseek-ai/DeepSeek-R1" then "mla"
  else if String.eqb ml "tencent/hunyuan-large" then "cla"
  else if substr "qwen/qwen3-" ml || startswith "zai-org/GLM-4." m
          || (startswith "tencent/hunyuan-" ml && negb (String.eqb ml "tencent/hunyuan-large"))
  then "gqa_head_dim"
  else "default".

(** [int(config["hidden_size"]) / int(config["num_attention_heads"])] against the explicit head size. *)
Definition head_dim_differs (config head_dim : json) : res bool :=
  h ← item config "hidden_size"; hz ← py_int h;
  a ← item config "num_attention_heads"; az ← py_int a;
  f ← int_truediv hz az;
  hd ← py_int head_dim;
  i ← py_int (JFloat f);
  Ok (negb (hd =? i)).

Definition resolve_family (model_name : string) (config : json) : res string :=
  let fam := model_family model_name in
  if negb (String.eqb fam "default") then Ok fam else
  lora ← get config "kv_lora_rank";
  rope ← (if py_true lora then get config "qk_rope_head_dim" else Ok JNull);
  if py_true rope then Ok "mla" else
  share ← get config "cla_share_factor";
  if py_true share then Ok "cla" else
  head_dim ← get config "head_dim";
  if negb (py_true head_dim) then Ok "default" else
  match head_dim_differs config head_dim with
  | Ok true => Ok "gqa_head_dim"
  | Ok false => Ok "default"
  | Raise (Exn KeyError _) | Raise (Exn TypeError _) | Raise (Exn ZeroDivisionError _) => Ok "gqa_head_dim"
  | Raise e => Raise e
  end.

(** The configuration of a model from its hub description [raw]. *)
Definition CORE_FIELDS : list string := ["num_hidden_layers"; "hidden_size"; "num_attention_heads"].
Definition EXTRA_FIELDS : list string := ["head_dim"; "kv_lora_rank"; "qk_rope_head_dim"; "cla_share_factor"].

Definition load_hf_config (from_pretrained : string → option dict) (model_name : string) : res dict :=
  match from_pretrained model_name with
  | None => Raise (Exn SystemExit "transformers is required to fetch configs for models outside the calculator catalog")
  | Some raw =>
      let raw := match getd raw "num_hidden_layers", getd raw "text_config" with
                 | JNull, JObj text => fold_left (λ d kv, dset kv.1 kv.2 d) text raw
                 | _, _ => raw
                 end in
      let n_heads := getd raw "num_attention_heads" in
      let config := [("num_hidden_layers", getd raw "num_hidden_layers"); ("hidden_size", getd raw "hidden_size");
                     ("num_attention_heads", n_heads);
                     ("num_key_value_heads", default n_heads (dget "num_key_value_heads" raw))] in
      let config := fold_left (λ d k, if is_none (getd raw k) then d else dset k (getd raw k) d) EXTRA_FIELDS config in
      raise_if (existsb (λ k, is_none (getd config k)) CORE_FIELDS)
        (Exn SystemExit "HF config for {model_name!r} is missing {missing}; add the model to modelconfig.json with the calculator's fields instead.") ;;
      Ok config
  end.

(** ** Sizes *)

(** [int(config[k])] *)
Definition config_int (config : json) (k : string) : res Z := v ← item config k; py_int v.

(** The number of elements, and the dimensions it was computed from. *)
Definition elements_of (fam : string) (config : json) (nl tokens : Z) : res (json * dict) :=
  if String.eqb fam "mla" then
    kv_lora_rank ← config_int config "kv_lora_rank";
    qk_rope_head_dim ← config_int config "qk_rope_head_dim";
    Ok (JInt (nl * tokens * (kv_lora_rank + qk_rope_head_dim)),
        [("kv_lora_rank", JInt kv_lora_rank); ("qk_rope_head_dim", JInt qk_rope_head_dim)])
  else if String.eqb fam "cla" then
    cla ← config_int config "cla_share_factor";
    eff ← int_truediv nl cla;
    hidden ← item config "hidden_size"; heads ← item config "num_attention_heads";
    head_size ← num_truediv hidden heads;
    kv_heads ← config_int config "num_key_value_heads";
    e ← num_mul (JInt 2) (JFloat eff); e ← num_mul e (JInt tokens); e ← num_mul e (JInt kv_heads); e ← num_mul e head_size;
    Ok (e, [("cla_share_factor", JInt cla); ("effective_layers", JFloat eff); ("num_key_value_heads", JInt kv_heads);
            ("head_size", head_size)])
  else if String.eqb fam "gqa_head_dim" then
    head_dim ← config_int config "head_dim";
    kv_heads ← config_int config "num_key_value_heads";
    Ok (JInt (2 * nl * tokens * kv_heads * head_dim), [("num_key_value_heads", JInt kv_heads); ("head_dim", JInt head_dim)])
  else
    hidden ← item config "hidden_size"; heads ← item config "num_attention_heads";
    head_size ← num_truediv hidden heads;
    kv_heads ← config_int config "num_key_value_heads";
    e ← num_mul (JInt (2 * nl * tokens * kv_heads)) head_size;
    Ok (e, [("hidden_size", hidden); ("num_attention_heads", heads); ("num_key_value_heads", JInt kv_heads);
            ("head_size", head_size)]).

Definition kv_cache_bytes (model_name : string) (config : json) (tokens : Z) (dtype : string) : res (Z * dict) :=
  match dget dtype DTYPE_BYTES with
  | None => Raise (Exn ValueError "unknown dtype {dtype!r}; know {sorted(DTYPE_BYTES)}")
  | Some dbytes =>
      fam ← resolve_family model_name config;
      nl ← config_int config "num_hidden_layers";
      ed ← elements_of fam config nl tokens;
      let '(elements, dims) := ed in
      bytes ← num_mul elements (JInt dbytes);
      total_bytes ← py_round bytes;
      total_elements ← py_round elements;
      Ok (total_bytes,
          [("family", JStr fam); ("dtype", JStr dtype); ("dtype_bytes", JInt dbytes); ("tokens", JInt tokens);
           ("num_hidden_layers", JInt nl)] ++ dims ++
          [("total_elements", JInt total_elements); ("total_bytes", JInt total_bytes)])
  end.

(** [int(detail.get("num_key_value_heads") or 0)] *)
Definition kv_head_count (detail : dict) : res Z :=
  let v := getd detail "num_key_value_heads" in if py_true v then py_int v else Ok 0.

(** Bytes per rank, objects per chunk, and a note. *)
Definition shard_kv_bytes (total_bytes : Z) (detail : dict) (tp : Z) : res (Z * Z * string) :=
  if tp <=? 1 then Ok (total_bytes, 1, "tp=1 (no sharding)") else
  let fam := getd detail "family" in
  if eq_str fam "mla" then
    Ok (total_bytes, tp, "MLA latent replicated on every rank (footprint x" +:+ str_of_Z tp +:+ ")")
  else
    kv_heads ← kv_head_count detail;
    raise_if (kv_heads <=? 0) (Exn ValueError "cannot shard family {fam!r} under tp={tp}: no kv-head count") ;;
    if tp <=? kv_heads then
      raise_unless (kv_heads mod tp =? 0)
        (Exn ValueError "num_kv_heads={kv_heads} not divisible by tp={tp} (vLLM requires an even KV-head split)") ;;
      Ok (total_bytes / tp, tp, str_of_Z (kv_heads / tp) +:+ " of " +:+ str_of_Z kv_heads +:+ " kv-heads per rank")
    else
      ratio ← int_truediv tp kv_heads;
      Ok (total_bytes / kv_heads, tp,
          "kv-head replication: " +:+ str_of_Z kv_heads +:+ " heads over " +:+ str_of_Z tp +:+ " ranks, footprint x" +:+ fixed2 ratio).

(** The self-test of the source. *)
Definition llama8b : dict :=
  [("hidden_size", JInt 4096); ("num_attention_heads", JInt 32); ("num_hidden_layers", JInt 32); ("num_key_value_heads", JInt 8)].
Definition hunyuan_large : dict :=
  [("hidden_size", JInt 6400); ("num_attention_heads", JInt 80); ("num_hidden_layers", JInt 64); ("num_key_value_heads", JInt 8);
   ("cla_share_factor", JInt 2)].

Example llama8b_bytes : fst <$> kv_cache_bytes "meta-llama/Llama-3.1-8B-Instruct" (JObj llama8b) 4096 "float16" = Ok 536870912.
Proof. vm_compute. reflexivity. Qed.

(** ** Exact integers in floats *)

(** The float [f] is the integer [v], not scaled up. *)
Definition exact (f : pyfloat) (v : Z) : Prop :=
  ∃ m e, f = FFin false m e ∧ e ≤ 0 ∧ Z.of_N m = v * 2 ^ (- e).

Lemma exact_frac f v : exact f v → ∃ m e b, f = FFin false m e ∧ frac m e = (v * b, b) ∧ 0 < b.
Proof.
  intros (m & e & -> & He & Hm). exists m, e, (2 ^ (- e)). split; [done|]. unfold frac. rewrite Hm.
  split; [|lia]. destruct (Z.leb_spec 0 e); [|done]. assert (e = 0) as -> by lia. simpl. f_equal. lia.
Qed.

Lemma exact_quotient v b : 0 ≤ v < 2 ^ 53 → 0 < b → exact (quotient false (v * b) b) v.
Proof. intros Hv Hb. destruct (quotient_exact v b Hv Hb) as (m & e & -> & H). by exists m, e. Qed.

Lemma exact_div v b : 0 ≤ v < 2 ^ 53 → 0 < b → ∃ f, int_truediv (v * b) b = Ok f ∧ exact f v.
Proof.
  intros Hv Hb. pose proof (exact_quotient v b Hv Hb) as (m & e & Hq & H). unfold int_truediv.
  destruct (Z.eqb_spec b 0); [lia|]. destruct (Z.ltb_spec (v * b) 0); [nia|]. destruct (Z.ltb_spec b 0); [lia|]. simpl.
  rewrite !Z.abs_eq by nia. rewrite Hq. eexists. split; [done|]. by exists m, e.
Qed.

Lemma exact_of_Z v : 0 ≤ v < 2 ^ 53 → ∃ f, float_of_Z v = Ok f ∧ exact f v.
Proof.
  intros Hv. pose proof (exact_quotient v 1 Hv ltac:(lia)) as (m & e & Hq & H). unfold float_of_Z.
  destruct (Z.ltb_spec v 0); [lia|]. rewrite Z.abs_eq by lia. rewrite Z.mul_1_r in Hq. rewrite Hq.
  eexists. split; [done|]. by exists m, e.
Qed.

Lemma exact_mul f g v w : exact f v → exact g w → 0 ≤ v * w < 2 ^ 53 → exact (fmul f g) (v * w).
Proof.
  intros (m & e & b & -> & Hf & Hb)%exact_frac (m' & e' & b' & -> & Hf' & Hb')%exact_frac Hvw.
  assert (fmul (FFin false m e) (FFin false m' e') = quotient false (v * b * (w * b')) (b * b')) as ->.
  { unfold fmul. rewrite Hf, Hf'. by destruct m, m'. }
  replace (v * b * (w * b')) with (v * w * (b * b')) by lia. apply exact_quotient; [done|nia].
Qed.

Lemma exact_round f v : exact f v → py_round (JFloat f) = Ok v.
Proof.
  intros (m & e & b & -> & Hf & Hb)%exact_frac. simpl. rewrite Hf. unfold round_half_even.
  rewrite Z.div_mul, Z.mod_mul by lia. destruct (Z.ltb_spec (2 * 0) b); [done|lia].
Qed.

(** A number that holds the integer [v]. *)
Definition holds (x : json) (v : Z) : Prop := x = JInt v ∨ ∃ f, x = JFloat f ∧ exact f v.

Lemma holds_round x v : holds x v → py_round x = Ok v.
Proof. intros [->|(f & -> & Hf)]; [done|by apply exact_round]. Qed.

Lemma holds_mul x y v w : holds x v → holds y w → 0 ≤ v < 2 ^ 53 → 0 ≤ w < 2 ^ 53 → 0 ≤ v * w < 2 ^ 53 →
  ∃ z, num_mul x y = Ok z ∧ holds z (v * w).
Proof.
  assert (∀ x v, holds x v → 0 ≤ v < 2 ^ 53 → ∃ f, to_float x = Ok f ∧ exact f v) as Hto.
  { intros x' v' [->|(f & -> & Hf)] Hv; [by apply exact_of_Z|by exists f]. }
  intros Hx Hy Hv Hw Hvw. destruct (Hto x v Hx Hv) as (f & Hf & Ef). destruct (Hto y w Hy Hw) as (g & Hg & Eg).
  assert (∃ z, (x' ← to_float x; y' ← to_float y; Ok (JFloat (fmul x' y'))) = Ok z ∧ holds z (v * w)) as Hfl.
  { rewrite Hf. cbn [mbind res_bind]. rewrite Hg. cbn [mbind res_bind]. eexists. split; [done|]. right. eexists. split; [done|]. by apply exact_mul. }
  unfold num_mul. destruct Hx as [->|(f' & -> & _)]; [|exact Hfl]. destruct Hy as [->|(g' & -> & _)]; [|exact Hfl].
  eexists. split; [done|]. by left.
Qed.

Lemma holds_truediv v w : 0 ≤ v < 2 ^ 53 → 0 < w → ∃ z, num_truediv (JInt (v * w)) (JInt w) = Ok z ∧ holds z v.
Proof.
  intros Hv Hw. destruct (exact_div v w Hv Hw) as (f & Hf & Ef). unfold num_truediv. simpl. rewrite Hf. cbn [mbind res_bind].
  eexists. split; [done|]. right. by exists f.
Qed.

(** ** The size of a cache *)

(** The dimensions of a configuration: a positive integer, and a positive quotient of two. *)
Definition dim (cfg : dict) (k : string) : option Z :=
  match getd cfg k with JInt z => if 0 <? z then Some z else None | _ => None end.

Definition quot (a b : Z) : option Z := if a mod b =? 0 then Some (a / b) else None.

(** Elements per token: layers times the width of a layer; and the number of KV heads. *)
Definition token_elements (fam : string) (cfg : dict) : option Z :=
  nl ← dim cfg "num_hidden_layers";
  if String.eqb fam "mla" then
    r ← dim cfg "kv_lora_rank"; q ← dim cfg "qk_rope_head_dim"; Some (nl * (r + q))
  else
    kv ← dim cfg "num_key_value_heads";
    if String.eqb fam "gqa_head_dim" then hd ← dim cfg "head_dim"; Some (2 * nl * kv * hd)
    else
      h ← dim cfg "hidden_size"; a ← dim cfg "num_attention_heads"; hd ← quot h a;
      if String.eqb fam "cla" then c ← dim cfg "cla_share_factor"; l ← quot nl c; Some (2 * l * kv * hd)
      else Some (2 * nl * kv * hd).

Lemma dim_Some cfg k z : dim cfg k = Some z → dget k cfg = Some (JInt z) ∧ 0 < z.
Proof.
  unfold dim, getd. destruct (dget k cfg) as [[| |x| | | |]|]; simpl; try done.
  destruct (Z.ltb_spec 0 x); [|done]. by intros [= ->].
Qed.

Lemma dim_item cfg k z : dim cfg k = Some z → item (JObj cfg) k = Ok (JInt z) ∧ config_int (JObj cfg) k = Ok z ∧ 0 < z.
Proof. intros [H Hz]%dim_Some. unfold config_int. simpl. by rewrite H. Qed.

Lemma quot_Some a b q : 0 < a → 0 < b → quot a b = Some q → a = q * b ∧ 0 < q.
Proof.
  unfold quot. intros Ha Hb. destruct (Z.eqb_spec (a mod b) 0) as [E|]; [|done]. intros [= <-].
  pose proof (Z.div_mod a b ltac:(lia)) as Hd. split; [lia|nia].
Qed.

(** A size computation that gives [n] elements per token, a multiple of the KV heads. *)
Definition sized (cfg : dict) (fam : string) (n tokens : Z) (r : res (json * dict)) : Prop :=
  0 < n ∧ ∃ e dims, r = Ok (e, dims) ∧ holds e (n * tokens) ∧
    dget "family" dims = None ∧ dget "total_elements" dims = None ∧ dget "total_bytes" dims = None ∧
    (fam ≠ "mla" → ∃ kv w, dim cfg "num_key_value_heads" = Some kv ∧ dget "num_key_value_heads" dims = Some (JInt kv) ∧ n = 2 * (kv * w)).

Section sizes.
Context (cfg : dict) (nl tokens kv : Z).
Context (Hnl : dim cfg "num_hidden_layers" = Some nl) (Ht : 0 < tokens).

Lemma elements_mla r q : dim cfg "kv_lora_rank" = Some r → dim cfg "qk_rope_head_dim" = Some q →
  sized cfg "mla" (nl * (r + q)) tokens (elements_of "mla" (JObj cfg) nl tokens).
Proof using Hnl Ht.
  intros (_ & Hr & Hr0)%dim_item (_ & Hq & Hq0)%dim_item. apply dim_item in Hnl as (_ & _ & Hn0).
  unfold elements_of. simpl. rewrite Hr, Hq. split; [nia|]. eexists _, _. split_and!; [done|left; f_equal; lia|done..].
Qed.

Context (Hkv : dim cfg "num_key_value_heads" = Some kv).

Lemma elements_gqa hd : dim cfg "head_dim" = Some hd →
  sized cfg "gqa_head_dim" (2 * nl * kv * hd) tokens (elements_of "gqa_head_dim" (JObj cfg) nl tokens).
Proof using Hnl Ht Hkv.
  intros (_ & Hh & Hh0)%dim_item. apply dim_item in Hnl as (_ & _ & Hn0). pose proof (dim_item _ _ _ Hkv) as (_ & Hk & Hk0).
  unfold elements_of. simpl. rewrite Hh, Hk. split; [nia|]. eexists _, _. split_and!; [done|left; f_equal; lia|done..|].
  intros _. exists kv, (nl * hd). split_and!; [done|done|lia].
Qed.

Context (h a hd : Z).
Context (Hh : dim cfg "hidden_size" = Some h) (Ha : dim cfg "num_attention_heads" = Some a) (Hhd : quot h a = Some hd).

Lemma elements_default fam : fam ≠ "mla" → fam ≠ "cla" → fam ≠ "gqa_head_dim" → 2 * nl * kv * hd * tokens < 2 ^ 53 →
  sized cfg fam (2 * nl * kv * hd) tokens (elements_of fam (JObj cfg) nl tokens).
Proof using Hnl Ht Hkv Hh Ha Hhd.
  intros F1 F2 F3 Hb. unfold elements_of. rewrite !(proj2 (String.eqb_neq _ _)) by done.
  apply dim_item in Hnl as (_ & _ & Hn0). pose proof (dim_item _ _ _ Hkv) as (_ & Hk & Hk0).
  apply dim_item in Hh as (-> & _ & Hh0). apply dim_item in Ha as (-> & _ & Ha0). apply quot_Some in Hhd as [-> Hd0]; [|done..].
  assert (0 < nl * kv) by nia. assert (0 < nl * kv * tokens) by nia. cbn [mbind res_bind].
  destruct (holds_truediv hd a) as (hs & -> & Hs); [nia|done|]. cbn [mbind res_bind]. rewrite Hk. cbn [mbind res_bind].
  destruct (holds_mul (JInt (2 * nl * tokens * kv)) hs (2 * nl * tokens * kv) hd) as (e & -> & He); [by left|done|nia..|].
  split; [nia|]. eexists _, _. split_and!; [done| |done..|].
  - by replace (2 * nl * kv * hd * tokens) with (2 * nl * tokens * kv * hd) by lia.
  - intros _. exists kv, (nl * hd). split_and!; [done|done|lia].
Qed.

Lemma elements_cla c l : dim cfg "cla_share_factor" = Some c → quot nl c = Some l → 2 * l * kv * hd * tokens < 2 ^ 53 →
  sized cfg "cla" (2 * l * kv * hd) tokens (elements_of "cla" (JObj cfg) nl tokens).
Proof using Hnl Ht Hkv Hh Ha Hhd.
  intros (_ & Hc & Hc0)%dim_item Hl Hb. unfold elements_of.
  change (String.eqb "cla" "mla") with false. change (String.eqb "cla" "cla") with true. cbv iota.
  apply dim_item in Hnl as (_ & _ & Hn0). pose proof (dim_item _ _ _ Hkv) as (_ & Hk & Hk0).
  apply dim_item in Hh as (Hhi & _ & Hh0). apply dim_item in Ha as (Hai & _ & Ha0).
  apply quot_Some in Hhd as [-> Hd0]; [|done..]. apply quot_Some in Hl as [-> Hl0]; [|done..].
  assert (0 < l * kv ∧ 0 < l * tokens ∧ 0 < kv * hd ∧ 0 < l * hd) as (P1 & P2 & P3 & P4) by nia. assert (0 < l * tokens * kv) as P5 by nia.
  rewrite Hc. cbn [mbind res_bind]. destruct (exact_div l c) as (eff & -> & Heff); [nia|done|]. cbn [mbind res_bind].
  rewrite Hhi. cbn [mbind res_bind]. rewrite Hai. cbn [mbind res_bind].
  destruct (holds_truediv hd a) as (hs & -> & Hs); [nia|done|]. cbn [mbind res_bind]. rewrite Hk. cbn [mbind res_bind].
  destruct (holds_mul (JInt 2) (JFloat eff) 2 l) as (e1 & -> & E1); [by left|right; by exists eff|nia..|]. cbn [mbind res_bind].
  destruct (holds_mul e1 (JInt tokens) (2 * l) tokens) as (e2 & -> & E2); [done|by left|nia..|]. cbn [mbind res_bind].
  destruct (holds_mul e2 (JInt kv) (2 * l * tokens) kv) as (e3 & -> & E3); [done|by left|nia..|]. cbn [mbind res_bind].
  destruct (holds_mul e3 hs (2 * l * tokens * kv) hd) as (e4 & -> & E4); [done|done|nia..|]. cbn [mbind res_bind].
  split; [nia|]. eexists _, _. split_and!; [done| |done..|].
  - by replace (2 * l * kv * hd * tokens) with (2 * l * tokens * kv * hd) by lia.
  - intros _. exists kv, (l * hd). split_and!; [done|done|lia].
Qed.
End sizes.

Lemma elements_of_exact fam cfg nl tokens n : token_elements fam cfg = Some n → dim cfg "num_hidden_layers" = Some nl →
  0 < tokens → n * tokens < 2 ^ 53 → sized cfg fam n tokens (elements_of fam (JObj cfg) nl tokens).
Proof.
  unfold token_elements. intros H Hnl Ht Hb. rewrite Hnl in H. cbn in H. destruct (String.eqb_spec fam "mla") as [->|Em].
  { apply bind_Some in H as (r & Hr & H). apply bind_Some in H as (q & Hq & [= <-]). by apply elements_mla. }
  apply bind_Some in H as (kv & Hkv & H). destruct (String.eqb_spec fam "gqa_head_dim") as [->|Eg].
  { apply bind_Some in H as (hd & Hhd & [= <-]). by apply elements_gqa. }
  apply bind_Some in H as (h & Hh & H). apply bind_Some in H as (a & Ha & H). apply bind_Some in H as (hd & Hhd & H).
  destruct (String.eqb_spec fam "cla") as [->|Ec].
  - apply bind_Some in H as (c & Hc & H). apply bind_Some in H as (l & Hl & [= <-]). by apply (elements_cla _ _ _ _ Hnl Ht Hkv h a hd Hh Ha Hhd c).
  - injection H as <-. by apply (elements_default _ _ _ _ Hnl Ht Hkv h a).
Qed.

(** The size of a cache and the description that goes with it. *)
Lemma kv_cache_bytes_sized model cfg fam n tokens dtype b : resolve_family model (JObj cfg) = Ok fam →
  token_elements fam cfg = Some n → dget dtype DTYPE_BYTES = Some b → 0 < tokens → n * tokens * b < 2 ^ 53 →
  0 < n ∧ 0 < b ∧ ∃ detail, kv_cache_bytes model (JObj cfg) tokens dtype = Ok (n * tokens * b, detail) ∧
    getd detail "family" = JStr fam ∧ getd detail "total_elements" = JInt (n * tokens) ∧
    getd detail "total_bytes" = JInt (n * tokens * b) ∧
    (fam ≠ "mla" → ∃ kv w, dim cfg "num_key_value_heads" = Some kv ∧ getd detail "num_key_value_heads" = JInt kv ∧ n = 2 * (kv * w)).
Proof.
  intros Hfam Hn Hdt Ht Hb. assert (0 < b ≤ 4) as Hb0.
  { apply dget_Some_In in Hdt. unfold DTYPE_BYTES in Hdt. rewrite !elem_of_cons, elem_of_nil in Hdt.
    repeat destruct Hdt as [[= _ ->]|Hdt]; try lia. }
  assert (∃ nl, dim cfg "num_hidden_layers" = Some nl) as [nl Hnl].
  { unfold token_elements in Hn. destruct (dim cfg "num_hidden_layers"); [by eexists|done]. }
  assert (0 < n → n * tokens < 2 ^ 53) as Hnt by nia.
  assert (0 < n ∨ n ≤ 0) as [Hpos|Hneg] by lia; [specialize (Hnt Hpos)|].
  2: { exfalso. destruct (elements_of_exact fam cfg nl tokens n Hn Hnl Ht) as [Hc _]; nia. }
  destruct (elements_of_exact fam cfg nl tokens n Hn Hnl Ht Hnt) as (_ & e & dims & He & Hhold & D1 & D2 & D3 & Hk).
  split; [done|]. split; [lia|].
  destruct (holds_mul e (JInt b) (n * tokens) b) as (bytes & Hmul & Hbytes); [done|by left|nia..|].
  pose proof (dim_item _ _ _ Hnl) as (_ & Hnli & _).
  unfold kv_cache_bytes. rewrite Hdt, Hfam. cbn [mbind res_bind]. rewrite Hnli. cbn [mbind res_bind]. rewrite He. cbn [mbind res_bind].
  rewrite Hmul. cbn [mbind res_bind]. rewrite (holds_round _ _ Hbytes). cbn [mbind res_bind]. rewrite (holds_round _ _ Hhold). cbn [mbind res_bind].
  eexists. split; [done|]. unfold getd. cbn [app dget String.eqb Ascii.eqb Bool.eqb]. rewrite !dget_app, D2, D3.
  split_and!; [done..|]. intros Hm. destruct (Hk Hm) as (kv & w & H1 & H2 & H3). exists kv, w. rewrite ?dget_app, H2. done.
Qed.

(** for a configuration whose dimensions are positive integers that divide as
    the layout needs, the size of a cache is exact although it is computed in
    floats: the elements per token of the family, times the tokens, times the
    bytes of the type, as long as that is below [2^53]; the description carries
    the same numbers. *)
Theorem kv_cache_bytes_exact model cfg fam n tokens dtype b :
  resolve_family model (JObj cfg) = Ok fam → token_elements fam cfg = Some n →
  dget dtype DTYPE_BYTES = Some b → 0 < tokens → n * tokens * b < 2 ^ 53 →
  ∃ detail, kv_cache_bytes model (JObj cfg) tokens dtype = Ok (n * tokens * b, detail) ∧
    getd detail "family" = JStr fam ∧ getd detail "total_elements" = JInt (n * tokens) ∧
    getd detail "total_bytes" = JInt (n * tokens * b).
Proof.
  intros H1 H2 H3 H4 H5. destruct (kv_cache_bytes_sized _ _ _ _ _ _ _ H1 H2 H3 H4 H5) as (_ & _ & detail & Hd & A & B & C & _).
  by exists detail.
Qed.

Lemma kv_cache_bytes_exact_witness :
  ∃ detail, kv_cache_bytes "tencent/Hunyuan-Large" (JObj hunyuan_large) 4096 "float16" = Ok (40960 * 4096 * 2, detail) ∧
    getd detail "family" = JStr "cla" ∧ getd detail "total_elements" = JInt (40960 * 4096) ∧
    getd detail "total_bytes" = JInt (40960 * 4096 * 2).
Proof. apply kv_cache_bytes_exact; vm_compute; reflexivity. Defined.

(** ** Ranks *)

(** The part of the cache that a rank of [tp] holds is one over this. *)
Definition rank_divisor (kv tp : Z) : Z := if tp <=? 1 then 1 else if tp <=? kv then tp else kv.

Lemma rank_divisor_divides kv tp : 0 < kv → (1 < tp ≤ kv → kv mod tp = 0) → 0 < rank_divisor kv tp ∧ (rank_divisor kv tp | kv).
Proof.
  intros Hkv Hmod. unfold rank_divisor. destruct (Z.leb_spec tp 1); [split; [done|apply Z.divide_1_l]|].
  destruct (Z.leb_spec tp kv); [|split; [done|apply Z.divide_refl]]. split; [lia|]. apply Z.mod_divide; [lia|]. apply Hmod. lia.
Qed.

(** Sharding a description that has KV heads. *)
Lemma shard_heads detail fam kv tp : getd detail "family" = JStr fam → fam ≠ "mla" → getd detail "num_key_value_heads" = JInt kv →
  0 < kv → tp < 2 ^ 1000 → (1 < tp ≤ kv → kv mod tp = 0) →
  ∃ note, ∀ total, shard_kv_bytes total detail tp = Ok (total / rank_divisor kv tp, Z.max tp 1, note).
Proof.
  intros Hf Hm Hk Hkv Htp Hmod. unfold shard_kv_bytes, kv_head_count, rank_divisor. rewrite Hf, Hk. cbn [eq_str py_true py_int].
  rewrite (proj2 (String.eqb_neq fam "mla") Hm). destruct (Z.leb_spec tp 1).
  { eexists. intros total. by rewrite Z.div_1_r, Z.max_r by lia. }
  destruct (Z.eqb_spec kv 0); [lia|]. cbn [negb mbind res_bind]. destruct (Z.leb_spec kv 0); [lia|]. cbn [raise_if mbind res_bind].
  rewrite Z.max_l by lia. destruct (Z.leb_spec tp kv).
  - rewrite Hmod by lia. cbn. by eexists.
  - destruct (int_truediv_small tp kv) as (s & m & e & ->); [lia|lia|]. cbn. by eexists.
Qed.

(** What one rank of [tp] holds. *)
Record rank_share (fam : string) (kv tp total per objects : Z) : Prop := {
  rs_objects : objects = Z.max tp 1;
  rs_single : tp ≤ 1 → per = total;
  rs_latent : 1 < tp → fam = "mla" → per = total;
  rs_split : 1 < tp → fam ≠ "mla" → tp ≤ kv → per * tp = total;
  rs_replicated : 1 < tp → fam ≠ "mla" → kv < tp → per * kv = total
}.

(** the cache of a model divides over tensor-parallel ranks without losing a
    byte. The division fails exactly when there are at least as many KV heads
    as ranks and the ranks do not divide them; otherwise there is one object per rank, the latent cache is
    replicated whole, heads are split evenly when there are enough of them, and each
    rank has one whole head when there are fewer heads than ranks. *)
Theorem shard_kv_bytes_exact model cfg fam n tokens dtype b tp :
  resolve_family model (JObj cfg) = Ok fam → token_elements fam cfg = Some n →
  dget dtype DTYPE_BYTES = Some b → 0 < tokens → n * tokens * b < 2 ^ 53 → tp < 2 ^ 1000 →
  ∃ total detail kv, kv_cache_bytes model (JObj cfg) tokens dtype = Ok (total, detail) ∧
    (fam ≠ "mla" → dim cfg "num_key_value_heads" = Some kv) ∧
    if bool_decide (1 < tp ∧ fam ≠ "mla" ∧ tp ≤ kv ∧ kv mod tp ≠ 0)
    then shard_kv_bytes total detail tp
           = Raise (Exn ValueError "num_kv_heads={kv_heads} not divisible by tp={tp} (vLLM requires an even KV-head split)")
    else ∃ per objects note, shard_kv_bytes total detail tp = Ok (per, objects, note) ∧ rank_share fam kv tp total per objects.
Proof.
  intros H1 H2 H3 H4 H5 Htp. destruct (kv_cache_bytes_sized _ _ _ _ _ _ _ H1 H2 H3 H4 H5) as (Hn & Hb & detail & Hd & Hf & _ & _ & Hk).
  set (total := n * tokens * b) in *. destruct (decide (fam = "mla")) as [->|Hm].
  - exists total, detail, 0. split; [done|]. split; [done|]. rewrite bool_decide_false by naive_solver. unfold shard_kv_bytes.
    destruct (Z.leb_spec tp 1); [|rewrite Hf; simpl]; (eexists _, _, _; split; [done|constructor; done || lia]).
  - destruct (Hk Hm) as (kv & w & Hkv & Hdk & Hnw). exists total, detail, kv. split; [done|]. split; [done|].
    pose proof (dim_item _ _ _ Hkv) as (_ & _ & Hkv0). case_bool_decide as Hbad.
    + destruct Hbad as (Ht & _ & Hle & Hmod). unfold shard_kv_bytes, kv_head_count. destruct (Z.leb_spec tp 1); [lia|].
      rewrite Hf, Hdk. cbn [eq_str py_true py_int]. rewrite (proj2 (String.eqb_neq fam "mla") Hm). destruct (Z.eqb_spec kv 0); [lia|].
      cbn [negb mbind res_bind]. destruct (Z.leb_spec kv 0); [lia|]. cbn [raise_if mbind res_bind].
      destruct (Z.leb_spec tp kv); [|lia]. by destruct (Z.eqb_spec (kv mod tp) 0).
    + assert (1 < tp ≤ kv → kv mod tp = 0) as Hmod by (intros ?; destruct (decide (kv mod tp = 0)); [done|naive_solver lia]).
      destruct (shard_heads detail fam kv tp) as [note Hs]; [done..|]. eexists _, _, _. split; [apply Hs|].
      assert (rank_divisor kv tp ≠ 0 ∧ (rank_divisor kv tp | total)) as [Hc0 Hdiv].
      { destruct (rank_divisor_divides kv tp Hkv0 Hmod) as [Hc Hdvd]. split; [lia|].
        replace total with (2 * w * tokens * b * kv) by (unfold total; rewrite Hnw; ring). by apply Z.divide_mul_r. }
      assert (total = rank_divisor kv tp * (total / rank_divisor kv tp)) as He
        by (apply Z.div_exact; [done|]; by apply Z.mod_divide).
      revert He. unfold rank_divisor. destruct (Z.leb_spec tp 1), (Z.leb_spec tp kv); intros He; constructor; try done; lia.
Qed.

Lemma shard_kv_bytes_exact_witness :
  ∃ total detail kv, kv_cache_bytes "meta-llama/Llama-3.1-8B-Instruct" (JObj llama8b) 256 "bfloat16" = Ok (total, detail) ∧
    ("default" ≠ "mla" → dim llama8b "num_key_value_heads" = Some kv) ∧
    if bool_decide (1 < 4 ∧ "default" ≠ "mla" ∧ 4 ≤ kv ∧ kv mod 4 ≠ 0)
    then shard_kv_bytes total detail 4
           = Raise (Exn ValueError "num_kv_heads={kv_heads} not divisible by tp={tp} (vLLM requires an even KV-head split)")
    else ∃ per objects note, shard_kv_bytes total detail 4 = Ok (per, objects, note) ∧ rank_share "default" kv 4 total per objects.
Proof. apply (shard_kv_bytes_exact _ _ _ 65536 _ _ 2); vm_compute; reflexivity. Defined.
