(* ===== verification/CaptureFormat.v ===== *)
(** * The envelope of an NVMe capture ([examples/replay/capture_format.py])

    A capture is a list of numbered JSON records.  [validate_envelope] accepts
    a versioned capture only when it is complete (one [capture_meta] first,
    one [drops] record last) and bound to a single device and namespace.  The
    file states that contract as the predicate [v1_capture] and proves that
    the function accepts exactly the captures that satisfy it. *)

From stdpp Require Import prelude strings list.
From Stdlib Require Import ZArith Lia Ascii.
From S2P Require Import Prelude PyText PyJson JsonText.
Local Open Scope Z_scope.

Definition CAPTURE_SCHEMA_VERSION : Z := 1.

Definition KNOWN_EVENT_TYPES : list string :=
  ["capture_meta"; "clock_anchor"; "nvme_cmd"; "nvme_cmp"; "drops"].

Definition err (m : string) : exn := Exn CaptureFormatError m.

(** [_unique_object]: the [object_pairs_hook] of the loader. *)
Definition _unique_object (pairs : dict) : res dict :=
  unique_object (λ key, Exn DuplicateKeyError key) pairs.

(** [json.loads(line, object_pairs_hook=_unique_object)] and the two handlers
    around it, then the test that the record is an object. *)
Definition load_line (line : string) : res dict :=
  match loads_hook _unique_object line with
  | Ok (JObj record) => Ok record
  | Ok _ => Raise (err "{path}:{line_number}: expected a JSON object")
  | Raise (Exn DuplicateKeyError _) =>
      Raise (err "{path}:{line_number}: duplicate JSON key {str(error)!r}")
  | Raise (Exn JSONDecodeError _) => Raise (err "{path}:{line_number}: invalid JSON")
  | Raise e => Raise e
  end.

(** [load_records]: the lines of the file, blank ones skipped, numbered from 1. *)
Definition load_records (lines : list string) : res (list (Z * dict)) :=
  records ← foldiM (λ records line_number line,
      if String.eqb (strip line) "" then Ok records else
      record ← load_line line;
      Ok (records ++ [(Z.of_nat line_number, record)])) 1 [] lines;
  match records with
  | [] => Raise (err "{path}: capture is empty")
  | _ => Ok records
  end.

Record CaptureEnvelope := {
  env_metadata : option dict;
  env_drops : Z;
  env_legacy : bool;
  env_scope : option (string * Z)
}.

Definition event_is (e : string) (r : Z * dict) : bool :=
  eq_str (getd r.2 "event_type") e.

(** [r == s] on [(line, record)] tuples. *)
Definition rec_eqb (r s : Z * dict) : bool :=
  (r.1 =? s.1) && py_eqc (JObj r.2) (JObj s.2).

(** [lba <= 0 or lba & (lba - 1)], negated. *)
Definition pow2b (z : Z) : bool := (0 <? z) && (Z.land z (z - 1) =? 0).

(** [event_type in KNOWN_EVENT_TYPES]: a set, so the value is hashed. *)
Definition known_event (v : json) : res bool :=
  if hashable v then Ok (in_tuple v KNOWN_EVENT_TYPES) else unhashable.

(** [set.add] on a set of scopes kept as a duplicate-free list. *)
Definition scope_add (s : string * Z) (scopes : list (string * Z)) : list (string * Z) :=
  if decide (s ∈ scopes) then scopes else scopes ++ [s].

(** Body of the loop over the records that collects the scopes. *)
Definition scope_step (selected_disk : string) (scopes : list (string * Z))
    (r : Z * dict) : res (list (string * Z)) :=
  let record := r.2 in
  let event_type := getd record "event_type" in
  known ← known_event event_type;
  raise_unless known (err "{path}:{line_number}: unknown event_type {event_type!r}") ;;
  if negb (eq_str event_type "nvme_cmd") then Ok scopes else
  match getd record "disk" with
  | JStr disk =>
      raise_if (String.eqb disk "")
        (err "{path}:{line_number}: nvme_cmd has no disk identity") ;;
      match getd record "nsid" with
      | JInt nsid =>
          raise_if (nsid <=? 0) (err "{path}:{line_number}: nvme_cmd has invalid nsid") ;;
          raise_unless (String.eqb disk selected_disk)
            (err "{path}:{line_number}: command disk {disk!r} disagrees with capture scope {selected_disk!r}") ;;
          Ok (scope_add (disk, nsid) scopes)
      | _ => Raise (err "{path}:{line_number}: nvme_cmd has invalid nsid")
      end
  | _ => Raise (err "{path}:{line_number}: nvme_cmd has no disk identity")
  end.

(** The checks made only on a versioned capture; returns the scope. *)
Definition v1_scope_of (metadata : dict) (records : list (Z * dict))
    : res (option (string * Z)) :=
  raise_unless (eq_str (getd metadata "emitter") "nvme_tp_monitor")
    (err "{path}: schema v1 requires emitter nvme_tp_monitor") ;;
  raise_unless (match getd metadata "disk_filter" with JBool true => true | _ => false end)
    (err "{path}: schema v1 replay requires a --disk scoped capture") ;;
  raise_unless (match getd metadata "lba_bytes" with JInt z => pow2b z | _ => false end)
    (err "{path}: schema v1 capture_meta has invalid lba_bytes") ;;
  match getd metadata "disk" with
  | JStr selected_disk =>
      raise_if (String.eqb selected_disk "")
        (err "{path}: schema v1 capture_meta has no selected disk") ;;
      scopes ← foldM (scope_step selected_disk) [] records;
      match scopes with
      | [] => Ok None
      | [s] => Ok (Some s)
      | _ => Raise (err "{path}: capture spans multiple device/namespace identities")
      end
  | _ => Raise (err "{path}: schema v1 capture_meta has no selected disk")
  end.

Definition validate_envelope (allow_legacy : bool) (records : list (Z * dict))
    : res CaptureEnvelope :=
  let metadata_records := List.filter (event_is "capture_meta") records in
  let drop_records := List.filter (event_is "drops") records in
  raise_if (1 <? length metadata_records)%nat (err "{path}: multiple capture_meta records") ;;
  raise_unless
    (match metadata_records, records with
     | m :: _, r :: _ => rec_eqb m r | _, _ => true end)
    (err "{path}: capture_meta must be the first record") ;;
  match drop_records with
  | [] => Raise (err "{path}: capture has no final drops record; it may be incomplete")
  | [d] =>
      raise_unless (match List.rev records with r :: _ => rec_eqb d r | [] => true end)
        (err "{path}: drops record must be the final record") ;;
      let metadata := snd <$> head metadata_records in
      let version := match metadata with Some md => getd md "schema_version" | None => JNull end in
      let legacy := is_none version in
      raise_if (legacy && negb allow_legacy)
        (err "{path}: capture uses the legacy unversioned format") ;;
      raise_unless (legacy || match version with
                              | JInt v => v =? CAPTURE_SCHEMA_VERSION | _ => false end)
        (err "{path}: unsupported capture schema_version {version!r}") ;;
      match getd d.2 "dropped" with
      | JInt drops =>
          raise_if (drops <? 0) (err "{path}: drops must be a non-negative integer") ;;
          scope ← match metadata with
                  | Some md => if legacy then Ok None else v1_scope_of md records
                  | None => Ok None
                  end;
          Ok {| env_metadata := metadata; env_drops := drops;
                env_legacy := legacy; env_scope := scope |}
      | _ => Raise (err "{path}: drops must be a non-negative integer")
      end
  | _ => Raise (err "{path}: multiple drops records")
  end.

(** ** The contract of a versioned capture *)

(** A command of the capture that is bound to the scope. *)
Definition cmd_in_scope (disk : string) (scope : option (string * Z)) (r : Z * dict) : Prop :=
  event_is "nvme_cmd" r = true →
  ∃ nsid, 0 < nsid ∧ getd r.2 "disk" = JStr disk ∧ getd r.2 "nsid" = JInt nsid
          ∧ scope = Some (disk, nsid).

Record v1_metadata (md : dict) (disk : string) : Prop := {
  v1_version : getd md "schema_version" = JInt 1;
  v1_emitter : getd md "emitter" = JStr "nvme_tp_monitor";
  v1_filter : getd md "disk_filter" = JBool true;
  v1_lba : ∃ k, 0 ≤ k ∧ getd md "lba_bytes" = JInt (2 ^ k);
  v1_disk : getd md "disk" = JStr disk ∧ disk ≠ ""
}.

(** [records] is a complete single-scope capture: metadata first, drops last,
    known events between, one device and namespace. *)
Record v1_capture (records : list (Z * dict)) (md : dict) (drops : Z)
    (scope : option (string * Z)) : Prop := {
  v1_shape : ∃ l0 body l1 dr,
    records = (l0, md) :: body ++ [(l1, dr)] ∧
    getd md "event_type" = JStr "capture_meta" ∧
    getd dr "event_type" = JStr "drops" ∧
    getd dr "dropped" = JInt drops ∧
    Forall (λ r, ∃ e, getd r.2 "event_type" = JStr e ∧
                      e ∈ ["clock_anchor"; "nvme_cmd"; "nvme_cmp"]) body;
  v1_drops : 0 ≤ drops;
  v1_meta : ∃ disk, v1_metadata md disk ∧ Forall (cmd_in_scope disk scope) records;
  v1_scope : scope = None ↔ Forall (λ r, event_is "nvme_cmd" r = false) records
}.

Lemma pow2b_spec z : pow2b z = true ↔ ∃ k, 0 ≤ k ∧ z = 2 ^ k.
Proof.
  unfold pow2b. rewrite andb_true_iff, Z.ltb_lt, Z.eqb_eq. split.
  - intros [Hz Hl]. by apply land_pred_pow2.
  - intros (k & Hk & ->). assert (0 < 2 ^ k) by lia. split; [done|].
    apply land_pred_pow2; eauto.
Qed.

Lemma event_is_true e r : event_is e r = true ↔ getd r.2 "event_type" = JStr e.
Proof. apply eq_str_true. Qed.

Lemma rec_eqb_event r s e : rec_eqb r s = true → event_is e r = true → event_is e s = true.
Proof.
  unfold rec_eqb. rewrite andb_true_iff, !event_is_true. intros [_ Heq] Hr.
  destruct r as [l1 d1], s as [l2 d2]; simpl in *.
  apply andb_true_iff in Heq as [_ Hgo]. revert Hgo Hr.
  unfold getd. induction d1 as [|[k v] d1 IH]; simpl; [done|].
  destruct (dget k d2) as [v'|] eqn:Hk; [|done].
  rewrite andb_true_iff. intros [Hv Hgo].
  destruct (String.eqb_spec "event_type" k) as [<-|]; [|by apply IH].
  simpl. intros ->. rewrite Hk. simpl. destruct v'; try done.
  simpl in Hv. apply String.eqb_eq in Hv. by subst.
Qed.

Lemma rec_eqb_refl r : json_wf (JObj r.2) → rec_eqb r r = true.
Proof. intros Hwf. unfold rec_eqb. by rewrite Z.eqb_refl, py_eqc_refl. Qed.

(** *** The scope loop *)
Definition scopes_are (disk : string) (pre : list (Z * dict)) (scopes : list (string * Z)) : Prop :=
  NoDup scopes ∧
  Forall (λ r, ∃ e, getd r.2 "event_type" = JStr e ∧ e ∈ KNOWN_EVENT_TYPES) pre ∧
  Forall (λ r, event_is "nvme_cmd" r = true →
     ∃ n, 0 < n ∧ getd r.2 "disk" = JStr disk ∧ getd r.2 "nsid" = JInt n ∧ (disk, n) ∈ scopes) pre ∧
  (scopes = [] → Forall (λ r, event_is "nvme_cmd" r = false) pre) ∧
  (∀ s, s ∈ scopes → ∃ r, r ∈ pre ∧ event_is "nvme_cmd" r = true ∧
     getd r.2 "disk" = JStr s.1 ∧ getd r.2 "nsid" = JInt s.2 ∧ s.1 = disk).

Lemma scope_step_Ok disk scopes r scopes' :
  scope_step disk scopes r = Ok scopes' ↔
  (∃ e, getd r.2 "event_type" = JStr e ∧ e ∈ KNOWN_EVENT_TYPES) ∧
  ((event_is "nvme_cmd" r = false ∧ scopes' = scopes) ∨
   (event_is "nvme_cmd" r = true ∧ ∃ n, 0 < n ∧ disk ≠ "" ∧ getd r.2 "disk" = JStr disk ∧
      getd r.2 "nsid" = JInt n ∧ scopes' = scope_add (disk, n) scopes)).
Proof.
  unfold scope_step, event_is. split.
  - intros H. apply bind_Ok in H as (known & Hk & H).
    apply bind_Ok in H as ([] & Hkn & H). apply raise_unless_Ok in Hkn as ->.
    assert (∃ e, getd r.2 "event_type" = JStr e ∧ e ∈ KNOWN_EVENT_TYPES) as He.
    { unfold known_event in Hk. destruct (hashable _); [|done].
      apply Ok_inj in Hk. by apply in_tuple_true in Hk. }
    split; [done|]. destruct (eq_str _ _) eqn:Hc; simpl in H.
    + right. split; [done|]. destruct (getd r.2 "disk"); try done.
      apply bind_Ok in H as ([] & Hd & H). apply raise_if_Ok in Hd.
      destruct (getd r.2 "nsid"); try done.
      apply bind_Ok in H as ([] & Hn & H). apply raise_if_Ok in Hn.
      apply bind_Ok in H as ([] & Hs & H). apply raise_unless_Ok in Hs.
      apply String.eqb_eq in Hs as ->. injection H as <-.
      exists z. repeat split; try done; [lia|].
      intros ->. done.
    + left. by injection H as <-.
  - intros ((e & He & Hk) & Hcase). rewrite He in *. unfold known_event.
    assert (in_tuple (JStr e) KNOWN_EVENT_TYPES = true) as Ht
      by (apply in_tuple_true; eauto).
    simpl hashable. cbv iota. rewrite Ht. cbn [mbind res_bind raise_unless].
    destruct Hcase as [[-> ->]|(-> & n & Hn & Hne & Hd & Hns & ->)]; [done|].
    cbn [negb]. rewrite Hd. destruct (String.eqb_spec disk ""); [done|]. simpl.
    rewrite Hns. destruct (Z.leb_spec n 0); [lia|]. simpl.
    by rewrite String.eqb_refl.
Qed.

Lemma scope_add_spec s scopes x : x ∈ scope_add s scopes ↔ x = s ∨ x ∈ scopes.
Proof. unfold scope_add. case_decide; set_solver. Qed.

Lemma scope_add_NoDup s scopes : NoDup scopes → NoDup (scope_add s scopes).
Proof.
  intros H. unfold scope_add. case_decide; [done|].
  apply NoDup_app. split; [done|]. split; [|apply NoDup_singleton]. set_solver.
Qed.

Lemma scope_loop disk records scopes :
  foldM (scope_step disk) [] records = Ok scopes → scopes_are disk records scopes.
Proof.
  apply (foldM_inv (scope_step disk) (scopes_are disk)).
  - repeat split; try done; [by constructor..|set_solver].
  - intros pre r s1 s2 (Hnd & Hk & Hc & He & Hs) _ Hstep.
    apply scope_step_Ok in Hstep as (Hev & [(Hn & ->)|(Hy & n & Hn & _ & Hd & Hns & ->)]).
    + repeat split; [done|by apply Forall_app_2, Forall_singleton|..].
      * apply Forall_app_2; [done|]. apply Forall_singleton. congruence.
      * intros ->. apply Forall_app_2; [by apply He|]. by apply Forall_singleton.
      * intros s Hin. destruct (Hs s Hin) as (r' & Hr' & ?). exists r'. set_solver.
    + repeat split; [by apply scope_add_NoDup|by apply Forall_app_2, Forall_singleton|..].
      * apply Forall_app_2.
        -- eapply Forall_impl; [exact Hc|]. intros r' H' Hr'.
           destruct (H' Hr') as (m & ? & ? & ? & ?). exists m.
           rewrite scope_add_spec. naive_solver.
        -- apply Forall_singleton. intros _. exists n.
           rewrite scope_add_spec. naive_solver.
      * intros Habs. assert ((disk, n) ∈ scope_add (disk, n) s1) as Hin
          by (apply scope_add_spec; by left). rewrite Habs in Hin. set_solver.
      * intros s [->|Hin]%scope_add_spec.
        -- exists r. set_solver.
        -- destruct (Hs s Hin) as (r' & Hr' & ?). exists r'. set_solver.
Qed.

Lemma scope_loop_total disk scope records :
  disk ≠ "" →
  Forall (λ r, ∃ e, getd r.2 "event_type" = JStr e ∧ e ∈ KNOWN_EVENT_TYPES) records →
  Forall (cmd_in_scope disk scope) records →
  ∃ scopes, foldM (scope_step disk) [] records = Ok scopes ∧
            ∀ s, s ∈ scopes → scope = Some s.
Proof.
  intros Hne Hk Hc.
  assert (∀ acc, (∀ s, s ∈ acc → scope = Some s) →
    ∃ scopes, foldM (scope_step disk) acc records = Ok scopes ∧
              ∀ s, s ∈ scopes → scope = Some s) as Hgen; [|by apply (Hgen []); set_solver].
  induction records as [|r records IH]; intros acc Hacc; [by exists acc|].
  apply Forall_cons in Hk as [Hk Hks]. apply Forall_cons in Hc as [Hc Hcs]. simpl.
  destruct (event_is "nvme_cmd" r) eqn:Hev.
  - destruct (Hc Hev) as (n & Hn & Hd & Hns & Hsc).
    assert (scope_step disk acc r = Ok (scope_add (disk, n) acc)) as ->.
    { apply scope_step_Ok. split; [done|]. right. split; [done|]. by exists n. }
    apply IH; [done..|]. intros s [->|?]%scope_add_spec; auto.
  - assert (scope_step disk acc r = Ok acc) as ->; [|by apply IH].
    apply scope_step_Ok. split; [done|]. by left.
Qed.

(** *** First and last records *)
Lemma filter_nil_Forall {A} (p : A → bool) l :
  List.filter p l = [] ↔ Forall (λ x, p x = false) l.
Proof.
  induction l as [|x l IH]; simpl; [by split; [constructor|]|].
  rewrite Forall_cons, <- IH. destruct (p x); naive_solver.
Qed.

Lemma meta_first records r0 rest m :
  records = r0 :: rest →
  List.filter (event_is "capture_meta") records = [m] → rec_eqb m r0 = true →
  m = r0 ∧ event_is "capture_meta" r0 = true ∧
  Forall (λ r, event_is "capture_meta" r = false) rest.
Proof.
  intros -> Hf Heq.
  assert (event_is "capture_meta" m = true) as Hm.
  { assert (In m [m]) as Hin by by left. rewrite <- Hf in Hin.
    by apply filter_In in Hin as [_ ?]. }
  pose proof (rec_eqb_event _ _ _ Heq Hm) as Hr. simpl in Hf. rewrite Hr in Hf.
  injection Hf as -> Hf. by apply filter_nil_Forall in Hf.
Qed.

Lemma drops_last records init r d :
  records = init ++ [r] →
  List.filter (event_is "drops") records = [d] → rec_eqb d r = true →
  d = r ∧ event_is "drops" r = true ∧ Forall (λ r, event_is "drops" r = false) init.
Proof.
  intros -> Hf Heq.
  assert (event_is "drops" d = true) as Hd.
  { assert (In d [d]) as Hin by by left. rewrite <- Hf in Hin.
    by apply filter_In in Hin as [_ ?]. }
  pose proof (rec_eqb_event _ _ _ Heq Hd) as Hr.
  rewrite List.filter_app in Hf. simpl in Hf. rewrite Hr in Hf.
  destruct (List.filter (event_is "drops") init) as [|a [|b l]] eqn:Ei; simpl in Hf; try done.
  injection Hf as <-. by apply filter_nil_Forall in Ei.
Qed.

Lemma event_is_excl e1 e2 r :
  event_is e1 r = true → e1 ≠ e2 → event_is e2 r = false.
Proof.
  rewrite event_is_true. intros He Hne. unfold event_is. rewrite He. simpl.
  by destruct (String.eqb_spec e1 e2).
Qed.

Lemma v1_scope_of_Ok md records scope :
  v1_scope_of md records = Ok scope →
  getd md "schema_version" = JInt 1 →
  ∃ disk, v1_metadata md disk ∧ Forall (cmd_in_scope disk scope) records ∧
          (scope = None ↔ Forall (λ r, event_is "nvme_cmd" r = false) records) ∧
          Forall (λ r, ∃ e, getd r.2 "event_type" = JStr e ∧ e ∈ KNOWN_EVENT_TYPES) records.
Proof.
  unfold v1_scope_of. intros H Hv.
  apply bind_Ok in H as ([] & Hem & H). apply raise_unless_Ok in Hem.
  apply eq_str_true in Hem.
  apply bind_Ok in H as ([] & Hfl & H). apply raise_unless_Ok in Hfl.
  apply bind_Ok in H as ([] & Hlb & H). apply raise_unless_Ok in Hlb.
  destruct (getd md "disk") as [| | | |disk| |] eqn:Hd; try done.
  apply bind_Ok in H as ([] & Hne & H). apply raise_if_Ok in Hne.
  apply bind_Ok in H as (scopes & Hs & H).
  apply scope_loop in Hs as (Hnd & Hk & Hc & He & Hs).
  exists disk. split; [|split; [|split; [|done]]].
  - constructor; [done..| | |].
    + by destruct (getd md "disk_filter") as [|[]| | | | |].
    + destruct (getd md "lba_bytes"); try done. apply pow2b_spec in Hlb as (k & ? & ->). eauto.
    + split; [done|]. by destruct (String.eqb_spec disk "").
  - eapply Forall_impl; [exact Hc|]. intros r Hr Hev.
    destruct (Hr Hev) as (n & ? & ? & ? & Hin). exists n. repeat split; try done.
    destruct scopes as [|s [|]]; [set_solver| |done]. apply Ok_inj in H as <-. set_solver.
  - destruct scopes as [|s [|]]; [|..|done]; apply Ok_inj in H as <-.
    + split; [intros _; by apply He|done].
    + split; [done|]. intros Hn. destruct (Hs s) as (r & Hr & Hev & _); [set_solver|].
      rewrite Forall_forall in Hn. rewrite Hn in Hev by done. done.
Qed.

Lemma v1_scope_of_total md records disk scope :
  v1_metadata md disk →
  Forall (λ r, ∃ e, getd r.2 "event_type" = JStr e ∧ e ∈ KNOWN_EVENT_TYPES) records →
  Forall (cmd_in_scope disk scope) records →
  (scope = None ↔ Forall (λ r, event_is "nvme_cmd" r = false) records) →
  v1_scope_of md records = Ok scope.
Proof.
  intros [_ Hem Hfl (k & Hk & Hlb) (Hd & Hne)] Hev Hc Hsc. unfold v1_scope_of.
  rewrite Hem, Hfl, Hlb, Hd. simpl eq_str. rewrite String.eqb_refl.
  assert (pow2b (2 ^ k) = true) as -> by (apply pow2b_spec; eauto).
  destruct (String.eqb_spec disk ""); [done|]. cbn [raise_unless raise_if mbind res_bind].
  destruct (scope_loop_total disk scope records Hne Hev Hc) as (scopes & Hl & Hs).
  rewrite Hl. cbn [mbind res_bind]. pose proof (scope_loop _ _ _ Hl) as (Hnd & _ & _ & He & _).
  destruct scopes as [|s [|s2 l]].
  - f_equal. symmetry. apply Hsc. by apply He.
  - f_equal. symmetry. apply Hs. set_solver.
  - exfalso. assert (Some s = Some s2) as [= ->]
      by (rewrite <- (Hs s), <- (Hs s2); [done|set_solver..]).
    apply NoDup_cons in Hnd as [Hni _]. set_solver.
Qed.

(** The checks that precede the scope, inverted. *)
Lemma validate_envelope_inv al records md drops scope :
  validate_envelope al records =
    Ok {| env_metadata := Some md; env_drops := drops;
          env_legacy := false; env_scope := scope |} →
  ∃ m d, List.filter (event_is "capture_meta") records = [m] ∧ m.2 = md ∧
    List.filter (event_is "drops") records = [d] ∧
    (∀ r rest, records = r :: rest → rec_eqb m r = true) ∧
    (∀ r init, records = init ++ [r] → rec_eqb d r = true) ∧
    getd md "schema_version" = JInt 1 ∧ getd d.2 "dropped" = JInt drops ∧ 0 ≤ drops ∧
    v1_scope_of md records = Ok scope.
Proof.
  unfold validate_envelope. intros H.
  apply bind_Ok in H as ([] & Hlen & H). apply raise_if_Ok in Hlen.
  apply Nat.ltb_ge in Hlen.
  apply bind_Ok in H as ([] & Hfirst & H). apply raise_unless_Ok in Hfirst.
  destruct (List.filter (event_is "drops") records) as [|d [|]] eqn:Hdr; try done.
  apply bind_Ok in H as ([] & Hlast & H). apply raise_unless_Ok in Hlast.
  apply bind_Ok in H as ([] & _ & H). apply bind_Ok in H as ([] & Hver & H).
  apply raise_unless_Ok in Hver.
  destruct (getd d.2 "dropped") as [| |dz| | | |] eqn:Hdz; try done.
  apply bind_Ok in H as ([] & Hpos & H). apply raise_if_Ok in Hpos.
  apply bind_Ok in H as (sc & Hsc & H). apply Ok_inj in H. injection H as Hmd <- Hleg <-.
  destruct (List.filter (event_is "capture_meta") records) as [|m [|]];
    [done| |simpl in Hlen; lia].
  injection Hmd as <-. cbv [head fmap option_fmap option_map] in Hleg, Hver, Hsc.
  rewrite Hleg in Hver, Hsc. exists m, d.
  split_and!; try done; [|..|lia].
  - intros r rest ->. done.
  - intros r init ->. rewrite List.rev_app_distr in Hlast. done.
  - destruct (getd m.2 "schema_version") as [| |v| | | |]; try done.
    apply Z.eqb_eq in Hver. by subst.
Qed.

Lemma validate_envelope_sound al records md drops scope :
  validate_envelope al records =
    Ok {| env_metadata := Some md; env_drops := drops;
          env_legacy := false; env_scope := scope |} →
  v1_capture records md drops scope.
Proof.
  intros (m & d & Hm & <- & Hd & Hfirst & Hlast & Hv & Hdz & Hpos & Hsc)%validate_envelope_inv.
  destruct (v1_scope_of_Ok _ _ _ Hsc Hv) as (disk & Hmeta & Hcmd & Hnone & Hev).
  destruct records as [|r0 rest]; [done|].
  destruct (meta_first _ r0 rest m eq_refl Hm (Hfirst _ _ eq_refl)) as (-> & Hm0 & Hmr).
  destruct (exists_last (l := r0 :: rest)) as (init & last & Hsplit); [done|].
  destruct (drops_last _ init last d Hsplit Hd (Hlast _ _ Hsplit)) as (-> & Hld & Hinit).
  assert (∃ body, init = r0 :: body) as (body & ->).
  { destruct init as [|i0 body]; [|injection Hsplit as -> ->; by eexists].
    injection Hsplit as -> ->. pose proof (event_is_excl _ "drops" _ Hm0) as Hx.
    rewrite Hx in Hld by done. done. }
  injection Hsplit as ->. constructor; [|done|by exists disk|done].
  exists r0.1, body, last.1, last.2. rewrite event_is_true in Hm0, Hld.
  split; [by destruct r0, last|]. split; [done|]. split; [done|]. split; [done|].
  apply Forall_cons in Hev as [_ Hev]. apply Forall_app in Hev as [Hev _].
  apply Forall_app in Hmr as [Hmr _]. apply Forall_cons in Hinit as [_ Hinit].
  rewrite Forall_forall in Hev, Hmr, Hinit |- *. intros r Hr.
  destruct (Hev r Hr) as (e & He & Hin). exists e. split; [done|].
  specialize (Hmr r Hr). specialize (Hinit r Hr). unfold event_is in Hmr, Hinit.
  rewrite He in Hmr, Hinit. simpl in Hmr, Hinit. unfold KNOWN_EVENT_TYPES in Hin.
  destruct (String.eqb_spec e "capture_meta"); [done|].
  destruct (String.eqb_spec e "drops"); [done|]. set_solver.
Qed.

(** The two filters of the validator on a capture of the right shape. *)
Lemma v1_filters l0 md body l1 dr :
  getd md "event_type" = JStr "capture_meta" → getd dr "event_type" = JStr "drops" →
  Forall (λ r : Z * dict, ∃ e, getd r.2 "event_type" = JStr e ∧
                    e ∈ ["clock_anchor"; "nvme_cmd"; "nvme_cmp"]) body →
  let records := (l0, md) :: body ++ [(l1, dr)] in
  List.filter (event_is "capture_meta") records = [(l0, md)] ∧
  List.filter (event_is "drops") records = [(l1, dr)].
Proof.
  intros Hm Hd Hbody.
  assert (∀ e, e ∉ ["clock_anchor"; "nvme_cmd"; "nvme_cmp"] →
    List.filter (event_is e) body = []) as Hfb.
  { intros e He. apply filter_nil_Forall. eapply Forall_impl; [exact Hbody|].
    intros r (e' & Hr & Hin). unfold event_is. rewrite Hr. simpl.
    destruct (String.eqb_spec e' e); [by subst|done]. }
  assert (∀ l e, event_is e (l, md) = eq_str (JStr "capture_meta") e) as Hem
    by (intros; unfold event_is; simpl; by rewrite Hm).
  assert (∀ l e, event_is e (l, dr) = eq_str (JStr "drops") e) as Hed
    by (intros; unfold event_is; simpl; by rewrite Hd).
  cbn [List.filter]. rewrite !List.filter_app. cbn [List.filter].
  rewrite !Hfb by (cbv; set_solver). by rewrite !Hem, !Hed.
Qed.

Lemma validate_envelope_complete al records md drops scope :
  Forall (λ r : Z * dict, json_wf (JObj r.2)) records →
  v1_capture records md drops scope →
  validate_envelope al records =
    Ok {| env_metadata := Some md; env_drops := drops;
          env_legacy := false; env_scope := scope |}.
Proof.
  intros Hwf [(l0 & body & l1 & dr & -> & Hm & Hd & Hdz & Hbody) Hpos (disk & Hmeta & Hcmd) Hnone].
  destruct (v1_filters l0 md body l1 dr Hm Hd Hbody) as [Hf1 Hf2].
  unfold validate_envelope. rewrite Hf1, Hf2.
  rewrite app_comm_cons, List.rev_app_distr.
  rewrite Forall_cons, Forall_app, Forall_singleton in Hwf. destruct Hwf as (Hwm & _ & Hwd).
  cbn [List.rev app length]. change (1 <? 1)%nat with false.
  rewrite !rec_eqb_refl by done. cbn [raise_if raise_unless mbind res_bind head].
  change (snd <$> Some (l0, md)) with (Some md). cbv iota.
  rewrite (v1_version _ _ Hmeta). cbn [is_none andb negb orb].
  cbn [snd]. rewrite Hdz. destruct (Z.ltb_spec drops 0); [lia|].
  change (1 =? CAPTURE_SCHEMA_VERSION) with true.
  cbn [raise_if raise_unless mbind res_bind].
  rewrite (v1_scope_of_total md _ disk scope); [done|done| |done|done].
  rewrite Forall_cons, Forall_app, Forall_singleton. simpl.
  split; [exists "capture_meta"; set_solver|].
  split; [|exists "drops"; set_solver].
  eapply Forall_impl; [exact Hbody|]. intros r (e & ? & ?). exists e. set_solver.
Qed.

(** C32: [validate_envelope] returns a versioned envelope exactly for the
    complete single-scope captures: metadata record first and unique, drops
    record last and unique, only known events, an LBA size that is a power of
    two, and every command on the selected disk with one namespace id, which
    is the scope the envelope reports. *)
Theorem validate_envelope_v1_iff al records md drops scope :
  Forall (λ r : Z * dict, json_wf (JObj r.2)) records →
  validate_envelope al records =
    Ok {| env_metadata := Some md; env_drops := drops;
          env_legacy := false; env_scope := scope |}
  ↔ v1_capture records md drops scope.
Proof.
  intros Hwf. split; [apply validate_envelope_sound|by apply validate_envelope_complete].
Qed.

(** ** Loaded records *)

Lemma p_atom_wf s v r : p_atom s = Some (v, r) → json_wf v.
Proof.
  unfold p_atom, p_number. intros H.
  repeat (case_match; simplify_eq; try done).
Qed.

(** A value decoded with the duplicate-rejecting hook is well formed. *)
Lemma p_value_wf e n :
  (∀ s v r, p_value (unique_object e) n s = Ok (v, r) → json_wf v) ∧
  (∀ acc s v r, Forall (λ kv, json_wf kv.2) acc →
     p_members (unique_object e) n acc s = Ok (v, r) → json_wf v) ∧
  (∀ acc s v r, Forall json_wf acc →
     p_elements (unique_object e) n acc s = Ok (v, r) → json_wf v).
Proof.
  induction n as [|n (IHv & IHm & IHe)]; [done|]. split_and!.
  - intros s v r H. cbn [p_value] in H. destruct s as [|c t]; [done|].
    destruct (code c =? 34); [by repeat case_match; simplify_eq|].
    destruct (code c =? 123).
    { destruct (skip_ws t) as [|c2 r2]; [done|]. destruct (code c2 =? 125).
      - cbn in H. apply Ok_inj in H as [= <- _]. apply json_wf_obj. by split; constructor.
      - by eapply (IHm []). }
    destruct (code c =? 91).
    { destruct (skip_ws t) as [|c2 r2]; [done|]. destruct (code c2 =? 93).
      - by apply Ok_inj in H as [= <- _].
      - by eapply (IHe []). }
    destruct (p_atom (String c t)) as [[a r']|] eqn:Ha; [|done].
    apply Ok_inj in H as [= -> ->]. by eapply p_atom_wf.
  - intros acc s v r Hacc H. cbn [p_members] in H. destruct s as [|q t]; [done|].
    destruct (code q =? 34); [|done]. destruct (p_string t) as [[k r1]|]; [|done].
    destruct (skip_ws r1) as [|col r2]; [done|]. destruct (code col =? 58); [|done].
    apply bind_Ok in H as ([x r3] & Hx & H). apply IHv in Hx.
    assert (Forall (λ kv : string * json, json_wf kv.2) (acc ++ [(k, x)])) as Hacc'
      by (apply Forall_app_2; [done|by apply Forall_singleton]).
    destruct (skip_ws r3) as [|c r4]; [done|]. destruct (code c =? 125).
    + apply bind_Ok in H as (d & Hd & H). apply Ok_inj in H as [= <- _].
      apply unique_object_Ok in Hd as [-> Hnd]. by apply json_wf_obj.
    + destruct (code c =? 44); [|done]. by eapply IHm.
  - intros acc s v r Hacc H. cbn [p_elements] in H.
    apply bind_Ok in H as ([x r3] & Hx & H). apply IHv in Hx.
    assert (Forall json_wf (acc ++ [x])) as Hacc'
      by (apply Forall_app_2; [done|by apply Forall_singleton]).
    destruct (skip_ws r3) as [|c r4]; [done|]. destruct (code c =? 93).
    + apply Ok_inj in H as [= <- _]. by apply json_wf_list.
    + destruct (code c =? 44); [|done]. by eapply IHe.
Qed.

(** The decoder without a hook returns the pairs of an object as they stand; what
    it has read of an object or a list is part of the result. *)
Lemma p_pairs_extends n :
  (∀ acc s v r, p_members Ok n acc s = Ok (v, r) → ∃ rest, v = JObj (acc ++ rest)) ∧
  (∀ acc s v r, p_elements Ok n acc s = Ok (v, r) → ∃ rest, v = JList (acc ++ rest)).
Proof.
  induction n as [|n [IHm IHe]]; [done|]. split.
  - intros acc s v r H. cbn [p_members] in H. destruct s as [|q t]; [done|].
    destruct (code q =? 34); [|done]. destruct (p_string t) as [[k r1]|]; [|done].
    destruct (skip_ws r1) as [|col r2]; [done|]. destruct (code col =? 58); [|done].
    apply bind_Ok in H as ([x r3] & _ & H). destruct (skip_ws r3) as [|c r4]; [done|]. destruct (code c =? 125).
    + apply Ok_inj in H as [= <- _]. eauto.
    + destruct (code c =? 44); [|done]. apply IHm in H as [rest ->]. exists ((k, x) :: rest). by rewrite <- app_assoc.
  - intros acc s v r H. cbn [p_elements] in H. apply bind_Ok in H as ([x r3] & _ & H).
    destruct (skip_ws r3) as [|c r4]; [done|]. destruct (code c =? 93).
    + apply Ok_inj in H as [= <- _]. eauto.
    + destruct (code c =? 44); [|done]. apply IHe in H as [rest ->]. exists (x :: rest). by rewrite <- app_assoc.
Qed.

(** The duplicate-rejecting hook accepts exactly the texts in which no object
    repeats a key. *)
Lemma p_value_unique e n :
  (∀ s v r, p_value (unique_object e) n s = Ok (v, r) ↔ p_value Ok n s = Ok (v, r) ∧ json_wf v) ∧
  (∀ acc s v r, Forall (λ kv, json_wf kv.2) acc →
     p_members (unique_object e) n acc s = Ok (v, r) ↔ p_members Ok n acc s = Ok (v, r) ∧ json_wf v) ∧
  (∀ acc s v r, Forall json_wf acc →
     p_elements (unique_object e) n acc s = Ok (v, r) ↔ p_elements Ok n acc s = Ok (v, r) ∧ json_wf v).
Proof.
  induction n as [|n (IHv & IHm & IHe)]; [split_and!; split; naive_solver|]. destruct (p_pairs_extends n) as [Em Ee]. split_and!.
  - intros s v r. cbn [p_value]. destruct s as [|c t]; [naive_solver|].
    destruct (code c =? 34); [destruct (p_string t) as [[w r']|]; [|naive_solver]; split; [intros [= <- <-]; done|tauto]|].
    destruct (code c =? 123).
    { destruct (skip_ws t) as [|c2 r2]; [naive_solver|]. destruct (code c2 =? 125); [|by apply IHm].
      cbn. split; [intros [= <- <-]; split; [done|]; apply json_wf_obj; by split; constructor|tauto]. }
    destruct (code c =? 91).
    { destruct (skip_ws t) as [|c2 r2]; [naive_solver|]. destruct (code c2 =? 93); [|by apply IHe].
      split; [intros [= <- <-]; done|tauto]. }
    destruct (p_atom (String c t)) as [[a r']|] eqn:Ha; [|naive_solver].
    split; [intros [= -> ->]; split; [done|]; by eapply p_atom_wf|tauto].
  - intros acc s v r Hacc. cbn [p_members]. destruct s as [|q t]; [naive_solver|].
    destruct (code q =? 34); [|naive_solver]. destruct (p_string t) as [[k r1]|]; [|naive_solver].
    destruct (skip_ws r1) as [|col r2]; [naive_solver|]. destruct (code col =? 58); [|naive_solver].
    assert (∀ x r3, json_wf x → Forall (λ kv, json_wf kv.2) (acc ++ [(k, x)])) as Hx
      by (intros; apply Forall_app_2; [done|by apply Forall_singleton]).
    split.
    + intros ([x r3] & [Hv Hw]%IHv & H)%bind_Ok. rewrite Hv. cbn [mbind res_bind].
      destruct (skip_ws r3) as [|c r4]; [done|]. destruct (code c =? 125); [|destruct (code c =? 44); [|done]; apply IHm; auto].
      apply bind_Ok in H as (d & [-> Hnd]%unique_object_Ok & H). apply Ok_inj in H as [= <- <-]. split; [done|].
      apply json_wf_obj. auto.
    + intros [([x r3] & Hv & H)%bind_Ok Hw].
      assert (json_wf x) as Hwx.
      { destruct (skip_ws r3) as [|c r4]; [done|]. destruct (code c =? 125); [|destruct (code c =? 44); [|done]; apply Em in H as [rest ->]].
        - apply Ok_inj in H as [= <- <-]. apply json_wf_obj in Hw as [_ Hw]. rewrite !Forall_app, Forall_singleton in Hw. apply Hw.
        - apply json_wf_obj in Hw as [_ Hw]. rewrite !Forall_app, Forall_singleton in Hw. apply Hw. }
      rewrite (proj2 (IHv _ _ _) (conj Hv Hwx)). cbn [mbind res_bind].
      destruct (skip_ws r3) as [|c r4]; [done|]. destruct (code c =? 125); [|destruct (code c =? 44); [|done]; apply IHm; auto].
      apply Ok_inj in H as [= <- <-]. apply json_wf_obj in Hw as [Hnd _].
      rewrite (proj2 (unique_object_Ok e _ _) (conj eq_refl Hnd)). done.
  - intros acc s v r Hacc. cbn [p_elements].
    assert (∀ x, json_wf x → Forall json_wf (acc ++ [x])) as Hx by (intros; apply Forall_app_2; [done|by apply Forall_singleton]).
    split.
    + intros ([x r3] & [Hv Hw]%IHv & H)%bind_Ok. rewrite Hv. cbn [mbind res_bind].
      destruct (skip_ws r3) as [|c r4]; [done|]. destruct (code c =? 93); [|destruct (code c =? 44); [|done]; apply IHe; auto].
      apply Ok_inj in H as [= <- <-]. split; [done|]. apply json_wf_list. auto.
    + intros [([x r3] & Hv & H)%bind_Ok Hw].
      assert (json_wf x) as Hwx.
      { destruct (skip_ws r3) as [|c r4]; [done|]. destruct (code c =? 93); [|destruct (code c =? 44); [|done]; apply Ee in H as [rest ->]].
        - apply Ok_inj in H as [= <- <-]. apply json_wf_list in Hw. rewrite !Forall_app, Forall_singleton in Hw. apply Hw.
        - apply json_wf_list in Hw. rewrite !Forall_app, Forall_singleton in Hw. apply Hw. }
      rewrite (proj2 (IHv _ _ _) (conj Hv Hwx)). cbn [mbind res_bind].
      destruct (skip_ws r3) as [|c r4]; [done|]. destruct (code c =? 93); [|destruct (code c =? 44); [|done]; apply IHe; auto].
      done.
Qed.

Lemma loads_unique e s v : loads_hook (unique_object e) s = Ok v ↔ loads_hook Ok s = Ok v ∧ json_wf v.
Proof.
  unfold loads_hook. destruct (p_value_unique e (2 * String.length s + 2)) as (H & _). split.
  - intros ([x r] & [Hx Hw]%H & Hv)%bind_Ok. rewrite Hx. cbn [mbind res_bind]. destruct (skip_ws r); [|done].
    apply Ok_inj in Hv as <-. done.
  - intros [([x r] & Hx & Hv)%bind_Ok Hw]. destruct (skip_ws r) eqn:E; [|done]. apply Ok_inj in Hv as <-.
    rewrite (proj2 (H _ _ _) (conj Hx Hw)). cbn [mbind res_bind]. by rewrite E.
Qed.

Lemma load_line_wf line record : load_line line = Ok record → json_wf (JObj record).
Proof.
  unfold load_line. intros H.
  destruct (loads_hook _unique_object line) as [v|[[] ?]] eqn:Hl; try done.
  destruct v; try done. apply Ok_inj in H as ->. unfold loads_hook in Hl.
  apply bind_Ok in Hl as ([v r] & Hv & Hl). apply p_value_wf in Hv.
  destruct (skip_ws r); [|done]. apply Ok_inj in Hl. by subst.
Qed.

(** Every record that [load_records] returns is a well-formed object. *)
Lemma load_records_wf lines records :
  load_records lines = Ok records → Forall (λ r : Z * dict, json_wf (JObj r.2)) records.
Proof.
  unfold load_records. intros H. apply bind_Ok in H as (recs & Hf & H).
  assert (recs = records) as -> by (destruct recs; [done|by apply Ok_inj in H]). clear H.
  assert (∀ ls i acc, Forall (λ r : Z * dict, json_wf (JObj r.2)) acc →
    foldiM (λ records line_number line, if String.eqb (strip line) "" then Ok records else
      record ← load_line line; Ok (records ++ [(Z.of_nat line_number, record)])) i acc ls
    = Ok records → Forall (λ r : Z * dict, json_wf (JObj r.2)) records) as Hgen; [|by eapply Hgen].
  clear Hf. induction ls as [|l ls IH]; intros i acc Hacc Hf; cbn [foldiM] in Hf.
  - by apply Ok_inj in Hf as <-.
  - apply bind_Ok in Hf as (s1 & Hs & Hf). destruct (String.eqb (strip l) "").
    + apply Ok_inj in Hs as <-. by eapply IH.
    + apply bind_Ok in Hs as (d & Hd & Hs). apply Ok_inj in Hs as <-.
      eapply IH; [|exact Hf]. apply Forall_app_2; [done|]. apply Forall_singleton.
      by eapply load_line_wf.
Qed.

(** ** A concrete capture *)
Definition ex_lines : list string := map q2
  ["{'event_type':'capture_meta','schema_version':1,'emitter':'nvme_tp_monitor','disk_filter':true,'lba_bytes':512,'disk':'nvme0n1'}";
   "";
   "{'event_type':'nvme_cmd','op_name':'write','seq':1,'ts':2500,'slba':8,'bytes':4096,'disk':'nvme0n1','nsid':1}";
   "{'event_type':'nvme_cmd','op_name':'read','seq':0,'ts':1000,'slba':16,'bytes':512,'disk':'nvme0n1','nsid':1}";
   "{'event_type':'nvme_cmd','op_name':'flush','seq':2,'ts':9999,'disk':'nvme0n1','nsid':1}";
   "{'event_type':'drops','dropped':0}"].

Definition ex_records : list (Z * dict) :=
  match load_records ex_lines with Ok r => r | Raise _ => [] end.

Definition ex_meta : dict := match ex_records with (_, md) :: _ => md | [] => [] end.

Lemma ex_records_loaded : load_records ex_lines = Ok ex_records.
Proof. vm_compute. reflexivity. Qed.

Lemma validate_envelope_v1_iff_witness :
  v1_capture ex_records ex_meta 0 (Some ("nvme0n1", 1)).
Proof.
  apply (validate_envelope_v1_iff false ex_records ex_meta 0 (Some ("nvme0n1", 1))).
  - exact (load_records_wf ex_lines ex_records ex_records_loaded).
  - vm_compute. reflexivity.
Defined.
