(* ===== verification/DevIolog.v ===== *)
(** * From an NVMe capture to a fio v3 replay artifact
      ([examples/replay/mk_dev_iolog.py])

    [load_capture] turns the records of a capture into ordered rows in bytes,
    [emit_iolog] prints them as a fio version-3 log, [parse_iolog] reads such
    a log back, and [translation_certificate] compares the two.  The theorems
    say that the rows are exactly the supported commands in timestamp order
    and inside a 64-bit device, that printing and reading back is lossless up
    to the microsecond, and when the certificate can be issued. *)

From stdpp Require Import prelude strings list sorting.
From Stdlib Require Import ZArith Lia Ascii.
From S2P Require Import Prelude PyText PyJson JsonText CaptureFormat.
Local Open Scope Z_scope.

Definition V3_HEADER : string := "fio version 3 iolog".

Definition SUPPORTED : list string := ["read"; "write"; "flush"].

Definition cerr (m : string) : exn := Exn CaptureError m.

(** A row before the logical block size is applied. *)
Record raw_row := {
  rr_seq : Z; rr_source_seq : nat; rr_timestamp_ns : Z;
  rr_op : string; rr_slba : Z; rr_length_bytes : Z
}.

Record row := {
  seq : Z; source_seq : nat; timestamp_ns : Z;
  op : string; offset_bytes : Z; length_bytes : Z
}.

Record load_state := {
  ls_rows : list raw_row;
  ls_metadata_lba : option Z;
  ls_unsupported : list (Z * json);
  ls_seen_seq : list Z
}.

(** One [nvme_cmd] record with a supported operation. *)
Definition load_cmd (st : load_state) (source_seq : nat) (record : dict)
    (operation : string) : res load_state :=
  seq ← py_int (default (JInt (Z.of_nat source_seq)) (dget "seq" record));
  ts ← item (JObj record) "ts";
  timestamp_ns ← py_int ts;
  slba ← py_int (default (JInt 0) (dget "slba" record));
  length_bytes ← (if String.eqb operation "flush" then Ok 0
                  else b ← item (JObj record) "bytes"; py_int b);
  raise_if (bool_decide (seq ∈ ls_seen_seq st))
    (cerr "capture contains duplicate command seq {seq}") ;;
  raise_if ((seq <? 0) || (timestamp_ns <? 0) || (slba <? 0))
    (cerr "{path}:{line_number}: negative command field") ;;
  raise_if (negb (String.eqb operation "flush") && (length_bytes <=? 0))
    (cerr "{path}:{line_number}: non-positive command length") ;;
  Ok {| ls_rows := ls_rows st ++
          [{| rr_seq := seq; rr_source_seq := source_seq; rr_timestamp_ns := timestamp_ns;
              rr_op := if String.eqb operation "flush" then "datasync" else operation;
              rr_slba := slba; rr_length_bytes := length_bytes |}];
        ls_metadata_lba := ls_metadata_lba st;
        ls_unsupported := ls_unsupported st;
        ls_seen_seq := seq :: ls_seen_seq st |}.

(** Body of the loop over the records. *)
Definition load_step (st : load_state) (source_seq : nat) (r : Z * dict) : res load_state :=
  let '(line_number, record) := r in
  let event_type := getd record "event_type" in
  if eq_str event_type "capture_meta" && negb (is_none (getd record "lba_bytes")) then
    candidate ← py_int (getd record "lba_bytes");
    raise_if (match ls_metadata_lba st with Some z => negb (z =? candidate) | None => false end)
      (cerr "capture contains conflicting LBA sizes") ;;
    Ok {| ls_rows := ls_rows st; ls_metadata_lba := Some candidate;
          ls_unsupported := ls_unsupported st; ls_seen_seq := ls_seen_seq st |}
  else if eq_str event_type "nvme_cmd" then
    let operation := getd record "op_name" in
    if negb (hashable operation) then unhashable else
    match operation with
    | JStr o => if bool_decide (o ∈ SUPPORTED) then load_cmd st source_seq record o
                else Ok {| ls_rows := ls_rows st; ls_metadata_lba := ls_metadata_lba st;
                           ls_unsupported := ls_unsupported st ++ [(line_number, operation)];
                           ls_seen_seq := ls_seen_seq st |}
    | _ => Ok {| ls_rows := ls_rows st; ls_metadata_lba := ls_metadata_lba st;
                 ls_unsupported := ls_unsupported st ++ [(line_number, operation)];
                 ls_seen_seq := ls_seen_seq st |}
    end
  else Ok st.

Definition load_init : load_state :=
  {| ls_rows := []; ls_metadata_lba := None; ls_unsupported := []; ls_seen_seq := [] |}.

(** The sort key [(timestamp_ns, seq, source_seq)], compared as a tuple. *)
Definition row_le (a b : raw_row) : Prop :=
  rr_timestamp_ns a < rr_timestamp_ns b ∨
  rr_timestamp_ns a = rr_timestamp_ns b ∧
  (rr_seq a < rr_seq b ∨ rr_seq a = rr_seq b ∧ (rr_source_seq a ≤ rr_source_seq b)%nat).
#[export] Instance row_le_dec : RelDecision row_le.
Proof. intros a b. unfold row_le. apply _. Defined.
#[export] Instance row_le_trans : Transitive row_le.
Proof. intros a b c. unfold row_le. lia. Qed.
#[export] Instance row_le_total : Total row_le.
Proof. intros a b. unfold row_le. lia. Qed.

(** The final pass over the sorted rows. *)
Definition finish_row (lba_bytes : Z) (r : raw_row) : res row :=
  let offset := rr_slba r * lba_bytes in
  raise_if (negb (String.eqb (rr_op r) "datasync") && negb (rr_length_bytes r mod lba_bytes =? 0))
    (cerr "command length {row['length_bytes']} is not aligned to LBA {lba_bytes}") ;;
  raise_if (2 ^ 64 - 1 - rr_length_bytes r <? offset)
    (cerr "command byte range overflows an unsigned 64-bit offset") ;;
  Ok {| seq := rr_seq r; source_seq := rr_source_seq r; timestamp_ns := rr_timestamp_ns r;
        op := rr_op r; offset_bytes := offset; length_bytes := rr_length_bytes r |}.

Record capture_meta := {
  cm_lba_bytes : Z; cm_drops : Z; cm_unsupported_omitted : nat;
  cm_schema_version : option json; cm_scope : option (string * Z)
}.

(** [load_capture] after the records have been read. *)
Definition load_capture (requested_lba : option Z) (allow_drops allow_unsupported : bool)
    (allow_legacy_capture : bool) (lines : list string) : res (list row * capture_meta) :=
  match (records ← load_records lines;
         envelope ← validate_envelope allow_legacy_capture records;
         Ok (records, envelope)) with
  | Raise (Exn CaptureFormatError m) => Raise (cerr m)
  | Raise e => Raise e
  | Ok (records, envelope) =>
      st ← foldiM load_step 0 load_init records;
      let drops := env_drops envelope in
      let unsupported := ls_unsupported st in
      let metadata_lba := ls_metadata_lba st in
      raise_if (negb (drops =? 0) && negb allow_drops)
        (cerr "capture reports {drops} dropped events; use --allow-drops to override") ;;
      raise_if (match unsupported with [] => false | _ => negb allow_unsupported end)
        (cerr "capture contains {len(unsupported)} unsupported commands") ;;
      match (match requested_lba with Some z => Some z | None => metadata_lba end) with
      | None => Raise (cerr "capture does not record lba_bytes; pass --lba-bytes explicitly")
      | Some lba_bytes =>
          raise_unless (pow2b lba_bytes) (cerr "lba_bytes must be a positive power of two") ;;
          raise_if (match metadata_lba, requested_lba with
                    | Some a, Some b => negb (a =? b) | _, _ => false end)
            (cerr "--lba-bytes {requested_lba} disagrees with capture metadata {metadata_lba}") ;;
          raise_if (match ls_rows st with [] => true | _ => false end)
            (cerr "capture contains no supported NVMe commands") ;;
          rows ← mapMR (finish_row lba_bytes) (stable_sort row_le (ls_rows st));
          Ok (rows,
              {| cm_lba_bytes := lba_bytes; cm_drops := drops;
                 cm_unsupported_omitted := length unsupported;
                 cm_schema_version := if env_legacy envelope then None
                   else (λ md, getd md "schema_version") <$> env_metadata envelope;
                 cm_scope := env_scope envelope |})
      end
  end.

(** ** Emitting and parsing the fio log *)
Definition timestamp_us (t0 : Z) (r : row) : Z := (timestamp_ns r - t0) / 1000.

Definition sp : string := " ".

Definition emit_row (t0 : Z) (filename : string) (r : row) : string :=
  if String.eqb (op r) "datasync"
  then str_of_Z (timestamp_us t0 r) +:+ sp +:+ filename +:+ sp +:+ "datasync"
  else str_of_Z (timestamp_us t0 r) +:+ sp +:+ filename +:+ sp +:+ op r +:+ sp +:+
       str_of_Z (offset_bytes r) +:+ sp +:+ str_of_Z (length_bytes r).

Definition emit_iolog (rows : list row) (filename : string) : res string :=
  match head rows, last rows with
  | Some r0, Some rn =>
      let t0 := timestamp_ns r0 in
      let lines :=
        [V3_HEADER; "0 " +:+ filename +:+ " add"; "0 " +:+ filename +:+ " open"]
        ++ map (emit_row t0 filename) rows
        ++ [str_of_Z (timestamp_us t0 rn) +:+ sp +:+ filename +:+ sp +:+ "close"] in
      Ok (py_join LF lines +:+ LF)
  | _, _ => Raise (Exn IndexError "list index out of range")
  end.

Definition command := (Z * string * Z * Z)%type.

(** One line of the log; [None] for the file actions. *)
Definition parse_line (line : string) : res (option command) :=
  let invalid := Raise (cerr "emitted artifact contains an invalid line: {line}") in
  match py_split line with
  | [f0; _; f2] =>
      if bool_decide (f2 ∈ ["add"; "open"; "close"]) then Ok None
      else if bool_decide (f2 ∈ ["sync"; "datasync"]) then
        t ← int_of_str f0; Ok (Some (t, f2, 0, 0))
      else invalid
  | [f0; _; f2; f3; f4] =>
      if bool_decide (f2 ∈ ["read"; "write"; "trim"]) then
        t ← int_of_str f0; o ← int_of_str f3; l ← int_of_str f4; Ok (Some (t, f2, o, l))
      else invalid
  | _ => invalid
  end.

Definition parse_iolog (text : string) : res (list command) :=
  match splitlines text with
  | h :: lines =>
      if String.eqb h V3_HEADER then
        commands ← mapMR parse_line lines;
        Ok (omap (M:=list) id commands)
      else Raise (cerr "emitted artifact has an invalid fio v3 header")
  | [] => Raise (cerr "emitted artifact has an invalid fio v3 header")
  end.

(** ** The certificate and the bundle *)

(** An entry of the normalized workload. *)
Definition normalized_row (t0 : Z) (index : nat) (r : row) : json :=
  JObj [("seq", JInt (Z.of_nat index)); ("at_ns", JInt (timestamp_ns r - t0));
        ("op", JStr (op r)); ("offset_bytes", JInt (offset_bytes r));
        ("length_bytes", JInt (length_bytes r))].

(** The command each row must be read back as. *)
Definition expected_command (t0 : Z) (r : row) : command :=
  ((timestamp_ns r - t0) / 1000, op r, offset_bytes r, length_bytes r).

Definition max_list (x : Z) (l : list Z) : Z := fold_left Z.max l x.

Section certificate.
(** [hashlib.sha256(data).hexdigest()]. *)
Variable sha256 : string → string.

Definition translation_certificate (rows : list row) (iolog : string)
    (capture_bytes : string) (meta : capture_meta) : res (json * list json) :=
  match head rows with
  | None => Raise (Exn IndexError "list index out of range")
  | Some r0 =>
      let t0 := timestamp_ns r0 in
      let normalized := imap (normalized_row t0) rows in
      reparsed ← parse_iolog iolog;
      let expected := map (expected_command t0) rows in
      let equal := bool_decide (reparsed = expected) in
      let stream_bytes := dumps Compact (JList normalized) in
      let certificate := JObj [
        ("schema_version", JInt 1);
        ("source", JStr "measured NVMe command capture");
        ("equivalence_level",
          JStr (if negb (cm_drops meta =? 0) || negb (cm_unsupported_omitted meta =? 0)%nat
                then "partial-stream-translation" else "stream-translation"));
        ("source_command_count", JInt (Z.of_nat (length rows)));
        ("emitted_command_count", JInt (Z.of_nat (length reparsed)));
        ("operation_offset_length_sequence_equal", JBool equal);
        ("source_trace_sha256", JStr (sha256 capture_bytes));
        ("normalized_stream_sha256", JStr (sha256 stream_bytes));
        ("emitted_iolog_sha256", JStr (sha256 iolog));
        ("timestamp_input_unit", JStr "nanoseconds");
        ("timestamp_output_unit", JStr "microseconds");
        ("maximum_timestamp_quantization_error_ns",
          JInt (max_list ((timestamp_ns r0 - t0) mod 1000)
                  (map (λ r, (timestamp_ns r - t0) mod 1000) rows)));
        ("lba_bytes", JInt (cm_lba_bytes meta));
        ("capture_drops", JInt (cm_drops meta));
        ("unsupported_commands_omitted", JInt (Z.of_nat (cm_unsupported_omitted meta)));
        ("performance_equivalence_claimed", JBool false);
        ("runtime_device_validation", JNull)] in
      raise_unless equal (cerr "internal translation validation failed") ;;
      Ok (certificate, normalized)
  end.

Definition _fio_wrapper (ioengine : string) : string :=
  let command_type := if String.eqb ioengine "io_uring_cmd" then "cmd_type=nvme" +:+ LF else "" in
  "; generated by kvio; set KVIO_TARGET to an empty replay target" +:+ LF +:+
  "[global]" +:+ LF +:+
  "ioengine=" +:+ ioengine +:+ LF +:+
  command_type +:+
  "direct=1" +:+ LF +:+
  "iodepth=16" +:+ LF +:+
  "read_iolog=commands.iolog" +:+ LF +:+
  "replay_redirect=${KVIO_TARGET}" +:+ LF +:+
  "group_reporting=1" +:+ LF +:+ LF +:+
  "[kvio-replay]" +:+ LF.

Definition readme : string :=
  py_join LF
    ["This bundle preserves the captured operation/offset/length sequence and";
     "quantizes relative timestamps from nanoseconds to fio microseconds.";
     "Set KVIO_TARGET to an empty raw target, then run one replay jobfile.";
     "The block job may be merged or split again by Linux. The uring-cmd job";
     "targets NVMe passthrough. Re-record either run before claiming that the";
     "device received the same stream. Performance equivalence is not claimed.";
     "Run `kvio fio-certify .` for an independent Rust validation."] +:+ LF.

(** [write_bundle]: the files of the bundle in the order they are written;
    the target directory must not exist. *)
Definition write_bundle (exists_already : bool) (iolog : string) (certificate : json)
    (normalized : list json) : res (list (string * string)) :=
  raise_if exists_already (Exn OSError "File exists") ;;
  let artifacts := [
    ("commands.iolog", iolog);
    ("replay-block.fio", _fio_wrapper "io_uring");
    ("replay-uring-cmd.fio", _fio_wrapper "io_uring_cmd");
    ("workload.json",
      dumps Indent2 (JObj [("schema_version", JInt 1); ("commands", JList normalized)]) +:+ LF);
    ("certificate.json", dumps Indent2 certificate +:+ LF);
    ("README.txt", readme)] in
  let sums := map (λ name, sha256 (default "" (dget name artifacts)) +:+ "  " +:+ name)
                  (stable_sort String.le (keys artifacts)) in
  Ok (artifacts ++ [("SHA256SUMS", py_join LF sums +:+ LF)]).

(** [main] up to its output: load, emit, certify, and the bundle if asked. *)
Definition convert (requested_lba : option Z)
    (allow_drops allow_unsupported allow_legacy : bool) (device : string)
    (bundle : option bool) (lines : list string) (capture_bytes : string)
    : res (string * list (string * string)) :=
  rm ← load_capture requested_lba allow_drops allow_unsupported allow_legacy lines;
  let '(rows, meta) := rm in
  iolog ← emit_iolog rows device;
  cn ← translation_certificate rows iolog capture_bytes meta;
  files ← match bundle with
          | Some exists_already => write_bundle exists_already iolog cn.1 cn.2
          | None => Ok []
          end;
  Ok (iolog, files).
End certificate.

(** ** Printing and reading back *)
Definition good_filename (f : string) : Prop := nospace f = true ∧ f ≠ "".

Definition known_op (r : row) : Prop := op r ∈ ["read"; "write"; "datasync"].

(** What a row is read back as: a datasync line carries no range. *)
Definition reread (t0 : Z) (r : row) : command :=
  if String.eqb (op r) "datasync" then (timestamp_us t0 r, "datasync", 0, 0)
  else expected_command t0 r.

Lemma nospace_app s t : nospace (s +:+ t) = nospace s && nospace t.
Proof. apply sforall_app. Qed.

Lemma py_split_cons w s : nospace w = true → w ≠ "" → py_split (w +:+ sp +:+ s) = w :: py_split s.
Proof. intros. by apply py_split_word_space. Qed.

Lemma split3 a b c :
  nospace a = true → a ≠ "" → nospace b = true → b ≠ "" → nospace c = true → c ≠ "" →
  py_split (a +:+ sp +:+ b +:+ sp +:+ c) = [a; b; c].
Proof. intros. by rewrite !py_split_cons, py_split_word. Qed.

Lemma emit_row_parse t0 f r :
  good_filename f → known_op r → parse_line (emit_row t0 f r) = Ok (Some (reread t0 r)).
Proof.
  intros [Hf Hne] Ho. unfold emit_row, parse_line, reread.
  pose proof (str_of_Z_nospace) as Hs. pose proof str_of_Z_nonempty as Hn.
  destruct (String.eqb_spec (op r) "datasync") as [Hd|Hd].
  - rewrite split3 by done. simpl. by rewrite int_of_str_of_Z.
  - assert (op r = "read" ∨ op r = "write") as Hop by (unfold known_op in Ho; set_solver).
    assert (nospace (op r) = true ∧ op r ≠ "") as [Ho1 Ho2] by (by destruct Hop as [-> | ->]).
    rewrite !py_split_cons, py_split_word by done.
    rewrite bool_decide_eq_true_2 by (destruct Hop as [-> | ->]; set_solver).
    by rewrite !int_of_str_of_Z.
Qed.

Lemma emit_row_oneline t0 f r :
  good_filename f → known_op r → oneline (emit_row t0 f r) = true.
Proof.
  intros [Hf Hne] Ho. unfold emit_row, oneline.
  pose proof (λ z, nospace_oneline _ (str_of_Z_nospace z)) as Hs. unfold oneline in Hs.
  pose proof (nospace_oneline _ Hf) as Hfo. unfold oneline in Hfo.
  assert (sforall (λ c, negb (is_linebreak c)) (op r) = true) as Hop.
  { unfold known_op in Ho. rewrite !elem_of_cons in Ho. destruct Ho as [-> |[-> |[-> |?]]]; [done..|set_solver]. }
  destruct (String.eqb (op r) "datasync"); by rewrite !sforall_app, !Hs, Hfo, ?Hop.
Qed.

(** The log as the list of its lines. *)
Lemma emit_iolog_lines rows f r0 rn text :
  head rows = Some r0 → last rows = Some rn →
  emit_iolog rows f = Ok text → good_filename f → Forall known_op rows →
  splitlines text = V3_HEADER :: ("0 " +:+ f +:+ " add") :: ("0 " +:+ f +:+ " open") ::
    map (emit_row (timestamp_ns r0) f) rows ++
    [str_of_Z (timestamp_us (timestamp_ns r0) rn) +:+ sp +:+ f +:+ sp +:+ "close"].
Proof.
  intros Hh Hl He Hf Hops. unfold emit_iolog in He. rewrite Hh, Hl in He.
  apply Ok_inj in He as <-. rewrite splitlines_join; [done| |done].
  pose proof (nospace_oneline _ (proj1 Hf)) as Hfo. unfold oneline in Hfo.
  repeat apply Forall_cons_2; [done|unfold oneline; by rewrite !sforall_app, Hfo..|].
  apply Forall_app_2.
  - apply Forall_map. eapply Forall_impl; [exact Hops|]. intros r Hr. by apply emit_row_oneline.
  - apply Forall_singleton. unfold oneline. rewrite !sforall_app, Hfo.
    pose proof (nospace_oneline _ (str_of_Z_nospace (timestamp_us (timestamp_ns r0) rn))) as Hz.
    unfold oneline in Hz. by rewrite Hz.
Qed.

Lemma parse_file_action t f a :
  good_filename f → a ∈ ["add"; "open"; "close"] →
  parse_line (str_of_Z t +:+ sp +:+ f +:+ sp +:+ a) = Ok None.
Proof.
  intros [Hf Hne] Ha. unfold parse_line.
  assert (nospace a = true ∧ a ≠ "") as [? ?].
  { rewrite !elem_of_cons in Ha. destruct Ha as [-> |[-> |[-> |?]]]; [done..|set_solver]. }
  rewrite split3 by (done || apply str_of_Z_nospace || apply str_of_Z_nonempty).
  by rewrite bool_decide_eq_true_2.
Qed.

Lemma mapMR_app {A B} (f : A → res B) l k :
  mapMR f (l ++ k) = x ← mapMR f l; y ← mapMR f k; Ok (x ++ y).
Proof.
  induction l as [|a l IH]; simpl; [by destruct (mapMR f k)|].
  destruct (f a); simpl; [|done]. rewrite IH. destruct (mapMR f l); simpl; [|done].
  by destruct (mapMR f k).
Qed.

Lemma mapMR_map_Ok {A B C} (f : B → res C) (g : A → B) (h : A → C) l :
  Forall (λ a, f (g a) = Ok (h a)) l → mapMR f (map g l) = Ok (map h l).
Proof. induction 1 as [|a l Ha _ IH]; simpl; [done|]. by rewrite Ha; simpl; rewrite IH. Qed.

(** Reading back an emitted log gives one command per row, in order. *)
Lemma parse_emit rows f text :
  emit_iolog rows f = Ok text → good_filename f → Forall known_op rows →
  ∃ r0, head rows = Some r0 ∧ parse_iolog text = Ok (map (reread (timestamp_ns r0)) rows).
Proof.
  intros He Hf Hops. destruct (head rows) as [r0|] eqn:Hh;
    [|unfold emit_iolog in He; by rewrite Hh in He].
  destruct (last rows) as [rn|] eqn:Hl; [|unfold emit_iolog in He; by rewrite Hh, Hl in He].
  exists r0. split; [done|]. unfold parse_iolog.
  rewrite (emit_iolog_lines rows f r0 rn text Hh Hl He Hf Hops).
  rewrite String.eqb_refl. cbn [mapMR].
  pose proof (parse_file_action 0 f "add" Hf ltac:(set_solver)) as Ha.
  pose proof (parse_file_action 0 f "open" Hf ltac:(set_solver)) as Ho.
  change ("0 " +:+ f +:+ " add") with (str_of_Z 0 +:+ sp +:+ f +:+ sp +:+ "add").
  change ("0 " +:+ f +:+ " open") with (str_of_Z 0 +:+ sp +:+ f +:+ sp +:+ "open").
  rewrite Ha, Ho. cbn [mbind res_bind].
  rewrite mapMR_app, (mapMR_map_Ok _ _ (Some ∘ reread (timestamp_ns r0))).
  - cbn [mapMR mbind res_bind]. rewrite parse_file_action by (done || set_solver).
    cbn [mbind res_bind]. f_equal. cbn [omap list_omap]. simpl.
    rewrite omap_app. simpl. rewrite app_nil_r.
    clear. induction rows as [|r rows IH]; [done|]. simpl. by f_equal.
  - eapply Forall_impl; [exact Hops|]. intros r Hr. by apply emit_row_parse.
Qed.

(** ** The loaded rows *)

(** The row of a supported command record, when its fields convert. *)
Definition row_of (i : nat) (record : dict) : option raw_row :=
  if negb (eq_str (getd record "event_type") "nvme_cmd") then None else
  match getd record "op_name" with
  | JStr o =>
      if negb (bool_decide (o ∈ SUPPORTED)) then None else
      let flush := String.eqb o "flush" in
      match py_int (default (JInt (Z.of_nat i)) (dget "seq" record)),
            py_int (getd record "ts"), py_int (default (JInt 0) (dget "slba" record)),
            (if flush then Ok 0 else py_int (getd record "bytes")) with
      | Ok s, Ok t, Ok l, Ok b =>
          Some {| rr_seq := s; rr_source_seq := i; rr_timestamp_ns := t;
                  rr_op := if flush then "datasync" else o; rr_slba := l; rr_length_bytes := b |}
      | _, _, _, _ => None
      end
  | _ => None
  end.

(** The supported commands of a capture, in file order. *)
Definition commands_of (records : list (Z * dict)) : list raw_row :=
  omap id (imap (λ i r, row_of i r.2) records).

Definition raw_ok (r : raw_row) : Prop :=
  0 ≤ rr_seq r ∧ 0 ≤ rr_timestamp_ns r ∧ 0 ≤ rr_slba r ∧
  (rr_op r = "datasync" ∧ rr_length_bytes r = 0 ∨
   rr_op r ∈ ["read"; "write"] ∧ 0 < rr_length_bytes r).

Definition loaded (pre : list (Z * dict)) (st : load_state) : Prop :=
  ls_rows st = commands_of pre ∧ Forall raw_ok (ls_rows st) ∧
  NoDup (map rr_seq (ls_rows st)) ∧
  (∀ s, s ∈ ls_seen_seq st ↔ s ∈ map rr_seq (ls_rows st)).

Lemma commands_of_snoc pre r :
  commands_of (pre ++ [r]) = commands_of pre ++ option_list (row_of (length pre) r.2).
Proof.
  unfold commands_of. rewrite imap_app, omap_app. simpl. rewrite Nat.add_0_r.
  by destruct (row_of (length pre) r.2).
Qed.

Lemma item_Ok d k v : item (JObj d) k = Ok v → getd d k = v.
Proof. simpl. unfold getd. destruct (dget k d); intros H; by res_inv. Qed.

(** A supported command contributes exactly its row. *)
Lemma load_cmd_Ok st i record o st' :
  eq_str (getd record "event_type") "nvme_cmd" = true → getd record "op_name" = JStr o →
  o ∈ SUPPORTED → load_cmd st i record o = Ok st' →
  ∃ r, row_of i record = Some r ∧ raw_ok r ∧ rr_seq r ∉ ls_seen_seq st ∧
       st' = {| ls_rows := ls_rows st ++ [r]; ls_metadata_lba := ls_metadata_lba st;
                ls_unsupported := ls_unsupported st; ls_seen_seq := rr_seq r :: ls_seen_seq st |}.
Proof.
  intros Hev Hop Ho H. unfold load_cmd in H.
  apply bind_Ok in H as (s & Hs & H). apply bind_Ok in H as (tsv & Htv & H).
  apply item_Ok in Htv. apply bind_Ok in H as (t & Ht & H). apply bind_Ok in H as (l & Hl & H).
  apply bind_Ok in H as (b & Hb & H). res_inv.
  apply bool_decide_eq_false in E. unfold row_of. rewrite Hev, Hop. cbn [negb].
  rewrite bool_decide_eq_true_2 by done. cbn [negb]. rewrite Hs, Ht, Hl.
  assert ((if String.eqb o "flush" then Ok 0 else py_int (getd record "bytes")) = Ok b) as ->.
  { destruct (String.eqb o "flush"); [done|]. apply bind_Ok in Hb as (bv & Hbv & Hb).
    apply item_Ok in Hbv. by rewrite Hbv. }
  eexists. split; [done|]. split; [|done].
  unfold raw_ok; simpl. split_and!; [lia..|].
  destruct (String.eqb_spec o "flush") as [->|Hne].
  - left. split; [done|]. by apply Ok_inj in Hb.
  - right. split; [unfold SUPPORTED in Ho; set_solver|]. simpl in E1. lia.
Qed.

Lemma loaded_unchanged pre r st st' :
  loaded pre st → row_of (length pre) r.2 = None →
  ls_rows st' = ls_rows st → ls_seen_seq st' = ls_seen_seq st → loaded (pre ++ [r]) st'.
Proof.
  intros (Hr & Hok & Hnd & Hs) Hn Er Es. unfold loaded. rewrite commands_of_snoc, Hn, Er, Es.
  simpl. by rewrite app_nil_r.
Qed.

Lemma load_step_inv pre r st st' :
  loaded pre st → load_step st (length pre) r = Ok st' → loaded (pre ++ [r]) st'.
Proof.
  intros Hl H. destruct r as [line record]. unfold load_step in H.
  destruct (eq_str (getd record "event_type") "capture_meta" &&
            negb (is_none (getd record "lba_bytes"))) eqn:Hm.
  - apply andb_true_iff in Hm as [Hm _]. apply eq_str_true in Hm.
    apply bind_Ok in H as (c & _ & H). res_inv. eapply loaded_unchanged; [done| |done..].
    unfold row_of. simpl. by rewrite Hm.
  - clear Hm. destruct (eq_str (getd record "event_type") "nvme_cmd") eqn:Hc.
    + destruct (negb (hashable (getd record "op_name"))) eqn:Hh; [done|].
      assert (row_of (length pre) record = None →
        ∀ u, loaded (pre ++ [(line, record)])
          {| ls_rows := ls_rows st; ls_metadata_lba := ls_metadata_lba st;
             ls_unsupported := u; ls_seen_seq := ls_seen_seq st |}) as Hun
        by (intros; by eapply loaded_unchanged).
      assert ((∀ o, getd record "op_name" = JStr o → o ∉ SUPPORTED) →
        row_of (length pre) record = None) as Hnone.
      { intros Hns. unfold row_of. rewrite Hc. simpl. destruct (getd record "op_name"); try done.
        by rewrite bool_decide_eq_false_2 by auto. }
      destruct (getd record "op_name") as [| | | |o| |] eqn:Hop;
        try (apply Ok_inj in H as <-; by apply Hun, Hnone).
      case_bool_decide as Ho; [|apply Ok_inj in H as <-; apply Hun, Hnone; naive_solver].
      destruct (load_cmd_Ok _ _ _ _ _ Hc Hop Ho H) as (rr & Hrow & Hok & Hseen & ->).
      destruct Hl as (Hr & Hoks & Hnd & Hs). unfold loaded. simpl.
      rewrite commands_of_snoc. simpl. rewrite Hrow, Hr in *. simpl. rewrite map_app.
      rewrite Hs in Hseen. split_and!; [done|by apply Forall_app_2, Forall_singleton|..].
      * apply NoDup_app. split; [done|]. split; [|apply NoDup_singleton]. set_solver.
      * intros s. rewrite elem_of_cons, Hs. set_solver.
    + apply Ok_inj in H as <-. eapply loaded_unchanged; [done| |done..].
      unfold row_of. simpl. by rewrite Hc.
Qed.

Lemma load_loop records st :
  foldiM load_step 0 load_init records = Ok st → loaded records st.
Proof.
  apply (foldiM_inv load_step loaded).
  - repeat split; simpl; try done. constructor.
  - intros pre r s1 s2 Hp _. by apply load_step_inv.
Qed.

(** The properties of one row of the result. *)
Definition row_ok (lba : Z) (r : row) : Prop :=
  known_op r ∧ 0 ≤ offset_bytes r ∧ offset_bytes r mod lba = 0 ∧
  0 ≤ length_bytes r ∧ length_bytes r mod lba = 0 ∧
  (op r = "datasync" ↔ length_bytes r = 0) ∧
  offset_bytes r + length_bytes r ≤ 2 ^ 64 - 1.

(** [finish_row] applied to a raw row. *)
Definition row_of_raw (lba : Z) (raw : raw_row) (r : row) : Prop :=
  seq r = rr_seq raw ∧ source_seq r = rr_source_seq raw ∧
  timestamp_ns r = rr_timestamp_ns raw ∧ op r = rr_op raw ∧
  offset_bytes r = rr_slba raw * lba ∧ length_bytes r = rr_length_bytes raw.

Lemma finish_row_Ok lba raw r :
  0 < lba → raw_ok raw → finish_row lba raw = Ok r → row_of_raw lba raw r ∧ row_ok lba r.
Proof.
  intros Hlba (_ & _ & Hs & Hop) H. unfold finish_row in H. res_inv.
  split; [by repeat split|]. unfold row_ok, known_op. simpl.
  assert (rr_slba raw * lba mod lba = 0) by (apply Z.mod_mul; lia).
  assert (0 ≤ rr_slba raw * lba) by nia.
  destruct Hop as [(Ho & Hl)|(Ho & Hl)].
  - rewrite Ho, Hl in *. split_and!; try done; [set_solver|lia].
  - assert (rr_op raw ≠ "datasync") as Hne.
    { intros Heq. rewrite Heq in Ho. by rewrite !elem_of_cons, elem_of_nil in Ho; destruct Ho as [|[]]. }
    destruct (String.eqb_spec (rr_op raw) "datasync"); [done|]. simpl in E.
    split_and!; try done; [set_solver|lia|lia| |lia].
    split; [done|lia].
Qed.

(** The result of [load_capture] on the records it loaded. *)
Record capture_rows (records : list (Z * dict)) (lba : Z) (rows : list row) : Prop := {
  cr_lba : ∃ k, 0 ≤ k ∧ lba = 2 ^ k;
  cr_sorted : ∃ raws, raws ≡ₚ commands_of records ∧ StronglySorted row_le raws ∧
                      Forall2 (row_of_raw lba) raws rows;
  cr_nonempty : rows ≠ [];
  cr_rows : Forall (row_ok lba) rows;
  cr_seqs : NoDup (map seq rows)
}.

Lemma Forall2_map_eq {A B C} (R : A → B → Prop) (f : A → C) (g : B → C) l k :
  (∀ a b, R a b → g b = f a) → Forall2 R l k → map g k = map f l.
Proof. intros HR. induction 1; simpl; [done|]. f_equal; auto. Qed.

Lemma finish_rows_Ok lba raws rows :
  0 < lba → Forall raw_ok raws → mapMR (finish_row lba) raws = Ok rows →
  Forall2 (row_of_raw lba) raws rows ∧ Forall (row_ok lba) rows.
Proof.
  intros Hlba Hok Hf. apply mapMR_Ok in Hf.
  induction Hf as [|raw r raws rows Hr Hrs IH]; [done|].
  apply Forall_cons in Hok as [Ho Hok]. destruct (IH Hok) as [? ?].
  destruct (finish_row_Ok _ _ _ Hlba Ho Hr). by split; constructor.
Qed.

Lemma load_capture_rows req ad au al lines rows meta :
  load_capture req ad au al lines = Ok (rows, meta) →
  ∃ records env, load_records lines = Ok records ∧ validate_envelope al records = Ok env ∧
    capture_rows records (cm_lba_bytes meta) rows ∧
    (env_drops env = 0 ∨ ad = true) ∧ cm_drops meta = env_drops env.
Proof.
  unfold load_capture. intros H.
  destruct (load_records lines) as [records|e]; [|destruct e as [[] ?]; cbn in H; discriminate H].
  cbn [mbind res_bind] in H.
  destruct (validate_envelope al records) as [env|e] eqn:Henv; [|destruct e as [[] ?]; cbn in H; discriminate H].
  cbn [mbind res_bind] in H. exists records, env. split; [done|]. split; [done|].
  apply bind_Ok in H as (st & Hst & H). apply load_loop in Hst as (Hr & Hok & Hnd & _).
  apply bind_Ok in H as ([] & Hdrop & H). apply raise_if_Ok in Hdrop.
  apply bind_Ok in H as ([] & _ & H).
  destruct (match req with Some z => Some z | None => ls_metadata_lba st end) as [lba|]; [|done].
  apply bind_Ok in H as ([] & Hp2 & H). apply raise_unless_Ok in Hp2. apply pow2b_spec in Hp2.
  apply bind_Ok in H as ([] & _ & H). apply bind_Ok in H as ([] & Hne & H).
  apply raise_if_Ok in Hne. apply bind_Ok in H as (rows' & Hrows & H).
  apply Ok_inj in H as [= -> <-]. simpl.
  assert (0 < lba) as Hlba by (destruct Hp2 as (k & ? & ->); lia).
  pose proof (stable_sort_Permutation row_le (ls_rows st)) as Hperm.
  assert (Forall raw_ok (stable_sort row_le (ls_rows st))) as Hok' by (by rewrite Hperm).
  destruct (finish_rows_Ok lba _ rows Hlba Hok' Hrows) as [HF2 Hrok].
  split; [|split; [|done]].
  - constructor; [done| | |done|].
    + exists (stable_sort row_le (ls_rows st)). rewrite <- Hr. split; [done|].
      split; [apply (StronglySorted_stable_sort _)|done].
    + intros ->. apply Forall2_nil_inv_r in HF2. rewrite HF2 in Hperm.
      symmetry in Hperm. apply Permutation_nil_r in Hperm. by rewrite Hperm in Hne.
    + rewrite (Forall2_map_eq (row_of_raw lba) rr_seq seq _ _ ltac:(by intros ?? []) HF2).
      by rewrite Hperm.
  - destruct (Z.eqb_spec (env_drops env) 0); [by left|right]. by destruct ad.
Qed.

(** ** Properties *)

(** when [load_capture] returns, the rows are exactly the supported
    commands of the loaded records, sorted by timestamp, then command
    sequence number, then file position, with the block address scaled by a
    power-of-two block size; every row is aligned to the block size, ends
    inside an unsigned 64-bit device, carries a length unless it is a flush,
    no sequence number repeats, and a capture that dropped events is refused
    unless the caller allowed it. *)
Theorem load_capture_correct req ad au al lines rows meta :
  load_capture req ad au al lines = Ok (rows, meta) →
  ∃ records env, load_records lines = Ok records ∧ validate_envelope al records = Ok env ∧
    capture_rows records (cm_lba_bytes meta) rows ∧
    (env_drops env = 0 ∨ ad = true) ∧ cm_drops meta = env_drops env.
Proof. apply load_capture_rows. Qed.

Definition ex_rows : list row :=
  match load_capture None false false false ex_lines with Ok (r, _) => r | Raise _ => [] end.
Definition ex_cmeta : capture_meta :=
  match load_capture None false false false ex_lines with
  | Ok (_, m) => m
  | Raise _ => {| cm_lba_bytes := 0; cm_drops := 0; cm_unsupported_omitted := 0;
                  cm_schema_version := None; cm_scope := None |}
  end.

Lemma ex_load : load_capture None false false false ex_lines = Ok (ex_rows, ex_cmeta).
Proof. vm_compute. reflexivity. Qed.

Lemma load_capture_correct_witness :
  ∃ records env, load_records ex_lines = Ok records ∧ validate_envelope false records = Ok env ∧
    capture_rows records 512 ex_rows ∧ (env_drops env = 0 ∨ false = true) ∧ 0 = env_drops env.
Proof.
  exact (load_capture_correct None false false false ex_lines ex_rows ex_cmeta ex_load).
Defined.

(** What a faithful log says about a row: same operation and range, and a
    microsecond timestamp that is the floor of the relative nanoseconds. *)
Definition faithful (t0 : Z) (r : row) (c : command) : Prop :=
  let '(t, o, off, len) := c in
  o = op r ∧ (op r ≠ "datasync" → off = offset_bytes r ∧ len = length_bytes r) ∧
  0 ≤ (timestamp_ns r - t0) - 1000 * t < 1000.

Lemma reread_faithful t0 r : faithful t0 r (reread t0 r).
Proof.
  unfold faithful, reread, expected_command, timestamp_us.
  pose proof (Z_div_floor_error (timestamp_ns r - t0) 1000 ltac:(lia)).
  destruct (String.eqb_spec (op r) "datasync"); naive_solver.
Qed.

Lemma emit_iolog_total rows f : rows ≠ [] → ∃ text, emit_iolog rows f = Ok text.
Proof.
  intros Hne. unfold emit_iolog. destruct rows as [|r rows]; [done|]. simpl head.
  destruct (last (r :: rows)) eqn:Hl; [by eexists|].
  apply last_None in Hl. done.
Qed.

(** C33: for a non-empty list of rows and a device name without whitespace,
    [emit_iolog] produces a log that [parse_iolog] reads back as one command
    per row, in order, with the same operation and byte range and a timestamp
    that loses less than one microsecond. *)
Theorem iolog_roundtrip rows f :
  rows ≠ [] → good_filename f → Forall known_op rows →
  ∃ text r0 commands, emit_iolog rows f = Ok text ∧ head rows = Some r0 ∧
    parse_iolog text = Ok commands ∧ Forall2 (faithful (timestamp_ns r0)) rows commands.
Proof.
  intros Hne Hf Hops. destruct (emit_iolog_total rows f Hne) as [text Ht].
  destruct (parse_emit rows f text Ht Hf Hops) as (r0 & Hh & Hp).
  exists text, r0, (map (reread (timestamp_ns r0)) rows). split_and!; [done..|].
  clear. induction rows as [|r rows IH]; constructor; [apply reread_faithful|exact IH].
Qed.

Lemma iolog_roundtrip_witness :
  ∃ text r0 commands, emit_iolog ex_rows "/dev/nvme0n1" = Ok text ∧ head ex_rows = Some r0 ∧
    parse_iolog text = Ok commands ∧ Forall2 (faithful (timestamp_ns r0)) ex_rows commands.
Proof.
  apply (iolog_roundtrip ex_rows "/dev/nvme0n1"); [by vm_compute|by split|].
  vm_compute. repeat constructor.
Defined.

Lemma reread_expected t0 r :
  (op r = "datasync" → length_bytes r = 0) →
  (reread t0 r = expected_command t0 r ↔ (op r = "datasync" → offset_bytes r = 0)).
Proof.
  intros Hlen. unfold reread, expected_command, timestamp_us.
  destruct (String.eqb_spec (op r) "datasync") as [Hd|Hd]; [|naive_solver].
  rewrite (Hlen Hd), Hd. split; [intros [= H]; done|]. intros H. by rewrite H.
Qed.

Lemma map_ext_iff {A B} (f g : A → B) l : map f l = map g l ↔ Forall (λ x, f x = g x) l.
Proof.
  induction l as [|x l IH]; simpl; [by split; [constructor|]|].
  rewrite Forall_cons, <- IH. split; [by intros [= ? ?]|by intros [-> ->]].
Qed.

Section certificate_props.
Context (sha256 : string → string).

(** for the rows of a loaded capture and a device name without
    whitespace, the log is emitted and the translation certificate is issued
    if and only if every flush of the capture has block address zero; in
    particular the internal check never fails on reads and writes. *)
Theorem certificate_issued_iff req ad au al lines rows meta f bytes :
  load_capture req ad au al lines = Ok (rows, meta) → good_filename f →
  ∃ iolog, emit_iolog rows f = Ok iolog ∧
    (is_ok (translation_certificate sha256 rows iolog bytes meta) = true ↔
     Forall (λ r, op r = "datasync" → offset_bytes r = 0) rows).
Proof.
  intros Hload Hf.
  destruct (load_capture_rows _ _ _ _ _ _ _ Hload) as (recs & env & _ & _ & Hcr & _).
  destruct (emit_iolog_total rows f (cr_nonempty _ _ _ Hcr)) as [iolog Hio].
  assert (Forall known_op rows) as Hops
    by (eapply Forall_impl; [exact (cr_rows _ _ _ Hcr)|]; by intros r []).
  destruct (parse_emit rows f iolog Hio Hf Hops) as (r0 & Hh & Hp).
  exists iolog. split; [done|]. unfold translation_certificate. rewrite Hh, Hp.
  cbn [mbind res_bind].
  assert (bool_decide (map (reread (timestamp_ns r0)) rows =
    map (expected_command (timestamp_ns r0)) rows) = true ↔
    Forall (λ r, op r = "datasync" → offset_bytes r = 0) rows) as Hiff.
  { rewrite bool_decide_eq_true, map_ext_iff.
    rewrite !Forall_forall. pose proof (cr_rows _ _ _ Hcr) as Hrok. rewrite Forall_forall in Hrok.
    split; intros H r Hr; apply (reread_expected (timestamp_ns r0)); try by apply H.
    all: destruct (Hrok r Hr) as (_ & _ & _ & _ & _ & Hd & _); by apply Hd. }
  rewrite <- Hiff. by destruct (bool_decide _).
Qed.
End certificate_props.

Lemma certificate_issued_iff_witness :
  ∃ iolog, emit_iolog ex_rows "/dev/nvme0n1" = Ok iolog ∧
    (is_ok (translation_certificate (λ _, "00") ex_rows iolog "" ex_cmeta) = true ↔
     Forall (λ r, op r = "datasync" → offset_bytes r = 0) ex_rows).
Proof.
  apply (certificate_issued_iff (λ _, "00") None false false false ex_lines ex_rows ex_cmeta
    "/dev/nvme0n1" ""); [exact ex_load|by split].
Defined.

(** A capture whose flush carries a block address. *)
Definition flush_lines : list string := map q2
  ["{'event_type':'capture_meta','schema_version':1,'emitter':'nvme_tp_monitor','disk_filter':true,'lba_bytes':512,'disk':'nvme0n1'}";
   "{'event_type':'nvme_cmd','op_name':'flush','seq':0,'ts':1000,'slba':8,'disk':'nvme0n1','nsid':1}";
   "{'event_type':'drops','dropped':0}"].

(** a complete capture whose flush command carries a non-zero [slba] is
    loaded without complaint but cannot be exported: the converter stops with
    its internal translation check, because the row keeps the flush's block
    address as an offset while a fio datasync line has none. *)
Theorem flush_slba_not_exportable sha :
  is_ok (load_capture None false false false flush_lines) = true ∧
  convert sha None false false false "/dev/nvme0n1" None flush_lines "" =
    Raise (cerr "internal translation validation failed").
Proof. split; vm_compute; reflexivity. Qed.
