(* ===== verification/Intent.v ===== *)
(** * Logical KV-offload intents and their lowering ([tools/kvio/intent.py])

    A [kvio.intent.v1] document lists the store and load operations of a
    KV-offload run in one canonical order.  The file models the builder, the
    validator, the lowering into target commands, the digest and the check of
    a target plan, on JSON values as the source does. *)

From stdpp Require Import prelude strings list numbers.
From Stdlib Require Import ZArith Lia Ascii.
From S2P Require Import Prelude PyText PyJson JsonText.
Local Open Scope Z_scope.

Definition SCHEMA : string := "kvio.intent.v1".
Definition PLAN_SCHEMA : string := "kvio.intent-plan.v1".

Definition ierr (m : string) : exn := Exn IntentError m.

Definition _positive (value : json) : res Z :=
  match value with
  | JInt z => if z <=? 0 then Raise (ierr "{where} must be a positive integer") else Ok z
  | _ => Raise (ierr "{where} must be a positive integer")
  end.

Definition _nonnegative (value : json) : res Z :=
  match value with
  | JInt z => if z <? 0 then Raise (ierr "{where} must be a non-negative integer") else Ok z
  | _ => Raise (ierr "{where} must be a non-negative integer")
  end.

(** [f"pass={..}/stream={..}/chunk={..}/rank={..}"] *)
Definition object_name (pass stream chunk rank : json) : string :=
  "pass=" +:+ py_str pass +:+ "/stream=" +:+ py_str stream +:+
  "/chunk=" +:+ py_str chunk +:+ "/rank=" +:+ py_str rank.

(** The coordinates of an operation in the loop nest of the builder. *)
Record coord := { c_pass : Z; c_store : bool; c_stream : Z; c_chunk : Z; c_rank : Z }.

Definition phase_name (store : bool) : string := if store then "store" else "load".

(** [range(n)] *)
Definition range (n : Z) : list Z := seqZ 0 n.

(** The loop nest: passes, the two phases, streams, chunks, ranks. *)
Definition coords (passes streams num_chunks ranks : Z) : list coord :=
  pass_index ← range passes;
  phase ← [true; false];
  stream ← range streams;
  chunk_index ← range num_chunks;
  kv_rank ← range ranks;
  [{| c_pass := pass_index; c_store := phase; c_stream := stream;
      c_chunk := chunk_index; c_rank := kv_rank |}].

(** The dictionary appended for one operation. *)
Definition build_op (payload_bytes ranks_per_chunk warmup : Z) (sequence : nat) (c : coord) : json :=
  JObj [("sequence", JInt (Z.of_nat sequence));
        ("pass", JInt (c_pass c));
        ("phase", JStr (phase_name (c_store c)));
        ("stream", JInt (c_stream c));
        ("stream_sequence", JInt (c_chunk c * ranks_per_chunk + c_rank c));
        ("logical_object", JStr (object_name (JInt (c_pass c)) (JInt (c_stream c))
                                   (JInt (c_chunk c)) (JInt (c_rank c))));
        ("chunk_index", JInt (c_chunk c));
        ("kv_rank", JInt (c_rank c));
        ("payload_bytes", JInt payload_bytes);
        ("timed", JBool (warmup <=? c_pass c))].

Definition EVIDENCE : json :=
  JObj [("logical_operations", JStr "derived-from-model-geometry");
        ("timing", JStr "not-recorded"); ("device_io", JStr "not-recorded")].

(** [validate_intent], the checks on one operation. *)
Definition check_operation (payload warmup streams chunks ranks : Z)
    (sequence : nat) (operation : json) : res unit :=
  match operation with
  | JObj o =>
      let s := Z.of_nat sequence in
      raise_unless (py_eq (getd o "sequence") (JInt s)) (ierr "{where}.sequence must be canonical") ;;
      let expected_pass := s / (2 * streams * chunks * ranks) in
      let within_pass := s mod (2 * streams * chunks * ranks) in
      let expected_phase := if within_pass <? streams * chunks * ranks then "store" else "load" in
      let within_phase := within_pass mod (streams * chunks * ranks) in
      let expected_stream := within_phase / (chunks * ranks) in
      let within_stream := within_phase mod (chunks * ranks) in
      let expected_chunk := within_stream / ranks in
      let expected_rank := within_stream mod ranks in
      raise_unless (eq_str (getd o "phase") expected_phase)
        (ierr "{where}.phase is not in the v1 execution order") ;;
      let pass_index := getd o "pass" in
      raise_unless (py_eq pass_index (JInt expected_pass))
        (ierr "{where}.pass is not in the v1 execution order") ;;
      let stream := getd o "stream" in
      raise_unless (py_eq stream (JInt expected_stream))
        (ierr "{where}.stream is not in the v1 execution order") ;;
      let chunk_index := getd o "chunk_index" in
      let rank := getd o "kv_rank" in
      raise_unless (py_eq chunk_index (JInt expected_chunk))
        (ierr "{where}.chunk_index is not in the v1 execution order") ;;
      raise_unless (py_eq rank (JInt expected_rank))
        (ierr "{where}.kv_rank is not in the v1 execution order") ;;
      prod ← py_mul chunk_index (JInt ranks);
      ss ← py_add prod rank;
      raise_unless (py_eq (getd o "stream_sequence") ss)
        (ierr "{where}.stream_sequence disagrees with object identity") ;;
      let expected_object := object_name pass_index stream chunk_index rank in
      raise_unless (eq_str (getd o "logical_object") expected_object)
        (ierr "{where}.logical_object is not canonical") ;;
      raise_unless (py_eq (getd o "payload_bytes") (JInt payload))
        (ierr "{where}.payload_bytes disagrees with object payload") ;;
      raise_unless (match getd o "timed" with
                    | JBool b => Bool.eqb b (py_geb pass_index (JInt warmup)) | _ => false end)
        (ierr "{where}.timed disagrees with execution.warmup")
  | _ => Raise (ierr "{where}.sequence must be canonical")
  end.

Definition nonempty_str (v : json) : bool :=
  match v with JStr s => negb (String.eqb s "") | _ => false end.

(** The parameters of a validated intent that the operation checks use. *)
Definition check_model (model : json) : res unit :=
  match model with
  | JObj m =>
      raise_unless (nonempty_str (getd m "name")) (ierr "model.name must be a non-empty string") ;;
      raise_unless (nonempty_str (getd m "dtype")) (ierr "model.dtype must be a non-empty string") ;;
      _positive (getd m "chunk_tokens") ;;
      raise_unless (is_dict (getd m "geometry")) (ierr "model.geometry must be an object")
  | _ => Raise (ierr "model.name must be a non-empty string")
  end.

Definition check_object (obj : json) : res (Z * Z) :=
  match obj with
  | JObj o =>
      payload ← _positive (getd o "payload_bytes");
      _nonnegative (getd o "store_metadata_bytes") ;;
      ranks ← _positive (getd o "ranks_per_chunk");
      Ok (payload, ranks)
  | _ => Raise (ierr "object must be an object")
  end.

(** Returns [(num_chunks, streams, iters, warmup)]. *)
Definition check_execution (execution : json) : res (Z * Z * Z * Z) :=
  match execution with
  | JObj x =>
      chunks ← _positive (getd x "num_chunks");
      streams ← _positive (getd x "streams");
      iters ← _positive (getd x "iters");
      warmup ← match getd x "warmup" with
               | JInt w => if w <? 0 then Raise (ierr "execution.warmup must be a non-negative integer")
                           else Ok w
               | _ => Raise (ierr "execution.warmup must be a non-negative integer")
               end;
      raise_unless (py_eq (getd x "phase_order") (JList [JStr "store"; JStr "load"]))
        (ierr "execution.phase_order must be ['store', 'load']") ;;
      raise_unless (eq_str (getd x "cross_stream_order") "unordered-within-phase")
        (ierr "execution.cross_stream_order must preserve v1 partial ordering") ;;
      Ok (chunks, streams, iters, warmup)
  | _ => Raise (ierr "execution must be an object")
  end.

(** The loop over the operations, indexed from [i]. *)
Fixpoint check_operations (payload warmup streams chunks ranks : Z) (i : nat)
    (operations : list json) : res unit :=
  match operations with
  | [] => Ok tt
  | o :: os => check_operation payload warmup streams chunks ranks i o ;;
               check_operations payload warmup streams chunks ranks (S i) os
  end.

Definition validate_intent (intent : json) : res unit :=
  match intent with
  | JObj d =>
      raise_unless (eq_str (getd d "schema") SCHEMA)
        (ierr "unsupported intent schema: {intent.get('schema')!r}") ;;
      raise_unless (eq_str (getd d "kind") "kv-offload") (ierr "intent kind must be 'kv-offload'") ;;
      raise_unless (is_dict (getd d "evidence") && py_eq (getd d "evidence") EVIDENCE)
        (ierr "intent evidence must preserve the v1 modeled boundary") ;;
      check_model (getd d "model") ;;
      pr ← check_object (getd d "object");
      let '(payload, ranks) := pr in
      x ← check_execution (getd d "execution");
      let '(chunks, streams, iters, warmup) := x in
      let expected := (warmup + iters) * 2 * streams * chunks * ranks in
      match getd d "operations" with
      | JList operations =>
          raise_unless (Z.of_nat (length operations) =? expected)
            (ierr "operations must contain exactly {expected} entries") ;;
          check_operations payload warmup streams chunks ranks 0 operations
      | _ => Raise (ierr "operations must contain exactly {expected} entries")
      end
  | _ => Raise (ierr "intent root must be an object")
  end.

Definition build_kv_offload_intent (model geometry dtype : json)
    (chunk_tokens payload_bytes ranks_per_chunk num_chunks streams iters warmup
     store_metadata_bytes : json) : res json :=
  ct ← _positive chunk_tokens; pb ← _positive payload_bytes;
  rk ← _positive ranks_per_chunk; nc ← _positive num_chunks;
  sm ← _positive streams; it ← _positive iters;
  _nonnegative store_metadata_bytes ;;
  match warmup with
  | JInt w =>
      raise_if (w <? 0) (ierr "warmup must be a non-negative integer") ;;
      let operations := imap (build_op pb rk w) (coords (w + it) sm nc rk) in
      let intent := JObj [
        ("schema", JStr SCHEMA);
        ("kind", JStr "kv-offload");
        ("evidence", EVIDENCE);
        ("model", JObj [("name", model); ("dtype", dtype);
                        ("chunk_tokens", chunk_tokens); ("geometry", geometry)]);
        ("object", JObj [("payload_bytes", payload_bytes);
                         ("store_metadata_bytes", store_metadata_bytes);
                         ("ranks_per_chunk", ranks_per_chunk)]);
        ("execution", JObj [("num_chunks", num_chunks); ("streams", streams);
                            ("iters", iters); ("warmup", warmup);
                            ("phase_order", JList [JStr "store"; JStr "load"]);
                            ("cross_stream_order", JStr "unordered-within-phase")]);
        ("operations", JList operations)] in
      validate_intent intent ;; Ok intent
  | _ => Raise (ierr "warmup must be a non-negative integer")
  end.

(** ** Lowering *)

(** The command dictionary of one fragment. *)
Definition command_of (operation : json) (component : string) (command_index : Z)
    (offset size : json) : res json :=
  sq ← item operation "sequence";
  lo ← item operation "logical_object";
  ph ← item operation "phase";
  Ok (JObj [("logical_sequence", sq); ("logical_object", lo); ("op", ph);
            ("component", JStr component); ("command_index", JInt command_index);
            ("component_offset_bytes", offset); ("bytes", size)]).

(** [while remaining: ...]: the fragments of one component. *)
Fixpoint fragments (fuel : nat) (operation : json) (component : string) (effective : Z)
    (command_index : Z) (offset remaining : json) : res (list json * Z) :=
  if negb (py_true remaining) then Ok ([], command_index) else
  match fuel with
  | O => Raise (Exn OutOfFuel "while remaining")
  | S fuel =>
      let size := py_min remaining (JInt effective) in
      cmd ← command_of operation component command_index offset size;
      remaining' ← py_sub remaining size;
      offset' ← py_add offset size;
      rest ← fragments fuel operation component effective (command_index + 1) offset' remaining';
      Ok (cmd :: rest.1, rest.2)
  end.

(** Fuel for a component: one fragment per byte is always enough. *)
Definition component_fuel (size : json) : nat :=
  match py_int size with Ok z => S (Z.to_nat z) | Raise _ => O end.

Fixpoint lower_components (operation : json) (effective : Z) (command_index : Z)
    (components : list (string * json)) : res (list json) :=
  match components with
  | [] => Ok []
  | (component, size) :: cs =>
      f ← fragments (component_fuel size) operation component effective command_index (JInt 0) size;
      rest ← lower_components operation effective f.2 cs;
      Ok (f.1 ++ rest)
  end.

(** The commands of one operation. *)
Definition lower_operation (metadata : json) (effective : Z) (operation : json) : res (list json) :=
  ph ← item operation "phase";
  pb ← item operation "payload_bytes";
  lower_components operation effective 0
    ((if eq_str ph "store" && py_true metadata then [("metadata", metadata)] else [])
     ++ [("payload", pb)]).

(** Optional limit: recorded only when it is given. *)
Definition opt_limit (name : string) (v : json) : res (list (string * json)) :=
  if is_none v then Ok [] else z ← _positive v; Ok [(name, JInt z)].

Definition min_values (m : Z) (limits : list (string * json)) : Z :=
  fold_left (λ acc kv, match kv.2 with JInt z => Z.min acc z | _ => acc end) limits m.

Section lowering.
(** [hashlib.sha256(data).hexdigest()] *)
Variable sha256 : string → string.

Definition intent_sha256 (intent : json) : res string :=
  validate_intent intent ;; Ok (sha256 (dumps Compact intent)).

Definition PLAN_EVIDENCE : string := "modeled-target-command-plan-not-device-measurement".

Definition lower_intent (intent mdts_bytes dma_ceiling_bytes software_limit_bytes : json)
    : res json :=
  validate_intent intent ;;
  mdts ← _positive mdts_bytes;
  dma ← opt_limit "dma_ceiling_bytes" dma_ceiling_bytes;
  soft ← opt_limit "software_limit_bytes" software_limit_bytes;
  let limits := ("mdts_bytes", JInt mdts) :: dma ++ soft in
  let effective := min_values mdts (dma ++ soft) in
  ops ← item intent "operations";
  obj ← item intent "object";
  metadata ← item obj "store_metadata_bytes";
  match ops with
  | JList operations =>
      commands ← mapMR (lower_operation metadata effective) operations;
      payloads ← mapMR (λ o, item o "payload_bytes") operations;
      logical_bytes ← foldM py_add (JInt 0) payloads;
      digest ← intent_sha256 intent;
      let commands := concat commands in
      Ok (JObj [
        ("schema", JStr PLAN_SCHEMA);
        ("intent_sha256", JStr digest);
        ("evidence", JStr PLAN_EVIDENCE);
        ("target_limits", JObj limits);
        ("effective_command_bytes", JInt effective);
        ("summary", JObj [("logical_operations", JInt (Z.of_nat (length operations)));
                          ("logical_bytes", logical_bytes);
                          ("commands", JInt (Z.of_nat (length commands)))]);
        ("commands", JList commands)])
  | _ => Raise (Exn TypeError "operations is not iterable")
  end.

Definition LIMIT_NAMES : list string :=
  ["mdts_bytes"; "dma_ceiling_bytes"; "software_limit_bytes"].

Definition validate_target_plan (plan intent : json) : res unit :=
  match plan with
  | JObj p =>
      raise_unless (eq_str (getd p "schema") PLAN_SCHEMA)
        (ierr "target plan must use kvio.intent-plan.v1") ;;
      raise_unless (eq_str (getd p "evidence") PLAN_EVIDENCE)
        (ierr "target plan must preserve the modeled evidence label") ;;
      digest ← intent_sha256 intent;
      raise_unless (eq_str (getd p "intent_sha256") digest)
        (ierr "target plan does not bind to this intent") ;;
      match getd p "target_limits" with
      | JObj limits =>
          raise_unless (forallb (λ k, bool_decide (k ∈ LIMIT_NAMES)) (keys limits))
            (ierr "target plan has invalid target limits") ;;
          expected ← lower_intent intent (getd limits "mdts_bytes")
            (getd limits "dma_ceiling_bytes") (getd limits "software_limit_bytes");
          raise_unless (py_eq plan expected)
            (ierr "target plan is not the exact lowering of this intent")
      | _ => Raise (ierr "target plan has invalid target limits")
      end
  | _ => Raise (ierr "target plan must use kvio.intent-plan.v1")
  end.
End lowering.

Definition ex_intent : res json :=
  build_kv_offload_intent (JStr "m") (JObj []) (JStr "bf16") (JInt 256) (JInt 10) (JInt 2)
    (JInt 2) (JInt 2) (JInt 1) (JInt 1) (JInt 4).

Example ex_intent_ok : is_ok ex_intent = true.
Proof. vm_compute. reflexivity. Qed.

Example ex_lower_ok : is_ok (i ← ex_intent; lower_intent (λ _, "00") i (JInt 4) JNull (JInt 3)) = true.
Proof. vm_compute. reflexivity. Qed.

(** ** The canonical order *)
Lemma range_lookup n i : 0 ≤ i < n → range n !! Z.to_nat i = Some i.
Proof. intros Hi. apply lookup_seqZ. lia. Qed.

Lemma length_range n : length (range n) = Z.to_nat n.
Proof. apply length_seqZ. Qed.

(** Row-major lookup in [for x in range(n): ...] whose body yields [k] items. *)
Lemma lookup_range_bind {B} (f : Z → list B) n k s :
  (∀ x, length (f x) = Z.to_nat k) → 0 < k → 0 ≤ s < n * k →
  (range n ≫= f) !! Z.to_nat s = f (s / k) !! Z.to_nat (s mod k).
Proof.
  intros Hk Hpos Hs.
  assert (0 ≤ s / k < n) as Hd by (split; [apply Z.div_pos; lia|apply Z.div_lt_upper_bound; lia]).
  pose proof (Z.mod_pos_bound s k Hpos) as Hm.
  replace (Z.to_nat s) with (Z.to_nat (s / k) * Z.to_nat k + Z.to_nat (s mod k))%nat.
  - rewrite (lookup_bind_const f (Z.to_nat k)) by (done || lia).
    by rewrite range_lookup.
  - rewrite <- Z2Nat.inj_mul, <- Z2Nat.inj_add by nia. f_equal.
    pose proof (Z.div_mod s k). lia.
Qed.

Lemma length_range_bind {B} (f : Z → list B) n k :
  (∀ x, length (f x) = Z.to_nat k) → 0 ≤ n → 0 ≤ k →
  length (range n ≫= f) = Z.to_nat (n * k).
Proof.
  intros Hk Hn Hk0. rewrite (length_bind_const f (Z.to_nat k)) by done.
  by rewrite length_range, <- Z2Nat.inj_mul.
Qed.

(** The coordinates of operation [s], as the validator computes them. *)
Definition coord_at (streams chunks ranks s : Z) : coord :=
  let within_pass := s mod (2 * streams * chunks * ranks) in
  let within_phase := within_pass mod (streams * chunks * ranks) in
  let within_stream := within_phase mod (chunks * ranks) in
  {| c_pass := s / (2 * streams * chunks * ranks);
     c_store := within_pass <? streams * chunks * ranks;
     c_stream := within_phase / (chunks * ranks);
     c_chunk := within_stream / ranks;
     c_rank := within_stream mod ranks |}.

Section canonical.
Context (passes streams chunks ranks : Z).
Context (Hp : 0 ≤ passes) (Hs : 0 < streams) (Hc : 0 < chunks) (Hr : 0 < ranks).

Let rank_loop (p : Z) (ph : bool) (s c : Z) : list coord :=
  r ← range ranks; [{| c_pass := p; c_store := ph; c_stream := s; c_chunk := c; c_rank := r |}].
Let chunk_loop p ph s := c ← range chunks; rank_loop p ph s c.
Let stream_loop p ph := s ← range streams; chunk_loop p ph s.
Let phase_loop p := ph ← [true; false]; stream_loop p ph.

Lemma length_rank_loop p ph s c : length (rank_loop p ph s c) = Z.to_nat ranks.
Proof. unfold rank_loop. rewrite (length_range_bind _ _ 1) by (done || lia). f_equal. lia. Qed.

Lemma length_chunk_loop p ph s : length (chunk_loop p ph s) = Z.to_nat (chunks * ranks).
Proof. apply length_range_bind; [intros; apply length_rank_loop|lia..]. Qed.

Lemma length_stream_loop p ph : length (stream_loop p ph) = Z.to_nat (streams * chunks * ranks).
Proof.
  rewrite <- Z.mul_assoc. apply length_range_bind; [intros; apply length_chunk_loop|lia|nia].
Qed.

Lemma length_phase_loop p : length (phase_loop p) = Z.to_nat (2 * streams * chunks * ranks).
Proof.
  unfold phase_loop. simpl. rewrite app_nil_r, length_app, !length_stream_loop.
  rewrite <- Z2Nat.inj_add by nia. f_equal. ring.
Qed.

Lemma length_coords :
  length (coords passes streams chunks ranks) = Z.to_nat (passes * 2 * streams * chunks * ranks).
Proof.
  change (coords passes streams chunks ranks) with (range passes ≫= phase_loop).
  rewrite (length_range_bind _ _ (2 * streams * chunks * ranks));
    [f_equal; ring|apply length_phase_loop|done|nia].
Qed.

Lemma lookup_stream_loop p ph w :
  0 ≤ w < streams * chunks * ranks →
  stream_loop p ph !! Z.to_nat w =
    Some {| c_pass := p; c_store := ph; c_stream := w / (chunks * ranks);
            c_chunk := w mod (chunks * ranks) / ranks; c_rank := w mod (chunks * ranks) mod ranks |}.
Proof.
  intros Hw. assert (0 < chunks * ranks) as Hcr by nia.
  unfold stream_loop. rewrite (lookup_range_bind _ streams (chunks * ranks));
    [|intros; apply length_chunk_loop|done|rewrite Z.mul_assoc; lia].
  pose proof (Z.mod_pos_bound w (chunks * ranks) Hcr) as Hm. unfold chunk_loop.
  rewrite (lookup_range_bind _ chunks ranks); [|intros; apply length_rank_loop|done|done].
  set (x := w mod (chunks * ranks)). pose proof (Z.mod_pos_bound x ranks Hr) as Hx.
  unfold rank_loop. rewrite (lookup_range_bind _ ranks 1); [|done|lia|lia].
  by rewrite Z.mod_1_r, Z.div_1_r.
Qed.

Lemma lookup_coords s :
  0 ≤ s < passes * 2 * streams * chunks * ranks →
  coords passes streams chunks ranks !! Z.to_nat s = Some (coord_at streams chunks ranks s).
Proof.
  intros Hbound. assert (0 < streams * chunks * ranks) as Hk by nia.
  change (coords passes streams chunks ranks) with (range passes ≫= phase_loop).
  rewrite (lookup_range_bind _ passes (2 * streams * chunks * ranks));
    [|apply length_phase_loop|nia|nia].
  unfold coord_at. set (w := s mod (2 * streams * chunks * ranks)).
  assert (0 ≤ w < 2 * streams * chunks * ranks) as Hw by (apply Z.mod_pos_bound; nia).
  unfold phase_loop. simpl. rewrite app_nil_r. destruct (Z.ltb_spec w (streams * chunks * ranks)) as [Hl|Hl].
  - rewrite lookup_app_l by (rewrite length_stream_loop; lia).
    rewrite lookup_stream_loop by lia. by rewrite (Z.mod_small w (streams * chunks * ranks)) by lia.
  - rewrite lookup_app_r by (rewrite length_stream_loop; lia). rewrite length_stream_loop.
    rewrite <- Z2Nat.inj_sub by lia.
    assert (w - streams * chunks * ranks = w mod (streams * chunks * ranks)) as ->.
    { apply (Z.mod_unique_pos _ _ 1); lia. }
    apply lookup_stream_loop. apply Z.mod_pos_bound. lia.
Qed.
End canonical.

(** ** What the validator accepts *)

(** [v == z] for a number read from JSON. *)
Definition num_is (v : json) (z : Z) : Prop := py_eq v (JInt z) = true.

Lemma num_is_int z : num_is (JInt z) z.
Proof. unfold num_is. rewrite py_eq_int_int. apply Z.eqb_refl. Qed.

(** The fields of an operation agree with its coordinates. *)
Record op_agrees (payload warmup ranks : Z) (s : nat) (c : coord) (o : dict) : Prop := {
  oa_sequence : num_is (getd o "sequence") (Z.of_nat s);
  oa_phase : getd o "phase" = JStr (phase_name (c_store c));
  oa_pass : num_is (getd o "pass") (c_pass c);
  oa_stream : num_is (getd o "stream") (c_stream c);
  oa_chunk : num_is (getd o "chunk_index") (c_chunk c);
  oa_rank : num_is (getd o "kv_rank") (c_rank c);
  oa_object : getd o "logical_object" =
    JStr (object_name (getd o "pass") (getd o "stream") (getd o "chunk_index") (getd o "kv_rank"));
  oa_payload : num_is (getd o "payload_bytes") payload;
  oa_timed : getd o "timed" = JBool (py_geb (getd o "pass") (JInt warmup))
}.

Lemma check_operation_agrees payload warmup streams chunks ranks s operation :
  check_operation payload warmup streams chunks ranks s operation = Ok tt →
  ∃ o, operation = JObj o ∧
       op_agrees payload warmup ranks s (coord_at streams chunks ranks (Z.of_nat s)) o.
Proof.
  destruct operation as [| | | | | |o]; try done. unfold check_operation. intros H.
  exists o. split; [done|]. repeat (apply bind_Ok in H as (? & ? & H)). res_inv.
  unfold coord_at, num_is. constructor; simpl; try done.
  - match goal with E : eq_str (getd o "phase") _ = true |- _ => apply eq_str_true in E; rewrite E end.
    by destruct (_ <? _).
  - by match goal with E : eq_str (getd o "logical_object") _ = true |- _ => apply eq_str_true in E end.
  - destruct (getd o "timed"); try done. apply Bool.eqb_prop in H. by subst.
Qed.

Lemma check_operations_lookup payload warmup streams chunks ranks i ops :
  check_operations payload warmup streams chunks ranks i ops = Ok tt ↔
  ∀ k o, ops !! k = Some o → check_operation payload warmup streams chunks ranks (i + k) o = Ok tt.
Proof.
  revert i. induction ops as [|o ops IH]; intros i; [done|]. simpl. split.
  - intros H. apply bind_Ok in H as ([] & Ho & H). intros [|k] o' Hk; simpl in Hk.
    + injection Hk as <-. by rewrite Nat.add_0_r.
    + rewrite Nat.add_succ_r. by apply (proj1 (IH (S i)) H k).
  - intros H. pose proof (H 0%nat o eq_refl) as H0. rewrite Nat.add_0_r in H0. rewrite H0. simpl.
    apply IH. intros k o' Hk. replace (S i + k)%nat with (i + S k)%nat by lia. by apply H.
Qed.

(** An operation built for its coordinates passes the checks. *)
Lemma check_build_op payload warmup streams chunks ranks s :
  check_operation payload warmup streams chunks ranks s
    (build_op payload ranks warmup s (coord_at streams chunks ranks (Z.of_nat s))) = Ok tt.
Proof.
  unfold build_op, check_operation, coord_at. cbn [c_pass c_store c_stream c_chunk c_rank].
  getd_simpl. rewrite !py_eq_int_int, !Z.eqb_refl. cbn [raise_unless mbind res_bind].
  unfold phase_name.
  assert (∀ b : bool, eq_str (JStr (if b then "store" else "load")) (if b then "store" else "load") = true)
    as -> by (by intros []).
  cbn [raise_unless mbind res_bind py_mul py_arith int_val py_add].
  unfold py_mul, py_add, py_arith. cbn [int_val mbind res_bind].
  rewrite py_eq_int_int, Z.eqb_refl. cbn [raise_unless mbind res_bind].
  simpl eq_str. rewrite String.eqb_refl, py_geb_int. cbn [raise_unless mbind res_bind].
  by rewrite Bool.eqb_reflx.
Qed.

Lemma _positive_Ok v z : _positive v = Ok z ↔ v = JInt z ∧ 0 < z.
Proof.
  destruct v; simpl; try (split; [done|by intros []]).
  destruct (Z.leb_spec z0 0); split; [done|intros [[=->] ?]; lia|by intros [= ->]|by intros [[=->] ?]].
Qed.

Lemma _nonnegative_Ok v z : _nonnegative v = Ok z ↔ v = JInt z ∧ 0 ≤ z.
Proof.
  destruct v; simpl; try (split; [done|by intros []]).
  destruct (Z.ltb_spec z0 0); split; [done|intros [[=->] ?]; lia|by intros [= ->]|by intros [[=->] ?]].
Qed.

(** The parameters a validated intent declares. *)
Record params := {
  pm_payload : Z; pm_metadata : Z; pm_ranks : Z; pm_chunks : Z;
  pm_streams : Z; pm_iters : Z; pm_warmup : Z
}.

Definition params_ok (p : params) : Prop :=
  0 < pm_payload p ∧ 0 ≤ pm_metadata p ∧ 0 < pm_ranks p ∧ 0 < pm_chunks p ∧
  0 < pm_streams p ∧ 0 < pm_iters p ∧ 0 ≤ pm_warmup p.

Definition op_count (p : params) : Z :=
  (pm_warmup p + pm_iters p) * 2 * pm_streams p * pm_chunks p * pm_ranks p.

(** [intent] declares the parameters [p] and lists the operations [ops]. *)
Record declares (intent : json) (p : params) (ops : list json) : Prop := {
  dc_root : ∃ d, intent = JObj d ∧ getd d "operations" = JList ops ∧
    ∃ m o x, getd d "model" = JObj m ∧ getd d "object" = JObj o ∧ getd d "execution" = JObj x ∧
    getd o "payload_bytes" = JInt (pm_payload p) ∧
    getd o "store_metadata_bytes" = JInt (pm_metadata p) ∧
    getd o "ranks_per_chunk" = JInt (pm_ranks p) ∧
    getd x "num_chunks" = JInt (pm_chunks p) ∧ getd x "streams" = JInt (pm_streams p) ∧
    getd x "iters" = JInt (pm_iters p) ∧ getd x "warmup" = JInt (pm_warmup p);
  dc_params : params_ok p
}.

Lemma check_object_Ok v payload ranks :
  check_object v = Ok (payload, ranks) →
  ∃ o md, v = JObj o ∧ getd o "payload_bytes" = JInt payload ∧ 0 < payload ∧
    getd o "store_metadata_bytes" = JInt md ∧ 0 ≤ md ∧
    getd o "ranks_per_chunk" = JInt ranks ∧ 0 < ranks.
Proof.
  destruct v as [| | | | | |o]; try done. unfold check_object. intros H.
  apply bind_Ok in H as (p & Hp & H). apply bind_Ok in H as (m & Hm & H).
  apply bind_Ok in H as (r & Hr & H). apply Ok_inj in H as [= <- <-].
  apply _positive_Ok in Hp as []. apply _positive_Ok in Hr as []. apply _nonnegative_Ok in Hm as [].
  by exists o, m.
Qed.

Lemma check_execution_Ok v chunks streams iters warmup :
  check_execution v = Ok (chunks, streams, iters, warmup) →
  ∃ x, v = JObj x ∧ getd x "num_chunks" = JInt chunks ∧ 0 < chunks ∧
    getd x "streams" = JInt streams ∧ 0 < streams ∧ getd x "iters" = JInt iters ∧ 0 < iters ∧
    getd x "warmup" = JInt warmup ∧ 0 ≤ warmup.
Proof.
  destruct v as [| | | | | |x]; try done. unfold check_execution. intros H.
  apply bind_Ok in H as (c & Hc & H). apply bind_Ok in H as (s & Hs & H).
  apply bind_Ok in H as (i & Hi & H). apply bind_Ok in H as (w & Hw & H). res_inv.
  apply _positive_Ok in Hc as []. apply _positive_Ok in Hs as []. apply _positive_Ok in Hi as [].
  destruct (getd x "warmup") as [| |w0| | | |] eqn:Ew; try done. destruct (Z.ltb_spec w0 0); [done|].
  apply Ok_inj in Hw as ->. injection H as <- <- <- <-. exists x. by rewrite Ew.
Qed.

Lemma validate_intent_declares intent :
  validate_intent intent = Ok tt →
  ∃ p ops, declares intent p ops ∧ Z.of_nat (length ops) = op_count p ∧
    ∀ s op, ops !! s = Some op →
      check_operation (pm_payload p) (pm_warmup p) (pm_streams p) (pm_chunks p) (pm_ranks p) s op = Ok tt.
Proof.
  destruct intent as [| | | | | |d]; try done. unfold validate_intent. intros H.
  apply bind_Ok in H as ([] & _ & H). apply bind_Ok in H as ([] & _ & H).
  apply bind_Ok in H as ([] & _ & H). apply bind_Ok in H as ([] & Hm & H).
  apply bind_Ok in H as ([payload ranks] & Ho & H).
  apply bind_Ok in H as ([[[chunks streams] iters] warmup] & Hx & H).
  destruct (check_object_Ok _ _ _ Ho) as (o & md & Eo & ? & ? & ? & ? & ? & ?).
  destruct (check_execution_Ok _ _ _ _ _ Hx) as (x & Ex & ? & ? & ? & ? & ? & ? & ? & ?).
  destruct (getd d "operations") as [| | | | |ops|] eqn:Eops; try done.
  apply bind_Ok in H as ([] & Hlen & H). apply raise_unless_Ok, Z.eqb_eq in Hlen.
  destruct (getd d "model") as [| | | | | |m] eqn:Em; try done.
  exists {| pm_payload := payload; pm_metadata := md; pm_ranks := ranks; pm_chunks := chunks;
            pm_streams := streams; pm_iters := iters; pm_warmup := warmup |}, ops.
  split; [|split; [done|exact (proj1 (check_operations_lookup _ _ _ _ _ 0 _) H)]].
  constructor; [|by unfold params_ok; simpl].
  exists d. split; [done|]. split; [done|]. by exists m, o, x.
Qed.

(** C34: for valid parameters the builder returns a document that its own
    validator accepts, whose operations are the canonical enumeration: there
    are [(warmup + iters) * 2 * streams * chunks * ranks] of them, and the
    operation at position [s] is the one whose pass, phase, stream, chunk and
    rank the validator computes from [s] by division and remainder. *)
Theorem build_intent_canonical name dtype geometry chunk_tokens p :
  name ≠ "" → dtype ≠ "" → 0 < chunk_tokens → params_ok p →
  ∃ intent ops,
    build_kv_offload_intent (JStr name) (JObj geometry) (JStr dtype) (JInt chunk_tokens)
      (JInt (pm_payload p)) (JInt (pm_ranks p)) (JInt (pm_chunks p)) (JInt (pm_streams p))
      (JInt (pm_iters p)) (JInt (pm_warmup p)) (JInt (pm_metadata p)) = Ok intent ∧
    validate_intent intent = Ok tt ∧ declares intent p ops ∧
    Z.of_nat (length ops) = op_count p ∧
    ∀ s, (s < length ops)%nat →
      ops !! s = Some (build_op (pm_payload p) (pm_ranks p) (pm_warmup p) s
                         (coord_at (pm_streams p) (pm_chunks p) (pm_ranks p) (Z.of_nat s))).
Proof.
  intros Hn Hd Hct Hok. pose proof Hok as (Hpay & Hmd & Hr & Hc & Hs & Hi & Hw).
  destruct p as [payload md ranks chunks streams iters warmup]; simpl in *.
  set (ops := imap (build_op payload ranks warmup) (coords (warmup + iters) streams chunks ranks)).
  assert (Z.of_nat (length ops) = (warmup + iters) * 2 * streams * chunks * ranks) as Hlen.
  { unfold ops. rewrite length_imap, length_coords by lia. rewrite Z2Nat.id; nia. }
  assert (∀ s, (s < length ops)%nat → ops !! s = Some (build_op payload ranks warmup s
    (coord_at streams chunks ranks (Z.of_nat s)))) as Hlook.
  { intros s Hlt.
    assert (coords (warmup + iters) streams chunks ranks !! s
            = Some (coord_at streams chunks ranks (Z.of_nat s))) as Hco
      by (rewrite <- (Nat2Z.id s) at 1; apply lookup_coords; lia).
    unfold ops. by rewrite list_lookup_imap, Hco. }
  assert (check_operations payload warmup streams chunks ranks 0 ops = Ok tt) as Hchk.
  { apply check_operations_lookup. intros k o Hk.
    pose proof (lookup_lt_Some _ _ _ Hk) as Hlt. rewrite Hlook in Hk by done.
    injection Hk as <-. apply check_build_op. }
  assert (∀ z, 0 < z → _positive (JInt z) = Ok z) as Hpos by (intros; by apply _positive_Ok).
  assert (∀ z, 0 ≤ z → _nonnegative (JInt z) = Ok z) as Hnn by (intros; by apply _nonnegative_Ok).
  unfold build_kv_offload_intent. rewrite !Hpos, !Hnn by lia. cbn [mbind res_bind].
  destruct (Z.ltb_spec warmup 0); [lia|]. cbn [raise_if mbind res_bind]. fold ops.
  match goal with |- context [validate_intent ?i] => set (intent := i) end.
  assert (validate_intent intent = Ok tt) as Hval.
  { unfold intent, validate_intent. getd_simpl.
    change (eq_str (JStr SCHEMA) SCHEMA) with true.
    change (eq_str (JStr "kv-offload") "kv-offload") with true.
    change (is_dict EVIDENCE && py_eq EVIDENCE EVIDENCE) with true.
    unfold check_model, check_object, check_execution. getd_simpl.
    rewrite !Hpos, !Hnn by lia. cbn [nonempty_str raise_unless mbind res_bind is_dict].
    destruct (String.eqb_spec name ""); [done|]. destruct (String.eqb_spec dtype ""); [done|].
    cbn [negb raise_unless mbind res_bind]. destruct (Z.ltb_spec warmup 0); [lia|].
    change (py_eq (JList [JStr "store"; JStr "load"]) (JList [JStr "store"; JStr "load"])) with true.
    change (eq_str (JStr "unordered-within-phase") "unordered-within-phase") with true.
    cbn [raise_unless mbind res_bind]. by rewrite Hlen, Z.eqb_refl. }
  rewrite Hval. exists intent, ops. split; [done|]. split; [done|]. split; [|by split].
  constructor; [|done]. eexists. split; [reflexivity|]. getd_simpl. split; [done|].
  eexists _, _, _. split_and!; reflexivity.
Qed.

Lemma build_intent_canonical_witness :
  ∃ intent ops,
    build_kv_offload_intent (JStr "m") (JObj []) (JStr "bf16") (JInt 256)
      (JInt 10) (JInt 2) (JInt 2) (JInt 2) (JInt 1) (JInt 1) (JInt 4) = Ok intent ∧
    validate_intent intent = Ok tt ∧
    declares intent (Build_params 10 4 2 2 2 1 1) ops ∧
    Z.of_nat (length ops) = 32 ∧
    ∀ s, (s < length ops)%nat →
      ops !! s = Some (build_op 10 2 1 s (coord_at 2 2 2 (Z.of_nat s))).
Proof.
  apply (build_intent_canonical "m" "bf16" [] 256 (Build_params 10 4 2 2 2 1 1));
    [done|done|lia|unfold params_ok; simpl; lia].
Defined.

(** every document [validate_intent] accepts declares positive sizes and
    lists exactly the canonical schedule: the right number of operations, and
    at each position an operation whose fields are numerically equal to the
    coordinates of that position, whose object name is spelled from its own
    fields, and whose [timed] flag separates the warm-up passes. *)
Theorem validate_intent_canonical intent :
  validate_intent intent = Ok tt →
  ∃ p ops, declares intent p ops ∧ Z.of_nat (length ops) = op_count p ∧
    ∀ s op, ops !! s = Some op → ∃ o, op = JObj o ∧
      op_agrees (pm_payload p) (pm_warmup p) (pm_ranks p) s
        (coord_at (pm_streams p) (pm_chunks p) (pm_ranks p) (Z.of_nat s)) o.
Proof.
  intros (p & ops & Hd & Hl & Hops)%validate_intent_declares.
  exists p, ops. split; [done|]. split; [done|]. intros s op Hs.
  by apply (check_operation_agrees _ _ _ _ _ _ _ (Hops s op Hs)).
Qed.

Definition ex_intent_doc : json := match ex_intent with Ok i => i | Raise _ => JNull end.

Lemma validate_intent_canonical_witness :
  ∃ p ops, declares ex_intent_doc p ops ∧ Z.of_nat (length ops) = op_count p ∧
    ∀ s op, ops !! s = Some op → ∃ o, op = JObj o ∧
      op_agrees (pm_payload p) (pm_warmup p) (pm_ranks p) s
        (coord_at (pm_streams p) (pm_chunks p) (pm_ranks p) (Z.of_nat s)) o.
Proof. apply (validate_intent_canonical ex_intent_doc). vm_compute. reflexivity. Defined.

(** A one-object intent whose load spells its pass as [false]. *)
Definition bool_pass_intent : json :=
  let op seq phase pass :=
    JObj [("sequence", JInt seq); ("pass", pass); ("phase", JStr phase); ("stream", JInt 0);
          ("stream_sequence", JInt 0);
          ("logical_object", JStr (object_name pass (JInt 0) (JInt 0) (JInt 0)));
          ("chunk_index", JInt 0); ("kv_rank", JInt 0); ("payload_bytes", JInt 4096);
          ("timed", JBool true)] in
  JObj [("schema", JStr SCHEMA); ("kind", JStr "kv-offload"); ("evidence", EVIDENCE);
        ("model", JObj [("name", JStr "m"); ("dtype", JStr "bf16");
                        ("chunk_tokens", JInt 256); ("geometry", JObj [])]);
        ("object", JObj [("payload_bytes", JInt 4096); ("store_metadata_bytes", JInt 0);
                         ("ranks_per_chunk", JInt 1)]);
        ("execution", JObj [("num_chunks", JInt 1); ("streams", JInt 1); ("iters", JInt 1);
                            ("warmup", JInt 0);
                            ("phase_order", JList [JStr "store"; JStr "load"]);
                            ("cross_stream_order", JStr "unordered-within-phase")]);
        ("operations", JList [op 0 "store" (JInt 0); op 1 "load" (JBool false)])].

(** The object names of the operations of one phase. *)
Definition objects_of (phase : string) (intent : json) : list json :=
  match intent with
  | JObj d => match getd d "operations" with
              | JList ops => omap (λ o, match o with
                  | JObj f => if eq_str (getd f "phase") phase
                              then Some (getd f "logical_object") else None
                  | _ => None end) ops
              | _ => []
              end
  | _ => []
  end.

(** ** The lowering in closed form *)

(** The sizes of the commands that transfer [total] bytes: full commands of
    [eff] bytes and the remainder, if there is one. *)
Definition split_sizes (eff total : Z) : list Z :=
  replicate (Z.to_nat (total / eff)) eff ++ (if total mod eff =? 0 then [] else [total mod eff]).

Definition command_dict (o : dict) (component : string) (idx off size : Z) : json :=
  JObj [("logical_sequence", getd o "sequence"); ("logical_object", getd o "logical_object");
        ("op", getd o "phase"); ("component", JStr component); ("command_index", JInt idx);
        ("component_offset_bytes", JInt off); ("bytes", JInt size)].

(** The commands of one component: numbered from [idx], back to back from
    offset 0. *)
Definition component_commands (o : dict) (component : string) (eff idx total : Z) : list json :=
  imap (λ k, command_dict o component (idx + Z.of_nat k) (Z.of_nat k * eff)) (split_sizes eff total).

(** The commands of an operation: for a store the metadata first, then the
    payload, numbered consecutively. *)
Definition operation_commands (eff metadata payload : Z) (op : json) : list json :=
  match op with
  | JObj o =>
      let m := if eq_str (getd o "phase") "store"
               then component_commands o "metadata" eff 0 metadata else [] in
      m ++ component_commands o "payload" eff (Z.of_nat (length m)) payload
  | _ => []
  end.

Lemma split_sizes_step eff total :
  0 < eff → 0 < total →
  split_sizes eff total = Z.min total eff :: split_sizes eff (total - Z.min total eff).
Proof.
  intros He Ht. unfold split_sizes. destruct (Z_lt_le_dec total eff) as [Hlt|Hle].
  - rewrite Z.min_l, Z.sub_diag, Z.div_small, Z.mod_small, Z.div_0_l, Z.mod_0_l by lia.
    destruct (Z.eqb_spec total 0); [lia|done].
  - rewrite Z.min_r by lia.
    assert (total / eff = 1 + (total - eff) / eff) as ->.
    { replace total with ((total - eff) + 1 * eff) at 1 by lia. rewrite Z.div_add by lia. lia. }
    assert ((total - eff) mod eff = total mod eff) as ->.
    { replace (total - eff) with (total + (-1) * eff) by lia. by rewrite Z.mod_add by lia. }
    assert (0 ≤ (total - eff) / eff) by (apply Z.div_pos; lia).
    by rewrite Z2Nat.inj_add by lia.
Qed.

Lemma split_sizes_0 eff : 0 < eff → split_sizes eff 0 = [].
Proof. intros. unfold split_sizes. by rewrite Z.div_0_l, Z.mod_0_l by lia. Qed.

(** The pieces are positive, no larger than the limit, and sum to the total. *)
Lemma split_sizes_spec eff total :
  0 < eff → 0 ≤ total →
  Forall (λ z, 0 < z ≤ eff) (split_sizes eff total) ∧ foldr Z.add 0 (split_sizes eff total) = total.
Proof.
  intros He. revert total. apply (Zlt_0_ind (λ total, Forall (λ z, 0 < z ≤ eff) (split_sizes eff total)
    ∧ foldr Z.add 0 (split_sizes eff total) = total)).
  intros total IH Ht. destruct (decide (total = 0)) as [->|Hne]; [by rewrite split_sizes_0|].
  rewrite split_sizes_step by lia. destruct (IH (total - Z.min total eff)) as [IH1 IH2]; [lia|].
  split; [constructor; [lia|done]|]. simpl. lia.
Qed.

(** The three fields every command copies are present. *)
Definition has_fields (o : dict) : Prop :=
  item (JObj o) "sequence" = Ok (getd o "sequence") ∧
  item (JObj o) "logical_object" = Ok (getd o "logical_object") ∧
  item (JObj o) "phase" = Ok (getd o "phase").

Lemma command_of_dict o component idx off size :
  has_fields o →
  command_of (JObj o) component idx (JInt off) (JInt size) = Ok (command_dict o component idx off size).
Proof. intros (H1 & H2 & H3). unfold command_of. by rewrite H1, H2, H3. Qed.

Lemma fragments_split fuel o component eff idx off total :
  has_fields o → 0 < eff → 0 ≤ total ≤ Z.of_nat fuel →
  fragments fuel (JObj o) component eff idx (JInt off) (JInt total) =
  Ok (imap (λ k, command_dict o component (idx + Z.of_nat k) (off + Z.of_nat k * eff))
        (split_sizes eff total), idx + Z.of_nat (length (split_sizes eff total))).
Proof.
  intros Hf He. revert idx off total. induction fuel as [|fuel IH]; intros idx off total Ht.
  { assert (total = 0) as -> by lia. rewrite split_sizes_0 by done. simpl. by rewrite Z.add_0_r. }
  destruct (decide (total = 0)) as [->|Hne].
  { rewrite split_sizes_0 by done. simpl. by rewrite Z.add_0_r. }
  assert (py_true (JInt total) = true) as Htrue
    by (simpl; destruct (Z.eqb_spec total 0); [lia|done]).
  cbn [fragments]. rewrite Htrue, py_min_int. cbn [negb]. rewrite command_of_dict by done.
  unfold py_sub, py_add, py_arith. cbn [int_val mbind res_bind].
  rewrite IH by lia. cbn [mbind res_bind fst snd].
  rewrite (split_sizes_step eff total) by lia. rewrite imap_cons. f_equal. f_equal; [|simpl length; lia].
  f_equal; [f_equal; lia|]. apply imap_ext. intros k x Hk. simpl. f_equal; [lia|].
  destruct (Z_lt_le_dec total eff) as [Hlt|]; [|lia]. exfalso.
  rewrite Z.min_l, Z.sub_diag, split_sizes_0 in Hk by lia. done.
Qed.

Lemma component_fuel_enough total : 0 ≤ total → total ≤ Z.of_nat (component_fuel (JInt total)).
Proof. intros. unfold component_fuel. simpl. lia. Qed.

Lemma lower_operation_closed eff metadata payload o :
  has_fields o → item (JObj o) "payload_bytes" = Ok (JInt payload) →
  0 < eff → 0 ≤ metadata → 0 ≤ payload →
  lower_operation (JInt metadata) eff (JObj o) = Ok (operation_commands eff metadata payload (JObj o)).
Proof.
  intros Hf Hp He Hm Hpl. pose proof Hf as (_ & _ & Hph). unfold lower_operation, operation_commands.
  rewrite Hph, Hp. cbn [mbind res_bind].
  assert (∀ c idx total rest, 0 ≤ total →
    lower_components (JObj o) eff idx ((c, JInt total) :: rest) =
    r ← lower_components (JObj o) eff (idx + Z.of_nat (length (component_commands o c eff idx total))) rest;
    Ok (component_commands o c eff idx total ++ r)) as Hstep.
  { intros c idx total rest Ht. cbn [lower_components].
    rewrite fragments_split by (first [done|pose proof (component_fuel_enough total); lia]).
    cbn [mbind res_bind fst snd]. unfold component_commands. by rewrite length_imap. }
  destruct (eq_str _ _); simpl andb.
  - destruct (decide (metadata = 0)) as [->|Hne].
    + unfold component_commands at 1 2. rewrite split_sizes_0 by done.
      cbn [py_true Z.eqb negb app]. rewrite Hstep by done. simpl. by rewrite app_nil_r.
    + simpl py_true. destruct (Z.eqb_spec metadata 0); [lia|]. cbn [negb app].
      rewrite Hstep by done. rewrite Hstep by done. simpl. by rewrite app_nil_r.
  - cbn [app]. rewrite Hstep by done. simpl. by rewrite app_nil_r.
Qed.

Definition opt_json (v : option Z) : json := match v with Some z => JInt z | None => JNull end.

(** The smallest of the limits that are given. *)
Definition effective_limit (mdts : Z) (dma soft : option Z) : Z :=
  Z.min (Z.min mdts (default mdts dma)) (default mdts soft).

Definition limit_ok (v : option Z) : Prop := match v with Some z => 0 < z | None => True end.

Lemma opt_limit_json name v :
  limit_ok v → opt_limit name (opt_json v) = Ok (match v with Some z => [(name, JInt z)] | None => [] end).
Proof. destruct v as [z|]; simpl; intros Hz; [|done]. unfold opt_limit. simpl. destruct (Z.leb_spec z 0); [lia|done]. Qed.

Lemma item_getd o k : getd o k ≠ JNull → item (JObj o) k = Ok (getd o k).
Proof. unfold getd, item. by destruct (dget k o). Qed.

Lemma num_is_not_null v z : num_is v z → v ≠ JNull.
Proof. by intros H ->. Qed.

Lemma op_agrees_has_fields payload warmup ranks s c o :
  op_agrees payload warmup ranks s c o → has_fields o.
Proof.
  intros [H1 H2 _ _ _ _ H3 _ _].
  split; [|split]; apply item_getd; [by eapply num_is_not_null|rewrite H3|rewrite H2]; done.
Qed.

(** Every operation of the list spells its payload as an integer. *)
Definition int_payloads (payload : Z) (ops : list json) : Prop :=
  Forall (λ op, get op "payload_bytes" = Ok (JInt payload)) ops.

Lemma foldM_add_const payload n acc :
  foldM py_add (JInt acc) (replicate n (JInt payload)) = Ok (JInt (acc + Z.of_nat n * payload)).
Proof.
  revert acc. induction n as [|n IH]; intros acc; [simpl; by rewrite Z.add_0_r|].
  cbn [replicate foldM]. change (py_add (JInt acc) (JInt payload)) with (Ok (JInt (acc + payload))).
  cbn [mbind res_bind]. rewrite IH. f_equal. f_equal. lia.
Qed.

Lemma mapMR_const {A B} (f : A → res B) (b : B) l :
  Forall (λ x, f x = Ok b) l → mapMR f l = Ok (replicate (length l) b).
Proof. induction 1 as [|x l Hx _ IH]; [done|]. simpl. by rewrite Hx, IH. Qed.

Lemma mapMR_Forall {A B} (f : A → res B) (g : A → B) l :
  Forall (λ x, f x = Ok (g x)) l → mapMR f l = Ok (map g l).
Proof. induction 1 as [|x l Hx _ IH]; [done|]. simpl. by rewrite Hx, IH. Qed.

Section lowering_correct.
Variable sha256 : string → string.
Variables (intent : json) (p : params) (ops : list json).
Hypothesis Hval : validate_intent intent = Ok tt.
Hypothesis Hdecl : declares intent p ops.
Hypothesis Hint : int_payloads (pm_payload p) ops.

Lemma validated_ops_agree :
  Forall (λ op, ∃ s c o, op = JObj o ∧ op_agrees (pm_payload p) (pm_warmup p) (pm_ranks p) s c o) ops.
Proof using Hval Hdecl.
  clear Hint. destruct (validate_intent_declares _ Hval) as (p' & ops' & Hd' & _ & Hops).
  destruct Hdecl as [(d & -> & Eops & m & o & x & Em & Eo & Ex & H1 & H2 & H3 & H4 & H5 & H6 & H7) _].
  destruct Hd' as [(d' & Ed & Eops' & m' & o' & x' & Em' & Eo' & Ex' & H1' & H2' & H3' & H4' & H5' & H6' & H7') _].
  injection Ed as <-. assert (ops' = ops) as -> by congruence.
  assert (o' = o) as -> by congruence. assert (x' = x) as -> by congruence.
  assert (p' = p) as -> by (destruct p, p'; simpl in *; congruence).
  apply Forall_lookup. intros s op Hs.
  destruct (check_operation_agrees _ _ _ _ _ _ _ (Hops s op Hs)) as (q & -> & Hq). eauto.
Qed.

Lemma lower_operations_closed eff :
  0 < eff →
  mapMR (lower_operation (JInt (pm_metadata p)) eff) ops =
  Ok (map (operation_commands eff (pm_metadata p) (pm_payload p)) ops).
Proof using Hval Hdecl Hint.
  intros He. apply mapMR_Forall. pose proof (dc_params _ _ _ Hdecl) as (? & ? & _).
  pose proof validated_ops_agree as Ha. unfold int_payloads in Hint. rewrite Forall_forall in Ha, Hint |- *.
  intros op Hop. destruct (Ha op Hop) as (s & c & o & -> & Hag). specialize (Hint _ Hop).
  simpl in Hint. apply Ok_inj in Hint.
  apply lower_operation_closed; [by eapply op_agrees_has_fields| |done|lia|lia].
  rewrite <- Hint. apply item_getd. by rewrite Hint.
Qed.

Lemma payloads_const : mapMR (λ o, item o "payload_bytes") ops = Ok (replicate (length ops) (JInt (pm_payload p))).
Proof using Hval Hdecl Hint.
  apply mapMR_const. pose proof validated_ops_agree as Ha. unfold int_payloads in Hint.
  rewrite Forall_forall in Ha, Hint |- *. intros op Hop. destruct (Ha op Hop) as (s & c & o & -> & _).
  specialize (Hint _ Hop). simpl in Hint. apply Ok_inj in Hint. rewrite <- Hint.
  apply item_getd. by rewrite Hint.
Qed.
End lowering_correct.

Lemma lower_intent_closed sha256 intent p ops mdts dma soft :
  validate_intent intent = Ok tt → declares intent p ops → int_payloads (pm_payload p) ops →
  0 < mdts → limit_ok dma → limit_ok soft →
  let eff := effective_limit mdts dma soft in
  let commands := concat (map (operation_commands eff (pm_metadata p) (pm_payload p)) ops) in
  ∃ plan, lower_intent sha256 intent (JInt mdts) (opt_json dma) (opt_json soft) = Ok (JObj plan) ∧
    getd plan "effective_command_bytes" = JInt eff ∧
    getd plan "commands" = JList commands ∧
    getd plan "summary" = JObj [("logical_operations", JInt (Z.of_nat (length ops)));
                                ("logical_bytes", JInt (Z.of_nat (length ops) * pm_payload p));
                                ("commands", JInt (Z.of_nat (length commands)))] ∧
    getd plan "intent_sha256" = JStr (sha256 (dumps Compact intent)).
Proof.
  intros Hval Hdecl Hint Hm Hd Hs eff commands. unfold lower_intent.
  assert (0 < eff) as He by (unfold eff, effective_limit; destruct dma, soft; simpl in *; lia).
  rewrite Hval. cbn [mbind res_bind].
  rewrite (proj2 (_positive_Ok (JInt mdts) mdts)) by done. cbn [mbind res_bind].
  rewrite !opt_limit_json by done. cbn [mbind res_bind].
  assert (min_values mdts (match dma with Some z => [("dma_ceiling_bytes", JInt z)] | None => [] end
    ++ match soft with Some z => [("software_limit_bytes", JInt z)] | None => [] end) = eff) as ->.
  { unfold eff, effective_limit, min_values. destruct dma, soft; simpl; lia. }
  pose proof (lower_operations_closed intent p ops Hval Hdecl Hint eff He) as Hlo.
  pose proof (payloads_const intent p ops Hval Hdecl Hint) as Hpl.
  destruct Hdecl as [(d & -> & Eops & m & o & x & Em & Eo & Ex & _ & Hmd & _) _].
  rewrite (item_getd d "operations"), Eops, (item_getd d "object"), Eo by congruence. cbn [mbind res_bind].
  rewrite (item_getd o "store_metadata_bytes"), Hmd by congruence. cbn [mbind res_bind].
  rewrite Hlo, Hpl. cbn [mbind res_bind]. rewrite foldM_add_const. cbn [mbind res_bind].
  unfold intent_sha256. rewrite Hval. cbn [mbind res_bind].
  eexists. split; [reflexivity|]. getd_simpl. by split_and!.
Qed.

(** lowering a validated intent is total.  Every command carries at most
    the smallest given limit; the commands are, operation by operation, the
    metadata of a store and then the payload, each cut into full commands and
    one remainder laid back to back from offset 0, numbered consecutively; the
    summary counts them and the plan is bound to the digest of the intent. *)
Theorem lower_intent_closed_form sha256 intent p ops mdts dma soft :
  validate_intent intent = Ok tt → declares intent p ops → int_payloads (pm_payload p) ops →
  0 < mdts → limit_ok dma → limit_ok soft →
  let eff := effective_limit mdts dma soft in
  let commands := concat (map (operation_commands eff (pm_metadata p) (pm_payload p)) ops) in
  ∃ plan, lower_intent sha256 intent (JInt mdts) (opt_json dma) (opt_json soft) = Ok (JObj plan) ∧
    getd plan "effective_command_bytes" = JInt eff ∧
    getd plan "commands" = JList commands ∧
    getd plan "summary" = JObj [("logical_operations", JInt (Z.of_nat (length ops)));
                                ("logical_bytes", JInt (Z.of_nat (length ops) * pm_payload p));
                                ("commands", JInt (Z.of_nat (length commands)))] ∧
    getd plan "intent_sha256" = JStr (sha256 (dumps Compact intent)).
Proof. apply lower_intent_closed. Qed.

Definition ex_params : params := Build_params 10 4 2 2 2 1 1.
Definition as_dict (v : json) : dict := match v with JObj d => d | _ => [] end.
Definition as_list (v : json) : list json := match v with JList l => l | _ => [] end.
Definition ex_ops : list json := as_list (getd (as_dict ex_intent_doc) "operations").

Lemma ex_declares : declares ex_intent_doc ex_params ex_ops.
Proof.
  constructor; [|unfold params_ok; simpl; lia].
  exists (as_dict ex_intent_doc). split; [vm_compute; reflexivity|]. split; [vm_compute; reflexivity|].
  exists (as_dict (getd (as_dict ex_intent_doc) "model")), (as_dict (getd (as_dict ex_intent_doc) "object")),
    (as_dict (getd (as_dict ex_intent_doc) "execution")).
  split_and!; vm_compute; reflexivity.
Defined.

Lemma ex_int_payloads : int_payloads (pm_payload ex_params) ex_ops.
Proof. vm_compute. repeat constructor. Defined.

Lemma lower_intent_closed_form_witness :
  let commands := concat (map (operation_commands 3 4 10) ex_ops) in
  ∃ plan, lower_intent (λ s, s) ex_intent_doc (JInt 4) JNull (JInt 3) = Ok (JObj plan) ∧
    getd plan "effective_command_bytes" = JInt 3 ∧
    getd plan "commands" = JList commands ∧
    getd plan "summary" = JObj [("logical_operations", JInt (Z.of_nat (length ex_ops)));
                                ("logical_bytes", JInt (Z.of_nat (length ex_ops) * 10));
                                ("commands", JInt (Z.of_nat (length commands)))] ∧
    getd plan "intent_sha256" = JStr (dumps Compact ex_intent_doc).
Proof.
  apply (lower_intent_closed_form (λ s, s) ex_intent_doc ex_params ex_ops 4 None (Some 3));
    [vm_compute; reflexivity|exact ex_declares|exact ex_int_payloads|lia|done|simpl; lia].
Defined.

(** ** Sizes of the lowered commands *)
Definition command_bytes (c : json) : Z :=
  match c with JObj d => match getd d "bytes" with JInt z => z | _ => 0 end | _ => 0 end.

Definition total_bytes (cs : list json) : Z := foldr Z.add 0 (map command_bytes cs).

Definition is_store (op : json) : bool :=
  match op with JObj o => eq_str (getd o "phase") "store" | _ => false end.

(** The bytes an operation has to move. *)
Definition operation_bytes (metadata payload : Z) (op : json) : Z :=
  payload + (if is_store op then metadata else 0).

Lemma component_commands_bytes o c eff idx total :
  map command_bytes (component_commands o c eff idx total) = split_sizes eff total.
Proof.
  unfold component_commands. apply list_eq. intros k.
  rewrite list_lookup_fmap, list_lookup_imap. by destruct (split_sizes eff total !! k).
Qed.

Lemma total_bytes_app l k : total_bytes (l ++ k) = total_bytes l + total_bytes k.
Proof. unfold total_bytes. rewrite map_app. induction (map command_bytes l); simpl; lia. Qed.

Lemma operation_commands_sizes eff metadata payload op :
  0 < eff → 0 ≤ metadata → 0 ≤ payload → is_dict op = true →
  Forall (λ c, 0 < command_bytes c ≤ eff) (operation_commands eff metadata payload op) ∧
  total_bytes (operation_commands eff metadata payload op) = operation_bytes metadata payload op.
Proof.
  intros He Hm Hp Hd. destruct op as [| | | | | |o]; try done.
  assert (∀ c idx total, 0 ≤ total →
    Forall (λ c, 0 < command_bytes c ≤ eff) (component_commands o c eff idx total) ∧
    total_bytes (component_commands o c eff idx total) = total) as Hc.
  { intros c idx total Ht. destruct (split_sizes_spec eff total He Ht) as [H1 H2].
    unfold total_bytes. rewrite component_commands_bytes. split; [|done].
    by rewrite <- (component_commands_bytes o c eff idx total), Forall_map in H1. }
  unfold operation_commands, operation_bytes, is_store.
  rewrite Forall_app, total_bytes_app.
  destruct (Hc "payload" (Z.of_nat (length (if eq_str (getd o "phase") "store"
    then component_commands o "metadata" eff 0 metadata else []))) payload Hp) as [Hp1 ->].
  destruct (eq_str _ _); [|by change (total_bytes []) with 0; split; [by split|lia]].
  destruct (Hc "metadata" 0 metadata Hm) as [H1 ->]. split; [by split|lia].
Qed.

Lemma concat_commands_sizes eff metadata payload ops :
  0 < eff → 0 ≤ metadata → 0 ≤ payload → Forall (λ op, is_dict op = true) ops →
  Forall (λ c, 0 < command_bytes c ≤ eff) (concat (map (operation_commands eff metadata payload) ops)) ∧
  total_bytes (concat (map (operation_commands eff metadata payload) ops)) =
    foldr Z.add 0 (map (operation_bytes metadata payload) ops).
Proof.
  intros He Hm Hp. induction 1 as [|op ops Hop _ [IH1 IH2]]; [done|].
  destruct (operation_commands_sizes eff metadata payload op) as [H1 H2]; try done.
  simpl. rewrite Forall_app, total_bytes_app. split; [done|lia].
Qed.

(** a plan neither loses nor invents bytes and respects every limit: each
    of its commands moves between one byte and each of the given limits, and
    together they move the payload of every operation plus the metadata of
    every store. *)
Theorem lower_intent_conserves_bytes sha256 intent p ops mdts dma soft :
  validate_intent intent = Ok tt → declares intent p ops → int_payloads (pm_payload p) ops →
  0 < mdts → limit_ok dma → limit_ok soft →
  ∃ plan commands,
    lower_intent sha256 intent (JInt mdts) (opt_json dma) (opt_json soft) = Ok (JObj plan) ∧
    getd plan "commands" = JList commands ∧
    Forall (λ c, 0 < command_bytes c ≤ mdts ∧
      (∀ z, dma = Some z → command_bytes c ≤ z) ∧ (∀ z, soft = Some z → command_bytes c ≤ z)) commands ∧
    total_bytes commands =
      foldr Z.add 0 (map (operation_bytes (pm_metadata p) (pm_payload p)) ops).
Proof.
  intros Hval Hdecl Hint Hm Hd Hs.
  destruct (lower_intent_closed sha256 intent p ops mdts dma soft) as (plan & Hl & _ & Hc & _); try done.
  destruct (dc_params _ _ _ Hdecl) as (? & ? & _).
  destruct (concat_commands_sizes (effective_limit mdts dma soft) (pm_metadata p) (pm_payload p) ops)
    as [H1 H2]; [unfold effective_limit; destruct dma, soft; simpl in *; lia|lia|lia| |].
  { eapply Forall_impl; [|exact (validated_ops_agree intent p ops Hval Hdecl)].
    by intros op (? & ? & ? & -> & _). }
  exists plan, (concat (map (operation_commands (effective_limit mdts dma soft) (pm_metadata p) (pm_payload p)) ops)).
  split; [done|]. split; [done|]. split; [|done].
  eapply Forall_impl; [|exact H1]. intros c [Hc1 Hc2]. unfold effective_limit in Hc2.
  destruct dma, soft; simpl in *; split_and!; try lia; intros; simplify_eq; lia.
Qed.

Lemma lower_intent_conserves_bytes_witness :
  ∃ plan commands,
    lower_intent (λ s, s) ex_intent_doc (JInt 4) (JInt 8) (JInt 3) = Ok (JObj plan) ∧
    getd plan "commands" = JList commands ∧
    Forall (λ c, 0 < command_bytes c ≤ 4 ∧
      (∀ z, Some 8 = Some z → command_bytes c ≤ z) ∧ (∀ z, Some 3 = Some z → command_bytes c ≤ z)) commands ∧
    total_bytes commands = foldr Z.add 0 (map (operation_bytes 4 10) ex_ops).
Proof.
  apply (lower_intent_conserves_bytes (λ s, s) ex_intent_doc ex_params ex_ops 4 (Some 8) (Some 3));
    [vm_compute; reflexivity|exact ex_declares|exact ex_int_payloads|lia|simpl; lia|simpl; lia].
Defined.

(** ** A plan is accepted by its own check *)
Lemma item_wf v k x : json_wf v → item v k = Ok x → json_wf x.
Proof.
  destruct v as [| | | | | |d]; try done. intros [_ Hd]%json_wf_obj. simpl.
  destruct (dget k d) eqn:E; [|done]. intros H. apply Ok_inj in H as <-.
  rewrite Forall_forall in Hd. by apply (Hd (k, j)), list_elem_of_In, dget_Some_In.
Qed.

Lemma py_arith_wf f g a b x : py_arith f g a b = Ok x → json_wf x.
Proof.
  unfold py_arith. destruct (int_val a), (int_val b); intros H; res_inv; try done;
    match goal with H : (let '(_, _) := ?e in _) = _ |- _ => destruct e end; by res_inv.
Qed.

Lemma py_min_wf a b : json_wf a → json_wf b → json_wf (py_min a b).
Proof. unfold py_min. by destruct (py_ltb b a). Qed.

Lemma command_of_wf op c idx off size x :
  json_wf op → json_wf off → json_wf size → command_of op c idx off size = Ok x → json_wf x.
Proof.
  intros Hop Hoff Hsz H. unfold command_of in H. res_inv.
  repeat match goal with E : item op _ = Ok _ |- _ => apply item_wf in E; [|done] end.
  apply json_wf_obj. split; [|by repeat constructor].
  apply (bool_decide_unpack _). vm_compute. exact I.
Qed.

Lemma fragments_wf fuel op c eff idx off rem cs :
  json_wf op → json_wf off → json_wf rem →
  fragments fuel op c eff idx off rem = Ok cs → Forall json_wf cs.1.
Proof.
  intros Hop. revert idx off rem cs. induction fuel as [|fuel IH]; intros idx off rem cs Hoff Hrem H.
  - simpl in H. destruct (negb _); [|done]. apply Ok_inj in H as <-. constructor.
  - cbn [fragments] in H. destruct (negb _); [apply Ok_inj in H as <-; constructor|].
    assert (json_wf (py_min rem (JInt eff))) as Hm by (by apply py_min_wf).
    res_inv. constructor; [eapply command_of_wf; [exact Hop|exact Hoff|exact Hm|eassumption]|].
    eapply IH; [| |eassumption]; by eapply py_arith_wf.
Qed.

Lemma lower_components_wf op eff idx comps cs :
  json_wf op → Forall (λ c, json_wf c.2) comps →
  lower_components op eff idx comps = Ok cs → Forall json_wf cs.
Proof.
  intros Hop Hc. revert idx cs. induction Hc as [|[c size] comps Hs _ IH]; intros idx cs H; simpl in H.
  - by res_inv.
  - res_inv. apply Forall_app. split; [by eapply fragments_wf; [..|eassumption]|by eapply IH].
Qed.

Lemma lower_operation_wf md eff op cs :
  json_wf md → json_wf op → lower_operation md eff op = Ok cs → Forall json_wf cs.
Proof.
  intros Hmd Hop H. unfold lower_operation in H. res_inv.
  eapply lower_components_wf; [done| |exact H]. apply Forall_app. split.
  - destruct (_ && _); by repeat constructor.
  - repeat constructor. simpl. by eapply item_wf.
Qed.

Lemma opt_limit_Ok name v l :
  opt_limit name v = Ok l →
  ∃ o, v = opt_json o ∧ limit_ok o ∧ l = match o with Some z => [(name, JInt z)] | None => [] end.
Proof.
  unfold opt_limit. destruct v as [| |z| | | |]; simpl; intros H; try done.
  - exists None. by apply Ok_inj in H as <-.
  - destruct (Z.leb_spec z 0); [done|]. apply Ok_inj in H as <-. by exists (Some z).
Qed.

Lemma mapMR_Forall_out {A B} (f : A → res B) (P : A → Prop) (Q : B → Prop) l k :
  (∀ x y, P x → f x = Ok y → Q y) → Forall P l → mapMR f l = Ok k → Forall Q k.
Proof.
  intros Hf Hl. revert k. induction Hl as [|x l Hx _ IH]; intros k H; simpl in H; res_inv; [done|].
  constructor; [by eapply Hf|by apply IH].
Qed.

Lemma foldM_add_wf l acc x : json_wf acc → foldM py_add acc l = Ok x → json_wf x.
Proof.
  revert acc. induction l as [|y l IH]; intros acc Ha H; simpl in H; [by res_inv|].
  apply bind_Ok in H as (s & Hs & H). eapply IH; [|exact H]. by eapply py_arith_wf.
Qed.

(** What a successful lowering returns, whatever the limits were given as. *)
Lemma lower_intent_Ok sha256 intent m d s plan :
  json_wf intent → lower_intent sha256 intent m d s = Ok plan →
  ∃ mdts dma soft rest,
    m = JInt mdts ∧ 0 < mdts ∧ d = opt_json dma ∧ s = opt_json soft ∧
    validate_intent intent = Ok tt ∧
    plan = JObj (("schema", JStr PLAN_SCHEMA)
      :: ("intent_sha256", JStr (sha256 (dumps Compact intent)))
      :: ("evidence", JStr PLAN_EVIDENCE)
      :: ("target_limits", JObj (("mdts_bytes", JInt mdts)
           :: match dma with Some z => [("dma_ceiling_bytes", JInt z)] | None => [] end
           ++ match soft with Some z => [("software_limit_bytes", JInt z)] | None => [] end))
      :: rest) ∧
    keys rest = ["effective_command_bytes"; "summary"; "commands"] ∧ Forall (λ kv, json_wf kv.2) rest.
Proof.
  intros Hwf H. unfold lower_intent, intent_sha256 in H. res_inv.
  apply _positive_Ok in E0 as [-> Hm]. apply opt_limit_Ok in E1 as (dma & -> & _ & ->).
  apply opt_limit_Ok in E2 as (soft & -> & _ & ->). destruct v3 as [| | | | |ops|]; try done. res_inv.
  assert (Forall json_wf ops) as Hops.
  { apply json_wf_list. by eapply item_wf. }
  eexists _, dma, soft, _. split_and!; try reflexivity; try done.
  constructor; [done|]. constructor; [|constructor; [|constructor]]; cbn [snd].
  - apply json_wf_obj. split; [apply (bool_decide_unpack _); vm_compute; exact I|].
    constructor; [done|]. constructor; [|constructor; [done|constructor]].
    eapply foldM_add_wf; [|eassumption]; done.
  - apply json_wf_list. apply Forall_concat.
    eapply (mapMR_Forall_out _ json_wf); [|exact Hops|eassumption].
    intros x y Hx Hy. eapply lower_operation_wf; [|exact Hx|exact Hy].
    eapply item_wf; [|exact E5]. eapply item_wf; [|exact E4]. done.
Qed.

(** the check of a target plan accepts what the lowering produces, for
    every intent and every limits the lowering accepts. *)
Theorem validate_target_plan_accepts_lowering sha256 intent m d s plan :
  json_wf intent → lower_intent sha256 intent m d s = Ok plan →
  validate_target_plan sha256 plan intent = Ok tt.
Proof.
  intros Hwf Hl. pose proof Hl as Hl'.
  apply lower_intent_Ok in Hl as (mdts & dma & soft & rest & -> & Hm & -> & -> & Hv & -> & Hk & Hr); [|done].
  set (limits := ("mdts_bytes", JInt mdts) :: _ ++ _) in *.
  assert (NoDup (keys limits) ∧ Forall (λ kv, json_wf kv.2) limits ∧
    forallb (λ k, bool_decide (k ∈ LIMIT_NAMES)) (keys limits) = true ∧
    getd limits "mdts_bytes" = JInt mdts ∧ getd limits "dma_ceiling_bytes" = opt_json dma ∧
    getd limits "software_limit_bytes" = opt_json soft) as (Hnd & Hlw & Hsub & E1 & E2 & E3).
  { unfold limits. destruct dma, soft; split_and!; try reflexivity; try (by repeat constructor);
      apply (bool_decide_unpack _); vm_compute; exact I. }
  unfold validate_target_plan, intent_sha256. rewrite Hv. getd_simpl.
  cbn [eq_str]. rewrite !String.eqb_refl. cbn [raise_unless mbind res_bind].
  rewrite String.eqb_refl, Hsub. cbn [raise_unless mbind res_bind]. rewrite E1, E2, E3, Hl'.
  cbn [mbind res_bind]. apply raise_unless_Ok, py_eq_refl; [|done].
  apply json_wf_obj. split; [|repeat (constructor; [done|]); constructor; [|done]; by apply json_wf_obj].
  change (keys (?a :: ?b :: ?c :: ?e :: rest)) with (a.1 :: b.1 :: c.1 :: e.1 :: keys rest).
  rewrite Hk. apply (bool_decide_unpack _). vm_compute. exact I.
Qed.

Lemma validate_target_plan_accepts_lowering_witness :
  ∃ plan, lower_intent (λ s, s) ex_intent_doc (JInt 4) JNull (JInt 3) = Ok plan ∧
    validate_target_plan (λ s, s) plan ex_intent_doc = Ok tt.
Proof.
  eexists. split; [vm_compute; reflexivity|].
  apply (validate_target_plan_accepts_lowering (λ s, s) ex_intent_doc (JInt 4) JNull (JInt 3));
    [apply json_wfb_sound; vm_compute; reflexivity|vm_compute; reflexivity].
Defined.
