(* ===== verification/Representation.v ===== *)
(** * Stored forms of a chunk ([tools/kvio/kv_representation.py])

    The same chunk of a KV cache can be stored plain, encoded, or with only its
    V plane; the file models the byte accounting of each form, the derivation
    of one [kvio.intent.v1] document per form with the manifest that binds
    them, and the check of such a set.  Sums of floats, which occur only in a
    foreign manifest, are rounded at each step. *)

From stdpp Require Import prelude strings list numbers.
From Stdlib Require Import ZArith Lia Ascii.
From S2P Require Import Prelude PyText PyJson JsonText PyFloat Geometry Intent.
Local Open Scope Z_scope.

Definition SET_SCHEMA : string := "kvio.representation-set.v1".
Definition SET_EVIDENCE : string := "derived-from-codec-layout-not-measured".

Definition reperr (m : string) : exn := Exn RepresentationError m.

(** [struct.calcsize] of the fixed parts of the codec's header. *)
Definition _FIXED_HEADER_BYTES : Z := 8 + 6 * 2 + 7 * 8.
Definition _PAYLOAD_LENS_BYTES : Z := 3 * 8.
Definition _HASH_COUNT_BYTES : Z := 2.
Definition _CRC_BYTES : Z := 4.
Definition CODEC_HASH_KEYS : list string :=
  ["model_id"; "model_revision_hash"; "tokenizer_hash"; "rope_config_hash"; "attention_backend"; "kv_layout"].
Definition SERDE_HEADER_ALLOWANCE : Z := 1024.
Definition SCALE_DTYPE_BYTES : Z := 4.

Record rep_spec := {
  sp_stored : list string; sp_host : list string; sp_codec : json; sp_k_dtype : json; sp_v_dtype : json; sp_description : string
}.

Definition REPRESENTATIONS : list (string * rep_spec) :=
  [("bf16_kv", {| sp_stored := ["k"; "v"]; sp_host := []; sp_codec := JNull; sp_k_dtype := JStr "bfloat16";
                  sp_v_dtype := JStr "bfloat16";
                  sp_description := "the plain K/V object raw_block stores today, no codec" |});
   ("k16_v8", {| sp_stored := ["k"; "v"]; sp_host := []; sp_codec := JStr "AsymK16V8MultiSerializer";
                 sp_k_dtype := JStr "bfloat16"; sp_v_dtype := JStr "float8_e4m3fn";
                 sp_description := "complete K16/V8: one self-contained encoded object" |});
   ("v8_only", {| sp_stored := ["v"]; sp_host := ["k"]; sp_codec := JStr "AsymK16V8VOnlyMultiSerializer";
                  sp_k_dtype := JNull; sp_v_dtype := JStr "float8_e4m3fn";
                  sp_description := "split-tier: V8 to storage, exact K kept in host memory" |})].

(** Length of the UTF-8 encoding of a text. *)
Fixpoint utf8_len (s : string) : Z :=
  match s with EmptyString => 0 | String c s => (if code c <? 128 then 1 else 2) + utf8_len s end.

Definition sum_Z (l : list Z) : Z := fold_right Z.add 0 l.

Definition hash_entry_bytes (hashes : dict) (key : string) : Z :=
  2 + utf8_len key + 2 + utf8_len (py_str (default (JStr EmptyString) (dget key hashes))).

Definition codec_header_bytes (scale_shape : list Z) (hashes : dict) : Z :=
  _FIXED_HEADER_BYTES + 8 * Z.of_nat (length scale_shape) + _PAYLOAD_LENS_BYTES + _HASH_COUNT_BYTES
  + sum_Z (map (hash_entry_bytes hashes) CODEC_HASH_KEYS) + _CRC_BYTES.

Definition _plane_bytes (detail : dict) (dtype_bytes : Z) : res Z :=
  let family := getd detail "family" in
  raise_if (eq_str family "mla")
    (reperr "MLA stores one latent tensor with no separable K and V planes; an asymmetric or V-only representation is undefined for it") ;;
  raise_unless (in_tuple family ["default"; "gqa_head_dim"; "cla"]) (reperr "unknown KV family {family!r}") ;;
  elements ← (v ← item (JObj detail) "total_elements"; py_int v);
  raise_unless (elements mod 2 =? 0)
    (reperr "chunk has {elements} elements, which does not split into two equal K and V planes") ;;
  Ok (elements / 2 * dtype_bytes).

Definition _scale_shape (detail : dict) (chunk_tokens page_size : Z) (scope : string) : res (list Z) :=
  if String.eqb scope "per_tensor" then Ok [] else
  raise_unless (String.eqb scope "per_page_head") (reperr "unknown scale scope {scope!r}") ;;
  raise_if ((page_size <=? 0) || negb (chunk_tokens mod page_size =? 0))
    (reperr "chunk of {chunk_tokens} tokens is not a whole number of {page_size}-token pages; per-page scales need one") ;;
  kv_heads ← kv_head_count detail;
  raise_if (kv_heads <=? 0) (reperr "family {detail.get('family')!r} reports no KV-head count; per-page-head scales need one") ;;
  Ok [chunk_tokens / page_size; kv_heads].

(** The options shared by the representations of a set. *)
Record rep_options := {
  ro_tp : Z; ro_scale_scope : string; ro_page_size : Z; ro_hashes : dict; ro_metadata : Z; ro_align : Z; ro_pad : bool
}.

(** The sizes of one representation of one chunk on one rank. *)
Record rep_sizes := {
  rz_k : Z; rz_v : Z; rz_ranks : Z; rz_note : string; rz_scale_shape : list Z; rz_header : Z;
  rz_components : list (string * Z)
}.

Definition rz_payload (z : rep_sizes) : Z := sum_Z (map snd (rz_components z)).

(** The scales follow the heads of a rank. *)
Definition rank_scales (tp ranks : Z) (shape : list Z) : list Z :=
  match shape with
  | [pages; heads] => if 1 <? tp then [pages; Z.max 1 (heads / ranks)] else shape
  | _ => shape
  end.

(** [(-unpadded) % block_align], charged when it is not zero. *)
Definition pad_components (pad : bool) (align : Z) (components : list (string * Z)) : res (list (string * Z)) :=
  if negb pad then Ok components else
  raise_if (align =? 0) (Exn ZeroDivisionError "integer modulo by zero") ;;
  let padding := (- sum_Z (map snd components)) mod align in
  Ok (if padding =? 0 then components else components ++ [("padding", padding)]).

Definition derive_sizes (spec : rep_spec) (detail : dict) (logical_bytes chunk_tokens : Z) (o : rep_options) : res rep_sizes :=
  k_logical ← _plane_bytes detail logical_bytes;
  v_logical ← _plane_bytes detail logical_bytes;
  k ← shard_kv_bytes k_logical detail (ro_tp o);
  v ← shard_kv_bytes v_logical detail (ro_tp o);
  let '(k_rank, ranks, shard_note) := k in
  let '(v_rank, ranks_v, _) := v in
  raise_unless (ranks =? ranks_v) (reperr "K and V shard to different rank counts") ;;
  if is_none (sp_codec spec) then
    components ← pad_components (ro_pad o) (ro_align o) [("k", k_rank); ("v", v_rank)];
    Ok {| rz_k := k_rank; rz_v := v_rank; rz_ranks := ranks; rz_note := shard_note; rz_scale_shape := [];
          rz_header := 0; rz_components := components |}
  else
    shape ← _scale_shape detail chunk_tokens (ro_page_size o) (ro_scale_scope o);
    let shape := rank_scales (ro_tp o) ranks shape in
    let scales := fold_left Z.mul shape SCALE_DTYPE_BYTES in
    let header := codec_header_bytes shape (ro_hashes o) in
    components ← pad_components (ro_pad o) (ro_align o)
      ((if bool_decide ("k" ∈ sp_stored spec) then [("k", k_rank)] else [])
       ++ [("v", v_rank / logical_bytes); ("scales", scales); ("codec_header", header)]);
    Ok {| rz_k := k_rank; rz_v := v_rank; rz_ranks := ranks; rz_note := shard_note; rz_scale_shape := shape;
          rz_header := header; rz_components := components |}.

(** [-(-(metadata + payload) // block_align) * block_align] *)
Definition physical_extent (metadata payload align : Z) : res Z :=
  raise_if (align =? 0) (Exn ZeroDivisionError "integer division or modulo by zero") ;;
  Ok (- (- (metadata + payload) / align) * align).

Definition ASSUMPTIONS : list json :=
  [JStr "K and V are equal-shaped planes (true for MHA/GQA/CLA, refused for MLA)";
   JStr "FP8 V is one byte per element and K is never quantized";
   JStr "scales are float32 (4 B each)";
   JStr "codec header length uses the supplied hash strings; unsupplied hashes are written empty, as the codec does";
   JStr "physical extent is raw_block's fixed store metadata plus the payload, rounded up to the block alignment"].

(** The planes kept in host memory. *)
Definition host_retained (spec : rep_spec) (z : rep_sizes) : list (string * Z) :=
  map (λ plane, (plane, if String.eqb plane "k" then rz_k z else rz_v z)) (sp_host spec).

Definition ints (d : list (string * Z)) : dict := map (λ kv, (kv.1, JInt kv.2)) d.

(** The entry of a representation in a manifest. *)
Definition entry_json (name dtype : string) (spec : rep_spec) (o : rep_options) (z : rep_sizes) (extent : Z) : dict :=
  let coded := negb (is_none (sp_codec spec)) in
  [("representation", JStr name); ("description", JStr (sp_description spec)); ("codec", sp_codec spec);
   ("evidence", JStr SET_EVIDENCE);
   ("logical", JObj [("dtype", JStr dtype); ("k_bytes_per_rank", JInt (rz_k z)); ("v_bytes_per_rank", JInt (rz_v z));
                     ("ranks_per_chunk", JInt (rz_ranks z)); ("shard", JStr (rz_note z))]);
   ("stored", JObj [("planes", JList (map JStr (sp_stored spec))); ("k_dtype", sp_k_dtype spec); ("v_dtype", sp_v_dtype spec);
                    ("scale_scope", if coded then JStr (ro_scale_scope o) else JNull);
                    ("scale_shape", JList (map JInt (rz_scale_shape z)));
                    ("components_bytes", JObj (ints (rz_components z))); ("payload_bytes", JInt (rz_payload z));
                    ("serde_reservation_bytes",
                      if coded then JInt (rz_payload z - rz_header z + SERDE_HEADER_ALLOWANCE) else JNull)]);
   ("storage", JObj [("store_metadata_bytes", JInt (ro_metadata o)); ("block_align", JInt (ro_align o));
                     ("physical_extent_bytes", JInt extent)]);
   ("host", JObj [("retained_bytes", JObj (ints (host_retained spec z)));
                  ("h2d_bytes_per_restore", JInt (sum_Z (map snd (host_retained spec z))));
                  ("note", JStr match host_retained spec z with
                                | [] => "self-contained: nothing retained"
                                | _ => "a restore is usable only while the retained K is still resident; a V object whose K was evicted is a miss"
                                end)]);
   ("assumptions", JList ASSUMPTIONS)].

(** The entry, with the sizes that it spells out. *)
Definition derive_representation (name : string) (detail : dict) (dtype : string) (chunk_tokens : Z) (o : rep_options)
    : res (rep_sizes * dict) :=
  match dget name REPRESENTATIONS with
  | None => Raise (reperr "unknown representation {name!r}")
  | Some spec =>
      match dget dtype DTYPE_BYTES with
      | None => Raise (reperr "unknown logical dtype {dtype!r}")
      | Some logical_bytes =>
          raise_unless (forallb (λ k, bool_decide (k ∈ CODEC_HASH_KEYS)) (keys (ro_hashes o)))
            (reperr "codec hash keys {sorted(unknown)} are not written by the codec") ;;
          z ← derive_sizes spec detail logical_bytes chunk_tokens o;
          extent ← physical_extent (ro_metadata o) (rz_payload z) (ro_align o);
          Ok (z, entry_json name dtype spec o z extent)
      end
  end.

(** ** Sets *)

(** The schedule of a set. *)
Record rep_schedule := { rs_chunks : Z; rs_streams : Z; rs_iters : Z; rs_warmup : Z }.

(** The entries and intents derived so far. *)
Record rep_set := { st_sizes : list (string * rep_sizes); st_entries : dict; st_intents : dict }.

Definition LIMITS : list json :=
  [JStr "one payload size per intent: a representation that stores K and V as separate objects needs two intents, which this set does not model";
   JStr "no cancellation, overwrite, or stale-generation operations: kvio.intent.v1 has store and load only";
   JStr "the derived header length is exact only for the hash strings recorded above; the engine writes its own at runtime"].

Section sets.
(** [hashlib.sha256(data).hexdigest()] *)
Context (sha256 : string → string).

Definition derive_one (model dtype : string) (chunk_tokens : Z) (detail : dict) (s : rep_schedule) (o : rep_options)
    (st : rep_set) (name : string) : res rep_set :=
  ze ← derive_representation name detail dtype chunk_tokens o;
  let '(z, entry) := ze in
  intent ← build_kv_offload_intent (JStr model) (JObj detail) (JStr dtype) (JInt chunk_tokens)
             (JInt (rz_payload z)) (JInt (rz_ranks z)) (JInt (rs_chunks s)) (JInt (rs_streams s)) (JInt (rs_iters s))
             (JInt (rs_warmup s)) (JInt (ro_metadata o));
  digest ← intent_sha256 sha256 intent;
  Ok {| st_sizes := dset name z (st_sizes st);
        st_entries := dset name (JObj (dset "intent_sha256" (JStr digest) entry)) (st_entries st);
        st_intents := dset name intent (st_intents st) |}.

(** [payload / base] of every representation, when the plain one is there. *)
Definition payload_ratios (names : list string) (sizes : list (string * rep_sizes)) : res dict :=
  match dget "bf16_kv" sizes with
  | None => Ok []
  | Some base =>
      foldM (λ d name, match dget name sizes with
                       | Some z => f ← int_truediv (rz_payload z) (rz_payload base); Ok (dset name (JFloat f) d)
                       | None => Raise (Exn KeyError name)
                       end) [] names
  end.

(** The bytes of K that the split form keeps for every object of the schedule. *)
Definition host_budget (s : rep_schedule) (per_chunk_objects : Z) (sizes : list (string * rep_sizes)) : Z :=
  match dget "v8_only" sizes with
  | Some z => rz_k z * per_chunk_objects * rs_chunks s
  | None => 0
  end.

Definition manifest_of_set (model dtype : string) (chunk_tokens : Z) (detail : dict) (s : rep_schedule) (o : rep_options)
    (st : rep_set) (ratios : dict) (per_chunk_objects : Z) : dict :=
  [("schema", JStr SET_SCHEMA); ("evidence", JStr SET_EVIDENCE);
   ("model", JObj [("name", JStr model); ("dtype", JStr dtype); ("chunk_tokens", JInt chunk_tokens); ("tp", JInt (ro_tp o));
                   ("geometry", JObj detail)]);
   ("schedule", JObj [("num_chunks", JInt (rs_chunks s)); ("streams", JInt (rs_streams s)); ("iters", JInt (rs_iters s));
                      ("warmup", JInt (rs_warmup s)); ("objects_per_chunk", JInt per_chunk_objects)]);
   ("codec", JObj [("scale_scope", JStr (ro_scale_scope o)); ("page_size", JInt (ro_page_size o)); ("hashes", JObj (ro_hashes o));
                   ("header_allowance_bytes", JInt SERDE_HEADER_ALLOWANCE)]);
   ("storage", JObj [("store_metadata_bytes", JInt (ro_metadata o)); ("block_align", JInt (ro_align o));
                     ("pad_to_block_align", JBool (ro_pad o))]);
   ("representations", JObj (st_entries st)); ("payload_ratio_to_bf16_kv", JObj ratios);
   ("equal_host_budget_control",
     JObj [("representation", JStr "k16_v8"); ("host_budget_bytes", JInt (host_budget s per_chunk_objects (st_sizes st)));
           ("l2_operations", JStr "not-derived: needs a hit model for which complete objects the host budget keeps")]);
   ("limits", JList LIMITS)].

(** [hashes.setdefault("model_id", model)] *)
Definition with_model_id (model : string) (o : rep_options) : rep_options :=
  {| ro_tp := ro_tp o; ro_scale_scope := ro_scale_scope o; ro_page_size := ro_page_size o;
     ro_hashes := if dhas "model_id" (ro_hashes o) then ro_hashes o else ro_hashes o ++ [("model_id", JStr model)];
     ro_metadata := ro_metadata o; ro_align := ro_align o; ro_pad := ro_pad o |}.

Definition derive_representation_set (model : string) (config : json) (dtype : string) (chunk_tokens : Z)
    (s : rep_schedule) (representations : list string) (o : rep_options) : res (dict * dict) :=
  let names := match representations with [] => keys REPRESENTATIONS | l => l end in
  raise_unless (forallb (λ name, dhas name REPRESENTATIONS) names) (reperr "unknown representation {name!r}") ;;
  let o := with_model_id model o in
  td ← kv_cache_bytes model config chunk_tokens dtype;
  let '(total_bytes, detail) := td in
  reported ← (v ← item (JObj detail) "total_bytes"; py_int v);
  raise_unless (total_bytes =? reported) (reperr "geometry reports inconsistent chunk bytes") ;;
  st ← foldM (derive_one model dtype chunk_tokens detail s o) {| st_sizes := []; st_entries := []; st_intents := [] |} names;
  ratios ← payload_ratios names (st_sizes st);
  first ← match names with
          | name :: _ => match dget name (st_sizes st) with Some z => Ok z | None => Raise (Exn KeyError name) end
          | [] => Raise (Exn IndexError "list index out of range")
          end;
  Ok (manifest_of_set model dtype chunk_tokens detail s o st ratios (rz_ranks first), st_intents st).

Definition manifest_sha256 (manifest : json) : string := sha256 (dumps Compact manifest).

(** [sum(d.values())] *)
Definition sum_values (d : json) : res json :=
  match d with
  | JObj d => foldM num_add (JInt 0) (map snd d)
  | _ => Raise (Exn AttributeError "object has no attribute 'values'")
  end.

(** The checks on one representation. *)
Definition check_binding (name : string) (entry intent : json) : res unit :=
  validate_intent intent ;;
  d ← get entry "intent_sha256"; digest ← intent_sha256 sha256 intent;
  raise_unless (eq_str d digest) (reperr "{name}: intent digest does not bind") ;;
  stored ← get_default entry "stored" (JObj []);
  object ← item intent "object";
  payload ← item object "payload_bytes"; expected ← get stored "payload_bytes";
  raise_unless (py_eq payload expected) (reperr "{name}: intent payload disagrees with manifest") ;;
  components ← get_default stored "components_bytes" (JObj []);
  total ← sum_values components;
  raise_unless (py_eq total expected) (reperr "{name}: components do not sum to the payload") ;;
  ranks ← item object "ranks_per_chunk";
  logical ← item entry "logical"; expected_ranks ← item logical "ranks_per_chunk";
  raise_unless (py_eq ranks expected_ranks) (reperr "{name}: rank count disagrees") ;;
  match dget name REPRESENTATIONS with
  | None => Raise (Exn KeyError name)
  | Some spec =>
      planes ← get stored "planes";
      raise_unless (py_eq planes (JList (map JStr (sp_stored spec)))) (reperr "{name}: stored planes are not {expected_planes}")
  end.

Definition validate_representation_set (manifest : json) (intents : dict) : res unit :=
  match manifest with
  | JObj m =>
      raise_unless (eq_str (getd m "schema") SET_SCHEMA) (reperr "manifest must use {SET_SCHEMA}") ;;
      raise_unless (eq_str (getd m "evidence") SET_EVIDENCE) (reperr "manifest must keep its derived evidence label") ;;
      match getd m "representations" with
      | JObj ((_ :: _) as entries) =>
          raise_unless (forallb (λ k, dhas k intents) (keys entries) && forallb (λ k, dhas k entries) (keys intents))
            (reperr "manifest and intents name different representations") ;;
          foldM (λ _ kv, intent ← item (JObj intents) kv.1; check_binding kv.1 kv.2 intent) tt entries
      | _ => Raise (reperr "manifest lists no representations")
      end
  | _ => Raise (reperr "manifest must use {SET_SCHEMA}")
  end.
End sets.

Definition ex_options : rep_options :=
  {| ro_tp := 4; ro_scale_scope := "per_page_head"; ro_page_size := 16; ro_hashes := []; ro_metadata := 4096; ro_align := 4096;
     ro_pad := false |}.
Definition ex_schedule : rep_schedule := {| rs_chunks := 1; rs_streams := 1; rs_iters := 1; rs_warmup := 0 |}.

Definition ex_set : res (dict * dict) :=
  derive_representation_set (λ _, "aa") "meta-llama/Llama-3.1-8B-Instruct" (JObj llama8b) "bfloat16" 256 ex_schedule [] ex_options.

Example ex_set_ok : match ex_set with
  | Ok (m, i) => is_ok (validate_representation_set (λ _, "aa") (JObj m) i) && (length i =? 3)%nat
  | Raise _ => false end = true.
Proof. vm_compute. reflexivity. Qed.
