(* ===== verification/RepresentationCorrect.v ===== *)
(** * Stored forms account for every byte

    A derived set passes its own check, and the sizes of the forms are exactly
    the bytes of the planes that a rank holds plus the stated overhead. *)

From stdpp Require Import prelude strings list numbers.
From Stdlib Require Import ZArith Lia Ascii.
From S2P Require Import Prelude PyText PyJson JsonText PyFloat Geometry Intent Representation.
Local Open Scope Z_scope.

(** ** A derived set passes its check *)
Lemma build_object model geometry dtype ct p r nc s i w md intent :
  build_kv_offload_intent model geometry dtype ct p r nc s i w md = Ok intent →
  validate_intent intent = Ok tt ∧ ∃ object, item intent "object" = Ok object ∧
    item object "payload_bytes" = Ok p ∧ item object "ranks_per_chunk" = Ok r.
Proof.
  unfold build_kv_offload_intent. intros H. do 6 (apply bind_Ok in H as (? & _ & H)). apply bind_Ok in H as (? & _ & H).
  destruct w as [| |w| | | |]; try done. apply bind_Ok in H as (? & _ & H). cbv zeta in H. apply bind_Ok in H as ([] & Hv & H).
  apply Ok_inj in H as <-. split; [exact Hv|]. by eexists.
Qed.

Lemma sum_values_ints c : sum_values (JObj (ints c)) = Ok (JInt (sum_Z (map snd c))).
Proof.
  unfold sum_values, ints. rewrite map_map. simpl.
  assert (∀ acc, foldM num_add (JInt acc) (map (λ x : string * Z, JInt x.2) c) = Ok (JInt (acc + sum_Z (map snd c)))) as H; [|by rewrite H].
  induction c as [|[k z] c IH]; intros acc; simpl; [by rewrite Z.add_0_r|]. rewrite IH. f_equal. f_equal. lia.
Qed.

Lemma strings_eq l : py_eq (JList (map JStr l)) (JList (map JStr l)) = true.
Proof. apply py_eq_refl; [|done]. apply json_wf_list, Forall_map, Forall_forall. done. Qed.

Section sets.
Context (sha256 : string → string).

(** The entry and the intent that [derive_one] makes bind each other. *)
Lemma derive_one_binds name spec dtype o z extent intent : dget name REPRESENTATIONS = Some spec →
  validate_intent intent = Ok tt →
  (∃ object, item intent "object" = Ok object ∧ item object "payload_bytes" = Ok (JInt (rz_payload z)) ∧
     item object "ranks_per_chunk" = Ok (JInt (rz_ranks z))) →
  check_binding sha256 name
    (JObj (dset "intent_sha256" (JStr (sha256 (dumps Compact intent))) (entry_json name dtype spec o z extent))) intent = Ok tt.
Proof.
  intros Hsp Hv (object & Ho & Hp & Hr). unfold check_binding, intent_sha256, entry_json. rewrite Hv, Hsp. cbn [mbind res_bind].
  lazy beta iota zeta delta [get get_default getd dget dset default from_option String.eqb Ascii.eqb Bool.eqb mbind res_bind id].
  rewrite Ho, Hp, Hr, sum_values_ints. fold (rz_payload z).
  lazy beta iota zeta delta [item dget String.eqb Ascii.eqb Bool.eqb].
  rewrite !py_eq_int_int, !Z.eqb_refl, strings_eq. unfold eq_str. by rewrite String.eqb_refl.
Qed.

(** Entries and intents go together. *)
Record in_step (st : rep_set) : Prop := {
  is_keys : keys (st_entries st) = keys (st_intents st);
  is_sizes : keys (st_sizes st) = keys (st_entries st);
  is_unique : NoDup (keys (st_entries st));
  is_bound : ∀ name entry intent, dget name (st_entries st) = Some entry → dget name (st_intents st) = Some intent →
    check_binding sha256 name entry intent = Ok tt
}.

Lemma dhas_eq {A B} k (d : list (string * A)) (d' : list (string * B)) : keys d = keys d' → dhas k d = dhas k d'.
Proof. intros H. apply eq_true_iff_eq. by rewrite !dhas_keys, H. Qed.

Lemma derive_one_in_step model dtype ct detail s o st name st' : in_step st →
  derive_one sha256 model dtype ct detail s o st name = Ok st' → in_step st' ∧ dhas name (st_entries st') = true.
Proof.
  intros [Hk Hz Hu Hb] H. unfold derive_one in H. apply bind_Ok in H as ([z entry] & Hd & H). apply bind_Ok in H as (intent & Hi & H).
  apply bind_Ok in H as (digest & Hg & H). apply Ok_inj in H as <-. apply build_object in Hi as [Hv Hobj].
  unfold derive_representation in Hd. destruct (dget name REPRESENTATIONS) as [spec|] eqn:Hs; [|done].
  destruct (dget dtype DTYPE_BYTES) as [b|]; [|done]. apply bind_Ok in Hd as (_ & _ & Hd). apply bind_Ok in Hd as (z' & _ & Hd).
  apply bind_Ok in Hd as (extent & _ & Hd). apply Ok_inj in Hd as [= -> <-].
  unfold intent_sha256 in Hg. rewrite Hv in Hg. apply Ok_inj in Hg as <-. split; [constructor; simpl|].
  - by rewrite !keys_dset, (dhas_eq _ _ _ Hk), Hk.
  - by rewrite !keys_dset, (dhas_eq _ _ _ Hz), Hz.
  - by apply NoDup_dset.
  - intros nm e i. rewrite !dget_dset. destruct (String.eqb_spec nm name) as [->|]; [|by apply Hb].
    intros [= <-] [= <-]. by apply derive_one_binds.
  - simpl. apply dhas_keys. rewrite keys_dset. destruct (dhas name (st_entries st)) eqn:E; [by apply dhas_keys|set_solver].
Qed.

Lemma derive_all_in_step model dtype ct detail s o names st' :
  foldM (derive_one sha256 model dtype ct detail s o) {| st_sizes := []; st_entries := []; st_intents := [] |} names = Ok st' →
  in_step st' ∧ (names ≠ [] → st_entries st' ≠ []).
Proof.
  apply (foldM_inv _ (λ pre st, in_step st ∧ (pre ≠ [] → st_entries st ≠ []))).
  - split; [|done]. constructor; try done. constructor.
  - intros pre x s1 s2 [IH _] _ H. apply derive_one_in_step in H as [H1 H2]; [|done]. split; [done|]. intros _ E. by rewrite E in H2.
Qed.

Lemma set_checked (st : rep_set) : in_step st → st_entries st ≠ [] →
  ∀ m, getd m "schema" = JStr SET_SCHEMA → getd m "evidence" = JStr SET_EVIDENCE → getd m "representations" = JObj (st_entries st) →
  validate_representation_set sha256 (JObj m) (st_intents st) = Ok tt.
Proof.
  intros [Hk _ Hu Hb] Hne m H1 H2 H3. unfold validate_representation_set. rewrite H1, H2, H3. simpl.
  destruct (st_entries st) as [|kv0 es] eqn:Ees; [done|]. rewrite <- Ees in *. clear Hne Ees kv0 es.
  assert (forallb (λ k, dhas k (st_intents st)) (keys (st_entries st)) = true) as ->.
  { apply forallb_forall. intros k Hin%list_elem_of_In. rewrite <- (dhas_eq k _ _ Hk). by apply dhas_keys. }
  assert (forallb (λ k, dhas k (st_entries st)) (keys (st_intents st)) = true) as ->.
  { apply forallb_forall. intros k Hin%list_elem_of_In. rewrite (dhas_eq k _ _ Hk). by apply dhas_keys. }
  simpl. assert (∀ l, (∀ kv, kv ∈ l → kv ∈ st_entries st) →
    foldM (λ (_ : unit) kv, intent ← item (JObj (st_intents st)) kv.1; check_binding sha256 kv.1 kv.2 intent) tt l = Ok tt) as Hgen; [|by apply Hgen].
  induction l as [|[name e] l IH]; intros Hl; [done|]. cbn [foldM fst snd].
  assert (dget name (st_entries st) = Some e) as He by (apply dget_NoDup; [done|]; apply Hl; by left).
  assert (dhas name (st_intents st) = true) as Hi by (rewrite <- (dhas_eq name _ _ Hk); unfold dhas; by rewrite He).
  unfold dhas in Hi. cbn [item]. destruct (dget name (st_intents st)) as [i|] eqn:Ei; [|done]. cbn [mbind res_bind].
  rewrite (Hb name e i He Ei). cbn [mbind res_bind]. apply IH. intros kv Hkv. apply Hl. by right.
Qed.

(** a set that was derived passes the check of sets: for every representation
    the intent is valid, the manifest has its digest, the payload of the intent is the
    payload of the manifest and the sum of its components, and ranks and planes agree. *)
Theorem derived_set_validates model config dtype chunk_tokens s names o manifest intents :
  derive_representation_set sha256 model config dtype chunk_tokens s names o = Ok (manifest, intents) →
  validate_representation_set sha256 (JObj manifest) intents = Ok tt.
Proof.
  unfold derive_representation_set. intros H. apply bind_Ok in H as (_ & _ & H). apply bind_Ok in H as ([total detail] & _ & H).
  apply bind_Ok in H as (rep & _ & H). apply bind_Ok in H as (_ & _ & H). apply bind_Ok in H as (st & Hst & H).
  apply bind_Ok in H as (ratios & _ & H). apply bind_Ok in H as (first & Hf & H). apply Ok_inj in H as [= <- <-].
  apply derive_all_in_step in Hst as [Hin Hne]. apply set_checked; [done| |done..]. apply Hne. by destruct names.
Qed.
End sets.

Lemma derived_set_validates_witness : ∃ manifest intents, ex_set = Ok (manifest, intents) ∧
  validate_representation_set (λ _, "aa") (JObj manifest) intents = Ok tt.
Proof.
  assert (is_ok ex_set = true) as Hok by (vm_compute; reflexivity). revert Hok. unfold ex_set.
  destruct (derive_representation_set _ _ _ _ _ _ _ _) as [[m i]|] eqn:E; [intros _|done].
  exists m, i. split; [reflexivity|].
  exact (derived_set_validates (λ _, "aa") "meta-llama/Llama-3.1-8B-Instruct" (JObj llama8b) "bfloat16" 256 ex_schedule [] ex_options m i E).
Defined.

(** ** The sizes of the forms *)
Lemma sum_Z_app l k : sum_Z (l ++ k) = sum_Z l + sum_Z k.
Proof. unfold sum_Z. induction l as [|x l IH]; simpl; [done|]. rewrite IH. lia. Qed.

(** Padding up to a multiple of the block. *)
Definition padded (o : rep_options) (raw payload : Z) : Prop :=
  ∃ padding, payload = raw + padding ∧ 0 ≤ padding ∧ (ro_pad o = false → padding = 0) ∧
    (ro_pad o = true → padding < ro_align o ∧ (ro_align o | payload)).

Lemma pad_components_ok o c : 0 < ro_align o →
  ∃ c', pad_components (ro_pad o) (ro_align o) c = Ok c' ∧ padded o (sum_Z (map snd c)) (sum_Z (map snd c')).
Proof.
  intros Ha. unfold pad_components, padded. destruct (ro_pad o); simpl; [|exists c; split; [done|]; exists 0; split_and!; done || lia].
  destruct (Z.eqb_spec (ro_align o) 0); [lia|]. cbn [raise_if mbind res_bind].
  set (s := sum_Z (map snd c)). pose proof (Z.mod_pos_bound (- s) (ro_align o) Ha) as Hm.
  assert (ro_align o | s + (- s) mod ro_align o) as Hd.
  { exists (- (- s / ro_align o)). pose proof (Z.div_mod (- s) (ro_align o) ltac:(lia)). lia. }
  eexists. split; [done|]. exists ((- s) mod ro_align o). split_and!; [|lia|done|].
  - destruct (Z.eqb_spec ((- s) mod ro_align o) 0) as [E|]; [rewrite E; unfold s; lia|].
    rewrite map_app, sum_Z_app. fold s. simpl. lia.
  - intros _. split; [lia|]. destruct (Z.eqb_spec ((- s) mod ro_align o) 0) as [E|]; [rewrite E, Z.add_0_r in Hd; done|].
    rewrite map_app, sum_Z_app. fold s. simpl. by rewrite Z.add_0_r.
Qed.

Lemma physical_extent_ok metadata payload align : 0 < align →
  ∃ extent, physical_extent metadata payload align = Ok extent ∧ (align | extent) ∧
    metadata + payload ≤ extent < metadata + payload + align.
Proof.
  intros Ha. unfold physical_extent. destruct (Z.eqb_spec align 0); [lia|]. eexists. split; [done|].
  split; [by apply Z.divide_factor_r|]. pose proof (Z.div_mod (- (metadata + payload)) align ltac:(lia)).
  pose proof (Z.mod_pos_bound (- (metadata + payload)) align Ha). lia.
Qed.

(** The families that have two planes. *)
Lemma resolve_family_cases model config fam : resolve_family model config = Ok fam →
  fam = "mla" ∨ in_tuple (JStr fam) ["default"; "gqa_head_dim"; "cla"] = true.
Proof.
  unfold resolve_family. intros H. assert (model_family model ∈ ["mla"; "cla"; "gqa_head_dim"; "default"]) as Hm.
  { unfold model_family. repeat (destruct (_ || _) || destruct (String.eqb _ "tencent/hunyuan-large")); repeat (apply list_elem_of_here || right). }
  destruct (negb _) eqn:E; [apply Ok_inj in H as <-; rewrite !elem_of_cons, elem_of_nil in Hm; destruct Hm as [->|[->|[->|[->|[]]]]]; auto|].
  apply bind_Ok in H as (lora & _ & H). apply bind_Ok in H as (rope & _ & H). destruct (py_true rope); [apply Ok_inj in H as <-; by left|].
  apply bind_Ok in H as (share & _ & H). destruct (py_true share); [apply Ok_inj in H as <-; by right|].
  apply bind_Ok in H as (hd & _ & H). destruct (negb (py_true hd)); [apply Ok_inj in H as <-; by right|].
  destruct (head_dim_differs config hd) as [[]|[[] ?]]; try done; apply Ok_inj in H as <-; by right.
Qed.

(** Options that a derivation accepts. *)
Record options_ok (o : rep_options) (tokens kv : Z) : Prop := {
  ook_ranks : ro_tp o < 2 ^ 1000 ∧ (1 < ro_tp o ≤ kv → kv mod ro_tp o = 0);
  ook_align : 0 < ro_align o;
  ook_hashes : forallb (λ k, bool_decide (k ∈ CODEC_HASH_KEYS)) (keys (ro_hashes o)) = true;
  ook_scope : ro_scale_scope o = "per_tensor" ∨
              (ro_scale_scope o = "per_page_head" ∧ 0 < ro_page_size o ∧ tokens mod ro_page_size o = 0)
}.

Lemma scale_shape_ok o detail tokens kv : options_ok o tokens kv → getd detail "num_key_value_heads" = JInt kv → 0 < kv →
  ∃ shape, _scale_shape detail tokens (ro_page_size o) (ro_scale_scope o) = Ok shape.
Proof.
  intros [_ _ _ Hs] Hk Hkv. unfold _scale_shape. destruct Hs as [->|(-> & Hp & Hm)]; [by eexists|].
  change (String.eqb "per_page_head" "per_tensor") with false. change (String.eqb "per_page_head" "per_page_head") with true.
  cbn [raise_unless mbind res_bind]. destruct (Z.leb_spec (ro_page_size o) 0); [lia|]. rewrite Hm. cbn [raise_if orb negb Z.eqb mbind res_bind].
  unfold kv_head_count. rewrite Hk. cbn [py_true py_int]. destruct (Z.eqb_spec kv 0); [lia|]. cbn [negb mbind res_bind].
  destruct (Z.leb_spec kv 0); [lia|]. by eexists.
Qed.

(** What the stored object of a form consists of. *)
Definition raw_payload (spec : rep_spec) (b : Z) (o : rep_options) (z : rep_sizes) : Z :=
  if is_none (sp_codec spec) then rz_k z + rz_v z
  else (if bool_decide ("k" ∈ sp_stored spec) then rz_k z else 0) + rz_v z / b
       + fold_left Z.mul (rz_scale_shape z) SCALE_DTYPE_BYTES + codec_header_bytes (rz_scale_shape z) (ro_hashes o).

Lemma derive_sizes_ok spec detail b tokens o kv plane fam : options_ok o tokens kv → 0 < kv → fam ≠ "mla" →
  getd detail "family" = JStr fam → getd detail "num_key_value_heads" = JInt kv → _plane_bytes detail b = Ok plane →
  ∃ z, derive_sizes spec detail b tokens o = Ok z ∧ rz_ranks z = Z.max (ro_tp o) 1 ∧
    rz_k z = plane / rank_divisor kv (ro_tp o) ∧ rz_v z = plane / rank_divisor kv (ro_tp o) ∧
    padded o (raw_payload spec b o z) (rz_payload z).
Proof.
  intros Hok Hkv Hm Hf Hk Hp. destruct (shard_heads detail fam kv (ro_tp o)) as [note Hs]; [done..|by apply ook_ranks in Hok as []|by apply ook_ranks in Hok as []|].
  unfold derive_sizes. rewrite Hp. cbn [mbind res_bind]. rewrite !Hs. cbn [mbind res_bind]. rewrite Z.eqb_refl. cbn [raise_unless mbind res_bind].
  set (r := plane / rank_divisor kv (ro_tp o)). unfold raw_payload, rz_payload.
  destruct (is_none (sp_codec spec)).
  - destruct (pad_components_ok o [("k", r); ("v", r)] (ook_align _ _ _ Hok)) as (c & -> & Hpad). cbn [mbind res_bind].
    eexists. split; [done|]. cbn. split_and!; try done. cbn in Hpad. by rewrite Z.add_0_r in Hpad.
  - destruct (scale_shape_ok _ _ _ _ Hok Hk Hkv) as [shape ->]. cbn [mbind res_bind].
    set (shape' := rank_scales (ro_tp o) (Z.max (ro_tp o) 1) shape).
    match goal with |- context [pad_components _ _ ?c] => destruct (pad_components_ok o c (ook_align _ _ _ Hok)) as (c' & -> & Hpad) end.
    cbn [mbind res_bind]. eexists. split; [done|]. cbn [rz_ranks rz_k rz_v rz_scale_shape rz_components]. split_and!; [done..|].
    rewrite map_app, sum_Z_app in Hpad. cbn [map sum_Z fold_right snd] in Hpad.
    match type of Hpad with padded _ ?x _ => match goal with |- padded _ ?y _ => replace y with x; [exact Hpad|] end end.
    destruct (bool_decide ("k" ∈ sp_stored spec)); cbn [map sum_Z fold_right snd]; lia.
Qed.

(** C26: for a model whose dimensions are exact, every form of a chunk accounts for the
    bytes of a rank. The derivation returns; the two planes of the entry are together
    exactly the share of the cache that the rank holds; one byte per element of V is
    exact; the stored payload is the planes that the form stores plus scales and header, padded to
    the block when asked and by less than a block; the extent is whole blocks that
    hold the metadata and the payload. *)
Theorem representation_bytes_exact model cfg fam n tokens dtype b kv name spec o :
  resolve_family model (JObj cfg) = Ok fam → fam ≠ "mla" → token_elements fam cfg = Some n →
  dget dtype DTYPE_BYTES = Some b → 0 < tokens → n * tokens * b < 2 ^ 53 →
  dim cfg "num_key_value_heads" = Some kv → options_ok o tokens kv → dget name REPRESENTATIONS = Some spec →
  ∃ total detail per ranks note z extent,
    kv_cache_bytes model (JObj cfg) tokens dtype = Ok (total, detail) ∧
    shard_kv_bytes total detail (ro_tp o) = Ok (per, ranks, note) ∧
    derive_representation name detail dtype tokens o = Ok (z, entry_json name dtype spec o z extent) ∧
    rz_ranks z = ranks ∧ rz_k z = rz_v z ∧ rz_k z + rz_v z = per ∧ b * (rz_v z / b) = rz_v z ∧
    padded o (raw_payload spec b o z) (rz_payload z) ∧
    (ro_align o | extent) ∧ ro_metadata o + rz_payload z ≤ extent < ro_metadata o + rz_payload z + ro_align o.
Proof.
  intros H1 Hm H2 H3 H4 H5 Hkv Hok Hsp.
  destruct (kv_cache_bytes_sized _ _ _ _ _ _ _ H1 H2 H3 H4 H5) as (Hn & Hb & detail & Hd & Hf & Hel & _ & Hk).
  destruct (Hk Hm) as (kv' & w & Hkv' & Hdk & Hnw). assert (kv' = kv) as -> by congruence. apply dim_item in Hkv as (_ & _ & Hkv0).
  destruct (rank_divisor_divides kv (ro_tp o) Hkv0) as [Hc0 [q Hq]]; [by apply ook_ranks in Hok as []|].
  destruct (shard_heads detail fam kv (ro_tp o)) as [note Hs]; [done..|by apply ook_ranks in Hok as []|by apply ook_ranks in Hok as []|].
  assert (_plane_bytes detail b = Ok (kv * w * tokens * b)) as Hplane.
  { unfold _plane_bytes. rewrite Hf. cbn [eq_str]. rewrite (proj2 (String.eqb_neq fam "mla") Hm). cbn [raise_if mbind res_bind].
    destruct (resolve_family_cases _ _ _ H1) as [?|Htuple]; [done|]. rewrite Htuple. cbn [raise_unless mbind res_bind item].
    unfold getd in Hel. destruct (dget "total_elements" detail) as [v|]; [|done]. simpl in Hel. subst v. cbn [mbind res_bind py_int].
    replace (n * tokens) with (kv * w * tokens * 2) by (rewrite Hnw; ring). rewrite Z.mod_mul, Z.div_mul by lia. done. }
  destruct (derive_sizes_ok spec detail b tokens o kv _ fam Hok Hkv0 Hm Hf Hdk Hplane) as (z & Hz & Hr & Hzk & Hzv & Hpad).
  destruct (physical_extent_ok (ro_metadata o) (rz_payload z) (ro_align o) (ook_align _ _ _ Hok)) as (extent & He & Hdiv & Hbound).
  exists (n * tokens * b), detail, (n * tokens * b / rank_divisor kv (ro_tp o)), (Z.max (ro_tp o) 1), note, z, extent.
  split; [done|]. split; [apply Hs|]. split.
  { unfold derive_representation. rewrite Hsp, H3, (ook_hashes _ _ _ Hok). cbn [raise_unless mbind res_bind]. rewrite Hz. cbn [mbind res_bind].
    rewrite He. done. }
  assert (rz_k z = q * w * tokens * b) as Hkq.
  { rewrite Hzk. generalize dependent (rank_divisor kv (ro_tp o)). intros c Hc ->. intros.
    replace (q * c * w * tokens * b) with (q * w * tokens * b * c) by ring. by rewrite Z.div_mul by lia. }
  assert (rz_v z = rz_k z) as Hvk by congruence. split_and!; try done || lia.
  - rewrite Hvk, Hkq, Hnw. clear Hzk Hzv Hs. generalize dependent (rank_divisor kv (ro_tp o)). intros c Hc ->.
    replace (2 * (q * c * w) * tokens * b) with (2 * (q * w * tokens * b) * c) by ring. rewrite Z.div_mul by lia. lia.
  - rewrite Hvk, Hkq. rewrite Z.div_mul by lia. lia.
Qed.

Lemma representation_bytes_exact_witness : ∃ spec per z, dget "v8_only" REPRESENTATIONS = Some spec ∧
  rz_k z + rz_v z = per ∧ 2 * (rz_v z / 2) = rz_v z ∧ padded ex_options (raw_payload spec 2 ex_options z) (rz_payload z).
Proof.
  destruct (dget "v8_only" REPRESENTATIONS) as [spec|] eqn:Hsp; [|discriminate].
  assert (options_ok ex_options 256 8) as Hok.
  { constructor; [split; [vm_compute; reflexivity|intros _; vm_compute; reflexivity]|vm_compute; reflexivity..|right; split_and!; vm_compute; reflexivity]. }
  destruct (representation_bytes_exact "meta-llama/Llama-3.1-8B-Instruct" llama8b "default" 65536 256 "bfloat16" 2 8 "v8_only" spec ex_options)
    as (total & detail & per & ranks & note & z & extent & _ & _ & _ & _ & _ & H1 & H2 & H3 & _);
    [vm_compute; reflexivity|done|vm_compute; reflexivity..|exact Hok|exact Hsp|].
  exists spec, per, z. split_and!; [reflexivity|done..].
Defined.
