(* ===== verification/Intent2.v ===== *)
(** * Captured object workloads ([tools/kvio/intent2.py])

    A [kvio.intent.v2] document: representations, object versions, the initial
    live set and the operations with their dependencies.  The file models the
    builders, the validator, the digests and the adapter that carries a v1
    document into this form. *)

From stdpp Require Import prelude strings list numbers gmap sorting.
From Stdlib Require Import ZArith Lia Ascii.
From S2P Require Import Prelude PyText PyJson JsonText Intent.
Local Open Scope Z_scope.

Definition SCHEMA2 : string := "kvio.intent.v2".
Definition KIND : string := "object-workload".

Definition CAPTURE_LEVELS : list string := ["generated"; "A1"; "request"].
Definition MAPPING_METHODS : list string := ["declared"; "verified"; "heuristic"].
Definition COMPLETENESS : list string := ["complete"; "partial"].
Definition TIMING_MODELS : list string := ["absent"; "captured"; "synthetic"].
Definition OPS : list string := ["store"; "load"; "release"].
Definition OUTCOMES : list string :=
  ["success"; "miss"; "already_present"; "rejected"; "short"; "cancelled"; "error"].
Definition TIERS : list string := ["storage"; "ram"; "unknown"].

(** The outcomes that excuse a load of something never stored. *)
Definition NOT_SERVED : list string := ["miss"; "cancelled"; "error"; "rejected"].

Definition i2err (m : string) : exn := Exn Intent2Error m.

Definition _int (value : json) (minimum : Z) : res Z :=
  match value with
  | JInt z => if z <? minimum then Raise (i2err "{where} must be an integer >= {minimum}") else Ok z
  | _ => Raise (i2err "{where} must be an integer >= {minimum}")
  end.

Definition _str (value : json) : res string :=
  match value with
  | JStr s => if String.eqb s "" then Raise (i2err "{where} must be a non-empty string") else Ok s
  | _ => Raise (i2err "{where} must be a non-empty string")
  end.

Definition _enum (value : json) (allowed : list string) : res json :=
  raise_unless (in_tuple value allowed) (i2err "{where} must be one of {allowed}, not {value!r}") ;;
  Ok value.

(** ** Building *)

(** [list(x or default)] on an optional list. *)
Definition new_intent (capture_level mapping_method timing_model : string) (engine : dict)
    (completeness : string) (notes : list json) (source : dict) : res dict :=
  layout ← match default (JObj []) (dget "layout" engine) with
           | JObj l => Ok l
           | _ => Raise (Exn TypeError "dict()")
           end;
  Ok [("schema", JStr SCHEMA2); ("kind", JStr KIND);
      ("provenance", JObj [("capture_level", JStr capture_level);
                           ("mapping_method", JStr mapping_method);
                           ("completeness", JObj [("status", JStr completeness); ("notes", JList notes)]);
                           ("timing_model", JStr timing_model);
                           ("source", JObj source)]);
      ("engine", JObj [("name", default (JStr "unknown") (dget "name" engine));
                       ("revision", default (JStr "unknown") (dget "revision" engine));
                       ("layout", JObj layout)]);
      ("representations", JObj []); ("objects", JObj []);
      ("initial_state", JObj [("live", JList [])]);
      ("operations", JList []); ("health", JObj []);
      ("timing", JObj [("sidecar", JNull); ("sidecar_sha256", JNull)])].

(** [d[k]] as a dictionary or a list, for the in-place updates below. *)
Definition dict_at (d : dict) (k : string) : res dict :=
  v ← item (JObj d) k;
  match v with JObj x => Ok x | _ => Raise (Exn TypeError "object does not support item assignment") end.

Definition list_at (d : dict) (k : string) : res (list json) :=
  v ← item (JObj d) k;
  match v with JList x => Ok x | _ => Raise (Exn AttributeError "object has no attribute 'append'") end.

Definition add_representation (intent : dict) (rep_id : string) (codec encoded_bytes logical_bytes : json)
    (components : list json) : res dict :=
  reps ← dict_at intent "representations";
  let comps := match components with
               | [] => [JObj [("role", JStr "payload"); ("offset", JInt 0); ("length", encoded_bytes)]]
               | _ => components
               end in
  Ok (dset "representations" (JObj (dset rep_id (JObj [
        ("codec", codec); ("encoded_bytes", encoded_bytes); ("logical_bytes", logical_bytes);
        ("components", JList comps)]) reps)) intent).

Definition add_object_version (intent : dict) (object_id : string) (version : json)
    (representation : string) : res dict :=
  reps ← item (JObj intent) "representations";
  rep ← item reps representation;
  objects ← dict_at intent "objects";
  entry ← match dget object_id objects with
          | None => Ok [("versions", JObj [])]
          | Some (JObj e) => Ok e
          | Some _ => Raise (Exn TypeError "indices must be integers")
          end;
  versions ← dict_at entry "versions";
  bytes ← item rep "encoded_bytes";
  let versions' := dset (py_str version)
    (JObj [("representation", JStr representation); ("bytes", bytes)]) versions in
  Ok (dset "objects" (JObj (dset object_id (JObj (dset "versions" (JObj versions') entry)) objects)) intent).

Definition add_operation (intent : dict) (op_id op object_id : string) (version : json) (stream : json)
    (deps : list json) (range batch_id release_ns declared_delay_ns source_outcome requested_bytes : json)
    : res dict :=
  requested ← (if is_none requested_bytes then
                 if negb (is_none range) then item range "length"
                 else if String.eqb op "release" then Ok (JInt 0)
                 else objects ← item (JObj intent) "objects";
                      o ← item objects object_id;
                      vs ← item o "versions";
                      v ← item vs (py_str version);
                      item v "bytes"
               else Ok requested_bytes);
  ops ← list_at intent "operations";
  Ok (dset "operations" (JList (ops ++ [JObj [
        ("op_id", JStr op_id); ("seq", JInt (Z.of_nat (length ops))); ("op", JStr op);
        ("object_id", JStr object_id); ("version", version); ("range", range);
        ("stream", stream); ("batch_id", batch_id); ("deps", JList deps);
        ("release_ns", release_ns); ("declared_delay_ns", declared_delay_ns);
        ("requested_bytes", requested); ("source_outcome", source_outcome)]])) intent).

(** ** Validating *)

(** One component of a representation; the state is the bytes covered. *)
Definition check_component (covered : Z) (c : json) : res Z :=
  role ← get c "role"; _str role ;;
  o ← get c "offset"; off ← _int o 0;
  l ← get c "length"; ln ← _int l 1;
  raise_if (negb (off =? covered)) (i2err "{where}.components must tile the object without gaps") ;;
  Ok (covered + ln).

Definition check_representation (kv : string * json) : res unit :=
  let '(rep_id, rep) := kv in
  _str (JStr rep_id) ;;
  codec ← get rep "codec"; _str codec ;;
  e ← get rep "encoded_bytes"; size ← _int e 1;
  lb ← get rep "logical_bytes";
  (if is_none lb then Ok 0 else _int lb 0) ;;
  comps ← get rep "components";
  match comps with
  | JList (c :: cs) =>
      covered ← foldM check_component 0 (c :: cs);
      raise_if (negb (covered =? size)) (i2err "{where}.components cover {covered} bytes, not {size}")
  | _ => Raise (i2err "{where}.components must be a non-empty list")
  end.

Definition check_version (reps : dict) (kv : string * json) : res unit :=
  let '(v, ver) := kv in
  raise_unless (isdigit v) (i2err "objects[{object_id}] version {v!r} must be an integer") ;;
  let rep := match ver with JObj d => getd d "representation" | _ => JNull end in
  known ← in_keys rep reps;
  raise_unless known (i2err "objects[{object_id}].versions[{v}] names an unknown representation") ;;
  match rep with
  | JStr r =>
      rd ← item (JObj reps) r; eb ← item rd "encoded_bytes";
      b ← get ver "bytes";
      raise_unless (py_eq b eb) (i2err "objects[{object_id}].versions[{v}].bytes disagrees with its representation")
  | _ => Raise (Exn KeyError "rep")
  end.

Definition check_object2 (reps : dict) (kv : string * json) : res unit :=
  let '(object_id, obj) := kv in
  _str (JStr object_id) ;;
  match (match obj with JObj d => getd d "versions" | _ => JNull end) with
  | JObj (v :: vs) => mapMR (check_version reps) (v :: vs) ;; Ok tt
  | _ => Raise (i2err "objects[{object_id}].versions must be non-empty")
  end.

(** [oid not in objects or str(ver) not in objects[oid]["versions"]]: the
    object's entry for that version, or the error [e]. *)
Definition lookup_version (objects : dict) (oid ver : json) (e : exn) : res (string * string * json) :=
  known ← in_keys oid objects;
  raise_unless known e ;;
  match oid with
  | JStr o =>
      od ← item (JObj objects) o; vs ← item od "versions";
      match vs with
      | JObj vd => match dget (py_str ver) vd with
                   | Some entry => Ok (o, py_str ver, entry)
                   | None => Raise e
                   end
      | _ => Raise (Exn TypeError "argument is not iterable")
      end
  | _ => Raise e
  end.

Notation okey := (string * string)%type.

Definition check_live (objects : dict) (live_set : gset okey) (it : json) : res (gset okey) :=
  oid ← get it "object_id";
  ver ← get it "version";
  k ← lookup_version objects oid ver (i2err "initial_state names unknown object {oid!r} version {ver!r}");
  tier ← get_default it "tier" (JStr "storage");
  _enum tier TIERS ;;
  Ok ({[ k.1 ]} ∪ live_set).

(** The loop state: the op ids seen with their positions, and the keys
    visible so far.  ([released] is only ever written.) *)
Record vstate := { vs_seen : gmap string nat; vs_stored : gset okey }.

Definition check_range (rng size : json) (verb : string) : res unit :=
  if is_none rng then Ok tt else
  o ← get rng "offset"; off ← _int o 0;
  l ← get rng "length"; ln ← _int l 1;
  raise_if (py_ltb size (JInt (off + ln))) (i2err "{where}.range exceeds the object") ;;
  raise_unless (String.eqb verb "load") (i2err "{where}: only loads take a range").

Definition check_dep (seen : gmap string nat) (seq : nat) (d : json) : res unit :=
  let e := i2err "{where} depends on {d!r}, which is not an earlier operation" in
  match d with
  | JStr s => match seen !! s with
              | Some i => raise_if (seq <=? i)%nat e
              | None => Raise e
              end
  | JList _ | JObj _ => unhashable
  | _ => Raise e
  end.

Definition check_times (timing_model : json) (o : dict) : res unit :=
  (if negb (is_none (getd o "release_ns")) then
     _int (getd o "release_ns") 0 ;;
     raise_if (eq_str timing_model "absent") (i2err "{where} carries release_ns but the timing model is absent")
   else raise_if (eq_str timing_model "captured")
          (i2err "{where} lacks release_ns under a captured timing model")) ;;
  (if is_none (getd o "declared_delay_ns") then Ok 0 else _int (getd o "declared_delay_ns") 0) ;;
  Ok tt.

(** The store/load/release bookkeeping at the end of the loop body. *)
Definition visibility (stored : gset okey) (verb : string) (key : okey) (outcome : json) : res (gset okey) :=
  if String.eqb verb "store" then Ok ({[ key ]} ∪ stored)
  else if String.eqb verb "load" then
    raise_if (negb (bool_decide (key ∈ stored)) && negb (in_tuple outcome NOT_SERVED))
      (i2err "{where} loads {oid!r} v{ver} before any store or initial state") ;;
    Ok stored
  else Ok (stored ∖ {[ key ]}).

Definition check_op2 (objects : dict) (timing_model : json) (st : vstate) (seq : nat) (op : json)
    : res vstate :=
  match op with
  | JObj o =>
      raise_unless (py_eq (getd o "seq") (JInt (Z.of_nat seq))) (i2err "{where}.seq must equal its position") ;;
      op_id ← _str (getd o "op_id");
      raise_if (bool_decide (is_Some (vs_seen st !! op_id))) (i2err "{where}.op_id {op_id!r} is not unique") ;;
      let seen := <[ op_id := seq ]> (vs_seen st) in
      verb ← _enum (getd o "op") OPS;
      k ← lookup_version objects (getd o "object_id") (getd o "version")
            (i2err "{where} names unknown object {oid!r} version {ver!r}");
      size ← item k.2 "bytes";
      check_range (getd o "range") size (py_str verb) ;;
      _int (getd o "requested_bytes") 0 ;;
      raise_if (is_none (getd o "stream")) (i2err "{where}.stream is required") ;;
      match getd o "deps" with
      | JList deps =>
          mapMR (check_dep seen seq) deps ;;
          (if is_none (getd o "source_outcome") then Ok JNull else _enum (getd o "source_outcome") OUTCOMES) ;;
          check_times timing_model o ;;
          stored ← visibility (vs_stored st) (py_str verb) k.1 (getd o "source_outcome");
          Ok {| vs_seen := seen; vs_stored := stored |}
      | _ => Raise (i2err "{where}.deps must be a list")
      end
  | _ => Raise (i2err "{where}.seq must equal its position")
  end.

(** Returns the timing model. *)
Definition check_provenance (prov : json) : res json :=
  match prov with
  | JObj pv =>
      _enum (getd pv "capture_level") CAPTURE_LEVELS ;;
      _enum (getd pv "mapping_method") MAPPING_METHODS ;;
      match getd pv "completeness" with
      | JObj comp =>
          _enum (getd comp "status") COMPLETENESS ;;
          timing_model ← _enum (getd pv "timing_model") TIMING_MODELS;
          raise_if (eq_str (getd pv "capture_level") "A1" && eq_str (getd pv "mapping_method") "heuristic")
            (i2err "an engine-boundary capture cannot have a heuristic object mapping") ;;
          raise_if (eq_str (getd pv "capture_level") "generated" && eq_str timing_model "captured")
            (i2err "a generated workload has no captured timing") ;;
          Ok timing_model
      | _ => Raise (i2err "provenance.completeness must be an object")
      end
  | _ => Raise (i2err "provenance must be an object")
  end.

Definition check_engine (engine : json) : res unit :=
  match engine with
  | JObj e =>
      _str (getd e "name") ;; _str (getd e "revision") ;;
      raise_unless (is_dict (getd e "layout")) (i2err "engine.layout must be an object")
  | _ => Raise (i2err "engine must be an object")
  end.

Definition check_timing (timing timing_model : json) : res unit :=
  match timing with
  | JObj t =>
      raise_if (eq_str timing_model "captured" &&
                (negb (py_true (getd t "sidecar")) || negb (py_true (getd t "sidecar_sha256"))))
        (i2err "a captured timing model requires a timing sidecar bound by digest")
  | _ => Raise (i2err "timing must be an object")
  end.

Definition validate_intent2 (intent : json) : res unit :=
  match intent with
  | JObj d =>
      raise_unless (eq_str (getd d "schema") SCHEMA2) (i2err "unsupported schema: {}") ;;
      raise_unless (eq_str (getd d "kind") KIND) (i2err "kind must be {KIND!r}") ;;
      timing_model ← check_provenance (getd d "provenance");
      check_engine (getd d "engine") ;;
      match getd d "representations" with
      | JObj (r :: rs) =>
          let reps := r :: rs in
          mapMR check_representation reps ;;
          match getd d "objects" with
          | JObj objects =>
              mapMR (check_object2 reps) objects ;;
              live ← get (default (JObj []) (dget "initial_state" d)) "live";
              match live with
              | JList items =>
                  live_set ← foldM (check_live objects) ∅ items;
                  match getd d "operations" with
                  | JList ops =>
                      foldiM (check_op2 objects timing_model) 0
                        {| vs_seen := ∅; vs_stored := live_set |} ops ;;
                      check_timing (getd d "timing") timing_model ;;
                      raise_unless (is_dict (getd d "health")) (i2err "health must be an object")
                  | _ => Raise (i2err "operations must be a list")
                  end
              | _ => Raise (i2err "initial_state.live must be a list")
              end
          | _ => Raise (i2err "objects must be an object")
          end
      | _ => Raise (i2err "representations must be a non-empty object")
      end
  | _ => Raise (i2err "unsupported schema: {}")
  end.

(** ** Digests and the v1 adapter *)
Section digests.
(** [hashlib.sha256(data).hexdigest()] *)
Variable sha256 : string → string.

Definition canonical_json (value : json) : string := dumps Compact value.

Definition intent2_sha256 (intent : json) : res string :=
  validate_intent2 intent ;; Ok (sha256 (canonical_json intent)).

(** The bytes fed to the hash object of [bundle_sha256]. *)
Definition bundle_bytes (intent : json) (sidecar_bytes : option string) (target : option json)
    : res string :=
  validate_intent2 intent ;;
  prov ← item intent "provenance";
  tm ← item prov "timing_model";
  side ← (if eq_str tm "captured" then
            match sidecar_bytes with
            | None => Raise (i2err "bundle digest needs the timing sidecar bytes")
            | Some bytes =>
                timing ← item intent "timing";
                bound ← item timing "sidecar_sha256";
                raise_unless (eq_str bound (sha256 bytes))
                  (i2err "timing sidecar does not match the digest the intent binds") ;;
                Ok bytes
            end
          else Ok "");
  Ok (canonical_json intent +:+ side +:+
      match target with Some t => canonical_json t | None => "" end).

Definition bundle_sha256 (intent : json) (sidecar_bytes : option string) (target : option json)
    : res string :=
  b ← bundle_bytes intent sidecar_bytes target; Ok (sha256 b).

(** The loop state of [normalize_v1].  Pass and stream keys are numbers that
    the validator found equal to integers; equal numbers are one key. *)
Record nstate := {
  ns_intent : dict;
  ns_prev : gmap (Z * string * Z) string;
  ns_stores : gmap Z (list string);
  ns_loads : gmap Z (list string)
}.

(** [int(d.split("/")[1])] *)
Definition dep_key (d : string) : res Z :=
  match split_on 47 d with
  | _ :: n :: _ => int_of_str n
  | _ => Raise (Exn IndexError "list index out of range")
  end.

Definition key_le (a b : Z * string) : Prop := a.1 ≤ b.1.
#[global] Instance key_le_dec : RelDecision key_le.
Proof. intros a b. unfold key_le. apply _. Defined.

(** [sorted(set(deps), key=...)]: distinct op ids have distinct numbers, so
    the iteration order of the set does not matter. *)
Definition sorted_deps (deps : list string) : res (list string) :=
  ks ← mapMR (λ d, k ← dep_key d; Ok (k, d)) (remove_dups deps);
  Ok (map snd (stable_sort key_le ks)).

Definition as_str (v : json) : res string :=
  match v with JStr s => Ok s | _ => Raise (Exn TypeError "unhashable or unexpected key") end.

Definition normalize_op (rep : string) (st : nstate) (op1 : json) : res nstate :=
  oj ← item op1 "logical_object"; oid ← as_str oj;
  objects ← dict_at (ns_intent st) "objects";
  intent ← (if dhas oid objects then Ok (ns_intent st)
            else add_object_version (ns_intent st) oid (JInt 1) rep);
  p ← item op1 "pass"; ph ← item op1 "phase"; phase ← as_str ph; s ← item op1 "stream";
  pk ← py_int p; sk ← py_int s;
  let deps0 := match ns_prev st !! (pk, phase, sk) with Some d => [d] | None => [] end in
  deps1 ← (if String.eqb phase "load" then Ok (deps0 ++ default [] (ns_stores st !! pk))
           else if py_ltb (JInt 0) p then
             q ← py_sub p (JInt 1); qk ← py_int q; Ok (deps0 ++ default [] (ns_loads st !! qk))
           else Ok deps0);
  sq ← item op1 "sequence";
  let op_id := "v1/" +:+ py_str sq in
  deps ← sorted_deps deps1;
  intent' ← add_operation intent op_id phase oid (JInt 1) (JStr ("s" +:+ py_str s)) (JStr <$> deps)
    JNull (JStr ("pass" +:+ py_str p +:+ "/" +:+ phase +:+ "/s" +:+ py_str s)) JNull JNull JNull JNull;
  let push (m : gmap Z (list string)) := <[ pk := default [] (m !! pk) ++ [op_id] ]> m in
  Ok {| ns_intent := intent';
        ns_prev := <[ (pk, phase, sk) := op_id ]> (ns_prev st);
        ns_stores := if String.eqb phase "store" then push (ns_stores st) else ns_stores st;
        ns_loads := if String.eqb phase "store" then ns_loads st else push (ns_loads st) |}.

(** [v2["provenance"]["completeness"]["notes"].append(note)] *)
Definition append_note (intent : dict) (note : string) : res dict :=
  prov ← dict_at intent "provenance";
  comp ← dict_at prov "completeness";
  notes ← list_at comp "notes";
  Ok (dset "provenance" (JObj (dset "completeness" (JObj (dset "notes"
        (JList (notes ++ [JStr note])) comp)) prov)) intent).

Definition normalize_v1 (intent_v1 : json) : res json :=
  validate_intent intent_v1 ;;
  object ← item intent_v1 "object";
  md ← item object "store_metadata_bytes";
  rk ← item object "ranks_per_chunk";
  digest ← intent_sha256 sha256 intent_v1;
  model ← item intent_v1 "model";
  execution ← item intent_v1 "execution";
  v2 ← new_intent "generated" "declared" "absent"
         [("name", JStr "lmcache-raw_block"); ("revision", JStr "vendored");
          ("layout", JObj [("store_metadata_bytes", md); ("ranks_per_chunk", rk)])]
         "complete" []
         [("schema", JStr "kvio.intent.v1"); ("sha256", JStr digest); ("model", model);
          ("execution", execution)];
  payload ← item object "payload_bytes";
  v2 ← add_representation v2 "v1-payload" (JStr "opaque") payload JNull [];
  streams ← item execution "streams";
  ops ← item intent_v1 "operations";
  match ops with
  | JList operations =>
      st ← foldM (normalize_op "v1-payload")
             {| ns_intent := v2; ns_prev := ∅; ns_stores := ∅; ns_loads := ∅ |} operations;
      emitted ← list_at (ns_intent st) "operations";
      let v2 := dset "health" (JObj [("source", JStr "generated");
                  ("emitted", JInt (Z.of_nat (length emitted))); ("dropped", JInt 0)]) (ns_intent st) in
      v2 ← append_note v2 (py_str streams +:+
             " streams; phase barriers and per-stream order carried as dependencies");
      validate_intent2 (JObj v2) ;; Ok (JObj v2)
  | _ => Raise (Exn TypeError "operations is not iterable")
  end.
End digests.

Example normalize_ex : is_ok (normalize_v1 (λ _, "00") ex_intent_doc) = true.
Proof. vm_compute. reflexivity. Qed.

(** ** What an accepted document guarantees *)

(** [v.get(k)] on an object, [None] on anything else. *)
Definition fld (v : json) (k : string) : json := match v with JObj d => getd d k | _ => JNull end.

(** Operation [op] has the verb [verb] and acts on the version [k]. *)
Definition acts (verb : string) (op : json) (k : okey) : Prop :=
  fld op "op" = JStr verb ∧ fld op "object_id" = JStr k.1 ∧ py_str (fld op "version") = k.2.

(** Version [k] is present after the operations [pre]: it was live at the
    start or stored, and not released since. *)
Definition visible (live : gset okey) : list json → okey → Prop :=
  latched (.∈ live) (acts "store") (acts "release").

(** The byte range of a load lies inside an object of [size] bytes. *)
Definition range_inside (rng size : json) : Prop :=
  ∃ off ln, fld rng "offset" = JInt off ∧ fld rng "length" = JInt ln ∧ 0 ≤ off ∧ 1 ≤ ln ∧
    py_ltb size (JInt (off + ln)) = false.

(** Absent, or a non-negative integer. *)
Definition opt_time (v : json) : Prop := v = JNull ∨ ∃ z, v = JInt z ∧ 0 ≤ z.

(** The promises of one operation, given the operations before it. *)
Record op_sound (objects : dict) (live : gset okey) (pre : list json) (op : json) : Prop := {
  os_id : ∃ id, fld op "op_id" = JStr id ∧ id ≠ "" ∧
    ∀ i op', pre !! i = Some op' → fld op' "op_id" ≠ JStr id;
  os_object : ∃ k entry, fld op "object_id" = JStr k.1 ∧ py_str (fld op "version") = k.2 ∧
    dget k.2 (as_dict (fld (getd objects k.1) "versions")) = Some entry ∧
    (fld op "range" ≠ JNull → fld op "op" = JStr "load" ∧ range_inside (fld op "range") (fld entry "bytes")) ∧
    (fld op "op" = JStr "load" →
       visible live pre k ∨ ∃ out, fld op "source_outcome" = JStr out ∧ out ∈ NOT_SERVED);
  os_deps : ∃ deps, fld op "deps" = JList deps ∧
    ∀ d, d ∈ deps → ∃ i op' id, pre !! i = Some op' ∧ fld op' "op_id" = d ∧ d = JStr id;
  os_fields : (∃ verb, fld op "op" = JStr verb ∧ verb ∈ OPS) ∧
    (∃ z, fld op "requested_bytes" = JInt z ∧ 0 ≤ z) ∧
    opt_time (fld op "release_ns") ∧ opt_time (fld op "declared_delay_ns")
}.

(** The invariant of the loop over the operations. *)
Record loop_inv (objects : dict) (live : gset okey) (pre : list json) (st : vstate) : Prop := {
  li_seen : ∀ id i, vs_seen st !! id = Some i → ∃ op, pre !! i = Some op ∧ fld op "op_id" = JStr id;
  li_ids : ∀ i op id, pre !! i = Some op → fld op "op_id" = JStr id → is_Some (vs_seen st !! id);
  li_stored : ∀ k, k ∈ vs_stored st ↔ visible live pre k;
  li_ops : ∀ s op, pre !! s = Some op → op_sound objects live (take s pre) op
}.

Lemma _str_Ok v s : _str v = Ok s ↔ v = JStr s ∧ s ≠ "".
Proof.
  destruct v as [| | | |t| |]; simpl; try (split; [done|by intros [? _]]).
  destruct (String.eqb_spec t ""); split; [done|intros [[= ->] ?]; done|..].
  - intros H. apply Ok_inj in H as <-. done.
  - by intros [[= ->] _].
Qed.

Lemma _int_Ok v m z : _int v m = Ok z ↔ v = JInt z ∧ m ≤ z.
Proof.
  destruct v as [| |t| | | |]; simpl; try (split; [done|by intros [? _]]).
  destruct (Z.ltb_spec t m); split; [done|intros [[= ->] ?]; lia|..].
  - intros H'. apply Ok_inj in H' as <-. done.
  - by intros [[= ->] _].
Qed.

Lemma _enum_Ok v l x : _enum v l = Ok x ↔ x = v ∧ ∃ s, v = JStr s ∧ s ∈ l.
Proof.
  unfold _enum. rewrite <- in_tuple_true. destruct (in_tuple v l); simpl.
  - split; [intros H; apply Ok_inj in H as <-; done|by intros [-> _]].
  - split; [done|by intros [_ ?]].
Qed.

Lemma lookup_version_Ok objects oid ver e o v entry :
  lookup_version objects oid ver e = Ok (o, v, entry) →
  oid = JStr o ∧ v = py_str ver ∧ dget v (as_dict (fld (getd objects o) "versions")) = Some entry.
Proof.
  unfold lookup_version. intros H. res_inv. destruct oid as [| | | |o'| |]; try done.
  apply bind_Ok in H as (od & Hod & H). apply bind_Ok in H as (vs & Hvs & H).
  destruct vs as [| | | | | |vd]; try done.
  destruct (dget (py_str ver) vd) as [en|] eqn:Ev; [|done]. apply Ok_inj in H as [= <- <- <-].
  split; [done|]. split; [done|].
  unfold item in Hod. destruct (dget o' objects) as [od'|] eqn:Eo; [|done]. apply Ok_inj in Hod as <-.
  destruct od' as [| | | | | |dd]; try done. unfold item in Hvs.
  destruct (dget "versions" dd) eqn:Ed; [|done]. apply Ok_inj in Hvs as ->.
  unfold getd at 1. rewrite Eo. simpl. unfold getd. by rewrite Ed.
Qed.

Lemma check_range_Ok rng size verb :
  check_range rng size verb = Ok tt → rng ≠ JNull → verb = "load" ∧ range_inside rng size.
Proof.
  unfold check_range. intros H Hn. destruct (is_none rng) eqn:En; [by destruct rng|].
  destruct rng as [| | | | | |r]; try done.
  apply bind_Ok in H as (o & Ho & H). apply bind_Ok in H as (off & Hoff & H).
  apply bind_Ok in H as (l & Hl & H). apply bind_Ok in H as (ln & Hln & H). res_inv.
  apply String.eqb_eq in H. split; [done|].
  apply Ok_inj in Ho as <-. apply Ok_inj in Hl as <-.
  apply _int_Ok in Hoff as [? ?], Hln as [? ?]. by exists off, ln.
Qed.

Lemma check_dep_Ok seen seq d : check_dep seen seq d = Ok tt → ∃ s i, d = JStr s ∧ seen !! s = Some i ∧ (i < seq)%nat.
Proof.
  destruct d as [| | | |s| |]; try done. simpl. destruct (seen !! s) as [i|] eqn:E; [|done].
  intros H. apply raise_if_Ok, Nat.leb_gt in H. by exists s, i.
Qed.

Lemma visibility_Ok stored verb key out stored' :
  verb ∈ OPS → visibility stored verb key out = Ok stored' →
  (verb = "store" ∧ stored' = {[ key ]} ∪ stored) ∨
  (verb = "load" ∧ stored' = stored ∧ (key ∈ stored ∨ ∃ o, out = JStr o ∧ o ∈ NOT_SERVED)) ∨
  (verb = "release" ∧ stored' = stored ∖ {[ key ]}).
Proof.
  intros Hv H. unfold visibility in H. unfold OPS in Hv.
  repeat (apply elem_of_cons in Hv as [->|Hv]); [..|by inversion Hv]; lazy beta iota delta [String.eqb Ascii.eqb Bool.eqb] in H.
  - left. by apply Ok_inj in H.
  - right; left. res_inv. split; [done|]. split; [done|].
    destruct (bool_decide_reflect (key ∈ stored')); [by left|]. right.
    apply in_tuple_true. by destruct (in_tuple out NOT_SERVED).
  - right; right. by apply Ok_inj in H.
Qed.

Lemma check_times_Ok tm o :
  check_times tm o = Ok tt → opt_time (getd o "release_ns") ∧ opt_time (getd o "declared_delay_ns").
Proof.
  unfold check_times. intros H. apply bind_Ok in H as (u & H1 & H). apply bind_Ok in H as (z2 & H2 & _).
  unfold opt_time. split.
  - destruct (is_none (getd o "release_ns")) eqn:E; [left; by destruct (getd o "release_ns")|right].
    cbn [negb] in H1. apply bind_Ok in H1 as (z & Hz & _). apply _int_Ok in Hz. by exists z.
  - destruct (is_none (getd o "declared_delay_ns")) eqn:E; [left; by destruct (getd o "declared_delay_ns")|right].
    apply _int_Ok in H2. by exists z2.
Qed.

(** The facts behind one accepted operation. *)
Lemma check_op2_Ok objects tm st seq op st' :
  check_op2 objects tm st seq op = Ok st' →
  ∃ id verb k entry deps,
    fld op "op_id" = JStr id ∧ id ≠ "" ∧ vs_seen st !! id = None ∧
    vs_seen st' = <[ id := seq ]> (vs_seen st) ∧
    fld op "op" = JStr verb ∧ verb ∈ OPS ∧
    fld op "object_id" = JStr k.1 ∧ py_str (fld op "version") = k.2 ∧
    dget k.2 (as_dict (fld (getd objects k.1) "versions")) = Some entry ∧
    (fld op "range" ≠ JNull → verb = "load" ∧ range_inside (fld op "range") (fld entry "bytes")) ∧
    fld op "deps" = JList deps ∧
    (∀ d, d ∈ deps → ∃ s i, d = JStr s ∧ vs_seen st' !! s = Some i ∧ (i < seq)%nat) ∧
    visibility (vs_stored st) verb k (fld op "source_outcome") = Ok (vs_stored st') ∧
    (∃ z, fld op "requested_bytes" = JInt z ∧ 0 ≤ z) ∧
    opt_time (fld op "release_ns") ∧ opt_time (fld op "declared_delay_ns").
Proof.
  destruct op as [| | | | | |o]; try done. unfold check_op2. intros H. cbn [fld].
  apply bind_Ok in H as ([] & _ & H). apply bind_Ok in H as (id & Hid & H).
  apply _str_Ok in Hid as [Hid Hne]. apply bind_Ok in H as ([] & Hnew & H).
  apply raise_if_Ok, bool_decide_eq_false, eq_None_not_Some in Hnew.
  apply bind_Ok in H as (vj & Hv & H). apply _enum_Ok in Hv as (-> & verb & Everb & Hverb).
  apply bind_Ok in H as ([[ko kv] entry] & Hk & H).
  apply lookup_version_Ok in Hk as (Eo & -> & Hentry).
  apply bind_Ok in H as (size & Hsize & H). apply bind_Ok in H as ([] & Hrng & H).
  apply bind_Ok in H as (rb & Hrb & H). apply _int_Ok in Hrb as [Hrb Hrb0].
  apply bind_Ok in H as ([] & _ & H).
  destruct (getd o "deps") as [| | | | |deps|] eqn:Edeps; try done.
  apply bind_Ok in H as (us & Hdeps & H). apply bind_Ok in H as (? & _ & H).
  apply bind_Ok in H as ([] & Htm & H). apply bind_Ok in H as (stored & Hvis & H).
  apply check_times_Ok in Htm as [Ht1 Ht2].
  rewrite Everb in Hvis, Hrng. apply Ok_inj in H as <-.
  exists id, verb, (ko, py_str (getd o "version")), entry, deps. cbn [fst snd vs_seen vs_stored].
  split_and!; try done.
  - intros Hn. apply (check_range_Ok _ _ _ Hrng) in Hn as [? ?]. split; [done|].
    destruct entry as [| | | | | |ed]; try done. cbn [fld]. cbn in Hsize. unfold getd.
    destruct (dget "bytes" ed); [|done]. by apply Ok_inj in Hsize as ->.
  - apply mapMR_Ok in Hdeps. intros d (i & Hi)%list_elem_of_lookup.
    destruct (Forall2_lookup_l _ _ _ _ _ Hdeps Hi) as (u & _ & Hu). destruct u. by apply check_dep_Ok in Hu.
  - by exists rb.
Qed.

Lemma stored_step live pre op k verb stored stored' out :
  (∀ k', k' ∈ stored ↔ visible live pre k') →
  fld op "op" = JStr verb → verb ∈ OPS → fld op "object_id" = JStr k.1 → py_str (fld op "version") = k.2 →
  visibility stored verb k out = Ok stored' →
  ∀ k', k' ∈ stored' ↔ visible live (pre ++ [op]) k'.
Proof.
  intros Hst Hop Hin Ho Hv Hvis k'.
  assert (∀ v k2, acts v op k2 ↔ v = verb ∧ k2 = k) as Hacts.
  { intros v [a b]. unfold acts. rewrite Hop, Ho, Hv. destruct k as [a' b']. simpl.
    split; [by intros ([= ->] & [= ->] & ->)|by intros [-> [= -> ->]]]. }
  unfold visible. rewrite latched_snoc by (intros [[E1 _]%Hacts [E2 _]%Hacts]; congruence).
  rewrite !Hacts. fold (visible live). rewrite <- Hst.
  destruct (visibility_Ok _ _ _ _ _ Hin Hvis) as [[-> ->]|[(-> & -> & _)|[-> ->]]]; set_solver.
Qed.

Lemma loop_inv_step objects tm live pre st op st' :
  loop_inv objects live pre st → check_op2 objects tm st (length pre) op = Ok st' →
  loop_inv objects live (pre ++ [op]) st'.
Proof.
  intros [Hseen Hids Hst Hops] H.
  apply check_op2_Ok in H as (id & verb & k & entry & deps & Hid & Hne & Hnew & Hseen' & Hverb & Hin &
    Ho & Hv & Hent & Hrng & Hdeps & Hd & Hvis & Hreq & Ht1 & Ht2).
  assert (∀ i op', pre !! i = Some op' → fld op' "op_id" ≠ JStr id) as Hfresh.
  { intros i op' Hi He. destruct (Hids _ _ _ Hi He) as [? ?]. congruence. }
  constructor.
  - intros id' i. rewrite Hseen'. intros [[-> <-]|[_ Hi]]%lookup_insert_Some.
    + exists op. split; [by apply lookup_snoc_cases; right|done].
    + destruct (Hseen _ _ Hi) as (op' & ? & ?). exists op'. split; [by apply lookup_snoc_cases; left|done].
  - intros i op' id' Hi He. rewrite Hseen', lookup_insert_is_Some.
    apply lookup_snoc_cases in Hi as [Hi|[-> ->]]; [|left; congruence].
    destruct (decide (id = id')); [by left|]. right. split; [done|]. by eapply Hids.
  - by eapply stored_step.
  - intros s op' Hs. apply lookup_snoc_cases in Hs as [Hs|[-> ->]].
    { rewrite take_app_le by (apply lookup_lt_Some in Hs; lia). by apply Hops. }
    rewrite take_app_length. constructor.
    + by exists id.
    + exists k, entry. split_and!; try done.
      * intros Hn. destruct (Hrng Hn) as [-> ?]. done.
      * intros Hl. assert (verb = "load") as -> by congruence.
        destruct (visibility_Ok _ _ _ _ _ Hin Hvis) as [[? _]|[(_ & _ & [Hk|?])|[? _]]]; try done.
        -- left. by apply Hst.
        -- by right.
    + exists deps. split; [done|]. intros d Hdd. destruct (Hd d Hdd) as (s & i & -> & Hsi & Hlt).
      rewrite Hseen' in Hsi. apply lookup_insert_Some in Hsi as [[_ <-]|[_ Hsi]]; [lia|].
      destruct (Hseen _ _ Hsi) as (op' & ? & ?). by exists i, op', s.
    + split; [by exists verb|done].
Qed.

(** The components lie back to back from [off] to [stop]. *)
Fixpoint tiles (off : Z) (comps : list json) (stop : Z) : Prop :=
  match comps with
  | [] => off = stop
  | c :: cs => ∃ ln, fld c "offset" = JInt off ∧ fld c "length" = JInt ln ∧ 1 ≤ ln ∧ tiles (off + ln) cs stop
  end.

Definition rep_sound (rep : json) : Prop :=
  ∃ size comps, fld rep "encoded_bytes" = JInt size ∧ 1 ≤ size ∧
    fld rep "components" = JList comps ∧ tiles 0 comps size.

(** A version names a representation of the document and has its size. *)
Definition version_sound (reps : dict) (ver : json) : Prop :=
  ∃ r size, fld ver "representation" = JStr r ∧ fld (getd reps r) "encoded_bytes" = size ∧
    py_eq (fld ver "bytes") size = true.

(** Version [k] is listed in the initial state. *)
Definition listed (items : list json) (k : okey) : Prop :=
  ∃ it, it ∈ items ∧ fld it "object_id" = JStr k.1 ∧ py_str (fld it "version") = k.2.

(** [it] names a version of the document. *)
Definition names_version (objects : dict) (it : json) : Prop :=
  ∃ k entry, fld it "object_id" = JStr k.1 ∧ py_str (fld it "version") = k.2 ∧
    dget k.2 (as_dict (fld (getd objects k.1) "versions")) = Some entry.

Record intent2_sound (d : dict) : Prop := {
  i2_schema : getd d "schema" = JStr SCHEMA2;
  i2_parts : ∃ reps objects items live ops,
    getd d "representations" = JObj reps ∧ getd d "objects" = JObj objects ∧
    fld (getd d "initial_state") "live" = JList items ∧ getd d "operations" = JList ops ∧
    (∀ id rep, (id, rep) ∈ reps → rep_sound rep) ∧
    (∀ oid obj v ver, (oid, obj) ∈ objects → (v, ver) ∈ as_dict (fld obj "versions") →
       isdigit v = true ∧ version_sound reps ver) ∧
    (∀ it, it ∈ items → names_version objects it) ∧
    (∀ k, k ∈ live ↔ listed items k) ∧
    (∀ s op, ops !! s = Some op → op_sound objects live (take s ops) op)
}.

Lemma check_components_tiles comps covered size :
  foldM check_component covered comps = Ok size → tiles covered comps size.
Proof.
  revert covered. induction comps as [|c cs IH]; intros covered H; simpl in H.
  - by apply Ok_inj in H.
  - apply bind_Ok in H as (c' & Hc & H). unfold check_component in Hc.
    destruct c as [| | | | | |cd]; try done. cbn [get] in Hc. res_inv.
    match goal with E : negb _ = false |- _ => apply negb_false_iff, Z.eqb_eq in E as -> end.
    repeat match goal with E : _int _ _ = Ok _ |- _ => apply _int_Ok in E as [? ?] end.
    eexists. split; [done|]. split; [done|]. split; [done|]. by apply IH.
Qed.

Lemma check_representation_sound kv : check_representation kv = Ok tt → rep_sound kv.2.
Proof.
  destruct kv as [id rep]. unfold check_representation. intros H.
  destruct rep as [| | | | | |r]; [by res_inv..|]. cbn [get] in H.
  apply bind_Ok in H as (? & _ & H). apply bind_Ok in H as (? & _ & H). apply bind_Ok in H as (? & _ & H).
  apply bind_Ok in H as (e & He & H). apply Ok_inj in He as <-.
  apply bind_Ok in H as (size & Hsize & H). apply _int_Ok in Hsize as [Esize Hsize].
  apply bind_Ok in H as (? & _ & H). apply bind_Ok in H as (? & _ & H).
  apply bind_Ok in H as (comps & Hc & H). apply Ok_inj in Hc as <-. cbn [snd].
  destruct (getd r "components") as [| | | | |[|c cs]|] eqn:Ec; try done.
  apply bind_Ok in H as (covered & Hcov & H). apply raise_if_Ok, negb_false_iff, Z.eqb_eq in H as ->.
  exists size, (c :: cs). split_and!; try done. by apply check_components_tiles.
Qed.

Lemma check_version_sound reps kv :
  check_version reps kv = Ok tt → isdigit kv.1 = true ∧ version_sound reps kv.2.
Proof.
  destruct kv as [v ver]. unfold check_version. intros H. cbn [fst snd].
  apply bind_Ok in H as ([] & Hdig & H). apply raise_unless_Ok in Hdig. split; [done|].
  apply bind_Ok in H as (known & Hk & H).
  apply bind_Ok in H as (? & _ & H).
  destruct ver as [| | | | | |vd]; try done.
  destruct (getd vd "representation") as [| | | |r| |] eqn:Er; try done.
  apply bind_Ok in H as (rd & Hrd & H). apply bind_Ok in H as (eb & Heb & H).
  apply bind_Ok in H as (b & Hb & H). apply Ok_inj in Hb as <-. apply raise_unless_Ok in H.
  exists r, eb. split; [done|]. split; [|done].
  cbn in Hrd. unfold getd at 1. destruct (dget r reps); [|done]. apply Ok_inj in Hrd as <-. simpl.
  destruct j as [| | | | | |jd]; try done. simpl in Heb |- *. unfold getd.
  by destruct (dget "encoded_bytes" jd); [apply Ok_inj in Heb as <-|].
Qed.

Lemma mapMR_elem {A B} (f : A → res B) l k x : mapMR f l = Ok k → x ∈ l → ∃ y, f x = Ok y.
Proof.
  intros H%mapMR_Ok (i & Hi)%list_elem_of_lookup.
  destruct (Forall2_lookup_l _ _ _ _ _ H Hi) as (y & _ & ?). by exists y.
Qed.

Lemma check_object2_sound reps kv v ver :
  check_object2 reps kv = Ok tt → (v, ver) ∈ as_dict (fld kv.2 "versions") →
  isdigit v = true ∧ version_sound reps ver.
Proof.
  destruct kv as [oid obj]. unfold check_object2. intros H Hin. cbn [snd] in Hin.
  apply bind_Ok in H as (? & _ & H).
  change (match obj with JObj d => getd d "versions" | _ => JNull end) with (fld obj "versions") in H.
  destruct (fld obj "versions") as [| | | | | |[|w ws]]; try done.
  apply bind_Ok in H as (us & H & _). destruct (mapMR_elem _ _ _ _ H Hin) as ([] & Hv).
  exact (check_version_sound _ _ Hv).
Qed.

Lemma check_lives_listed objects items live :
  foldM (check_live objects) ∅ items = Ok live → ∀ k, k ∈ live ↔ listed items k.
Proof.
  apply (foldM_inv (check_live objects) (λ pre live, ∀ k, k ∈ live ↔ listed pre k)).
  - intros k. split; [set_solver|intros (it & Hit & _); by inversion Hit].
  - intros pre it s1 s2 IH _ H k. unfold check_live in H.
    destruct it as [| | | | | |dd]; try done. cbn [get get_default] in H. res_inv.
    destruct v as [[o v'] entry]. apply lookup_version_Ok in E as (Eo & -> & _). cbn [fst].
    rewrite elem_of_union, elem_of_singleton, IH. unfold listed. split.
    + intros [->|(it & Hit & H)]; [exists (JObj dd)|exists it]; (split; [set_solver|done]).
    + intros (it & [Hit|Hit%list_elem_of_singleton]%elem_of_app & H1 & H2).
      * right. by exists it.
      * subst it. left. destruct k as [a b]. cbn in *. congruence.
Qed.

Lemma check_lives_known objects items live :
  foldM (check_live objects) ∅ items = Ok live → ∀ it, it ∈ items → names_version objects it.
Proof.
  apply (foldM_inv (check_live objects) (λ pre _, ∀ it, it ∈ pre → names_version objects it)).
  - intros it Hit. by inversion Hit.
  - intros pre it s1 s2 IH _ H it' [Hin|Hin%list_elem_of_singleton]%elem_of_app; [by apply IH|]. subst it'.
    unfold check_live in H. destruct it as [| | | | | |dd]; try done. cbn [get get_default] in H. res_inv.
    destruct v as [[o v'] entry]. apply lookup_version_Ok in E as (Eo & -> & He). by exists (o, py_str (getd dd "version")), entry.
Qed.

(** What [validate_intent2] guarantees, the parts apart. *)
Lemma validate_intent2_Ok intent :
  validate_intent2 intent = Ok tt → ∃ d, intent = JObj d ∧ intent2_sound d.
Proof.
  destruct intent as [| | | | | |d]; try done. unfold validate_intent2. intros H.
  exists d. split; [done|]. apply bind_Ok in H as ([] & Hsch & H).
  constructor; [by apply raise_unless_Ok, eq_str_true in Hsch|]. apply bind_Ok in H as (? & _ & H).
  apply bind_Ok in H as (tm & _ & H). apply bind_Ok in H as (? & _ & H).
  destruct (getd d "representations") as [| | | | | |[|r rs]] eqn:Er; try done.
  apply bind_Ok in H as (? & Hreps & H).
  destruct (getd d "objects") as [| | | | | |objects] eqn:Eo; try done.
  apply bind_Ok in H as (? & Hobj & H). apply bind_Ok in H as (live & Hlive & H).
  destruct live as [| | | | |items|]; try done. apply bind_Ok in H as (live & Hls & H).
  destruct (getd d "operations") as [| | | | |ops|] eqn:Eops; try done.
  apply bind_Ok in H as (st & Hops & _).
  exists (r :: rs), objects, items, live, ops. split; [done|]. split; [done|]. split.
  { unfold getd. destruct (dget "initial_state" d) as [[]|]; simpl in *; try done; by apply Ok_inj in Hlive. }
  split; [done|]. split.
  { intros id rep Hin. destruct (mapMR_elem _ _ _ _ Hreps Hin) as ([] & Hc).
    exact (check_representation_sound _ Hc). }
  split.
  { intros oid obj v ver Hin. destruct (mapMR_elem _ _ _ _ Hobj Hin) as ([] & Hc).
    by apply (check_object2_sound _ (oid, obj)). }
  split; [by eapply check_lives_known|]. split; [by apply check_lives_listed with objects|].
  eapply (foldiM_inv _ (loop_inv objects live)) in Hops; [apply Hops| |].
  - constructor; try done; cbn.
    + intros k. unfold visible. by rewrite latched_nil.
  - intros pre op s1 s2 Hi _ Hc. by eapply loop_inv_step.
Qed.

(** C35: a v2 document the validator accepts is replayable as it claims: the
    components of each representation lie back to back from 0 to its encoded
    size, each version has the size of its representation, op ids are unique,
    dependencies point backwards, ranges are non-empty and inside the object,
    and a load reads a version that by the history of stores and releases is
    present at that point, unless its source outcome says that it did not read
    (miss, cancelled, error or rejected). *)
Theorem validate_intent2_sound intent :
  validate_intent2 intent = Ok tt → ∃ d, intent = JObj d ∧ intent2_sound d.
Proof. apply validate_intent2_Ok. Qed.

Definition ex_intent2 : json :=
  match normalize_v1 (λ _, "00") ex_intent_doc with Ok i => i | Raise _ => JNull end.

Lemma validate_intent2_sound_witness : ∃ d, ex_intent2 = JObj d ∧ intent2_sound d.
Proof. apply (validate_intent2_sound ex_intent2). vm_compute. reflexivity. Defined.

(** ** The bundle digest binds every part *)

Lemma json_wf_fld v k : json_wf v → json_wf (fld v k).
Proof.
  destruct v as [| | | | | |d]; try done. intros [_ Hw]%json_wf_obj. simpl. unfold getd.
  destruct (dget k d) eqn:E; [|done]. rewrite Forall_forall in Hw. by apply (Hw (k, j)), dget_Some_In.
Qed.

#[export] Hint Resolve json_wf_fld sort_keys_wf : kvio.

Lemma fld_sort_keys v k : json_wf v → fld (sort_keys v) k = sort_keys (fld v k).
Proof.
  destruct v as [| | | | | |d]; try done. intros Hw. exact (getd_sort_keys d k Hw).
Qed.

Lemma item_fld v k x : item v k = Ok x → fld v k = x.
Proof.
  destruct v as [| | | | | |d]; try done. simpl. unfold getd.
  destruct (dget k d); [|done]. intros H. by apply Ok_inj in H.
Qed.

Lemma sort_keys_str v s : sort_keys v = JStr s ↔ v = JStr s.
Proof. split; [by destruct v; try done|by intros ->]. Qed.

Definition captured (intent : json) : bool := eq_str (fld (fld intent "provenance") "timing_model") "captured".

(** The side part of a bundle, and the digest the intent binds it by. *)
Lemma bundle_bytes_Ok sha256 intent side target b :
  bundle_bytes sha256 intent side target = Ok b →
  is_dict intent = true ∧ ∃ s, b = canonical_json intent +:+ s +:+
    match target with Some t => canonical_json t | None => "" end ∧
  (captured intent = true → side = Some s ∧ fld (fld intent "timing") "sidecar_sha256" = JStr (sha256 s)) ∧
  (captured intent = false → s = "").
Proof.
  unfold bundle_bytes. intros H.
  apply bind_Ok in H as ([] & Hv & H). apply bind_Ok in H as (prov & Hp & H).
  apply bind_Ok in H as (tm & Ht & H). apply bind_Ok in H as (s & Hs & H). apply Ok_inj in H as <-.
  split; [by apply validate_intent2_Ok in Hv as (d & -> & _)|]. exists s. split; [done|].
  unfold captured. rewrite (item_fld _ _ _ Hp), (item_fld _ _ _ Ht).
  destruct (eq_str tm "captured").
  - split; [intros _|done]. destruct side as [bytes|]; [|done].
    apply bind_Ok in Hs as (timing & Hti & Hs). apply bind_Ok in Hs as (bound & Hb & Hs). res_inv.
    match goal with E : eq_str _ _ = true |- _ => apply eq_str_true in E as -> end.
    by rewrite (item_fld _ _ _ Hti), (item_fld _ _ _ Hb).
  - split; [done|]. by apply Ok_inj in Hs as <-.
Qed.

Definition plain (v : json) : Prop := float_free v = true ∧ json_wf v.

Lemma canonical_json_inj v w : plain v → plain w → canonical_json v = canonical_json w → sort_keys v = sort_keys w.
Proof.
  intros [Hf1 Hw1] [Hf2 Hw2] He. unfold canonical_json in He.
  pose proof (loads_dumps Compact v Hf1 Hw1) as H1. pose proof (loads_dumps Compact w Hf2 Hw2) as H2.
  rewrite He in H1. rewrite H1 in H2. by apply Ok_inj in H2.
Qed.

Lemma canonical_json_nonempty v : plain v → canonical_json v ≠ "".
Proof.
  intros [Hf Hw] He. pose proof (loads_dumps Compact v Hf Hw) as H. unfold canonical_json in He.
  by rewrite He in H.
Qed.

Lemma canonical_target_inj (t1 t2 : option json) :
  (∀ t, t1 = Some t → plain t) → (∀ t, t2 = Some t → plain t) →
  match t1 with Some t => canonical_json t | None => "" end =
  match t2 with Some t => canonical_json t | None => "" end →
  sort_keys <$> t1 = sort_keys <$> t2.
Proof.
  intros H1 H2 He. destruct t1 as [t1|], t2 as [t2|]; simpl; try done.
  - f_equal. apply canonical_json_inj; eauto.
  - exfalso. eapply canonical_json_nonempty; [exact (H1 _ eq_refl)|done].
  - exfalso. eapply canonical_json_nonempty; [exact (H2 _ eq_refl)|done].
Qed.

(** the bytes that [bundle_sha256] hashes determine the bundle: two
    accepted bundles that feed the hash the same bytes have the same intent
    and the same target up to the order of keys, and, when the timing is
    captured, the same sidecar, provided the hash does not collide on the two
    sidecars. *)
Theorem bundle_bytes_injective sha256 i1 i2 s1 s2 t1 t2 b :
  plain i1 → plain i2 → (∀ t, t1 = Some t → plain t) → (∀ t, t2 = Some t → plain t) →
  (∀ x y, s1 = Some x → s2 = Some y → sha256 x = sha256 y → x = y) →
  bundle_bytes sha256 i1 s1 t1 = Ok b → bundle_bytes sha256 i2 s2 t2 = Ok b →
  sort_keys i1 = sort_keys i2 ∧ sort_keys <$> t1 = sort_keys <$> t2 ∧
  (captured i1 = true → s1 = s2).
Proof.
  intros Hp1 Hp2 Ht1 Ht2 Hsha H1 H2.
  apply bundle_bytes_Ok in H1 as (Hd1 & x & -> & Hc1 & Hn1).
  apply bundle_bytes_Ok in H2 as (Hd2 & y & He & Hc2 & Hn2).
  destruct i1 as [| | | | | |d1]; try done. destruct i2 as [| | | | | |d2]; try done.
  destruct Hp1 as [Hf1 Hw1], Hp2 as [Hf2 Hw2].
  apply dumps_obj_prefix in He as [Hs He]; try done. split; [done|].
  assert (∀ k, sort_keys (fld (JObj d1) k) = sort_keys (fld (JObj d2) k)) as Hfld.
  { intros k. rewrite <- !fld_sort_keys by done. by rewrite Hs. }
  assert (∀ k k', sort_keys (fld (fld (JObj d1) k) k') = sort_keys (fld (fld (JObj d2) k) k')) as Hfld2.
  { intros k k'. rewrite <- !fld_sort_keys by auto with kvio. by rewrite Hs. }
  assert (captured (JObj d1) = captured (JObj d2)) as Hcap.
  { apply eq_true_iff_eq. unfold captured. rewrite !eq_str_true.
    split; intros E; apply (proj1 (sort_keys_str _ _)); [rewrite <- Hfld2|rewrite Hfld2];
      by rewrite E. }
  destruct (captured (JObj d1)) eqn:Ec.
  - destruct (Hc1 eq_refl) as [-> Hx]. destruct (Hc2 (eq_sym Hcap)) as [-> Hy].
    apply (proj2 (sort_keys_str _ _)) in Hx. rewrite Hfld2, Hy in Hx. injection Hx as Hx.
    assert (x = y) as <- by (by apply (Hsha x y)). apply sapp_inj_l in He.
    split; [by apply canonical_target_inj|done].
  - rewrite (Hn1 eq_refl), (Hn2 (eq_sym Hcap)) in He. split; [by apply canonical_target_inj|done].
Qed.

Definition plainb (v : json) : bool := float_free v && json_wfb v.

Lemma plainb_plain v : plainb v = true → plain v.
Proof. intros [? ?]%andb_true_iff. split; [done|by apply json_wfb_sound]. Qed.

Lemma bundle_bytes_injective_witness :
  sort_keys ex_intent2 = sort_keys (sort_keys ex_intent2) ∧
  Some (JObj []) = Some (JObj []) ∧ (captured ex_intent2 = true → @None string = None).
Proof.
  assert (∀ t, Some (JObj []) = Some t → plain t) as Ht
    by (intros ? [= <-]; apply plainb_plain; reflexivity).
  apply (bundle_bytes_injective (λ s, s) ex_intent2 (sort_keys ex_intent2) None None
    (Some (JObj [])) (Some (JObj [])) (canonical_json ex_intent2 +:+ "{}"));
    [apply plainb_plain; vm_compute; reflexivity|apply plainb_plain; vm_compute; reflexivity
    |exact Ht|exact Ht|intros ?? [=]|vm_compute; reflexivity|vm_compute; reflexivity].
Defined.

(** the v1 validator compares numbers with [!=], so [false] passes for
    pass 0 while the object name is spelled from the field itself: a document
    it accepts can load an object that none of its stores names, and the
    adapter, which is to carry every validated v1 document, raises on it. *)
Theorem normalize_v1_rejects_validated :
  validate_intent bool_pass_intent = Ok tt ∧
  objects_of "load" bool_pass_intent = [JStr "pass=False/stream=0/chunk=0/rank=0"] ∧
  objects_of "store" bool_pass_intent = [JStr "pass=0/stream=0/chunk=0/rank=0"] ∧
  normalize_v1 (λ s, s) bool_pass_intent =
    Raise (i2err "{where} loads {oid!r} v{ver} before any store or initial state").
Proof. vm_compute. done. Qed.
