(* ===== verification/Workload3.v ===== *)
(** * The typed workload envelope ([tools/kvio/workload3.py])

    A [kvio.workload.v3] document: the initial namespace and operations of
    three API families under one scheduling contract.  The file models the
    builders, the validator, the digests and the adapter from v2. *)

From stdpp Require Import prelude strings list numbers gmap sorting.
From Stdlib Require Import ZArith Lia Ascii.
From S2P Require Import Prelude PyText PyJson JsonText Intent Intent2.
Local Open Scope Z_scope.

Definition SCHEMA3 : string := "kvio.workload.v3".
Definition FAMILIES : list string := ["object"; "posix"; "s3"].
Definition CAPTURE_LEVELS3 : list string := ["generated"; "A1"; "api"; "request"].
Definition RELEASE_PROVENANCE : list string :=
  ["none"; "observed_submission"; "measured_arrival"; "declared"].
Definition DEP_KINDS : list string := ["program"; "sync"; "observed"; "identity"].
Definition OUTCOMES3 : list string :=
  ["success"; "miss"; "already_present"; "rejected"; "short"; "cancelled";
   "error"; "eof"; "exists"; "not_empty"; "denied"; "timeout"; "unknown"].

Definition CALLS : list (string * list (string * list string)) := [
  ("object", [("store", ["node"; "size"]); ("load", ["node"]); ("release", ["node"]);
              ("exists", ["node"])]);
  ("posix", [("open", ["path"; "flags"; "handle"]); ("close", ["handle"]);
             ("pread", ["handle"; "offset"; "length"]); ("pwrite", ["handle"; "offset"; "length"]);
             ("read", ["handle"; "length"]); ("write", ["handle"; "length"]);
             ("fstat", ["handle"]); ("stat", ["path"]); ("readdir", ["path"]);
             ("rename", ["path"; "new_path"]); ("unlink", ["path"]);
             ("mkdir", ["path"]); ("rmdir", ["path"]); ("truncate", ["path"; "size"]);
             ("ftruncate", ["handle"; "size"]); ("fsync", ["handle"]); ("fdatasync", ["handle"])]);
  ("s3", [("put", ["key"; "size"]); ("get", ["key"]); ("head", ["key"]);
          ("list", ["prefix"]); ("delete", ["key"]);
          ("mpu_create", ["key"; "upload"]); ("mpu_part", ["key"; "upload"; "part"; "size"]);
          ("mpu_complete", ["key"; "upload"]); ("mpu_abort", ["key"; "upload"])])].

Definition OPEN_FLAGS : list string :=
  ["rd"; "wr"; "rdwr"; "creat"; "excl"; "trunc"; "append"; "direct"; "sync"].

(** [CALLS[family]] and [CALLS[family][call]]. *)
Definition calls_of (family : string) : list (string * list string) := default [] (dget family CALLS).
Definition fields_of (family call : string) : list string := default [] (dget call (calls_of family)).

Definition w3err (m : string) : exn := Exn Workload3Error m.

Definition _int3 (v : json) (minimum : Z) : res Z :=
  match v with
  | JInt z => if z <? minimum then Raise (w3err "{where} must be an integer >= {minimum}") else Ok z
  | _ => Raise (w3err "{where} must be an integer >= {minimum}")
  end.

Definition _str3 (v : json) : res string :=
  match v with
  | JStr s => if String.eqb s "" then Raise (w3err "{where} must be a non-empty string") else Ok s
  | _ => Raise (w3err "{where} must be a non-empty string")
  end.

Definition _enum3 (v : json) (allowed : list string) : res string :=
  match v with
  | JStr s => if in_tuple v allowed then Ok s
              else Raise (w3err "{where} must be one of {allowed}, not {v!r}")
  | _ => Raise (w3err "{where} must be one of {allowed}, not {v!r}")
  end.

(** ** Building *)

(** [list(x or [])] and [dict(x or {})]. *)
Definition list_or (v : json) : res (list json) := if py_true v then iterate v else Ok [].
Definition dict_or (v : json) : res dict :=
  if py_true v then match v with JObj d => Ok d | _ => Raise (Exn TypeError "dict()") end else Ok [].

Definition new_workload (capture_level mapping_method timing_model release_provenance : json)
    (engine : dict) (completeness notes source : json) (content_profile : string) : res dict :=
  nl ← list_or notes; src ← dict_or source;
  config ← match default (JObj []) (dget "config" engine) with
           | JObj c => Ok c | _ => Raise (Exn TypeError "dict()") end;
  Ok [("schema", JStr SCHEMA3);
      ("provenance", JObj [("capture_level", capture_level); ("mapping_method", mapping_method);
                           ("completeness", JObj [("status", completeness); ("notes", JList nl)]);
                           ("timing_model", timing_model); ("release_provenance", release_provenance);
                           ("source", JObj src)]);
      ("engine", JObj [("family", default (JStr "unknown") (dget "family" engine));
                       ("name", default (JStr "unknown") (dget "name" engine));
                       ("revision", default (JStr "unknown") (dget "revision" engine));
                       ("config", JObj config)]);
      ("content_profile", JStr content_profile);
      ("namespace", JObj [("nodes", JObj []); ("entries", JList []); ("handles", JObj [])]);
      ("objects", JObj []); ("operations", JList []); ("health", JObj []);
      ("timing", JObj [("sidecar", JNull); ("sidecar_sha256", JNull)])].

Definition add_node (wl : dict) (node_id : string) (kind incarnation size : json) (tier : string) : res dict :=
  ns ← dict_at wl "namespace"; nodes ← dict_at ns "nodes";
  Ok (dset "namespace" (JObj (dset "nodes" (JObj (dset node_id (JObj [
        ("kind", kind); ("incarnation", incarnation); ("size", size); ("tier", JStr tier)])
        nodes)) ns)) wl).

Definition add_entry (wl : dict) (path node_id : json) : res dict :=
  ns ← dict_at wl "namespace"; entries ← list_at ns "entries";
  Ok (dset "namespace" (JObj (dset "entries"
        (JList (entries ++ [JObj [("path", path); ("node", node_id)]])) ns)) wl).

Definition add_op (wl : dict) (op_id : json) (family call : string) (stream : json) (deps : list json)
    (release_ns declared_delay_ns : json) (expected : dict) (attempt batch_id : json) (fields : dict)
    : res dict :=
  raise_unless (dhas family CALLS && dhas call (calls_of family)) (w3err "unknown call {family}.{call}") ;;
  ops ← list_at wl "operations";
  Ok (dset "operations" (JList (ops ++ [JObj [
        ("op_id", op_id); ("seq", JInt (Z.of_nat (length ops))); ("family", JStr family);
        ("call", JStr call); ("args", JObj fields); ("stream", stream); ("batch_id", batch_id);
        ("attempt", attempt);
        ("deps", JList (map (λ d, if is_dict d then d
                                  else JObj [("op", d); ("kind", JStr "program")]) deps));
        ("release_ns", release_ns); ("declared_delay_ns", declared_delay_ns);
        ("expected", JObj expected)]])) wl).

(** ** Validating *)

(** [p.startswith("/") or ".." in p.split("/")] *)
Definition escapes (p : string) : bool :=
  startswith "/" p || existsb (String.eqb "..") (split_on 47 p).

(** Returns the timing model. *)
Definition check_provenance3 (prov : json) : res string :=
  match prov with
  | JObj pv =>
      level ← _enum3 (getd pv "capture_level") CAPTURE_LEVELS3;
      method ← _enum3 (getd pv "mapping_method") MAPPING_METHODS;
      match getd pv "completeness" with
      | JObj comp =>
          _enum3 (getd comp "status") COMPLETENESS ;;
          timing ← _enum3 (getd pv "timing_model") TIMING_MODELS;
          relp ← _enum3 (getd pv "release_provenance") RELEASE_PROVENANCE;
          raise_if (String.eqb timing "captured" && String.eqb relp "none")
            (w3err "captured timing must say what its release times are") ;;
          raise_if (String.eqb timing "absent" && negb (String.eqb relp "none"))
            (w3err "absent timing cannot claim release provenance") ;;
          raise_if ((String.eqb level "A1" || String.eqb level "api") && String.eqb method "heuristic")
            (w3err "an API-boundary capture cannot have a heuristic mapping") ;;
          Ok timing
      | _ => Raise (w3err "provenance.completeness must be an object")
      end
  | _ => Raise (w3err "provenance must be an object")
  end.

Definition check_engine3 (eng : json) : res unit :=
  match eng with
  | JObj e => _str3 (getd e "family") ;; _str3 (getd e "name") ;; _str3 (getd e "revision") ;; Ok tt
  | _ => Raise (w3err "engine must be an object")
  end.

Definition check_node (kv : string * json) : res unit :=
  let '(nid, node) := kv in
  _str3 (JStr nid) ;;
  k ← get node "kind"; _enum3 k ["file"; "dir"; "object"] ;;
  i ← get_default node "incarnation" (JInt 1); _int3 i 1 ;;
  s ← get_default node "size" (JInt 0); _int3 s 0 ;;
  Ok tt.

(** The state is the set of paths listed so far. *)
Definition check_entry (nodes : dict) (paths : list string) (e : json) : res (list string) :=
  pj ← get e "path"; p ← _str3 pj;
  raise_if (escapes p) (w3err "entry path {p!r} must be relative and traversal-free") ;;
  n ← get e "node"; known ← in_keys n nodes;
  raise_unless known (w3err "entry {p!r} names unknown node") ;;
  raise_if (bool_decide (p ∈ paths)) (w3err "entry {p!r} listed twice") ;;
  Ok (p :: paths).

Definition check_handle (nodes : dict) (kv : string * json) : res unit :=
  n ← get kv.2 "node"; known ← in_keys n nodes;
  raise_unless known (w3err "handle {hid!r} names unknown node").

(** The namespace: its nodes and the handles open at the start. *)
Definition check_namespace (ns : json) : res (dict * list hkey) :=
  match ns with
  | JObj n =>
      match getd n "nodes", getd n "entries", getd n "handles" with
      | JObj nodes, JList entries, JObj handles =>
          mapMR check_node nodes ;;
          foldM (check_entry nodes) [] entries ;;
          mapMR (check_handle nodes) handles ;;
          Ok (nodes, KStr <$> keys handles)
      | _, _, _ => Raise (w3err "namespace must have nodes, entries and handles")
      end
  | _ => Raise (w3err "namespace must have nodes, entries and handles")
  end.

(** [args[k].startswith("/") or ...], when the key is present. *)
Definition check_path_arg (args : dict) (k : string) : res unit :=
  match dget k args with
  | None => Ok tt
  | Some (JStr p) => raise_if (escapes p) (w3err "{where}.args.path must be relative and traversal-free")
  | Some _ => Raise (Exn AttributeError "object has no attribute 'startswith'")
  end.

Definition check_int_arg (args : dict) (k : string) : res unit :=
  match dget k args with None => Ok tt | Some v => (_int3 v 0 ;; Ok tt) end.

Definition check_flags (args : dict) : res unit :=
  match dget "flags" args with
  | None => Ok tt
  | Some v => (fl ← iterate v; mapMR (λ f, _enum3 f OPEN_FLAGS) fl ;; Ok tt)
  end.

Definition check_node_arg (nodes : dict) (objects : json) (args : dict) : res unit :=
  match dget "node" args with
  | None => Ok tt
  | Some v =>
      known ← in_keys v nodes;
      found ← (if (known : bool) then Ok true else py_in v objects);
      raise_unless found (w3err "{where} names unknown node {args['node']!r}")
  end.

(** The open/close discipline of posix handles. *)
Definition check_handles (open_handles : list hkey) (fam call : string) (args : dict) : res (list hkey) :=
  if String.eqb fam "posix" then
    match dget "handle" args with
    | None => Ok open_handles
    | Some v =>
        h ← hkey_of v;
        if String.eqb call "open" then
          raise_if (hmem h open_handles) (w3err "{where} reopens live handle {args['handle']!r}") ;;
          Ok (h :: open_handles)
        else
          raise_unless (hmem h open_handles) (w3err "{where} uses handle {args['handle']!r} that is not open") ;;
          Ok (if String.eqb call "close" then filter (λ x, x ≠ h) open_handles else open_handles)
    end
  else Ok open_handles.

Definition check_dep3 (seen : gmap string nat) (seq : nat) (d : json) : res unit :=
  let e := w3err "{where} depends on something that is not an earlier operation" in
  match d with
  | JObj dd =>
      match getd dd "op" with
      | JStr s => match seen !! s with
                  | Some i => raise_if (seq <=? i)%nat e ;; _enum3 (getd dd "kind") DEP_KINDS ;; Ok tt
                  | None => Raise e
                  end
      | JList _ | JObj _ => unhashable
      | _ => Raise e
      end
  | _ => Raise e
  end.

Definition check_release (timing : string) (o : dict) : res unit :=
  if negb (is_none (getd o "release_ns")) then
    _int3 (getd o "release_ns") 0 ;;
    raise_if (String.eqb timing "absent") (w3err "{where} carries release_ns under absent timing")
  else raise_if (String.eqb timing "captured") (w3err "{where} lacks release_ns under captured timing").

Definition check_expected (exp : json) : res unit :=
  match exp with
  | JObj x =>
      match dget "outcome" x with None => Ok tt | Some v => _enum3 v OUTCOMES3 ;; Ok tt end ;;
      match dget "outcomes" x with
      | None => Ok tt
      | Some v => l ← iterate v; mapMR (λ y, _enum3 y OUTCOMES3) l ;; Ok tt
      end
  | _ => Raise (w3err "{where}.expected must be an object")
  end.

Record wstate := { w_seen : gmap string nat; w_open : list hkey }.

(** The checks on the arguments of a call. *)
Definition check_args (nodes : dict) (objects : json) (fam call : string) (args : dict) : res unit :=
  raise_unless (forallb (λ f, dhas f args) (fields_of fam call)) (w3err "{where} ({fam}.{call}) lacks {f}") ;;
  mapMR (check_int_arg args) ["size"; "offset"; "length"; "part"] ;;
  check_path_arg args "path" ;;
  check_path_arg args "new_path" ;;
  check_flags args ;;
  check_node_arg nodes objects args.

Definition check_op3 (nodes : dict) (objects : json) (timing : string) (st : wstate) (seq : nat) (op : json)
    : res wstate :=
  match op with
  | JObj o =>
      raise_unless (py_eq (getd o "seq") (JInt (Z.of_nat seq))) (w3err "{where}.seq must equal its position") ;;
      oid ← _str3 (getd o "op_id");
      raise_if (bool_decide (is_Some (w_seen st !! oid))) (w3err "{where}.op_id {oid!r} not unique") ;;
      let seen := <[ oid := seq ]> (w_seen st) in
      fam ← _enum3 (getd o "family") FAMILIES;
      call ← _enum3 (getd o "call") (keys (calls_of fam));
      match getd o "args" with
      | JObj args =>
          check_args nodes objects fam call args ;;
          open' ← check_handles (w_open st) fam call args;
          raise_if (is_none (getd o "stream")) (w3err "{where}.stream required") ;;
          _int3 (default (JInt 1) (dget "attempt" o)) 1 ;;
          match getd o "deps" with
          | JList deps =>
              mapMR (check_dep3 seen seq) deps ;;
              check_release timing o ;;
              check_expected (default (JObj []) (dget "expected" o)) ;;
              Ok {| w_seen := seen; w_open := open' |}
          | _ => Raise (w3err "{where}.deps must be a list")
          end
      | _ => Raise (w3err "{where}.args must be an object")
      end
  | _ => Raise (w3err "{where}.seq must equal its position")
  end.

Definition check_sidecar (timing : string) (d : dict) : res unit :=
  if String.eqb timing "captured" then
    let t := default (JObj []) (dget "timing" d) in
    s ← get t "sidecar"; h ← get t "sidecar_sha256";
    raise_if (negb (py_true s) || negb (py_true h)) (w3err "captured timing requires a bound timing sidecar")
  else Ok tt.

Definition validate_workload (wl : json) : res unit :=
  match wl with
  | JObj d =>
      raise_unless (eq_str (getd d "schema") SCHEMA3) (w3err "unsupported schema {}") ;;
      timing ← check_provenance3 (getd d "provenance");
      check_engine3 (getd d "engine") ;;
      _str3 (getd d "content_profile") ;;
      nh ← check_namespace (getd d "namespace");
      let '(nodes, handles) := nh in
      match getd d "operations" with
      | JList ops =>
          foldiM (check_op3 nodes (default (JObj []) (dget "objects" d)) timing) 0
            {| w_seen := ∅; w_open := handles |} ops ;;
          check_sidecar timing d ;;
          raise_unless (is_dict (getd d "health")) (w3err "health must be an object")
      | _ => Raise (w3err "operations must be a list")
      end
  | _ => Raise (w3err "unsupported schema {}")
  end.

(** [sorted({f"{o['family']}.{o['call']}" for o in wl["operations"]})] *)
Definition required_capabilities (wl : json) : res (list string) :=
  ops ← item wl "operations"; l ← iterate ops;
  caps ← mapMR (λ o, f ← item o "family"; c ← item o "call"; Ok (py_str f +:+ "." +:+ py_str c)) l;
  Ok (stable_sort String.le (remove_dups caps)).

(** ** Digests and the v2 adapter *)
Section adapter.
Variable sha256 : string → string.

Definition workload_sha256 (wl : json) : res string :=
  validate_workload wl ;; Ok (sha256 (canonical_json wl)).

(** The bytes hashed by [bundle_sha256]. *)
Definition bundle_bytes3 (wl : json) (sidecar_bytes : option string) (target : option json) : res string :=
  validate_workload wl ;;
  prov ← item wl "provenance"; tm ← item prov "timing_model";
  side ← (if eq_str tm "captured" then
            match sidecar_bytes with
            | None => Raise (w3err "bundle digest needs the timing sidecar bytes")
            | Some bytes =>
                timing ← item wl "timing"; bound ← item timing "sidecar_sha256";
                raise_unless (eq_str bound (sha256 bytes))
                  (w3err "timing sidecar does not match the digest the workload binds") ;;
                Ok bytes
            end
          else Ok "");
  Ok (canonical_json wl +:+ side +:+ match target with Some t => canonical_json t | None => "" end).

(** [any("ordered by identity" in n for n in notes)] *)
Fixpoint any_identity (notes : list json) : res bool :=
  match notes with
  | [] => Ok false
  | n :: ns =>
      b ← py_in (JStr "ordered by identity") n;
      if (b : bool) then Ok true else any_identity ns
  end.

(** [f"{oid}@{ver}"] *)
Definition node_name (oid ver : json) : string := py_str oid +:+ "@" +:+ py_str ver.

Definition add_versions (wl : dict) (kv : string * json) : res dict :=
  vj ← item kv.2 "versions";
  match vj with
  | JObj versions =>
      foldM (λ wl vv, i ← int_of_str vv.1; b ← item vv.2 "bytes";
                      add_node wl (node_name (JStr kv.1) (JStr vv.1)) (JStr "object") (JInt i) b "storage")
        wl versions
  | _ => Raise (Exn AttributeError "object has no attribute 'items'")
  end.

Definition add_live (wl : dict) (it : json) : res dict :=
  o ← item it "object_id"; v ← item it "version";
  add_entry wl (JStr ("live/" +:+ node_name o v)) (JStr (node_name o v)).

(** One dependency of [o]: an edge between streams on one object is an
    identity edge where the record says that rule was applied. *)
Definition carry_dep (by_id : list (string * json)) (identity_rule : bool) (o d : json) : res json :=
  match d with
  | JStr s =>
      match dget s by_id with
      | Some e =>
          eo ← item e "object_id"; oo ← item o "object_id";
          kind ← (if identity_rule && py_eq eo oo then
                    es ← item e "stream"; os ← item o "stream";
                    Ok (if py_eq es os then "program" else "identity")
                  else Ok "program");
          Ok (JObj [("op", d); ("kind", JStr kind)])
      | None => Raise (Exn KeyError s)
      end
  | _ => Raise (Exn KeyError "d")
  end.

Definition call_name (v : json) : res string :=
  match v with JStr s => Ok s | _ => Raise (w3err "unknown call {family}.{call}") end.

Definition carry_op (by_id : list (string * json)) (identity_rule : bool) (wl : dict) (o : json) : res dict :=
  oid ← item o "object_id"; ver ← item o "version";
  let node := node_name oid ver in
  dj ← item o "deps"; ds ← iterate dj;
  deps ← mapMR (carry_dep by_id identity_rule o) ds;
  opj ← item o "op"; rng ← get o "range";
  extra ← (if eq_str opj "store" then b ← item o "requested_bytes"; Ok [("size", b)]
           else if eq_str opj "load" && py_true rng then
             off ← item rng "offset"; ln ← item rng "length"; Ok [("offset", off); ("length", ln)]
           else Ok []);
  out ← get o "source_outcome";
  opid ← item o "op_id"; call ← call_name opj; stream ← item o "stream";
  rel ← get o "release_ns"; delay ← get o "declared_delay_ns"; batch ← get o "batch_id";
  add_op wl opid "object" call stream deps rel delay
    (if py_true out then [("outcome", out)] else []) (JInt 1) batch (("node", JStr node) :: extra).

(** [{o["op_id"]: o for o in operations}] *)
Definition index_ops (ops : list json) : res (list (string * json)) :=
  foldM (λ m o, i ← item o "op_id";
                match i with JStr s => Ok (dset s o m) | _ => Raise (Exn TypeError "unhashable type") end)
    [] ops.

Definition from_intent2 (intent : json) : res json :=
  validate_intent2 intent ;;
  p ← item intent "provenance"; comp ← item p "completeness"; notes ← item comp "notes";
  nl ← iterate notes;
  identity_rule ← any_identity nl;
  level ← item p "capture_level"; method ← item p "mapping_method"; tm ← item p "timing_model";
  eng ← item intent "engine"; ename ← item eng "name"; erev ← item eng "revision";
  layout ← get_default eng "layout" (JObj []);
  status ← item comp "status"; schema ← item intent "schema";
  digest ← intent2_sha256 sha256 intent;
  wl ← new_workload level method tm
         (JStr (if eq_str tm "captured" then "observed_submission" else "none"))
         [("family", JStr "object"); ("name", ename); ("revision", erev); ("config", layout)]
         status notes (JObj [("schema", schema); ("sha256", JStr digest)]) "incompressible";
  objects ← dict_at (as_dict intent) "objects";
  wl ← foldM add_versions wl objects;
  ist ← item intent "initial_state"; livej ← item ist "live"; live ← iterate livej;
  wl ← foldM add_live wl live;
  opsj ← item intent "operations"; ops ← iterate opsj;
  by_id ← index_ops ops;
  wl ← foldM (carry_op by_id identity_rule) wl ops;
  health ← dict_at (as_dict intent) "health";
  timing ← dict_at (as_dict intent) "timing";
  let wl := dset "timing" (JObj timing) (dset "health" (JObj health) wl) in
  validate_workload (JObj wl) ;; Ok (JObj wl).

(** [load_workload] on the text of the file, or the error of reading it. *)
Definition load_workload (text : res string) : res json :=
  value ← match text with
          | Ok t => match loads t with
                    | Raise (Exn JSONDecodeError _) => Raise (w3err "cannot read {path}: {error}")
                    | r => r
                    end
          | Raise (Exn OSError _) => Raise (w3err "cannot read {path}: {error}")
          | Raise e => Raise e
          end;
  schema ← get value "schema";
  if eq_str schema SCHEMA2 then from_intent2 value
  else validate_workload value ;; Ok value.
End adapter.

Definition ex_workload : json :=
  match from_intent2 (λ _, "00") ex_intent2 with Ok w => w | Raise _ => JNull end.

Example ex_workload_valid : validate_workload ex_workload = Ok tt.
Proof. vm_compute. reflexivity. Qed.

Example ex_capabilities : required_capabilities ex_workload = Ok ["object.load"; "object.store"].
Proof. vm_compute. reflexivity. Qed.

(** ** What an accepted workload guarantees *)

(** Walking the components of a relative path from a directory; [None] when
    the walk leaves it. *)
Fixpoint walk (stack comps : list string) : option (list string) :=
  match comps with
  | [] => Some stack
  | c :: cs =>
      if String.eqb c ".." then match stack with [] => None | _ :: st => walk st cs end
      else if String.eqb c "." || String.eqb c "" then walk stack cs
      else walk (c :: stack) cs
  end.

(** The path is relative and no prefix of it leads above its root. *)
Definition confined (p : string) : Prop :=
  startswith "/" p = false ∧ ∀ n, is_Some (walk [] (take n (split_on 47 p))).

Lemma walk_no_dotdot comps stack : existsb (String.eqb "..") comps = false → is_Some (walk stack comps).
Proof.
  revert stack. induction comps as [|c cs IH]; intros stack H; [by eexists|].
  cbn [existsb] in H. apply orb_false_iff in H as [Hc H]. cbn [walk].
  rewrite String.eqb_sym, Hc. destruct (String.eqb c "." || String.eqb c ""); by apply IH.
Qed.

Lemma existsb_take {A} (p : A → bool) n l : existsb p l = false → existsb p (take n l) = false.
Proof.
  revert n. induction l as [|x l IH]; intros [|n] H; [done..|].
  simpl in *. apply orb_false_iff in H as [-> H]. by apply IH.
Qed.

Lemma escapes_confined p : escapes p = false → confined p.
Proof. intros [? ?]%orb_false_iff. split; [done|]. intros n. by apply walk_no_dotdot, existsb_take. Qed.

(** The posix call of an operation on the handle [h]. *)
Definition handle_op (call : string) (op : json) (h : hkey) : Prop :=
  fld op "family" = JStr "posix" ∧ fld op "call" = JStr call ∧
  ∃ v, dget "handle" (as_dict (fld op "args")) = Some v ∧ hkey_of v = Ok h.

(** Handle [h] is open after the operations [pre]. *)
Definition handle_open (initial : list hkey) : list json → hkey → Prop :=
  latched (.∈ initial) (handle_op "open") (handle_op "close").

(** The type of an argument. *)
Definition arg_typed (k : string) (v : json) : Prop :=
  (k ∈ ["size"; "offset"; "length"; "part"] → ∃ z, v = JInt z ∧ 0 ≤ z) ∧
  (k ∈ ["path"; "new_path"] → ∃ p, v = JStr p) ∧
  (k = "flags" → ∃ l, iterate v = Ok l ∧ ∀ f, f ∈ l → ∃ s, f = JStr s ∧ s ∈ OPEN_FLAGS).

Record op_sound3 (initial : list hkey) (pre : list json) (op : json) : Prop := {
  s3_id : ∃ id, fld op "op_id" = JStr id ∧ id ≠ "" ∧ ∀ i op', pre !! i = Some op' → fld op' "op_id" ≠ JStr id;
  s3_call : ∃ fam call, fld op "family" = JStr fam ∧ fld op "call" = JStr call ∧
    ∃ fields, dget call (calls_of fam) = Some fields ∧
      ∀ f, f ∈ fields → is_Some (dget f (as_dict (fld op "args")));
  s3_paths : ∀ k p, k ∈ ["path"; "new_path"] → dget k (as_dict (fld op "args")) = Some (JStr p) → confined p;
  s3_open : ∀ h, handle_op "open" op h → ¬ handle_open initial pre h;
  s3_use : ∀ call h, call ≠ "open" → handle_op call op h → handle_open initial pre h;
  s3_deps : ∃ deps, fld op "deps" = JList deps ∧
    ∀ d, d ∈ deps → ∃ i op' id, pre !! i = Some op' ∧ fld op' "op_id" = JStr id ∧ fld d "op" = JStr id;
  s3_shape : ∃ o args x, op = JObj o ∧ getd o "args" = JObj args ∧
    default (JObj []) (dget "expected" o) = JObj x ∧ opt_time (getd o "release_ns");
  s3_typed : ∀ k v, dget k (as_dict (fld op "args")) = Some v → arg_typed k v;
  s3_handle : ∀ v, fld op "family" = JStr "posix" → dget "handle" (as_dict (fld op "args")) = Some v → ∃ h, hkey_of v = Ok h
}.

Record loop_inv3 (initial : list hkey) (pre : list json) (st : wstate) : Prop := {
  l3_seen : ∀ id i, w_seen st !! id = Some i → ∃ op, pre !! i = Some op ∧ fld op "op_id" = JStr id;
  l3_ids : ∀ i op id, pre !! i = Some op → fld op "op_id" = JStr id → is_Some (w_seen st !! id);
  l3_open : ∀ h, h ∈ w_open st ↔ handle_open initial pre h;
  l3_ops : ∀ s op, pre !! s = Some op → op_sound3 initial (take s pre) op
}.

Lemma _str3_Ok v s : _str3 v = Ok s → v = JStr s ∧ s ≠ "".
Proof.
  destruct v as [| | | |t| |]; simpl; try done. destruct (String.eqb_spec t ""); [done|].
  intros H. by apply Ok_inj in H as <-.
Qed.

Lemma _enum3_Ok v l s : _enum3 v l = Ok s → v = JStr s ∧ s ∈ l.
Proof.
  unfold _enum3. destruct v as [| | | |t| |]; try done. destruct (in_tuple (JStr t) l) eqn:E; [|done].
  intros H. apply Ok_inj in H as <-. apply in_tuple_true in E as (s & [= ->] & ?). done.
Qed.

Lemma check_path_arg_Ok args k p : check_path_arg args k = Ok tt → dget k args = Some (JStr p) → confined p.
Proof. unfold check_path_arg. intros H E. rewrite E in H. apply raise_if_Ok in H. by apply escapes_confined. Qed.

Lemma hmem_true k s : hmem k s = true → k ∈ s.
Proof. apply bool_decide_eq_true. Qed.

Lemma hmem_false k s : hmem k s = false → k ∉ s.
Proof. apply bool_decide_eq_false. Qed.

Lemma check_handles_Ok open fam call args open' :
  check_handles open fam call args = Ok open' →
  (∀ v h, fam = "posix" → dget "handle" args = Some v → hkey_of v = Ok h →
     if String.eqb call "open" then h ∉ open ∧ open' = h :: open
     else h ∈ open ∧ open' = if String.eqb call "close" then filter (λ x, x ≠ h) open else open) ∧
  ((fam ≠ "posix" ∨ dget "handle" args = None) → open' = open) ∧
  (∀ v, fam = "posix" → dget "handle" args = Some v → ∃ h, hkey_of v = Ok h).
Proof.
  unfold check_handles. intros H. destruct (String.eqb_spec fam "posix") as [->|Hf];
    [|apply Ok_inj in H as ->; split_and!; [by intros ?? ->|done|by intros ? ->]].
  destruct (dget "handle" args) as [v|]; [|apply Ok_inj in H as ->; split_and!; done].
  apply bind_Ok in H as (h & Hh & H). split_and!; [|by intros [?|?]|].
  - intros v' h' _ [= <-] Hh'. rewrite Hh in Hh'. apply Ok_inj in Hh' as <-.
    destruct (String.eqb call "open"); res_inv.
    + split; [by apply hmem_false|done].
    + split; [by apply hmem_true|done].
  - intros v' _ [= <-]. by exists h.
Qed.

Lemma check_dep3_Ok seen seq d :
  check_dep3 seen seq d = Ok tt → ∃ s i, fld d "op" = JStr s ∧ seen !! s = Some i ∧ (i < seq)%nat.
Proof.
  destruct d as [| | | | | |dd]; try done. simpl.
  destruct (getd dd "op") as [| | | |s| |]; try done. destruct (seen !! s) as [i|] eqn:E; [|done].
  intros H. apply bind_Ok in H as ([] & H & _). apply raise_if_Ok, Nat.leb_gt in H. by exists s, i.
Qed.

Lemma check_release_Ok timing o : check_release timing o = Ok tt → opt_time (getd o "release_ns").
Proof.
  unfold check_release, opt_time. destruct (getd o "release_ns") as [| |z| | | |]; simpl; try done; [by left|].
  destruct (Z.ltb_spec z 0); [done|]. right. by exists z.
Qed.

(** The facts behind one accepted operation. *)
Lemma check_op3_Ok nodes objects timing st seq op st' :
  check_op3 nodes objects timing st seq op = Ok st' →
  ∃ id fam call args deps,
    fld op "op_id" = JStr id ∧ id ≠ "" ∧ w_seen st !! id = None ∧ w_seen st' = <[ id := seq ]> (w_seen st) ∧
    fld op "family" = JStr fam ∧ fld op "call" = JStr call ∧ call ∈ keys (calls_of fam) ∧
    fld op "args" = JObj args ∧ check_args nodes objects fam call args = Ok tt ∧
    check_handles (w_open st) fam call args = Ok (w_open st') ∧
    fld op "deps" = JList deps ∧
    (∀ d, d ∈ deps → ∃ s i, fld d "op" = JStr s ∧ w_seen st' !! s = Some i ∧ (i < seq)%nat) ∧
    ∃ o x, op = JObj o ∧ default (JObj []) (dget "expected" o) = JObj x ∧ opt_time (getd o "release_ns").
Proof.
  destruct op as [| | | | | |o]; try done. unfold check_op3. intros H. cbn [fld].
  apply bind_Ok in H as ([] & _ & H). apply bind_Ok in H as (id & Hid & H).
  apply _str3_Ok in Hid as [Hid Hne]. apply bind_Ok in H as ([] & Hnew & H).
  apply raise_if_Ok, bool_decide_eq_false, eq_None_not_Some in Hnew.
  apply bind_Ok in H as (fam & Hfam & H). apply _enum3_Ok in Hfam as [Hfam _].
  apply bind_Ok in H as (call & Hcall & H). apply _enum3_Ok in Hcall as [Hcall Hin].
  destruct (getd o "args") as [| | | | | |args] eqn:Eargs; try done.
  apply bind_Ok in H as ([] & Hargs & H). apply bind_Ok in H as (open' & Hopen & H).
  apply bind_Ok in H as ([] & _ & H). apply bind_Ok in H as (? & _ & H).
  destruct (getd o "deps") as [| | | | |deps|] eqn:Edeps; try done.
  apply bind_Ok in H as (us & Hdeps & H). apply bind_Ok in H as ([] & Hrel & H).
  apply bind_Ok in H as (? & Hexp & H). apply Ok_inj in H as <-.
  exists id, fam, call, args, deps. cbn [w_seen w_open]. split_and!; try done.
  - intros d Hd. destruct (mapMR_elem _ _ _ _ Hdeps Hd) as ([] & Hu). by apply check_dep3_Ok in Hu.
  - destruct (default (JObj []) (dget "expected" o)) as [| | | | | |x'] eqn:Ex; try done.
    exists o, x'. split_and!; try done. by apply check_release_Ok in Hrel.
Qed.

Lemma filter_ne_elem (h x : hkey) (l : list hkey) : h ∈ filter (λ y, y ≠ x) l ↔ h ≠ x ∧ h ∈ l.
Proof. by rewrite list_elem_of_filter. Qed.

(** The open handles follow the history of opens and closes. *)
Lemma open_step initial pre op fam call args open open' :
  (∀ h, h ∈ open ↔ handle_open initial pre h) →
  fld op "family" = JStr fam → fld op "call" = JStr call → fld op "args" = JObj args →
  check_handles open fam call args = Ok open' →
  ∀ h, h ∈ open' ↔ handle_open initial (pre ++ [op]) h.
Proof.
  intros Hop Hf Hc Ha Hh h. apply check_handles_Ok in Hh as (H1 & H2 & H3).
  assert (∀ c k, handle_op c op k ↔ fam = "posix" ∧ call = c ∧
    ∃ v, dget "handle" args = Some v ∧ hkey_of v = Ok k) as Hact.
  { intros c k. unfold handle_op. rewrite Hf, Hc, Ha. simpl. naive_solver. }
  unfold handle_open. rewrite latched_snoc
    by (intros [(_ & E1 & _)%Hact (_ & E2 & _)%Hact]; congruence).
  rewrite !Hact. fold (handle_open initial). rewrite <- Hop.
  destruct (decide (fam = "posix")) as [->|Hfam].
  2: { rewrite H2 by (by left). split; [intros; right; split; [done|by intros [? _]]|].
       by intros [[? _]|[? _]]. }
  destruct (dget "handle" args) as [v|] eqn:Ev.
  2: { rewrite H2 by (by right). split; [intros; right; split; [done|by intros (_ & _ & ? & ? & _)]|].
       by intros [(_ & _ & ? & ? & _)|[? _]]. }
  destruct (H3 v eq_refl eq_refl) as (k & Hk). specialize (H1 v k eq_refl eq_refl Hk).
  assert (∀ c k', ("posix" = "posix" ∧ call = c ∧ ∃ v0, Some v = Some v0 ∧ hkey_of v0 = Ok k')
    ↔ call = c ∧ k' = k) as Hs.
  { intros c k'. split; [|intros [-> ->]; eauto]. intros (_ & ? & v0 & [= <-] & E).
    rewrite Hk in E. by apply Ok_inj in E as ->. }
  rewrite !Hs. destruct (String.eqb_spec call "open") as [->|Hno].
  - destruct H1 as [_ ->]. rewrite elem_of_cons. split.
    + intros [->|?]; [by left|right; split; [done|by intros [? _]]].
    + intros [[_ ->]|[? _]]; auto.
  - destruct H1 as [Hin ->]. destruct (String.eqb_spec call "close") as [->|Hnc].
    + rewrite filter_ne_elem. split; [intros [? ?]; right; split; [done|by intros [_ ?]]|].
      intros [[? _]|[? Hn]]; [done|]. split; [intros ->; by apply Hn|done].
    + split; [intros; right; split; [done|by intros [? _]]|by intros [[? _]|[? _]]].
Qed.

Lemma check_args_typed nodes objects fam call args k v :
  check_args nodes objects fam call args = Ok tt → dget k args = Some v → arg_typed k v.
Proof.
  unfold check_args. intros H Hk. apply bind_Ok in H as (? & _ & H). apply bind_Ok in H as (us & Hint & H).
  apply bind_Ok in H as ([] & Hp1 & H). apply bind_Ok in H as ([] & Hp2 & H). apply bind_Ok in H as ([] & Hfl & _).
  split_and!.
  - intros Hin. destruct (mapMR_elem _ _ _ _ Hint Hin) as (u & Hu). unfold check_int_arg in Hu. rewrite Hk in Hu.
    apply bind_Ok in Hu as (z & Hz & _). unfold _int3 in Hz. destruct v as [| |n| | | |]; try done.
    destruct (Z.ltb_spec n 0); [done|]. by exists n.
  - intros Hin. assert (check_path_arg args k = Ok tt) as Hp.
    { apply elem_of_cons in Hin as [->|Hin]; [done|]. by apply list_elem_of_singleton in Hin as ->. }
    unfold check_path_arg in Hp. rewrite Hk in Hp. destruct v; try done. by eexists.
  - intros ->. unfold check_flags in Hfl. rewrite Hk in Hfl. apply bind_Ok in Hfl as (l & Hl & Hfl).
    apply bind_Ok in Hfl as (us' & Hm & _). exists l. split; [done|]. intros f Hf.
    destruct (mapMR_elem _ _ _ _ Hm Hf) as (s & Hs). apply _enum3_Ok in Hs as [-> ?]. by exists s.
Qed.

(** One accepted operation satisfies its promises. *)
Lemma op_sound3_intro nodes objects initial pre st st' op id fam call args deps :
  (∀ id i, w_seen st !! id = Some i → ∃ op, pre !! i = Some op ∧ fld op "op_id" = JStr id) →
  (∀ h, h ∈ w_open st ↔ handle_open initial pre h) →
  fld op "op_id" = JStr id → id ≠ "" → (∀ i op', pre !! i = Some op' → fld op' "op_id" ≠ JStr id) →
  w_seen st' = <[ id := length pre ]> (w_seen st) →
  fld op "family" = JStr fam → fld op "call" = JStr call → call ∈ keys (calls_of fam) →
  fld op "args" = JObj args → check_args nodes objects fam call args = Ok tt →
  check_handles (w_open st) fam call args = Ok (w_open st') →
  fld op "deps" = JList deps →
  (∀ d, d ∈ deps → ∃ s i, fld d "op" = JStr s ∧ w_seen st' !! s = Some i ∧ (i < length pre)%nat) →
  (∃ o x, op = JObj o ∧ default (JObj []) (dget "expected" o) = JObj x ∧ opt_time (getd o "release_ns")) →
  op_sound3 initial pre op.
Proof.
  intros Hseen Hopen Hid Hne Hfresh Hseen' Hfam Hcall Hin Hargs Hca Hch Hdeps Hd (o & x & -> & Hx & Hrel).
  apply check_handles_Ok in Hch as (Hh & _ & Hhk).
  pose proof (λ k v, check_args_typed _ _ _ _ _ k v Hca) as Htyped. unfold check_args in Hca. apply bind_Ok in Hca as ([] & Hreq & Hca). apply raise_unless_Ok in Hreq.
  apply bind_Ok in Hca as (? & _ & Hca). apply bind_Ok in Hca as ([] & Hp1 & Hca).
  apply bind_Ok in Hca as ([] & Hp2 & _).
  constructor.
  - by exists id.
  - exists fam, call. split; [done|]. split; [done|].
    apply dhas_keys in Hin. unfold dhas in Hin. unfold fields_of in Hreq.
    destruct (dget call (calls_of fam)) as [fields|]; [|done]. exists fields. split; [done|].
    intros f Hf. rewrite Hargs. simpl in Hreq |- *. rewrite forallb_forall in Hreq.
    apply list_elem_of_In, Hreq in Hf. unfold dhas in Hf. by destruct (dget f args).
  - intros k p Hk Hp. rewrite Hargs in Hp. simpl in Hp.
    apply elem_of_cons in Hk as [->|Hk]; [|apply list_elem_of_singleton in Hk as ->].
    + exact (check_path_arg_Ok _ _ _ Hp1 Hp).
    + exact (check_path_arg_Ok _ _ _ Hp2 Hp).
  - intros h (Hf & Hc & v & Hv & Hk). rewrite Hargs in Hv. simpl in Hv.
    specialize (Hh v h ltac:(congruence) Hv Hk). assert (call = "open") as -> by congruence.
    rewrite <- Hopen. by apply Hh.
  - intros c h Hc' (Hf & Hc & v & Hv & Hk). rewrite Hargs in Hv. simpl in Hv.
    specialize (Hh v h ltac:(congruence) Hv Hk). assert (call = c) as -> by congruence.
    destruct (String.eqb_spec c "open"); [done|]. apply Hopen. by destruct Hh.
  - exists deps. split; [done|]. intros d Hdd. destruct (Hd d Hdd) as (s & i & Hs & Hsi & Hlt).
    rewrite Hseen' in Hsi. apply lookup_insert_Some in Hsi as [[_ <-]|[_ Hsi]]; [lia|].
    destruct (Hseen _ _ Hsi) as (op' & ? & ?). by exists i, op', s.
  - by exists o, args, x.
  - intros k v. rewrite Hargs. apply Htyped.
  - intros v Hp. rewrite Hargs. apply Hhk. congruence.
Qed.

Lemma loop_inv3_step nodes objects timing initial pre st op st' :
  loop_inv3 initial pre st → check_op3 nodes objects timing st (length pre) op = Ok st' →
  loop_inv3 initial (pre ++ [op]) st'.
Proof.
  intros [Hseen Hids Hopen Hops] H.
  apply check_op3_Ok in H as (id & fam & call & args & deps & Hid & Hne & Hnew & Hseen' & Hfam & Hcall &
    Hin & Hargs & Hca & Hch & Hdeps & Hd & Hshape).
  assert (∀ i op', pre !! i = Some op' → fld op' "op_id" ≠ JStr id) as Hfresh.
  { intros i op' Hi He. destruct (Hids _ _ _ Hi He) as [? ?]. congruence. }
  constructor.
  - intros id' i. rewrite Hseen'. intros [[-> <-]|[_ Hi]]%lookup_insert_Some.
    + exists op. split; [by apply lookup_snoc_cases; right|done].
    + destruct (Hseen _ _ Hi) as (op' & ? & ?). exists op'. split; [by apply lookup_snoc_cases; left|done].
  - intros i op' id' Hi He. rewrite Hseen', lookup_insert_is_Some.
    apply lookup_snoc_cases in Hi as [Hi|[-> ->]]; [|left; congruence].
    destruct (decide (id = id')); [by left|]. right. split; [done|]. by eapply Hids.
  - by eapply open_step.
  - intros s op' Hs. apply lookup_snoc_cases in Hs as [Hs|[-> ->]].
    { rewrite take_app_le by (apply lookup_lt_Some in Hs; lia). by apply Hops. }
    rewrite take_app_length. by eapply op_sound3_intro.
Qed.

(** The paths of the initial entries: listed once, and inside the root. *)
Definition entries_sound (entries : list json) : Prop :=
  ∃ paths, map (λ e, fld e "path") entries = JStr <$> paths ∧ NoDup paths ∧ Forall confined paths.

Lemma check_entries_sound nodes entries paths :
  foldM (check_entry nodes) [] entries = Ok paths → entries_sound entries.
Proof.
  intros H. assert (map (λ e, fld e "path") entries = JStr <$> reverse paths ∧ NoDup paths ∧ Forall confined paths)
    as (H1 & H2 & H3).
  { revert H. apply (foldM_inv (check_entry nodes) (λ pre ps,
      map (λ e, fld e "path") pre = JStr <$> reverse ps ∧ NoDup ps ∧ Forall confined ps)).
    { split_and!; [done|constructor|constructor]. }
    intros pre e ps ps' (IH1 & IH2 & IH3) _ H. unfold check_entry in H.
    destruct e as [| | | | | |ed]; try done. cbn [get] in H. res_inv.
    match goal with E : _str3 _ = Ok _ |- _ => apply _str3_Ok in E as [Ep _] end.
    match goal with E : escapes _ = false |- _ => apply escapes_confined in E end.
    match goal with E : bool_decide _ = false |- _ => apply bool_decide_eq_false in E end.
    rewrite map_app, IH1. cbn [map fld]. rewrite Ep, reverse_cons, fmap_app.
    split_and!; [done|by constructor|by constructor]. }
  exists (reverse paths). split; [done|]. by rewrite !reverse_Permutation.
Qed.

Lemma validate_workload_Ok wl :
  validate_workload wl = Ok tt →
  ∃ d ns entries handles ops,
    wl = JObj d ∧ getd d "namespace" = JObj ns ∧ getd ns "entries" = JList entries ∧
    getd ns "handles" = JObj handles ∧ getd d "operations" = JList ops ∧
    entries_sound entries ∧
    ∀ s op, ops !! s = Some op → op_sound3 (KStr <$> keys handles) (take s ops) op.
Proof.
  destruct wl as [| | | | | |d]; try done. unfold validate_workload. intros H.
  apply bind_Ok in H as (? & _ & H). apply bind_Ok in H as (tm & _ & H).
  apply bind_Ok in H as (? & _ & H). apply bind_Ok in H as (? & _ & H).
  apply bind_Ok in H as ([nodes initial] & Hns & H).
  destruct (getd d "namespace") as [| | | | | |n] eqn:En; try done. unfold check_namespace in Hns.
  destruct (getd n "nodes") as [| | | | | |nodes'] eqn:Enodes; try done.
  destruct (getd n "entries") as [| | | | |entries|] eqn:Eent; try done.
  destruct (getd n "handles") as [| | | | | |handles] eqn:Eh; try done.
  apply bind_Ok in Hns as (? & _ & Hns). apply bind_Ok in Hns as (paths & Hent & Hns).
  apply bind_Ok in Hns as (? & _ & Hns). apply Ok_inj in Hns as [= <- <-].
  destruct (getd d "operations") as [| | | | |ops|] eqn:Eops; try done.
  apply bind_Ok in H as (st & Hops & _).
  exists d, n, entries, handles, ops. split_and!; try done; [by eapply check_entries_sound|].
  eapply (foldiM_inv _ (loop_inv3 (KStr <$> keys handles))) in Hops; [apply Hops| |].
  - constructor; try done; cbn. intros h. unfold handle_open. by rewrite latched_nil.
  - intros pre op s1 s2 Hi _ Hc. by eapply loop_inv3_step.
Qed.

(** A node of an accepted namespace. *)
Record node_sound (node : json) : Prop := {
  no_dict : is_dict node = true;
  no_kind : ∃ kind, fld node "kind" = JStr kind ∧ kind ∈ ["file"; "dir"; "object"];
  no_size : ∃ size, default (JInt 0) (dget "size" (as_dict node)) = JInt size ∧ 0 ≤ size
}.

Lemma check_node_sound kv u : check_node kv = Ok u → kv.1 ≠ "" ∧ node_sound kv.2.
Proof.
  destruct kv as [nid node]. unfold check_node. intros H. apply bind_Ok in H as (s & Hs & H).
  apply _str3_Ok in Hs as [[= <-] Hne]. destruct node as [| | | | | |n]; try done.
  apply bind_Ok in H as (k & Hk & H). cbn [get] in Hk. apply Ok_inj in Hk as <-.
  apply bind_Ok in H as (kind & Hkind & H). apply _enum3_Ok in Hkind as [Hkind Hin].
  apply bind_Ok in H as (i & _ & H). apply bind_Ok in H as (? & _ & H).
  apply bind_Ok in H as (sz & Hsz & H). cbn [get_default] in Hsz. apply bind_Ok in H as (z & Hz & _).
  split; [done|]. constructor; [done|by exists kind|]. unfold _int3 in Hz.
  apply Ok_inj in Hsz. cbn [snd as_dict]. rewrite <- Hsz in Hz.
  destruct (default (JInt 0) (dget "size" n)) as [| |v| | | |] eqn:E; try done.
  destruct (Z.ltb_spec v 0); [done|]. by exists v.
Qed.

(** The entries of an accepted namespace name nodes that exist. *)
Lemma validate_namespace_Ok d ns entries :
  validate_workload (JObj d) = Ok tt → getd d "namespace" = JObj ns → getd ns "entries" = JList entries →
  ∃ nodes, getd ns "nodes" = JObj nodes ∧
    ∀ e, e ∈ entries → ∃ p name node, is_dict e = true ∧ fld e "path" = JStr p ∧ fld e "node" = JStr name ∧
      name ≠ "" ∧ dget name nodes = Some node ∧ node_sound node.
Proof.
  intros H En Eent. unfold validate_workload in H.
  apply bind_Ok in H as (? & _ & H). apply bind_Ok in H as (tm & _ & H).
  apply bind_Ok in H as (? & _ & H). apply bind_Ok in H as (? & _ & H).
  apply bind_Ok in H as ([nodes initial] & Hns & _). rewrite En in Hns. unfold check_namespace in Hns.
  destruct (getd ns "nodes") as [| | | | | |nodes'] eqn:Enodes; try done. rewrite Eent in Hns.
  destruct (getd ns "handles") as [| | | | | |handles] eqn:Eh; try done.
  apply bind_Ok in Hns as (us & Hnodes & Hns). apply bind_Ok in Hns as (paths & Hent & _).
  exists nodes'. split; [done|]. intros e He.
  assert (∃ ps ps', check_entry nodes' ps e = Ok ps') as (ps & ps' & Hce).
  { clear -Hent He. revert Hent. generalize (@nil string). induction entries as [|x l IH]; intros ps0 Hent; [by inversion He|].
    cbn [foldM] in Hent. apply bind_Ok in Hent as (ps1 & H1 & Hent). apply elem_of_cons in He as [->|He]; [eauto|].
    by eapply IH. }
  unfold check_entry in Hce. destruct e as [| | | | | |ed]; try done. cbn [get mbind res_bind] in Hce.
  apply bind_Ok in Hce as (p & Hp & Hce). apply _str3_Ok in Hp as [Hp _]. apply bind_Ok in Hce as (? & _ & Hce).
  apply bind_Ok in Hce as (known & Hk & Hce). apply bind_Ok in Hce as ([] & Hkn & _). apply raise_unless_Ok in Hkn.
  subst known. unfold in_keys in Hk. destruct (getd ed "node") as [| | | |name| |] eqn:Ename; try done.
  apply Ok_inj in Hk. unfold dhas in Hk. destruct (dget name nodes') as [node|] eqn:Enode; [|done].
  pose proof (dget_Some_In _ _ _ Enode) as Hin. destruct (mapMR_elem _ _ _ _ Hnodes Hin) as (u & Hu).
  apply check_node_sound in Hu as [? ?]. by exists p, name, node.
Qed.

(** C36: a workload the validator accepts is executable as typed: its initial
    entries are listed once and stay inside the root; every operation carries
    the fields of its call, with sizes and offsets that are natural numbers
    and flags from the list; op ids are unique and dependencies point
    backwards; no path argument leads above the root; a posix handle is used
    or closed only while the history of opens and closes leaves it open, and
    opened only while it is closed. *)
Theorem validate_workload_sound wl :
  validate_workload wl = Ok tt →
  ∃ d ns entries handles ops,
    wl = JObj d ∧ getd d "namespace" = JObj ns ∧ getd ns "entries" = JList entries ∧
    getd ns "handles" = JObj handles ∧ getd d "operations" = JList ops ∧
    entries_sound entries ∧
    ∀ s op, ops !! s = Some op → op_sound3 (KStr <$> keys handles) (take s ops) op.
Proof. apply validate_workload_Ok. Qed.

(** A posix workload: open a file that exists, read it, close it, reopen it. *)
Definition ex_posix : json :=
  let op id seq call args deps :=
    JObj [("op_id", JStr id); ("seq", JInt seq); ("family", JStr "posix"); ("call", JStr call);
          ("args", JObj args); ("stream", JStr "s0"); ("deps", JList deps)] in
  let dep d := JObj [("op", JStr d); ("kind", JStr "program")] in
  JObj [("schema", JStr SCHEMA3);
        ("provenance", JObj [("capture_level", JStr "api"); ("mapping_method", JStr "verified");
           ("completeness", JObj [("status", JStr "complete")]);
           ("timing_model", JStr "absent"); ("release_provenance", JStr "none")]);
        ("engine", JObj [("family", JStr "posix"); ("name", JStr "n"); ("revision", JStr "r")]);
        ("content_profile", JStr "incompressible");
        ("namespace", JObj [("nodes", JObj [("n0", JObj [("kind", JStr "file"); ("size", JInt 8)])]);
           ("entries", JList [JObj [("path", JStr "d/f"); ("node", JStr "n0")]]); ("handles", JObj [])]);
        ("operations", JList [
           op "a" 0 "open" [("path", JStr "d/f"); ("flags", JList [JStr "rd"]); ("handle", JStr "h")] [];
           op "b" 1 "pread" [("handle", JStr "h"); ("offset", JInt 0); ("length", JInt 8)] [dep "a"];
           op "c" 2 "close" [("handle", JStr "h")] [dep "b"];
           op "d" 3 "open" [("path", JStr "d/f"); ("flags", JList [JStr "wr"]); ("handle", JStr "h")] [dep "c"]]);
        ("health", JObj [])].

Lemma validate_workload_sound_witness :
  ∃ d ns entries handles ops,
    ex_posix = JObj d ∧ getd d "namespace" = JObj ns ∧ getd ns "entries" = JList entries ∧
    getd ns "handles" = JObj handles ∧ getd d "operations" = JList ops ∧
    entries_sound entries ∧
    ∀ s op, ops !! s = Some op → op_sound3 (KStr <$> keys handles) (take s ops) op.
Proof. apply (validate_workload_sound ex_posix). vm_compute. reflexivity. Defined.

(** ** The v2 adapter keeps every operation *)
Record carried (o o' : json) : Prop := {
  ca_id : fld o' "op_id" = fld o "op_id";
  ca_call : fld o' "family" = JStr "object" ∧ fld o' "call" = fld o "op";
  ca_stream : fld o' "stream" = fld o "stream";
  ca_times : fld o' "release_ns" = fld o "release_ns" ∧ fld o' "declared_delay_ns" = fld o "declared_delay_ns";
  ca_node : fld (fld o' "args") "node" = JStr (node_name (fld o "object_id") (fld o "version"));
  ca_size : fld o "op" = JStr "store" → fld (fld o' "args") "size" = fld o "requested_bytes";
  ca_deps : ∃ deps deps', iterate (fld o "deps") = Ok deps ∧ fld o' "deps" = JList deps' ∧
    map (λ d, fld d "op") deps' = deps
}.

Lemma list_at_Ok d k l : list_at d k = Ok l ↔ dget k d = Some (JList l).
Proof.
  unfold list_at, item. destruct (dget k d) as [[| | | | | |]|]; simpl; split; try done.
  - intros H. by apply Ok_inj in H as ->.
  - by intros [= ->].
Qed.

Lemma carry_dep_Ok by_id rule o d d' : carry_dep by_id rule o d = Ok d' → is_dict d' = true ∧ fld d' "op" = d.
Proof. unfold carry_dep. destruct d; try done. destruct (dget s by_id); [|done]. intros H. by res_inv. Qed.

Lemma item_get_fld o k x : get o k = Ok x → fld o k = x.
Proof. destruct o; try done. intros H. by apply Ok_inj in H. Qed.

Lemma call_name_Ok v c : call_name v = Ok c → v = JStr c.
Proof. destruct v; try done. intros H. by apply Ok_inj in H as ->. Qed.

Lemma carry_op_Ok by_id rule wl o wl' :
  carry_op by_id rule wl o = Ok wl' →
  ∃ ops o', dget "operations" wl = Some (JList ops) ∧ dget "operations" wl' = Some (JList (ops ++ [o'])) ∧
    carried o o'.
Proof.
  unfold carry_op, add_op. intros H.
  apply bind_Ok in H as (oid & Hoid & H). apply bind_Ok in H as (ver & Hver & H).
  apply bind_Ok in H as (dj & Hdj & H). apply bind_Ok in H as (ds & Hds & H).
  apply bind_Ok in H as (deps & Hdeps & H). apply bind_Ok in H as (opj & Hop & H).
  apply bind_Ok in H as (rng & _ & H). apply bind_Ok in H as (extra & Hex & H).
  apply bind_Ok in H as (out & _ & H). apply bind_Ok in H as (opid & Hid & H).
  apply bind_Ok in H as (call & Hcall & H). apply bind_Ok in H as (stream & Hst & H).
  apply bind_Ok in H as (rel & Hrel & H). apply bind_Ok in H as (delay & Hdl & H).
  apply bind_Ok in H as (batch & _ & H). apply bind_Ok in H as ([] & _ & H).
  apply bind_Ok in H as (ops & Hops & H). apply Ok_inj in H as <-.
  apply list_at_Ok in Hops. apply call_name_Ok in Hcall as ->.
  apply item_fld in Hoid as <-, Hver as <-, Hdj as <-, Hid as <-, Hst as <-.
  pose proof (item_fld _ _ _ Hop) as Hop'.
  apply item_get_fld in Hrel as <-, Hdl as <-.
  eexists ops, _. split; [done|]. split; [by rewrite dget_dset_eq|].
  constructor; cbn [fld]; getd_simpl; try done.
  - intros Hs. rewrite Hop' in Hs. injection Hs as ->.
    change (eq_str (JStr "store") "store") with true in Hex. cbv iota in Hex.
    apply bind_Ok in Hex as (b & Hb & Hex). apply Ok_inj in Hex as <-. by apply item_fld in Hb as <-.
  - exists ds. eexists. split; [done|]. split; [reflexivity|].
    apply mapMR_Ok in Hdeps. clear -Hdeps. induction Hdeps as [|d d' ds ds' Hd _ IH]; [done|].
    apply carry_dep_Ok in Hd as [Hd1 Hd2]. cbn [map]. rewrite Hd1, Hd2. by f_equal.
Qed.

Lemma carry_ops_Ok by_id rule wl ops wl' :
  dget "operations" wl = Some (JList []) → foldM (carry_op by_id rule) wl ops = Ok wl' →
  ∃ ops', dget "operations" wl' = Some (JList ops') ∧ Forall2 carried ops ops'.
Proof.
  intros H0. apply (foldM_inv (carry_op by_id rule) (λ pre w,
    ∃ ops', dget "operations" w = Some (JList ops') ∧ Forall2 carried pre ops')).
  - exists []. split; [done|constructor].
  - intros pre o w1 w2 (ops' & Hw & Hf) _ H.
    apply carry_op_Ok in H as (ops1 & o' & E1 & E2 & Hc). rewrite Hw in E1. injection E1 as <-.
    exists (ops' ++ [o']). split; [done|]. apply Forall2_app; [done|constructor; [done|constructor]].
Qed.

(** Adding nodes and entries leaves the other parts alone. *)
Lemma foldM_keeps {A} (f : dict → A → res dict) k d l d' :
  (∀ d1 x d2, f d1 x = Ok d2 → dget k d2 = dget k d1) → foldM f d l = Ok d' → dget k d' = dget k d.
Proof.
  intros Hf. apply (foldM_inv f (λ _ w, dget k w = dget k d)); [done|].
  intros pre x w1 w2 Hw _ H. by rewrite (Hf _ _ _ H).
Qed.

Lemma add_node_keeps wl n k i s t wl' : add_node wl n k i s t = Ok wl' → dget "operations" wl' = dget "operations" wl.
Proof. unfold add_node. intros H. res_inv. by rewrite dget_dset. Qed.

Lemma add_live_keeps wl it wl' : add_live wl it = Ok wl' → dget "operations" wl' = dget "operations" wl.
Proof. unfold add_live, add_entry. intros H. res_inv. by rewrite dget_dset. Qed.

Lemma add_versions_keeps wl kv wl' : add_versions wl kv = Ok wl' → dget "operations" wl' = dget "operations" wl.
Proof.
  unfold add_versions. intros H. apply bind_Ok in H as (vj & _ & H). destruct vj; try done.
  revert H. apply foldM_keeps. intros d1 x d2 H. res_inv. by eapply add_node_keeps.
Qed.

(** [from_intent2] yields a valid workload with the same operations in
    the same order: each keeps its id, verb, stream, release time and
    dependencies, and acts on the node named after its object and version. *)
Theorem from_intent2_carries sha256 intent wl :
  from_intent2 sha256 intent = Ok wl →
  validate_workload wl = Ok tt ∧
  ∃ ops ops', fld intent "operations" = JList ops ∧ fld wl "operations" = JList ops' ∧
    Forall2 carried ops ops'.
Proof.
  unfold from_intent2. intros H. apply bind_Ok in H as ([] & Hval & H).
  apply validate_intent2_Ok in Hval as (d & -> & [_ (reps & objs & items & live & ops & _ & _ & _ & Eops & _)]).
  do 15 (apply bind_Ok in H as (? & _ & H)). apply bind_Ok in H as (wl0 & Hnew & H).
  apply bind_Ok in H as (objects & _ & H). apply bind_Ok in H as (wl1 & H1 & H).
  do 3 (apply bind_Ok in H as (? & _ & H)). apply bind_Ok in H as (wl2 & H2 & H).
  apply bind_Ok in H as (opsj & Hoj & H). apply bind_Ok in H as (ops0 & Hit & H).
  apply bind_Ok in H as (by_id & _ & H). apply bind_Ok in H as (wl3 & H3 & H).
  do 2 (apply bind_Ok in H as (? & _ & H)). apply bind_Ok in H as ([] & Hv & H). apply Ok_inj in H as <-.
  split; [done|]. apply item_fld in Hoj. cbn in Hoj. rewrite Eops in Hoj. subst opsj.
  apply Ok_inj in Hit as <-. exists ops.
  destruct (carry_ops_Ok _ _ _ _ _ ltac:(rewrite (foldM_keeps _ _ _ _ _ add_live_keeps H2),
    (foldM_keeps _ _ _ _ _ add_versions_keeps H1); unfold new_workload in Hnew; res_inv; reflexivity) H3)
    as (ops' & Hops' & Hf).
  exists ops'. split; [done|]. split; [|done]. cbn [fld]. unfold getd.
  by rewrite !dget_dset, Hops'.
Qed.

Lemma from_intent2_carries_witness :
  validate_workload ex_workload = Ok tt ∧
  ∃ ops ops', fld ex_intent2 "operations" = JList ops ∧ fld ex_workload "operations" = JList ops' ∧
    Forall2 carried ops ops'.
Proof. apply (from_intent2_carries (λ _, "00") ex_intent2 ex_workload). vm_compute. reflexivity. Defined.

(** A v2 document with one object [oid] and the given initial state. *)
Definition small_intent2 (oid : string) (live : list json) (completeness : dict) : json :=
  JObj [("schema", JStr SCHEMA2); ("kind", JStr KIND);
        ("provenance", JObj [("capture_level", JStr "generated"); ("mapping_method", JStr "declared");
                             ("completeness", JObj completeness); ("timing_model", JStr "absent")]);
        ("engine", JObj [("name", JStr "e"); ("revision", JStr "r"); ("layout", JObj [])]);
        ("representations", JObj [("r", JObj [("codec", JStr "opaque"); ("encoded_bytes", JInt 8);
           ("components", JList [JObj [("role", JStr "payload"); ("offset", JInt 0); ("length", JInt 8)]])])]);
        ("objects", JObj [(oid, JObj [("versions", JObj [("1",
           JObj [("representation", JStr "r"); ("bytes", JInt 8)])])])]);
        ("initial_state", JObj [("live", JList live)]);
        ("operations", JList []); ("health", JObj []);
        ("timing", JObj [("sidecar", JNull); ("sidecar_sha256", JNull)])].

Definition complete_notes : dict := [("status", JStr "complete"); ("notes", JList [])].
Definition live_item (oid : string) : json := JObj [("object_id", JStr oid); ("version", JInt 1)].

(** [from_intent2] is to carry every validated v2 record, but v2 allows
    what v3 or the adapter itself refuses: an initial object listed twice, an
    object id with a [..] component, and a record without completeness notes
    are each accepted by [validate_intent2] and make the adapter raise. *)
Theorem from_intent2_rejects_validated :
  let twice := small_intent2 "x" [live_item "x"; live_item "x"] complete_notes in
  let dotdot := small_intent2 "a/../b" [live_item "a/../b"] complete_notes in
  let no_notes := small_intent2 "x" [] [("status", JStr "complete")] in
  (validate_intent2 twice = Ok tt ∧ from_intent2 (λ s, s) twice = Raise (w3err "entry {p!r} listed twice")) ∧
  (validate_intent2 dotdot = Ok tt ∧
   from_intent2 (λ s, s) dotdot = Raise (w3err "entry path {p!r} must be relative and traversal-free")) ∧
  (validate_intent2 no_notes = Ok tt ∧ from_intent2 (λ s, s) no_notes = Raise (Exn KeyError "notes")).
Proof. vm_compute. done. Qed.
