(* ===== verification/ContentProfile.v ===== *)
(** * Replay payloads ([tools/kvio/content_profile.py], and
      [synthetic_bytes] of [tools/kvio/intent_exec.py])

    Payload bytes are a pure function of the profile, a content identity, an
    offset and a length.  The digest function of [hashlib] is a parameter. *)

From stdpp Require Import prelude strings list numbers.
From Stdlib Require Import ZArith Lia Ascii.
From S2P Require Import Prelude PyText PyJson JsonText.
Local Open Scope Z_scope.

(** Bytes as integers below 256. *)
Abbreviation bytes := (list Z).

(** [b[i:j]] for non-negative [i] and any [j]; a negative [j] counts from the
    end. *)
Definition slice (b : bytes) (i j : Z) : bytes :=
  let n := Z.of_nat (length b) in
  let j' := if j <? 0 then Z.max 0 (n + j) else j in
  take (Z.to_nat (j' - i)) (drop (Z.to_nat i) b).

(** ** [float(s)] *)
Fixpoint drop_underscores (prev_digit : bool) (s : string) : option string :=
  match s with
  | EmptyString => Some EmptyString
  | String c t =>
      if code c =? 95 then
        match t with
        | String d _ => if prev_digit && is_digit09 d then drop_underscores false t else None
        | EmptyString => None
        end
      else String c <$> drop_underscores (is_digit09 c) t
  end.

Fixpoint lower (s : string) : string :=
  match s with
  | EmptyString => EmptyString
  | String c t =>
      String (if (65 <=? code c) && (code c <=? 90) then chr (code c + 32) else c) (lower t)
  end.

Definition float_body (neg : bool) (s : string) : option pyfloat :=
  let l := lower s in
  if String.eqb l "inf" || String.eqb l "infinity" then Some (FInf neg)
  else if String.eqb l "nan" then Some FNaN
  else
    let '(ip, r) := take_digits s in
    let '(fp, r) := match r with
                    | String c t => if code c =? 46 then take_digits t else (EmptyString, r)
                    | EmptyString => (EmptyString, r)
                    end in
    if String.eqb (ip +:+ fp) "" then None else
    let '(ex, r) := p_exp r in
    if String.eqb r "" then
      Some (float_of_dec neg (digits_val (ip +:+ fp)) (default 0 ex - Z.of_nat (String.length fp)))
    else None.

Definition float_of_str (s : string) : res pyfloat :=
  let bad := Raise (Exn ValueError "could not convert string to float") in
  match drop_underscores false (strip s) with
  | None => bad
  | Some t =>
      let r := match t with
               | String c u => if code c =? 45 then float_body true u
                               else if code c =? 43 then float_body false u else float_body false t
               | EmptyString => None
               end in
      match r with Some f => Ok f | None => bad end
  end.

(** [a + b] and [a < b] on floats. *)
Definition float_add (a b : pyfloat) : pyfloat :=
  match a, b with
  | FNaN, _ | _, FNaN => FNaN
  | FInf x, FInf y => if Bool.eqb x y then FInf x else FNaN
  | FInf x, _ | _, FInf x => FInf x
  | FFin n1 m1 e1, FFin n2 m2 e2 =>
      let '(m, e) := rat_lin Z.add (sgn n1 m1, e1) (sgn n2 m2, e2) in rnd m e
  end.

Definition float_ltb (a b : pyfloat) : bool := py_ltb (JFloat a) (JFloat b).

Definition fzero : pyfloat := FFin false 0 0.
Definition fone : pyfloat := FFin false 1 0.

(** ** Profiles *)
Definition BLOCK : Z := 4096.

Record knobs := {
  kn_zero : pyfloat; kn_pattern : pyfloat; kn_pattern_len : Z; kn_dup_classes : Z; kn_block : Z
}.

Inductive profile := Zeros | Incompressible | Mixed (k : knobs).

Definition default_knobs : knobs :=
  {| kn_zero := fzero; kn_pattern := fzero; kn_pattern_len := 64; kn_dup_classes := 0; kn_block := BLOCK |}.

(** [s.partition(sep)] for a one-character separator: the parts around its
    first occurrence. *)
Fixpoint partition (z : Z) (s : string) : string * string :=
  match s with
  | EmptyString => (EmptyString, EmptyString)
  | String c t => if code c =? z then (EmptyString, t)
                  else let '(a, b) := partition z t in (String c a, b)
  end.

Definition set_knob (kn : knobs) (kv : string) : res knobs :=
  let '(k, v) := partition 61 kv in
  if String.eqb k "zero" then
    f ← float_of_str v;
    Ok {| kn_zero := f; kn_pattern := kn_pattern kn; kn_pattern_len := kn_pattern_len kn;
          kn_dup_classes := kn_dup_classes kn; kn_block := kn_block kn |}
  else if String.eqb k "pattern" then
    f ← float_of_str v;
    Ok {| kn_zero := kn_zero kn; kn_pattern := f; kn_pattern_len := kn_pattern_len kn;
          kn_dup_classes := kn_dup_classes kn; kn_block := kn_block kn |}
  else if String.eqb k "pattern_len" then
    n ← int_of_str v;
    Ok {| kn_zero := kn_zero kn; kn_pattern := kn_pattern kn; kn_pattern_len := n;
          kn_dup_classes := kn_dup_classes kn; kn_block := kn_block kn |}
  else if String.eqb k "dup_classes" then
    n ← int_of_str v;
    Ok {| kn_zero := kn_zero kn; kn_pattern := kn_pattern kn; kn_pattern_len := kn_pattern_len kn;
          kn_dup_classes := n; kn_block := kn_block kn |}
  else if String.eqb k "block" then
    n ← int_of_str v;
    Ok {| kn_zero := kn_zero kn; kn_pattern := kn_pattern kn; kn_pattern_len := kn_pattern_len kn;
          kn_dup_classes := kn_dup_classes kn; kn_block := n |}
  else Raise (Exn ValueError "unknown knob {k!r}").

Definition parse_profile (spec : string) : res profile :=
  let '(name, rest) := partition 58 spec in
  if String.eqb name "zeros" || String.eqb name "incompressible" then
    raise_unless (String.eqb rest "") (Exn ValueError "{name} takes no knobs") ;;
    Ok (if String.eqb name "zeros" then Zeros else Incompressible)
  else
    raise_unless (String.eqb name "mixed") (Exn ValueError "unknown profile {name!r}") ;;
    kn ← foldM set_knob default_knobs (filter (λ s, s ≠ "") (split_on 44 rest));
    raise_if (float_ltb fone (float_add (kn_zero kn) (kn_pattern kn)))
      (Exn ValueError "zero + pattern fractions exceed 1") ;;
    Ok (Mixed kn).

(** ** Content *)
Section content.
(** [hashlib.blake2b(data, digest_size=n).digest()] *)
Variable blake2b : string → nat → bytes.

(** [int.from_bytes(b, "big")] *)
Definition from_bytes_big (b : bytes) : Z := fold_left (λ acc x, 256 * acc + x) b 0.

(** [while len(out) < length: ...] from part [n]; one part is enough fuel per
    byte. *)
Fixpoint hash_parts (fuel : nat) (seed : Z → string) (n : Z) (out : bytes) (len : Z) : res bytes :=
  if Z.of_nat (length out) <? len then
    match fuel with
    | O => Raise (Exn OutOfFuel "while len(out) < length")
    | S fuel => hash_parts fuel seed (n + 1) (out ++ blake2b (seed n) 64) len
    end
  else Ok (slice out 0 len).

Definition stream_seed (identity : string) (block_index n : Z) : string :=
  identity +:+ ":" +:+ str_of_Z block_index +:+ ":" +:+ str_of_Z n.

Definition _hash_stream (identity : string) (block_index len : Z) : res bytes :=
  hash_parts (Z.to_nat len) (stream_seed identity block_index) 0 [] len.

(** [bytes(length)] *)
Definition zero_bytes (len : Z) : res bytes :=
  if len <? 0 then Raise (Exn ValueError "negative count") else Ok (replicate (Z.to_nat len) 0).

Definition block_tag (identity : string) (block_index : Z) (tag : string) : string :=
  identity +:+ ":" +:+ str_of_Z block_index +:+ ":" +:+ tag.

(** [(pat * (length // len(pat) + 1))[:length]] *)
Definition repeat_pattern (pat : bytes) (len : Z) : bytes :=
  slice (concat (replicate (Z.to_nat (len / Z.of_nat (length pat) + 1)) pat)) 0 len.

Definition _block_bytes (p : profile) (identity : string) (block_index len : Z) : res bytes :=
  match p with
  | Zeros => zero_bytes len
  | Incompressible => _hash_stream identity block_index len
  | Mixed kn =>
      let r := rnd (from_bytes_big (blake2b (block_tag identity block_index "class") 8)) (-64) in
      if float_ltb r (kn_zero kn) then zero_bytes len
      else if float_ltb r (float_add (kn_zero kn) (kn_pattern kn)) then
        let size := Z.to_nat (Z.max 1 (Z.min 64 (kn_pattern_len kn))) in
        Ok (repeat_pattern (blake2b (block_tag identity block_index "pat") size) len)
      else if negb (kn_dup_classes kn =? 0) then
        let cls := from_bytes_big (blake2b (block_tag identity block_index "dup") 4) mod kn_dup_classes kn in
        _hash_stream ("dup-class-" +:+ str_of_Z cls) 0 len
      else _hash_stream identity block_index len
  end.

Definition block_of (p : profile) : Z := match p with Mixed kn => kn_block kn | _ => BLOCK end.

(** The loop of [content]; [out] holds the bytes produced so far. *)
Fixpoint content_loop (fuel : nat) (p : profile) (identity : string) (pos stop : Z) (out : bytes)
    : res bytes :=
  if pos <? stop then
    match fuel with
    | O => Raise (Exn OutOfFuel "while pos < end")
    | S fuel =>
        let block := block_of p in
        raise_if (block =? 0) (Exn ZeroDivisionError "integer division or modulo by zero") ;;
        let bi := pos / block in let off := pos mod block in
        let size := Z.min (block - off) (stop - pos) in
        b ← _block_bytes p identity bi block;
        content_loop fuel p identity (pos + size) stop (out ++ slice b off (off + size))
    end
  else Ok out.

(** Every iteration with a positive block yields a byte: [length] iterations
    are enough. *)
Definition content (p : profile) (identity : string) (offset len : Z) : res bytes :=
  content_loop (Z.to_nat len) p identity offset (offset + len) [].

(** [synthetic_bytes] of the executor: 64-byte blocks of the digest stream. *)
Definition synthetic_bytes (object_id : string) (version : string) (offset len : Z) : bytes :=
  let first := offset / 64 in
  let last := (offset + len - 1) / 64 in
  let out := concat (map (λ block,
    blake2b (object_id +:+ ":" +:+ version +:+ ":" +:+ str_of_Z block) 64) (seqZ first (last + 1 - first))) in
  let start := offset - first * 64 in
  slice out start (start + len).
End content.

Definition toy_digest (s : string) (n : nat) : bytes :=
  imap (λ i _, (Z.of_nat (String.length s) + 7 * Z.of_nat i) mod 256) (replicate n 0).

Example content_ex :
  match content toy_digest Incompressible "id" 4090 10, content toy_digest Incompressible "id" 0 4100 with
  | Ok a, Ok b => bool_decide (a = slice b 4090 4100)
  | _, _ => false
  end = true.
Proof. vm_compute. reflexivity. Qed.

Example parse_ex :
  match parse_profile "mixed:zero=0.25,pattern=0.5,dup_classes=4" with
  | Ok (Mixed kn) => bool_decide (kn_dup_classes kn = 4) && float_ltb (kn_zero kn) (kn_pattern kn)
  | _ => false
  end = true.
Proof. vm_compute. reflexivity. Qed.

(** ** Ranges of content agree *)
Section ranges.
Variable blake2b : string → nat → bytes.
(** The digest has the requested size. *)
Hypothesis digest_size : ∀ s n, (1 ≤ n ≤ 64)%nat → length (blake2b s n) = n.

Lemma length_slice b i j :
  0 ≤ i ≤ j → j ≤ Z.of_nat (length b) → length (slice b i j) = Z.to_nat (j - i).
Proof.
  intros Hi Hj. unfold slice. destruct (Z.ltb_spec j 0); [lia|].
  rewrite length_take, length_drop. lia.
Qed.

Lemma lookup_slice b i j k :
  0 ≤ i ≤ j → (k < Z.to_nat (j - i))%nat → slice b i j !! k = b !! (Z.to_nat i + k)%nat.
Proof.
  intros Hi Hk. unfold slice. destruct (Z.ltb_spec j 0); [lia|].
  by rewrite lookup_take_lt, lookup_drop by lia.
Qed.

Lemma hash_parts_length fuel seed n out len :
  0 ≤ len → len ≤ Z.of_nat (length out + fuel) →
  ∃ b, hash_parts blake2b fuel seed n out len = Ok b ∧ length b = Z.to_nat len.
Proof using digest_size.
  intros Hl. revert n out. induction fuel as [|fuel IH]; intros n out Hf; simpl;
    destruct (Z.ltb_spec (Z.of_nat (length out)) len).
  - lia.
  - eexists. split; [done|]. rewrite length_slice; lia.
  - apply IH. rewrite length_app, digest_size by lia. lia.
  - eexists. split; [done|]. rewrite length_slice; lia.
Qed.

Lemma _hash_stream_length identity bi len :
  0 ≤ len → ∃ b, _hash_stream blake2b identity bi len = Ok b ∧ length b = Z.to_nat len.
Proof using digest_size. intros. apply hash_parts_length; [done|simpl; lia]. Qed.

Lemma length_concat_replicate {A} n (l : list A) : length (concat (replicate n l)) = (n * length l)%nat.
Proof. induction n as [|n IH]; [done|]. simpl. by rewrite length_app, IH. Qed.

Lemma repeat_pattern_length pat len :
  pat ≠ [] → 0 ≤ len → length (repeat_pattern pat len) = Z.to_nat len.
Proof.
  intros Hp Hl. unfold repeat_pattern.
  assert (0 < Z.of_nat (length pat)) as Hpos by (destruct pat; [done|simpl; lia]).
  pose proof (Z_div_floor_error len (Z.of_nat (length pat)) Hpos).
  assert (0 ≤ len / Z.of_nat (length pat)) by (apply Z.div_pos; lia).
  rewrite length_slice; rewrite ?length_concat_replicate; [f_equal; lia|lia|].
  rewrite Nat2Z.inj_mul, Z2Nat.id by lia. nia.
Qed.

(** Every profile fills a block exactly. *)
Lemma _block_bytes_length p identity bi len :
  0 ≤ len → ∃ b, _block_bytes blake2b p identity bi len = Ok b ∧ length b = Z.to_nat len.
Proof using digest_size.
  intros Hl.
  assert (∃ b, zero_bytes len = Ok b ∧ length b = Z.to_nat len) as Hz.
  { unfold zero_bytes. destruct (Z.ltb_spec len 0); [lia|]. eexists. split; [done|]. apply length_replicate. }
  destruct p as [| |kn]; simpl; [done|by apply _hash_stream_length|].
  destruct (float_ltb _ _); [done|]. destruct (float_ltb _ _).
  - eexists. split; [done|]. apply repeat_pattern_length; [|done].
    intros E. apply (f_equal length) in E. rewrite digest_size in E; simpl in E; lia.
  - destruct (negb _); by apply _hash_stream_length.
Qed.

Definition block_data (p : profile) (identity : string) (bi : Z) : bytes :=
  match _block_bytes blake2b p identity bi (block_of p) with Ok b => b | Raise _ => [] end.

(** The byte at position [pos] of the content named [identity]. *)
Definition byte_at (p : profile) (identity : string) (pos : Z) : Z :=
  default 0 (block_data p identity (pos / block_of p) !! Z.to_nat (pos mod block_of p)).

Lemma block_slice p identity pos size :
  0 < block_of p → 0 ≤ size → pos mod block_of p + size ≤ block_of p →
  ∃ b, _block_bytes blake2b p identity (pos / block_of p) (block_of p) = Ok b ∧
    slice b (pos mod block_of p) (pos mod block_of p + size) = byte_at p identity <$> seqZ pos size.
Proof using digest_size.
  intros Hb Hs Hfit. set (blk := block_of p) in *. set (off := pos mod blk) in *.
  assert (0 ≤ off < blk) as Hoff by (apply Z.mod_pos_bound; lia).
  destruct (_block_bytes_length p identity (pos / blk) blk ltac:(lia)) as (b & Eb & Lb).
  exists b. split; [done|]. apply list_eq. intros k.
  destruct (decide (k < Z.to_nat size)%nat) as [Hk|Hk].
  - rewrite lookup_slice by lia.
    rewrite list_lookup_fmap, (lookup_seqZ_lt pos size k) by lia. simpl. unfold byte_at, block_data. fold blk.
    assert ((pos + Z.of_nat k) / blk = pos / blk ∧ (pos + Z.of_nat k) mod blk = off + Z.of_nat k) as [-> ->].
    { assert (pos + Z.of_nat k = blk * (pos / blk) + (off + Z.of_nat k)) as E
        by (unfold off; pose proof (Z.div_mod pos blk); lia).
      split; symmetry; [apply Z.div_unique_pos with (off + Z.of_nat k)|apply Z.mod_unique_pos with (pos / blk)]; lia. }
    rewrite Eb. destruct (lookup_lt_is_Some_2 b (Z.to_nat off + k)) as [x Hx]; [lia|].
    rewrite Hx. f_equal. replace (Z.to_nat (off + Z.of_nat k)) with (Z.to_nat off + k)%nat by lia. by rewrite Hx.
  - rewrite !lookup_ge_None_2; [done|rewrite length_fmap, length_seqZ; lia|].
    rewrite length_slice by lia. lia.
Qed.

Lemma content_loop_bytes fuel p identity pos stop out :
  0 < block_of p → stop - pos ≤ Z.of_nat fuel →
  content_loop blake2b fuel p identity pos stop out =
  Ok (out ++ (byte_at p identity <$> seqZ pos (stop - pos))).
Proof using digest_size.
  intros Hb. revert pos out. induction fuel as [|fuel IH]; intros pos out Hf; cbn [content_loop];
    destruct (Z.ltb_spec pos stop) as [Hlt|Hge]; try lia.
  - rewrite seqZ_nil by lia. by rewrite app_nil_r.
  - assert (0 ≤ pos mod block_of p < block_of p) as Hoff by (apply Z.mod_pos_bound; lia).
    destruct (Z.eqb_spec (block_of p) 0); [lia|]. cbn [raise_if mbind res_bind].
    set (size := Z.min (block_of p - pos mod block_of p) (stop - pos)).
    destruct (block_slice p identity pos size) as (b & Eb & Es); [lia..|].
    rewrite Eb. cbn [mbind res_bind]. rewrite Es, IH by lia. f_equal. rewrite <- app_assoc. f_equal.
    replace (stop - pos) with (size + (stop - (pos + size))) by lia.
    rewrite seqZ_app by lia. by rewrite fmap_app.
  - rewrite seqZ_nil by lia. by rewrite app_nil_r.
Qed.

Lemma content_bytes p identity offset len :
  0 < block_of p → content blake2b p identity offset len = Ok (byte_at p identity <$> seqZ offset len).
Proof using digest_size.
  intros Hb. unfold content. rewrite content_loop_bytes by lia.
  cbn [app]. by replace (offset + len - offset) with len by lia.
Qed.

Lemma slice_fmap_seqZ (f : Z → Z) total offset len :
  0 ≤ offset → 0 ≤ len → offset + len ≤ total →
  slice (f <$> seqZ 0 total) offset (offset + len) = f <$> seqZ offset len.
Proof using.
  intros Ho Hl Ht. apply list_eq. intros k. destruct (decide (k < Z.to_nat len)%nat).
  - rewrite lookup_slice by lia. rewrite !list_lookup_fmap, !lookup_seqZ_lt by lia. simpl. f_equal. f_equal. lia.
  - rewrite !lookup_ge_None_2; [done|rewrite length_fmap, length_seqZ; lia|].
    rewrite length_slice; rewrite ?length_fmap, ?length_seqZ; lia.
Qed.

Definition synth_at (object_id version : string) (pos : Z) : Z :=
  default 0 (blake2b (object_id +:+ ":" +:+ version +:+ ":" +:+ str_of_Z (pos / 64)) 64 !! Z.to_nat (pos mod 64)).

Lemma synthetic_bytes_at object_id version offset len :
  0 ≤ offset → 0 ≤ len →
  synthetic_bytes blake2b object_id version offset len = synth_at object_id version <$> seqZ offset len.
Proof using digest_size.
  intros Ho Hl. unfold synthetic_bytes. set (first := offset / 64). set (last := (offset + len - 1) / 64).
  set (f := λ block, blake2b (object_id +:+ ":" +:+ version +:+ ":" +:+ str_of_Z block) 64).
  assert (∀ x, length (f x) = 64%nat) as Hf by (intros; apply digest_size; lia).
  assert (concat (map f (seqZ first (last + 1 - first))) = seqZ first (last + 1 - first) ≫= f) as ->.
  { generalize (seqZ first (last + 1 - first)). induction l as [|x l IH]; [done|]. simpl. by rewrite IH. }
  pose proof (Z.div_mod offset 64 ltac:(lia)) as Hdm. pose proof (Z.mod_pos_bound offset 64 ltac:(lia)) as Hmb.
  apply list_eq. intros k. destruct (decide (k < Z.to_nat len)%nat) as [Hk|Hk].
  - assert (offset + len - 1 < 64 * (last + 1)) as Hlast.
    { unfold last. pose proof (Z.mul_succ_div_gt (offset + len - 1) 64). lia. }
    rewrite lookup_slice by (unfold first; lia).
    rewrite list_lookup_fmap, lookup_seqZ_lt by lia. simpl. unfold synth_at.
    set (pos := offset + Z.of_nat k).
    pose proof (Z.div_mod pos 64 ltac:(lia)). pose proof (Z.mod_pos_bound pos 64 ltac:(lia)).
    assert (first ≤ pos / 64 ≤ last) by (split; [apply Z.div_le_mono; lia|unfold pos, last; apply Z.div_le_mono; lia]).
    replace (Z.to_nat (offset - first * 64) + k)%nat
      with (Z.to_nat (pos / 64 - first) * 64 + Z.to_nat (pos mod 64))%nat by (unfold first in *; lia).
    rewrite lookup_bind_const by (done || lia). rewrite lookup_seqZ_lt by lia. simpl.
    replace (first + Z.of_nat (Z.to_nat (pos / 64 - first))) with (pos / 64) by lia.
    fold (f (pos / 64)). destruct (lookup_lt_is_Some_2 (f (pos / 64)) (Z.to_nat (pos mod 64))) as [x Hx];
      [rewrite Hf; lia|]. by rewrite Hx.
  - rewrite !lookup_ge_None_2; [done|rewrite length_fmap, length_seqZ; lia|].
    unfold slice. rewrite length_take. destruct (Z.ltb_spec (offset - first * 64 + len) 0); lia.
Qed.
End ranges.

(** for every profile with a positive block size, and every digest
    function with the requested output size, content is total and a ranged
    read agrees with the same range of a full read. *)
Theorem content_ranges_agree blake2b p identity total offset len :
  (∀ s n, (1 ≤ n ≤ 64)%nat → length (blake2b s n) = n) →
  0 < block_of p → 0 ≤ offset → 0 ≤ len → offset + len ≤ total →
  ∃ full part, content blake2b p identity 0 total = Ok full ∧ content blake2b p identity offset len = Ok part ∧
    length full = Z.to_nat total ∧ length part = Z.to_nat len ∧ part = slice full offset (offset + len).
Proof.
  intros Hd Hb Ho Hl Ht. rewrite !content_bytes by done.
  eexists _, _. split; [done|]. split; [done|].
  rewrite !length_fmap, !length_seqZ. split; [done|]. split; [done|]. by rewrite slice_fmap_seqZ.
Qed.

Lemma toy_digest_size s n : (1 ≤ n ≤ 64)%nat → length (toy_digest s n) = n.
Proof. intros _. unfold toy_digest. by rewrite length_imap, length_replicate. Defined.

Lemma content_ranges_agree_witness :
  ∃ full part, content toy_digest Incompressible "x" 0 5000 = Ok full ∧
    content toy_digest Incompressible "x" 4000 200 = Ok part ∧
    length full = 5000%nat ∧ length part = 200%nat ∧ part = slice full 4000 4200.
Proof.
  apply (content_ranges_agree toy_digest Incompressible "x" 5000 4000 200);
    [apply toy_digest_size|done|lia|lia|lia].
Defined.

(** ** A negative block size *)
Definition negative_block : string := "mixed:block=-4096".

Definition negative_knobs : knobs :=
  {| kn_zero := fzero; kn_pattern := fzero; kn_pattern_len := 64; kn_dup_classes := 0; kn_block := -4096 |}.

Lemma from_bytes_big_nonneg b : Forall (λ x, 0 ≤ x) b → 0 ≤ from_bytes_big b.
Proof.
  unfold from_bytes_big. assert (∀ acc, 0 ≤ acc → Forall (λ x, 0 ≤ x) b →
    0 ≤ fold_left (λ acc x, 256 * acc + x) b acc) as Hgen; [|by apply Hgen].
  induction b as [|x b IH]; intros acc Ha Hb; simpl; [done|].
  inversion Hb; subst. apply IH; [lia|done].
Qed.

Lemma rnd_not_negative m e : 0 ≤ m → float_ltb (rnd m e) fzero = false.
Proof.
  intros Hm. unfold rnd. destruct (Z.eqb_spec m 0) as [->|Hne]; [done|].
  destruct (if 0 <=? e then _ else _) as [q e']. destruct (971 <? e');
    (destruct (Z.ltb_spec m 0); [lia|]); [done|].
  unfold float_ltb, py_ltb, num_of, num_ltb, fzero, sgn. rewrite Z.mul_0_l. apply Z.ltb_ge.
  apply Z.mul_nonneg_nonneg; [lia|]. apply Z.pow_nonneg. lia.
Qed.

Lemma negative_block_bytes blake2b identity bi :
  (∀ s n, Forall (λ x, 0 ≤ x) (blake2b s n)) →
  _block_bytes blake2b (Mixed negative_knobs) identity bi (-4096) = Ok [].
Proof.
  intros Hb. unfold _block_bytes, negative_knobs. cbn [kn_zero kn_pattern kn_dup_classes].
  change (float_add fzero fzero) with fzero.
  rewrite !rnd_not_negative by (by apply from_bytes_big_nonneg). done.
Qed.

(** The block knob is read but not checked: with a negative block size
    the parser accepts the profile, and the loop of [content] moves backwards
    and never ends, whatever the number of iterations. *)
Theorem content_negative_block_diverges blake2b fuel identity len :
  (∀ s n, Forall (λ x, 0 ≤ x) (blake2b s n)) → 0 < len →
  parse_profile negative_block = Ok (Mixed negative_knobs) ∧
  content_loop blake2b fuel (Mixed negative_knobs) identity 0 len [] =
    Raise (Exn OutOfFuel "while pos < end").
Proof.
  intros Hb Hl. split; [vm_compute; reflexivity|].
  assert (∀ pos out, pos < len → (pos mod -4096) = 0 →
    content_loop blake2b fuel (Mixed negative_knobs) identity pos len out =
    Raise (Exn OutOfFuel "while pos < end")) as Hgen; [|by apply Hgen].
  induction fuel as [|fuel IH]; intros pos out Hp Hm; cbn [content_loop];
    (destruct (Z.ltb_spec pos len); [|lia]); [done|].
  change (block_of (Mixed negative_knobs)) with (-4096). change (-4096 =? 0) with false.
  cbn [raise_if mbind res_bind]. rewrite Hm, negative_block_bytes by done. cbn [mbind res_bind].
  rewrite Z.min_l by lia. apply IH; [lia|].
  replace (pos + (-4096 - 0)) with (pos + 1 * -4096) by lia. by rewrite Z.mod_add by lia.
Qed.

Lemma content_negative_block_diverges_witness :
  parse_profile negative_block = Ok (Mixed negative_knobs) ∧
  content_loop (λ _ _, []) 1000 (Mixed negative_knobs) "x" 0 1 [] = Raise (Exn OutOfFuel "while pos < end").
Proof. apply (content_negative_block_diverges (λ _ _, []) 1000 "x" 1); [constructor|lia]. Defined.
