(* ===== verification/IntentExec.v ===== *)
(** * Executing a workload ([tools/kvio/intent_exec.py])

    The executor releases an operation when its prerequisites have completed
    on the target, within a budget of workers.  The file models the content
    and outcome types, the in-memory backend, the preparation of the rows,
    the simulated run over a virtual clock, and the checks on its result.  A
    backend is a type with the operations of the class [Backend]. *)

From stdpp Require Import prelude strings list numbers gmap sorting.
From Stdlib Require Import ZArith Lia Ascii.
From S2P Require Import Prelude PyText PyJson JsonText Intent Intent2 Workload3 ContentProfile.
Local Open Scope Z_scope.

Definition PROFILES : list string := ["offered"; "dependency"; "saturation"].

Record Outcome := mkOutcome { o_status : string; o_bytes : Z; o_detail : string }.

(** A value used where the code needs an integer. *)
Definition as_int (v : json) : res Z :=
  match v with
  | JInt z => Ok z
  | JBool b => Ok (b2Z b)
  | _ => Raise (Exn TypeError "object cannot be interpreted as an integer")
  end.

(** [(identity, version, size)] of every object live at the start. *)
Definition initial_objects (intent : json) : res (list (json * json * json)) :=
  schema ← get intent "schema";
  if eq_str schema SCHEMA3 then
    ns ← item intent "namespace"; nodes ← item ns "nodes"; ej ← item ns "entries"; entries ← iterate ej;
    l ← mapMR (λ e, n ← item e "node"; name ← as_str n; node ← item nodes name; kind ← item node "kind";
                    size ← get_default node "size" (JInt 0);
                    Ok (if eq_str kind "object" then [(n, JInt 0, size)] else [])) entries;
    Ok (concat l)
  else
    ist ← item intent "initial_state"; lj ← item ist "live"; live ← iterate lj;
    mapMR (λ i, o ← item i "object_id"; v ← item i "version"; name ← as_str o;
                objs ← item intent "objects"; od ← item objs name; vs ← item od "versions";
                ver ← item vs (py_str v); b ← item ver "bytes"; Ok (o, v, b)) live.

(** ** Backends *)

(** What a target provides.  The operations may raise. *)
Class Backend (B : Type) := {
  bk_profile : B → option profile;
  bk_set_profile : profile → B → B;
  bk_initialize : json → B → res B;
  bk_payload : B → json → json → Z → Z → res bytes;
  bk_store : B → json → json → bytes → string → res (B * Outcome);
  bk_load : B → json → json → Z → Z → Z → string → res (B * Outcome);
  bk_release : B → json → json → string → res (B * Outcome);
  bk_exists : option (B → json → string → res (B * Outcome));
  bk_perform : B → json → res (B * Outcome);
  bk_close : B → res B;
  bk_service_ns : B → json → Z
}.

#[export] Instance hkey_countable : Countable hkey.
Proof.
  refine (inj_countable'
    (λ k, match k with
          | KNone => inl (inl true) | KNaN => inl (inl false)
          | KInf b => inl (inr b) | KNum m e => inr (inl (m, e)) | KStr s => inr (inr s) end)
    (λ x, match x with
          | inl (inl true) => KNone | inl (inl false) => KNaN
          | inl (inr b) => KInf b | inr (inl (m, e)) => KNum m e | inr (inr s) => KStr s end) _).
  by intros [].
Defined.

Section fake.
Variable blake2b : string → nat → bytes.

(** The deterministic in-memory target. *)
Record FakeBackend := mkFake {
  fb_latency : json → Z;
  fb_fail : list (string * string);
  fb_verify : bool;
  fb_profile : option profile;
  fb_objects : gmap (hkey * hkey) bytes;
  fb_calls : list (string * json * json * string)
}.

Definition fb_with_objects (b : FakeBackend) (m : gmap (hkey * hkey) bytes) : FakeBackend :=
  mkFake (fb_latency b) (fb_fail b) (fb_verify b) (fb_profile b) m (fb_calls b).

Definition fb_record (b : FakeBackend) (c : string * json * json * string) : FakeBackend :=
  mkFake (fb_latency b) (fb_fail b) (fb_verify b) (fb_profile b) (fb_objects b) (fb_calls b ++ [c]).

(** [Backend.payload]: the profile if one was set, the synthetic bytes
    otherwise. *)
Definition payload (pf : option profile) (identity version : json) (offset len : Z) : res bytes :=
  match pf with
  | Some p => content blake2b p (py_str identity) offset len
  | None => Ok (synthetic_bytes blake2b (py_str identity) (py_str version) offset len)
  end.

Definition object_key (object_id version : json) : res (hkey * hkey) :=
  o ← hkey_of object_id; v ← hkey_of version; Ok (o, v).

Definition fake_initialize (intent : json) (b : FakeBackend) : res FakeBackend :=
  objs ← initial_objects intent;
  foldM (λ b t, let '(oid, ver, size) := t in
    n ← as_int size; data ← payload (fb_profile b) oid ver 0 n; k ← object_key oid ver;
    Ok (fb_with_objects b (<[ k := data ]> (fb_objects b)))) b objs.

(** [self.fail.get(op_id)], when it names a status. *)
Definition forced (b : FakeBackend) (op_id : string) : option string :=
  match dget op_id (fb_fail b) with
  | Some s => if String.eqb s "" then None else Some s
  | None => None
  end.

Definition fake_store (b : FakeBackend) (object_id version : json) (data : bytes) (op_id : string)
    : res (FakeBackend * Outcome) :=
  let b := fb_record b ("store", object_id, version, op_id) in
  match forced b op_id with
  | Some st => Ok (b, mkOutcome st 0 "injected")
  | None =>
      k ← object_key object_id version;
      match fb_objects b !! k with
      | Some _ => Ok (b, mkOutcome "already_present" 0 "")
      | None => Ok (fb_with_objects b (<[ k := data ]> (fb_objects b)),
                    mkOutcome "success" (Z.of_nat (length data)) "")
      end
  end.

Definition fake_load (b : FakeBackend) (object_id version : json) (offset len _object_bytes : Z) (op_id : string)
    : res (FakeBackend * Outcome) :=
  let b := fb_record b ("load", object_id, version, op_id) in
  match forced b op_id with
  | Some st => Ok (b, mkOutcome st 0 "injected")
  | None =>
      k ← object_key object_id version;
      match fb_objects b !! k with
      | None => Ok (b, mkOutcome "miss" 0 "")
      | Some data =>
          let chunk := slice data offset (offset + len) in
          let n := Z.of_nat (length chunk) in
          bad ← (if fb_verify b then
                   expected ← payload (fb_profile b) object_id version offset n;
                   Ok (negb (bool_decide (chunk = expected)))
                 else Ok false);
          Ok (b, if (bad : bool) then mkOutcome "error" n "content mismatch"
                 else if n <? len then mkOutcome "short" n "" else mkOutcome "success" n "")
      end
  end.

Definition fake_release (b : FakeBackend) (object_id version : json) (op_id : string)
    : res (FakeBackend * Outcome) :=
  let b := fb_record b ("release", object_id, version, op_id) in
  match forced b op_id with
  | Some st => Ok (b, mkOutcome st 0 "injected")
  | None =>
      k ← object_key object_id version;
      match fb_objects b !! k with
      | None => Ok (b, mkOutcome "miss" 0 "")
      | Some _ => Ok (fb_with_objects b (delete k (fb_objects b)), mkOutcome "success" 0 "")
      end
  end.

Definition fake_backend : Backend FakeBackend := {|
  bk_profile := fb_profile;
  bk_set_profile p b := mkFake (fb_latency b) (fb_fail b) (fb_verify b) (Some p) (fb_objects b) (fb_calls b);
  bk_initialize := fake_initialize;
  bk_payload b := payload (fb_profile b);
  bk_store := fake_store;
  bk_load := fake_load;
  bk_release := fake_release;
  bk_exists := None;
  bk_perform _ _ := Raise (Exn AttributeError "'FakeBackend' object has no attribute 'perform'");
  bk_close b := Ok b;
  bk_service_ns b op := fb_latency b op
|}.
End fake.

(** ** The ledger *)
Record Row := mkRow {
  r_op_id : string; r_op : json; r_object_id : json; r_version : json; r_requested_bytes : json;
  r_release_ns : Z; r_family : json;
  r_eligible_ns : option Z; r_submit_ns : option Z; r_complete_ns : option Z;
  r_outcome : option string; r_completed_bytes : Z; r_detail : string;
  r_source_outcome : json; r_deps : list string
}.

Definition row_submit (r : Row) (eligible submit : Z) : Row :=
  mkRow (r_op_id r) (r_op r) (r_object_id r) (r_version r) (r_requested_bytes r) (r_release_ns r)
    (r_family r) (Some eligible) (Some submit) (r_complete_ns r) (r_outcome r) (r_completed_bytes r)
    (r_detail r) (r_source_outcome r) (r_deps r).

Definition row_complete (r : Row) (t : Z) (o : Outcome) : Row :=
  mkRow (r_op_id r) (r_op r) (r_object_id r) (r_version r) (r_requested_bytes r) (r_release_ns r)
    (r_family r) (r_eligible_ns r) (r_submit_ns r) (Some t) (Some (o_status o)) (o_bytes o)
    (o_detail o) (r_source_outcome r) (r_deps r).

(** ** The executor *)
Record Executor := {
  e_v3 : bool; e_intent : json; e_profile : string; e_simulated : bool;
  e_workers : Z; e_delay : Z; e_cancelled_skip : bool; e_content : profile
}.

(** [Executor.__init__] *)
Definition make_executor {B} `{Backend B} (intent : json) (backend : B) (prof mode : string)
    (workers declared_delay_ns : Z) (cancelled_skip : bool) (cont : string) : res (Executor * B) :=
  let v3 := match intent with JObj d => eq_str (getd d "schema") SCHEMA3 | _ => false end in
  (if v3 then validate_workload intent else validate_intent2 intent) ;;
  content ← parse_profile cont;
  let backend := if v3 && bool_decide (bk_profile backend = None) then bk_set_profile content backend
                 else backend in
  raise_unless (bool_decide (prof ∈ PROFILES)) (Exn ValueError "profile must be one of {PROFILES}") ;;
  prov ← item intent "provenance"; tm ← item prov "timing_model";
  raise_if (String.eqb prof "offered" && eq_str tm "absent")
    (Exn ValueError "offered-load replay needs recorded release times") ;;
  raise_unless (String.eqb mode "simulated" || String.eqb mode "real")
    (Exn ValueError "mode must be simulated or real") ;;
  Ok ({| e_v3 := v3; e_intent := intent; e_profile := prof; e_simulated := String.eqb mode "simulated";
         e_workers := Z.max 1 workers; e_delay := declared_delay_ns;
         e_cancelled_skip := cancelled_skip; e_content := content |}, backend).

(** What [_prepare] sets up for the run, apart from the rows. *)
Record plan := {
  p_order : list string;
  p_by_id : gmap string json;
  p_dependents : gmap string (list string)
}.

(** [a or b] *)
Definition py_or (a b : json) : json := if py_true a then a else b.

(** [min(x["release_ns"] for x in ops if ... is not None, default=0)] *)
Definition release_base (ops : list json) : res Z :=
  l ← mapMR (λ o, r ← get o "release_ns"; if is_none r then Ok [] else z ← as_int r; Ok [z]) ops;
  Ok (match concat l with [] => 0 | z :: zs => fold_left Z.min zs z end).

Definition make_row (ex : Executor) (base : Z) (o : json) : res Row :=
  rj ← get o "release_ns";
  rel ← (if String.eqb (e_profile ex) "offered" && negb (is_none rj)
         then z ← as_int rj; Ok (z - base) else Ok 0);
  idj ← item o "op_id"; id ← as_str idj;
  if e_v3 ex then
    args ← item o "args";
    call ← item o "call"; fam ← item o "family";
    node ← get args "node"; path ← get args "path"; key ← get args "key"; handle ← get args "handle";
    len ← get args "length"; size ← get args "size";
    exp ← get_default o "expected" (JObj []); out ← get exp "outcome";
    dj ← item o "deps"; ds ← iterate dj;
    deps ← mapMR (λ d, x ← item d "op"; as_str x) ds;
    Ok (mkRow id call (py_or node (py_or path (py_or key (py_or handle (JStr ""))))) (JInt 0)
          (py_or len (py_or size (JInt 0))) rel fam None None None None 0 "" out deps)
  else
    op ← item o "op"; oid ← item o "object_id"; ver ← item o "version"; rb ← item o "requested_bytes";
    out ← get o "source_outcome";
    dj ← item o "deps"; ds ← iterate dj; deps ← mapMR as_str ds;
    Ok (mkRow id op oid ver rb rel (JStr "object") None None None None 0 "" out deps).

(** [self.dependents.setdefault(d, []).append(op_id)] for each dependency. *)
Definition add_dependents (m : gmap string (list string)) (r : Row) : gmap string (list string) :=
  fold_left (λ m d, <[ d := default [] (m !! d) ++ [r_op_id r] ]> m) (r_deps r) m.

Definition operations_of (intent : json) : res (list json) := oj ← item intent "operations"; iterate oj.

(** [_prepare], apart from the backend: the plan, the rows and the number of
    unfinished dependencies of each operation. *)
Definition prepare (ex : Executor) : res (plan * gmap string Row * gmap string Z) :=
  ops ← operations_of (e_intent ex);
  base ← release_base ops;
  rows ← mapMR (make_row ex base) ops;
  let pairs := zip rows ops in
  Ok ({| p_order := r_op_id <$> rows;
         p_by_id := fold_left (λ m ro, <[ r_op_id ro.1 := ro.2 ]> m) pairs ∅;
         p_dependents := fold_left add_dependents rows ∅ |},
      fold_left (λ m r, <[ r_op_id r := r ]> m) rows ∅,
      fold_left (λ m r, <[ r_op_id r := Z.of_nat (length (r_deps r)) ]> m) rows ∅).

Definition KeyErr {A} : res A := Raise (Exn KeyError "op_id").

(** [t = max(t, self.rows[d].complete_ns + delay)] *)
Definition wait_for (rows : gmap string Row) (delay t : Z) (d : string) : res Z :=
  match rows !! d with
  | Some p => match r_complete_ns p with
              | Some c => Ok (Z.max t (c + delay))
              | None => Raise (Exn TypeError "unsupported operand type(s) for +")
              end
  | None => KeyErr
  end.

(** [_eligible_time]: the release time under the offered profile, and the
    completion of every prerequisite plus the declared delay.  (Times are
    integers; a declared delay that is a float is not modelled.) *)
Definition eligible_time (ex : Executor) (pl : plan) (rows : gmap string Row) (op_id : string) : res Z :=
  match p_by_id pl !! op_id, rows !! op_id with
  | Some o, Some r =>
      dj ← get o "declared_delay_ns";
      delay ← (if is_none dj then Ok (e_delay ex) else as_int dj);
      foldM (wait_for rows delay)
        (if String.eqb (e_profile ex) "offered" then r_release_ns r else 0) (r_deps r)
  | _, _ => KeyErr
  end.

Definition SKIPPED : Outcome := mkOutcome "cancelled" 0 "source cancelled; not submitted".

Section run.
Context {B : Type} `{Backend B}.

(** [bytearray(n)]: the destination of a load *)
Definition bytearray (n : Z) : res unit := raise_if (n <? 0) (Exn ValueError "negative count").

Definition perform_v3 (ex : Executor) (b : B) (op : json) : res (B * Outcome) :=
  exp ← get_default op "expected" (JObj []);
  eo ← get exp "outcome";
  if e_cancelled_skip ex && eq_str eo "cancelled" then Ok (b, SKIPPED) else
  fam ← item op "family";
  if eq_str fam "object" then
    a ← item op "args"; node ← item a "node"; idj ← item op "op_id"; op_id ← as_str idj;
    asz ← get a "size";
    sz ← (if py_true asz then Ok asz else
            ns ← item (e_intent ex) "namespace"; nodes ← item ns "nodes"; name ← as_str node;
            nd ← get_default nodes name (JObj []); get_default nd "size" (JInt 0));
    size ← as_int sz;
    call ← item op "call";
    if eq_str call "store" then
      data ← bk_payload b node (JInt 0) 0 size; bk_store b node (JInt 0) data op_id
    else if eq_str call "load" then
      offj ← get_default a "offset" (JInt 0); lnj ← get_default a "length" (JInt size);
      off ← as_int offj; ln ← as_int lnj;
      bytearray ln ;;
      bk_load b node (JInt 0) off ln size op_id
    else if eq_str call "release" then bk_release b node (JInt 0) op_id
    else if eq_str call "exists" then
      match bk_exists with
      | Some f => f b node op_id
      | None => Ok (b, mkOutcome "error" 0 "backend has no exists")
      end
    else bk_perform b op
  else bk_perform b op.

Definition perform_v2 (ex : Executor) (b : B) (op_id : string) (o : json) : res (B * Outcome) :=
  so ← get o "source_outcome";
  if e_cancelled_skip ex && eq_str so "cancelled" then Ok (b, SKIPPED) else
  oid ← item o "object_id"; ver ← item o "version"; name ← as_str oid;
  objs ← item (e_intent ex) "objects"; od ← item objs name; vs ← item od "versions";
  v ← item vs (py_str ver); szj ← item v "bytes"; size ← as_int szj;
  op ← item o "op";
  if eq_str op "store" then
    data ← bk_payload b oid ver 0 size; bk_store b oid ver data op_id
  else if eq_str op "load" then
    rng ← get o "range";
    let rng := py_or rng (JObj [("offset", JInt 0); ("length", JInt size)]) in
    lnj ← item rng "length"; ln ← as_int lnj; bytearray ln ;;
    offj ← item rng "offset"; off ← as_int offj;
    bk_load b oid ver off ln size op_id
  else bk_release b oid ver op_id.

Definition perform (ex : Executor) (pl : plan) (b : B) (op_id : string) : res (B * Outcome) :=
  match p_by_id pl !! op_id with
  | None => KeyErr
  | Some o => if e_v3 ex then perform_v3 ex b o else perform_v2 ex b op_id o
  end.

(** ** The simulated run *)

(** Entries of the two heaps: [(time, seq, op_id)] and, for completions, the
    outcome.  Sequence numbers are unique, so [heappop] returns the entry with
    the least [(time, seq)]; the heaps are kept as lists in that order. *)
Abbreviation pend := (Z * Z * string)%type.
Abbreviation compl := (Z * Z * string * Outcome)%type.

Definition pend_le (t s t' s' : Z) : bool := (t <? t') || ((t =? t') && (s <=? s')).

Fixpoint push_pending (e : pend) (l : list pend) : list pend :=
  match l with
  | [] => [e]
  | x :: l' => if pend_le e.1.1 e.1.2 x.1.1 x.1.2 then e :: l else x :: push_pending e l'
  end.

Fixpoint push_completion (e : compl) (l : list compl) : list compl :=
  match l with
  | [] => [e]
  | x :: l' => if pend_le e.1.1.1 e.1.1.2 x.1.1.1 x.1.1.2 then e :: l else x :: push_completion e l'
  end.

Record sim := mkSim {
  s_rows : gmap string Row; s_remaining : gmap string Z; s_backend : B;
  s_pending : list pend; s_completions : list compl; s_running : Z; s_seq : Z; s_now : Z
}.

(** Submit the first pending operation. *)
Definition submit_one (ex : Executor) (pl : plan) (st : sim) (e : pend) (rest : list pend) : res sim :=
  let '(t, _, op_id) := e in
  match s_rows st !! op_id, p_by_id pl !! op_id with
  | Some r, Some o =>
      bo ← perform ex pl (s_backend st) op_id;
      let '(b, out) := bo in
      let service := if String.eqb (o_status out) "cancelled" && startswith "source" (o_detail out)
                     then 0 else bk_service_ns b o in
      Ok (mkSim (<[ op_id := row_submit r t (s_now st) ]> (s_rows st)) (s_remaining st) b rest
            (push_completion (s_now st + service, s_seq st, op_id, out) (s_completions st))
            (s_running st + 1) (s_seq st + 1) (s_now st))
  | _, _ => KeyErr
  end.

(** [while pending and running < workers and pending[0][0] <= now] *)
Fixpoint submit_all (fuel : nat) (ex : Executor) (pl : plan) (st : sim) : res sim :=
  match s_pending st with
  | e :: rest =>
      if (s_running st <? e_workers ex) && (e.1.1 <=? s_now st) then
        match fuel with
        | O => Raise (Exn OutOfFuel "while pending")
        | S fuel => st' ← submit_one ex pl st e rest; submit_all fuel ex pl st'
        end
      else Ok st
  | [] => Ok st
  end.

(** One pass of [for dep in self.dependents.get(op_id, [])]. *)
Definition release_dependent (ex : Executor) (pl : plan) (st : sim) (dep : string) : res sim :=
  match s_remaining st !! dep with
  | None => KeyErr
  | Some n =>
      let rem := <[ dep := n - 1 ]> (s_remaining st) in
      if n - 1 =? 0 then
        t ← eligible_time ex pl (s_rows st) dep;
        Ok (mkSim (s_rows st) rem (s_backend st) (push_pending (t, s_seq st, dep) (s_pending st))
              (s_completions st) (s_running st) (s_seq st + 1) (s_now st))
      else Ok (mkSim (s_rows st) rem (s_backend st) (s_pending st) (s_completions st) (s_running st)
                 (s_seq st) (s_now st))
  end.

Definition complete_one (ex : Executor) (pl : plan) (st : sim) (e : compl) (rest : list compl) : res sim :=
  let '(t, _, op_id, out) := e in
  match s_rows st !! op_id with
  | None => KeyErr
  | Some r =>
      foldM (release_dependent ex pl)
        (mkSim (<[ op_id := row_complete r t out ]> (s_rows st)) (s_remaining st) (s_backend st)
           (s_pending st) rest (s_running st - 1) (s_seq st) (s_now st))
        (default [] (p_dependents pl !! op_id))
  end.

(** [while completions and completions[0][0] <= now] *)
Fixpoint complete_all (fuel : nat) (ex : Executor) (pl : plan) (st : sim) : res sim :=
  match s_completions st with
  | e :: rest =>
      if e.1.1.1 <=? s_now st then
        match fuel with
        | O => Raise (Exn OutOfFuel "while completions")
        | S fuel => st' ← complete_one ex pl st e rest; complete_all fuel ex pl st'
        end
      else Ok st
  | [] => Ok st
  end.

(** The time of the next event. *)
Definition next_time (ex : Executor) (st : sim) : option Z :=
  let c := match s_completions st with e :: _ => Some e.1.1.1 | [] => None end in
  match s_pending st with
  | e :: _ => if s_running st <? e_workers ex
              then Some (match c with Some t => Z.min t e.1.1 | None => e.1.1 end) else c
  | [] => c
  end.

Definition with_now (st : sim) (now : Z) : sim :=
  mkSim (s_rows st) (s_remaining st) (s_backend st) (s_pending st) (s_completions st)
    (s_running st) (s_seq st) now.

(** The main loop. *)
Fixpoint sim_loop (fuel : nat) (ex : Executor) (pl : plan) (st : sim) : res sim :=
  if bool_decide (s_pending st = []) && bool_decide (s_completions st = []) then Ok st else
  match fuel with
  | O => Raise (Exn OutOfFuel "while pending or completions")
  | S fuel =>
      st1 ← submit_all (length (s_pending st)) ex pl st;
      match next_time ex st1 with
      | None => Ok st1
      | Some t =>
          let st2 := with_now st1 (Z.max (s_now st1) t) in
          st3 ← complete_all (length (s_completions st2)) ex pl st2;
          sim_loop fuel ex pl st3
      end
  end.

(** The operations without prerequisites start as pending. *)
Definition seed_one (ex : Executor) (pl : plan) (st : sim) (op_id : string) : res sim :=
  match s_remaining st !! op_id with
  | None => KeyErr
  | Some n =>
      if n =? 0 then
        t ← eligible_time ex pl (s_rows st) op_id;
        Ok (mkSim (s_rows st) (s_remaining st) (s_backend st) (push_pending (t, s_seq st, op_id) (s_pending st))
              (s_completions st) (s_running st) (s_seq st + 1) (s_now st))
      else Ok st
  end.

(** Four iterations per operation are enough: see [run_simulated_completes]. *)
Definition sim_fuel (pl : plan) : nat := (4 * length (p_order pl) + 2)%nat.

Definition run_simulated (ex : Executor) (pl : plan) (rows : gmap string Row) (remaining : gmap string Z) (b : B)
    : res sim :=
  st ← foldM (seed_one ex pl) (mkSim rows remaining b [] [] 0 0 0) (p_order pl);
  sim_loop (sim_fuel pl) ex pl st.
End run.

(** ** Summary and checks *)

(** [values[min(len(values) - 1, int(q * len(values)))]] of the sorted
    values. *)
Definition _pct (values : list Z) (q : pyfloat) : res (option Z) :=
  match values with
  | [] => Ok None
  | _ =>
      let n := Z.of_nat (length values) in
      x ← py_mul (JFloat q) (JInt n); i ← py_int x;
      Ok (stable_sort Z.le values !! Z.to_nat (Z.min (n - 1) i))
  end.

(** The binary64 numbers written [.5] and [.95]. *)
Definition Q50 : pyfloat := float_of_dec false 5 (-1).
Definition Q95 : pyfloat := float_of_dec false 95 (-2).

(** [d[k] = d.get(k, 0) + n] *)
Fixpoint bump {K} `{EqDecision K} (k : K) (n : Z) (m : list (K * Z)) : list (K * Z) :=
  match m with
  | [] => [(k, n)]
  | (k', n') :: m' => if decide (k = k') then (k', n' + n) :: m' else (k', n') :: bump k n m'
  end.

Record summary := {
  sm_operations : Z; sm_completed : Z;
  sm_outcomes : list (option string * Z); sm_bytes_by_op : list (string * Z);
  sm_lag_p50 : option Z; sm_lag_p95 : option Z; sm_lag_max : option Z;
  sm_wait_p50 : option Z; sm_wait_p95 : option Z; sm_wait_max : option Z;
  sm_svc_p50 : option Z; sm_svc_p95 : option Z;
  sm_wall_ns : Z; sm_diverged : list string
}.

Definition list_max (l : list Z) : option Z :=
  match l with [] => None | z :: zs => Some (fold_left Z.max zs z) end.
Definition list_min (l : list Z) : option Z :=
  match l with [] => None | z :: zs => Some (fold_left Z.min zs z) end.

(** [r.outcome != r.source_outcome] with a source outcome present. *)
Definition differs (r : Row) : bool :=
  negb (is_none (r_source_outcome r)) &&
  negb (match r_outcome r with Some s => eq_str (r_source_outcome r) s | None => false end).

Definition summarize (rows : list Row) : res summary :=
  let by_outcome := fold_left (λ m r, bump (r_outcome r) 1 m) rows [] in
  let bytes_by := fold_left (λ m r, bump (py_str (r_op r)) (r_completed_bytes r) m) rows [] in
  let done := filter (λ r, is_Some (r_complete_ns r)) rows in
  let time (f : Row → option Z) r := match f r with
    | Some t => Ok t | None => Raise (Exn TypeError "unsupported operand type(s) for -") end in
  lag ← mapMR (λ r, s ← time r_submit_ns r; e ← time r_eligible_ns r; Ok (s - e)) done;
  wait ← mapMR (λ r, c ← time r_complete_ns r; Ok (c - r_release_ns r)) done;
  svc ← mapMR (λ r, c ← time r_complete_ns r; s ← time r_submit_ns r; Ok (c - s)) done;
  l50 ← _pct lag Q50; l95 ← _pct lag Q95; w50 ← _pct wait Q50; w95 ← _pct wait Q95;
  s50 ← _pct svc Q50; s95 ← _pct svc Q95;
  let completes := omap r_complete_ns done in
  let wall := match list_max completes, list_min (r_release_ns <$> rows) with
              | Some c, Some r => c - r | _, _ => 0 end in
  Ok {| sm_operations := Z.of_nat (length rows); sm_completed := Z.of_nat (length done);
        sm_outcomes := by_outcome; sm_bytes_by_op := bytes_by;
        sm_lag_p50 := l50; sm_lag_p95 := l95; sm_lag_max := list_max lag;
        sm_wait_p50 := w50; sm_wait_p95 := w95; sm_wait_max := list_max wait;
        sm_svc_p50 := s50; sm_svc_p95 := s95; sm_wall_ns := wall;
        sm_diverged := r_op_id <$> filter (λ r, differs r = true) rows |}.

(** [check_dependencies]: the pairs (operation, prerequisite) out of order. *)
Definition check_dependencies (rows : list Row) (intent : json) (declared_delay_ns : Z)
    : res (list (string * string)) :=
  let byid := fold_left (λ m r, <[ r_op_id r := r ]> m) rows (∅ : gmap string Row) in
  ops ← operations_of intent;
  vs ← mapMR (λ o,
    idj ← item o "op_id"; id ← as_str idj;
    match byid !! id with
    | None => KeyErr
    | Some r =>
        match r_submit_ns r with
        | None => Ok []
        | Some s =>
            dj ← get o "declared_delay_ns";
            delay ← (if is_none dj then Ok declared_delay_ns else as_int dj);
            l ← mapMR (λ d, match byid !! d with
                            | None => KeyErr
                            | Some p => Ok (match r_complete_ns p with
                                            | Some c => if s <? c + delay then [(id, d)] else []
                                            | None => [(id, d)]
                                            end)
                            end) (r_deps r);
            Ok (concat l)
        end
    end) ops;
  Ok (concat vs).

(** The outcome sets a v3 workload permits. *)
Definition permitted_outcomes (intent : json) : res (gmap string (list string)) :=
  schema ← get intent "schema";
  if eq_str schema SCHEMA3 then
    ops ← operations_of intent;
    foldM (λ m o,
      exp ← get_default o "expected" (JObj []); oc ← get exp "outcomes";
      if py_true oc then
        idj ← item o "op_id"; id ← as_str idj; l ← iterate oc; ss ← mapMR as_str l;
        Ok (<[ id := remove_dups ss ]> m)
      else Ok m) ∅ ops
  else Ok ∅.

Record divergence := { dv_op_id : string; dv_source : json; dv_target : option string; dv_detail : string }.

Definition compare_outcomes (rows : list Row) (intent : json) : res (list divergence) :=
  permitted ← permitted_outcomes intent;
  Ok (concat (map (λ r,
    match permitted !! r_op_id r with
    | Some ss =>
        if match r_outcome r with Some s => bool_decide (s ∈ ss) | None => false end then []
        else [{| dv_op_id := r_op_id r; dv_source := JList (JStr <$> stable_sort String.le ss);
                 dv_target := r_outcome r; dv_detail := r_detail r |}]
    | None =>
        if differs r
        then [{| dv_op_id := r_op_id r; dv_source := r_source_outcome r;
                 dv_target := r_outcome r; dv_detail := r_detail r |}]
        else []
    end) rows)).

Record run_result := {
  rr_summary : summary; rr_diverged : list string; rr_unfinished : list string; rr_wall : Z
}.

(** [Executor.run] in simulated mode, up to the ledger: the rows in the order
    of the operations, the final virtual time and the backend. *)
Definition execute {B} `{Backend B} (ex : Executor) (b : B) : res (list Row * Z * B) :=
  pr ← prepare ex;
  let '(pl, rows0, remaining) := pr in
  b ← bk_initialize (e_intent ex) b;
  st ← run_simulated ex pl rows0 remaining b;
  b ← bk_close (s_backend st);
  rows ← mapMR (λ i, match s_rows st !! i with Some r => Ok r | None => KeyErr end) (p_order pl);
  Ok (rows, s_now st, b).

(** [Executor.run] in simulated mode. *)
Definition run {B} `{Backend B} (ex : Executor) (b : B) : res (list Row * run_result * B) :=
  x ← execute ex b;
  let '(rows, now, b) := x in
  sm ← summarize rows;
  dv ← compare_outcomes rows (e_intent ex);
  Ok (rows, {| rr_summary := sm; rr_diverged := dv_op_id <$> dv;
               rr_unfinished := r_op_id <$> filter (λ r, r_complete_ns r = None) rows;
               rr_wall := now |}, b).

(** [load_any] on the text of the file. *)
Definition load_any (text : string) : res json :=
  value ← loads text;
  schema ← get value "schema";
  (if eq_str schema SCHEMA3 then validate_workload value else validate_intent2 value) ;;
  Ok value.

(** A run of the v2 form of the example against the in-memory target. *)
Definition toy_fake : FakeBackend := mkFake (λ _, 1000) [] true None ∅ [].

#[local] Instance toy_backend : Backend FakeBackend := fake_backend toy_digest.

Definition ex_run (workers : Z) : res (list Row * run_result * FakeBackend) :=
  eb ← make_executor ex_intent2 toy_fake "dependency" "simulated" workers 0 true "incompressible";
  run eb.1 eb.2.

Example ex_run_ok :
  match ex_run 3 with
  | Ok (rows, res, _) => bool_decide (rr_unfinished res = []) &&
      bool_decide (check_dependencies rows ex_intent2 0 = Ok []) &&
      forallb (λ r, bool_decide (r_outcome r = Some "success")) rows &&
      bool_decide (rr_wall res = 16000)
  | Raise _ => false
  end = true.
Proof. vm_compute. reflexivity. Qed.
