(* ===== verification/ExecCorrect.v ===== *)
(** * Correctness of the simulated executor

    The scheduler of [IntentExec] is shown to finish: for every backend whose
    operations do not raise, a prepared run completes every operation, never
    exceeds the worker budget and submits an operation only after each of its
    prerequisites has completed plus the declared delay. *)

From stdpp Require Import prelude strings list numbers gmap sorting.
From Stdlib Require Import ZArith Lia Ascii.
From S2P Require Import Prelude PyText PyJson JsonText Intent Intent2 Workload3 ContentProfile IntentExec.
Local Open Scope Z_scope.

(** Occurrences in a list. *)
Fixpoint occ (x : string) (l : list string) : nat :=
  match l with
  | [] => O
  | y :: l => (if decide (x = y) then 1 else 0) + occ x l
  end.

Lemma occ_elem x l : (0 < occ x l)%nat ↔ x ∈ l.
Proof.
  induction l as [|y l IH]; simpl; [split; [lia|by inversion 1]|].
  rewrite elem_of_cons, <- IH. destruct (decide (x = y)); split; intros; [by left|lia|right; lia|].
  destruct H; [done|lia].
Qed.

Lemma wait_for_all rows delay l t0 :
  (∀ d, d ∈ l → ∃ p c, rows !! d = Some p ∧ r_complete_ns p = Some c) →
  ∃ t, foldM (wait_for rows delay) t0 l = Ok t ∧ t0 ≤ t ∧
    ∀ d, d ∈ l → ∃ p c, rows !! d = Some p ∧ r_complete_ns p = Some c ∧ c + delay ≤ t.
Proof.
  revert t0. induction l as [|d l IH]; intros t0 Hall.
  - exists t0. split_and!; [done|lia|]. intros d Hd. by inversion Hd.
  - destruct (Hall d) as (p & c & Hp & Hc); [set_solver|]. cbn [foldM].
    assert (wait_for rows delay t0 d = Ok (Z.max t0 (c + delay))) as -> by (unfold wait_for; by rewrite Hp, Hc).
    cbn [mbind res_bind]. destruct (IH (Z.max t0 (c + delay))) as (t & Ht & Hle & Hrest).
    + intros d' Hd'. apply Hall. set_solver.
    + exists t. split_and!; [done|lia|]. intros d' [->|Hd']%elem_of_cons; [|by apply Hrest].
      exists p, c. split_and!; try done. lia.
Qed.

(** Pushing keeps the entries. *)
Lemma push_pending_perm e l : push_pending e l ≡ₚ e :: l.
Proof.
  induction l as [|x l IH]; [done|]. cbn [push_pending]. destruct (pend_le _ _ _ _); [done|].
  rewrite IH. apply Permutation_swap.
Qed.

Lemma push_completion_perm e l : push_completion e l ≡ₚ e :: l.
Proof.
  induction l as [|x l IH]; [done|]. cbn [push_completion]. destruct (pend_le _ _ _ _); [done|].
  rewrite IH. apply Permutation_swap.
Qed.

Lemma filter_elem_iff {A} (P Q : A → Prop) `{∀ x, Decision (P x)} `{∀ x, Decision (Q x)} (l : list A) :
  (∀ x, x ∈ l → P x ↔ Q x) → filter P l = filter Q l.
Proof.
  induction l as [|y l IH]; intros Hiff; [done|]. rewrite !filter_cons.
  assert (filter P l = filter Q l) as E by (apply IH; intros; apply Hiff; by right).
  pose proof (Hiff y ltac:(by left)). destruct (decide (P y)), (decide (Q y)); try tauto; by rewrite E.
Qed.

Lemma filter_all {A} (P : A → Prop) `{∀ x, Decision (P x)} (l : list A) : (∀ x, x ∈ l → P x) → filter P l = l.
Proof.
  induction l as [|y l IH]; intros Hall; [done|]. rewrite filter_cons, decide_True by (apply Hall; by left).
  f_equal. apply IH. intros. apply Hall. by right.
Qed.

Lemma filter_none {A} (P : A → Prop) `{∀ x, Decision (P x)} (l : list A) : (∀ x, x ∈ l → ¬ P x) → filter P l = [].
Proof.
  induction l as [|y l IH]; intros Hall; [done|]. rewrite filter_cons, decide_False by (apply Hall; by left).
  apply IH. intros. apply Hall. by right.
Qed.

Section scheduler.
Context {B : Type} `{Backend B}.
Variables (ex : Executor) (pl : plan) (rows0 : gmap string Row).
(** An invariant of the backend. *)
Variable good : B → Prop.

Definition deps_of (id : string) : list string := match rows0 !! id with Some r => r_deps r | None => [] end.
Definition rel_of (id : string) : Z := match rows0 !! id with Some r => r_release_ns r | None => 0 end.

(** The delay between a prerequisite and the operation. *)
Definition delay_of (id : string) : res Z :=
  match p_by_id pl !! id with
  | Some o => dj ← get o "declared_delay_ns"; if is_none dj then Ok (e_delay ex) else as_int dj
  | None => KeyErr
  end.

(** What [_prepare] establishes. *)
Record prepared (remaining0 : gmap string Z) : Prop := {
  pr_nodup : NoDup (p_order pl);
  pr_rows : ∀ id, id ∈ p_order pl → ∃ r, rows0 !! id = Some r ∧ r_op_id r = id ∧
    r_submit_ns r = None ∧ r_complete_ns r = None;
  pr_only : ∀ id, is_Some (rows0 !! id) → id ∈ p_order pl;
  pr_remaining : ∀ id, id ∈ p_order pl → remaining0 !! id = Some (Z.of_nat (length (deps_of id)));
  pr_backward : ∀ i id d, p_order pl !! i = Some id → d ∈ deps_of id → ∃ j, (j < i)%nat ∧ p_order pl !! j = Some d;
  pr_dependents : ∀ d x, occ x (default [] (p_dependents pl !! d)) = occ d (deps_of x);
  pr_delay : ∀ id, id ∈ p_order pl → ∃ z, delay_of id = Ok z
}.

(** The operation has completed. *)
Definition done (rows : gmap string Row) (id : string) : bool :=
  match rows !! id with Some r => bool_decide (is_Some (r_complete_ns r)) | None => false end.

(** Every prerequisite of [id] has completed, with its delay over by [t]. *)
Definition ready (rows : gmap string Row) (id : string) (t : Z) : Prop :=
  (e_profile ex = "offered" → rel_of id ≤ t) ∧
  ∀ d, d ∈ deps_of id → ∃ p c delay, rows !! d = Some p ∧ r_complete_ns p = Some c ∧
    delay_of id = Ok delay ∧ c + delay ≤ t.

Definition pids (st : sim) : list string := (λ e : Z * Z * string, e.2) <$> s_pending (B:=B) st.
Definition cids (st : sim) : list string := (λ e : Z * Z * string * Outcome, e.1.2) <$> s_completions (B:=B) st.

Definition undone (rows : gmap string Row) (l : list string) : list string := filter (λ d, done rows d = false) l.

(** The invariant of the run.  [todo]: operations not yet looked at when the
    heap is seeded; [owed]: dependents still to be told of a completion. *)
Record Inv (todo owed : list string) (st : sim (B:=B)) : Prop := {
  inv_rows : ∀ id, id ∈ p_order pl → ∃ r, s_rows st !! id = Some r ∧ r_op_id r = id ∧
    r_deps r = deps_of id ∧ r_release_ns r = rel_of id;
  inv_ids : NoDup (pids st ++ cids st);
  inv_mem : ∀ id, id ∈ pids st ++ cids st → id ∈ p_order pl ∧ done (s_rows st) id = false ∧ id ∉ todo;
  inv_rem : ∀ id, id ∈ p_order pl → s_remaining st !! id =
    Some (Z.of_nat (length (undone (s_rows st) (deps_of id)) + occ id owed));
  inv_wait : ∀ id, id ∈ p_order pl → id ∉ todo →
    s_remaining st !! id = Some 0 ↔ id ∈ pids st ++ cids st ∨ done (s_rows st) id = true;
  inv_todo : ∀ id, id ∈ todo → id ∈ p_order pl ∧ done (s_rows st) id = false;
  inv_pend : ∀ t s id, (t, s, id) ∈ s_pending st → ready (s_rows st) id t;
  inv_run : ∀ t s id out, (t, s, id, out) ∈ s_completions st → ∃ r e sb, s_rows st !! id = Some r ∧
    r_eligible_ns r = Some e ∧ r_submit_ns r = Some sb ∧ ready (s_rows st) id e ∧ e ≤ sb ≤ s_now st;
  inv_done : ∀ id r c, s_rows st !! id = Some r → r_complete_ns r = Some c → id ∈ p_order pl ∧
    ∃ e sb, r_eligible_ns r = Some e ∧ r_submit_ns r = Some sb ∧ ready (s_rows st) id e ∧ e ≤ sb ≤ s_now st;
  inv_running : s_running st = Z.of_nat (length (s_completions st)) ∧ s_running st ≤ e_workers ex;
  inv_backend : good (s_backend st)
}.

Variable remaining0 : gmap string Z.
Hypothesis Hprep : prepared remaining0.
Hypothesis Hworkers : 1 ≤ e_workers ex.
(** The backend does not raise on the operations of the plan. *)
Hypothesis Hperform : ∀ b id, good b → id ∈ p_order pl → ∃ b' out, perform ex pl b id = Ok (b', out) ∧ good b'.

Lemma pl_by_id id : id ∈ p_order pl → is_Some (p_by_id pl !! id).
Proof.
  intros Hid. destruct (pr_delay _ Hprep id Hid) as (z & Hz). unfold delay_of in Hz.
  by destruct (p_by_id pl !! id).
Qed.

Lemma dep_in_order id d : d ∈ deps_of id → d ∈ p_order pl.
Proof.
  intros Hd. assert (id ∈ p_order pl) as (i & Hi)%list_elem_of_lookup.
  { apply (pr_only _ Hprep). unfold deps_of in Hd. destruct (rows0 !! id); [done|by inversion Hd]. }
  destruct (pr_backward _ Hprep i id d Hi Hd) as (j & _ & Hj). by eapply list_elem_of_lookup_2.
Qed.

(** [_eligible_time] of an operation whose prerequisites are done. *)
Lemma eligible_time_ready rows id :
  id ∈ p_order pl →
  (∃ r, rows !! id = Some r ∧ r_deps r = deps_of id ∧ r_release_ns r = rel_of id) →
  undone rows (deps_of id) = [] → ∃ t, eligible_time ex pl rows id = Ok t ∧ ready rows id t.
Proof using Hprep.
  intros Hid (r & Hr & Hdeps & Hrel) Hun.
  destruct (pr_delay _ Hprep id Hid) as (delay & Hdelay).
  assert (∀ d, d ∈ deps_of id → ∃ p c, rows !! d = Some p ∧ r_complete_ns p = Some c) as Hall.
  { intros d Hd. destruct (done rows d) eqn:E.
    - unfold done in E. destruct (rows !! d) as [p|]; [|done]. apply bool_decide_eq_true in E as [c ?]. eauto.
    - assert (d ∈ undone rows (deps_of id)) as Hin by (unfold undone; by apply list_elem_of_filter).
      rewrite Hun in Hin. by inversion Hin. }
  unfold eligible_time, ready. rewrite Hr, Hdeps. pose proof Hdelay as Hd'. unfold delay_of in Hd'.
  destruct (p_by_id pl !! id) as [o|]; [|done].
  apply bind_Ok in Hd' as (dj & Hdj & Hd'). rewrite Hdj. cbn [mbind res_bind].
  rewrite Hd'. cbn [mbind res_bind].
  destruct (wait_for_all rows delay (deps_of id)
    (if String.eqb (e_profile ex) "offered" then r_release_ns r else 0) Hall) as (t & Ht & Hle & Hrest).
  exists t. split; [done|]. split.
  - intros E. rewrite E in Hle. change (String.eqb "offered" "offered") with true in Hle. cbv iota in Hle. by rewrite Hrel in Hle.
  - intros d Hd. destruct (Hrest d Hd) as (p & c & ? & ? & ?). by exists p, c, delay.
Qed.

Lemma pids_push st rows rem b e compl run sq now :
  pids (mkSim rows rem b (push_pending e (s_pending st)) compl run sq now) ≡ₚ e.2 :: pids st.
Proof. unfold pids. cbn [s_pending]. by rewrite push_pending_perm. Qed.

(** *** Adding a pending operation *)
Lemma Inv_push todo0 todo owed st rem id t sq :
  Inv todo0 owed st → (∀ x, x ∈ todo0 ↔ x = id ∧ id ∈ todo0 ∨ x ∈ todo) → id ∈ p_order pl → id ∉ todo →
  id ∉ pids st ++ cids st → done (s_rows st) id = false → ready (s_rows st) id t →
  (∀ x, x ∈ p_order pl → x ≠ id → rem !! x = s_remaining st !! x) → ∀ owed',
  (∀ x, x ∈ p_order pl → x ≠ id → occ x owed' = occ x owed) →
  rem !! id = Some (Z.of_nat (length (undone (s_rows st) (deps_of id)) + occ id owed')) → rem !! id = Some 0 →
  Inv todo owed' (mkSim (s_rows st) rem (s_backend st) (push_pending (t, sq, id) (s_pending st))
    (s_completions st) (s_running st) (s_seq st + 1) (s_now st)).
Proof using Hprep.
  clear Hworkers Hperform.
  intros [H1 H2 H3 H4 H5 H6 H7 H8 H9 H10 H11] Ht0 Hid Htodo Hfresh Hdone Hready Hrem owed' Howed Hr1 Hr0.
  set (st' := mkSim _ _ _ _ _ _ _ _).
  assert (pids st' ++ cids st' ≡ₚ id :: pids st ++ cids st) as Hp.
  { unfold st'. rewrite pids_push. done. }
  subst st'. constructor; cbn [s_rows s_remaining s_pending s_completions s_running s_now]; try done.
  - rewrite Hp. by constructor.
  - intros x. rewrite Hp. intros [->|Hx]%elem_of_cons; [done|]. destruct (H3 x Hx) as (? & ? & ?). set_solver.
  - intros x Hx. destruct (decide (x = id)) as [->|Hne]; [done|]. rewrite Hrem, Howed by done. by apply H4.
  - intros x Hx Hnt. rewrite Hp, elem_of_cons. destruct (decide (x = id)) as [->|Hne]; [by rewrite Hr0; tauto|].
    rewrite Hrem by done. rewrite (H5 x Hx) by set_solver. tauto.
  - intros x Hx. apply H6. set_solver.
  - intros t' s' x Hx. rewrite push_pending_perm in Hx. apply elem_of_cons in Hx as [[= -> -> ->]|Hx]; [done|].
    by eapply H7.
Qed.

(** *** Seeding *)
Lemma seed_one_Inv todo id st :
  Inv (id :: todo) [] st → id ∉ todo → ∃ st', seed_one ex pl st id = Ok st' ∧ Inv todo [] st'.
Proof using Hprep.
  clear Hworkers Hperform.
  intros HI Hnd. pose proof HI as [H1 H2 H3 H4 H5 H6 H7 H8 H9 H10 H11].
  destruct (H6 id) as [Hid Hdone]; [set_solver|].
  assert (id ∉ pids st ++ cids st) as Hfresh by (intros Hin; apply H3 in Hin as (_ & _ & Hn); set_solver).
  unfold seed_one. rewrite (H4 id Hid). simpl occ. rewrite Nat.add_0_r.
  destruct (Z.eqb_spec (Z.of_nat (length (undone (s_rows st) (deps_of id)))) 0) as [E|E].
  - assert (undone (s_rows st) (deps_of id) = []) as Hun by (apply length_zero_iff_nil; lia).
    destruct (eligible_time_ready (s_rows st) id Hid) as (t & -> & Hready); [|done|].
    { destruct (H1 id Hid) as (r & ? & _ & ? & ?). eauto. }
    cbn [mbind res_bind]. eexists. split; [done|].
    assert (s_remaining st !! id = Some 0) as H0 by (rewrite (H4 id Hid), Hun; done).
    apply (Inv_push (id :: todo) todo [] st (s_remaining st) id t (s_seq st)); try done; [set_solver|].
    by rewrite H0, Hun.
  - eexists. split; [done|]. constructor; try done.
    + intros x Hx. destruct (H3 x Hx) as (? & ? & ?). set_solver.
    + intros x Hx Hnt. destruct (decide (x = id)) as [->|Hne]; [|apply H5; set_solver].
      rewrite (H4 id Hid). simpl occ. rewrite Nat.add_0_r. split; [intros [= ?]; lia|].
      intros [?|?]; [done|congruence].
    + intros x Hx. apply H6. set_solver.
Qed.

(** *** Submitting and completing *)
Lemma ready_mono rows rows' id t :
  (∀ d p c, rows !! d = Some p → r_complete_ns p = Some c → ∃ p', rows' !! d = Some p' ∧ r_complete_ns p' = Some c) →
  ready rows id t → ready rows' id t.
Proof.
  intros Hm [H1 H2]. split; [done|]. intros d Hd. destruct (H2 d Hd) as (p & c & delay & Hp & Hc & ? & ?).
  destruct (Hm d p c Hp Hc) as (p' & ? & ?). by exists p', c, delay.
Qed.

Lemma done_submit rows id r t now x :
  rows !! id = Some r → done (<[ id := row_submit r t now ]> rows) x = done rows x.
Proof.
  intros Hr. unfold done. destruct (decide (x = id)) as [->|Hne].
  - by rewrite lookup_insert_eq, Hr.
  - by rewrite lookup_insert_ne.
Qed.

Lemma done_complete rows id r t out x :
  rows !! id = Some r → done (<[ id := row_complete r t out ]> rows) x = bool_decide (x = id) || done rows x.
Proof.
  intros Hr. unfold done. destruct (decide (x = id)) as [->|Hne].
  - rewrite lookup_insert_eq. by rewrite !bool_decide_eq_true_2 by (done || by eexists).
  - rewrite lookup_insert_ne by done. by rewrite bool_decide_eq_false_2.
Qed.

Lemma undone_ext rows rows' l : (∀ x, done rows x = done rows' x) → undone rows l = undone rows' l.
Proof. intros E. unfold undone. apply list_filter_iff. intros x. by rewrite E. Qed.

Lemma submit_one_Inv st e rest :
  Inv [] [] st → s_pending st = e :: rest → s_running st < e_workers ex → e.1.1 ≤ s_now st →
  ∃ st', submit_one ex pl st e rest = Ok st' ∧ Inv [] [] st' ∧ s_pending st' = rest ∧
    s_now st' = s_now st ∧ (∀ x, done (s_rows st') x = done (s_rows st) x) ∧
    length (s_completions st') = S (length (s_completions st)).
Proof.
  intros [H1 H2 H3 H4 H5 H6 H7 H8 H9 H10 H11] Hp Hrun Hle. destruct e as [[t sq] id].
  assert (pids st = id :: ((λ e : Z * Z * string, e.2) <$> rest)) as Hpid by (unfold pids; by rewrite Hp).
  destruct (H3 id) as (Hid & Hdone & _); [rewrite Hpid; set_solver|].
  destruct (H1 id Hid) as (r & Hr & Hrid & Hrd & Hrr).
  destruct (pl_by_id id Hid) as [o Ho]. destruct (Hperform (s_backend st) id H11 Hid) as (b & out & Hperf & Hgood).
  unfold submit_one. rewrite Hr, Ho, Hperf. cbn [mbind res_bind].
  eexists. split; [done|]. cbn [s_pending s_now s_rows s_completions].
  assert (∀ x, done (<[ id := row_submit r t (s_now st) ]> (s_rows st)) x = done (s_rows st) x) as Hd
    by (intros; by apply done_submit).
  assert (∀ x t', ready (s_rows st) x t' → ready (<[ id := row_submit r t (s_now st) ]> (s_rows st)) x t') as Hready.
  { intros x t'. apply ready_mono. intros d p c Hdp Hc. destruct (decide (d = id)) as [->|Hne].
    - rewrite lookup_insert_eq. eexists. split; [done|]. simpl. congruence.
    - rewrite lookup_insert_ne by done. eauto. }
  split_and!; [|done..|rewrite push_completion_perm; done].
  match goal with |- Inv _ _ ?s => assert (pids s ++ cids s ≡ₚ pids st ++ cids st) as Hperm end.
  { rewrite Hpid. unfold pids, cids. cbn [s_pending s_completions]. rewrite push_completion_perm. simpl.
    by rewrite Permutation_middle. }
  constructor; cbn [s_rows s_remaining s_pending s_completions s_running s_now].
  - intros x Hx. destruct (decide (x = id)) as [->|Hne]; [rewrite lookup_insert_eq; by exists (row_submit r t (s_now st))|].
    rewrite lookup_insert_ne by done. by apply H1.
  - by rewrite Hperm.
  - intros x. rewrite Hperm, Hd. by apply H3.
  - intros x Hx. rewrite (undone_ext _ (s_rows st)) by done. by apply H4.
  - intros x Hx Hn. rewrite Hperm, Hd. by apply H5.
  - intros x Hx. by inversion Hx.
  - intros t' s' x Hx. apply Hready, (H7 t' s'). rewrite Hp. by right.
  - intros t' s' x out' Hx. rewrite push_completion_perm in Hx. apply elem_of_cons in Hx as [[= -> -> -> ->]|Hx].
    + exists (row_submit r t (s_now st)), t, (s_now st). rewrite lookup_insert_eq.
      split_and!; try done; try lia. apply Hready, (H7 t sq). rewrite Hp. by left.
    + assert (x ≠ id) as Hne.
      { intros ->. rewrite Hpid in H2. apply NoDup_cons in H2 as [Hni _]. apply Hni, elem_of_app. right.
        unfold cids. apply list_elem_of_fmap. by exists (t', s', id, out'). }
      rewrite lookup_insert_ne by done. destruct (H8 _ _ _ _ Hx) as (r' & e & sb & ? & ? & ? & ? & ?).
      exists r', e, sb. split_and!; try done; try lia. by apply Hready.
  - intros x r' c Hx Hc. assert (x ≠ id) as Hne.
    { intros ->. rewrite lookup_insert_eq in Hx. injection Hx as <-. simpl in Hc.
      unfold done in Hdone. rewrite Hr in Hdone. by rewrite Hc in Hdone. }
    rewrite lookup_insert_ne in Hx by done. destruct (H9 _ _ _ Hx Hc) as (? & e & sb & ? & ? & ? & ?).
    split; [done|]. exists e, sb. split_and!; try done; try lia. by apply Hready.
  - rewrite push_completion_perm. simpl length. lia.
  - done.
Qed.

Lemma undone_complete rows rows' id l :
  done rows id = false → (∀ x, done rows' x = bool_decide (x = id) || done rows x) →
  length (undone rows l) = (length (undone rows' l) + occ id l)%nat.
Proof.
  intros Hid Hd. induction l as [|y l IH]; [done|]. unfold undone in *. rewrite !filter_cons, Hd. cbn [occ].
  destruct (decide (id = y)) as [<-|Hne].
  - rewrite bool_decide_eq_true_2 by done. rewrite decide_True, decide_False by done. simpl length. lia.
  - rewrite bool_decide_eq_false_2 by congruence. cbn [orb]. destruct (decide (done rows y = false)); simpl length; lia.
Qed.

Lemma complete_mark_Inv st t sq id out rest r :
  Inv [] [] st → s_completions st = (t, sq, id, out) :: rest → s_rows st !! id = Some r →
  Inv [] (default [] (p_dependents pl !! id))
    (mkSim (<[ id := row_complete r t out ]> (s_rows st)) (s_remaining st) (s_backend st)
       (s_pending st) rest (s_running st - 1) (s_seq st) (s_now st)).
Proof.
  intros [H1 H2 H3 H4 H5 H6 H7 H8 H9 H10 H11] Hc Hr.
  assert (cids st = id :: ((λ e : Z * Z * string * Outcome, e.1.2) <$> rest)) as Hcid by (unfold cids; by rewrite Hc).
  destruct (H3 id) as (Hid & Hdone & _); [rewrite Hcid; set_solver|].
  destruct (H8 t sq id out) as (r' & e & sb & Hr' & He & Hs & Hrd & Hle); [rewrite Hc; set_solver|].
  rewrite Hr in Hr'. injection Hr' as <-.
  assert (∀ x, done (<[ id := row_complete r t out ]> (s_rows st)) x = bool_decide (x = id) || done (s_rows st) x)
    as Hd by (intros; by apply done_complete).
  assert (∀ x t', ready (s_rows st) x t' → ready (<[ id := row_complete r t out ]> (s_rows st)) x t') as Hready.
  { intros x t'. apply ready_mono. intros d p c Hdp Hcp. destruct (decide (d = id)) as [->|Hne].
    - unfold done in Hdone. rewrite Hdp in Hdone. by rewrite Hcp in Hdone.
    - rewrite lookup_insert_ne by done. eauto. }
  match goal with |- Inv _ _ ?s => assert (pids st ++ cids st ≡ₚ id :: pids s ++ cids s) as Hperm end.
  { rewrite Hcid. unfold pids, cids. cbn [s_pending s_completions]. by rewrite Permutation_middle. }
  rewrite Hperm in H2. apply NoDup_cons in H2 as [Hni H2].
  constructor; cbn [s_rows s_remaining s_pending s_completions s_running s_now].
  - intros x Hx. destruct (decide (x = id)) as [->|Hne].
    + rewrite lookup_insert_eq. destruct (H1 id Hx) as (r0 & Hr0 & ? & ? & ?). rewrite Hr in Hr0. injection Hr0 as <-.
      by exists (row_complete r t out).
    + rewrite lookup_insert_ne by done. by apply H1.
  - done.
  - intros x Hx. destruct (H3 x) as (? & Hdx & _); [rewrite Hperm; by right|].
    split; [done|]. split; [|set_solver]. rewrite Hd, Hdx, bool_decide_eq_false_2; [done|by intros ->].
  - intros x Hx. rewrite (H4 x Hx). f_equal. f_equal. simpl occ. rewrite (pr_dependents _ Hprep).
    rewrite (undone_complete _ _ id _ Hdone Hd). lia.
  - intros x Hx Hn. rewrite (H5 x Hx Hn), Hperm, elem_of_cons, Hd.
    destruct (bool_decide_reflect (x = id)) as [->|]; cbn [orb]; tauto.
  - intros x Hx. by inversion Hx.
  - intros t' s' x Hx. by eapply Hready, H7.
  - intros t' s' x out' Hx. assert (x ≠ id) as Hne.
    { intros ->. apply Hni, elem_of_app. right. unfold cids. apply list_elem_of_fmap. by exists (t', s', id, out'). }
    rewrite lookup_insert_ne by done. destruct (H8 t' s' x out') as (r' & e' & sb' & ? & ? & ? & ? & ?);
      [rewrite Hc; by right|]. exists r', e', sb'. split_and!; try done; try lia. by apply Hready.
  - intros x r' c Hx Hc'. destruct (decide (x = id)) as [->|Hne].
    + rewrite lookup_insert_eq in Hx. injection Hx as <-. split; [done|]. exists e, sb.
      split_and!; try done; try lia. by apply Hready.
    + rewrite lookup_insert_ne in Hx by done. destruct (H9 _ _ _ Hx Hc') as (? & e' & sb' & ? & ? & ? & ?).
      split; [done|]. exists e', sb'. split_and!; try done; try lia. by apply Hready.
  - rewrite Hc in H10. simpl length in H10. lia.
  - done.
Qed.

Lemma release_dependent_Inv x owed st :
  Inv [] (x :: owed) st → x ∈ p_order pl →
  ∃ st', release_dependent ex pl st x = Ok st' ∧ Inv [] owed st' ∧ s_rows st' = s_rows st ∧
    s_completions st' = s_completions st ∧ s_now st' = s_now st.
Proof.
  intros HI Hx. pose proof HI as [H1 H2 H3 H4 H5 H6 H7 H8 H9 H10 H11].
  unfold release_dependent. pose proof (H4 x Hx) as Hrem. cbn [occ] in Hrem. rewrite decide_True in Hrem by done.
  rewrite Hrem. set (n := Z.of_nat _).
  assert (x ∉ pids st ++ cids st ∧ done (s_rows st) x = false) as [Hfresh Hdone].
  { assert (¬ (x ∈ pids st ++ cids st ∨ done (s_rows st) x = true)) as Hno.
    { rewrite <- (H5 x Hx) by set_solver. rewrite Hrem. intros [= E]. lia. }
    destruct (done (s_rows st) x); tauto. }
  assert (∀ y, y ≠ x → occ y (x :: owed) = occ y owed) as Hocc.
  { intros y Hy. cbn [occ]. by rewrite decide_False. }
  destruct (Z.eqb_spec (n - 1) 0) as [E|E].
  - assert (undone (s_rows st) (deps_of x) = []) as Hun by (apply length_zero_iff_nil; lia).
    assert (occ x owed = 0%nat) as Ho by lia.
    destruct (eligible_time_ready (s_rows st) x Hx) as (t & -> & Hready); [|done|].
    { destruct (H1 x Hx) as (r & ? & _ & ? & ?). eauto. }
    cbn [mbind res_bind]. eexists. split; [done|]. split; [|done].
    apply (Inv_push [] [] (x :: owed) st _ x t (s_seq st)); try done; [set_solver|set_solver|..].
    + intros y _ Hy. by rewrite lookup_insert_ne.
    + intros y _ Hy. by rewrite Hocc.
    + rewrite lookup_insert_eq, Hun, Ho. f_equal. simpl. lia.
    + rewrite lookup_insert_eq. by rewrite E.
  - eexists. split; [done|]. split; [|done].
    constructor; cbn [s_rows s_remaining s_pending s_completions s_running s_now]; try done.
    + intros y Hy. destruct (decide (y = x)) as [->|Hne].
      * rewrite lookup_insert_eq. f_equal. lia.
      * rewrite lookup_insert_ne by done. rewrite (H4 y Hy), Hocc by done. done.
    + intros y Hy Hn. destruct (decide (y = x)) as [->|Hne].
      * rewrite lookup_insert_eq. split; [intros [= ?]; lia|]. intros [?|?]; [done|congruence].
      * rewrite lookup_insert_ne by done. by apply H5.
Qed.

Lemma dependents_in_order d x : x ∈ default [] (p_dependents pl !! d) → x ∈ p_order pl.
Proof using Hprep.
  intros Hx%occ_elem. rewrite (pr_dependents _ Hprep) in Hx. apply occ_elem in Hx.
  apply (pr_only _ Hprep). unfold deps_of in Hx. destruct (rows0 !! x); [done|by inversion Hx].
Qed.

Lemma release_all_Inv owed st :
  Inv [] owed st → (∀ x, x ∈ owed → x ∈ p_order pl) →
  ∃ st', foldM (release_dependent ex pl) st owed = Ok st' ∧ Inv [] [] st' ∧ s_rows st' = s_rows st ∧
    s_completions st' = s_completions st ∧ s_now st' = s_now st.
Proof.
  revert st. induction owed as [|x owed IH]; intros st HI Hin; [by exists st|].
  destruct (release_dependent_Inv x owed st HI) as (st1 & E1 & HI1 & Er & Ec & En); [apply Hin; by left|].
  destruct (IH st1 HI1) as (st2 & E2 & HI2 & Er2 & Ec2 & En2); [intros; apply Hin; by right|].
  exists st2. cbn [foldM]. rewrite E1. cbn [mbind res_bind]. split_and!; [done|done|congruence..].
Qed.

(** The number of operations that have completed. *)
Definition done_count (rows : gmap string Row) : nat := length (filter (λ x, done rows x = true) (p_order pl)).

Lemma filter_add_one (l : list string) (p q : string → bool) id :
  NoDup l → id ∈ l → p id = false → (∀ x, q x = bool_decide (x = id) || p x) →
  length (filter (λ x, q x = true) l) = S (length (filter (λ x, p x = true) l)).
Proof.
  intros Hnd Hin Hp Hq. induction l as [|y l IH]; [by inversion Hin|].
  apply NoDup_cons in Hnd as [Hni Hnd]. rewrite !filter_cons, Hq.
  destruct (decide (y = id)) as [->|Hne].
  - rewrite bool_decide_eq_true_2 by done. rewrite decide_True, decide_False by (done || congruence).
    simpl length. f_equal. f_equal. apply filter_elem_iff. intros x Hx. rewrite Hq.
    rewrite bool_decide_eq_false_2; [done|]. intros ->. done.
  - rewrite bool_decide_eq_false_2 by done. cbn [orb]. apply elem_of_cons in Hin as [?|Hin]; [done|].
    specialize (IH Hnd Hin). destruct (decide (p y = true)); simpl length; lia.
Qed.

Lemma complete_one_Inv st e rest :
  Inv [] [] st → s_completions st = e :: rest → 
  ∃ st', complete_one ex pl st e rest = Ok st' ∧ Inv [] [] st' ∧ s_completions st' = rest ∧
    s_now st' = s_now st ∧ done_count (s_rows st') = S (done_count (s_rows st)).
Proof.
  intros HI Hc. destruct e as [[[t sq] id] out]. pose proof HI as [H1 _ H3 _ _ _ _ _ _ _ _].
  destruct (H3 id) as (Hid & Hdone & _).
  { apply elem_of_app. right. unfold cids. rewrite Hc. by left. }
  destruct (H1 id Hid) as (r & Hr & _). unfold complete_one. rewrite Hr.
  destruct (release_all_Inv _ _ (complete_mark_Inv st t sq id out rest r HI Hc Hr)) as (st' & -> & HI' & Er & Ec & En).
  { intros x. apply dependents_in_order. }
  exists st'. split_and!; [done|done|by rewrite Ec|by rewrite En|]. rewrite Er. cbn [s_rows].
  apply (filter_add_one _ (done (s_rows st)) _ id); [apply (pr_nodup _ Hprep)|done|done|].
  intros x. by apply done_complete.
Qed.

(** *** The two inner loops *)
Lemma submit_all_Inv fuel st :
  Inv [] [] st → (length (s_pending st) ≤ fuel)%nat →
  ∃ st', submit_all fuel ex pl st = Ok st' ∧ Inv [] [] st' ∧ s_now st' = s_now st ∧
    done_count (s_rows st') = done_count (s_rows st) ∧
    (length (s_completions st) ≤ length (s_completions st'))%nat ∧
    (length (s_completions st) = length (s_completions st') → st' = st) ∧
    (s_running st' < e_workers ex → ∀ e rest, s_pending st' = e :: rest → s_now st' < e.1.1).
Proof.
  revert st. induction fuel as [|fuel IH]; intros st HI Hf; destruct (s_pending st) as [|e rest] eqn:Ep;
    cbn [submit_all]; rewrite Ep; simpl in Hf; try lia.
  - exists st. split_and!; try done. congruence.
  - exists st. split_and!; try done. congruence.
  - destruct (Z.ltb_spec (s_running st) (e_workers ex)) as [Hr|Hr]; cbn [andb];
      [destruct (Z.leb_spec e.1.1 (s_now st)) as [Hle|Hgt]|].
    + destruct (submit_one_Inv st e rest HI Ep Hr Hle) as (st1 & -> & HI1 & Ep1 & En & Hd & Hl).
      cbn [mbind res_bind]. destruct (IH st1 HI1) as (st2 & -> & HI2 & En2 & Hd2 & Hl2 & _ & Hstop); [rewrite Ep1; lia|].
      exists st2. split_and!; try done; try lia.
      rewrite Hd2. unfold done_count. f_equal. apply list_filter_iff. intros x. by rewrite Hd.
    + exists st. split_and!; try done. intros _ e' rest' [= <- <-]%(eq_trans (eq_sym Ep)). lia.
    + exists st. split_and!; try done. lia.
Qed.

Lemma complete_all_Inv fuel st :
  Inv [] [] st → (length (s_completions st) ≤ fuel)%nat →
  ∃ st', complete_all fuel ex pl st = Ok st' ∧ Inv [] [] st' ∧ s_now st' = s_now st ∧
    (done_count (s_rows st') + length (s_completions st') = done_count (s_rows st) + length (s_completions st))%nat ∧
    (done_count (s_rows st) ≤ done_count (s_rows st'))%nat ∧
    (done_count (s_rows st) = done_count (s_rows st') → st' = st) ∧
    (∀ e rest, s_completions st = e :: rest → e.1.1.1 ≤ s_now st →
       (done_count (s_rows st) < done_count (s_rows st'))%nat).
Proof.
  revert st. induction fuel as [|fuel IH]; intros st HI Hf; destruct (s_completions st) as [|e rest] eqn:Ec;
    cbn [complete_all]; rewrite Ec; simpl in Hf; try lia.
  - exists st. rewrite Ec. by split_and!.
  - exists st. rewrite Ec. by split_and!.
  - destruct (Z.leb_spec e.1.1.1 (s_now st)) as [Hle|Hgt].
    + destruct (complete_one_Inv st e rest HI Ec) as (st1 & -> & HI1 & Ec1 & En & Hd). cbn [mbind res_bind].
      destruct (IH st1 HI1) as (st2 & -> & HI2 & En2 & Hs & Hm & _ & _); [rewrite Ec1; lia|].
      rewrite Ec1 in Hs. exists st2. split_and!; try done; try (simpl length; lia).
    + exists st. rewrite Ec. split_and!; try done. intros e' rest' [= <- <-]. lia.
Qed.

(** *** The main loop ends, with nothing left *)
Definition measure (st : sim (B:=B)) : Z :=
  2 * (2 * Z.of_nat (length (p_order pl)) - 2 * Z.of_nat (done_count (s_rows st))
       - Z.of_nat (length (s_completions st)))
  + match s_pending st with e :: _ => if e.1.1 <=? s_now st then 0 else 1 | [] => 0 end.

Lemma measure_nonneg st : Inv [] [] st → 0 ≤ measure st.
Proof.
  intros [_ H2 H3 _ _ _ _ _ _ _ _].
  assert (length (filter (λ x, done (s_rows st) x = true) (p_order pl) ++ cids st) ≤ length (p_order pl))%nat as Hle.
  { apply submseteq_length, NoDup_submseteq.
    - apply NoDup_app. split_and!; [apply NoDup_filter, (pr_nodup _ Hprep)| |by apply NoDup_app in H2 as (_ & _ & ?)].
      intros x [Hx _]%list_elem_of_filter Hc. destruct (H3 x) as (_ & ? & _); [apply elem_of_app; by right|congruence].
    - intros x [Hx|Hx]%elem_of_app; [by apply list_elem_of_filter in Hx as [_ ?]|].
      apply H3, elem_of_app. by right. }
  rewrite length_app in Hle. unfold cids in Hle. rewrite length_fmap in Hle. fold (done_count (s_rows st)) in Hle.
  unfold measure. destruct (s_pending st) as [|e ?]; [lia|]. destruct (e.1.1 <=? s_now st); lia.
Qed.

Lemma with_now_Inv st now : Inv [] [] st → s_now st ≤ now → Inv [] [] (with_now st now).
Proof.
  intros [H1 H2 H3 H4 H5 H6 H7 H8 H9 H10 H11] Hle. constructor; cbn; try done.
  - intros t s id out Hx. destruct (H8 _ _ _ _ Hx) as (r & e & sb & ? & ? & ? & ? & ?).
    exists r, e, sb. split_and!; try done; lia.
  - intros id r c Hr Hc. destruct (H9 _ _ _ Hr Hc) as (? & e & sb & ? & ? & ? & ?).
    split; [done|]. exists e, sb. split_and!; try done; lia.
Qed.

(** One iteration of the main loop: it goes on, and the measure drops. *)
Lemma iteration st :
  Inv [] [] st → ¬ (s_pending st = [] ∧ s_completions st = []) →
  ∃ st1 t st3, submit_all (length (s_pending st)) ex pl st = Ok st1 ∧ next_time ex st1 = Some t ∧
    complete_all (length (s_completions st1)) ex pl (with_now st1 (Z.max (s_now st1) t)) = Ok st3 ∧
    Inv [] [] st3 ∧ measure st3 < measure st.
Proof.
  intros HI Hne. destruct (submit_all_Inv _ st HI (le_n _)) as (st1 & E1 & HI1 & En1 & Hd1 & Hl1 & Heq1 & Hstop).
  assert (¬ (s_pending st1 = [] ∧ s_completions st1 = [])) as Hne1.
  { intros [Hp Hc]. assert (length (s_completions st) = length (s_completions st1)) as El by (rewrite Hc in *; simpl in *; lia).
    rewrite (Heq1 El) in Hp, Hc. by apply Hne. }
  destruct (inv_running _ _ _ HI1) as [Hrun Hbud].
  assert (∃ t, next_time ex st1 = Some t ∧
    ((∃ e rest, s_completions st1 = e :: rest ∧ e.1.1.1 ≤ Z.max (s_now st1) t) ∨
     (∃ e rest, s_pending st1 = e :: rest ∧ s_running st1 < e_workers ex ∧ s_now st1 < e.1.1 ∧ t = e.1.1))) as (t & Et & Hcase).
  { unfold next_time. destruct (s_completions st1) as [|c cs] eqn:Ec, (s_pending st1) as [|e es] eqn:Ep.
    - exfalso. by apply Hne1.
    - simpl in Hrun. destruct (Z.ltb_spec (s_running st1) (e_workers ex)) as [Hr|]; [|lia].
      eexists. split; [done|]. right. exists e, es. split_and!; try done. by eapply Hstop.
    - eexists. split; [done|]. left. exists c, cs. split; [done|lia].
    - destruct (Z.ltb_spec (s_running st1) (e_workers ex)) as [Hr|Hr].
      + eexists. split; [done|]. pose proof (Hstop Hr e es eq_refl) as Hgt.
        destruct (Z_lt_le_dec e.1.1 c.1.1.1); [right; exists e, es; split_and!; try done; lia|].
        left. exists c, cs. split; [done|lia].
      + eexists. split; [done|]. left. exists c, cs. split; [done|lia]. }
  pose proof (with_now_Inv st1 (Z.max (s_now st1) t) HI1 ltac:(lia)) as HI2.
  destruct (complete_all_Inv (length (s_completions st1)) _ HI2 (le_n _)) as (st3 & E3 & HI3 & En3 & Hs3 & Hm3 & Heq3 & Hgt3).
  exists st1, t, st3. split_and!; try done. cbn [s_rows s_completions s_now with_now] in *.
  unfold measure. rewrite <- Hd1. destruct (decide (done_count (s_rows st1) = done_count (s_rows st3))) as [Ed|Ed].
  - destruct Hcase as [(e & rest & Ec & Hle)|(e & rest & Ep & Hr & Hgt & ->)]; [specialize (Hgt3 e rest Ec Hle); lia|].
    rewrite (Heq3 Ed). cbn [s_rows s_completions s_pending s_now with_now]. rewrite Ep.
    destruct (Z.leb_spec e.1.1 (Z.max (s_now st1) e.1.1)); [|lia].
    destruct (decide (length (s_completions st) = length (s_completions st1))) as [El|El].
    + rewrite (Heq1 El) in *. rewrite Ep. destruct (Z.leb_spec e.1.1 (s_now st)); lia.
    + destruct (s_pending st) as [|e' ?]; [lia|]. destruct (e'.1.1 <=? s_now st); lia.
  - assert (∀ s : sim (B:=B), 0 ≤ match s_pending s with e :: _ => if e.1.1 <=? s_now s then 0 else 1 | [] => 0 end ≤ 1) as Hflag.
    { intros s. destruct (s_pending s) as [|e ?]; [lia|]. destruct (e.1.1 <=? s_now s); lia. }
    pose proof (Hflag st). pose proof (Hflag st3). lia.
Qed.

Lemma sim_loop_ends fuel st :
  Inv [] [] st → measure st < Z.of_nat fuel →
  ∃ st', sim_loop fuel ex pl st = Ok st' ∧ Inv [] [] st' ∧ s_pending st' = [] ∧ s_completions st' = [].
Proof.
  revert st. induction fuel as [|fuel IH]; intros st HI Hm; [pose proof (measure_nonneg st HI); lia|].
  cbn [sim_loop]. destruct (bool_decide_reflect (s_pending st = [])) as [Hp|Hp];
    [destruct (bool_decide_reflect (s_completions st = [])) as [Hc|Hc]|]; cbn [andb]; [by exists st|..];
    (destruct (iteration st HI ltac:(naive_solver)) as (st1 & t & st3 & -> & Ht & Hca & HI3 & Hlt);
     cbn [mbind res_bind]; rewrite Ht; cbn [s_completions with_now]; rewrite Hca; cbn [mbind res_bind];
     apply IH; [done|lia]).
Qed.

(** *** From the prepared state to the end *)
Lemma done_rows0 id : done rows0 id = false.
Proof using Hprep.
  unfold done. destruct (rows0 !! id) as [r|] eqn:E; [|done].
  destruct (pr_rows _ Hprep id) as (r' & Hr' & _ & _ & Hc); [apply (pr_only _ Hprep); by rewrite E|].
  rewrite E in Hr'. injection Hr' as <-. by rewrite Hc.
Qed.

Lemma initial_Inv b : good b → Inv (p_order pl) [] (mkSim rows0 remaining0 b [] [] 0 0 0).
Proof using Hprep Hworkers.
  clear Hperform.
  intros Hgood. constructor; cbn; try done; try (by intros; set_solver).
  - intros id Hid. destruct (pr_rows _ Hprep id Hid) as (r & Hr & ? & _ & _). exists r.
    unfold deps_of, rel_of. by rewrite Hr.
  - constructor.
  - intros id Hid. rewrite (pr_remaining _ Hprep id Hid). f_equal. f_equal. rewrite Nat.add_0_r. f_equal.
    symmetry. unfold undone. apply filter_all. intros x _. apply done_rows0.
  - intros id Hid. split; [done|]. apply done_rows0.
  - intros id r c Hr Hc. pose proof (done_rows0 id) as Hd. unfold done in Hd. rewrite Hr in Hd. by rewrite Hc in Hd.
  - lia.
Qed.

Lemma seed_all_Inv todo st :
  NoDup todo → Inv todo [] st → ∃ st', foldM (seed_one ex pl) st todo = Ok st' ∧ Inv [] [] st'.
Proof using Hprep.
  clear Hworkers Hperform.
  revert st. induction todo as [|id todo IH]; intros st Hnd HI; [by exists st|].
  apply NoDup_cons in Hnd as [Hni Hnd]. destruct (seed_one_Inv todo id st HI Hni) as (st1 & E & HI1).
  destruct (IH st1 Hnd HI1) as (st2 & E2 & HI2). exists st2. cbn [foldM]. by rewrite E.
Qed.

Lemma all_done st :
  Inv [] [] st → s_pending st = [] → s_completions st = [] → ∀ id, id ∈ p_order pl → done (s_rows st) id = true.
Proof.
  intros HI Hp Hc. assert (∀ n i id, (i < n)%nat → p_order pl !! i = Some id → done (s_rows st) id = true) as Hgen.
  { induction n as [|n IH]; intros i id Hi Hid; [lia|].
    assert (id ∈ p_order pl) as Hin by (by eapply list_elem_of_lookup_2).
    assert (undone (s_rows st) (deps_of id) = []) as Hun.
    { unfold undone. apply filter_none. intros d Hd.
      destruct (pr_backward _ Hprep i id d Hid Hd) as (j & Hj & Hjd). rewrite (IH j d); [done|lia|done]. }
    assert (s_remaining st !! id = Some 0) as H0 by (by rewrite (inv_rem _ _ _ HI id Hin), Hun).
    apply (inv_wait _ _ _ HI id Hin) in H0 as [Hx|?]; [|done|set_solver].
    unfold pids, cids in Hx. rewrite Hp, Hc in Hx. by inversion Hx. }
  intros id (i & Hi)%list_elem_of_lookup. apply (Hgen (S i) i); [lia|done].
Qed.

(** The run ends, every operation has completed, and each was submitted no
    earlier than the completion of its prerequisites plus the delay. *)
Lemma run_simulated_completes b :
  good b → ∃ st, run_simulated ex pl rows0 remaining0 b = Ok st ∧ good (s_backend st) ∧
    ∀ id, id ∈ p_order pl → ∃ r e s c, s_rows st !! id = Some r ∧ r_op_id r = id ∧ r_deps r = deps_of id ∧
      r_eligible_ns r = Some e ∧ r_submit_ns r = Some s ∧ r_complete_ns r = Some c ∧
      ready (s_rows st) id e ∧ e ≤ s.
Proof.
  intros Hgood.
  destruct (seed_all_Inv (p_order pl) _ (pr_nodup _ Hprep) (initial_Inv b Hgood)) as (st0 & E0 & HI0).
  unfold run_simulated. rewrite E0. cbn [mbind res_bind].
  destruct (sim_loop_ends (sim_fuel pl) st0 HI0) as (st & E & HI & Hp & Hc).
  { unfold measure, sim_fuel. pose proof (Zle_0_nat (done_count (s_rows st0))).
    destruct (s_pending st0) as [|e ?]; [lia|]. destruct (e.1.1 <=? s_now st0); lia. }
  exists st. split; [done|]. split; [apply HI|]. intros id Hid. destruct (inv_rows _ _ _ HI id Hid) as (r & Hr & ? & ? & _).
  pose proof (all_done st HI Hp Hc id Hid) as Hd. unfold done in Hd. rewrite Hr in Hd.
  apply bool_decide_eq_true in Hd as [c Hcomp].
  destruct (inv_done _ _ _ HI id r c Hr Hcomp) as (_ & e & sb & ? & ? & ? & ? & _).
  by exists r, e, sb, c.
Qed.
End scheduler.
