(* ===== verification/ExecRun.v ===== *)
(** * Runs of the executor, from the document to the ledger

    [_prepare] turns the operations of a validated document into rows, and the
    scheduler theorem of [ExecCorrect] then applies: a v2 document with integer
    sizes runs to its end against the in-memory backend. *)

From stdpp Require Import prelude strings list numbers gmap sorting.
From Stdlib Require Import ZArith Lia Ascii.
From S2P Require Import Prelude PyText PyJson JsonText Intent Intent2 Workload3 ContentProfile IntentExec ExecCorrect.
Local Open Scope Z_scope.

(** ** Preparing a run *)
Section fold_insert.
Context {X A : Type} (key : X → string) (val : X → A).

Lemma fold_insert_other l (m : gmap string A) k :
  k ∉ key <$> l → fold_left (λ m x, <[ key x := val x ]> m) l m !! k = m !! k.
Proof.
  revert m. induction l as [|x l IH]; intros m Hk; [done|]. simpl. rewrite fmap_cons in Hk.
  apply not_elem_of_cons in Hk as [Hne Hk]. rewrite IH by done. by rewrite lookup_insert_ne.
Qed.

Lemma fold_insert_elem l (m : gmap string A) x :
  NoDup (key <$> l) → x ∈ l → fold_left (λ m x, <[ key x := val x ]> m) l m !! key x = Some (val x).
Proof.
  revert m. induction l as [|y l IH]; intros m Hnd Hx; [by inversion Hx|]. rewrite fmap_cons in Hnd.
  apply NoDup_cons in Hnd as [Hni Hnd]. simpl. apply elem_of_cons in Hx as [->|Hx].
  - rewrite fold_insert_other by done. apply lookup_insert_eq.
  - by apply IH.
Qed.

Lemma fold_insert_Some l k a :
  NoDup (key <$> l) → fold_left (λ m x, <[ key x := val x ]> m) l (∅ : gmap string A) !! k = Some a → ∃ x, x ∈ l ∧ key x = k ∧ val x = a.
Proof.
  intros Hnd Hk. destruct (decide (k ∈ key <$> l)) as [(x & -> & Hx)%list_elem_of_fmap|Hn].
  - rewrite fold_insert_elem in Hk by done. injection Hk as <-. by exists x.
  - by rewrite fold_insert_other, lookup_empty in Hk.
Qed.
End fold_insert.

Lemma occ_app x l k : occ x (l ++ k) = (occ x l + occ x k)%nat.
Proof. induction l as [|y l IH]; [done|]. simpl. lia. Qed.

Lemma add_dependents_occ r m d x :
  occ x (default [] (add_dependents m r !! d)) =
  (occ x (default [] (m !! d)) + if decide (x = r_op_id r) then occ d (r_deps r) else 0)%nat.
Proof.
  unfold add_dependents. generalize (r_op_id r) as id. intros id. revert m.
  induction (r_deps r) as [|y l IH]; intros m; simpl; [by destruct (decide _); lia|].
  rewrite IH. destruct (decide (d = y)) as [->|Hne].
  - rewrite lookup_insert_eq. simpl. rewrite occ_app. simpl. destruct (decide (x = id)); lia.
  - rewrite lookup_insert_ne by done. destruct (decide (x = id)); lia.
Qed.

(** How many edges lead from [d] to the operation [x]. *)
Definition edges (rows : list Row) (d x : string) : nat :=
  sum_list_with (λ r, if decide (x = r_op_id r) then occ d (r_deps r) else 0%nat) rows.

Lemma dependents_occ rows m d x :
  occ x (default [] (fold_left add_dependents rows m !! d)) = (occ x (default [] (m !! d)) + edges rows d x)%nat.
Proof.
  revert m. induction rows as [|r rows IH]; intros m; simpl; [unfold edges; simpl; lia|].
  rewrite IH, add_dependents_occ. unfold edges. simpl. lia.
Qed.

Lemma edges_unique rows d r :
  NoDup (r_op_id <$> rows) → r ∈ rows → edges rows d (r_op_id r) = occ d (r_deps r).
Proof.
  assert (∀ rows x, x ∉ r_op_id <$> rows → edges rows d x = 0%nat) as Hno.
  { clear. induction rows as [|r rows IH]; intros x Hx; [done|]. rewrite fmap_cons in Hx.
    apply not_elem_of_cons in Hx as [Hne Hx]. unfold edges in *. simpl. rewrite decide_False by done. by apply IH. }
  induction rows as [|y rows IH]; intros Hnd Hr; [by inversion Hr|]. rewrite fmap_cons in Hnd.
  apply NoDup_cons in Hnd as [Hni Hnd]. unfold edges in *. simpl. apply elem_of_cons in Hr as [->|Hr].
  - rewrite decide_True by done. rewrite (Hno rows (r_op_id y)) by done. lia.
  - rewrite decide_False; [by apply IH|]. intros E. apply Hni. rewrite <- E. by apply list_elem_of_fmap_2.
Qed.

(** An operation the executor can schedule, given those before it. *)
Record op_ready (ex : Executor) (pre : list json) (o : json) : Prop := {
  or_dict : is_dict o = true;
  or_release : fld o "release_ns" = JNull ∨ ∃ z, fld o "release_ns" = JInt z;
  or_delay : fld o "declared_delay_ns" = JNull ∨ ∃ z, fld o "declared_delay_ns" = JInt z;
  or_fresh : ∀ i o', pre !! i = Some o' → fld o' "op_id" ≠ fld o "op_id";
  or_row : ∀ base, ∃ r, make_row ex base o = Ok r ∧ fld o "op_id" = JStr (r_op_id r) ∧
    r_submit_ns r = None ∧ r_complete_ns r = None ∧
    ∀ d, d ∈ r_deps r → ∃ i o', pre !! i = Some o' ∧ fld o' "op_id" = JStr d
}.

Definition schedulable (ex : Executor) (ops : list json) : Prop :=
  ∀ s o, ops !! s = Some o → op_ready ex (take s ops) o.

Lemma release_base_total ex ops : schedulable ex ops → ∃ base, release_base ops = Ok base.
Proof.
  intros Hs. unfold release_base.
  assert (∀ o, o ∈ ops → ∃ l, (r ← get o "release_ns"; if is_none r then Ok [] else z ← as_int r; Ok [z]) = Ok l) as Hall.
  { intros o (s & Ho)%list_elem_of_lookup. destruct (Hs s o Ho) as [Hd Hr _ _ _].
    destruct o as [| | | | | |d]; try done. cbn [get]. cbn [fld] in Hr.
    destruct Hr as [->|(z & ->)]; cbn; eauto. }
  clear Hs. induction ops as [|o ops IH]; [by exists 0|].
  destruct (Hall o) as (l & El); [by left|]. destruct IH as (base & Eb); [intros; apply Hall; by right|].
  apply bind_Ok in Eb as (ls & Els & _). cbn [mapMR]. rewrite El. cbn [mbind res_bind].
  rewrite Els. cbn [mbind res_bind]. by eexists.
Qed.

Lemma make_rows_total ex ops base :
  schedulable ex ops → ∃ rows, mapMR (make_row ex base) ops = Ok rows.
Proof.
  intros Hs. assert (∀ o, o ∈ ops → ∃ r, make_row ex base o = Ok r) as Hall.
  { intros o (s & Ho)%list_elem_of_lookup. destruct (or_row _ _ _ (Hs s o Ho) base) as (r & ? & _). eauto. }
  clear Hs. induction ops as [|o ops IH]; [by exists []|].
  destruct (Hall o) as (r & Er); [by left|]. destruct IH as (rows & E); [intros; apply Hall; by right|].
  cbn [mapMR]. rewrite Er. cbn [mbind res_bind]. rewrite E. by eexists.
Qed.

Section prepare.
Variables (ex : Executor) (ops : list json) (base : Z) (rows : list Row).
Hypothesis Hsched : schedulable ex ops.
Hypothesis Hrows : mapMR (make_row ex base) ops = Ok rows.

Lemma row_at s o : ops !! s = Some o →
  ∃ r, rows !! s = Some r ∧ fld o "op_id" = JStr (r_op_id r) ∧ r_submit_ns r = None ∧ r_complete_ns r = None ∧
    ∀ d, d ∈ r_deps r → ∃ i o', (i < s)%nat ∧ ops !! i = Some o' ∧ fld o' "op_id" = JStr d.
Proof.
  intros Ho. pose proof Hrows as Hr. apply mapMR_Ok in Hr. destruct (Forall2_lookup_l _ _ _ _ _ Hr Ho) as (r & Hrs & Hmk).
  destruct (or_row _ _ _ (Hsched s o Ho) base) as (r' & Hmk' & Hid & Hsub & Hcomp & Hdeps).
  rewrite Hmk in Hmk'. apply Ok_inj in Hmk' as <-. exists r. split_and!; try done.
  intros d Hd. destruct (Hdeps d Hd) as (i & o' & Hi & Hid'). apply lookup_take_Some in Hi as [Hi Hlt].
  by exists i, o'.
Qed.

Lemma row_at_inv s r : rows !! s = Some r → ∃ o, ops !! s = Some o ∧ fld o "op_id" = JStr (r_op_id r).
Proof.
  intros Hr. pose proof Hrows as Hf. apply mapMR_Ok in Hf. destruct (Forall2_lookup_r _ _ _ _ _ Hf Hr) as (o & Ho & _).
  destruct (row_at s o Ho) as (r' & Hr' & Hid & _). exists o. split; [done|]. congruence.
Qed.

Lemma row_ids_nodup : NoDup (r_op_id <$> rows).
Proof.
  apply NoDup_alt. intros i j x Hi Hj. apply list_lookup_fmap_Some in Hi as (ri & -> & Hi).
  apply list_lookup_fmap_Some in Hj as (rj & Eid & Hj).
  destruct (row_at_inv i ri Hi) as (oi & Hoi & Hidi). destruct (row_at_inv j rj Hj) as (oj & Hoj & Hidj).
  destruct (Nat.lt_trichotomy i j) as [Hlt|[?|Hlt]]; [exfalso|done|exfalso].
  - apply (or_fresh _ _ _ (Hsched j oj Hoj) i oi); [by rewrite lookup_take_lt|congruence].
  - apply (or_fresh _ _ _ (Hsched i oi Hoi) j oj); [by rewrite lookup_take_lt|congruence].
Qed.

Definition the_plan : plan :=
  {| p_order := r_op_id <$> rows;
     p_by_id := fold_left (λ m ro, <[ r_op_id ro.1 := ro.2 ]> m) (zip rows ops) ∅;
     p_dependents := fold_left add_dependents rows ∅ |}.
Definition the_rows : gmap string Row := fold_left (λ m r, <[ r_op_id r := r ]> m) rows ∅.
Definition the_remaining : gmap string Z :=
  fold_left (λ m r, <[ r_op_id r := Z.of_nat (length (r_deps r)) ]> m) rows ∅.

Lemma the_rows_elem r : r ∈ rows → the_rows !! r_op_id r = Some r.
Proof. intros. apply (fold_insert_elem r_op_id id); [apply row_ids_nodup|done]. Qed.

Lemma the_rows_Some x r : the_rows !! x = Some r → r ∈ rows ∧ r_op_id r = x.
Proof. intros Hx. apply (fold_insert_Some r_op_id id) in Hx as (r' & ? & ? & <-); [done|apply row_ids_nodup]. Qed.

Lemma same_length : length rows = length ops.
Proof. pose proof Hrows as Hr. apply mapMR_Ok in Hr. by apply Forall2_length in Hr. Qed.

Lemma the_by_id s o r : ops !! s = Some o → rows !! s = Some r → p_by_id the_plan !! r_op_id r = Some o.
Proof.
  intros Ho Hr. unfold the_plan. cbn [p_by_id].
  assert ((λ ro : Row * json, r_op_id ro.1) <$> zip rows ops = r_op_id <$> rows) as Ek.
  { assert (((λ ro : Row * json, r_op_id ro.1) <$> zip rows ops) = r_op_id <$> (fst <$> zip rows ops)) as ->
      by (by rewrite <- list_fmap_compose).
    rewrite fst_zip; [done|]. rewrite same_length. done. }
  apply (fold_insert_elem (λ ro : Row * json, r_op_id ro.1) snd (zip rows ops) ∅ (r, o)); [rewrite Ek; apply row_ids_nodup|].
  apply list_elem_of_lookup. exists s. apply lookup_zip_Some. done.
Qed.

Lemma the_deps r : r ∈ rows → deps_of the_rows (r_op_id r) = r_deps r.
Proof. intros Hr. unfold deps_of. by rewrite the_rows_elem. Qed.

Lemma the_prepared : prepared ex the_plan the_rows the_remaining.
Proof.
  assert (∀ id, id ∈ p_order the_plan → ∃ s r, rows !! s = Some r ∧ r_op_id r = id) as Hord.
  { intros id (s & Hs)%list_elem_of_lookup. cbn in Hs. apply list_lookup_fmap_Some in Hs as (r & -> & Hr). eauto. }
  constructor.
  - apply row_ids_nodup.
  - intros id (s & r & Hr & <-)%Hord. destruct (row_at_inv s r Hr) as (o & Ho & _).
    destruct (row_at s o Ho) as (r' & Hr' & _ & ? & ? & _). rewrite Hr in Hr'. injection Hr' as <-.
    exists r. split_and!; try done. apply the_rows_elem. by eapply list_elem_of_lookup_2.
  - intros id [r Hr]. apply the_rows_Some in Hr as [Hr <-]. cbn. by apply list_elem_of_fmap_2.
  - intros id (s & r & Hr & <-)%Hord. apply list_elem_of_lookup_2 in Hr. rewrite the_deps by done.
    apply (fold_insert_elem r_op_id (λ r, Z.of_nat (length (r_deps r)))); [apply row_ids_nodup|done].
  - intros i id d Hi Hd. cbn in Hi |- *. apply list_lookup_fmap_Some in Hi as (r & -> & Hr).
    rewrite the_deps in Hd by (by eapply list_elem_of_lookup_2).
    destruct (row_at_inv i r Hr) as (o & Ho & _). destruct (row_at i o Ho) as (r' & Hr' & _ & _ & _ & Hdeps).
    rewrite Hr in Hr'. injection Hr' as <-. destruct (Hdeps d Hd) as (j & o' & Hj & Ho' & Hid').
    exists j. split; [done|]. destruct (row_at j o' Ho') as (r'' & Hr'' & Hid'' & _).
    rewrite list_lookup_fmap, Hr''. simpl. congruence.
  - intros d x. cbn [p_dependents the_plan]. rewrite dependents_occ, lookup_empty. simpl.
    destruct (the_rows !! x) as [r|] eqn:E.
    + apply the_rows_Some in E as [Hr <-]. rewrite the_deps by done. by apply edges_unique; [apply row_ids_nodup|].
    + unfold deps_of. rewrite E. simpl. unfold edges.
      assert (∀ r, r ∈ rows → x ≠ r_op_id r) as Hno.
      { intros r Hr ->. by rewrite the_rows_elem in E. }
      clear -Hno. induction rows as [|r l IH]; [done|]. simpl. rewrite decide_False by (apply Hno; by left).
      apply IH. intros; apply Hno; by right.
  - intros id (s & r & Hr & <-)%Hord. destruct (row_at_inv s r Hr) as (o & Ho & _).
    unfold delay_of. rewrite (the_by_id s o r Ho Hr). destruct (Hsched s o Ho) as [Hd _ Hdl _ _].
    destruct o as [| | | | | |dd]; try done. cbn [get mbind res_bind]. cbn [fld] in Hdl.
    destruct Hdl as [->|(z & ->)]; cbn; eauto.
Qed.
End prepare.

Lemma prepare_schedulable ex ops :
  operations_of (e_intent ex) = Ok ops → schedulable ex ops →
  ∃ base rows, mapMR (make_row ex base) ops = Ok rows ∧
    prepare ex = Ok (the_plan ops rows, the_rows rows, the_remaining rows).
Proof.
  intros Hops Hs. destruct (release_base_total ex ops Hs) as (base & Hb).
  destruct (make_rows_total ex ops base Hs) as (rows & Hr). exists base, rows. split; [done|].
  unfold prepare. rewrite Hops. cbn [mbind res_bind]. rewrite Hb. cbn [mbind res_bind]. by rewrite Hr.
Qed.

(** ** The run of a schedulable document *)

(** The row [r] of the operation [o] at the end of a run: it completed, and it
    was submitted after its prerequisites plus the delay [delay]. *)
Record finished (rows : list Row) (delay : Z) (o : json) (r : Row) : Prop := {
  fi_id : fld o "op_id" = JStr (r_op_id r);
  fi_times : ∃ e s c, r_eligible_ns r = Some e ∧ r_submit_ns r = Some s ∧ r_complete_ns r = Some c ∧ e ≤ s ∧
    ∀ d, d ∈ r_deps r → ∃ p c', p ∈ rows ∧ r_op_id p = d ∧ r_complete_ns p = Some c' ∧ c' + delay ≤ e
}.

Definition op_delay (dflt : Z) (o : json) : Z :=
  match fld o "declared_delay_ns" with JInt z => z | _ => dflt end.

(** [perform] on one operation. *)
Definition perform_op {B} `{Backend B} (ex : Executor) (b : B) (id : string) (o : json) : res (B * Outcome) :=
  if e_v3 ex then perform_v3 ex b o else perform_v2 ex b id o.

(** The rows [m] of the plan at the end of a run, listed in the order of the
    operations: each has finished. *)
Lemma rows_finished ex ops base rows0 (m : gmap string Row) rows :
  schedulable ex ops → mapMR (make_row ex base) ops = Ok rows0 → let pl := the_plan ops rows0 in
  (∀ id, id ∈ p_order pl → ∃ r e s c, m !! id = Some r ∧ r_op_id r = id ∧ r_deps r = deps_of (the_rows rows0) id ∧
    r_eligible_ns r = Some e ∧ r_submit_ns r = Some s ∧ r_complete_ns r = Some c ∧
    ready ex pl (the_rows rows0) m id e ∧ e ≤ s) →
  Forall2 (λ i r, m !! i = Some r) (p_order pl) rows →
  Forall2 (λ o r, finished rows (op_delay (e_delay ex) o) o r) ops rows.
Proof.
  intros Hsched Hrows pl Hall HF.
  assert (length rows = length ops) as Hlen.
  { apply Forall2_length in HF. rewrite <- HF. cbn. rewrite length_fmap. by apply (same_length ex ops base). }
  apply Forall2_same_length_lookup_2; [done|]. intros s o r Ho Hr.
  destruct (row_at ex ops base rows0 Hsched Hrows s o Ho) as (r0 & Hr0 & Hid & _).
  assert (p_order pl !! s = Some (r_op_id r0)) as Hs by (cbn; rewrite list_lookup_fmap, Hr0; done).
  destruct (Forall2_lookup_l _ _ _ _ _ HF Hs) as (r1 & Hr1 & Hst). rewrite Hr in Hr1. injection Hr1 as <-.
  destruct (Hall (r_op_id r0)) as (r2 & e & sb & c & Hr2 & Hid2 & Hdeps & He & Hsb & Hc & [_ Hready] & Hle);
    [by eapply list_elem_of_lookup_2|].
  rewrite Hst in Hr2. injection Hr2 as <-.
  constructor; [congruence|]. exists e, sb, c. split_and!; try done.
  intros d Hd. rewrite Hdeps in Hd. destruct (Hready d Hd) as (p & c' & delay & Hp & Hcp & Hdel & Hled).
  assert (∃ j, p_order pl !! j = Some d) as (j & Hj).
  { destruct (pr_backward _ _ _ _ (the_prepared ex ops base rows0 Hsched Hrows) s _ d Hs Hd) as (j & _ & ?). eauto. }
  destruct (Forall2_lookup_l _ _ _ _ _ HF Hj) as (p' & Hp' & Hsp). rewrite Hp in Hsp. injection Hsp as <-.
  exists p, c'. split_and!; try done; [by eapply list_elem_of_lookup_2| |].
  - destruct (Hall d) as (p2 & _ & _ & _ & Hp2 & ? & _); [by eapply list_elem_of_lookup_2|]. congruence.
  - unfold delay_of in Hdel. unfold pl in Hdel. rewrite (the_by_id ex ops base rows0 Hsched Hrows s o r0 Ho Hr0) in Hdel.
    destruct (Hsched s o Ho) as [Hdict _ Hdl _ _]. destruct o as [| | | | | |dd]; try done.
    unfold op_delay. cbn [fld] in Hdl |- *. cbn [get mbind res_bind] in Hdel.
    destruct Hdl as [E|(z & E)]; rewrite E in *; cbn in Hdel; apply Ok_inj in Hdel; subst; done.
Qed.

Section complete_run.
Context {B : Type} `{Backend B}.
Variables (ex : Executor) (ops : list json) (b b1 : B).
Hypothesis Hops : operations_of (e_intent ex) = Ok ops.
Hypothesis Hsched : schedulable ex ops.
Hypothesis Hworkers : 1 ≤ e_workers ex.
Variable good : B → Prop.
Hypothesis Hinit : bk_initialize (e_intent ex) b = Ok b1.
Hypothesis Hgood : good b1.
Hypothesis Hperf : ∀ b' id o, good b' → o ∈ ops → fld o "op_id" = JStr id →
  ∃ b'' out, perform_op ex b' id o = Ok (b'', out) ∧ good b''.
Hypothesis Hclose : ∀ b', good b' → ∃ b'', bk_close b' = Ok b'' ∧ good b''.

Lemma execute_finishes :
  ∃ rows now b2, execute ex b = Ok (rows, now, b2) ∧ good b2 ∧
    Forall2 (λ o r, finished rows (op_delay (e_delay ex) o) o r) ops rows.
Proof.
  destruct (prepare_schedulable ex ops Hops Hsched) as (base & rows0 & Hrows & Hprep).
  unfold execute. rewrite Hprep. cbn [mbind res_bind]. rewrite Hinit. cbn [mbind res_bind].
  set (pl := the_plan ops rows0).
  destruct (run_simulated_completes ex pl (the_rows rows0) good (the_remaining rows0)
    (the_prepared ex ops base rows0 Hsched Hrows) Hworkers) with (b := b1) as (st & Est & Hg & Hall); [|done|].
  { intros b' id Hb' (s & Hs)%list_elem_of_lookup. cbn in Hs. apply list_lookup_fmap_Some in Hs as (r & -> & Hr).
    destruct (row_at_inv ex ops base rows0 Hsched Hrows s r Hr) as (o & Ho & Hid).
    unfold perform, pl. rewrite (the_by_id ex ops base rows0 Hsched Hrows s o r Ho Hr).
    apply Hperf; [done|by eapply list_elem_of_lookup_2|done]. }
  rewrite Est. cbn [mbind res_bind]. destruct (Hclose _ Hg) as (b2 & -> & Hg2). cbn [mbind res_bind].
  destruct (mapMR_total (λ i, match s_rows st !! i with Some r => Ok r | None => KeyErr end)
    (λ i r, s_rows st !! i = Some r) (p_order pl)) as (rows & Er & HF).
  { intros i Hi. destruct (Hall i Hi) as (r & _ & _ & _ & Hr & _). rewrite Hr. eauto. }
  rewrite Er. cbn [mbind res_bind]. eexists rows, _, _. split; [done|]. split; [done|].
  by apply (rows_finished ex ops base rows0 (s_rows st)).
Qed.

(** A finished ledger passes [check_dependencies]. *)
Lemma finished_no_violations rows :
  Forall2 (λ o r, finished rows (op_delay (e_delay ex) o) o r) ops rows →
  check_dependencies rows (e_intent ex) (e_delay ex) = Ok [].
Proof.
  intros HF. unfold check_dependencies. rewrite Hops. cbn [mbind res_bind].
  assert (NoDup (r_op_id <$> rows)) as Hnd.
  { apply NoDup_alt. intros i j x Hi Hj. apply list_lookup_fmap_Some in Hi as (ri & -> & Hi).
    apply list_lookup_fmap_Some in Hj as (rj & Eid & Hj).
    destruct (Forall2_lookup_r _ _ _ _ _ HF Hi) as (oi & Hoi & [Hidi _]).
    destruct (Forall2_lookup_r _ _ _ _ _ HF Hj) as (oj & Hoj & [Hidj _]).
    destruct (Nat.lt_trichotomy i j) as [Hlt|[?|Hlt]]; [exfalso|done|exfalso].
    - apply (or_fresh _ _ _ (Hsched j oj Hoj) i oi); [by rewrite lookup_take_lt|congruence].
    - apply (or_fresh _ _ _ (Hsched i oi Hoi) j oj); [by rewrite lookup_take_lt|congruence]. }
  match goal with |- (mapMR ?f ops ≫= _) = _ => assert (mapMR f ops = Ok (replicate (length ops) [])) as -> end.
  { apply mapMR_const. apply Forall_forall. intros o Ho. apply list_elem_of_lookup in Ho as (s & Ho).
    destruct (Forall2_lookup_l _ _ _ _ _ HF Ho) as (r & Hr & [Hid (e & sb & c & _ & Hsb & _ & Hle & Hdeps)]).
    destruct (Hsched s o Ho) as [Hdict _ Hdl _ _]. destruct o as [| | | | | |dd]; try done.
    rewrite item_getd by (cbn in Hid; congruence). cbn [fld] in Hid. rewrite Hid. cbn [mbind res_bind as_str].
    pose proof (list_elem_of_lookup_2 _ _ _ Hr) as Hin.
    rewrite (fold_insert_elem r_op_id (λ r, r) rows ∅ r) by done. rewrite Hsb. cbn [get mbind res_bind].
    assert ((if is_none (getd dd "declared_delay_ns") then Ok (e_delay ex) else as_int (getd dd "declared_delay_ns"))
      = Ok (op_delay (e_delay ex) (JObj dd))) as ->.
    { unfold op_delay. cbn [fld] in Hdl |- *. destruct Hdl as [->|(z & ->)]; done. }
    cbn [mbind res_bind]. match goal with |- (mapMR ?g _ ≫= _) = _ =>
      assert (mapMR g (r_deps r) = Ok (replicate (length (r_deps r)) [])) as -> end.
    { apply mapMR_const. apply Forall_forall. intros d Hd. destruct (Hdeps d Hd) as (p & c' & Hp & <- & Hc & Hle').
      rewrite (fold_insert_elem r_op_id (λ r, r) rows ∅ p) by done. rewrite Hc.
      destruct (Z.ltb_spec sb (c' + op_delay (e_delay ex) (JObj dd))); [lia|done]. }
    cbn [mbind res_bind]. f_equal. generalize (length (r_deps r)). intros n. by induction n. }
  cbn [mbind res_bind]. f_equal. generalize (length ops). intros n. by induction n.
Qed.
End complete_run.

(** ** v2 documents *)
Lemma dget_getd (d : dict) k v : dget k d = Some v → getd d k = v.
Proof. unfold getd. by intros ->. Qed.

Lemma getd_dget d k : getd d k ≠ JNull → dget k d = Some (getd d k).
Proof. unfold getd. by destruct (dget k d). Qed.

Lemma isdigit_not_none : isdigit "None" = false.
Proof. done. Qed.

(** A validated v2 document is schedulable. *)
Lemma v2_schedulable ex d :
  e_intent ex = JObj d → e_v3 ex = false → intent2_sound d →
  ∃ ops, operations_of (JObj d) = Ok ops ∧ getd d "operations" = JList ops ∧ schedulable ex ops.
Proof.
  intros Hex Hv3 [_ (reps & objects & items & live & ops & Er & Eo & El & Eops & _ & Hver & _ & _ & Hops)].
  exists ops. split; [unfold operations_of; rewrite item_getd by congruence; by rewrite Eops|]. split; [done|].
  intros s o Ho. destruct (Hops s o Ho) as [(id & Hid & Hidne & Hfresh) (k & entry & Hoid & Hv & Hent & _ & _)
    (deps & Hdeps & Hback) ((verb & Hverb & _) & (rb & Hrb & _) & Hrel & Hdl)].
  assert (∃ dd, o = JObj dd) as (dd & ->) by (destruct o; try done; eauto). cbn [fld] in *.
  assert (getd dd "version" ≠ JNull) as Hvn.
  { intros E. rewrite E in Hv. cbn in Hv. rewrite <- Hv in Hent.
    destruct (fld (getd objects k.1) "versions") as [| | | | | |vd] eqn:Evd; try done. cbn in Hent.
    assert (dget k.1 objects = Some (getd objects k.1)) as Hk.
    { apply getd_dget. intros E'. by rewrite E' in Evd. }
    destruct (Hver k.1 (getd objects k.1) "None" entry) as [Hdig _]; [by apply dget_Some_In| |by rewrite isdigit_not_none in Hdig].
    rewrite Evd. by apply dget_Some_In. }
  constructor.
  - done.
  - destruct Hrel as [?|(z & ? & _)]; [by left|right; by exists z].
  - destruct Hdl as [?|(z & ? & _)]; [by left|right; by exists z].
  - intros i o' Hi. cbn [fld]. rewrite Hid. by eapply Hfresh.
  - intros base.
    destruct (mapMR_total as_str (λ x y, x = JStr y) deps) as (ds & Hds & HF).
    { intros x Hx. destruct (Hback x Hx) as (_ & _ & y & _ & _ & ->). by exists y. }
    unfold make_row. rewrite Hv3. cbn [get mbind res_bind].
    assert (∃ rel, (if String.eqb (e_profile ex) "offered" && negb (is_none (getd dd "release_ns"))
      then z ← as_int (getd dd "release_ns"); Ok (z - base) else Ok 0) = Ok rel) as (rel & ->).
    { destruct (_ && _) eqn:E; [|by eexists]. destruct Hrel as [En|(z & -> & _)]; [|by eexists].
      rewrite En in E. by rewrite andb_false_r in E. }
    cbn [mbind res_bind].
    rewrite (item_getd dd "op_id") by congruence. rewrite Hid. cbn [mbind res_bind as_str].
    rewrite (item_getd dd "op"), (item_getd dd "object_id"), (item_getd dd "version"),
      (item_getd dd "requested_bytes"), (item_getd dd "deps") by congruence.
    cbn [mbind res_bind]. rewrite Hdeps. cbn [iterate mbind res_bind]. rewrite Hds. cbn [mbind res_bind].
    eexists. split; [done|]. cbn [r_op_id r_submit_ns r_complete_ns r_deps fld]. split_and!; try done.
    intros x (i & Hx)%list_elem_of_lookup. destruct (Forall2_lookup_r _ _ _ _ _ HF Hx) as (y & Hy & ->).
    destruct (Hback (JStr x)) as (j & o' & _ & Hj & Hid' & _); [by eapply list_elem_of_lookup_2|]. by exists j, o'.
Qed.

(** ** The in-memory backend *)

(** Versions as documents write them: an integer or a string. *)
Definition simple_version (v : json) : Prop := (∃ z, v = JInt z) ∨ (∃ s, v = JStr s).

Lemma object_key_simple o v : simple_version v → ∃ k, object_key (JStr o) v = Ok k.
Proof.
  intros [(z & ->)|(s & ->)]; unfold object_key; cbn; [destruct (odd_part z 0)|]; cbn; eauto.
Qed.

(** A key determines the names that are hashed into the content. *)
Lemma object_key_inj o v o' v' k :
  simple_version v → simple_version v' →
  object_key (JStr o) v = Ok k → object_key (JStr o') v' = Ok k → o = o' ∧ py_str v = py_str v'.
Proof.
  unfold object_key. cbn [hkey_of mbind res_bind]. intros Hv Hv' H1 H2.
  apply bind_Ok in H1 as (k1 & E1 & H1). apply Ok_inj in H1 as <-.
  apply bind_Ok in H2 as (k2 & E2 & H2). apply Ok_inj in H2 as [= <- <-]. split; [done|].
  destruct Hv as [(z & ->)|(s & ->)], Hv' as [(z' & ->)|(s' & ->)].
  - by rewrite (hkey_int_inj z z') by (by rewrite E1, E2).
  - cbn in E1, E2. destruct (odd_part z 0). apply Ok_inj in E1, E2. congruence.
  - cbn in E1, E2. destruct (odd_part z' 0). apply Ok_inj in E1, E2. congruence.
  - cbn in E1, E2. apply Ok_inj in E1, E2. congruence.
Qed.

Section fake_correct.
Variable blake2b : string → nat → bytes.
Hypothesis digest_size : ∀ s n, (1 ≤ n ≤ 64)%nat → length (blake2b s n) = n.

(** Every stored object holds its synthetic content. *)
Definition holds_content (b : FakeBackend) : Prop :=
  fb_profile b = None ∧
  ∀ k data, fb_objects b !! k = Some data → ∃ o v size, object_key (JStr o) v = Ok k ∧ simple_version v ∧
    0 ≤ size ∧ data = synthetic_bytes blake2b o (py_str v) 0 size.

Lemma synthetic_slice o v size off len :
  0 ≤ size → 0 ≤ off → 0 ≤ len →
  let chunk := slice (synthetic_bytes blake2b o v 0 size) off (off + len) in
  chunk = synthetic_bytes blake2b o v off (Z.of_nat (length chunk)) ∧
  Z.of_nat (length chunk) = Z.max 0 (Z.min len (size - off)).
Proof using digest_size.
  intros Hs Ho Hl chunk. unfold chunk. rewrite !synthetic_bytes_at by (done || lia).
  assert (length (slice (synth_at blake2b o v <$> seqZ 0 size) off (off + len)) = Z.to_nat (Z.max 0 (Z.min len (size - off)))) as El.
  { unfold slice. destruct (Z.ltb_spec (off + len) 0); [lia|].
    rewrite length_take, length_drop, length_fmap, length_seqZ. lia. }
  rewrite El, Z2Nat.id by lia. split; [|done].
  set (n := Z.max 0 (Z.min len (size - off))). destruct (decide (n = 0)) as [E|E].
  - rewrite E, (seqZ_nil off 0) by lia. apply length_zero_iff_nil. rewrite El. lia.
  - rewrite <- (slice_fmap_seqZ (synth_at blake2b o v) size off n) by lia.
    unfold slice. destruct (Z.ltb_spec (off + len) 0), (Z.ltb_spec (off + n) 0); try lia.
    destruct (decide (len = n)) as [E1|Hne]; [by rewrite E1|].
    rewrite !take_ge; [done|rewrite length_drop, length_fmap, length_seqZ; lia..].
Qed.

Lemma holds_insert b k o v size :
  holds_content b → object_key (JStr o) v = Ok k → simple_version v → 0 ≤ size →
  holds_content (fb_with_objects b (<[ k := synthetic_bytes blake2b o (py_str v) 0 size ]> (fb_objects b))).
Proof using.
  intros [Hp Hc] Hk Hv Hs. split; [done|]. intros k' data. cbn [fb_objects fb_with_objects].
  intros [[<- <-]|[_ H]]%lookup_insert_Some; [by exists o, v, size|by apply Hc].
Qed.

(** A load never reports a content mismatch: it misses, or returns the part of
    the range inside the object. *)
Lemma fake_load_spec b o v off len ob id :
  holds_content b → simple_version v → 0 ≤ off → 0 ≤ len →
  ∃ b' out, fake_load blake2b b (JStr o) v off len ob id = Ok (b', out) ∧ holds_content b' ∧
    (forced b id = None → ∀ k, object_key (JStr o) v = Ok k →
     match fb_objects b !! k with
     | None => out = mkOutcome "miss" 0 ""
     | Some data => let n := Z.max 0 (Z.min len (Z.of_nat (length data) - off)) in
         out = if n <? len then mkOutcome "short" n "" else mkOutcome "success" n ""
     end).
Proof using digest_size.
  intros [Hp Hc] Hv Ho Hl. unfold fake_load. change (forced (fb_record b _) id) with (forced b id).
  destruct (forced b id) as [st|] eqn:Ef; [by eexists _, _|].
  destruct (object_key_simple o v Hv) as (k & Hk). rewrite Hk. cbn [mbind res_bind fb_objects fb_record].
  destruct (fb_objects b !! k) as [data|] eqn:Ed.
  - destruct (Hc k data Ed) as (o' & v' & size & Hk' & Hv' & Hs & ->).
    destruct (object_key_inj o v o' v' k Hv Hv' Hk Hk') as [<- Epy]. rewrite <- Epy in Ed |- *.
    destruct (synthetic_slice o (py_str v) size off len Hs Ho Hl) as [Echunk Elen].
    set (chunk := slice _ _ _) in *. cbn [fb_verify fb_profile fb_record]. rewrite Hp. unfold payload. cbn [py_str].
    assert ((if fb_verify b then Ok (negb (bool_decide (chunk =
      synthetic_bytes blake2b o (py_str v) off (Z.of_nat (length chunk))))) else Ok false) = Ok false) as Ev.
    { destruct (fb_verify b); [|done]. by rewrite bool_decide_eq_true_2. }
    cbn [mbind res_bind]. rewrite Ev. cbn [mbind res_bind].
    eexists _, _. split; [done|]. split; [done|]. intros _ k0 Hk0. apply Ok_inj in Hk0 as <-. rewrite Ed.
    assert (Z.of_nat (length (synthetic_bytes blake2b o (py_str v) 0 size)) = size) as ->
      by (rewrite synthetic_bytes_at, length_fmap, length_seqZ by (done || lia); lia).
    by rewrite Elen.
  - eexists _, _. split; [done|]. split; [done|]. intros _ k0 Hk0. apply Ok_inj in Hk0 as <-. by rewrite Ed.
Qed.

Lemma fake_store_spec b o v size id :
  holds_content b → simple_version v → 0 ≤ size →
  ∃ b' out, fake_store b (JStr o) v (synthetic_bytes blake2b o (py_str v) 0 size) id = Ok (b', out) ∧ holds_content b'.
Proof using.
  intros Hb Hv Hs. unfold fake_store. destruct (forced _ _); [by eexists _, _|].
  destruct (object_key_simple o v Hv) as (k & Hk). rewrite Hk. cbn [mbind res_bind].
  destruct (_ !! k); eexists _, _; (split; [done|]); [done|]. by apply (holds_insert (fb_record b _)).
Qed.

Lemma fake_release_spec b o v id :
  holds_content b → simple_version v →
  ∃ b' out, fake_release b (JStr o) v id = Ok (b', out) ∧ holds_content b'.
Proof using.
  intros Hb Hv. unfold fake_release. destruct (forced _ _); [by eexists _, _|].
  destruct (object_key_simple o v Hv) as (k & Hk). rewrite Hk. cbn [mbind res_bind].
  destruct (_ !! k); eexists _, _; (split; [done|]); [|done].
  destruct Hb as [Hp Hc]. split; [done|]. intros k' data. cbn.
  intros [_ H]%lookup_delete_Some. by apply Hc.
Qed.
End fake_correct.

(** ** A v2 document against the in-memory backend *)
Definition simpleb (v : json) : bool := match v with JInt _ | JStr _ => true | _ => false end.

Lemma simpleb_simple v : simpleb v = true → simple_version v.
Proof. unfold simple_version. destruct v; try done; eauto. Qed.

(** Sizes are integers and versions integers or strings, as in documents that
    went through the builders. *)
Definition plain_intent2 (intent : json) : bool :=
  forallb (λ kv, forallb (λ vv, match fld vv.2 "bytes" with JInt z => 0 <=? z | _ => false end)
                   (as_dict (fld kv.2 "versions"))) (as_dict (fld intent "objects")) &&
  forallb (λ o, simpleb (fld o "version")) (as_list (fld intent "operations")) &&
  forallb (λ i, simpleb (fld i "version")) (as_list (fld (fld intent "initial_state") "live")).

Section v2_run.
Variable blake2b : string → nat → bytes.
Hypothesis digest_size : ∀ s n, (1 ≤ n ≤ 64)%nat → length (blake2b s n) = n.
#[local] Instance the_backend : Backend FakeBackend := fake_backend blake2b.

Variables (ex : Executor) (d : dict).
Hypothesis Hex : e_intent ex = JObj d.
Hypothesis Hv3 : e_v3 ex = false.
Hypothesis Hsound : intent2_sound d.
Hypothesis Hplain : plain_intent2 (JObj d) = true.

Lemma plain_size oid v entry :
  dget v (as_dict (fld (getd (as_dict (getd d "objects")) oid) "versions")) = Some entry →
  ∃ z, fld entry "bytes" = JInt z ∧ 0 ≤ z.
Proof using Hplain.
  intros Hg. pose proof Hplain as Hp. unfold plain_intent2 in Hp.
  apply andb_true_iff in Hp as [Hp _]. apply andb_true_iff in Hp as [Hp _]. cbn [fld] in Hp.
  rewrite forallb_forall in Hp. set (objs := as_dict (getd d "objects")) in *.
  assert (dget oid objs = Some (getd objs oid)) as Ho.
  { apply getd_dget. intros E. by rewrite E in Hg. }
  apply dget_Some_In, list_elem_of_In, Hp in Ho. cbn [snd] in Ho. rewrite forallb_forall in Ho.
  apply dget_Some_In, list_elem_of_In, Ho in Hg. cbn [snd] in Hg.
  destruct (fld entry "bytes") as [| |z| | | |]; try done. apply Z.leb_le in Hg. by exists z.
Qed.

Lemma fetch_version o v entry (dd : dict) :
  getd dd "object_id" = JStr o → getd dd "version" ≠ JNull → py_str (getd dd "version") = v →
  dget v (as_dict (fld (getd (as_dict (getd d "objects")) o) "versions")) = Some entry →
  ∃ objs od vs, item (JObj d) "objects" = Ok objs ∧ item objs o = Ok od ∧ item od "versions" = Ok vs ∧
    item vs v = Ok entry.
Proof using.
  intros Ho Hvn Hv He. destruct (getd d "objects") as [| | | | | |objs] eqn:Eo; try done. cbn [as_dict] in He.
  destruct (getd objs o) as [| | | | | |od] eqn:Eod; try done. cbn [fld] in He.
  destruct (getd od "versions") as [| | | | | |vs] eqn:Evs; try done. cbn [as_dict] in He.
  exists (JObj objs), (JObj od), (JObj vs).
  rewrite item_getd, item_getd, item_getd by congruence. rewrite Eo, Eod, Evs.
  cbn [item]. by rewrite He.
Qed.

Lemma perform_v2_total b id o :
  holds_content blake2b b → o ∈ as_list (getd d "operations") → fld o "op_id" = JStr id →
  ∃ b' out, perform_op ex b id o = Ok (b', out) ∧ holds_content blake2b b'.
Proof using Hex Hv3 Hsound Hplain digest_size.
  intros Hb Hin Hid. unfold perform_op. rewrite Hv3.
  destruct Hsound as [_ (reps & objects & items & live & ops & Er & Eo & El & Eops & _ & _ & _ & _ & Hops)].
  rewrite Eops in Hin. cbn in Hin. pose proof Hin as (s & Hs)%list_elem_of_lookup.
  destruct (Hops s o Hs) as [_ ([ko kv] & entry & Hoid & Hver & Hent & Hrng & _) _ ((verb & Hverb & Hvin) & _)].
  assert (∃ dd, o = JObj dd) as (dd & ->) by (destruct o; try done; eauto). cbn [fld fst snd] in *.
  assert (simple_version (getd dd "version")) as Hsv.
  { pose proof Hplain as Hp. unfold plain_intent2 in Hp. apply andb_true_iff in Hp as [Hp _].
    apply andb_true_iff in Hp as [_ Hp]. rewrite forallb_forall in Hp. apply simpleb_simple.
    apply (Hp (JObj dd)). cbn [fld]. rewrite Eops. by apply list_elem_of_In. }
  assert (getd dd "version" ≠ JNull) as Hvn by (by destruct Hsv as [(? & ->)|(? & ->)]).
  assert (objects = as_dict (getd d "objects")) as Eobj by (by rewrite Eo). rewrite Eobj in Hent.
  destruct (plain_size _ _ _ Hent) as (size & Hsize & Hs0).
  destruct (fetch_version ko kv entry dd Hoid Hvn Hver Hent) as (objs & od & vs & I1 & I2 & I3 & I4).
  unfold perform_v2. cbn [get mbind res_bind]. destruct (e_cancelled_skip ex && _); [by eexists _, _|].
  rewrite (item_getd dd "object_id"), (item_getd dd "version"), Hoid by congruence. cbn [mbind res_bind as_str].
  rewrite Hex, I1. cbn [mbind res_bind]. rewrite I2. cbn [mbind res_bind]. rewrite I3. cbn [mbind res_bind].
  rewrite Hver, I4. cbn [mbind res_bind].
  assert (item entry "bytes" = Ok (JInt size)) as ->.
  { destruct entry as [| | | | | |en]; try done. cbn [fld] in Hsize. rewrite item_getd by congruence. by rewrite Hsize. }
  cbn [mbind res_bind as_int]. rewrite (item_getd dd "op"), Hverb by congruence. cbn [mbind res_bind].
  destruct (eq_str (JStr verb) "store"); [|destruct (eq_str (JStr verb) "load") eqn:Eload].
  - cbn [bk_payload bk_store the_backend fake_backend]. unfold payload. destruct Hb as [Hp Hc]. rewrite Hp.
    cbn [mbind res_bind]. change (py_str (JStr ko)) with ko. by apply fake_store_spec.
  - unfold py_or.
    assert (getd dd "range" = JNull ∨ getd dd "range" ≠ JNull) as [En|Hrn]
      by (destruct (getd dd "range"); first [by left|by right]).
    + rewrite En. cbn [get mbind res_bind py_true].
      change (item (JObj [("offset", JInt 0); ("length", JInt size)]) "length") with (Ok (JInt size) : res json).
      cbn [mbind res_bind as_int]. unfold bytearray. destruct (Z.ltb_spec size 0); [lia|]. cbn [raise_if mbind res_bind].
      change (item (JObj [("offset", JInt 0); ("length", JInt size)]) "offset") with (Ok (JInt 0) : res json).
      destruct (fake_load_spec blake2b digest_size b ko (getd dd "version") 0 size size id) as (b' & out & E & ? & _);
        [done|done|lia|lia|]. by exists b', out.
    + destruct (Hrng Hrn) as [_ (off & ln & Hoff & Hln & ? & ? & _)].
      destruct (getd dd "range") as [| | | | | |rd]; try done. cbn [fld] in Hoff, Hln.
      destruct rd as [|kv0 rd]; [done|]. cbn [py_true]. rewrite (item_getd _ "length") by congruence. rewrite Hln.
      cbn [mbind res_bind as_int]. unfold bytearray. destruct (Z.ltb_spec ln 0); [lia|]. cbn [raise_if mbind res_bind].
      rewrite item_getd by congruence. rewrite Hoff. cbn [mbind res_bind as_int].
      destruct (fake_load_spec blake2b digest_size b ko (getd dd "version") off ln size id) as (b' & out & E & ? & _);
        [done|done|lia|lia|]. by exists b', out.
  - by apply fake_release_spec.
Qed.

Lemma initialize_total b :
  holds_content blake2b b → ∃ b1, bk_initialize (JObj d) b = Ok b1 ∧ holds_content blake2b b1.
Proof using Hsound Hplain.
  intros Hb. destruct Hsound as [Hsch (reps & objects & items & live & ops & Er & Eo & El & Eops & _ & _ & Hlive & _)].
  cbn [bk_initialize the_backend fake_backend]. unfold fake_initialize, initial_objects. cbn [get mbind res_bind].
  rewrite Hsch. change (eq_str (JStr SCHEMA2) SCHEMA3) with false. cbv iota.
  destruct (getd d "initial_state") as [| | | | | |ini] eqn:Eis; try done. cbn [fld] in El.
  rewrite (item_getd d "initial_state") by congruence. rewrite Eis. cbn [mbind res_bind].
  rewrite (item_getd ini "live") by congruence. rewrite El. cbn [mbind res_bind iterate].
  match goal with |- context [mapMR ?f items] =>
    destruct (mapMR_total f (λ _ t, ∃ o v z, t = (JStr o, v, JInt z) ∧ simple_version v ∧ 0 ≤ z) items) as (objs & -> & HF) end.
  { intros it Hit. destruct (Hlive it Hit) as ([ko kv] & entry & Hoid & Hver & Hent).
    assert (∃ dd, it = JObj dd) as (dd & ->) by (destruct it; try done; eauto). cbn [fld fst snd] in *.
    assert (simple_version (getd dd "version")) as Hsv.
    { pose proof Hplain as Hp. unfold plain_intent2 in Hp. apply andb_true_iff in Hp as [_ Hp].
      rewrite forallb_forall in Hp. apply simpleb_simple, (Hp (JObj dd)). cbn [fld]. rewrite Eis. cbn [fld].
      rewrite El. by apply list_elem_of_In. }
    assert (getd dd "version" ≠ JNull) as Hvn by (by destruct Hsv as [(? & ->)|(? & ->)]).
    assert (objects = as_dict (getd d "objects")) as Eobj by (by rewrite Eo). rewrite Eobj in Hent.
    destruct (plain_size _ _ _ Hent) as (size & Hsize & Hs0).
    destruct (fetch_version ko kv entry dd Hoid Hvn Hver Hent) as (ob & od & vs & I1 & I2 & I3 & I4).
    rewrite (item_getd dd "object_id"), (item_getd dd "version"), Hoid by congruence. cbn [mbind res_bind as_str].
    rewrite I1. cbn [mbind res_bind]. rewrite I2. cbn [mbind res_bind]. rewrite I3. cbn [mbind res_bind].
    rewrite Hver, I4. cbn [mbind res_bind].
    assert (item entry "bytes" = Ok (JInt size)) as ->.
    { destruct entry as [| | | | | |en]; try done. cbn [fld] in Hsize. rewrite item_getd by congruence. by rewrite Hsize. }
    eexists. split; [done|]. by exists ko, (getd dd "version"), size. }
  cbn [mbind res_bind]. clear -Hb HF. revert b Hb. induction HF as [|it t items objs (o & v & z & -> & Hv & Hz) _ IH]; intros b Hb.
  - by exists b.
  - cbn [foldM as_int mbind res_bind]. unfold payload. destruct Hb as [Hp Hc]. rewrite Hp. cbn [mbind res_bind].
    destruct (object_key_simple o v Hv) as (k & Hk). rewrite Hk. cbn [mbind res_bind].
    apply IH. apply (holds_insert blake2b b); [by split|done..].
Qed.
End v2_run.

(** ** The promise of a backend and what the executor makes of it *)

(** A backend serves a list of operations under an invariant [good]: it can be
    initialized and closed, and no operation raises or breaks the invariant. *)
Class Serves {B} `{Backend B} (ex : Executor) (ops : list json) (good : B → Prop) : Prop := {
  serves_initialize : ∀ b, good b → ∃ b1, bk_initialize (e_intent ex) b = Ok b1 ∧ good b1;
  serves_perform : ∀ b id o, good b → o ∈ ops → fld o "op_id" = JStr id →
    ∃ b' out, perform_op ex b id o = Ok (b', out) ∧ good b';
  serves_close : ∀ b, good b → ∃ b', bk_close b = Ok b' ∧ good b'
}.

(** The in-memory backend serves every plain v2 document. *)
Lemma fake_serves blake2b ex d ops :
  (∀ s n, (1 ≤ n ≤ 64)%nat → length (blake2b s n) = n) →
  e_intent ex = JObj d → e_v3 ex = false → intent2_sound d → plain_intent2 (JObj d) = true →
  getd d "operations" = JList ops →
  @Serves FakeBackend (fake_backend blake2b) ex ops (holds_content blake2b).
Proof.
  intros Hd Hex Hv3 Hs Hp Hops. constructor.
  - intros b Hb. rewrite Hex. by apply (initialize_total blake2b d Hs Hp).
  - intros b id o Hb Hin Hid. apply (perform_v2_total blake2b Hd ex d Hex Hv3 Hs Hp); [done| |done].
    by rewrite Hops.
  - intros b Hb. by exists b.
Qed.

(** The end of a run: one finished row per operation, nothing out of order. *)
Definition run_complete (ex : Executor) (ops : list json) (rows : list Row) : Prop :=
  Forall2 (λ o r, finished rows (op_delay (e_delay ex) o) o r) ops rows ∧
  check_dependencies rows (e_intent ex) (e_delay ex) = Ok [].

Lemma execute_serves {B} `{Backend B} ex ops (good : B → Prop) `{!Serves ex ops good} b :
  operations_of (e_intent ex) = Ok ops → schedulable ex ops → 1 ≤ e_workers ex → good b →
  ∃ rows now b2, execute ex b = Ok (rows, now, b2) ∧ good b2 ∧ run_complete ex ops rows.
Proof.
  intros Hops Hs Hw Hb. destruct (serves_initialize b Hb) as (b1 & Hi & Hb1).
  destruct (execute_finishes ex ops b b1 Hops Hs Hw good Hi Hb1) as (rows & now & b2 & E & Hg & HF).
  { intros. by apply serves_perform. }
  { apply serves_close. }
  exists rows, now, b2. split; [done|]. split; [done|]. split; [done|]. by apply (finished_no_violations ex ops).
Qed.

(** C1: on any backend that serves the operations, a simulated run ends within
    its bound on iterations; every operation has completed, and none was
    submitted before each of its prerequisites had completed and the declared
    delay had passed, so the dependency check finds no violation. *)
Theorem execute_completes {B} `{Backend B} ex ops (good : B → Prop) `{!Serves ex ops good} b :
  operations_of (e_intent ex) = Ok ops → schedulable ex ops → 1 ≤ e_workers ex → good b →
  ∃ rows now b2, execute ex b = Ok (rows, now, b2) ∧ good b2 ∧ run_complete ex ops rows.
Proof. apply execute_serves. done. Qed.

Lemma make_executor_v2 {B} `{Backend B} intent (b : B) prof mode workers delay skip cont ex b0 :
  make_executor intent b prof mode workers delay skip cont = Ok (ex, b0) → validate_intent2 intent = Ok tt →
  b0 = b ∧ e_intent ex = intent ∧ e_v3 ex = false ∧ e_delay ex = delay ∧ 1 ≤ e_workers ex.
Proof.
  intros Hm Hv. apply validate_intent2_Ok in Hv as (d & -> & Hs). unfold make_executor in Hm.
  rewrite (i2_schema _ Hs) in Hm. change (eq_str (JStr SCHEMA2) SCHEMA3) with false in Hm.
  apply bind_Ok in Hm as (u & _ & Hm). apply bind_Ok in Hm as (p & _ & Hm). apply bind_Ok in Hm as (u' & _ & Hm).
  apply bind_Ok in Hm as (prov & _ & Hm). apply bind_Ok in Hm as (tm & _ & Hm).
  apply bind_Ok in Hm as (u2 & _ & Hm). apply bind_Ok in Hm as (u3 & _ & Hm).
  apply Ok_inj in Hm as [= <- <-]. cbn. split_and!; try done. lia.
Qed.

(** C10: an executor made for a validated v2 document whose sizes are integers that
    are not negative and whose versions are integers or strings
    ([plain_intent2]) runs to its end, in simulated time and on an empty
    in-memory backend, for every
    timing profile, worker count, delay, latency function and set of injected
    failures; the dependency check is clean, and the backend still holds for
    every stored object exactly the content the loads verify. *)
Theorem run_v2_completes blake2b intent b prof workers delay skip cont ex b0 :
  (∀ s n, (1 ≤ n ≤ 64)%nat → length (blake2b s n) = n) →
  @make_executor _ (fake_backend blake2b) intent b prof "simulated" workers delay skip cont = Ok (ex, b0) →
  validate_intent2 intent = Ok tt → plain_intent2 intent = true →
  fb_profile b = None → fb_objects b = ∅ →
  ∃ ops rows now b2, fld intent "operations" = JList ops ∧
    @execute _ (fake_backend blake2b) ex b0 = Ok (rows, now, b2) ∧
    run_complete ex ops rows ∧ holds_content blake2b b2.
Proof.
  intros Hd Hm Hv Hp Hprof Hobj.
  destruct (make_executor_v2 (H := fake_backend blake2b) _ _ _ _ _ _ _ _ _ _ Hm Hv) as (-> & Hex & Hv3 & _ & Hw).
  apply validate_intent2_Ok in Hv as (d & -> & Hs).
  destruct (v2_schedulable ex d Hex Hv3 Hs) as (ops & Hops & Eops & Hsched).
  pose proof (fake_serves blake2b ex d ops Hd Hex Hv3 Hs Hp Eops) as Hserves.
  rewrite <- Hex in Hops.
  destruct (execute_serves (H := fake_backend blake2b) ex ops (holds_content blake2b) b Hops Hsched Hw)
    as (rows & now & b2 & E & Hg & Hc).
  { split; [done|]. intros k data. rewrite Hobj, lookup_empty. done. }
  by exists ops, rows, now, b2.
Qed.

Definition v2_executor : Executor :=
  {| e_v3 := false; e_intent := ex_intent2; e_profile := "dependency"; e_simulated := true; e_workers := 3;
     e_delay := 10; e_cancelled_skip := true; e_content := Zeros |}.

Lemma run_v2_completes_witness :
  ∃ ops rows now b2, fld ex_intent2 "operations" = JList ops ∧
    @execute _ (fake_backend toy_digest) v2_executor toy_fake = Ok (rows, now, b2) ∧
    run_complete v2_executor ops rows ∧ holds_content toy_digest b2.
Proof.
  apply (run_v2_completes toy_digest ex_intent2 toy_fake "dependency" 3 10 true "zeros" v2_executor toy_fake);
    [apply toy_digest_size|vm_compute; reflexivity|vm_compute; reflexivity|vm_compute; reflexivity
    |reflexivity|reflexivity].
Defined.

(** A backend with no storage: every operation succeeds at once. *)
Definition null_backend : Backend unit := {|
  bk_profile _ := None; bk_set_profile _ b := b; bk_initialize _ b := Ok b;
  bk_payload _ _ _ _ _ := Ok [];
  bk_store b _ _ _ _ := Ok (b, mkOutcome "success" 0 "");
  bk_load b _ _ _ _ _ _ := Ok (b, mkOutcome "success" 0 "");
  bk_release b _ _ _ := Ok (b, mkOutcome "success" 0 "");
  bk_exists := None; bk_perform b _ := Ok (b, mkOutcome "success" 0 ""); bk_close b := Ok b; bk_service_ns _ _ := 5 |}.

Definition posix_executor : Executor :=
  {| e_v3 := true; e_intent := ex_posix; e_profile := "saturation"; e_simulated := true; e_workers := 2;
     e_delay := 0; e_cancelled_skip := true; e_content := Zeros |}.

Definition posix_ops : list json := as_list (fld ex_posix "operations").

(** ** v3 workloads *)

(** The validator leaves [declared_delay_ns] of a v3 operation unchecked. *)
Definition int_delay (o : json) : bool :=
  match fld o "declared_delay_ns" with JNull | JInt _ => true | _ => false end.

Lemma v3_schedulable ex d ops initial :
  e_intent ex = JObj d → e_v3 ex = true → getd d "operations" = JList ops →
  (∀ s op, ops !! s = Some op → op_sound3 initial (take s ops) op) →
  forallb int_delay ops = true → schedulable ex ops.
Proof.
  intros Hex Hv3 Eops Hops Hdl s o Ho.
  destruct (Hops s o Ho) as [(id & Hid & Hne & Hfresh) (fam & call & Hfam & Hcall & _) _ _ _ (deps & Hdeps & Hback)
    (oo & args & x & -> & Hargs & Hx & Hrel)]. cbn [fld] in *.
  constructor.
  - done.
  - destruct Hrel as [?|(z & ? & _)]; [by left|right; by exists z].
  - rewrite forallb_forall in Hdl. apply list_elem_of_lookup_2, list_elem_of_In, Hdl in Ho. unfold int_delay in Ho.
    cbn [fld] in Ho |- *. destruct (getd oo "declared_delay_ns"); try done; [by left|right; eauto].
  - intros i o' Hi. cbn [fld]. rewrite Hid. by eapply Hfresh.
  - intros base.
    destruct (mapMR_total (λ d, x ← item d "op"; as_str x) (λ dj y, fld dj "op" = JStr y) deps) as (ds & Hds & HF).
    { intros dj Hdj. destruct (Hback dj Hdj) as (_ & _ & y & _ & _ & Hy). exists y. split; [|done].
      destruct dj as [| | | | | |dd]; try done. cbn [fld] in Hy. rewrite item_getd by congruence. by rewrite Hy. }
    unfold make_row. rewrite Hv3. cbn [get mbind res_bind].
    assert (∃ rel, (if String.eqb (e_profile ex) "offered" && negb (is_none (getd oo "release_ns"))
      then z ← as_int (getd oo "release_ns"); Ok (z - base) else Ok 0) = Ok rel) as (rel & ->).
    { destruct (_ && _) eqn:E; [|by eexists]. destruct Hrel as [En|(z & -> & _)]; [|by eexists].
      rewrite En in E. by rewrite andb_false_r in E. }
    cbn [mbind res_bind]. rewrite (item_getd oo "op_id") by congruence. rewrite Hid. cbn [mbind res_bind as_str].
    rewrite (item_getd oo "args"), (item_getd oo "call"), (item_getd oo "family"), (item_getd oo "deps") by congruence.
    cbn [mbind res_bind]. rewrite Hargs. cbn [get get_default mbind res_bind]. rewrite Hx. cbn [get mbind res_bind].
    rewrite Hdeps. cbn [iterate mbind res_bind]. rewrite Hds. cbn [mbind res_bind].
    eexists. split; [done|]. cbn [r_op_id r_submit_ns r_complete_ns r_deps fld]. split_and!; try done.
    intros y (i & Hy)%list_elem_of_lookup. destruct (Forall2_lookup_r _ _ _ _ _ HF Hy) as (dj & Hdj & Hop).
    destruct (Hback dj) as (j & o' & y' & Hj & Hid' & Hy'); [by eapply list_elem_of_lookup_2|].
    exists j, o'. split; [done|]. congruence.
Qed.

Lemma posix_serves : @Serves unit null_backend posix_executor posix_ops (λ _, True).
Proof.
  constructor; [intros []; by eexists| |intros []; by eexists]. intros [] id o _ Ho _.
  assert (∃ b' out, @perform_op unit null_backend posix_executor tt id o = Ok (b', out)) as (b' & out & E); [|by exists b', out].
  assert (Forall (λ o, is_ok (@perform_op unit null_backend posix_executor tt id o) = true) posix_ops) as HF
    by (vm_compute; repeat constructor).
  rewrite Forall_forall in HF. specialize (HF o Ho). destruct (perform_op _ _ _ _) as [[b' out]|]; [|done]. eauto.
Defined.

Lemma posix_schedulable : schedulable posix_executor posix_ops.
Proof.
  destruct (validate_workload_Ok ex_posix) as (d & ns & entries & handles & ops & Hd & _ & _ & _ & Hops & _ & Hsound);
    [vm_compute; reflexivity|].
  assert (ops = posix_ops) as -> by (unfold posix_ops; rewrite Hd; cbn [fld]; by rewrite Hops).
  by apply (v3_schedulable posix_executor d posix_ops (KStr <$> keys handles)).
Defined.

Lemma execute_completes_witness :
  ∃ rows now b2, @execute unit null_backend posix_executor tt = Ok (rows, now, b2) ∧ True ∧
    run_complete posix_executor posix_ops rows.
Proof.
  apply (@execute_completes unit null_backend posix_executor posix_ops (λ _, True) posix_serves tt);
    [vm_compute; reflexivity|exact posix_schedulable|done|done].
Defined.

(** ** Versions that are told apart by the backend only *)

(** A v2 document that stores version [1] and loads version ['1']. *)
Definition two_spellings : json :=
  let op id seq verb ver deps :=
    JObj [("op_id", JStr id); ("seq", JInt seq); ("op", JStr verb); ("object_id", JStr "x");
          ("version", ver); ("stream", JStr "s"); ("deps", JList deps); ("requested_bytes", JInt 8)] in
  match small_intent2 "x" [] complete_notes with
  | JObj d => JObj (dset "operations" (JList [op "a" 0 "store" (JInt 1) [];
                                              op "b" 1 "load" (JStr "1") [JStr "a"]]) d)
  | v => v
  end.

Definition spelling_executor : Executor :=
  {| e_v3 := false; e_intent := two_spellings; e_profile := "dependency"; e_simulated := true; e_workers := 1;
     e_delay := 0; e_cancelled_skip := true; e_content := Zeros |}.

(** The validator identifies a version by [str(version)] but the backend
    keys its objects by the version itself: a validated document that stores
    version 1 and loads version ['1'] of one object passes the visibility
    check, and its replay misses. *)
Theorem version_spelling_misses :
  validate_intent2 two_spellings = Ok tt ∧
  match @execute _ (fake_backend toy_digest) spelling_executor toy_fake with
  | Ok (rows, _, _) => map r_outcome rows = [Some "success"; Some "miss"]
  | Raise _ => False
  end.
Proof. vm_compute. done. Qed.
