(* ===== verification/ExecReal.v ===== *)
(** * Executing a workload on worker threads ([tools/kvio/intent_exec.py])

    [Executor._run_real] starts a pool of threads that share the heap of
    pending operations under one lock.  A thread takes the first eligible
    operation under the lock, submits and performs it outside the lock, records
    the completion, and takes the lock again to release the dependents.

    The run is a transition system.  The state is the executor's shared state
    and what each thread is doing; an action is one thread's next step or the
    passing of time, and a schedule is a list of actions, so a statement about
    all schedules is one about all interleavings.  A call of the backend runs
    outside the lock: it begins when the operation is submitted and ends with an
    action of its own, and other threads step in between, other calls included.
    What a call answers and what it leaves of the backend are part of the action,
    so nothing is assumed of calls that overlap; [serial] says of a schedule that
    its calls act one after the other, as they do with one worker thread or on a
    backend that holds a lock.  A thread that waits on the condition variable
    always has a time-out, so waiting is the absence of a step. *)

From stdpp Require Import prelude strings list numbers gmap sorting relations.
From Stdlib Require Import ZArith Lia Ascii.
From S2P Require Import Prelude PyText PyJson JsonText Intent Intent2 Workload3 ContentProfile IntentExec ExecCorrect ExecRun.
Local Open Scope Z_scope.

(** What a worker thread is doing. *)
Inductive worker :=
  | Idle                                   (** at the top of the loop, or waiting *)
  | Picked (t : Z) (op_id : string)        (** took the operation from the heap *)
  | Submitted (op_id : string)             (** wrote [eligible_ns], [submit_ns] *)
  | Ran (op_id : string) (out : Outcome)   (** the backend has answered *)
  | Recorded (op_id : string)              (** wrote the completion *)
  | Died (op_id : string)                  (** the call raised what the loop does not catch *)
  | Exited.

#[export] Instance outcome_eq_dec : EqDecision Outcome.
Proof. solve_decision. Defined.
#[export] Instance worker_eq_dec : EqDecision worker.
Proof. solve_decision. Defined.

(** [type(error).__name__] *)
Definition class_name (c : exn_class) : string :=
  match c with
  | CaptureFormatError => "CaptureFormatError" | DuplicateKeyError => "DuplicateKeyError"
  | CaptureError => "CaptureError" | IntentError => "IntentError" | Intent2Error => "Intent2Error"
  | Workload3Error => "Workload3Error" | ReleaseError _ => "ReleaseError" | TraceError => "TraceError"
  | CrossShardError => "CrossShardError" | ComparisonError => "ComparisonError"
  | RepresentationError => "RepresentationError" | PreflightError => "PreflightError"
  | CatalogError => "CatalogError"
  | ValueError => "ValueError" | KeyError => "KeyError" | TypeError => "TypeError"
  | AttributeError => "AttributeError" | OverflowError => "OverflowError" | IndexError => "IndexError"
  | JSONDecodeError => "JSONDecodeError" | OSError => "OSError" | ZeroDivisionError => "ZeroDivisionError"
  | RuntimeError => "RuntimeError" | StructError => "error" | SystemExit => "SystemExit"
  | ArgumentTypeError => "ArgumentTypeError" | KeyboardInterrupt => "KeyboardInterrupt" | OutOfFuel => ""
  end.

(** [except Exception]: not for [SystemExit] and [KeyboardInterrupt] (nor for a
    model out of fuel). *)
Definition caught (e : exn) : bool :=
  match exn_cls e with SystemExit | KeyboardInterrupt | OutOfFuel => false | _ => true end.

(** [Outcome("error", 0, f"{type(error).__name__}: {error}")], with the message
    as the model has it. *)
Definition error_outcome (e : exn) : Outcome :=
  mkOutcome "error" 0 (class_name (exn_cls e) ++ ": " ++ exn_msg e).

(** What is recorded of a call that answered, or raised an [Exception]. *)
Definition answer (ans : res Outcome) : Outcome := match ans with Ok out => out | Raise e => error_outcome e end.

(** One thread's next step, or the passing of time.  [Perform i aft ans]: the
    call of thread [i] ends with [ans], and the backend is then [aft]. *)
Inductive action (B : Type) :=
  | Take (i : nat) | Exit (i : nat) | Submit (i : nat) | Perform (i : nat) (aft : B) (ans : res Outcome)
  | Record_ (i : nat) | Release (i : nat) | Tick (d : Z).
Arguments Take {B} i.
Arguments Exit {B} i.
Arguments Submit {B} i.
Arguments Perform {B} i aft ans.
Arguments Record_ {B} i.
Arguments Release {B} i.
Arguments Tick {B} d.

Section real.
Context {B : Type} `{Backend B}.

(** The shared state: the rows, counters, heap and backend as in the simulated
    run ([s_completions] stays empty; [s_now] is [clock() - t0]), the number of
    finished operations and the threads. *)
Record real := mkReal { rl_core : sim (B:=B); rl_finished : Z; rl_workers : list worker }.

Definition set_worker (st : real) (i : nat) (w : worker) : list worker := <[ i := w ]> (rl_workers st).

(** [running[0] += n] with the heap replaced. *)
Definition core_running (st : sim (B:=B)) (pending : list (Z * Z * string)) (n : Z) : sim :=
  mkSim (s_rows st) (s_remaining st) (s_backend st) pending (s_completions st) (s_running st + n)
    (s_seq st) (s_now st).

Definition core_rows (st : sim (B:=B)) (rows : gmap string Row) : sim :=
  mkSim rows (s_remaining st) (s_backend st) (s_pending st) (s_completions st) (s_running st)
    (s_seq st) (s_now st).

Definition core_backend (st : sim (B:=B)) (b : B) : sim :=
  mkSim (s_rows st) (s_remaining st) b (s_pending st) (s_completions st) (s_running st)
    (s_seq st) (s_now st).

(** The effect of an action; [None]: the action is not the next step. *)
Definition step (ex : Executor) (pl : plan) (a : action B) (st : real) : option (res real) :=
  let core := rl_core st in
  let total := Z.of_nat (length (p_order pl)) in
  match a with
  | Tick d =>
      if 0 <=? d then Some (Ok (mkReal (with_now core (s_now core + d)) (rl_finished st) (rl_workers st)))
      else None
  | Exit i =>
      match rl_workers st !! i with
      | Some Idle =>
          if total <=? rl_finished st
          then Some (Ok (mkReal core (rl_finished st) (set_worker st i Exited))) else None
      | _ => None
      end
  | Take i =>
      match rl_workers st !! i, s_pending core with
      | Some Idle, (t, _, op_id) :: rest =>
          if (rl_finished st <? total) && (t <=? s_now core) && (s_running core <? e_workers ex)
          then Some (Ok (mkReal (core_running core rest 1) (rl_finished st) (set_worker st i (Picked t op_id))))
          else None
      | _, _ => None
      end
  | Submit i =>
      match rl_workers st !! i with
      | Some (Picked t op_id) => Some (
          match s_rows core !! op_id with
          | Some r => Ok (mkReal (core_rows core (<[ op_id := row_submit r t (s_now core) ]> (s_rows core)))
                            (rl_finished st) (set_worker st i (Submitted op_id)))
          | None => KeyErr
          end)
      | _ => None
      end
  | Perform i aft ans =>
      match rl_workers st !! i with
      | Some (Submitted op_id) =>
          let w := match ans with
                   | Ok _ => Ran op_id (answer ans)
                   | Raise e => if caught e then Ran op_id (answer ans) else Died op_id
                   end in
          Some (Ok (mkReal (core_backend core aft) (rl_finished st) (set_worker st i w)))
      | _ => None
      end
  | Record_ i =>
      match rl_workers st !! i with
      | Some (Ran op_id out) => Some (
          match s_rows core !! op_id with
          | Some r => Ok (mkReal (core_rows core (<[ op_id := row_complete r (s_now core) out ]> (s_rows core)))
                            (rl_finished st) (set_worker st i (Recorded op_id)))
          | None => KeyErr
          end)
      | _ => None
      end
  | Release i =>
      match rl_workers st !! i with
      | Some (Recorded op_id) => Some (
          core' ← foldM (release_dependent ex pl) (core_running core (s_pending core) (-1))
                    (default [] (p_dependents pl !! op_id));
          Ok (mkReal core' (rl_finished st + 1) (set_worker st i Idle)))
      | _ => None
      end
  end.

(** A schedule, as long as nothing raises. *)
Fixpoint run_schedule (ex : Executor) (pl : plan) (acts : list (action B)) (st : real) : option (res real) :=
  match acts with
  | [] => Some (Ok st)
  | a :: acts => match step ex pl a st with
                 | Some (Ok st') => run_schedule ex pl acts st'
                 | x => x
                 end
  end.

(** The calls of a schedule act one after the other: each is the backend's own
    call on what the call before it left.  A call that raises may have changed
    the backend. *)
Definition own_answer (ex : Executor) (pl : plan) (b : B) (op_id : string) (aft : B) (ans : res Outcome) : Prop :=
  match perform ex pl b op_id with Ok (b', out) => aft = b' ∧ ans = Ok out | Raise e => ans = Raise e end.

Fixpoint serial (ex : Executor) (pl : plan) (acts : list (action B)) (st : real) : Prop :=
  match acts with
  | [] => True
  | a :: acts =>
      match a with
      | Perform i aft ans => ∀ op_id, rl_workers st !! i = Some (Submitted op_id) → own_answer ex pl (s_backend (rl_core st)) op_id aft ans
      | _ => True
      end ∧ match step ex pl a st with Some (Ok st') => serial ex pl acts st' | _ => True end
  end.

(** The thread has ended, and joining it returns. *)
Definition ended (w : worker) : bool := match w with Exited | Died _ => true | _ => false end.

(** The state when the threads start. *)
Definition real_start (ex : Executor) (pl : plan) (rows : gmap string Row) (remaining : gmap string Z) (b : B)
    : res real :=
  core ← foldM (seed_one ex pl) (mkSim rows remaining b [] [] 0 0 0) (p_order pl);
  Ok (mkReal core 0 (replicate (Z.to_nat (e_workers ex)) Idle)).

(** [_prepare] and the threads at their start. *)
Definition real_setup (ex : Executor) (b : B) : res (plan * real) :=
  pr ← prepare ex;
  let '(pl, rows0, remaining) := pr in
  b ← bk_initialize (e_intent ex) b;
  st ← real_start ex pl rows0 remaining b;
  Ok (pl, st).

(** [Executor.run] in real mode, up to the ledger, under a schedule: the rows in
    the order of the operations, the time and the backend once every thread has
    been joined; [None]: the schedule is not one of a whole run. *)
Definition execute_real (ex : Executor) (b : B) (acts : list (action B)) : option (res (list Row * Z * B)) :=
  match real_setup ex b with
  | Raise e => Some (Raise e)
  | Ok (pl, st0) =>
      match run_schedule ex pl acts st0 with
      | Some (Ok st) =>
          if forallb ended (rl_workers st) then Some (
            b ← bk_close (s_backend (rl_core st));
            rows ← mapMR (λ i, match s_rows (rl_core st) !! i with Some r => Ok r | None => KeyErr end) (p_order pl);
            Ok (rows, s_now (rl_core st), b))
          else None
      | Some (Raise e) => Some (Raise e)
      | None => None
      end
  end.
End real.
