(* ===== verification/ExecRealCorrect.v ===== *)
(** * Correctness of the threaded executor

    Over all interleavings of the worker threads of [ExecReal]: the invariant
    of the shared state, the order of submissions, the absence of deadlock, a
    bound on the number of steps; every operation is called once and its row holds
    the answer of that call, whatever overlapping calls do; and when the calls do
    not overlap, one sequence of calls explains the outcomes and the backend. *)

From stdpp Require Import prelude strings list numbers gmap sorting relations.
From Stdlib Require Import ZArith Lia Ascii.
From S2P Require Import Prelude PyText PyJson JsonText Intent Intent2 Workload3 ContentProfile IntentExec ExecCorrect ExecRun ExecReal.
Local Open Scope Z_scope.

(** The operation a thread works on. *)
Definition task (w : worker) : option string :=
  match w with Picked _ id | Submitted id | Ran id _ | Recorded id | Died id => Some id | Idle | Exited => None end.

Definition busy (ws : list worker) : list string := omap task ws.

Lemma busy_elem ws id : id ∈ busy ws ↔ ∃ i w, ws !! i = Some w ∧ task w = Some id.
Proof.
  unfold busy. rewrite list_elem_of_omap. split.
  - intros (w & (i & Hi)%list_elem_of_lookup & Hw). eauto.
  - intros (i & w & Hi & Hw). exists w. split; [by eapply list_elem_of_lookup_2|done].
Qed.

Lemma busy_insert ws i w0 :
  ws !! i = Some w0 → ∃ l, busy ws ≡ₚ option_list (task w0) ++ l ∧
    ∀ w, busy (<[ i := w ]> ws) ≡ₚ option_list (task w) ++ l.
Proof.
  intros Hi. exists (busy (take i ws) ++ busy (drop (S i) ws)).
  assert (∀ w, busy (take i ws ++ w :: drop (S i) ws) ≡ₚ
    option_list (task w) ++ busy (take i ws) ++ busy (drop (S i) ws)) as Hgen.
  { intros w. unfold busy. rewrite omap_app. cbn [omap list_omap]. destruct (task w); [|done].
    simpl. by rewrite Permutation_middle. }
  split; [rewrite <- (take_drop_middle _ _ _ Hi) at 1; apply Hgen|].
  intros w. rewrite insert_take_drop by (by eapply lookup_lt_Some). apply Hgen.
Qed.

Lemma busy_same ws i w0 w :
  ws !! i = Some w0 → task w = task w0 → busy (<[ i := w ]> ws) ≡ₚ busy ws.
Proof. intros Hi E. destruct (busy_insert ws i w0 Hi) as (l & -> & ->). by rewrite E. Qed.

Section interleavings.
Context {B : Type} `{Backend B}.
Variables (ex : Executor) (pl : plan) (rows0 : gmap string Row) (remaining0 : gmap string Z).
Hypothesis Hprep : prepared ex pl rows0 remaining0.
Hypothesis Hworkers : 1 ≤ e_workers ex.
(** An invariant of the backend, and what a call may do to it and answer. *)
Variable good : B → Prop.
Variable performs : B → string → B → Outcome → Prop.

Lemma done_Some rows id r c : rows !! id = Some r → r_complete_ns r = Some c → done rows id = true.
Proof. intros Hr Hc. unfold done. rewrite Hr, Hc. by apply bool_decide_eq_true. Qed.

(** The operation has completed and its dependents have been told. *)
Definition settled (rows : gmap string Row) (ws : list worker) (id : string) : bool :=
  done rows id && negb (bool_decide (id ∈ busy ws)).

Definition unsettled (f : string → bool) (l : list string) : list string := filter (λ d, f d = false) l.

Lemma unsettled_ext f g l : (∀ x, f x = g x) → unsettled f l = unsettled g l.
Proof. intros E. unfold unsettled. apply list_filter_iff. intros x. by rewrite E. Qed.

(** A row between submission and completion. *)
Definition in_service (rows : gmap string Row) (now : Z) (id : string) : Prop :=
  done rows id = false ∧ ∃ r e s, rows !! id = Some r ∧ r_eligible_ns r = Some e ∧ r_submit_ns r = Some s ∧
    ready ex pl rows0 rows id e ∧ e ≤ s ≤ now.

Definition work_ok (rows : gmap string Row) (now : Z) (w : worker) : Prop :=
  match w with
  | Picked t id => ready ex pl rows0 rows id t ∧ t ≤ now ∧ done rows id = false
  | Submitted id | Ran id _ | Died id => in_service rows now id
  | Recorded id => done rows id = true
  | Idle | Exited => True
  end.

Abbreviation prow rows id := (∃ r, rows !! id = Some r ∧ r_op_id r = id ∧
  r_deps r = deps_of rows0 id ∧ r_release_ns r = rel_of rows0 id).

(** The row of a completed operation. *)
Definition done_ok (rows : gmap string Row) (now : Z) : Prop :=
  ∀ id r c, rows !! id = Some r → r_complete_ns r = Some c → id ∈ p_order pl ∧
    ∃ e s, r_eligible_ns r = Some e ∧ r_submit_ns r = Some s ∧ ready ex pl rows0 rows id e ∧ e ≤ s ∧ s ≤ c ≤ now.

(** The invariant of the threaded run.  [owed]: dependents still to be told of
    a completion, while the lock is held. *)
Record RInv (owed : list string) (core : sim (B:=B)) (fin : Z) (ws : list worker) : Prop := {
  ri_rows : ∀ id, id ∈ p_order pl → prow (s_rows core) id;
  ri_ids : NoDup (pids core ++ busy ws);
  ri_mem : ∀ id, id ∈ pids core ++ busy ws → id ∈ p_order pl;
  ri_fresh : ∀ id, id ∈ pids core → done (s_rows core) id = false;
  ri_rem : ∀ id, id ∈ p_order pl → s_remaining core !! id =
    Some (Z.of_nat (length (unsettled (settled (s_rows core) ws) (deps_of rows0 id)) + occ id owed));
  ri_wait : ∀ id, id ∈ p_order pl →
    s_remaining core !! id = Some 0 ↔ id ∈ pids core ++ busy ws ∨ settled (s_rows core) ws id = true;
  ri_pend : ∀ t s id, (t, s, id) ∈ s_pending core → ready ex pl rows0 (s_rows core) id t;
  ri_work : ∀ i w, ws !! i = Some w → work_ok (s_rows core) (s_now core) w;
  ri_done : done_ok (s_rows core) (s_now core);
  ri_running : s_running core = Z.of_nat (length (busy ws));
  ri_threads : length ws = Z.to_nat (e_workers ex);
  ri_finished : fin = Z.of_nat (length (filter (λ x, settled (s_rows core) ws x = true) (p_order pl)));
  ri_exit : Exited ∈ ws → Z.of_nat (length (p_order pl)) ≤ fin;
  ri_alive : ∀ id, Died id ∉ ws;
  ri_backend : good (s_backend core)
}.

(** Completed rows are kept. *)
Definition grows (rows rows' : gmap string Row) : Prop :=
  ∀ d p c, rows !! d = Some p → r_complete_ns p = Some c → ∃ p', rows' !! d = Some p' ∧ r_complete_ns p' = Some c.

Lemma settled_busy rows ws ws' x : busy ws ≡ₚ busy ws' → settled rows ws x = settled rows ws' x.
Proof. intros E. unfold settled. do 2 f_equal. apply bool_decide_ext. by rewrite E. Qed.

Lemma in_service_mono rows rows' now now' id :
  grows rows rows' → rows' !! id = rows !! id → now ≤ now' → in_service rows now id → in_service rows' now' id.
Proof.
  intros Hg E Hle [Hd (r & e & s & Hr & ? & ? & Hrd & ?)]. split; [unfold done in *; by rewrite E|].
  exists r, e, s. rewrite E. split_and!; try done; [|lia..]. by eapply ready_mono.
Qed.

Lemma done_grows rows rows' id : grows rows rows' → done rows id = true → done rows' id = true.
Proof.
  intros Hg. unfold done. destruct (rows !! id) as [p|] eqn:E; [|done]. intros [c Hc]%bool_decide_eq_true.
  destruct (Hg id p c E Hc) as (p' & -> & ->). apply bool_decide_eq_true. by eexists.
Qed.

Lemma work_ok_mono rows rows' now now' w :
  grows rows rows' → (∀ id, task w = Some id → rows' !! id = rows !! id) → now ≤ now' →
  work_ok rows now w → work_ok rows' now' w.
Proof.
  intros Hg E Hle. destruct w as [|t id|id|id out|id|id|]; cbn [work_ok task] in *; try done.
  - intros (Hr & ? & Hd). split_and!; [by eapply ready_mono|lia|]. unfold done in *. by rewrite E.
  - apply in_service_mono; auto.
  - apply in_service_mono; auto.
  - by apply done_grows.
  - apply in_service_mono; auto.
Qed.

Lemma alive_insert (ws : list worker) i w :
  (∀ id, Died id ∉ ws) → (∀ id, w ≠ Died id) → ∀ id, Died id ∉ <[ i := w ]> ws.
Proof.
  intros Ha Hw id (j & Hj)%list_elem_of_lookup. apply list_lookup_insert_Some in Hj as [(_ & ? & _)|(_ & Hj)]; [by eapply Hw|].
  by eapply Ha, list_elem_of_lookup_2.
Qed.

(** A step outside the lock: it changes the row of one operation and what one
    thread is doing. *)
Lemma RInv_keep core core' fin ws i w0 w :
  RInv [] core fin ws → ws !! i = Some w0 → task w = task w0 →
  s_remaining core' = s_remaining core → s_pending core' = s_pending core → s_running core' = s_running core →
  s_now core' = s_now core → grows (s_rows core) (s_rows core') →
  (∀ x, task w0 ≠ Some x → s_rows core' !! x = s_rows core !! x) →
  (∀ x, task w0 = Some x → prow (s_rows core') x) →
  work_ok (s_rows core') (s_now core') w → done_ok (s_rows core') (s_now core') →
  (w = Exited → Z.of_nat (length (p_order pl)) ≤ fin) → (∀ id, w ≠ Died id) → good (s_backend core') →
  RInv [] core' fin (<[ i := w ]> ws).
Proof.
  intros [R1 R2 R3 R4 R5 R6 R7 R8 R9 R10 R11 R12 R13 RA R14] Hi Ht Erem Ep Erun En Hg Hother Hrow Hw Hd Hex Hal Hgood.
  pose proof (busy_same ws i w0 w Hi Ht) as Hb. assert (pids core' = pids core) as Epid by (unfold pids; by rewrite Ep).
  assert (∀ x, settled (s_rows core') (<[ i := w ]> ws) x = settled (s_rows core) ws x) as Hs.
  { intros x. rewrite (settled_busy _ _ ws) by done. unfold settled. destruct (decide (x ∈ busy ws)) as [Hx|Hx].
    - by rewrite bool_decide_eq_true_2, !andb_false_r by done.
    - f_equal. unfold done. rewrite Hother; [done|]. intros E. apply Hx, busy_elem. eauto. }
  constructor; rewrite ?Epid, ?Erem, ?Ep, ?Erun, ?En.
  - intros id Hid. destruct (decide (task w0 = Some id)); [by apply Hrow|].
    destruct (R1 id Hid) as (r & Hr & ?). exists r. by rewrite Hother.
  - by rewrite Hb.
  - intros id. rewrite Hb. apply R3.
  - intros id Hid. specialize (R4 id Hid). unfold done in *. rewrite Hother; [done|]. intros E.
    apply NoDup_app in R2 as (_ & Hdis & _). apply (Hdis id Hid), busy_elem. eauto.
  - intros id Hid. rewrite (unsettled_ext _ _ _ Hs). by apply R5.
  - intros id Hid. rewrite Hs, Hb. by apply R6.
  - intros t s id Hx. eapply ready_mono; [exact Hg|]. by eapply R7.
  - intros j w' Hj. destruct (decide (i = j)) as [<-|Hne].
    + rewrite list_lookup_insert_eq in Hj by (by eapply lookup_lt_Some). injection Hj as <-. by rewrite <- En.
    + rewrite list_lookup_insert_ne in Hj by done. apply (work_ok_mono (s_rows core) _ (s_now core)); [done| |lia|by eapply R8].
      intros id Hid. apply Hother. intros E. apply NoDup_app in R2 as (_ & _ & Hnd).
      destruct (busy_insert ws i w0 Hi) as (l & Hl & Hl'). rewrite E in Hl. simpl in Hl. rewrite Hl in Hnd.
      apply NoDup_cons in Hnd as [Hni _]. apply Hni.
      assert (id ∈ busy (<[ i := Idle ]> ws)) as Hin by (apply busy_elem; exists j, w'; by rewrite list_lookup_insert_ne).
      by rewrite Hl' in Hin.
  - by rewrite <- En.
  - by rewrite Hb.
  - by rewrite length_insert.
  - rewrite R12. f_equal. f_equal. apply list_filter_iff. intros x. by rewrite Hs.
  - intros Hin. destruct (decide (w = Exited)); [auto|]. apply R13. apply list_elem_of_lookup in Hin as (j & Hj).
    destruct (decide (i = j)) as [<-|Hne].
    + rewrite list_lookup_insert_eq in Hj by (by eapply lookup_lt_Some). congruence.
    + rewrite list_lookup_insert_ne in Hj by done. by eapply list_elem_of_lookup_2.
  - by apply alive_insert.
  - done.
Qed.

(** *** The steps outside the lock *)
Lemma grows_refl rows : grows rows rows.
Proof. intros d p c Hp Hc. eauto. Qed.

Lemma grows_insert rows id r r' :
  rows !! id = Some r → (∀ c, r_complete_ns r = Some c → r_complete_ns r' = Some c) → grows rows (<[ id := r' ]> rows).
Proof.
  intros Hr Hc d p c Hp Hcp. destruct (decide (d = id)) as [->|Hne].
  - rewrite lookup_insert_eq. exists r'. split; [done|]. apply Hc. congruence.
  - rewrite lookup_insert_ne by done. eauto.
Qed.

Lemma tick_RInv core fin ws d : 0 ≤ d → RInv [] core fin ws → RInv [] (with_now core (s_now core + d)) fin ws.
Proof.
  intros Hd [R1 R2 R3 R4 R5 R6 R7 R8 R9 R10 R11 R12 R13 RA R14].
  constructor; cbn [with_now s_rows s_remaining s_backend s_pending s_running s_now]; try done.
  - intros i w Hi. apply (work_ok_mono (s_rows core) _ (s_now core)); [apply grows_refl|done|lia|by eapply R8].
  - intros id r c Hr Hc. destruct (R9 id r c Hr Hc) as (? & e & s & ? & ? & ? & ? & ?). split; [done|].
    exists e, s. split_and!; try done; lia.
Qed.

Lemma submit_RInv core fin ws i t id :
  RInv [] core fin ws → ws !! i = Some (Picked t id) → ∃ r, s_rows core !! id = Some r ∧
    RInv [] (core_rows core (<[ id := row_submit r t (s_now core) ]> (s_rows core))) fin (<[ i := Submitted id ]> ws).
Proof.
  intros HI Hi. pose proof HI as [R1 _ R3 _ _ _ _ R8 R9 _ _ _ _ _ R14].
  assert (id ∈ p_order pl) as Hid by (apply R3, elem_of_app; right; apply busy_elem; eauto).
  destruct (R1 id Hid) as (r & Hr & ? & ? & ?). destruct (R8 i _ Hi) as (Hrd & Hle & Hd). exists r. split; [done|].
  assert (r_complete_ns r = None) as Hc0.
  { unfold done in Hd. rewrite Hr in Hd. apply bool_decide_eq_false in Hd. destruct (r_complete_ns r); [|done]. by destruct Hd. }
  set (rows' := <[ id := row_submit r t (s_now core) ]> (s_rows core)).
  assert (grows (s_rows core) rows') as Hg by (apply (grows_insert _ _ r); [done|congruence]).
  apply (RInv_keep core _ fin ws i (Picked t id)); try done; cbn [core_rows s_rows s_now].
  - intros x Hx. unfold rows'. rewrite lookup_insert_ne; [done|]. intros ->. by apply Hx.
  - intros x [= <-]. unfold rows'. rewrite lookup_insert_eq. by eexists.
  - split; [unfold rows'; by rewrite done_submit|]. unfold rows'. rewrite lookup_insert_eq.
    exists (row_submit r t (s_now core)), t, (s_now core). split_and!; try done; try lia.
    by eapply ready_mono.
  - intros x rx c Hx Hc. unfold rows' in Hx. destruct (decide (x = id)) as [->|Hne].
    + rewrite lookup_insert_eq in Hx. injection Hx as <-. cbn in Hc. congruence.
    + rewrite lookup_insert_ne in Hx by done. destruct (R9 x rx c Hx Hc) as (? & e & s & ? & ? & Hrx & ?).
      split; [done|]. exists e, s. split_and!; try done; try tauto. by eapply ready_mono.
Qed.

Lemma record_RInv core fin ws i id out :
  RInv [] core fin ws → ws !! i = Some (Ran id out) → ∃ r, s_rows core !! id = Some r ∧
    RInv [] (core_rows core (<[ id := row_complete r (s_now core) out ]> (s_rows core))) fin (<[ i := Recorded id ]> ws).
Proof.
  intros HI Hi. pose proof HI as [R1 _ R3 _ _ _ _ R8 R9 _ _ _ _ _ R14].
  assert (id ∈ p_order pl) as Hid by (apply R3, elem_of_app; right; apply busy_elem; eauto).
  destruct (R1 id Hid) as (r & Hr & ? & ? & ?). destruct (R8 i _ Hi) as (Hd & r' & e & s & Hr' & He & Hs & Hrd & Hle).
  rewrite Hr in Hr'. injection Hr' as <-. exists r. split; [done|].
  assert (r_complete_ns r = None) as Hc0.
  { unfold done in Hd. rewrite Hr in Hd. apply bool_decide_eq_false in Hd. destruct (r_complete_ns r); [|done]. by destruct Hd. }
  set (rows' := <[ id := row_complete r (s_now core) out ]> (s_rows core)).
  assert (grows (s_rows core) rows') as Hg by (apply (grows_insert _ _ r); [done|congruence]).
  apply (RInv_keep core _ fin ws i (Ran id out)); try done; cbn [core_rows s_rows s_now].
  - intros x Hx. unfold rows'. rewrite lookup_insert_ne; [done|]. intros ->. by apply Hx.
  - intros x [= <-]. unfold rows'. rewrite lookup_insert_eq. by eexists.
  - cbn [work_ok]. unfold rows'. rewrite (done_complete _ _ r) by done. by rewrite bool_decide_eq_true_2.
  - intros x rx c Hx Hc. unfold rows' in Hx. destruct (decide (x = id)) as [->|Hne].
    + rewrite lookup_insert_eq in Hx. injection Hx as <-. cbn in Hc. injection Hc as <-. split; [done|].
      exists e, s. split_and!; try done; try lia. by eapply ready_mono.
    + rewrite lookup_insert_ne in Hx by done. destruct (R9 x rx c Hx Hc) as (? & e' & s' & ? & ? & Hrx & ?).
      split; [done|]. exists e', s'. split_and!; try done; try tauto. by eapply ready_mono.
Qed.

Lemma perform_RInv core fin ws i id b out :
  RInv [] core fin ws → ws !! i = Some (Submitted id) → good b →
  RInv [] (core_backend core b) fin (<[ i := Ran id out ]> ws).
Proof.
  intros HI Hi Hgood. pose proof HI as [R1 _ R3 _ _ _ _ R8 R9 _ _ _ _ _ R14].
  apply (RInv_keep core _ fin ws i (Submitted id)); try done; cbn [core_backend s_rows s_now].
  - apply grows_refl.
  - intros x [= <-]. apply R1, R3, elem_of_app. right. apply busy_elem. eauto.
  - apply (R8 i _ Hi).
Qed.

Lemma exit_RInv core fin ws i :
  RInv [] core fin ws → ws !! i = Some Idle → Z.of_nat (length (p_order pl)) ≤ fin →
  RInv [] core fin (<[ i := Exited ]> ws).
Proof.
  intros HI Hi Hf. apply (RInv_keep core _ fin ws i Idle); try done; [apply grows_refl|apply HI|apply HI].
Qed.

(** *** The steps under the lock *)
Lemma workers_insert (P : worker → Prop) (ws : list worker) i w :
  P w → (∀ j w', ws !! j = Some w' → P w') → ∀ j w', <[ i := w ]> ws !! j = Some w' → P w'.
Proof.
  intros Hw Hall j w' Hj. apply list_lookup_insert_Some in Hj as [(_ & -> & _)|(_ & Hj)]; [done|by eapply Hall].
Qed.

Lemma take_RInv core fin ws i t sq id rest :
  RInv [] core fin ws → ws !! i = Some Idle → s_pending core = (t, sq, id) :: rest → t ≤ s_now core →
  RInv [] (core_running core rest 1) fin (<[ i := Picked t id ]> ws).
Proof.
  intros [R1 R2 R3 R4 R5 R6 R7 R8 R9 R10 R11 R12 R13 RA R14] Hi Hp Hle.
  assert (pids core = id :: pids (core_running core rest 1)) as Hpid by (unfold pids; by rewrite Hp).
  destruct (busy_insert ws i Idle Hi) as (l & Hl & Hl'). specialize (Hl' (Picked t id)). simpl in Hl, Hl'.
  rewrite <- Hl in Hl'.
  assert (pids (core_running core rest 1) ++ busy (<[ i := Picked t id ]> ws) ≡ₚ pids core ++ busy ws) as Hperm.
  { rewrite Hpid, Hl'. simpl. by rewrite Permutation_middle. }
  assert (done (s_rows core) id = false) as Hd by (apply R4; rewrite Hpid; by left).
  assert (∀ x, settled (s_rows core) (<[ i := Picked t id ]> ws) x = settled (s_rows core) ws x) as Hs.
  { intros x. unfold settled. destruct (decide (x = id)) as [->|Hne]; [by rewrite Hd|].
    do 2 f_equal. apply bool_decide_ext. rewrite Hl'. set_solver. }
  constructor; cbn [core_running s_rows s_remaining s_pending s_running s_now].
  - done.
  - by rewrite Hperm.
  - intros x. rewrite Hperm. apply R3.
  - intros x Hx. apply R4. rewrite Hpid. by right.
  - intros x Hx. rewrite (unsettled_ext _ _ _ Hs). by apply R5.
  - intros x Hx. rewrite Hs, Hperm. by apply R6.
  - intros t' s' x Hx. apply (R7 t' s'). rewrite Hp. by right.
  - apply workers_insert; [|done]. split_and!; try done. apply (R7 t sq). rewrite Hp. by left.
  - done.
  - rewrite Hl'. simpl length. lia.
  - by rewrite length_insert.
  - rewrite R12. do 2 f_equal. apply list_filter_iff. intros x. by rewrite Hs.
  - intros Hin. apply R13. apply list_elem_of_lookup in Hin as (j & Hj).
    apply list_lookup_insert_Some in Hj as [(_ & ? & _)|(_ & Hj)]; [done|by eapply list_elem_of_lookup_2].
  - by apply alive_insert.
  - done.
Qed.

Lemma unsettled_settle f g id l :
  f id = false → (∀ x, g x = bool_decide (x = id) || f x) →
  length (unsettled f l) = (length (unsettled g l) + occ id l)%nat.
Proof.
  intros Hid Hg. induction l as [|y l IH]; [done|]. unfold unsettled in *. rewrite !filter_cons, Hg. cbn [occ].
  destruct (decide (id = y)) as [<-|Hne].
  - rewrite bool_decide_eq_true_2 by done. rewrite decide_True, decide_False by done. simpl length. lia.
  - rewrite bool_decide_eq_false_2 by congruence. cbn [orb]. destruct (decide (f y = false)); simpl length; lia.
Qed.

(** The thread has the lock again and is about to tell the dependents. *)
Lemma release_mark_RInv core fin ws i id :
  RInv [] core fin ws → ws !! i = Some (Recorded id) →
  RInv (default [] (p_dependents pl !! id)) (core_running core (s_pending core) (-1)) (fin + 1) (<[ i := Idle ]> ws).
Proof.
  intros [R1 R2 R3 R4 R5 R6 R7 R8 R9 R10 R11 R12 R13 RA R14] Hi.
  assert (pids (core_running core (s_pending core) (-1)) = pids core) as Hpid by done.
  destruct (busy_insert ws i _ Hi) as (l & Hl & Hl'). specialize (Hl' Idle). simpl in Hl, Hl'.
  pose proof (R8 i _ Hi) as Hd. cbn [work_ok] in Hd.
  assert (id ∈ busy ws) as Hin by (apply busy_elem; eauto).
  assert (id ∈ p_order pl) as Hid by (apply R3, elem_of_app; by right).
  assert (pids core ++ busy ws ≡ₚ id :: pids core ++ busy (<[ i := Idle ]> ws)) as Hperm
    by (by rewrite Hl', Hl, Permutation_middle).
  assert (settled (s_rows core) ws id = false) as Hns.
  { unfold settled. by rewrite bool_decide_eq_true_2, andb_false_r. }
  rewrite Hperm in R2. apply NoDup_cons in R2 as [Hni R2].
  assert (∀ x, settled (s_rows core) (<[ i := Idle ]> ws) x = bool_decide (x = id) || settled (s_rows core) ws x) as Hs.
  { intros x. unfold settled. destruct (decide (x = id)) as [->|Hne].
    - rewrite Hd, (bool_decide_eq_true_2 (id = id)) by done. rewrite bool_decide_eq_false_2; [done|].
      intros Hx. apply Hni, elem_of_app. by right.
    - rewrite (bool_decide_eq_false_2 (x = id)) by done. cbn [orb]. do 2 f_equal. apply bool_decide_ext.
      rewrite Hl, Hl'. set_solver. }
  constructor; cbn [core_running s_rows s_remaining s_pending s_running s_now]; try rewrite Hpid.
  - done.
  - done.
  - intros x Hx. apply R3. rewrite Hperm. by right.
  - done.
  - intros x Hx. rewrite (R5 x Hx). f_equal. f_equal. simpl occ. rewrite (pr_dependents _ _ _ _ Hprep).
    rewrite (unsettled_settle _ _ id _ Hns Hs). lia.
  - intros x Hx. rewrite (R6 x Hx), Hperm, elem_of_cons, Hs.
    destruct (bool_decide_reflect (x = id)) as [->|]; cbn [orb]; tauto.
  - done.
  - by apply workers_insert.
  - done.
  - rewrite Hl in R10. rewrite Hl'. simpl length in R10. lia.
  - by rewrite length_insert.
  - rewrite (filter_add_one (p_order pl) (settled (s_rows core) ws) _ id); [lia|apply (pr_nodup _ _ _ _ Hprep)|done..].
  - intros Hx. apply list_elem_of_lookup in Hx as (j & Hj).
    apply list_lookup_insert_Some in Hj as [(_ & ? & _)|(_ & Hj)]; [done|].
    apply list_elem_of_lookup_2, R13 in Hj. lia.
  - by apply alive_insert.
  - done.
Qed.

Lemma settled_done rows ws x : settled rows ws x = true → done rows x = true.
Proof. unfold settled. by intros [? _]%andb_true_iff. Qed.

Lemma release_dependent_RInv x owed core fin ws :
  RInv (x :: owed) core fin ws → x ∈ p_order pl →
  ∃ core', release_dependent ex pl core x = Ok core' ∧ RInv owed core' fin ws ∧ s_rows core' = s_rows core ∧
    s_backend core' = s_backend core.
Proof.
  intros [R1 R2 R3 R4 R5 R6 R7 R8 R9 R10 R11 R12 R13 RA R14] Hx.
  unfold release_dependent. pose proof (R5 x Hx) as Hrem. cbn [occ] in Hrem. rewrite decide_True in Hrem by done.
  rewrite Hrem. set (n := Z.of_nat _).
  assert (x ∉ pids core ++ busy ws ∧ settled (s_rows core) ws x = false) as [Hfresh Hns].
  { assert (¬ (x ∈ pids core ++ busy ws ∨ settled (s_rows core) ws x = true)) as Hno.
    { rewrite <- (R6 x Hx). rewrite Hrem. intros [= E]. lia. }
    destruct (settled (s_rows core) ws x); tauto. }
  assert (∀ y, y ≠ x → occ y (x :: owed) = occ y owed) as Hocc.
  { intros y Hy. cbn [occ]. by rewrite decide_False. }
  destruct (Z.eqb_spec (n - 1) 0) as [E|E].
  - assert (unsettled (settled (s_rows core) ws) (deps_of rows0 x) = []) as Hun by (apply length_zero_iff_nil; lia).
    assert (occ x owed = 0%nat) as Ho by lia.
    destruct (eligible_time_ready ex pl rows0 remaining0 Hprep (s_rows core) x Hx) as (t & -> & Hready).
    { destruct (R1 x Hx) as (r & ? & _ & ? & ?). eauto. }
    { unfold undone. apply filter_none. intros d Hd Hnd.
      assert (d ∈ unsettled (settled (s_rows core) ws) (deps_of rows0 x)) as Hin.
      { apply list_elem_of_filter. split; [|done]. unfold settled. by rewrite Hnd. }
      rewrite Hun in Hin. by inversion Hin. }
    cbn [mbind res_bind]. eexists. split; [done|]. split; [|done].
    match goal with |- RInv _ ?c _ _ => set (core' := c) end.
    assert (pids core' ≡ₚ x :: pids core) as Hp by apply pids_push.
    subst core'. constructor; cbn [s_rows s_remaining s_pending s_running s_now]; try done.
    + rewrite Hp. by constructor.
    + intros y. rewrite Hp. intros [->|Hy]%elem_of_cons; [done|by apply R3].
    + intros y. rewrite Hp. intros [->|Hy]%elem_of_cons; [|by apply R4].
      unfold settled in Hns. apply andb_false_iff in Hns as [?|Hb]; [done|].
      apply negb_false_iff, bool_decide_eq_true in Hb. exfalso. apply Hfresh, elem_of_app. by right.
    + intros y Hy. destruct (decide (y = x)) as [->|Hne].
      * rewrite lookup_insert_eq, Hun, Ho. f_equal. simpl. lia.
      * rewrite lookup_insert_ne, <- Hocc by done. by apply R5.
    + intros y Hy. rewrite Hp. destruct (decide (y = x)) as [->|Hne].
      * rewrite lookup_insert_eq, E. split; [intros _; left; by left|done].
      * rewrite lookup_insert_ne by done. rewrite (R6 y Hy). set_solver.
    + intros t' s' y Hy. rewrite push_pending_perm in Hy.
      apply elem_of_cons in Hy as [[= -> -> ->]|Hy]; [done|by eapply R7].
  - eexists. split; [done|]. split; [|done].
    constructor; cbn [s_rows s_remaining s_pending s_running s_now]; try done.
    + intros y Hy. destruct (decide (y = x)) as [->|Hne].
      * rewrite lookup_insert_eq. f_equal. lia.
      * rewrite lookup_insert_ne by done. rewrite (R5 y Hy), Hocc by done. done.
    + intros y Hy. destruct (decide (y = x)) as [->|Hne].
      * rewrite lookup_insert_eq. split; [intros [= ?]; lia|]. intros [?|?]; [done|congruence].
      * rewrite lookup_insert_ne by done. by apply R6.
Qed.

Lemma release_RInv core fin ws i id :
  RInv [] core fin ws → ws !! i = Some (Recorded id) →
  ∃ core', foldM (release_dependent ex pl) (core_running core (s_pending core) (-1))
      (default [] (p_dependents pl !! id)) = Ok core' ∧
    RInv [] core' (fin + 1) (<[ i := Idle ]> ws) ∧ s_rows core' = s_rows core ∧ s_backend core' = s_backend core.
Proof.
  intros HI Hi. pose proof (release_mark_RInv core fin ws i id HI Hi) as HM.
  assert (∀ x, x ∈ default [] (p_dependents pl !! id) → x ∈ p_order pl) as Hin
    by (intros x; by apply (dependents_in_order ex pl rows0 remaining0 Hprep)).
  assert (s_rows core = s_rows (core_running core (s_pending core) (-1)) ∧
    s_backend core = s_backend (core_running core (s_pending core) (-1))) as [-> ->] by done.
  revert HM Hin. generalize (core_running core (s_pending core) (-1)) as c.
  induction (default [] (p_dependents pl !! id)) as [|x owed IH]; intros c HM Hin; [by exists c|].
  destruct (release_dependent_RInv x owed c _ _ HM) as (c1 & E1 & HI1 & Er & Eb); [apply Hin; by left|].
  destruct (IH c1 HI1) as (c2 & E2 & HI2 & Er2 & Eb2); [intros; apply Hin; by right|].
  exists c2. cbn [foldM]. rewrite E1. cbn [mbind res_bind]. split_and!; [done|done|congruence..].
Qed.

(** *** Any step *)
Abbreviation RI st := (RInv [] (rl_core st) (rl_finished st) (rl_workers st)).

Lemma task_in_order core fin ws i w id : RInv [] core fin ws → ws !! i = Some w → task w = Some id → id ∈ p_order pl.
Proof. intros HI Hi Hw. apply (ri_mem _ _ _ _ HI), elem_of_app. right. apply busy_elem. eauto. Qed.

(** The call returns or raises an [Exception], and leaves a good backend. *)
Definition ordinary (a : action B) : Prop := match a with Perform _ _ (Raise e) => caught e = true | _ => True end.
Definition leaves_good (a : action B) : Prop := match a with Perform _ aft _ => good aft | _ => True end.

Lemma ordinary_ran i aft ans id : ordinary (Perform i aft ans) →
  match ans with Ok _ => Ran id (answer ans) | Raise e => if caught e then Ran id (answer ans) else Died id end = Ran id (answer ans).
Proof. destruct ans as [out|e]; [done|]. cbn. by intros ->. Qed.

(** A step of a reachable state does not raise and keeps the invariant. *)
Lemma step_RInv a st r : RI st → ordinary a → leaves_good a → step ex pl a st = Some r → ∃ st', r = Ok st' ∧ RI st'.
Proof.
  intros HI Hord Haft. destruct st as [core fin ws]. cbn [rl_core rl_finished rl_workers] in HI.
  destruct a as [i|i|i|i aft ans|i|i|d]; cbn [step rl_core rl_finished rl_workers set_worker].
  - destruct (ws !! i) as [[]|] eqn:Hi; try done. destruct (s_pending core) as [|[[t sq] id] rest] eqn:Hp; [done|].
    destruct ((_ <? _) && _ && _) eqn:E; [|done]. apply andb_true_iff in E as [[_ E%Z.leb_le]%andb_true_iff _]. intros [= <-].
    eexists. split; [done|]. cbn. unfold set_worker. by apply (take_RInv core fin ws i t sq id rest).
  - destruct (ws !! i) as [[]|] eqn:Hi; try done. destruct (Z.leb_spec (Z.of_nat (length (p_order pl))) fin); [|done].
    intros [= <-]. eexists. split; [done|]. by apply exit_RInv.
  - destruct (ws !! i) as [[|t id|id|id out|id|id|]|] eqn:Hi; try done.
    destruct (submit_RInv core fin ws i t id HI Hi) as (r' & -> & HI'). intros [= <-]. eexists. split; [done|]. done.
  - destruct (ws !! i) as [[|t id|id|id out|id|id|]|] eqn:Hi; try done. intros [= <-]. eexists. split; [done|].
    rewrite (ordinary_ran _ _ _ _ Hord). by apply perform_RInv.
  - destruct (ws !! i) as [[|t id|id|id out|id|id|]|] eqn:Hi; try done.
    destruct (record_RInv core fin ws i id out HI Hi) as (r' & -> & HI'). intros [= <-]. eexists. split; [done|]. done.
  - destruct (ws !! i) as [[|t id|id|id out|id|id|]|] eqn:Hi; try done.
    destruct (release_RInv core fin ws i id HI Hi) as (core' & -> & HI' & _). intros [= <-]. eexists. split; [done|]. done.
  - destruct (Z.leb_spec 0 d); [|done]. intros [= <-]. eexists. split; [done|]. by apply tick_RInv.
Qed.

(** *** The number of steps *)
Definition stage (w : worker) : Z :=
  match w with Exited => 0 | Idle => 1 | Recorded _ => 2 | Ran _ _ => 3 | Submitted _ => 4 | Picked _ _ => 5 | Died _ => 1 end.

Fixpoint stages (ws : list worker) : Z := match ws with [] => 0 | w :: ws => stage w + stages ws end.

Lemma stages_insert ws i w0 w : ws !! i = Some w0 → stages (<[ i := w ]> ws) = stages ws - stage w0 + stage w.
Proof.
  revert i. induction ws as [|x ws IH]; intros [|i] Hi; try done; simpl in *.
  - injection Hi as ->. lia.
  - rewrite (IH i Hi). lia.
Qed.

(** The steps the threads still have to take. *)
Definition steps_left (st : real (B:=B)) : Z :=
  5 * (Z.of_nat (length (p_order pl)) - rl_finished st - Z.of_nat (length (busy (rl_workers st)))) + stages (rl_workers st).

Definition cost (a : action B) : Z := match a with Tick _ => 0 | _ => 1 end.

Definition cost_all (acts : list (action B)) : Z := foldr (λ a n, cost a + n) 0 acts.

Lemma step_cost a st st' : ordinary a → step ex pl a st = Some (Ok st') → steps_left st = steps_left st' + cost a.
Proof.
  intros Hord. destruct st as [core fin ws]. unfold steps_left.
  assert (∀ i w0 w, ws !! i = Some w0 →
    length (busy (<[ i := w ]> ws)) + length (option_list (task w0)) = length (busy ws) + length (option_list (task w)))%nat as Hlen.
  { intros i w0 w Hi. destruct (busy_insert ws i w0 Hi) as (l & -> & Hl). rewrite Hl, !length_app. lia. }
  destruct a as [i|i|i|i aft ans|i|i|d]; cbn [step rl_core rl_finished rl_workers cost]; unfold set_worker; cbn [rl_workers];
    try (destruct (ws !! i) as [[|t id|id|id out|id|id|]|] eqn:Hi; try done).
  - destruct (s_pending core) as [|[[t sq] id] rest]; [done|]. destruct (_ && _ && _); [|done]. intros [= <-]; cbn [rl_finished rl_workers].
    rewrite (stages_insert _ _ _ _ Hi). pose proof (Hlen i _ (Picked t id) Hi) as Hl. cbn in Hl. cbn [stage]. lia.
  - destruct (_ <=? _); [|done]. intros [= <-]; cbn [rl_finished rl_workers].
    rewrite (stages_insert _ _ _ _ Hi). pose proof (Hlen i _ Exited Hi) as Hl. cbn in Hl. cbn [stage]. lia.
  - destruct (_ !! id); [|done]. intros [= <-]; cbn [rl_finished rl_workers].
    rewrite (stages_insert _ _ _ _ Hi). pose proof (Hlen i _ (Submitted id) Hi) as Hl. cbn in Hl. cbn [stage]. lia.
  - intros [= <-]; cbn [rl_finished rl_workers]. rewrite (stages_insert _ _ _ _ Hi).
    rewrite (ordinary_ran _ _ _ _ Hord). pose proof (Hlen i _ (Ran id (answer ans)) Hi) as Hl. cbn in Hl. cbn [stage]. lia.
  - destruct (_ !! id); [|done]. intros [= <-]; cbn [rl_finished rl_workers].
    rewrite (stages_insert _ _ _ _ Hi). pose proof (Hlen i _ (Recorded id) Hi) as Hl. cbn in Hl. cbn [stage]. lia.
  - destruct (foldM _ _ _); [|done]. intros [= <-]; cbn [rl_finished rl_workers].
    rewrite (stages_insert _ _ _ _ Hi). pose proof (Hlen i _ Idle Hi) as Hl. cbn in Hl. cbn [stage]. lia.
  - destruct (0 <=? d); [|done]. intros [= <-]. cbn [rl_finished rl_workers]. lia.
Qed.

(** *** Progress *)
Lemma stages_busy ws : 0 ≤ stages ws ∧ (stages ws = 0 → ∀ w, w ∈ ws → w = Exited).
Proof.
  induction ws as [|w ws [IH1 IH2]]; simpl; [split; [lia|by inversion 2]|].
  assert (0 ≤ stage w ∧ (stage w = 0 → w = Exited)) as [? ?] by (destruct w; cbn; split; (lia || done)).
  split; [lia|]. intros E x [->|Hx]%elem_of_cons; [apply H1; lia|apply IH2; [lia|done]].
Qed.

(** While an operation is not settled, one is pending or in a thread. *)
Lemma work_remains core fin ws :
  RInv [] core fin ws → fin < Z.of_nat (length (p_order pl)) → busy ws = [] → s_pending core ≠ [].
Proof.
  intros HI Hf Hb Hp.
  assert (∀ n i id, (i < n)%nat → p_order pl !! i = Some id → settled (s_rows core) ws id = true) as Hgen.
  { induction n as [|n IH]; intros i id Hi Hid; [lia|].
    assert (id ∈ p_order pl) as Hin by (by eapply list_elem_of_lookup_2).
    assert (unsettled (settled (s_rows core) ws) (deps_of rows0 id) = []) as Hun.
    { unfold unsettled. apply filter_none. intros d Hd.
      destruct (pr_backward _ _ _ _ Hprep i id d Hid Hd) as (j & Hj & Hjd). rewrite (IH j d); [done|lia|done]. }
    assert (s_remaining core !! id = Some 0) as H0 by (by rewrite (ri_rem _ _ _ _ HI id Hin), Hun).
    apply (ri_wait _ _ _ _ HI id Hin) in H0 as [Hx|?]; [|done].
    unfold pids in Hx. rewrite Hp, Hb in Hx. by inversion Hx. }
  assert (filter (λ x, settled (s_rows core) ws x = true) (p_order pl) = p_order pl) as Hall.
  { apply filter_all. intros x (i & Hi)%list_elem_of_lookup. apply (Hgen (S i) i); [lia|done]. }
  pose proof (ri_finished _ _ _ _ HI) as Hfin. rewrite Hall in Hfin. lia.
Qed.

Definition exited (w : worker) : bool := match w with Exited => true | _ => false end.

Lemma ended_exited ws : (∀ id, Died id ∉ ws) → forallb ended ws = forallb exited ws.
Proof.
  induction ws as [|w ws IH]; intros Ha; [done|]. cbn. rewrite IH by (intros id Hid; apply (Ha id); by right).
  destruct w as [| | | | |id|]; try done. destruct (Ha id). by left.
Qed.

(** How the calls end, as a function of the state and the thread, and the
    schedules in which they end so. *)
Definition answers : Type := real (B:=B) → nat → B * res Outcome.

Fixpoint obeys (ans : answers) (acts : list (action B)) (st : real) : Prop :=
  match acts with
  | [] => True
  | a :: acts =>
      match a with Perform i aft r => (aft, r) = ans st i | _ => True end ∧
      match step ex pl a st with Some (Ok st') => obeys ans acts st' | _ => True end
  end.

Definition fair_answers (ans : answers) : Prop := ∀ st i, good (ans st i).1 ∧ match (ans st i).2 with Raise e => caught e = true | _ => True end.

(** Unless every thread has exited, a thread can step, perhaps after some time
    has passed, however the calls end. *)
Lemma progress ans st :
  fair_answers ans → RI st → forallb exited (rl_workers st) = false →
  ∃ d a st1 st2, ordinary a ∧ leaves_good a ∧ match a with Perform i aft r => (aft, r) = ans st1 i | _ => True end ∧
    step ex pl (Tick d) st = Some (Ok st1) ∧ cost a = 1 ∧ step ex pl a st1 = Some (Ok st2).
Proof.
  intros Hans HI Hex. destruct st as [core fin ws]. cbn [rl_core rl_finished rl_workers] in *.
  assert (∃ i w, ws !! i = Some w ∧ w ≠ Exited) as (i & w & Hi & Hw).
  { clear -Hex. induction ws as [|x ws IH]; [done|]. cbn in Hex. destruct (exited x) eqn:E.
    - destruct IH as (i & w & ? & ?); [done|]. by exists (S i), w.
    - exists 0%nat, x. split; [done|]. by intros ->. }
  assert (∀ d a, 0 ≤ d → ordinary a → leaves_good a → cost a = 1 →
    match a with Perform i aft r => (aft, r) = ans (mkReal (with_now core (s_now core + d)) fin ws) i | _ => True end →
    is_Some (step ex pl a (mkReal (with_now core (s_now core + d)) fin ws)) →
    ∃ d a st1 st2, ordinary a ∧ leaves_good a ∧ match a with Perform i aft r => (aft, r) = ans st1 i | _ => True end ∧
      step ex pl (Tick d) (mkReal core fin ws) = Some (Ok st1) ∧ cost a = 1 ∧ step ex pl a st1 = Some (Ok st2)) as Hgo.
  { intros d a Hd Hor Hla Ha Hby [r Hr]. exists d, a.
    assert (step ex pl (Tick d) (mkReal core fin ws) = Some (Ok (mkReal (with_now core (s_now core + d)) fin ws))) as E1
      by (cbn; by destruct (Z.leb_spec 0 d); [|lia]).
    pose proof (tick_RInv core fin ws d Hd HI) as HI1.
    destruct (step_RInv a (mkReal (with_now core (s_now core + d)) fin ws) r HI1 Hor Hla Hr) as (st2 & -> & _).
    exists (mkReal (with_now core (s_now core + d)) fin ws), st2. by split_and!. }
  destruct (decide (busy ws = [])) as [Hb|Hb].
  - assert (w = Idle) as ->.
    { destruct (task w) as [id|] eqn:Et; [|by destruct w]. exfalso.
      assert (id ∈ busy ws) as Hin by (apply busy_elem; eauto). rewrite Hb in Hin. by inversion Hin. }
    destruct (Z_lt_le_dec fin (Z.of_nat (length (p_order pl)))) as [Hf|Hf].
    + destruct (s_pending core) as [|[[t sq] id] rest] eqn:Hp; [by destruct (work_remains core fin ws HI Hf Hb)|].
      apply (Hgo (Z.max 0 (t - s_now core)) (Take i)); [lia|done..|]. cbn. rewrite Hi, Hp.
      rewrite (ri_running _ _ _ _ HI), Hb. cbn. destruct (Z.ltb_spec fin (Z.of_nat (length (p_order pl)))); [|lia].
      destruct (Z.leb_spec t (s_now core + Z.max 0 (t - s_now core))); [|lia].
      destruct (Z.ltb_spec (Z.of_nat 0) (e_workers ex)); [by eexists|lia].
    + apply (Hgo 0 (Exit i)); [lia|done..|]. cbn. rewrite Hi.
      destruct (Z.leb_spec (Z.of_nat (length (p_order pl))) fin); [by eexists|lia].
  - assert (∃ id, id ∈ busy ws) as (id & (j & w' & Hj & Hw')%busy_elem).
    { destruct (busy ws) as [|id ?]; [done|]. exists id. by left. }
    destruct w' as [|t id'|id'|id' out|id'|id'|]; try done.
    + apply (Hgo 0 (Submit j)); [lia|done..|]. cbn. rewrite Hj. by eexists.
    + set (st1 := mkReal (with_now core (s_now core + 0)) fin ws). destruct (Hans st1 j) as [Hg Ho].
      apply (Hgo 0 (Perform j (ans st1 j).1 (ans st1 j).2)); [lia| | |done| |].
      * exact Ho.
      * exact Hg.
      * by rewrite <- surjective_pairing.
      * cbn. rewrite Hj. by eexists.
    + apply (Hgo 0 (Record_ j)); [lia|done..|]. cbn. rewrite Hj. by eexists.
    + apply (Hgo 0 (Release j)); [lia|done..|]. cbn. rewrite Hj. by eexists.
    + destruct (ri_alive _ _ _ _ HI id'). by eapply list_elem_of_lookup_2.
Qed.

(** *** The calls, in the order in which they ended *)
Inductive calls (b : B) : list (string * Outcome) → B → Prop :=
  | calls_nil : calls b [] b
  | calls_snoc log b' id b'' out :
      calls b log b' → performs b' id b'' out → calls b (log ++ [(id, out)]) b''.

(** The operation whose call ends with the action, and what is recorded of it. *)
Definition answered (a : action B) (st : real (B:=B)) : list (string * Outcome) :=
  match a with
  | Perform i _ ans => match rl_workers st !! i with Some (Submitted id) => [(id, answer ans)] | _ => [] end
  | _ => []
  end.

(** The calls made so far, in order, explain the backend and the ledger. *)
Record Lin (b1 : B) (log : list (string * Outcome)) (st : real (B:=B)) : Prop := {
  ln_seq : calls b1 log (s_backend (rl_core st));
  ln_nodup : NoDup log.*1;
  ln_ids : ∀ id, id ∈ log.*1 ↔ done (s_rows (rl_core st)) id = true ∨ ∃ i out, rl_workers st !! i = Some (Ran id out);
  ln_work : ∀ i id out, rl_workers st !! i = Some (Ran id out) → (id, out) ∈ log;
  ln_row : ∀ id r c, s_rows (rl_core st) !! id = Some r → r_complete_ns r = Some c →
    ∃ out, (id, out) ∈ log ∧ r_outcome r = Some (o_status out) ∧ r_completed_bytes r = o_bytes out ∧ r_detail r = o_detail out;
  ln_topo : ∀ k id out d, log !! k = Some (id, out) → d ∈ deps_of rows0 id → d ∈ (take k log).*1
}.

Lemma Lin_keep b1 log st st' :
  Lin b1 log st → s_backend (rl_core st') = s_backend (rl_core st) →
  (∀ id, done (s_rows (rl_core st')) id = done (s_rows (rl_core st)) id) →
  (∀ id r c, s_rows (rl_core st') !! id = Some r → r_complete_ns r = Some c → s_rows (rl_core st) !! id = Some r) →
  (∀ i id out, rl_workers st' !! i = Some (Ran id out) ↔ rl_workers st !! i = Some (Ran id out)) → Lin b1 log st'.
Proof.
  intros [L1 L2 L3 L4 L5 L6] Eb Ed Er Ew. constructor; try done.
  - by rewrite Eb.
  - intros id. rewrite (L3 id), Ed. setoid_rewrite Ew. done.
  - intros i id out Hi%Ew. by eapply L4.
  - intros id r c Hr Hc. by apply (L5 id r c); [eapply Er|].
Qed.

Definition not_ran (w : worker) : bool := match w with Ran _ _ => false | _ => true end.

Lemma ran_insert (ws : list worker) i w0 w j id out :
  ws !! i = Some w0 → not_ran w0 = true → not_ran w = true →
  <[ i := w ]> ws !! j = Some (Ran id out) ↔ ws !! j = Some (Ran id out).
Proof.
  intros Hi H0 Hw. destruct (decide (i = j)) as [<-|Hne]; [|by rewrite list_lookup_insert_ne].
  rewrite list_lookup_insert_eq by (by eapply lookup_lt_Some). rewrite Hi. split; intros [= ->]; done.
Qed.

(** The calls so far and one more. *)
Lemma Lin_perform b1 log core fin ws i id b out :
  RInv [] core fin ws → Lin b1 log (mkReal core fin ws) → ws !! i = Some (Submitted id) →
  performs (s_backend core) id b out →
  Lin b1 (log ++ [(id, out)]) (mkReal (core_backend core b) fin (<[ i := Ran id out ]> ws)).
Proof.
  intros HI [L1 L2 L3 L4 L5 L6] Hi Hp. cbn [rl_core rl_workers] in *.
  pose proof (lookup_lt_Some _ _ _ Hi) as Hlt.
  destruct (ri_work _ _ _ _ HI i _ Hi) as (Hd & r & e & s & Hr & _ & _ & [_ Hready] & _).
  assert (id ∉ log.*1) as Hni.
  { intros Hin%L3. destruct Hin as [?|(j & out' & Hj)]; [congruence|].
    assert (i ≠ j) as Hne by congruence. pose proof (ri_ids _ _ _ _ HI) as Hnd. apply NoDup_app in Hnd as (_ & _ & Hnd).
    destruct (busy_insert ws i _ Hi) as (l & Hl & Hl'). simpl in Hl. rewrite Hl in Hnd. apply NoDup_cons in Hnd as [Hx _].
    apply Hx. specialize (Hl' Idle). simpl in Hl'. rewrite <- Hl'. apply busy_elem. exists j, (Ran id out').
    by rewrite list_lookup_insert_ne. }
  constructor; cbn [rl_core rl_workers core_backend s_rows s_backend].
  - by econstructor.
  - rewrite fmap_app. apply NoDup_app. split_and!; [done| |apply NoDup_singleton]. set_solver.
  - intros x. rewrite fmap_app, elem_of_app, L3. simpl. rewrite list_elem_of_singleton. split.
    + intros [[?|(j & o & Hj)]| ->]; [by left|right|right; exists i, out; by rewrite list_lookup_insert_eq].
      exists j, o. rewrite list_lookup_insert_ne; [done|congruence].
    + intros [?|(j & o & Hj)]; [by left; left|]. apply list_lookup_insert_Some in Hj as [(_ & [= <- _] & _)|(_ & Hj)];
        [by right|left; right; eauto].
  - intros j x o Hj. apply elem_of_app. apply list_lookup_insert_Some in Hj as [(_ & [= <- <-] & _)|(_ & Hj)];
      [right; by apply list_elem_of_singleton|left; by eapply L4].
  - intros x rx c Hx Hc. destruct (L5 x rx c Hx Hc) as (o & ? & ?). exists o. split; [apply elem_of_app; by left|done].
  - intros k x o d Hk Hdep. apply lookup_app_Some in Hk as [Hk|[Hk Hk2]].
    + rewrite take_app_le by (apply lookup_lt_Some in Hk; lia). by eapply L6.
    + apply list_lookup_singleton_Some in Hk2 as [Hk2 [= <- <-]].
      rewrite take_app_ge, fmap_app, elem_of_app by done. left. apply L3. left.
      destruct (Hready d Hdep) as (p & c & _ & Hpd & Hc & _). unfold done. rewrite Hpd, Hc. by apply bool_decide_eq_true.
Qed.

Lemma Lin_record b1 log core fin ws i id out r :
  Lin b1 log (mkReal core fin ws) → ws !! i = Some (Ran id out) → s_rows core !! id = Some r →
  Lin b1 log (mkReal (core_rows core (<[ id := row_complete r (s_now core) out ]> (s_rows core))) fin (<[ i := Recorded id ]> ws)).
Proof.
  intros [L1 L2 L3 L4 L5 L6] Hi Hr. cbn [rl_core rl_workers] in *. pose proof (lookup_lt_Some _ _ _ Hi) as Hlt.
  constructor; cbn [rl_core rl_workers core_rows s_rows s_backend]; try done.
  - intros x. rewrite L3, (done_complete _ _ r) by done. destruct (bool_decide_reflect (x = id)) as [->|Hne]; cbn [orb].
    + split; [by left|]. intros _. right. eauto.
    + split; (intros [?|(j & o & Hj)]; [by left|right; exists j, o]).
      * rewrite list_lookup_insert_ne; [done|congruence].
      * by apply list_lookup_insert_Some in Hj as [(_ & ? & _)|(_ & Hj)].
  - intros j x o Hj. apply list_lookup_insert_Some in Hj as [(_ & ? & _)|(_ & Hj)]; [done|by eapply L4].
  - intros x rx c Hx Hc. destruct (decide (x = id)) as [->|Hne].
    + rewrite lookup_insert_eq in Hx. injection Hx as <-. exists out. split; [by eapply L4|done].
    + rewrite lookup_insert_ne in Hx by done. by eapply L5.
Qed.

(** The call that ends does what a call may do. *)
Definition allowed (a : action B) (st : real) : Prop :=
  match a with
  | Perform i aft ans => ∀ id, rl_workers st !! i = Some (Submitted id) → performs (s_backend (rl_core st)) id aft (answer ans)
  | _ => True
  end.

Lemma step_Lin b1 log a st st' :
  RI st → Lin b1 log st → ordinary a → allowed a st → step ex pl a st = Some (Ok st') →
  Lin b1 (log ++ answered a st) st'.
Proof.
  intros HI HL Hord Hal. destruct st as [core fin ws]. cbn [rl_core rl_finished rl_workers] in HI.
  destruct a as [i|i|i|i aft ans|i|i|d]; cbn [step rl_core rl_finished rl_workers answered]; unfold set_worker; cbn [rl_workers];
    try (destruct (ws !! i) as [[|t id|id|id out|id|id|]|] eqn:Hi; try done); rewrite ?app_nil_r.
  - destruct (s_pending core) as [|[[t sq] id] rest]; [done|]. destruct (_ && _ && _); [|done]. intros [= <-].
    apply (Lin_keep b1 log _ _ HL); try done. intros. by apply (ran_insert _ _ Idle).
  - destruct (_ <=? _); [|done]. intros [= <-].
    apply (Lin_keep b1 log _ _ HL); try done. intros. by apply (ran_insert _ _ Idle).
  - destruct (ri_work _ _ _ _ HI i _ Hi) as (_ & _ & Hd). destruct (s_rows core !! id) as [r|] eqn:Hr; [|done].
    intros [= <-]. apply (Lin_keep b1 log _ _ HL); try done; cbn [rl_core core_rows s_rows rl_workers].
    + intros x. by apply done_submit.
    + intros x rx c Hx Hc. destruct (decide (x = id)) as [->|Hne]; [|by rewrite lookup_insert_ne in Hx].
      rewrite lookup_insert_eq in Hx. injection Hx as <-. cbn in Hc. unfold done in Hd. rewrite Hr, Hc in Hd.
      apply bool_decide_eq_false in Hd. destruct Hd. by eexists.
    + intros. by apply (ran_insert _ _ (Picked t id)).
  - intros [= <-]. rewrite (ordinary_ran _ _ _ _ Hord). apply (Lin_perform b1 log core); try done. by apply (Hal id).
  - destruct (s_rows core !! id) as [r|] eqn:Hr; [|done]. intros [= <-]. by apply Lin_record.
  - destruct (release_RInv core fin ws i id HI Hi) as (core' & -> & _ & Er & Eb). intros [= <-].
    apply (Lin_keep b1 log _ _ HL); cbn [rl_core rl_workers]; [done|by rewrite Er..|].
    intros. by apply (ran_insert _ _ (Recorded id)).
  - destruct (0 <=? d); [|done]. intros [= <-]. by apply (Lin_keep b1 log _ _ HL).
Qed.

(** *** Whole runs *)

(** Every action of the schedule is one that may happen. *)
Fixpoint conform (acts : list (action B)) (st : real) : Prop :=
  match acts with
  | [] => True
  | a :: acts =>
      match step ex pl a st with
      | Some r => (ordinary a ∧ leaves_good a ∧ allowed a st) ∧ match r with Ok st' => conform acts st' | Raise _ => True end
      | None => True
      end
  end.

(** The calls of a schedule, in the order in which they end. *)
Fixpoint history (acts : list (action B)) (st : real) : list (string * Outcome) :=
  match acts with
  | [] => []
  | a :: acts => answered a st ++ match step ex pl a st with Some (Ok st') => history acts st' | _ => [] end
  end.

Lemma run_schedule_inv b1 acts st log r :
  RI st → Lin b1 log st → conform acts st → run_schedule ex pl acts st = Some r →
  ∃ st', r = Ok st' ∧ RI st' ∧ Lin b1 (log ++ history acts st) st' ∧ steps_left st = steps_left st' + cost_all acts.
Proof.
  revert st log. induction acts as [|a acts IH]; intros st log HI HL Hco Hr; cbn [run_schedule] in Hr.
  - injection Hr as <-. exists st. cbn. rewrite app_nil_r. split_and!; try done. lia.
  - cbn [conform history] in *. destruct (step ex pl a st) as [x|] eqn:E; [|done]. destruct Hco as [(Ho & Hg & Hal) Hco].
    destruct (step_RInv a st x HI Ho Hg E) as (st1 & -> & HI1).
    pose proof (step_Lin b1 log a st st1 HI HL Ho Hal E) as HL1.
    destruct (IH st1 _ HI1 HL1 Hco Hr) as (st' & ? & ? & HL' & Hc). exists st'. split_and!; try done.
    + by rewrite (assoc_L (++)).
    + rewrite (step_cost a st st1 Ho E), Hc. change (cost_all (a :: acts)) with (cost a + cost_all acts). lia.
Qed.

Lemma run_schedule_app (acts acts' : list (action B)) st st' :
  run_schedule ex pl acts st = Some (Ok st') →
  run_schedule ex pl (acts ++ acts') st = run_schedule ex pl acts' st'.
Proof.
  revert st. induction acts as [|a acts IH]; intros st; cbn [run_schedule app]; [by intros [= ->]|].
  destruct (step ex pl a st) as [[st1|e]|]; [apply IH|done|done].
Qed.

Lemma steps_left_nonneg st : RI st → 0 ≤ steps_left st.
Proof.
  intros HI. destruct st as [core fin ws]. unfold steps_left. cbn [rl_core rl_finished rl_workers] in *.
  assert (length (filter (λ x, settled (s_rows core) ws x = true) (p_order pl) ++ busy ws) ≤ length (p_order pl))%nat as Hle.
  { pose proof (ri_ids _ _ _ _ HI) as Hnd. apply NoDup_app in Hnd as (_ & _ & Hnd). apply submseteq_length, NoDup_submseteq.
    - apply NoDup_app. split_and!; [apply NoDup_filter, (pr_nodup _ _ _ _ Hprep)| |done].
      intros x [Hx _]%list_elem_of_filter Hb. unfold settled in Hx. by rewrite bool_decide_eq_true_2, andb_false_r in Hx.
    - intros x [Hx|Hx]%elem_of_app; [by apply list_elem_of_filter in Hx as [_ ?]|].
      apply (ri_mem _ _ _ _ HI), elem_of_app. by right. }
  rewrite length_app in Hle. rewrite (ri_finished _ _ _ _ HI). destruct (stages_busy ws). lia.
Qed.

(** Every state can be run to the end, however the calls end. *)
Lemma can_finish ans st :
  fair_answers ans → RI st →
  ∃ acts st', obeys ans acts st ∧ run_schedule ex pl acts st = Some (Ok st') ∧ forallb exited (rl_workers st') = true ∧ RI st'.
Proof.
  intros Hans HI. remember (Z.to_nat (steps_left st)) as n eqn:En. revert st HI En.
  induction n as [n IH] using lt_wf_ind. intros st HI ->.
  destruct (forallb exited (rl_workers st)) eqn:E; [by exists [], st|].
  destruct (progress ans st Hans HI E) as (d & a & st1 & st2 & Hor & Hla & Hby & E1 & Ha & E2).
  destruct (step_RInv (Tick d) st _ HI I I E1) as (? & [= <-] & HI1).
  destruct (step_RInv _ st1 _ HI1 Hor Hla E2) as (? & [= <-] & HI2).
  pose proof (step_cost (Tick d) _ _ I E1) as C1. pose proof (step_cost _ _ _ Hor E2) as C2. cbn [cost] in C1.
  pose proof (steps_left_nonneg st2 HI2).
  destruct (IH (Z.to_nat (steps_left st2))) with (st := st2) as (acts & st' & Hob & Hr & Hx & HI'); [lia|done|done|].
  exists (Tick d :: a :: acts), st'. split_and!; [|by cbn [run_schedule]; rewrite E1, E2|done|done].
  cbn [obeys]. rewrite E1. split; [done|]. rewrite E2. by split.
Qed.

(** The start: nothing taken, nothing done. *)
Lemma seed_keeps l st st' :
  foldM (seed_one (B:=B) ex pl) st l = Ok st' →
  s_rows st' = s_rows st ∧ s_completions st' = s_completions st ∧ s_backend st' = s_backend st ∧
  s_running st' = s_running st ∧ s_now st' = s_now st.
Proof.
  revert st. induction l as [|id l IH]; intros st Hf; cbn [foldM] in Hf; [by apply Ok_inj in Hf as <-|].
  apply bind_Ok in Hf as (st1 & E & Hf). destruct (IH st1 Hf) as (-> & -> & -> & -> & ->).
  unfold seed_one in E. destruct (s_remaining st !! id); [|done]. destruct (_ =? 0); [|by apply Ok_inj in E as <-].
  apply bind_Ok in E as (t & _ & E). by apply Ok_inj in E as <-.
Qed.

Lemma busy_idle n : busy (replicate n Idle) = [].
Proof. by induction n. Qed.

Lemma start_RInv b :
  good b → ∃ st0, real_start ex pl rows0 remaining0 b = Ok st0 ∧ RI st0 ∧ Lin b [] st0 ∧
    steps_left st0 = 5 * Z.of_nat (length (p_order pl)) + e_workers ex.
Proof using Hprep Hworkers.
  intros Hgood. destruct (seed_all_Inv ex pl rows0 (λ b', b' = b) remaining0 Hprep (p_order pl) _ (pr_nodup _ _ _ _ Hprep)
    (initial_Inv ex pl rows0 _ remaining0 Hprep Hworkers b eq_refl)) as (core & E & HI).
  unfold real_start. rewrite E. cbn [mbind res_bind]. eexists. split; [done|].
  destruct (seed_keeps _ _ _ E) as (Er & Ec & Eb & Erun & En). cbn in Er, Ec, Eb, Erun, En.
  assert (∀ x, done (s_rows core) x = false) as Hnd by (intros; rewrite Er; by apply (done_rows0 ex pl rows0 remaining0)).
  assert (∀ n x, settled (s_rows core) (replicate n Idle) x = false) as Hns by (intros; unfold settled; by rewrite Hnd).
  destruct HI as [H1 H2 H3 H4 H5 _ H7 _ _ _ _].
  assert (pids core ++ cids core = pids core) as Ep by (unfold cids; by rewrite Ec, app_nil_r).
  rewrite Ep in *.
  assert (∀ l, unsettled (settled (s_rows core) (replicate (Z.to_nat (e_workers ex)) Idle)) l = undone (s_rows core) l) as Hun.
  { intros l. unfold unsettled, undone. apply list_filter_iff. intros x. by rewrite Hns, Hnd. }
  split_and!.
  - cbn [rl_core rl_finished rl_workers]. constructor; rewrite ?busy_idle, ?app_nil_r; try done.
    + intros id Hid. by apply H3.
    + intros id Hid. rewrite Hun. by apply H4.
    + intros id Hid. rewrite Hns, (H5 id Hid), Hnd by set_solver. tauto.
    + intros i w Hi. by apply lookup_replicate in Hi as [-> _].
    + intros id r c Hr Hc. specialize (Hnd id). by rewrite (done_Some _ _ _ _ Hr Hc) in Hnd.
    + by rewrite length_replicate.
    + rewrite filter_none; [done|]. intros x _. by rewrite Hns.
    + intros (i & Hi)%list_elem_of_lookup. by apply lookup_replicate in Hi as [? _].
    + intros id (i & Hi)%list_elem_of_lookup. by apply lookup_replicate in Hi as [? _].
    + by rewrite Eb.
  - constructor; cbn [rl_core rl_workers]; try done.
    + rewrite Eb. constructor.
    + constructor.
    + intros id. rewrite Hnd. split; [by inversion 1|]. intros [?|(i & out & Hi)]; [done|].
      by apply lookup_replicate in Hi as [? _].
    + intros i id out Hi. by apply lookup_replicate in Hi as [? _].
    + intros id r c Hr Hc. specialize (Hnd id). by rewrite (done_Some _ _ _ _ Hr Hc) in Hnd.
  - unfold steps_left. cbn [rl_finished rl_workers]. rewrite busy_idle.
    assert (∀ n, stages (replicate n Idle) = Z.of_nat n) as -> by (induction n as [|n IH]; [done|]; cbn [replicate stages stage]; lia).
    cbn [length]. lia.
Qed.

(** The end: every operation is settled, and the log has each once. *)
Lemma end_settled st id :
  RI st → forallb exited (rl_workers st) = true → id ∈ p_order pl → done (s_rows (rl_core st)) id = true.
Proof.
  intros HI Hx Hid. destruct st as [core fin ws]. cbn [rl_core rl_finished rl_workers] in *.
  assert (Exited ∈ ws) as Hin.
  { pose proof (ri_threads _ _ _ _ HI) as Hl. destruct ws as [|w ws]; [simpl in Hl; lia|]. destruct w; try done. by left. }
  pose proof (ri_exit _ _ _ _ HI Hin) as Hf. rewrite (ri_finished _ _ _ _ HI) in Hf.
  destruct (decide (settled (s_rows core) ws id = true)) as [?|Hn]; [by eapply settled_done|].
  assert (length (filter (λ x, settled (s_rows core) ws x = true) (p_order pl)) < length (p_order pl))%nat; [|lia].
  by apply (length_filter_lt _ _ id).
Qed.

(** The answer of the backend to each operation, in the order of the calls:
    the last entry of each row and where it stands in the log. *)
Definition explains (log : list (string * Outcome)) (r : Row) : Prop :=
  ∃ k out, log !! k = Some (r_op_id r, out) ∧ r_outcome r = Some (o_status out) ∧
    r_completed_bytes r = o_bytes out ∧ r_detail r = o_detail out ∧ ∀ d, d ∈ r_deps r → d ∈ (take k log).*1.

Lemma end_explained b1 log st :
  RI st → Lin b1 log st → forallb exited (rl_workers st) = true →
  calls b1 log (s_backend (rl_core st)) ∧ log.*1 ≡ₚ p_order pl ∧
  ∀ id, id ∈ p_order pl → ∃ r e s c, s_rows (rl_core st) !! id = Some r ∧ r_op_id r = id ∧ r_deps r = deps_of rows0 id ∧
    r_eligible_ns r = Some e ∧ r_submit_ns r = Some s ∧ r_complete_ns r = Some c ∧
    ready ex pl rows0 (s_rows (rl_core st)) id e ∧ e ≤ s ∧ explains log r.
Proof.
  intros HI HL Hx. split; [apply HL|].
  assert (∀ i id out, rl_workers st !! i ≠ Some (Ran id out)) as Hno.
  { intros i id out Hi. rewrite forallb_forall in Hx. apply list_elem_of_lookup_2, list_elem_of_In, Hx in Hi. done. }
  split.
  - apply NoDup_Permutation; [apply HL|apply (pr_nodup _ _ _ _ Hprep)|]. intros id. rewrite (ln_ids _ _ _ HL). split.
    + intros [Hd|(i & out & Hi)]; [|by destruct (Hno i id out)]. unfold done in Hd.
      destruct (s_rows (rl_core st) !! id) as [r|] eqn:Hr; [|done]. apply bool_decide_eq_true in Hd as [c Hc].
      by apply (ri_done _ _ _ _ HI id r c).
    + intros Hid. left. by apply end_settled.
  - intros id Hid. pose proof (end_settled st id HI Hx Hid) as Hd. destruct (ri_rows _ _ _ _ HI id Hid) as (r & Hr & Hrid & Hdeps & _).
    unfold done in Hd. rewrite Hr in Hd. apply bool_decide_eq_true in Hd as [c Hc].
    destruct (ri_done _ _ _ _ HI id r c Hr Hc) as (_ & e & s & ? & ? & ? & ? & _).
    destruct (ln_row _ _ _ HL id r c Hr Hc) as (out & (k & Hk)%list_elem_of_lookup & ? & ? & ?).
    exists r, e, s, c. split_and!; try done. exists k, out. rewrite Hrid, Hdeps. split_and!; try done.
    intros d Hdep. by eapply (ln_topo _ _ _ HL).
Qed.

Lemma end_steps st : RI st → forallb exited (rl_workers st) = true → steps_left st = 0.
Proof.
  intros HI Ex. pose proof (steps_left_nonneg st HI) as Hnn.
  unfold steps_left in *. destruct st as [core fin ws]. cbn [rl_core rl_finished rl_workers] in *.
  assert (stages ws = 0 ∧ busy ws = []) as [E1 E2].
  { clear -Ex. induction ws as [|w ws IH]; [done|]. cbn in Ex. destruct w; try done. destruct (IH Ex). done. }
  assert (Z.of_nat (length (p_order pl)) ≤ fin); [|rewrite E1, E2 in *; cbn [length] in *; lia].
  apply (ri_exit _ _ _ _ HI). pose proof (ri_threads _ _ _ _ HI) as Hl.
  destruct ws as [|w ws]; [simpl in Hl; lia|]. destruct w; try done. by left.
Qed.
Lemma end_rows st :
  RI st →
  ∃ rows, mapMR (λ i, match s_rows (rl_core st) !! i with Some r => Ok r | None => KeyErr end) (p_order pl) = Ok rows.
Proof.
  intros HI. destruct (mapMR_total (λ i, match s_rows (rl_core st) !! i with Some r => Ok r | None => KeyErr end)
    (λ i r, s_rows (rl_core st) !! i = Some r) (p_order pl)) as (rows & Er & _); [|eauto].
  intros i Hi. destruct (ri_rows _ _ _ _ HI i Hi) as (r & -> & _). eauto.
Qed.
End interleavings.

(** When each call returns and leaves a good backend, calls that act one after
    the other are such calls. *)
Lemma serial_conform_from {B} `{Backend B} ex pl rows0 remaining0 :
  prepared ex pl rows0 remaining0 → 1 ≤ e_workers ex → ∀ (good : B → Prop),
  (∀ b id, good b → id ∈ p_order pl → ∃ b' out, perform ex pl b id = Ok (b', out) ∧ good b') →
  ∀ st acts, RInv ex pl rows0 good [] (rl_core st) (rl_finished st) (rl_workers st) → serial ex pl acts st →
  conform ex pl good (λ b id b' out, perform ex pl b id = Ok (b', out)) acts st.
Proof.
  intros Hprep Hw good Hserve st acts. revert st.
  induction acts as [|a acts IH]; intros st HI; [done|]. cbn [serial conform]. intros [Ha Hser].
  destruct (step ex pl a st) as [r|] eqn:E; [|done].
  assert (ordinary a ∧ leaves_good good a ∧ allowed (λ b id b' out, perform ex pl b id = Ok (b', out)) a st) as (Ho & Hg & Hal).
  { destruct a as [| | |i aft ans| | |]; try done. cbn [step] in E.
    destruct (rl_workers st !! i) as [[|t id|id|id out|id|id|]|] eqn:Hi; try done.
    specialize (Ha id eq_refl). unfold own_answer in Ha.
    destruct (Hserve (s_backend (rl_core st)) id) as (b' & out & Ep & Hb'); [apply HI|by eapply task_in_order|].
    rewrite Ep in Ha. destruct Ha as [-> ->]. split_and!; try done. intros id'. rewrite Hi. by intros [= <-]. }
  split; [done|]. destruct r as [st'|]; [|done].
  destruct (step_RInv ex pl _ _ Hprep Hw good a st _ HI Ho Hg E) as (? & [= <-] & HI'). by apply IH.
Qed.

(** ** The run of a document on threads *)

(** One call of the backend after the other. *)
Abbreviation sequential ex pl := (calls (λ b id b' out, perform ex pl b id = Ok (b', out))).

Section real_run.
Context {B : Type} `{Backend B}.
Variables (ex : Executor) (ops : list json) (b b1 : B).
Hypothesis Hops : operations_of (e_intent ex) = Ok ops.
Hypothesis Hsched : schedulable ex ops.
Hypothesis Hworkers : 1 ≤ e_workers ex.
Hypothesis Hinit : bk_initialize (e_intent ex) b = Ok b1.

(** The state the threads start from. *)
Lemma real_setup_total good performs :
  good b1 →
  ∃ base rows0 st0, mapMR (make_row ex base) ops = Ok rows0 ∧
    real_setup ex b = Ok (the_plan ops rows0, st0) ∧
    RInv ex (the_plan ops rows0) (the_rows rows0) good [] (rl_core st0) (rl_finished st0) (rl_workers st0) ∧
    Lin (the_rows rows0) performs b1 [] st0 ∧
    steps_left (the_plan ops rows0) st0 = 5 * Z.of_nat (length ops) + e_workers ex.
Proof.
  intros Hb1. destruct (prepare_schedulable ex ops Hops Hsched) as (base & rows0 & Hrows & Hprep).
  exists base, rows0.
  destruct (start_RInv ex (the_plan ops rows0) (the_rows rows0) (the_remaining rows0)
    (the_prepared ex ops base rows0 Hsched Hrows) Hworkers good performs b1 Hb1) as (st0 & E & HI & HL & Hs).
  exists st0. split_and!; try done.
  - unfold real_setup. rewrite Hprep. cbn [mbind res_bind]. rewrite Hinit. cbn [mbind res_bind]. by rewrite E.
  - rewrite Hs. cbn [the_plan p_order]. rewrite length_fmap, (same_length ex ops base rows0) by done. done.
Qed.

(** What a whole run of the threads amounts to: a complete ledger, the number
    of steps, and each row explained by the call of its operation, made once
    and after the calls of its prerequisites had ended. *)
Record real_outcome (acts : list (action B)) (x : list Row * Z * B) : Prop := {
  ro_complete : run_complete ex ops x.1.1;
  ro_steps : cost_all acts = 5 * Z.of_nat (length ops) + e_workers ex;
  ro_calls : ∃ pl st0, real_setup ex b = Ok (pl, st0) ∧
    (history ex pl acts st0).*1 ≡ₚ p_order pl ∧ Forall (explains (history ex pl acts st0)) x.1.1
}.

(** The calls moreover form one sequence, in which none raises. *)
Record serial_outcome (good : B → Prop) (acts : list (action B)) (x : list Row * Z * B) : Prop := {
  so_real : real_outcome acts x;
  so_calls : ∃ pl st0 b2, real_setup ex b = Ok (pl, st0) ∧
    sequential ex pl b1 (history ex pl acts st0) b2 ∧ good b2 ∧ bk_close b2 = Ok x.2
}.

Lemma execute_real_outcome good performs acts r :
  good b1 → (∀ b2, good b2 → ∃ b3, bk_close b2 = Ok b3) →
  (∀ pl st0, real_setup ex b = Ok (pl, st0) → conform ex pl good performs acts st0) →
  execute_real ex b acts = Some r → ∃ x, r = Ok x ∧ real_outcome acts x ∧
    ∃ pl st0 b2, real_setup ex b = Ok (pl, st0) ∧ calls performs b1 (history ex pl acts st0) b2 ∧ good b2 ∧ bk_close b2 = Ok x.2.
Proof.
  intros Hb1 Hclose Hco.
  destruct (real_setup_total good performs Hb1) as (base & rows0 & st0 & Hrows & Hset & HI & HL & Hsteps). unfold execute_real.
  specialize (Hco _ _ Hset). rewrite Hset. set (pl := the_plan ops rows0) in *.
  pose proof (the_prepared ex ops base rows0 Hsched Hrows) as Hprep. fold pl in Hprep.
  destruct (run_schedule ex pl acts st0) as [x|] eqn:Erun; [|done].
  destruct (run_schedule_inv ex pl _ _ Hprep Hworkers good performs b1 acts st0 [] x HI HL Hco Erun) as (st & -> & HI' & HL' & Hc).
  cbn [app] in HL'. rewrite (ended_exited _ (ri_alive _ _ _ _ _ _ _ _ HI')).
  destruct (forallb exited (rl_workers st)) eqn:Ex; [|done]. intros Hr. apply (inj Some) in Hr as <-.
  destruct (end_explained ex pl _ _ Hprep Hworkers good performs b1 _ st HI' HL' Ex) as (Hseq & Hperm & Hall).
  pose proof (ri_backend _ _ _ _ _ _ _ _ HI') as Hgood. destruct (Hclose _ Hgood) as (b3 & Hb3).
  rewrite Hb3. cbn [mbind res_bind].
  destruct (mapMR_total (λ i, match s_rows (rl_core st) !! i with Some r => Ok r | None => KeyErr end)
    (λ i r, s_rows (rl_core st) !! i = Some r) (p_order pl)) as (rows & Er & HF).
  { intros i Hi. destruct (Hall i Hi) as (r & _ & _ & _ & Hr & _). rewrite Hr. eauto. }
  rewrite Er. cbn [mbind res_bind]. eexists. split; [done|].
  split; [|exists pl, st0, (s_backend (rl_core st)); by split_and!].
  assert (Forall2 (λ o r, finished rows (op_delay (e_delay ex) o) o r) ops rows) as Hfin.
  { apply (rows_finished ex ops base rows0 (s_rows (rl_core st))); [done|done| |done].
    intros id Hid. destruct (Hall id Hid) as (r & e & s & c & ? & ? & ? & ? & ? & ? & ? & ? & _). by exists r, e, s, c. }
  constructor; cbn [fst snd].
  - split; [done|]. by apply (finished_no_violations ex ops).
  - rewrite <- Hsteps, Hc. rewrite (end_steps ex pl _ _ Hprep Hworkers good st HI' Ex). lia.
  - exists pl, st0. split_and!; try done.
    apply Forall_lookup_2. intros k r Hr. destruct (Forall2_lookup_r _ _ _ _ _ HF Hr) as (id & Hid & Hst).
    destruct (Hall id) as (r' & _ & _ & _ & Hr' & _ & _ & _ & _ & _ & _ & _ & Hex); [by eapply list_elem_of_lookup_2|].
    congruence.
Qed.

(** Nothing is assumed of what the calls do. *)
Lemma ordinary_conform pl (acts : list (action B)) st : Forall ordinary acts → conform ex pl (λ _, True) (λ _ _ _ _, True) acts st.
Proof.
  revert st. induction acts as [|a acts IH]; intros st Ho; [done|]. apply Forall_cons in Ho as [Ha Ho].
  cbn [conform]. destruct (step _ _ _ _) as [r|]; [|done]. split; [split_and!; by destruct a|].
  destruct r; [by apply IH|done].
Qed.

(** A backend that serves the operations answers each call, one after the other. *)
Lemma plan_serves good `{!Serves ex ops good} base rows0 b' id :
  mapMR (make_row ex base) ops = Ok rows0 → good b' → id ∈ p_order (the_plan ops rows0) →
  ∃ b'' out, perform ex (the_plan ops rows0) b' id = Ok (b'', out) ∧ good b''.
Proof.
  intros Hrows Hb (s & Hs)%list_elem_of_lookup. cbn in Hs. apply list_lookup_fmap_Some in Hs as (r & -> & Hr).
  destruct (row_at_inv ex ops base rows0 Hsched Hrows s r Hr) as (o & Ho & Hid).
  unfold perform. rewrite (the_by_id ex ops base rows0 Hsched Hrows s o r Ho Hr).
  by apply (serves_perform b' (r_op_id r) o); [|eapply list_elem_of_lookup_2|].
Qed.

Lemma serial_conform good `{!Serves ex ops good} acts pl st0 :
  good b1 → real_setup ex b = Ok (pl, st0) → serial ex pl acts st0 →
  conform ex pl good (λ b2 id b3 out, perform ex pl b2 id = Ok (b3, out)) acts st0.
Proof.
  intros Hb1 Hset.
  destruct (real_setup_total good (λ _ _ _ _, True) Hb1) as (base & rows0 & st & Hrows & Hset' & HI & _ & _).
  rewrite Hset in Hset'. injection Hset' as -> ->.
  apply (serial_conform_from ex _ _ _ (the_prepared ex ops base rows0 Hsched Hrows) Hworkers good); [|done].
  intros. by apply (plan_serves good base).
Qed.
End real_run.

(** C2: whatever the calls of the backend do and however they overlap, as long as
    each returns or raises an ordinary exception (a subclass of [Exception]): no
    step of a thread raises, and a run whose threads have all ended has a
    complete ledger.  Every operation was called once, after the calls of its
    prerequisites had ended plus the delay, and its row holds what its own call
    answered, the exception as an error outcome. *)
Theorem execute_real_correct {B} `{Backend B} ex ops (b b1 : B) acts r :
  operations_of (e_intent ex) = Ok ops → schedulable ex ops → 1 ≤ e_workers ex →
  bk_initialize (e_intent ex) b = Ok b1 → (∀ b2 : B, ∃ b3, bk_close b2 = Ok b3) →
  Forall ordinary acts → execute_real ex b acts = Some r →
  ∃ x, r = Ok x ∧ real_outcome ex ops b acts x.
Proof.
  intros Hops Hs Hw Hinit Hclose Hacts Hr.
  destruct (execute_real_outcome ex ops b b1 Hops Hs Hw Hinit (λ _, True) (λ _ _ _ _, True) acts r) as (x & ? & ? & _);
    [done|auto| |done|eauto].
  intros. by apply ordinary_conform.
Qed.

(** When the calls act one after the other on a backend that serves the
    operations, none raises and they form one sequential history. *)
Lemma execute_real_serial {B} `{Backend B} ex ops (good : B → Prop) `{!Serves ex ops good} b b1 acts r :
  operations_of (e_intent ex) = Ok ops → schedulable ex ops → 1 ≤ e_workers ex →
  bk_initialize (e_intent ex) b = Ok b1 → good b1 →
  (∀ pl st0, real_setup ex b = Ok (pl, st0) → serial ex pl acts st0) →
  execute_real ex b acts = Some r → ∃ x, r = Ok x ∧ serial_outcome ex ops b b1 good acts x.
Proof.
  intros Hops Hs Hw Hinit Hb1 Hser Hr.
  destruct (real_setup_total ex ops b b1 Hops Hs Hw Hinit good (λ _ _ _ _, True) Hb1) as (_ & rows & st & _ & Hset & _).
  destruct (execute_real_outcome ex ops b b1 Hops Hs Hw Hinit good
    (λ b2 id b3 out, perform ex (the_plan ops rows) b2 id = Ok (b3, out)) acts r) as (x & -> & Ho & pl & st0 & b2 & E & ? & ? & ?); try done.
  - intros b2 Hb2. destruct (serves_close b2 Hb2) as (b3 & ? & _). eauto.
  - intros pl st0 E. rewrite Hset in E. injection E as <- <-. apply (serial_conform ex ops b b1 Hops Hs Hw Hinit good); auto.
  - exists x. split; [done|]. constructor; [done|]. rewrite Hset in E. injection E as <- <-. exists (the_plan ops rows), st, b2. by split_and!.
Qed.

(** C3: the threads neither deadlock nor run for ever: whatever steps they have
    taken and whatever their calls did, at most five steps per operation and one
    per thread, they can be run to the end of the whole run, however the
    remaining calls end. *)
Theorem execute_real_live {B} `{Backend B} ex ops (b b1 : B) :
  operations_of (e_intent ex) = Ok ops → schedulable ex ops → 1 ≤ e_workers ex →
  bk_initialize (e_intent ex) b = Ok b1 → (∀ b2 : B, ∃ b3, bk_close b2 = Ok b3) →
  ∃ pl st0, real_setup ex b = Ok (pl, st0) ∧
    ∀ acts r, Forall ordinary acts → run_schedule ex pl acts st0 = Some r →
      cost_all acts ≤ 5 * Z.of_nat (length ops) + e_workers ex ∧
      ∃ st, r = Ok st ∧ ∀ ans, fair_answers (λ _, True) ans →
        ∃ acts' x, obeys ex pl ans acts' st ∧ execute_real ex b (acts ++ acts') = Some (Ok x).
Proof.
  intros Hops Hs Hw Hinit Hclose.
  destruct (real_setup_total ex ops b b1 Hops Hs Hw Hinit (λ _, True) (λ _ _ _ _, True) I) as (base & rows0 & st0 & Hrows & Hset & HI & HL & Hsteps).
  exists (the_plan ops rows0), st0. split; [done|]. intros acts r Hacts Hr.
  pose proof (the_prepared ex ops base rows0 Hs Hrows) as Hprep.
  destruct (run_schedule_inv ex _ _ _ Hprep Hw (λ _, True) (λ _ _ _ _, True) b1 acts st0 [] r HI HL) as (st & -> & HI' & _ & Hc);
    [by apply ordinary_conform|done|].
  pose proof (steps_left_nonneg ex _ _ _ Hprep _ st HI'). split; [lia|]. exists st. split; [done|]. intros ans Hans.
  destruct (can_finish ex _ _ _ Hprep Hw _ ans st Hans HI') as (acts' & st' & Hob & Hr' & Hx & HI'').
  exists acts'. destruct (end_rows ex _ _ _ st' HI'') as (rows & Er).
  destruct (Hclose (s_backend (rl_core st'))) as (b3 & Hb3). eexists. split; [done|].
  unfold execute_real. rewrite Hset, (run_schedule_app _ _ _ _ _ _ Hr), Hr'.
  rewrite (ended_exited _ (ri_alive _ _ _ _ _ _ _ _ HI'')), Hx, Hb3. cbn [mbind res_bind]. by rewrite Er.
Qed.

(** ** Schedules *)

(** The first thread runs every operation; then all threads end. *)
Definition one_thread {B} (aft : B) (ans : res Outcome) (n w : nat) : list (action B) :=
  concat (replicate n [Tick 10; Take 0; Submit 0; Tick 5; Perform 0 aft ans; Tick 7; Record_ 0; Release 0])
  ++ (Exit <$> seq 0 w).

Lemma one_thread_ordinary {B} (aft : B) ans n w : ordinary (Perform 0 aft ans) → Forall ordinary (one_thread aft ans n w).
Proof.
  intros Hb. unfold one_thread. apply Forall_app. split.
  - induction n as [|n IH]; [constructor|]. cbn [replicate concat]. apply Forall_app. split; [by repeat constructor|done].
  - apply Forall_fmap, Forall_forall. done.
Qed.

(** The schedule with the backend's own answers, one call after the other. *)
Definition own_action {B} `{Backend B} ex pl (a : action B) (st : real) : action B :=
  match a with
  | Perform i _ _ =>
      match rl_workers st !! i with
      | Some (Submitted id) =>
          match perform ex pl (s_backend (rl_core st)) id with
          | Ok (b', out) => Perform i b' (Ok out)
          | Raise e => Perform i (s_backend (rl_core st)) (Raise e)
          end
      | _ => a
      end
  | _ => a
  end.

Fixpoint own_actions {B} `{Backend B} ex pl (acts : list (action B)) (st : real) : list (action B) :=
  match acts with
  | [] => []
  | a :: acts => own_action ex pl a st ::
      match step ex pl (own_action ex pl a st) st with Some (Ok st') => own_actions ex pl acts st' | _ => [] end
  end.

Lemma own_actions_serial {B} `{Backend B} ex pl (acts : list (action B)) st : serial ex pl (own_actions ex pl acts st) st.
Proof.
  revert st. induction acts as [|a acts IH]; intros st; [done|]. cbn [own_actions serial]. split.
  - destruct a as [| | |i aft ans| | |]; try done. cbn [own_action].
    destruct (rl_workers st !! i) as [[|t id|id|id out|id|id|]|] eqn:Hi; try (intros ?; by rewrite Hi).
    destruct (perform ex pl _ id) as [[b' out]|e] eqn:E; intros id'; rewrite Hi; intros [= <-]; unfold own_answer; by rewrite E.
  - destruct (step _ _ _ _) as [[st'|]|]; [apply IH|done..].
Qed.

Definition own_schedule {B} `{Backend B} ex (b : B) (acts : list (action B)) : list (action B) :=
  match real_setup ex b with Ok (pl, st0) => own_actions ex pl acts st0 | Raise _ => [] end.

Lemma own_schedule_serial {B} `{Backend B} ex (b : B) acts pl st0 :
  real_setup ex b = Ok (pl, st0) → serial ex pl (own_schedule ex b acts) st0.
Proof. intros E. unfold own_schedule. rewrite E. apply own_actions_serial. Qed.

(** A backend that raises on every typed call. *)
Definition refusing_backend : Backend unit := {|
  bk_profile _ := None; bk_set_profile _ b := b; bk_initialize _ b := Ok b;
  bk_payload _ _ _ _ _ := Ok [];
  bk_store b _ _ _ _ := Ok (b, mkOutcome "success" 0 "");
  bk_load b _ _ _ _ _ _ := Ok (b, mkOutcome "success" 0 "");
  bk_release b _ _ _ := Ok (b, mkOutcome "success" 0 "");
  bk_exists := None; bk_perform _ _ := Raise (Exn AttributeError "no attribute 'perform'"); bk_close b := Ok b; bk_service_ns _ _ := 5 |}.

(** The operations of the example fail, one by one, and the run ends. *)
Definition refused_run : list (action unit) := @own_schedule unit refusing_backend posix_executor tt
  (one_thread tt (Ok (mkOutcome "success" 0 "")) (length posix_ops) 2).

Lemma execute_real_correct_witness :
  match @execute_real unit refusing_backend posix_executor tt refused_run with
  | Some r => ∃ x, r = Ok x ∧ @real_outcome unit refusing_backend posix_executor posix_ops tt refused_run x
  | None => False
  end.
Proof.
  destruct (execute_real _ _ _) as [r|] eqn:E; [|vm_compute in E; discriminate].
  apply (@execute_real_correct unit refusing_backend posix_executor posix_ops tt tt refused_run r);
    [vm_compute; reflexivity|exact posix_schedulable|done|done|by eexists| |exact E].
  vm_compute. repeat constructor.
Defined.

Lemma execute_real_live_witness :
  ∃ pl st0, @real_setup unit null_backend posix_executor tt = Ok (pl, st0) ∧
    ∀ acts r, Forall ordinary acts → @run_schedule unit posix_executor pl acts st0 = Some r →
      cost_all acts ≤ 5 * Z.of_nat (length posix_ops) + e_workers posix_executor ∧
      ∃ st, r = Ok st ∧ ∀ ans, fair_answers (λ _, True) ans →
        ∃ acts' x, obeys posix_executor pl ans acts' st ∧
          @execute_real unit null_backend posix_executor tt (acts ++ acts') = Some (Ok x).
Proof.
  apply (@execute_real_live unit null_backend posix_executor posix_ops tt tt);
    [vm_compute; reflexivity|exact posix_schedulable|done|done|by eexists].
Defined.

(** A call that raises [SystemExit] ends its thread, with the operation neither
    finished nor given back: the other thread can neither take an operation nor
    exit, at any time. *)
Example death_strands :
  match @real_setup unit null_backend posix_executor tt with
  | Ok (pl, st0) =>
      match run_schedule posix_executor pl [Take 0; Submit 0; Perform 0 tt (Raise (Exn SystemExit "1"))] st0 with
      | Some (Ok st) => ∀ d, 0 ≤ d → ∃ st', step posix_executor pl (Tick d) st = Some (Ok st') ∧
          rl_workers st' !! 1%nat = Some Idle ∧
          step posix_executor pl (Take 1) st' = None ∧ step posix_executor pl (Exit 1) st' = None
      | _ => False
      end
  | Raise _ => False
  end.
Proof. vm_compute. intros d Hd. destruct d; [by eexists|by eexists|done]. Qed.
