(* ===== verification/FakeFS.v ===== *)
(** * The in-memory file system ([tools/kvio/posix_fs.py])

    [FakeFS] replays posix calls on maps: names lead to inodes, handles hold
    inodes, and a handle remembers the identity of the content behind it, so a
    read can be verified.  One definition per call, in the order of the code.
    Dictionaries are finite maps; paths are strings, handles are hashable
    values. *)

From stdpp Require Import prelude strings list numbers gmap sorting.
From Stdlib Require Import ZArith Lia Ascii.
From S2P Require Import Prelude PyText PyJson JsonText Intent Intent2 Workload3 ContentProfile IntentExec.
Local Open Scope Z_scope.

(** ** Results *)
Definition ENOENT : Z := 2.
Definition EBADF : Z := 9.
Definition EEXIST : Z := 17.
Definition ENOTEMPTY : Z := 39.

Record Result := mkResult {
  rs_outcome : string; rs_errno : Z; rs_bytes : Z; rs_meta : dict; rs_handle : option json
}.

Definition result (outcome : string) (errno nbytes : Z) (meta : dict) : Result :=
  mkResult outcome errno nbytes meta None.
Definition success : Result := result "success" 0 0 [].
Definition miss : Result := result "miss" ENOENT 0 [].

(** What [_perform_v3] makes of a result. *)
Definition outcome_of (r : Result) : Outcome :=
  mkOutcome (rs_outcome r) (rs_bytes r) (match dget "detail" (rs_meta r) with Some v => py_str v | None => "" end).

(** ** Buffers *)

(** An index of a slice, clamped to [0 .. n]. *)
Definition clamp (n i : Z) : Z := if i <? 0 then Z.max 0 (n + i) else Z.min i n.

(** [buf[i:j]] *)
Definition py_slice (buf : bytes) (i j : Z) : bytes :=
  let n := Z.of_nat (length buf) in
  take (Z.to_nat (clamp n j - clamp n i)) (drop (Z.to_nat (clamp n i)) buf).

(** [buf[i:j] = data] *)
Definition splice (buf : bytes) (i j : Z) (data : bytes) : bytes :=
  let n := Z.of_nat (length buf) in
  take (Z.to_nat (clamp n i)) buf ++ data ++ drop (Z.to_nat (Z.max (clamp n i) (clamp n j))) buf.

(** [bytes(max(0, n))] *)
Definition zeros (n : Z) : bytes := replicate (Z.to_nat n) 0.

(** ** Paths *)

(** The part before the last slash, if there is one. *)
Fixpoint before_last_slash (s : string) : option string :=
  match s with
  | EmptyString => None
  | String c s => match before_last_slash s with
                  | Some p => Some (String c p)
                  | None => if Ascii.eqb c "/" then Some "" else None
                  end
  end.

(** [path.rpartition("/")[0] or "."] *)
Definition parent (path : string) : string :=
  match before_last_slash path with
  | Some p => if String.eqb p "" then "." else p
  | None => "."
  end.

(** ** State *)
Record FakeFS := mkFS {
  fs_profile : profile;
  fs_fail : list (string * string);
  fs_inodes : gmap Z bytes;
  fs_names : gmap string Z;
  fs_dirs : gset string;
  fs_handles : gmap hkey Z;
  fs_handle_node : gmap hkey json;
  fs_path_node : gmap string json;
  fs_pos : gmap hkey Z;
  fs_next : Z
}.

(** [FakeFS.__init__] *)
Definition new_fs (p : profile) (fail : list (string * string)) : FakeFS :=
  mkFS p fail ∅ ∅ {["."]} ∅ ∅ ∅ ∅ 0.

Definition set_inodes (st : FakeFS) (m : gmap Z bytes) : FakeFS :=
  mkFS (fs_profile st) (fs_fail st) m (fs_names st) (fs_dirs st) (fs_handles st) (fs_handle_node st)
    (fs_path_node st) (fs_pos st) (fs_next st).
Definition set_names (st : FakeFS) (m : gmap string Z) : FakeFS :=
  mkFS (fs_profile st) (fs_fail st) (fs_inodes st) m (fs_dirs st) (fs_handles st) (fs_handle_node st)
    (fs_path_node st) (fs_pos st) (fs_next st).
Definition set_dirs (st : FakeFS) (d : gset string) : FakeFS :=
  mkFS (fs_profile st) (fs_fail st) (fs_inodes st) (fs_names st) d (fs_handles st) (fs_handle_node st)
    (fs_path_node st) (fs_pos st) (fs_next st).
Definition set_handles (st : FakeFS) (m : gmap hkey Z) : FakeFS :=
  mkFS (fs_profile st) (fs_fail st) (fs_inodes st) (fs_names st) (fs_dirs st) m (fs_handle_node st)
    (fs_path_node st) (fs_pos st) (fs_next st).
Definition set_path_node (st : FakeFS) (m : gmap string json) : FakeFS :=
  mkFS (fs_profile st) (fs_fail st) (fs_inodes st) (fs_names st) (fs_dirs st) (fs_handles st)
    (fs_handle_node st) m (fs_pos st) (fs_next st).
Definition set_pos (st : FakeFS) (m : gmap hkey Z) : FakeFS :=
  mkFS (fs_profile st) (fs_fail st) (fs_inodes st) (fs_names st) (fs_dirs st) (fs_handles st)
    (fs_handle_node st) (fs_path_node st) m (fs_next st).

(** [self.names[p] = self._new_inode(data)] *)
Definition add_file (st : FakeFS) (p : string) (data : bytes) : FakeFS :=
  let ino := fs_next st + 1 in
  mkFS (fs_profile st) (fs_fail st) (<[ ino := data ]> (fs_inodes st)) (<[ p := ino ]> (fs_names st))
    (fs_dirs st) (fs_handles st) (fs_handle_node st) (fs_path_node st) (fs_pos st) ino.

Definition parent_ok (st : FakeFS) (path : string) : bool := bool_decide (parent path ∈ fs_dirs st).

(** [len(self._children(d))] *)
Definition children (st : FakeFS) (d : string) : Z :=
  Z.of_nat (length (filter (λ x, parent x = d) (elements (dom (fs_names st)))))
  + Z.of_nat (length (filter (λ x, parent x = d) (elements (fs_dirs st ∖ {["."]})))).

(** [d[k]] on a map. *)
Definition at_key {K A} `{Countable K} (m : gmap K A) (k : K) : res A :=
  match m !! k with Some v => Ok v | None => Raise (Exn KeyError "key") end.

Section fs.
Variable blake2b : string → nat → bytes.

Definition fs_content (st : FakeFS) (node : json) (offset len : Z) : res bytes :=
  content blake2b (fs_profile st) (py_str node) offset len.

Definition init_entry (ns : json) (st : FakeFS) (e : json) : res FakeFS :=
  nodes ← item ns "nodes"; nj ← item e "node"; name ← as_str nj; node ← item nodes name;
  pj ← item e "path"; p ← as_str pj;
  let st := set_path_node st (<[ p := nj ]> (fs_path_node st)) in
  kind ← item node "kind";
  if eq_str kind "dir" then Ok (set_dirs st ({[p]} ∪ fs_dirs st))
  else
    szj ← get_default node "size" (JInt 0); size ← as_int szj;
    data ← fs_content st nj 0 size;
    Ok (add_file st p data).

Definition fs_initialize (workload : json) (st : FakeFS) : res FakeFS :=
  ns ← item workload "namespace"; ej ← item ns "entries"; entries ← iterate ej;
  foldM (init_entry ns) st entries.

(** [set(a["flags"])]: the elements have to be hashable. *)
Definition flag_set (v : json) : res (list json) := l ← iterate v; mapMR hkey_of l ;; Ok l.
Definition has (fl : list json) (s : string) : bool := existsb (λ f, eq_str f s) fl.

(** [self.path_node.get(p) or op["expected"].get("node") or f"node:{p}"] *)
Definition node_for (st : FakeFS) (op : json) (p : string) : res json :=
  let known := default JNull (fs_path_node st !! p) in
  if py_true known then Ok known else
  exp ← item op "expected"; n ← get exp "node";
  Ok (if py_true n then n else JStr ("node:" +:+ p)).

(** The rest of [open], once the name leads to an inode. *)
Definition attach (st : FakeFS) (op a : json) (p : string) (fl : list json) : res (FakeFS * Result) :=
  ino ← at_key (fs_names st) p;
  let st := if has fl "trunc" then set_inodes st (<[ ino := [] ]> (fs_inodes st)) else st in
  hj ← item a "handle"; h ← hkey_of hj;
  node ← node_for st op p;
  Ok (mkFS (fs_profile st) (fs_fail st) (fs_inodes st) (fs_names st) (fs_dirs st)
        (<[ h := ino ]> (fs_handles st)) (<[ h := node ]> (fs_handle_node st))
        (<[ p := node ]> (fs_path_node st)) (<[ h := 0 ]> (fs_pos st)) (fs_next st),
      mkResult "success" 0 0 [("node", node)] (Some hj)).

Definition do_open (st : FakeFS) (op a : json) : res (FakeFS * Result) :=
  pj ← item a "path"; p ← as_str pj; flj ← item a "flags"; fl ← flag_set flj;
  match fs_names st !! p with
  | None =>
      if negb (has fl "creat") || negb (parent_ok st p) then Ok (st, miss)
      else attach (add_file st p []) op a p fl
  | Some _ =>
      if has fl "excl" && has fl "creat" then Ok (st, result "exists" EEXIST 0 [])
      else attach st op a p fl
  end.

Definition handle_of (a : json) : res hkey := hj ← item a "handle"; hkey_of hj.

Definition do_close (st : FakeFS) (a : json) : res (FakeFS * Result) :=
  h ← handle_of a; at_key (fs_handles st) h ;;
  Ok (set_handles st (delete h (fs_handles st)), success).

(** [a["offset"] if call == "pwrite" else self.pos[a["handle"]]] *)
Definition offset_of (st : FakeFS) (a : json) (h : hkey) (positional : bool) : res Z :=
  if positional then (oj ← item a "offset"; as_int oj) else at_key (fs_pos st) h.

Definition advance (st : FakeFS) (h : hkey) (positional : bool) (n : Z) : res FakeFS :=
  if positional then Ok st else
  p ← at_key (fs_pos st) h; Ok (set_pos st (<[ h := p + n ]> (fs_pos st))).

Definition do_write (st : FakeFS) (a : json) (positional : bool) : res (FakeFS * Result) :=
  h ← handle_of a; ino ← at_key (fs_handles st) h; buf ← at_key (fs_inodes st) ino;
  off ← offset_of st a h positional;
  node ← at_key (fs_handle_node st) h; lj ← item a "length"; ln ← as_int lj;
  data ← fs_content st node off ln;
  let n := Z.of_nat (length data) in
  let buf := if Z.of_nat (length buf) <? off + n then buf ++ zeros (off + n - Z.of_nat (length buf)) else buf in
  st ← advance (set_inodes st (<[ ino := splice buf off (off + n) data ]> (fs_inodes st))) h positional n;
  Ok (st, result "success" 0 n []).

Definition do_read (st : FakeFS) (a : json) (positional : bool) : res (FakeFS * Result) :=
  h ← handle_of a; ino ← at_key (fs_handles st) h; buf ← at_key (fs_inodes st) ino;
  off ← offset_of st a h positional; lj ← item a "length"; ln ← as_int lj;
  let data := py_slice buf off (off + ln) in
  let n := Z.of_nat (length data) in
  st ← advance st h positional n;
  bad ← (if bool_decide (data = []) then Ok false else
           node ← at_key (fs_handle_node st) h; expected ← fs_content st node off n;
           Ok (negb (bool_decide (data = expected))));
  Ok (st, if (bad : bool) then result "error" 0 n [("detail", JStr "content mismatch")]
          else result (if n =? ln then "success" else "eof") 0 n []).

Definition size_meta (n : Z) : dict := [("size", JInt n)].

Definition do_fstat (st : FakeFS) (a : json) : res (FakeFS * Result) :=
  h ← handle_of a; ino ← at_key (fs_handles st) h; buf ← at_key (fs_inodes st) ino;
  Ok (st, result "success" 0 0 (size_meta (Z.of_nat (length buf)))).

Definition path_of (a : json) (k : string) : res string := pj ← item a k; as_str pj.

Definition do_stat (st : FakeFS) (a : json) : res (FakeFS * Result) :=
  p ← path_of a "path";
  match fs_names st !! p with
  | Some ino => buf ← at_key (fs_inodes st) ino;
                Ok (st, result "success" 0 0 (size_meta (Z.of_nat (length buf))))
  | None => Ok (st, if bool_decide (p ∈ fs_dirs st) then result "success" 0 0 (size_meta 0) else miss)
  end.

Definition do_readdir (st : FakeFS) (a : json) : res (FakeFS * Result) :=
  p ← path_of a "path";
  Ok (st, if bool_decide (p ∈ fs_dirs st) then result "success" 0 0 [("count", JInt (children st p))] else miss).

(** [self.path_node[dst] = self.path_node.pop(src)], when [src] has a node. *)
Definition move_node (st : FakeFS) (src dst : string) : FakeFS :=
  match fs_path_node st !! src with
  | Some n => set_path_node st (<[ dst := n ]> (delete src (fs_path_node st)))
  | None => st
  end.

Definition do_rename (st : FakeFS) (a : json) : res (FakeFS * Result) :=
  src ← path_of a "path"; dst ← path_of a "new_path";
  match fs_names st !! src with
  | Some ino => Ok (move_node (set_names st (<[ dst := ino ]> (delete src (fs_names st)))) src dst, success)
  | None =>
      if bool_decide (src ∈ fs_dirs st)
      then Ok (move_node (set_dirs st ({[dst]} ∪ (fs_dirs st ∖ {[src]}))) src dst, success)
      else Ok (st, miss)
  end.

(** [ino in self.handles.values()] *)
Definition held (st : FakeFS) (ino : Z) : bool :=
  existsb (λ p : hkey * Z, Z.eqb p.2 ino) (map_to_list (fs_handles st)).

Definition do_unlink (st : FakeFS) (a : json) : res (FakeFS * Result) :=
  p ← path_of a "path";
  match fs_names st !! p with
  | None => Ok (st, miss)
  | Some ino =>
      let st := set_path_node (set_names st (delete p (fs_names st))) (delete p (fs_path_node st)) in
      Ok (if held st ino then st else set_inodes st (delete ino (fs_inodes st)), success)
  end.

Definition do_mkdir (st : FakeFS) (a : json) : res (FakeFS * Result) :=
  p ← path_of a "path";
  Ok (if bool_decide (p ∈ fs_dirs st) || bool_decide (is_Some (fs_names st !! p))
      then (st, result "exists" EEXIST 0 [])
      else if negb (parent_ok st p) then (st, miss)
      else (set_dirs st ({[p]} ∪ fs_dirs st), success)).

Definition do_rmdir (st : FakeFS) (a : json) : res (FakeFS * Result) :=
  p ← path_of a "path";
  Ok (if negb (bool_decide (p ∈ fs_dirs st)) then (st, miss)
      else if negb (children st p =? 0) then (st, result "not_empty" ENOTEMPTY 0 [])
      else (set_dirs st (fs_dirs st ∖ {[p]}), success)).

(** [buf[:size] + bytes(max(0, size - len(buf)))] *)
Definition resize (st : FakeFS) (a : json) (ino : Z) : res (FakeFS * Result) :=
  buf ← at_key (fs_inodes st) ino; sj ← item a "size"; size ← as_int sj;
  Ok (set_inodes st (<[ ino := py_slice buf 0 size ++ zeros (size - Z.of_nat (length buf)) ]> (fs_inodes st)), success).

Definition do_truncate (st : FakeFS) (a : json) : res (FakeFS * Result) :=
  p ← path_of a "path";
  match fs_names st !! p with None => Ok (st, miss) | Some ino => resize st a ino end.

Definition do_ftruncate (st : FakeFS) (a : json) : res (FakeFS * Result) :=
  h ← handle_of a; ino ← at_key (fs_handles st) h; resize st a ino.

(** [self.fail.get(op["op_id"])], when it names an outcome. *)
Definition fs_forced (st : FakeFS) (op_id : string) : option string :=
  match dget op_id (fs_fail st) with
  | Some s => if String.eqb s "" then None else Some s
  | None => None
  end.

(** [FakeFS.perform] *)
Definition fs_perform (st : FakeFS) (op : json) : res (FakeFS * Result) :=
  idj ← item op "op_id"; op_id ← as_str idj;
  match fs_forced st op_id with
  | Some oc => Ok (st, result oc 0 0 [("detail", JStr "injected")])
  | None =>
      a ← item op "args"; call ← item op "call";
      let calls s := eq_str call s in
      if calls "open" then do_open st op a else
      bad ← match a with
            | JObj args => match dget "handle" args with
                           | Some hj => h ← hkey_of hj; Ok (negb (bool_decide (is_Some (fs_handles st !! h))))
                           | None => Ok false
                           end
            | _ => Raise (Exn TypeError "argument is not a container")
            end;
      if (bad : bool) then Ok (st, result "error" EBADF 0 [])
      else if calls "close" then do_close st a
      else if calls "pwrite" then do_write st a true
      else if calls "write" then do_write st a false
      else if calls "pread" then do_read st a true
      else if calls "read" then do_read st a false
      else if calls "fstat" then do_fstat st a
      else if calls "stat" then do_stat st a
      else if calls "readdir" then do_readdir st a
      else if calls "rename" then do_rename st a
      else if calls "unlink" then do_unlink st a
      else if calls "mkdir" then do_mkdir st a
      else if calls "rmdir" then do_rmdir st a
      else if calls "truncate" then do_truncate st a
      else if calls "ftruncate" then do_ftruncate st a
      else if calls "fsync" || calls "fdatasync" then Ok (st, success)
      else Ok (st, result "error" 0 0 [("detail", JStr ("unsupported call " +:+ py_str call))])
  end.

(** [FakeFS.close] *)
Definition fs_close (st : FakeFS) : FakeFS := set_handles st ∅.

Definition no_method {A} (m : string) : res A :=
  Raise (Exn AttributeError ("'FakeFS' object has no attribute '" +:+ m +:+ "'")).

(** [FakeFS] as a target of the executor.  It has no object-store methods, and
    no [service_ns], which only the simulated mode asks for. *)
Definition fs_backend : Backend FakeFS := {|
  bk_profile st := Some (fs_profile st);
  bk_set_profile p st := mkFS p (fs_fail st) (fs_inodes st) (fs_names st) (fs_dirs st) (fs_handles st)
    (fs_handle_node st) (fs_path_node st) (fs_pos st) (fs_next st);
  bk_initialize := fs_initialize;
  bk_payload _ _ _ _ _ := no_method "payload";
  bk_store _ _ _ _ _ := no_method "store";
  bk_load _ _ _ _ _ _ _ := no_method "load";
  bk_release _ _ _ _ := no_method "release";
  bk_exists := None;
  bk_perform st op := sr ← fs_perform st op; Ok (sr.1, outcome_of sr.2);
  bk_close st := Ok (fs_close st);
  bk_service_ns _ _ := 0
|}.
End fs.

Example parent_ex : map parent ["a"; "d/f"; "d/e/f"; "/x"; "d/"] = ["."; "d"; "d/e"; "."; "d"].
Proof. reflexivity. Qed.

Example splice_ex : splice [1; 2; 3; 4] 1 3 [9; 9] = [1; 9; 9; 4].
Proof. reflexivity. Qed.
