(* ===== verification/FakeFSCorrect.v ===== *)
(** * Correctness of the in-memory file system

    Every call is a sequence of elementary effects on the maps.  The effects
    keep the state well formed and leave open handles alone, and the content
    behind a name stays the content its reads verify.  With that, a validated
    posix workload runs to its end on [FakeFS] in every interleaving. *)

From stdpp Require Import prelude strings list numbers gmap sorting relations.
From Stdlib Require Import ZArith Lia Ascii.
From S2P Require Import Prelude PyText PyJson JsonText Intent Intent2 Workload3 ContentProfile IntentExec ExecCorrect ExecRun ExecReal ExecRealCorrect FakeFS.
Local Open Scope Z_scope.

Section effects.
Variable blake2b : string → nat → bytes.

(** ** Elementary effects *)

(** Binding a handle to the inode of a name. *)
Definition bind_handle (st : FakeFS) (h : hkey) (ino : Z) (node : json) : FakeFS :=
  mkFS (fs_profile st) (fs_fail st) (fs_inodes st) (fs_names st) (fs_dirs st) (<[ h := ino ]> (fs_handles st))
    (<[ h := node ]> (fs_handle_node st)) (fs_path_node st) (<[ h := 0 ]> (fs_pos st)) (fs_next st).

(** [f] gives the bytes of a file from its start. *)
Definition reads_as (f : Z → Z) (data : bytes) : Prop := data = f <$> seqZ 0 (Z.of_nat (length data)).

(** [strict]: the content stays the content its reads verify; [W]: the inodes
    whose data may change; [Hs]: the handles that may change. *)
Inductive effect (strict : Prop) (W : Z → Prop) (Hs : hkey → Prop) (st : FakeFS) : FakeFS → Prop :=
  | e_dirs d : effect strict W Hs st (set_dirs st d)
  | e_create p node data :
      py_true node = true →
      (strict → reads_as (byte_at blake2b (fs_profile st) (py_str node)) data) →
      effect strict W Hs st (set_path_node (add_file st p data) (<[ p := node ]> (fs_path_node st)))
  | e_data ino buf data :
      fs_inodes st !! ino = Some buf → W ino →
      (strict → ∀ f, reads_as f buf →
         (∀ h v, fs_handles st !! h = Some ino → fs_handle_node st !! h = Some v →
            f = byte_at blake2b (fs_profile st) (py_str v)) → reads_as f data) →
      effect strict W Hs st (set_inodes st (<[ ino := data ]> (fs_inodes st)))
  | e_bind p h ino node :
      fs_names st !! p = Some ino → fs_path_node st !! p = Some node → Hs h →
      effect strict W Hs st (bind_handle st h ino node)
  | e_close h : Hs h → effect strict W Hs st (set_handles st (delete h (fs_handles st)))
  | e_pos h z : 0 ≤ z → Hs h → effect strict W Hs st (set_pos st (<[ h := z ]> (fs_pos st)))
  | e_move src dst ino :
      fs_names st !! src = Some ino →
      effect strict W Hs st (move_node (set_names st (<[ dst := ino ]> (delete src (fs_names st)))) src dst)
  | e_movedir src dst d :
      fs_names st !! src = None → (strict → fs_names st !! dst = None) →
      effect strict W Hs st (move_node (set_dirs st d) src dst)
  | e_unlink p ino :
      fs_names st !! p = Some ino →
      effect strict W Hs st
        (let st' := set_path_node (set_names st (delete p (fs_names st))) (delete p (fs_path_node st)) in
         if held st' ino then st' else set_inodes st' (delete ino (fs_inodes st'))).

(** ** Well-formed states *)
Record fs_ok (st : FakeFS) : Prop := {
  ok_block : 0 < block_of (fs_profile st);
  ok_names : ∀ p ino, fs_names st !! p = Some ino → is_Some (fs_inodes st !! ino);
  ok_inj : ∀ p q ino, fs_names st !! p = Some ino → fs_names st !! q = Some ino → p = q;
  ok_handles : ∀ h ino, fs_handles st !! h = Some ino → is_Some (fs_inodes st !! ino) ∧
    is_Some (fs_handle_node st !! h) ∧ ∃ z, fs_pos st !! h = Some z ∧ 0 ≤ z;
  ok_next : ∀ ino, is_Some (fs_inodes st !! ino) → ino ≤ fs_next st;
  ok_nodes : ∀ p v, fs_path_node st !! p = Some v → py_true v = true;
  ok_path_node : ∀ p, is_Some (fs_names st !! p) → is_Some (fs_path_node st !! p)
}.

Lemma held_spec st ino : held st ino = true ↔ ∃ h, fs_handles st !! h = Some ino.
Proof.
  unfold held. rewrite existsb_exists. split.
  - intros ([h i] & Hin%list_elem_of_In%elem_of_map_to_list & E%Z.eqb_eq). cbn in *. subst. by exists h.
  - intros (h & Hh). exists (h, ino). split; [by apply list_elem_of_In, elem_of_map_to_list|apply Z.eqb_refl].
Qed.

Lemma move_node_lookup st src dst p :
  fs_path_node (move_node st src dst) !! p =
    match fs_path_node st !! src with
    | Some n => if decide (p = dst) then Some n else if decide (p = src) then None else fs_path_node st !! p
    | None => fs_path_node st !! p
    end.
Proof.
  unfold move_node. destruct (fs_path_node st !! src) as [n|] eqn:E; [|done]. cbn [set_path_node fs_path_node].
  destruct (decide (p = dst)) as [->|Hd]; [by rewrite lookup_insert_eq|]. rewrite lookup_insert_ne by done.
  destruct (decide (p = src)) as [->|Hs]; [by rewrite lookup_delete_eq|]. by rewrite lookup_delete_ne.
Qed.

(** [move_node] touches the nodes of paths only. *)
Lemma move_node_same st src dst :
  let st' := move_node st src dst in
  fs_profile st' = fs_profile st ∧ fs_inodes st' = fs_inodes st ∧ fs_names st' = fs_names st ∧
  fs_handles st' = fs_handles st ∧ fs_handle_node st' = fs_handle_node st ∧ fs_pos st' = fs_pos st ∧
  fs_next st' = fs_next st ∧ fs_fail st' = fs_fail st.
Proof. unfold move_node. by destruct (fs_path_node st !! src). Qed.

Lemma renamed_lookup (m : gmap string Z) src dst ino p x :
  m !! src = Some ino →
  <[ dst := ino ]> (delete src m) !! p = Some x → (p = dst ∧ x = ino) ∨ (p ≠ dst ∧ p ≠ src ∧ m !! p = Some x).
Proof.
  intros Hs. destruct (decide (p = dst)) as [->|Hd]; [rewrite lookup_insert_eq; by intros [= <-]; left|].
  rewrite lookup_insert_ne by done. intros [??]%lookup_delete_Some. right. auto.
Qed.

Lemma create_ok st p node data :
  fs_ok st → py_true node = true →
  fs_ok (set_path_node (add_file st p data) (<[ p := node ]> (fs_path_node st))).
Proof.
  intros [K1 K2 K3 K4 K5 K6 K7] Ht.
  constructor; cbn [set_path_node add_file fs_profile fs_inodes fs_names fs_handles fs_handle_node fs_path_node fs_pos fs_next].
  - done.
  - intros q i [[<- <-]|[Hne Hq]]%lookup_insert_Some; [rewrite lookup_insert_eq; by eexists|].
    rewrite lookup_insert_is_Some'. right. by eapply K2.
  - assert (∀ q, fs_names st !! q ≠ Some (fs_next st + 1)) as Hfresh.
    { intros q Hq. pose proof (K5 _ (K2 _ _ Hq)). lia. }
    intros q r i [[<- <-]|[? Hq]]%lookup_insert_Some [[<- ?]|[? Hr]]%lookup_insert_Some; try done; subst;
      [by destruct (Hfresh r)|by destruct (Hfresh q)|by eapply K3].
  - intros h i Hh. destruct (K4 h i Hh) as (? & ? & ?). split; [|done]. rewrite lookup_insert_is_Some'. by right.
  - intros i [<-|Hi]%lookup_insert_is_Some'; [lia|]. specialize (K5 i Hi). lia.
  - intros q v [[<- <-]|[_ Hq]]%lookup_insert_Some; [done|by eapply K6].
  - intros q [<-|Hq]%lookup_insert_is_Some'; rewrite lookup_insert_is_Some'; [by left|right; by apply K7].
Qed.

Lemma move_ok st src dst ino :
  fs_ok st → fs_names st !! src = Some ino →
  fs_ok (move_node (set_names st (<[ dst := ino ]> (delete src (fs_names st)))) src dst).
Proof.
  intros [K1 K2 K3 K4 K5 K6 K7] Hs1.
  destruct (move_node_same (set_names st (<[ dst := ino ]> (delete src (fs_names st)))) src dst)
    as (E1 & E2 & E3 & E4 & E5 & E6 & E7 & _). cbn [set_names] in *.
  constructor; rewrite ?E1, ?E2, ?E3, ?E4, ?E5, ?E6, ?E7; cbn [fs_profile fs_inodes fs_names fs_handles fs_handle_node fs_pos fs_next]; try done.
  - intros q i [[-> ->]|(_ & _ & Hq)]%renamed_lookup; [by eapply K2|by eapply K2|done].
  - intros q r i Hq Hr. apply renamed_lookup in Hq as [[-> ->]|(? & ? & Hq)]; [| |done];
      (apply renamed_lookup in Hr as [[-> ?]|(? & ? & Hr)]; [| |done]); try done.
    + by pose proof (K3 _ _ _ Hs1 Hr).
    + subst. by pose proof (K3 _ _ _ Hs1 Hq).
    + by eapply K3.
  - intros q v. rewrite move_node_lookup. cbn [set_names set_dirs fs_path_node]. destruct (fs_path_node st !! src) as [n|] eqn:En.
    + case_decide; [intros [= <-]; by eapply K6|]. case_decide; [done|apply K6].
    + apply K6.
  - intros q [i Hq]. rewrite move_node_lookup. cbn [set_names set_dirs fs_path_node].
    destruct (K7 src) as [n En]; [by eexists|]. rewrite En. apply renamed_lookup in Hq as [[-> _]|(? & ? & Hq)]; [| |done].
    + rewrite decide_True by done. by eexists.
    + rewrite !decide_False by done. apply K7. by eexists.
Qed.

Lemma movedir_ok st src dst d :
  fs_ok st → fs_names st !! src = None → fs_ok (move_node (set_dirs st d) src dst).
Proof.
  intros [K1 K2 K3 K4 K5 K6 K7] Hs1.
  destruct (move_node_same (set_dirs st d) src dst) as (E1 & E2 & E3 & E4 & E5 & E6 & E7 & _). cbn [set_dirs] in *.
  constructor; rewrite ?E1, ?E2, ?E3, ?E4, ?E5, ?E6, ?E7; cbn [fs_profile fs_inodes fs_names fs_handles fs_handle_node fs_pos fs_next]; try done.
  - intros q v. rewrite move_node_lookup. cbn [set_names set_dirs fs_path_node]. destruct (fs_path_node st !! src) as [n|] eqn:En.
    + case_decide; [intros [= <-]; by eapply K6|]. case_decide; [done|apply K6].
    + apply K6.
  - intros q Hq. rewrite move_node_lookup. cbn [set_names set_dirs fs_path_node]. destruct (fs_path_node st !! src) as [n|]; [|by apply K7].
    case_decide; [by eexists|]. rewrite decide_False; [by apply K7|]. intros ->.
    destruct Hq as [i Hq]. cbn [set_dirs fs_names] in Hq. congruence.
Qed.

(** The state after the name is gone, before the inode goes. *)
Definition unnamed (st : FakeFS) (p : string) : FakeFS :=
  set_path_node (set_names st (delete p (fs_names st))) (delete p (fs_path_node st)).

Lemma unlink_ok st p ino :
  fs_ok st → fs_names st !! p = Some ino →
  fs_ok (if held (unnamed st p) ino then unnamed st p else set_inodes (unnamed st p) (delete ino (fs_inodes (unnamed st p)))).
Proof.
  intros [K1 K2 K3 K4 K5 K6 K7] Hp.
  set (st1 := unnamed st p).
  assert (fs_ok st1) as Hok1.
  { unfold st1. constructor; cbn [unnamed set_path_node set_names fs_profile fs_inodes fs_names fs_handles fs_handle_node fs_path_node fs_pos fs_next]; try done.
    - intros q i [_ Hq]%lookup_delete_Some. by eapply K2.
    - intros q r i [_ Hq]%lookup_delete_Some [_ Hr]%lookup_delete_Some. by eapply K3.
    - intros q v [_ Hq]%lookup_delete_Some. by eapply K6.
    - intros q [Hne Hq]%lookup_delete_is_Some. rewrite lookup_delete_is_Some. split; [done|by apply K7]. }
  destruct (held st1 ino) eqn:Eh; [done|]. destruct Hok1 as [L1 L2 L3 L4 L5 L6 L7].
  assert (∀ i, i ≠ ino → is_Some (fs_inodes st1 !! i) → is_Some (delete ino (fs_inodes st1) !! i)) as Hkeep.
  { intros i Hne Hi. by rewrite lookup_delete_ne. }
  constructor; cbn [set_inodes fs_profile fs_inodes fs_names fs_handles fs_handle_node fs_path_node fs_pos fs_next]; try done.
  - intros q i Hq. apply Hkeep; [|by eapply L2]. intros ->. unfold st1 in Hq. cbn in Hq.
    apply lookup_delete_Some in Hq as [Hne Hq]. apply Hne. by eapply K3.
  - intros h i Hh. destruct (L4 h i Hh) as (? & ? & ?). split; [|done]. apply Hkeep; [|done]. intros ->.
    assert (held st1 ino = true) by (apply held_spec; eauto). congruence.
  - intros i Hi. apply L5. by apply lookup_delete_is_Some in Hi as [_ ?].

Qed.

Lemma effect_ok strict W Hs st st' : fs_ok st → effect strict W Hs st st' → fs_ok st'.
Proof.
  intros Hok. pose proof Hok as [K1 K2 K3 K4 K5 K6 K7]. destruct 1 as [d|p node data Ht _|ino buf data Hb _ _|p h ino node Hp Hn _|h _|h z Hz _
    |src dst ino Hs1|src dst d Hs1 _|p ino Hp].
  - by constructor.
  - by apply create_ok.
  - assert (∀ i, is_Some (<[ ino := data ]> (fs_inodes st) !! i) ↔ is_Some (fs_inodes st !! i)) as Hdom.
    { intros i. rewrite lookup_insert_is_Some'. split; [|by right]. by intros [<-|?]. }
    constructor; cbn [set_inodes fs_profile fs_inodes fs_names fs_handles fs_handle_node fs_path_node fs_pos fs_next]; try done.
    + intros q i Hq. apply Hdom. by eapply K2.
    + intros h i Hh. destruct (K4 h i Hh) as (? & ? & ?). split; [by apply Hdom|done].
    + intros i Hi%Hdom. by apply K5.
  - constructor; cbn [bind_handle fs_profile fs_inodes fs_names fs_handles fs_handle_node fs_path_node fs_pos fs_next]; try done.
    intros g i [[<- <-]|[Hne Hg]]%lookup_insert_Some.
    + split_and!; [by eapply K2|rewrite lookup_insert_eq; by eexists|]. exists 0. rewrite lookup_insert_eq. done.
    + rewrite !lookup_insert_ne by done. by apply K4.
  - constructor; try done. cbn [set_handles fs_handles fs_inodes fs_handle_node fs_pos].
    intros g i [_ Hg]%lookup_delete_Some. by apply K4.
  - constructor; try done. cbn [set_pos fs_handles fs_inodes fs_handle_node fs_pos].
    intros g i Hg. destruct (K4 g i Hg) as (? & ? & ?). split_and!; try done.
    destruct (decide (h = g)) as [<-|Hne]; [exists z; by rewrite lookup_insert_eq|by rewrite lookup_insert_ne].
  - by apply move_ok.
  - by apply movedir_ok.
  - by apply unlink_ok.
Qed.

Lemma effects_ok strict W Hs st st' : rtc (effect strict W Hs) st st' → fs_ok st → fs_ok st'.
Proof. induction 1; [done|]. intros. by eapply IHrtc, effect_ok. Qed.

(** ** Open handles are left alone *)

(** What a handle reads, and from where. *)
Definition view (st : FakeFS) (h : hkey) : option (Z * option bytes * option json * option Z) :=
  match fs_handles st !! h with
  | Some ino => Some (ino, fs_inodes st !! ino, fs_handle_node st !! h, fs_pos st !! h)
  | None => None
  end.

Lemma view_inv st h ino : fs_handles st !! h = Some ino →
  view st h = Some (ino, fs_inodes st !! ino, fs_handle_node st !! h, fs_pos st !! h).
Proof. intros E. unfold view. by rewrite E. Qed.

Lemma effect_view strict W Hs st st' h ino :
  fs_ok st → effect strict W Hs st st' → fs_handles st !! h = Some ino → ¬ Hs h → ¬ W ino →
  view st' h = view st h.
Proof.
  intros Hok. destruct 1 as [d|p node data Ht _|i buf data Hb HW _|p g i node Hp Hn Hg|g Hg|g z Hz Hg
    |src dst i Hs1|src dst d Hs1 _|p i Hp]; intros Hh HnH HnW; rewrite (view_inv st h ino Hh).
  - unfold view. cbn. by rewrite Hh.
  - unfold view. cbn. rewrite Hh, lookup_insert_ne; [done|].
    pose proof (ok_next _ Hok ino (proj1 (ok_handles _ Hok h ino Hh))). lia.
  - unfold view. cbn. rewrite Hh, lookup_insert_ne by (by intros ->). done.
  - unfold view. cbn. by rewrite !lookup_insert_ne, Hh by (by intros ->).
  - unfold view. cbn. by rewrite lookup_delete_ne, Hh by (by intros ->).
  - unfold view. cbn. by rewrite Hh, lookup_insert_ne by (by intros ->).
  - unfold view. destruct (move_node_same (set_names st (<[ dst := i ]> (delete src (fs_names st)))) src dst)
      as (_ & -> & _ & -> & -> & -> & _). cbn. by rewrite Hh.
  - unfold view. destruct (move_node_same (set_dirs st d) src dst) as (_ & -> & _ & -> & -> & -> & _). cbn. by rewrite Hh.
  - cbv zeta. fold (unnamed st p). destruct (held (unnamed st p) i) eqn:E; unfold view; cbn; rewrite Hh; [done|].
    rewrite lookup_delete_ne; [done|]. intros <-. assert (held (unnamed st p) i = true); [|congruence].
    apply held_spec. by exists h.
Qed.

Lemma effects_view strict W Hs st st' h ino :
  rtc (effect strict W Hs) st st' → fs_ok st → fs_handles st !! h = Some ino → ¬ Hs h → ¬ W ino →
  view st' h = view st h.
Proof.
  induction 1 as [|x y z Hxy Hyz IH]; [done|]. intros Hok Hh HnH HnW.
  pose proof (effect_view _ _ _ _ _ h ino Hok Hxy Hh HnH HnW) as Hv. rewrite <- Hv. apply IH; [by eapply effect_ok| |done..].
  rewrite (view_inv x h ino Hh) in Hv. unfold view in Hv. destruct (fs_handles y !! h); [|done]. by injection Hv as ->.
Qed.

(** ** The content behind a name is the content its reads verify *)

(** [N]: the identity of the content of each inode. *)
Record consistent (N : Z → string) (st : FakeFS) : Prop := {
  co_data : ∀ ino data, fs_inodes st !! ino = Some data → reads_as (byte_at blake2b (fs_profile st) (N ino)) data;
  co_handle : ∀ h ino v, fs_handles st !! h = Some ino → fs_handle_node st !! h = Some v → py_str v = N ino;
  co_name : ∀ p ino v, fs_names st !! p = Some ino → fs_path_node st !! p = Some v → py_str v = N ino
}.

Lemma create_consistent N st p node data :
  fs_ok st → consistent N st →
  reads_as (byte_at blake2b (fs_profile st) (py_str node)) data →
  consistent (λ i, if decide (i = fs_next st + 1) then py_str node else N i)
    (set_path_node (add_file st p data) (<[ p := node ]> (fs_path_node st))).
Proof.
  intros Hok [C1 C2 C3] Hd.
  assert (∀ i, is_Some (fs_inodes st !! i) → i ≠ fs_next st + 1) as Hne by (intros i Hi; pose proof (ok_next _ Hok i Hi); lia).
  constructor; cbn [set_path_node add_file fs_profile fs_inodes fs_names fs_handles fs_handle_node fs_path_node].
  - intros i x [[<- <-]|[? Hi]]%lookup_insert_Some; [by rewrite decide_True|]. rewrite decide_False by done. by apply C1.
  - intros h i v Hh Hv. rewrite decide_False; [by eapply C2|]. by apply Hne, (ok_handles _ Hok h).
  - intros q i v [[<- <-]|[? Hq]]%lookup_insert_Some Hv.
    + rewrite lookup_insert_eq in Hv. injection Hv as <-. by rewrite decide_True.
    + rewrite lookup_insert_ne in Hv by done. rewrite decide_False; [by eapply C3|]. by apply Hne, (ok_names _ Hok q).
Qed.

Lemma data_consistent N st ino buf data :
  fs_ok st → consistent N st → fs_inodes st !! ino = Some buf →
  (∀ f, reads_as f buf → (∀ h v, fs_handles st !! h = Some ino → fs_handle_node st !! h = Some v →
     f = byte_at blake2b (fs_profile st) (py_str v)) → reads_as f data) →
  consistent N (set_inodes st (<[ ino := data ]> (fs_inodes st))).
Proof.
  intros Hok [C1 C2 C3] Hb Hd.
  constructor; cbn [set_inodes fs_profile fs_inodes fs_names fs_handles fs_handle_node fs_path_node]; try done.
  intros i x [[<- <-]|[? Hi]]%lookup_insert_Some; [|by apply C1].
  apply Hd; [by apply C1|]. intros h v Hh Hv. by rewrite (C2 h ino v).
Qed.

Lemma effect_consistent strict W Hs N st st' :
  strict → fs_ok st → consistent N st → effect strict W Hs st st' → ∃ N', consistent N' st'.
Proof.
  intros Hst Hok HC. pose proof HC as [C1 C2 C3].
  destruct 1 as [d|p node data Ht Hd|i buf data Hb HW Hd|p g i node Hp Hn Hg|g Hg|g z Hz Hg
    |src dst i Hs1|src dst d Hs1 Hs2|p i Hp].
  - by exists N.
  - eexists. by apply create_consistent; [| |apply Hd].
  - exists N. apply (data_consistent N st i buf data Hok HC Hb). by apply Hd.
  - exists N. constructor; cbn [bind_handle fs_profile fs_inodes fs_names fs_handles fs_handle_node fs_path_node]; try done.
    intros h j v [[<- <-]|[? Hh]]%lookup_insert_Some Hv.
    + rewrite lookup_insert_eq in Hv. injection Hv as <-. by eapply C3.
    + rewrite lookup_insert_ne in Hv by done. by eapply C2.
  - exists N. constructor; cbn [set_handles fs_handles]; try done. intros h j v [_ Hh]%lookup_delete_Some. by apply C2.
  - by exists N.
  - exists N. destruct (move_node_same (set_names st (<[ dst := i ]> (delete src (fs_names st)))) src dst)
      as (E1 & E2 & E3 & E4 & E5 & _). constructor; rewrite ?E1, ?E2, ?E3, ?E4, ?E5; try done.
    intros q j v Hq. rewrite move_node_lookup. cbn [set_names fs_names fs_path_node] in *.
    destruct (ok_path_node _ Hok src) as [n En]; [by eexists|]. rewrite En.
    apply renamed_lookup in Hq as [[-> ->]|(? & ? & Hq)]; [| |done].
    + rewrite decide_True by done. intros [= <-]. by eapply C3.
    + rewrite !decide_False by done. by apply C3.
  - exists N. destruct (move_node_same (set_dirs st d) src dst) as (E1 & E2 & E3 & E4 & E5 & _).
    constructor; rewrite ?E1, ?E2, ?E3, ?E4, ?E5; try done.
    intros q j v Hq. rewrite move_node_lookup. cbn [set_dirs fs_names fs_path_node] in *. specialize (Hs2 Hst).
    destruct (fs_path_node st !! src); [|by apply C3]. case_decide; [congruence|]. case_decide; [congruence|]. by apply C3.
  - exists N. cbv zeta. fold (unnamed st p).
    assert (consistent N (unnamed st p)) as HC1.
    { constructor; cbn; try done. intros q j v [_ Hq]%lookup_delete_Some [_ Hv]%lookup_delete_Some. by eapply C3. }
    destruct (held (unnamed st p) i); [done|]. destruct HC1 as [D1 D2 D3]. constructor; cbn [set_inodes fs_inodes]; try done.
    intros j x [_ Hj]%lookup_delete_Some. by apply D1.
Qed.

Lemma effects_consistent strict W Hs N st st' :
  strict → rtc (effect strict W Hs) st st' → fs_ok st → consistent N st → ∃ N', consistent N' st'.
Proof.
  intros Hst Hr. revert N. induction Hr as [|x y z Hxy Hyz IH]; intros N Hok HC; [by exists N|].
  destruct (effect_consistent _ _ _ N x y Hst Hok HC Hxy) as (N1 & HC1). apply (IH N1); [by eapply effect_ok|done].
Qed.

(** ** Buffers *)
Lemma reads_as_lookup f data : reads_as f data ↔ ∀ k x, data !! k = Some x → x = f (Z.of_nat k).
Proof.
  unfold reads_as. split.
  - intros E k x Hk. rewrite E in Hk. apply list_lookup_fmap_Some in Hk as (z & -> & Hz).
    by apply lookup_seqZ in Hz as [-> _].
  - intros Hall. apply list_eq. intros k. rewrite list_lookup_fmap. destruct (data !! k) as [x|] eqn:E.
    + rewrite lookup_seqZ_lt by (apply lookup_lt_Some in E; lia). cbn. by rewrite (Hall k x E).
    + rewrite lookup_seqZ_ge; [done|]. apply lookup_ge_None in E. lia.
Qed.

Lemma reads_as_seqZ f n : reads_as f (f <$> seqZ 0 n).
Proof. unfold reads_as. rewrite length_fmap, length_seqZ. f_equal. destruct (Z_le_gt_dec 0 n); [f_equal; lia|]. by rewrite !seqZ_nil by lia. Qed.

Lemma reads_as_nil f : reads_as f [].
Proof. done. Qed.

Lemma clamp_nonneg n i : 0 ≤ i → clamp n i = Z.min i n.
Proof. intros Hi. unfold clamp. by destruct (Z.ltb_spec i 0); [lia|]. Qed.

(** How many bytes a read from [off] of at most [ln] bytes yields. *)
Definition avail (size off ln : Z) : Z := Z.max 0 (Z.min ln (size - off)).

Lemma py_slice_length buf off ln :
  0 ≤ off → 0 ≤ ln → Z.of_nat (length (py_slice buf off (off + ln))) = avail (Z.of_nat (length buf)) off ln.
Proof.
  intros Ho Hl. unfold py_slice, avail. rewrite !clamp_nonneg, length_take, length_drop by lia. lia.
Qed.

Lemma py_slice_reads f buf off ln :
  0 ≤ off → 0 ≤ ln → reads_as f buf →
  py_slice buf off (off + ln) = f <$> seqZ off (Z.of_nat (length (py_slice buf off (off + ln)))).
Proof.
  intros Ho Hl Hf. rewrite reads_as_lookup in Hf. apply list_eq. intros k. rewrite list_lookup_fmap.
  destruct (py_slice buf off (off + ln) !! k) as [x|] eqn:E.
  - rewrite lookup_seqZ_lt by (apply lookup_lt_Some in E; lia). cbn. f_equal.
    unfold py_slice in E. apply lookup_take_Some in E as [E Hk]. rewrite lookup_drop in E.
    rewrite (Hf _ _ E). f_equal. apply lookup_lt_Some in E. rewrite !clamp_nonneg in * by lia. lia.
  - rewrite lookup_seqZ_ge; [done|]. apply lookup_ge_None in E. lia.
Qed.

(** Overwriting inside or right behind the data, without a hole. *)
Lemma write_reads f buf off n :
  let data := f <$> seqZ off n in
  let buf1 := if Z.of_nat (length buf) <? off + n then buf ++ zeros (off + n - Z.of_nat (length buf)) else buf in
  0 ≤ off ≤ Z.of_nat (length buf) → 0 ≤ n → reads_as f buf → reads_as f (splice buf1 off (off + n) data).
Proof.
  intros data buf1 Ho Hn Hf. rewrite reads_as_lookup in *.
  assert (length data = Z.to_nat n) as Ld by (unfold data; by rewrite length_fmap, length_seqZ).
  assert (off + n ≤ Z.of_nat (length buf1)) as L1.
  { unfold buf1, zeros. destruct (Z.ltb_spec (Z.of_nat (length buf)) (off + n)); [|lia].
    rewrite length_app, length_replicate. lia. }
  assert (∀ k x, buf1 !! k = Some x → (Z.of_nat k < off ∨ off + n ≤ Z.of_nat k) → x = f (Z.of_nat k)) as Hb1.
  { intros k x Hk Hout. apply Hf. unfold buf1 in Hk. destruct (Z.ltb_spec (Z.of_nat (length buf)) (off + n)); [|done].
    destruct (decide (k < length buf)%nat); [by rewrite lookup_app_l in Hk|]. exfalso.
    apply lookup_lt_Some in Hk. unfold zeros in Hk. rewrite length_app, length_replicate in Hk. lia. }
  intros k x. unfold splice. rewrite !clamp_nonneg by lia. set (i := Z.to_nat (Z.min off _)).
  assert (i = Z.to_nat off) as -> by lia.
  assert (length (take (Z.to_nat off) buf1) = Z.to_nat off) as Lt by (rewrite length_take; lia).
  intros [Hk|[Hge Hk]]%lookup_app_Some.
  - apply lookup_take_Some in Hk as [Hk ?]. apply Hb1; [done|lia].
  - rewrite Lt in *. apply lookup_app_Some in Hk as [Hk|[Hge2 Hk]].
    + unfold data in Hk. apply list_lookup_fmap_Some in Hk as (z & -> & Hz). apply lookup_seqZ in Hz as [-> _]. f_equal. lia.
    + rewrite Ld in *. rewrite lookup_drop in Hk. match type of Hk with buf1 !! ?j = _ => assert (j = k) as Ej by lia end.
      rewrite Ej in Hk. apply Hb1; [done|lia].
Qed.

Lemma shrink_reads f buf size :
  0 ≤ size ≤ Z.of_nat (length buf) → reads_as f buf →
  reads_as f (py_slice buf 0 size ++ zeros (size - Z.of_nat (length buf))).
Proof.
  intros Hs Hf. assert (zeros (size - Z.of_nat (length buf)) = []) as ->.
  { unfold zeros. by replace (Z.to_nat (size - Z.of_nat (length buf))) with O by lia. }
  rewrite app_nil_r. rewrite reads_as_lookup in *. intros k x Hk. unfold py_slice in Hk.
  apply lookup_take_Some in Hk as [Hk _]. rewrite lookup_drop in Hk. rewrite clamp_nonneg in Hk by lia.
  replace (Z.to_nat (Z.min 0 (Z.of_nat (length buf))) + k)%nat with k in Hk by lia. by apply Hf.
Qed.

(** ** The calls *)
Hypothesis digest_size : ∀ s n, (1 ≤ n ≤ 64)%nat → length (blake2b s n) = n.

(** A posix operation as the validator accepts it, with an expectation where
    the backend reads one. *)
Record posix_op (op : json) (call : string) (args : dict) : Prop := {
  po_dict : is_dict op = true;
  po_id : ∃ id, fld op "op_id" = JStr id;
  po_call : fld op "call" = JStr call;
  po_args : fld op "args" = JObj args;
  po_fields : ∃ fields, dget call (calls_of "posix") = Some fields ∧ ∀ f, f ∈ fields → is_Some (dget f args);
  po_typed : ∀ k v, dget k args = Some v → arg_typed k v;
  po_handle : ∀ v, dget "handle" args = Some v → ∃ h, hkey_of v = Ok h;
  po_expected : call = "open" → ∃ x, dget "expected" (as_dict op) = Some (JObj x)
}.

(** The handle an operation names. *)
Definition names_handle (args : dict) (h : hkey) : Prop := ∃ v, dget "handle" args = Some v ∧ hkey_of v = Ok h.
Definition names_path (args : dict) (p : string) : Prop := dget "path" args = Some (JStr p).

(** The inodes whose data an operation changes. *)
Definition rewrites (st : FakeFS) (call : string) (args : dict) (ino : Z) : Prop :=
  (call ∈ ["pwrite"; "write"; "ftruncate"] ∧ ∃ h, names_handle args h ∧ fs_handles st !! h = Some ino) ∨
  (call = "truncate" ∧ ∃ p, names_path args p ∧ fs_names st !! p = Some ino) ∨
  (call = "open" ∧ ∃ p fl, names_path args p ∧ fs_names st !! p = Some ino ∧
     flag_set (default JNull (dget "flags" args)) = Ok fl ∧ has fl "trunc" = true).

(** Operations after which reads still verify: no write or truncation leaves a
    hole, and no directory is renamed over the name of a file. *)
Record regular (st : FakeFS) (call : string) (args : dict) : Prop := {
  rg_write : call = "pwrite" ∨ call = "write" → ∀ h ino buf off, names_handle args h →
    fs_handles st !! h = Some ino → fs_inodes st !! ino = Some buf →
    offset_of st (JObj args) h (String.eqb call "pwrite") = Ok off → off ≤ Z.of_nat (length buf);
  rg_size : call = "truncate" ∨ call = "ftruncate" → ∀ ino buf z, rewrites st call args ino →
    fs_inodes st !! ino = Some buf → dget "size" args = Some (JInt z) → z ≤ Z.of_nat (length buf);
  rg_rename : call = "rename" → ∀ src dst, names_path args src → dget "new_path" args = Some (JStr dst) →
    fs_names st !! src = None → src ∈ fs_dirs st → fs_names st !! dst = None
}.

Lemma item_arg args k v : dget k args = Some v → item (JObj args) k = Ok v.
Proof. intros E. unfold item. by rewrite E. Qed.

Lemma at_key_Some {K A} `{Countable K} (m : gmap K A) k v : m !! k = Some v → at_key m k = Ok v.
Proof. intros E. unfold at_key. by rewrite E. Qed.

Lemma handle_arg args h : names_handle args h → handle_of (JObj args) = Ok h.
Proof. intros (v & Hv & Hh). unfold handle_of. rewrite (item_arg _ _ _ Hv). done. Qed.

Section one_call.
Variables (st : FakeFS) (op : json) (call : string) (args : dict).
Hypothesis Hok : fs_ok st.
Hypothesis Hop : posix_op op call args.

Abbreviation effs := (rtc (effect (regular st call args) (rewrites st call args) (names_handle args))).
Abbreviation eff := (effect (regular st call args) (rewrites st call args) (names_handle args)).

Lemma content_at node off ln :
  fs_content blake2b st node off ln = Ok (byte_at blake2b (fs_profile st) (py_str node) <$> seqZ off ln).
Proof. apply content_bytes; [done|apply Hok]. Qed.

Lemma nat_arg k fields :
  dget call (calls_of "posix") = Some fields → k ∈ fields → k ∈ ["size"; "offset"; "length"; "part"] →
  ∃ z, dget k args = Some (JInt z) ∧ item (JObj args) k = Ok (JInt z) ∧ 0 ≤ z.
Proof.
  intros Hf Hk Hn. destruct (po_fields _ _ _ Hop) as (fs & E & Hall). rewrite Hf in E. injection E as <-.
  destruct (Hall k Hk) as [v Hv]. destruct (po_typed _ _ _ Hop k v Hv) as (Hz & _). destruct (Hz Hn) as (z & -> & ?).
  exists z. split; [done|]. split; [by apply item_arg|done].
Qed.

Lemma path_arg k fields :
  dget call (calls_of "posix") = Some fields → k ∈ fields → k ∈ ["path"; "new_path"] →
  ∃ p, dget k args = Some (JStr p) ∧ path_of (JObj args) k = Ok p.
Proof.
  intros Hf Hk Hn. destruct (po_fields _ _ _ Hop) as (fs & E & Hall). rewrite Hf in E. injection E as <-.
  destruct (Hall k Hk) as [v Hv]. destruct (po_typed _ _ _ Hop k v Hv) as (_ & Hp & _). destruct (Hp Hn) as (p & ->).
  exists p. split; [done|]. unfold path_of. by rewrite (item_arg _ _ _ Hv).
Qed.

Lemma handle_field fields :
  dget call (calls_of "posix") = Some fields → "handle" ∈ fields → ∃ h, names_handle args h.
Proof.
  intros Hf Hk. destruct (po_fields _ _ _ Hop) as (fs & E & Hall). rewrite Hf in E. injection E as <-.
  destruct (Hall "handle" Hk) as [v Hv]. destruct (po_handle _ _ _ Hop v Hv) as (h & Hh). by exists h, v.
Qed.

(** The state behind an open handle. *)
Lemma open_handle h : names_handle args h → is_Some (fs_handles st !! h) →
  ∃ ino buf node pos, fs_handles st !! h = Some ino ∧ fs_inodes st !! ino = Some buf ∧
    fs_handle_node st !! h = Some node ∧ fs_pos st !! h = Some pos ∧ 0 ≤ pos.
Proof.
  intros _ [ino Hi]. destruct (ok_handles _ Hok h ino Hi) as ([buf Hb] & [node Hn] & pos & Hp & ?).
  by exists ino, buf, node, pos.
Qed.

Lemma offset_total h (positional : bool) :
  call = (if positional then "pwrite" else "write") ∨ call = (if positional then "pread" else "read") →
  names_handle args h → is_Some (fs_handles st !! h) → ∃ off, offset_of st (JObj args) h positional = Ok off ∧ 0 ≤ off.
Proof.
  intros Hc Hh Ho. unfold offset_of. destruct positional.
  - destruct (nat_arg "offset" ["handle"; "offset"; "length"]) as (z & _ & -> & Hz); [by destruct Hc as [-> | ->]|set_solver|set_solver|].
    cbn. by exists z.
  - destruct (open_handle h Hh Ho) as (ino & buf & node & pos & _ & _ & _ & Hp & ?). rewrite (at_key_Some _ _ _ Hp). by exists pos.
Qed.

Lemma do_write_total (positional : bool) h :
  call = (if positional then "pwrite" else "write") → names_handle args h → is_Some (fs_handles st !! h) →
  ∃ st' n, do_write blake2b st (JObj args) positional = Ok (st', result "success" 0 n []) ∧ effs st st'.
Proof.
  intros Hc Hh Ho. destruct (open_handle h Hh Ho) as (ino & buf & node & pos & Hi & Hb & Hn & Hp & Hpos).
  destruct (offset_total h positional (or_introl Hc) Hh Ho) as (off & Hoff & Ho0).
  destruct (nat_arg "length" (if positional then ["handle"; "offset"; "length"] else ["handle"; "length"]))
    as (ln & _ & El & Hl0); [rewrite Hc; by destruct positional|destruct positional; set_solver|set_solver|].
  unfold do_write. rewrite (handle_arg args h Hh). cbn [mbind res_bind]. rewrite (at_key_Some _ _ _ Hi). cbn [mbind res_bind].
  rewrite (at_key_Some _ _ _ Hb). cbn [mbind res_bind]. rewrite Hoff. cbn [mbind res_bind].
  rewrite (at_key_Some _ _ _ Hn). cbn [mbind res_bind]. rewrite El. cbn [mbind res_bind as_int].
  rewrite content_at. cbn [mbind res_bind]. rewrite length_fmap, length_seqZ, Z2Nat.id by lia.
  set (data := splice _ _ _ _).
  assert (eff st (set_inodes st (<[ ino := data ]> (fs_inodes st)))) as Hed.
  { apply (e_data _ _ _ _ ino buf); [done| |].
    - left. split; [rewrite Hc; destruct positional; set_solver|]. by exists h.
    - intros Hr f Hf Hfv. unfold data. rewrite <- (Hfv h node Hi Hn). apply write_reads; [|done|done].
      split; [done|]. apply (rg_write _ _ _ Hr) with h ino; [rewrite Hc; destruct positional; auto|done..|].
      rewrite Hc. destruct positional; done. }
  unfold advance. destruct positional.
  - eexists _, _. split; [done|]. by apply rtc_once.
  - cbn [set_inodes fs_pos]. rewrite (at_key_Some _ _ _ Hp). cbn [mbind res_bind]. eexists _, _. split; [done|].
    eapply rtc_l; [exact Hed|]. apply rtc_once. apply (e_pos _ _ _ (set_inodes st (<[ ino := data ]> (fs_inodes st)))); [lia|done].
Qed.

(** A read yields the bytes that are there, and on consistent data it verifies. *)
Lemma do_read_total (positional : bool) h :
  call = (if positional then "pread" else "read") → names_handle args h → is_Some (fs_handles st !! h) →
  ∃ st' ino buf off ln (bad : bool), do_read blake2b st (JObj args) positional = Ok (st',
      if bad then result "error" 0 (avail (Z.of_nat (length buf)) off ln) [("detail", JStr "content mismatch")]
      else result (if avail (Z.of_nat (length buf)) off ln =? ln then "success" else "eof") 0 (avail (Z.of_nat (length buf)) off ln) [])
    ∧ effs st st' ∧ fs_handles st !! h = Some ino ∧ fs_inodes st !! ino = Some buf ∧
    offset_of st (JObj args) h positional = Ok off ∧ dget "length" args = Some (JInt ln) ∧
    ∀ N, consistent N st → bad = false.
Proof.
  intros Hc Hh Ho. destruct (open_handle h Hh Ho) as (ino & buf & node & pos & Hi & Hb & Hn & Hp & Hpos).
  destruct (offset_total h positional (or_intror Hc) Hh Ho) as (off & Hoff & Ho0).
  destruct (nat_arg "length" (if positional then ["handle"; "offset"; "length"] else ["handle"; "length"]))
    as (ln & Eln & El & Hl0); [rewrite Hc; by destruct positional|destruct positional; set_solver|set_solver|].
  unfold do_read. rewrite (handle_arg args h Hh). cbn [mbind res_bind]. rewrite (at_key_Some _ _ _ Hi). cbn [mbind res_bind].
  rewrite (at_key_Some _ _ _ Hb). cbn [mbind res_bind]. rewrite Hoff. cbn [mbind res_bind].
  rewrite El. cbn [mbind res_bind as_int]. rewrite py_slice_length by lia.
  set (data := py_slice buf off (off + ln)). set (n := avail (Z.of_nat (length buf)) off ln).
  assert (∃ st1, advance st h positional n = Ok st1 ∧ effs st st1 ∧ fs_handle_node st1 = fs_handle_node st ∧
    fs_profile st1 = fs_profile st) as (st1 & -> & He & En & Ep).
  { unfold advance. destruct positional; [by exists st|]. rewrite (at_key_Some _ _ _ Hp). cbn [mbind res_bind].
    eexists. split; [done|]. split; [|done]. apply rtc_once, e_pos; [unfold n, avail; lia|done]. }
  cbn [mbind res_bind]. rewrite En, (at_key_Some _ _ _ Hn). cbn [mbind res_bind].
  assert (fs_content blake2b st1 node off n = fs_content blake2b st node off n) as -> by (unfold fs_content; by rewrite Ep).
  rewrite content_at. cbn [mbind res_bind].
  exists st1, ino, buf, off, ln,
    (if bool_decide (data = []) then false else negb (bool_decide (data = byte_at blake2b (fs_profile st) (py_str node) <$> seqZ off n))).
  split_and!; try done.
  - by destruct (bool_decide (data = [])).
  - intros N HC. destruct (bool_decide (data = [])); [done|]. apply negb_false_iff, bool_decide_eq_true.
    rewrite (co_handle _ _ HC h ino node Hi Hn). unfold data, n. rewrite <- py_slice_length by lia.
    apply py_slice_reads; [lia|lia|]. by apply (co_data _ _ HC).
Qed.

Lemma node_for_total st0 p :
  call = "open" → (∀ q v, fs_path_node st0 !! q = Some v → py_true v = true) →
  ∃ node, node_for st0 op p = Ok node ∧ py_true node = true ∧
    ∀ v, fs_path_node st0 !! p = Some v → node = v.
Proof.
  intros Hc Ht. unfold node_for. destruct (fs_path_node st0 !! p) as [v|] eqn:E; cbn [from_option id].
  - rewrite (Ht _ _ E). exists v. split_and!; [done|by eapply Ht|]. by intros ? [= <-].
  - change (py_true JNull) with false. cbv iota. destruct (po_expected _ _ _ Hop Hc) as (x & Hx).
    pose proof (po_dict _ _ _ Hop) as Hd. destruct op as [| | | | | |o]; try done. cbn [as_dict] in Hx. unfold item. rewrite Hx.
    cbn [mbind res_bind get]. destruct (py_true (getd x "node")) eqn:En; eexists; split_and!; try done.
Qed.

(** What [attach] does to the state. *)
Lemma attach_eq st0 p ino fl h node :
  names_handle args h → fs_names st0 !! p = Some ino →
  node_for (if has fl "trunc" then set_inodes st0 (<[ ino := [] ]> (fs_inodes st0)) else st0) op p = Ok node →
  ∃ r, rs_meta r = [("node", node)] ∧ attach st0 op (JObj args) p fl =
    Ok (bind_handle (set_path_node (if has fl "trunc" then set_inodes st0 (<[ ino := [] ]> (fs_inodes st0)) else st0)
          (<[ p := node ]> (fs_path_node st0))) h ino node, r).
Proof.
  intros (v & Hv & Hh) Hp Hn. unfold attach. rewrite (at_key_Some _ _ _ Hp). cbn [mbind res_bind].
  rewrite (item_arg _ _ _ Hv). cbn [mbind res_bind]. rewrite Hh. cbn [mbind res_bind]. rewrite Hn. cbn [mbind res_bind].
  eexists. split; [|by destruct (has fl "trunc")]. done.
Qed.

Lemma has_trunc_rewrites p ino fl flj :
  call = "open" → names_path args p → fs_names st !! p = Some ino → dget "flags" args = Some flj → flag_set flj = Ok fl →
  has fl "trunc" = true → rewrites st call args ino.
Proof. intros -> Hp Hi Hf Hfl Ht. right. right. split; [done|]. exists p, fl. by rewrite Hf. Qed.

Lemma do_open_total :
  call = "open" → ∃ st' r, do_open st op (JObj args) = Ok (st', r) ∧ effs st st' ∧
    (∀ d, dget "detail" (rs_meta r) ≠ Some d).
Proof.
  intros Hc.
  assert (dget call (calls_of "posix") = Some ["path"; "flags"; "handle"]) as Hf by (by rewrite Hc).
  destruct (path_arg "path" _ Hf) as (p & Ep & Hp); [set_solver|set_solver|].
  destruct (handle_field _ Hf) as (h & Hh); [set_solver|].
  assert (∃ flj fl, dget "flags" args = Some flj ∧ flag_set flj = Ok fl) as (flj & fl & Eflj & Efl).
  { destruct (po_fields _ _ _ Hop) as (fs & E & Hall). rewrite Hf in E. injection E as <-.
    destruct (Hall "flags") as [v Hv]; [set_solver|]. destruct (po_typed _ _ _ Hop _ v Hv) as (_ & _ & Hfl).
    destruct (Hfl eq_refl) as (l & Hl & Hs). exists v, l. split; [done|]. unfold flag_set. rewrite Hl. cbn [mbind res_bind].
    destruct (mapMR_total hkey_of (λ _ _, True) l) as (ks & -> & _); [|done].
    intros f Hin. destruct (Hs f Hin) as (s & -> & _). by eexists. }
  unfold do_open. unfold path_of in Hp. apply bind_Ok in Hp as (pj & Hpj & Hps). rewrite Hpj. cbn [mbind res_bind].
  rewrite Hps. cbn [mbind res_bind]. rewrite (item_arg _ _ _ Eflj). cbn [mbind res_bind]. rewrite Efl. cbn [mbind res_bind].
  destruct (fs_names st !! p) as [ino|] eqn:Ename.
  - destruct (has fl "excl" && has fl "creat"); [eexists _, _; split; [done|]; by split|].
    destruct (ok_names _ Hok p ino Ename) as [buf Hb]. destruct (ok_path_node _ Hok p) as [v Hv]; [by eexists|].
    set (st1 := if has fl "trunc" then set_inodes st (<[ ino := [] ]> (fs_inodes st)) else st).
    assert (effs st st1 ∧ fs_names st1 = fs_names st ∧ fs_path_node st1 = fs_path_node st) as (He & En & Epn).
    { unfold st1. destruct (has fl "trunc") eqn:Et; [|done]. split; [|done]. apply rtc_once, (e_data _ _ _ _ ino buf); [done| |intros; apply reads_as_nil].
      by eapply has_trunc_rewrites. }
    destruct (node_for_total st1 p Hc) as (node & Hnode & Htr & Heq); [rewrite Epn; apply Hok|]. rewrite Epn in Heq.
    specialize (Heq v Hv). subst node. destruct (attach_eq st p ino fl h v Hh Ename Hnode) as (r & Hr & ->).
    eexists _, _. split; [done|]. split; [|rewrite Hr; done].
    eapply rtc_r; [exact He|]. rewrite (insert_id (fs_path_node st) p v Hv). fold st1.
    assert (set_path_node st1 (fs_path_node st) = st1) as -> by (rewrite <- Epn; by destruct st1).
    apply (e_bind _ _ _ _ p); [by rewrite En|by rewrite Epn|done].
  - destruct (negb (has fl "creat") || negb (parent_ok st p)); [eexists _, _; split; [done|]; by split|].
    set (st0 := add_file st p []). set (ino := fs_next st + 1).
    assert (fs_names st0 !! p = Some ino) as En0 by (unfold st0; cbn; by rewrite lookup_insert_eq).
    assert ((if has fl "trunc" then set_inodes st0 (<[ ino := [] ]> (fs_inodes st0)) else st0) = st0) as Est0.
    { destruct (has fl "trunc"); [|done]. unfold st0, set_inodes, add_file. cbn. fold ino. by rewrite insert_insert_eq. }
    destruct (node_for_total st0 p Hc) as (node & Hnode & Htr & _); [apply Hok|]. rewrite <- Est0 in Hnode.
    destruct (attach_eq st0 p ino fl h node Hh En0 Hnode) as (r & Hr & ->). rewrite Est0.
    eexists _, _. split; [done|]. split; [|rewrite Hr; done].
    eapply rtc_l; [apply (e_create _ _ _ _ p node []); [done|intros; apply reads_as_nil]|]. apply rtc_once.
    apply (e_bind _ _ _ _ p); [exact En0| |done]. cbn. by rewrite lookup_insert_eq.
Qed.

(** Calls that change nothing, or only the tree of names. *)
Lemma do_rename_total : call = "rename" → ∃ st' r, do_rename st (JObj args) = Ok (st', r) ∧ effs st st' ∧ rs_meta r = [].
Proof.
  intros Hc. assert (dget call (calls_of "posix") = Some ["path"; "new_path"]) as Hf by (by rewrite Hc).
  destruct (path_arg "path" _ Hf) as (src & Es & Hs); [set_solver|set_solver|].
  destruct (path_arg "new_path" _ Hf) as (dst & Ed & Hd); [set_solver|set_solver|].
  unfold do_rename. rewrite Hs. cbn [mbind res_bind]. rewrite Hd. cbn [mbind res_bind].
  destruct (fs_names st !! src) as [ino|] eqn:En; [|destruct (bool_decide_reflect (src ∈ fs_dirs st)) as [Hin|]].
  - eexists _, _. split; [done|]. split; [|done]. by apply rtc_once, e_move.
  - eexists _, _. split; [done|]. split; [|done]. apply rtc_once, e_movedir; [done|]. intros Hr. by eapply (rg_rename _ _ _ Hr).
  - by eexists _, _.
Qed.

Lemma do_unlink_total : call = "unlink" → ∃ st' r, do_unlink st (JObj args) = Ok (st', r) ∧ effs st st' ∧ rs_meta r = [].
Proof.
  intros Hc. assert (dget call (calls_of "posix") = Some ["path"]) as Hf by (by rewrite Hc).
  destruct (path_arg "path" _ Hf) as (p & Ep & Hp); [set_solver|set_solver|].
  unfold do_unlink. rewrite Hp. cbn [mbind res_bind]. destruct (fs_names st !! p) as [ino|] eqn:En; [|by eexists _, _].
  eexists _, _. split; [done|]. split; [|done]. by apply rtc_once, (e_unlink _ _ _ _ p ino).
Qed.

Lemma do_dir_total :
  (call = "mkdir" → ∃ st' r, do_mkdir st (JObj args) = Ok (st', r) ∧ effs st st' ∧ rs_meta r = []) ∧
  (call = "rmdir" → ∃ st' r, do_rmdir st (JObj args) = Ok (st', r) ∧ effs st st' ∧ rs_meta r = []) ∧
  (call = "readdir" → ∃ r, do_readdir st (JObj args) = Ok (st, r) ∧ ∀ d, dget "detail" (rs_meta r) ≠ Some d) ∧
  (call = "stat" → ∃ r, do_stat st (JObj args) = Ok (st, r) ∧ ∀ d, dget "detail" (rs_meta r) ≠ Some d).
Proof.
  assert (call ∈ ["mkdir"; "rmdir"; "readdir"; "stat"] → ∃ p, path_of (JObj args) "path" = Ok p) as Hp.
  { intros Hin. destruct (path_arg "path" ["path"]) as (p & _ & ?); [|set_solver|set_solver|by exists p].
    rewrite !elem_of_cons in Hin. destruct Hin as [->|[->|[->|[->|Hin]]]]; [done..|by inversion Hin]. }
  split_and!; intros Hc; (destruct Hp as (p & Hp); [rewrite Hc; set_solver|]).
  - unfold do_mkdir. rewrite Hp. cbn [mbind res_bind].
    destruct (_ || _); [by eexists _, _|]. destruct (negb _); [by eexists _, _|].
    eexists _, _. split; [done|]. split; [|done]. apply rtc_once, e_dirs.
  - unfold do_rmdir. rewrite Hp. cbn [mbind res_bind].
    destruct (negb _); [by eexists _, _|]. destruct (negb _); [by eexists _, _|].
    eexists _, _. split; [done|]. split; [|done]. apply rtc_once, e_dirs.
  - unfold do_readdir. rewrite Hp. cbn [mbind res_bind]. eexists. split; [done|]. intros d. destruct (bool_decide _); vm_compute; discriminate.
  - unfold do_stat. rewrite Hp. cbn [mbind res_bind]. destruct (fs_names st !! p) as [ino|] eqn:En.
    + destruct (ok_names _ Hok p ino En) as [buf Hb]. rewrite (at_key_Some _ _ _ Hb). eexists. split; [done|]. intros d. vm_compute. discriminate.
    + eexists. split; [done|]. intros d. destruct (bool_decide _); vm_compute; discriminate.
Qed.

Lemma resize_total ino :
  call = "truncate" ∨ call = "ftruncate" → rewrites st call args ino → is_Some (fs_inodes st !! ino) →
  ∃ st' r, resize st (JObj args) ino = Ok (st', r) ∧ effs st st' ∧ rs_meta r = [].
Proof.
  intros Hc Hw [buf Hb]. destruct (nat_arg "size" (if String.eqb call "truncate" then ["path"; "size"] else ["handle"; "size"]))
    as (z & Ez & Hz & H0); [by destruct Hc as [-> | ->]|destruct (String.eqb call "truncate"); set_solver|set_solver|].
  unfold resize. rewrite (at_key_Some _ _ _ Hb). cbn [mbind res_bind]. rewrite Hz. cbn [mbind res_bind as_int].
  eexists _, _. split; [done|]. split; [|done]. apply rtc_once, (e_data _ _ _ _ ino buf); [done|done|].
  intros Hr f Hf _. apply shrink_reads; [|done]. split; [done|]. by eapply (rg_size _ _ _ Hr).
Qed.
End one_call.

Definition MISMATCH : json := JStr "content mismatch".

(** What a call amounts to. *)
Definition served (st : FakeFS) (call : string) (args : dict) (x : res (FakeFS * Result)) : Prop :=
  ∃ st' r, x = Ok (st', r) ∧
    rtc (effect (regular st call args) (rewrites st call args) (names_handle args)) st st' ∧
    ∀ N, consistent N st → dget "detail" (rs_meta r) ≠ Some MISMATCH.

Lemma served_plain st call args st' r :
  rtc (effect (regular st call args) (rewrites st call args) (names_handle args)) st st' → rs_meta r = [] →
  served st call args (Ok (st', r)).
Proof. intros He Hr. exists st', r. split_and!; try done. intros. by rewrite Hr. Qed.

Lemma handle_calls st op call args h :
  fs_ok st → posix_op op call args → names_handle args h → is_Some (fs_handles st !! h) →
  (call = "close" → served st call args (do_close st (JObj args))) ∧
  (call = "fstat" → served st call args (do_fstat st (JObj args))) ∧
  (call = "ftruncate" → served st call args (do_ftruncate st (JObj args))) ∧
  (∀ b : bool, call = (if b then "pwrite" else "write") → served st call args (do_write blake2b st (JObj args) b)) ∧
  (∀ b : bool, call = (if b then "pread" else "read") → served st call args (do_read blake2b st (JObj args) b)).
Proof.
  intros Hok Hop Hh Ho. destruct (open_handle st args Hok h Hh Ho) as (ino & buf & node & pos & Hi & Hb & _).
  split_and!.
  - intros Hc. unfold do_close. rewrite (handle_arg args h Hh). cbn [mbind res_bind]. rewrite (at_key_Some _ _ _ Hi).
    apply served_plain; [|done]. by apply rtc_once, e_close.
  - intros Hc. unfold do_fstat. rewrite (handle_arg args h Hh). cbn [mbind res_bind]. rewrite (at_key_Some _ _ _ Hi).
    cbn [mbind res_bind]. rewrite (at_key_Some _ _ _ Hb). cbn [mbind res_bind].
    eexists _, _. split; [done|]. split; [done|]. intros N _. vm_compute. discriminate.
  - intros Hc. unfold do_ftruncate. rewrite (handle_arg args h Hh). cbn [mbind res_bind]. rewrite (at_key_Some _ _ _ Hi).
    cbn [mbind res_bind]. destruct (resize_total st op call args Hok Hop ino) as (st' & r & -> & He & Hr);
      [by right| |by eexists|by apply served_plain].
    left. split; [rewrite Hc; set_solver|]. by exists h.
  - intros b Hc. destruct (do_write_total st op call args Hok Hop b h Hc Hh Ho) as (st' & n & -> & He). by apply served_plain.
  - intros b Hc. destruct (do_read_total st op call args Hok Hop b h Hc Hh Ho) as (st' & i & buf' & off & ln & bad & -> & He & _ & _ & _ & _ & Hbad).
    eexists _, _. split; [done|]. split; [done|]. intros N HC. by rewrite (Hbad N HC).
Qed.

(** Every posix operation is served: the call returns, by effects it is
    entitled to, and on consistent data no read reports a mismatch. *)
Lemma fs_perform_served st op call args :
  fs_ok st → posix_op op call args → served st call args (fs_perform blake2b st op).
Proof.
  intros Hok Hop. pose proof Hop as [Hd (id & Hid) Hc Ha (fields & Hf & Hall) _ Hhk _].
  destruct op as [| | | | | |o]; try done. cbn [fld] in Hid, Hc, Ha.
  unfold fs_perform. rewrite !item_getd by congruence. rewrite Hid, Hc, Ha. cbn [mbind res_bind as_str].
  destruct (fs_forced st id) as [oc|]; [eexists _, _; split; [done|]; split; [done|]; intros; cbn; discriminate|].
  cbn [mbind res_bind].
  destruct (decide (call = "open")) as [Ho|Hno].
  { rewrite Ho. change (eq_str (JStr "open") "open") with true. cbv iota. rewrite <- Ho.
    destruct (do_open_total st (JObj o) call args Hok Hop Ho) as (st' & r & -> & He & Hr). by exists st', r. }
  assert (eq_str (JStr call) "open" = false) as -> by (unfold eq_str; by apply String.eqb_neq).
  assert (∃ bad : bool, match dget "handle" args with
    | Some hj => h ← hkey_of hj; Ok (negb (bool_decide (is_Some (fs_handles st !! h)))) | None => Ok false end = Ok bad ∧
    (bad = false → existsb (String.eqb "handle") fields = true → ∃ h, names_handle args h ∧ is_Some (fs_handles st !! h))) as (bad & -> & Hbad).
  { destruct (dget "handle" args) as [hj|] eqn:E.
    - destruct (Hhk hj eq_refl) as (h & Hh). rewrite Hh. eexists. split; [done|]. intros Hb%negb_false_iff%bool_decide_eq_true _.
      exists h. split; [by exists hj|done].
    - exists false. split; [done|]. intros _ (f & Hin & <-%String.eqb_eq)%existsb_exists.
      destruct (Hall "handle") as [? ?]; [by apply list_elem_of_In|congruence]. }
  cbn [mbind res_bind]. destruct bad; [by apply served_plain|].
  destruct (do_dir_total st (JObj o) call args Hok Hop) as (Hmk & Hrm & Hrd & Hst).
  apply dget_Some_In in Hf. let l := eval vm_compute in (calls_of "posix") in change (calls_of "posix") with l in Hf.
  rewrite !elem_of_cons in Hf.
  repeat (destruct Hf as [[= -> ->]|Hf]); try done; try (by inversion Hf);
    try (destruct (Hbad eq_refl) as (h & Hh & Hopen); [reflexivity|];
         destruct (handle_calls st (JObj o) _ args h Hok Hop Hh Hopen) as (H1 & H2 & H3 & H4 & H5));
    cbv beta iota zeta delta [eq_str String.eqb Ascii.eqb Bool.eqb orb].
  - by apply H1.
  - by apply H5.
  - by apply H4.
  - by apply (H5 false).
  - by apply (H4 false).
  - by apply H2.
  - destruct (Hst eq_refl) as (r & -> & Hr). by exists st, r.
  - destruct (Hrd eq_refl) as (r & -> & Hr). by exists st, r.
  - destruct (do_rename_total st (JObj o) "rename" args Hok Hop eq_refl) as (st' & r & -> & He & Hr). by apply served_plain.
  - destruct (do_unlink_total st (JObj o) "unlink" args Hok Hop eq_refl) as (st' & r & -> & He & Hr). by apply served_plain.
  - destruct (Hmk eq_refl) as (st' & r & -> & He & Hr). by apply served_plain.
  - destruct (Hrm eq_refl) as (st' & r & -> & He & Hr). by apply served_plain.
  - destruct (path_arg (JObj o) "truncate" args Hop "path" ["path"; "size"]) as (p & Ep & Hp); [done|set_solver|set_solver|].
    unfold do_truncate. rewrite Hp. cbn [mbind res_bind]. destruct (fs_names st !! p) as [ino|] eqn:En; [|by apply served_plain].
    destruct (resize_total st (JObj o) "truncate" args Hok Hop ino) as (st' & r & -> & He & Hr); [by left| |by apply (ok_names _ Hok p)|by apply served_plain].
    right. left. split; [done|]. by exists p.
  - by apply H3.
  - by apply served_plain.
  - by apply served_plain.
Qed.

(** ** Starting *)
Lemma new_fs_ok p fail : 0 < block_of p → fs_ok (new_fs p fail) ∧ consistent (λ _, "") (new_fs p fail).
Proof. intros Hb. split; constructor; cbn; try done; intros *; rewrite lookup_empty; try done; by intros []. Qed.

Lemma set_node_ok st p v : fs_ok st → py_true v = true → fs_ok (set_path_node st (<[ p := v ]> (fs_path_node st))).
Proof.
  intros [K1 K2 K3 K4 K5 K6 K7] Hv. constructor; cbn; try done.
  - intros q w [[<- <-]|[_ Hq]]%lookup_insert_Some; [done|by eapply K6].
  - intros q Hq. rewrite lookup_insert_is_Some'. right. by apply K7.
Qed.

(** An entry of a validated namespace. *)
Record entry_sound (nodes : dict) (e : json) : Prop := {
  es_dict : is_dict e = true;
  es_path : ∃ p, fld e "path" = JStr p;
  es_node : ∃ name node, fld e "node" = JStr name ∧ name ≠ "" ∧ dget name nodes = Some node ∧ node_sound node
}.

Lemma init_entry_total ns nodes st e :
  fs_ok st → item ns "nodes" = Ok (JObj nodes) → entry_sound nodes e →
  ∃ st', init_entry blake2b ns st e = Ok st' ∧ fs_ok st' ∧
    ∀ N p, fld e "path" = JStr p → consistent N st → fs_names st !! p = None →
      (∃ N', consistent N' st') ∧ ∀ q, is_Some (fs_names st' !! q) → q = p ∨ is_Some (fs_names st !! q).
Proof.
  intros Hok Hns [Hd (p & Hp) (name & node & Hname & Hne & Hnode & [Hnd (kind & Hkind & _) (size & Hsize & Hs0)])].
  destruct e as [| | | | | |ed]; try done. destruct node as [| | | | | |nd]; try done. cbn [fld as_dict] in *.
  assert (py_true (JStr name) = true) as Ht by (cbn; by apply negb_true_iff, String.eqb_neq).
  unfold init_entry. rewrite Hns. cbn [mbind res_bind]. rewrite (item_getd ed "node"), Hname by congruence. cbn [mbind res_bind as_str].
  rewrite (item_arg nodes name _ Hnode). cbn [mbind res_bind]. rewrite (item_getd ed "path"), Hp by congruence. cbn [mbind res_bind as_str].
  rewrite (item_getd nd "kind"), Hkind by congruence. cbn [mbind res_bind].
  destruct (eq_str (JStr kind) "dir").
  - eexists. split; [done|]. split.
    + apply (effect_ok True (λ _, True) (λ _, True)) with (set_path_node st (<[ p := JStr name ]> (fs_path_node st)));
        [by apply set_node_ok|apply (e_dirs _ _ _ (set_path_node st (<[ p := JStr name ]> (fs_path_node st))))].
    + intros N p' [= <-] [C1 C2 C3] Hfree. split; [|intros q Hq; by right]. exists N. constructor; cbn; try done.
      intros q ino v Hq. rewrite lookup_insert_ne by congruence. by apply C3.
  - cbn [get_default]. rewrite Hsize. cbn [mbind res_bind as_int].
    assert (fs_content blake2b (set_path_node st (<[ p := JStr name ]> (fs_path_node st))) (JStr name) 0 size =
      Ok (byte_at blake2b (fs_profile st) name <$> seqZ 0 size)) as -> by (apply content_bytes; [done|apply Hok]).
    cbn [mbind res_bind]. set (data := byte_at _ _ _ <$> _). eexists. split; [done|].
    change (add_file (set_path_node st (<[ p := JStr name ]> (fs_path_node st))) p data)
      with (set_path_node (add_file st p data) (<[ p := JStr name ]> (fs_path_node st))).
    split; [by apply create_ok|]. intros N p' [= <-] HC _. split.
    + eexists. apply (create_consistent N); [done|done|]. apply reads_as_seqZ.
    + intros q. cbn. intros [<-|Hq]%lookup_insert_is_Some'; [by left|by right].
Qed.

Lemma init_entries_total ns nodes entries st :
  fs_ok st → item ns "nodes" = Ok (JObj nodes) → (∀ e, e ∈ entries → entry_sound nodes e) →
  ∃ st', foldM (init_entry blake2b ns) st entries = Ok st' ∧ fs_ok st' ∧
    ∀ N, consistent N st → entries_sound entries →
      (∀ e p, e ∈ entries → fld e "path" = JStr p → fs_names st !! p = None) → ∃ N', consistent N' st'.
Proof.
  intros Hok Hns. revert st Hok. induction entries as [|e l IH]; intros st Hok Hall; [exists st; eauto|].
  destruct (init_entry_total ns nodes st e Hok Hns) as (st1 & E1 & Hok1 & HC1); [apply Hall; by left|].
  destruct (IH st1 Hok1) as (st2 & E2 & Hok2 & HC2); [intros; apply Hall; by right|].
  exists st2. cbn [foldM]. rewrite E1. cbn [mbind res_bind]. split_and!; try done.
  intros N HC (paths & Hpaths & Hnd & Hcf) Hfree. destruct paths as [|p paths]; [done|]. cbn [map fmap list_fmap] in Hpaths.
  injection Hpaths as Hp Hpaths. apply NoDup_cons in Hnd as [Hni Hnd]. apply Forall_cons in Hcf as [_ Hcf].
  destruct (HC1 N p Hp HC) as ((N1 & HCN1) & Hnames); [by apply (Hfree e p); [left|]|].
  apply (HC2 N1 HCN1); [by exists paths|]. intros e' p' He' Hp'.
  destruct (fs_names st1 !! p') eqn:Ep'; [|done]. exfalso. destruct (Hnames p') as [->|Hq]; [by rewrite Ep'|..].
  - apply Hni. apply list_elem_of_lookup in He' as (k & Hk).
    assert (map (λ e, fld e "path") l !! k = Some (JStr p)) as Hl by (rewrite list_lookup_fmap, Hk; cbn; by rewrite Hp').
    rewrite Hpaths in Hl. apply list_lookup_fmap_Some in Hl as (x & [= ->] & Hx). by eapply list_elem_of_lookup_2.
  - rewrite (Hfree e' p') in Hq; [by destruct Hq|by right|done].
Qed.

(** A validated workload is set up, with the content its reads verify. *)
Lemma fs_initialize_total wl st :
  validate_workload wl = Ok tt → fs_ok st →
  ∃ st', fs_initialize blake2b wl st = Ok st' ∧ fs_ok st' ∧
    ∀ N, consistent N st → fs_names st = ∅ → ∃ N', consistent N' st'.
Proof.
  intros Hv Hok. destruct (validate_workload_Ok wl Hv) as (d & ns & entries & handles & ops & -> & Ens & Eent & _ & _ & Hes & _).
  destruct (validate_namespace_Ok d ns entries Hv Ens Eent) as (nodes & Enodes & Hnodes).
  unfold fs_initialize. rewrite item_getd, Ens by congruence. cbn [mbind res_bind].
  rewrite item_getd, Eent by congruence. cbn [mbind res_bind iterate].
  destruct (init_entries_total (JObj ns) nodes entries st Hok) as (st' & -> & Hok' & HC).
  - rewrite item_getd by congruence. by rewrite Enodes.
  - intros e He. destruct (Hnodes e He) as (p & name & node & ? & ? & ? & ? & ? & ?). constructor; eauto 6.
  - exists st'. split_and!; try done. intros N HN Hempty. apply (HC N HN Hes). intros. by rewrite Hempty, lookup_empty.
Qed.
End effects.

(** ** Promises *)

(** The operation carries the [expected] entry that [open] reads. *)
Definition has_expected (op : json) : bool := dhas "expected" (as_dict op).

Lemma posix_op_intro initial pre op :
  op_sound3 initial pre op → fld op "family" = JStr "posix" → has_expected op = true →
  ∃ call args, posix_op op call args.
Proof.
  intros [(id & Hid & _) (fam & call & Hfam & Hcall & fields & Hf & Hall) _ _ _ _ (o & args & x & -> & Hargs & Hx & _) Ht Hh] Hp He.
  assert (fam = "posix") as -> by congruence. cbn [fld as_dict] in *. rewrite Hargs in *. cbn [as_dict] in *.
  exists call, args. constructor; eauto. intros _. unfold has_expected, dhas in He. cbn [as_dict] in *.
  destruct (dget "expected" o) as [v|]; [|done]. cbn in Hx. subst v. by exists x.
Qed.

(** C9: the calls of the in-memory file system are total on well-formed states:
    a posix operation as the validator accepts it that carries the field [expected],
    which [open] reads and the validator does not require (see
    [open_needs_expected]), returns a result and leaves the state well formed: every name
    and every handle leads to an inode, and no two names to the same one. *)
Theorem fs_perform_typed blake2b st op call args :
  (∀ s n, (1 ≤ n ≤ 64)%nat → length (blake2b s n) = n) → fs_ok st → posix_op op call args →
  ∃ st' r, fs_perform blake2b st op = Ok (st', r) ∧ fs_ok st'.
Proof.
  intros Hd Hok Hop. destruct (fs_perform_served blake2b Hd st op call args Hok Hop) as (st' & r & E & He & _).
  exists st', r. split; [done|]. by eapply effects_ok.
Qed.

(** what an open handle reads is its own: no operation that names another
    handle and does not write or truncate the same inode changes the data,
    the identity or the position behind a handle; so a rename keeps the data
    and an unlinked file stays readable. *)
Theorem handle_isolated blake2b st op call args st' r h ino :
  (∀ s n, (1 ≤ n ≤ 64)%nat → length (blake2b s n) = n) → fs_ok st → posix_op op call args →
  fs_perform blake2b st op = Ok (st', r) →
  fs_handles st !! h = Some ino → ¬ names_handle args h → ¬ rewrites st call args ino →
  view st' h = view st h.
Proof.
  intros Hd Hok Hop E Hh Hn Hw. destruct (fs_perform_served blake2b Hd st op call args Hok Hop) as (st1 & r1 & E1 & He & _).
  rewrite E in E1. apply Ok_inj in E1 as [= <- <-]. by eapply effects_view.
Qed.

(** Operations one after the other. *)
Fixpoint fs_run (blake2b : string → nat → bytes) (st : FakeFS) (ops : list json) : res (FakeFS * list Result) :=
  match ops with
  | [] => Ok (st, [])
  | op :: ops =>
      x ← fs_perform blake2b st op; y ← fs_run blake2b x.1 ops; Ok (y.1, x.2 :: y.2)
  end.

Definition call_of (op : json) : string := match fld op "call" with JStr s => s | _ => "" end.
Definition args_of (op : json) : dict := as_dict (fld op "args").

(** [regular], as a check: the inode a write or truncation is for, and the
    last position it may start from or end at. *)
Definition handle_inode (st : FakeFS) (args : dict) : option (hkey * Z) :=
  match dget "handle" args with
  | Some v => match hkey_of v with
              | Ok h => match fs_handles st !! h with Some ino => Some (h, ino) | None => None end
              | Raise _ => None
              end
  | None => None
  end.

Definition within (st : FakeFS) (ino z : Z) : bool :=
  match fs_inodes st !! ino with Some buf => z <=? Z.of_nat (length buf) | None => true end.

Definition sized (st : FakeFS) (args : dict) (ino : Z) : bool :=
  match dget "size" args with Some (JInt z) => within st ino z | _ => true end.

Definition regularb (st : FakeFS) (call : string) (args : dict) : bool :=
  if String.eqb call "pwrite" || String.eqb call "write" then
    match handle_inode st args with
    | Some (h, ino) => match offset_of st (JObj args) h (String.eqb call "pwrite") with
                       | Ok off => within st ino off | Raise _ => true end
    | None => true
    end
  else if String.eqb call "ftruncate" then
    match handle_inode st args with Some (_, ino) => sized st args ino | None => true end
  else if String.eqb call "truncate" then
    match dget "path" args with
    | Some (JStr p) => match fs_names st !! p with Some ino => sized st args ino | None => true end
    | _ => true
    end
  else if String.eqb call "rename" then
    match dget "path" args, dget "new_path" args with
    | Some (JStr src), Some (JStr dst) =>
        negb (bool_decide (fs_names st !! src = None)) || negb (bool_decide (src ∈ fs_dirs st))
        || bool_decide (fs_names st !! dst = None)
    | _, _ => true
    end
  else true.

Lemma handle_inode_Some st args h ino :
  names_handle args h → fs_handles st !! h = Some ino → handle_inode st args = Some (h, ino).
Proof. intros (v & Hv & Hh) Hi. unfold handle_inode. by rewrite Hv, Hh, Hi. Qed.

Lemma within_le st ino buf z : fs_inodes st !! ino = Some buf → within st ino z = true → z ≤ Z.of_nat (length buf).
Proof. unfold within. intros ->. apply Z.leb_le. Qed.

Lemma regularb_regular st call args : regularb st call args = true → regular st call args.
Proof.
  intros H. constructor.
  - intros Hc h ino buf off Hh Hi Hb Hoff. unfold regularb in H.
    assert (String.eqb call "pwrite" || String.eqb call "write" = true) as E by (by destruct Hc as [-> | ->]).
    rewrite E, (handle_inode_Some _ _ _ _ Hh Hi), Hoff in H. by eapply within_le.
  - intros Hc ino buf z Hw Hb Hz. unfold regularb, sized in H. rewrite Hz in H.
    destruct Hc as [-> | ->]; cbv beta iota zeta delta [String.eqb Ascii.eqb Bool.eqb orb] in H;
      destruct Hw as [[Hin (h & Hh & Hi)]|[[Hc (p & Hp & Hi)]|[Hc _]]]; try done; try set_solver.
    + unfold names_path in Hp. rewrite Hp, Hi in H. by eapply within_le.
    + rewrite (handle_inode_Some _ _ _ _ Hh Hi) in H. by eapply within_le.
  - intros -> src dst Hs Hd Hns Hin. unfold regularb, names_path in *. rewrite Hs, Hd in H.
    cbv beta iota zeta delta [String.eqb Ascii.eqb Bool.eqb orb] in H.
    rewrite (bool_decide_eq_true_2 _ Hns), (bool_decide_eq_true_2 _ Hin) in H. cbn in H. by apply bool_decide_eq_true in H.
Qed.

(** Each operation is regular when its turn comes. *)
Fixpoint regular_run (blake2b : string → nat → bytes) (st : FakeFS) (ops : list json) : bool :=
  match ops with
  | [] => true
  | op :: ops => regularb st (call_of op) (args_of op) &&
      match fs_perform blake2b st op with Ok (st', _) => regular_run blake2b st' ops | Raise _ => true end
  end.

Lemma posix_op_parts op call args : posix_op op call args → call_of op = call ∧ args_of op = args.
Proof. intros [_ _ Hc Ha _ _ _ _]. unfold call_of, args_of. by rewrite Hc, Ha. Qed.

Lemma fs_run_verifies blake2b N st ops :
  (∀ s n, (1 ≤ n ≤ 64)%nat → length (blake2b s n) = n) → fs_ok st → consistent blake2b N st →
  (∀ op, op ∈ ops → ∃ call args, posix_op op call args) → regular_run blake2b st ops = true →
  ∃ st' rs, fs_run blake2b st ops = Ok (st', rs) ∧ fs_ok st' ∧ (∃ N', consistent blake2b N' st') ∧
    Forall (λ r, dget "detail" (rs_meta r) ≠ Some MISMATCH) rs.
Proof.
  intros Hd. revert N st. induction ops as [|op ops IH]; intros N st Hok HC Hops Hreg; cbn [fs_run regular_run] in *.
  { exists st, []. split; [done|]. split; [done|]. split; [by exists N|constructor]. }
  destruct (Hops op) as (call & args & Hop); [by left|]. destruct (posix_op_parts _ _ _ Hop) as [Ec Ea]. rewrite Ec, Ea in Hreg.
  apply andb_true_iff in Hreg as [Hr%regularb_regular Hrest]. destruct (fs_perform_served blake2b Hd st op call args Hok Hop) as (st1 & r & E & He & Hdet).
  rewrite E in *. cbn [mbind res_bind fst snd]. destruct (effects_consistent _ _ _ _ N st st1 Hr He Hok HC) as (N1 & HC1).
  destruct (IH N1 st1) as (st2 & rs & E2 & Hok2 & HC2 & Hrs); [by eapply effects_ok|done|intros; apply Hops; by right|done|].
  exists st2, (r :: rs). rewrite E2. cbn [mbind res_bind fst snd]. split_and!; try done. constructor; [by apply (Hdet N)|done].
Qed.

(** C8: on a file system set up from a validated workload, any sequence of
    posix operations that leaves no holes and renames no directory over a file
    runs without a single read reporting foreign content, whatever names,
    handles and incarnations it goes through. *)
Theorem fs_reads_verify blake2b wl p fail ops :
  (∀ s n, (1 ≤ n ≤ 64)%nat → length (blake2b s n) = n) → 0 < block_of p → validate_workload wl = Ok tt →
  (∀ op, op ∈ ops → ∃ call args, posix_op op call args) →
  ∃ st0, fs_initialize blake2b wl (new_fs p fail) = Ok st0 ∧
    (regular_run blake2b st0 ops = true →
     ∃ st rs, fs_run blake2b st0 ops = Ok (st, rs) ∧
       Forall (λ r, dget "detail" (rs_meta r) ≠ Some MISMATCH) rs).
Proof.
  intros Hd Hb Hv Hops. destruct (new_fs_ok blake2b p fail Hb) as [Hok HC].
  destruct (fs_initialize_total blake2b Hd wl _ Hv Hok) as (st0 & E & Hok0 & HC0). exists st0. split; [done|]. intros Hr.
  destruct (HC0 _ HC eq_refl) as (N & HN). destruct (fs_run_verifies blake2b N st0 ops Hd Hok0 HN Hops Hr) as (st & rs & ? & _ & _ & ?).
  by exists st, rs.
Qed.

(** The file system serves every validated posix workload. *)
Definition posix_workload (ops : list json) : bool :=
  forallb (λ op, eq_str (fld op "family") "posix" && has_expected op && int_delay op) ops.

Lemma fs_serves blake2b ex ops :
  (∀ s n, (1 ≤ n ≤ 64)%nat → length (blake2b s n) = n) →
  validate_workload (e_intent ex) = Ok tt → e_v3 ex = true → operations_of (e_intent ex) = Ok ops → posix_workload ops = true →
  @Serves FakeFS (fs_backend blake2b) ex ops fs_ok ∧ schedulable ex ops.
Proof.
  intros Hd Hv Hv3 Hops Hall.
  destruct (validate_workload_Ok _ Hv) as (d & ns & entries & handles & ops' & Ed & _ & _ & _ & Eops & _ & Hsound).
  assert (ops' = ops) as ->.
  { unfold operations_of in Hops. rewrite Ed in Hops. rewrite item_getd, Eops in Hops by congruence. by apply Ok_inj in Hops. }
  unfold posix_workload in Hall. rewrite forallb_forall in Hall. split; [constructor|].
  - intros st Hok. destruct (fs_initialize_total blake2b Hd _ st Hv Hok) as (st' & ? & ? & _). by exists st'.
  - intros st id o Hok Ho _. pose proof (Hall o ltac:(by apply list_elem_of_In)) as Hb.
    apply andb_true_iff in Hb as [[Hfam He]%andb_true_iff _].
    assert (fld o "family" = JStr "posix") as Hf.
    { destruct (fld o "family"); try done. cbn in Hfam. by apply String.eqb_eq in Hfam as ->. }
    apply list_elem_of_lookup in Ho as (s & Hs). destruct (posix_op_intro _ _ o (Hsound s o Hs) Hf He) as (call & args & Hop).
    unfold perform_op. rewrite Hv3. unfold perform_v3.
    destruct (s3_shape _ _ _ (Hsound s o Hs)) as (oo & args' & x & -> & _ & Hx & _). cbn [get_default mbind res_bind]. rewrite Hx.
    cbn [mbind res_bind get]. destruct (_ && _); [by eexists _, _|]. cbn [fld] in Hf. rewrite (item_getd oo "family"), Hf by congruence.
    cbn [mbind res_bind]. change (eq_str (JStr "posix") "object") with false. cbv iota. cbn [bk_perform fs_backend].
    destruct (fs_perform_served blake2b Hd st _ call args Hok Hop) as (st' & r & -> & He' & _). cbn [mbind res_bind fst snd].
    eexists _, _. split; [done|]. by eapply effects_ok.
  - intros st []. eexists. split; [done|]. constructor; cbn; done.
  - apply (v3_schedulable ex d ops (KStr <$> keys handles)); try done.
    apply forallb_forall. intros o Ho. specialize (Hall o Ho). by apply andb_true_iff in Hall as [_ ?].
Qed.

(** ** An example *)
Definition small_blocks : profile :=
  Mixed {| kn_zero := fzero; kn_pattern := fzero; kn_pattern_len := 64; kn_dup_classes := 0; kn_block := 8 |}.

(** A file is opened and unlinked; a new one under the same name is written,
    renamed and read; the first handle still reads the old data. *)
Definition ex_files : json :=
  let op id seq call args deps :=
    JObj [("op_id", JStr id); ("seq", JInt seq); ("family", JStr "posix"); ("call", JStr call);
          ("args", JObj args); ("stream", JStr "s0"); ("deps", JList deps); ("expected", JObj [])] in
  let dep d := JObj [("op", JStr d); ("kind", JStr "program")] in
  match ex_posix with
  | JObj d => JObj (dset "namespace" (JObj [
      ("nodes", JObj [("n0", JObj [("kind", JStr "file"); ("size", JInt 6)]); ("n1", JObj [("kind", JStr "dir")])]);
      ("entries", JList [JObj [("path", JStr "d"); ("node", JStr "n1")]; JObj [("path", JStr "d/f"); ("node", JStr "n0")]]);
      ("handles", JObj [])]) (dset "operations" (JList [
        op "a" 0 "open" [("path", JStr "d/f"); ("flags", JList [JStr "rd"]); ("handle", JStr "h")] [];
        op "b" 1 "unlink" [("path", JStr "d/f")] [dep "a"];
        op "c" 2 "open" [("path", JStr "d/f"); ("flags", JList [JStr "wr"; JStr "creat"]); ("handle", JStr "g")] [dep "b"];
        op "d" 3 "pwrite" [("handle", JStr "g"); ("offset", JInt 0); ("length", JInt 10)] [dep "c"];
        op "e" 4 "rename" [("path", JStr "d/f"); ("new_path", JStr "k")] [dep "d"];
        op "f" 5 "pread" [("handle", JStr "h"); ("offset", JInt 2); ("length", JInt 9)] [dep "b"];
        op "g" 6 "pread" [("handle", JStr "g"); ("offset", JInt 4); ("length", JInt 4)] [dep "e"]]) d))
  | v => v
  end.

Definition files_ops : list json := as_list (fld ex_files "operations").

Lemma files_posix op : op ∈ files_ops → ∃ call args, posix_op op call args.
Proof.
  destruct (validate_workload_Ok ex_files) as (d & ns & entries & handles & ops & Hd & _ & _ & _ & Hops & _ & Hsound);
    [vm_compute; reflexivity|].
  assert (files_ops = ops) as E by (unfold files_ops; rewrite Hd; cbn [fld]; by rewrite Hops).
  intros Hin. assert (fld op "family" = JStr "posix" ∧ has_expected op = true) as [Hf He].
  { revert op Hin. apply Forall_forall. vm_compute. repeat constructor. }
  rewrite E in Hin. apply list_elem_of_lookup in Hin as (s & Hs). by apply (posix_op_intro _ _ op (Hsound s op Hs)).
Qed.

(** The file system after the set-up and the first [k] operations. *)
Definition files_state (k : nat) : FakeFS :=
  match (st ← fs_initialize toy_digest ex_files (new_fs small_blocks []); fs_run toy_digest st (take k files_ops)) with
  | Ok (st, _) => st
  | Raise _ => new_fs small_blocks []
  end.

Lemma fs_run_ok blake2b st ops :
  (∀ s n, (1 ≤ n ≤ 64)%nat → length (blake2b s n) = n) → fs_ok st →
  (∀ op, op ∈ ops → ∃ call args, posix_op op call args) → ∃ st' rs, fs_run blake2b st ops = Ok (st', rs) ∧ fs_ok st'.
Proof.
  intros Hd. revert st. induction ops as [|op ops IH]; intros st Hok Hops; cbn [fs_run]; [by exists st, []|].
  destruct (Hops op) as (call & args & Hop); [by left|].
  destruct (fs_perform_served blake2b Hd st op call args Hok Hop) as (st1 & r & -> & He & _). cbn [mbind res_bind fst snd].
  destruct (IH st1) as (st2 & rs & -> & ?); [by eapply effects_ok|intros; apply Hops; by right|]. cbn. eauto.
Qed.

Lemma files_state_ok k : fs_ok (files_state k).
Proof.
  destruct (new_fs_ok toy_digest small_blocks []) as [Hok _]; [vm_compute; done|].
  destruct (fs_initialize_total toy_digest toy_digest_size ex_files (new_fs small_blocks [])) as (st & E & Hst & _);
    [vm_compute; reflexivity|done|].
  unfold files_state. rewrite E. cbn [mbind res_bind].
  destruct (fs_run_ok toy_digest st (take k files_ops) toy_digest_size Hst) as (st' & rs & -> & ?); [|done].
  intros op Hop. apply files_posix. rewrite <- (take_drop k files_ops). apply elem_of_app. by left.
Qed.

Definition files_op (k : nat) : json := default JNull (files_ops !! k).

Lemma files_op_posix k : (k < length files_ops)%nat → posix_op (files_op k) (call_of (files_op k)) (args_of (files_op k)).
Proof.
  intros Hk. destruct (lookup_lt_is_Some_2 files_ops k Hk) as [op Hop]. unfold files_op. rewrite Hop. cbn [from_option id].
  destruct (files_posix op) as (call & args & H); [by eapply list_elem_of_lookup_2|].
  by destruct (posix_op_parts _ _ _ H) as [-> ->].
Qed.

(** The new file is written. *)
Lemma fs_perform_typed_witness :
  ∃ st' r, fs_perform toy_digest (files_state 3) (files_op 3) = Ok (st', r) ∧ fs_ok st'.
Proof.
  apply (fs_perform_typed toy_digest (files_state 3) (files_op 3) (call_of (files_op 3)) (args_of (files_op 3)));
    [apply toy_digest_size|apply files_state_ok|apply files_op_posix; vm_compute; lia].
Defined.

(** The unlinked file stays readable through its handle. *)
Lemma handle_isolated_witness :
  match fs_perform toy_digest (files_state 1) (files_op 1) with
  | Ok (st', _) => view st' (KStr "h") = view (files_state 1) (KStr "h")
  | Raise _ => False
  end.
Proof.
  destruct (fs_perform toy_digest (files_state 1) (files_op 1)) as [[st' r]|e] eqn:E; [|vm_compute in E; discriminate].
  apply (handle_isolated toy_digest (files_state 1) (files_op 1) (call_of (files_op 1)) (args_of (files_op 1)) st' r (KStr "h") 1);
    [apply toy_digest_size|apply files_state_ok|apply files_op_posix; vm_compute; lia|exact E|vm_compute; reflexivity| |].
  - intros (v & Hv & _). vm_compute in Hv. discriminate.
  - intros [[Hc _]|[[Hc _]|[Hc _]]]; [|vm_compute in Hc; discriminate..]. apply list_elem_of_In in Hc.
    vm_compute in Hc. destruct Hc as [Hc|[Hc|[Hc|[]]]]; discriminate.
Defined.

Lemma fs_reads_verify_witness :
  ∃ st0, fs_initialize toy_digest ex_files (new_fs small_blocks []) = Ok st0 ∧
    (regular_run toy_digest st0 files_ops = true →
     ∃ st rs, fs_run toy_digest st0 files_ops = Ok (st, rs) ∧
       Forall (λ r, dget "detail" (rs_meta r) ≠ Some MISMATCH) rs).
Proof.
  apply (fs_reads_verify toy_digest ex_files small_blocks [] files_ops);
    [apply toy_digest_size|vm_compute; reflexivity|vm_compute; reflexivity|apply files_posix].
Defined.

(** The example is regular, and its reads return what is there. *)
Example files_results :
  match (st0 ← fs_initialize toy_digest ex_files (new_fs small_blocks []);
         x ← fs_run toy_digest st0 files_ops; Ok (regular_run toy_digest st0 files_ops, x)) with
  | Ok (ok, (st, rs)) => ok = true ∧
      (λ r, (rs_outcome r, rs_bytes r)) <$> rs = [("success", 0); ("success", 0); ("success", 0); ("success", 10);
        ("success", 0); ("eof", 4); ("success", 4)]
  | Raise _ => False
  end.
Proof. vm_compute. split; reflexivity. Qed.

Definition files_executor : Executor :=
  {| e_v3 := true; e_intent := ex_files; e_profile := "dependency"; e_simulated := false; e_workers := 2;
     e_delay := 0; e_cancelled_skip := true; e_content := small_blocks |}.

(** ** Where the file system differs from a real one *)
Definition bare_op (call : string) (args : dict) : json :=
  JObj [("op_id", JStr "x"); ("call", JStr call); ("args", JObj args); ("expected", JObj [])].

Definition outcomes_of (ops : list json) : res (list string) :=
  match fs_run toy_digest (new_fs small_blocks []) ops with Ok (_, rs) => Ok (map rs_outcome rs) | Raise e => Raise e end.

(** Renaming a directory leaves its entries behind under the old path. *)
Example rename_dir_leaves_entries :
  outcomes_of [bare_op "mkdir" [("path", JStr "d")];
               bare_op "open" [("path", JStr "d/f"); ("flags", JList [JStr "wr"; JStr "creat"]); ("handle", JStr "h")];
               bare_op "rename" [("path", JStr "d"); ("new_path", JStr "e")];
               bare_op "stat" [("path", JStr "e/f")]; bare_op "stat" [("path", JStr "d/f")]]
  = Ok ["success"; "success"; "success"; "miss"; "success"].
Proof. vm_compute. reflexivity. Qed.

(** A directory can be opened for creation: a file appears under its path. *)
Example open_creates_over_dir :
  outcomes_of [bare_op "mkdir" [("path", JStr "d")];
               bare_op "open" [("path", JStr "d"); ("flags", JList [JStr "wr"; JStr "creat"]); ("handle", JStr "h")]]
  = Ok ["success"; "success"].
Proof. vm_compute. reflexivity. Qed.

(** An operation without [expected] passes the validator, which defaults it,
    and makes [open] of a new name raise. *)
Example open_needs_expected :
  match fs_perform toy_digest (new_fs small_blocks [])
    (JObj [("op_id", JStr "x"); ("call", JStr "open");
           ("args", JObj [("path", JStr "f"); ("flags", JList [JStr "wr"; JStr "creat"]); ("handle", JStr "h")])]) with
  | Raise e => exn_cls e = KeyError
  | Ok _ => False
  end.
Proof. vm_compute. reflexivity. Qed.
