(* ===== verification/Engines.v ===== *)
(** * The engine registry and its preflight ([tools/kvio/engines.py])

    An engine declares the typed calls it can make.  [preflight] refuses a
    workload whose calls the chosen engine cannot make; [fidelity_manifest]
    records what a run used.  The environment the manifest reports (loaded
    modules, variables, host) is a parameter. *)

From stdpp Require Import prelude strings list numbers gmap sorting.
From Stdlib Require Import ZArith Lia Ascii.
From S2P Require Import Prelude PyText PyJson JsonText Intent Intent2 Workload3.
Local Open Scope Z_scope.

(** [EngineSpec], apart from the callables that make a backend. *)
Record EngineSpec := {
  es_name : string; es_family : string; es_capabilities : list string; es_providers : list string
}.

(** [frozenset(f"{family}.{c}" for c in CALLS[family])] *)
Definition family_capabilities (family : string) : list string :=
  (λ c, family +:+ "." +:+ c) <$> keys (calls_of family).

Definition OBJECT_CAPABILITIES : list string := ["object.store"; "object.load"; "object.release"; "object.exists"].

(** [register_builtin], with every module importable. *)
Definition REGISTRY : list (string * EngineSpec) :=
  (λ s, (es_name s, s)) <$> [
    {| es_name := "fake"; es_family := "object"; es_capabilities := OBJECT_CAPABILITIES; es_providers := ["memory"] |};
    {| es_name := "lmcache-raw_block"; es_family := "object"; es_capabilities := OBJECT_CAPABILITIES;
       es_providers := ["posix"; "io_uring"; "uring_cmd"] |};
    {| es_name := "posix-direct"; es_family := "posix"; es_capabilities := family_capabilities "posix";
       es_providers := ["mount"] |};
    {| es_name := "fake-fs"; es_family := "posix"; es_capabilities := family_capabilities "posix";
       es_providers := ["memory"] |};
    {| es_name := "s3-sdk"; es_family := "s3"; es_capabilities := family_capabilities "s3"; es_providers := ["endpoint"] |};
    {| es_name := "fake-s3"; es_family := "s3"; es_capabilities := family_capabilities "s3"; es_providers := ["memory"] |}].

(** [c.split(".")[0]] *)
Definition family_of (c : string) : string := default "" (head (split_on 46 c)).

Definition preflight (registry : list (string * EngineSpec)) (workload : json) (engine_name : string)
    (provider : option string) : res EngineSpec :=
  match dget engine_name registry with
  | None => Raise (Exn PreflightError "unknown engine {engine_name!r}; known: {sorted(REGISTRY)}")
  | Some spec =>
      raise_if (match provider with Some p => negb (bool_decide (p ∈ es_providers spec)) | None => false end)
        (Exn PreflightError "engine {engine_name!r} has no provider {provider!r}; has {spec.providers}") ;;
      needed ← required_capabilities workload;
      let missing := filter (λ c, c ∉ es_capabilities spec) needed in
      let families := remove_dups (family_of <$> needed) in
      raise_unless (forallb (String.eqb (es_family spec)) families)
        (Exn PreflightError "engine {engine_name!r} serves family {spec.family!r}; workload needs {sorted(families)}") ;;
      raise_if (negb (bool_decide (missing = [])))
        (Exn PreflightError "engine {engine_name!r} cannot realize {missing}") ;;
      Ok spec
  end.

(** ** The fidelity manifest *)
Section manifest.
Variable sha256 : string → string.
(** What the run finds around it: the file of a module ([None]: it cannot be
    imported), the variables that start with [KVIO_], the host. *)
Variables (loaded : string → option string) (overrides host : dict).

(** [dict.update] *)
Definition dict_update (d e : dict) : dict := fold_left (λ d kv, dset kv.1 kv.2 d) e d.

Definition optional (v : option string) : json := match v with Some s => JStr s | None => JNull end.

(** The dimensions the manifest lacks. *)
Definition missing_of (modules : list string) (timing_model : json) (timing_profile : string) : list json :=
  ((λ m, JStr ("module " +:+ m +:+ " not importable")) <$> filter (λ m, loaded m = None) modules)
  ++ (if eq_str timing_model "absent" && String.eqb timing_profile "offered"
      then [JStr "offered-load profile requested without recorded release times"] else []).

Definition fidelity_manifest (workload : json) (spec : EngineSpec) (provider : option string) (revision : json)
    (config : dict) (timing_profile content_profile : string) (modules : list string) (target : option json)
    (sidecar_bytes : option string) (extra : dict) : res dict :=
  prov ← item workload "provenance";
  schema ← item workload "schema";
  ws ← workload_sha256 sha256 workload;
  tm ← item prov "timing_model";
  bs ← (if bool_decide (sidecar_bytes ≠ None) || negb (eq_str tm "captured")
        then bytes ← bundle_bytes3 sha256 workload sidecar_bytes None; Ok (JStr (sha256 bytes)) else Ok JNull);
  level ← item prov "capture_level"; method ← item prov "mapping_method"; comp ← item prov "completeness";
  relp ← item prov "release_provenance";
  caps ← required_capabilities workload; source ← item workload "engine";
  Ok (dict_update [
    ("schema", JStr "kvio.fidelity-manifest.v1");
    ("workload", JObj [("schema", schema); ("sha256", JStr ws); ("bundle_sha256", bs); ("capture_level", level);
       ("mapping_method", method); ("completeness", comp); ("timing_model", tm); ("release_provenance", relp);
       ("required_capabilities", JList (JStr <$> caps)); ("source_engine", source)]);
    ("engine", JObj ([("name", JStr (es_name spec)); ("family", JStr (es_family spec)); ("provider", optional provider);
       ("revision", revision); ("config", JObj config);
       ("loaded", JObj ((λ m, (m, optional (loaded m))) <$> modules)); ("overrides", JObj overrides)]
       ++ match target with Some t => [("target", t)] | None => [] end));
    ("replay", JObj [("timing_profile", JStr timing_profile); ("content_profile", JStr content_profile); ("host", JObj host)]);
    ("missing", JList (missing_of modules tm timing_profile))] extra).
End manifest.
