(* ===== verification/EnginesCorrect.v ===== *)
(** * What the preflight promises

    The preflight accepts a workload exactly when the engine is registered,
    serves the provider and makes every call of the workload.  With the
    theorems on the file system, a workload accepted for the engine [fake-fs]
    runs to its end on it. *)

From stdpp Require Import prelude strings list numbers gmap sorting.
From Stdlib Require Import ZArith Lia Ascii.
From S2P Require Import Prelude PyText PyJson JsonText Intent Intent2 Workload3 ContentProfile IntentExec ExecCorrect ExecRun ExecReal ExecRealCorrect FakeFS FakeFSCorrect Engines.
Local Open Scope Z_scope.

(** The capability an operation needs. *)
Definition needs (op : json) (c : string) : Prop :=
  ∃ fam call, fld op "family" = JStr fam ∧ fld op "call" = JStr call ∧ c = fam +:+ "." +:+ call.

Lemma known_family fam call fields : dget call (calls_of fam) = Some fields → fam ∈ ["object"; "posix"; "s3"].
Proof.
  unfold calls_of. destruct (dget fam CALLS) as [cs|] eqn:E; [|done]. intros _.
  apply dget_Some_In in E. apply list_elem_of_In in E. simpl in E.
  destruct E as [[= <- _]|[[= <- _]|[[= <- _]|[]]]]; set_solver.
Qed.

Lemma family_of_cap fam c : fam ∈ ["object"; "posix"; "s3"] → family_of (fam +:+ "." +:+ c) = fam.
Proof.
  intros Hf. unfold family_of. change ("." +:+ c) with (String (chr 46) c). assert (has_char 46 fam = false) as Hno.
  { rewrite !elem_of_cons in Hf. destruct Hf as [->|[->|[->|Hf]]]; [done..|by inversion Hf]. }
  by rewrite split_on_sep.
Qed.

Section accepted.
Variables (wl : json) (ops : list json).
Hypothesis Hv : validate_workload wl = Ok tt.
Hypothesis Hops : fld wl "operations" = JList ops.

Lemma op_call op : op ∈ ops → ∃ fam call, fld op "family" = JStr fam ∧ fld op "call" = JStr call ∧ fam ∈ ["object"; "posix"; "s3"].
Proof.
  intros (s & Hs)%list_elem_of_lookup.
  destruct (validate_workload_Ok _ Hv) as (d & ns & entries & handles & ops' & Ed & _ & _ & _ & Eops & _ & Hsound).
  rewrite Ed in Hops. cbn [fld] in Hops. assert (ops' = ops) as -> by congruence.
  destruct (s3_call _ _ _ (Hsound s op Hs)) as (fam & call & Hf & Hc & fields & Hfs & _).
  exists fam, call. split_and!; try done. by eapply known_family.
Qed.

Lemma required_total :
  ∃ needed, required_capabilities wl = Ok needed ∧ ∀ c, c ∈ needed ↔ ∃ op, op ∈ ops ∧ needs op c.
Proof.
  unfold required_capabilities.
  assert (item wl "operations" = Ok (JList ops)) as ->.
  { destruct (validate_workload_Ok _ Hv) as (d & _ & _ & _ & ops' & Ed & _). rewrite Ed in *. cbn [fld] in Hops.
    rewrite item_getd by congruence. by rewrite Hops. }
  cbn [mbind res_bind iterate].
  destruct (mapMR_total (λ o, f ← item o "family"; c ← item o "call"; Ok (py_str f +:+ "." +:+ py_str c)) needs ops) as (caps & -> & HF).
  { intros o Ho. destruct (op_call o Ho) as (fam & call & Hf & Hc & _).
    destruct o as [| | | | | |oo]; try done. cbn [fld] in Hf, Hc. rewrite !item_getd by congruence. rewrite Hf, Hc.
    eexists. split; [done|]. by exists fam, call. }
  cbn [mbind res_bind]. eexists. split; [done|]. intros c. rewrite stable_sort_Permutation, elem_of_remove_dups. split.
  - intros (i & Hi)%list_elem_of_lookup. destruct (Forall2_lookup_r _ _ _ _ _ HF Hi) as (o & Ho & Hn).
    exists o. split; [by eapply list_elem_of_lookup_2|done].
  - intros (o & (i & Hi)%list_elem_of_lookup & Hn). destruct (Forall2_lookup_l _ _ _ _ _ HF Hi) as (c' & Hc' & Hn').
    assert (c = c') as -> by (destruct Hn as (? & ? & ? & ? & ->), Hn' as (? & ? & ? & ? & ->); congruence).
    by eapply list_elem_of_lookup_2.
Qed.

(** What an engine has to offer. *)
Record realizes (spec : EngineSpec) (provider : option string) : Prop := {
  rz_provider : ∀ p, provider = Some p → p ∈ es_providers spec;
  rz_family : ∀ op, op ∈ ops → fld op "family" = JStr (es_family spec);
  rz_calls : ∀ op c, op ∈ ops → needs op c → c ∈ es_capabilities spec
}.

Lemma preflight_realizes registry name provider spec :
  preflight registry wl name provider = Ok spec ↔ dget name registry = Some spec ∧ realizes spec provider.
Proof.
  destruct required_total as (needed & Hreq & Hneed). unfold preflight.
  assert (∀ c op fam call, op ∈ ops → fld op "family" = JStr fam → fld op "call" = JStr call → c = fam +:+ "." +:+ call →
    family_of c = fam) as Hfam.
  { intros c op fam call Ho Hf Hc ->. destruct (op_call op Ho) as (fam' & call' & Hf' & _ & Hin).
    apply family_of_cap. congruence. }
  split.
  - destruct (dget name registry) as [s|] eqn:E; [|done]. intros H. apply bind_Ok in H as ([] & Hp & H).
    apply raise_if_Ok in Hp. rewrite Hreq in H. cbn [mbind res_bind] in H. apply bind_Ok in H as ([] & Hf & H).
    apply raise_unless_Ok in Hf. apply bind_Ok in H as ([] & Hm & H). apply Ok_inj in H as <-. split; [done|].
    apply raise_if_Ok, negb_false_iff, bool_decide_eq_true in Hm. rewrite forallb_forall in Hf. constructor.
    + intros p ->. by apply negb_false_iff, bool_decide_eq_true in Hp.
    + intros op Ho. destruct (op_call op Ho) as (fam & call & Hfm & Hc & _). rewrite Hfm. f_equal.
      symmetry. apply String.eqb_eq, Hf, list_elem_of_In, elem_of_remove_dups, list_elem_of_fmap.
      exists (fam +:+ "." +:+ call). split; [symmetry; by eapply Hfam|]. apply Hneed. exists op. split; [done|]. by exists fam, call.
    + intros op c Ho Hn. destruct (decide (c ∈ es_capabilities s)) as [?|Hni]; [done|]. exfalso.
      assert (c ∈ filter (λ c, c ∉ es_capabilities s) needed) as Hin.
      { apply list_elem_of_filter. split; [done|]. apply Hneed. eauto. }
      rewrite Hm in Hin. by inversion Hin.
  - intros [-> [R1 R2 R3]]. rewrite Hreq. cbn [mbind res_bind].
    assert (match provider with Some p => negb (bool_decide (p ∈ es_providers spec)) | None => false end = false) as ->.
    { destruct provider as [p|]; [|done]. apply negb_false_iff, bool_decide_eq_true. by apply R1. }
    cbn [raise_if mbind res_bind].
    assert (forallb (String.eqb (es_family spec)) (remove_dups (family_of <$> needed)) = true) as ->.
    { apply forallb_forall. intros f Hf. apply list_elem_of_In, elem_of_remove_dups, list_elem_of_fmap in Hf as (c & -> & Hc).
      apply Hneed in Hc as (op & Ho & fam & call & Hfm & Hcl & ->). rewrite (Hfam _ op fam call) by done.
      specialize (R2 op Ho). apply String.eqb_eq. congruence. }
    cbn [raise_unless mbind res_bind]. rewrite bool_decide_eq_true_2; [done|]. apply filter_none.
    intros c (op & Ho & Hn)%Hneed Hni. apply Hni. by eapply R3.
Qed.
End accepted.

(** for a validated workload, the preflight returns an engine exactly when
    it is the one registered under the name, it serves the provider, and every
    operation belongs to its family and is among its calls; in every other case
    it raises before anything is done. *)
Theorem preflight_exact registry wl ops name provider spec :
  validate_workload wl = Ok tt → fld wl "operations" = JList ops →
  preflight registry wl name provider = Ok spec ↔ dget name registry = Some spec ∧ realizes ops spec provider.
Proof. intros. by apply preflight_realizes. Qed.

Lemma preflight_exact_witness :
  preflight REGISTRY ex_files "fake-fs" (Some "memory") =
    Ok {| es_name := "fake-fs"; es_family := "posix"; es_capabilities := family_capabilities "posix"; es_providers := ["memory"] |} ↔
  dget "fake-fs" REGISTRY =
    Some {| es_name := "fake-fs"; es_family := "posix"; es_capabilities := family_capabilities "posix"; es_providers := ["memory"] |} ∧
  realizes files_ops
    {| es_name := "fake-fs"; es_family := "posix"; es_capabilities := family_capabilities "posix"; es_providers := ["memory"] |}
    (Some "memory").
Proof. apply (preflight_exact REGISTRY ex_files files_ops); vm_compute; reflexivity. Defined.

(** The operations carry what the backend and the scheduler read of them. *)
Definition replayable (ops : list json) : bool := forallb (λ op, has_expected op && int_delay op) ops.

Lemma preflight_posix wl ops provider spec :
  validate_workload wl = Ok tt → fld wl "operations" = JList ops →
  preflight REGISTRY wl "fake-fs" provider = Ok spec → replayable ops = true → posix_workload ops = true.
Proof.
  intros Hv Hops Hp Hr. apply (preflight_realizes wl ops Hv Hops) in Hp as [Hs [_ Hf _]].
  assert (es_family spec = "posix") as Hfam.
  { assert (dget "fake-fs" REGISTRY = Some spec) as E by done. vm_compute in E. injection E as <-. done. }
  unfold posix_workload, replayable in *. rewrite forallb_forall in *. intros op Ho. specialize (Hr op Ho).
  apply andb_true_iff in Hr as [-> ->]. rewrite (Hf op) by (by apply list_elem_of_In). rewrite Hfam. done.
Qed.

(** C4: a validated workload that the preflight accepts for the engine
    [fake-fs], whose operations carry their expectations and have integer delays
    or none, runs on the in-memory file system, on threads whose calls of it do
    not overlap (one worker, or a lock): no step and no call raises, every
    operation gets an outcome after its prerequisites, and the outcomes and the
    file system at the end are those of one sequence of calls. *)
Theorem fake_fs_replay_completes blake2b ex p fail ops provider spec acts r :
  (∀ s n, (1 ≤ n ≤ 64)%nat → length (blake2b s n) = n) → 0 < block_of p →
  validate_workload (e_intent ex) = Ok tt → e_v3 ex = true → 1 ≤ e_workers ex →
  fld (e_intent ex) "operations" = JList ops → replayable ops = true →
  preflight REGISTRY (e_intent ex) "fake-fs" provider = Ok spec →
  (∀ pl st0, @real_setup _ (fs_backend blake2b) ex (new_fs p fail) = Ok (pl, st0) → @serial _ (fs_backend blake2b) ex pl acts st0) →
  @execute_real _ (fs_backend blake2b) ex (new_fs p fail) acts = Some r →
  ∃ x b1, r = Ok x ∧ bk_initialize (Backend := fs_backend blake2b) (e_intent ex) (new_fs p fail) = Ok b1 ∧
    @serial_outcome _ (fs_backend blake2b) ex ops (new_fs p fail) b1 fs_ok acts x.
Proof.
  intros Hd Hb Hv Hv3 Hw Hops Hr Hp Hser Hx. pose proof (preflight_posix _ _ _ _ Hv Hops Hp Hr) as Hall.
  assert (operations_of (e_intent ex) = Ok ops) as Ho.
  { destruct (validate_workload_Ok _ Hv) as (d & _ & _ & _ & ops' & Ed & _). unfold operations_of. rewrite Ed in *.
    cbn [fld] in Hops. rewrite item_getd by congruence. by rewrite Hops. }
  destruct (fs_serves blake2b ex ops Hd Hv Hv3 Ho Hall) as [Hs Hsch].
  destruct (@serves_initialize _ (fs_backend blake2b) ex ops fs_ok Hs (new_fs p fail)) as (b1 & Hi & Hg); [by apply (new_fs_ok blake2b)|].
  destruct (@execute_real_serial _ (fs_backend blake2b) ex ops fs_ok Hs (new_fs p fail) b1 acts r) as (x & ? & ?); eauto 6.
Qed.

(** The seven operations of the example on one of two threads. *)
Definition files_run : list (action FakeFS) :=
  @own_schedule _ (fs_backend toy_digest) files_executor (new_fs small_blocks [])
    (one_thread (new_fs small_blocks []) (Ok (mkOutcome "success" 0 "")) 7 2).

Lemma fake_fs_replay_completes_witness :
  match @execute_real _ (fs_backend toy_digest) files_executor (new_fs small_blocks []) files_run with
  | Some r => ∃ x b1, r = Ok x ∧
      bk_initialize (Backend := fs_backend toy_digest) (e_intent files_executor) (new_fs small_blocks []) = Ok b1 ∧
      @serial_outcome _ (fs_backend toy_digest) files_executor files_ops (new_fs small_blocks []) b1 fs_ok files_run x
  | None => False
  end.
Proof.
  destruct (execute_real _ _ _) as [r|] eqn:E; [|vm_compute in E; discriminate].
  assert (is_ok (preflight REGISTRY ex_files "fake-fs" None) = true) as Hp by (vm_compute; reflexivity).
  destruct (preflight REGISTRY ex_files "fake-fs" None) as [spec|] eqn:Es; [|discriminate].
  apply (fake_fs_replay_completes toy_digest files_executor small_blocks [] files_ops None spec files_run r);
    [apply toy_digest_size|vm_compute; reflexivity|vm_compute; reflexivity|reflexivity|done|vm_compute; reflexivity
    |vm_compute; reflexivity|exact Es| |exact E].
  intros pl st0 Hset. exact (@own_schedule_serial _ (fs_backend toy_digest) files_executor _ _ pl st0 Hset).
Defined.

(** ** The manifest *)
Lemma dict_update_other k d e : k ∉ keys e → dget k (dict_update d e) = dget k d.
Proof.
  unfold dict_update. revert d. induction e as [|[k' v] e IH]; intros d Hk; [done|]. cbn [fold_left fst snd].
  cbn [keys map fmap list_fmap fst] in Hk. apply not_elem_of_cons in Hk as [Hne Hk]. rewrite IH by done.
  rewrite dget_dset. destruct (String.eqb_spec k k') as [->|]; [done|]. done.
Qed.

(** A manifest says what it lacks: nothing is missing exactly when every module
    of the backend was found and recorded times back an offered load. *)
Theorem manifest_says_missing sha256 loaded overrides host wl spec provider revision config tp cp modules target side extra man :
  fidelity_manifest sha256 loaded overrides host wl spec provider revision config tp cp modules target side extra = Ok man →
  "missing" ∉ keys extra →
  ∃ l, dget "missing" man = Some (JList l) ∧
    (∀ m, m ∈ modules → loaded m = None → JStr ("module " +:+ m +:+ " not importable") ∈ l) ∧
    (l = [] ↔ (∀ m, m ∈ modules → loaded m ≠ None) ∧
       ¬ (fld (fld wl "provenance") "timing_model" = JStr "absent" ∧ tp = "offered")).
Proof.
  unfold fidelity_manifest. intros H Hex. apply bind_Ok in H as (prov & Hprov & H). apply bind_Ok in H as (schema & _ & H).
  apply bind_Ok in H as (ws & _ & H). apply bind_Ok in H as (tm & Htm & H). apply bind_Ok in H as (bs & _ & H).
  apply bind_Ok in H as (level & _ & H). apply bind_Ok in H as (method & _ & H). apply bind_Ok in H as (comp & _ & H).
  apply bind_Ok in H as (relp & _ & H). apply bind_Ok in H as (caps & _ & H). apply bind_Ok in H as (source & _ & H).
  apply Ok_inj in H as <-. exists (missing_of loaded modules tm tp). rewrite dict_update_other by done. split; [done|].
  assert (fld (fld wl "provenance") "timing_model" = tm) as ->.
  { apply item_fld in Hprov as ->. by apply item_fld in Htm as ->. }
  unfold missing_of. split.
  - intros m Hm Hl. apply elem_of_app. left. apply list_elem_of_fmap. exists m. split; [done|]. by apply list_elem_of_filter.
  - rewrite app_nil. split.
    + intros [Hm Ht]. split.
      * intros m Hin Hl. apply fmap_nil_inv in Hm. assert (m ∈ filter (λ m, loaded m = None) modules) as Hx
          by (by apply list_elem_of_filter). rewrite Hm in Hx. by inversion Hx.
      * intros [-> ->]. done.
    + intros [Hm Ht]. rewrite filter_none by (intros m Hin; by apply Hm). split; [done|].
      destruct (eq_str tm "absent" && String.eqb tp "offered") eqn:E; [|done]. exfalso. apply Ht.
      apply andb_true_iff in E as [E1 E2%String.eqb_eq]. destruct tm; try done. cbn in E1. apply String.eqb_eq in E1 as ->. done.
Qed.

(** The engine [fake] lists a call its backend does not have: a workload that
    asks whether an object exists passes the preflight, and the executor
    answers it with an error. *)
Definition exists_op : json :=
  JObj [("op_id", JStr "a"); ("seq", JInt 0); ("family", JStr "object"); ("call", JStr "exists");
        ("args", JObj [("node", JStr "n0")]); ("stream", JStr "s0"); ("deps", JList []); ("expected", JObj [])].

Definition ex_exists : json :=
  match ex_posix with JObj d => JObj (dset "operations" (JList [exists_op]) d) | v => v end.

Example exists_unserved :
  validate_workload ex_exists = Ok tt ∧ is_ok (preflight REGISTRY ex_exists "fake" None) = true ∧
  match @perform_v3 _ (fake_backend toy_digest) (files_executor) toy_fake exists_op with
  | Ok (_, out) => out = mkOutcome "error" 0 "backend has no exists"
  | Raise _ => False
  end.
Proof. vm_compute. done. Qed.
