(* ===== verification/FakeS3.v ===== *)
(** * The in-memory bucket ([tools/kvio/s3_client.py])

    [FakeS3] replays the calls of an object store on maps: keys lead to bytes,
    and a multipart upload collects its parts under an upload id until it is
    completed or aborted.  Keys and upload ids are hashable values. *)

From stdpp Require Import prelude strings list numbers gmap sorting.
From Stdlib Require Import ZArith Lia Ascii.
From S2P Require Import Prelude PyText PyJson JsonText Intent Intent2 Workload3 ContentProfile IntentExec FakeFS.
Local Open Scope Z_scope.

Record S3Result := mkS3Result {
  s3r_outcome : string; s3r_code : string; s3r_bytes : Z; s3r_meta : dict; s3r_upload : json
}.

Definition s3_result (outcome code : string) (nbytes : Z) (meta : dict) : S3Result :=
  mkS3Result outcome code nbytes meta JNull.

Definition s3_outcome (r : S3Result) : Outcome :=
  mkOutcome (s3r_outcome r) (s3r_bytes r) (match dget "detail" (s3r_meta r) with Some v => py_str v | None => "" end).

(** [_outcome_of_client_error], on the error code and the HTTP status of the
    response. *)
Definition outcome_of_client_error (code : string) (status : Z) : string * string :=
  let shown := if String.eqb code "" then str_of_Z status else code in
  if bool_decide (code ∈ ["NoSuchKey"; "NotFound"; "NoSuchUpload"; "404"]) || (status =? 404) then ("miss", shown)
  else if bool_decide (code ∈ ["AccessDenied"; "403"]) || (status =? 403) then ("denied", shown)
  else if bool_decide (code ∈ ["SlowDown"; "RequestTimeout"; "503"]) then ("timeout", code)
  else ("error", shown).

Record FakeS3 := mkS3 {
  s3_profile : profile;
  s3_fail : list (string * string);
  s3_objects : gmap hkey bytes;
  s3_mpu : gmap hkey (gmap Z bytes);
  s3_page : Z;
  s3_uploads : gmap hkey json
}.

(** [FakeS3.__init__] *)
Definition new_s3 (p : profile) (fail : list (string * string)) (page : Z) : FakeS3 := mkS3 p fail ∅ ∅ page ∅.

Definition set_objects (st : FakeS3) (m : gmap hkey bytes) : FakeS3 :=
  mkS3 (s3_profile st) (s3_fail st) m (s3_mpu st) (s3_page st) (s3_uploads st).
Definition set_mpu (st : FakeS3) (m : gmap hkey (gmap Z bytes)) : FakeS3 :=
  mkS3 (s3_profile st) (s3_fail st) (s3_objects st) m (s3_page st) (s3_uploads st).

(** [-(-n // page)], at least one. *)
Definition pages (n page : Z) : res Z :=
  raise_if (page =? 0) (Exn ZeroDivisionError "integer division or modulo by zero") ;;
  Ok (Z.max 1 (- (- n / page))).

(** [k.startswith(prefix)] for each key. *)
Definition starts (prefix : string) (k : hkey) : res bool :=
  match k with
  | KStr s => Ok (startswith prefix s)
  | _ => Raise (Exn AttributeError "object has no attribute 'startswith'")
  end.

Section s3.
Variable blake2b : string → nat → bytes.

Definition s3_content (st : FakeS3) (identity : string) (offset len : Z) : res bytes :=
  content blake2b (s3_profile st) identity offset len.

Definition s3_init_entry (ns : json) (st : FakeS3) (e : json) : res FakeS3 :=
  nodes ← item ns "nodes"; nj ← item e "node"; name ← as_str nj; node ← item nodes name;
  kind ← item node "kind";
  if eq_str kind "object" then
    pj ← item e "path"; k ← hkey_of pj; szj ← get_default node "size" (JInt 0); size ← as_int szj;
    data ← s3_content st name 0 size;
    Ok (set_objects st (<[ k := data ]> (s3_objects st)))
  else Ok st.

Definition s3_initialize (workload : json) (st : FakeS3) : res FakeS3 :=
  ns ← item workload "namespace"; ej ← item ns "entries"; entries ← iterate ej;
  foldM (s3_init_entry ns) st entries.

(** [a[k]] as a key of a dictionary. *)
Definition key_arg (a : json) (k : string) : res (json * hkey) := v ← item a k; h ← hkey_of v; Ok (v, h).
Definition int_arg (a : json) (k : string) : res Z := v ← item a k; as_int v.

Definition do_put (st : FakeS3) (a : json) : res (FakeS3 * S3Result) :=
  vk ← key_arg a "key"; size ← int_arg a "size";
  data ← s3_content st (py_str vk.1) 0 size;
  Ok (set_objects st (<[ vk.2 := data ]> (s3_objects st)), s3_result "success" "200" size []).

Definition do_get (st : FakeS3) (a : json) : res (FakeS3 * S3Result) :=
  vk ← key_arg a "key";
  match s3_objects st !! vk.2 with
  | None => Ok (st, s3_result "miss" "NoSuchKey" 0 [])
  | Some data =>
      offj ← get a "offset";
      rng ← (if is_none offj then Ok (0, data)
             else off ← as_int offj; ln ← int_arg a "length"; Ok (off, py_slice data off (off + ln)));
      let '(off, data) := rng in
      expected ← s3_content st (py_str vk.1) off (Z.of_nat (length data));
      Ok (st, if bool_decide (data = expected) then s3_result "success" "200" (Z.of_nat (length data)) []
              else s3_result "error" "content" (Z.of_nat (length data)) [("detail", JStr "content mismatch")])
  end.

Definition do_head (st : FakeS3) (a : json) : res (FakeS3 * S3Result) :=
  vk ← key_arg a "key";
  Ok (st, match s3_objects st !! vk.2 with
          | None => s3_result "miss" "NotFound" 0 []
          | Some data => s3_result "success" "200" 0 [("size", JInt (Z.of_nat (length data)))]
          end).

Definition do_list (st : FakeS3) (a : json) : res (FakeS3 * S3Result) :=
  pj ← item a "prefix"; prefix ← as_str pj;
  hits ← mapMR (starts prefix) (map fst (map_to_list (s3_objects st)));
  let n := Z.of_nat (length (filter (λ b, b = true) hits)) in
  pg ← pages n (s3_page st);
  Ok (st, s3_result "success" "200" 0 [("count", JInt n); ("pages", JInt pg)]).

Definition do_delete (st : FakeS3) (a : json) : res (FakeS3 * S3Result) :=
  vk ← key_arg a "key";
  Ok (set_objects st (delete vk.2 (s3_objects st)), s3_result "success" "204" 0 []).

Definition do_mpu_create (st : FakeS3) (a : json) : res (FakeS3 * S3Result) :=
  vu ← key_arg a "upload";
  Ok (mkS3 (s3_profile st) (s3_fail st) (s3_objects st) (<[ vu.2 := ∅ ]> (s3_mpu st)) (s3_page st)
        (<[ vu.2 := vu.1 ]> (s3_uploads st)),
      mkS3Result "success" "200" 0 [] vu.1).

Definition do_mpu_part (st : FakeS3) (a : json) : res (FakeS3 * S3Result) :=
  vu ← key_arg a "upload";
  match s3_mpu st !! vu.2 with
  | None => Ok (st, s3_result "miss" "NoSuchUpload" 0 [])
  | Some parts =>
      key ← item a "key"; part ← int_arg a "part"; size ← int_arg a "size";
      data ← s3_content st (py_str key +:+ "#" +:+ str_of_Z part) 0 size;
      Ok (set_mpu st (<[ vu.2 := <[ part := data ]> parts ]> (s3_mpu st)), s3_result "success" "200" size [])
  end.

(** [b"".join(parts[p] for p in sorted(parts))] *)
Definition join_parts {A} (parts : gmap Z (list A)) : list A :=
  concat (map (λ p, default [] (parts !! p)) (stable_sort Z.le (map fst (map_to_list parts)))).

Definition do_mpu_complete (st : FakeS3) (a : json) : res (FakeS3 * S3Result) :=
  vu ← key_arg a "upload";
  match s3_mpu st !! vu.2 with
  | None => Ok (st, s3_result "miss" "NoSuchUpload" 0 [])
  | Some parts =>
      vk ← key_arg a "key";
      Ok (set_objects (set_mpu st (delete vu.2 (s3_mpu st))) (<[ vk.2 := join_parts parts ]> (s3_objects st)),
          s3_result "success" "200" 0 [])
  end.

Definition do_mpu_abort (st : FakeS3) (a : json) : res (FakeS3 * S3Result) :=
  vu ← key_arg a "upload";
  Ok (match s3_mpu st !! vu.2 with
      | None => (st, s3_result "miss" "NoSuchUpload" 0 [])
      | Some _ => (set_mpu st (delete vu.2 (s3_mpu st)), s3_result "success" "204" 0 [])
      end).

Definition s3_forced (st : FakeS3) (op_id : string) : option string :=
  match dget op_id (s3_fail st) with
  | Some s => if String.eqb s "" then None else Some s
  | None => None
  end.

(** [FakeS3.perform] *)
Definition s3_perform (st : FakeS3) (op : json) : res (FakeS3 * S3Result) :=
  idj ← item op "op_id"; op_id ← as_str idj;
  match s3_forced st op_id with
  | Some oc => Ok (st, s3_result oc "injected" 0 [("detail", JStr "injected")])
  | None =>
      a ← item op "args"; call ← item op "call";
      let calls s := eq_str call s in
      if calls "put" then do_put st a
      else if calls "get" then do_get st a
      else if calls "head" then do_head st a
      else if calls "list" then do_list st a
      else if calls "delete" then do_delete st a
      else if calls "mpu_create" then do_mpu_create st a
      else if calls "mpu_part" then do_mpu_part st a
      else if calls "mpu_complete" then do_mpu_complete st a
      else if calls "mpu_abort" then do_mpu_abort st a
      else Ok (st, s3_result "error" "unsupported" 0 [("detail", JStr ("unsupported call " +:+ py_str call))])
  end.

(** [FakeS3.cleanup] *)
Definition s3_cleanup (st : FakeS3) : FakeS3 := set_objects st ∅.

Definition s3_no_method {A} (m : string) : res A :=
  Raise (Exn AttributeError ("'FakeS3' object has no attribute '" +:+ m +:+ "'")).

(** [FakeS3] as a target of the executor, in real mode: it has no
    [service_ns]. *)
Definition s3_backend : Backend FakeS3 := {|
  bk_profile st := Some (s3_profile st);
  bk_set_profile p st := mkS3 p (s3_fail st) (s3_objects st) (s3_mpu st) (s3_page st) (s3_uploads st);
  bk_initialize := s3_initialize;
  bk_payload _ _ _ _ _ := s3_no_method "payload";
  bk_store _ _ _ _ _ := s3_no_method "store";
  bk_load _ _ _ _ _ _ _ := s3_no_method "load";
  bk_release _ _ _ _ := s3_no_method "release";
  bk_exists := None;
  bk_perform st op := sr ← s3_perform st op; Ok (sr.1, s3_outcome sr.2);
  bk_close st := Ok st;
  bk_service_ns _ _ := 0
|}.
End s3.
