(* ===== verification/FakeS3Correct.v ===== *)
(** * The bucket refines an abstract object store

    The abstract store keeps, for each key, where its bytes come from: a list
    of segments, each the first bytes of a named content.  The in-memory bucket
    holds the bytes of those segments, and answers every request as the
    abstract store says. *)

From stdpp Require Import prelude strings list numbers gmap sorting.
From Stdlib Require Import ZArith Lia Ascii.
From S2P Require Import Prelude PyText PyJson JsonText Intent Intent2 Workload3 ContentProfile IntentExec ExecCorrect ExecRun ExecReal ExecRealCorrect FakeFS FakeFSCorrect FakeS3.
Local Open Scope Z_scope.

(** ** The abstract store *)
Definition segment : Type := string * Z.

Record bucket := mkBucket {
  b_objects : gmap string (list segment);
  b_uploads : gmap string (gmap Z (list segment))
}.

Inductive request :=
  | Put (key : string) (size : Z)
  | Get (key : string) (range : option (Z * Z))
  | Head (key : string)
  | ListKeys (prefix : string)
  | Delete (key : string)
  | Create (upload : string)
  | Part (upload key : string) (part size : Z)
  | Complete (upload key : string)
  | Abort (upload : string).

(** The segments of the parts, in ascending order of the part numbers. *)
Definition in_order (ps : gmap Z (list segment)) (segs : list segment) : Prop :=
  ∃ l : list (Z * list segment), StronglySorted Z.lt l.*1 ∧ (∀ n s, (n, s) ∈ l ↔ ps !! n = Some s) ∧ segs = concat l.*2.

(** The state after a request. *)
Definition bucket_step (b : bucket) (q : request) (b' : bucket) : Prop :=
  match q with
  | Put k size => b' = mkBucket (<[ k := [(k, size)] ]> (b_objects b)) (b_uploads b)
  | Delete k => b' = mkBucket (delete k (b_objects b)) (b_uploads b)
  | Create u => b' = mkBucket (b_objects b) (<[ u := ∅ ]> (b_uploads b))
  | Part u k part size =>
      match b_uploads b !! u with
      | Some ps => b' = mkBucket (b_objects b) (<[ u := <[ part := [(k +:+ "#" +:+ str_of_Z part, size)] ]> ps ]> (b_uploads b))
      | None => b' = b
      end
  | Complete u k =>
      match b_uploads b !! u with
      | Some ps => ∃ segs, in_order ps segs ∧ b' = mkBucket (<[ k := segs ]> (b_objects b)) (delete u (b_uploads b))
      | None => b' = b
      end
  | Abort u => b' = mkBucket (b_objects b) (delete u (b_uploads b))
  | Get _ _ | Head _ | ListKeys _ => b' = b
  end.

Definition total (segs : list segment) : Z := foldr (λ s n, s.2 + n) 0 segs.

(** The answer to a request.  A read of content stored under another identity
    is served, and reported as verified or not. *)
Definition answers (b : bucket) (page : Z) (q : request) (r : S3Result) : Prop :=
  match q with
  | Put _ size => r = s3_result "success" "200" size []
  | Get k range =>
      match b_objects b !! k with
      | None => r = s3_result "miss" "NoSuchKey" 0 []
      | Some segs =>
          let n := match range with Some (off, ln) => avail (total segs) off ln | None => total segs end in
          r = s3_result "success" "200" n [] ∨
          (r = s3_result "error" "content" n [("detail", MISMATCH)] ∧ ∀ size, segs ≠ [(k, size)])
      end
  | Head k =>
      r = match b_objects b !! k with
          | None => s3_result "miss" "NotFound" 0 []
          | Some segs => s3_result "success" "200" 0 [("size", JInt (total segs))]
          end
  | ListKeys prefix =>
      let n := Z.of_nat (length (filter (λ k, startswith prefix k = true) (map fst (map_to_list (b_objects b))))) in
      r = s3_result "success" "200" 0 [("count", JInt n); ("pages", JInt (Z.max 1 ((n + page - 1) / page)))]
  | Delete _ => r = s3_result "success" "204" 0 []
  | Create u => r = mkS3Result "success" "200" 0 [] (JStr u)
  | Part u _ _ size =>
      r = if b_uploads b !! u then s3_result "success" "200" size [] else s3_result "miss" "NoSuchUpload" 0 []
  | Complete u _ =>
      r = if b_uploads b !! u then s3_result "success" "200" 0 [] else s3_result "miss" "NoSuchUpload" 0 []
  | Abort u =>
      r = if b_uploads b !! u then s3_result "success" "204" 0 [] else s3_result "miss" "NoSuchUpload" 0 []
  end.

(** ** The request an operation makes *)
Definition str_field (args : dict) (k : string) : option string :=
  match dget k args with Some (JStr s) => Some s | _ => None end.
Definition nat_field (args : dict) (k : string) : option Z :=
  match dget k args with Some (JInt z) => if 0 <=? z then Some z else None | _ => None end.

Definition range_field (args : dict) : option (option (Z * Z)) :=
  match dget "offset" args with
  | None | Some JNull => Some None
  | Some _ => match nat_field args "offset", nat_field args "length" with
              | Some off, Some ln => Some (Some (off, ln)) | _, _ => None end
  end.

Definition request_of (call : string) (args : dict) : option request :=
  if String.eqb call "put" then k ← str_field args "key"; n ← nat_field args "size"; Some (Put k n)
  else if String.eqb call "get" then k ← str_field args "key"; r ← range_field args; Some (Get k r)
  else if String.eqb call "head" then k ← str_field args "key"; Some (Head k)
  else if String.eqb call "list" then p ← str_field args "prefix"; Some (ListKeys p)
  else if String.eqb call "delete" then k ← str_field args "key"; Some (Delete k)
  else if String.eqb call "mpu_create" then u ← str_field args "upload"; Some (Create u)
  else if String.eqb call "mpu_part" then
    u ← str_field args "upload"; k ← str_field args "key"; p ← nat_field args "part"; n ← nat_field args "size";
    Some (Part u k p n)
  else if String.eqb call "mpu_complete" then u ← str_field args "upload"; k ← str_field args "key"; Some (Complete u k)
  else if String.eqb call "mpu_abort" then u ← str_field args "upload"; Some (Abort u)
  else None.

(** ** The refinement *)
Section refinement.
Variable blake2b : string → nat → bytes.
Hypothesis digest_size : ∀ s n, (1 ≤ n ≤ 64)%nat → length (blake2b s n) = n.
Variable p : profile.
Hypothesis Hblock : 0 < block_of p.

(** The bytes of the segments. *)
Definition render (segs : list segment) : bytes := concat (map (λ s, byte_at blake2b p s.1 <$> seqZ 0 s.2) segs).

Definition seg_ok (s : segment) : Prop := 0 ≤ s.2.

(** The bucket holds the bytes of the abstract store. *)
Record refines (b : bucket) (st : FakeS3) : Prop := {
  rf_profile : s3_profile st = p;
  rf_objects : ∀ k, s3_objects st !! k =
    match k with KStr s => render <$> b_objects b !! s | _ => None end;
  rf_uploads : ∀ k, s3_mpu st !! k =
    match k with KStr s => (λ ps, render <$> ps) <$> b_uploads b !! s | _ => None end;
  rf_sizes : (∀ k segs, b_objects b !! k = Some segs → Forall seg_ok segs) ∧
    ∀ u ps part segs, b_uploads b !! u = Some ps → ps !! part = Some segs → Forall seg_ok segs
}.

Lemma render_length segs : Forall seg_ok segs → Z.of_nat (length (render segs)) = total segs.
Proof.
  unfold render. induction 1 as [|[id n] segs Hn _ IH]; [done|]. cbn [map concat total foldr fst snd] in *.
  rewrite length_app, length_fmap, length_seqZ. unfold seg_ok in Hn. cbn in Hn. fold (total segs) in *. lia.
Qed.

Lemma render_one id n : render [(id, n)] = byte_at blake2b p id <$> seqZ 0 n.
Proof. unfold render. cbn. by rewrite app_nil_r. Qed.

Lemma s3_content_eq st id off n :
  s3_profile st = p → s3_content blake2b st id off n = Ok (byte_at blake2b p id <$> seqZ off n).
Proof. intros E. unfold s3_content. rewrite E. by apply content_bytes. Qed.

Lemma sorted_keys_fmap {A B} (f : A → B) (m : gmap Z A) :
  stable_sort Z.le (map fst (map_to_list (f <$> m))) = stable_sort Z.le (map fst (map_to_list m)).
Proof.
  apply (StronglySorted_unique Z.le); [apply (StronglySorted_stable_sort Z.le)..|].
  rewrite !stable_sort_Permutation, map_to_list_fmap. change (@map) with (@fmap list _). rewrite <- list_fmap_compose.
  done.
Qed.

Lemma render_app l k : render (l ++ k) = render l ++ render k.
Proof. unfold render. by rewrite map_app, concat_app. Qed.

Lemma join_parts_render (ps : gmap Z (list segment)) : join_parts (render <$> ps) = render (join_parts ps).
Proof.
  unfold join_parts. rewrite sorted_keys_fmap. induction (stable_sort Z.le (map fst (map_to_list ps))) as [|x l IH]; [done|].
  cbn [map concat]. rewrite render_app, IH, lookup_fmap. by destruct (ps !! x).
Qed.

Lemma join_parts_ok (ps : gmap Z (list segment)) :
  (∀ part segs, ps !! part = Some segs → Forall seg_ok segs) → Forall seg_ok (join_parts ps).
Proof.
  intros Hall. unfold join_parts. induction (stable_sort Z.le (map fst (map_to_list ps))) as [|x l IH]; [constructor|].
  cbn [map concat]. apply Forall_app. split; [|done]. destruct (ps !! x) as [segs|] eqn:E; [by eapply Hall|constructor].
Qed.

Lemma sorted_le_lt (l : list Z) : NoDup l → StronglySorted Z.le l → StronglySorted Z.lt l.
Proof.
  induction l as [|x l IH]; intros Hnd Hs; [constructor|]. apply NoDup_cons in Hnd as [Hx Hnd].
  apply StronglySorted_inv in Hs as [Hs Hle]. constructor; [by apply IH|]. rewrite Forall_forall in *.
  intros y Hy. specialize (Hle y Hy). assert (x ≠ y) by congruence. lia.
Qed.

Lemma join_parts_in_order (ps : gmap Z (list segment)) : in_order ps (join_parts ps).
Proof.
  set (ks := stable_sort Z.le (map fst (map_to_list ps))).
  assert (ks ≡ₚ map fst (map_to_list ps)) as Hp by apply stable_sort_Permutation.
  assert (∀ n, n ∈ ks ↔ is_Some (ps !! n)) as Hin.
  { intros n. rewrite Hp, (list_elem_of_fmap fst). split.
    - intros ([? v] & -> & Hx%elem_of_map_to_list). by eexists.
    - intros [v Hv]. exists (n, v). split; [done|]. by apply elem_of_map_to_list. }
  exists ((λ n, (n, default [] (ps !! n))) <$> ks). rewrite <- !list_fmap_compose. split_and!.
  - change (fst ∘ (λ n, (n, default [] (ps !! n)))) with (@id Z). rewrite list_fmap_id.
    apply sorted_le_lt; [rewrite Hp; apply NoDup_fst_map_to_list|apply (StronglySorted_stable_sort Z.le)].
  - intros n s. rewrite list_elem_of_fmap. split.
    + intros (? & [= <- ->] & [v Hv]%Hin). by rewrite Hv.
    + intros Hs. exists n. rewrite Hs. split; [done|]. apply Hin. by eexists.
  - done.
Qed.

Lemma ceil_div n d : 0 < d → - (- n / d) = (n + d - 1) / d.
Proof.
  intros Hd. pose proof (Z.div_mod (- n) d). pose proof (Z.mod_pos_bound (- n) d Hd).
  apply (Z.div_unique_pos _ _ _ (d - 1 - (- n) mod d)); lia.
Qed.

(** The keys of the bucket are the strings of the abstract store. *)
Lemma refines_keys b st :
  refines b st → ∃ names, map fst (map_to_list (s3_objects st)) = KStr <$> names ∧
    names ≡ₚ map fst (map_to_list (b_objects b)).
Proof.
  intros Hr. assert (∀ ks : list hkey, (∀ k, k ∈ ks → ∃ s, k = KStr s) → ∃ names, ks = KStr <$> names) as Hall.
  { induction ks as [|k ks IH]; intros Hk; [by exists []|]. destruct (Hk k) as (s & ->); [by left|].
    destruct IH as (l & ->); [intros; apply Hk; by right|]. by exists (s :: l). }
  assert (∀ k, k ∈ map fst (map_to_list (s3_objects st)) ↔ is_Some (s3_objects st !! k)) as Hin.
  { intros k. rewrite (list_elem_of_fmap fst). split.
    - intros ([k' v] & -> & Hx%elem_of_map_to_list). by eexists.
    - intros [v Hv]. exists (k, v). split; [done|]. by apply elem_of_map_to_list. }
  destruct (Hall (map fst (map_to_list (s3_objects st)))) as (names & Hn).
  { intros k Hk%Hin. rewrite (rf_objects _ _ Hr) in Hk. destruct k; try (by destruct Hk). eauto. }
  exists names. split; [done|]. apply NoDup_Permutation.
  - apply (NoDup_fmap_1 KStr). rewrite <- Hn. apply NoDup_fst_map_to_list.
  - apply NoDup_fst_map_to_list.
  - intros s. assert (s ∈ names ↔ KStr s ∈ (KStr <$> names)) as ->.
    { rewrite list_elem_of_fmap. split; [eauto|]. by intros (? & [= <-] & ?). }
    rewrite <- Hn, Hin, (rf_objects _ _ Hr), fmap_is_Some, (list_elem_of_fmap fst). split.
    + intros [v Hv]. exists (s, v). split; [done|]. by apply elem_of_map_to_list.
    + intros ([s' v] & -> & Hx%elem_of_map_to_list). by eexists.
Qed.

Lemma starts_all prefix names : mapMR (starts prefix) (KStr <$> names) = Ok (startswith prefix <$> names).
Proof. induction names as [|n l IH]; [done|]. cbn [fmap list_fmap mapMR starts mbind res_bind]. by rewrite IH. Qed.

Lemma count_true prefix names :
  length (filter (λ b, b = true) (startswith prefix <$> names)) = length (filter (λ k, startswith prefix k = true) names).
Proof.
  induction names as [|n l IH]; [done|]. cbn [fmap list_fmap]. rewrite !filter_cons. by case_decide; cbn; rewrite IH.
Qed.

Lemma str_field_Some args k v : str_field args k = Some v → item (JObj args) k = Ok (JStr v) ∧ key_arg (JObj args) k = Ok (JStr v, KStr v).
Proof.
  unfold str_field. destruct (dget k args) as [[| | | |s| |]|] eqn:E; try done. intros [= ->].
  unfold key_arg. rewrite (item_arg _ _ _ E). done.
Qed.

Lemma nat_field_Some args k z : nat_field args k = Some z → dget k args = Some (JInt z) ∧ int_arg (JObj args) k = Ok z ∧ 0 ≤ z.
Proof.
  unfold nat_field. destruct (dget k args) as [[| |n| | | |]|] eqn:E; try done. destruct (Z.leb_spec 0 n); [|done]. intros [= ->].
  unfold int_arg. by rewrite (item_arg _ _ _ E).
Qed.

(** *** Each request *)
Abbreviation serves_request b st q x := (∃ st' r b', x = Ok (st', r) ∧ bucket_step b q b' ∧ refines b' st' ∧
  s3_page st' = s3_page st ∧ answers b (s3_page st) q r).

Lemma put_refines b st args k n :
  refines b st → str_field args "key" = Some k → nat_field args "size" = Some n →
  serves_request b st (Put k n) (do_put blake2b st (JObj args)).
Proof.
  intros [R1 R2 R3 [R4 R5]] Hk Hn. apply str_field_Some in Hk as [_ Hk]. apply nat_field_Some in Hn as (_ & Hn & H0).
  unfold do_put. rewrite Hk. cbn [mbind res_bind fst snd py_str]. rewrite Hn. cbn [mbind res_bind]. rewrite s3_content_eq by done.
  cbn [mbind res_bind]. eexists _, _, _. split; [done|]. split; [done|]. split; [|done]. constructor; cbn [set_objects s3_profile s3_objects s3_mpu bucket_step b_objects b_uploads]; try done.
  - intros x. destruct (decide (x = KStr k)) as [->|Hne].
    + rewrite !lookup_insert_eq. cbn [fmap option_fmap option_map]. by rewrite render_one.
    + rewrite lookup_insert_ne by done. rewrite R2. destruct x; try done. by rewrite lookup_insert_ne by congruence.
  - split; [|done]. intros x segs [[<- <-]|[_ Hx]]%lookup_insert_Some; [by repeat constructor|by eapply R4].
Qed.

Lemma get_refines b st args k range :
  refines b st → str_field args "key" = Some k → range_field args = Some range →
  serves_request b st (Get k range) (do_get blake2b st (JObj args)).
Proof.
  intros Hr Hk Hrange. pose proof Hr as [R1 R2 R3 [R4 R5]]. apply str_field_Some in Hk as [_ Hk].
  unfold do_get. rewrite Hk. cbn [mbind res_bind fst snd py_str answers bucket_step]. rewrite R2.
  destruct (b_objects b !! k) as [segs|] eqn:E; cbn [fmap option_fmap option_map]; [|eexists _, _, _; by split_and!].
  pose proof (render_length segs (R4 k segs E)) as Hlen.
  assert (∃ off data, (if is_none (getd args "offset") then Ok (0, render segs)
      else off ← as_int (getd args "offset"); ln ← int_arg (JObj args) "length"; Ok (off, py_slice (render segs) off (off + ln))) = Ok (off, data) ∧
    0 ≤ off ∧ Z.of_nat (length data) = (match range with Some (off, ln) => avail (total segs) off ln | None => total segs end) ∧
    ∀ size, segs = [(k, size)] → data = byte_at blake2b p k <$> seqZ off (Z.of_nat (length data)))
    as (off & data & Erng & Hoff & Hn & Hown).
  { unfold range_field in Hrange. unfold getd.
    destruct (dget "offset" args) as [v|] eqn:Eo; cbn [from_option id].
    - assert (v = JNull ∨ v ≠ JNull) as [->|Hv] by (destruct v; (by left) || by right).
      + injection Hrange as <-. cbn. exists 0, (render segs). split_and!; try done. intros size ->. rewrite Hlen, render_one. cbn.
        by rewrite Z.add_0_r.
      + assert (is_none v = false) as -> by (by destruct v).
        destruct (nat_field args "offset") as [o|] eqn:E1; [|by destruct v]. destruct (nat_field args "length") as [l|] eqn:E2; [|by destruct v].
        assert (range = Some (o, l)) as -> by (destruct v; congruence).
        apply nat_field_Some in E1 as (E1 & _ & Ho). rewrite Eo in E1. injection E1 as ->.
        apply nat_field_Some in E2 as (_ & E2 & Hl). cbn [as_int mbind res_bind]. rewrite E2. cbn [mbind res_bind].
        exists o, (py_slice (render segs) o (o + l)). split_and!; try done; [by rewrite py_slice_length, Hlen|].
        intros size ->. rewrite render_one. apply py_slice_reads; [done|done|]. apply reads_as_seqZ.
    - injection Hrange as <-. cbn. exists 0, (render segs). split_and!; try done. intros size ->. rewrite Hlen, render_one. cbn.
      by rewrite Z.add_0_r. }
  cbn [get mbind res_bind]. unfold mbind, res_bind in Erng |- *. rewrite Erng. rewrite s3_content_eq by done. cbn [mbind res_bind]. eexists _, _, b. split; [done|].
  split_and!; try done. rewrite <- Hn. case_bool_decide as Hd; [by left|]. right. split; [done|].
  intros size Hs. apply Hd. by apply (Hown size).
Qed.

Lemma read_refines b st args :
  0 < s3_page st → refines b st →
  (∀ k, str_field args "key" = Some k → serves_request b st (Head k) (do_head st (JObj args))) ∧
  (∀ pre, str_field args "prefix" = Some pre → serves_request b st (ListKeys pre) (do_list st (JObj args))).
Proof using Hblock.
  intros Hp Hr. pose proof Hr as [R1 R2 R3 [R4 R5]]. split.
  - intros k [_ Hk]%str_field_Some. unfold do_head. rewrite Hk. cbn [mbind res_bind fst snd answers bucket_step]. rewrite R2.
    eexists _, _, b. split; [done|]. split; [done|]. split; [done|]. split; [done|].
    destruct (b_objects b !! k) as [segs|] eqn:E; cbn [fmap option_fmap option_map]; [|done].
    by rewrite (render_length segs (R4 k segs E)).
  - intros pre [Hi _]%str_field_Some. unfold do_list. rewrite Hi. cbn [mbind res_bind as_str answers bucket_step].
    destruct (refines_keys b st Hr) as (names & -> & Hperm). rewrite starts_all. cbn [mbind res_bind].
    assert (length (filter (λ k, startswith pre k = true) names) =
      length (filter (λ k, startswith pre k = true) (map fst (map_to_list (b_objects b))))) as El by (by rewrite Hperm).
    rewrite count_true, El.
    unfold pages. destruct (Z.eqb_spec (s3_page st) 0); [lia|]. cbn [raise_if mbind res_bind].
    eexists _, _, b. split; [done|]. split; [done|]. split; [done|]. split; [done|]. by rewrite ceil_div by lia.
Qed.

Lemma delete_refines b st args k :
  refines b st → str_field args "key" = Some k → serves_request b st (Delete k) (do_delete st (JObj args)).
Proof.
  intros [R1 R2 R3 [R4 R5]] [_ Hk]%str_field_Some. unfold do_delete. rewrite Hk. cbn [mbind res_bind fst snd].
  eexists _, _, _. split; [done|]. split; [done|]. split; [|done]. constructor; cbn [set_objects s3_profile s3_objects s3_mpu bucket_step b_objects b_uploads]; try done.
  - intros x. destruct (decide (x = KStr k)) as [->|Hne]; [by rewrite !lookup_delete_eq|].
    rewrite lookup_delete_ne by done. rewrite R2. destruct x; try done. by rewrite lookup_delete_ne by congruence.
  - split; [|done]. intros x segs [_ Hx]%lookup_delete_Some. by eapply R4.
Qed.

Lemma create_refines b st args u :
  refines b st → str_field args "upload" = Some u → serves_request b st (Create u) (do_mpu_create st (JObj args)).
Proof.
  intros [R1 R2 R3 [R4 R5]] [_ Hu]%str_field_Some. unfold do_mpu_create. rewrite Hu. cbn [mbind res_bind fst snd].
  eexists _, _, _. split; [done|]. split; [done|]. split; [|done]. constructor; cbn [s3_profile s3_objects s3_mpu bucket_step b_objects b_uploads]; try done.
  - intros x. destruct (decide (x = KStr u)) as [->|Hne].
    + rewrite !lookup_insert_eq. cbn [fmap option_fmap option_map]. by rewrite fmap_empty.
    + rewrite lookup_insert_ne by done. rewrite R3. destruct x; try done. by rewrite lookup_insert_ne by congruence.
  - split; [done|]. intros x ps part segs [[<- <-]|[_ Hx]]%lookup_insert_Some Hs; [by rewrite lookup_empty in Hs|by eapply R5].
Qed.

Lemma part_refines b st args u k part n :
  refines b st → str_field args "upload" = Some u → str_field args "key" = Some k →
  nat_field args "part" = Some part → nat_field args "size" = Some n →
  serves_request b st (Part u k part n) (do_mpu_part blake2b st (JObj args)).
Proof.
  intros Hr [_ Hu]%str_field_Some [Hk _]%str_field_Some (_ & Hpt & _)%nat_field_Some (_ & Hn & H0)%nat_field_Some.
  pose proof Hr as [R1 R2 R3 [R4 R5]].
  unfold do_mpu_part. rewrite Hu. cbn [mbind res_bind fst snd answers bucket_step]. rewrite R3.
  destruct (b_uploads b !! u) as [ps|] eqn:E; cbn [fmap option_fmap option_map]; [|eexists _, _, _; by split_and!].
  rewrite Hk. cbn [mbind res_bind py_str]. rewrite Hpt. cbn [mbind res_bind]. rewrite Hn. cbn [mbind res_bind].
  rewrite s3_content_eq by done. cbn [mbind res_bind]. eexists _, _, _. split; [done|]. split; [done|]. split; [|done].
  constructor; cbn [set_mpu s3_profile s3_objects s3_mpu b_objects b_uploads]; try done.
  - intros x. destruct (decide (x = KStr u)) as [->|Hne].
    + rewrite !lookup_insert_eq. cbn [fmap option_fmap option_map]. by rewrite fmap_insert, render_one.
    + rewrite lookup_insert_ne by done. rewrite R3. destruct x; try done. by rewrite lookup_insert_ne by congruence.
  - split; [done|]. intros x qs pt segs [[<- <-]|[_ Hx]]%lookup_insert_Some Hs; [|by eapply R5].
    apply lookup_insert_Some in Hs as [[<- <-]|[_ Hs]]; [by repeat constructor|by eapply R5].
Qed.

Lemma complete_refines b st args u k :
  refines b st → str_field args "upload" = Some u → str_field args "key" = Some k →
  serves_request b st (Complete u k) (do_mpu_complete st (JObj args)).
Proof.
  intros Hr [_ Hu]%str_field_Some [_ Hk]%str_field_Some. pose proof Hr as [R1 R2 R3 [R4 R5]].
  unfold do_mpu_complete. rewrite Hu. cbn [mbind res_bind fst snd answers bucket_step]. rewrite R3.
  destruct (b_uploads b !! u) as [ps|] eqn:E; cbn [fmap option_fmap option_map]; [|eexists _, _, _; by split_and!].
  rewrite Hk. cbn [mbind res_bind fst snd]. eexists _, _, _. split; [done|]. split; [exists (join_parts ps); split; [apply join_parts_in_order|done]|]. split; [|done].
  constructor; cbn [set_objects set_mpu s3_profile s3_objects s3_mpu b_objects b_uploads]; try done.
  - intros x. destruct (decide (x = KStr k)) as [->|Hne].
    + rewrite !lookup_insert_eq. cbn [fmap option_fmap option_map]. by rewrite <- join_parts_render.
    + rewrite lookup_insert_ne by done. rewrite R2. destruct x; try done. by rewrite lookup_insert_ne by congruence.
  - intros x. destruct (decide (x = KStr u)) as [->|Hne]; [by rewrite !lookup_delete_eq|].
    rewrite lookup_delete_ne by done. rewrite R3. destruct x; try done. by rewrite lookup_delete_ne by congruence.
  - split.
    + intros x segs [[<- <-]|[_ Hx]]%lookup_insert_Some; [|by eapply R4]. apply join_parts_ok. intros. by eapply R5.
    + intros x qs pt segs [_ Hx]%lookup_delete_Some. by eapply R5.
Qed.

Lemma abort_refines b st args u :
  refines b st → str_field args "upload" = Some u → serves_request b st (Abort u) (do_mpu_abort st (JObj args)).
Proof.
  intros Hr [_ Hu]%str_field_Some. pose proof Hr as [R1 R2 R3 [R4 R5]].
  unfold do_mpu_abort. rewrite Hu. cbn [mbind res_bind fst snd answers bucket_step]. rewrite R3.
  assert (∀ x, match x with KStr s => (λ ps, render <$> ps) <$> delete u (b_uploads b) !! s | _ => None end =
    delete (KStr u) (s3_mpu st) !! x) as Hdel.
  { intros x. destruct (decide (x = KStr u)) as [->|Hne]; [by rewrite !lookup_delete_eq|].
    rewrite (lookup_delete_ne (s3_mpu st)) by done. rewrite R3. destruct x; try done. by rewrite lookup_delete_ne by congruence. }
  assert (∀ x ps pt segs, delete u (b_uploads b) !! x = Some ps → ps !! pt = Some segs → Forall seg_ok segs) as Hok
    by (intros x ps pt segs [_ Hx]%lookup_delete_Some; by eapply R5).
  destruct (b_uploads b !! u) as [ps|] eqn:E; cbn [fmap option_fmap option_map]; eexists _, _, _; (split; [done|]); (split; [done|]); (split; [|done]).
  - constructor; cbn [set_mpu s3_profile s3_objects s3_mpu b_objects b_uploads]; try done.
  - constructor; cbn [b_objects b_uploads]; try done. intros x. rewrite Hdel. destruct (decide (x = KStr u)) as [->|Hne].
    + rewrite lookup_delete_eq, R3, E. done.
    + by rewrite lookup_delete_ne.
Qed.

(** Every request is served as the abstract store says. *)
Lemma perform_refines b st op call args q :
  0 < s3_page st → refines b st → is_dict op = true → is_Some (str_field (as_dict op) "op_id") →
  fld op "call" = JStr call → fld op "args" = JObj args → request_of call args = Some q →
  (∀ id, str_field (as_dict op) "op_id" = Some id → s3_forced st id = None) →
  serves_request b st q (s3_perform blake2b st op).
Proof.
  intros Hpg Hr Hd [id Hid] Hc Ha Hq Hf. destruct op as [| | | | | |o]; try done. cbn [as_dict fld] in *.
  unfold s3_perform. rewrite (proj1 (str_field_Some _ _ _ Hid)). cbn [mbind res_bind as_str]. rewrite (Hf id Hid).
  rewrite !item_getd by congruence. rewrite Hc, Ha. cbn [mbind res_bind eq_str].
  destruct (read_refines b st args Hpg Hr) as [Hhead Hlist]. unfold request_of in Hq.
  repeat match type of Hq with (if String.eqb call ?s then _ else _) = _ => destruct (String.eqb call s) end; try done;
    repeat match type of Hq with (?x ≫= _) = _ => let E := fresh "E" in destruct x eqn:E; cbn [mbind option_bind] in Hq; [|done] end;
    injection Hq as <-.
  - by apply put_refines.
  - by apply get_refines.
  - by apply Hhead.
  - by apply Hlist.
  - by apply delete_refines.
  - by apply create_refines.
  - by apply part_refines.
  - by apply complete_refines.
  - by apply abort_refines.
Qed.

Lemma new_refines fail page : refines (mkBucket ∅ ∅) (new_s3 p fail page).
Proof.
  constructor; [done|..].
  - intros [| | | |s]; cbn; by rewrite ?lookup_empty.
  - intros [| | | |s]; cbn; by rewrite ?lookup_empty.
  - split; intros *; cbn; by rewrite lookup_empty.
Qed.

Lemma init_entry_refines ns nodes b st e :
  refines b st → item ns "nodes" = Ok (JObj nodes) → entry_sound nodes e →
  ∃ b' st', s3_init_entry blake2b ns st e = Ok st' ∧ refines b' st' ∧ s3_page st' = s3_page st.
Proof.
  intros Hr Hns [Hd (q & Hp) (name & node & Hname & Hne & Hnode & [Hnd (kind & Hkind & _) (size & Hsize & Hs0)])].
  pose proof Hr as [R1 R2 R3 [R4 R5]].
  destruct e as [| | | | | |ed]; try done. destruct node as [| | | | | |nd]; try done. cbn [fld as_dict] in *.
  unfold s3_init_entry. rewrite Hns. cbn [mbind res_bind]. rewrite (item_getd ed "node"), Hname by congruence. cbn [mbind res_bind as_str].
  rewrite (item_arg nodes name _ Hnode). cbn [mbind res_bind]. rewrite (item_getd nd "kind"), Hkind by congruence. cbn [mbind res_bind].
  destruct (eq_str (JStr kind) "object"); [|exists b, st; by split_and!].
  rewrite (item_getd ed "path"), Hp by congruence. cbn [mbind res_bind hkey_of get_default]. rewrite Hsize. cbn [mbind res_bind as_int].
  rewrite s3_content_eq by done. cbn [mbind res_bind].
  exists (mkBucket (<[ q := [(name, size)] ]> (b_objects b)) (b_uploads b)). eexists. split; [done|]. split; [|done].
  constructor; cbn [set_objects s3_profile s3_objects s3_mpu b_objects b_uploads]; try done.
  - intros x. destruct (decide (x = KStr q)) as [->|Hnx].
    + rewrite !lookup_insert_eq. cbn [fmap option_fmap option_map]. by rewrite render_one.
    + rewrite lookup_insert_ne by done. rewrite R2. destruct x; try done. by rewrite lookup_insert_ne by congruence.
  - split; [|done]. intros x segs [[<- <-]|[_ Hx]]%lookup_insert_Some; [by repeat constructor|by eapply R4].
Qed.

(** A validated workload is set up. *)
Lemma s3_initialize_refines wl b st :
  validate_workload wl = Ok tt → refines b st →
  ∃ b' st', s3_initialize blake2b wl st = Ok st' ∧ refines b' st' ∧ s3_page st' = s3_page st.
Proof.
  intros Hv Hr. destruct (validate_workload_Ok wl Hv) as (d & ns & entries & handles & ops & -> & Ens & Eent & _).
  destruct (validate_namespace_Ok d ns entries Hv Ens Eent) as (nodes & Enodes & Hnodes).
  unfold s3_initialize. rewrite item_getd, Ens by congruence. cbn [mbind res_bind].
  rewrite item_getd, Eent by congruence. cbn [mbind res_bind iterate].
  assert (item (JObj ns) "nodes" = Ok (JObj nodes)) as Hns by (rewrite item_getd by congruence; by rewrite Enodes).
  assert (∀ e, e ∈ entries → entry_sound nodes e) as Hall.
  { intros e He. destruct (Hnodes e He) as (q & name & node & ? & ? & ? & ? & ? & ?). constructor; eauto 6. }
  clear Eent Hnodes. revert b st Hr. induction entries as [|e l IH]; intros b st Hr; [by exists b, st|].
  destruct (init_entry_refines (JObj ns) nodes b st e Hr Hns) as (b1 & st1 & E1 & Hr1 & Hp1); [apply Hall; by left|].
  destruct (IH (λ e He, Hall e (list_elem_of_further _ _ _ He)) b1 st1 Hr1) as (b2 & st2 & E2 & Hr2 & Hp2).
  exists b2, st2. cbn [foldM]. rewrite E1. cbn [mbind res_bind]. split_and!; try done. congruence.
Qed.
End refinement.

(** C7: the in-memory bucket refines the abstract store: when it holds the
    bytes of the store's segments, every typed request returns, leaves it
    holding those of the store after the request, and gets the store's answer:
    a GET of an object that was PUT under its key verifies, whole or ranged;
    an upload is invisible until it is completed, and then is its parts in the
    order of their numbers. *)
Theorem s3_perform_refines blake2b p b st op call args q :
  (∀ s n, (1 ≤ n ≤ 64)%nat → length (blake2b s n) = n) → 0 < block_of p → 0 < s3_page st →
  refines blake2b p b st → is_dict op = true → is_Some (str_field (as_dict op) "op_id") →
  fld op "call" = JStr call → fld op "args" = JObj args → request_of call args = Some q →
  (∀ id, str_field (as_dict op) "op_id" = Some id → s3_forced st id = None) →
  ∃ st' r b', s3_perform blake2b st op = Ok (st', r) ∧ bucket_step b q b' ∧ refines blake2b p b' st' ∧
    s3_page st' = s3_page st ∧ answers b (s3_page st) q r.
Proof. intros. by eapply perform_refines. Qed.

(** An upload whose second part came first is completed. *)
Definition complete_op : json :=
  JObj [("op_id", JStr "a"); ("call", JStr "mpu_complete"); ("args", JObj [("key", JStr "k"); ("upload", JStr "u")])].

Definition two_parts : gmap Z (list segment) := {[ 2 := [("k#2", 5)]; 1 := [("k#1", 4)] ]}.

Definition uploading : FakeS3 :=
  set_mpu (new_s3 small_blocks [] 1000) {[ KStr "u" := (render toy_digest small_blocks <$> two_parts) ]}.

Lemma uploading_refines : refines toy_digest small_blocks (mkBucket ∅ {[ "u" := two_parts ]}) uploading.
Proof.
  constructor; [done|..].
  - intros [| | | |s]; cbn; by rewrite ?lookup_empty.
  - intros [| | | |s]; cbn [uploading set_mpu s3_mpu b_uploads]; try (by rewrite lookup_singleton_ne).
    destruct (decide (s = "u")) as [->|Hne]; [by rewrite !lookup_singleton_eq|]. by rewrite !lookup_singleton_ne by congruence.
  - split; [intros *; cbn; by rewrite lookup_empty|]. cbn [b_uploads].
    intros u ps part segs [<- <-]%lookup_singleton_Some. unfold two_parts.
    intros [[<- <-]|[_ Hs]]%lookup_insert_Some; [by repeat constructor|].
    apply lookup_singleton_Some in Hs as [<- <-]. by repeat constructor.
Qed.

Lemma s3_perform_refines_witness :
  ∃ st' r b', s3_perform toy_digest uploading complete_op = Ok (st', r) ∧
    bucket_step (mkBucket ∅ {[ "u" := two_parts ]}) (Complete "u" "k") b' ∧ refines toy_digest small_blocks b' st' ∧
    s3_page st' = s3_page uploading ∧
    answers (mkBucket ∅ {[ "u" := two_parts ]}) (s3_page uploading) (Complete "u" "k") r.
Proof.
  apply (s3_perform_refines toy_digest small_blocks (mkBucket ∅ {[ "u" := two_parts ]}) uploading complete_op "mpu_complete"
    [("key", JStr "k"); ("upload", JStr "u")] (Complete "u" "k"));
    [apply toy_digest_size|vm_compute; reflexivity|vm_compute; reflexivity|exact uploading_refines|reflexivity
    |exists "a"; reflexivity|reflexivity|reflexivity|reflexivity|].
  intros id _. reflexivity.
Defined.

(** ** The bucket as a target *)

(** The operation makes a request the bucket understands. *)
Definition s3_request (op : json) : bool :=
  bool_decide (is_Some (request_of (call_of op) (args_of op))) && is_dict (fld op "args").

Definition s3_workload (ops : list json) : bool :=
  forallb (λ op, eq_str (fld op "family") "s3" && s3_request op && int_delay op) ops.

Definition s3_good (blake2b : string → nat → bytes) (p : profile) (st : FakeS3) : Prop :=
  0 < s3_page st ∧ ∃ b, refines blake2b p b st.

Lemma s3_serves blake2b p ex ops :
  (∀ s n, (1 ≤ n ≤ 64)%nat → length (blake2b s n) = n) → 0 < block_of p →
  validate_workload (e_intent ex) = Ok tt → e_v3 ex = true → operations_of (e_intent ex) = Ok ops → s3_workload ops = true →
  @Serves FakeS3 (s3_backend blake2b) ex ops (s3_good blake2b p) ∧ schedulable ex ops.
Proof.
  intros Hd Hb Hv Hv3 Hops Hall.
  destruct (validate_workload_Ok _ Hv) as (d & ns & entries & handles & ops' & Ed & _ & _ & _ & Eops & _ & Hsound).
  assert (ops' = ops) as ->.
  { unfold operations_of in Hops. rewrite Ed in Hops. rewrite item_getd, Eops in Hops by congruence. by apply Ok_inj in Hops. }
  unfold s3_workload in Hall. rewrite forallb_forall in Hall. split; [constructor|].
  - intros st [Hpg (b & Hr)]. destruct (s3_initialize_refines blake2b Hd p Hb _ b st Hv Hr) as (b' & st' & ? & ? & ?).
    exists st'. split; [done|]. split; [congruence|by exists b'].
  - intros st id o [Hpg (b & Hr)] Ho Hoid. pose proof (Hall o ltac:(by apply list_elem_of_In)) as Hx.
    apply andb_true_iff in Hx as [[Hfam [Hq%bool_decide_eq_true Ha]%andb_true_iff]%andb_true_iff _].
    assert (fld o "family" = JStr "s3") as Hf.
    { destruct (fld o "family"); try done. cbn in Hfam. by apply String.eqb_eq in Hfam as ->. }
    apply list_elem_of_lookup in Ho as (s & Hs).
    destruct (s3_call _ _ _ (Hsound s o Hs)) as (fam & call & _ & Hcall & _).
    unfold perform_op. rewrite Hv3. unfold perform_v3.
    destruct (s3_shape _ _ _ (Hsound s o Hs)) as (oo & args & x & -> & Hargs & Hx & _). cbn [get_default mbind res_bind]. rewrite Hx.
    cbn [mbind res_bind get]. destruct (_ && _); [eexists _, _; split; [done|]; split; [done|by exists b]|].
    cbn [fld] in Hf, Hcall, Hoid. rewrite (item_getd oo "family"), Hf by congruence.
    cbn [mbind res_bind]. change (eq_str (JStr "s3") "object") with false. cbv iota. cbn [bk_perform s3_backend].
    unfold call_of, args_of in Hq. cbn [fld] in Hq. rewrite Hcall, Hargs in Hq. cbn [as_dict] in Hq. destruct Hq as [q Hq].
    assert (str_field oo "op_id" = Some id) as Hid.
    { unfold str_field. unfold getd in Hoid. destruct (dget "op_id" oo); [|done]. cbn in Hoid. by subst. }
    destruct (s3_forced st id) as [oc|] eqn:Ef.
    + unfold s3_perform. rewrite (proj1 (str_field_Some _ _ _ Hid)). cbn [mbind res_bind as_str]. rewrite Ef.
      cbn. eexists _, _. split; [done|]. split; [done|by exists b].
    + destruct (perform_refines blake2b Hd p Hb b st (JObj oo) call args q Hpg Hr eq_refl) as (st' & r & b' & -> & _ & Hr' & Hp' & _);
        [by exists id|done|done|done|by intros ? [= <-]%(eq_trans (eq_sym Hid))|].
      cbn [mbind res_bind fst snd]. eexists _, _. split; [done|]. split; [congruence|by eexists].
  - intros st Hst. by exists st.
  - apply (v3_schedulable ex d ops (KStr <$> keys handles)); try done.
    apply forallb_forall. intros o Ho. specialize (Hall o Ho). by apply andb_true_iff in Hall as [_ ?].
Qed.

(** A validated workload of typed requests runs on the bucket, on threads whose
    calls act one after the other. *)
Theorem s3_replay_completes blake2b ex p fail page ops acts r :
  (∀ s n, (1 ≤ n ≤ 64)%nat → length (blake2b s n) = n) → 0 < block_of p → 0 < page →
  validate_workload (e_intent ex) = Ok tt → e_v3 ex = true → 1 ≤ e_workers ex →
  operations_of (e_intent ex) = Ok ops → s3_workload ops = true →
  (∀ pl st0, @real_setup _ (s3_backend blake2b) ex (new_s3 p fail page) = Ok (pl, st0) → @serial _ (s3_backend blake2b) ex pl acts st0) →
  @execute_real _ (s3_backend blake2b) ex (new_s3 p fail page) acts = Some r →
  ∃ x b1, r = Ok x ∧ @serial_outcome _ (s3_backend blake2b) ex ops (new_s3 p fail page) b1 (s3_good blake2b p) acts x.
Proof.
  intros Hd Hb Hpg Hv Hv3 Hw Hops Hp Hser Hr. destruct (s3_serves blake2b p ex ops Hd Hb Hv Hv3 Hops Hp) as [Hs Hsch].
  destruct (@serves_initialize _ (s3_backend blake2b) ex ops (s3_good blake2b p) Hs (new_s3 p fail page)) as (b1 & Hi & Hg); [split; [done|]; eexists; apply new_refines|].
  destruct (@execute_real_serial _ (s3_backend blake2b) ex ops (s3_good blake2b p) Hs (new_s3 p fail page) b1 acts r) as (x & ? & ?); eauto.
Qed.

(** ** Content verified under another identity *)
Definition s3_op (id call : string) (args : dict) : json := JObj [("op_id", JStr id); ("call", JStr call); ("args", JObj args)].

Definition s3_codes (st : FakeS3) (ops : list json) : list string :=
  (fix go st ops := match ops with
                    | [] => []
                    | op :: ops => match s3_perform toy_digest st op with
                                   | Ok (st', r) => s3r_code r :: go st' ops
                                   | Raise _ => ["raised"]
                                   end
                    end) st ops.

(** An object present at the start holds the content of its node, and one
    uploaded in parts the content of its parts, but a GET verifies the content
    of the key: it reports a mismatch for both. *)
Example foreign_content_mismatch :
  match s3_initialize toy_digest
    (JObj [("namespace", JObj [("nodes", JObj [("n0", JObj [("kind", JStr "object"); ("size", JInt 4)])]);
                               ("entries", JList [JObj [("path", JStr "a"); ("node", JStr "n0")]])])])
    (new_s3 small_blocks [] 1000) with
  | Ok st => s3_codes st [s3_op "1" "get" [("key", JStr "a")];
                          s3_op "2" "mpu_create" [("key", JStr "b"); ("upload", JStr "u")];
                          s3_op "3" "mpu_part" [("key", JStr "b"); ("upload", JStr "u"); ("part", JInt 1); ("size", JInt 4)];
                          s3_op "4" "mpu_complete" [("key", JStr "b"); ("upload", JStr "u")];
                          s3_op "5" "get" [("key", JStr "b")]]
             = ["content"; "200"; "200"; "200"; "content"]
  | Raise _ => False
  end.
Proof. vm_compute. reflexivity. Qed.
