(* ===== verification/AgentTrace.v ===== *)
(** * Agent request traces compiled to cache plans ([tools/kvio/agent_trace.py])

    Application traces become plans of chunk loads, stores and deletions under
    a cache policy.  The file models the reader, the timestamps, the two
    compilers ([compile_lmcache_agent], [compile_tracelab]) and the plan
    validator.  The tokenizer, SHA-256 and the parser of ISO-8601 dates (whose
    result depends on the time zone of the process) are parameters. *)

From stdpp Require Import prelude strings list numbers gmap sorting.
From Stdlib Require Import ZArith Lia Ascii.
From S2P Require Import Prelude PyText PyJson JsonText ContentProfile.
Local Open Scope Z_scope.

Definition PLAN_KIND : string := "kvio.agent-cache-plan".
Definition PLAN_VERSION : Z := 1.

(** [resident], an [OrderedDict] with no values: its keys, oldest first. *)
Abbreviation lru := (list string).

Definition terr (m : string) : exn := Exn TraceError m.

(** A source record: the decoded JSON object and the three [_kvio_*] fields
    that [read_records] adds to it. *)
Record trace_record := {
  r_fields : dict;    (** the object read *)
  r_file : string;    (** [_kvio_file] *)
  r_line : Z;         (** [_kvio_line] *)
  r_ingest : Z        (** [_kvio_ingest] *)
}.

(** ** Reading *)

(** A trace file: its path, its raw bytes and the lines of its text. *)
Record trace_file := { f_path : string; f_raw : bytes; f_lines : list string }.

Record read_state := { rs_records : list trace_record; rs_seen : Z; rs_selected : Z; rs_ingest : Z }.

(** [max_requests is None or len(records) < max_requests] *)
Definition wanted (max_requests : option Z) (n : nat) : bool :=
  match max_requests with None => true | Some m => Z.of_nat n <? m end.

Definition read_line (max_requests : option Z) (path : string) (st : read_state) (index : nat) (line : string)
    : res read_state :=
  if String.eqb (strip line) "" then Ok st else
  value ← match loads line with
          | Ok v => Ok v
          | Raise _ => Raise (terr "{file_path}:{line_no}: invalid JSON: {error.msg}")
          end;
  match value with
  | JObj fields =>
      let keep := wanted max_requests (length (rs_records st)) in
      Ok {| rs_records := if keep then
              rs_records st ++ [{| r_fields := fields; r_file := path;
                                   r_line := Z.of_nat index + 1; r_ingest := rs_ingest st |}]
            else rs_records st;
            rs_seen := rs_seen st + 1;
            rs_selected := if keep then rs_selected st + 1 else rs_selected st;
            rs_ingest := rs_ingest st + 1 |}
  | _ => Raise (terr "{file_path}:{line_no}: expected a JSON object")
  end.

Section trace.
(** [hashlib.sha256(data).hexdigest()] *)
Variable sha256 : bytes → string.

Definition read_file (max_requests : option Z) (st : list trace_record * list json * Z) (f : trace_file)
    : res (list trace_record * list json * Z) :=
  let '(records, provenance, ingest) := st in
  st' ← foldiM (read_line max_requests (f_path f)) 0
          {| rs_records := records; rs_seen := 0; rs_selected := 0; rs_ingest := ingest |} (f_lines f);
  Ok (rs_records st',
      provenance ++ [JObj [("path", JStr (f_path f)); ("sha256", JStr (sha256 (f_raw f)));
                           ("records_seen", JInt (rs_seen st')); ("records_selected", JInt (rs_selected st'))]],
      rs_ingest st').

Definition read_records (files : list trace_file) (max_requests : option Z)
    : res (list trace_record * list json) :=
  st ← foldM (read_file max_requests) ([], [], 0) files;
  let '(records, provenance, _) := st in
  raise_if (bool_decide (records = [])) (terr "trace contains no JSON records: {path}") ;;
  Ok (records, provenance).

Definition detect_format (record : dict) : res string :=
  if is_str (getd record "input") && dhas "session_id" record then Ok "lmcache-agent"
  else if forallb (λ k, dhas k record) ["provider"; "session_id"; "input_tokens_total"; "prefix_tokens"]
  then Ok "tracelab"
  else Raise (terr "cannot detect trace schema; select --format and verify that required fields are present").

(** ** Timestamps *)

(** [f / d] for a positive integer [d] that a float represents exactly. *)
Definition float_div (f : pyfloat) (d : Z) : pyfloat :=
  match f with
  | FFin neg m e =>
      if (m =? 0)%N then f else
      let '(q, e') := if 0 <=? e then round_double (Z.of_N m * 2 ^ e) d
                      else round_double (Z.of_N m) (d * 2 ^ (- e)) in
      FFin neg (Z.to_N q) e'
  | _ => f
  end.

Definition float_abs (f : pyfloat) : pyfloat :=
  match f with FFin _ m e => FFin false m e | FInf _ => FInf false | FNaN => FNaN end.

Definition float_neg (f : pyfloat) : pyfloat :=
  match f with FFin n m e => FFin (negb n) m e | FInf n => FInf (negb n) | FNaN => FNaN end.

Definition float_sub (a b : pyfloat) : pyfloat := float_add a (float_neg b).

(** [float(value)] of a number. *)
Definition to_float (v : json) : res pyfloat :=
  match v with
  | JFloat f => Ok f
  | JInt z => match rnd z 0 with
              | FInf _ => Raise (Exn OverflowError "int too large to convert to float")
              | f => Ok f
              end
  | _ => Raise (Exn TypeError "float() argument must be a string or a real number")
  end.

(** The whole seconds of [fromtimestamp(stamp, utc)]: the fraction is rounded
    half-even to microseconds, and may carry into the next second. *)
Definition whole_seconds (neg : bool) (m : N) (e : Z) : Z :=
  let whole := float_trunc false m e in
  let fraction := if 0 <=? e then 0 else Z.of_N m - whole * 2 ^ (- e) in
  let micros := match rnd (fraction * 1000000) e with
                | FFin _ m' e' => if 0 <=? e' then Z.of_N m' * 2 ^ e' else round_half_even (Z.of_N m') (2 ^ (- e'))
                | _ => 0
                end in
  if neg then (- (whole * 1000000 + micros)) / 1000000 else whole + micros / 1000000.

(** The first second of the years 1, 2000, 2101 and 10000, in Unix time. *)
Definition year_1 : Z := -62135596800.
Definition year_2000 : Z := 946684800.
Definition year_2101 : Z := 4133980800.
Definition year_10000 : Z := 253402300800.

(** [dt.datetime.fromtimestamp(stamp, tz=utc).year] compared with the bounds. *)
Definition check_year (stamp : pyfloat) : res pyfloat :=
  match stamp with
  | FNaN => Raise (Exn ValueError "cannot convert float NaN to integer")
  | FInf _ => Raise (Exn OverflowError "cannot convert float infinity to integer")
  | FFin neg m e =>
      let s := whole_seconds neg m e in
      if (s <? - 2 ^ 63) || (2 ^ 63 <=? s) then
        Raise (Exn OverflowError "timestamp out of range for platform time_t")
      else if (s <? year_1) || (year_10000 <=? s) then Raise (Exn ValueError "year is out of range")
      else raise_if ((s <? year_2000) || (year_2101 <=? s))
             (terr "{where}: normalized timestamp has implausible year {year}") ;;
           Ok stamp
  end.

(** [dt.datetime.fromisoformat(text).timestamp()], with the process's local
    time zone for a text without an offset. *)
Variable fromisoformat : string → res pyfloat.

(** [text.replace("Z", "+00:00")] *)
Fixpoint replace_Z (s : string) : string :=
  match s with
  | EmptyString => EmptyString
  | String c t => if code c =? 90 then "+00:00" +:+ replace_Z t else String c (replace_Z t)
  end.

Definition normalize_timestamp (value : json) : res pyfloat :=
  stamp ← match value with
          | JBool _ => Raise (terr "{where}: timestamp is boolean")
          | JInt _ | JFloat _ =>
              stamp ← to_float value;
              let magnitude := JFloat (float_abs stamp) in
              Ok (if py_geb magnitude (JInt (10 ^ 14)) then float_div stamp 1000000
                  else if py_geb magnitude (JInt (10 ^ 11)) then float_div stamp 1000 else stamp)
          | JStr s =>
              let text := strip s in
              raise_if (String.eqb text "") (terr "{where}: empty timestamp") ;;
              match fromisoformat (replace_Z text) with
              | Raise (Exn ValueError _) => Raise (terr "{where}: invalid ISO-8601 timestamp {value!r}")
              | r => r
              end
          | _ => Raise (terr "{where}: timestamp must be numeric or ISO-8601")
          end;
  check_year stamp.

(** [isinstance(event, dict) and event.get("timestamp") is not None] *)
Definition stamped (event : json) : option json :=
  match event with
  | JObj d => let t := getd d "timestamp" in if is_none t then None else Some t
  | _ => None
  end.

Definition _record_timestamp (record : trace_record) (trace_format : string) : res pyfloat :=
  if String.eqb trace_format "lmcache-agent" then
    match dget "timestamp" (r_fields record) with
    | None => Raise (terr "{where}: missing timestamp")
    | Some t => normalize_timestamp t
    end
  else match getd (r_fields record) "timing_events" with
       | JList ((_ :: _) as events) =>
           match list_find (λ o, is_Some o) (map stamped events) with
           | Some (_, Some t) => normalize_timestamp t
           | _ => Raise (terr "{where}: TraceLab round has no timestamped timing event")
           end
       | _ => Raise (terr "{where}: TraceLab round has no timing_events")
       end.

(** ** Small helpers *)
Definition is_float (v : json) : bool := match v with JFloat _ => true | _ => false end.

Definition _positive_int (value : json) (allow_zero : bool) : res Z :=
  raise_unless (is_int value || is_float value) (terr "{where}: {field} must be numeric") ;;
  integer ← py_int value;
  raise_if (negb (py_eq (JInt integer) value) || (integer <? (if allow_zero then 0 else 1)))
    (terr "{where}: {field} must be a {qualifier} integer") ;;
  Ok integer.

(** The bytes of an ASCII text. *)
Fixpoint ascii_bytes (s : string) : bytes :=
  match s with EmptyString => [] | String c s => code c :: ascii_bytes s end.

(** [str(part or "")] *)
Definition part_text (part : json) : string := if py_true part then py_str part else EmptyString.

Definition _session_digest (parts : list json) : string :=
  let raw := enc Compact 0 (JList (map (λ p, JStr (part_text p)) parts)) in
  String.substring 0 20 (sha256 (ascii_bytes raw)).

(** [bytes.fromhex(s)]: pairs of hexadecimal digits, with ASCII white space
    between them. *)
Definition is_ascii_space (c : ascii) : bool := ((9 <=? code c) && (code c <=? 13)) || (code c =? 32).

Fixpoint hex_pairs (s : string) : option bytes :=
  match s with
  | EmptyString => Some []
  | String c t =>
      if is_ascii_space c then hex_pairs t else
      match t with
      | String d u => match hex_val c, hex_val d with
                      | Some a, Some b => cons (a * 16 + b) <$> hex_pairs u
                      | _, _ => None
                      end
      | EmptyString => None
      end
  end.

Definition fromhex (s : string) : res bytes :=
  match hex_pairs s with
  | Some b => Ok b
  | None => Raise (Exn ValueError "non-hexadecimal number found in fromhex() arg")
  end.

(** [n.to_bytes(8, "big")] for a non-negative [n]. *)
Definition to_bytes8 (n : Z) : res bytes :=
  if 2 ^ 64 <=? n then Raise (Exn OverflowError "int too big to convert")
  else Ok (map (λ i, (n / 256 ^ i) mod 256) [7; 6; 5; 4; 3; 2; 1; 0]).

Definition token_bytes (token_id : Z) : res bytes :=
  raise_if (token_id <? 0) (terr "tokenizer returned a negative token id: {token_id}") ;;
  to_bytes8 token_id.

Definition _chunk_digest (token_ids : list Z) (predecessor : option string) : res string :=
  pre ← match predecessor with Some p => fromhex p | None => Ok [] end;
  toks ← mapMR token_bytes token_ids;
  Ok (sha256 (pre ++ concat toks)).

(** [{**d, **e}] *)
Definition update (d e : dict) : dict := fold_left (λ d kv, dset kv.1 kv.2 d) e d.

Definition _base_plan (trace_format : string) (files : list json) (chunk_tokens : Z) (source : dict) : dict :=
  [("schema_version", JInt PLAN_VERSION); ("kind", JStr PLAN_KIND);
   ("evidence", JObj [("kind", JStr "trace-derived");
      ("statement", JStr ("Application requests and timing come from the source trace. Storage operations "
         +:+ "are derived under the recorded assumptions and are not observed device IO."))]);
   ("source", JObj (update [("format", JStr trace_format); ("files", JList files)] source));
   ("chunk_tokens", JInt chunk_tokens); ("warm_keys", JList []); ("requests", JList [])].

(** ** Plan operations *)
Inductive cache_op :=
  | OpLoad (chunk_key : string) (chunk_index : Z)
  | OpStore (chunk_key : string) (chunk_index : Z)
  | OpDelete (chunk_key : string).

Definition op_json (o : cache_op) : json :=
  match o with
  | OpLoad k i => JObj [("op", JStr "load"); ("chunk_key", JStr k); ("chunk_index", JInt i)]
  | OpStore k i => JObj [("op", JStr "store"); ("chunk_key", JStr k); ("chunk_index", JInt i)]
  | OpDelete k => JObj [("op", JStr "delete"); ("chunk_key", JStr k)]
  end.

(** Records in the order of [(timestamp, _kvio_ingest)]. *)
Definition stamp_le (a b : pyfloat * trace_record) : Prop :=
  py_ltb (JFloat a.1) (JFloat b.1) = true ∨
  (py_ltb (JFloat b.1) (JFloat a.1) = false ∧ r_ingest a.2 ≤ r_ingest b.2).
#[export] Instance stamp_le_dec : RelDecision stamp_le.
Proof. intros a b. unfold stamp_le. apply _. Defined.

Definition by_stamp : list (pyfloat * trace_record) → list (pyfloat * trace_record) := stable_sort stamp_le.

(** ** The LMCache compiler: an LRU cache of chunks *)

(** [range(start, stop, step)] for a positive step. *)
Definition range_step (start stop step : Z) : list Z :=
  map (λ i, start + step * i) (seqZ 0 (if start <? stop then (stop - start - 1) / step + 1 else 0)).

(** The complete chunks of a request; an incomplete tail is dropped. *)
Definition chunks_of (chunk_tokens : Z) (token_ids : list Z) : list (list Z) :=
  let n := Z.of_nat (length token_ids) in
  map (λ index, take (Z.to_nat chunk_tokens) (drop (Z.to_nat index) token_ids))
      (range_step 0 (n - chunk_tokens + 1) chunk_tokens).

(** The loop that names the chunks; with the prefix policy a name depends on
    the previous one. *)
Fixpoint chunk_keys (policy : string) (predecessor : option string) (chunks : list (list Z))
    : res (list string) :=
  match chunks with
  | [] => Ok []
  | chunk :: chunks =>
      key ← _chunk_digest chunk (if String.eqb policy "prefix" then predecessor else None);
      keys ← chunk_keys policy (Some key) chunks;
      Ok (key :: keys)
  end.

Definition move_to_end (key : string) (r : lru) : res lru :=
  if bool_decide (key ∈ r) then Ok (filter (λ k, k ≠ key) r ++ [key])
  else Raise (Exn KeyError key).

Definition popitem_first (r : lru) : res (string * lru) :=
  match r with
  | [] => Raise (Exn KeyError "dictionary is empty")
  | old :: r => Ok (old, r)
  end.

(** [resident[key] = None] *)
Definition insert_last (key : string) (r : lru) : lru :=
  if bool_decide (key ∈ r) then r else r ++ [key].

(** The first loop of a request: hits are loads, misses are remembered. *)
Record lookup_state := {
  l_resident : lru; l_new : list string; l_ops : list cache_op; l_misses : list (Z * string); l_loads : Z }.

Definition lookup_one (preexisting : list string) (st : lookup_state) (chunk_index : nat) (key : string)
    : res lookup_state :=
  if bool_decide (key ∈ preexisting) then
    resident ← move_to_end key (l_resident st);
    Ok {| l_resident := resident; l_new := l_new st;
          l_ops := l_ops st ++ [OpLoad key (Z.of_nat chunk_index)];
          l_misses := l_misses st; l_loads := l_loads st + 1 |}
  else if bool_decide (key ∈ l_new st) then Ok st
  else Ok {| l_resident := l_resident st; l_new := l_new st ++ [key]; l_ops := l_ops st;
             l_misses := l_misses st ++ [(Z.of_nat chunk_index, key)]; l_loads := l_loads st |}.

(** The second loop: insertions, with an eviction when the cache is full. *)
Record insert_state := {
  i_resident : lru; i_ops : list cache_op; i_stores : Z; i_evictions : Z }.

Definition insert_one (capacity_chunks : Z) (st : insert_state) (miss : Z * string) : res insert_state :=
  let '(chunk_index, key) := miss in
  st ← (if negb (capacity_chunks =? 0) && (capacity_chunks <=? Z.of_nat (length (i_resident st))) then
          popped ← popitem_first (i_resident st);
          let '(old_key, resident) := popped in
          Ok {| i_resident := resident; i_ops := i_ops st ++ [OpDelete old_key];
                i_stores := i_stores st; i_evictions := i_evictions st + 1 |}
        else Ok st);
  Ok {| i_resident := insert_last key (i_resident st);
        i_ops := i_ops st ++ [OpStore key chunk_index];
        i_stores := i_stores st + 1; i_evictions := i_evictions st |}.

(** The cache part of one request: the new cache, the operations, and the
    numbers of loads, stores and evictions. *)
Definition cache_request (capacity_chunks : Z) (resident : lru) (keys : list string)
    : res (lru * list cache_op * (Z * Z * Z)) :=
  l ← foldiM (lookup_one resident) 0
        {| l_resident := resident; l_new := []; l_ops := []; l_misses := []; l_loads := 0 |} keys;
  i ← foldM (insert_one capacity_chunks)
        {| i_resident := l_resident l; i_ops := l_ops l; i_stores := 0; i_evictions := 0 |} (l_misses l);
  Ok (i_resident i, i_ops i, (l_loads l, i_stores i, i_evictions i)).

(** The tokenizer: [list(encode(text))]. *)
Variable encode : string → res (list json).

Record lmcache_args := {
  a_chunk_tokens : Z; a_policy : string; a_capacity_chunks : Z; a_session_scope : string }.

Record compile_state := {
  c_resident : lru; c_stores : Z; c_loads : Z; c_evictions : Z; c_token_total : Z;
  c_ignored_tail : Z; c_max_resident : Z; c_requests : list json }.

Definition int_ids (ids : list json) : res (list Z) :=
  mapMR (λ v, match v with JInt z => Ok z | _ => Raise (terr "tokenizer must return integer token ids") end) ids.

Definition effective_session (session_scope : string) (record : trace_record) : string :=
  if String.eqb session_scope "file" then _session_digest [JStr (r_file record)]
  else _session_digest [getd (r_fields record) "session_id"].

Definition compile_request (a : lmcache_args) (start : pyfloat) (st : compile_state) (request_index : nat)
    (tr : pyfloat * trace_record) : res compile_state :=
  let '(timestamp, record) := tr in
  text ← match getd (r_fields record) "input" with
         | JStr s => Ok s
         | _ => Raise (Exn KeyError "input")
         end;
  ids ← encode text;
  token_ids ← int_ids ids;
  let n := Z.of_nat (length token_ids) in
  let chunks := chunks_of (a_chunk_tokens a) token_ids in
  keys ← chunk_keys (a_policy a) None chunks;
  served ← cache_request (a_capacity_chunks a) (c_resident st) keys;
  let '(resident, ops, (loads, stores, evictions)) := served in
  Ok {| c_resident := resident; c_stores := c_stores st + stores; c_loads := c_loads st + loads;
        c_evictions := c_evictions st + evictions; c_token_total := c_token_total st + n;
        c_ignored_tail := c_ignored_tail st + n mod a_chunk_tokens a;
        c_max_resident := Z.max (c_max_resident st) (Z.of_nat (length resident));
        c_requests := c_requests st ++ [JObj [
          ("request_index", JInt (Z.of_nat request_index));
          ("session", JStr (effective_session (a_session_scope a) record));
          ("source_session", JStr (_session_digest [getd (r_fields record) "session_id"]));
          ("source_file", JStr (r_file record)); ("source_line", JInt (r_line record));
          ("timestamp_unix_s", JFloat timestamp); ("offset_s", JFloat (float_sub timestamp start));
          ("input_tokens", JInt n); ("complete_chunks", JInt (Z.of_nat (length chunks)));
          ("ignored_tail_tokens", JInt (n mod a_chunk_tokens a));
          ("operations", JList (map op_json ops))]] |}.

(** [len({r["session"] for r in requests})] *)
Definition session_count (requests : list json) : Z :=
  Z.of_nat (length (remove_dups (map (λ r, match r with JObj d => py_str (getd d "session") | _ => EmptyString end) requests))).

Definition lmcache_assumptions (a : lmcache_args) : json :=
  JObj [("cache_policy", JStr (a_policy a)); ("capacity_chunks", JInt (a_capacity_chunks a));
        ("session_scope", JStr (a_session_scope a)); ("tail_policy", JStr "ignore incomplete final chunks");
        ("arrival_policy", JStr "stable global timestamp order");
        ("execution_policy",
         JStr "requests execute serially; timing-scale schedules starts but does not recreate concurrency");
        ("tier_model", JStr "each derived hit loads from L2; each new complete chunk stores to L2")].

(** The first loop: a timestamp for every record. *)
Definition enrich (session_scope : string) (record : trace_record) : res (pyfloat * trace_record) :=
  raise_unless (is_str (getd (r_fields record) "input"))
    (terr "{where}: lmcache-agent record has no string input") ;;
  raise_if (String.eqb session_scope "field" &&
            String.eqb (py_str (default (JStr EmptyString) (dget "session_id" (r_fields record)))) EmptyString)
    (terr "{where}: --session-scope=field needs a non-empty session_id") ;;
  t ← _record_timestamp record "lmcache-agent";
  Ok (t, record).

(** [xs[0]] and [xs[-1]] *)
Definition first {A} (l : list A) : res A :=
  match l with x :: _ => Ok x | [] => Raise (Exn IndexError "list index out of range") end.
Definition last_item {A} (l : list A) : res A := first (reverse l).

Definition compile_lmcache_agent (records : list trace_record) (files : list json) (tokenizer : json)
    (a : lmcache_args) (source : dict) : res dict :=
  raise_if (a_chunk_tokens a <=? 0) (terr "chunk_tokens must be positive") ;;
  raise_unless (bool_decide (a_policy a ∈ ["prefix"; "substring"])) (terr "policy must be prefix or substring") ;;
  raise_if (a_capacity_chunks a <? 0) (terr "capacity_chunks must be non-negative") ;;
  raise_unless (bool_decide (a_session_scope a ∈ ["file"; "field"])) (terr "session_scope must be file or field") ;;
  unsorted ← mapMR (enrich (a_session_scope a)) records;
  let enriched := by_stamp unsorted in
  first_pair ← first enriched;
  let start := first_pair.1 in
  st ← foldiM (compile_request a start) 0
         {| c_resident := []; c_stores := 0; c_loads := 0; c_evictions := 0; c_token_total := 0;
            c_ignored_tail := 0; c_max_resident := 0; c_requests := [] |} enriched;
  last_pair ← last_item enriched;
  let plan := _base_plan "lmcache-agent" files (a_chunk_tokens a) source in
  let plan := dset "tokenizer" tokenizer plan in
  let plan := dset "assumptions" (lmcache_assumptions a) plan in
  let plan := dset "requests" (JList (c_requests st)) plan in
  Ok (dset "summary" (JObj [
        ("requests", JInt (Z.of_nat (length enriched))); ("sessions", JInt (session_count (c_requests st)));
        ("input_tokens", JInt (c_token_total st)); ("ignored_tail_tokens", JInt (c_ignored_tail st));
        ("loads", JInt (c_loads st)); ("stores", JInt (c_stores st)); ("evictions", JInt (c_evictions st));
        ("max_resident_chunks", JInt (c_max_resident st));
        ("duration_s", JFloat (float_sub last_pair.1 start))]) plan).

(** ** The TraceLab compiler: observed prefix lengths *)
Definition tracelab_key (session : string) (chunk_index : Z) : string :=
  sha256 (ascii_bytes ("tracelab:" +:+ session +:+ ":" +:+ str_of_Z chunk_index)).

(** [known], [warm], the operations of the request and the counters. *)
Record lab_state := {
  t_known : list string; t_warm : list string; t_ops : list cache_op; t_loads : Z; t_stores : Z }.

Definition add_key (k : string) (s : list string) : list string := if bool_decide (k ∈ s) then s else s ++ [k].

Definition lab_load (session : string) (st : lab_state) (chunk_index : Z) : lab_state :=
  let key := tracelab_key session chunk_index in
  let fresh := negb (bool_decide (key ∈ t_known st)) in
  {| t_known := if fresh then add_key key (t_known st) else t_known st;
     t_warm := if fresh then add_key key (t_warm st) else t_warm st;
     t_ops := t_ops st ++ [OpLoad key chunk_index];
     t_loads := t_loads st + 1; t_stores := t_stores st |}.

Definition lab_store (session : string) (st : lab_state) (chunk_index : Z) : lab_state :=
  let key := tracelab_key session chunk_index in
  if bool_decide (key ∈ t_known st) then st
  else {| t_known := add_key key (t_known st); t_warm := t_warm st;
          t_ops := t_ops st ++ [OpStore key chunk_index];
          t_loads := t_loads st; t_stores := t_stores st + 1 |}.

Definition lab_request (session : string) (known warm : list string) (loads stores : Z)
    (prefix_chunks total_chunks : Z) : lab_state :=
  let st := fold_left (lab_load session) (seqZ 0 prefix_chunks)
              {| t_known := known; t_warm := warm; t_ops := []; t_loads := loads; t_stores := stores |} in
  fold_left (lab_store session) (seqZ prefix_chunks (total_chunks - prefix_chunks)) st.

Record tracelab_state := {
  s_known : list string; s_warm : list string; s_stores : Z; s_loads : Z;
  s_input_total : Z; s_prefix_total : Z; s_requests : list json }.

Definition tracelab_request (chunk_tokens : Z) (start : pyfloat) (st : tracelab_state) (request_index : nat)
    (tr : pyfloat * trace_record) : res tracelab_state :=
  let '(timestamp, record) := tr in
  let fields := r_fields record in
  total ← (v ← item (JObj fields) "input_tokens_total"; _positive_int v true);
  prefix ← (v ← item (JObj fields) "prefix_tokens"; _positive_int v true);
  raise_if (total <? prefix) (terr "{where}: prefix_tokens exceeds input_tokens_total") ;;
  let session := _session_digest [getd fields "provider"; getd fields "project";
                                  getd fields "session_file"; getd fields "session_id"] in
  let prefix_chunks := prefix / chunk_tokens in
  let total_chunks := total / chunk_tokens in
  let r := lab_request session (s_known st) (s_warm st) (s_loads st) (s_stores st) prefix_chunks total_chunks in
  Ok {| s_known := t_known r; s_warm := t_warm r;
        s_stores := t_stores r; s_loads := t_loads r;
        s_input_total := s_input_total st + total; s_prefix_total := s_prefix_total st + prefix;
        s_requests := s_requests st ++ [JObj [
          ("request_index", JInt (Z.of_nat request_index)); ("session", JStr session);
          ("provider", getd fields "provider"); ("model", getd fields "model");
          ("round_index", getd fields "round_index");
          ("source_file", JStr (r_file record)); ("source_line", JInt (r_line record));
          ("timestamp_unix_s", JFloat timestamp); ("offset_s", JFloat (float_sub timestamp start));
          ("input_tokens", JInt total); ("observed_prefix_tokens", JInt prefix);
          ("complete_chunks", JInt total_chunks); ("ignored_tail_tokens", JInt (total mod chunk_tokens));
          ("operations", JList (map op_json (t_ops r)))]] |}.

(** [if provider and record.get("provider") != provider: continue] *)
Definition selected_record (provider : option string) (record : trace_record) : bool :=
  match provider with
  | None | Some EmptyString => true
  | Some p => eq_str (getd (r_fields record) "provider") p
  end.

Definition select (record : trace_record) : res (pyfloat * trace_record) :=
  foldM (λ _ field, raise_if (is_none (getd (r_fields record) field))
                      (terr "{where}: TraceLab round is missing {field}"))
    tt ["provider"; "session_id"; "input_tokens_total"; "prefix_tokens"] ;;
  t ← _record_timestamp record "tracelab";
  Ok (t, record).

Definition tracelab_assumptions : json :=
  JObj [("cache_policy", JStr "observed prefix-token accounting");
        ("chunk_identity", JStr "session-relative prefix position; TraceLab omits prompt text for privacy");
        ("tail_policy", JStr "ignore incomplete chunk boundaries");
        ("arrival_policy", JStr "stable global timestamp order");
        ("execution_policy",
         JStr "requests execute serially; timing-scale schedules starts but does not recreate concurrency");
        ("tier_model", JStr "provider prefix hits are modeled as L2 loads; newly complete chunks store");
        ("capacity_chunks", JStr "not simulated because the source already reports cache outcomes")].

Definition compile_tracelab (records : list trace_record) (files : list json) (chunk_tokens : Z)
    (provider : option string) (source : dict) : res dict :=
  raise_if (chunk_tokens <=? 0) (terr "chunk_tokens must be positive") ;;
  unsorted ← mapMR select (List.filter (selected_record provider) records);
  raise_if (bool_decide (length unsorted = 0%nat)) (terr "no TraceLab rounds remain after filtering") ;;
  let selected := by_stamp unsorted in
  first_pair ← first selected;
  let start := first_pair.1 in
  st ← foldiM (tracelab_request chunk_tokens start) 0
         {| s_known := []; s_warm := []; s_stores := 0; s_loads := 0; s_input_total := 0;
            s_prefix_total := 0; s_requests := [] |} selected;
  last_pair ← last_item selected;
  let plan := _base_plan "tracelab" files chunk_tokens source in
  let plan := dset "assumptions" tracelab_assumptions plan in
  let plan := dset "requests" (JList (s_requests st)) plan in
  let plan := dset "warm_keys" (JList (map JStr (stable_sort String.le (s_warm st)))) plan in
  Ok (dset "summary" (JObj [
        ("requests", JInt (Z.of_nat (length selected))); ("sessions", JInt (session_count (s_requests st)));
        ("input_tokens", JInt (s_input_total st)); ("observed_prefix_tokens", JInt (s_prefix_total st));
        ("loads", JInt (s_loads st)); ("stores", JInt (s_stores st)); ("evictions", JInt 0);
        ("warm_chunks", JInt (Z.of_nat (length (s_warm st))));
        ("max_resident_chunks", JInt (Z.of_nat (length (s_known st))));
        ("duration_s", JFloat (float_sub last_pair.1 start))]) plan).

(** ** The plan validator *)
Definition check_key (what : string) (key : json) : res unit :=
  let bad := terr ("agent plan " +:+ what +:+ " key is not a SHA-256 hex digest") in
  match key with
  | JStr s =>
      raise_unless (String.length s =? 64)%nat bad ;;
      match fromhex s with
      | Ok _ => Ok tt
      | Raise _ => Raise (terr ("agent plan " +:+ what +:+ " key is not hexadecimal"))
      end
  | _ => Raise bad
  end.

Definition valid_ops : list (string * unit) := [("load", tt); ("store", tt); ("delete", tt)].

Definition check_operation (operation : json) : res unit :=
  op ← get operation "op";
  known ← in_keys op valid_ops;
  raise_unless known (terr "agent plan contains invalid operation: {operation.get('op')!r}") ;;
  key ← get operation "chunk_key";
  check_key "chunk" key.

Definition check_request (request : json) : res unit :=
  operations ← get request "operations";
  match operations with
  | JList l => foldM (λ _ o, check_operation o) tt l
  | _ => Raise (terr "agent plan request has no operations list")
  end.

Definition validate_plan (plan : dict) : res unit :=
  raise_unless (py_eq (getd plan "schema_version") (JInt PLAN_VERSION) &&
                eq_str (getd plan "kind") PLAN_KIND) (terr "unsupported agent plan schema") ;;
  match int_val (getd plan "chunk_tokens") with
  | Some z => raise_if (z <=? 0) (terr "agent plan has invalid chunk_tokens")
  | None => Raise (terr "agent plan has invalid chunk_tokens")
  end ;;
  requests ← match getd plan "requests" with
             | JList ((_ :: _) as l) => Ok l
             | _ => Raise (terr "agent plan contains no requests")
             end;
  warm ← iterate (default (JList []) (dget "warm_keys" plan));
  foldM (λ _ k, check_key "warm" k) tt warm ;;
  foldM (λ _ r, check_request r) tt requests.
End trace.
