(* ===== verification/AgentPlan.v ===== *)
(** * Correctness of the compiled cache plans

    A plan is executed on a set of chunks: a load needs its chunk, a store
    needs it absent and room for it, a deletion needs it present.  Plans of
    both compilers run to their end under this reading, the LMCache compiler
    keeps exactly the most recently used chunks, and the validator accepts
    what the compilers produce. *)

From stdpp Require Import prelude strings list numbers gmap sorting.
From Stdlib Require Import ZArith Lia Ascii.
From S2P Require Import Prelude PyText PyJson JsonText Intent ContentProfile AgentTrace.
Local Open Scope Z_scope.

(** ** Executing plan operations *)
Definition exec_op (limit : nat) (s : gset string) (o : cache_op) : option (gset string) :=
  match o with
  | OpLoad k _ => if decide (k ∈ s) then Some s else None
  | OpStore k _ => if decide (k ∉ s ∧ (size s < limit)%nat) then Some ({[k]} ∪ s) else None
  | OpDelete k => if decide (k ∈ s) then Some (s ∖ {[k]}) else None
  end.

Fixpoint exec_ops (limit : nat) (s : gset string) (ops : list cache_op) : option (gset string) :=
  match ops with
  | [] => Some s
  | o :: ops => s' ← exec_op limit s o; exec_ops limit s' ops
  end.

Lemma exec_ops_app limit s ops1 ops2 :
  exec_ops limit s (ops1 ++ ops2) = s' ← exec_ops limit s ops1; exec_ops limit s' ops2.
Proof.
  revert s. induction ops1 as [|o ops1 IH]; intros s; [done|]. simpl.
  destruct (exec_op limit s o); simpl; [apply IH|done].
Qed.

Lemma exec_ops_mono limit limit' s ops s' :
  (limit ≤ limit')%nat → exec_ops limit s ops = Some s' → exec_ops limit' s ops = Some s'.
Proof.
  intros Hl. revert s. induction ops as [|o ops IH]; intros s; [done|]. simpl.
  intros (s1 & Ho & Hops)%bind_Some.
  assert (exec_op limit' s o = Some s1) as ->; [|by apply IH].
  destruct o; simpl in *; try done. case_decide as Hd; [|done].
  rewrite decide_True by (split; [apply Hd|lia]). done.
Qed.

(** Kinds of operations, and the key an operation names. *)
Definition is_load (o : cache_op) : bool := match o with OpLoad _ _ => true | _ => false end.
Definition is_store (o : cache_op) : bool := match o with OpStore _ _ => true | _ => false end.
Definition is_delete (o : cache_op) : bool := match o with OpDelete _ => true | _ => false end.
Definition op_key (o : cache_op) : string :=
  match o with OpLoad k _ | OpStore k _ | OpDelete k => k end.

Definition count (p : cache_op → bool) (ops : list cache_op) : Z := Z.of_nat (length (List.filter p ops)).

Lemma count_app p ops1 ops2 : count p (ops1 ++ ops2) = count p ops1 + count p ops2.
Proof. unfold count. rewrite List.filter_app, length_app. lia. Qed.

Lemma count_snoc p ops o : count p (ops ++ [o]) = count p ops + (if p o then 1 else 0).
Proof. rewrite count_app. unfold count at 2. simpl. by destruct (p o). Qed.

(** ** Least recently used: the reference definition *)

(** The keys of a history of uses, least recently used first. *)
Definition touch (r : lru) (k : string) : lru := filter (λ x, x ≠ k) r ++ [k].
Definition recency (h : list string) : lru := fold_left touch h [].

(** What a cache of [cap] chunks holds after the uses [h]: the [cap] most
    recently used ones ([cap = 0]: no bound). *)
Definition recent (cap : Z) (h : list string) : lru :=
  if cap =? 0 then recency h else drop (length (recency h) - Z.to_nat cap) (recency h).

(** The uses a list of operations makes. *)
Definition uses (ops : list cache_op) : list string :=
  map op_key (List.filter (λ o, negb (is_delete o)) ops).

Lemma uses_app ops1 ops2 : uses (ops1 ++ ops2) = uses ops1 ++ uses ops2.
Proof. unfold uses. by rewrite List.filter_app, map_app. Qed.

Lemma recency_snoc h k : recency (h ++ [k]) = touch (recency h) k.
Proof. unfold recency. by rewrite fold_left_app. Qed.

Lemma filter_ne_id (k : string) (r : lru) : k ∉ r → filter (λ x, x ≠ k) r = r.
Proof.
  induction r as [|x r IH]; [done|]. rewrite not_elem_of_cons. intros [Hx Hr].
  rewrite filter_cons, decide_True by congruence. by rewrite IH.
Qed.

Lemma touch_NoDup r k : NoDup r → NoDup (touch r k).
Proof.
  intros Hr. unfold touch. apply NoDup_app. split_and!.
  - by apply NoDup_filter.
  - intros x [Hx _]%list_elem_of_filter Hk. apply list_elem_of_singleton in Hk. done.
  - apply NoDup_singleton.
Qed.

Lemma recency_NoDup h : NoDup (recency h).
Proof.
  induction h as [|k h IH] using rev_ind; [constructor|].
  rewrite recency_snoc. by apply touch_NoDup.
Qed.

Lemma recent_NoDup cap h : NoDup (recent cap h).
Proof.
  unfold recent. destruct (cap =? 0); [apply recency_NoDup|].
  eapply sublist_NoDup; [apply recency_NoDup|apply sublist_drop].
Qed.

Lemma recent_length cap h : 0 < cap → Z.of_nat (length (recent cap h)) ≤ cap.
Proof.
  intros Hc. unfold recent. destruct (Z.eqb_spec cap 0); [lia|]. rewrite length_drop. lia.
Qed.

Lemma length_filter_ne (k : string) (r : lru) :
  NoDup r → k ∈ r → S (length (filter (λ x, x ≠ k) r)) = length r.
Proof.
  induction r as [|x r IH]; [by intros _ ?%elem_of_nil|].
  intros [Hx Hr]%NoDup_cons Hk. rewrite filter_cons. destruct (decide (x = k)) as [->|Hne].
  - rewrite decide_False by tauto. by rewrite filter_ne_id.
  - rewrite decide_True by done. apply elem_of_cons in Hk as [?|Hk]; [congruence|].
    simpl. by rewrite <- (IH Hr Hk).
Qed.

(** A hit moves its chunk to the end. *)
Lemma recent_hit cap h k : 0 ≤ cap → k ∈ recent cap h → recent cap (h ++ [k]) = touch (recent cap h) k.
Proof.
  intros Hc Hk. unfold recent in *. rewrite recency_snoc. destruct (Z.eqb_spec cap 0); [done|].
  pose proof (recency_NoDup h) as Hnd. set (R := recency h) in *.
  assert (k ∈ R) as HkR by (eapply elem_of_submseteq; [exact Hk|apply sublist_submseteq, sublist_drop]).
  set (d := (length R - Z.to_nat cap)%nat) in *.
  assert (length (touch R k) = length R) as ->.
  { unfold touch. rewrite length_app. simpl. rewrite <- (length_filter_ne k R) by done. lia. }
  fold d. unfold touch. rewrite <- (take_drop d R) in Hnd at 1.
  apply NoDup_app in Hnd as (_ & Hdis & _).
  rewrite <- (take_drop d R) at 1. rewrite filter_app, filter_ne_id by (intros Hin; by eapply Hdis).
  rewrite <- app_assoc, drop_app_length'; [done|]. rewrite length_take. lia.
Qed.

(** A miss appends its chunk, and drops the oldest one of a full cache. *)
Definition make_room (cap : Z) (r : lru) : lru :=
  if negb (cap =? 0) && (cap <=? Z.of_nat (length r)) then tail r else r.

Lemma recent_miss cap h k :
  0 ≤ cap → k ∉ recent cap h → recent cap (h ++ [k]) = make_room cap (recent cap h) ++ [k].
Proof.
  intros Hc Hk. unfold recent, make_room in *. rewrite recency_snoc.
  destruct (Z.eqb_spec cap 0) as [->|Hne]; simpl; [unfold touch; by rewrite filter_ne_id|].
  set (R := recency h) in *. set (d := (length R - Z.to_nat cap)%nat) in *.
  rewrite length_drop. unfold touch.
  destruct (Z.leb_spec cap (Z.of_nat (length R - d))) as [Hfull|Hfree].
  - rewrite <- (take_drop d R) at 1 2. rewrite filter_app, (filter_ne_id k (drop d R)) by done.
    set (F := filter (λ x, x ≠ k) (take d R)).
    destruct (drop d R) as [|x r] eqn:E;
      [apply (f_equal length) in E; rewrite length_drop in E; simpl in E; lia|].
    assert (length (x :: r) = Z.to_nat cap) as Hl by (rewrite <- E, length_drop; lia).
    rewrite !length_app. simpl in *.
    replace (length F + S (length r) + 1 - Z.to_nat cap)%nat with (length (F ++ [x]))%nat
      by (rewrite length_app; simpl; lia).
    replace ((F ++ x :: r) ++ [k]) with ((F ++ [x]) ++ (r ++ [k])) by (by rewrite <- !app_assoc).
    by rewrite drop_app_length.
  - assert (d = 0%nat) as Hd by lia. rewrite Hd in *. rewrite drop_0 in *.
    rewrite filter_ne_id by done. rewrite length_app. simpl.
    replace (length R + 1 - Z.to_nat cap)%nat with 0%nat by lia. by rewrite drop_0.
Qed.

(** ** One request *)
Section request.
Context (cap : Z) (h : list string).
Hypothesis Hcap : 0 ≤ cap.
Local Abbreviation arrival := (recent cap h).

(** The first loop: every chunk present at arrival is loaded, the first
    occurrence of every other chunk is a miss. *)
Record looked_up (pre : list string) (st : lookup_state) : Prop := {
  lu_resident : l_resident st = recent cap (h ++ uses (l_ops st));
  lu_same : ∀ k, k ∈ l_resident st ↔ k ∈ arrival;
  lu_loads : l_loads st = count is_load (l_ops st);
  lu_only : Forall (λ o, is_load o = true) (l_ops st);
  lu_hits : ∀ k i, OpLoad k i ∈ l_ops st ↔ ∃ j, i = Z.of_nat j ∧ pre !! j = Some k ∧ k ∈ arrival;
  lu_new : l_new st = map snd (l_misses st);
  lu_new_elem : ∀ k, k ∈ l_new st ↔ k ∈ pre ∧ k ∉ arrival;
  lu_new_NoDup : NoDup (l_new st);
  lu_misses : ∀ k i, (i, k) ∈ l_misses st ↔
    ∃ j, i = Z.of_nat j ∧ pre !! j = Some k ∧ k ∉ arrival ∧ ∀ j', (j' < j)%nat → pre !! j' ≠ Some k }.

Lemma looked_up_hit pre k st :
  looked_up pre st → k ∈ arrival →
  looked_up (pre ++ [k])
    {| l_resident := touch (l_resident st) k; l_new := l_new st;
       l_ops := l_ops st ++ [OpLoad k (Z.of_nat (length pre))];
       l_misses := l_misses st; l_loads := l_loads st + 1 |}.
Proof.
  intros [Hr Hs Hl Ho Hh Hn He Hd Hm] Hk. constructor; simpl.
  - rewrite uses_app, app_assoc. change (uses [_]) with [k].
    rewrite recent_hit; [by rewrite Hr|done|]. rewrite <- Hr. by apply Hs.
  - intros k'. unfold touch. rewrite elem_of_app, list_elem_of_singleton, list_elem_of_filter, Hs.
    destruct (decide (k' = k)) as [->|]; tauto.
  - rewrite count_snoc. simpl. lia.
  - apply Forall_app. split; [done|]. by apply Forall_singleton.
  - intros k' i. rewrite elem_of_app, list_elem_of_singleton, Hh. split.
    + intros [(j & -> & Hj & Hin)|[= -> ->]].
      * exists j. split_and!; [done|by apply lookup_app_l_Some|done].
      * exists (length pre). split_and!; [done|by apply list_lookup_middle|done].
    + intros (j & -> & Hj & Hin). apply lookup_snoc_cases in Hj as [Hj|[-> ->]]; [left; eauto|by right].
  - done.
  - intros k'. rewrite He, elem_of_app, list_elem_of_singleton. naive_solver.
  - done.
  - intros k' i. rewrite Hm. split.
    + intros (j & -> & Hj & Hin & Hmin). exists j. split_and!; [done|by apply lookup_app_l_Some|done|].
      intros j' Hj' [H1|[-> ->]]%lookup_snoc_cases; [by eapply Hmin|]. apply lookup_lt_Some in Hj. lia.
    + intros (j & -> & Hj & Hin & Hmin).
      apply lookup_snoc_cases in Hj as [Hj|[-> ->]]; [|done].
      exists j. split_and!; [done..|]. intros j' Hj' H1. apply (Hmin j' Hj'). by apply lookup_app_l_Some.
Qed.

Lemma looked_up_again pre k st :
  looked_up pre st → k ∉ arrival → k ∈ pre → looked_up (pre ++ [k]) st.
Proof.
  intros [Hr Hs Hl Ho Hh Hn He Hd Hm] Hk Hpre. constructor; try done.
  - intros k' i. rewrite Hh. split; intros (j & -> & Hj & Hin); exists j; split_and!; try done.
    + by apply lookup_app_l_Some.
    + apply lookup_snoc_cases in Hj as [?|[-> ->]]; done.
  - intros k'. rewrite He, elem_of_app, list_elem_of_singleton. split; [tauto|].
    intros [[?| ->] ?]; done.
  - intros k' i. rewrite Hm. split; intros (j & -> & Hj & Hin & Hmin); exists j; split_and!; try done.
    + by apply lookup_app_l_Some.
    + intros j' Hj' [H1|[-> ->]]%lookup_snoc_cases; [by eapply Hmin|]. apply lookup_lt_Some in Hj. lia.
    + apply lookup_snoc_cases in Hj as [?|[-> ->]]; [done|].
      apply list_elem_of_lookup in Hpre as [j' Hj']. exfalso.
      apply (Hmin j'); [by eapply lookup_lt_Some|by apply lookup_app_l_Some].
    + intros j' Hj' H1. apply (Hmin j' Hj'). by apply lookup_app_l_Some.
Qed.

Lemma looked_up_miss pre k st :
  looked_up pre st → k ∉ arrival → k ∉ pre →
  looked_up (pre ++ [k])
    {| l_resident := l_resident st; l_new := l_new st ++ [k]; l_ops := l_ops st;
       l_misses := l_misses st ++ [(Z.of_nat (length pre), k)]; l_loads := l_loads st |}.
Proof.
  intros [Hr Hs Hl Ho Hh Hn He Hd Hm] Hk Hpre. constructor; simpl; try done.
  - intros k' i. rewrite Hh. split; intros (j & -> & Hj & Hin); exists j; split_and!; try done.
    + by apply lookup_app_l_Some.
    + apply lookup_snoc_cases in Hj as [?|[-> ->]]; done.
  - by rewrite map_app, Hn.
  - intros k'. rewrite !elem_of_app, !list_elem_of_singleton, He. naive_solver.
  - apply NoDup_app. split_and!; [done| |apply NoDup_singleton].
    intros k' [Hp _]%He Hk'. apply list_elem_of_singleton in Hk'. congruence.
  - intros k' i. rewrite elem_of_app, list_elem_of_singleton, Hm. split.
    + intros [(j & -> & Hj & Hin & Hmin)|[= -> ->]].
      * exists j. split_and!; [done|by apply lookup_app_l_Some|done|].
        intros j' Hj' [H1|[-> ->]]%lookup_snoc_cases; [by eapply Hmin|]. apply lookup_lt_Some in Hj. lia.
      * exists (length pre). split_and!; [done|by apply list_lookup_middle|done|].
        intros j' Hj' [H1|[-> _]]%lookup_snoc_cases; [|lia]. apply Hpre. by eapply list_elem_of_lookup_2.
    + intros (j & -> & Hj & Hin & Hmin). apply lookup_snoc_cases in Hj as [Hj|[-> ->]]; [|by right].
      left. exists j. split_and!; [done..|]. intros j' Hj' H1. apply (Hmin j' Hj'). by apply lookup_app_l_Some.
Qed.

Lemma lookup_loop keys :
  ∃ st, foldiM (lookup_one arrival) 0
          {| l_resident := arrival; l_new := []; l_ops := []; l_misses := []; l_loads := 0 |} keys = Ok st
        ∧ looked_up keys st.
Proof.
  apply foldiM_total.
  - constructor; simpl; try done.
    + by rewrite app_nil_r.
    + intros k i. split; [by intros ?%elem_of_nil|by intros (j & _ & Hj & _)].
    + intros k. split; [by intros ?%elem_of_nil|by intros [?%elem_of_nil _]].
    + constructor.
    + intros k i. split; [by intros ?%elem_of_nil|by intros (j & _ & Hj & _)].
  - intros pre k post st _ Hst. unfold lookup_one. case_bool_decide as Hk.
    + unfold move_to_end. rewrite bool_decide_true by (by apply (lu_same _ _ Hst)).
      simpl. eexists. split; [done|]. by apply looked_up_hit.
    + case_bool_decide as Hn.
      * exists st. split; [done|]. apply (lu_new_elem _ _ Hst) in Hn as [Hn _]. by apply looked_up_again.
      * eexists. split; [done|]. apply looked_up_miss; [done..|].
        intros Hp. apply Hn. by apply (lu_new_elem _ _ Hst).
Qed.

(** The second loop, from the cache [r1] and the operations [ops1] that the
    first one left. *)
Section inserts.
Context (ops1 : list cache_op) (r1 : lru).
Hypothesis Hr1 : r1 = recent cap (h ++ uses ops1).
Hypothesis Hsame : ∀ k, k ∈ r1 ↔ k ∈ arrival.
Hypothesis Hloads : Forall (λ o, is_load o = true) ops1.
Hypothesis Hpresent : ∀ k i, OpLoad k i ∈ ops1 → k ∈ arrival.

Definition store_of (miss : Z * string) : cache_op := OpStore miss.2 miss.1.

Record inserted (pre : list (Z * string)) (st : insert_state) : Prop := {
  in_resident : i_resident st = recent cap (h ++ uses (i_ops st));
  in_from : ∀ k, k ∈ i_resident st → k ∈ arrival ∨ k ∈ map snd pre;
  in_grow : (length r1 ≤ length (i_resident st))%nat;
  in_exec : ∀ limit, (length (i_resident st) ≤ limit)%nat →
    exec_ops limit (list_to_set arrival) (i_ops st) = Some (list_to_set (i_resident st));
  in_loads : List.filter is_load (i_ops st) = ops1;
  in_stores_ops : List.filter is_store (i_ops st) = map store_of pre;
  in_stores : i_stores st = count is_store (i_ops st);
  in_evictions : i_evictions st = count is_delete (i_ops st) }.

Lemma exec_loads limit (s : gset string) ops :
  Forall (λ o, is_load o = true) ops → (∀ k i, OpLoad k i ∈ ops → k ∈ s) →
  exec_ops limit s ops = Some s.
Proof.
  induction 1 as [|o ops Ho Hops IH]; intros Hin; [done|].
  destruct o as [k i| |]; try done. simpl.
  rewrite decide_True by (apply (Hin k i); left). simpl. apply IH. intros k' i' ?. apply (Hin k' i'). by right.
Qed.

Lemma filter_loads (p : cache_op → bool) ops :
  Forall (λ o, is_load o = true) ops → (∀ o, is_load o = true → p o = true) → List.filter p ops = ops.
Proof. intros Ho Hp. induction Ho as [|o ops Hl _ IH]; [done|]. simpl. by rewrite Hp, IH. Qed.

Lemma filter_loads_none (p : cache_op → bool) ops :
  Forall (λ o, is_load o = true) ops → (∀ o, is_load o = true → p o = false) → List.filter p ops = [].
Proof. intros Ho Hp. induction Ho as [|o ops Hl _ IH]; [done|]. simpl. by rewrite Hp, IH. Qed.

Lemma inserted_start :
  inserted [] {| i_resident := r1; i_ops := ops1; i_stores := 0; i_evictions := 0 |}.
Proof.
  constructor; simpl.
  - done.
  - intros k Hk. left. by apply Hsame.
  - done.
  - intros limit _. rewrite exec_loads; [|done|].
    + f_equal. apply leibniz_equiv. intros k. rewrite !elem_of_list_to_set. symmetry. apply Hsame.
    + intros k i Hk. rewrite elem_of_list_to_set. by eapply Hpresent.
  - by apply filter_loads.
  - apply filter_loads_none; [done|]. by intros [].
  - unfold count. rewrite filter_loads_none; [done|done|]. by intros [].
  - unfold count. rewrite filter_loads_none; [done|done|]. by intros [].
Qed.

(** The operations of one insertion on a cache [r]. *)
Definition insert_ops (r : lru) (miss : Z * string) : list cache_op :=
  match r with
  | old :: _ => if negb (cap =? 0) && (cap <=? Z.of_nat (length r)) then [OpDelete old; store_of miss] else [store_of miss]
  | [] => [store_of miss]
  end.

Lemma insert_one_eq st miss :
  (cap = 0 ∨ 0 < cap) → miss.2 ∉ i_resident st →
  ∃ st', insert_one cap st miss = Ok st' ∧
    i_resident st' = make_room cap (i_resident st) ++ [miss.2] ∧
    i_ops st' = i_ops st ++ insert_ops (i_resident st) miss ∧
    i_stores st' = i_stores st + 1 ∧
    i_evictions st' = i_evictions st + count is_delete (insert_ops (i_resident st) miss).
Proof.
  destruct miss as [i k]. intros Hc Hk. unfold insert_one, insert_ops, make_room. simpl in *.
  assert (∀ r, k ∉ r → insert_last k r = r ++ [k]) as Hins
    by (intros r Hr; unfold insert_last; by rewrite bool_decide_false).
  destruct (i_resident st) as [|old r] eqn:E.
  - assert (negb (cap =? 0) && (cap <=? Z.of_nat (length (@nil string))) = false) as ->
      by (change (Z.of_nat (length (@nil string))) with 0; lia).
    simpl. eexists. split; [done|]. simpl. rewrite E. split_and!; [done..|unfold count; simpl; lia].
  - destruct (negb (cap =? 0) && (cap <=? Z.of_nat (length (old :: r)))); simpl.
    + apply not_elem_of_cons in Hk as [_ Hk]. eexists. split; [done|]. simpl.
      rewrite Hins by done. by rewrite <- app_assoc.
    + eexists. split; [done|]. simpl. rewrite E, Hins by done. split_and!; [done..|unfold count; simpl; lia].
Qed.

Lemma exec_store limit (r : lru) miss :
  (0 ≤ cap) → NoDup r → miss.2 ∉ r → (length (make_room cap r) < limit)%nat →
  exec_ops limit (list_to_set r) (insert_ops r miss) = Some (list_to_set (make_room cap r ++ [miss.2])).
Proof.
  intros Hc Hnd Hk Hl. unfold insert_ops, make_room in *. destruct miss as [i k]. simpl in *.
  assert (∀ r' : lru, NoDup r' → k ∉ r' → (length r' < limit)%nat →
    exec_ops limit (list_to_set r') [OpStore k i] = Some (list_to_set (r' ++ [k]))) as Hone.
  { intros r' Hn Hr' Hl'. simpl. rewrite decide_True.
    - simpl. f_equal. rewrite list_to_set_app_L. simpl. set_solver.
    - rewrite elem_of_list_to_set. split; [done|]. by rewrite size_list_to_set. }
  destruct r as [|old r].
  { change (tail (@nil string)) with (@nil string) in *.
    assert (∀ b : bool, (if b then @nil string else []) = []) as Hif by (by intros []). rewrite Hif in *.
    apply Hone; [constructor|done|done]. }
  destruct (negb (cap =? 0) && (cap <=? Z.of_nat (length (old :: r)))); [|by apply Hone].
  apply NoDup_cons in Hnd as [Ho Hnd]. apply not_elem_of_cons in Hk as [_ Hk].
  assert (exec_op limit (list_to_set (old :: r)) (OpDelete old) = Some (list_to_set r)) as Hdel.
  { unfold exec_op. rewrite decide_True by set_solver. f_equal.
    assert (old ∉@{gset string} list_to_set r) by (by rewrite elem_of_list_to_set). set_solver. }
  transitivity (exec_ops limit (list_to_set r) [OpStore k i]); [|by apply Hone].
  cbn [exec_ops]. rewrite Hdel. done.
Qed.

Lemma make_room_length r : (length r ≤ S (length (make_room cap r)))%nat.
Proof. unfold make_room. destruct (negb _ && _); [|lia]. destruct r; simpl; lia. Qed.

Lemma make_room_elem k r : k ∈ make_room cap r → k ∈ r.
Proof. unfold make_room. destruct (negb _ && _); [|done]. destruct r; [done|]. by right. Qed.

Lemma inserted_step pre miss st :
  inserted pre st → miss.2 ∉ arrival → miss.2 ∉ map snd pre →
  ∃ st', insert_one cap st miss = Ok st' ∧ inserted (pre ++ [miss]) st'.
Proof.
  intros [Hr Hf Hg He Hlo Hst Hs Hev] Ha Hp.
  assert (miss.2 ∉ i_resident st) as Hk by (intros [?|?]%Hf; done).
  destruct (insert_one_eq st miss) as (st' & Hst' & Hr' & Ho' & Hs' & Hev'); [lia|done|].
  exists st'. split; [done|].
  pose proof (recent_NoDup cap (h ++ uses (i_ops st))) as Hnd. rewrite <- Hr in Hnd.
  pose proof (make_room_length (i_resident st)) as Hm.
  assert (uses (insert_ops (i_resident st) miss) = [miss.2] ∧
          List.filter is_load (insert_ops (i_resident st) miss) = [] ∧
          List.filter is_store (insert_ops (i_resident st) miss) = [store_of miss]) as (Hu & Hfl & Hfs).
  { unfold insert_ops. destruct (i_resident st); [done|]. by destruct (negb _ && _). }
  constructor.
  - rewrite Hr', Ho', uses_app, app_assoc, Hu, recent_miss; [by rewrite <- Hr|done|by rewrite <- Hr].
  - intros k. rewrite Hr', elem_of_app, list_elem_of_singleton, map_app, elem_of_app. simpl.
    intros [?%make_room_elem%Hf| ->]; [tauto|right; right; left].
  - rewrite Hr', length_app. simpl. lia.
  - intros limit Hlim. rewrite Hr', length_app in Hlim. simpl in Hlim.
    rewrite Ho', exec_ops_app, He by lia. simpl mbind. rewrite Hr'. by apply exec_store; [|..|lia].
  - by rewrite Ho', List.filter_app, Hlo, Hfl, app_nil_r.
  - by rewrite Ho', List.filter_app, Hst, Hfs, map_app.
  - rewrite Hs', Ho', count_app, Hs. unfold count at 3. by rewrite Hfs.
  - by rewrite Hev', Ho', count_app, Hev.
Qed.

Lemma insert_loop misses :
  NoDup (map snd misses) → (∀ k, k ∈ map snd misses → k ∉ arrival) →
  ∃ st, foldM (insert_one cap) {| i_resident := r1; i_ops := ops1; i_stores := 0; i_evictions := 0 |} misses
        = Ok st ∧ inserted misses st.
Proof.
  intros Hnd Ha. apply foldM_total; [apply inserted_start|].
  intros pre miss post st -> Hst. rewrite map_app in Hnd, Ha. simpl in *.
  apply inserted_step; [done|apply Ha; set_solver|].
  apply NoDup_app in Hnd as (_ & Hd & _). intros Hin. eapply Hd; [exact Hin|left].
Qed.
End inserts.

(** The whole request. *)
Lemma cache_request_spec keys :
  ∃ ops, cache_request cap arrival keys =
      Ok (recent cap (h ++ uses ops), ops, (count is_load ops, count is_store ops, count is_delete ops)) ∧
    (∀ k i, OpLoad k i ∈ ops ↔ ∃ j, i = Z.of_nat j ∧ keys !! j = Some k ∧ k ∈ arrival) ∧
    (∀ k i, OpStore k i ∈ ops ↔ ∃ j, i = Z.of_nat j ∧ keys !! j = Some k ∧ k ∉ arrival ∧
                                     ∀ j', (j' < j)%nat → keys !! j' ≠ Some k) ∧
    (length arrival ≤ length (recent cap (h ++ uses ops)))%nat ∧
    (∀ limit, (length (recent cap (h ++ uses ops)) ≤ limit)%nat →
       exec_ops limit (list_to_set arrival) ops = Some (list_to_set (recent cap (h ++ uses ops)))).
Proof.
  destruct (lookup_loop keys) as (l & El & Hl).
  assert (length (l_resident l) = length arrival) as Hlen.
  { apply Permutation_length, NoDup_Permutation; [|apply recent_NoDup|apply (lu_same _ _ Hl)].
    rewrite (lu_resident _ _ Hl). apply recent_NoDup. }
  destruct (insert_loop (l_ops l) (l_resident l)) with (misses := l_misses l) as (i & Ei & Hi).
  - apply (lu_resident _ _ Hl).
  - apply (lu_same _ _ Hl).
  - apply (lu_only _ _ Hl).
  - intros k j Hk. by apply (lu_hits _ _ Hl) in Hk as (? & _ & _ & ?).
  - rewrite <- (lu_new _ _ Hl). apply (lu_new_NoDup _ _ Hl).
  - intros k Hk. rewrite <- (lu_new _ _ Hl) in Hk. by apply (lu_new_elem _ _ Hl) in Hk as [_ ?].
  - exists (i_ops i). split_and!.
    + unfold cache_request. rewrite El. simpl. rewrite Ei. simpl.
      rewrite (in_resident _ _ _ _ Hi), (lu_loads _ _ Hl), (in_stores _ _ _ _ Hi), (in_evictions _ _ _ _ Hi).
      unfold count at 1 4. rewrite (in_loads _ _ _ _ Hi).
      rewrite (filter_loads is_load (l_ops l)); [done|apply (lu_only _ _ Hl)|done].
    + intros k j. rewrite <- (lu_hits _ _ Hl), <- (in_loads _ _ _ _ Hi), !list_elem_of_In, filter_In. naive_solver.
    + intros k j. rewrite <- (lu_misses _ _ Hl).
      transitivity (OpStore k j ∈ List.filter is_store (i_ops i)).
      { rewrite !list_elem_of_In, filter_In. naive_solver. }
      rewrite (in_stores_ops _ _ _ _ Hi), !list_elem_of_In, in_map_iff. unfold store_of. split.
      * intros ([i' k'] & [= -> ->] & ?). done.
      * intros ?. exists (j, k). done.
    + rewrite <- Hlen, <- (in_resident _ _ _ _ Hi). apply (in_grow _ _ _ _ Hi).
    + rewrite <- (in_resident _ _ _ _ Hi). apply (in_exec _ _ _ _ Hi).
Qed.
End request.

(** C12: the LMCache compiler is an exact LRU cache. A request on the cache that
    holds the [cap] most recently used chunks never raises; it loads exactly the
    chunks of the request that were present at arrival, stores exactly the first
    occurrence of every other chunk, and leaves the [cap] most recently used
    chunks, counting the uses in the order of its operations. *)
Theorem cache_request_lru cap h keys :
  0 ≤ cap →
  ∃ ops, cache_request cap (recent cap h) keys =
      Ok (recent cap (h ++ uses ops), ops, (count is_load ops, count is_store ops, count is_delete ops)) ∧
    (∀ k i, OpLoad k i ∈ ops ↔ ∃ j, i = Z.of_nat j ∧ keys !! j = Some k ∧ k ∈ recent cap h) ∧
    (∀ k i, OpStore k i ∈ ops ↔ ∃ j, i = Z.of_nat j ∧ keys !! j = Some k ∧ k ∉ recent cap h ∧
                                     ∀ j', (j' < j)%nat → keys !! j' ≠ Some k).
Proof.
  intros Hc. destruct (cache_request_spec cap h Hc keys) as (ops & H1 & H2 & H3 & _). eauto.
Qed.

Lemma cache_request_lru_witness :
  ∃ ops, cache_request 2 (recent 2 ["a"; "b"]) ["b"; "c"; "c"] =
    Ok (recent 2 (["a"; "b"] ++ uses ops), ops, (count is_load ops, count is_store ops, count is_delete ops)).
Proof. destruct (cache_request_lru 2 ["a"; "b"] ["b"; "c"; "c"]) as (ops & H & _); [lia|]. by exists ops. Defined.

(** The request of the witness: one load, one eviction, one store. *)
Example cache_request_ex :
  cache_request 2 ["a"; "b"] ["b"; "c"; "c"] =
  Ok (["b"; "c"], [OpLoad "b" 0; OpDelete "a"; OpStore "c" 1], (1, 1, 1)).
Proof. vm_compute. reflexivity. Qed.

(** ** Chunk names: 64 lower-case hexadecimal digits *)
Definition is_lower_hex (c : ascii) : bool :=
  ((48 <=? code c) && (code c <=? 57)) || ((97 <=? code c) && (code c <=? 102)).

Definition is_key (k : string) : bool := (String.length k =? 64)%nat && sforall is_lower_hex k.

(** [b.hex()] *)
Fixpoint to_hex (b : bytes) : string :=
  match b with [] => EmptyString | x :: b => hex2 x +:+ to_hex b end.

Lemma lower_hex_val c : is_lower_hex c = true →
  is_ascii_space c = false ∧ ∃ x, hex_val c = Some x ∧ 0 ≤ x < 16 ∧ hex_digit x = c.
Proof. destruct c as [[] [] [] [] [] [] [] []]; intros H; try discriminate H;
  (split; [done|]; eexists; split; [vm_compute; reflexivity|split; [split; [by vm_compute|done]|reflexivity]]). Qed.

Lemma hex_pairs_lower n s :
  (String.length s = 2 * n)%nat → sforall is_lower_hex s = true →
  ∃ b, hex_pairs s = Some b ∧ to_hex b = s.
Proof.
  revert s. induction n as [|n IH]; intros s Hl Hs.
  - destruct s; [|done]. by exists [].
  - destruct s as [|c [|d s]]; simpl in Hl; try lia. simpl in Hs.
    apply andb_true_iff in Hs as [Hc [Hd Hs]%andb_true_iff].
    destruct (IH s ltac:(lia) Hs) as (b & Hb & Hh).
    destruct (lower_hex_val c Hc) as (Hsp & x & Hx & Hxr & Hxc).
    destruct (lower_hex_val d Hd) as (_ & y & Hy & Hyr & Hyd).
    exists ((x * 16 + y) :: b). simpl. rewrite Hsp, Hx, Hy, Hb. split; [done|].
    unfold hex2. rewrite Hh. replace ((x * 16 + y) / 16) with x by (apply Z.div_unique with y; lia).
    replace ((x * 16 + y) mod 16) with y by (apply Z.mod_unique with x; lia).
    rewrite Hxc, Hyd. done.
Qed.

Lemma is_key_hex k : is_key k = true → ∃ b, fromhex k = Ok b ∧ to_hex b = k.
Proof.
  intros [Hl%Nat.eqb_eq Hs]%andb_true_iff. destruct (hex_pairs_lower 32 k Hl Hs) as (b & Hb & Hh).
  exists b. unfold fromhex. by rewrite Hb.
Qed.

Lemma check_key_ok what k : is_key k = true → check_key what (JStr k) = Ok tt.
Proof.
  intros Hk. destruct (is_key_hex k Hk) as (b & Hb & _). apply andb_true_iff in Hk as [Hl _].
  simpl. rewrite Hl. simpl. by rewrite Hb.
Qed.

(** ** What a compiled plan promises its executor *)

(** A request of a plan with the operations [ops]. *)
Definition request_shape (request : json) (ops : list cache_op) : Prop :=
  ∃ d, request = JObj d ∧ dget "operations" d = Some (JList (map op_json ops)) ∧
    dhas "request_index" d = true ∧ dhas "session" d = true ∧
    (∃ f, dget "offset_s" d = Some (JFloat f)) ∧
    (∃ n c, dget "input_tokens" d = Some (JInt n) ∧ dget "complete_chunks" d = Some (JInt c)).

Record plan_sound (plan : dict) (warm : list string) (opss : list (list cache_op)) (limit : nat) : Prop := {
  ps_version : dget "schema_version" plan = Some (JInt PLAN_VERSION);
  ps_kind : dget "kind" plan = Some (JStr PLAN_KIND);
  ps_chunk_tokens : ∃ z, dget "chunk_tokens" plan = Some (JInt z) ∧ 0 < z;
  ps_requests : ∃ reqs, dget "requests" plan = Some (JList reqs) ∧ reqs ≠ [] ∧ Forall2 request_shape reqs opss;
  ps_warm : dget "warm_keys" plan = Some (JList (map JStr warm));
  ps_warm_NoDup : NoDup warm;
  ps_room : (length warm ≤ limit)%nat;
  ps_exec : is_Some (exec_ops limit (list_to_set warm) (concat opss));
  ps_keys : Forall (λ k, is_key k = true) (warm ++ map op_key (concat opss));
  ps_summary : ∃ s, dget "summary" plan = Some (JObj s) ∧
    dget "max_resident_chunks" s = Some (JInt (Z.of_nat limit)) ∧
    dget "loads" s = Some (JInt (count is_load (concat opss))) ∧
    dget "stores" s = Some (JInt (count is_store (concat opss))) ∧
    dget "evictions" s = Some (JInt (count is_delete (concat opss))) }.

Lemma foldM_unit {A} (f : A → res unit) l :
  Forall (λ x, f x = Ok tt) l → foldM (λ _ x, f x) tt l = Ok tt.
Proof. induction 1 as [|x l Hx _ IH]; [done|]. simpl. by rewrite Hx. Qed.

Lemma check_operation_ok o : is_key (op_key o) = true → check_operation (op_json o) = Ok tt.
Proof. destruct o; simpl op_key; intros Hk; by apply (check_key_ok "chunk"). Qed.

Lemma getd_of_dget d k v : dget k d = Some v → getd d k = v.
Proof. unfold getd. by intros ->. Qed.

(** The validator accepts every sound plan. *)
Lemma validate_plan_sound plan warm opss limit :
  plan_sound plan warm opss limit → validate_plan plan = Ok tt.
Proof.
  intros [Hv Hk (z & Hc & Hz) (reqs & Hr & Hne & Hshape) Hw _ _ _ Hkeys _].
  apply Forall_app in Hkeys as [Hkw Hko]. unfold validate_plan.
  rewrite (getd_of_dget _ _ _ Hv), (getd_of_dget _ _ _ Hk), (getd_of_dget _ _ _ Hc),
    (getd_of_dget _ _ _ Hr), Hw.
  change (py_eq (JInt PLAN_VERSION) (JInt PLAN_VERSION) && eq_str (JStr PLAN_KIND) PLAN_KIND) with true.
  simpl raise_unless. simpl int_val. cbn [mbind res_bind].
  replace (z <=? 0) with false by lia. simpl raise_if. cbn [mbind res_bind].
  destruct reqs as [|r0 reqs]; [done|]. cbn [mbind res_bind default from_option id iterate].
  rewrite (foldM_unit (check_key "warm")).
  2:{ apply List.Forall_map. eapply Forall_impl; [exact Hkw|]. intros k. apply check_key_ok. }
  cbn [mbind res_bind]. apply (foldM_unit check_request). clear Hr Hne. revert Hko.
  induction Hshape as [|r ops rs opss (d & -> & Hd & _) _ IH]; intros Hko; constructor.
  - simpl concat in Hko. rewrite map_app in Hko. apply Forall_app in Hko as [Hko _].
    unfold check_request. simpl. rewrite (getd_of_dget _ _ _ Hd). apply foldM_unit.
    apply List.Forall_map. apply List.Forall_map in Hko.
    eapply Forall_impl; [exact Hko|]. intros o. apply check_operation_ok.
  - apply IH. simpl concat in Hko. rewrite map_app in Hko. by apply Forall_app in Hko as [_ ?].
Qed.

Lemma recency_elem k h : k ∈ recency h → k ∈ h.
Proof.
  induction h as [|x h IH] using rev_ind; [done|]. rewrite recency_snoc. unfold touch.
  rewrite !elem_of_app, list_elem_of_filter. intros [[_ ?]|?]; [left; auto|by right].
Qed.

Lemma recent_elem cap k h : k ∈ recent cap h → k ∈ h.
Proof.
  unfold recent. destruct (cap =? 0); [apply recency_elem|].
  intros Hk. apply recency_elem. eapply elem_of_submseteq; [exact Hk|]. apply sublist_submseteq, sublist_drop.
Qed.

Lemma uses_keys k ops : k ∈ uses ops → k ∈ map op_key ops.
Proof.
  unfold uses. rewrite !list_elem_of_In, !in_map_iff. setoid_rewrite filter_In. intros (o & <- & Ho & _). eauto.
Qed.

(** ** The compilers produce sound plans *)
Section compile.
Context (sha256 : bytes → string) (fromisoformat : string → res pyfloat) (encode : string → res (list json)).
Hypothesis sha256_hex : ∀ b, is_key (sha256 b) = true.

Lemma chunk_keys_hex policy pred chunks ks :
  chunk_keys sha256 policy pred chunks = Ok ks → Forall (λ k, is_key k = true) ks.
Proof.
  revert pred ks. induction chunks as [|c chunks IH]; intros pred ks H; simpl in H; res_inv; [constructor|].
  constructor; [|by eapply IH]. unfold _chunk_digest in E. res_inv. apply sha256_hex.
Qed.

(** What the LMCache compiler keeps true after some of the requests. *)
Record compiled (cap : Z) (opss : list (list cache_op)) (st : compile_state) : Prop := {
  co_resident : c_resident st = recent cap (uses (concat opss));
  co_exec : exec_ops (Z.to_nat (c_max_resident st)) ∅ (concat opss) = Some (list_to_set (c_resident st));
  co_max : Z.of_nat (length (c_resident st)) ≤ c_max_resident st;
  co_cap : 0 < cap → c_max_resident st ≤ cap;
  co_loads : c_loads st = count is_load (concat opss);
  co_stores : c_stores st = count is_store (concat opss);
  co_evictions : c_evictions st = count is_delete (concat opss);
  co_keys : Forall (λ k, is_key k = true) (map op_key (concat opss));
  co_shape : Forall2 request_shape (c_requests st) opss }.

Lemma elem_store_or_load (ops : list cache_op) (limit : nat) (s s' : gset string) (P : string → Prop) :
  exec_ops limit s ops = Some s' → (∀ k, k ∈ s → P k) →
  (∀ o, o ∈ ops → is_delete o = false → P (op_key o)) → Forall P (map op_key ops).
Proof.
  intros He Hs Ho. revert s He Hs. induction ops as [|o ops IH]; intros s He Hs; [constructor|].
  simpl in He. apply bind_Some in He as (s1 & H1 & He). simpl.
  assert (P (op_key o) ∧ ∀ k, k ∈ s1 → P k) as [Hp Hs1].
  { destruct o as [k i|k i|k]; simpl in H1; case_decide as Hd; try done; injection H1 as <-.
    - split; [by apply (Ho (OpLoad k i)); [left|]|done].
    - assert (P k) by (by apply (Ho (OpStore k i)); [left|]). split; [done|].
      intros k' [->%elem_of_singleton|?]%elem_of_union; [done|by apply Hs].
    - split; [by apply Hs|]. intros k' [? _]%elem_of_difference. by apply Hs. }
  constructor; [done|]. eapply IH; [|exact He|done]. intros o' ?. apply Ho. by right.
Qed.

Lemma compile_request_compiled a start cap opss st i tr st' :
  0 ≤ a_capacity_chunks a → cap = a_capacity_chunks a → compiled cap opss st →
  compile_request sha256 encode a start st i tr = Ok st' →
  ∃ ops, compiled cap (opss ++ [ops]) st'.
Proof.
  intros Hcap -> [Hr He Hm Hc Hl Hs Hev Hk Hsh] H. destruct tr as [ts record].
  unfold compile_request in H. apply bind_Ok in H as (text & _ & H). apply bind_Ok in H as (ids & _ & H).
  apply bind_Ok in H as (tok & _ & H). apply bind_Ok in H as (ks & Ek & H).
  apply chunk_keys_hex in Ek.
  destruct (cache_request_spec (a_capacity_chunks a) (uses (concat opss)) Hcap ks)
    as (ops & Hop & Hload & Hstore & Hgrow & Hexec).
  rewrite Hr, Hop in H. cbn [mbind res_bind] in H. apply Ok_inj in H. subst st'.
  set (r' := recent (a_capacity_chunks a) (uses (concat opss) ++ uses ops)) in *.
  exists ops. rewrite Hr in *.
  assert (concat (opss ++ [ops]) = concat opss ++ ops) as Hcat by (rewrite concat_app; simpl; by rewrite app_nil_r).
  constructor; rewrite ?Hcat; simpl.
  - by rewrite uses_app.
  - rewrite exec_ops_app. erewrite exec_ops_mono; [|..|exact He]; [|lia]. simpl. apply Hexec. lia.
  - lia.
  - intros H0. specialize (Hc H0).
    pose proof (recent_length (a_capacity_chunks a) (uses (concat opss) ++ uses ops) H0). fold r' in H. lia.
  - by rewrite count_app, Hl.
  - by rewrite count_app, Hs.
  - by rewrite count_app, Hev.
  - rewrite map_app. apply Forall_app. split; [done|].
    rewrite Forall_forall in Ek, Hk. eapply elem_store_or_load; [by apply (Hexec (length r'))| |].
    + intros k Hin. apply elem_of_list_to_set, recent_elem, uses_keys in Hin. by apply Hk.
    + intros [k j|k j|k] Hin Hd; [apply Hload in Hin as (j' & _ & Hin & _)|
        apply Hstore in Hin as (j' & _ & Hin & _)|done]; apply Ek; by eapply list_elem_of_lookup_2.
  - apply Forall2_app; [done|]. constructor; [|constructor].
    eexists. split; [reflexivity|]. repeat (split; [by eauto|]). by eauto.
Qed.

(** The LMCache compiler, whatever the tokenizer returns. *)
Lemma compile_lmcache_sound records files tokenizer a source plan :
  compile_lmcache_agent sha256 fromisoformat encode records files tokenizer a source = Ok plan →
  ∃ opss limit, plan_sound plan [] opss limit ∧
    (0 < a_capacity_chunks a → Z.of_nat limit ≤ a_capacity_chunks a) ∧
    dget "chunk_tokens" plan = Some (JInt (a_chunk_tokens a)).
Proof.
  unfold compile_lmcache_agent. intros H. apply bind_Ok in H as ([] & Hct & H).
  apply bind_Ok in H as ([] & _ & H). apply bind_Ok in H as ([] & Hcap & H).
  apply bind_Ok in H as ([] & _ & H). apply bind_Ok in H as (unsorted & _ & H).
  set (enriched := by_stamp unsorted) in *. apply bind_Ok in H as (fp & Hfirst & H).
  apply bind_Ok in H as (st & Hloop & H). apply bind_Ok in H as (lp & _ & H).
  apply raise_if_Ok' in Hct, Hcap. apply Ok_inj in H.
  assert (0 ≤ a_capacity_chunks a) as Hcap0 by lia.
  assert (∃ opss, length opss = length enriched ∧ compiled (a_capacity_chunks a) opss st) as (opss & Hlen & Hst).
  { revert Hloop. apply (foldiM_inv _ (λ pre s, ∃ opss, length opss = length pre ∧ compiled (a_capacity_chunks a) opss s)).
    - exists []. split; [done|]. constructor; simpl; try done; try lia; try constructor.
      unfold recent. by destruct (_ =? 0).
    - intros pre x s1 s2 (opss & Hl & Hs1) _ Hs2.
      destruct (compile_request_compiled _ _ _ opss _ _ _ _ Hcap0 eq_refl Hs1 Hs2) as (ops & Hs2').
      exists (opss ++ [ops]). split; [rewrite !length_app; simpl; lia|done]. }
  destruct Hst as [Hr He Hm Hc Hl Hs Hev Hk Hsh].
  exists opss, (Z.to_nat (c_max_resident st)). subst plan.
  split; [|split; [lia|reflexivity]]. constructor; try reflexivity.
  - eexists. split; [reflexivity|lia].
  - exists (c_requests st). split; [reflexivity|]. split; [|done].
    intros Hnil. rewrite Hnil in Hsh. apply Forall2_nil_inv_l in Hsh. subst opss.
    destruct enriched; [done|simpl in Hlen; lia].
  - constructor.
  - simpl. lia.
  - change (list_to_set [] : gset string) with (∅ : gset string). rewrite He. by eexists.
  - done.
  - eexists. split; [reflexivity|]. rewrite <- Hl, <- Hs, <- Hev.
    rewrite Z2Nat.id by (pose proof (Zle_0_nat (length (c_resident st))); lia). done.
Qed.
End compile.

Section tracelab.
Context (sha256 : bytes → string) (fromisoformat : string → res pyfloat).
Hypothesis sha256_hex : ∀ b, is_key (sha256 b) = true.

(** What the TraceLab compiler keeps true, after the operations [ops]: from
    the warm chunks and any set [X] of other chunks the operations run, and
    lead to the known chunks and [X]. *)
Record tracked (known warm : list string) (ops : list cache_op) : Prop := {
  tk_known : NoDup known;
  tk_warm : NoDup warm;
  tk_sub : ∀ k, k ∈ warm → k ∈ known;
  tk_keys : Forall (λ k, is_key k = true) known;
  tk_op_keys : ∀ o, o ∈ ops → op_key o ∈ known;
  tk_exec : ∀ (X : gset string) limit, list_to_set known ## X →
    (size (list_to_set known ∪ X : gset string) ≤ limit)%nat →
    exec_ops limit (list_to_set warm ∪ X) ops = Some (list_to_set known ∪ X);
  tk_nodelete : count is_delete ops = 0 }.

Lemma tracked_start : tracked [] [] [].
Proof. constructor; try done; try constructor. intros k Hk. by apply elem_of_nil in Hk. Qed.

Lemma add_key_new k s : k ∉ s → add_key k s = s ++ [k].
Proof. intros Hk. unfold add_key. by rewrite bool_decide_false. Qed.

Lemma NoDup_snoc (k : string) s : NoDup s → k ∉ s → NoDup (s ++ [k]).
Proof.
  intros Hs Hk. apply NoDup_app. split_and!; [done| |apply NoDup_singleton].
  intros x Hx Hin%list_elem_of_singleton. congruence.
Qed.

Lemma set_snoc (k : string) s : list_to_set (s ++ [k]) =@{gset string} list_to_set s ∪ {[k]}.
Proof. rewrite list_to_set_app_L. simpl. set_solver. Qed.

Lemma tracked_load_known known warm ops k i :
  tracked known warm ops → k ∈ known → tracked known warm (ops ++ [OpLoad k i]).
Proof.
  intros [H1 H2 H3 H4 H5 H6 H7] Hk. constructor; try done.
  - intros o [?| ->%list_elem_of_singleton]%elem_of_app; [auto|done].
  - intros X limit HX Hl. rewrite exec_ops_app, H6 by done. simpl.
    rewrite decide_True by set_solver. done.
  - rewrite count_snoc. simpl. lia.
Qed.

Lemma tracked_load_new known warm ops k i :
  tracked known warm ops → k ∉ known → is_key k = true →
  tracked (known ++ [k]) (warm ++ [k]) (ops ++ [OpLoad k i]).
Proof.
  intros [H1 H2 H3 H4 H5 H6 H7] Hk Hkey. constructor.
  - by apply NoDup_snoc.
  - apply NoDup_snoc; [done|auto].
  - intros k'. rewrite !elem_of_app. intros [?|?]; [left; auto|by right].
  - apply Forall_app. split; [done|]. by apply Forall_singleton.
  - intros o [?| ->%list_elem_of_singleton]%elem_of_app; rewrite elem_of_app; [left; auto|right; left].
  - intros X limit. rewrite !set_snoc. intros HX Hl.
    assert (list_to_set known ## {[k]} ∪ X) as HX'.
    { assert (k ∉@{gset string} list_to_set known) by (by rewrite elem_of_list_to_set). set_solver. }
    rewrite <- !(assoc_L (∪)) in *. rewrite exec_ops_app, H6 by done. simpl.
    rewrite decide_True by set_solver. done.
  - rewrite count_snoc. simpl. lia.
Qed.

Lemma tracked_store known warm ops k i :
  tracked known warm ops → k ∉ known → is_key k = true →
  tracked (known ++ [k]) warm (ops ++ [OpStore k i]).
Proof.
  intros [H1 H2 H3 H4 H5 H6 H7] Hk Hkey.
  assert (k ∉@{gset string} list_to_set known) as Hks by (by rewrite elem_of_list_to_set).
  constructor; try done.
  - by apply NoDup_snoc.
  - intros k' ?. rewrite elem_of_app. left. auto.
  - apply Forall_app. split; [done|]. by apply Forall_singleton.
  - intros o [?| ->%list_elem_of_singleton]%elem_of_app; rewrite elem_of_app; [left; auto|right; left].
  - intros X limit. rewrite !set_snoc. intros HX Hl.
    replace (list_to_set known ∪ {[k]} ∪ X) with ({[k]} ∪ (list_to_set known ∪ X)) in * by set_solver.
    assert (k ∉ list_to_set known ∪ X) as Hk' by set_solver.
    rewrite size_union, size_singleton in Hl by set_solver.
    rewrite exec_ops_app, H6; [|set_solver|lia]. simpl. rewrite decide_True by (split; [done|lia]). done.
  - rewrite count_snoc. simpl. lia.
Qed.

(** One round, from the counters of the previous ones. *)
Definition tracking (ops0 : list cache_op) (st : lab_state) : Prop :=
  tracked (t_known st) (t_warm st) (ops0 ++ t_ops st) ∧
  t_loads st = count is_load (ops0 ++ t_ops st) ∧ t_stores st = count is_store (ops0 ++ t_ops st).

Lemma fold_left_inv {A S} (f : S → A → S) (P : S → Prop) l s :
  P s → (∀ s x, P s → P (f s x)) → P (fold_left f l s).
Proof. intros H0 Hf. revert s H0. induction l as [|x l IH]; intros s H0; [done|]. simpl. auto. Qed.

Lemma lab_load_tracking ops0 session st i : tracking ops0 st → tracking ops0 (lab_load sha256 session st i).
Proof.
  intros (Ht & Hl & Hs). unfold tracking, lab_load. simpl.
  rewrite !app_assoc, !count_snoc. simpl. split; [|lia].
  case_bool_decide as Hk; simpl; [by apply tracked_load_known|].
  rewrite !add_key_new; [|intros ?; apply Hk; by eapply tk_sub|done].
  apply tracked_load_new; [done|done|apply sha256_hex].
Qed.

Lemma lab_store_tracking ops0 session st i : tracking ops0 st → tracking ops0 (lab_store sha256 session st i).
Proof.
  intros (Ht & Hl & Hs). unfold lab_store. case_bool_decide as Hk; [done|].
  unfold tracking. simpl. rewrite !app_assoc, !count_snoc. simpl. split; [|lia].
  rewrite add_key_new by done. apply tracked_store; [done|done|apply sha256_hex].
Qed.

Lemma lab_request_tracking ops0 session known warm loads stores p n :
  tracked known warm ops0 → loads = count is_load ops0 → stores = count is_store ops0 →
  tracking ops0 (lab_request sha256 session known warm loads stores p n).
Proof.
  intros Ht -> ->. unfold lab_request.
  apply (fold_left_inv _ (tracking ops0)); [|intros; by apply lab_store_tracking].
  apply (fold_left_inv _ (tracking ops0)); [|intros; by apply lab_load_tracking].
  unfold tracking. simpl. by rewrite app_nil_r.
Qed.

Lemma compile_tracelab_sound records files chunk_tokens provider source plan :
  compile_tracelab sha256 fromisoformat records files chunk_tokens provider source = Ok plan →
  ∃ warm opss limit, plan_sound plan warm opss limit ∧ dget "chunk_tokens" plan = Some (JInt chunk_tokens).
Proof.
  unfold compile_tracelab. intros H. apply bind_Ok in H as ([] & Hct & H).
  apply bind_Ok in H as (unsorted & _ & H). apply bind_Ok in H as ([] & _ & H).
  set (selected := by_stamp unsorted) in *. apply bind_Ok in H as (fp & Hfirst & H).
  apply bind_Ok in H as (st & Hloop & H). apply bind_Ok in H as (lp & _ & H).
  apply raise_if_Ok' in Hct. apply Ok_inj in H.
  assert (∃ opss, length opss = length selected ∧ tracked (s_known st) (s_warm st) (concat opss) ∧
    s_loads st = count is_load (concat opss) ∧ s_stores st = count is_store (concat opss) ∧
    Forall2 request_shape (s_requests st) opss) as (opss & Hlen & Ht & Hl & Hs & Hsh).
  { revert Hloop. apply (foldiM_inv _ (λ pre s, ∃ opss, length opss = length pre ∧
      tracked (s_known s) (s_warm s) (concat opss) ∧ s_loads s = count is_load (concat opss) ∧
      s_stores s = count is_store (concat opss) ∧ Forall2 request_shape (s_requests s) opss)).
    - exists []. split; [done|]. split; [apply tracked_start|]. split_and!; [done..|constructor].
    - intros pre [ts record] s1 s2 (opss & Hl & Ht & Hlo & Hst & Hsh) _ Hs2.
      unfold tracelab_request in Hs2. apply bind_Ok in Hs2 as (total & _ & Hs2).
      apply bind_Ok in Hs2 as (prefix & _ & Hs2). apply bind_Ok in Hs2 as ([] & _ & Hs2).
      apply Ok_inj in Hs2.
      match type of Hs2 with context [lab_request ?a ?b ?c ?d ?e ?f ?g ?h] =>
        destruct (lab_request_tracking (concat opss) b c d e f g h) as (Ht' & Hl' & Hs'); [done..|];
        set (r := lab_request a b c d e f g h) in * end.
      exists (opss ++ [t_ops r]). subst s2. rewrite concat_app. simpl. rewrite app_nil_r.
      split; [rewrite !length_app; simpl; lia|]. split_and!; [done..|].
      apply Forall2_app; [done|]. constructor; [|constructor].
      eexists. split; [reflexivity|]. repeat (split; [by eauto|]). by eauto. }
  destruct Ht as [H1 H2 H3 H4 H5 H6 H7].
  set (warm := stable_sort String.le (s_warm st)).
  assert (warm ≡ₚ s_warm st) as Hperm by (apply stable_sort_Permutation).
  assert (list_to_set warm =@{gset string} list_to_set (s_warm st)) as Hset
    by (apply leibniz_equiv; by rewrite Hperm).
  exists warm, opss, (length (s_known st)). subst plan. split; [|reflexivity].
  constructor; try reflexivity.
  - eexists. split; [reflexivity|lia].
  - exists (s_requests st). split; [reflexivity|]. split; [|done].
    intros Hnil. rewrite Hnil in Hsh. apply Forall2_nil_inv_l in Hsh. subst opss.
    destruct selected; [done|simpl in Hlen; lia].
  - by rewrite Hperm.
  - rewrite Hperm. apply submseteq_length. by apply NoDup_submseteq.
  - exists (list_to_set (s_known st)). rewrite Hset.
    rewrite <- (union_empty_r_L (list_to_set (s_warm st))), H6; [by rewrite union_empty_r_L|set_solver|].
    rewrite union_empty_r_L, size_list_to_set by done. done.
  - rewrite Forall_forall in H4 |- *. intros k [Hk|Hk]%elem_of_app; apply H4.
    + apply H3. by rewrite <- Hperm.
    + apply list_elem_of_In, in_map_iff in Hk as (o & <- & Ho). apply H5. by apply list_elem_of_In.
  - eexists. split; [reflexivity|]. by rewrite <- Hl, <- Hs, H7.
Qed.
End tracelab.
