(* ===== verification/AgentRun.v ===== *)
(** * Running request workloads ([tools/kvio/workload.py])

    The request reader, the request-size profile and the execution of an agent
    plan on a raw-block engine.  The engine (LMCache's [RawBlockCore], vendored)
    is an interface: its operations are a class, and what the runner relies on
    is the class [RawCoreLaws].  Plans of both compilers of [AgentTrace] run to
    their end on every such engine that has the announced capacity. *)

From stdpp Require Import prelude strings list numbers gmap sorting.
From Stdlib Require Import ZArith Lia Ascii.
From S2P Require Import Prelude PyText PyJson JsonText Intent ContentProfile AgentTrace AgentPlan.
Local Open Scope Z_scope.

(** ** Token counts of a request trace *)
Definition _TOKEN_FIELDS : list string := ["num_tokens"; "prompt_tokens"; "input_tokens"; "tokens"; "prompt_len"].

(** [isinstance(v, (int, float))] *)
Definition is_number (v : json) : bool := is_int v || is_bool v || is_float v.

Definition tokens_of_object (obj : json) : res Z :=
  values ← mapMR (get obj) _TOKEN_FIELDS;
  match List.filter is_number values with
  | v :: _ => py_int v
  | [] => Raise (Exn ValueError "{path}: trace record has no numeric token count; compile content traces with `kvio trace` and a pinned tokenizer")
  end.

(** The values yielded for the lines of the file. *)
Definition request_tokens_from_trace (lines : list string) : res (list Z) :=
  foldM (λ out line,
    let line := strip line in
    if String.eqb line EmptyString then Ok out else
    obj ← loads line;
    n ← (if is_number obj then py_int obj else tokens_of_object obj);
    Ok (out ++ [n])) [] lines.

(** ** Request-size profile *)

(** The bucket of a count: the first edge not below it. *)
Definition bucket (edges : list Z) (c : Z) : string :=
  match List.filter (λ e, c <=? e) edges with
  | e :: _ => "<= " +:+ str_of_Z e +:+ " chunks"
  | [] => "> " +:+ str_of_Z (List.last edges 0) +:+ " chunks"
  end.

Definition bump (k : string) (d : list (string * Z)) : list (string * Z) := dset k (default 0 (dget k d) + 1) d.

Definition histogram (counts edges : list Z) : list (string * Z) :=
  let buckets := fold_left (λ d e, dset ("<= " +:+ str_of_Z e +:+ " chunks") 0 d) edges [] in
  let buckets := dset ("> " +:+ str_of_Z (List.last edges 0) +:+ " chunks") 0 buckets in
  fold_left (λ d c, bump (bucket edges c) d) counts buckets.

(** ** The engine *)
Class RawCore (σ : Type) := {
  put_one : string → σ → bool * σ;                  (** [core.put_many([key], [src]).results[0]] *)
  load_one : string → σ → bool * σ;                 (** [core.load_many_into([key], [dst])[0]] *)
  delete_many : list string → σ → list bool * σ     (** [core.delete_many(keys, force=True)] *)
}.

(** What the engine promises for the objects it holds. *)
Class RawCoreLaws (σ : Type) `{RawCore σ} (held : σ → gset string) (slots : Z) := {
  put_new k c : k ∉ held c → Z.of_nat (size (held c)) < slots →
    ∃ c', put_one k c = (true, c') ∧ held c' = {[k]} ∪ held c;
  load_held k c : k ∈ held c → ∃ c', load_one k c = (true, c') ∧ held c' = held c;
  delete_held ks c : (∀ k, k ∈ ks → k ∈ held c) → NoDup ks →
    ∃ bs c', delete_many ks c = (bs, c') ∧ forallb id bs = true ∧ held c' = held c ∖ list_to_set ks
}.

(** ** Executing a plan *)

(** [slot = ((obj_bytes + header_bytes + (1 << 20) - 1) >> 20) << 20] *)
Definition slot_bytes (obj_bytes header_bytes : Z) : Z :=
  Z.shiftl (Z.shiftr (obj_bytes + header_bytes + Z.shiftl 1 20 - 1) 20) 20.

Section run.
Context {σ : Type} `{RawCore σ}.
(** [encode_object_key(ObjectKey(chunk_hash, model_name, kv_rank)).encoded] *)
Context (object_key : bytes → Z → string).
Context (ranks slot capacity : Z).

Definition rank_keys (chunk_key : json) : res (list string) :=
  chunk_hash ← match chunk_key with
               | JStr s => fromhex s
               | _ => Raise (Exn TypeError "fromhex() argument must be str")
               end;
  Ok (map (object_key chunk_hash) (seqZ 0 ranks)).

(** The engine and the counters of the loop: objects stored and loaded, and
    chunks stored, loaded and deleted. *)
Record run_state := {
  x_core : σ; x_stored : Z; x_loaded : Z; x_store_chunks : Z; x_load_chunks : Z; x_delete_chunks : Z }.

Definition rerr (m : string) : exn := Exn RuntimeError m.

(** The warm chunks are put before the timed part. *)
Definition precondition (c : σ) (chunk_key : json) : res σ :=
  keys ← rank_keys chunk_key;
  foldM (λ c key, let '(ok, c') := put_one key c in
                  raise_unless ok (rerr "failed to precondition an agent-plan warm chunk") ;; Ok c') c keys.

Definition store_object (st : run_state) (key : string) : res run_state :=
  let '(ok, c) := put_one key (x_core st) in
  raise_unless ok (rerr "agent plan store failed at request {request['request_index']}") ;;
  Ok {| x_core := c; x_stored := x_stored st + 1; x_loaded := x_loaded st; x_store_chunks := x_store_chunks st;
        x_load_chunks := x_load_chunks st; x_delete_chunks := x_delete_chunks st |}.

Definition load_object (st : run_state) (key : string) : res run_state :=
  let '(ok, c) := load_one key (x_core st) in
  raise_unless ok (rerr "agent plan load missed at request {request['request_index']}") ;;
  Ok {| x_core := c; x_stored := x_stored st; x_loaded := x_loaded st + 1; x_store_chunks := x_store_chunks st;
        x_load_chunks := x_load_chunks st; x_delete_chunks := x_delete_chunks st |}.

Definition run_operation (st : run_state) (operation : json) : res run_state :=
  keys ← (k ← item operation "chunk_key"; rank_keys k);
  op ← item operation "op";
  if eq_str op "delete" then
    let '(result, c) := delete_many keys (x_core st) in
    raise_unless (forallb id result) (rerr "agent plan eviction missed at request {request['request_index']}") ;;
    Ok {| x_core := c; x_stored := x_stored st; x_loaded := x_loaded st; x_store_chunks := x_store_chunks st;
          x_load_chunks := x_load_chunks st; x_delete_chunks := x_delete_chunks st + 1 |}
  else if eq_str op "store" then
    foldM store_object
      {| x_core := x_core st; x_stored := x_stored st; x_loaded := x_loaded st;
         x_store_chunks := x_store_chunks st + 1; x_load_chunks := x_load_chunks st;
         x_delete_chunks := x_delete_chunks st |} keys
  else
    foldM load_object
      {| x_core := x_core st; x_stored := x_stored st; x_loaded := x_loaded st;
         x_store_chunks := x_store_chunks st; x_load_chunks := x_load_chunks st + 1;
         x_delete_chunks := x_delete_chunks st |} keys.

(** A request; its arrival is paced by [offset_s] when a timing scale is set. *)
Definition run_request (st : run_state) (request : json) : res run_state :=
  item request "request_index" ;; item request "session" ;; item request "offset_s" ;;
  operations ← (v ← item request "operations"; iterate v);
  foldM run_operation st operations.

Definition run_agent_plan (plan : dict) (core : σ) : res run_state :=
  summary ← item (JObj plan) "summary";
  resident ← (v ← get_default summary "max_resident_chunks" (JInt 0); py_int v);
  let required := resident * ranks * slot + Z.shiftl 1 20 in
  raise_if (capacity <? required)
    (Exn SystemExit "agent plan needs up to {required} GiB of raw-block slots; --capacity-gb provides {args.capacity_gb} GiB") ;;
  warm ← iterate (default (JList []) (dget "warm_keys" plan));
  core ← foldM precondition core warm;
  requests ← (v ← item (JObj plan) "requests"; iterate v);
  foldM run_request
    {| x_core := core; x_stored := 0; x_loaded := 0; x_store_chunks := 0; x_load_chunks := 0;
       x_delete_chunks := 0 |} requests.
End run.
Arguments run_state : clear implicits.

(** ** Sound plans run to their end *)
Section correct.
Context {σ : Type} `{RawCore σ} (held : σ → gset string) (slots : Z) `{!RawCoreLaws σ held slots}.
Context (object_key : bytes → Z → string) (ranks slot capacity : Z).
Hypothesis object_key_inj : ∀ b1 r1 b2 r2, object_key b1 r1 = object_key b2 r2 → b1 = b2 ∧ r1 = r2.
Hypothesis ranks_pos : 0 < ranks.
Hypothesis slot_pos : 0 < slot.
Hypothesis slots_capacity : slots = (capacity - 2 ^ 20) / slot.

(** The objects of a chunk, one per rank. *)
Definition objects (k : string) : list string :=
  map (object_key (default [] (hex_pairs k))) (seqZ 0 ranks).

Definition images (s : gset string) : gset string := set_bind (λ k, list_to_set (objects k)) s.

Definition all_keys (s : gset string) : Prop := ∀ k, k ∈ s → is_key k = true.

Lemma hex_pairs_key k : is_key k = true → ∃ b, hex_pairs k = Some b ∧ to_hex b = k.
Proof.
  intros [Hl%Nat.eqb_eq Hs]%andb_true_iff. by apply (hex_pairs_lower 32).
Qed.

Lemma objects_disj k1 k2 e : is_key k1 = true → is_key k2 = true → e ∈ objects k1 → e ∈ objects k2 → k1 = k2.
Proof.
  intros (b1 & Hb1 & <-)%hex_pairs_key (b2 & Hb2 & <-)%hex_pairs_key. unfold objects. rewrite Hb1, Hb2. simpl.
  rewrite !list_elem_of_In, !in_map_iff. intros (r1 & <- & _) (r2 & [-> _]%object_key_inj & _). done.
Qed.

Lemma objects_NoDup k : NoDup (objects k).
Proof.
  unfold objects. apply NoDup_fmap_2; [|apply NoDup_seqZ]. intros r1 r2 Hr. by apply object_key_inj in Hr as [_ ?].
Qed.

Lemma objects_length k : length (objects k) = Z.to_nat ranks.
Proof. unfold objects. by rewrite length_map, length_seqZ. Qed.

Lemma elem_of_images e s : e ∈ images s ↔ ∃ k, k ∈ s ∧ e ∈ objects k.
Proof. unfold images. rewrite elem_of_set_bind. setoid_rewrite elem_of_list_to_set. done. Qed.

Lemma images_disj k s : is_key k = true → all_keys s → k ∉ s → ∀ e, e ∈ objects k → e ∉ images s.
Proof.
  intros Hk Hs Hn e He (k' & Hk' & He')%elem_of_images.
  rewrite (objects_disj k k' e) in Hn by eauto. done.
Qed.

Lemma images_insert k s : images ({[k]} ∪ s) = list_to_set (objects k) ∪ images s.
Proof.
  apply leibniz_equiv. intros e. rewrite elem_of_union, !elem_of_images, elem_of_list_to_set.
  set_solver.
Qed.

Lemma images_size s : all_keys s → Z.of_nat (size (images s)) = Z.of_nat (size s) * ranks.
Proof.
  induction s as [|k s Hk IH] using set_ind_L; intros Hs.
  - assert (images ∅ = ∅) as -> by (apply leibniz_equiv; intros e; rewrite elem_of_images; set_solver).
    by rewrite !size_empty.
  - assert (all_keys s) as Hs' by (intros ??; apply Hs; set_solver).
    rewrite images_insert, !size_union.
    + rewrite size_list_to_set, objects_length, size_singleton by apply objects_NoDup.
      specialize (IH Hs'). lia.
    + set_solver.
    + intros e He%elem_of_list_to_set Hin.
      eapply images_disj; [|exact Hs'|exact Hk|exact He|exact Hin]. apply Hs. set_solver.
Qed.

Lemma rank_keys_ok k : is_key k = true → rank_keys object_key ranks (JStr k) = Ok (objects k).
Proof.
  intros (b & Hb & _)%hex_pairs_key. unfold rank_keys, objects, fromhex. by rewrite Hb.
Qed.

(** Room for the objects of one more chunk. *)
Lemma room (s : gset string) (limit j : nat) :
  Z.of_nat limit * ranks * slot + 2 ^ 20 ≤ capacity → (size s < limit)%nat → (j < Z.to_nat ranks)%nat →
  all_keys s → Z.of_nat (size (images s)) + Z.of_nat j < slots.
Proof.
  intros Hc Hs Hj Hk. rewrite images_size, slots_capacity by done.
  assert (Z.of_nat limit * ranks ≤ (capacity - 2 ^ 20) / slot) by (apply Z.div_le_lower_bound; lia).
  nia.
Qed.

(** Putting the objects [l] of a chunk one by one. *)
Lemma put_loop {S} (core : S → σ) (step : S → string → res S) (l : list string) (st : S) (X : gset string) :
  (∀ s e c', put_one e (core s) = (true, c') → ∃ s', step s e = Ok s' ∧ core s' = c') →
  held (core st) = X → NoDup l → (∀ e, e ∈ l → e ∉ X) → Z.of_nat (size X) + Z.of_nat (length l) ≤ slots →
  ∃ st', foldM step st l = Ok st' ∧ held (core st') = list_to_set l ∪ X.
Proof.
  intros Hstep Hst Hnd Hl Hsz.
  destruct (foldM_total step (λ pre s, held (core s) = list_to_set pre ∪ X) st l) as (st' & ? & ?); eauto.
  - simpl. rewrite Hst. set_solver.
  - intros pre e post s -> Hs. apply NoDup_app in Hnd as (Hp & Hd & _).
    destruct (put_new (held := held) (slots := slots) e (core s)) as (c' & Hput & Hc').
    + rewrite Hs. intros [Hin%elem_of_list_to_set|Hin]%elem_of_union; [eapply Hd; [exact Hin|left]|].
      eapply Hl; [|exact Hin]. set_solver.
    + rewrite Hs, size_union, size_list_to_set by (done || (intros x Hx%elem_of_list_to_set; apply Hl; set_solver)).
      rewrite length_app in Hsz. simpl in Hsz. lia.
    + destruct (Hstep s e c' Hput) as (s' & Hs' & Hcore). exists s'. split; [done|].
      rewrite Hcore, Hc', Hs, list_to_set_app_L. simpl. set_solver.
Qed.

Lemma load_objects_ok l st : (∀ e, e ∈ l → e ∈ held (x_core st)) →
  ∃ st', foldM load_object st l = Ok st' ∧ held (x_core st') = held (x_core st) ∧
    x_stored st' = x_stored st ∧ x_loaded st' = x_loaded st + Z.of_nat (length l) ∧
    x_store_chunks st' = x_store_chunks st ∧ x_load_chunks st' = x_load_chunks st ∧
    x_delete_chunks st' = x_delete_chunks st.
Proof.
  revert st. induction l as [|e l IH]; intros st Hl; [exists st; repeat split; simpl; lia|].
  destruct (load_held (held := held) e (x_core st)) as (c' & Hc & Hh); [apply Hl; left|].
  simpl foldM. unfold load_object at 2. rewrite Hc. simpl.
  destruct (IH {| x_core := c'; x_stored := x_stored st; x_loaded := x_loaded st + 1;
                  x_store_chunks := x_store_chunks st; x_load_chunks := x_load_chunks st;
                  x_delete_chunks := x_delete_chunks st |}) as (st' & H1 & H2 & H3 & H4 & H5 & H6 & H7).
  { simpl. rewrite Hh. intros e' ?. apply Hl. by right. }
  exists st'. simpl in *. rewrite H2, Hh. repeat split; try done. lia.
Qed.

(** The objects of the present chunks are what the engine holds, and the
    counters tell the executed operations. *)
Definition in_step (s : gset string) (ops : list cache_op) (st : run_state σ) : Prop :=
  all_keys s ∧ held (x_core st) = images s ∧
  x_stored st = ranks * count is_store ops ∧ x_loaded st = ranks * count is_load ops ∧
  x_store_chunks st = count is_store ops ∧ x_load_chunks st = count is_load ops ∧
  x_delete_chunks st = count is_delete ops.

Lemma store_loop_counts l st st' : foldM store_object st l = Ok st' →
  x_stored st' = x_stored st + Z.of_nat (length l) ∧ x_loaded st' = x_loaded st ∧
  x_store_chunks st' = x_store_chunks st ∧ x_load_chunks st' = x_load_chunks st ∧
  x_delete_chunks st' = x_delete_chunks st.
Proof.
  revert st. induction l as [|e l IH]; intros st Hf; simpl in Hf; [res_inv; repeat split; simpl; lia|].
  apply bind_Ok in Hf as (st1 & H1 & Hf). apply IH in Hf as (-> & -> & -> & -> & ->).
  unfold store_object in H1. destruct (put_one e (x_core st)) as [ok c]. res_inv. simpl. repeat split; lia.
Qed.

Lemma objects_len_Z k : Z.of_nat (length (objects k)) = ranks.
Proof. rewrite objects_length. lia. Qed.

Lemma run_operation_ok limit s ops st o s' :
  Z.of_nat limit * ranks * slot + 2 ^ 20 ≤ capacity →
  in_step s ops st → is_key (op_key o) = true → exec_op limit s o = Some s' →
  ∃ st', run_operation object_key ranks st (op_json o) = Ok st' ∧ in_step s' (ops ++ [o]) st'.
Proof.
  intros Hcap (Hk & Hh & Hst & Hlo & Hsc & Hlc & Hdc) Hkey He.
  destruct o as [k i|k i|k]; simpl in He, Hkey; case_decide as Hd; try done; injection He as <-.
  - assert (run_operation object_key ranks st (op_json (OpLoad k i)) = foldM load_object
      {| x_core := x_core st; x_stored := x_stored st; x_loaded := x_loaded st;
         x_store_chunks := x_store_chunks st; x_load_chunks := x_load_chunks st + 1;
         x_delete_chunks := x_delete_chunks st |} (objects k)) as ->
      by (unfold run_operation; change (item (op_json (OpLoad k i)) "chunk_key") with (Ok (JStr k));
          cbn [mbind res_bind]; rewrite rank_keys_ok by done; done).
    match goal with |- ∃ _, foldM load_object ?s0 _ = _ ∧ _ =>
      destruct (load_objects_ok (objects k) s0) as (st' & H1 & H2 & H3 & H4 & H5 & H6 & H7) end.
    { simpl. intros e He. rewrite Hh. apply elem_of_images. eauto. }
    exists st'. split; [done|]. simpl in *. rewrite objects_len_Z in H4.
    unfold in_step. rewrite !count_snoc. simpl. split_and!; [done|congruence|lia..].
  - destruct Hd as [Hn Hl].
    assert (run_operation object_key ranks st (op_json (OpStore k i)) = foldM store_object
      {| x_core := x_core st; x_stored := x_stored st; x_loaded := x_loaded st;
         x_store_chunks := x_store_chunks st + 1; x_load_chunks := x_load_chunks st;
         x_delete_chunks := x_delete_chunks st |} (objects k)) as ->
      by (unfold run_operation; change (item (op_json (OpStore k i)) "chunk_key") with (Ok (JStr k));
          cbn [mbind res_bind]; rewrite rank_keys_ok by done; done).
    match goal with |- ∃ _, foldM store_object ?s0 _ = _ ∧ _ =>
      destruct (put_loop x_core store_object (objects k) s0 (images s)) as (st' & H1 & H2) end.
    + intros s1 e c' Hp. unfold store_object. rewrite Hp. simpl. eauto.
    + done.
    + apply objects_NoDup.
    + by apply images_disj.
    + pose proof (room s limit (Z.to_nat ranks - 1) Hcap Hl ltac:(lia) Hk). rewrite objects_length. lia.
    + exists st'. split; [done|]. pose proof (store_loop_counts _ _ _ H1) as (H3 & H4 & H5 & H6 & H7).
      simpl in *. rewrite objects_len_Z in H3. unfold in_step. rewrite !count_snoc. simpl.
      split_and!; [intros k' [->%elem_of_singleton|?]%elem_of_union; auto|by rewrite images_insert|lia..].
  - destruct (delete_held (held := held) (objects k) (x_core st)) as (bs & c' & Hdel & Hbs & Hh').
    { intros e He. rewrite Hh. apply elem_of_images. eauto. }
    { apply objects_NoDup. }
    eexists. split.
    { unfold run_operation. change (item (op_json (OpDelete k)) "chunk_key") with (Ok (JStr k)).
      cbn [mbind res_bind]. rewrite rank_keys_ok by done. cbn [mbind res_bind].
      change (item (op_json (OpDelete k)) "op") with (Ok (JStr "delete")). cbn [mbind res_bind].
      change (eq_str (JStr "delete") "delete") with true. cbn match.
      rewrite Hdel, Hbs. reflexivity. }
    unfold in_step. rewrite !count_snoc. simpl. split_and!; try lia.
    + intros k' [? _]%elem_of_difference. by apply Hk.
    + rewrite Hh', Hh. apply leibniz_equiv. intros e.
      rewrite elem_of_difference, elem_of_list_to_set, !elem_of_images. split.
      * intros [(k' & Hk' & He) Hne]. exists k'. split; [|done].
        apply elem_of_difference. split; [done|]. intros ->%elem_of_singleton. done.
      * intros (k' & [Hk' Hkk]%elem_of_difference & He). split; [eauto|].
        intros He'. apply Hkk, elem_of_singleton. by eapply objects_disj; eauto.
Qed.

Lemma run_ops_ok limit s ops0 st ops s' :
  Z.of_nat limit * ranks * slot + 2 ^ 20 ≤ capacity →
  in_step s ops0 st → Forall (λ k, is_key k = true) (map op_key ops) → exec_ops limit s ops = Some s' →
  ∃ st', foldM (run_operation object_key ranks) st (map op_json ops) = Ok st' ∧ in_step s' (ops0 ++ ops) st'.
Proof.
  intros Hcap. revert s ops0 st. induction ops as [|o ops IH]; intros s ops0 st Hin Hk He.
  - injection He as <-. exists st. by rewrite app_nil_r.
  - simpl in Hk, He. apply Forall_cons in Hk as [Hk1 Hk]. apply bind_Some in He as (s1 & H1 & He).
    destruct (run_operation_ok limit s ops0 st o s1) as (st1 & Hr & Hin1); [done..|].
    destruct (IH s1 (ops0 ++ [o]) st1) as (st' & Hf & Hin'); [done..|].
    exists st'. simpl. rewrite Hr. simpl. split; [done|]. by rewrite <- app_assoc in Hin'.
Qed.

Lemma run_requests_ok limit s ops0 st reqs opss s' :
  Z.of_nat limit * ranks * slot + 2 ^ 20 ≤ capacity →
  in_step s ops0 st → Forall2 request_shape reqs opss →
  Forall (λ k, is_key k = true) (map op_key (concat opss)) → exec_ops limit s (concat opss) = Some s' →
  ∃ st', foldM (run_request object_key ranks) st reqs = Ok st' ∧ in_step s' (ops0 ++ concat opss) st'.
Proof.
  intros Hcap Hin Hsh. revert s ops0 st Hin.
  induction Hsh as [|r ops reqs opss (d & -> & Hd & Hri & Hse & (f & Hof) & _) _ IH];
    intros s ops0 st Hin Hk He; simpl concat in *.
  - injection He as <-. exists st. by rewrite app_nil_r.
  - rewrite map_app in Hk. apply Forall_app in Hk as [Hk1 Hk2].
    rewrite exec_ops_app in He. apply bind_Some in He as (s1 & H1 & He).
    destruct (run_ops_ok limit s ops0 st ops s1) as (st1 & Hr & Hin1); [done..|].
    destruct (IH s1 (ops0 ++ ops) st1) as (st' & Hf & Hin'); [done..|].
    exists st'. rewrite <- app_assoc in Hin'. split; [|done].
    simpl foldM. unfold run_request at 2. unfold item. unfold dhas in Hri, Hse.
    destruct (dget "request_index" d); [|done]. destruct (dget "session" d); [|done].
    rewrite Hof, Hd. cbn [mbind res_bind iterate]. by rewrite Hr.
Qed.

Lemma precondition_ok limit warm c : held c = ∅ → NoDup warm → (length warm ≤ limit)%nat →
  Z.of_nat limit * ranks * slot + 2 ^ 20 ≤ capacity → Forall (λ k, is_key k = true) warm →
  ∃ c', foldM (precondition object_key ranks) c (map JStr warm) = Ok c' ∧ held c' = images (list_to_set warm).
Proof.
  intros Hc Hnd Hlen Hcap Hk. rewrite foldM_map.
  apply (foldM_total _ (λ pre c, held c = images (list_to_set pre))).
  - rewrite Hc. apply leibniz_equiv. intros e. rewrite elem_of_images. set_solver.
  - intros pre k post c1 -> Hc1. apply NoDup_app in Hnd as (Hp & Hd & _).
    apply Forall_app in Hk as [Hkp [Hkk _]%Forall_cons]. rewrite Forall_forall in Hkp.
    unfold precondition. rewrite rank_keys_ok by done. cbn [mbind res_bind].
    assert (all_keys (list_to_set pre)) as Hall by (intros x Hx%elem_of_list_to_set; auto).
    assert (k ∉@{gset string} list_to_set pre) as Hnk
      by (rewrite elem_of_list_to_set; intros Hin; eapply Hd; [exact Hin|left]).
    match goal with |- ∃ _, foldM ?f _ _ = _ ∧ _ =>
      destruct (put_loop id f (objects k) c1 (images (list_to_set pre))) as (c2 & H1 & H2) end.
    + intros s1 e c' Hput. simpl in Hput. rewrite Hput. simpl. eauto.
    + done.
    + apply objects_NoDup.
    + by apply images_disj.
    + assert (size (list_to_set pre : gset string) < limit)%nat as Hlt
        by (rewrite size_list_to_set by done; rewrite length_app in Hlen; simpl in Hlen; lia).
      pose proof (room _ limit (Z.to_nat ranks - 1) Hcap Hlt ltac:(lia) Hall). rewrite objects_length. lia.
    + exists c2. split; [done|]. simpl in H2. rewrite H2, <- images_insert, list_to_set_app_L. simpl.
      f_equal. set_solver.
Qed.

(** A sound plan runs on an empty engine; the chunk counters at the end are
    the numbers of its operations. *)
Lemma run_sound_plan plan warm opss limit c :
  plan_sound plan warm opss limit → held c = ∅ →
  Z.of_nat limit * ranks * slot + 2 ^ 20 ≤ capacity →
  ∃ st s, run_agent_plan object_key ranks slot capacity plan c = Ok st ∧
    exec_ops limit (list_to_set warm) (concat opss) = Some s ∧
    in_step s (concat opss) st.
Proof.
  intros [_ _ _ (reqs & Hr & _ & Hsh) Hw Hnd Hroom (s & He) Hk (sm & Hs & Hmax & _)] Hc Hcap.
  apply Forall_app in Hk as [Hkw Hko].
  destruct (precondition_ok limit warm c) as (c' & Hpre & Hc'); [done..|].
  destruct (run_requests_ok limit (list_to_set warm) []
    {| x_core := c'; x_stored := 0; x_loaded := 0; x_store_chunks := 0; x_load_chunks := 0; x_delete_chunks := 0 |}
    reqs opss s) as (st & Hst & Hin); [done| |done..|].
  { unfold in_step. simpl. rewrite Forall_forall in Hkw.
    split_and!; [intros k Hk%elem_of_list_to_set; auto|done|unfold count; simpl; lia..]. }
  exists st, s. split_and!; [|done|done].
  unfold run_agent_plan, item. rewrite Hs, Hr, Hw. cbn [mbind res_bind get_default]. rewrite Hmax.
  cbn [mbind res_bind default from_option id py_int iterate].
  change (Z.shiftl 1 20) with (2 ^ 20). rewrite (proj2 (Z.ltb_ge _ _) Hcap). simpl raise_if.
  cbn [mbind res_bind]. rewrite Hpre. cbn [mbind res_bind]. done.
Qed.
End correct.

(** A concrete engine: a bounded set of objects. *)
Definition set_core (slots : nat) : RawCore (gset string) := {|
  put_one k c := if decide (k ∈ c) then (true, c)
                 else if decide (size c < slots)%nat then (true, {[k]} ∪ c) else (false, c);
  load_one k c := (bool_decide (k ∈ c), c);
  delete_many ks c := (map (λ k, bool_decide (k ∈ c)) ks, c ∖ list_to_set ks) |}.

Lemma set_core_laws (slots : nat) : @RawCoreLaws _ (set_core slots) id (Z.of_nat slots).
Proof.
  constructor; simpl; intros.
  - rewrite decide_False, decide_True by (done || lia). eauto.
  - rewrite bool_decide_true by done. eauto.
  - eexists _, _. split_and!; [done| |done].
    rewrite forallb_forall. intros b (k & <- & Hk)%in_map_iff. apply bool_decide_true.
    apply H. by apply list_elem_of_In.
Qed.

(** C11: a plan of the LMCache compiler is accepted by the plan validator, never
    needs more than the configured capacity, and runs to its end on every
    lawful engine with room for [max_resident_chunks]: no load misses, no store
    fails, no eviction misses, and the chunks loaded, stored and deleted are the
    numbers of the plan's summary. *)
Theorem lmcache_plan_runs {σ} `{RawCore σ} held slots `{!RawCoreLaws σ held slots}
    sha256 fromisoformat encode object_key ranks slot capacity records files tokenizer a source plan c :
  (∀ b, is_key (sha256 b) = true) →
  (∀ b1 r1 b2 r2, object_key b1 r1 = object_key b2 r2 → b1 = b2 ∧ r1 = r2) →
  0 < ranks → 0 < slot → slots = (capacity - 2 ^ 20) / slot → held c = ∅ →
  compile_lmcache_agent sha256 fromisoformat encode records files tokenizer a source = Ok plan →
  validate_plan plan = Ok tt ∧
  ∃ summary loads stores evictions limit,
    dget "summary" plan = Some (JObj summary) ∧ dget "loads" summary = Some (JInt loads) ∧
    dget "stores" summary = Some (JInt stores) ∧ dget "evictions" summary = Some (JInt evictions) ∧
    dget "max_resident_chunks" summary = Some (JInt limit) ∧
    (0 < a_capacity_chunks a → limit ≤ a_capacity_chunks a) ∧
    (limit * ranks * slot + 2 ^ 20 ≤ capacity →
     ∃ st, run_agent_plan object_key ranks slot capacity plan c = Ok st ∧
       x_load_chunks st = loads ∧ x_store_chunks st = stores ∧ x_delete_chunks st = evictions ∧
       x_loaded st = ranks * loads ∧ x_stored st = ranks * stores).
Proof.
  intros Hsha Hobj Hr Hs Hslots Hc Hplan.
  destruct (compile_lmcache_sound _ _ _ Hsha _ _ _ _ _ _ Hplan) as (opss & limit & Hsound & Hlim & _).
  split; [by eapply validate_plan_sound|].
  destruct (ps_summary _ _ _ _ Hsound) as (sm & Hsm & Hmax & Hl & Hst & Hev).
  exists sm, (count is_load (concat opss)), (count is_store (concat opss)), (count is_delete (concat opss)), (Z.of_nat limit).
  split_and!; try done. intros Hcap.
  destruct (run_sound_plan held slots object_key ranks slot capacity Hobj Hr Hs Hslots _ _ _ _ c Hsound Hc Hcap)
    as (st & s & Hrun & _ & _ & _ & H1 & H2 & H3 & H4 & H5).
  exists st. by split_and!.
Qed.

(** the same for a plan of the TraceLab compiler, whose warm chunks are put
    before the timed part. *)
Theorem tracelab_plan_runs {σ} `{RawCore σ} held slots `{!RawCoreLaws σ held slots}
    sha256 fromisoformat object_key ranks slot capacity records files chunk_tokens provider source plan c :
  (∀ b, is_key (sha256 b) = true) →
  (∀ b1 r1 b2 r2, object_key b1 r1 = object_key b2 r2 → b1 = b2 ∧ r1 = r2) →
  0 < ranks → 0 < slot → slots = (capacity - 2 ^ 20) / slot → held c = ∅ →
  compile_tracelab sha256 fromisoformat records files chunk_tokens provider source = Ok plan →
  validate_plan plan = Ok tt ∧
  ∃ summary loads stores limit,
    dget "summary" plan = Some (JObj summary) ∧ dget "loads" summary = Some (JInt loads) ∧
    dget "stores" summary = Some (JInt stores) ∧ dget "max_resident_chunks" summary = Some (JInt limit) ∧
    (limit * ranks * slot + 2 ^ 20 ≤ capacity →
     ∃ st, run_agent_plan object_key ranks slot capacity plan c = Ok st ∧
       x_load_chunks st = loads ∧ x_store_chunks st = stores ∧
       x_loaded st = ranks * loads ∧ x_stored st = ranks * stores).
Proof.
  intros Hsha Hobj Hr Hs Hslots Hc Hplan.
  destruct (compile_tracelab_sound _ _ Hsha _ _ _ _ _ _ Hplan) as (warm & opss & limit & Hsound & _).
  split; [by eapply validate_plan_sound|].
  destruct (ps_summary _ _ _ _ Hsound) as (sm & Hsm & Hmax & Hl & Hst & Hev).
  exists sm, (count is_load (concat opss)), (count is_store (concat opss)), (Z.of_nat limit).
  split_and!; try done. intros Hcap.
  destruct (run_sound_plan held slots object_key ranks slot capacity Hobj Hr Hs Hslots _ _ _ _ c Hsound Hc Hcap)
    as (st & s & Hrun & _ & _ & _ & H1 & H2 & H3 & H4 & H5).
  exists st. by split_and!.
Qed.

(** ** Concrete instances *)

(** A stand-in for the digest: the byte sum in front of 31 zero bytes. *)
Definition sum_digest (b : bytes) : string := to_hex ((fold_right Z.add 0 b) mod 256 :: replicate 31 0).

Lemma hex2_lower x : 0 ≤ x < 256 → sforall is_lower_hex (hex2 x) = true.
Proof.
  intros Hx. assert (∀ d, 0 ≤ d < 16 → is_lower_hex (hex_digit d) = true) as Hd.
  { intros d Hd. unfold hex_digit, is_lower_hex. destruct (Z.ltb_spec d 10); rewrite code_chr by lia; lia. }
  unfold hex2. simpl. rewrite !Hd; [done| |].
  - apply Z.mod_pos_bound. lia.
  - split; [apply Z.div_pos; lia|apply Z.div_lt_upper_bound; lia].
Qed.

Lemma sum_digest_key b : is_key (sum_digest b) = true.
Proof.
  unfold sum_digest, is_key. pose proof (Z.mod_pos_bound (fold_right Z.add 0 b) 256 ltac:(lia)) as Hb.
  cbn [to_hex]. rewrite slen_app, sforall_app, hex2_lower by done. reflexivity.
Qed.

Definition pair_key (b : bytes) (r : Z) : string := str_of_Z (Z.pos (countable.encode (b, r))).

Lemma pair_key_inj b1 r1 b2 r2 : pair_key b1 r1 = pair_key b2 r2 → b1 = b2 ∧ r1 = r2.
Proof.
  unfold pair_key. intros Heq. assert (Z.pos (countable.encode (b1, r1)) = Z.pos (countable.encode (b2, r2))) as Hz.
  { apply Ok_inj. by rewrite <- !int_of_str_of_Z, Heq. }
  injection Hz as Hz. apply (inj countable.encode) in Hz. by injection Hz.
Qed.

Definition ex_record (line : Z) (stamp : Z) (fields : dict) : trace_record :=
  {| r_fields := ("session_id", JStr "s") :: ("timestamp", JInt stamp) :: fields;
     r_file := "t.jsonl"; r_line := line; r_ingest := line |}.

Definition ex_agent : list trace_record :=
  [ex_record 2 1700000002 [("input", JStr "aaccbb")]; ex_record 1 1700000001 [("input", JStr "aabb")]].

Definition ex_args : lmcache_args :=
  {| a_chunk_tokens := 2; a_policy := "substring"; a_capacity_chunks := 2; a_session_scope := "file" |}.

Definition ex_encode (text : string) : res (list json) := Ok (map JInt (ascii_bytes text)).

Definition no_iso (s : string) : res pyfloat := Raise (Exn ValueError "Invalid isoformat string").

Definition plan_of (r : res dict) : dict := match r with Ok p => p | Raise _ => [] end.

Definition ex_plan : dict :=
  plan_of (compile_lmcache_agent sum_digest no_iso ex_encode ex_agent [] JNull ex_args []).

Lemma lmcache_plan_runs_witness :
  compile_lmcache_agent sum_digest no_iso ex_encode ex_agent [] JNull ex_args [] = Ok ex_plan ∧
  validate_plan ex_plan = Ok tt.
Proof.
  assert (compile_lmcache_agent sum_digest no_iso ex_encode ex_agent [] JNull ex_args [] = Ok ex_plan) as Hc
    by (vm_compute; reflexivity).
  split; [exact Hc|].
  exact (proj1 (@lmcache_plan_runs _ (set_core 8) id 8 (set_core_laws 8) sum_digest no_iso ex_encode pair_key
    2 (2 ^ 20) (9 * 2 ^ 20) ex_agent [] JNull ex_args [] ex_plan ∅
    sum_digest_key pair_key_inj ltac:(lia) ltac:(lia) eq_refl eq_refl Hc)).
Defined.

(** The second request of the example finds both chunks of the first one, and
    evicts the older of the two for its new chunk. *)
Example ex_plan_run :
  match @run_agent_plan _ (set_core 8) pair_key 2 (2 ^ 20) (9 * 2 ^ 20) ex_plan ∅ with
  | Ok st => (x_load_chunks st, x_store_chunks st, x_delete_chunks st) = (2, 3, 1)
  | Raise _ => False
  end.
Proof. vm_compute. reflexivity. Qed.

Definition ex_rounds : list trace_record :=
  [ex_record 1 1700000001 [("provider", JStr "claude"); ("input_tokens_total", JInt 5); ("prefix_tokens", JInt 2);
     ("timing_events", JList [JObj [("timestamp", JInt 1700000001)]])];
   ex_record 2 1700000002 [("provider", JStr "claude"); ("input_tokens_total", JInt 8); ("prefix_tokens", JInt 4);
     ("timing_events", JList [JObj [("timestamp", JInt 1700000002)]])]].

Definition ex_lab_plan : dict := plan_of (compile_tracelab sum_digest no_iso ex_rounds [] 2 None []).

Lemma tracelab_plan_runs_witness :
  compile_tracelab sum_digest no_iso ex_rounds [] 2 None [] = Ok ex_lab_plan ∧
  validate_plan ex_lab_plan = Ok tt.
Proof.
  assert (compile_tracelab sum_digest no_iso ex_rounds [] 2 None [] = Ok ex_lab_plan) as Hc by (vm_compute; reflexivity).
  split; [exact Hc|].
  exact (proj1 (@tracelab_plan_runs _ (set_core 8) id 8 (set_core_laws 8) sum_digest no_iso pair_key
    2 (2 ^ 20) (9 * 2 ^ 20) ex_rounds [] 2 None [] ex_lab_plan ∅
    sum_digest_key pair_key_inj ltac:(lia) ltac:(lia) eq_refl eq_refl Hc)).
Defined.

(** The trace starts with one warm chunk; three loads and three stores. *)
Example ex_lab_plan_run :
  getd ex_lab_plan "warm_keys" <> JList [] ∧
  match @run_agent_plan _ (set_core 8) pair_key 2 (2 ^ 20) (9 * 2 ^ 20) ex_lab_plan ∅ with
  | Ok st => (x_load_chunks st, x_store_chunks st, x_delete_chunks st) = (3, 3, 0)
  | Raise _ => False
  end.
Proof. split; [by vm_compute|]. vm_compute. reflexivity. Qed.
