(* ===== verification/Release.v ===== *)
(** * Bounded result candidates ([tools/kvio/release.py])

    A result leaves the tool only as a document of a closed grammar, in a
    directory of exactly two files whose manifest binds the payload by size
    and digest.  The file models the grammar, the reader and writer of JSON
    files, [build_candidate] and [verify_candidate], over a small model of the
    file system.  SHA-256 is a parameter.

    Files hold bytes, one per character.  A document with a character above
    U+00FF, which the closed grammar always refuses, is refused here by the
    decoder of UTF-8. *)

From stdpp Require Import prelude strings list numbers gmap sorting.
From Stdlib Require Import ZArith Lia Ascii.
From S2P Require Import Prelude PyText PyJson JsonText CaptureFormat Intent.
Local Open Scope Z_scope.

Definition MAX_JSON_BYTES : Z := 64 * 1024.
Definition RESULT_SCHEMA : string := "kvio-bank-local-result-v1".
Definition MANIFEST_SCHEMA : string := "kvio-release-manifest-v1".
Definition PROFILE : string := "bank-local-results-v1".
Definition EXPECTED_FILES : list string := ["manifest.json"; "result.json"].

Definition QUESTIONS : list string :=
  ["restore-tail-latency"; "restore-throughput"; "same-device-interference"; "write-tail-latency"].
Definition METRICS : list string := ["p99-completion-latency"; "p99-probe-latency"; "throughput"].
Definition OUTCOMES : list string :=
  ["candidate-higher"; "candidate-lower"; "inconclusive"; "no-material-change"].
Definition RATIO_BANDS : list string :=
  ["below-0.80"; "0.80-to-0.90"; "0.90-to-0.95"; "0.95-to-1.05"; "1.05-to-1.10"; "1.10-to-1.20"; "above-1.20";
   "not-reported"].
Definition REPEAT_BANDS : list string := ["5-to-9"; "10-to-19"; "20-or-more"].
Definition WORKLOAD_EVIDENCE : list string := ["measured-capture"; "trace-derived"; "calibrated"; "synthetic"].
Definition TARGET_CLASSES : list string := ["local-nvme"; "network-block"; "other-storage"].
Definition RUNTIME_EVIDENCE : list string := ["fio-result-only"; "not-measured"; "re-recorded-device-stream"].
Definition DISCLOSURES : list string :=
  ["aggregate-comparison"; "coarse-ratio-band"; "storage-class"; "workload-class"].
Definition QUESTION_METRICS : list (string * string) :=
  [("restore-tail-latency", "p99-completion-latency"); ("restore-throughput", "throughput");
   ("same-device-interference", "p99-probe-latency"); ("write-tail-latency", "p99-completion-latency")].
Definition LOWER_BANDS : list string := ["below-0.80"; "0.80-to-0.90"; "0.90-to-0.95"].
Definition HIGHER_BANDS : list string := ["1.05-to-1.10"; "1.10-to-1.20"; "above-1.20"].

Definition relerr (code message : string) : exn := Exn (ReleaseError code) message.

(** ** Decoding *)

(** [raw.decode("utf-8")] for code points below 256. *)
Fixpoint utf8_decode (raw : string) : option string :=
  match raw with
  | EmptyString => Some EmptyString
  | String c t =>
      if code c <? 128 then String c <$> utf8_decode t
      else match t with
           | String d u =>
               if ((code c =? 194) || (code c =? 195)) && ((128 <=? code d) && (code d <? 192))
               then String (chr ((code c - 192) * 64 + (code d - 128))) <$> utf8_decode u
               else None
           | EmptyString => None
           end
  end.

Definition _decode_json (raw code : string) : res dict :=
  match utf8_decode raw with
  | None => Raise (relerr code "JSON file is not valid UTF-8")
  | Some text =>
      match loads_hook _unique_object text with
      | Ok (JObj document) => Ok document
      | Ok _ => Raise (relerr code "top-level JSON value must be an object")
      | Raise (Exn DuplicateKeyError _) => Raise (relerr code "JSON object contains a duplicate key")
      | Raise (Exn JSONDecodeError _) => Raise (relerr code "invalid JSON")
      | Raise e => Raise e
      end
  end.

(** ** The file system *)
Inductive leaf := LFile (content : string) | LDir | LSymlink | LSpecial.

Inductive node := NFile (content : string) | NDir (entries : list (string * leaf)) | NSymlink | NSpecial.

(** The nodes by path, whether directories can be created, and the space left
    for new files. *)
Record world := { w_nodes : list (string * node); w_can_mkdir : bool; w_space : Z }.

(** Reading an opened node, the common part of [_read_bytes] and
    [_read_bytes_at]: opening a symbolic link ([O_NOFOLLOW]), a directory or a
    missing name is an [OSError]. *)
Definition read_leaf (entry : option leaf) (code : string) : res string :=
  match entry with
  | Some (LFile content) =>
      raise_if (MAX_JSON_BYTES <? Z.of_nat (String.length content))
        (relerr code "JSON file exceeds the 64 KiB format limit") ;;
      Ok content
  | Some LSpecial => Raise (relerr code "expected a regular JSON file")
  | Some LDir | Some LSymlink | None => Raise (relerr code "cannot read a regular JSON file")
  end.

Definition leaf_of (n : node) : leaf :=
  match n with NFile c => LFile c | NDir _ => LDir | NSymlink => LSymlink | NSpecial => LSpecial end.

Definition _read_bytes (w : world) (path code : string) : res string :=
  read_leaf (leaf_of <$> dget path (w_nodes w)) code.

Definition _read_bytes_at (entries : list (string * leaf)) (name code : string) : res string :=
  read_leaf (dget name entries) code.

Definition _read_json (w : world) (path code : string) : res dict :=
  raw ← _read_bytes w path code;
  _decode_json raw code.

(** ** The closed grammar *)

(** [set(l) == expected] *)
Definition same_names (l expected : list string) : bool :=
  forallb (λ k, bool_decide (k ∈ expected)) l && forallb (λ k, bool_decide (k ∈ l)) expected.

Definition _require_fields (document : dict) (expected : list string) (code : string) : res unit :=
  raise_unless (same_names (keys document) expected)
    (relerr code "object fields do not match the closed grammar").

Definition _require_enum (value : json) (allowed : list string) (code : string) : res unit :=
  raise_unless (in_tuple value allowed) (relerr code "value is not in the supported enumeration").

Definition valid_outcome (outcome ratio_band : json) : bool :=
  (eq_str outcome "candidate-lower" && in_tuple ratio_band LOWER_BANDS)
  || (eq_str outcome "candidate-higher" && in_tuple ratio_band HIGHER_BANDS)
  || (eq_str outcome "no-material-change" && eq_str ratio_band "0.95-to-1.05")
  || (eq_str outcome "inconclusive" && eq_str ratio_band "not-reported").

Definition RESULT_FIELDS : list string :=
  ["schema"; "status"; "profile"; "question"; "comparison"; "conditions"; "residual_disclosures"].
Definition COMPARISON_FIELDS : list string := ["metric"; "outcome"; "ratio_band"; "repeat_count_band"].
Definition CONDITIONS_FIELDS : list string :=
  ["workload_evidence"; "offered_load"; "target_class"; "runtime_evidence"].

(** The comparison, of a result that asks [question]. *)
Definition validate_comparison (question comparison : json) : res unit :=
  match comparison with
  | JObj c =>
      _require_fields c COMPARISON_FIELDS "E_COMPARISON_FIELDS" ;;
      metric ← item (JObj c) "metric"; outcome ← item (JObj c) "outcome";
      ratio_band ← item (JObj c) "ratio_band"; repeat ← item (JObj c) "repeat_count_band";
      _require_enum metric METRICS "E_COMPARISON_METRIC" ;;
      _require_enum outcome OUTCOMES "E_COMPARISON_OUTCOME" ;;
      _require_enum ratio_band RATIO_BANDS "E_COMPARISON_RATIO_BAND" ;;
      _require_enum repeat REPEAT_BANDS "E_COMPARISON_REPEAT_BAND" ;;
      expected ← match question with
                 | JStr q => match dget q QUESTION_METRICS with
                             | Some m => Ok m
                             | None => Raise (Exn KeyError q)
                             end
                 | _ => Raise (Exn KeyError "question")
                 end;
      raise_unless (eq_str metric expected) (relerr "E_COMPARISON_QUESTION" "metric does not match the question") ;;
      raise_unless (valid_outcome outcome ratio_band)
        (relerr "E_COMPARISON_CONFLICT" "outcome and ratio band disagree")
  | _ => Raise (relerr "E_COMPARISON_TYPE" "comparison must be an object")
  end.

Definition validate_conditions (conditions : json) : res unit :=
  match conditions with
  | JObj c =>
      _require_fields c CONDITIONS_FIELDS "E_CONDITIONS_FIELDS" ;;
      evidence ← item (JObj c) "workload_evidence"; load ← item (JObj c) "offered_load";
      target ← item (JObj c) "target_class"; runtime ← item (JObj c) "runtime_evidence";
      _require_enum evidence WORKLOAD_EVIDENCE "E_CONDITIONS_WORKLOAD" ;;
      raise_unless (eq_str load "fixed") (relerr "E_CONDITIONS_LOAD" "v1 requires a fixed offered-load comparison") ;;
      _require_enum target TARGET_CLASSES "E_CONDITIONS_TARGET" ;;
      _require_enum runtime RUNTIME_EVIDENCE "E_CONDITIONS_RUNTIME"
  | _ => Raise (relerr "E_CONDITIONS_TYPE" "conditions must be an object")
  end.

Definition validate_disclosures (disclosures : json) : res unit :=
  match disclosures with
  | JList ((_ :: _) as l) =>
      raise_unless (forallb (λ v, in_tuple v DISCLOSURES) l)
        (relerr "E_DISCLOSURES_VALUE" "unsupported residual disclosure") ;;
      raise_unless (py_eq (JList l) (JList (map JStr (stable_sort String.le DISCLOSURES))))
        (relerr "E_DISCLOSURES_SET" "v1 requires its complete, sorted residual-disclosure set")
  | _ => Raise (relerr "E_DISCLOSURES_TYPE" "residual disclosures must be a non-empty list")
  end.

Definition validate_result (result : dict) : res unit :=
  _require_fields result RESULT_FIELDS "E_RESULT_FIELDS" ;;
  schema ← item (JObj result) "schema";
  raise_unless (eq_str schema RESULT_SCHEMA) (relerr "E_RESULT_SCHEMA" "unsupported result schema") ;;
  status ← item (JObj result) "status";
  raise_unless (eq_str status "draft")
    (relerr "E_RESULT_STATUS" "v1 builds draft candidates; authorization is external") ;;
  profile ← item (JObj result) "profile";
  raise_unless (eq_str profile PROFILE) (relerr "E_RESULT_PROFILE" "unsupported release profile") ;;
  question ← item (JObj result) "question";
  _require_enum question QUESTIONS "E_RESULT_QUESTION" ;;
  comparison ← item (JObj result) "comparison";
  validate_comparison question comparison ;;
  conditions ← item (JObj result) "conditions";
  validate_conditions conditions ;;
  disclosures ← item (JObj result) "residual_disclosures";
  validate_disclosures disclosures.

(** ** Building and verifying *)
Definition _json_bytes (document : dict) : string := dumps Indent2 (JObj document) +:+ LF.

(** [len(digest) == 64] and only the characters of a hexadecimal digest. *)
Definition hex_digest (s : string) : bool :=
  (String.length s =? 64)%nat && sforall (λ c, has_char (code c) "0123456789abcdef") s.

Section release.
(** [hashlib.sha256(data).hexdigest()] *)
Variable _sha256 : string → string.

(** [_write_new(target / name, content)]: the name must be new; without enough
    space an [OSError] leaves a partial file. *)
Definition _write_new (w : world) (target name content : string) : world * bool :=
  match dget target (w_nodes w) with
  | Some (NDir entries) =>
      if dhas name entries then (w, false) else
      let n := Z.of_nat (String.length content) in
      let fits := n <=? w_space w in
      let written := if fits then content else String.substring 0 (Z.to_nat (w_space w)) content in
      ({| w_nodes := dset target (NDir (entries ++ [(name, LFile written)])) (w_nodes w);
          w_can_mkdir := w_can_mkdir w; w_space := w_space w - Z.of_nat (String.length written) |}, fits)
  | _ => (w, false)
  end.

Definition manifest_of (result_bytes : string) : dict :=
  [("schema", JStr MANIFEST_SCHEMA); ("profile", JStr PROFILE);
   ("files", JList [JObj [("name", JStr "result.json");
                          ("bytes", JInt (Z.of_nat (String.length result_bytes)));
                          ("sha256", JStr (_sha256 result_bytes))]])].

Definition _validate_manifest (manifest : dict) (result_bytes : string) : res unit :=
  _require_fields manifest ["schema"; "profile"; "files"] "E_MANIFEST_FIELDS" ;;
  schema ← item (JObj manifest) "schema";
  raise_unless (eq_str schema MANIFEST_SCHEMA) (relerr "E_MANIFEST_SCHEMA" "unsupported manifest schema") ;;
  profile ← item (JObj manifest) "profile";
  raise_unless (eq_str profile PROFILE) (relerr "E_MANIFEST_PROFILE" "profile does not match v1") ;;
  files ← item (JObj manifest) "files";
  match files with
  | JList [JObj entry] =>
      _require_fields entry ["name"; "bytes"; "sha256"] "E_MANIFEST_ENTRY" ;;
      name ← item (JObj entry) "name";
      raise_unless (eq_str name "result.json") (relerr "E_MANIFEST_NAME" "unsupported payload name") ;;
      size ← item (JObj entry) "bytes";
      raise_unless (match size with JInt z => z =? Z.of_nat (String.length result_bytes) | _ => false end)
        (relerr "E_MANIFEST_SIZE" "payload size does not match") ;;
      digest ← item (JObj entry) "sha256";
      match digest with
      | JStr s =>
          raise_unless (hex_digest s)
            (relerr "E_MANIFEST_DIGEST" "invalid payload digest") ;;
          raise_unless (String.eqb s (_sha256 result_bytes))
            (relerr "E_MANIFEST_HASH" "payload digest does not match")
      | _ => Raise (relerr "E_MANIFEST_DIGEST" "invalid payload digest")
      end
  | JList [_] => Raise (relerr "E_MANIFEST_ENTRY" "file entry must be an object")
  | _ => Raise (relerr "E_MANIFEST_FILES" "manifest must name one payload")
  end.

Definition is_regular (l : leaf) : bool := match l with LFile _ => true | _ => false end.

Definition verdict_of (result : dict) : res dict :=
  disclosures ← item (JObj result) "residual_disclosures";
  Ok [("profile", JStr PROFILE); ("bundle_conformance", JStr "pass"); ("internal_evidence", JStr "not_checked");
      ("release_authorization", JStr "not_checked"); ("export_allowed", JBool false);
      ("residual_disclosures", disclosures)].

Definition verify_candidate (w : world) (bundle : string) : res dict :=
  entries ← match dget bundle (w_nodes w) with
            | Some (NDir entries) => Ok entries
            | _ => Raise (relerr "E_BUNDLE_TYPE" "bundle must be a real directory")
            end;
  raise_unless (same_names (keys entries) EXPECTED_FILES && (length entries =? length EXPECTED_FILES)%nat)
    (relerr "E_BUNDLE_INVENTORY" "bundle inventory does not match the profile") ;;
  raise_unless (forallb (λ e, is_regular e.2) entries)
    (relerr "E_BUNDLE_FILE_TYPE" "bundle entries must be regular files") ;;
  result_bytes ← _read_bytes_at entries "result.json" "E_RESULT";
  manifest_bytes ← _read_bytes_at entries "manifest.json" "E_MANIFEST";
  result ← _decode_json result_bytes "E_RESULT";
  manifest ← _decode_json manifest_bytes "E_MANIFEST";
  validate_result result ;;
  _validate_manifest manifest result_bytes ;;
  verdict_of result.

(** [target.mkdir(mode=0o700)] *)
Definition mkdir (w : world) (target : string) : res world :=
  if dhas target (w_nodes w) then Raise (relerr "E_OUTPUT_EXISTS" "output path already exists")
  else if w_can_mkdir w then
    Ok {| w_nodes := w_nodes w ++ [(target, NDir [])]; w_can_mkdir := w_can_mkdir w; w_space := w_space w |}
  else Raise (relerr "E_OUTPUT_CREATE" "cannot create output directory").

(** [build_candidate(input, target)], where [parent] is [target.parent]; the
    file system is returned with the verdict or the exception. *)
Definition build_candidate (w : world) (input parent target : string) : world * res dict :=
  match (result ← _read_json w input "E_INPUT"; validate_result result ;; Ok result) with
  | Raise e => (w, Raise e)
  | Ok result =>
      match dget parent (w_nodes w) with
      | Some (NDir _) =>
          let result_bytes := _json_bytes result in
          let manifest_bytes := _json_bytes (manifest_of result_bytes) in
          match mkdir w target with
          | Raise e => (w, Raise e)
          | Ok w1 =>
              let '(w2, ok1) := _write_new w1 target "result.json" result_bytes in
              let '(w3, ok2) := if ok1 then _write_new w2 target "manifest.json" manifest_bytes else (w2, false) in
              if ok1 && ok2 then (w3, verify_candidate w3 target)
              else (w3, Raise (relerr "E_OUTPUT_WRITE" "candidate output is incomplete; do not use it"))
          end
      | _ => (w, Raise (relerr "E_OUTPUT_PARENT" "output parent must be a directory"))
      end
  end.
End release.
