(* ===== verification/ReleaseCorrect.v ===== *)
(** * The release boundary

    The accepted results are finitely many documents up to the order of their
    fields, so a candidate carries a bounded amount of information; building a
    candidate yields a bundle that verifies, and a bundle that verifies has
    exactly the two bound files. *)

From stdpp Require Import prelude strings list numbers gmap sorting.
From Stdlib Require Import ZArith Lia Ascii.
From S2P Require Import Prelude PyText PyJson JsonText CaptureFormat Intent Release.
Local Open Scope Z_scope.

(** ** The accepted documents *)
Definition OUTCOME_BANDS : list (string * string) :=
  map (λ b, ("candidate-lower", b)) LOWER_BANDS ++ map (λ b, ("candidate-higher", b)) HIGHER_BANDS ++
  [("no-material-change", "0.95-to-1.05"); ("inconclusive", "not-reported")].

Definition canonical_comparison (metric : string) (ob : string * string) (repeat : string) : dict :=
  [("metric", JStr metric); ("outcome", JStr ob.1); ("ratio_band", JStr ob.2); ("repeat_count_band", JStr repeat)].

Definition canonical_conditions (evidence target runtime : string) : dict :=
  [("offered_load", JStr "fixed"); ("runtime_evidence", JStr runtime); ("target_class", JStr target);
   ("workload_evidence", JStr evidence)].

Definition canonical_result (qm ob : string * string) (repeat evidence target runtime : string) : dict :=
  [("comparison", JObj (canonical_comparison qm.2 ob repeat));
   ("conditions", JObj (canonical_conditions evidence target runtime));
   ("profile", JStr PROFILE); ("question", JStr qm.1);
   ("residual_disclosures", JList (map JStr DISCLOSURES));
   ("schema", JStr RESULT_SCHEMA); ("status", JStr "draft")].

Definition all_results : list dict :=
  qm ← QUESTION_METRICS; ob ← OUTCOME_BANDS; repeat ← REPEAT_BANDS; evidence ← WORKLOAD_EVIDENCE;
  target ← TARGET_CLASSES; runtime ← RUNTIME_EVIDENCE;
  [canonical_result qm ob repeat evidence target runtime].

Lemma elem_all_results qm ob repeat evidence target runtime :
  qm ∈ QUESTION_METRICS → ob ∈ OUTCOME_BANDS → repeat ∈ REPEAT_BANDS → evidence ∈ WORKLOAD_EVIDENCE →
  target ∈ TARGET_CLASSES → runtime ∈ RUNTIME_EVIDENCE →
  canonical_result qm ob repeat evidence target runtime ∈ all_results.
Proof.
  intros. unfold all_results.
  apply list_elem_of_bind. exists qm. split; [|done]. apply list_elem_of_bind. exists ob. split; [|done].
  apply list_elem_of_bind. exists repeat. split; [|done]. apply list_elem_of_bind. exists evidence. split; [|done].
  apply list_elem_of_bind. exists target. split; [|done]. apply list_elem_of_bind. exists runtime. split; [|done].
  left.
Qed.

Lemma all_results_count : length all_results = 3456%nat.
Proof. vm_compute. reflexivity. Qed.

(** Each of them is accepted. *)
Lemma canonical_comparison_ok :
  forallb (λ qm, forallb (λ ob, forallb (λ r,
    is_ok (validate_comparison (JStr qm.1) (JObj (canonical_comparison qm.2 ob r))))
    REPEAT_BANDS) OUTCOME_BANDS) QUESTION_METRICS = true.
Proof. vm_compute. reflexivity. Qed.

Lemma canonical_conditions_ok :
  forallb (λ e, forallb (λ t, forallb (λ r, is_ok (validate_conditions (JObj (canonical_conditions e t r))))
    RUNTIME_EVIDENCE) TARGET_CLASSES) WORKLOAD_EVIDENCE = true.
Proof. vm_compute. reflexivity. Qed.

Lemma forallb_elem {A} (p : A → bool) l x : forallb p l = true → x ∈ l → p x = true.
Proof. rewrite forallb_forall. intros Hl Hx. apply Hl. by apply list_elem_of_In. Qed.

Lemma is_ok_unit (r : res unit) : is_ok r = true → r = Ok tt.
Proof. by destruct r as [[]|]. Qed.

Lemma canonical_accepted qm ob repeat evidence target runtime :
  qm ∈ QUESTION_METRICS → ob ∈ OUTCOME_BANDS → repeat ∈ REPEAT_BANDS → evidence ∈ WORKLOAD_EVIDENCE →
  target ∈ TARGET_CLASSES → runtime ∈ RUNTIME_EVIDENCE →
  validate_result (canonical_result qm ob repeat evidence target runtime) = Ok tt.
Proof.
  intros Hq Ho Hr He Ht Hx.
  pose proof (forallb_elem _ _ _ (forallb_elem _ _ _ (forallb_elem _ _ _ canonical_comparison_ok Hq) Ho) Hr) as Hc.
  pose proof (forallb_elem _ _ _ (forallb_elem _ _ _ (forallb_elem _ _ _ canonical_conditions_ok He) Ht) Hx) as Hd.
  apply is_ok_unit in Hc, Hd.
  assert (_require_enum (JStr qm.1) QUESTIONS "E_RESULT_QUESTION" = Ok tt) as Hqe.
  { assert (forallb (λ qm, in_tuple (JStr qm.1) QUESTIONS) QUESTION_METRICS = true) as Hall by (vm_compute; reflexivity).
    unfold _require_enum. by rewrite (forallb_elem _ _ _ Hall Hq). }
  unfold validate_result. set (d := canonical_result _ _ _ _ _ _).
  change (item (JObj d) "schema") with (Ok (JStr RESULT_SCHEMA)).
  change (item (JObj d) "status") with (Ok (JStr "draft")).
  change (item (JObj d) "profile") with (Ok (JStr PROFILE)).
  change (item (JObj d) "question") with (Ok (JStr qm.1)).
  change (item (JObj d) "comparison") with (Ok (JObj (canonical_comparison qm.2 ob repeat))).
  change (item (JObj d) "conditions") with (Ok (JObj (canonical_conditions evidence target runtime))).
  change (item (JObj d) "residual_disclosures") with (Ok (JList (map JStr DISCLOSURES))).
  assert (_require_fields d RESULT_FIELDS "E_RESULT_FIELDS" = Ok tt) as -> by (vm_compute; reflexivity).
  cbn [mbind res_bind]. rewrite Hqe. change (eq_str (JStr ?x) ?x) with true.
  cbn [mbind res_bind raise_unless]. rewrite Hc. cbn [mbind res_bind]. rewrite Hd. vm_compute. reflexivity.
Qed.

(** ** Bounds on the written text *)
Fixpoint enc_bound (lvl : nat) (v : json) : nat :=
  match v with
  | JNull => 4
  | JBool _ => 5
  | JInt z => Z.to_nat (Z.log2 (Z.abs z)) + 2
  | JFloat _ => 0
  | JStr s => 6 * String.length s + 2
  | JList l => 6 + 4 * lvl + sum_list_with (λ x, enc_bound (S lvl) x + 4 + 2 * lvl) l
  | JObj d => 6 + 4 * lvl +
      sum_list_with (λ kv : string * json, 6 * String.length kv.1 + 2 + enc_bound (S lvl) kv.2 + 6 + 2 * lvl) d
  end%nat.

Lemma enc_char_len c : (String.length (enc_char c) ≤ 6)%nat.
Proof. destruct c as [[] [] [] [] [] [] [] []]; vm_compute; lia. Qed.

Lemma enc_str_len s : (String.length (enc_str s) ≤ 6 * String.length s + 2)%nat.
Proof.
  unfold enc_str. cbn [String.length].
  assert (String.length (enc_body s) ≤ 6 * String.length s + 1)%nat; [|lia].
  induction s as [|c s IH]; [done|]. cbn [enc_body String.length]. rewrite slen_app.
  pose proof (enc_char_len c). lia.
Qed.

Lemma dec_digits_len fuel n acc : (String.length (dec_digits fuel n acc) ≤ fuel + String.length acc)%nat.
Proof.
  revert n acc. induction fuel as [|fuel IH]; intros n acc; simpl; [lia|].
  destruct (n <? 10); simpl; [lia|]. etransitivity; [apply IH|]. simpl. lia.
Qed.

Lemma str_of_Z_len z : (String.length (str_of_Z z) ≤ Z.to_nat (Z.log2 (Z.abs z)) + 2)%nat.
Proof.
  assert (∀ n, (String.length (str_of_nat n) ≤ S (Z.to_nat (Z.log2 n)))%nat) as Hn.
  { intros n. unfold str_of_nat. etransitivity; [apply dec_digits_len|]. unfold dec_fuel. simpl. lia. }
  unfold str_of_Z. destruct (Z.ltb_spec z 0).
  - simpl. specialize (Hn (- z)). rewrite Z.abs_neq by lia. lia.
  - specialize (Hn z). rewrite Z.abs_eq by lia. lia.
Qed.

Lemma spaces_len n : String.length (spaces n) = n.
Proof. induction n; simpl; congruence. Qed.

Lemma nl_len lvl : String.length (nl Indent2 lvl) = (1 + 2 * lvl)%nat.
Proof. unfold nl. rewrite slen_app, spaces_len. done. Qed.

Lemma sum_map_bound {A} (f : A → string) (g : A → nat) (sep : nat) (l : list A) :
  Forall (λ x, (String.length (f x) + sep ≤ g x)%nat) l →
  (sum_list_with String.length (map f l) + (length (map f l) - 1) * sep ≤ sum_list_with g l)%nat.
Proof.
  intros Hl. enough (sum_list_with String.length (map f l) + length l * sep ≤ sum_list_with g l)%nat
    by (rewrite length_map; nia).
  induction Hl as [|x l Hx _ IH]; simpl; lia.
Qed.

Lemma enc_len v : ∀ lvl, float_free v = true → (String.length (enc Indent2 lvl v) ≤ enc_bound lvl v)%nat.
Proof.
  induction v as [|b|z|f|s|l IH|d IH] using json_ind'; intros lvl Hf; try done.
  - by destruct b; simpl; lia.
  - apply str_of_Z_len.
  - apply enc_str_len.
  - destruct l as [|x l]; [simpl; lia|].
    cbn [enc]. rewrite !slen_app, <- slen_join, !nl_len. cbn [enc_bound].
    change (ws_item Indent2 (S lvl)) with (nl Indent2 (S lvl)). rewrite slen_app, nl_len.
    pose proof (sum_map_bound (enc Indent2 (S lvl)) (λ x, enc_bound (S lvl) x + 4 + 2 * lvl)%nat (4 + 2 * lvl) (x :: l)) as Hs.
    cbn [float_free] in Hf. ospecialize (Hs _).
    { rewrite Forall_forall in IH |- *. intros y Hy. specialize (IH y Hy (S lvl) (forallb_elem _ _ _ Hf Hy)). lia. }
    change (String.length ",") with 1%nat. change (String.length "[") with 1%nat. change (String.length "]") with 1%nat.
    replace (1 + (1 + 2 * S lvl))%nat with (4 + 2 * lvl)%nat by lia. lia.
  - destruct d as [|x d]; [simpl; lia|].
    cbn [enc]. rewrite !slen_app, <- slen_join, !nl_len. cbn [enc_bound].
    change (ws_item Indent2 (S lvl)) with (nl Indent2 (S lvl)). rewrite slen_app, nl_len.
    pose proof (sum_map_bound (λ kv : string * json, enc_str kv.1 +:+ ":" +:+ ws_key Indent2 +:+ enc Indent2 (S lvl) kv.2)
      (λ kv, 6 * String.length kv.1 + 2 + enc_bound (S lvl) kv.2 + 6 + 2 * lvl)%nat (4 + 2 * lvl) (x :: d)) as Hs.
    cbn [float_free] in Hf. ospecialize (Hs _).
    { rewrite Forall_forall in IH |- *. intros y Hy. specialize (IH y Hy (S lvl) (forallb_elem _ _ _ Hf Hy)).
      rewrite !slen_app. pose proof (enc_str_len y.1).
      change (String.length ":") with 1%nat. change (String.length (ws_key Indent2)) with 1%nat. lia. }
    change (String.length ",") with 1%nat. change (String.length "{") with 1%nat. change (String.length "}") with 1%nat.
    replace (1 + (1 + 2 * S lvl))%nat with (4 + 2 * lvl)%nat by lia. lia.
Qed.

(** The written text is ASCII, so its bytes are its characters. *)
Definition is_ascii (c : ascii) : bool := code c <? 128.

Lemma utf8_decode_ascii s : sforall is_ascii s = true → utf8_decode s = Some s.
Proof.
  induction s as [|c s IH]; [done|]. simpl. unfold is_ascii at 1. intros [-> Hs]%andb_true_iff. by rewrite IH.
Qed.

Lemma enc_str_ascii s : sforall is_ascii (enc_str s) = true.
Proof.
  unfold enc_str. simpl. induction s as [|c s IH]; [done|]. cbn [enc_body]. rewrite sforall_app, IH, andb_true_r.
  destruct c as [[] [] [] [] [] [] [] []]; reflexivity.
Qed.

Lemma str_of_Z_ascii z : sforall is_ascii (str_of_Z z) = true.
Proof.
  assert (∀ n, 0 ≤ n → sforall is_ascii (str_of_nat n) = true) as Hn.
  { intros n Hn. apply (sforall_impl is_digit09); [|by apply str_of_nat_digits].
    intros c. unfold is_digit09, is_ascii. lia. }
  unfold str_of_Z. destruct (Z.ltb_spec z 0); [|by apply Hn]. simpl. apply Hn. lia.
Qed.

Lemma join_ascii sep l : sforall is_ascii sep = true → Forall (λ s, sforall is_ascii s = true) l →
  sforall is_ascii (py_join sep l) = true.
Proof.
  intros Hsep. induction 1 as [|x l Hx Hl IH]; [done|]. destruct l as [|y l]; [done|].
  rewrite py_join_cons, !sforall_app, Hx, Hsep. by rewrite IH.
Qed.

Lemma nl_ascii st lvl : sforall is_ascii (nl st lvl) = true.
Proof.
  destruct st; try done. unfold nl. rewrite sforall_app. simpl.
  induction (lvl + (lvl + 0))%nat; done.
Qed.

Lemma enc_ascii v : ∀ lvl, float_free v = true → sforall is_ascii (enc Indent2 lvl v) = true.
Proof.
  induction v as [|b|z|f|s|l IH|d IH] using json_ind'; intros lvl Hf; try done.
  - by destruct b.
  - apply str_of_Z_ascii.
  - apply enc_str_ascii.
  - destruct l as [|x l]; [done|]. cbn [enc float_free] in *. rewrite !sforall_app, !nl_ascii, join_ascii.
    + done.
    + exact (nl_ascii Indent2 (S lvl)).
    + rewrite Forall_forall in IH. apply List.Forall_map, Forall_forall. intros y Hy.
      apply IH; [done|]. by apply (forallb_elem _ _ _ Hf).
  - destruct d as [|x d]; [done|]. cbn [enc float_free] in *. rewrite !sforall_app, !nl_ascii, join_ascii.
    + done.
    + exact (nl_ascii Indent2 (S lvl)).
    + rewrite Forall_forall in IH. apply List.Forall_map, Forall_forall. intros y Hy.
      rewrite !sforall_app, enc_str_ascii, IH; [done|done|]. by apply (forallb_elem _ _ _ Hf).
Qed.

(** ** Dictionaries with the same entries sort to the same document *)
Lemma dget_map_sorted k d :
  dget k (map (λ kv : string * json, (kv.1, sort_keys kv.2)) d) = sort_keys <$> dget k d.
Proof. induction d as [|[k' v] d IH]; [done|]. simpl. by destruct (String.eqb k k'). Qed.

Lemma keys_map_sorted d : keys (map (λ kv : string * json, (kv.1, sort_keys kv.2)) d) = keys d.
Proof. unfold keys. by rewrite map_map. Qed.

Lemma stable_sort_ext (d e : dict) :
  NoDup (keys d) → NoDup (keys e) → (∀ k, dget k d = dget k e) →
  stable_sort key_le d = stable_sort key_le e.
Proof.
  intros Hd He Heq.
  assert (NoDup d) as Hnd by (by eapply NoDup_fmap_1).
  assert (NoDup e) as Hne by (by eapply NoDup_fmap_1).
  assert (d ≡ₚ e) as Hp.
  { apply NoDup_Permutation; [done..|]. intros [k v]. split; intros Hin.
    - apply dget_Some_In. rewrite <- Heq. by apply dget_NoDup.
    - apply dget_Some_In. rewrite Heq. by apply dget_NoDup. }
  apply (StronglySorted_unique_strong key_le); [|apply (StronglySorted_stable_sort _)..|by rewrite !stable_sort_Permutation].
  intros [k1 v1] [k2 v2] H1 H2 H12 H21. rewrite stable_sort_Permutation in H1, H2.
  unfold key_le in *. simpl in *. assert (k1 = k2) as -> by (by apply (anti_symm String.le)).
  f_equal. apply dget_NoDup in H1, H2; [|done..]. rewrite Heq in H1. congruence.
Qed.

Lemma sort_keys_ext (d e : dict) :
  NoDup (keys d) → NoDup (keys e) → (∀ k, sort_keys <$> dget k d = sort_keys <$> dget k e) →
  sort_keys (JObj d) = sort_keys (JObj e).
Proof.
  intros Hd He Heq. cbn [sort_keys]. f_equal. apply stable_sort_ext.
  - by rewrite keys_map_sorted.
  - by rewrite keys_map_sorted.
  - intros k. by rewrite !dget_map_sorted.
Qed.

(** [d] has exactly the fields of [e], with the same values once sorted. *)
Lemma sort_keys_fields (d e : dict) (fields : list string) :
  NoDup (keys d) → NoDup (keys e) → same_names (keys d) fields = true → same_names (keys e) fields = true →
  Forall (λ k, sort_keys <$> dget k d = sort_keys <$> dget k e) fields →
  sort_keys (JObj d) = sort_keys (JObj e).
Proof.
  intros Hd He Hfd Hfe Hall. apply sort_keys_ext; [done..|]. intros k.
  destruct (decide (k ∈ fields)) as [Hk|Hk]; [rewrite Forall_forall in Hall; by apply Hall|].
  assert (∀ l, same_names l fields = true → k ∉ l) as Hno.
  { intros l [Hl _]%andb_true_iff Hin. apply Hk. rewrite forallb_forall in Hl.
    apply list_elem_of_In, Hl in Hin. by apply bool_decide_eq_true in Hin. }
  apply Hno, dget_None_keys in Hfd, Hfe. by rewrite Hfd, Hfe.
Qed.

Lemma item_dget d k v : item (JObj d) k = Ok v ↔ dget k d = Some v.
Proof. unfold item. destruct (dget k d); split; congruence. Qed.

(** [str_inv]: turn the successful string tests of the hypotheses into equations. *)
Ltac str_inv :=
  repeat match goal with
  | H : item (JObj _) _ = Ok _ |- _ => apply item_dget in H
  | H : eq_str _ _ = true |- _ => apply eq_str_true in H; subst
  | H : _require_enum _ _ _ = Ok _ |- _ => apply raise_unless_Ok', in_tuple_true in H as (? & -> & H)
  | H : _require_fields _ _ _ = Ok _ |- _ => apply raise_unless_Ok' in H
  end.

Lemma valid_outcome_bands o b :
  valid_outcome (JStr o) (JStr b) = true → (o, b) ∈ OUTCOME_BANDS.
Proof.
  unfold valid_outcome. rewrite !orb_true_iff, !andb_true_iff, !in_tuple_true, !eq_str_true.
  assert (∀ (l : list string) x, (∃ s, JStr x = JStr s ∧ s ∈ l) → x ∈ l) as Hin by (by intros l x (s & [= ->] & ?)).
  unfold OUTCOME_BANDS. rewrite !elem_of_app, !list_elem_of_In, !in_map_iff. setoid_rewrite <- list_elem_of_In.
  intros [[[[[= ->] Hb%Hin]|[[= ->] Hb%Hin]]|[[= ->] [= ->]]]|[[= ->] [= ->]]].
  - left. eauto.
  - right; left. eauto.
  - right; right. left.
  - right; right. right. left.
Qed.

Lemma validate_comparison_Ok question v :
  json_wf v → validate_comparison question v = Ok tt →
  ∃ q m ob r, question = JStr q ∧ dget q QUESTION_METRICS = Some m ∧ ob ∈ OUTCOME_BANDS ∧ r ∈ REPEAT_BANDS ∧
    sort_keys v = sort_keys (JObj (canonical_comparison m ob r)).
Proof.
  intros Hwf H. destruct v as [| | | | | |c]; try done. cbn [validate_comparison] in H.
  apply json_wf_obj in Hwf as [Hnd _].
  destruct question as [| | | |q| |]; try (by res_inv).
  destruct (dget q QUESTION_METRICS) as [m|] eqn:Em; [|by res_inv].
  res_inv. str_inv. exists q.
  match goal with Em : dget q QUESTION_METRICS = Some ?m, Ho : dget "outcome" c = Some (JStr ?o), Hb : dget "ratio_band" c = Some (JStr ?b),
    Hr : dget "repeat_count_band" c = Some (JStr ?r) |- _ => exists m, (o, b), r end.
  split_and!; [done|done|by apply valid_outcome_bands|done|].
  apply (sort_keys_fields _ _ COMPARISON_FIELDS); [done| |done|done|].
  - apply (bool_decide_unpack _). by vm_compute.
  - repeat (constructor; [by match goal with Hx : dget _ _ = Some _ |- _ => rewrite Hx end|]). constructor.
Qed.

Lemma validate_conditions_Ok v :
  json_wf v → validate_conditions v = Ok tt →
  ∃ e t r, e ∈ WORKLOAD_EVIDENCE ∧ t ∈ TARGET_CLASSES ∧ r ∈ RUNTIME_EVIDENCE ∧
    sort_keys v = sort_keys (JObj (canonical_conditions e t r)).
Proof.
  intros Hwf H. destruct v as [| | | | | |c]; try done. cbn [validate_conditions] in H.
  apply json_wf_obj in Hwf as [Hnd _]. res_inv. str_inv.
  match goal with He : dget "workload_evidence" c = Some (JStr ?e), Ht : dget "target_class" c = Some (JStr ?t),
    Hr : dget "runtime_evidence" c = Some (JStr ?r) |- _ => exists e, t, r end.
  split_and!; [done..|].
  apply (sort_keys_fields _ _ CONDITIONS_FIELDS); [done| |done|done|].
  - apply (bool_decide_unpack _). by vm_compute.
  - repeat (constructor; [by match goal with Hx : dget _ _ = Some _ |- _ => rewrite Hx end|]). constructor.
Qed.

Lemma validate_disclosures_Ok v :
  validate_disclosures v = Ok tt → v = JList (map JStr DISCLOSURES).
Proof.
  intros H. destruct v as [| | | | |l|]; try done. destruct l as [|x l]; [done|].
  cbn [validate_disclosures] in H. apply bind_Ok in H as ([] & Hall & H).
  apply raise_unless_Ok' in Hall, H.
  change (map JStr (stable_sort String.le DISCLOSURES)) with (map JStr DISCLOSURES) in H.
  assert (∀ l k, py_eqc (JList l) (JList (map JStr k)) = true → l = map JStr k) as Heq.
  { clear. induction l as [|y l IH]; intros [|s k] H; try done. simpl in H.
    apply andb_true_iff in H as [Hy H]. simpl. f_equal; [|by apply IH].
    destruct y; simpl in Hy; try done; try (by destruct f). by apply String.eqb_eq in Hy as ->. }
  f_equal. by apply Heq.
Qed.

(** The accepted results, up to the order of the fields. *)
Lemma validate_result_Ok d :
  json_wf (JObj d) → validate_result d = Ok tt →
  ∃ qm ob r e t x, qm ∈ QUESTION_METRICS ∧ ob ∈ OUTCOME_BANDS ∧ r ∈ REPEAT_BANDS ∧ e ∈ WORKLOAD_EVIDENCE ∧
    t ∈ TARGET_CLASSES ∧ x ∈ RUNTIME_EVIDENCE ∧
    sort_keys (JObj d) = JObj (canonical_result qm ob r e t x) ∧
    dget "residual_disclosures" d = Some (JList (map JStr DISCLOSURES)).
Proof.
  intros Hwf H. apply json_wf_obj in Hwf as [Hnd Hall]. rewrite Forall_forall in Hall.
  unfold validate_result in H. res_inv. str_inv.
  assert (∀ k v, dget k d = Some v → json_wf v) as Hwf by (intros k v Hk%dget_Some_In; by apply (Hall (k, v))).
  match goal with Hc : validate_comparison _ ?c = Ok tt, Hd : dget "comparison" d = Some ?c |- _ =>
    destruct (validate_comparison_Ok _ _ (Hwf _ _ Hd) Hc) as (q & m & ob & r & [= ->] & Hm & Hob & Hr & Hsc) end.
  match goal with Hc : validate_conditions ?c = Ok tt, Hd : dget "conditions" d = Some ?c |- _ =>
    destruct (validate_conditions_Ok _ (Hwf _ _ Hd) Hc) as (e & t & x & He & Ht & Hx & Hsd) end.
  match goal with Hc : validate_disclosures _ = Ok tt |- _ => apply validate_disclosures_Ok in Hc; subst end.
  exists (q, m), ob, r, e, t, x. split_and!; [by apply dget_Some_In|done..| |done].
  transitivity (sort_keys (JObj (canonical_result (q, m) ob r e t x))); [|vm_compute; reflexivity].
  apply (sort_keys_fields _ _ RESULT_FIELDS); [done| |done|vm_compute; reflexivity|].
  - apply (bool_decide_unpack _). by vm_compute.
  - repeat (constructor; [match goal with Hx : dget ?k d = Some _ |- sort_keys <$> dget ?k d = _ => rewrite Hx end|]);
      [done..| | | |constructor].
    + by cbn [fmap option_fmap option_map]; rewrite Hsc.
    + by cbn [fmap option_fmap option_map]; rewrite Hsd.
    + done.
Qed.

(** Conversely, the fields of a document are those of its sorted form. *)
Lemma sorted_fields d c fields :
  json_wf (JObj d) → sort_keys (JObj d) = JObj c → same_names (keys c) fields = true →
  same_names (keys d) fields = true ∧ (∀ k v, dget k c = Some v → ∃ u, dget k d = Some u ∧ sort_keys u = v).
Proof.
  intros [Hnd _]%json_wf_obj Hs Hf. cbn [sort_keys] in Hs. injection Hs as Hs.
  assert (c ≡ₚ map (λ kv, (kv.1, sort_keys kv.2)) d) as Hp by (rewrite <- Hs; apply stable_sort_Permutation).
  assert (keys c ≡ₚ keys d) as Hk.
  { rewrite <- (keys_map_sorted d). unfold keys. by apply Permutation_map. }
  split.
  - unfold same_names in *. apply andb_true_iff in Hf as [H1 H2]. apply andb_true_iff.
    rewrite forallb_forall in H1, H2. rewrite !forallb_forall. split; intros k Hin.
    + apply H1. apply list_elem_of_In. rewrite Hk. by apply list_elem_of_In.
    + specialize (H2 k Hin). apply bool_decide_eq_true in H2. apply bool_decide_eq_true. by rewrite <- Hk.
  - intros k v Hin%dget_Some_In. rewrite Hp in Hin.
    apply list_elem_of_In, in_map_iff in Hin as ([k' u] & [= -> <-] & Hin%list_elem_of_In).
    exists u. split; [by apply dget_NoDup|done].
Qed.

Lemma sort_keys_text v s : sort_keys v = JStr s → v = JStr s.
Proof. by destruct v. Qed.

Lemma sort_keys_texts v l : sort_keys v = JList (map JStr l) → v = JList (map JStr l).
Proof.
  destruct v as [| | | | |k|]; try done. intros [= H]. f_equal. revert l H.
  induction k as [|x k IH]; intros [|s l] H; try done. simpl in H. injection H as Hx H.
  simpl. f_equal; [by apply sort_keys_text|auto].
Qed.

(** [field_of k]: the value of field [k], from its sorted form. *)
Ltac field_of Hget k :=
  let u := fresh "u" in let Hd := fresh "Hd" in let Hu := fresh "Hu" in
  destruct (Hget k _ eq_refl) as (u & Hd & Hu);
  first [apply sort_keys_text in Hu; subst u | idtac].

Lemma validate_comparison_sorted q m ob r v :
  json_wf v → validate_comparison (JStr q) (JObj (canonical_comparison m ob r)) = Ok tt →
  sort_keys v = JObj (canonical_comparison m ob r) → validate_comparison (JStr q) v = Ok tt.
Proof.
  intros Hwf Hok Hs. destruct v as [| | | | | |d]; try done.
  destruct (sorted_fields d _ COMPARISON_FIELDS Hwf Hs eq_refl) as [Hf Hget].
  field_of Hget "metric". field_of Hget "outcome". field_of Hget "ratio_band". field_of Hget "repeat_count_band".
  cbn [validate_comparison] in *. unfold _require_fields in *. rewrite Hf.
  unfold item in *. rewrite Hd, Hd0, Hd1, Hd2. exact Hok.
Qed.

Lemma validate_conditions_sorted e t x v :
  json_wf v → validate_conditions (JObj (canonical_conditions e t x)) = Ok tt →
  sort_keys v = JObj (canonical_conditions e t x) → validate_conditions v = Ok tt.
Proof.
  intros Hwf Hok Hs. destruct v as [| | | | | |d]; try done.
  destruct (sorted_fields d _ CONDITIONS_FIELDS Hwf Hs eq_refl) as [Hf Hget].
  field_of Hget "workload_evidence". field_of Hget "offered_load". field_of Hget "target_class".
  field_of Hget "runtime_evidence".
  cbn [validate_conditions] in *. unfold _require_fields in *. rewrite Hf.
  unfold item in *. rewrite Hd, Hd0, Hd1, Hd2. exact Hok.
Qed.

Lemma canonical_parts qm ob r e t x :
  validate_result (canonical_result qm ob r e t x) = Ok tt →
  _require_enum (JStr qm.1) QUESTIONS "E_RESULT_QUESTION" = Ok tt ∧
  validate_comparison (JStr qm.1) (JObj (canonical_comparison qm.2 ob r)) = Ok tt ∧
  validate_conditions (JObj (canonical_conditions e t x)) = Ok tt.
Proof.
  unfold validate_result. intros H. res_inv.
  repeat match goal with Hi : item (JObj (canonical_result _ _ _ _ _ _)) _ = Ok _ |- _ =>
    apply item_dget in Hi; injection Hi as <- end. done.
Qed.

Lemma validate_result_sorted qm ob r e t x d :
  json_wf (JObj d) → validate_result (canonical_result qm ob r e t x) = Ok tt →
  sort_keys (JObj d) = JObj (canonical_result qm ob r e t x) → validate_result d = Ok tt.
Proof.
  intros Hwf Hok Hs. destruct (canonical_parts _ _ _ _ _ _ Hok) as (Hq & Hc & Hn).
  destruct (sorted_fields d _ RESULT_FIELDS Hwf Hs eq_refl) as [Hf Hget].
  apply json_wf_obj in Hwf as [_ Hall]. rewrite Forall_forall in Hall.
  field_of Hget "schema". field_of Hget "status". field_of Hget "profile". field_of Hget "question".
  field_of Hget "comparison". field_of Hget "conditions". field_of Hget "residual_disclosures".
  apply (validate_comparison_sorted _ _ _ _ u) in Hc; [|by apply (Hall ("comparison", u)), dget_Some_In|done].
  apply (validate_conditions_sorted _ _ _ u0) in Hn; [|by apply (Hall ("conditions", u0)), dget_Some_In|done].
  apply sort_keys_texts in Hu1. subst u1.
  unfold validate_result, _require_fields, item. rewrite Hf, Hd, Hd0, Hd1, Hd2, Hd3, Hd4, Hd5.
  cbn [raise_unless mbind res_bind]. rewrite Hq, Hc, Hn. vm_compute. reflexivity.
Qed.

Lemma all_results_inv c : c ∈ all_results → ∃ qm ob r e t x,
  c = canonical_result qm ob r e t x ∧ validate_result c = Ok tt.
Proof.
  unfold all_results.
  intros (qm & (ob & (r & (e & (t & (x & Hc & Hx)%list_elem_of_bind & Ht)%list_elem_of_bind & He)%list_elem_of_bind
    & Hr)%list_elem_of_bind & Ho)%list_elem_of_bind & Hq)%list_elem_of_bind.
  apply list_elem_of_singleton in Hc. subst c. exists qm, ob, r, e, t, x.
  split; [done|]. by apply canonical_accepted.
Qed.

(** C27: the closed grammar. A result is accepted exactly when, with its fields
    sorted, it is one of 3456 documents: whatever the private inputs, an accepted
    result carries one of 3456 messages (less than 12 bits). *)
Theorem validate_result_closed d :
  json_wf (JObj d) →
  (validate_result d = Ok tt ↔ ∃ c, c ∈ all_results ∧ sort_keys (JObj d) = JObj c) ∧
  length all_results = 3456%nat.
Proof.
  intros Hwf. split; [|apply all_results_count]. split.
  - intros (qm & ob & r & e & t & x & Hq & Ho & Hr & He & Ht & Hx & Hs & _)%(validate_result_Ok d Hwf).
    exists (canonical_result qm ob r e t x). split; [by apply elem_all_results|done].
  - intros (c & (qm & ob & r & e & t & x & -> & Hok)%all_results_inv & Hs). by eapply validate_result_sorted.
Qed.

Definition ex_result : dict := canonical_result ("restore-throughput", "throughput") ("candidate-lower", "below-0.80")
  "5-to-9" "synthetic" "local-nvme" "not-measured".

Lemma validate_result_closed_witness :
  validate_result ex_result = Ok tt ↔ ∃ c, c ∈ all_results ∧ sort_keys (JObj ex_result) = JObj c.
Proof. apply validate_result_closed. apply json_wfb_sound. vm_compute. reflexivity. Defined.

(** ** Files written by the tool read back *)
Lemma loads_enc_LF hook st v :
  (∀ d, NoDup (keys d) → hook d = Ok d) → is_int v = false →
  float_free v = true → json_wf v → loads_hook hook (enc st 0 v +:+ LF) = Ok v.
Proof.
  intros Hh Hi Hf Hw. unfold loads_hook. rewrite skip_ws_enc by done.
  rewrite (p_value_enc hook Hh v Hf Hw); [done| |by rewrite Hi].
  rewrite slen_app. pose proof (weight_len st v 0 Hf). lia.
Qed.

Lemma decode_json_bytes d code :
  float_free (JObj d) = true → json_wf (JObj d) →
  ∃ e, sort_keys (JObj d) = JObj e ∧ _decode_json (_json_bytes d) code = Ok e.
Proof.
  intros Hf Hw. eexists. split; [reflexivity|]. unfold _decode_json, _json_bytes, dumps.
  rewrite utf8_decode_ascii.
  2:{ rewrite sforall_app, enc_ascii; [done|]. by rewrite sort_keys_float_free. }
  unfold _unique_object. rewrite loads_enc_LF; [done| |done| |by apply sort_keys_wf].
  - apply unique_object_NoDup.
  - by rewrite sort_keys_float_free.
Qed.

Lemma decode_wf raw code d : _decode_json raw code = Ok d → json_wf (JObj d).
Proof.
  unfold _decode_json. destruct (utf8_decode raw) as [text|]; [|done].
  destruct (loads_hook _unique_object text) as [v|[[] ?]] eqn:E; try done.
  destruct v; try done. intros [= ->]. unfold loads_hook in E.
  apply bind_Ok in E as ([v r] & Hv & E). apply p_value_wf in Hv.
  destruct (skip_ws r); [|done]. apply Ok_inj in E. by subst.
Qed.

(** The largest string of the enumerations has 24 characters. *)
Lemma enum_lengths :
  forallb (λ s, (String.length s <=? 25)%nat)
    (map fst QUESTION_METRICS ++ map snd QUESTION_METRICS ++ map fst OUTCOME_BANDS ++ map snd OUTCOME_BANDS ++
     REPEAT_BANDS ++ WORKLOAD_EVIDENCE ++ TARGET_CLASSES ++ RUNTIME_EVIDENCE) = true.
Proof. vm_compute. reflexivity. Qed.

Lemma canonical_size qm ob r e t x :
  qm ∈ QUESTION_METRICS → ob ∈ OUTCOME_BANDS → r ∈ REPEAT_BANDS → e ∈ WORKLOAD_EVIDENCE →
  t ∈ TARGET_CLASSES → x ∈ RUNTIME_EVIDENCE →
  (enc_bound 0 (JObj (canonical_result qm ob r e t x)) ≤ 4000)%nat.
Proof.
  intros Hq Ho Hr He Ht Hx.
  assert (∀ s, s ∈ map fst QUESTION_METRICS ++ map snd QUESTION_METRICS ++ map fst OUTCOME_BANDS ++ map snd OUTCOME_BANDS ++
     REPEAT_BANDS ++ WORKLOAD_EVIDENCE ++ TARGET_CLASSES ++ RUNTIME_EVIDENCE → (String.length s ≤ 25)%nat) as Hlen.
  { intros s Hs. apply Nat.leb_le. exact (forallb_elem _ _ _ enum_lengths Hs). }
  assert (∀ (A : Type) (f : A → string) l y, y ∈ l → f y ∈ map f l) as Hmap.
  { intros A f l y Hy. apply list_elem_of_In, in_map. by apply list_elem_of_In. }
  pose proof (Hlen qm.1 ltac:(rewrite !elem_of_app; left; by apply (Hmap _ fst))) as L1.
  pose proof (Hlen qm.2 ltac:(rewrite !elem_of_app; right; left; by apply (Hmap _ snd))) as L2.
  pose proof (Hlen ob.1 ltac:(rewrite !elem_of_app; do 2 right; left; by apply (Hmap _ fst))) as L3.
  pose proof (Hlen ob.2 ltac:(rewrite !elem_of_app; do 3 right; left; by apply (Hmap _ snd))) as L4.
  pose proof (Hlen r ltac:(rewrite !elem_of_app; tauto)) as L5.
  pose proof (Hlen e ltac:(rewrite !elem_of_app; tauto)) as L6.
  pose proof (Hlen t ltac:(rewrite !elem_of_app; tauto)) as L7.
  pose proof (Hlen x ltac:(rewrite !elem_of_app; tauto)) as L8.
  clear Hlen Hmap Hq Ho Hr He Ht Hx. unfold canonical_result, canonical_comparison, canonical_conditions.
  cbn [enc_bound sum_list_with fst snd map DISCLOSURES].
  revert L1 L2 L3 L4 L5 L6 L7 L8.
  generalize (String.length qm.1), (String.length qm.2), (String.length ob.1), (String.length ob.2),
    (String.length r), (String.length e), (String.length t), (String.length x). intros.
  repeat match goal with |- context [String.length ?s] =>
    let n := eval vm_compute in (String.length s) in change (String.length s) with n end.
  lia.
Qed.

Lemma accepted_float_free d : json_wf (JObj d) → validate_result d = Ok tt → float_free (JObj d) = true.
Proof.
  intros Hwf (qm & ob & r & e & t & x & _ & _ & _ & _ & _ & _ & Hs & _)%(validate_result_Ok d Hwf).
  rewrite <- sort_keys_float_free, Hs. reflexivity.
Qed.

Lemma accepted_size d : json_wf (JObj d) → validate_result d = Ok tt →
  (String.length (_json_bytes d) ≤ 4001)%nat.
Proof.
  intros Hwf Hok. pose proof (accepted_float_free d Hwf Hok) as Hf.
  apply (validate_result_Ok d Hwf) in Hok as (qm & ob & r & e & t & x & Hq & Ho & Hr & He & Ht & Hx & Hs & _).
  unfold _json_bytes, dumps. rewrite slen_app, Hs. change (String.length LF) with 1%nat.
  pose proof (canonical_size qm ob r e t x Hq Ho Hr He Ht Hx).
  pose proof (enc_len (JObj (canonical_result qm ob r e t x)) 0 eq_refl). lia.
Qed.

Section bundle.
Context (sha256 : string → string).
Hypothesis sha256_hex : ∀ s, hex_digest (sha256 s) = true.

(** The manifest in the order of its sorted form. *)
Definition sorted_manifest (result_bytes : string) : dict :=
  [("files", JList [JObj [("bytes", JInt (Z.of_nat (String.length result_bytes))); ("name", JStr "result.json");
                          ("sha256", JStr (sha256 result_bytes))]]);
   ("profile", JStr PROFILE); ("schema", JStr MANIFEST_SCHEMA)].

Lemma manifest_sorted b : sort_keys (JObj (manifest_of sha256 b)) = JObj (sorted_manifest b).
Proof. vm_compute. reflexivity. Qed.

Lemma manifest_wf b : json_wf (JObj (manifest_of sha256 b)).
Proof. apply json_wfb_sound. vm_compute. reflexivity. Qed.

Lemma manifest_size b : Z.of_nat (String.length b) ≤ 65536 →
  (String.length (_json_bytes (manifest_of sha256 b)) ≤ 5000)%nat.
Proof.
  intros Hb. pose proof (sha256_hex b) as [Hl%Nat.eqb_eq _]%andb_true_iff.
  unfold _json_bytes, dumps. rewrite manifest_sorted, slen_app. change (String.length LF) with 1%nat.
  pose proof (enc_len (JObj (sorted_manifest b)) 0 eq_refl) as He.
  cbn [enc_bound sum_list_with fst snd sorted_manifest] in He. rewrite Hl in He.
  assert (Z.to_nat (Z.log2 (Z.abs (Z.of_nat (String.length b)))) ≤ 17)%nat as Hlog.
  { rewrite Z.abs_eq by lia. pose proof (Z.log2_le_mono (Z.of_nat (String.length b)) (2 ^ 17) ltac:(lia)) as Hm.
    rewrite Z.log2_pow2 in Hm by lia. lia. }
  revert Hlog He. generalize (Z.to_nat (Z.log2 (Z.abs (Z.of_nat (String.length b))))). intros n Hn.
  repeat match goal with |- context [String.length ?s] => lazymatch s with enc _ _ _ => fail | _ =>
    let n := eval vm_compute in (String.length s) in change (String.length s) with n end end.
  lia.
Qed.

Lemma validate_manifest_own b : _validate_manifest sha256 (sorted_manifest b) b = Ok tt.
Proof.
  pose proof (sha256_hex b) as Hh. unfold _validate_manifest.
  set (m := sorted_manifest b).
  assert (_require_fields m ["schema"; "profile"; "files"] "E_MANIFEST_FIELDS" = Ok tt) as -> by (vm_compute; reflexivity).
  change (item (JObj m) "schema") with (Ok (JStr MANIFEST_SCHEMA)).
  change (item (JObj m) "profile") with (Ok (JStr PROFILE)).
  set (entry := [("bytes", JInt (Z.of_nat (String.length b))); ("name", JStr "result.json"); ("sha256", JStr (sha256 b))]).
  change (item (JObj m) "files") with (Ok (JList [JObj entry])).
  change (eq_str (JStr ?x) ?x) with true. cbn [raise_unless mbind res_bind].
  assert (_require_fields entry ["name"; "bytes"; "sha256"] "E_MANIFEST_ENTRY" = Ok tt) as -> by (vm_compute; reflexivity).
  change (item (JObj entry) "name") with (Ok (JStr "result.json")).
  change (item (JObj entry) "bytes") with (Ok (JInt (Z.of_nat (String.length b)))).
  change (item (JObj entry) "sha256") with (Ok (JStr (sha256 b))).
  change (eq_str (JStr ?x) ?x) with true. cbn [raise_unless mbind res_bind].
  rewrite Z.eqb_refl, Hh, String.eqb_refl. done.
Qed.

Lemma read_leaf_small c code : Z.of_nat (String.length c) ≤ 65536 → read_leaf (Some (LFile c)) code = Ok c.
Proof.
  intros Hc. unfold read_leaf. replace (MAX_JSON_BYTES <? Z.of_nat (String.length c)) with false; [done|].
  unfold MAX_JSON_BYTES. lia.
Qed.

(** The files that [build_candidate] writes pass [verify_candidate]. *)
Lemma verify_built w target d :
  json_wf (JObj d) → validate_result d = Ok tt →
  dget target (w_nodes w) = Some (NDir [("result.json", LFile (_json_bytes d));
    ("manifest.json", LFile (_json_bytes (manifest_of sha256 (_json_bytes d))))]) →
  verify_candidate sha256 w target =
  Ok [("profile", JStr PROFILE); ("bundle_conformance", JStr "pass"); ("internal_evidence", JStr "not_checked");
      ("release_authorization", JStr "not_checked"); ("export_allowed", JBool false);
      ("residual_disclosures", JList (map JStr DISCLOSURES))].
Proof.
  intros Hwf Hok Hdir. pose proof (accepted_size d Hwf Hok) as Hsz.
  pose proof (accepted_float_free d Hwf Hok) as Hff.
  pose proof (manifest_size (_json_bytes d) ltac:(lia)) as Hms.
  destruct (decode_json_bytes d "E_RESULT" Hff Hwf) as (e & He & Hdec).
  destruct (decode_json_bytes (manifest_of sha256 (_json_bytes d)) "E_MANIFEST" eq_refl (manifest_wf _))
    as (m & Hm & Hdecm).
  rewrite manifest_sorted in Hm. injection Hm as <-.
  destruct (validate_result_Ok d Hwf Hok) as (qm & ob & r & ev & t & x & Hq & Ho & Hr & Hev & Ht & Hx & Hs & _).
  rewrite He in Hs. injection Hs as ->.
  unfold verify_candidate. rewrite Hdir. cbn [mbind res_bind].
  set (entries := [("result.json", LFile (_json_bytes d)); _]).
  assert (same_names (keys entries) EXPECTED_FILES && (length entries =? length EXPECTED_FILES)%nat = true) as ->
    by (vm_compute; reflexivity).
  change (forallb (λ e, is_regular e.2) entries) with true. cbn [raise_unless mbind res_bind].
  change (_read_bytes_at entries "result.json" "E_RESULT") with (read_leaf (Some (LFile (_json_bytes d))) "E_RESULT").
  change (_read_bytes_at entries "manifest.json" "E_MANIFEST")
    with (read_leaf (Some (LFile (_json_bytes (manifest_of sha256 (_json_bytes d))))) "E_MANIFEST").
  rewrite !read_leaf_small by lia. cbn [mbind res_bind]. rewrite Hdec, Hdecm. cbn [mbind res_bind].
  rewrite canonical_accepted by done. cbn [mbind res_bind]. rewrite validate_manifest_own. reflexivity.
Qed.

Lemma dget_app_new {A} (d : list (string * A)) k v p :
  dget k d = None → dget p (d ++ [(k, v)]) = if String.eqb p k then Some v else dget p d.
Proof.
  intros Hk. rewrite dget_app. simpl. destruct (String.eqb_spec p k) as [->|]; [by rewrite Hk|by destruct (dget p d)].
Qed.

Lemma write_new_ok w target entries name content :
  dget target (w_nodes w) = Some (NDir entries) → dhas name entries = false →
  Z.of_nat (String.length content) ≤ w_space w →
  _write_new w target name content =
  ({| w_nodes := dset target (NDir (entries ++ [(name, LFile content)])) (w_nodes w);
      w_can_mkdir := w_can_mkdir w; w_space := w_space w - Z.of_nat (String.length content) |}, true).
Proof.
  intros Hd Hn Hs. unfold _write_new. rewrite Hd, Hn.
  replace (Z.of_nat (String.length content) <=? w_space w) with true by lia. done.
Qed.

Lemma build_candidate_spec w input parent target result entries :
  _read_json w input "E_INPUT" = Ok result → validate_result result = Ok tt →
  dget parent (w_nodes w) = Some (NDir entries) → dget target (w_nodes w) = None →
  w_can_mkdir w = true → 10000 ≤ w_space w →
  ∃ w' v, build_candidate sha256 w input parent target = (w', Ok v) ∧ verify_candidate sha256 w' target = Ok v ∧
    dget "bundle_conformance" v = Some (JStr "pass") ∧ dget "export_allowed" v = Some (JBool false) ∧
    dget target (w_nodes w') = Some (NDir [("result.json", LFile (_json_bytes result));
      ("manifest.json", LFile (_json_bytes (manifest_of sha256 (_json_bytes result))))]) ∧
    (∀ p, p ≠ target → dget p (w_nodes w') = dget p (w_nodes w)).
Proof.
  intros Hread Hok Hpar Htar Hmk Hsp.
  assert (json_wf (JObj result)) as Hwf.
  { unfold _read_json in Hread. apply bind_Ok in Hread as (raw & _ & Hd). by eapply decode_wf. }
  pose proof (accepted_size result Hwf Hok) as Hsz.
  pose proof (manifest_size (_json_bytes result) ltac:(lia)) as Hms.
  unfold build_candidate. rewrite Hread. cbn [mbind res_bind]. rewrite Hok. cbn [mbind res_bind]. rewrite Hpar.
  unfold mkdir. unfold dhas at 1. rewrite Htar, Hmk.
  set (w1 := {| w_nodes := w_nodes w ++ [(target, NDir [])]; w_can_mkdir := true; w_space := w_space w |}).
  assert (dget target (w_nodes w1) = Some (NDir [])) as H1
    by (simpl; rewrite dget_app_new by done; by rewrite String.eqb_refl).
  set (rb := _json_bytes result) in *. set (mb := _json_bytes (manifest_of sha256 rb)) in *.
  rewrite (write_new_ok w1 target [] "result.json" rb H1 eq_refl)
    by (unfold w1; cbn [w_space]; lia).
  set (w2 := {| w_nodes := dset target _ (w_nodes w1); w_can_mkdir := _; w_space := _ |}).
  assert (dget target (w_nodes w2) = Some (NDir [("result.json", LFile rb)])) as H2 by (simpl; apply dget_dset_eq).
  rewrite (write_new_ok w2 target [("result.json", LFile rb)] "manifest.json" mb H2 eq_refl)
    by (unfold w2, w1; cbn [w_space]; lia).
  cbn [andb].
  set (w3 := {| w_nodes := dset target _ (w_nodes w2); w_can_mkdir := _; w_space := _ |}).
  assert (dget target (w_nodes w3) = Some (NDir [("result.json", LFile rb); ("manifest.json", LFile mb)])) as H3
    by (simpl; apply dget_dset_eq).
  rewrite (verify_built w3 target result Hwf Hok H3). eexists _, _. split; [reflexivity|].
  split_and!; [exact (verify_built w3 target result Hwf Hok H3)|reflexivity..|done|].
  intros p Hp. simpl. rewrite !dget_dset, dget_app_new by done. by destruct (String.eqb_spec p target).
Qed.

(** What a bundle that verifies contains. *)
Lemma verify_candidate_Ok w bundle v :
  verify_candidate sha256 w bundle = Ok v →
  ∃ entries rb mb result manifest,
    dget bundle (w_nodes w) = Some (NDir entries) ∧
    same_names (keys entries) EXPECTED_FILES = true ∧ length entries = 2%nat ∧
    dget "result.json" entries = Some (LFile rb) ∧ dget "manifest.json" entries = Some (LFile mb) ∧
    Z.of_nat (String.length rb) ≤ MAX_JSON_BYTES ∧ Z.of_nat (String.length mb) ≤ MAX_JSON_BYTES ∧
    _decode_json rb "E_RESULT" = Ok result ∧ _decode_json mb "E_MANIFEST" = Ok manifest ∧
    validate_result result = Ok tt ∧ _validate_manifest sha256 manifest rb = Ok tt ∧
    verdict_of result = Ok v.
Proof.
  unfold verify_candidate. intros H. apply bind_Ok in H as (entries & He & H).
  destruct (dget bundle (w_nodes w)) as [[|es| |]|] eqn:Eb; try done. apply Ok_inj in He. subst es.
  apply bind_Ok in H as ([] & Hinv & H). apply raise_unless_Ok', andb_true_iff in Hinv as [Hn Hl%Nat.eqb_eq].
  apply bind_Ok in H as ([] & _ & H).
  assert (∀ name code c, _read_bytes_at entries name code = Ok c →
    dget name entries = Some (LFile c) ∧ Z.of_nat (String.length c) ≤ MAX_JSON_BYTES) as Hread.
  { intros name code c. unfold _read_bytes_at, read_leaf. destruct (dget name entries) as [[]|]; try done.
    intros Hc. res_inv. split; [done|lia]. }
  apply bind_Ok in H as (rb & [Hr1 Hr2]%Hread & H). apply bind_Ok in H as (mb & [Hm1 Hm2]%Hread & H).
  apply bind_Ok in H as (result & Hres & H). apply bind_Ok in H as (manifest & Hman & H).
  apply bind_Ok in H as ([] & Hok & H). apply bind_Ok in H as ([] & Hmok & H).
  exists entries, rb, mb, result, manifest. split_and!; done.
Qed.

(** The manifest names the digest and the size of the payload. *)
Lemma validate_manifest_binds manifest rb :
  _validate_manifest sha256 manifest rb = Ok tt →
  ∃ entry, dget "files" manifest = Some (JList [JObj entry]) ∧
    dget "bytes" entry = Some (JInt (Z.of_nat (String.length rb))) ∧
    dget "sha256" entry = Some (JStr (sha256 rb)).
Proof.
  unfold _validate_manifest. intros H.
  apply bind_Ok in H as ([] & _ & H). apply bind_Ok in H as (? & _ & H). apply bind_Ok in H as ([] & _ & H).
  apply bind_Ok in H as (? & _ & H). apply bind_Ok in H as ([] & _ & H). apply bind_Ok in H as (files & Hf & H).
  apply item_dget in Hf. destruct files as [| | | | |[|[| | | | | |entry] [|? ?]]|]; try done.
  exists entry. split; [done|].
  apply bind_Ok in H as ([] & _ & H). apply bind_Ok in H as (? & _ & H). apply bind_Ok in H as ([] & _ & H).
  apply bind_Ok in H as (size & Hs & H). apply bind_Ok in H as ([] & Hsz & H).
  apply bind_Ok in H as (digest & Hd & H). apply item_dget in Hs, Hd. apply raise_unless_Ok' in Hsz.
  destruct size as [| |z| | | |]; try done. apply Z.eqb_eq in Hsz as ->.
  destruct digest as [| | | |s| |]; try done.
  apply bind_Ok in H as ([] & _ & H). apply raise_unless_Ok', String.eqb_eq in H as ->. done.
Qed.
End bundle.

(** building a candidate from any accepted result, in a directory that
    exists and under a new name, succeeds; it writes exactly [result.json] and
    [manifest.json], touches no other path, the bundle passes
    [verify_candidate], and the verdict never allows the export. *)
Theorem build_candidate_verifies sha256 w input parent target result entries :
  (∀ s, hex_digest (sha256 s) = true) →
  _read_json w input "E_INPUT" = Ok result → validate_result result = Ok tt →
  dget parent (w_nodes w) = Some (NDir entries) → dget target (w_nodes w) = None →
  w_can_mkdir w = true → 10000 ≤ w_space w →
  ∃ w' v, build_candidate sha256 w input parent target = (w', Ok v) ∧ verify_candidate sha256 w' target = Ok v ∧
    dget "bundle_conformance" v = Some (JStr "pass") ∧ dget "export_allowed" v = Some (JBool false) ∧
    dget target (w_nodes w') = Some (NDir [("result.json", LFile (_json_bytes result));
      ("manifest.json", LFile (_json_bytes (manifest_of sha256 (_json_bytes result))))]) ∧
    (∀ p, p ≠ target → dget p (w_nodes w') = dget p (w_nodes w)).
Proof.
  intros Hsha. by apply build_candidate_spec.
Qed.

Definition hex_zero (s : string) : string := String.concat EmptyString (replicate 64 "0").

Definition ex_world : world :=
  {| w_nodes := [("in.json", NFile (_json_bytes ex_result)); ("out", NDir [])]; w_can_mkdir := true; w_space := 10000 |}.

Lemma build_candidate_verifies_witness :
  ∃ w' v, build_candidate hex_zero ex_world "in.json" "out" "out/c" = (w', Ok v) ∧
    verify_candidate hex_zero w' "out/c" = Ok v.
Proof.
  destruct (build_candidate_verifies hex_zero ex_world "in.json" "out" "out/c" ex_result [])
    as (w' & v & H1 & H2 & _).
  - intros s. vm_compute. reflexivity.
  - vm_compute. reflexivity.
  - vm_compute. reflexivity.
  - reflexivity.
  - reflexivity.
  - reflexivity.
  - vm_compute. discriminate.
  - exists w', v. exact (conj H1 H2).
Defined.

(** C28: what [verify_candidate] accepts. The bundle is a real directory with
    exactly the two files; the payload is one of the 3456 documents of the
    grammar; and the manifest binds it: any two bundles that verify with the same
    manifest file have payloads of the same size and digest. *)
Theorem verify_candidate_sound sha256 w bundle v :
  verify_candidate sha256 w bundle = Ok v →
  dget "export_allowed" v = Some (JBool false) ∧
  ∃ entries rb mb result c,
    dget bundle (w_nodes w) = Some (NDir entries) ∧ length entries = 2%nat ∧
    dget "result.json" entries = Some (LFile rb) ∧ dget "manifest.json" entries = Some (LFile mb) ∧
    Z.of_nat (String.length rb) ≤ MAX_JSON_BYTES ∧ Z.of_nat (String.length mb) ≤ MAX_JSON_BYTES ∧
    _decode_json rb "E_RESULT" = Ok result ∧ c ∈ all_results ∧ sort_keys (JObj result) = JObj c ∧
    ∀ w' bundle' v' entries' rb',
      verify_candidate sha256 w' bundle' = Ok v' → dget bundle' (w_nodes w') = Some (NDir entries') →
      dget "manifest.json" entries' = Some (LFile mb) → dget "result.json" entries' = Some (LFile rb') →
      sha256 rb' = sha256 rb ∧ String.length rb' = String.length rb.
Proof.
  intros H. apply verify_candidate_Ok in H as (es & rb & mb & result & man & Hb & _ & Hl & Hr & Hm & Hrs & Hms & Hd & Hdm & Hok & Hmok & Hv).
  split.
  { unfold verdict_of in Hv. apply bind_Ok in Hv as (ds & _ & Hv). apply Ok_inj in Hv as <-. done. }
  destruct (validate_result_Ok result (decode_wf _ _ _ Hd) Hok) as (qm & ob & r & e & t & x & Hq & Ho & Hrr & He & Ht & Hx & Hs & _).
  exists es, rb, mb, result, (canonical_result qm ob r e t x).
  split_and!; [done..|by apply elem_all_results|done|].
  intros w' b' v' es' rb' Hv' Hb' Hm' Hr'.
  apply verify_candidate_Ok in Hv' as (es2 & rb2 & mb2 & result2 & man2 & Hb2 & _ & _ & Hr2 & Hm2 & _ & _ & _ & Hdm2 & _ & Hmok2 & _).
  rewrite Hb' in Hb2. injection Hb2 as <-. rewrite Hm' in Hm2. injection Hm2 as <-. rewrite Hr' in Hr2. injection Hr2 as <-.
  rewrite Hdm in Hdm2. injection Hdm2 as <-.
  apply validate_manifest_binds in Hmok as (en1 & Hf1 & Hn1 & Hs1).
  apply validate_manifest_binds in Hmok2 as (en2 & Hf2 & Hn2 & Hs2).
  rewrite Hf1 in Hf2. injection Hf2 as <-. rewrite Hs1 in Hs2. rewrite Hn1 in Hn2.
  injection Hs2 as <-. injection Hn2 as Hn. split; [done|lia].
Qed.

Definition ex_bundle : world := (build_candidate hex_zero ex_world "in.json" "out" "out/c").1.

Lemma verify_candidate_sound_witness :
  ∃ v, verify_candidate hex_zero ex_bundle "out/c" = Ok v ∧ dget "export_allowed" v = Some (JBool false).
Proof.
  destruct (verify_candidate hex_zero ex_bundle "out/c") as [v|] eqn:E; [|vm_compute in E; discriminate E].
  exists v. split; [done|]. exact (proj1 (verify_candidate_sound hex_zero ex_bundle "out/c" v E)).
Defined.
