(* ===== verification/Coordinator.v ===== *)
(** * Distributed runs ([tools/kvio/coordinator.py])

    The coordinator shards a workload by stream across clients, exchanges
    framed JSON messages with them, measures their clocks, starts them together
    and merges their rows.  The file models the framing over a socket that
    delivers its bytes in arbitrary pieces, the sharding, the clock probe, the
    merge, and the protocol of a run as a step relation. *)

From stdpp Require Import prelude strings list numbers gmap sorting.
From Stdlib Require Import ZArith Lia Ascii.
From S2P Require Import Prelude PyText PyJson JsonText Intent Intent2 Workload3 IntentExec.
Local Open Scope Z_scope.

(** ** Framing *)

(** [struct.pack("!I", n)] *)
Definition pack_I (n : Z) : res string :=
  if (n <? 0) || (2 ^ 32 <=? n) then Raise (Exn StructError "'I' format requires 0 <= number <= 4294967295")
  else Ok (String (chr (n / 2 ^ 24)) (String (chr (n / 2 ^ 16 mod 256))
          (String (chr (n / 2 ^ 8 mod 256)) (String (chr (n mod 256)) EmptyString)))).

(** [struct.unpack("!I", s)] of four bytes. *)
Definition unpack_I (s : string) : res Z :=
  match s with
  | String a (String b (String c (String d EmptyString))) =>
      Ok (code a * 2 ^ 24 + code b * 2 ^ 16 + code c * 2 ^ 8 + code d)
  | _ => Raise (Exn StructError "unpack requires a buffer of 4 bytes")
  end.

(** The bytes that [send] passes to [sendall]. *)
Definition send (obj : json) : res string :=
  let data := dumps Spaced obj in
  head ← pack_I (Z.of_nat (String.length data));
  Ok (head +:+ data).

(** A receiving socket: the pieces still to be delivered; none means that the
    peer has closed. *)
Abbreviation sock := (list string).

(** [sock.recv(k)]: at most [k] bytes of the next piece. *)
Definition sock_recv (k : nat) (s : sock) : string * sock :=
  match s with
  | [] => (EmptyString, [])
  | c :: s =>
      if (String.length c <=? k)%nat then (c, s)
      else (String.substring 0 k c, String.substring k (String.length c - k) c :: s)
  end.

(** Every delivered piece has a byte: [n] iterations are enough. *)
Fixpoint recv_loop (fuel : nat) (n : nat) (buf : string) (s : sock) : res (option string * sock) :=
  if (String.length buf <? n)%nat then
    match fuel with
    | O => Raise (Exn OutOfFuel "while len(buf) < n")
    | S fuel =>
        let '(chunk, s') := sock_recv (n - String.length buf) s in
        if String.eqb chunk EmptyString then Ok (None, s') else recv_loop fuel n (buf +:+ chunk) s'
    end
  else Ok (Some buf, s).

Definition _recv_exact (s : sock) (n : nat) : res (option string * sock) := recv_loop n n EmptyString s.

Definition recv (s : sock) : res (option json * sock) :=
  hs ← _recv_exact s 4;
  match hs with
  | (None, s) => Ok (None, s)
  | (Some head, s) =>
      n ← unpack_I head;
      bs ← _recv_exact s (Z.to_nat n);
      match bs with
      | (None, s) => Ok (None, s)
      | (Some body, s) => v ← loads body; Ok (Some v, s)
      end
  end.

(** ** Sharding *)

(** The streams, in the order of their first operation. *)
Definition streams_of (ops : list json) : res (list json) :=
  foldM (λ streams o, s ← item o "stream";
                      Ok (if existsb (λ t, py_eqc t s) streams then streams else streams ++ [s])) [] ops.

(** An assignment of streams to clients: [{stream: client}]. *)
Abbreviation assignment := (list (hkey * (json * string))).

(** [{s: clients[i % len(clients)] for i, s in enumerate(streams)}] *)
Definition round_robin (clients : list string) (streams : list json) : res assignment :=
  foldiM (λ a i s,
    c ← match clients with
        | [] => Raise (Exn ZeroDivisionError "integer modulo by zero")
        | c0 :: _ => Ok (nth (i mod length clients) clients c0)
        end;
    k ← hkey_of s;
    Ok (hset k (s, c) a)) 0 [] streams.

(** [{o["op_id"]: assignment[o["stream"]] for o in operations}] *)
Definition owners (a : assignment) (ops : list json) : res (list (hkey * string)) :=
  foldM (λ m o,
    id ← item o "op_id"; s ← item o "stream"; k ← hkey_of s;
    c ← match hget k a with Some (_, c) => Ok c | None => Raise (Exn KeyError (py_str s)) end;
    ik ← hkey_of id;
    Ok (hset ik c m)) [] ops.

(** [owner[id]] *)
Definition owner_at (m : list (hkey * string)) (id : json) : res string :=
  k ← hkey_of id;
  match hget k m with Some c => Ok c | None => Raise (Exn KeyError (py_str id)) end.

(** Whether an operation has a dependency of another client. *)
Definition crosses (m : list (hkey * string)) (o : json) : res bool :=
  deps ← (v ← item o "deps"; iterate v);
  bs ← mapMR (λ d, dop ← item d "op"; c ← owner_at m dop;
                   id ← item o "op_id"; c' ← owner_at m id;
                   Ok (negb (String.eqb c c'))) deps;
  Ok (existsb id bs).

Definition sort_streams (l : list json) : res (list json) := py_sorted l.

Definition client_streams (a : assignment) (c : string) : res (list json) :=
  sort_streams (map (λ e, e.2.1) (List.filter (λ e, String.eqb e.2.2 c) a)).

(** [o["seq"] = i] *)
Definition set_seq (i : nat) (o : json) : json :=
  match o with JObj d => JObj (dset "seq" (JInt (Z.of_nat i)) d) | _ => o end.

(** The operations a client owns, renumbered. *)
Definition shard_ops (m : list (hkey * string)) (c : string) (ops : list json) : res (list json) :=
  kept ← foldM (λ out o, id ← item o "op_id"; w ← owner_at m id;
                         Ok (if String.eqb w c then out ++ [o] else out)) [] ops;
  Ok (imap set_seq kept).

(** One shard: a copy of the workload with the client's operations and a note. *)
Definition make_shard (a : assignment) (m : list (hkey * string)) (wl : dict) (ops : list json) (c : string)
    : res json :=
  mine ← shard_ops m c ops;
  let s := dset "operations" (JList mine) wl in
  prov ← dict_at s "provenance";
  comp ← dict_at prov "completeness";
  notes ← (v ← item (JObj comp) "notes"; iterate v);
  names ← client_streams a c;
  let text := "shard for client " +:+ c +:+ ": streams " +:+ py_repr (JList names) in
  let comp := dset "notes" (JList (notes ++ [JStr text])) comp in
  let shard := JObj (dset "provenance" (JObj (dset "completeness" (JObj comp) prov)) s) in
  validate_workload shard ;;
  Ok shard.

Definition shard_workload (wl : json) (clients : list string) (given : option assignment)
    : res (list (string * json) * assignment) :=
  match wl with
  | JObj d =>
      ops ← (v ← item wl "operations"; iterate v);
      streams ← streams_of ops;
      a ← match given with None => round_robin clients streams | Some a => Ok a end;
      ks ← mapMR hkey_of streams;
      raise_unless (forallb (λ e, bool_decide (e.1 ∈ ks)) a)
        (Exn ValueError "assignment names streams not in the workload: {sorted(unknown)}") ;;
      m ← owners a ops;
      cross ← mapMR (crosses m) ops;
      raise_if (existsb id cross)
        (Exn CrossShardError "cross-shard dependencies need an acknowledgement relay this coordinator does not implement: {cross[:8]}") ;;
      shards ← foldM (λ out c, s ← make_shard a m d ops c; Ok (dset c s out)) [] clients;
      Ok (shards, a)
  | _ => Raise (Exn TypeError "indices must be integers")
  end.

(** ** Clocks *)
Record clock := { k_offset : Z; k_uncertainty : Z; k_min_rtt : Z }.

(** One probe: the round trip and the estimated offset of the client's clock. *)
Definition probe_sample (t0 t1 t_client : Z) : Z * Z :=
  let rtt := t1 - t0 in (rtt, t_client - (t0 + rtt / 2)).

(** [min(samples)] on pairs. *)
Definition pair_lt (a b : Z * Z) : bool := (a.1 <? b.1) || ((a.1 =? b.1) && (a.2 <? b.2)).

Definition min_sample (s : Z * Z) (l : list (Z * Z)) : Z * Z := fold_left (λ m x, if pair_lt x m then x else m) l s.

(** The result of a probe, from the times [(t0, t1, t_client)] of its round
    trips; the median is a statistic of the report only. *)
Definition _probe_clock (trips : list (Z * Z * Z)) : res clock :=
  match map (λ t, probe_sample t.1.1 t.1.2 t.2) trips with
  | [] => Raise (Exn ValueError "min() iterable argument is empty")
  | s :: l =>
      let best := min_sample s l in
      Ok {| k_offset := best.2; k_uncertainty := best.1 / 2; k_min_rtt := best.1 |}
  end.

(** ** Merging *)
Definition TIME_FIELDS : list string := ["release_ns"; "eligible_ns"; "submit_ns"; "complete_ns"].

(** One row of client [c], with the coordinator's time beside the client's. *)
Definition merge_row (c : string) (t0 off start : Z) (row : dict) : res dict :=
  foldM (λ r k,
    match getd r k with
    | JNull => Ok r
    | v => x ← as_int v; Ok (dset ("coord_" +:+ k) (JInt (x + t0 - off - start)) r)
    end) (dset "client" (JStr c) row) TIME_FIELDS.

Record client_result := { cr_start : Z; cr_rows : list dict }.

Definition _merge (clocks : list (string * clock)) (start : Z) (results : list (string * client_result))
    : res (list dict) :=
  foldM (λ rows cr,
    let '(c, r) := cr in
    k ← match dget c clocks with Some k => Ok k | None => Raise (Exn KeyError c) end;
    mine ← mapMR (merge_row c (cr_start r) (k_offset k) start) (cr_rows r);
    Ok (rows ++ mine)) [] results.

(** ** The protocol of a run

    The threads of [_serve_client] and the main thread of [run] take turns on
    the coordinator's state.  A step is one of their critical sections, an
    answer that arrives from a client, or the end of the time-out.  The wait for
    readiness has a time-out; a [recv] has none, so the main thread collects from
    a client only when its answer is there, or its connection is closed. *)
Inductive phase := Waiting | Running (todo : list string) | Finished (complete : bool) | Crashed.

(** What arrives from a client after the start: its rows, and its answers to the
    probes when it kept the connection open; another message or the end of the
    connection; or something that makes [recv] or the probe raise. *)
Inductive answer := Reply_done | Reply_other | Reply_error.

Record cstate := {
  s_conns : list string;                 (** [self.conns], in connection order *)
  s_pending : list string;               (** clients whose answer to the shard is awaited *)
  s_ready : list string;                 (** clients that were probed: [ready_count] of them *)
  s_failures : list (string * string);   (** [self.failures] *)
  s_results : list string;               (** clients with an entry in [self.results] *)
  s_ok : bool;                           (** [status == "complete"] *)
  s_expired : bool;                      (** [timeout_s] have passed since the wait began *)
  s_answers : list (string * answer);    (** what has arrived and was not collected yet *)
  s_phase : phase
}.

Definition init_state : cstate :=
  {| s_conns := []; s_pending := []; s_ready := []; s_failures := []; s_results := []; s_ok := true;
     s_expired := false; s_answers := []; s_phase := Waiting |}.

Definition set_phase (s : cstate) (p : phase) : cstate :=
  {| s_conns := s_conns s; s_pending := s_pending s; s_ready := s_ready s; s_failures := s_failures s;
     s_results := s_results s; s_ok := s_ok s; s_expired := s_expired s; s_answers := s_answers s; s_phase := p |}.

Definition add_failure (s : cstate) (c why : string) : cstate :=
  {| s_conns := s_conns s; s_pending := s_pending s; s_ready := s_ready s;
     s_failures := dset c why (s_failures s); s_results := s_results s; s_ok := s_ok s;
     s_expired := s_expired s; s_answers := s_answers s; s_phase := s_phase s |}.

Definition drop_pending (s : cstate) (c : string) : cstate :=
  {| s_conns := s_conns s; s_pending := filter (λ x, x ≠ c) (s_pending s); s_ready := s_ready s;
     s_failures := s_failures s; s_results := s_results s; s_ok := s_ok s;
     s_expired := s_expired s; s_answers := s_answers s; s_phase := s_phase s |}.

(** A hello of client [c]. *)
Definition on_hello (clients : list string) (s : cstate) (c : string) : cstate :=
  if bool_decide (c ∉ clients) then s
  else if bool_decide (c ∈ s_conns s) then add_failure s c "duplicate shard claim"
  else {| s_conns := s_conns s ++ [c]; s_pending := c :: s_pending s; s_ready := s_ready s;
          s_failures := s_failures s; s_results := s_results s; s_ok := s_ok s;
          s_expired := s_expired s; s_answers := s_answers s; s_phase := s_phase s |}.

(** The answer of a client to its shard: ready, and the probe succeeds. *)
Definition on_ready (s : cstate) (c : string) : cstate :=
  let s := drop_pending s c in
  {| s_conns := s_conns s; s_pending := s_pending s; s_ready := s_ready s ++ [c]; s_failures := s_failures s;
     s_results := s_results s; s_ok := s_ok s; s_expired := s_expired s; s_answers := s_answers s; s_phase := s_phase s |}.

Definition on_not_ready (s : cstate) (c : string) : cstate := add_failure (drop_pending s c) c "not ready: {r}".

(** [ready_event.is_set()] *)
Definition all_set (clients : list string) (s : cstate) : bool := (length (s_ready s) =? length clients)%nat.

(** The main thread after [ready_event.wait]: abort, or start everyone. *)
Definition after_wait (clients : list string) (s : cstate) : cstate :=
  let missing := List.filter (λ c, negb (bool_decide (c ∈ s_conns s))) clients in
  if negb (bool_decide (missing = [])) || negb (bool_decide (s_failures s = [])) || negb (all_set clients s)
  then set_phase s (Finished false)
  else set_phase s (Running (s_conns s)).

(** The answer of client [c] to the start: its rows, nothing usable, or an
    exception of [recv] or of the second probe, which leaves [run]. *)
Definition on_done (s : cstate) (c : string) (rest : list string) (a : answer) : cstate :=
  match a with
  | Reply_done =>
      {| s_conns := s_conns s; s_pending := s_pending s; s_ready := s_ready s; s_failures := s_failures s;
         s_results := s_results s ++ [c]; s_ok := s_ok s; s_expired := s_expired s; s_answers := s_answers s;
         s_phase := Running rest |}
  | Reply_other =>
      {| s_conns := s_conns s; s_pending := s_pending s; s_ready := s_ready s;
         s_failures := dset c "no result: {r}" (s_failures s); s_results := s_results s; s_ok := false;
         s_expired := s_expired s; s_answers := s_answers s; s_phase := Running rest |}
  | Reply_error => set_phase s Crashed
  end.

(** The end of the run: a failure recorded meanwhile makes it partial. *)
Definition at_end (s : cstate) : cstate :=
  set_phase s (Finished (s_ok s && bool_decide (s_failures s = []))).

Definition finished (s : cstate) : bool := match s_phase s with Finished _ => true | _ => false end.

(** The message arrives, or the time-out ends. *)
Definition on_answer (s : cstate) (c : string) (a : answer) : cstate :=
  {| s_conns := s_conns s; s_pending := s_pending s; s_ready := s_ready s; s_failures := s_failures s;
     s_results := s_results s; s_ok := s_ok s; s_expired := s_expired s; s_answers := s_answers s ++ [(c, a)];
     s_phase := s_phase s |}.
Definition on_timeout (s : cstate) : cstate :=
  {| s_conns := s_conns s; s_pending := s_pending s; s_ready := s_ready s; s_failures := s_failures s;
     s_results := s_results s; s_ok := s_ok s; s_expired := true; s_answers := s_answers s; s_phase := s_phase s |}.

(** Steps of the main thread: the wait ends because everyone is ready or by
    the time-out, the answers are collected in connection order, the run ends.
    Sending the start to a client that is gone raises; so does the loop that sends
    the abort when a client connects meanwhile, for it iterates over [self.conns].
    What [run] does after the end, merging and writing, is [_merge] and I/O. *)
Inductive main_step (clients : list string) : cstate → cstate → Prop :=
  | main_wait s : s_phase s = Waiting → all_set clients s || s_expired s = true → main_step clients s (after_wait clients s)
  | main_start_fails s : s_phase s = Waiting → s_phase (after_wait clients s) = Running (s_conns s) → s_conns s ≠ [] →
      main_step clients s (set_phase s Crashed)
  | main_collect s c rest a : s_phase s = Running (c :: rest) → dget c (s_answers s) = Some a →
      main_step clients s (on_done s c rest a)
  | main_end s : s_phase s = Running [] → main_step clients s (at_end s)
  | main_abort_fails s c : s_phase s = Waiting → s_expired s = true → s_phase (after_wait clients s) = Finished false →
      s_conns s ≠ [] → c ∈ clients → c ∉ s_conns s → main_step clients s (set_phase (on_hello clients s c) Crashed).

(** Steps of the client threads, of the clients and of the clock; a thread whose
    probe fails ends silently. *)
Inductive thread_step (clients : list string) : cstate → cstate → Prop :=
  | thread_hello s c : finished s = false → thread_step clients s (on_hello clients s c)
  | thread_ready s c : c ∈ s_pending s → finished s = false → thread_step clients s (on_ready s c)
  | thread_not_ready s c : c ∈ s_pending s → finished s = false → thread_step clients s (on_not_ready s c)
  | thread_lost s c : c ∈ s_pending s → finished s = false → thread_step clients s (drop_pending s c)
  | client_answers s c a : c ∈ s_conns s → finished s = false → thread_step clients s (on_answer s c a)
  | time_passes s : thread_step clients s (on_timeout s).

Definition step (clients : list string) (s s' : cstate) : Prop := main_step clients s s' ∨ thread_step clients s s'.

(** A run: any interleaving of the steps from the initial state. *)
Definition reachable (clients : list string) (s : cstate) : Prop := rtc (step clients) init_state s.
