(* ===== verification/CoordinatorCorrect.v ===== *)
(** * Distributed runs are faithful

    Messages survive any fragmentation of the stream; the shards follow the
    assignment, keep every dependency inside one shard and, when the assignment is
    computed, partition the operations; the measured clock offset is within the
    stated uncertainty; a run is complete only when every client served its shard
    exactly once; and what a run waits for, and when it ends, is stated exactly. *)

From stdpp Require Import prelude strings list numbers gmap sorting.
From Stdlib Require Import ZArith Lia Ascii.
From S2P Require Import Prelude PyText PyJson JsonText Intent Intent2 Workload3 IntentExec Coordinator.
Local Open Scope Z_scope.

(** ** Framing *)

(** The bytes still in a socket. *)
Fixpoint cat (s : sock) : string := match s with [] => EmptyString | c :: s => c +:+ cat s end.

(** Every piece of a socket holds a byte. *)
Definition pieces (s : sock) : Prop := Forall (λ c, c ≠ EmptyString) s.

Lemma substring_full c : String.substring 0 (String.length c) c = c.
Proof. induction c as [|a c IH]; [done|]. simpl. by rewrite IH. Qed.

Lemma substring_split k c :
  (k ≤ String.length c)%nat → String.substring 0 k c +:+ String.substring k (String.length c - k) c = c.
Proof.
  revert c. induction k as [|k IH]; intros c Hk.
  - rewrite Nat.sub_0_r, substring_full. by destruct c.
  - destruct c as [|a c]; [simpl in Hk; lia|]. simpl in *. rewrite sapp_cons. f_equal. apply IH. lia.
Qed.

Lemma substring_len k c : (k ≤ String.length c)%nat → String.length (String.substring 0 k c) = k.
Proof. revert c. induction k as [|k IH]; intros [|a c] Hk; simpl in *; try done; [lia|]. rewrite IH; lia. Qed.

Lemma slen_0 s : String.length s = 0%nat → s = EmptyString.
Proof. by destruct s. Qed.

(** One [recv]: a non-empty prefix of at most [k] bytes of what is left. *)
Lemma sock_recv_spec k s : (0 < k)%nat → pieces s → cat s ≠ EmptyString →
  ∃ c s', sock_recv k s = (c, s') ∧ cat s = c +:+ cat s' ∧ c ≠ EmptyString ∧ (String.length c ≤ k)%nat ∧ pieces s'.
Proof.
  intros Hk Hp Hne. destruct s as [|c s]; [done|]. apply Forall_cons in Hp as [Hc Hp]. unfold sock_recv.
  destruct (Nat.leb_spec (String.length c) k) as [Hle|Hgt]; [by eexists _, _|].
  eexists _, _. split; [done|]. pose proof (substring_split k c ltac:(lia)) as Hs. split_and!.
  - simpl. by rewrite <- sapp_assoc, Hs.
  - intros H0. pose proof (substring_len k c ltac:(lia)) as Hl. rewrite H0 in Hl. simpl in Hl. lia.
  - rewrite substring_len; lia.
  - constructor; [|done]. intros H0. rewrite H0, sapp_nil_r in Hs.
    pose proof (substring_len k c ltac:(lia)) as Hl. rewrite Hs in Hl. lia.
Qed.

Lemma sapp_len_inj (p q s t : string) : String.length p = String.length q → p +:+ s = q +:+ t → p = q ∧ s = t.
Proof.
  revert q. induction p as [|a p IH]; intros [|b q] Hl Heq; simpl in *; try lia; [done|].
  rewrite !sapp_cons in Heq. injection Heq as -> Heq. destruct (IH q) as [-> ->]; [lia|done|done].
Qed.

Lemma recv_loop_spec n want rest : String.length want = n → ∀ fuel buf left s,
  want = buf +:+ left → (String.length left ≤ fuel)%nat → pieces s → cat s = left +:+ rest →
  ∃ s', recv_loop fuel n buf s = Ok (Some want, s') ∧ cat s' = rest ∧ pieces s'.
Proof.
  intros Hn. induction fuel as [|fuel IH]; intros buf left s Hw Hf Hp Hc;
    pose proof (f_equal String.length Hw) as Hl; rewrite slen_app, Hn in Hl; unfold recv_loop; fold recv_loop.
  - assert (left = EmptyString) as -> by (apply slen_0; lia). rewrite sapp_nil_r in Hw. subst buf.
    replace (String.length want <? n)%nat with false by (symmetry; apply Nat.ltb_ge; lia). by exists s.
  - destruct (Nat.ltb_spec (String.length buf) n) as [Hlt|Hge].
    + destruct (sock_recv_spec (n - String.length buf) s) as (c & s' & Hr & Hcs & Hne & Hcl & Hp'); [lia|done| |].
      { rewrite Hc. destruct left; [simpl in Hl; lia|done]. }
      rewrite Hr. destruct (String.eqb_spec c EmptyString); [done|].
      rewrite Hc in Hcs.
      pose proof (substring_split (String.length c) left ltac:(lia)) as Hsp.
      set (l1 := String.substring 0 (String.length c) left) in *.
      set (l2 := String.substring (String.length c) (String.length left - String.length c) left) in *.
      assert (String.length l1 = String.length c) as Hl1 by (apply substring_len; lia).
      rewrite <- Hsp, sapp_assoc in Hcs. apply sapp_len_inj in Hcs as [Hc1 Hc2]; [|done].
      apply (IH (buf +:+ c) l2 s').
      * by rewrite sapp_assoc, <- Hc1, Hsp.
      * apply (f_equal String.length) in Hsp. rewrite slen_app in Hsp. destruct c; [done|]. simpl in *. lia.
      * done.
      * done.
    + assert (left = EmptyString) as -> by (apply slen_0; lia). rewrite sapp_nil_r in Hw. subst buf. by exists s.
Qed.

Lemma recv_exact_spec want rest s : pieces s → cat s = want +:+ rest →
  ∃ s', _recv_exact s (String.length want) = Ok (Some want, s') ∧ cat s' = rest ∧ pieces s'.
Proof. intros Hp Hc. by apply (recv_loop_spec _ want rest eq_refl _ EmptyString want s). Qed.

(** The end of the stream in the middle of a message is reported as [None]. *)
Lemma recv_loop_short n fuel buf s :
  pieces s → (String.length buf + String.length (cat s) < n)%nat → (n ≤ String.length buf + fuel)%nat →
  ∃ s', recv_loop fuel n buf s = Ok (None, s').
Proof.
  revert buf s. induction fuel as [|fuel IH]; intros buf s Hp Hs Hf; [lia|]. unfold recv_loop; fold recv_loop.
  replace (String.length buf <? n)%nat with true by (symmetry; apply Nat.ltb_lt; lia).
  destruct (decide (cat s = EmptyString)) as [He|Hne].
  - destruct s as [|c s]; [simpl; by eexists|]. apply Forall_cons in Hp as [Hc _]. destruct c; [done|]. done.
  - destruct (sock_recv_spec (n - String.length buf) s) as (c & s' & -> & Hcs & Hce & Hcl & Hp'); [lia|done..|].
    destruct (String.eqb_spec c EmptyString); [done|].
    rewrite Hcs, slen_app in Hs. apply IH; [done|rewrite slen_app; lia|].
    rewrite slen_app. destruct c; [done|]. simpl. lia.
Qed.

Lemma unpack_pack n h : pack_I n = Ok h → unpack_I h = Ok n ∧ String.length h = 4%nat.
Proof.
  unfold pack_I. destruct ((n <? 0) || (2 ^ 32 <=? n)) eqn:E; [done|].
  apply orb_false_iff in E as [H0%Z.ltb_ge H1%Z.leb_gt]. intros H. apply Ok_inj in H. subst h.
  split; [|done]. unfold unpack_I.
  assert (0 ≤ n / 2 ^ 24 < 256) by (split; [apply Z.div_pos; lia|apply Z.div_lt_upper_bound; lia]).
  pose proof (Z.mod_pos_bound (n / 2 ^ 16) 256 ltac:(lia)). pose proof (Z.mod_pos_bound (n / 2 ^ 8) 256 ltac:(lia)).
  pose proof (Z.mod_pos_bound n 256 ltac:(lia)). rewrite !code_chr by lia. f_equal.
  change (2 ^ 24) with (256 * 256 * 256). change (2 ^ 16) with (256 * 256). change (2 ^ 8) with 256.
  rewrite <- !Z.div_div by lia.
  pose proof (Z.div_mod n 256). pose proof (Z.div_mod (n / 256) 256). pose proof (Z.div_mod (n / 256 / 256) 256).
  lia.
Qed.

Lemma recv_whole obj h rest s :
  float_free obj = true → json_wf obj → pack_I (Z.of_nat (String.length (dumps Spaced obj))) = Ok h →
  pieces s → cat s = h +:+ dumps Spaced obj +:+ rest →
  ∃ s', recv s = Ok (Some (sort_keys obj), s') ∧ cat s' = rest ∧ pieces s'.
Proof.
  intros Hf Hw Hh Hp Hc. destruct (unpack_pack _ _ Hh) as [Hu Hl].
  destruct (recv_exact_spec h _ s Hp Hc) as (s1 & H1 & Hc1 & Hp1). rewrite Hl in H1.
  destruct (recv_exact_spec (dumps Spaced obj) rest s1 Hp1 Hc1) as (s2 & H2 & Hc2 & Hp2).
  exists s2. split; [|done]. unfold recv. rewrite H1. cbn [mbind res_bind]. rewrite Hu. cbn [mbind res_bind].
  rewrite Nat2Z.id, H2. cbn [mbind res_bind]. by rewrite loads_dumps.
Qed.

Lemma recv_cut data h p q s :
  pack_I (Z.of_nat (String.length data)) = Ok h → pieces s → cat s = p → p +:+ q = h +:+ data → q ≠ EmptyString →
  ∃ s', recv s = Ok (None, s').
Proof.
  intros Hh Hp Hc Hpq Hq. destruct (unpack_pack _ _ Hh) as [Hu Hl].
  pose proof (f_equal String.length Hpq) as Hlen. rewrite !slen_app, Hl in Hlen.
  assert (0 < String.length q)%nat as Hq0 by (destruct q; [done|simpl; lia]).
  destruct (decide (String.length p < 4)%nat) as [Hshort|Hlong].
  - destruct (recv_loop_short 4 4 EmptyString s Hp) as (s' & H1); [rewrite Hc; simpl; lia|simpl; lia|].
    exists s'. unfold recv, _recv_exact. by rewrite H1.
  - pose proof (substring_split 4 p ltac:(lia)) as Hsp. rewrite <- Hsp, sapp_assoc in Hpq.
    apply sapp_len_inj in Hpq as [Hhead Hbody]; [|rewrite substring_len; lia].
    rewrite Hhead in Hsp. rewrite <- Hsp in Hc.
    destruct (recv_exact_spec h _ s Hp Hc) as (s1 & H1 & Hc1 & Hp1). rewrite Hl in H1.
    apply (f_equal String.length) in Hbody. rewrite slen_app in Hbody.
    destruct (recv_loop_short (String.length data) (String.length data) EmptyString s1 Hp1) as (s2 & H2);
      [rewrite Hc1; simpl; lia|simpl; lia|].
    exists s2. unfold recv. rewrite H1. cbn [mbind res_bind]. rewrite Hu. cbn [mbind res_bind].
    unfold _recv_exact. by rewrite Nat2Z.id, H2.
Qed.

(** framing survives fragmentation. Whatever the pieces in which the bytes of
    a sent message arrive, and whatever follows them, [recv] returns the message
    (with its keys sorted) and leaves exactly what follows; if the stream ends
    anywhere inside the message, [recv] returns [None]. *)
Theorem recv_send obj frame :
  float_free obj = true → json_wf obj → send obj = Ok frame →
  (∀ rest s, pieces s → cat s = frame +:+ rest →
     ∃ s', recv s = Ok (Some (sort_keys obj), s') ∧ cat s' = rest ∧ pieces s') ∧
  (∀ p q s, pieces s → cat s = p → p +:+ q = frame → q ≠ EmptyString → ∃ s', recv s = Ok (None, s')).
Proof.
  intros Hf Hw Hs. unfold send in Hs. apply bind_Ok in Hs as (h & Hh & Hs). apply Ok_inj in Hs. subst frame.
  split.
  - intros rest s Hp Hc. rewrite sapp_assoc in Hc. by eapply recv_whole.
  - intros p q s Hp Hc Hpq Hq. by eapply recv_cut.
Qed.

Definition ex_msg : json := JObj [("msg", JStr "ping"); ("t0", JInt 7)].
Definition ex_frame : string := match send ex_msg with Ok f => f | Raise _ => EmptyString end.

(** The frame cut after its first byte, then in the middle of its body. *)
Definition ex_sock : sock :=
  [String.substring 0 1 ex_frame; String.substring 1 9 ex_frame; String.substring 10 100 ex_frame].

Lemma recv_send_witness : ∃ s', recv ex_sock = Ok (Some (sort_keys ex_msg), s').
Proof.
  destruct (recv_send ex_msg ex_frame) as [H _].
  - reflexivity.
  - apply json_wfb_sound. vm_compute. reflexivity.
  - vm_compute. reflexivity.
  - destruct (H EmptyString ex_sock) as (s' & Hr & _).
    + repeat (constructor; [by vm_compute|]). constructor.
    + vm_compute. reflexivity.
    + exists s'. exact Hr.
Defined.

(** ** Sharding *)
(** The client of an operation, by the owner table. *)
Definition own (m : list (hkey * string)) (o : json) : string :=
  match owner_at m (fld o "op_id") with Ok c => c | Raise _ => EmptyString end.

(** Operations with distinct ids. *)
Definition distinct_ids (ops : list json) : Prop :=
  ∀ i j o o' s, ops !! i = Some o → ops !! j = Some o' → fld o "op_id" = JStr s → fld o' "op_id" = JStr s → i = j.

Lemma validated_ids handles ops :
  (∀ s op, ops !! s = Some op → op_sound3 handles (take s ops) op) →
  distinct_ids ops ∧ (∀ o, o ∈ ops → ∃ s, fld o "op_id" = JStr s).
Proof.
  intros H. split.
  - assert (∀ i j o o' s, (i < j)%nat → ops !! i = Some o → ops !! j = Some o' →
      fld o "op_id" = JStr s → fld o' "op_id" = JStr s → False) as Hlt.
    { intros i j o o' s Hij Hi Hj Ho Ho'. destruct (H j o' Hj) as [(id & Hid & _ & Hfresh) _ _ _ _ _ _].
      rewrite Ho' in Hid. injection Hid as <-. apply (Hfresh i o); [|done]. by rewrite lookup_take_lt. }
    intros i j o o' s Hi Hj Ho Ho'. destruct (Nat.lt_trichotomy i j) as [?|[?|?]]; [exfalso; eauto|done|exfalso; eauto].
  - intros o [i Hi]%list_elem_of_lookup. destruct (H i o Hi) as [(id & Hid & _) _ _ _ _ _ _]. eauto.
Qed.

Lemma owner_at_str m s c : owner_at m (JStr s) = Ok c ↔ hget (KStr s) m = Some c.
Proof. unfold owner_at. simpl. destruct (hget (KStr s) m); split; congruence. Qed.

(** The table gives every operation the client of its stream. *)
Lemma owners_spec a ops m :
  owners a ops = Ok m → distinct_ids ops → (∀ o, o ∈ ops → ∃ s, fld o "op_id" = JStr s) →
  ∀ o, o ∈ ops → ∃ k s0 c, hkey_of (fld o "stream") = Ok k ∧ hget k a = Some (s0, c) ∧
    owner_at m (fld o "op_id") = Ok c.
Proof.
  intros Hm Hd Hs.
  set (P := λ (pre : list json) (m : list (hkey * string)), ∀ o, o ∈ pre → ∃ k s0 c,
    hkey_of (fld o "stream") = Ok k ∧ hget k a = Some (s0, c) ∧ owner_at m (fld o "op_id") = Ok c).
  assert (P ops m) as HP; [|exact HP]. revert Hm. unfold owners. apply foldM_inv; [by intros o ?%elem_of_nil|].
  intros pre x m1 m2 HP (post & Hops) Hx. apply bind_Ok in Hx as (id & Hid & Hx). apply bind_Ok in Hx as (s & Hst & Hx).
  apply bind_Ok in Hx as (k & Hk & Hx). apply bind_Ok in Hx as (c & Hc & Hx). apply bind_Ok in Hx as (ik & Hik & Hx).
  apply Ok_inj in Hx. subst m2. apply item_fld in Hid, Hst.
  destruct (hget k a) as [[s0 c0]|] eqn:Hka; [|done]. apply Ok_inj in Hc. subst c0.
  destruct (Hs x) as (xid & Hxid); [subst ops; set_solver|]. rewrite <- Hid, Hxid in Hik. apply Ok_inj in Hik. subst ik.
  intros o [Ho|Ho]%elem_of_app.
  - destruct (HP o Ho) as (k' & s' & c' & H1 & H2 & H3). exists k', s', c'. split_and!; [done..|].
    destruct (Hs o) as (oid & Hoid); [subst ops; set_solver|]. rewrite Hoid in H3 |- *. apply owner_at_str in H3.
    apply owner_at_str. rewrite hget_hset. rewrite decide_False; [done|]. intros [= ->].
    apply list_elem_of_lookup in Ho as [i Hi].
    assert (i = length pre) as ->; [|by rewrite lookup_ge_None_2 in Hi by done].
    apply (Hd i (length pre) o x xid); [..|done|done]; subst ops.
    + by apply lookup_app_l_Some.
    + by apply list_lookup_middle.
  - apply list_elem_of_singleton in Ho. subst o. exists k, s0, c. rewrite Hst. split_and!; [done..|].
    rewrite Hxid. apply owner_at_str. by rewrite hget_hset, decide_True.
Qed.

Lemma round_robin_clients clients streams a :
  round_robin clients streams = Ok a → ∀ k s c, hget k a = Some (s, c) → c ∈ clients.
Proof.
  unfold round_robin. intros H. revert H.
  apply (foldiM_inv _ (λ _ a, ∀ k s c, hget k a = Some (s, c) → c ∈ clients)); [done|].
  intros pre s a1 a2 Ha _ H. apply bind_Ok in H as (c & Hc & H). apply bind_Ok in H as (k & _ & H).
  apply Ok_inj in H. subst a2. intros k' s' c'. rewrite hget_hset. case_decide; [|by apply Ha]. intros [= _ <-].
  destruct clients as [|c0 cs]; [done|]. apply Ok_inj in Hc. rewrite <- Hc.
  apply list_elem_of_In, (nth_In (c0 :: cs) c0), Nat.mod_upper_bound. done.
Qed.

Lemma shard_ops_spec m c ops mine :
  shard_ops m c ops = Ok mine → mine = imap set_seq (List.filter (λ o, String.eqb (own m o) c) ops).
Proof.
  unfold shard_ops. intros H. apply bind_Ok in H as (kept & Hk & H). apply Ok_inj in H. subst mine. f_equal.
  revert Hk. apply (foldM_inv _ (λ pre out, out = List.filter (λ o, String.eqb (own m o) c) pre)); [done|].
  intros pre x out out' -> _ H. apply bind_Ok in H as (id & Hid & H). apply bind_Ok in H as (w & Hw & H).
  apply Ok_inj in H. subst out'. rewrite List.filter_app. simpl.
  assert (own m x = w) as -> by (unfold own; by rewrite (item_fld _ _ _ Hid), Hw). destruct (String.eqb w c); [done|]. by rewrite app_nil_r.
Qed.

Lemma crosses_false m o : crosses m o = Ok false →
  ∀ d, d ∈ as_list (fld o "deps") → owner_at m (fld d "op") = owner_at m (fld o "op_id").
Proof.
  unfold crosses. intros H. apply bind_Ok in H as (deps & Hd & H). apply bind_Ok in Hd as (v & Hv & Hd).
  apply bind_Ok in H as (bs & Hbs & H). apply Ok_inj in H. apply item_fld in Hv. rewrite Hv.
  destruct v as [| | | | |l|]; 
    try (simpl; intros ? Hin; by apply elem_of_nil in Hin). apply Ok_inj in Hd. subst l.
  apply mapMR_Ok in Hbs. intros d [i Hi]%list_elem_of_lookup.
  destruct (Forall2_lookup_l _ _ _ _ _ Hbs Hi) as (b & Hb & Hx).
  apply bind_Ok in Hx as (dop & Hdop & Hx). apply bind_Ok in Hx as (c1 & Hc1 & Hx).
  apply bind_Ok in Hx as (id & Hid & Hx). apply bind_Ok in Hx as (c2 & Hc2 & Hx). apply Ok_inj in Hx.
  rewrite (item_fld _ _ _ Hdop), (item_fld _ _ _ Hid), Hc1, Hc2. f_equal.
  assert (b = false) as ->.
  { destruct b; [|done]. exfalso. assert (existsb Datatypes.id bs = true) as Ht; [|congruence].
    apply existsb_exists. exists true. split; [|done]. apply list_elem_of_In. by eapply list_elem_of_lookup_2. }
  apply negb_false_iff, String.eqb_eq in Hx. done.
Qed.

Lemma make_shard_spec a m wl ops c s : make_shard a m wl ops c = Ok s →
  validate_workload s = Ok tt ∧
  fld s "operations" = JList (imap set_seq (List.filter (λ o, String.eqb (own m o) c) ops)).
Proof.
  unfold make_shard. intros H. apply bind_Ok in H as (mine & Hm & H). apply bind_Ok in H as (prov & _ & H).
  apply bind_Ok in H as (comp & _ & H). apply bind_Ok in H as (notes & _ & H). apply bind_Ok in H as (names & _ & H).
  apply bind_Ok in H as ([] & Hv & H). apply Ok_inj in H. subst s. split; [done|].
  apply shard_ops_spec in Hm. subst mine. simpl. unfold getd. rewrite !dget_dset. done.
Qed.

Lemma make_shards_spec a m wl ops clients shards :
  foldM (λ out c, s ← make_shard a m wl ops c; Ok (dset c s out)) [] clients = Ok shards →
  ∀ c, c ∈ clients → ∃ s, dget c shards = Some s ∧ make_shard a m wl ops c = Ok s.
Proof.
  apply (foldM_inv _ (λ pre out, ∀ c, c ∈ pre → ∃ s, dget c out = Some s ∧ make_shard a m wl ops c = Ok s)).
  - by intros c ?%elem_of_nil.
  - intros pre c out out' IH _ H. apply bind_Ok in H as (s & Hs & H). apply Ok_inj in H. subst out'.
    intros c' Hc'. rewrite dget_dset. destruct (String.eqb_spec c' c) as [->|Hne]; [eauto|].
    apply elem_of_app in Hc' as [?|?%list_elem_of_singleton]; [auto|congruence].
Qed.

(** Every operation is counted by exactly one client. *)
Lemma partition_count (f : json → string) clients ops :
  NoDup clients → (∀ o, o ∈ ops → f o ∈ clients) →
  sum_list_with (λ c, length (List.filter (λ o, String.eqb (f o) c) ops)) clients = length ops.
Proof.
  intros Hnd. induction ops as [|o ops IH]; intros Hin.
  - clear. induction clients as [|c cs IH]; simpl in *; lia.
  - simpl length. rewrite <- IH by set_solver.
    assert (f o ∈ clients) as Ho by set_solver. clear IH Hin.
    induction clients as [|c cs IHc]; [by apply elem_of_nil in Ho|].
    apply NoDup_cons in Hnd as [Hc Hnd]. simpl. destruct (String.eqb_spec (f o) c) as [He|Hne].
    + simpl. assert (∀ l, c ∉ l → sum_list_with (λ c0, length (if String.eqb (f o) c0 then o :: List.filter (λ o0, String.eqb (f o0) c0) ops
        else List.filter (λ o0, String.eqb (f o0) c0) ops)) l = sum_list_with (λ c0, length (List.filter (λ o0, String.eqb (f o0) c0) ops)) l) as Hsame.
      { clear -He. induction l as [|x l IH]; intros Hl; [done|]. apply not_elem_of_cons in Hl as [Hx Hl]. simpl.
        destruct (String.eqb_spec (f o) x); [congruence|]. by rewrite IH. }
      rewrite Hsame by done. lia.
    + apply elem_of_cons in Ho as [Ho|Ho]; [congruence|]. rewrite IHc by done. lia.
Qed.

Lemma length_filter_le {A} (p : A → bool) l : (length (List.filter p l) ≤ length l)%nat.
Proof. induction l as [|x l IH]; simpl; [done|]. destruct (p x); simpl; lia. Qed.

(** C29: sharding follows the assignment. Every operation of a valid workload
    belongs to the one client that has its stream, and so do its dependencies; the
    shard of each client is a valid workload that holds exactly the operations that
    belong to it, in order and renumbered; when the assignment is the computed one
    and the clients are distinct, the shards have all the operations. (An explicit
    assignment may name a client that takes no part, whose operations are in no
    shard: see [shard_workload_gaps].) *)
Theorem shard_workload_partition wl clients given shards a :
  validate_workload wl = Ok tt → shard_workload wl clients given = Ok (shards, a) →
  ∃ d ops owner, wl = JObj d ∧ getd d "operations" = JList ops ∧
    (∀ o, o ∈ ops → ∃ k s0, hkey_of (fld o "stream") = Ok k ∧ hget k a = Some (s0, owner o)) ∧
    (∀ o dep o', o ∈ ops → dep ∈ as_list (fld o "deps") → o' ∈ ops → fld o' "op_id" = fld dep "op" →
       owner o' = owner o) ∧
    (∀ c, c ∈ clients → ∃ s, dget c shards = Some s ∧ validate_workload s = Ok tt ∧
       fld s "operations" = JList (imap set_seq (List.filter (λ o, String.eqb (owner o) c) ops))) ∧
    (given = None → NoDup clients →
       sum_list_with (λ c, length (List.filter (λ o, String.eqb (owner o) c) ops)) clients = length ops).
Proof.
  intros Hval H. destruct (validate_workload_Ok _ Hval) as (d & ns & entries & handles & ops & -> & _ & _ & _ & Hops & _ & Hsound).
  destruct (validated_ids _ _ Hsound) as [Hdist Hids].
  unfold shard_workload in H. apply bind_Ok in H as (ops' & Hv & H). apply bind_Ok in Hv as (v & Hv & Hit).
  apply item_fld in Hv. simpl in Hv. rewrite Hops in Hv. subst v. apply Ok_inj in Hit. subst ops'.
  apply bind_Ok in H as (streams & _ & H). apply bind_Ok in H as (a' & Ha & H). apply bind_Ok in H as (ks & _ & H).
  apply bind_Ok in H as ([] & _ & H). apply bind_Ok in H as (m & Hm & H). apply bind_Ok in H as (cross & Hcross & H).
  apply bind_Ok in H as ([] & Hno & H). apply bind_Ok in H as (sh & Hsh & H). apply Ok_inj in H. injection H as -> ->.
  apply raise_if_Ok' in Hno.
  pose proof (owners_spec a ops m Hm Hdist Hids) as Hown.
  assert (∀ o, o ∈ ops → owner_at m (fld o "op_id") = Ok (own m o)) as Hat.
  { intros o Ho. destruct (Hown o Ho) as (_ & _ & c & _ & _ & Hc). unfold own. by rewrite Hc. }
  exists d, ops, (own m). split_and!; [done..| | | |].
  - intros o Ho. destruct (Hown o Ho) as (k & s0 & c & Hk & Hg & Hc). exists k, s0. split; [done|].
    rewrite (Hat o Ho) in Hc. apply Ok_inj in Hc. by rewrite Hc.
  - intros o dep o' Ho Hdep Ho' Heq. apply mapMR_Ok in Hcross. apply list_elem_of_lookup in Ho as [i Hi].
    destruct (Forall2_lookup_l _ _ _ _ _ Hcross Hi) as (b & Hb & Hc).
    assert (b = false) as ->.
    { destruct b; [|done]. exfalso. assert (existsb id cross = true); [|congruence].
      apply existsb_exists. exists true. split; [|done]. apply list_elem_of_In. by eapply list_elem_of_lookup_2. }
    pose proof (crosses_false m o Hc dep Hdep) as Hsame. rewrite <- Heq, (Hat o' Ho') in Hsame.
    rewrite (Hat o) in Hsame by (by eapply list_elem_of_lookup_2). by apply Ok_inj in Hsame.
  - intros c Hc. destruct (make_shards_spec _ _ _ _ _ _ Hsh c Hc) as (s & Hs & Hmk). exists s. split; [done|].
    by eapply make_shard_spec.
  - intros -> Hnd. apply partition_count; [done|]. intros o Ho. destruct (Hown o Ho) as (k & s0 & c & _ & Hg & Hc).
    rewrite (Hat o Ho) in Hc. apply Ok_inj in Hc. rewrite Hc. by eapply round_robin_clients.
Qed.

(** Two streams that each open a file of their own. *)
Definition ex_streams (completeness : dict) : json :=
  let op id seq stream handle :=
    JObj [("op_id", JStr id); ("seq", JInt seq); ("family", JStr "posix"); ("call", JStr "open");
          ("args", JObj [("path", JStr "d/f"); ("flags", JList [JStr "rd"]); ("handle", JStr handle)]);
          ("stream", JStr stream); ("deps", JList [])] in
  JObj [("schema", JStr SCHEMA3);
        ("provenance", JObj [("capture_level", JStr "api"); ("mapping_method", JStr "verified");
           ("completeness", JObj completeness);
           ("timing_model", JStr "absent"); ("release_provenance", JStr "none")]);
        ("engine", JObj [("family", JStr "posix"); ("name", JStr "n"); ("revision", JStr "r")]);
        ("content_profile", JStr "incompressible");
        ("namespace", JObj [("nodes", JObj [("n0", JObj [("kind", JStr "file"); ("size", JInt 8)])]);
           ("entries", JList [JObj [("path", JStr "d/f"); ("node", JStr "n0")]]); ("handles", JObj [])]);
        ("operations", JList [op "a" 0 "s0" "h0"; op "b" 1 "s1" "h1"; op "c" 2 "s0" "h2"]);
        ("health", JObj [])].

Definition with_notes : dict := [("status", JStr "complete"); ("notes", JList [])].

Definition ex_sharded : list (string * json) * assignment :=
  match shard_workload (ex_streams with_notes) ["c0"; "c1"] None with Ok r => r | Raise _ => ([], []) end.

Lemma shard_workload_partition_witness :
  ∃ d ops owner, ex_streams with_notes = JObj d ∧ getd d "operations" = JList ops ∧
    sum_list_with (λ c, length (List.filter (λ o, String.eqb (owner o) c) ops)) ["c0"; "c1"] = length ops.
Proof.
  destruct (shard_workload_partition (ex_streams with_notes) ["c0"; "c1"] None ex_sharded.1 ex_sharded.2)
    as (d & ops & owner & H1 & H2 & _ & _ & _ & H3).
  - vm_compute. reflexivity.
  - vm_compute. reflexivity.
  - exists d, ops, owner. split; [exact H1|]. split; [exact H2|]. apply H3; [reflexivity|].
    apply (bool_decide_unpack _). vm_compute. reflexivity.
Defined.

(** Two valid workloads that the sharding does not carry over. An explicit
    assignment may name a client that takes no part: the operations of its streams
    are in no shard, and no error is raised; and a valid workload without
    completeness notes raises [KeyError]. *)
Theorem shard_workload_gaps :
  validate_workload (ex_streams with_notes) = Ok tt ∧
  (∃ s a, shard_workload (ex_streams with_notes) ["c0"]
            (Some [(KStr "s0", (JStr "s0", "c0")); (KStr "s1", (JStr "s1", "ghost"))]) = Ok ([("c0", s)], a) ∧
     length (as_list (fld s "operations")) = 2%nat ∧
     length (as_list (fld (ex_streams with_notes) "operations")) = 3%nat) ∧
  validate_workload (ex_streams [("status", JStr "complete")]) = Ok tt ∧
  shard_workload (ex_streams [("status", JStr "complete")]) ["c0"] None = Raise (Exn KeyError "notes").
Proof.
  split; [vm_compute; reflexivity|]. split; [|split; vm_compute; reflexivity].
  eexists _, _. split; [vm_compute; reflexivity|]. split; vm_compute; reflexivity.
Qed.

(** ** Clocks *)
Lemma pair_lt_min s l : let m := min_sample s l in
  m ∈ s :: l ∧ ∀ x, x ∈ s :: l → m.1 ≤ x.1.
Proof.
  unfold min_sample. revert s. induction l as [|y l IH]; intros s; simpl.
  - split; [left|]. intros x Hx%list_elem_of_singleton. subst. lia.
  - destruct (IH (if pair_lt y s then y else s)) as [Hin Hle]. split.
    + apply elem_of_cons in Hin as [->|Hin]; [|by do 2 right]. destruct (pair_lt y s); [right; left|left].
    + intros x Hx. unfold pair_lt in *.
      assert (∀ z, z = y ∨ z = s → (fold_left (λ m x, if pair_lt x m then x else m) l
        (if pair_lt y s then y else s)).1 ≤ z.1) as Hys.
      { intros z Hz. transitivity ((if pair_lt y s then y else s).1); [apply Hle; left|]. unfold pair_lt.
        destruct Hz as [-> | ->]; destruct ((y.1 <? s.1) || ((y.1 =? s.1) && (y.2 <? s.2))) eqn:E; lia. }
      apply elem_of_cons in Hx as [->|Hx]; [apply Hys; by right|].
      apply elem_of_cons in Hx as [->|Hx]; [apply Hys; by left|].
      apply Hle. by right.
Qed.

(** The loop of [_merge] over the time fields [fs] of a row: client fields are
    kept, and every integer gets its coordinator time. *)
Lemma merge_fields_spec (g : Z → Z) fs r0 r :
  NoDup fs → (∀ f f', f ∈ fs → f' ∈ fs → "coord_" +:+ f ≠ f') →
  foldM (λ r k, match getd r k with
                | JNull => Ok r
                | v => x ← as_int v; Ok (dset ("coord_" +:+ k) (JInt (g x)) r)
                end) r0 fs = Ok r →
  (∀ k, (∀ f, f ∈ fs → k ≠ "coord_" +:+ f) → dget k r = dget k r0) ∧
  (∀ f x, f ∈ fs → dget f r0 = Some (JInt x) → dget ("coord_" +:+ f) r = Some (JInt (g x))).
Proof.
  revert r0. induction fs as [|f fs IH]; intros r0 Hnd Hdis H.
  - apply Ok_inj in H. subst r. split; [done|]. by intros f x ?%elem_of_nil.
  - apply NoDup_cons in Hnd as [Hf Hnd]. cbn [foldM] in H. apply bind_Ok in H as (r1 & H1 & H).
    destruct (IH r1 Hnd) as [Hkeep Hset]; [intros f1 f2 ??; apply Hdis; by right|done|].
    assert (r1 = r0 ∨ ∃ x, r1 = dset ("coord_" +:+ f) (JInt x) r0) as Hr1.
    { destruct (getd r0 f); [apply Ok_inj in H1; by left|..]; right; res_inv; eauto. }
    assert (∀ k, k ≠ "coord_" +:+ f → dget k r1 = dget k r0) as Hother.
    { intros k Hk. destruct Hr1 as [->|[x ->]]; [done|]. rewrite dget_dset. by destruct (String.eqb_spec k ("coord_" +:+ f)). }
    split.
    + intros k Hk. rewrite Hkeep by (intros f' ?; apply Hk; by right). apply Hother, Hk. left.
    + intros f' x [->|Hf']%elem_of_cons Hx.
      * unfold getd in H1. rewrite Hx in H1. apply Ok_inj in H1. subst r1.
        rewrite Hkeep; [apply dget_dset_eq|]. intros f' Hf' Heq%sapp_inj_l. by subst.
      * apply Hset; [done|]. rewrite Hother; [done|]. intros ->. apply (Hdis f ("coord_" +:+ f)); [left|by right|done].
Qed.

Lemma time_fields_ok : NoDup TIME_FIELDS ∧ ∀ f f', f ∈ TIME_FIELDS → f' ∈ TIME_FIELDS → "coord_" +:+ f ≠ f'.
Proof.
  split; [apply (bool_decide_unpack _); vm_compute; reflexivity|].
  assert (forallb (λ f, forallb (λ f', negb (String.eqb ("coord_" +:+ f) f')) TIME_FIELDS) TIME_FIELDS = true) as H
    by (vm_compute; reflexivity).
  rewrite forallb_forall in H. intros f f' Hf%list_elem_of_In Hf'%list_elem_of_In Heq.
  specialize (H f Hf). rewrite forallb_forall in H. specialize (H f' Hf').
  by rewrite Heq, String.eqb_refl in H.
Qed.

Lemma merge_row_spec c t0 off start row r f x :
  merge_row c t0 off start row = Ok r → f ∈ TIME_FIELDS → dget f row = Some (JInt x) →
  dget f r = Some (JInt x) ∧ dget ("coord_" +:+ f) r = Some (JInt (x + t0 - off - start)).
Proof.
  intros H Hf Hx. destruct time_fields_ok as [Hnd Hdis].
  apply (merge_fields_spec (λ x, x + t0 - off - start)) in H as [Hkeep Hset]; [|done..].
  assert (dget f (dset "client" (JStr c) row) = Some (JInt x)) as Hx'.
  { rewrite dget_dset. destruct (String.eqb_spec f "client") as [->|]; [|done].
    exfalso. revert Hf. apply (bool_decide_unpack _). vm_compute. reflexivity. }
  split; [|by apply Hset]. rewrite Hkeep; [done|]. intros f' Hf' Heq. by apply (Hdis f' f).
Qed.

Lemma probe_sample_bound t0 t1 tc delta :
  t0 ≤ tc - delta ≤ t1 → let s := probe_sample t0 t1 tc in - (s.1 / 2) ≤ s.2 - delta ≤ s.1 / 2 + 1.
Proof.
  intros Ht. unfold probe_sample. simpl. pose proof (Z.div_mod (t1 - t0) 2 ltac:(lia)).
  pose proof (Z.mod_pos_bound (t1 - t0) 2 ltac:(lia)). lia.
Qed.

(** the measured clock. If the client's clock runs [delta] ahead and it
    answered each probe between its send and its receipt, the measured offset is
    at most the recorded uncertainty below [delta] and at most one nanosecond more
    than it above; the probe used is one with the shortest round trip. The
    coordinator times of the merged rows are then off by at most that much, and
    the client's own times are kept. *)
Theorem probe_clock_bound trips delta k :
  (∀ t0 t1 tc, (t0, t1, tc) ∈ trips → t0 ≤ tc - delta ≤ t1) → _probe_clock trips = Ok k →
  - k_uncertainty k ≤ k_offset k - delta ≤ k_uncertainty k + 1 ∧
  (∀ t0 t1 tc, (t0, t1, tc) ∈ trips → k_min_rtt k ≤ t1 - t0) ∧
  (∀ c t0 start row r f x, merge_row c t0 (k_offset k) start row = Ok r → f ∈ TIME_FIELDS →
     dget f row = Some (JInt x) → dget f r = Some (JInt x) ∧
     ∃ y, dget ("coord_" +:+ f) r = Some (JInt y) ∧
       - (k_uncertainty k + 1) ≤ y - (x + t0 - delta - start) ≤ k_uncertainty k).
Proof.
  intros Hsym Hk. unfold _probe_clock in Hk.
  destruct (map (λ t, probe_sample t.1.1 t.1.2 t.2) trips) as [|s l] eqn:Es; [done|].
  apply Ok_inj in Hk. subst k. simpl. destruct (pair_lt_min s l) as [Hin Hle]. set (m := min_sample s l) in *.
  rewrite <- Es in Hin, Hle. apply list_elem_of_In, in_map_iff in Hin as ([[t0 t1] tc] & Hm & Ht%list_elem_of_In).
  simpl in Hm. pose proof (probe_sample_bound t0 t1 tc delta (Hsym _ _ _ Ht)) as Hb. rewrite Hm in Hb. cbv zeta in Hb.
  split; [done|]. split.
  - intros u0 u1 uc Hu. apply (Hle (probe_sample u0 u1 uc)).
    apply list_elem_of_In, in_map_iff. exists (u0, u1, uc). split; [done|]. by apply list_elem_of_In.
  - intros c s0 start row r f x Hr Hf Hx. destruct (merge_row_spec _ _ _ _ _ _ _ _ Hr Hf Hx) as [H1 H2].
    split; [done|]. eexists. split; [done|]. lia.
Qed.

Lemma probe_clock_bound_witness :
  ∃ k, _probe_clock [(100, 107, 1004); (200, 203, 1101)] = Ok k ∧
    - k_uncertainty k ≤ k_offset k - 900 ≤ k_uncertainty k + 1.
Proof.
  eexists. split; [reflexivity|].
  apply (probe_clock_bound [(100, 107, 1004); (200, 203, 1101)] 900); [|reflexivity].
  intros t0 t1 tc Ht. apply elem_of_cons in Ht as [[= -> -> ->]|Ht]; [lia|].
  apply list_elem_of_singleton in Ht. injection Ht as -> -> ->. lia.
Defined.

(** ** The protocol *)

(** [step_cases]: the steps of a run, one case per rule. *)
Ltac step_cases H := destruct H as [H|H]; inversion H; subst; clear H.

(** Without failures the connected clients are clients of the run, once each,
    and so are the ready ones; the answers that are still to be collected are
    those of the other connected clients. *)
Record run_inv (clients : list string) (s : cstate) : Prop := {
  ri_conns : NoDup (s_conns s);
  ri_known : ∀ c, c ∈ s_conns s → c ∈ clients;
  ri_pending : NoDup (s_pending s) ∧ ∀ c, c ∈ s_pending s → c ∈ s_conns s ∧ c ∉ s_ready s;
  ri_ready : NoDup (s_ready s) ∧ ∀ c, c ∈ s_ready s → c ∈ s_conns s;
  ri_phase : match s_phase s with
             | Waiting => s_results s = [] ∧ s_ok s = true
             | Running todo =>
                 (∀ c, c ∈ clients → c ∈ s_ready s) ∧ (∀ c, c ∈ s_conns s ↔ c ∈ clients) ∧
                 (s_ok s = true → s_conns s = s_results s ++ todo) ∧ (∃ pre, s_conns s = pre ++ todo)
             | Finished true =>
                 s_failures s = [] ∧ s_conns s = s_results s ∧
                 (∀ c, c ∈ clients → c ∈ s_ready s) ∧ (∀ c, c ∈ s_conns s ↔ c ∈ clients)
             | Finished false | Crashed => True
             end
}.

Lemma run_inv_init clients : run_inv clients init_state.
Proof.
  constructor; simpl; [constructor|intros c Hc; by apply elem_of_nil in Hc|..]; try done.
  all: split; [constructor|intros c Hc; by apply elem_of_nil in Hc].
Qed.

Lemma run_inv_failure clients s c why : run_inv clients s → finished s = false → run_inv clients (add_failure s c why).
Proof.
  intros [H1 H2 H3 H4 H5] Hf. constructor; try done. simpl in *. unfold finished in Hf. by destruct (s_phase s).
Qed.

(** What arrives, and the time, are not part of it. *)
Lemma run_inv_arrives clients s c a : run_inv clients s → run_inv clients (on_answer s c a).
Proof. by intros []. Qed.
Lemma run_inv_timeout clients s : run_inv clients s → run_inv clients (on_timeout s).
Proof. by intros []. Qed.
Lemma run_inv_crash clients s : run_inv clients s → run_inv clients (set_phase s Crashed).
Proof. by intros []. Qed.

Lemma run_inv_drop clients s c : run_inv clients s → run_inv clients (drop_pending s c).
Proof.
  intros [H1 H2 [H3 H3'] H4 H5]. constructor; try done. simpl. split; [by apply NoDup_filter|].
  intros x [_ Hx]%list_elem_of_filter. by apply H3'.
Qed.

Lemma run_inv_hello clients s c : run_inv clients s → finished s = false → run_inv clients (on_hello clients s c).
Proof.
  intros Hi Hf. unfold on_hello. case_bool_decide as Hc; [done|].
  case_bool_decide as Hk; [by apply run_inv_failure|]. destruct Hi as [H1 H2 [H3 H3'] [H4 H4'] H5].
  constructor; simpl.
  - apply NoDup_app. split_and!; [done| |apply NoDup_singleton]. intros x Hx Hin%list_elem_of_singleton. congruence.
  - intros x [?|Hx%list_elem_of_singleton]%elem_of_app; [auto|by subst].
  - split.
    + constructor; [|done]. intros Hin. apply Hk, (H3' c Hin).
    + intros x [->|Hx]%elem_of_cons; rewrite elem_of_app.
      * split; [right; left|]. intros Hr. by apply Hk, H4'.
      * split; [left|]; by apply H3'.
  - split; [done|]. intros x Hx. rewrite elem_of_app. left. auto.
  - unfold finished in Hf. destruct (s_phase s) as [|todo| |]; [done| |done|done].
    destruct H5 as (_ & H5 & _). exfalso. by apply Hk, H5.
Qed.

Lemma run_inv_ready clients s c : run_inv clients s → c ∈ s_pending s → finished s = false →
  run_inv clients (on_ready s c).
Proof.
  intros Hi Hc Hf. pose proof (run_inv_drop _ _ c Hi) as [D1 D2 [D3 D3'] D4 D5].
  destruct Hi as [H1 H2 [H3 H3'] [H4 H4'] H5]. destruct (H3' c Hc) as [Hcc Hcr].
  constructor; simpl in *; try done.
  - split; [done|]. intros x Hx. split; [by apply D3'|]. rewrite elem_of_app, list_elem_of_singleton.
    intros [Hr| ->]; [by apply (D3' x Hx)|]. by apply list_elem_of_filter in Hx as [? _].
  - split.
    + apply NoDup_app. split_and!; [done| |apply NoDup_singleton]. intros x Hx Hin%list_elem_of_singleton. congruence.
    + intros x [?|Hx%list_elem_of_singleton]%elem_of_app; [auto|by subst].
  - unfold finished in Hf. destruct (s_phase s) as [|todo| |]; [done| |done|done].
    destruct H5 as (H5 & _ & _). exfalso. apply Hcr, H5, H2, Hcc.
Qed.

(** Everyone connected and as many ready as there are clients: all are ready. *)
Lemma all_ready (clients ready : list string) :
  NoDup ready → (∀ c, c ∈ ready → c ∈ clients) → length ready = length clients → ∀ c, c ∈ clients → c ∈ ready.
Proof.
  intros Hnd Hin Hlen c Hc. apply list_elem_of_In.
  assert (incl clients ready) as Hi; [|by apply Hi, list_elem_of_In].
  apply NoDup_length_incl; [by apply NoDup_ListNoDup|lia|].
  intros x Hx. apply list_elem_of_In, Hin. by apply list_elem_of_In.
Qed.

Lemma run_inv_wait clients s : run_inv clients s → s_phase s = Waiting → run_inv clients (after_wait clients s).
Proof.
  intros Hi Hw. unfold after_wait.
  destruct (negb (bool_decide (List.filter _ clients = [])) || _ || _) eqn:E;
    destruct Hi as [H1 H2 H3 [H4 H4'] H5]; rewrite Hw in H5; [by constructor|].
  rewrite !orb_false_iff, !negb_false_iff in E. destruct E as [[Hm%bool_decide_eq_true Hf%bool_decide_eq_true] He%Nat.eqb_eq].
  assert (∀ c, c ∈ clients → c ∈ s_conns s) as Hall.
  { intros c Hc. destruct (decide (c ∈ s_conns s)) as [?|Hn]; [done|exfalso].
    assert (c ∈ List.filter (λ c, negb (bool_decide (c ∈ s_conns s))) clients) as Hin.
    { apply list_elem_of_In, filter_In. split; [by apply list_elem_of_In|]. by rewrite bool_decide_false. }
    rewrite Hm in Hin. by apply elem_of_nil in Hin. }
  constructor; try done; simpl. destruct H5 as [Hres Hok]. split_and!.
  - apply all_ready; [done| |done]. intros c Hc. by apply H2, H4'.
  - intros c. split; auto.
  - intros _. by rewrite Hres.
  - by exists [].
Qed.

Lemma run_inv_collect clients s c rest b : run_inv clients s → s_phase s = Running (c :: rest) →
  run_inv clients (on_done s c rest b).
Proof.
  intros Hi Hp. pose proof Hi as [H1 H2 H3 H4 H5]. rewrite Hp in H5. destruct H5 as (Hr & Hc & Ho & pre & Hpre).
  destruct b; [| |by apply run_inv_crash]; constructor; try done; simpl; split_and!; try done.
  - intros Hok. rewrite (Ho Hok), <- app_assoc. done.
  - exists (pre ++ [c]). by rewrite <- app_assoc.
  - exists (pre ++ [c]). by rewrite <- app_assoc.
Qed.

Lemma run_inv_end clients s : run_inv clients s → s_phase s = Running [] → run_inv clients (at_end s).
Proof.
  intros [H1 H2 H3 H4 H5] Hp. rewrite Hp in H5. destruct H5 as (Hr & Hc & Ho & _).
  constructor; try done; simpl. destruct (s_ok s && bool_decide (s_failures s = [])) eqn:E; [|done].
  apply andb_true_iff in E as [Hok Hf%bool_decide_eq_true]. split_and!; try done.
  rewrite (Ho Hok). apply app_nil_r.
Qed.

Lemma reachable_inv clients s : reachable clients s → run_inv clients s.
Proof.
  intros H. refine (rtc_ind_r (R := step clients) (run_inv clients) init_state (run_inv_init clients) _ s H).
  clear s H. intros s1 s2 _ Hs IH. step_cases Hs.
  - by apply run_inv_wait.
  - by apply run_inv_crash.
  - by apply run_inv_collect.
  - by apply run_inv_end.
  - apply run_inv_crash, run_inv_hello; [done|]. unfold finished. by rewrite H.
  - by apply run_inv_hello.
  - by apply run_inv_ready.
  - apply run_inv_failure; [by apply run_inv_drop|done].
  - by apply run_inv_drop.
  - by apply run_inv_arrives.
  - by apply run_inv_timeout.
Qed.

(** C30: a run is reported complete only if it is. In every interleaving of the
    client threads and the main thread that ends with status [complete], every
    client connected once, was ready when the start was sent, and returned its
    result, in connection order; no failure, and in particular no duplicate claim
    of a shard, was recorded. *)
Theorem complete_run clients s :
  reachable clients s → s_phase s = Finished true →
  s_failures s = [] ∧ s_results s = s_conns s ∧ NoDup (s_results s) ∧
  (∀ c, c ∈ clients → c ∈ s_ready s ∧ c ∈ s_results s) ∧ (∀ c, c ∈ s_results s → c ∈ clients).
Proof.
  intros [H1 H2 H3 H4 H5]%reachable_inv Hp. rewrite Hp in H5. destruct H5 as (Hf & Hr & Hrdy & Hc).
  rewrite <- Hr. split_and!; try done. intros c Hin. split; [auto|]. by apply Hc.
Qed.

(** The main thread's remaining steps, and whether it has none. *)
Definition main_work (clients : list string) (s : cstate) : nat :=
  match s_phase s with
  | Waiting => length clients + 2
  | Running todo => length todo + 1
  | Finished _ | Crashed => 0
  end.

Definition ended (s : cstate) : bool := match s_phase s with Finished _ | Crashed => true | _ => false end.

(** The main thread waits: for the clients to be ready, with time left; or for
    the answer of the next client, for as long as it takes. *)
Definition blocked (clients : list string) (s : cstate) : Prop :=
  match s_phase s with
  | Waiting => length (s_ready s) ≠ length clients ∧ s_expired s = false
  | Running (c :: _) => ∀ a, (c, a) ∉ s_answers s
  | _ => False
  end.

Lemma no_answer c (l : list (string * answer)) : dget c l = None ↔ ∀ a, (c, a) ∉ l.
Proof.
  induction l as [|[c' a'] l IH]; [split; [intros _ a Ha; by apply elem_of_nil in Ha|done]|]. cbn [dget].
  destruct (String.eqb_spec c c') as [->|Hne].
  - split; [done|]. intros H. destruct (H a'). by left.
  - rewrite IH. split; intros H a; [|intros Ha; apply (H a); by right]. intros [[= -> ->]|Ha]%elem_of_cons; [done|by apply (H a)].
Qed.

Lemma conns_bounded clients s : run_inv clients s → (length (s_conns s) ≤ length clients)%nat.
Proof.
  intros [H1 H2 _ _ _]. apply submseteq_length, NoDup_submseteq; [done|]. exact H2.
Qed.

(** C31: how a run ends.  The main thread takes at most [clients + 2] steps, each of
    which reduces the work left, and no step of another thread adds to it.  Until
    it has ended, with a status or an exception, it can take a step unless it
    waits: for the clients to be ready, and then no longer than the time-out; or
    for the answer of the next client, for which it has no time-out.  So the run
    ends once the time-out is over and every connected client has answered or
    has closed its connection; a client that stays connected and silent after
    the start stops it for good. *)
Theorem run_terminates clients s :
  reachable clients s →
  (∀ s', main_step clients s s' → (main_work clients s' < main_work clients s)%nat) ∧
  (∀ s', thread_step clients s s' → main_work clients s' = main_work clients s) ∧
  (main_work clients s = 0%nat ↔ ended s = true) ∧ (main_work clients s ≤ length clients + 2)%nat ∧
  (ended s = false → ((∃ s', main_step clients s s') ↔ ¬ blocked clients s)) ∧
  (s_phase s = Waiting → ∃ s', main_step clients (on_timeout s) s') ∧
  (s_expired s = true → (∀ c, c ∈ s_conns s → ∃ a, (c, a) ∈ s_answers s) → ended s = false → ∃ s', main_step clients s s') ∧
  (∀ c rest, s_phase s = Running (c :: rest) → (∀ a, (c, a) ∉ s_answers s) → ∀ s', ¬ main_step clients s s').
Proof.
  intros Hi%reachable_inv. pose proof (conns_bounded clients s Hi) as Hb.
  assert (ended s = false → ((∃ s', main_step clients s s') ↔ ¬ blocked clients s)) as Hiff.
  { unfold ended, blocked. intros He. destruct (s_phase s) as [|[|c rest]| |] eqn:Hp; try done.
    - split.
      + intros [s' Hs] [Hr Hx]. inversion Hs as [s1 Hp1 Hw|s1 Hp1 Hr1|s1 c rest a Hp1|s1 Hp1|s1 c Hp1 Hx1]; subst s1; try congruence.
        * rewrite Hx, orb_false_r in Hw. unfold all_set in Hw. by apply Nat.eqb_eq in Hw.
        * unfold after_wait, all_set in Hr1. apply Nat.eqb_neq in Hr. rewrite Hr, orb_true_r in Hr1. done.
      + intros Hn. eexists. apply main_wait; [done|]. unfold all_set. destruct (Nat.eqb_spec (length (s_ready s)) (length clients)); [done|].
        destruct (s_expired s) eqn:Hx; [done|]. by destruct Hn.
    - split; [by intros _ []|]. intros _. eexists. by apply main_end.
    - split.
      + intros [s' Hs] Hno. inversion Hs as [s1 Hp1 Hw|s1 Hp1 Hr1|s1 c1 rest1 a Hp1 Ha|s1 Hp1|s1 c1 Hp1 Hx1]; subst s1; try congruence.
        rewrite Hp in Hp1. injection Hp1 as <- <-. apply no_answer in Hno. congruence.
      + intros Hn. destruct (dget c (s_answers s)) as [a|] eqn:Ea; [eexists; by eapply main_collect|]. destruct Hn. by apply no_answer. }
  split_and!.
  - intros s' Hs. unfold main_work.
    inversion Hs as [s1 Hp Hw|s1 Hp Hr|s1 c rest b Hp Ha|s1 Hp|s1 c Hp Hx Hf Hc Hin Hnew]; subst s1; subst; rewrite Hp.
    + unfold after_wait. destruct (_ || _ || _); simpl; lia.
    + simpl. lia.
    + destruct b; simpl; lia.
    + simpl. lia.
    + simpl. lia.
  - intros s' Hs. destruct Hs as [s c Hf|s c _ Hf|s c _ Hf|s c _ Hf| |]; unfold main_work, on_hello; simpl; try done.
    case_bool_decide; [done|]. by case_bool_decide.
  - unfold main_work, ended. destruct (s_phase s); simpl; split; intros; try done; lia.
  - unfold main_work. destruct (s_phase s) as [|todo| |] eqn:Hp; [lia| |lia..].
    pose proof (ri_phase _ _ Hi) as H5. rewrite Hp in H5. destruct H5 as (_ & _ & _ & pre & Hpre).
    rewrite Hpre, length_app in Hb. lia.
  - done.
  - intros Hp. eexists. apply main_wait; [exact Hp|apply orb_true_r].
  - intros Hx Hall He. apply Hiff; [done|]. clear Hiff. unfold blocked, ended in *. destruct (s_phase s) as [|[|c rest]| |] eqn:Hp; try done.
    + intros [_ ?]. congruence.
    + by intros [].
    + intros Hno. pose proof (ri_phase _ _ Hi) as H5. rewrite Hp in H5. destruct H5 as (_ & _ & _ & pre & Hpre).
      destruct (Hall c) as [a Ha]; [rewrite Hpre; set_solver|]. by apply (Hno a).
  - intros c rest Hp Hno s' Hs. assert (¬ blocked clients s) as Hnb; [|apply Hnb; unfold blocked; by rewrite Hp].
    apply Hiff; [unfold ended; by rewrite Hp|]. by exists s'.
Qed.

(** A run of two clients that completes. *)
Definition ex_run : cstate :=
  {| s_conns := ["a"; "b"]; s_pending := []; s_ready := ["b"; "a"]; s_failures := []; s_results := ["a"; "b"];
     s_ok := true; s_expired := false; s_answers := [("b", Reply_done); ("a", Reply_done)]; s_phase := Finished true |}.

Ltac next_step := eapply rtc_l; [right|].
Ltac in_list := apply (bool_decide_unpack _); vm_compute; reflexivity.

(** Both are ready, and the start is sent. *)
Definition ex_started : cstate :=
  {| s_conns := ["a"; "b"]; s_pending := []; s_ready := ["b"; "a"]; s_failures := []; s_results := [];
     s_ok := true; s_expired := false; s_answers := []; s_phase := Running ["a"; "b"] |}.

Lemma ex_started_reachable : reachable ["a"; "b"] ex_started.
Proof.
  unfold reachable. next_step; [apply (thread_hello _ _ "a"); reflexivity|].
  next_step; [apply (thread_hello _ _ "b"); reflexivity|].
  next_step; [apply (thread_ready _ _ "b"); [in_list|reflexivity]|].
  next_step; [apply (thread_ready _ _ "a"); [in_list|reflexivity]|].
  eapply rtc_l; [left; apply main_wait; reflexivity|]. apply rtc_refl.
Qed.

Lemma ex_run_reachable : reachable ["a"; "b"] ex_run.
Proof.
  unfold reachable. transitivity ex_started; [exact ex_started_reachable|].
  next_step; [apply (client_answers _ _ "b" Reply_done); [in_list|reflexivity]|].
  next_step; [apply (client_answers _ _ "a" Reply_done); [in_list|reflexivity]|].
  eapply rtc_l; [left; apply (main_collect _ _ "a" ["b"] Reply_done); reflexivity|].
  eapply rtc_l; [left; apply (main_collect _ _ "b" [] Reply_done); reflexivity|].
  eapply rtc_l; [left; apply main_end; reflexivity|].
  apply rtc_refl.
Qed.

Lemma complete_run_witness : s_failures ex_run = [] ∧ s_results ex_run = s_conns ex_run.
Proof.
  destruct (complete_run ["a"; "b"] ex_run ex_run_reachable eq_refl) as (H1 & H2 & _). exact (conj H1 H2).
Defined.

(** After the start, while the first client is silent, the main thread has no
    step, whatever has arrived from the other. *)
Lemma run_terminates_witness :
  (∀ s', ¬ main_step ["a"; "b"] ex_started s') ∧ (main_work ["a"; "b"] ex_started ≤ 4)%nat.
Proof.
  destruct (run_terminates ["a"; "b"] ex_started ex_started_reachable) as (_ & _ & _ & Hle & _ & _ & _ & Hsilent).
  split; [|exact Hle]. apply (Hsilent "a" ["b"] eq_refl). intros a Ha. by apply elem_of_nil in Ha.
Defined.
