(* ===== verification/CompareStreams.v ===== *)
(** * Comparing captured command streams ([examples/replay/compare_streams.py])

    The referee loads a source capture and a replay capture, pairs every
    command with its completion, and reports which sequences agree.  The
    command dictionaries of the source are shared between the list of
    commands and the list of events, and the pairing writes into them; they
    are kept here in a store, and both lists hold positions of that store.
    Reading the files is not modelled: a capture is the list of its lines. *)

From stdpp Require Import prelude strings list numbers gmap sorting.
From Stdlib Require Import ZArith Lia Ascii.
From S2P Require Import Prelude PyText PyJson JsonText PyFloat CaptureFormat.
Local Open Scope Z_scope.

Definition cmperr (m : string) : exn := Exn ComparisonError m.

Definition _int_field (record : dict) (field : string) (minimum : Z) : res Z :=
  match getd record field with
  | JInt value =>
      raise_if (value <? minimum) (cmperr "{path}:{line_number}: {field} must be an integer >= {minimum}") ;;
      Ok value
  | _ => Raise (cmperr "{path}:{line_number}: {field} must be an integer >= {minimum}")
  end.

(** ** Commands, completions, events *)
Record completion := { k_ts : Z; k_lat_ns : Z; k_hwq : Z; k_cid : Z; k_status : Z }.

Record cmd := {
  c_seq : Z; c_source_seq : nat; c_ts : Z; c_op : string; c_slba : Z; c_bytes : Z;
  c_hwq : option Z; c_cid : option Z;
  c_completion : option completion; c_ambiguous : bool
}.

Definition set_completion (k : completion) (c : cmd) : cmd :=
  {| c_seq := c_seq c; c_source_seq := c_source_seq c; c_ts := c_ts c; c_op := c_op c;
     c_slba := c_slba c; c_bytes := c_bytes c; c_hwq := c_hwq c; c_cid := c_cid c;
     c_completion := Some k; c_ambiguous := c_ambiguous c |}.

Definition set_ambiguous (c : cmd) : cmd :=
  {| c_seq := c_seq c; c_source_seq := c_source_seq c; c_ts := c_ts c; c_op := c_op c;
     c_slba := c_slba c; c_bytes := c_bytes c; c_hwq := c_hwq c; c_cid := c_cid c;
     c_completion := c_completion c; c_ambiguous := true |}.

(** The pairing key [(hwq, cid)] of a command that has one. *)
Definition cmd_key (c : cmd) : option (Z * Z) :=
  match c_hwq c, c_cid c with Some h, Some i => Some (h, i) | _, _ => None end.

Inductive event_value := EvCommand (ref : nat) | EvCompletion (k : completion).

(** [(ts, source_seq, kind, value)]: the kind is the constructor. *)
Record event := { e_ts : Z; e_source_seq : nat; e_value : event_value }.

(** The order of the tuples.  A record of the capture gives at most one event,
    so [source_seq] decides and the later components are never compared. *)
Definition event_le (a b : event) : Prop :=
  e_ts a < e_ts b ∨ (e_ts a = e_ts b ∧ (e_source_seq a ≤ e_source_seq b)%nat).
#[export] Instance event_le_dec : RelDecision event_le.
Proof. intros a b. unfold event_le. apply _. Defined.
#[export] Instance event_le_trans : Transitive event_le.
Proof. intros a b c. unfold event_le. lia. Qed.
#[export] Instance event_le_total : Total event_le.
Proof. intros a b. unfold event_le. lia. Qed.

(** ** Pairing *)
Record pstate := {
  p_store : list cmd;
  p_pending : gmap (Z * Z) nat;
  p_orphan : nat; p_reuse : nat; p_invalid : nat; p_missing : nat; p_paired : nat
}.

(** A command event. *)
Definition pair_command (st : pstate) (r : nat) : pstate :=
  match p_store st !! r ≫= cmd_key with
  | None =>
      {| p_store := p_store st; p_pending := p_pending st; p_orphan := p_orphan st; p_reuse := p_reuse st;
         p_invalid := p_invalid st; p_missing := S (p_missing st); p_paired := p_paired st |}
  | Some key =>
      let '(store, reuse) :=
        match p_pending st !! key with
        | Some r' => (alter set_ambiguous r (alter set_ambiguous r' (p_store st)), S (p_reuse st))
        | None => (p_store st, p_reuse st)
        end in
      {| p_store := store; p_pending := <[key := r]> (p_pending st); p_orphan := p_orphan st;
         p_reuse := reuse; p_invalid := p_invalid st; p_missing := p_missing st; p_paired := p_paired st |}
  end.

(** [derived_latency < 0 or derived_latency != value["lat_ns"]], negated. *)
Definition latency_ok (ts : Z) (k : completion) : bool :=
  (0 <=? k_ts k - ts) && (k_ts k - ts =? k_lat_ns k).

(** A completion event. *)
Definition pair_completion (st : pstate) (k : completion) : pstate :=
  let key := (k_hwq k, k_cid k) in
  match p_pending st !! key with
  | None =>
      {| p_store := p_store st; p_pending := p_pending st; p_orphan := S (p_orphan st);
         p_reuse := p_reuse st; p_invalid := p_invalid st; p_missing := p_missing st; p_paired := p_paired st |}
  | Some r =>
      let ok := match p_store st !! r with Some c => latency_ok (c_ts c) k | None => false end in
      {| p_store := if ok then alter (set_completion k) r (p_store st) else p_store st;
         p_pending := delete key (p_pending st); p_orphan := p_orphan st; p_reuse := p_reuse st;
         p_invalid := if ok then p_invalid st else S (p_invalid st); p_missing := p_missing st;
         p_paired := if ok then S (p_paired st) else p_paired st |}
  end.

Definition pair_step (st : pstate) (ev : event) : pstate :=
  match e_value ev with EvCommand r => pair_command st r | EvCompletion k => pair_completion st k end.

Definition pair_init (commands : list cmd) : pstate :=
  {| p_store := commands; p_pending := ∅; p_orphan := 0; p_reuse := 0; p_invalid := 0; p_missing := 0;
     p_paired := 0 |}.

(** [completion is None and hwq is not None and cid is not None]. *)
Definition is_unmatched (c : cmd) : bool :=
  match c_completion c, c_hwq c, c_cid c with None, Some _, Some _ => true | _, _, _ => false end.

Record pairing := {
  pr_complete : bool; pr_paired : nat; pr_unmatched : nat; pr_orphan : nat; pr_reuse : nat;
  pr_invalid : nat; pr_missing : nat
}.

(** Returns the commands as the pairing left them, and its report. *)
Definition _pair_completions (events : list event) (commands : list cmd) : list cmd * pairing :=
  let st := fold_left pair_step (stable_sort event_le events) (pair_init commands) in
  let unmatched := length (List.filter is_unmatched (p_store st)) in
  (p_store st,
   {| pr_complete := (p_paired st =? length commands)%nat && (p_orphan st =? 0)%nat
                     && (p_reuse st =? 0)%nat && (p_invalid st =? 0)%nat && (p_missing st =? 0)%nat
                     && (unmatched =? 0)%nat;
      pr_paired := p_paired st; pr_unmatched := unmatched; pr_orphan := p_orphan st;
      pr_reuse := p_reuse st; pr_invalid := p_invalid st; pr_missing := p_missing st |}).

(** ** Loading a capture *)
Record cload := {
  l_commands : list cmd; l_events : list event; l_lba : option Z; l_seen : list Z
}.

(** An [hwq] or [cid] that may be absent. *)
Definition opt_field (record : dict) (field : string) : res (option Z) :=
  if is_none (getd record field) then Ok None
  else z ← _int_field record field 0; Ok (Some z).

(** The branch of an [nvme_cmd] record. *)
Definition load_command (st : cload) (source_seq : nat) (record : dict) : res cload :=
  operation ← item (JObj record) "op_name";
  match operation with
  | JStr operation =>
      raise_unless (bool_decide (operation ∈ ["read"; "write"; "flush"]))
        (cmperr "{path}:{line_number}: unsupported NVMe command {operation!r}") ;;
      let flush := String.eqb operation "flush" in
      sequence ← py_int (default (JInt (Z.of_nat source_seq)) (dget "seq" record));
      raise_if (bool_decide (sequence ∈ l_seen st)) (cmperr "{path}: duplicate command sequence {sequence}") ;;
      timestamp ← _int_field record "ts" 0;
      slba ← (if flush then Ok 0 else _int_field record "slba" 0);
      length ← (if flush then Ok 0 else _int_field record "bytes" 0);
      hwq ← opt_field record "hwq";
      cid ← opt_field record "cid";
      raise_if (xorb (bool_decide (hwq = None)) (bool_decide (cid = None)))
        (cmperr "{path}:{line_number}: command must carry both hwq and cid") ;;
      raise_if (sequence <? 0) (cmperr "{path}:{line_number}: negative command seq") ;;
      raise_if (negb flush && (length =? 0)) (cmperr "{path}:{line_number}: zero command length") ;;
      let command := {| c_seq := sequence; c_source_seq := source_seq; c_ts := timestamp;
                        c_op := if flush then "datasync" else operation; c_slba := slba; c_bytes := length;
                        c_hwq := hwq; c_cid := cid; c_completion := None; c_ambiguous := false |} in
      Ok {| l_commands := l_commands st ++ [command];
            l_events := l_events st ++ [{| e_ts := timestamp; e_source_seq := source_seq;
                                           e_value := EvCommand (List.length (l_commands st)) |}];
            l_lba := l_lba st; l_seen := sequence :: l_seen st |}
  | _ => Raise (cmperr "{path}:{line_number}: unsupported NVMe command {operation!r}")
  end.

(** The branch of an [nvme_cmp] record. *)
Definition load_completion (st : cload) (source_seq : nat) (record : dict) : res cload :=
  ts ← _int_field record "ts" 0;
  lat ← _int_field record "lat_ns" 0;
  hwq ← _int_field record "hwq" 0;
  cid ← _int_field record "cid" 0;
  status ← _int_field record "status" 0;
  Ok {| l_commands := l_commands st;
        l_events := l_events st ++
          [{| e_ts := ts; e_source_seq := source_seq;
              e_value := EvCompletion {| k_ts := ts; k_lat_ns := lat; k_hwq := hwq; k_cid := cid; k_status := status |} |}];
        l_lba := l_lba st; l_seen := l_seen st |}.

Definition load_record (st : cload) (source_seq : nat) (r : Z * dict) : res cload :=
  let record := r.2 in
  let event_type := getd record "event_type" in
  if eq_str event_type "capture_meta" && negb (is_none (getd record "lba_bytes")) then
    candidate ← py_int (getd record "lba_bytes");
    raise_if (match l_lba st with Some lba => negb (lba =? candidate) | None => false end)
      (cmperr "{path}: conflicting LBA sizes") ;;
    Ok {| l_commands := l_commands st; l_events := l_events st; l_lba := Some candidate; l_seen := l_seen st |}
  else if eq_str event_type "nvme_cmd" then load_command st source_seq record
  else if eq_str event_type "nvme_cmp" then load_completion st source_seq record
  else Ok st.

(** The sort key [(ts, seq, source_seq)]. *)
Definition cmd_le (a b : cmd) : Prop :=
  c_ts a < c_ts b ∨ c_ts a = c_ts b ∧
  (c_seq a < c_seq b ∨ c_seq a = c_seq b ∧ (c_source_seq a ≤ c_source_seq b)%nat).
#[export] Instance cmd_le_dec : RelDecision cmd_le.
Proof. intros a b. unfold cmd_le. apply _. Defined.
#[export] Instance cmd_le_trans : Transitive cmd_le.
Proof. intros a b c. unfold cmd_le. lia. Qed.
#[export] Instance cmd_le_total : Total cmd_le.
Proof. intros a b. unfold cmd_le. lia. Qed.

Record capture := {
  cap_commands : list cmd; cap_latencies_us : list pyfloat; cap_lba : option Z; cap_drops : Z;
  cap_scope : option (string * Z); cap_pairing : pairing
}.

(** [lat_ns / 1e3] *)
Definition latency_us (k : completion) : res pyfloat :=
  f ← float_of_Z (k_lat_ns k); fdiv f (float_of_dec false 1 3).

Definition as_comparison_error {A} (r : res A) : res A :=
  match r with Raise (Exn CaptureFormatError m) => Raise (cmperr m) | _ => r end.

Definition load_init_cmp : cload := {| l_commands := []; l_events := []; l_lba := None; l_seen := [] |}.

Definition load (allow_legacy_capture : bool) (lines : list string) : res capture :=
  records ← as_comparison_error (load_records lines);
  envelope ← as_comparison_error (validate_envelope allow_legacy_capture records);
  st ← foldiM load_record 0 load_init_cmp records;
  let '(store, pairing) := _pair_completions (l_events st) (l_commands st) in
  let commands := stable_sort cmd_le store in
  latencies ← mapMR latency_us (omap c_completion commands);
  Ok {| cap_commands := commands; cap_latencies_us := stable_sort fle latencies; cap_lba := l_lba st;
        cap_drops := env_drops envelope; cap_scope := env_scope envelope; cap_pairing := pairing |}.

(** ** Statistics *)

(** [int(len(values) * fraction)], then the bound of [min]. *)
Definition rank (n : nat) (fraction : pyfloat) : res nat :=
  f ← float_of_Z (Z.of_nat n);
  i ← py_int (JFloat (fmul f fraction));
  Ok (Z.to_nat (Z.min (Z.of_nat n - 1) i)).

(** [0.50] and [0.99] *)
Definition P50 : pyfloat := float_of_dec false 50 (-2).
Definition P99 : pyfloat := float_of_dec false 99 (-2).

Definition _percentile (values : list pyfloat) (fraction : pyfloat) : res pyfloat :=
  match values with
  | [] => Ok (FFin false 0 0)
  | _ =>
      let values := stable_sort fle values in
      i ← rank (length values) fraction;
      match values !! i with
      | Some v => Ok v
      | None => Raise (Exn IndexError "list index out of range")
      end
  end.

Record latency_distribution := { ld_count : nat; ld_p50 : option pyfloat; ld_p99 : option pyfloat }.

Definition _latency_distribution (c : capture) : res latency_distribution :=
  let values := cap_latencies_us c in
  match values with
  | [] => Ok {| ld_count := 0; ld_p50 := None; ld_p99 := None |}
  | _ => a ← _percentile values P50; b ← _percentile values P99;
         Ok {| ld_count := length values; ld_p50 := Some a; ld_p99 := Some b |}
  end.

(** [error_count] and [all_commands_succeeded]. *)
Definition _completion_status (c : capture) : nat * bool :=
  let completed := omap c_completion (cap_commands c) in
  let errors := length (List.filter (λ k, negb (k_status k =? 0)) completed) in
  (errors,
   negb (bool_decide (cap_commands c = [])) && pr_complete (cap_pairing c) && (errors =? 0)%nat).

(** ** The comparison *)
Definition tuple_of (lba_bytes : Z) (c : cmd) : string * Z * Z := (c_op c, c_slba c * lba_bytes, c_bytes c).

Record comparison := {
  x_source_capture_complete : bool; x_replay_capture_complete : bool;
  x_command_count_equal : bool; x_operation_sequence_equal : bool; x_offset_sequence_equal : bool;
  x_length_sequence_equal : bool; x_tuple_sequence_equal : bool;
  x_source_pairing_complete : bool; x_replay_pairing_complete : bool;
  x_source_error_count : nat; x_replay_error_count : nat;
  x_source_all_succeeded : bool; x_replay_all_succeeded : bool;
  x_device_stream_equal : bool;
  x_per_command_compared : bool;
  x_latency_error : option (pyfloat * pyfloat * pyfloat);  (** p50, p99, max *)
  x_timing_error : option (pyfloat * pyfloat * pyfloat)
}.

(** [max(values)]: the first of the greatest. *)
Definition fmax (x : pyfloat) (l : list pyfloat) : pyfloat := fold_left (λ m y, if fltb m y then y else m) l x.

(** The three figures of a non-empty list of errors. *)
Definition error_figures (errors : list pyfloat) : res (pyfloat * pyfloat * pyfloat) :=
  a ← _percentile errors P50;
  b ← _percentile errors P99;
  match errors with
  | x :: l => Ok (a, b, fmax x l)
  | [] => Raise (Exn ValueError "max() iterable argument is empty")
  end.

(** [a["completion"]["lat_ns"]] *)
Definition lat_of (c : cmd) : res Z :=
  match c_completion c with
  | Some k => Ok (k_lat_ns k)
  | None => Raise (Exn TypeError "'NoneType' object is not subscriptable")
  end.

Definition latency_error (ab : cmd * cmd) : res pyfloat :=
  x ← lat_of ab.1; y ← lat_of ab.2; int_truediv (Z.abs (x - y)) 1000.

Definition timing_error (t0 t0' : Z) (ab : cmd * cmd) : res pyfloat :=
  int_truediv (Z.abs ((c_ts ab.1 - t0) - (c_ts ab.2 - t0'))) 1000.

Definition exact_comparison (source replay : capture) (lba_bytes : Z) : res comparison :=
  let left := cap_commands source in
  let right := cap_commands replay in
  let '(source_errors, source_ok) := _completion_status source in
  let '(replay_errors, replay_ok) := _completion_status replay in
  let source_tuples := map (tuple_of lba_bytes) left in
  let replay_tuples := map (tuple_of lba_bytes) right in
  let count_equal := (length left =? length right)%nat in
  let source_complete := cap_drops source =? 0 in
  let replay_complete := cap_drops replay =? 0 in
  let source_pairing := pr_complete (cap_pairing source) in
  let replay_pairing := pr_complete (cap_pairing replay) in
  let tuples_equal := bool_decide (source_tuples = replay_tuples) in
  timing ← match left, right with
           | l0 :: _, r0 :: _ =>
               if count_equal then
                 errors ← mapMR (timing_error (c_ts l0) (c_ts r0)) (zip left right);
                 e ← error_figures errors; Ok (Some e)
               else Ok None
           | _, _ => Ok None
           end;
  latency ← (if tuples_equal && source_pairing && replay_pairing && negb (bool_decide (left = [])) then
               errors ← mapMR latency_error (zip left right);
               e ← error_figures errors; Ok (Some e)
             else Ok None);
  Ok {| x_source_capture_complete := source_complete; x_replay_capture_complete := replay_complete;
        x_command_count_equal := count_equal;
        x_operation_sequence_equal := count_equal && bool_decide (map (λ t, t.1.1) source_tuples = map (λ t, t.1.1) replay_tuples);
        x_offset_sequence_equal := count_equal && bool_decide (map (λ t, t.1.2) source_tuples = map (λ t, t.1.2) replay_tuples);
        x_length_sequence_equal := count_equal && bool_decide (map (λ t, t.2) source_tuples = map (λ t, t.2) replay_tuples);
        x_tuple_sequence_equal := tuples_equal;
        x_source_pairing_complete := source_pairing; x_replay_pairing_complete := replay_pairing;
        x_source_error_count := source_errors; x_replay_error_count := replay_errors;
        x_source_all_succeeded := source_ok; x_replay_all_succeeded := replay_ok;
        x_device_stream_equal := source_complete && replay_complete && tuples_equal;
        x_per_command_compared := bool_decide (latency ≠ None);
        x_latency_error := latency; x_timing_error := timing |}.

(** ** The LBA size of a report ([report], before it prints) *)
Definition report_lba (lba_override : option Z) (captures : list capture) : res Z :=
  match captures with
  | [] => Raise (Exn KeyError "capture")
  | source :: _ =>
      match (match lba_override with Some z => if z =? 0 then cap_lba source else Some z | None => cap_lba source end) with
      | None => Raise (Exn SystemExit "source capture has no lba_bytes metadata; pass --lba-bytes")
      | Some lba_bytes =>
          raise_unless (pow2b lba_bytes) (Exn SystemExit "lba_bytes must be a positive power of two") ;;
          raise_unless (forallb (λ c, match cap_lba c with None => true | Some z => z =? lba_bytes end) captures)
            (Exn SystemExit "{label}: capture LBA {capture['lba_bytes']} disagrees with {lba_bytes}") ;;
          Ok lba_bytes
      end
  end.
