(* ===== verification/CompareCorrect.v ===== *)
(** * Correctness of the stream comparison

    The pairing of commands and completions is characterised command by
    command: a command is paired exactly when the next event on its queue and
    command id is a completion that reports its latency.  The comparison is
    characterised by what it says of the two captures. *)

From stdpp Require Import prelude strings list numbers gmap sorting.
From Stdlib Require Import ZArith Lia Ascii.
From S2P Require Import Prelude PyText PyJson JsonText PyFloat CaptureFormat CompareStreams.
Local Open Scope Z_scope.

(** ** The pairing, stated on the sorted events *)
Section pairing_spec.
(** The commands, by position. *)
Context (store : list cmd).

Definition key_at (r : nat) : option (Z * Z) := store !! r ≫= cmd_key.

Definition k_key (k : completion) : Z * Z := (k_hwq k, k_cid k).

(** What answers a command of key [key] issued at [ts] when [es] follow: the
    first event with the key, if it is a completion with the right latency. *)
Fixpoint first_answer (key : Z * Z) (ts : Z) (es : list event) : option completion :=
  match es with
  | [] => None
  | ev :: es =>
      match e_value ev with
      | EvCommand r => if decide (key_at r = Some key) then None else first_answer key ts es
      | EvCompletion k =>
          if decide (k_key k = key) then if latency_ok ts k then Some k else None
          else first_answer key ts es
      end
  end.

(** The completion of command [r]. *)
Fixpoint answer (es : list event) (r : nat) : option completion :=
  match es with
  | [] => None
  | ev :: es =>
      match e_value ev with
      | EvCommand r' =>
          if decide (r = r')
          then match store !! r with
               | Some c => match cmd_key c with Some key => first_answer key (c_ts c) es | None => None end
               | None => None
               end
          else answer es r
      | EvCompletion _ => answer es r
      end
  end.
End pairing_spec.

Definition refs_of (es : list event) : list nat :=
  omap (λ ev, match e_value ev with EvCommand r => Some r | EvCompletion _ => None end) es.

Definition completions_of (es : list event) : list completion :=
  omap (λ ev, match e_value ev with EvCommand _ => None | EvCompletion k => Some k end) es.

Definition is_answered (c : cmd) : bool := match c_completion c with Some _ => true | None => false end.

Definition count {A} (p : A → bool) (l : list A) : nat := length (List.filter p l).

(** The events name every command once, and no command has a completion yet. *)
Record pairable (store : list cmd) (es : list event) : Prop := {
  pa_refs : refs_of es ≡ₚ seq 0 (length store);
  pa_fresh : Forall (λ c, c_completion c = None) store
}.

(** Two commands that differ at most in what the pairing writes. *)
Definition same_cmd (c c' : cmd) : Prop :=
  c_seq c = c_seq c' ∧ c_source_seq c = c_source_seq c' ∧ c_ts c = c_ts c' ∧ c_op c = c_op c' ∧
  c_slba c = c_slba c' ∧ c_bytes c = c_bytes c' ∧ c_hwq c = c_hwq c' ∧ c_cid c = c_cid c'.

Lemma same_cmd_refl c : same_cmd c c.
Proof. by repeat split. Qed.

Lemma same_cmd_trans c1 c2 c3 : same_cmd c1 c2 → same_cmd c2 c3 → same_cmd c1 c3.
Proof. unfold same_cmd. intros. intuition congruence. Qed.

Lemma same_cmd_key c c' : same_cmd c c' → cmd_key c = cmd_key c'.
Proof. intros (_ & _ & _ & _ & _ & _ & H1 & H2). unfold cmd_key. by rewrite H1, H2. Qed.

Lemma same_ambiguous c : same_cmd c (set_ambiguous c).
Proof. by repeat split. Qed.

Lemma same_completion k c : same_cmd c (set_completion k c).
Proof. by repeat split. Qed.

(** The store under writes that keep commands the same. *)
Lemma Forall2_alter (f : cmd → cmd) r l l' :
  (∀ c, same_cmd c (f c)) → Forall2 same_cmd l l' → Forall2 same_cmd l (alter f r l').
Proof.
  intros Hf H. revert r. induction H as [|c c' l l' Hc H IH]; intros r; [constructor|].
  destruct r as [|r]; simpl; constructor; try done; [|apply IH].
  eapply same_cmd_trans; [exact Hc|apply Hf].
Qed.

Lemma count_alter (p : cmd → bool) f r l :
  (∀ c, l !! r = Some c → p (f c) = p c) → count p (alter f r l) = count p l.
Proof.
  unfold count. revert r. induction l as [|c l IH]; intros r H; [done|]. destruct r as [|r]; simpl.
  - by rewrite (H c eq_refl); destruct (p c).
  - destruct (p c); simpl; [f_equal|]; by apply IH.
Qed.

Lemma count_alter_new (p : cmd → bool) f r l c :
  l !! r = Some c → p c = false → p (f c) = true → count p (alter f r l) = S (count p l).
Proof.
  unfold count. revert r. induction l as [|d l IH]; intros r H Hc Hf; [done|]. destruct r as [|r]; simpl in *.
  - injection H as ->. by rewrite Hc, Hf.
  - destruct (p d); simpl; [f_equal|]; by apply IH.
Qed.

(** ** The loop *)
Section pairing_loop.
Context (store : list cmd).

(** The completion of a command in a state of the loop. *)
Definition comp (st : pstate) (r : nat) : option completion := p_store st !! r ≫= c_completion.

(** A state of the loop with the events [es] to come. *)
Record pairing_state (st : pstate) (es : list event) : Prop := {
  ps_same : Forall2 same_cmd store (p_store st);
  ps_pending : ∀ key r, p_pending st !! key = Some r →
    key_at store r = Some key ∧ r ∉ refs_of es ∧ comp st r = None;
  ps_refs : NoDup (refs_of es) ∧ ∀ r, r ∈ refs_of es → (r < length store)%nat ∧ comp st r = None;
  ps_paired : p_paired st = count is_answered (p_store st)
}.

Lemma store_at st es r c : pairing_state st es → p_store st !! r = Some c →
  ∃ c0, store !! r = Some c0 ∧ same_cmd c0 c.
Proof. intros Hs H. destruct (Forall2_lookup_r _ _ _ _ _ (ps_same _ _ Hs) H) as (c0 & ? & ?). eauto. Qed.

Lemma key_of_store st es r : pairing_state st es → p_store st !! r ≫= cmd_key = key_at store r.
Proof.
  intros Hs. unfold key_at. destruct (p_store st !! r) as [c|] eqn:E.
  - destruct (store_at st es r c Hs E) as (c0 & -> & Hc). simpl. symmetry. by apply same_cmd_key.
  - apply lookup_ge_None in E. rewrite <- (Forall2_length _ _ _ (ps_same _ _ Hs)) in E.
    by rewrite (proj2 (lookup_ge_None store r) E).
Qed.

Lemma ambiguous_comp (l : list cmd) r r' :
  alter set_ambiguous r' l !! r ≫= c_completion = l !! r ≫= c_completion.
Proof. rewrite list_lookup_alter. case_decide; [|done]. subst. by destruct (l !! r). Qed.

Lemma ambiguous_answered (l : list cmd) r : count is_answered (alter set_ambiguous r l) = count is_answered l.
Proof. by apply count_alter. Qed.

(** What the loop has to deliver. *)
Record pairing_result (st : pstate) (es : list event) (st' : pstate) : Prop := {
  pr_same : Forall2 same_cmd store (p_store st');
  pr_waiting : ∀ key r c, p_pending st !! key = Some r → store !! r = Some c →
    comp st' r = first_answer store key (c_ts c) es;
  pr_coming : ∀ r, r ∈ refs_of es → comp st' r = answer store es r;
  pr_other : ∀ r, r ∉ refs_of es → (∀ key, p_pending st !! key ≠ Some r) → comp st' r = comp st r;
  pr_count : p_paired st' = count is_answered (p_store st');
  pr_completions : (p_orphan st' + p_invalid st' + p_paired st' =
    p_orphan st + p_invalid st + p_paired st + length (completions_of es))%nat;
  pr_keyless : (p_missing st' = p_missing st + count (λ r, bool_decide (key_at store r = None)) (refs_of es))%nat;
  pr_reused : p_reuse st' = p_reuse st ∨ ∃ r, (r < length store)%nat ∧ comp st' r = None
}.

Lemma refs_cons ev es : refs_of (ev :: es) =
  match e_value ev with EvCommand r => r :: refs_of es | EvCompletion _ => refs_of es end.
Proof. unfold refs_of. simpl. by destruct (e_value ev). Qed.

Lemma completions_cons ev es : completions_of (ev :: es) =
  match e_value ev with EvCommand _ => completions_of es | EvCompletion k => k :: completions_of es end.
Proof. unfold completions_of. simpl. by destruct (e_value ev). Qed.

(** What is left of a state after its first event, in both cases. *)
Lemma rest_refs st ev es : pairing_state st (ev :: es) →
  NoDup (refs_of es) ∧ ∀ r, r ∈ refs_of es → (r < length store)%nat ∧ comp st r = None.
Proof.
  intros [_ _ [Hnd Hr] _]. rewrite refs_cons in *. destruct (e_value ev) as [r0|k]; [|done].
  apply NoDup_cons in Hnd as [_ Hnd]. split; [done|]. intros r ?. apply Hr. by right.
Qed.

(** A command event writes no completion. *)
Lemma command_comp st r r' : comp (pair_command st r) r' = comp st r'.
Proof.
  unfold comp, pair_command. destruct (p_store st !! r ≫= cmd_key); [|done].
  destruct (p_pending st !! p); simpl; [|done]. by rewrite !ambiguous_comp.
Qed.

Lemma command_pending st ev es r : pairing_state st (ev :: es) →
  p_pending (pair_command st r) =
    match key_at store r with Some key => <[key := r]> (p_pending st) | None => p_pending st end.
Proof.
  intros Hs. unfold pair_command. rewrite (key_of_store _ _ r Hs).
  destruct (key_at store r); [|done]. by destruct (p_pending st !! p).
Qed.

Lemma command_state st ev es r : pairing_state st (ev :: es) → e_value ev = EvCommand r →
  pairing_state (pair_command st r) es.
Proof.
  intros Hs Hev. destruct (rest_refs st ev es Hs) as [Hnd Hr].
  pose proof (ps_refs _ _ Hs) as [Hnd0 Hr0]. rewrite refs_cons, Hev in Hnd0, Hr0.
  apply NoDup_cons in Hnd0 as [Hni _].
  constructor.
  - unfold pair_command. destruct (p_store st !! r ≫= cmd_key); [|apply (ps_same _ _ Hs)].
    destruct (p_pending st !! p); simpl; [|apply (ps_same _ _ Hs)].
    apply Forall2_alter; [apply same_ambiguous|]. apply Forall2_alter; [apply same_ambiguous|]. apply (ps_same _ _ Hs).
  - intros key r' H. rewrite (command_pending _ _ _ _ Hs) in H. rewrite command_comp.
    assert (p_pending st !! key = Some r' → key_at store r' = Some key ∧ r' ∉ refs_of es ∧ comp st r' = None) as Hold.
    { intros H'. destruct (ps_pending _ _ Hs _ _ H') as (? & Hn & ?). rewrite refs_cons, Hev in Hn. set_solver. }
    destruct (key_at store r) as [key0|] eqn:Hk; [|by apply Hold].
    apply lookup_insert_Some in H as [[-> ->]|[_ H]]; [|by apply Hold].
    split_and!; [done|done|]. apply Hr0. by left.
  - split; [done|]. intros r' H. rewrite command_comp. by apply Hr.
  - unfold pair_command. destruct (p_store st !! r ≫= cmd_key); [|apply (ps_paired _ _ Hs)].
    destruct (p_pending st !! p); simpl; rewrite ?ambiguous_answered; apply (ps_paired _ _ Hs).
Qed.

Lemma command_counts st ev es r : pairing_state st (ev :: es) → let st1 := pair_command st r in
  p_orphan st1 = p_orphan st ∧ p_invalid st1 = p_invalid st ∧ p_paired st1 = p_paired st ∧
  p_missing st1 = (p_missing st + if bool_decide (key_at store r = None) then 1 else 0)%nat ∧
  (p_reuse st1 = p_reuse st ∨ ∃ key r', key_at store r = Some key ∧ p_pending st !! key = Some r').
Proof.
  intros Hs st1. subst st1. unfold pair_command. rewrite (key_of_store _ _ r Hs).
  destruct (key_at store r) as [key|] eqn:Hk; simpl; [|split_and!; [done..|lia|by left]].
  destruct (p_pending st !! key) as [r'|] eqn:Hp; simpl.
  - split_and!; [done..|lia|]. right. eauto.
  - split_and!; [done..|lia|]. by left.
Qed.

Lemma command_result st ev es r st' : pairing_state st (ev :: es) → e_value ev = EvCommand r →
  pairing_result (pair_command st r) es st' → pairing_result st (ev :: es) st'.
Proof.
  intros Hs Hev [Hsame Hwait Hcome Hoth Hcnt Hcpl Hkl Hreu].
  pose proof (command_pending _ _ _ r Hs) as Hpend.
  destruct (command_counts _ _ _ r Hs) as (C1 & C2 & C3 & C4 & C5).
  pose proof (ps_refs _ _ Hs) as [Hnd0 Hr0]. rewrite refs_cons, Hev in Hnd0, Hr0.
  apply NoDup_cons in Hnd0 as [Hni Hnd].
  (** a pending command whose key is taken over stays without completion *)
  assert (∀ key r', p_pending st !! key = Some r' → key_at store r = Some key → comp st' r' = None) as Hover.
  { intros key r' H Hk. destruct (ps_pending _ _ Hs _ _ H) as (Hk' & Hn & Hc). rewrite refs_cons, Hev in Hn.
    apply not_elem_of_cons in Hn as [Hne Hn]. rewrite Hoth; [by rewrite command_comp|done|].
    intros key2 H2. rewrite Hpend, Hk in H2. apply lookup_insert_Some in H2 as [[-> ->]|[Hne2 H2]]; [done|].
    destruct (ps_pending _ _ Hs _ _ H2) as (Hk2 & _). congruence. }
  constructor; try done.
  - intros key r' c H Hc. simpl. rewrite Hev. case_decide as Hk; [by apply (Hover key)|].
    apply Hwait; [|done]. rewrite Hpend. destruct (key_at store r) as [key0|]; [|done].
    rewrite lookup_insert_ne by congruence. done.
  - intros r' Hr'. rewrite refs_cons, Hev in Hr'. simpl. rewrite Hev. case_decide as Heq.
    + subst r'. destruct (store !! r) as [c|] eqn:Hc.
      2:{ apply lookup_ge_None in Hc. destruct (Hr0 r) as [? _]; [by left|lia]. }
      assert (key_at store r = cmd_key c) as Hk by (unfold key_at; by rewrite Hc).
      destruct (cmd_key c) as [key|].
      * apply Hwait; [|done]. rewrite Hpend, Hk. apply lookup_insert_eq.
      * rewrite Hoth; [rewrite command_comp; apply Hr0; by left|done|].
        intros key H. rewrite Hpend, Hk in H. destruct (ps_pending _ _ Hs _ _ H) as (Hk' & _). congruence.
    + apply Hcome. set_solver.
  - intros r' Hn Hp. rewrite refs_cons, Hev in Hn. apply not_elem_of_cons in Hn as [Hne Hn].
    rewrite Hoth; [apply command_comp|done|]. intros key H. rewrite Hpend in H.
    destruct (key_at store r); [|by eapply Hp]. apply lookup_insert_Some in H as [[-> ->]|[_ H]]; [done|by eapply Hp].
  - rewrite completions_cons, Hev. lia.
  - rewrite refs_cons, Hev. unfold count in *. simpl. rewrite Hkl, C4. case_bool_decide; simpl; lia.
  - destruct C5 as [C5|(key & r' & Hk & H)]; [rewrite C5 in Hreu; exact Hreu|].
    right. exists r'. destruct (ps_pending _ _ Hs _ _ H) as (Hk' & _). split; [|by eapply Hover].
    unfold key_at in Hk'. destruct (store !! r') eqn:E; [|done]. by eapply lookup_lt_Some.
Qed.

(** A completion event, by what its key finds. *)
Lemma completion_cases st ev es k : pairing_state st (ev :: es) → let st1 := pair_completion st k in
  p_reuse st1 = p_reuse st ∧ p_missing st1 = p_missing st ∧
  (p_orphan st1 + p_invalid st1 + p_paired st1 = S (p_orphan st + p_invalid st + p_paired st))%nat ∧
  Forall2 same_cmd store (p_store st1) ∧ p_paired st1 = count is_answered (p_store st1) ∧
  ((p_pending st !! k_key k = None ∧ p_pending st1 = p_pending st ∧ ∀ r, comp st1 r = comp st r) ∨
   ∃ r c, p_pending st !! k_key k = Some r ∧ store !! r = Some c ∧
     p_pending st1 = delete (k_key k) (p_pending st) ∧
     comp st1 r = (if latency_ok (c_ts c) k then Some k else None) ∧ ∀ r', r' ≠ r → comp st1 r' = comp st r').
Proof.
  intros Hs st1. subst st1. unfold pair_completion. change (k_hwq k, k_cid k) with (k_key k).
  destruct (p_pending st !! k_key k) as [r|] eqn:Hp; simpl.
  2:{ split_and!; [done|done|lia|apply (ps_same _ _ Hs)|apply (ps_paired _ _ Hs)|]. by left. }
  destruct (ps_pending _ _ Hs _ _ Hp) as (Hk & Hn & Hc).
  unfold key_at in Hk. destruct (store !! r) as [c|] eqn:Er; [|done].
  destruct (Forall2_lookup_l _ _ _ _ _ (ps_same _ _ Hs) Er) as (c' & Ec' & Hsm). rewrite Ec'.
  assert (c_ts c' = c_ts c) as -> by (symmetry; apply Hsm).
  assert (c_completion c' = None) as Hcn by (unfold comp in Hc; by rewrite Ec' in Hc).
  pose proof (ps_paired _ _ Hs) as Hpd. pose proof (ps_same _ _ Hs) as Hsame.
  destruct (latency_ok (c_ts c) k) eqn:Hok.
  - split_and!; [done|done|lia|by apply Forall2_alter; [apply same_completion|]| |].
    + rewrite Hpd. symmetry. apply (count_alter_new _ _ r _ c'); [done| |done]. unfold is_answered. by rewrite Hcn.
    + right. exists r, c. unfold comp. simpl. rewrite Hok. split_and!; [done..| |].
      * rewrite list_lookup_alter_eq, Ec'. done.
      * intros r' ?. by rewrite list_lookup_alter_ne.
  - split_and!; [done|done|lia|done|done|]. right. exists r, c. rewrite Hok. by split_and!.
Qed.

Lemma completion_state st ev es k : pairing_state st (ev :: es) → e_value ev = EvCompletion k →
  pairing_state (pair_completion st k) es.
Proof.
  intros Hs Hev. destruct (rest_refs st ev es Hs) as [Hnd Hr].
  destruct (completion_cases st ev es k Hs) as (_ & _ & _ & Hsame & Hpd & Hcase).
  assert (∀ key r, p_pending st !! key = Some r → key_at store r = Some key ∧ r ∉ refs_of es ∧ comp st r = None) as Hold.
  { intros key r H. destruct (ps_pending _ _ Hs _ _ H) as (? & Hn & ?). by rewrite refs_cons, Hev in Hn. }
  constructor; [done| | |done].
  - intros key r H. destruct Hcase as [(_ & Hpe & Hc)|(r0 & c & Hp0 & _ & Hpe & _ & Hc)]; rewrite Hpe in H.
    + rewrite Hc. by apply Hold.
    + apply lookup_delete_Some in H as [Hne H]. destruct (Hold _ _ H) as (Hk & Hn & Hcn).
      split_and!; [done|done|]. rewrite Hc; [done|]. intros ->. destruct (Hold _ _ Hp0) as (Hk0 & _). congruence.
  - split; [done|]. intros r H. destruct (Hr r H) as [Hlt Hcn]. split; [done|].
    destruct Hcase as [(_ & _ & Hc)|(r0 & c & Hp0 & _ & _ & _ & Hc)]; rewrite Hc; [done|done|].
    intros ->. by destruct (Hold _ _ Hp0) as (_ & ? & _).
Qed.

Lemma completion_result st ev es k st' : pairing_state st (ev :: es) → e_value ev = EvCompletion k →
  pairing_result (pair_completion st k) es st' → pairing_result st (ev :: es) st'.
Proof.
  intros Hs Hev [Hsame Hwait Hcome Hoth Hcnt Hcpl Hkl Hreu].
  destruct (completion_cases st ev es k Hs) as (C1 & C2 & C3 & _ & _ & Hcase).
  assert (∀ key r, p_pending st !! key = Some r → key_at store r = Some key ∧ r ∉ refs_of es) as Hold.
  { intros key r H. destruct (ps_pending _ _ Hs _ _ H) as (? & Hn & ?). by rewrite refs_cons, Hev in Hn. }
  constructor; try done.
  - intros key r c H Hc. simpl. rewrite Hev. case_decide as Hk.
    + destruct Hcase as [(Hn & _)|(r0 & c0 & Hp0 & Hs0 & Hpe & Hc0 & _)]; [congruence|].
      assert (r0 = r) as -> by congruence. assert (c0 = c) as -> by congruence.
      rewrite Hoth; [done|by eapply Hold|]. intros key2 H2. rewrite Hpe in H2.
      apply lookup_delete_Some in H2 as [Hne H2]. destruct (Hold _ _ H2), (Hold _ _ H). congruence.
    + apply Hwait; [|done]. destruct Hcase as [(_ & -> & _)|(r0 & c0 & Hp0 & _ & -> & _)]; [done|].
      by rewrite lookup_delete_ne.
  - intros r Hr. rewrite refs_cons, Hev in Hr. simpl. rewrite Hev. by apply Hcome.
  - intros r Hn Hp. rewrite refs_cons, Hev in Hn.
    destruct Hcase as [(_ & Hpe & Hc)|(r0 & c0 & Hp0 & _ & Hpe & _ & Hc)]; rewrite <- Hc; try apply Hoth; try done.
    + intros key H. rewrite Hpe in H. by eapply Hp.
    + intros key H. rewrite Hpe in H. apply lookup_delete_Some in H as [_ H]. by eapply Hp.
    + intros ->. by eapply Hp.
  - rewrite completions_cons, Hev. simpl. lia.
  - rewrite refs_cons, Hev. lia.
  - by rewrite C1 in Hreu.
Qed.

Lemma pairing_loop_result es st : pairing_state st es → pairing_result st es (fold_left pair_step es st).
Proof.
  revert st. induction es as [|ev es IH]; intros st Hs; simpl.
  - constructor; try done; [apply (ps_same _ _ Hs)|intros key r c H _|set_solver|apply (ps_paired _ _ Hs)|..].
    + by apply (ps_pending _ _ Hs) in H as (_ & _ & ?).
    + unfold completions_of. simpl. lia.
  - unfold pair_step at 2. destruct (e_value ev) as [r|k] eqn:Hev.
    + eapply command_result; [done..|]. apply IH. by eapply command_state.
    + eapply completion_result; [done..|]. apply IH. by eapply completion_state.
Qed.
End pairing_loop.

Lemma pairing_start store es : pairable store es → pairing_state store (pair_init store) es.
Proof.
  intros [Hr Hf]. rewrite Forall_lookup in Hf.
  assert (∀ r, comp (pair_init store) r = None) as Hc.
  { intros r. unfold comp. simpl. destruct (store !! r) eqn:E; [|done]. by apply Hf in E. }
  constructor; simpl.
  - apply Forall2_same_length_lookup_2; [done|]. intros i x y Hx Hy.
    assert (x = y) as -> by congruence. apply same_cmd_refl.
  - done.
  - split; [rewrite Hr; apply NoDup_seq|]. intros r H. rewrite Hr in H.
    apply elem_of_seq in H. split; [lia|done].
  - unfold count. assert (List.filter is_answered store = []) as ->; [|done].
    clear Hc Hr. induction store as [|c l IH]; [done|]. simpl. unfold is_answered at 1.
    rewrite (Hf 0%nat c eq_refl). apply IH. intros i x Hx. exact (Hf (S i) x Hx).
Qed.

(** ** Counting *)
Lemma count_perm {A} (p : A → bool) l k : l ≡ₚ k → count p l = count p k.
Proof.
  unfold count. induction 1; simpl; try congruence; repeat case_match; simpl; congruence.
Qed.

Lemma count_all {A} (p : A → bool) l : count p l = length l ↔ Forall (λ x, p x = true) l.
Proof.
  unfold count. induction l as [|x l IH]; simpl; [by split; [constructor|]|]. rewrite Forall_cons, <- IH.
  pose proof (List.filter_length_le p l). destruct (p x); simpl; split; intros; try lia; try naive_solver.
Qed.

(** Positions of a list counted by what is there. *)
Lemma count_positions {A} (p : A → bool) (q : nat → bool) l :
  (∀ r x, l !! r = Some x → q r = p x) → count q (seq 0 (length l)) = count p l.
Proof.
  unfold count. revert q. induction l as [|x l IH]; intros q H; [done|]. simpl.
  assert (count (λ r, q (S r)) (seq 0 (length l)) = count p l) as Hr
    by (apply IH; intros r y Hy; apply (H (S r)); exact Hy).
  unfold count in Hr. rewrite (H 0%nat x eq_refl).
  assert (∀ n, length (List.filter q (seq 1 n)) = length (List.filter (λ r, q (S r)) (seq 0 n))) as Hshift.
  { intros n. rewrite <- fmap_S_seq. generalize (seq 0 n). intros s. induction s as [|y s IHs]; [done|].
    simpl. destruct (q (S y)); simpl; [f_equal|]; exact IHs. }
  destruct (p x); simpl; by rewrite Hshift, Hr.
Qed.

(** A keyless command is never paired, so the three kinds share the commands. *)
Lemma command_kinds l :
  Forall (λ c, cmd_key c = None → c_completion c = None) l →
  (count is_answered l + count is_unmatched l + count (λ c, bool_decide (cmd_key c = None)) l = length l)%nat.
Proof.
  unfold count. induction 1 as [|c l Hc _ IH]; [done|]. simpl. unfold is_answered at 1, is_unmatched at 1.
  unfold cmd_key in *. destruct (c_completion c), (c_hwq c), (c_cid c); simpl; try lia; by discriminate Hc.
Qed.

Lemma refs_perm es es' : es ≡ₚ es' → refs_of es ≡ₚ refs_of es'.
Proof. intros H. unfold refs_of. by rewrite H. Qed.

Lemma completions_perm es es' : es ≡ₚ es' → completions_of es ≡ₚ completions_of es'.
Proof. intros H. unfold completions_of. by rewrite H. Qed.

(** The report of the pairing and the commands it leaves. *)
Record paired_up (store store' : list cmd) (es : list event) (p : pairing) : Prop := {
  pu_same : Forall2 same_cmd store store';
  pu_answers : ∀ r, (r < length store)%nat → store' !! r ≫= c_completion = answer store es r;
  pu_commands : (pr_paired p + pr_unmatched p + pr_missing p = length store)%nat;
  pu_completions : (pr_paired p + pr_orphan p + pr_invalid p = length (completions_of es))%nat;
  pu_complete : pr_complete p = true ↔
    (∀ r, (r < length store)%nat → is_Some (answer store es r)) ∧ length (completions_of es) = length store
}.

Lemma unkeyed_unanswered store es r : key_at store r = None → answer store es r = None.
Proof.
  intros Hk. induction es as [|ev es IH]; [done|]. simpl. destruct (e_value ev); [|done].
  case_decide as E; [|done]. subst ref. unfold key_at in Hk. destruct (store !! r); [|done]. simpl in Hk. by rewrite Hk.
Qed.

Lemma pair_completions_paired store events store' p :
  pairable store events → _pair_completions events store = (store', p) →
  paired_up store store' (stable_sort event_le events) p.
Proof.
  intros Hpa H. unfold _pair_completions in H. set (es := stable_sort event_le events) in *.
  assert (es ≡ₚ events) as Hperm by apply stable_sort_Permutation.
  assert (pairable store es) as Hpa' by (destruct Hpa; constructor; [by rewrite (refs_perm _ _ Hperm)|done]).
  pose proof (pairing_loop_result store es _ (pairing_start store es Hpa')) as HR.
  set (st := fold_left pair_step es (pair_init store)) in *. injection H as <- <-.
  destruct HR as [Hsame _ Hcome _ Hcnt Hcpl Hkl Hreu]. simpl in *.
  assert (∀ r, (r < length store)%nat → comp st r = answer store es r) as Hans.
  { intros r Hr. apply Hcome. rewrite (pa_refs _ _ Hpa'). apply elem_of_seq. lia. }
  pose proof (Forall2_length _ _ _ Hsame) as Hlen.
  assert (p_missing st = count (λ c, bool_decide (cmd_key c = None)) (p_store st)) as Hmis.
  { rewrite Hkl, (count_perm _ _ _ (pa_refs _ _ Hpa')), Hlen. apply count_positions. intros r c Hc.
    destruct (Forall2_lookup_r _ _ _ _ _ Hsame Hc) as (c0 & Hc0 & Hsm). unfold key_at. rewrite Hc0. simpl.
    by rewrite (same_cmd_key _ _ Hsm). }
  assert (Forall (λ c, cmd_key c = None → c_completion c = None) (p_store st)) as Hkey.
  { apply Forall_lookup. intros r c Hc Hn. pose proof (lookup_lt_Some _ _ _ Hc) as Hlt. rewrite <- Hlen in Hlt.
    specialize (Hans r Hlt). unfold comp in Hans. rewrite Hc in Hans. simpl in Hans. rewrite Hans.
    apply unkeyed_unanswered. destruct (Forall2_lookup_r _ _ _ _ _ Hsame Hc) as (c0 & Hc0 & Hsm).
    unfold key_at. rewrite Hc0. simpl. by rewrite (same_cmd_key _ _ Hsm). }
  pose proof (command_kinds _ Hkey) as Hkinds. unfold count in Hkinds at 2.
  assert (p_paired st = length store ↔ ∀ r, (r < length store)%nat → is_Some (answer store es r)) as Hall.
  { rewrite Hcnt, Hlen, count_all, Forall_lookup. split.
    - intros H r Hr. rewrite <- Hlen in Hr. rewrite <- Hans by done. rewrite Hlen in Hr.
      destruct (lookup_lt_is_Some_2 _ _ Hr) as [c Hc]. specialize (H r c Hc). unfold is_answered in H.
      unfold comp. rewrite Hc. simpl. destruct (c_completion c); [by eexists|done].
    - intros H r c Hc. pose proof (lookup_lt_Some _ _ _ Hc) as Hlt. specialize (H r Hlt).
      rewrite <- Hans in H by lia. unfold comp in H. rewrite Hc in H. unfold is_answered. simpl in H.
      by destruct (c_completion c); [|apply is_Some_None in H]. }
  constructor; simpl; [done|done|lia|lia|].
  rewrite !andb_true_iff, !Nat.eqb_eq, <- Hall. split; [intros; lia|]. intros [Hp Hc].
  destruct Hreu as [Hreu|(r & Hr & Hn)]; [lia|]. rewrite Hall in Hp.
  destruct (Hp r Hr) as [k Hk]. rewrite Hans in Hn by done. congruence.
Qed.

(** ** Loaded captures *)
Definition is_command (r : Z * dict) : bool := eq_str (getd r.2 "event_type") "nvme_cmd".
Definition is_completion (r : Z * dict) : bool := eq_str (getd r.2 "event_type") "nvme_cmp".

(** Records with their positions. *)
Definition indexed (records : list (Z * dict)) : list (nat * (Z * dict)) := imap pair records.

Definition opt_int (v : json) (o : option Z) : Prop := v = JNull ∧ o = None ∨ ∃ z, v = JInt z ∧ 0 ≤ z ∧ o = Some z.

(** [c] is the command of [record], the [i]-th of the capture, before the pairing. *)
Record cmd_of_record (i : nat) (record : dict) (c : cmd) : Prop := {
  cr_source : c_source_seq c = i;
  cr_seq : py_int (default (JInt (Z.of_nat i)) (dget "seq" record)) = Ok (c_seq c) ∧ 0 ≤ c_seq c;
  cr_ts : getd record "ts" = JInt (c_ts c) ∧ 0 ≤ c_ts c;
  cr_op : ∃ o, getd record "op_name" = JStr o ∧
    (o = "flush" ∧ c_op c = "datasync" ∧ c_slba c = 0 ∧ c_bytes c = 0 ∨
     (o = "read" ∨ o = "write") ∧ c_op c = o ∧
     getd record "slba" = JInt (c_slba c) ∧ 0 ≤ c_slba c ∧ getd record "bytes" = JInt (c_bytes c) ∧ 0 < c_bytes c);
  cr_key : opt_int (getd record "hwq") (c_hwq c) ∧ opt_int (getd record "cid") (c_cid c) ∧
    (c_hwq c = None ↔ c_cid c = None);
  cr_unpaired : c_completion c = None
}.

Definition completion_of_record (record : dict) (k : completion) : Prop :=
  getd record "ts" = JInt (k_ts k) ∧ getd record "lat_ns" = JInt (k_lat_ns k) ∧
  getd record "hwq" = JInt (k_hwq k) ∧ getd record "cid" = JInt (k_cid k) ∧ getd record "status" = JInt (k_status k).

Lemma int_field_Ok record f m z : _int_field record f m = Ok z → getd record f = JInt z ∧ m ≤ z.
Proof. unfold _int_field. destruct (getd record f); try done. intros H. res_inv. split; [done|lia]. Qed.

Lemma opt_field_Ok record f o : opt_field record f = Ok o → opt_int (getd record f) o.
Proof.
  unfold opt_field, opt_int. destruct (getd record f) eqn:E; simpl; intros H; res_inv; try by left.
  all: apply int_field_Ok in E0 as [E0 ?]; rewrite E in E0; try done. injection E0 as ->. right. eauto.
Qed.

Lemma load_command_Ok st i record st' : load_command st i record = Ok st' →
  ∃ c, cmd_of_record i record c ∧ c_seq c ∉ l_seen st ∧
    st' = {| l_commands := l_commands st ++ [c];
             l_events := l_events st ++ [{| e_ts := c_ts c; e_source_seq := i; e_value := EvCommand (length (l_commands st)) |}];
             l_lba := l_lba st; l_seen := c_seq c :: l_seen st |}.
Proof.
  unfold load_command. intros H. apply bind_Ok in H as (o & Ho & H). destruct o as [| | | |o| |]; try done.
  assert (getd record "op_name" = JStr o) as Hop.
  { simpl in Ho. unfold getd. destruct (dget "op_name" record); [|done]. by apply Ok_inj in Ho as ->. }
  apply bind_Ok in H as ([] & Hs & H). apply raise_unless_Ok in Hs. apply bool_decide_eq_true in Hs.
  apply bind_Ok in H as (sq & Hsq & H). apply bind_Ok in H as ([] & Hseen & H).
  apply raise_if_Ok in Hseen. apply bool_decide_eq_false in Hseen.
  apply bind_Ok in H as (ts & Hts & H). apply int_field_Ok in Hts.
  apply bind_Ok in H as (sl & Hsl & H). apply bind_Ok in H as (len & Hlen & H).
  apply bind_Ok in H as (hwq & Hh & H). apply opt_field_Ok in Hh.
  apply bind_Ok in H as (cid & Hc & H). apply opt_field_Ok in Hc. res_inv.
  exists {| c_seq := sq; c_source_seq := i; c_ts := ts; c_op := if String.eqb o "flush" then "datasync" else o;
            c_slba := sl; c_bytes := len; c_hwq := hwq; c_cid := cid; c_completion := None; c_ambiguous := false |}.
  split; [|done]. constructor; simpl; try done.
  - split; [done|lia].
  - exists o. split; [done|]. destruct (String.eqb_spec o "flush") as [->|Hne].
    + left. by res_inv.
    + right. apply int_field_Ok in Hsl as [? ?], Hlen as [? ?]. split_and!; try done; [set_solver|].
      simpl in E1. apply Z.eqb_neq in E1. lia.
  - split_and!; try done. destruct hwq, cid; try done; by rewrite ?bool_decide_eq_true_2, ?bool_decide_eq_false_2 in E.
Qed.

(** The block size that the metadata of the records declares. *)
Definition lba_of (r : Z * dict) : option Z :=
  if eq_str (getd r.2 "event_type") "capture_meta" && negb (is_none (getd r.2 "lba_bytes"))
  then match py_int (getd r.2 "lba_bytes") with Ok z => Some z | Raise _ => None end else None.

Definition declared_lba (records : list (Z * dict)) : option Z := last (omap lba_of records).

Lemma declared_lba_snoc pre x :
  declared_lba (pre ++ [x]) = match lba_of x with Some z => Some z | None => declared_lba pre end.
Proof.
  unfold declared_lba. rewrite omap_app. simpl. destruct (lba_of x) as [z|]; [apply last_snoc|by rewrite app_nil_r].
Qed.

(** The state of the loader after the records [pre]. *)
(** The completions among the events, with the places of their records. *)
Definition placed_completions (es : list event) : list (nat * completion) :=
  omap (λ ev, match e_value ev with EvCommand _ => None | EvCompletion k => Some (e_source_seq ev, k) end) es.

Record cloaded (pre : list (Z * dict)) (st : cload) : Prop := {
  cl_commands : Forall2 (λ ir c, cmd_of_record ir.1 ir.2.2 c)
    (List.filter (λ ir, is_command ir.2) (indexed pre)) (l_commands st);
  cl_completions : Forall2 (λ ir k, ir.1 = k.1 ∧ completion_of_record ir.2.2 k.2)
    (List.filter (λ ir, is_completion ir.2) (indexed pre)) (placed_completions (l_events st));
  cl_refs : refs_of (l_events st) = seq 0 (length (l_commands st));
  cl_times : Forall (λ ev, match e_value ev with
    | EvCommand r => ∃ c, l_commands st !! r = Some c ∧ e_ts ev = c_ts c ∧ e_source_seq ev = c_source_seq c
    | EvCompletion k => e_ts ev = k_ts k end) (l_events st);
  cl_seqs : NoDup (map c_seq (l_commands st)) ∧ ∀ s, s ∈ l_seen st ↔ s ∈ map c_seq (l_commands st);
  cl_lba : l_lba st = declared_lba pre
}.

Lemma indexed_snoc pre x : indexed (pre ++ [x]) = indexed pre ++ [(length pre, x)].
Proof. unfold indexed. rewrite imap_app. simpl. by rewrite Nat.add_0_r. Qed.

Lemma cloaded_skip pre x st lba : cloaded pre st → is_command x = false → is_completion x = false →
  lba = declared_lba (pre ++ [x]) →
  cloaded (pre ++ [x]) {| l_commands := l_commands st; l_events := l_events st; l_lba := lba; l_seen := l_seen st |}.
Proof.
  intros [H1 H2 H3 H4 H5 H6] Hc Hk Hl. constructor; simpl; try done.
  - rewrite indexed_snoc, List.filter_app. simpl. rewrite Hc. by rewrite app_nil_r.
  - rewrite indexed_snoc, List.filter_app. simpl. rewrite Hk. by rewrite app_nil_r.
Qed.

Lemma cloaded_command pre x st st' : cloaded pre st → is_command x = true → is_completion x = false → lba_of x = None →
  load_command st (length pre) x.2 = Ok st' → cloaded (pre ++ [x]) st'.
Proof.
  intros [H1 H2 H3 H4 [H5 H5'] H6] Hc Hk Hl H. apply load_command_Ok in H as (c & Hrec & Hseen & ->).
  constructor; simpl.
  - rewrite indexed_snoc, List.filter_app. simpl. rewrite Hc. apply Forall2_app; [done|]. constructor; [exact Hrec|constructor].
  - rewrite indexed_snoc, List.filter_app. simpl. rewrite Hk, app_nil_r. unfold placed_completions in *.
    rewrite omap_app. simpl. by rewrite app_nil_r.
  - unfold refs_of in *. rewrite omap_app, H3, length_app. simpl. rewrite seq_app. done.
  - apply Forall_app_2.
    + eapply Forall_impl; [exact H4|]. intros ev. cbv beta. destruct (e_value ev); [|done].
      intros (c' & Hc' & ?). exists c'. split; [|done]. by apply lookup_app_l_Some.
    + apply Forall_singleton. simpl. exists c. split_and!; [by rewrite list_lookup_middle|done|].
      symmetry. apply Hrec.
  - rewrite map_app. simpl. rewrite H5' in Hseen. split.
    + apply NoDup_app. split; [done|]. split; [set_solver|apply NoDup_singleton].
    + intros s. rewrite elem_of_cons, H5'. set_solver.
  - by rewrite declared_lba_snoc, Hl.
Qed.

Lemma cloaded_completion pre x st st' : cloaded pre st → is_command x = false → is_completion x = true → lba_of x = None →
  load_completion st (length pre) x.2 = Ok st' → cloaded (pre ++ [x]) st'.
Proof.
  intros [H1 H2 H3 H4 H5 H6] Hc Hk Hl H. unfold load_completion in H.
  apply bind_Ok in H as (ts & Hts & H). apply bind_Ok in H as (lat & Hlat & H). apply bind_Ok in H as (hwq & Hh & H).
  apply bind_Ok in H as (cid & Hci & H). apply bind_Ok in H as (status & Hst & H).
  apply int_field_Ok in Hts as [? _], Hlat as [? _], Hh as [? _], Hci as [? _], Hst as [? _]. res_inv.
  constructor; simpl; try done.
  - rewrite indexed_snoc, List.filter_app. simpl. rewrite Hc. by rewrite app_nil_r.
  - rewrite indexed_snoc, List.filter_app. simpl. rewrite Hk. unfold placed_completions in *. rewrite omap_app. simpl.
    apply Forall2_app; [done|]. by repeat constructor.
  - unfold refs_of in *. rewrite omap_app, H3. simpl. by rewrite app_nil_r.
  - apply Forall_app_2; [done|]. by apply Forall_singleton.
  - by rewrite declared_lba_snoc, Hl.
Qed.

Lemma cload_loop records st : foldiM load_record 0 load_init_cmp records = Ok st → cloaded records st.
Proof.
  apply (foldiM_inv load_record cloaded).
  { constructor; simpl; try done; try constructor; try done. by constructor. }
  intros pre x s1 s2 Hp _ H. unfold load_record in H.
  destruct (eq_str (getd x.2 "event_type") "capture_meta" && negb (is_none (getd x.2 "lba_bytes"))) eqn:Hm.
  - apply andb_true_iff in Hm as Hm'. destruct Hm' as [Hm' _]. apply eq_str_true in Hm'.
    apply bind_Ok in H as (z & Hz & H). res_inv.
    apply cloaded_skip; [done|unfold is_command; by rewrite Hm'|unfold is_completion; by rewrite Hm'|].
    rewrite declared_lba_snoc. unfold lba_of. rewrite Hm, Hz. done.
  - assert (lba_of x = None) as Hl by (unfold lba_of; by rewrite Hm).
    destruct (eq_str (getd x.2 "event_type") "nvme_cmd") eqn:Hc.
    { apply eq_str_true in Hc as Hc'. eapply cloaded_command; [done|done| |done|done].
      unfold is_completion. by rewrite Hc'. }
    destruct (eq_str (getd x.2 "event_type") "nvme_cmp") eqn:Hk; [by eapply cloaded_completion|].
    res_inv. destruct s2 as [a b l d]. apply (cloaded_skip pre x {| l_commands := a; l_events := b; l_lba := l; l_seen := d |});
      [done..|]. rewrite declared_lba_snoc, Hl. apply (cl_lba _ _ Hp).
Qed.

Lemma cloaded_pairable records st : cloaded records st → pairable (l_commands st) (l_events st).
Proof.
  intros [H1 _ H3 _ _ _]. constructor; [by rewrite H3|]. clear H3.
  induction H1 as [|? c ? ? Hc _ IH]; constructor; [|done]. apply Hc.
Qed.

(** ** Percentiles *)
Definition fraction_ok (f : pyfloat) : Prop := ∃ m e, f = FFin false m e ∧ Z.of_N m < 2 ^ 53 ∧ -1000 ≤ e ≤ 0.

Lemma P50_ok : fraction_ok P50.
Proof. exists 4503599627370496%N, (-53). split; [vm_compute; reflexivity|lia]. Qed.

Lemma P99_ok : fraction_ok P99.
Proof. exists 8917127262193582%N, (-53). split; [vm_compute; reflexivity|lia]. Qed.

Lemma trunc_nonneg m e : 0 ≤ float_trunc false m e.
Proof.
  unfold float_trunc. destruct (Z.leb_spec 0 e).
  - assert (0 < 2 ^ e) by lia. nia.
  - apply Z.div_pos; [lia|]. assert (0 < 2 ^ (- e)) by lia. lia.
Qed.

(** The rank exists and is a position of the list. *)
Lemma rank_position n f : (0 < n)%nat → Z.of_nat n < 2 ^ 64 → fraction_ok f → ∃ i, rank n f = Ok i ∧ (i < n)%nat.
Proof.
  intros Hn Hb (m' & e' & -> & Hm' & He'). unfold rank.
  destruct (float_of_Z_small (Z.of_nat n)) as (m & e & -> & Hq); [lia|]. cbn [mbind res_bind].
  assert (Z.of_N m < 2 ^ 53 ∧ e ≤ 15) as [Hm He].
  { unfold quotient in Hq. destruct (Z.eqb_spec (Z.of_nat n) 0); [lia|].
    pose proof (round_double_small (Z.of_nat n) 1 ltac:(lia) ltac:(lia)) as Hs.
    pose proof (round_double_exp (Z.of_nat n) 1) as Hx. destruct (round_double (Z.of_nat n) 1) as [q x]. simpl in Hs, Hx.
    destruct (971 <? x); [done|]. injection Hq as <- <-. rewrite Z2N.id by lia. split; [lia|].
    pose proof (log2_below (Z.of_nat n) 64 ltac:(lia) Hb). change (Z.log2 1) with 0 in Hx. lia. }
  assert (∀ x y (u : N), Z.of_N u < 2 ^ 53 → x ≤ 15 → y = (frac u x).1 → 0 ≤ y < 2 ^ 68) as Hfrac.
  { intros x y u Hu Hx ->. unfold frac. destruct (Z.leb_spec 0 x); simpl; [|lia].
    assert (0 < 2 ^ x ≤ 2 ^ 15) by (split; [lia|apply Z.pow_le_mono_r; lia]). change (2 ^ 68) with (2 ^ 53 * 2 ^ 15). nia. }
  assert (∃ m2 e2, fmul (FFin false m e) (FFin false m' e') = FFin false m2 e2) as (m2 & e2 & ->).
  { unfold fmul. destruct (frac m e) as [a b] eqn:E1, (frac m' e') as [c d] eqn:E2.
    pose proof (Hfrac e a m Hm He ltac:(by rewrite E1)). pose proof (Hfrac e' c m' Hm' ltac:(lia) ltac:(by rewrite E2)).
    destruct (quotient_finite false (a * c) (b * d)) as (m2 & e2 & Hf).
    - pose proof (log2_below (a * c) 136 ltac:(lia) ltac:(change (2 ^ 136) with (2 ^ 68 * 2 ^ 68); nia)).
      pose proof (Z.log2_nonneg (b * d)). lia.
    - exists m2, e2. by destruct m, m'. }
  simpl. pose proof (trunc_nonneg m2 e2). eexists. split; [done|]. lia.
Qed.

Lemma count_mono {A} (p q : A → bool) l : (∀ x, p x = true → q x = true) → (count p l ≤ count q l)%nat.
Proof.
  intros H. unfold count. induction l as [|x l IH]; [done|]. simpl. destruct (p x) eqn:E; [rewrite (H x E); simpl; lia|].
  destruct (q x); simpl; lia.
Qed.

(** In a sorted list, the element at [i] is preceded by [i] lesser ones. *)
Lemma sorted_rank l i v : Forall finite l → StronglySorted fle l → l !! i = Some v →
  (S i ≤ count (λ x, bool_decide (fle x v)) l)%nat ∧ (length l - i ≤ count (λ x, bool_decide (fle v x)) l)%nat.
Proof.
  intros Hf Hs. revert i. induction Hs as [|a l Hs IH Ha]; intros i Hi; [done|]. apply Forall_cons in Hf as [Hfa Hf].
  unfold count in *. destruct i as [|i]; simpl in *.
  - injection Hi as ->. rewrite (bool_decide_eq_true_2 (fle v v)) by (by apply fle_refl). simpl.
    assert (List.filter (λ x, bool_decide (fle v x)) l = l) as ->; [|lia].
    clear -Ha. induction Ha as [|x l Hx Ha IH]; [done|]. simpl. rewrite bool_decide_eq_true_2 by done. by f_equal.
  - destruct (IH Hf i Hi) as [H1 H2]. rewrite Forall_lookup in Ha. rewrite (bool_decide_eq_true_2 (fle a v)) by eauto.
    simpl. split; [lia|]. destruct (bool_decide (fle v a)); simpl; lia.
Qed.

(** What a percentile is: a value of the list, with the ranked number of values on each side. *)
Lemma percentile_ranked values f : values ≠ [] → Z.of_nat (length values) < 2 ^ 64 → Forall finite values → fraction_ok f →
  ∃ v i, _percentile values f = Ok v ∧ v ∈ values ∧ rank (length values) f = Ok i ∧
    (S i ≤ count (λ x, bool_decide (fle x v)) values)%nat ∧
    (length values - i ≤ count (λ x, bool_decide (fle v x)) values)%nat.
Proof.
  intros Hne Hlen Hf Hfr. pose proof (stable_sort_Permutation fle values) as Hp.
  assert (length (stable_sort fle values) = length values) as Hl by (by rewrite Hp).
  destruct (rank_position (length values) f) as (i & Hi & Hlt); [by destruct values; [|simpl; lia]|done|done|].
  destruct (lookup_lt_is_Some_2 (stable_sort fle values) i) as [v Hv]; [lia|].
  exists v, i. split_and!; [|by rewrite <- Hp; eapply list_elem_of_lookup_2|done|..].
  - unfold _percentile. destruct values as [|x values]; [done|]. rewrite Hl, Hi. cbn [mbind res_bind]. by rewrite Hv.
  - rewrite <- (count_perm _ _ _ Hp). apply sorted_rank; [by rewrite Hp|by apply sorted_floats|done].
  - rewrite <- (count_perm _ _ _ Hp), <- Hl. apply sorted_rank; [by rewrite Hp|by apply sorted_floats|done].
Qed.

Lemma fmax_greatest x l : Forall finite (x :: l) → fmax x l ∈ x :: l ∧ ∀ y, y ∈ x :: l → fle y (fmax x l).
Proof.
  revert x. induction l as [|y l IH]; intros x Hf.
  - simpl. split; [set_solver|]. intros y ->%list_elem_of_singleton. apply fle_refl. by apply Forall_cons in Hf as [? _].
  - unfold fmax. simpl. apply Forall_cons in Hf as [Hx Hf]. apply Forall_cons in Hf as [Hy Hf].
    set (z := if fltb x y then y else x). assert (finite z) as Hz by (unfold z; by destruct (fltb x y)).
    destruct (IH z) as [Hin Hle]; [by constructor|]. change (fold_left _ l z) with (fmax z l).
    assert (finite (fmax z l)) as Hm.
    { rewrite Forall_forall in Hf. apply elem_of_cons in Hin as [->|Hin]; [done|by apply Hf]. }
    assert (fle x z ∧ fle y z) as [Hxz Hyz].
    { unfold z. destruct (fltb x y) eqn:E; [|split; [by apply fle_refl|done]].
      split; [|by apply fle_refl]. destruct (fle_total x y) as [|H]; [done|]. unfold fle in H. congruence. }
    split; [unfold z in *; destruct (fltb x y); set_solver|].
    assert (fle z (fmax z l)) as Hzm by (apply Hle; left). intros w [->|[->|Hw]%elem_of_cons]%elem_of_cons.
    + by apply (fle_trans x z).
    + by apply (fle_trans y z).
    + apply Hle. by right.
Qed.

(** ** The comparison of two loaded captures *)

(** What a loaded capture is, told on the records of its file. *)
Record capture_of (al : bool) (lines : list string) (cap : capture) : Prop := {
  co_loaded : ∃ records env fresh events store,
    load_records lines = Ok records ∧ validate_envelope al records = Ok env ∧
    Forall2 (λ ir c, cmd_of_record ir.1 ir.2.2 c) (List.filter (λ ir, is_command ir.2) (indexed records)) fresh ∧
    Forall2 (λ ir k, ir.1 = k.1 ∧ completion_of_record ir.2.2 k.2)
      (List.filter (λ ir, is_completion ir.2) (indexed records)) (placed_completions events) ∧
    refs_of events = seq 0 (length fresh) ∧
    Forall (λ ev, match e_value ev with
      | EvCommand r => ∃ c, fresh !! r = Some c ∧ e_ts ev = c_ts c ∧ e_source_seq ev = c_source_seq c
      | EvCompletion k => e_ts ev = k_ts k end) events ∧
    paired_up fresh store (stable_sort event_le events) (cap_pairing cap) ∧
    cap_commands cap ≡ₚ store ∧ cap_drops cap = env_drops env ∧ cap_lba cap = declared_lba records;
  co_sorted : StronglySorted cmd_le (cap_commands cap);
  co_seqs : NoDup (map c_seq (cap_commands cap))
}.

Lemma as_comparison_error_Ok {A} (r : res A) x : as_comparison_error r = Ok x → r = Ok x.
Proof. destruct r as [a|[[] m]]; simpl; intros H; by res_inv. Qed.

Lemma same_seqs l l' : Forall2 same_cmd l l' → map c_seq l' = map c_seq l.
Proof. induction 1 as [|c c' l l' Hc _ IH]; [done|]. simpl. rewrite IH. f_equal. symmetry. apply Hc. Qed.

Lemma load_capture_of al lines cap : load al lines = Ok cap → capture_of al lines cap.
Proof.
  unfold load. intros H. apply bind_Ok in H as (records & Hr & H). apply as_comparison_error_Ok in Hr.
  apply bind_Ok in H as (env & He & H). apply as_comparison_error_Ok in He.
  apply bind_Ok in H as (st & Hst & H). apply cload_loop in Hst.
  destruct (_pair_completions (l_events st) (l_commands st)) as [store p] eqn:Hp.
  apply pair_completions_paired in Hp; [|by eapply cloaded_pairable]. apply bind_Ok in H as (lats & _ & H). apply Ok_inj in H.
  pose proof (stable_sort_Permutation cmd_le store) as Hperm. subst cap. constructor; simpl.
  - destruct Hst as [H1 H2 H3 H4 H5 H6]. exists records, env, (l_commands st), (l_events st), store. by split_and!.
  - apply (StronglySorted_stable_sort cmd_le store).
  - rewrite Hperm, (same_seqs _ _ (pu_same _ _ _ _ Hp)). apply (cl_seqs _ _ Hst).
Qed.

(** A complete pairing leaves no command without completion. *)
Lemma complete_paired al lines cap : load al lines = Ok cap → pr_complete (cap_pairing cap) = true →
  Forall (λ c, is_Some (c_completion c)) (cap_commands cap).
Proof.
  intros Hl Hc. apply load_capture_of in Hl as [(records & env & fresh & events & store & Hr) _ _].
  destruct Hr as (_ & _ & _ & _ & _ & _ & [Hsame Hans _ _ Hcomp] & Hperm & _).
  apply Hcomp in Hc as [Hall _]. rewrite Hperm. apply Forall_lookup. intros r c Hrc.
  pose proof (lookup_lt_Some _ _ _ Hrc) as Hlt. rewrite <- (Forall2_length _ _ _ Hsame) in Hlt.
  specialize (Hall r Hlt). rewrite <- Hans, Hrc in Hall by done. done.
Qed.

(** Timestamps, latencies and the number of commands fit 64 bits. *)
Definition device_times (cap : capture) : Prop :=
  Z.of_nat (length (cap_commands cap)) < 2 ^ 64 ∧
  Forall (λ c, Z.abs (c_ts c) < 2 ^ 64 ∧ ∀ k, c_completion c = Some k → Z.abs (k_lat_ns k) < 2 ^ 64) (cap_commands cap).

(** Two commands that are the same request to the device. *)
Definition same_request (a b : cmd) : Prop := c_op a = c_op b ∧ c_slba a = c_slba b ∧ c_bytes a = c_bytes b.

Lemma tuples_equal lba l k : 0 < lba → (map (tuple_of lba) l = map (tuple_of lba) k ↔ Forall2 same_request l k).
Proof.
  intros Hlba. revert k. induction l as [|a l IH]; intros [|b k]; simpl; [by split; [constructor|]|by split; [|inversion 1]..|].
  rewrite Forall2_cons, <- IH. unfold same_request, tuple_of at 1 3. split.
  - intros [= H1 H2 H3 H4]. split_and!; [done|nia|done|done].
  - by intros [(-> & -> & ->) ->].
Qed.

(** The figures of a list of errors: values of the list, the last one the greatest. *)
Definition figures_of (errors : list pyfloat) (f : pyfloat * pyfloat * pyfloat) : Prop :=
  f.1.1 ∈ errors ∧ f.1.2 ∈ errors ∧ f.2 ∈ errors ∧ ∀ e, e ∈ errors → fle e f.2.

Lemma error_figures_total errors : errors ≠ [] → Z.of_nat (length errors) < 2 ^ 64 → Forall finite errors →
  ∃ f, error_figures errors = Ok f ∧ figures_of errors f.
Proof.
  intros Hne Hl Hf. unfold error_figures.
  destruct (percentile_ranked errors P50 Hne Hl Hf P50_ok) as (a & _ & -> & Ha & _).
  destruct (percentile_ranked errors P99 Hne Hl Hf P99_ok) as (b & _ & -> & Hb & _). cbn [mbind res_bind].
  destruct errors as [|x l]; [done|]. destruct (fmax_greatest x l Hf) as [Hm Hle]. eexists. split; [done|]. by repeat split.
Qed.

Lemma zip_errors (f : cmd * cmd → res pyfloat) l k : length l = length k → Z.of_nat (length l) < 2 ^ 64 → l ≠ [] →
  (∀ a b, a ∈ l → b ∈ k → ∃ e, f (a, b) = Ok e ∧ finite e) →
  ∃ errors fig, mapMR f (zip l k) = Ok errors ∧ error_figures errors = Ok fig ∧ figures_of errors fig.
Proof.
  intros Hlen Hb Hne Hf.
  destruct (mapMR_total f (λ _ e, finite e) (zip l k)) as (errors & He & HF).
  { intros [a b] Hab. apply list_elem_of_In in Hab. apply Hf; apply list_elem_of_In.
    - by eapply in_combine_l.
    - by eapply in_combine_r. }
  pose proof (Forall2_length _ _ _ HF) as Hl. rewrite length_zip, <- Hlen, Nat.min_id in Hl.
  assert (Forall finite errors) as Hfin by (clear -HF; induction HF; by constructor).
  destruct (error_figures_total errors) as (fig & Hfig & Hof); [|by rewrite <- Hl|done|eauto 10].
  intros ->. simpl in Hl. by destruct l.
Qed.

Lemma timing_finite a b t0 t0' : Z.abs (c_ts a) < 2 ^ 64 → Z.abs (c_ts b) < 2 ^ 64 → Z.abs t0 < 2 ^ 64 → Z.abs t0' < 2 ^ 64 →
  ∃ e, timing_error t0 t0' (a, b) = Ok e ∧ finite e.
Proof.
  intros. unfold timing_error. simpl.
  destruct (int_truediv_small (Z.abs (c_ts a - t0 - (c_ts b - t0'))) 1000) as (n & m & e & H'); [done| |].
  - assert (2 ^ 64 * 4 < 2 ^ 1000) by (vm_compute; reflexivity). lia.
  - exists (FFin n m e). split; [exact H'|]. by exists n, m, e.
Qed.

Lemma latency_finite a b : is_Some (c_completion a) → is_Some (c_completion b) →
  (∀ k, c_completion a = Some k → Z.abs (k_lat_ns k) < 2 ^ 64) → (∀ k, c_completion b = Some k → Z.abs (k_lat_ns k) < 2 ^ 64) →
  ∃ e, latency_error (a, b) = Ok e ∧ finite e.
Proof.
  intros [k Hk] [k' Hk'] Ha Hb. specialize (Ha k Hk). specialize (Hb k' Hk').
  unfold latency_error, lat_of. cbn [fst snd]. rewrite Hk, Hk'. cbn [mbind res_bind].
  destruct (int_truediv_small (Z.abs (k_lat_ns k - k_lat_ns k')) 1000) as (n & m & e & H'); [done| |].
  - assert (2 ^ 64 * 2 < 2 ^ 1000) by (vm_compute; reflexivity). lia.
  - exists (FFin n m e). split; [exact H'|]. by exists n, m, e.
Qed.

Lemma three_sequences {A B C} (l k : list (A * B * C)) : length l = length k →
  (l = k ↔ map (λ t, t.1.1) l = map (λ t, t.1.1) k ∧ map (λ t, t.1.2) l = map (λ t, t.1.2) k ∧ map snd l = map snd k).
Proof.
  intros Hlen. split; [by intros ->|]. revert k Hlen. induction l as [|[[a b] c] l IH]; intros [|[[a' b'] c'] k]; try done.
  simpl. intros [= Hlen] ([= -> H1] & [= -> H2] & [= -> H3]). f_equal. by apply IH.
Qed.

(** The timing and latency parts of the comparison. *)
Lemma timing_part source replay : device_times source → device_times replay →
  ∃ o, match cap_commands source, cap_commands replay with
       | l0 :: _, r0 :: _ =>
           if (length (cap_commands source) =? length (cap_commands replay))%nat then
             errors ← mapMR (timing_error (c_ts l0) (c_ts r0)) (zip (cap_commands source) (cap_commands replay));
             e ← error_figures errors; Ok (Some e)
           else Ok None
       | _, _ => Ok None
       end = Ok o ∧
    ∀ fig, o = Some fig → ∃ l0 r0 errors, head (cap_commands source) = Some l0 ∧ head (cap_commands replay) = Some r0 ∧
      mapMR (timing_error (c_ts l0) (c_ts r0)) (zip (cap_commands source) (cap_commands replay)) = Ok errors ∧ figures_of errors fig.
Proof.
  intros [Hn Ht] [Hn' Ht']. destruct (cap_commands source) as [|l0 l] eqn:El; [by exists None|].
  destruct (cap_commands replay) as [|r0 r] eqn:Er; [by exists None|].
  destruct (Nat.eqb_spec (length (l0 :: l)) (length (r0 :: r))) as [Hlen|]; [|by exists None].
  rewrite Forall_forall in Ht, Ht'. destruct (Ht l0 ltac:(by left)) as [H0 _]. destruct (Ht' r0 ltac:(by left)) as [H0' _].
  destruct (zip_errors (timing_error (c_ts l0) (c_ts r0)) (l0 :: l) (r0 :: r)) as (errors & fig & He & Hf & Hof); [done|done|done| |].
  { intros a b Ha Hb. apply timing_finite; try done; [by apply Ht|by apply Ht']. }
  exists (Some fig). rewrite He. cbn [mbind res_bind]. rewrite Hf. split; [done|].
  intros fig' [= <-]. exists l0, r0, errors. by split_and!.
Qed.

Lemma latency_part al al' lines lines' source replay :
  load al lines = Ok source → load al' lines' = Ok replay → device_times source → device_times replay →
  pr_complete (cap_pairing source) = true → pr_complete (cap_pairing replay) = true →
  cap_commands source ≠ [] → length (cap_commands source) = length (cap_commands replay) →
  ∃ errors fig, mapMR latency_error (zip (cap_commands source) (cap_commands replay)) = Ok errors ∧
    error_figures errors = Ok fig ∧ figures_of errors fig.
Proof.
  intros Hl Hl' [Hn Ht] [Hn' Ht'] Hc Hc' Hne Hlen.
  pose proof (complete_paired _ _ _ Hl Hc) as Hp. pose proof (complete_paired _ _ _ Hl' Hc') as Hp'.
  rewrite Forall_forall in Ht, Ht', Hp, Hp'. apply zip_errors; [done..|].
  intros a b Ha Hb. apply latency_finite; [by apply Hp|by apply Hp'|by apply Ht|by apply Ht'].
Qed.

(** C14: loading pairs commands and completions exactly: the commands of a loaded
    capture are the [nvme_cmd] records of its file, sorted by time and sequence number; a
    command has a completion if and only if the next event on its queue and
    command id, in time order, is a completion whose latency is the time between
    them; the counters account for every command and every completion; and the
    pairing is reported complete exactly when every command is answered and there
    are no other completions. *)
Theorem load_pairs al lines cap : load al lines = Ok cap → capture_of al lines cap.
Proof. apply load_capture_of. Qed.

(** C15: the comparison of two loaded captures with 64-bit times always returns;
    the streams are reported equal exactly when both captures dropped nothing and
    their commands agree one by one in operation, block address and length; the
    tuple verdict is the conjunction of the three sequence verdicts; latencies are
    compared per command exactly for equal, non-empty, completely paired streams;
    and the error figures are errors that occurred, the last one the greatest. *)
Theorem exact_comparison_correct al al' lines lines' source replay lba :
  load al lines = Ok source → load al' lines' = Ok replay → device_times source → device_times replay → 0 < lba →
  ∃ x, exact_comparison source replay lba = Ok x ∧
    (x_tuple_sequence_equal x = true ↔ Forall2 same_request (cap_commands source) (cap_commands replay)) ∧
    x_tuple_sequence_equal x = x_operation_sequence_equal x && x_offset_sequence_equal x && x_length_sequence_equal x ∧
    (x_device_stream_equal x = true ↔ cap_drops source = 0 ∧ cap_drops replay = 0 ∧
       Forall2 same_request (cap_commands source) (cap_commands replay)) ∧
    (x_per_command_compared x = true ↔ cap_commands source ≠ [] ∧
       Forall2 same_request (cap_commands source) (cap_commands replay) ∧
       pr_complete (cap_pairing source) = true ∧ pr_complete (cap_pairing replay) = true) ∧
    (∀ fig, x_timing_error x = Some fig → ∃ l0 r0 errors, head (cap_commands source) = Some l0 ∧ head (cap_commands replay) = Some r0 ∧
       mapMR (timing_error (c_ts l0) (c_ts r0)) (zip (cap_commands source) (cap_commands replay)) = Ok errors ∧ figures_of errors fig) ∧
    (∀ fig, x_latency_error x = Some fig → ∃ errors,
       mapMR latency_error (zip (cap_commands source) (cap_commands replay)) = Ok errors ∧ figures_of errors fig).
Proof.
  intros Hl Hl' Ht Ht' Hlba. unfold exact_comparison.
  destruct (_completion_status source) as [se so], (_completion_status replay) as [re ro].
  destruct (timing_part source replay Ht Ht') as (timing & -> & Htim). cbn [mbind res_bind].
  pose proof (tuples_equal lba (cap_commands source) (cap_commands replay) Hlba) as Htup.
  set (same := bool_decide (map (tuple_of lba) (cap_commands source) = map (tuple_of lba) (cap_commands replay))).
  assert (same = true ↔ Forall2 same_request (cap_commands source) (cap_commands replay)) as Hsame
    by (unfold same; by rewrite bool_decide_eq_true).
  set (guard := same && pr_complete (cap_pairing source) && pr_complete (cap_pairing replay) && negb (bool_decide (cap_commands source = []))).
  assert (guard = true ↔ cap_commands source ≠ [] ∧ Forall2 same_request (cap_commands source) (cap_commands replay) ∧
    pr_complete (cap_pairing source) = true ∧ pr_complete (cap_pairing replay) = true) as Hguard.
  { unfold guard. rewrite !andb_true_iff, Hsame, negb_true_iff, bool_decide_eq_false. naive_solver. }
  assert (∃ o, (if guard then errors ← mapMR latency_error (zip (cap_commands source) (cap_commands replay));
      e ← error_figures errors; Ok (Some e) else Ok None) = Ok o ∧ (o ≠ None ↔ guard = true) ∧
      ∀ fig, o = Some fig → ∃ errors, mapMR latency_error (zip (cap_commands source) (cap_commands replay)) = Ok errors ∧ figures_of errors fig)
    as (lat & -> & Hlat & Hlat').
  { destruct guard; [|by exists None]. destruct (proj1 Hguard eq_refl) as (Hne & Hreq & Hc & Hc').
    destruct (latency_part _ _ _ _ _ _ Hl Hl' Ht Ht' Hc Hc' Hne (Forall2_length _ _ _ Hreq)) as (errors & fig & -> & Hf & Hof).
    cbn [mbind res_bind]. rewrite Hf. exists (Some fig). split_and!; [done|done|]. intros ? [= <-]. eauto. }
  cbn [mbind res_bind]. eexists. split; [done|]. simpl. split_and!; [done| | |by rewrite bool_decide_eq_true, Hlat|done|done].
  - unfold same. destruct (Nat.eqb_spec (length (cap_commands source)) (length (cap_commands replay))) as [Hlen|Hlen]; simpl.
    + apply eq_iff_eq_true. rewrite !andb_true_iff, !bool_decide_eq_true, three_sequences by (by rewrite !length_map). naive_solver.
    + apply bool_decide_eq_false. intros H. apply (f_equal length) in H. by rewrite !length_map in H.
  - rewrite !andb_true_iff, !Z.eqb_eq, Hsame. naive_solver.
Qed.

(** A capture with a read that is answered and a write on the same queue and id after it. *)
Definition cmp_lines : list string := map q2
  ["{'event_type':'capture_meta','schema_version':1,'emitter':'nvme_tp_monitor','disk_filter':true,'lba_bytes':512,'disk':'nvme0n1'}";
   "{'event_type':'nvme_cmd','op_name':'read','seq':0,'ts':1000,'slba':16,'bytes':512,'disk':'nvme0n1','nsid':1,'hwq':1,'cid':7}";
   "{'event_type':'nvme_cmp','ts':1500,'lat_ns':500,'hwq':1,'cid':7,'status':0}";
   "{'event_type':'nvme_cmd','op_name':'write','seq':1,'ts':2000,'slba':8,'bytes':4096,'disk':'nvme0n1','nsid':1,'hwq':1,'cid':7}";
   "{'event_type':'nvme_cmp','ts':2600,'lat_ns':600,'hwq':1,'cid':7,'status':0}";
   "{'event_type':'drops','dropped':0}"].

Definition cmp_capture : capture :=
  match load false cmp_lines with
  | Ok c => c
  | Raise _ => {| cap_commands := []; cap_latencies_us := []; cap_lba := None; cap_drops := 1; cap_scope := None;
                  cap_pairing := {| pr_complete := false; pr_paired := 0; pr_unmatched := 0; pr_orphan := 0;
                                    pr_reuse := 0; pr_invalid := 0; pr_missing := 0 |} |}
  end.

Lemma cmp_loaded : load false cmp_lines = Ok cmp_capture ∧ pr_complete (cap_pairing cmp_capture) = true.
Proof. split; vm_compute; reflexivity. Qed.

Lemma load_pairs_witness : capture_of false cmp_lines cmp_capture.
Proof. exact (load_pairs false cmp_lines cmp_capture (proj1 cmp_loaded)). Defined.

Lemma cmp_times : device_times cmp_capture.
Proof.
  split; [vm_compute; reflexivity|]. apply Forall_forall. intros c Hc. vm_compute in Hc.
  apply elem_of_cons in Hc as [->|Hc]; [|apply list_elem_of_singleton in Hc as ->]; simpl; split; try lia; intros k [= <-]; simpl; lia.
Qed.

Lemma exact_comparison_correct_witness :
  ∃ x, exact_comparison cmp_capture cmp_capture 512 = Ok x ∧ x_device_stream_equal x = true ∧ x_per_command_compared x = true.
Proof.
  destruct (exact_comparison_correct false false cmp_lines cmp_lines cmp_capture cmp_capture 512
    (proj1 cmp_loaded) (proj1 cmp_loaded) cmp_times cmp_times eq_refl) as (x & Hx & _ & _ & Hd & Hp & _).
  exists x. assert (Forall2 same_request (cap_commands cmp_capture) (cap_commands cmp_capture)) as Hs.
  { apply Forall_Forall2_diag, Forall_forall. by repeat split. }
  split; [exact Hx|]. split.
  - apply Hd. by repeat split.
  - apply Hp. split; [by vm_compute|]. split; [exact Hs|]. split; exact (proj2 cmp_loaded).
Defined.
