(* ===== verification/RuntimeBundle.v ===== *)
(** * Runtime validation of a fio bundle ([examples/replay/compare_streams.py])

    [update_runtime_bundle] writes the verdict of a comparison into the
    bundle that [mk_dev_iolog.py] exported for the source capture: it checks
    the bundle's inventory and checksums, that the bundle was made from the
    source capture, and replaces the certificate and the checksum list, each
    through a temporary file and a rename.  A bundle is the directory it is
    in; the write of a file can fail at each system call, and a reader or a
    crash can see the directory between two of them. *)

From stdpp Require Import prelude strings list numbers gmap sorting.
From Stdlib Require Import ZArith Lia Ascii.
From S2P Require Import Prelude PyText PyJson JsonText PyFloat CaptureFormat DevIolog Release CompareStreams.
Local Open Scope Z_scope.

(** In sorted order; the source has a set. *)
Definition BUNDLE_ARTIFACTS : list string :=
  ["README.txt"; "certificate.json"; "commands.iolog"; "replay-block.fio"; "replay-uring-cmd.fio"; "workload.json"].

Definition entries := list (string * leaf).

Definition content_at (es : entries) (name : string) : string :=
  match dget name es with Some (LFile c) => c | _ => EmptyString end.

(** ** Reading the bundle *)

(** [line.split("  ", 1)] when the separator occurs. *)
Fixpoint split_gap (s : string) : option (string * string) :=
  match s with
  | String c t =>
      match t with
      | String d u =>
          if (code c =? 32) && (code d =? 32) then Some (EmptyString, u)
          else match split_gap t with Some (a, b) => Some (String c a, b) | None => None end
      | EmptyString => None
      end
  | EmptyString => None
  end.

Definition checksum_line (checksums : list (string * string)) (line : string) : res (list (string * string)) :=
  match split_gap line with
  | Some (digest, name) =>
      raise_unless (hex_digest digest && negb (dhas name checksums)) (cmperr "runtime bundle has an invalid checksum list") ;;
      Ok (dset name digest checksums)
  | None => Raise (cmperr "runtime bundle has an invalid checksum list")
  end.

Definition decode_text (raw : string) : res string :=
  match utf8_decode raw with
  | Some text => Ok text
  | None => Raise (Exn ValueError "'utf-8' codec can't decode byte")
  end.

Definition _load_json (raw : string) : res dict :=
  text ← decode_text raw;
  match loads_hook (unique_object (λ _, cmperr "{path}: duplicate JSON key")) text with
  | Ok (JObj value) => Ok value
  | Ok _ => Raise (cmperr "{path}: expected a JSON object")
  | Raise (Exn JSONDecodeError _) => Raise (cmperr "{path}: invalid JSON")
  | Raise e => Raise e
  end.

Section bundle.
(** [hashlib.sha256(data).hexdigest()]. *)
Context (sha256 : string → string).

(** The inventory and the checksums. *)
Definition verify_files (root : option node) : res entries :=
  match root with
  | Some (NDir es) =>
      let expected := "SHA256SUMS" :: BUNDLE_ARTIFACTS in
      raise_unless (same_names (keys es) expected) (cmperr "runtime bundle inventory is not schema v1") ;;
      raise_unless (forallb (λ name, match dget name es with Some (LFile _) => true | _ => false end) expected)
        (cmperr "runtime bundle {name} is not a regular file") ;;
      text ← decode_text (content_at es "SHA256SUMS");
      checksums ← foldM checksum_line [] (splitlines text);
      raise_unless (same_names (keys checksums) BUNDLE_ARTIFACTS) (cmperr "runtime bundle checksum inventory is incomplete") ;;
      raise_unless (forallb (λ nd, String.eqb (sha256 (content_at es nd.1)) nd.2) checksums)
        (cmperr "runtime bundle checksum failed for {name}") ;;
      Ok es
  | _ => Raise (cmperr "runtime bundle must be a real directory")
  end.

Definition _verify_bundle (root : option node) : res (entries * dict * dict) :=
  es ← verify_files root;
  certificate ← _load_json (content_at es "certificate.json");
  workload ← _load_json (content_at es "workload.json");
  Ok (es, certificate, workload).

(** ** Writing *)

(** Where an update of one file fails: opening the directory, the temporary
    file, the rename, or the final [fsync] of the directory.  The handler removes
    the temporary file and ignores a failure to do so; the directory is then one
    of [write_states], with the temporary file in it. *)
Inductive fault := NoFault | FaultDirectory | FaultTemporary | FaultReplace | FaultSync.

Definition _atomic_write (es : entries) (name content : string) (f : fault) : entries * res unit :=
  match f with
  | NoFault => (dset name (LFile content) es, Ok tt)
  | FaultDirectory => (es, Raise (Exn OSError "cannot open the directory"))
  | FaultTemporary | FaultReplace => (es, Raise (cmperr "cannot update runtime bundle {path.name}"))
  | FaultSync => (dset name (LFile content) es, Raise (cmperr "cannot update runtime bundle {path.name}"))
  end.

(** The directory as it can be seen while the file is updated: unchanged,
    with a temporary file that holds a part of the content, and replaced. *)
Definition write_states (es : entries) (name content : string) (es' : entries) : Prop :=
  es' = es ∨ (∃ tmp part, tmp ∉ "SHA256SUMS" :: BUNDLE_ARTIFACTS ∧ es' = es ++ [(tmp, LFile part)]) ∨
  es' = dset name (LFile content) es.

(** ** The runtime section of the certificate *)
Definition _normalized_commands (c : capture) (lba_bytes : Z) : list json :=
  match cap_commands c with
  | [] => []
  | c0 :: _ =>
      imap (λ index command,
        JObj [("seq", JInt (Z.of_nat index)); ("at_ns", JInt (c_ts command - c_ts c0)); ("op", JStr (c_op command));
              ("offset_bytes", JInt (c_slba command * lba_bytes)); ("length_bytes", JInt (c_bytes command))])
        (cap_commands c)
  end.

Definition opt_float (o : option pyfloat) : json := match o with Some f => JFloat f | None => JNull end.

Definition distribution_json (d : latency_distribution) : json :=
  JObj [("sample_count", JInt (Z.of_nat (ld_count d))); ("p50_us", opt_float (ld_p50 d)); ("p99_us", opt_float (ld_p99 d))].

Definition runtime_of (replay_bytes : string) (source replay : capture) (x : comparison)
    (ds dr : latency_distribution) : json :=
  JObj [
    ("schema_version", JInt 1);
    ("replay_capture_sha256", JStr (sha256 replay_bytes));
    ("source_command_count", JInt (Z.of_nat (length (cap_commands source))));
    ("replay_command_count", JInt (Z.of_nat (length (cap_commands replay))));
    ("source_capture_complete", JBool (x_source_capture_complete x));
    ("replay_capture_complete", JBool (x_replay_capture_complete x));
    ("command_count_equal", JBool (x_command_count_equal x));
    ("operation_sequence_equal", JBool (x_operation_sequence_equal x));
    ("offset_sequence_equal", JBool (x_offset_sequence_equal x));
    ("length_sequence_equal", JBool (x_length_sequence_equal x));
    ("tuple_sequence_equal", JBool (x_tuple_sequence_equal x));
    ("device_stream_equal", JBool (x_device_stream_equal x));
    ("timing_error_us", JObj [
       ("p50", opt_float ((λ f, f.1.1) <$> x_timing_error x));
       ("p99", opt_float ((λ f, f.1.2) <$> x_timing_error x));
       ("max", opt_float ((λ f, f.2) <$> x_timing_error x))]);
    ("completion_latency_us", JObj [("source", distribution_json ds); ("replay", distribution_json dr)]);
    ("completion_status", JObj [
       ("source", JObj [("error_count", JInt (Z.of_nat (x_source_error_count x)));
                        ("all_commands_succeeded", JBool (x_source_all_succeeded x))]);
       ("replay", JObj [("error_count", JInt (Z.of_nat (x_replay_error_count x)));
                        ("all_commands_succeeded", JBool (x_replay_all_succeeded x))])]);
    ("completion_pairing", JObj [
       ("source_complete", JBool (x_source_pairing_complete x));
       ("replay_complete", JBool (x_replay_pairing_complete x));
       ("per_command_compared", JBool (x_per_command_compared x));
       ("absolute_error_p50_us", opt_float ((λ f, f.1.1) <$> x_latency_error x));
       ("absolute_error_p99_us", opt_float ((λ f, f.1.2) <$> x_latency_error x));
       ("absolute_error_max_us", opt_float ((λ f, f.2) <$> x_latency_error x))])].

(** ** The update *)

(** The checks, before anything is written. *)
Definition check_bundle (root : option node) (source_bytes : string) (source : capture) (lba_bytes : Z)
    : res (entries * dict) :=
  v ← _verify_bundle root;
  let '(es, certificate, workload) := v in
  raise_unless (py_eq (getd certificate "schema_version") (JInt 1)) (cmperr "runtime bundle has an unsupported certificate") ;;
  raise_unless (eq_str (getd certificate "source_trace_sha256") (sha256 source_bytes))
    (cmperr "source capture does not match the runtime bundle") ;;
  raise_unless (py_eq (getd certificate "lba_bytes") (JInt lba_bytes))
    (cmperr "comparison LBA size does not match the runtime bundle") ;;
  raise_unless (py_eq (JObj workload)
      (JObj [("schema_version", JInt 1); ("commands", JList (_normalized_commands source lba_bytes))]))
    (cmperr "source capture does not match the normalized workload") ;;
  Ok (es, certificate).

(** No float of the document is infinite or NaN ([allow_nan=False]). *)
Fixpoint finite_json (v : json) : bool :=
  match v with
  | JFloat (FFin _ _ _) => true
  | JFloat _ => false
  | JList l => forallb finite_json l
  | JObj d => forallb (λ kv, finite_json kv.2) d
  | _ => true
  end.

(** The text of the new certificate. *)
Definition certificate_text (certificate : dict) (runtime : json) : res string :=
  let document := JObj (dset "runtime_device_validation" runtime certificate) in
  raise_unless (finite_json document) (Exn ValueError "Out of range float values are not JSON compliant") ;;
  Ok (dumps Indent2 document +:+ LF).

(** The text of [SHA256SUMS] for the files of a directory. *)
Definition sums_text (es : entries) : string :=
  py_join LF (map (λ name, sha256 (content_at es name) +:+ "  " +:+ name) BUNDLE_ARTIFACTS) +:+ LF.

(** Returns the directory after the update and the runtime section or the error. *)
Definition update_runtime_bundle (root : option node) (source_bytes replay_bytes : string)
    (source replay : capture) (x : comparison) (lba_bytes : Z) (f1 f2 : fault) : option node * res json :=
  let prepared :=
    ec ← check_bundle root source_bytes source lba_bytes;
    ds ← _latency_distribution source;
    dr ← _latency_distribution replay;
    let runtime := runtime_of replay_bytes source replay x ds dr in
    text ← certificate_text ec.2 runtime;
    Ok (ec.1, runtime, text) in
  match prepared with
  | Raise e => (root, Raise e)
  | Ok (es, runtime, text) =>
      match _atomic_write es "certificate.json" text f1 with
      | (es1, Raise e) => (Some (NDir es1), Raise e)
      | (es1, Ok _) =>
          match _atomic_write es1 "SHA256SUMS" (sums_text es1) f2 with
          | (es2, Raise e) => (Some (NDir es2), Raise e)
          | (es2, Ok _) => (Some (NDir es2), Ok runtime)
          end
      end
  end.
End bundle.
