(* ===== verification/RuntimeBundleCorrect.v ===== *)
(** * Correctness of the runtime validation

    Three facts: a completed update leaves a bundle whose files match its
    checksum list; a torn update is never accepted; and the bundle that the
    converter exports for a capture is the one the referee accepts for it. *)

From stdpp Require Import prelude strings list numbers gmap sorting.
From Stdlib Require Import ZArith Lia Ascii.
From S2P Require Import Prelude PyText PyJson JsonText PyFloat CaptureFormat DevIolog Release ReleaseCorrect.
From S2P Require Import CompareStreams CompareCorrect RuntimeBundle.
Local Open Scope Z_scope.

(** ** The checksum list *)
Lemma hex_char c : has_char (code c) "0123456789abcdef" = true → is_ascii c = true ∧ is_space c = false.
Proof. destruct c as [[] [] [] [] [] [] [] []]; vm_compute; intros H; by split. Qed.

Lemma hex_plain s : hex_digest s = true → sforall is_ascii s = true ∧ nospace s = true.
Proof.
  unfold hex_digest, nospace. intros [_ H]%andb_true_iff. split; (eapply sforall_impl; [|exact H]); intros c Hc%hex_char.
  - apply Hc.
  - by destruct Hc as [_ ->].
Qed.

Lemma split_gap_digest d n : nospace d = true → split_gap (d +:+ "  " +:+ n) = Some (d, n).
Proof.
  induction d as [|c d IH]; intros Hd; [by destruct n|].
  unfold nospace in Hd. simpl in Hd. apply andb_true_iff in Hd as [Hc Hd]. specialize (IH Hd).
  assert (code c =? 32 = false) as Hne.
  { apply negb_true_iff in Hc. unfold is_space in Hc. lia. }
  rewrite sapp_cons. cbn [split_gap]. destruct (d +:+ "  " +:+ n) as [|x u] eqn:E; [by destruct d|].
  rewrite Hne. simpl andb. cbv iota. by rewrite IH.
Qed.

Section bundle_files.
Context (sha256 : string → string).
(** A digest is 64 lower-case hexadecimal characters. *)
Hypothesis sha256_hex : ∀ s, hex_digest (sha256 s) = true.

Definition sum_line (es : entries) (name : string) : string := sha256 (content_at es name) +:+ "  " +:+ name.

Lemma sum_line_parts es name : sforall is_ascii name = true → oneline name = true →
  sforall is_ascii (sum_line es name) = true ∧ oneline (sum_line es name) = true ∧
  split_gap (sum_line es name) = Some (sha256 (content_at es name), name).
Proof.
  intros Ha Ho. destruct (hex_plain _ (sha256_hex (content_at es name))) as [H1 H2]. unfold sum_line. split_and!.
  - by rewrite !sforall_app, H1, Ha.
  - unfold oneline in *. rewrite !sforall_app, Ho. by rewrite (nospace_oneline _ H2 : sforall _ _ = true).
  - by apply split_gap_digest.
Qed.

(** Reading back a checksum list of distinct names. *)
Lemma read_sums es names acc :
  Forall (λ n, sforall is_ascii n = true ∧ oneline n = true) names → NoDup (keys acc ++ names) →
  foldM checksum_line acc (map (sum_line es) names) = Ok (acc ++ map (λ n, (n, sha256 (content_at es n))) names).
Proof.
  revert acc. induction names as [|n names IH]; intros acc Hn Hnd; [by rewrite app_nil_r|].
  apply Forall_cons in Hn as [[Ha Ho] Hn]. simpl.
  destruct (sum_line_parts es n Ha Ho) as (_ & _ & Hs). unfold checksum_line at 2. rewrite Hs, sha256_hex.
  assert (n ∉ keys acc) as Hni by (apply NoDup_app in Hnd as (_ & Hd & _); intros H; apply (Hd n H); by left).
  assert (dget n acc = None) as Hg by (by apply dget_None_keys).
  unfold dhas. rewrite Hg. simpl.
  assert (dset n (sha256 (content_at es n)) acc = acc ++ [(n, sha256 (content_at es n))]) as ->.
  { clear -Hg. induction acc as [|[k v] acc IH]; [done|]. simpl in *. destruct (String.eqb n k); [done|]. by rewrite IH. }
  rewrite IH; [by rewrite <- app_assoc|done|]. unfold keys in *. rewrite map_app. simpl. by rewrite <- app_assoc.
Qed.

Lemma artifact_names : Forall (λ n, sforall is_ascii n = true ∧ oneline n = true) BUNDLE_ARTIFACTS ∧ NoDup BUNDLE_ARTIFACTS.
Proof. split; [repeat constructor|]. apply (bool_decide_unpack _). vm_compute. reflexivity. Qed.

Lemma read_sums_text es : ∃ text, decode_text (sums_text sha256 es) = Ok text ∧
  foldM checksum_line [] (splitlines text) = Ok (map (λ n, (n, sha256 (content_at es n))) BUNDLE_ARTIFACTS).
Proof.
  destruct artifact_names as [Hn Hnd]. exists (sums_text sha256 es). unfold sums_text, decode_text.
  change (map (λ name, sha256 (content_at es name) +:+ "  " +:+ name) BUNDLE_ARTIFACTS) with (map (sum_line es) BUNDLE_ARTIFACTS).
  rewrite utf8_decode_ascii.
  2:{ rewrite sforall_app, join_ascii; [done|done|]. apply Forall_map. eapply Forall_impl; [exact Hn|].
      intros n [? ?]. by apply sum_line_parts. }
  split; [done|]. rewrite splitlines_join; [|apply Forall_map; eapply Forall_impl; [exact Hn|]; intros n [? ?]; by apply sum_line_parts|done].
  by rewrite read_sums.
Qed.

(** A directory with the right files and the right checksum list verifies. *)
Lemma verify_files_sums es :
  same_names (keys es) ("SHA256SUMS" :: BUNDLE_ARTIFACTS) = true →
  forallb (λ name, match dget name es with Some (LFile _) => true | _ => false end) ("SHA256SUMS" :: BUNDLE_ARTIFACTS) = true →
  content_at es "SHA256SUMS" = sums_text sha256 es →
  verify_files sha256 (Some (NDir es)) = Ok es.
Proof.
  intros Hk Hr Hs. unfold verify_files. rewrite Hk, Hr, Hs. cbn [raise_unless mbind res_bind].
  destruct (read_sums_text es) as (text & -> & Hsum). cbn [mbind res_bind]. rewrite Hsum. cbn [mbind res_bind].
  assert (keys (map (λ n, (n, sha256 (content_at es n))) BUNDLE_ARTIFACTS) = BUNDLE_ARTIFACTS) as -> by done.
  change (same_names BUNDLE_ARTIFACTS BUNDLE_ARTIFACTS) with true. cbn [raise_unless mbind res_bind].
  assert (forallb (λ nd, String.eqb (sha256 (content_at es nd.1)) nd.2) (map (λ n, (n, sha256 (content_at es n))) BUNDLE_ARTIFACTS) = true) as ->;
    [|done]. generalize BUNDLE_ARTIFACTS. intros l. induction l as [|n l IH]; [done|]. simpl. by rewrite String.eqb_refl.
Qed.

(** What an accepted directory is. *)
Lemma verify_files_Ok root es : verify_files sha256 root = Ok es →
  root = Some (NDir es) ∧ same_names (keys es) ("SHA256SUMS" :: BUNDLE_ARTIFACTS) = true ∧
  forallb (λ name, match dget name es with Some (LFile _) => true | _ => false end) ("SHA256SUMS" :: BUNDLE_ARTIFACTS) = true ∧
  ∃ text sums, decode_text (content_at es "SHA256SUMS") = Ok text ∧ foldM checksum_line [] (splitlines text) = Ok sums ∧
    same_names (keys sums) BUNDLE_ARTIFACTS = true ∧ ∀ n d, (n, d) ∈ sums → sha256 (content_at es n) = d.
Proof.
  unfold verify_files. destruct root as [[|es'| |]|]; try done. intros H.
  apply bind_Ok in H as ([] & Hk & H). apply raise_unless_Ok in Hk.
  apply bind_Ok in H as ([] & Hr & H). apply raise_unless_Ok in Hr.
  apply bind_Ok in H as (text & Ht & H). apply bind_Ok in H as (sums & Hs & H).
  apply bind_Ok in H as ([] & Hn & H). apply raise_unless_Ok in Hn.
  apply bind_Ok in H as ([] & Hd & H). apply raise_unless_Ok in Hd. apply Ok_inj in H as ->.
  split_and!; [done..|]. exists text, sums. split_and!; [done..|]. intros n d Hin.
  rewrite forallb_forall in Hd. apply list_elem_of_In, Hd in Hin. by apply String.eqb_eq in Hin.
Qed.

Lemma content_dset es name c k : content_at (dset name (LFile c) es) k = if String.eqb k name then c else content_at es k.
Proof. unfold content_at. rewrite dget_dset. by destruct (String.eqb k name). Qed.

(** Replacing the content of a file of an accepted directory keeps its shape. *)
Lemma dset_shape es name c :
  name ∈ "SHA256SUMS" :: BUNDLE_ARTIFACTS → same_names (keys es) ("SHA256SUMS" :: BUNDLE_ARTIFACTS) = true →
  forallb (λ name, match dget name es with Some (LFile _) => true | _ => false end) ("SHA256SUMS" :: BUNDLE_ARTIFACTS) = true →
  same_names (keys (dset name (LFile c) es)) ("SHA256SUMS" :: BUNDLE_ARTIFACTS) = true ∧
  forallb (λ k, match dget k (dset name (LFile c) es) with Some (LFile _) => true | _ => false end) ("SHA256SUMS" :: BUNDLE_ARTIFACTS) = true.
Proof.
  intros Hn Hk Hr. rewrite forallb_forall in Hr. split.
  - rewrite keys_dset. unfold dhas. specialize (Hr name). rewrite <- list_elem_of_In in Hr. specialize (Hr Hn).
    by destruct (dget name es).
  - apply forallb_forall. intros k Hin. rewrite dget_dset. destruct (String.eqb k name); [done|by apply Hr].
Qed.

(** The directory after the certificate, and after the checksum list. *)
Definition with_certificate (es : entries) (text : string) : entries := dset "certificate.json" (LFile text) es.
Definition updated (es : entries) (text : string) : entries :=
  dset "SHA256SUMS" (LFile (sums_text sha256 (with_certificate es text))) (with_certificate es text).

Lemma updated_verifies es text : verify_files sha256 (Some (NDir es)) = Ok es →
  verify_files sha256 (Some (NDir (updated es text))) = Ok (updated es text).
Proof.
  intros (_ & Hk & Hr & _)%verify_files_Ok.
  destruct (dset_shape es "certificate.json" text) as [Hk1 Hr1]; [set_solver|done|done|].
  destruct (dset_shape (with_certificate es text) "SHA256SUMS" (sums_text sha256 (with_certificate es text))) as [Hk2 Hr2]; [set_solver|done|done|].
  apply verify_files_sums; [done|done|]. unfold updated at 1. rewrite content_dset.
  cbn [String.eqb Ascii.eqb Bool.eqb]. unfold sums_text. do 2 f_equal. apply map_ext_in. intros n Hn. do 2 f_equal.
  unfold updated. rewrite content_dset. destruct (String.eqb_spec n "SHA256SUMS") as [->|]; [|done].
  apply list_elem_of_In in Hn. exfalso. revert Hn. unfold BUNDLE_ARTIFACTS. set_solver.
Qed.

Lemma torn_refused es text : verify_files sha256 (Some (NDir es)) = Ok es →
  is_ok (verify_files sha256 (Some (NDir (with_certificate es text)))) = true →
  sha256 text = sha256 (content_at es "certificate.json").
Proof.
  intros (_ & _ & _ & tx & sums & Ht & Hs & Hn & Hd)%verify_files_Ok H.
  destruct (verify_files sha256 (Some (NDir (with_certificate es text)))) as [es'|] eqn:E; [|done].
  apply verify_files_Ok in E as ([= <-] & _ & _ & tx' & sums' & Ht' & Hs' & Hn' & Hd').
  unfold with_certificate in Ht', Hd'. rewrite content_dset in Ht'. simpl in Ht'.
  assert (tx' = tx) as -> by congruence. assert (sums' = sums) as -> by congruence.
  assert ("certificate.json" ∈ keys sums) as Hin.
  { unfold same_names in Hn. apply andb_true_iff in Hn as [_ Hn]. rewrite forallb_forall in Hn.
    assert (In "certificate.json" BUNDLE_ARTIFACTS) as Hi by (simpl; auto). by apply Hn, bool_decide_eq_true in Hi. }
  unfold keys in Hin. apply list_elem_of_In, in_map_iff in Hin as ([n d] & Heq & Hin%list_elem_of_In). simpl in Heq. subst n.
  specialize (Hd' _ _ Hin). specialize (Hd _ _ Hin). rewrite content_dset in Hd'. simpl in Hd'. congruence.
Qed.

(** A directory with a further file is refused. *)
Lemma extra_refused es tmp part : tmp ∉ "SHA256SUMS" :: BUNDLE_ARTIFACTS →
  is_ok (verify_files sha256 (Some (NDir (es ++ [(tmp, LFile part)])))) = false.
Proof.
  intros Hn. destruct (verify_files sha256 _) as [es'|] eqn:E; [|done]. exfalso.
  apply verify_files_Ok in E as ([= <-] & Hk & _). unfold same_names in Hk. apply andb_true_iff in Hk as [Hk _].
  rewrite forallb_forall in Hk. specialize (Hk tmp). apply Hn.
  apply (bool_decide_eq_true (tmp ∈ "SHA256SUMS" :: BUNDLE_ARTIFACTS)), Hk.
  unfold keys. rewrite map_app. apply in_or_app. right. by left.
Qed.

Lemma write_states_accepted es name content es' : write_states es name content es' →
  is_ok (verify_files sha256 (Some (NDir es'))) = true → es' = es ∨ es' = dset name (LFile content) es.
Proof.
  intros [->|[(tmp & part & Ht & ->)| ->]] H; [by left| |by right]. by rewrite extra_refused in H.
Qed.

Lemma atomic_write_states es name content f es' r : _atomic_write es name content f = (es', r) →
  (es' = es ∨ es' = dset name (LFile content) es) ∧ (r = Ok tt → es' = dset name (LFile content) es).
Proof. destruct f; simpl; intros [= <- <-]; split; auto; done. Qed.

Lemma check_bundle_files root sb source lba es cert : check_bundle sha256 root sb source lba = Ok (es, cert) →
  root = Some (NDir es) ∧ verify_files sha256 root = Ok es.
Proof.
  unfold check_bundle, _verify_bundle. intros H. apply bind_Ok in H as ([[es' c] w] & Hv & H).
  apply bind_Ok in Hv as (es0 & Hf & Hv). apply bind_Ok in Hv as (c0 & _ & Hv). apply bind_Ok in Hv as (w0 & _ & Hv).
  apply Ok_inj in Hv as [= -> -> ->]. res_inv. injection H as -> ->. split; [|done]. by apply verify_files_Ok in Hf as [? _].
Qed.

(** What the update can leave behind, given the directory it started from and
    the text of the new certificate. *)
Record atomic_update (es : entries) (text : string) (es' : entries) : Prop := {
  au_verifies : verify_files sha256 (Some (NDir (updated es text))) = Ok (updated es text);
  au_text : content_at (updated es text) "certificate.json" = text;
  au_others : ∀ name, name ≠ "certificate.json" → name ≠ "SHA256SUMS" → dget name (updated es text) = dget name es;
  au_left : es' = es ∨ es' = with_certificate es text ∨ es' = updated es text;
  au_accepted : ∀ seen, write_states es "certificate.json" text seen ∨
      write_states (with_certificate es text) "SHA256SUMS" (sums_text sha256 (with_certificate es text)) seen ∨ seen = es' →
    is_ok (verify_files sha256 (Some (NDir seen))) = true →
    seen = es ∨ seen = updated es text ∨ sha256 text = sha256 (content_at es "certificate.json")
}.

Lemma atomic_update_intro es text es' : verify_files sha256 (Some (NDir es)) = Ok es →
  es' = es ∨ es' = with_certificate es text ∨ es' = updated es text → atomic_update es text es'.
Proof.
  intros Hv Hl.
  assert (∀ seen, seen = es ∨ seen = with_certificate es text ∨ seen = updated es text →
    is_ok (verify_files sha256 (Some (NDir seen))) = true →
    seen = es ∨ seen = updated es text ∨ sha256 text = sha256 (content_at es "certificate.json")) as Hacc.
  { intros seen [->|[->| ->]] H; [by left| |by right; left]. right. right. by apply (torn_refused es). }
  constructor; [by apply updated_verifies| | |done|].
  - unfold updated, with_certificate. rewrite !content_dset. done.
  - intros name H1 H2. unfold updated, with_certificate. rewrite !dget_dset.
    by destruct (String.eqb_spec name "SHA256SUMS"), (String.eqb_spec name "certificate.json").
  - intros seen [Hs|[Hs| ->]] H; [..|by apply Hacc].
    + apply write_states_accepted in Hs; [|done]. apply Hacc; [|done]. unfold with_certificate. tauto.
    + apply write_states_accepted in Hs; [|done]. apply Hacc; [|done]. unfold updated. tauto.
Qed.

(** C16: an update of a bundle is atomic. It either refuses before anything is
    written, and the directory is as it was; or it leaves one of three
    directories: the old one, one with the new certificate, or the updated one,
    and the last one exactly when it returns. The updated directory has a
    checksum list that its files match, the new certificate, and every other
    file unchanged. Whatever directory can be seen while the update runs, or is
    left when a system call fails, is accepted by the verifier only when it is
    the old or the updated one, unless the new certificate has the digest of the
    old one. *)
Theorem update_runtime_bundle_atomic root sb rb source replay x lba f1 f2 root' r :
  update_runtime_bundle sha256 root sb rb source replay x lba f1 f2 = (root', r) →
  (root' = root ∧ is_ok r = false) ∨
  ∃ es cert runtime text es', root = Some (NDir es) ∧ root' = Some (NDir es') ∧
    check_bundle sha256 root sb source lba = Ok (es, cert) ∧ certificate_text cert runtime = Ok text ∧
    (is_ok r = true → r = Ok runtime ∧ es' = updated es text) ∧ atomic_update es text es'.
Proof.
  unfold update_runtime_bundle. intros H.
  destruct (check_bundle sha256 root sb source lba) as [[es cert]|e] eqn:Hc; [|by injection H as <- <-; left].
  destruct (check_bundle_files _ _ _ _ _ _ Hc) as [-> Hv]. cbn [mbind res_bind] in H.
  destruct (_latency_distribution source) as [ds|]; [|by injection H as <- <-; left]. cbn [mbind res_bind] in H.
  destruct (_latency_distribution replay) as [dr|]; [|by injection H as <- <-; left]. cbn [mbind res_bind] in H.
  set (runtime := runtime_of sha256 rb source replay x ds dr) in *. cbn [snd fst] in H.
  destruct (certificate_text cert runtime) as [text|] eqn:Ht; [|by injection H as <- <-; left]. cbn [mbind res_bind] in H.
  right. destruct (_atomic_write es "certificate.json" text f1) as [es1 r1] eqn:E1.
  apply atomic_write_states in E1 as [Hl1 Hok1]. destruct r1 as [[]|e1].
  - rewrite (Hok1 eq_refl) in H. change (dset "certificate.json" (LFile text) es) with (with_certificate es text) in H.
    destruct (_atomic_write (with_certificate es text) _ _ f2) as [es2 r2] eqn:E2. apply atomic_write_states in E2 as [Hl2 Hok2].
    exists es, cert, runtime, text, es2. destruct r2 as [[]|e2]; injection H as <- <-; (split_and!; [done|done|done|done| |]).
    + intros _. split; [done|]. by apply Hok2.
    + apply atomic_update_intro; [done|]. unfold updated. tauto.
    + done.
    + apply atomic_update_intro; [done|]. unfold updated. tauto.
  - injection H as <- <-. exists es, cert, runtime, text, es1. split_and!; [done..|].
    apply atomic_update_intro; [done|]. unfold with_certificate. tauto.
Qed.
End bundle_files.

(** ** The two readers of a capture agree *)

Definition raw_of (c : cmd) : raw_row :=
  {| rr_seq := c_seq c; rr_source_seq := c_source_seq c; rr_timestamp_ns := c_ts c;
     rr_op := c_op c; rr_slba := c_slba c; rr_length_bytes := c_bytes c |}.

(** The converter's row of a command record; it keeps the address of a flush. *)
Definition row_matches (raw : raw_row) (c : cmd) : Prop :=
  rr_seq raw = c_seq c ∧ rr_source_seq raw = c_source_seq c ∧ rr_timestamp_ns raw = c_ts c ∧ rr_op raw = c_op c ∧
  rr_length_bytes raw = c_bytes c ∧ (c_op c ≠ "datasync" → rr_slba raw = c_slba c) ∧ (c_op c = "datasync" → c_slba c = 0).

Definition supported (record : dict) : Prop := ∃ o, getd record "op_name" = JStr o ∧ o ∈ SUPPORTED.

(** The converter read a row from every supported command, and the declared size. *)
Definition all_rows (pre : list (Z * dict)) (st : load_state) : Prop :=
  (∀ i x, pre !! i = Some x → is_command x = true → supported x.2 → is_Some (row_of i x.2)) ∧
  ls_metadata_lba st = declared_lba pre.

Lemma all_rows_loop records st : foldiM load_step 0 load_init records = Ok st → all_rows records st.
Proof.
  apply (foldiM_inv load_step all_rows); [by split|].
  intros pre [line record] s1 s2 [Hr Hl] _ H. unfold load_step in H.
  assert (∀ s', (is_command (line, record) = true → supported record → is_Some (row_of (length pre) record)) →
    ls_metadata_lba s' = declared_lba (pre ++ [(line, record)]) → all_rows (pre ++ [(line, record)]) s') as Hsnoc.
  { intros s' Hx Hlba. split; [|done]. intros i x [Hi|[-> ->]]%lookup_snoc_cases; [by apply Hr|exact Hx]. }
  destruct (eq_str (getd record "event_type") "capture_meta" && negb (is_none (getd record "lba_bytes"))) eqn:Hm.
  - apply bind_Ok in H as (z & Hz & H). res_inv. apply Hsnoc.
    + unfold is_command. apply andb_true_iff in Hm as [Hm _]. apply eq_str_true in Hm. simpl. by rewrite Hm.
    + rewrite declared_lba_snoc. unfold lba_of. simpl. by rewrite Hm, Hz.
  - assert (declared_lba (pre ++ [(line, record)]) = declared_lba pre) as Hsame
      by (rewrite declared_lba_snoc; unfold lba_of; simpl; by rewrite Hm).
    destruct (eq_str (getd record "event_type") "nvme_cmd") eqn:Hc.
    2:{ apply Ok_inj in H as <-. apply Hsnoc; [|by rewrite Hsame]. unfold is_command. simpl. by rewrite Hc. }
    destruct (negb (hashable (getd record "op_name"))); [done|].
    assert (∀ u, (∀ o, getd record "op_name" = JStr o → o ∉ SUPPORTED) → all_rows (pre ++ [(line, record)])
      {| ls_rows := ls_rows s1; ls_metadata_lba := ls_metadata_lba s1; ls_unsupported := u; ls_seen_seq := ls_seen_seq s1 |}) as Hun.
    { intros u Hn. apply Hsnoc; [|by rewrite Hsame]. intros _ (o & Ho & Hin). by apply Hn in Ho. }
    destruct (getd record "op_name") as [| | | |o| |] eqn:Hop; try (apply Ok_inj in H as <-; by apply Hun).
    case_bool_decide as Ho; [|apply Ok_inj in H as <-; apply Hun; naive_solver].
    destruct (load_cmd_Ok _ _ _ _ _ Hc Hop Ho H) as (rr & Hrow & _ & _ & ->). apply Hsnoc; [|by rewrite Hsame].
    intros _ _. by exists rr.
Qed.

Lemma getd_default record k z d : getd record k = JInt z → default d (dget k record) = JInt z.
Proof. unfold getd. by destruct (dget k record). Qed.

Lemma row_of_matches i record c raw : eq_str (getd record "event_type") "nvme_cmd" = true →
  cmd_of_record i record c → row_of i record = Some raw → row_matches raw c.
Proof.
  intros Hev [Hsrc [Hseq _] [Hts _] (o & Ho & Hop) _ _] H. unfold row_of in H. rewrite Hev, Ho in H. simpl negb in H. cbv iota in H.
  destruct (bool_decide (o ∈ SUPPORTED)); [|done]. simpl in H. rewrite Hseq, Hts in H. simpl in H.
  destruct Hop as [(-> & Hd & Hs & Hb)|(Hrw & Hd & Hs & _ & Hb & _)].
  - simpl in H. destruct (py_int (default (JInt 0) (dget "slba" record))); [|done]. injection H as <-.
    unfold row_matches. simpl. rewrite Hd, Hb, Hs. done.
  - rewrite (getd_default _ _ _ _ Hs), Hb in H. assert ((o =? "flush")%string = false) as Hf by (destruct Hrw as [->| ->]; done).
    rewrite Hf in H. simpl in H. injection H as <-. unfold row_matches. simpl. rewrite Hd. split_and!; try done.
    intros ->. by destruct Hrw.
Qed.

Lemma commands_of_indexed records : commands_of records = omap (λ ir, row_of ir.1 ir.2.2) (indexed records).
Proof.
  induction records as [|r pre IH] using rev_ind; [done|].
  rewrite commands_of_snoc, indexed_snoc, omap_app, IH. simpl. by destruct (row_of (length pre) r.2).
Qed.

Lemma rows_match l cs :
  (∀ i x, (i, x) ∈ l → is_command x = true → supported x.2 → is_Some (row_of i x.2)) →
  Forall2 (λ ir c, cmd_of_record ir.1 ir.2.2 c) (List.filter (λ ir, is_command ir.2) l) cs →
  Forall2 row_matches (omap (λ ir, row_of ir.1 ir.2.2) l) cs.
Proof.
  revert cs. induction l as [|[i x] l IH]; intros cs Hs HF; simpl in *; [by inversion HF|].
  destruct (is_command x) eqn:Hc.
  - inversion HF as [|? c ? cs' Hcmd HF']; subst. simpl in Hcmd.
    destruct (Hs i x) as [raw Hraw]; [by left|done| |].
    { destruct Hcmd as [_ _ _ (o & Ho & Hop) _ _]. exists o. split; [done|]. unfold SUPPORTED. destruct Hop as [(-> & _)|([->| ->] & _)]; set_solver. }
    rewrite Hraw. constructor; [by eapply row_of_matches|]. apply IH; [|done]. intros j y Hj. apply Hs. by right.
  - assert (row_of i x.2 = None) as ->; [unfold row_of; unfold is_command in Hc; by rewrite Hc|].
    apply IH; [|done]. intros j y Hj. apply Hs. by right.
Qed.

Lemma elem_indexed records i x : (i, x) ∈ indexed records → records !! i = Some x.
Proof. unfold indexed. intros (j & y & [= -> ->] & H)%elem_of_lookup_imap_1. done. Qed.

(** The rows the converter exports are the commands the referee loads. *)
Lemma exported_rows records fresh raws rows lba st :
  0 < lba → all_rows records st → raws ≡ₚ commands_of records → Forall2 (row_of_raw lba) raws rows →
  Forall (λ r, op r = "datasync" → offset_bytes r = 0) rows →
  Forall2 (λ ir c, cmd_of_record ir.1 ir.2.2 c) (List.filter (λ ir, is_command ir.2) (indexed records)) fresh →
  raws ≡ₚ map raw_of fresh.
Proof.
  intros Hlba [Hall _] Hp HF Hz Hf. rewrite Hp.
  assert (Forall2 row_matches (commands_of records) fresh) as HM.
  { rewrite commands_of_indexed. apply rows_match; [|done]. intros i x Hi. apply Hall. by apply elem_indexed. }
  assert (Forall (λ raw, rr_op raw = "datasync" → rr_slba raw = 0) (commands_of records)) as Hfl.
  { rewrite <- Hp. clear -Hlba HF Hz. induction HF as [|raw r raws rows Hr HF IH]; [constructor|].
    apply Forall_cons in Hz as [Hz Hzs]. constructor; [|by apply IH].
    destruct Hr as (_ & _ & _ & Ho & Hoff & _). intros Hd. rewrite Ho in Hz. specialize (Hz Hd). nia. }
  clear -HM Hfl. induction HM as [|raw c raws cs Hm HM IH]; [done|]. apply Forall_cons in Hfl as [Hx Hfl]. simpl.
  rewrite IH by done. assert (raw = raw_of c) as ->; [|done]. destruct Hm as (H1 & H2 & H3 & H4 & H5 & H6 & H7).
  destruct raw as [a b d e f g]; simpl in *. unfold raw_of. subst. f_equal.
  destruct (decide (c_op c = "datasync")) as [Hd|Hd]; [rewrite Hx, H7; done|by apply H6].
Qed.

Lemma same_raws l l' : Forall2 same_cmd l l' → map raw_of l' = map raw_of l.
Proof.
  induction 1 as [|c c' l l' (H1 & H2 & H3 & H4 & H5 & H6 & _) _ IH]; [done|]. simpl. rewrite IH. f_equal.
  unfold raw_of. by rewrite H1, H2, H3, H4, H5, H6.
Qed.

Lemma sorted_raws l : StronglySorted cmd_le l → StronglySorted row_le (map raw_of l).
Proof.
  induction 1 as [|c l Hs IH Hc]; simpl; constructor; [done|]. apply Forall_map. eapply Forall_impl; [exact Hc|].
  intros c' Hc'. exact Hc'.
Qed.

(** Sorted the same way, they are the same list. *)
Lemma sorted_equal raws cs : StronglySorted row_le raws → StronglySorted cmd_le cs → NoDup (map c_seq cs) →
  raws ≡ₚ map raw_of cs → raws = map raw_of cs.
Proof.
  intros Hs Hc Hnd Hp. eapply (StronglySorted_unique_strong row_le); [|done|by apply sorted_raws|done].
  intros a b Ha Hb Hab Hba. rewrite Hp in Ha. apply list_elem_of_In, in_map_iff in Ha as (c & <- & Hc1), Hb as (c' & <- & Hc2).
  assert (c_seq c = c_seq c') as Hseq by (unfold row_le in *; simpl in *; lia).
  f_equal. apply list_elem_of_In, list_elem_of_lookup in Hc1 as [i Hi]. apply list_elem_of_In, list_elem_of_lookup in Hc2 as [j Hj].
  assert (i = j) as ->; [|congruence]. apply (NoDup_lookup _ _ _ (c_seq c) Hnd).
  - change (map c_seq cs) with (c_seq <$> cs). by rewrite list_lookup_fmap, Hi.
  - change (map c_seq cs) with (c_seq <$> cs). rewrite list_lookup_fmap, Hj. simpl. by rewrite Hseq.
Qed.

(** ** From the converter to the referee *)
Lemma load_capture_state req ad au al lines rows meta : load_capture req ad au al lines = Ok (rows, meta) →
  ∃ records st, load_records lines = Ok records ∧ foldiM load_step 0 load_init records = Ok st ∧
    match req with Some z => Some z | None => ls_metadata_lba st end = Some (cm_lba_bytes meta) ∧ pow2b (cm_lba_bytes meta) = true.
Proof.
  unfold load_capture. intros H.
  destruct (load_records lines) as [records|e]; [|destruct e as [[] ?]; cbn in H; discriminate H]. cbn [mbind res_bind] in H.
  destruct (validate_envelope al records) as [env|e]; [|destruct e as [[] ?]; cbn in H; discriminate H]. cbn [mbind res_bind] in H.
  apply bind_Ok in H as (st & Hst & H). exists records, st. split; [done|]. split; [done|].
  apply bind_Ok in H as ([] & _ & H). apply bind_Ok in H as ([] & _ & H).
  destruct (match req with Some z => Some z | None => ls_metadata_lba st end) as [lba|]; [|done].
  apply bind_Ok in H as ([] & Hp & H). apply raise_unless_Ok in Hp. apply bind_Ok in H as ([] & _ & H).
  apply bind_Ok in H as ([] & _ & H). apply bind_Ok in H as (rows' & _ & H). apply Ok_inj in H as [= _ <-]. done.
Qed.

Lemma report_lba_source req source replay lba : report_lba req [source; replay] = Ok lba → pow2b lba = true ∧
  (req = Some lba ∨ (req = None ∨ req = Some 0) ∧ cap_lba source = Some lba).
Proof.
  unfold report_lba. intros H.
  destruct (match req with Some z => if z =? 0 then cap_lba source else Some z | None => cap_lba source end) as [z|] eqn:E; [|done].
  apply bind_Ok in H as ([] & Hp & H). apply raise_unless_Ok in Hp. apply bind_Ok in H as ([] & _ & H). apply Ok_inj in H as ->.
  split; [done|]. destruct req as [z'|]; [|by right; split; [left|]]. destruct (Z.eqb_spec z' 0) as [->|]; [by right; split; [right|]|].
  left. by injection E as ->.
Qed.

Lemma load_json_dumps d : float_free (JObj d) = true → json_wf (JObj d) →
  ∃ e, sort_keys (JObj d) = JObj e ∧ _load_json (dumps Indent2 (JObj d) +:+ LF) = Ok e.
Proof.
  intros Hf Hw. eexists. split; [reflexivity|]. unfold _load_json, decode_text, dumps.
  rewrite utf8_decode_ascii.
  2:{ rewrite sforall_app, enc_ascii; [done|]. by rewrite sort_keys_float_free. }
  cbn [mbind res_bind]. rewrite loads_enc_LF; [done| |done|by rewrite sort_keys_float_free|by apply sort_keys_wf].
  intros e He. by apply unique_object_NoDup.
Qed.

(** The fields of a document read back. *)
Lemma load_json_field d e k : json_wf (JObj d) → sort_keys (JObj d) = JObj e → getd e k = sort_keys (getd d k).
Proof. intros Hw He. pose proof (getd_sort_keys d k Hw) as H. by rewrite He in H. Qed.

Lemma normalized_plain t0 rows n : Forall (λ v, float_free v = true ∧ json_wf v) (imap (λ i, normalized_row t0 (n + i)) rows).
Proof.
  apply Forall_lookup. intros i v (r & _ & ->)%list_lookup_imap_Some. split; [done|].
  apply json_wfb_sound. vm_compute. reflexivity.
Qed.

(** The normalized workload of the converter is the one of the referee. *)
Lemma normalized_agree cap lba rows r0 : Forall2 (row_of_raw lba) (map raw_of (cap_commands cap)) rows → head rows = Some r0 →
  imap (normalized_row (timestamp_ns r0)) rows = _normalized_commands cap lba.
Proof.
  intros HF Hh. unfold _normalized_commands. destruct (cap_commands cap) as [|c0 cs] eqn:E; [by inversion HF; subst|].
  inversion HF as [|? r ? rows' Hr HF']; subst. injection Hh as ->.
  assert (timestamp_ns r0 = c_ts c0) as Ht by apply Hr. rewrite Ht. clear E Ht.
  revert HF. generalize (c0 :: cs) (r0 :: rows'). clear. intros cs rows.
  generalize (c_ts c0) as t0. intros t0.
  assert (∀ n, Forall2 (row_of_raw lba) (map raw_of cs) rows → imap (λ i, normalized_row t0 (n + i)) rows =
    imap (λ i c, JObj [("seq", JInt (Z.of_nat (n + i))); ("at_ns", JInt (c_ts c - t0)); ("op", JStr (c_op c));
      ("offset_bytes", JInt (c_slba c * lba)); ("length_bytes", JInt (c_bytes c))]) cs) as H; [|exact (H 0%nat)].
  revert rows. induction cs as [|c cs IH]; intros rows n HF; inversion HF as [|? r ? rows' Hr HF']; subst; [done|].
  rewrite !imap_cons. f_equal.
  - destruct Hr as (_ & _ & H3 & H4 & H5 & H6). unfold normalized_row. simpl in *. by rewrite H3, H4, H5, H6.
  - etransitivity; [|etransitivity; [exact (IH rows' (S n) HF')|]].
    + apply imap_ext. intros i x _. unfold compose. f_equal. lia.
    + apply imap_ext. intros i x _. unfold compose. by replace (S n + i)%nat with (n + S i)%nat by lia.
Qed.

Section export.
Context (sha256 : string → string).
Hypothesis sha256_hex : ∀ s, hex_digest (sha256 s) = true.

Definition as_entries (files : list (string * string)) : entries := map (λ nc, (nc.1, LFile nc.2)) files.

(** The files of a bundle pass the inventory and the checksums. *)
Lemma exported_files iolog cert normalized files :
  write_bundle sha256 false iolog cert normalized = Ok files →
  verify_files sha256 (Some (NDir (as_entries files))) = Ok (as_entries files) ∧
  content_at (as_entries files) "certificate.json" = dumps Indent2 cert +:+ LF ∧
  content_at (as_entries files) "workload.json" =
    dumps Indent2 (JObj [("schema_version", JInt 1); ("commands", JList normalized)]) +:+ LF.
Proof.
  unfold write_bundle. cbn [raise_if mbind res_bind]. intros H. apply Ok_inj in H. subst files.
  set (artifacts := _ :: _ :: _) at 1.
  assert (stable_sort String.le (keys artifacts) = BUNDLE_ARTIFACTS) as Hk by (vm_compute; reflexivity).
  split; [|by split]. apply verify_files_sums; [done|vm_compute; reflexivity|vm_compute; reflexivity|].
  fold artifacts. rewrite Hk. reflexivity.
Qed.

(** What the certificate says, and that it can be read back. *)
Lemma certificate_fields rows iolog bytes meta cert normalized :
  translation_certificate sha256 rows iolog bytes meta = Ok (cert, normalized) →
  ∃ d r0, cert = JObj d ∧ float_free cert = true ∧ json_wf cert ∧ head rows = Some r0 ∧
    normalized = imap (normalized_row (timestamp_ns r0)) rows ∧
    getd d "schema_version" = JInt 1 ∧ getd d "source_trace_sha256" = JStr (sha256 bytes) ∧
    getd d "lba_bytes" = JInt (cm_lba_bytes meta).
Proof.
  unfold translation_certificate. destruct (head rows) as [r0|] eqn:Hh; [|done]. intros H.
  apply bind_Ok in H as (reparsed & _ & H). cbv zeta in H. apply bind_Ok in H as ([] & _ & H).
  apply Ok_inj in H as [= <- <-]. eexists _, r0. split; [reflexivity|]. split; [by destruct (_ || _)|].
  split; [apply json_wfb_sound; vm_compute; reflexivity|]. by split_and!.
Qed.

(** C13: export and referee fit together. When the converter has exported a bundle
    for a capture, and the referee loads the same capture with the same block
    size option, the bundle passes all its checks: inventory, checksums, the
    digest of the capture, the block size, and the normalized workload, which the
    two programs compute each in its own way. *)
Theorem exported_bundle_accepted req ad au alg device lines bytes iolog files al source replay lba :
  good_filename device →
  convert sha256 req ad au alg device (Some false) lines bytes = Ok (iolog, files) →
  load al lines = Ok source → report_lba req [source; replay] = Ok lba →
  ∃ cert, check_bundle sha256 (Some (NDir (as_entries files))) bytes source lba = Ok (as_entries files, cert).
Proof.
  intros Hdev Hconv Hload Hlba. unfold convert in Hconv.
  apply bind_Ok in Hconv as ([rows meta] & Hrows & Hconv). apply bind_Ok in Hconv as (io & Hio & Hconv).
  apply bind_Ok in Hconv as ([cert normalized] & Hcert & Hconv). apply bind_Ok in Hconv as (fs & Hw & Hconv).
  apply Ok_inj in Hconv as [= -> ->]. cbn [fst snd] in Hw.
  destruct (exported_files _ _ _ _ Hw) as (Hv & Hcc & Hcw).
  destruct (certificate_fields _ _ _ _ _ _ Hcert) as (d & r0 & -> & Hff & Hwf & Hh & -> & Hf1 & Hf2 & Hf3).
  (* the rows *)
  destruct (load_capture_state _ _ _ _ _ _ _ Hrows) as (records & st & Hrec & Hst & Hsz & Hp2).
  apply all_rows_loop in Hst. destruct (load_capture_rows _ _ _ _ _ _ _ Hrows) as (records' & env & Hrec' & _ & Hcr & _).
  assert (records' = records) as -> by congruence.
  destruct (certificate_issued_iff sha256 _ _ _ _ _ _ _ _ bytes Hrows Hdev) as (io' & Hio' & Hiff).
  assert (io' = iolog) as -> by congruence. rewrite Hcert in Hiff. pose proof (proj1 Hiff eq_refl) as Hflush.
  destruct (load_capture_of _ _ _ Hload) as [(rec2 & env2 & fresh & evs & store & Hrec2 & _ & Hfresh & _ & _ & _ & Hpu & Hperm & _ & Hdl) Hsorted Hseqs].
  assert (rec2 = records) as -> by congruence.
  assert (lba = cm_lba_bytes meta) as ->.
  { destruct (report_lba_source _ _ _ _ Hlba) as [_ [->|[[->| ->] Hs]]]; [by injection Hsz| |].
    - destruct Hst as [_ Hm]. rewrite Hm, <- Hdl, Hs in Hsz. by injection Hsz.
    - injection Hsz as Hsz. rewrite <- Hsz in Hp2. done. }
  assert (0 < cm_lba_bytes meta) as Hpos by (unfold pow2b in Hp2; apply andb_true_iff in Hp2 as [? _]; lia).
  destruct Hcr as [_ (raws & Hraws & Hss & HF2) _ _ _].
  assert (raws ≡ₚ map raw_of (cap_commands source)) as Hp.
  { rewrite Hperm, (same_raws _ _ (pu_same _ _ _ _ Hpu)). by eapply exported_rows. }
  rewrite (sorted_equal _ _ Hss Hsorted Hseqs Hp) in HF2.
  pose proof (normalized_agree source _ _ _ HF2 Hh) as Hnorm.
  (* the files *)
  set (wl := [("schema_version", JInt 1); ("commands", JList (imap (normalized_row (timestamp_ns r0)) rows))]) in *.
  pose proof (normalized_plain (timestamp_ns r0) rows 0) as Hpl. rewrite Forall_forall in Hpl.
  assert (float_free (JObj wl) = true) as Hwff.
  { cbn. rewrite andb_true_r. apply forallb_forall. intros v Hv'. apply list_elem_of_In in Hv'. by apply Hpl. }
  assert (json_wf (JObj wl)) as Hwwf.
  { apply json_wf_obj. split; [apply (bool_decide_unpack _); vm_compute; reflexivity|].
    constructor; [done|]. constructor; [|done]. apply json_wf_list, Forall_forall. intros v Hv'. by apply Hpl. }
  destruct (load_json_dumps d Hff Hwf) as (e & He & Hle). destruct (load_json_dumps wl Hwff Hwwf) as (w & Hwe & Hlw).
  exists e. unfold check_bundle, _verify_bundle. rewrite Hv. cbn [mbind res_bind]. rewrite Hcc, Hle. cbn [mbind res_bind].
  rewrite Hcw, Hlw. cbn [mbind res_bind]. rewrite !(load_json_field d e _ Hwf He), Hf1, Hf2, Hf3. cbn [sort_keys].
  rewrite py_eq_int_int, py_eq_int_int, Z.eqb_refl. cbn [eq_str]. rewrite String.eqb_refl, <- Hnorm. fold wl.
  assert (py_eq (JObj w) (JObj wl) = true) as ->; [|done].
  pose proof (sort_keys_eq _ Hwwf) as Heq. rewrite Hwe in Heq. exact Heq.
Qed.
End export.

(** A concrete run: export, load, accept, update. *)
Definition hex64 : string := "0123456789abcdef0123456789abcdef0123456789abcdef0123456789abcdef".
Definition toy_sha (s : string) : string := hex64.

Definition cmp_files : list (string * string) :=
  match convert toy_sha None false false false "/dev/nvme0n1" (Some false) cmp_lines "capture" with Ok (_, fs) => fs | Raise _ => [] end.

Definition cmp_iolog : string :=
  match convert toy_sha None false false false "/dev/nvme0n1" (Some false) cmp_lines "capture" with Ok (i, _) => i | Raise _ => EmptyString end.

Lemma cmp_converted : convert toy_sha None false false false "/dev/nvme0n1" (Some false) cmp_lines "capture" = Ok (cmp_iolog, cmp_files).
Proof. vm_compute. reflexivity. Qed.

Lemma exported_bundle_accepted_witness :
  ∃ cert, check_bundle toy_sha (Some (NDir (as_entries cmp_files))) "capture" cmp_capture 512 = Ok (as_entries cmp_files, cert).
Proof.
  apply (exported_bundle_accepted toy_sha (λ _, eq_refl) None false false false "/dev/nvme0n1" cmp_lines "capture"
    cmp_iolog cmp_files false cmp_capture cmp_capture 512).
  - by split.
  - exact cmp_converted.
  - exact (proj1 cmp_loaded).
  - vm_compute. reflexivity.
Defined.

Lemma update_runtime_bundle_atomic_witness : ∃ x root' r,
  update_runtime_bundle toy_sha (Some (NDir (as_entries cmp_files))) "capture" "replay" cmp_capture cmp_capture x 512 NoFault NoFault = (root', r) ∧
  is_ok r = true ∧ is_ok (verify_files toy_sha root') = true.
Proof.
  destruct (exact_comparison cmp_capture cmp_capture 512) as [x|] eqn:Hx; [|by vm_compute in Hx].
  destruct (update_runtime_bundle toy_sha (Some (NDir (as_entries cmp_files))) "capture" "replay" cmp_capture cmp_capture x 512 NoFault NoFault)
    as [root' r] eqn:H.
  exists x, root', r. split; [exact H|].
  assert (is_ok r = true) as Hr.
  { vm_compute in Hx. apply Ok_inj in Hx. subst x. vm_compute in H. injection H as _ <-. reflexivity. }
  split; [exact Hr|].
  destruct (update_runtime_bundle_atomic toy_sha (λ _, eq_refl) _ _ _ _ _ _ _ _ _ _ _ H)
    as [[_ Hf]|(es & cert & runtime & text & es' & _ & -> & _ & _ & Hok & Hat)]; [by rewrite Hr in Hf|].
  destruct (Hok Hr) as [_ ->]. by rewrite (au_verifies _ _ _ _ Hat).
Defined.
