(* ===== verification/CaptureEvents.v ===== *)
(** * Engine captures ([tools/kvio/capture_events.py])

    An engine adapter records its object operations through a [Recorder]: a
    bounded queue that is never waited for, drained by a background thread to
    JSON lines.  [normalize_capture] turns the lines into a [kvio.intent.v2]
    document and a timing sidecar, and says in the document's provenance
    whether the capture is complete.

    The recorder's methods are functions on its state, and the drain thread is a
    step that takes one record from the queue: a list of actions is a sequence
    of whole calls with the drain's steps between them.  The calls of several
    threads, which take turns at the steps inside a call, are in
    [CaptureThreads].  An object or operation
    identity that is not text is refused at its first use with the error that
    the validator of the document gives for it at the end. *)

From stdpp Require Import prelude strings list numbers gmap sorting.
From Stdlib Require Import ZArith Lia Ascii.
From S2P Require Import Prelude PyText PyJson JsonText Intent2.
Local Open Scope Z_scope.

Definition SCHEMA_EVENTS : string := "kvio.capture-events.v1".

(** ** The recorder *)
Module Recorder.

Record recorder := {
  enabled : bool; closed : bool;
  engine : dict; adapter : dict; run_id : string; producer : string;
  capacity : Z;                 (** [queue.Queue(maxsize)]: unbounded when not positive *)
  queue : list json; seq : Z;
  emitted : nat; dropped : nat; errors : nat;
  open_ops : list string;
  file : list string            (** the lines written *)
}.

(** Updates of one part of the state. *)
Definition with_seq (r : recorder) (s : Z) : recorder :=
  {| enabled := enabled r; closed := closed r; engine := engine r; adapter := adapter r; run_id := run_id r;
     producer := producer r; capacity := capacity r; queue := queue r; seq := s; emitted := emitted r;
     dropped := dropped r; errors := errors r; open_ops := open_ops r; file := file r |}.

Definition with_open (r : recorder) (o : list string) : recorder :=
  {| enabled := enabled r; closed := closed r; engine := engine r; adapter := adapter r; run_id := run_id r;
     producer := producer r; capacity := capacity r; queue := queue r; seq := seq r; emitted := emitted r;
     dropped := dropped r; errors := errors r; open_ops := o; file := file r |}.

Definition full (r : recorder) : bool := (0 <? capacity r) && (capacity r <=? Z.of_nat (length (queue r))).

(** [put_nowait] and the two counters. *)
Definition enqueue (r : recorder) (record : json) : recorder :=
  {| enabled := enabled r; closed := closed r; engine := engine r; adapter := adapter r; run_id := run_id r;
     producer := producer r; capacity := capacity r;
     queue := if full r then queue r else queue r ++ [record]; seq := seq r;
     emitted := if full r then emitted r else S (emitted r);
     dropped := if full r then S (dropped r) else dropped r;
     errors := errors r; open_ops := open_ops r; file := file r |}.

Definition _put (r : recorder) (record : dict) : recorder :=
  if negb (enabled r) || closed r then r else
  if dhas "producer_seq" record then enqueue r (JObj record)
  else let s := seq r + 1 in enqueue (with_seq r s) (JObj (dset "producer_seq" (JInt s) record)).

(** One turn of the drain thread; the write fails when [ok] is false. *)
Definition _drain (r : recorder) (ok : bool) : recorder :=
  match queue r with
  | [] => r
  | record :: rest =>
      {| enabled := enabled r; closed := closed r; engine := engine r; adapter := adapter r; run_id := run_id r;
         producer := producer r; capacity := capacity r; queue := rest; seq := seq r; emitted := emitted r;
         dropped := dropped r; errors := if ok then errors r else S (errors r); open_ops := open_ops r;
         file := if ok then file r ++ [dumps Spaced record +:+ LF] else file r |}
  end.

Definition init (enabled : bool) (engine adapter : dict) (run_id producer : string) (capacity ts : Z) : recorder :=
  let r := {| enabled := enabled; closed := false; engine := engine; adapter := adapter; run_id := run_id;
              producer := producer; capacity := capacity; queue := []; seq := 0; emitted := 0; dropped := 0;
              errors := 0; open_ops := []; file := [] |} in
  _put r [("ev", JStr "start"); ("schema", JStr SCHEMA_EVENTS); ("run_id", JStr run_id);
          ("clock", JObj [("domain", JStr "CLOCK_MONOTONIC"); ("unit", JStr "ns")]);
          ("engine", JObj engine); ("adapter", JObj adapter); ("producer", JStr producer); ("ts_ns", JInt ts)].

Definition live_entry (e : json * json * json * json * json) : json :=
  let '(o, v, p, b, t) := e in
  JObj [("object_id", o); ("version", v); ("representation", p); ("bytes", b); ("tier", t)].

Definition state_record (ts : Z) (live : list (json * json * json * json * json)) : dict :=
  [("ev", JStr "object_state"); ("ts_ns", JInt ts); ("live", JList (map live_entry live))].

Definition object_state (r : recorder) (ts : Z) (live : list (json * json * json * json * json)) : recorder :=
  _put r (state_record ts live).

(** The arguments of [begin] that describe the operation. *)
Record op_args := {
  a_op : json; a_stream : json; a_batch_id : json; a_deps : list json;
  a_object_id : json; a_version : json; a_representation : json; a_range : json; a_requested : json;
  a_items : option (list dict)
}.

(** The op id and the record of the operation with number [n]. *)
Definition begin_id (r : recorder) (given : string) (n : Z) : string :=
  if String.eqb given "" then producer r +:+ "-" +:+ str_of_Z n else given.

Definition begin_record (ts : Z) (a : op_args) (op_id : string) (n : Z) : dict :=
  [("ev", JStr "op_begin"); ("op_id", JStr op_id); ("ts_ns", JInt ts); ("op", a_op a);
   ("stream", a_stream a); ("batch_id", a_batch_id a); ("deps", JList (a_deps a));
   ("producer_seq", JInt n)] ++
  match a_items a with
  | Some items => [("items", JList (map JObj items))]
  | None => [("object_id", a_object_id a); ("version", a_version a); ("representation", a_representation a);
             ("range", a_range a); ("requested_bytes", a_requested a)]
  end.

(** [self._open.add(op_id)], [self._open.discard(op_id)] *)
Definition open_add (r : recorder) (op_id : string) : recorder :=
  with_open r (if bool_decide (op_id ∈ open_ops r) then open_ops r else open_ops r ++ [op_id]).
Definition open_discard (r : recorder) (op_id : string) : recorder :=
  with_open r (List.filter (λ o, negb (String.eqb o op_id)) (open_ops r)).

(** Returns the op id. *)
Definition begin (r : recorder) (ts : Z) (a : op_args) (given : string) : recorder * string :=
  let r1 := with_seq r (seq r + 1) in
  if negb (enabled r) then
    if String.eqb given "" then (r1, "disabled-" +:+ str_of_Z (seq r1)) else (r, given)
  else
    let op_id := begin_id r given (seq r1) in
    (_put (open_add r1 op_id) (begin_record ts a op_id (seq r1)), op_id).

Definition end_record (ts : Z) (op_id : string) (outcome completed_bytes : json) (items : option (list dict)) : dict :=
  [("ev", JStr "op_end"); ("op_id", JStr op_id); ("ts_ns", JInt ts)] ++
  match items with
  | Some items => [("items", JList (map JObj items))]
  | None => [("outcome", outcome); ("completed_bytes", completed_bytes)]
  end.

Definition end_ (r : recorder) (ts : Z) (op_id : string) (outcome completed_bytes : json) (items : option (list dict))
    : recorder :=
  if negb (enabled r) then r else
  _put (open_discard r op_id) (end_record ts op_id outcome completed_bytes items).

(** [rec.update(fields)] *)
Definition marker_record (ts : Z) (name : json) (fields : dict) : dict :=
  fold_left (λ d kv, dset kv.1 kv.2 d) fields [("ev", JStr "marker"); ("name", name); ("ts_ns", JInt ts)].

Definition marker (r : recorder) (ts : Z) (name : json) (fields : dict) : recorder := _put r (marker_record ts name fields).

Definition health (r : recorder) : dict :=
  [("emitted", JInt (Z.of_nat (emitted r))); ("dropped", JInt (Z.of_nat (dropped r)));
   ("errors", JInt (Z.of_nat (errors r)));
   ("open_operations", JList (map JStr (stable_sort String.le (open_ops r)))); ("queue_capacity", JInt (capacity r))].

(** Set the flag; the sentinel is put after everything else. *)
Definition set_closed (r : recorder) : recorder :=
  {| enabled := enabled r; closed := true; engine := engine r; adapter := adapter r; run_id := run_id r;
     producer := producer r; capacity := capacity r; queue := queue r; seq := seq r; emitted := emitted r;
     dropped := dropped r; errors := errors r; open_ops := open_ops r; file := file r |}.

(** The drain until the sentinel: one write per record left, with its outcome
    ([true] when the list of outcomes is shorter than the queue). *)
Fixpoint drain_all (fuel : nat) (r : recorder) (oks : list bool) : recorder :=
  match fuel with
  | O => r
  | S fuel => drain_all fuel (_drain r (hd true oks)) (tl oks)
  end.

(** The end marker, with the health as it was read. *)
Definition last_record (ts : Z) (h : dict) : dict := [("ev", JStr "end"); ("ts_ns", JInt ts); ("health", JObj h)].

(** [close], with the turns of the drain thread between the reading of the
    health and the put, and after it. *)
Definition close (r : recorder) (ts : Z) (pre oks : list bool) : recorder :=
  if negb (enabled r) || closed r then r else
  let r1 := set_closed (_put (fold_left _drain pre r) (last_record ts (health r))) in
  drain_all (length (queue r1)) r1 oks.

(** ** Whole calls, one after the other, with the turns of the drain thread *)
Inductive action :=
  | AState (ts : Z) (live : list (json * json * json * json * json))
  | ABegin (ts : Z) (a : op_args) (given : string)
  | AEnd (ts : Z) (op_id : string) (outcome completed_bytes : json) (items : option (list dict))
  | AMarker (ts : Z) (name : json) (fields : dict)
  | ADrain (ok : bool)
  | AClose (ts : Z) (pre oks : list bool).

Definition perform (r : recorder) (a : action) : recorder :=
  match a with
  | AState ts live => object_state r ts live
  | ABegin ts a given => (begin r ts a given).1
  | AEnd ts op_id o c items => end_ r ts op_id o c items
  | AMarker ts name fields => marker r ts name fields
  | ADrain ok => _drain r ok
  | AClose ts pre oks => close r ts pre oks
  end.
End Recorder.

(** ** Reading and normalizing *)

Definition caperr (m : string) : exn := Exn CaptureError m.

(** The events of the lines of a file, blank lines skipped. *)
Definition read_events (lines : list string) : res (list json) :=
  foldM (λ events line,
    let line := strip line in
    if String.eqb line "" then Ok events else
    match loads line with
    | Ok v => Ok (events ++ [v])
    | Raise (Exn JSONDecodeError _) => Raise (caperr "{path}:{n}: {error}")
    | Raise e => Raise e
    end) [] lines.

(** The representation's id, its codec and its size. *)
Definition _rep_id (representation size : json) : res (string * json * Z) :=
  match representation with
  | JObj d =>
      let codec := default (JStr "opaque") (dget "codec" d) in
      size ← py_int (default size (dget "encoded_bytes" d));
      Ok (py_str codec +:+ ":" +:+ str_of_Z size, codec, size)
  | _ =>
      z ← py_int size;
      Ok ("opaque:" +:+ py_str size, JStr "opaque", z)
  end.

(** What the first loop collects. *)
Record collected := {
  n_ended : option json; n_begins : list (hkey * json); n_ends : list (hkey * json);
  n_initial : list json; n_seqs : list json
}.

Definition collect_init : collected :=
  {| n_ended := None; n_begins := []; n_ends := []; n_initial := []; n_seqs := [] |}.

Definition collect_event (st : collected) (ev : json) : res collected :=
  kind ← get ev "ev";
  let seqs := n_seqs st ++ match ev with JObj d => option_list (dget "producer_seq" d) | _ => [] end in
  if eq_str kind "object_state" then
    live ← get_default ev "live" (JList []);
    items ← iterate live;
    Ok {| n_ended := n_ended st; n_begins := n_begins st; n_ends := n_ends st; n_initial := n_initial st ++ items; n_seqs := seqs |}
  else if eq_str kind "op_begin" then
    id ← item ev "op_id"; k ← hkey_of id;
    raise_if (bool_decide (is_Some (hget k (n_begins st)))) (caperr "op_id {ev['op_id']!r} begun twice") ;;
    Ok {| n_ended := n_ended st; n_begins := n_begins st ++ [(k, ev)]; n_ends := n_ends st; n_initial := n_initial st; n_seqs := seqs |}
  else if eq_str kind "op_end" then
    id ← item ev "op_id"; k ← hkey_of id;
    raise_if (bool_decide (is_Some (hget k (n_ends st)))) (caperr "op_id {ev['op_id']!r} ended twice") ;;
    Ok {| n_ended := n_ended st; n_begins := n_begins st; n_ends := n_ends st ++ [(k, ev)]; n_initial := n_initial st; n_seqs := seqs |}
  else if eq_str kind "end" then
    Ok {| n_ended := Some ev; n_begins := n_begins st; n_ends := n_ends st; n_initial := n_initial st; n_seqs := seqs |}
  else if eq_str kind "marker" then
    Ok {| n_ended := n_ended st; n_begins := n_begins st; n_ends := n_ends st; n_initial := n_initial st; n_seqs := seqs |}
  else Raise (caperr "unknown event kind {kind!r}").

(** [a + 1]; an infinity or NaN is its own successor. *)
Definition successor (a : json) : res json :=
  match a with
  | JFloat (FInf _) | JFloat FNaN => Ok a
  | _ => match num_of a with
         | Some _ => py_add a (JInt 1)
         | None => Raise (Exn TypeError "unsupported operand type(s) for +")
         end
  end.

(** [sum(1 for a, b in zip(s, s[1:]) if b != a + 1)] *)
Fixpoint gaps_of (s : list json) : res nat :=
  match s with
  | a :: ((b :: _) as rest) =>
      a1 ← successor a;
      n ← gaps_of rest;
      Ok (if py_eq b a1 then n else S n)
  | _ => Ok 0%nat
  end.

(** Ids of one dictionary that the other does not have, sorted. *)
Definition missing_ids (a b : list (hkey * json)) : res (list json) :=
  ids ← mapMR (λ kv, item kv.2 "op_id") (List.filter (λ kv, negb (bool_decide (is_Some (hget kv.1 b)))) a);
  py_sorted ids.

(** The verdict on the capture: its health, its notes, whether it is complete. *)
Record verdict := { v_health : dict; v_notes : list string; v_complete : bool }.

Definition judge (st : collected) : res verdict :=
  sorted_seqs ← py_sorted (n_seqs st);
  gaps ← gaps_of sorted_seqs;
  base ← match n_ended st with
         | Some ev => h ← get_default ev "health" (JObj []);
                      match h with JObj d => Ok d | _ => Raise (Exn TypeError "dict()") end
         | None => Ok []
         end;
  let health := dset "sequence_gaps" (JInt (Z.of_nat gaps))
                 (dset "ends" (JInt (Z.of_nat (length (n_ends st))))
                   (dset "begins" (JInt (Z.of_nat (length (n_begins st)))) base)) in
  unmatched_ends ← missing_ids (n_ends st) (n_begins st);
  open_ops ← missing_ids (n_begins st) (n_ends st);
  let notes :=
    (match n_ended st with None => ["no end marker: the recorder did not drain"] | Some _ => [] end)
    ++ (match unmatched_ends with [] => [] | l => [str_of_Z (Z.of_nat (length l)) +:+ " end events without a begin"] end)
    ++ (match open_ops with [] => [] | l => [str_of_Z (Z.of_nat (length l)) +:+ " operations never ended"] end)
    ++ (if py_true (getd health "dropped") then [py_str (getd health "dropped") +:+ " events dropped by the recorder"] else [])
    ++ (if (gaps =? 0)%nat then [] else [str_of_Z (Z.of_nat gaps) +:+ " producer sequence gaps"]) in
  Ok {| v_health := health; v_notes := notes;
        v_complete := match notes, unmatched_ends, open_ops with [], [], [] => true | _, _, _ => false end |}.

(** An identity used as a key of the document. *)
Definition id_text (v : json) : res string :=
  match v with
  | JStr s => Ok s
  | JList _ | JObj _ => unhashable
  | _ => Raise (i2err "{where} must be a non-empty string")
  end.

(** [if rep_id not in representations: add_representation(...)] *)
Definition need_representation (intent : dict) (rep_id : string) (codec : json) (size : Z) : res dict :=
  reps ← dict_at intent "representations";
  if dhas rep_id reps then Ok intent else add_representation intent rep_id codec (JInt size) JNull [].

Definition append_live (intent : dict) (entry : json) : res dict :=
  state ← dict_at intent "initial_state";
  live ← list_at state "live";
  Ok (dset "initial_state" (JObj (dset "live" (JList (live ++ [entry])) state)) intent).

(** The document under construction and the current version of each object. *)
Record opstate := {
  o_intent : dict; o_versions : list (string * Z); o_last : list (string * json); o_sidecar : list json
}.

(** One entry of the initial state. *)
Definition add_initial (st : opstate) (entry : json) : res opstate :=
  rep ← get entry "representation"; bytes ← get entry "bytes";
  r ← _rep_id rep bytes;
  let '(rep_id, codec, size) := r in
  intent ← need_representation (o_intent st) rep_id codec size;
  v ← get_default entry "version" (JInt 1);
  ver ← py_int v;
  oid ← (x ← item entry "object_id"; id_text x);
  intent ← add_object_version intent oid (JInt ver) rep_id;
  tier ← get_default entry "tier" (JStr "storage");
  intent ← append_live intent (JObj [("object_id", JStr oid); ("version", JInt ver); ("tier", tier)]);
  Ok {| o_intent := intent; o_versions := dset oid ver (o_versions st); o_last := o_last st; o_sidecar := o_sidecar st |}.

(** The order of the begin events: [(ts_ns, producer_seq)]. *)
Definition sort_key (ev : json) : res (json * json) :=
  ts ← item ev "ts_ns"; s ← item ev "producer_seq"; Ok (ts, s).

Definition comparable (a b : json) : bool :=
  match a, b with
  | JStr _, JStr _ => true
  | _, _ => match num_of a, num_of b with Some _, Some _ => true | _, _ => false end
  end.

(** [a < b] on comparable values, [a == b]. *)
Definition value_ltb (a b : json) : bool :=
  match a, b with
  | JStr x, JStr y => negb (bool_decide (String.le y x))
  | _, _ => py_ltb a b
  end.

Definition keys_comparable (x y : json * json) : bool :=
  comparable x.1 y.1 && (negb (py_eq x.1 y.1) || comparable x.2 y.2).

Definition key_ltb (x y : json * json) : bool :=
  if py_eq x.1 y.1 then value_ltb x.2 y.2 else value_ltb x.1 y.1.

Definition begin_le (x y : (json * json) * json) : Prop := key_ltb y.1 x.1 = false.
#[export] Instance begin_le_dec : RelDecision begin_le.
Proof. intros x y. unfold begin_le. apply _. Defined.

(** [sorted(begins.values(), key=...)]; keys that cannot be compared raise. *)
Definition sort_begins (begins : list json) : res (list json) :=
  keyed ← mapMR (λ ev, k ← sort_key ev; Ok (k, ev)) begins;
  match keyed with
  | [_] => Ok begins
  | _ =>
      raise_unless (forallb (λ x, forallb (λ y, keys_comparable x.1 y.1) keyed) keyed)
        (Exn TypeError "'<' not supported between instances") ;;
      Ok (map snd (stable_sort begin_le keyed))
  end.

(** The operations a begin event stands for, by its id. *)
Definition expand_event (expanded : list (hkey * list json)) (b : json) : res (list (hkey * list json)) :=
  id ← item b "op_id"; k ← hkey_of id;
  match b with
  | JObj d =>
      match dget "items" d with
      | Some v =>
          items ← iterate v;
          Ok (hset k (imap (λ i _, JStr (py_str id +:+ "/" +:+ str_of_Z (Z.of_nat i))) items) expanded)
      | None => Ok (hset k [id] expanded)
      end
  | _ => Raise (Exn TypeError "argument is not iterable")
  end.

Definition expand_deps (expanded : list (hkey * list json)) (deps : json) : res (list json) :=
  ds ← iterate deps;
  foldM (λ out d, k ← hkey_of d; Ok (out ++ default [d] (hget k expanded))) [] ds.

(** [(ie or {}).get(k)] *)
Definition end_get (ie : json) (k : string) : res json := if py_true ie then get ie k else Ok JNull.

(** The version and document of a store. *)
Definition store_version (st : opstate) (it : json) (oid : string) (size ie : json) : res (Z * dict) :=
  rep ← get it "representation";
  r ← _rep_id rep size;
  let '(rep_id, codec, sz) := r in
  intent ← need_representation (o_intent st) rep_id codec sz;
  outcome ← end_get ie "outcome";
  v ← get it "version";
  ver ← (if negb (is_none v) then py_int v
         else if eq_str outcome "already_present" then Ok (default 1 (dget oid (o_versions st)))
         else Ok (default 0 (dget oid (o_versions st)) + 1));
  objects ← dict_at intent "objects";
  entry ← get_default (default (JObj []) (dget oid objects)) "versions" (JObj []);
  known ← py_in (JStr (str_of_Z ver)) entry;
  intent ← (if (known : bool) then Ok intent else add_object_version intent oid (JInt ver) rep_id);
  Ok (ver, intent).

(** The version and document of a load or release. *)
Definition other_version (st : opstate) (it : json) (oid : string) (size : json) : res (Z * dict) :=
  v ← get it "version";
  ver ← (if negb (is_none v) then py_int v else Ok (default 1 (dget oid (o_versions st))));
  objects ← dict_at (o_intent st) "objects";
  if dhas oid objects then Ok (ver, o_intent st) else
  rep ← get it "representation";
  r ← _rep_id rep (if py_true size then size else JInt 1);
  let '(rep_id, codec, sz) := r in
  intent ← need_representation (o_intent st) rep_id codec sz;
  intent ← add_object_version intent oid (JInt ver) rep_id;
  Ok (ver, intent).

(** One operation: item [i] of [n] of the begin event [b], which ended as [ie]
    inside the end event [e]. *)
Definition add_item (expanded : list (hkey * list json)) (b : json) (e : option json) (n : nat)
    (st : opstate) (i : nat) (it ie : json) : res opstate :=
  oid ← (x ← item it "object_id"; id_text x);
  verb ← item b "op";
  size ← get it "requested_bytes";
  vi ← (if eq_str verb "store" then store_version st it oid size ie else other_version st it oid size);
  let '(ver, intent) := vi in
  outcome ← end_get ie "outcome";
  id ← item b "op_id";
  let single := match b with JObj d => (n =? 1)%nat && negb (dhas "items" d) | _ => false end in
  let op_id := if single then id else JStr (py_str id +:+ "/" +:+ str_of_Z (Z.of_nat i)) in
  let outcome := match e with None => if py_true outcome then outcome else JStr "error" | Some _ => outcome end in
  deps ← (d ← get_default b "deps" (JList []); expand_deps expanded d);
  let deps := match dget oid (o_last st) with
              | Some last => if existsb (λ d, py_eq d last) deps then deps else deps ++ [last]
              | None => deps
              end in
  op_text ← id_text op_id;
  verb_text ← (match verb with JStr s => Ok s | _ => Raise (i2err "{where} must be one of {allowed}, not {value!r}") end);
  stream ← get b "stream";
  batch ← get b "batch_id";
  let batch := if py_true batch then batch else match b with JObj d => if dhas "items" d then id else JNull | _ => JNull end in
  range ← get it "range";
  ts ← item b "ts_ns"; release ← py_int ts;
  intent ← add_operation intent op_text verb_text oid (JInt ver) stream deps range batch (JInt release) JNull outcome size;
  end_ns ← match e with Some ev => item ev "ts_ns" | None => Ok JNull end;
  completed ← end_get ie "completed_bytes";
  Ok {| o_intent := intent;
        o_versions := if eq_str verb "store" then dset oid ver (o_versions st) else o_versions st;
        o_last := dset oid op_id (o_last st);
        o_sidecar := o_sidecar st ++ [JObj [("op_id", op_id); ("begin_ns", ts); ("end_ns", end_ns);
                                            ("outcome", outcome); ("completed_bytes", completed)]] |}.

(** The items of a begin event and how each of them ended. *)
Definition event_items (b : json) (e : option json) : res (list json * list json) :=
  items ← get b "items";
  if is_none items then
    oid ← get b "object_id"; version ← get b "version"; rep ← get b "representation"; range ← get b "range";
    requested ← get b "requested_bytes";
    Ok ([JObj [("object_id", oid); ("version", version); ("representation", rep); ("range", range);
               ("requested_bytes", requested)]],
        [match e with Some ev => ev | None => JNull end])
  else
    its ← iterate items;
    v ← match e with Some ev => get ev "items" | None => Ok JNull end;
    ends ← (if py_true v then iterate v else Ok (map (λ _, JNull) its));
    raise_unless (length ends =? length its)%nat
      (caperr "batch {b['op_id']!r} ended with {len(item_ends)} items, began with {len(items)}") ;;
    Ok (its, ends).

Definition add_begin (expanded : list (hkey * list json)) (ends : list (hkey * json)) (st : opstate) (b : json) : res opstate :=
  id ← item b "op_id"; k ← hkey_of id;
  let e := hget k ends in
  ie ← event_items b e;
  foldiM (λ st i p, add_item expanded b e (length ie.1) st i p.1 p.2) 0 st (zip ie.1 ie.2).

Section normalize.
(** [hashlib.sha256(data).hexdigest()] *)
Context (sha256 : string → string).

Definition order_note : string := "same-object operations ordered by identity; stream order as the adapter declared it".

Definition sidecar_text (sidecar : list json) : string := String.concat EmptyString (map (λ s, dumps Spaced s +:+ LF) sidecar).

(** The document before its operations. *)
Definition start_intent (start : json) (v : verdict) : res dict :=
  eng ← get_default start "engine" (JObj []);
  engine ← (match eng with JObj d => Ok d | _ => no_attribute end);
  run_id ← get start "run_id";
  adapter ← get_default start "adapter" (JObj []);
  clock ← get_default start "clock" (JObj []);
  new_intent "A1" "declared" "captured" engine (if v_complete v then "complete" else "partial") (map JStr (v_notes v))
    [("schema", JStr SCHEMA_EVENTS); ("run_id", run_id); ("adapter", adapter); ("clock", clock)].

(** The document after its operations: the note on the order, the timing, the health. *)
Definition finish_intent (intent : dict) (sidecar_path : string) (sidecar : string) (health : dict) : res dict :=
  intent ← append_note intent order_note;
  let intent := dset "timing" (JObj [("sidecar", JStr (if String.eqb sidecar_path "" then "timing.jsonl" else sidecar_path));
                                     ("sidecar_sha256", JStr (sha256 sidecar))]) intent in
  Ok (dset "health" (JObj health) intent).

Definition normalize_capture (events : list json) (sidecar_path : string) : res (json * string) :=
  match events with
  | [] => Raise (caperr "capture must begin with a start event")
  | start :: rest =>
      kind ← get start "ev";
      raise_unless (eq_str kind "start") (caperr "capture must begin with a start event") ;;
      schema ← get start "schema";
      raise_unless (eq_str schema SCHEMA_EVENTS) (caperr "unsupported capture schema {start.get('schema')!r}") ;;
      st ← foldM collect_event collect_init rest;
      v ← judge st;
      intent ← start_intent start v;
      os ← foldM add_initial {| o_intent := intent; o_versions := []; o_last := []; o_sidecar := [] |} (n_initial st);
      ordered ← sort_begins (map snd (n_begins st));
      expanded ← foldM expand_event [] ordered;
      os ← foldM (add_begin expanded (n_ends st)) os ordered;
      let sidecar := sidecar_text (o_sidecar os) in
      intent ← finish_intent (o_intent os) sidecar_path sidecar (v_health v);
      validate_intent2 (JObj intent) ;;
      Ok (JObj intent, sidecar)
  end.
End normalize.
