(* ===== verification/CaptureCorrect.v ===== *)
(** * Correctness of engine captures

    The recorder never waits, loses nothing it did not count, and its queue
    stays within its capacity; a capture that dropped events is never
    normalized as complete; the document that a capture becomes carries every
    recorded operation, in order, chained per object. *)

From stdpp Require Import prelude strings list numbers gmap sorting.
From Stdlib Require Import ZArith Lia Ascii.
From S2P Require Import Prelude PyText PyJson JsonText Intent2 CaptureEvents.
Import Recorder.
Local Open Scope Z_scope.

(** ** The recorder *)

(** The queue is bounded, and every emitted record is waiting, written or counted. *)
Record accounted (cap : Z) (r : recorder) : Prop := {
  ac_capacity : capacity r = cap;
  ac_bounded : 0 < cap → Z.of_nat (length (queue r)) ≤ cap;
  ac_emitted : (emitted r = length (queue r) + length (file r) + errors r)%nat
}.

Section accounting.
Context (cap : Z).

Lemma accounted_enqueue r record : accounted cap r → accounted cap (enqueue r record).
Proof.
  intros [H0 H1 H2]. unfold enqueue, full. rewrite H0.
  constructor; simpl; [done|..]; destruct (Z.ltb_spec 0 cap); simpl; try lia.
  - destruct (Z.leb_spec cap (Z.of_nat (length (queue r)))); rewrite ?length_app; simpl; lia.
  - destruct (Z.leb_spec cap (Z.of_nat (length (queue r)))); rewrite ?length_app; simpl; lia.
  - rewrite length_app. simpl. lia.
Qed.

Lemma accounted_same r r' : capacity r' = capacity r → queue r' = queue r → emitted r' = emitted r → file r' = file r →
  errors r' = errors r → accounted cap r → accounted cap r'.
Proof. intros H1 H2 H3 H4 H5 [A B C]. constructor; rewrite ?H1, ?H2, ?H3, ?H4, ?H5; done. Qed.

Lemma accounted_put r d : accounted cap r → accounted cap (_put r d).
Proof.
  intros H. unfold _put. destruct (_ || _); [done|]. destruct (dhas _ _); apply accounted_enqueue; [done|].
  by apply (accounted_same r).
Qed.

Lemma accounted_drain r ok : accounted cap r → accounted cap (_drain r ok).
Proof.
  intros [H0 H1 H2]. unfold _drain. destruct (queue r) as [|x q] eqn:E; [constructor; by rewrite ?E in *|].
  constructor; simpl in *; [done|lia|]. destruct ok; rewrite ?length_app; simpl; lia.
Qed.

Lemma accounted_drain_all n r oks : accounted cap r → accounted cap (drain_all n r oks).
Proof. revert r oks. induction n as [|n IH]; intros r oks H; [done|]. by apply IH, accounted_drain. Qed.

Lemma accounted_drains oks r : accounted cap r → accounted cap (fold_left _drain oks r).
Proof. revert r. induction oks as [|ok oks IH]; intros r H; [done|]. by apply IH, accounted_drain. Qed.

#[local] Hint Resolve accounted_put accounted_drain accounted_drain_all accounted_drains : kvio.
#[local] Hint Extern 1 (accounted _ (with_seq ?r _)) => apply (accounted_same r) : kvio.
#[local] Hint Extern 1 (accounted _ (with_open ?r _)) => apply (accounted_same r) : kvio.
#[local] Hint Extern 1 (accounted _ (set_closed ?r)) => apply (accounted_same r) : kvio.

Lemma accounted_close r ts pre oks : accounted cap r → accounted cap (close r ts pre oks).
Proof. intros H. unfold close. destruct (negb (enabled r) || closed r); auto 7 with kvio. Qed.

#[local] Hint Resolve accounted_close : kvio.

Lemma accounted_perform r a : accounted cap r → accounted cap (perform r a).
Proof.
  intros H. destruct a; simpl; unfold object_state, marker, begin, end_, open_add, open_discard; auto with kvio.
  - destruct (negb (enabled r)); [destruct (String.eqb given "")|]; simpl; auto 6 with kvio.
  - destruct (negb (enabled r)); auto 6 with kvio.
Qed.

Lemma accounted_init en e ad run pr ts : accounted cap (init en e ad run pr cap ts).
Proof. apply accounted_put. constructor; simpl; lia. Qed.
End accounting.

Lemma drain_all_empty n r oks : length (queue r) = n → queue (drain_all n r oks) = [].
Proof.
  revert r oks. induction n as [|n IH]; intros r oks H; [by apply length_zero_iff_nil|]. apply IH.
  unfold _drain. destruct (queue r); [done|]. simpl in *. lia.
Qed.

(** What draining leaves alone. *)
Lemma drain_all_frame n r oks : closed (drain_all n r oks) = closed r ∧ dropped (drain_all n r oks) = dropped r.
Proof.
  revert r oks. induction n as [|n IH]; intros r oks; [done|]. simpl.
  destruct (IH (_drain r (hd true oks)) (tl oks)) as [-> ->]. unfold _drain. by destruct (queue r).
Qed.

(** A run of the recorder: any sequence of whole calls and drain steps. *)
Definition run_of (en : bool) (e ad : dict) (run pr : string) (cap ts : Z) (actions : list action) : recorder :=
  fold_left perform actions (init en e ad run pr cap ts).

Lemma fold_perform_inv (P : recorder → Prop) actions r : P r → (∀ r a, a ∈ actions → P r → P (perform r a)) →
  P (fold_left perform actions r).
Proof.
  revert r. induction actions as [|a l IH]; intros r H0 Hs; [done|]. simpl. apply IH.
  - apply Hs; [by left|done].
  - intros r' a' Ha. apply Hs. by right.
Qed.

(** In every sequence of calls and drain steps, the recorder's queue stays
    within its capacity and no record is lost without being counted: the emitted
    records are those in the queue, those in the file and the failed writes. After
    a close the queue is empty, so the file holds every emitted record whose
    write did not fail. *)
Theorem recorder_accounts en e ad run pr cap ts actions :
  let r := run_of en e ad run pr cap ts actions in
  (0 < cap → Z.of_nat (length (queue r)) ≤ cap) ∧
  (emitted r = length (queue r) + length (file r) + errors r)%nat ∧
  ∀ ts' pre oks, enabled r = true → closed r = false →
    let r' := close r ts' pre oks in
    closed r' = true ∧ queue r' = [] ∧ (emitted r' = length (file r') + errors r')%nat.
Proof.
  intros r. assert (accounted cap r) as Ha.
  { apply (fold_perform_inv (accounted cap)); [apply accounted_init|]. intros r1 a _. apply accounted_perform. }
  split; [by apply ac_bounded|]. split; [by eapply ac_emitted|]. intros ts' pre oks Hen Hcl r'.
  assert (accounted cap r') as Ha' by (by apply accounted_close). assert (closed r' = true ∧ queue r' = []) as [Hc Hq].
  { unfold r', close. rewrite Hen, Hcl. simpl. split; [by rewrite (proj1 (drain_all_frame _ _ _))|]. by apply drain_all_empty. }
  split; [done|]. split; [done|]. rewrite (ac_emitted _ _ Ha'), Hq. done.
Qed.

(** ** What reaches the file *)

(** A record of the recorder: a plain document, an end event only once the
    recorder is closed, and then with its final count of drops. *)
Definition good (r : recorder) (rec : json) : Prop :=
  plain rec ∧ is_dict rec = true ∧
  (fld rec "ev" = JStr "end" → closed r = true ∧ fld (fld rec "health") "dropped" = JInt (Z.of_nat (dropped r))).

Record tracked (r : recorder) : Prop := {
  tr_queue : Forall (good r) (queue r);
  tr_file : Forall (λ line, ∃ rec, line = dumps Spaced rec +:+ LF ∧ good r rec) (file r)
}.

(** Values that are written and read back the same. *)
Definition plain_fields (d : dict) : Prop := Forall (λ kv, plain kv.2) d.

Lemma plain_obj d : plain (JObj d) ↔ NoDup (keys d) ∧ plain_fields d.
Proof.
  unfold plain, plain_fields. rewrite json_wf_obj. cbn [float_free]. rewrite forallb_forall, !Forall_forall. split.
  - intros (Hf & Hn & Hw). split; [done|]. intros x Hx. split; [by apply Hf, list_elem_of_In|by apply Hw].
  - intros (Hn & Hp). split_and!; [|done|]; intros x Hx; [apply list_elem_of_In in Hx|]; by apply Hp.
Qed.

Lemma plain_list l : plain (JList l) ↔ Forall plain l.
Proof.
  unfold plain. rewrite json_wf_list. cbn [float_free]. rewrite forallb_forall, !Forall_forall. split.
  - intros (Hf & Hw) x Hx. split; [by apply Hf, list_elem_of_In|by apply Hw].
  - intros Hp. split; intros x Hx; [apply list_elem_of_In in Hx|]; by apply Hp.
Qed.

Lemma plain_atom v : match v with JFloat _ | JList _ | JObj _ => False | _ => True end → plain v.
Proof. by destruct v. Qed.

Lemma plain_dset k v d : plain (JObj d) → plain v → plain (JObj (dset k v d)).
Proof.
  rewrite !plain_obj. intros [Hn Hd] Hv. split.
  - by apply NoDup_dset.
  - clear Hn. unfold plain_fields in *. induction Hd as [|[k' v'] d Hx Hd IH]; simpl; [by constructor|].
    destruct (String.eqb k k'); by constructor.
Qed.

Lemma getd_dset k v d k' : getd (dset k v d) k' = if String.eqb k' k then v else getd d k'.
Proof. unfold getd. rewrite dget_dset. by destruct (String.eqb k' k). Qed.

(** A record that is not an end event keeps the others as they are. *)
Lemma good_open r r' rec : closed r = false → good r rec → good r' rec.
Proof. intros Hc (Hp & Hd & He). split_and!; [done|done|]. intros H. destruct (He H). congruence. Qed.

Lemma good_same r r' rec : closed r' = closed r → dropped r' = dropped r → good r rec → good r' rec.
Proof. intros H1 H2 (Hp & Hd & He). split_and!; [done|done|]. by rewrite H1, H2. Qed.

Lemma tracked_mono (r r' : recorder) : (∀ rec, good r rec → good r' rec) → queue r' = queue r → file r' = file r →
  tracked r → tracked r'.
Proof.
  intros Hg Hq Hf [H1 H2]. constructor; rewrite ?Hq, ?Hf; eapply Forall_impl; try done.
  intros line (rec & ? & ?). exists rec. auto.
Qed.

Lemma tracked_enqueue r rec : closed r = false → plain rec → is_dict rec = true → fld rec "ev" ≠ JStr "end" →
  tracked r → tracked (enqueue r rec).
Proof.
  intros Hc Hp Hd Hev [H1 H2]. constructor.
  - change (queue (enqueue r rec)) with (if full r then queue r else queue r ++ [rec]).
    assert (Forall (good (enqueue r rec)) (queue r)) as Hq.
    { eapply Forall_impl; [exact H1|]. intros x. by apply good_open. }
    destruct (full r); [exact Hq|]. apply Forall_app_2; [exact Hq|]. apply Forall_singleton. split_and!; done.
  - change (file (enqueue r rec)) with (file r).
    eapply Forall_impl; [exact H2|]. intros line (x & ? & ?). exists x. split; [done|]. by apply (good_open r).
Qed.

Lemma tracked_put r d : plain (JObj d) → fld (JObj d) "ev" ≠ JStr "end" → tracked r → tracked (_put r d).
Proof.
  intros Hp Hev H. unfold _put. destruct (enabled r), (closed r) eqn:Hc; try done. simpl.
  destruct (dhas "producer_seq" d).
  - by apply tracked_enqueue.
  - apply tracked_enqueue; [done|by apply plain_dset|done| |by apply (tracked_mono r)].
    simpl in *. rewrite getd_dset. exact Hev.
Qed.

Lemma tracked_drain r ok : tracked r → tracked (_drain r ok).
Proof.
  intros [H1 H2]. unfold _drain. destruct (queue r) as [|x q] eqn:E; [constructor; by rewrite ?E|].
  apply Forall_cons in H1 as [Hx Hq]. constructor; simpl.
  - eapply Forall_impl; [exact Hq|]. intros y. by apply good_same.
  - assert (∀ f : list string, Forall (λ line, ∃ rec, line = dumps Spaced rec +:+ LF ∧ good r rec) f →
      Forall (λ line, ∃ rec, line = dumps Spaced rec +:+ LF ∧ good (_drain r ok) rec) f) as Hf.
    { intros f Hl. eapply Forall_impl; [exact Hl|]. intros line (y & ? & ?). exists y. split; [done|].
      apply (good_same r); [| |done]; unfold _drain; by rewrite E. }
    unfold _drain in Hf. rewrite E in Hf. apply Hf. destruct ok; [|done]. apply Forall_app_2; [done|].
    apply Forall_singleton. eauto.
Qed.

Lemma tracked_drain_all n r oks : tracked r → tracked (drain_all n r oks).
Proof. revert r oks. induction n as [|n IH]; intros r oks H; [done|]. by apply IH, tracked_drain. Qed.

Lemma health_plain r : plain (JObj (health r)).
Proof.
  apply plain_obj. split; [apply (bool_decide_unpack _); vm_compute; reflexivity|].
  repeat (constructor; [by apply plain_atom|]). constructor; [|by repeat constructor].
  apply plain_list, Forall_map, Forall_forall. intros s _. by apply plain_atom.
Qed.

Lemma drains_frame oks r : tracked r → let r' := fold_left _drain oks r in
  tracked r' ∧ enabled r' = enabled r ∧ closed r' = closed r ∧ dropped r' = dropped r ∧ seq r' = seq r.
Proof.
  revert r. induction oks as [|ok oks IH]; intros r H; [done|]. cbn [fold_left]. cbv zeta in *.
  destruct (IH (_drain r ok)) as (? & -> & -> & -> & ->); [by apply tracked_drain|]. split; [done|]. unfold _drain. by destruct (queue r).
Qed.

(** Closing appends the end event, unless the queue is full. *)
Lemma tracked_close r ts pre oks : tracked r → tracked (close r ts pre oks).
Proof.
  intros H. unfold close. destruct (enabled r) eqn:Hen, (closed r) eqn:Hc; try done. cbn [negb orb]. apply tracked_drain_all.
  destruct (drains_frame pre r H) as (H0 & Hen0 & Hc0 & Hd0 & _). cbv zeta in *. set (r0 := fold_left _drain pre r) in *.
  rewrite Hen in Hen0. rewrite Hc in Hc0.
  unfold _put. rewrite Hen0, Hc0. cbn [negb orb]. change (dhas "producer_seq" (last_record ts (health r))) with false. cbv iota zeta.
  set (e' := dset "producer_seq" (JInt (seq r0 + 1)) (last_record ts (health r))).
  assert (plain (JObj e')) as Hpe.
  { apply plain_obj. split; [apply (bool_decide_unpack _); vm_compute; reflexivity|].
    constructor; [by apply plain_atom|]. constructor; [by apply plain_atom|]. constructor; [apply health_plain|]. by repeat constructor. }
  destruct H0 as [H1 H2]. set (R := set_closed (enqueue (with_seq r0 (seq r0 + 1)) (JObj e'))).
  assert (queue R = if full r0 then queue r0 else queue r0 ++ [JObj e']) as Hq by reflexivity.
  assert (dropped R = if full r0 then S (dropped r0) else dropped r0) as Hd by reflexivity.
  assert (∀ x, good r0 x → good R x) as Hold by (intros x; by apply good_open).
  assert (Forall (good R) (queue r0)) as Hqr by (eapply Forall_impl; [exact H1|exact Hold]).
  change (tracked R). constructor.
  - rewrite Hq. destruct (full r0); [done|]. apply Forall_app_2; [done|]. apply Forall_singleton.
    split_and!; [done|done|]. intros _. split; [done|]. rewrite Hd, Hd0. reflexivity.
  - change (file R) with (file r0). eapply Forall_impl; [exact H2|]. intros line (x & ? & ?). exists x. split; [done|]. by apply Hold.
Qed.

(** Calls whose arguments are plain documents; a marker does not pose as another event. *)
Definition plain_entry (e : json * json * json * json * json) : Prop :=
  let '(o, v, p, b, t) := e in plain o ∧ plain v ∧ plain p ∧ plain b ∧ plain t.

Definition plain_items (items : option (list dict)) : Prop :=
  match items with Some l => Forall (λ d, plain (JObj d)) l | None => True end.

Definition plain_args (a : op_args) : Prop :=
  plain (a_op a) ∧ plain (a_stream a) ∧ plain (a_batch_id a) ∧ Forall plain (a_deps a) ∧ plain (a_object_id a) ∧
  plain (a_version a) ∧ plain (a_representation a) ∧ plain (a_range a) ∧ plain (a_requested a) ∧ plain_items (a_items a).

Definition plain_action (a : action) : Prop :=
  match a with
  | AState _ live => Forall plain_entry live
  | ABegin _ a _ => plain_args a
  | AEnd _ _ o c items => plain o ∧ plain c ∧ plain_items items
  | AMarker _ name fields => plain name ∧ plain_fields fields ∧ "ev" ∉ keys fields
  | ADrain _ | AClose _ _ _ => True
  end.

(** A record with distinct literal keys is plain when its values are. *)
Lemma plain_record d : bool_decide (NoDup (keys d)) = true → plain_fields d → plain (JObj d).
Proof. intros H Hp. apply plain_obj. split; [by apply bool_decide_eq_true in H|done]. Qed.

Lemma plain_items_list l : Forall (λ d, plain (JObj d)) l → plain (JList (map JObj l)).
Proof. intros H. apply plain_list, Forall_map. exact H. Qed.

Ltac plain_tac :=
  apply plain_record; [vm_compute; reflexivity|]; unfold plain_fields;
  repeat (apply Forall_cons_2; [first [by apply plain_atom|done|by apply plain_list|by apply plain_items_list|cbn [snd]]|]);
  try apply Forall_nil_2.

Lemma marker_fields fields d : plain (JObj d) → plain_fields fields → "ev" ∉ keys fields →
  plain (JObj (fold_left (λ d kv, dset kv.1 kv.2 d) fields d)) ∧
  getd (fold_left (λ d kv, dset kv.1 kv.2 d) fields d) "ev" = getd d "ev".
Proof.
  revert d. induction fields as [|[k v] fields IH]; intros d Hd Hf Hn; [done|]. simpl.
  apply Forall_cons in Hf as [Hv Hf]. apply not_elem_of_cons in Hn as [Hk Hn]. simpl in Hk.
  destruct (IH (dset k v d)) as [H1 H2]; [by apply plain_dset|done|done|]. split; [done|].
  rewrite H2, getd_dset. destruct (String.eqb_spec "ev" k); [by subst|done].
Qed.

(** The records of the calls are plain, and none is an end event. *)
Definition event_record (d : dict) : Prop := plain (JObj d) ∧ fld (JObj d) "ev" ≠ JStr "end".

Lemma state_event ts live : Forall plain_entry live → event_record (state_record ts live).
Proof.
  intros H. split; [|done]. plain_tac. apply plain_list, Forall_map. eapply Forall_impl; [exact H|].
  intros [[[[o v] p] b] t] (? & ? & ? & ? & ?). simpl. by plain_tac.
Qed.

Lemma begin_event ts a op_id n : plain_args a → event_record (begin_record ts a op_id n).
Proof.
  intros (Ho & Hs & Hb & Hd & Hoi & Hv & Hr & Hra & Hrq & Hi). unfold begin_record.
  split; destruct (a_items a); try done; by plain_tac.
Qed.

Lemma end_event ts op_id o c items : plain o → plain c → plain_items items → event_record (end_record ts op_id o c items).
Proof. intros Ho Hc Hi. unfold end_record. split; destruct items; try done; by plain_tac. Qed.

Lemma marker_event ts name fields : plain name → plain_fields fields → "ev" ∉ keys fields → event_record (marker_record ts name fields).
Proof.
  intros Hn Hf Hk. unfold marker_record.
  destruct (marker_fields fields [("ev", JStr "marker"); ("name", name); ("ts_ns", JInt ts)]) as [H1 H2]; [by plain_tac|done|done|].
  split; [done|]. simpl. rewrite H2. done.
Qed.

Lemma tracked_event r r' d : event_record d → queue r' = queue r → file r' = file r → closed r' = closed r → dropped r' = dropped r →
  tracked r → tracked (_put r' d).
Proof.
  intros [Hp He] Hq Hf Hc Hd H. apply tracked_put; [done|done|]. apply (tracked_mono r); [|done..]. intros rec. by apply good_same.
Qed.

Lemma tracked_perform r a : plain_action a → tracked r → tracked (perform r a).
Proof.
  intros Ha H. destruct a as [ts live|ts a given|ts op_id o c items|ts name fields|ok|ts pre oks]; simpl in *.
  - apply (tracked_event r); try done; by apply state_event.
  - unfold begin. destruct (negb (enabled r)).
    + by destruct (String.eqb given ""); [apply (tracked_mono r)|].
    + apply (tracked_event r); try done; by apply begin_event.
  - destruct Ha as (Ho & Hc & Hi). unfold end_. destruct (negb (enabled r)); [done|].
    apply (tracked_event r); try done; by apply end_event.
  - destruct Ha as (Hn & Hf & Hk). apply (tracked_event r); try done; by apply marker_event.
  - by apply tracked_drain.
  - by apply tracked_close.
Qed.

Lemma tracked_init en e ad run pr cap ts : plain (JObj e) → plain (JObj ad) → tracked (init en e ad run pr cap ts).
Proof.
  intros He Hd. apply tracked_put; [|done|by constructor]. plain_tac.
  - by plain_tac.
Qed.

(** ** Reading the file back *)
Lemma rstrip_line s c : is_space c = false → rstrip (s +:+ String c LF) = s +:+ String c EmptyString.
Proof.
  intros Hc. induction s as [|d s IH].
  - change (EmptyString +:+ String c LF) with (String c LF). simpl. by rewrite Hc.
  - rewrite !sapp_cons. cbn [rstrip]. rewrite IH. destruct (String.eqb_spec (s +:+ String c EmptyString) "") as [E|]; [by destruct s|].
    by rewrite andb_false_r.
Qed.

Lemma dumps_braces d : ∃ m, dumps Spaced (JObj d) = "{" +:+ m +:+ "}".
Proof.
  unfold dumps. cbn [sort_keys]. set (e := stable_sort JsonText.key_le _). destruct e as [|kv e]; [by exists EmptyString|].
  cbn [enc]. set (body := py_join _ _). exists (nl Spaced 1 +:+ body +:+ nl Spaced 0). by rewrite <- !sapp_assoc.
Qed.

Lemma strip_dumps d : strip (dumps Spaced (JObj d) +:+ LF) = dumps Spaced (JObj d).
Proof.
  destruct (dumps_braces d) as [m ->]. unfold strip. rewrite !sapp_assoc.
  change ("{" +:+ m +:+ "}" +:+ LF) with (String "{" (m +:+ String "}" LF)). cbn [lstrip]. change (is_space "{") with false. cbv iota.
  rewrite <- sapp_cons, rstrip_line by done. done.
Qed.

Lemma read_written recs : Forall (λ rec, plain rec ∧ is_dict rec = true) recs →
  read_events (map (λ rec, dumps Spaced rec +:+ LF) recs) = Ok (map sort_keys recs).
Proof.
  unfold read_events. rewrite foldM_map.
  assert (∀ l acc, Forall (λ rec, plain rec ∧ is_dict rec = true) l →
    foldM (λ events rec, let line := strip (dumps Spaced rec +:+ LF) in
      if String.eqb line "" then Ok events else
      match loads line with
      | Ok v => Ok (events ++ [v])
      | Raise (Exn JSONDecodeError _) => Raise (caperr "{path}:{n}: {error}")
      | Raise e => Raise e
      end) acc l = Ok (acc ++ map sort_keys l)) as Hgen; [|by apply (Hgen recs [])].
  induction l as [|rec l IH]; intros acc Hl; [by rewrite app_nil_r|]. apply Forall_cons in Hl as [[[Hf Hw] Hd] Hl].
  destruct rec as [| | | | | |d]; try done. cbn [foldM]. cbv zeta. rewrite strip_dumps.
  destruct (String.eqb_spec (dumps Spaced (JObj d)) "") as [E|_]; [by destruct (dumps_braces d) as [m Hm]; rewrite Hm in E|].
  rewrite loads_dumps by done. cbn [mbind res_bind]. rewrite IH by done. by rewrite <- app_assoc.
Qed.

(** The events of a tracked recorder's file. *)
Lemma tracked_events r : tracked r → ∃ recs, read_events (file r) = Ok (map sort_keys recs) ∧ Forall (good r) recs.
Proof.
  intros [_ Hf].
  assert (∃ recs, file r = map (λ rec, dumps Spaced rec +:+ LF) recs ∧ Forall (good r) recs) as (recs & -> & Hg).
  { induction Hf as [|line f (rec & -> & Hr) _ (recs & -> & IH)]; [by exists []|]. exists (rec :: recs). split; [done|by constructor]. }
  exists recs. split; [|done]. apply read_written. eapply Forall_impl; [exact Hg|]. by intros rec (? & ? & _).
Qed.

(** ** The verdict *)
Lemma collect_ended events st : foldM collect_event collect_init events = Ok st →
  ∀ ev, n_ended st = Some ev → ev ∈ events ∧ fld ev "ev" = JStr "end".
Proof.
  apply (foldM_inv collect_event (λ pre st, ∀ ev, n_ended st = Some ev → ev ∈ pre ∧ fld ev "ev" = JStr "end")); [done|].
  intros pre x s1 s2 IH _ H. unfold collect_event in H. apply bind_Ok in H as (kind & Hk & H).
  assert (n_ended s2 = n_ended s1 ∨ (n_ended s2 = Some x ∧ eq_str kind "end" = true)) as Hn.
  { destruct (eq_str kind "object_state"); [res_inv; by left|]. destruct (eq_str kind "op_begin"); [res_inv; by left|].
    destruct (eq_str kind "op_end"); [res_inv; by left|]. destruct (eq_str kind "end") eqn:E; [res_inv; by right|].
    destruct (eq_str kind "marker"); [res_inv; by left|done]. }
  intros ev Hev. destruct Hn as [Hn|[Hn Hkind]]; rewrite Hn in Hev.
  - destruct (IH ev Hev). set_solver.
  - injection Hev as <-. split; [set_solver|]. destruct x; try done. simpl in Hk. apply Ok_inj in Hk. apply eq_str_true in Hkind.
    simpl. congruence.
Qed.

(** Each number is followed by its successor. *)
Definition consecutive (l : list json) : Prop :=
  ∀ i a b, l !! i = Some a → l !! S i = Some b → ∃ a1, successor a = Ok a1 ∧ py_eq b a1 = true.

Lemma gaps_consecutive l n : gaps_of l = Ok n → (n = 0%nat ↔ consecutive l).
Proof.
  revert n. induction l as [|a l IH]; intros n; cbn [gaps_of]; [intros [= <-]; by split|].
  destruct l as [|b l]; [intros [= <-]; split; [|done]; intros _ [|i]; done|].
  intros (a1 & Ha & (m & Hm & H)%bind_Ok)%bind_Ok. apply Ok_inj in H as <-. specialize (IH m Hm). split.
  - intros Hz. destruct (py_eq b a1) eqn:E; [|done]. intros [|i] x y Hx Hy.
    + injection Hx as <-. injection Hy as <-. by exists a1.
    + by apply (proj1 IH Hz i).
  - intros Hc. destruct (Hc 0%nat a b eq_refl eq_refl) as (a1' & Ha' & E). assert (a1' = a1) as -> by congruence. rewrite E.
    apply IH. intros i x y Hx Hy. by apply (Hc (S i)).
Qed.

(** What a complete verdict means. *)
Record complete_capture (st : collected) : Prop := {
  cc_end : ∃ ev h, n_ended st = Some ev ∧ get_default ev "health" (JObj []) = Ok (JObj h) ∧ py_true (getd h "dropped") = false;
  cc_ends : Forall (λ kv, is_Some (hget kv.1 (n_begins st))) (n_ends st);
  cc_begins : Forall (λ kv, is_Some (hget kv.1 (n_ends st))) (n_begins st);
  cc_gaps : ∃ l, py_sorted (n_seqs st) = Ok l ∧ consecutive l
}.

Lemma py_sorted_length l k : py_sorted l = Ok k → length k = length l.
Proof.
  unfold py_sorted. intros H. destruct (forallb is_str l).
  { apply Ok_inj in H as <-. apply Permutation_length, stable_sort_Permutation. }
  destruct (forallb _ l); [apply Ok_inj in H as <-; apply Permutation_length, stable_sort_Permutation|].
  destruct l as [|x [|]]; try done. by apply Ok_inj in H as <-.
Qed.

Lemma missing_none a b l : missing_ids a b = Ok l → (l = [] ↔ Forall (λ kv, is_Some (hget kv.1 b)) a).
Proof.
  unfold missing_ids. intros H. apply bind_Ok in H as (ids & Hm & Hs). apply py_sorted_length in Hs.
  apply mapMR_Ok, Forall2_length in Hm. rewrite <- Hs in Hm. rewrite <- length_zero_iff_nil, <- Hm, length_zero_iff_nil.
  clear. induction a as [|[k v] a IH]; simpl; [by split; [constructor|]|]. rewrite Forall_cons, <- IH. simpl.
  case_bool_decide as E; simpl; naive_solver.
Qed.

Lemma judge_complete st v : judge st = Ok v → (v_complete v = true ↔ complete_capture st).
Proof.
  unfold judge. intros H. apply bind_Ok in H as (l & Hl & H). apply bind_Ok in H as (gaps & Hg & H).
  apply bind_Ok in H as (base & Hb & H). apply bind_Ok in H as (um & Hum & H). apply bind_Ok in H as (op & Hop & H).
  apply missing_none in Hum. apply missing_none in Hop. apply Ok_inj in H. subst v. simpl. rewrite !getd_dset. simpl.
  split.
  - intros H.
    destruct (n_ended st) as [ev|] eqn:Een; [|done]. destruct um; [|done]. destruct op; [|done]. simpl in H.
    destruct (py_true (getd base "dropped")) eqn:Ed; [done|]. simpl in H. destruct (Nat.eqb_spec gaps 0) as [->|]; [|done].
    apply bind_Ok in Hb as (h & Hh & Hb). destruct h as [| | | | | |d]; try done. apply Ok_inj in Hb as ->.
    constructor; [by exists ev, base|by apply Hum|by apply Hop|]. exists l. split; [done|]. by apply (gaps_consecutive l 0).
  - intros [(ev & h & Hev & Hh & Hd) H1 H2 (l' & Hl' & Hg')].
    assert (um = []) as -> by (by apply Hum). assert (op = []) as -> by (by apply Hop).
    rewrite Hev in *. rewrite Hh in Hb. cbn [mbind res_bind] in Hb. apply Ok_inj in Hb as ->. rewrite Hd.
    assert (l' = l) as -> by congruence. assert (gaps = 0%nat) as -> by (by apply (gaps_consecutive l)). done.
Qed.

(** ** The document under construction *)
Lemma dict_at_Ok d k x : dict_at d k = Ok x → getd d k = JObj x.
Proof.
  unfold dict_at. intros H. apply bind_Ok in H as (v & Hv & H). apply item_fld in Hv. simpl in Hv.
  destruct v; try done. by apply Ok_inj in H as ->.
Qed.

Lemma list_at_getd d k x : list_at d k = Ok x → getd d k = JList x.
Proof.
  unfold list_at. intros H. apply bind_Ok in H as (v & Hv & H). apply item_fld in Hv. simpl in Hv.
  destruct v; try done. by apply Ok_inj in H as ->.
Qed.

Lemma need_representation_frame intent r c s intent' k : k ≠ "representations" →
  need_representation intent r c s = Ok intent' → getd intent' k = getd intent k.
Proof.
  intros Hk H. unfold need_representation in H. apply bind_Ok in H as (reps & _ & H). destruct (dhas r reps); [by apply Ok_inj in H as ->|].
  unfold add_representation in H. apply bind_Ok in H as (reps' & _ & H). apply Ok_inj in H as <-. rewrite getd_dset.
  by destruct (String.eqb_spec k "representations").
Qed.

Lemma add_object_version_frame intent o v r intent' k : k ≠ "objects" →
  add_object_version intent o v r = Ok intent' → getd intent' k = getd intent k.
Proof.
  intros Hk H. unfold add_object_version in H. res_inv. rewrite getd_dset. by destruct (String.eqb_spec k "objects").
Qed.

Lemma append_live_frame intent x intent' k : k ≠ "initial_state" → append_live intent x = Ok intent' → getd intent' k = getd intent k.
Proof. intros Hk H. unfold append_live in H. res_inv. rewrite getd_dset. by destruct (String.eqb_spec k "initial_state"). Qed.

Lemma add_operation_Ok intent op_id op oid ver stream deps range batch rel delay out req intent' :
  add_operation intent op_id op oid ver stream deps range batch rel delay out req = Ok intent' →
  ∃ ops rq, getd intent "operations" = JList ops ∧
    getd intent' "operations" = JList (ops ++ [JObj [
      ("op_id", JStr op_id); ("seq", JInt (Z.of_nat (length ops))); ("op", JStr op);
      ("object_id", JStr oid); ("version", ver); ("range", range);
      ("stream", stream); ("batch_id", batch); ("deps", JList deps);
      ("release_ns", rel); ("declared_delay_ns", delay);
      ("requested_bytes", rq); ("source_outcome", out)]]) ∧
    ∀ k, k ≠ "operations" → getd intent' k = getd intent k.
Proof.
  unfold add_operation. intros H. apply bind_Ok in H as (rq & _ & H). apply bind_Ok in H as (ops & Hops & H).
  apply list_at_getd in Hops. apply Ok_inj in H as <-. exists ops, rq. split; [done|]. split.
  - by rewrite getd_dset.
  - intros k Hk. rewrite getd_dset. by destruct (String.eqb_spec k "operations").
Qed.

(** The id of the last operation on an object. *)
Definition last_on (ops : list json) (oid : string) : option json :=
  last (omap (λ op, if eq_str (fld op "object_id") oid then Some (fld op "op_id") else None) ops).

Lemma last_on_snoc ops op oid :
  last_on (ops ++ [op]) oid = if eq_str (fld op "object_id") oid then Some (fld op "op_id") else last_on ops oid.
Proof.
  unfold last_on. rewrite omap_app. simpl. destruct (eq_str _ _); [apply last_snoc|by rewrite app_nil_r].
Qed.

(** An operation depends on the one before it on the same object. *)
Definition chained (ops : list json) : Prop :=
  ∀ j op oid prev, ops !! j = Some op → fld op "object_id" = JStr oid → last_on (take j ops) oid = Some prev →
    ∃ deps, fld op "deps" = JList deps ∧ prev ∈ deps.

(** The operation of an item of a begin event. *)
Definition op_of_item (bi : json * json) (op : json) : Prop :=
  fld op "op" = fld bi.1 "op" ∧ fld op "object_id" = fld bi.2 "object_id" ∧ fld op "stream" = fld bi.1 "stream" ∧
  fld op "range" = fld bi.2 "range" ∧ ∃ z, py_int (fld bi.1 "ts_ns") = Ok z ∧ fld op "release_ns" = JInt z.

(** The sidecar row of an operation. *)
Definition row_of_op (op row : json) : Prop :=
  fld row "op_id" = fld op "op_id" ∧ fld row "outcome" = fld op "source_outcome" ∧
  ∃ z, py_int (fld row "begin_ns") = Ok z ∧ fld op "release_ns" = JInt z.

Record op_state_ok (prov : json) (done : list (json * json)) (ops : list json) (st : opstate) : Prop := {
  ok_ops : getd (o_intent st) "operations" = JList ops;
  ok_prov : getd (o_intent st) "provenance" = prov;
  ok_rows : Forall2 row_of_op ops (o_sidecar st);
  ok_from : Forall2 op_of_item done ops;
  ok_last : ∀ oid, dget oid (o_last st) = last_on ops oid;
  ok_ids : ∀ op, op ∈ ops → ∃ s, fld op "op_id" = JStr s;
  ok_chain : chained ops
}.

Lemma chained_snoc ops op oid deps : chained ops → fld op "object_id" = JStr oid → fld op "deps" = JList deps →
  (∀ prev, last_on ops oid = Some prev → prev ∈ deps) → chained (ops ++ [op]).
Proof.
  intros Hc Ho Hd Hp j o oid' prev [Hj|[-> ->]]%lookup_snoc_cases Hoid Hl.
  - apply (Hc j o oid' prev Hj Hoid). by rewrite take_app_le in Hl by (apply lookup_lt_Some in Hj; lia).
  - exists deps. split; [done|]. rewrite take_app_le, take_ge in Hl by lia. assert (oid' = oid) as -> by congruence. by apply Hp.
Qed.

Lemma id_text_Ok v s : id_text v = Ok s → v = JStr s.
Proof. destruct v; try done. simpl. intros H. by apply Ok_inj in H as ->. Qed.

Lemma store_version_frame st it oid size ie ver intent k : k ≠ "representations" → k ≠ "objects" →
  store_version st it oid size ie = Ok (ver, intent) → getd intent k = getd (o_intent st) k.
Proof.
  intros H1 H2 H. unfold store_version in H. apply bind_Ok in H as (rep & _ & H). apply bind_Ok in H as ([[rid c] sz] & _ & H).
  apply bind_Ok in H as (i1 & Hn & H). apply bind_Ok in H as (out & _ & H). apply bind_Ok in H as (v & _ & H).
  apply bind_Ok in H as (ver' & _ & H). apply bind_Ok in H as (objs & _ & H). apply bind_Ok in H as (entry & _ & H).
  apply bind_Ok in H as (known & _ & H). apply bind_Ok in H as (i2 & Hi2 & H). apply Ok_inj in H as [= -> ->].
  rewrite <- (need_representation_frame _ _ _ _ _ _ H1 Hn). destruct known; [by apply Ok_inj in Hi2 as ->|].
  by eapply add_object_version_frame.
Qed.

Lemma other_version_frame st it oid size ver intent k : k ≠ "representations" → k ≠ "objects" →
  other_version st it oid size = Ok (ver, intent) → getd intent k = getd (o_intent st) k.
Proof.
  intros H1 H2 H. unfold other_version in H. apply bind_Ok in H as (v & _ & H). apply bind_Ok in H as (ver' & _ & H).
  apply bind_Ok in H as (objs & _ & H). destruct (dhas oid objs); [by apply Ok_inj in H as [= -> ->]|].
  apply bind_Ok in H as (rep & _ & H). apply bind_Ok in H as ([[rid c] sz] & _ & H). apply bind_Ok in H as (i1 & Hn & H).
  apply bind_Ok in H as (i2 & Hi2 & H). apply Ok_inj in H as [= -> ->].
  rewrite <- (need_representation_frame _ _ _ _ _ _ H1 Hn). by eapply add_object_version_frame.
Qed.

Lemma py_eq_elem l s : existsb (λ d, py_eq d (JStr s)) l = true → JStr s ∈ l.
Proof.
  rewrite existsb_exists. intros (d & Hd & He). rewrite py_eq_str in He. apply eq_str_true in He as ->. by apply list_elem_of_In.
Qed.

Lemma last_on_elem ops oid x : last_on ops oid = Some x → ∃ op, op ∈ ops ∧ fld op "op_id" = x.
Proof.
  unfold last_on. intros H. apply last_Some_elem_of, list_elem_of_omap in H as (op & Hop & H).
  exists op. split; [done|]. destruct (eq_str _ _); [by injection H|done].
Qed.

Lemma add_item_ok prov done ops expanded b e n st i it ie st' :
  op_state_ok prov done ops st → add_item expanded b e n st i it ie = Ok st' →
  ∃ op, op_state_ok prov (done ++ [(b, it)]) (ops ++ [op]) st'.
Proof.
  intros [Hops Hprov Hrows Hfrom Hlast Hids Hch] H. unfold add_item in H.
  apply bind_Ok in H as (oid & Hoid & H). apply bind_Ok in Hoid as (ov & Hov & Hoid). apply item_fld in Hov. apply id_text_Ok in Hoid as ->.
  apply bind_Ok in H as (verb & Hverb & H). apply item_fld in Hverb.
  apply bind_Ok in H as (size & _ & H). apply bind_Ok in H as ([ver intent] & Hvi & H).
  assert (∀ k, k ≠ "representations" → k ≠ "objects" → getd intent k = getd (o_intent st) k) as Hfr.
  { intros k H1 H2. destruct (eq_str verb "store"); [by eapply store_version_frame|by eapply other_version_frame]. }
  apply bind_Ok in H as (out & _ & H). apply bind_Ok in H as (id & _ & H). cbv zeta in H.
  set (op_id := if (match b with JObj d => (n =? 1)%nat && negb (dhas "items" d) | _ => false end) then id else _) in H.
  set (outcome := match e with None => _ | Some _ => out end) in H.
  apply bind_Ok in H as (deps & _ & H). set (deps' := match dget oid (o_last st) with Some _ => _ | None => deps end) in H.
  apply bind_Ok in H as (op_text & Hid & H). apply id_text_Ok in Hid.
  apply bind_Ok in H as (vt & Hvt & H). apply bind_Ok in H as (stream & Hst & H).
  assert (verb = JStr vt) as -> by (destruct verb; try done; by apply Ok_inj in Hvt as ->).
  apply bind_Ok in H as (batch & _ & H). apply bind_Ok in H as (rng & Hrng & H).
  apply bind_Ok in H as (ts & Hts & H). apply item_fld in Hts. apply bind_Ok in H as (rel & Hrel & H).
  apply bind_Ok in H as (intent' & Hadd & H). apply bind_Ok in H as (ens & _ & H). apply bind_Ok in H as (compl & _ & H).
  apply Ok_inj in H as <-. apply add_operation_Ok in Hadd as (ops0 & rq & Ho0 & Ho1 & Hframe).
  rewrite Hfr, Hops in Ho0 by done. injection Ho0 as <-.
  set (op := JObj _) in Ho1. exists op. clearbody outcome.
  assert (fld op "op_id" = op_id) as Hopid by (by rewrite Hid).
  constructor; cbn [o_intent o_sidecar o_last o_versions].
  - exact Ho1.
  - by rewrite Hframe, Hfr.
  - apply Forall2_app; [done|]. constructor; [|constructor]. split_and!; [by rewrite Hopid|done|]. exists rel. split; [done|done].
  - apply Forall2_app; [done|]. constructor; [|constructor]. unfold op_of_item. cbn [fst snd].
    assert (fld b "stream" = stream) as -> by (destruct b; try done; simpl in Hst; by apply Ok_inj in Hst).
    assert (fld it "range" = rng) as -> by (destruct it; try done; simpl in Hrng; by apply Ok_inj in Hrng).
    rewrite Hverb, Hov, Hts. split_and!; try done. by exists rel.
  - intros oid'. rewrite dget_dset, last_on_snoc, Hopid. change (fld op "object_id") with (JStr oid). cbn [eq_str].
    rewrite String.eqb_sym. destruct (String.eqb oid oid'); [done|apply Hlast].
  - intros o [Ho|Ho%list_elem_of_singleton]%elem_of_app; [by apply Hids|]. subst o. by exists op_text.
  - apply (chained_snoc _ _ oid deps'); [done|done|done|]. intros prev Hp. rewrite <- Hlast in Hp. unfold deps'. rewrite Hp.
    rewrite Hlast in Hp. destruct (last_on_elem _ _ _ Hp) as (o & Ho & Hoe). destruct (Hids o Ho) as [s Hs].
    assert (prev = JStr s) as -> by congruence. destruct (existsb _ deps) eqn:Eb; [by apply py_eq_elem|]. set_solver.
Qed.

Lemma add_items_ok prov b e n expanded l : ∀ i st st' done ops, op_state_ok prov done ops st →
  foldiM (λ st i p, add_item expanded b e n st i p.1 p.2) i st l = Ok st' →
  ∃ new, op_state_ok prov (done ++ map (λ p, (b, p.1)) l) (ops ++ new) st'.
Proof.
  induction l as [|[it ie] l IH]; intros i st st' done ops Hs H; cbn [foldiM] in H.
  - apply Ok_inj in H as <-. exists []. simpl. by rewrite !app_nil_r.
  - apply bind_Ok in H as (s1 & H1 & H). destruct (add_item_ok _ _ _ _ _ _ _ _ _ _ _ _ Hs H1) as [op Hs1].
    destruct (IH _ _ _ _ _ Hs1 H) as [new Hn]. exists (op :: new). simpl. by rewrite <- !app_assoc in Hn.
Qed.

Lemma event_items_length b e its ends : event_items b e = Ok (its, ends) → length its = length ends.
Proof.
  unfold event_items. intros H. apply bind_Ok in H as (items & _ & H). destruct (is_none items).
  - res_inv. by injection H as <- <-.
  - apply bind_Ok in H as (its' & _ & H). apply bind_Ok in H as (v & _ & H). apply bind_Ok in H as (ends' & _ & H).
    apply bind_Ok in H as ([] & Hl & H). apply raise_unless_Ok, Nat.eqb_eq in Hl. by apply Ok_inj in H as [= <- <-].
Qed.

(** The items of a begin event, with the event. *)
Definition items_of (ends : list (hkey * json)) (b : json) : res (list (json * json)) :=
  id ← item b "op_id"; k ← hkey_of id; ie ← event_items b (hget k ends); Ok (map (pair b) ie.1).

Lemma add_begin_ok prov done ops expanded ends st b st' : op_state_ok prov done ops st → add_begin expanded ends st b = Ok st' →
  ∃ its new, items_of ends b = Ok its ∧ op_state_ok prov (done ++ its) (ops ++ new) st'.
Proof.
  intros Hs H. unfold add_begin in H. apply bind_Ok in H as (id & Hid & H). apply bind_Ok in H as (k & Hk & H).
  apply bind_Ok in H as ([its ens] & Hie & H). cbn [fst snd] in H. pose proof (event_items_length _ _ _ _ Hie) as Hl.
  destruct (add_items_ok _ _ _ _ _ _ _ _ _ _ _ Hs H) as [new Hn]. exists (map (pair b) its), new.
  unfold items_of. rewrite Hid. cbn [mbind res_bind]. rewrite Hk. cbn [mbind res_bind]. rewrite Hie. cbn [mbind res_bind fst].
  split; [done|]. assert (map (λ p : json * json, (b, p.1)) (zip its ens) = map (pair b) its) as Hz.
  { rewrite <- (map_map fst (pair b)). f_equal. change (map fst (zip its ens)) with ((zip its ens).*1). apply fst_zip. lia. }
  by rewrite <- Hz.
Qed.

Lemma add_begins_ok prov expanded ends ordered : ∀ st st' done ops, op_state_ok prov done ops st →
  foldM (add_begin expanded ends) st ordered = Ok st' →
  ∃ its new, mapMR (items_of ends) ordered = Ok its ∧ op_state_ok prov (done ++ concat its) (ops ++ new) st'.
Proof.
  induction ordered as [|b ordered IH]; intros st st' done ops Hs H; cbn [foldM] in H.
  - apply Ok_inj in H as <-. exists [], []. simpl. by rewrite !app_nil_r.
  - apply bind_Ok in H as (s1 & H1 & H). destruct (add_begin_ok _ _ _ _ _ _ _ _ Hs H1) as (its & new & Hits & Hs1).
    destruct (IH _ _ _ _ Hs1 H) as (rest & new' & Hrest & Hs2). exists (its :: rest), (new ++ new').
    cbn [mapMR]. rewrite Hits. cbn [mbind res_bind]. rewrite Hrest. cbn [mbind res_bind concat].
    split; [done|]. by rewrite <- !app_assoc in Hs2.
Qed.

Lemma add_initials_ok prov items : ∀ st st', op_state_ok prov [] [] st → foldM add_initial st items = Ok st' →
  op_state_ok prov [] [] st'.
Proof.
  induction items as [|x items IH]; intros st st' Hs H; cbn [foldM] in H; [by apply Ok_inj in H as <-|].
  apply bind_Ok in H as (s1 & H1 & H). apply (IH s1); [|done]. unfold add_initial in H1.
  apply bind_Ok in H1 as (rep & _ & H1). apply bind_Ok in H1 as (bytes & _ & H1). apply bind_Ok in H1 as ([[rid c] sz] & _ & H1).
  apply bind_Ok in H1 as (i1 & Hn & H1). apply bind_Ok in H1 as (v & _ & H1). apply bind_Ok in H1 as (ver & _ & H1).
  apply bind_Ok in H1 as (oid & _ & H1). apply bind_Ok in H1 as (i2 & Ho & H1). apply bind_Ok in H1 as (tier & _ & H1).
  apply bind_Ok in H1 as (i3 & Hl & H1). apply Ok_inj in H1 as <-.
  assert (∀ k, k ≠ "representations" → k ≠ "objects" → k ≠ "initial_state" → getd i3 k = getd (o_intent st) k) as Hk.
  { intros k K1 K2 K3. rewrite (append_live_frame _ _ _ _ K3 Hl), (add_object_version_frame _ _ _ _ _ _ K2 Ho).
    by rewrite (need_representation_frame _ _ _ _ _ _ K1 Hn). }
  destruct Hs as [A1 A2 A3 A4 A5 A6 A7]. constructor; simpl; rewrite ?Hk by done; done.
Qed.

(** ** Normalized captures *)

(** The completeness that a document states. *)
Definition status_of (doc : json) : json := fld (fld (fld doc "provenance") "completeness") "status".

(** The time of a begin event, and its number. *)
Definition time_of (b : json) : option (Z * Z) :=
  match fld b "ts_ns", fld b "producer_seq" with JInt t, JInt n => Some (t, n) | _, _ => None end.

Definition key_before (x y : Z * Z) : Prop := x.1 < y.1 ∨ x.1 = y.1 ∧ x.2 ≤ y.2.

(** [a] began before [b], or at the same time with a smaller number. *)
Definition began_before (a b : json) : Prop :=
  match time_of a, time_of b with Some x, Some y => key_before x y | _, _ => False end.

(** What a capture becomes. *)
Record normalized (sha256 : string → string) (events : list json) (doc : json) (sidecar : string) : Prop := {
  nm_events : ∃ start rest st v, events = start :: rest ∧ foldM collect_event collect_init rest = Ok st ∧
    judge st = Ok v ∧ status_of doc = JStr (if v_complete v then "complete" else "partial") ∧
    (status_of doc = JStr "complete" ↔ complete_capture st) ∧
    ∃ d ordered its ops rows, doc = JObj d ∧ ordered ≡ₚ map snd (n_begins st) ∧
      (Forall (λ b, is_Some (time_of b)) ordered → StronglySorted began_before ordered) ∧
      mapMR (items_of (n_ends st)) ordered = Ok its ∧ getd d "operations" = JList ops ∧
      Forall2 op_of_item (concat its) ops ∧ chained ops ∧
      sidecar = sidecar_text rows ∧ Forall2 row_of_op ops rows;
  nm_bound : fld (fld doc "timing") "sidecar_sha256" = JStr (sha256 sidecar);
  nm_valid : validate_intent2 doc = Ok tt
}.

Lemma sort_begins_perm l k : sort_begins l = Ok k → k ≡ₚ l.
Proof.
  unfold sort_begins. intros H. apply bind_Ok in H as (keyed & Hk & H).
  assert (map snd keyed = l) as Hm.
  { apply mapMR_Ok in Hk. clear H. induction Hk as [|x y l' k' Hx _ IH]; [done|]. simpl. rewrite IH. f_equal.
    apply bind_Ok in Hx as (z & _ & Hx). by apply Ok_inj in Hx as <-. }
  assert (∀ r, (raise_unless r (Exn TypeError "'<' not supported between instances") ;; Ok (map snd (stable_sort begin_le keyed))) = Ok k → k ≡ₚ l) as Hs.
  { intros r Hr. apply bind_Ok in Hr as ([] & _ & Hr). apply Ok_inj in Hr as <-. rewrite <- Hm. apply Permutation_map, stable_sort_Permutation. }
  destruct keyed as [|x [|y keyed]]; [by eapply Hs|by apply Ok_inj in H as <-|by eapply Hs].
Qed.

#[local] Instance key_before_dec : RelDecision key_before.
Proof. intros x y. unfold key_before. apply _. Defined.
#[local] Instance key_before_total : Total key_before.
Proof. intros [a b] [c d]. unfold key_before. cbn. lia. Qed.
#[local] Instance key_before_trans : Transitive key_before.
Proof. intros [a b] [c d] [e f]. unfold key_before. cbn. lia. Qed.

(** The begin events are put in order of time. *)
Lemma sort_begins_ordered l k :
  sort_begins l = Ok k → Forall (λ b, is_Some (time_of b)) k → StronglySorted began_before k.
Proof.
  intros H Ht. pose proof (sort_begins_perm l k H) as Hp. rewrite Hp in Ht.
  unfold sort_begins in H. apply bind_Ok in H as (keyed & Hk & H). apply mapMR_Ok in Hk.
  set (f := λ x : (json * json) * json, default (0, 0) (time_of x.2)).
  set (Q := λ x : (json * json) * json, ∃ t n, time_of x.2 = Some (t, n) ∧ x.1 = (JInt t, JInt n)).
  assert (Forall Q keyed) as HQ.
  { clear H Hp. induction Hk as [|b x l' k' Hx _ IH]; [constructor|]. apply Forall_cons in Ht as [[[t n] Hb] Ht].
    constructor; [|by apply IH]. apply bind_Ok in Hx as (key & Hkey & Hx). apply Ok_inj in Hx as <-. exists t, n. split; [done|]. cbn.
    unfold sort_key in Hkey. apply bind_Ok in Hkey as (v & Hv & Hkey). apply bind_Ok in Hkey as (w & Hw & Hkey). apply Ok_inj in Hkey as <-.
    apply item_fld in Hv, Hw. unfold time_of in Hb. destruct (fld b "ts_ns"); try done. destruct (fld b "producer_seq"); try done. congruence. }
  assert (∀ m, Forall Q m → StronglySorted key_before (map f m) → StronglySorted began_before (map snd m)) as Hdown.
  { intros m Hm. induction Hm as [|x m (t & n & Hx & _) Hm IH]; intros Hs; [constructor|]. cbn in Hs.
    apply StronglySorted_inv in Hs as [Hs Hall]. constructor; [by apply IH|]. apply Forall_forall.
    intros b (y & -> & Hy)%list_elem_of_fmap. destruct (proj1 (Forall_forall _ _) Hm y Hy) as (t' & n' & Hy' & _).
    pose proof (proj1 (Forall_forall _ _) Hall (f y) (list_elem_of_fmap_2 f _ _ Hy)) as Hxy. unfold began_before, f in *. by rewrite Hx, Hy' in *. }
  destruct keyed as [|x [|y keyed]].
  - apply bind_Ok in H as (_ & _ & H). apply Ok_inj in H as <-. constructor.
  - apply Ok_inj in H as <-. inversion Hk as [|? ? ? ? ? Hnil]; subst. inversion Hnil; subst. by repeat constructor.
  - apply bind_Ok in H as (_ & _ & H). apply Ok_inj in H as <-. apply Hdown; [by rewrite stable_sort_Permutation|].
    rewrite (stable_sort_map f Q begin_le key_before); [apply StronglySorted_stable_sort; apply _| |done].
    intros a b (t & n & Ha & Ea) (t' & n' & Hb & Eb). unfold begin_le, f. rewrite Ha, Hb, Ea, Eb. cbn [default from_option id].
    unfold key_ltb, value_ltb, key_before. cbn [fst snd]. rewrite py_eq_int_int, !py_ltb_int.
    destruct (Z.eqb_spec t' t); [destruct (Z.ltb_spec n' n)|destruct (Z.ltb_spec t' t)]; split; try done; lia.
Qed.

Lemma normalize_normalized sha256 events path doc sidecar :
  normalize_capture sha256 events path = Ok (doc, sidecar) → normalized sha256 events doc sidecar.
Proof.
  unfold normalize_capture. destruct events as [|start rest]; [done|]. intros H.
  apply bind_Ok in H as (kind & _ & H). apply bind_Ok in H as (_u1 & _ & H). apply bind_Ok in H as (schema & _ & H).
  apply bind_Ok in H as (_u2 & _ & H). apply bind_Ok in H as (st & Hst & H). apply bind_Ok in H as (v & Hv & H).
  apply bind_Ok in H as (intent & Hi & H). apply bind_Ok in H as (os & Hos & H). apply bind_Ok in H as (ordered & Hor & H).
  apply bind_Ok in H as (expanded & _ & H). apply bind_Ok in H as (os2 & Hos2 & H). cbv zeta in H.
  apply bind_Ok in H as (final & Hf & H). apply bind_Ok in H as ([] & Hval & H). apply Ok_inj in H as [= <- <-].
  (* the start document *)
  unfold start_intent in Hi. apply bind_Ok in Hi as (eng & _ & Hi). apply bind_Ok in Hi as (engine & _ & Hi).
  apply bind_Ok in Hi as (rid & _ & Hi). apply bind_Ok in Hi as (ad & _ & Hi). apply bind_Ok in Hi as (clk & _ & Hi).
  unfold new_intent in Hi. apply bind_Ok in Hi as (layout & _ & Hi). apply Ok_inj in Hi.
  assert (op_state_ok (getd intent "provenance") [] [] {| o_intent := intent; o_versions := []; o_last := []; o_sidecar := [] |}) as Hs0.
  { subst intent. constructor; try done. intros op Hop. by inversion Hop. }
  pose proof (add_initials_ok _ _ _ _ Hs0 Hos) as Hs1.
  destruct (add_begins_ok _ _ _ _ _ _ _ _ Hs1 Hos2) as (its & ops & Hits & [Hops Hprov Hrows Hfrom _ _ Hch]).
  (* the final document *)
  unfold finish_intent, append_note in Hf. apply bind_Ok in Hf as (i2 & Hn & Hf). apply Ok_inj in Hf.
  apply bind_Ok in Hn as (prov & Hp & Hn). apply dict_at_Ok in Hp. apply bind_Ok in Hn as (comp & Hcm & Hn). apply dict_at_Ok in Hcm.
  apply bind_Ok in Hn as (notes & _ & Hn). apply Ok_inj in Hn.
  assert (status_of (JObj final) = JStr (if v_complete v then "complete" else "partial")) as Hstat.
  { unfold status_of. subst final i2. cbn [fld]. rewrite !getd_dset. simpl. rewrite !getd_dset. simpl. rewrite !getd_dset. simpl.
    rewrite Hprov in Hp. subst intent. cbv [getd dget String.eqb Ascii.eqb Bool.eqb from_option id] in Hp. injection Hp as <-.
    cbv [getd dget String.eqb Ascii.eqb Bool.eqb from_option id] in Hcm. injection Hcm as <-. reflexivity. }
  constructor; [|by subst final; cbn [fld]; rewrite !getd_dset|done].
  exists start, rest, st, v. split_and!; [done..| |].
  - rewrite Hstat. rewrite <- (judge_complete _ _ Hv). by destruct (v_complete v).
  - exists final, ordered, its, ops, (o_sidecar os2). split_and!; try done; [by apply sort_begins_perm|by apply (sort_begins_ordered (map snd (n_begins st)))|].
    subst final i2. rewrite !getd_dset. simpl. exact Hops.
Qed.


(** ** Drops *)

(** The end event of a tracked recorder's file has the recorder's count of drops. *)
Lemma end_event_dropped r rec h : good r rec → fld (sort_keys rec) "ev" = JStr "end" →
  get_default (sort_keys rec) "health" (JObj []) = Ok (JObj h) → getd h "dropped" = JInt (Z.of_nat (dropped r)).
Proof.
  intros ((Hf & Hw) & Hd & He) Hev Hh. rewrite fld_sort_keys in Hev by done.
  assert (fld rec "ev" = JStr "end") as Hev' by (destruct (fld rec "ev"); try done; simpl in Hev; congruence).
  destruct (He Hev') as [_ Hdrop]. assert (fld (sort_keys rec) "health" = JObj h) as Hs.
  { pose proof (fld_sort_keys rec "health" Hw) as Hs. revert Hs Hh. destruct rec as [| | | | | |d]; try done. simpl.
    unfold getd. destruct (dget "health" _) as [x|]; simpl; [congruence|]. intros Hn _.
    exfalso. revert Hdrop. simpl. unfold getd. destruct (dget "health" d) as [[]|]; try done. }
  rewrite fld_sort_keys in Hs by done.
  change (fld (JObj h) "dropped" = JInt (Z.of_nat (dropped r))). rewrite <- Hs, fld_sort_keys, Hdrop by auto with kvio. done.
Qed.

(** The file of a recorder that counts a drop is not normalized as complete. *)
Lemma tracked_drop_partial sha256 r events path doc sidecar :
  tracked r → (0 < dropped r)%nat → read_events (file r) = Ok events →
  normalize_capture sha256 events path = Ok (doc, sidecar) → status_of doc = JStr "partial".
Proof.
  intros Ht Hdrop Hread Hn.
  destruct (tracked_events r Ht) as (recs & Hrecs & Hgood). assert (events = map sort_keys recs) as -> by congruence.
  apply normalize_normalized in Hn as [(start & rest & st & v & Hev & Hst & Hv & Hstat & Hiff & _) _ _].
  destruct (v_complete v); [|done]. apply Hiff in Hstat as [(ev & h & Hend & Hh & Hd) _ _ _].
  destruct (collect_ended _ _ Hst ev Hend) as [Hin Hkind].
  assert (ev ∈ map sort_keys recs) as (rec & -> & Hrec)%list_elem_of_fmap by (rewrite Hev; by right).
  eapply Forall_forall in Hgood; [|exact Hrec].
  rewrite (end_event_dropped _ _ _ Hgood Hkind Hh) in Hd. simpl in Hd.
  destruct (Z.eqb_spec (Z.of_nat (dropped r)) 0); [lia|done].
Qed.

(** ** Examples *)

(** A capture with one store and one load of the object. *)
Definition ex_args (verb : string) : op_args :=
  {| a_op := JStr verb; a_stream := JStr "s"; a_batch_id := JNull; a_deps := []; a_object_id := JStr "o";
     a_version := JNull; a_representation := JObj [("codec", JStr "raw"); ("encoded_bytes", JInt 8)];
     a_range := JNull; a_requested := JInt 8; a_items := None |}.

Definition ex_engine : dict := [("name", JStr "e"); ("revision", JStr "1")].

Definition ex_actions (state_ok : bool) : list action :=
  [ADrain true; AState 6 [(JStr "old", JInt 1, JNull, JInt 8, JStr "storage")]; ADrain state_ok; ABegin 7 (ex_args "store") ""; ADrain true;
   AEnd 8 "p-3" (JStr "success") (JInt 8) None; ADrain true; AClose 11 [] []].

Definition ex_run (cap : Z) (state_ok : bool) : recorder := run_of true ex_engine [] "run" "p" cap 5 (ex_actions state_ok).

Definition ex_events (cap : Z) (state_ok : bool) : list json :=
  match read_events (file (ex_run cap state_ok)) with Ok l => l | Raise _ => [] end.

(** The status and the initial objects of the document of a capture. *)
Definition summary (r : res (json * string)) : option (json * json) :=
  match r with Ok (doc, _) => Some (status_of doc, fld (fld doc "initial_state") "live") | Raise _ => None end.

Lemma recorder_accounts_witness :
  let r' := close (run_of true ex_engine [] "run" "p" 1 5 (removelast (ex_actions true))) 11 [] [] in
  closed r' = true ∧ queue r' = [] ∧ (emitted r' = length (file r') + errors r')%nat.
Proof.
  apply (recorder_accounts true ex_engine [] "run" "p" 1 5 (removelast (ex_actions true))); vm_compute; reflexivity.
Defined.

Definition toy_sha (s : string) : string := "aa".


(** A failed write is silent: the record of the initial state is lost, the recorder
    counts an error, and the document still says "complete", without the object. *)
Example write_error_silent :
  (errors (ex_run 100 false) = 1)%nat ∧
  summary (normalize_capture toy_sha (ex_events 100 false) EmptyString) = Some (JStr "complete", JList []) ∧
  summary (normalize_capture toy_sha (ex_events 100 true) EmptyString)
    = Some (JStr "complete", JList [JObj [("object_id", JStr "old"); ("version", JInt 1); ("tier", JStr "storage")]]).
Proof. vm_compute. done. Qed.
