(* ===== verification/CaptureThreads.v ===== *)
(** * Threads that record ([tools/kvio/capture_events.py])

    The threads of an engine call the methods of one [Recorder].  The source holds
    its lock only to draw a sequence number and to change the set of open
    operations; the queue has a lock of its own; the counters have none.  Here
    the calls of several threads take turns at these steps, and with the turns
    of the drain thread: a thread that counts reads the counter and writes it in
    two steps, so that an increment can be lost.

    [close] is called when the other calls have returned.  A call that is still
    under way then can lose its record without a trace: [close_race_silent]. *)

From stdpp Require Import prelude strings list numbers gmap.
From Stdlib Require Import ZArith Lia Ascii.
From S2P Require Import Prelude PyText PyJson JsonText Intent2 CaptureEvents CaptureCorrect.
Import Recorder.
Local Open Scope Z_scope.

(** ** The steps of the calls *)
Inductive call :=
  | CState (ts : Z) (live : list (json * json * json * json * json))
  | CBegin (ts : Z) (a : op_args) (given : string)
  | CEnd (ts : Z) (op_id : string) (outcome completed_bytes : json) (items : option (list dict))
  | CMarker (ts : Z) (name : json) (fields : dict).

(** Where a thread is in a call. *)
Inductive phase :=
  | Idle
  | Begun (ts : Z) (a : op_args) (given : string) (n : Z)   (** [begin] has drawn its number *)
  | Putting (d : dict)                                      (** at the start of [_put] *)
  | Tested (d : dict)                                       (** the recorder was not closed *)
  | Numbered (d : dict)                                     (** about to put the record *)
  | Counting (full : bool)                                  (** about to read the counter *)
  | Counted (full : bool) (n : nat).                        (** read [n], about to write [n + 1] *)

(** A thread and the calls it has still to make. *)
Record thread := mkThread { t_phase : phase; t_calls : list call }.

Definition with_queue (r : recorder) (q : list json) : recorder :=
  {| enabled := enabled r; closed := closed r; engine := engine r; adapter := adapter r; run_id := run_id r;
     producer := producer r; capacity := capacity r; queue := q; seq := seq r; emitted := emitted r;
     dropped := dropped r; errors := errors r; open_ops := open_ops r; file := file r |}.

(** Write the counter of the dropped or of the emitted records. *)
Definition with_count (r : recorder) (full : bool) (n : nat) : recorder :=
  {| enabled := enabled r; closed := closed r; engine := engine r; adapter := adapter r; run_id := run_id r;
     producer := producer r; capacity := capacity r; queue := queue r; seq := seq r;
     emitted := if full then emitted r else n; dropped := if full then n else dropped r;
     errors := errors r; open_ops := open_ops r; file := file r |}.

(** The call begins. *)
Definition enter (r : recorder) (c : call) : recorder * phase :=
  if negb (enabled r) then
    (match c with CBegin _ _ given => if String.eqb given "" then with_seq r (seq r + 1) else r | _ => r end, Idle)
  else
    match c with
    | CState ts live => (r, Putting (state_record ts live))
    | CBegin ts a given => (with_seq r (seq r + 1), Begun ts a given (seq r + 1))
    | CEnd ts op_id o c items => (open_discard r op_id, Putting (end_record ts op_id o c items))
    | CMarker ts name fields => (r, Putting (marker_record ts name fields))
    end.

(** The next step of a call; with the record it loses, if any. *)
Definition advance (r : recorder) (p : phase) : recorder * phase * list json :=
  match p with
  | Idle => (r, Idle, [])
  | Begun ts a given n =>
      let op_id := begin_id r given n in (open_add r op_id, Putting (begin_record ts a op_id n), [])
  | Putting d => (r, if closed r then Idle else Tested d, [])
  | Tested d =>
      if dhas "producer_seq" d then (r, Numbered d, [])
      else (with_seq r (seq r + 1), Numbered (dset "producer_seq" (JInt (seq r + 1)) d), [])
  | Numbered d =>
      if full r then (r, Counting true, [JObj d]) else (with_queue r (queue r ++ [JObj d]), Counting false, [])
  | Counting full => (r, Counted full (if full then dropped r else emitted r), [])
  | Counted full n => (with_count r full (S n), Idle, [])
  end.

(** The recorder, the threads, and the records that found the queue full. *)
Record capture := mkCapture { c_rec : recorder; c_threads : list thread; c_lost : list json }.

Inductive turn := Turn (i : nat) | Drain (ok : bool).

(** [None]: the thread has returned from all its calls. *)
Definition take_turn (st : capture) (t : turn) : option capture :=
  match t with
  | Drain ok => Some (mkCapture (_drain (c_rec st) ok) (c_threads st) (c_lost st))
  | Turn i =>
      match c_threads st !! i with
      | Some (mkThread Idle (c :: rest)) =>
          let rp := enter (c_rec st) c in
          Some (mkCapture rp.1 (<[ i := mkThread rp.2 rest ]> (c_threads st)) (c_lost st))
      | Some (mkThread Idle []) | None => None
      | Some (mkThread p rest) =>
          let '(r, p', lost) := advance (c_rec st) p in
          Some (mkCapture r (<[ i := mkThread p' rest ]> (c_threads st)) (c_lost st ++ lost))
      end
  end.

Fixpoint take_turns (st : capture) (ts : list turn) : option capture :=
  match ts with [] => Some st | t :: ts => st' ← take_turn st t; take_turns st' ts end.

Definition returned (t : thread) : bool := match t with mkThread Idle [] => true | _ => false end.

(** The threads at their start, each with the calls it will make. *)
Definition start_threads (r : recorder) (calls : list (list call)) : capture := mkCapture r (mkThread Idle <$> calls) [].

(** ** A call alone *)
Definition whole (c : call) : action :=
  match c with
  | CState ts live => AState ts live
  | CBegin ts a given => ABegin ts a given
  | CEnd ts op_id o cb items => AEnd ts op_id o cb items
  | CMarker ts name fields => AMarker ts name fields
  end.

(** The steps of a call that no other thread interrupts. *)
Fixpoint steps (n : nat) (r : recorder) (p : phase) : recorder :=
  match n with O => r | S n => steps n (advance r p).1.1 (advance r p).1.2 end.

Lemma put_steps k r d : enabled r = true → steps (5 + k) r (Putting d) = _put r d.
Proof.
  assert (∀ k r, steps k r Idle = r) as Hidle by (intros n; induction n as [|n IH]; intros x; [done|apply IH]).
  intros He. unfold _put. rewrite He. cbn [negb orb Nat.add]. cbn [steps advance fst snd]. destruct (closed r); [apply Hidle|].
  cbn [advance]. destruct (dhas "producer_seq" d); cbn [fst snd advance].
  - unfold enqueue. destruct (full r); cbn [fst snd advance]; apply Hidle.
  - set (r1 := with_seq r (seq r + 1)). unfold enqueue. destruct (full r1); cbn [fst snd advance]; apply Hidle.
Qed.

(** Such steps do what the whole call does. *)
Lemma call_alone r c : steps 6 (enter r c).1 (enter r c).2 = perform r (whole c).
Proof.
  unfold enter. destruct (enabled r) eqn:He; cbn [negb].
  - destruct c as [ts live|ts a given|ts id o cb items|ts name fields]; cbn [fst snd whole perform].
    + by apply (put_steps 1).
    + unfold begin. rewrite He. cbn [negb fst]. cbn [steps advance fst snd]. by apply (put_steps 0).
    + unfold end_. rewrite He. cbn [negb]. by apply (put_steps 1).
    + by apply (put_steps 1).
  - destruct c as [ts live|ts a given|ts id o cb items|ts name fields]; cbn [fst snd whole perform steps advance];
      unfold object_state, begin, end_, marker, _put; rewrite He; cbn [negb orb fst]; try done. by destruct (String.eqb given "").
Qed.

(** ** Drops *)
Definition plain_call (c : call) : Prop := plain_action (whole c).

Definition phase_ok (p : phase) : Prop :=
  match p with
  | Begun _ a _ _ => plain_args a
  | Putting d | Tested d | Numbered d => event_record d
  | Idle | Counting _ | Counted _ _ => True
  end.

Definition thread_ok (t : thread) : Prop := phase_ok (t_phase t) ∧ Forall plain_call (t_calls t).

(** The thread has lost a record and has not counted it yet. *)
Definition losing (t : thread) : bool :=
  match t_phase t with Counting true | Counted true _ => true | _ => false end.

(** While the recorder is open, a record that was lost is counted, or a thread is
    about to count one: writing the counter makes it positive, whatever was read. *)
Record recording (st : capture) : Prop := {
  rc_open : closed (c_rec st) = false;
  rc_tracked : tracked (c_rec st);
  rc_threads : Forall thread_ok (c_threads st);
  rc_lost : c_lost st ≠ [] → (0 < dropped (c_rec st))%nat ∨ ∃ i t, c_threads st !! i = Some t ∧ losing t = true
}.

Lemma tracked_still r r' : closed r = false → queue r' = queue r → file r' = file r → tracked r → tracked r'.
Proof. intros Hc Hq Hf. apply tracked_mono; [|done..]. intros rec. by apply good_open. Qed.

Lemma tracked_append r d : closed r = false → event_record d → tracked r → tracked (with_queue r (queue r ++ [JObj d])).
Proof.
  intros Hc [Hp He] [H1 H2]. constructor; cbn [with_queue queue file].
  - apply Forall_app_2; [eapply Forall_impl; [exact H1|]; intros x; by apply good_open|]. apply Forall_singleton. by split_and!.
  - eapply Forall_impl; [exact H2|]. intros line (x & ? & ?). exists x. split; [done|]. by apply (good_open r).
Qed.

Lemma event_numbered n d : event_record d → event_record (dset "producer_seq" (JInt n) d).
Proof.
  intros [Hp He]. split; [by apply plain_dset|]. simpl in *. rewrite getd_dset. exact He.
Qed.

Lemma enter_ok r c : closed r = false → tracked r → plain_call c →
  let rp := enter r c in closed rp.1 = false ∧ tracked rp.1 ∧ phase_ok rp.2 ∧ dropped rp.1 = dropped r ∧ losing (mkThread rp.2 []) = false.
Proof.
  intros Hc Ht Hp. cbv zeta. unfold enter. destruct (negb (enabled r)).
  - destruct c as [| ts a given | |]; try done. by destruct (String.eqb given ""); split_and!; try done; apply (tracked_still r).
  - destruct c as [ts live|ts a given|ts id o cb items|ts name fields]; cbn [fst snd]; unfold plain_call in Hp; cbn in Hp.
    + split_and!; try done. by apply state_event.
    + split_and!; try done. by apply (tracked_still r).
    + destruct Hp as (? & ? & ?). split_and!; try done; [by apply (tracked_still r)|by apply end_event].
    + destruct Hp as (? & ? & ?). split_and!; try done. by apply marker_event.
Qed.

Lemma advance_ok r p : closed r = false → tracked r → phase_ok p →
  let '(r', p', lost) := advance r p in closed r' = false ∧ tracked r' ∧ phase_ok p' ∧
    (lost ≠ [] → losing (mkThread p' []) = true) ∧
    ((0 < dropped r)%nat ∨ losing (mkThread p []) = true → (0 < dropped r')%nat ∨ losing (mkThread p' []) = true).
Proof.
  intros Hc Ht Hp. destruct p as [|ts a given n|d|d|d|f|f n]; cbn [advance phase_ok] in *.
  - by split_and!.
  - split_and!; try done; try (by apply (tracked_still r)); by apply begin_event.
  - rewrite Hc. split_and!; try done.
  - destruct (dhas "producer_seq" d); split_and!; try done; try (by apply (tracked_still r)); by apply event_numbered.
  - destruct (full r); split_and!; try done; try (by apply tracked_append). intros _. by right.
  - by split_and!.
  - split_and!; try done; try (by apply (tracked_still r)). cbn [with_count dropped]. destruct f; [intros _; left; lia|].
    by intros [?|?]; [left|].
Qed.

Lemma take_turn_recording st t st' : recording st → take_turn st t = Some st' → recording st'.
Proof.
  intros [Ho Ht Hth Hl]. destruct t as [i|ok]; cbn [take_turn].
  - destruct (c_threads st !! i) as [[p rest]|] eqn:Hi; [|done].
    pose proof (proj1 (Forall_lookup _ _) Hth _ _ Hi) as [Hp Hrest]. cbn [t_phase t_calls] in *.
    assert (∀ r' p' rest' lost, closed r' = false → tracked r' → phase_ok p' → Forall plain_call rest' →
      (lost ≠ [] → losing (mkThread p' []) = true) →
      ((0 < dropped (c_rec st))%nat ∨ losing (mkThread p []) = true → (0 < dropped r')%nat ∨ losing (mkThread p' []) = true) →
      recording (mkCapture r' (<[ i := mkThread p' rest' ]> (c_threads st)) (c_lost st ++ lost))) as Hstep.
    { intros r' p' rest' lost H1 H2 H3 H4 H5 H6. constructor; cbn [c_rec c_threads c_lost]; [done|done| |].
      - apply Forall_insert; [done|]. by split.
      - intros Hne. assert ((0 < dropped r')%nat ∨ losing (mkThread p' []) = true ∨
          ∃ j t, i ≠ j ∧ c_threads st !! j = Some t ∧ losing t = true) as [?|[Hx|(j & t & Hj & Ht' & Hlt)]].
        { destruct lost as [|x lost]; [|right; left; by apply H5]. rewrite app_nil_r in Hne.
          destruct (Hl Hne) as [?|(j & t & Hj & Hlt)]; [destruct H6; auto|]. destruct (decide (i = j)) as [<-|Hij].
          - assert (t = mkThread p rest) as -> by congruence. destruct H6; auto.
          - right. right. by exists j, t. }
        + by left.
        + right. exists i, (mkThread p' rest'). split; [|exact Hx]. apply list_lookup_insert_eq. by eapply lookup_lt_Some.
        + right. exists j, t. by rewrite list_lookup_insert_ne. }
    destruct p as [|ts a given n|d|d|d|f|f n].
    { destruct rest as [|c rest]; [done|]. intros [= <-]. apply Forall_cons in Hrest as [Hc Hrest].
      destruct (enter_ok (c_rec st) c Ho Ht Hc) as (H1 & H2 & H3 & H4 & _). rewrite <- (app_nil_r (c_lost st)).
      apply Hstep; try done. rewrite H4. by intros [?|?]; [left|]. }
    all: match goal with |- context [advance _ ?p] => pose proof (advance_ok (c_rec st) p Ho Ht Hp) as Ha;
           destruct (advance (c_rec st) p) as [[r' p'] lost]; destruct Ha as (? & ? & ? & ? & ?) end;
      intros [= <-]; by apply Hstep.
  - intros [= <-]. constructor; cbn [c_rec c_threads c_lost]; [|by apply tracked_drain|done|].
    + unfold _drain. by destruct (queue (c_rec st)).
    + assert (dropped (_drain (c_rec st) ok) = dropped (c_rec st)) as -> by (unfold _drain; by destruct (queue (c_rec st))). done.
Qed.

Lemma take_turns_recording ts st st' : recording st → take_turns st ts = Some st' → recording st'.
Proof.
  revert st. induction ts as [|t ts IH]; intros st Hr; cbn [take_turns]; [by intros [= <-]|].
  destruct (take_turn st t) as [st1|] eqn:E; [|done]. apply IH. by eapply take_turn_recording.
Qed.

Lemma start_recording en e ad run pr cap ts calls : plain (JObj e) → plain (JObj ad) → Forall (Forall plain_call) calls →
  recording (start_threads (init en e ad run pr cap ts) calls).
Proof.
  intros He Hd Hc. constructor; cbn [start_threads c_rec c_threads c_lost]; [|by apply tracked_init| |done].
  - unfold init, _put. cbn [enabled closed]. by destruct en.
  - apply Forall_fmap. eapply Forall_impl; [exact Hc|]. intros l Hl. by split.
Qed.

(** Closing keeps the drops that were counted. *)
Lemma close_dropped r ts pre oks : tracked r → (dropped r ≤ dropped (close r ts pre oks))%nat.
Proof.
  intros H. unfold close. destruct (_ || _); [done|]. rewrite (proj2 (drain_all_frame _ _ _)). cbn [set_closed dropped].
  destruct (drains_frame pre r H) as (_ & _ & _ & <- & _). unfold _put. destruct (_ || _); [done|].
  destruct (dhas _ _); unfold enqueue; cbn [dropped with_seq]; destruct (full _); lia.
Qed.

(** C23: a drop is never silent when the recorder is closed after the calls.  Whatever
    the turns that the threads of the engine take inside their calls, with lost
    updates of the counters, and those of the drain: when all calls have returned
    and the recorder is closed, if a record found the queue full, the end marker
    included, then the file is not normalized as complete: the document that comes
    out of it says "partial". *)
Theorem drop_never_silent sha256 en e ad run pr cap ts calls turns st ts' pre oks events path doc sidecar :
  plain (JObj e) → plain (JObj ad) → Forall (Forall plain_call) calls →
  take_turns (start_threads (init en e ad run pr cap ts) calls) turns = Some st → forallb returned (c_threads st) = true →
  let r := close (c_rec st) ts' pre oks in
  c_lost st ≠ [] ∨ dropped r ≠ dropped (c_rec st) → read_events (file r) = Ok events →
  normalize_capture sha256 events path = Ok (doc, sidecar) → status_of doc = JStr "partial".
Proof.
  intros He Had Hcalls Hrun Hret r Hlost Hread Hn.
  assert (recording st) as [_ Ht _ Hl] by (eapply take_turns_recording; [|exact Hrun]; by apply start_recording).
  pose proof (close_dropped (c_rec st) ts' pre oks Ht) as Hle. fold r in Hle.
  apply (tracked_drop_partial sha256 r events path doc sidecar); [by apply tracked_close| |done..].
  destruct Hlost as [Hne|?]; [|lia]. destruct (Hl Hne) as [?|(i & t & Hi & Hlose)]; [lia|].
  rewrite forallb_forall in Hret. apply list_elem_of_lookup_2, list_elem_of_In, Hret in Hi. by destruct t as [[] []].
Qed.

(** ** Examples *)

(** A queue of one record.  The first thread records a store; while its begin is
    in the queue, two other threads each lose a marker, read the counter of drops
    and write it: both are lost, and the counter is one. *)
Definition racing_calls : list (list call) :=
  [[CBegin 7 (ex_args "store") "x"; CEnd 8 "x" (JStr "success") (JInt 8) None]; [CMarker 7 (JStr "m") []]; [CMarker 7 (JStr "n") []]].

Definition racing_turns : list turn :=
  [Drain true] ++ replicate 7 (Turn 0) ++ replicate 5 (Turn 1) ++ replicate 5 (Turn 2) ++ [Turn 1; Turn 2; Drain true]
  ++ replicate 6 (Turn 0) ++ [Drain true].

Abbreviation racing_end := (take_turns (start_threads (init true ex_engine [] "run" "p" 1 5) racing_calls) racing_turns).

Example racing_counter : (λ st, (length (c_lost st), dropped (c_rec st))) <$> racing_end = Some (2, 1)%nat.
Proof. vm_compute. reflexivity. Qed.

Lemma racing_plain : Forall (Forall plain_call) racing_calls.
Proof.
  assert (plain_args (ex_args "store")) as Ha.
  { unfold plain_args, ex_args; cbn. do 6 (split; [by first [apply plain_atom|apply Forall_nil_2]|]).
    split; [plain_tac|]. by do 2 (split; [by apply plain_atom|]). }
  assert (∀ s, plain_call (CMarker 7 (JStr s) [])) as Hm.
  { intros s. split; [by apply plain_atom|]. split; [by apply Forall_nil_2|apply not_elem_of_nil]. }
  repeat apply Forall_cons_2; try apply Forall_nil_2; try apply Hm; [exact Ha|].
  by split; [apply plain_atom|split; [apply plain_atom|]].
Qed.

Lemma drop_never_silent_witness :
  match racing_end with
  | Some st => match read_events (file (close (c_rec st) 11 [] [])) with
               | Ok events => match normalize_capture toy_sha events EmptyString with
                              | Ok (doc, _) => status_of doc = JStr "partial"
                              | Raise _ => False
                              end
               | Raise _ => False
               end
  | None => False
  end.
Proof.
  destruct (take_turns _ _) as [st|] eqn:Es; [|vm_compute in Es; discriminate].
  assert (forallb returned (c_threads st) = true ∧ c_lost st ≠ []) as [Hret Hlost]
    by (vm_compute in Es; injection Es as <-; by split).
  destruct (read_events (file (close (c_rec st) 11 [] []))) as [events|] eqn:Er;
    [|vm_compute in Es; injection Es as <-; vm_compute in Er; discriminate].
  destruct (normalize_capture toy_sha events EmptyString) as [[doc sidecar]|] eqn:E.
  - apply (drop_never_silent toy_sha true ex_engine [] "run" "p" 1 5 racing_calls racing_turns st 11 [] [] events EmptyString doc sidecar);
      [by plain_tac|by plain_tac|exact racing_plain|exact Es|exact Hret|left; exact Hlost|exact Er|exact E].
  - vm_compute in Es. injection Es as <-. vm_compute in Er. injection Er as <-. vm_compute in E. discriminate.
Defined.

(** A call that is under way while the recorder is closed: [close] has read the
    health and drawn a number when the record of a begin finds the queue full; the
    drain makes room, and the end marker goes through with no drop in it.  The
    document says "complete" though the begin was dropped. *)
Definition late_calls : list (list call) :=
  [[CBegin 7 (ex_args "store") "x"; CEnd 8 "x" (JStr "success") (JInt 8) None]; [CBegin 9 (ex_args "load") "y"]].

Example close_race_silent :
  match take_turns (start_threads (init true ex_engine [] "run" "p" 1 5) late_calls)
          ([Drain true] ++ replicate 7 (Turn 0) ++ [Drain true] ++ replicate 6 (Turn 0)) with
  | Some st =>
      let number := seq (c_rec st) + 1 in
      let marker := JObj (dset "producer_seq" (JInt number) (last_record 11 (health (c_rec st)))) in
      match take_turns (mkCapture (with_seq (c_rec st) number) (c_threads st) (c_lost st)) (replicate 7 (Turn 1) ++ [Drain true]) with
      | Some st2 =>
          let r := drain_all 1 (set_closed (enqueue (c_rec st2) marker)) [] in
          dropped r = 1%nat ∧ length (c_lost st2) = 1%nat ∧ summary (events ← read_events (file r); normalize_capture toy_sha events EmptyString)
            = Some (JStr "complete", JList [])
      | None => False
      end
  | None => False
  end.
Proof. vm_compute. done. Qed.
