(* ===== verification/Naming.v ===== *)
(** * Synthetic names ([tools/kvio/posix_fs.py], [tools/kvio/s3_client.py])

    A capture must not show an application's file names or keys, but it must
    keep what the names decide: which calls name the same entry, and which
    entry is the parent of which.  [RecordingFS._synthetic] names the entries of
    each directory [e0, e1, ..] as they are first seen, and [RecordingS3._key]
    names each component of a key [k0, k1, ..] under its prefix.  The theorem is
    that the names are stable, one to one and keep the directory of an entry. *)

From stdpp Require Import prelude strings list numbers gmap sorting.
From Stdlib Require Import ZArith Lia Ascii.
From S2P Require Import Prelude PyText PyJson Workload3 FakeFS.
Local Open Scope Z_scope.

(** ** Text with separators *)
Lemma app_sep_inj z (p q s t : string) :
  has_char z s = false → has_char z t = false → 0 ≤ z < 256 →
  p +:+ String (chr z) s = q +:+ String (chr z) t → p = q ∧ s = t.
Proof.
  intros Hs Ht Hz. assert (∀ u v, has_char z (u +:+ String (chr z) v) = true) as Hmid.
  { intros u v. induction u as [|c u IH]; [|rewrite sapp_cons; simpl; by rewrite IH, orb_true_r].
    change ("" +:+ String (chr z) v) with (String (chr z) v). simpl. by rewrite code_chr, Z.eqb_refl. }
  revert q. induction p as [|c p IH]; intros [|d q] He.
  - by injection He.
  - change ("" +:+ String (chr z) s) with (String (chr z) s) in He. rewrite sapp_cons in He.
    injection He as <- ->. by rewrite Hmid in Hs.
  - change ("" +:+ String (chr z) t) with (String (chr z) t) in He. rewrite sapp_cons in He.
    injection He as -> <-. by rewrite Hmid in Ht.
  - rewrite !sapp_cons in He. injection He as -> He. by destruct (IH q He) as [-> ->].
Qed.

Lemma has_char_app z (s t : string) : has_char z (s +:+ t) = has_char z s || has_char z t.
Proof.
  induction s as [|c s IH]; [done|]. rewrite sapp_cons. simpl. by rewrite IH, orb_assoc.
Qed.

Lemma split_on_app z (p s : string) : 0 ≤ z < 256 →
  split_on z (p +:+ String (chr z) s) = split_on z p ++ split_on z s.
Proof.
  intros Hz. induction p as [|c p IH].
  - change ("" +:+ String (chr z) s) with (String (chr z) s). simpl. by rewrite code_chr, Z.eqb_refl.
  - rewrite sapp_cons. simpl. destruct (code c =? z); rewrite IH; [done|].
    pose proof (split_on_nonempty z p). by destruct (split_on z p).
Qed.

Lemma digits_no_char z s : (z <? 48) || (57 <? z) = true → sforall is_digit09 s = true → has_char z s = false.
Proof.
  intros Hz. induction s as [|c s IH]; [done|]. simpl. unfold is_digit09.
  intros [Hc Hs]%andb_true_iff. rewrite (IH Hs). lia.
Qed.

Lemma str_of_Z_digits n : 0 ≤ n → sforall is_digit09 (str_of_Z n) = true.
Proof.
  intros Hn. unfold str_of_Z. destruct (Z.ltb_spec n 0); [lia|]. by apply str_of_nat_digits.
Qed.

(** ** File names *)

(** [s.strip("/")] *)
Fixpoint lstrip_slash (s : string) : string :=
  match s with
  | EmptyString => EmptyString
  | String c t => if code c =? 47 then lstrip_slash t else s
  end.

Fixpoint rstrip_slash (s : string) : string :=
  match s with
  | EmptyString => EmptyString
  | String c t => match rstrip_slash t with
                  | EmptyString => if code c =? 47 then EmptyString else String c EmptyString
                  | r => String c r
                  end
  end.

Definition strip_slash (s : string) : string := rstrip_slash (lstrip_slash s).

(** [rel.rpartition("/")[0]] *)
Definition rpartition_head (rel : string) : string := default EmptyString (before_last_slash rel).

Record naming := mkNaming {
  nm_names : list (string * string);     (** real relative path -> synthetic path *)
  nm_counts : list (string * Z)          (** synthetic parent -> count *)
}.

Definition no_names : naming := mkNaming [] [].

Definition entry_name (sparent : string) (n : Z) : string :=
  if String.eqb sparent "." then "e" +:+ str_of_Z n else sparent +:+ "/e" +:+ str_of_Z n.

(** [_synthetic]; a path has a parent shorter than itself, so the fuel below is
    never used up. *)
Fixpoint synthetic_go (fuel : nat) (st : naming) (rel : string) : naming * string :=
  let rel := strip_slash rel in
  if String.eqb rel "" || String.eqb rel "." then (st, ".") else
  match dget rel (nm_names st) with
  | Some syn => (st, syn)
  | None =>
      match fuel with
      | O => (st, ".")
      | S fuel =>
          let parent := rpartition_head rel in
          let '(st, sparent) := if String.eqb parent "" then (st, ".") else synthetic_go fuel st parent in
          let n := default 0 (dget sparent (nm_counts st)) in
          let syn := entry_name sparent n in
          (mkNaming (dset rel syn (nm_names st)) (dset sparent (n + 1) (nm_counts st)), syn)
      end
  end.

Definition _synthetic (st : naming) (rel : string) : naming * string :=
  synthetic_go (S (String.length rel)) st rel.

Example synthetic_ex :
  let '(st, a) := _synthetic no_names "models/llama/layer0" in
  let '(st, b) := _synthetic st "models/qwen" in
  let '(st, c) := _synthetic st "/models/llama/" in
  [a; b; c] = ["e0/e0/e0"; "e0/e1"; "e0/e0"].
Proof. reflexivity. Qed.

(** *** What the names keep *)

(** The entry a path names: [.] is the root, however it is written. *)
Definition canon (rel : string) : string :=
  if String.eqb (strip_slash rel) "" then "." else strip_slash rel.

(** The name an entry has, if it has one already. *)
Definition named (st : naming) (rel : string) : option string :=
  if String.eqb (canon rel) "." then Some "." else dget (canon rel) (nm_names st).

Definition count_of (st : naming) (sp : string) : Z := default 0 (dget sp (nm_counts st)).

Record naming_ok (st : naming) : Prop := {
  no_place r s : dget r (nm_names st) = Some s →
    strip_slash r = r ∧ r ≠ "" ∧ r ≠ "." ∧
    ∃ sp n, named st (rpartition_head r) = Some sp ∧ s = entry_name sp n ∧ 0 ≤ n < count_of st sp;
  no_inj r r' s : dget r (nm_names st) = Some s → dget r' (nm_names st) = Some s → r = r';
  no_counts sp : 0 ≤ count_of st sp
}.

(** Every name of [st] is a name of [st']. *)
Definition extends (st st' : naming) : Prop :=
  (∀ r s, dget r (nm_names st) = Some s → dget r (nm_names st') = Some s) ∧
  (∀ sp, count_of st sp ≤ count_of st' sp).

#[export] Instance extends_preorder : PreOrder extends.
Proof.
  split; [by split; [auto|intros; lia]|]. intros a b c [H1 H2] [H3 H4]. split; [auto|].
  intros sp. specialize (H2 sp). specialize (H4 sp). lia.
Qed.

Lemma extends_named st st' r s : extends st st' → named st r = Some s → named st' r = Some s.
Proof. intros [H _]. unfold named. destruct (String.eqb _ _); auto. Qed.

Lemma entry_no_slash n : 0 ≤ n → has_char 47 ("e" +:+ str_of_Z n) = false.
Proof. intros Hn. apply orb_false_iff. split; [done|]. by apply digits_no_char; [|apply str_of_Z_digits]. Qed.

Lemma entry_name_shape sp n : 0 ≤ n →
  has_char 47 (entry_name sp n) = negb (String.eqb sp ".") ∧ entry_name sp n ≠ ".".
Proof.
  intros Hn. unfold entry_name. pose proof (digits_no_char 47 _ eq_refl (str_of_Z_digits n Hn)) as Hd.
  destruct (String.eqb_spec sp "."); rewrite !has_char_app; [by rewrite Hd|].
  split; [by rewrite orb_true_r|]. destruct sp as [|c sp]; [done|]. by destruct sp.
Qed.

Lemma entry_name_inj sp sp' n n' : 0 ≤ n → 0 ≤ n' →
  entry_name sp n = entry_name sp' n' → sp = sp' ∧ n = n'.
Proof.
  intros Hn Hn' He. pose proof (entry_name_shape sp n Hn) as [Hs _].
  pose proof (entry_name_shape sp' n' Hn') as [Hs' _]. rewrite He, Hs' in Hs.
  unfold entry_name in He.
  destruct (String.eqb_spec sp "."), (String.eqb_spec sp' "."); try done.
  - subst. split; [done|]. apply (inj str_of_Z). by injection He.
  - apply (app_sep_inj 47 _ _ ("e" +:+ _) ("e" +:+ _)) in He as [-> He]; [|..|lia].
    + split; [done|]. apply (inj str_of_Z). by injection He.
    + by apply entry_no_slash.
    + by apply entry_no_slash.
Qed.

Lemma length_lstrip s : (String.length (lstrip_slash s) ≤ String.length s)%nat.
Proof. induction s as [|c s IH]; simpl; [lia|]. destruct (_ =? _); simpl; lia. Qed.

Lemma length_rstrip s : (String.length (rstrip_slash s) ≤ String.length s)%nat.
Proof.
  induction s as [|c s IH]; simpl; [lia|]. destruct (rstrip_slash s); [destruct (_ =? _)|]; simpl in *; lia.
Qed.

Lemma length_strip s : (String.length (strip_slash s) ≤ String.length s)%nat.
Proof. unfold strip_slash. etrans; [apply length_rstrip|apply length_lstrip]. Qed.

Lemma rstrip_idem s : rstrip_slash (rstrip_slash s) = rstrip_slash s.
Proof.
  induction s as [|c s IH]; [done|]. simpl. destruct (rstrip_slash s) as [|d r] eqn:E.
  - destruct (code c =? 47) eqn:Ec; [done|]. simpl. by rewrite Ec.
  - change (rstrip_slash (String c (String d r))) with
      (match rstrip_slash (String d r) with
       | EmptyString => if code c =? 47 then EmptyString else String c EmptyString
       | q => String c q end). by rewrite IH.
Qed.

Lemma lstrip_rstrip s : lstrip_slash s = s → lstrip_slash (rstrip_slash s) = rstrip_slash s.
Proof.
  destruct s as [|c s]; [done|]. simpl. destruct (code c =? 47) eqn:Ec.
  - intros H. pose proof (length_lstrip s) as Hl. rewrite H in Hl. simpl in Hl. lia.
  - intros _. destruct (rstrip_slash s); simpl; by rewrite ?Ec.
Qed.

Lemma lstrip_idem s : lstrip_slash (lstrip_slash s) = lstrip_slash s.
Proof. induction s as [|c s IH]; [done|]. simpl. destruct (code c =? 47) eqn:E; [done|]. simpl. by rewrite E. Qed.

Lemma strip_idem s : strip_slash (strip_slash s) = strip_slash s.
Proof. unfold strip_slash. by rewrite lstrip_rstrip, rstrip_idem by apply lstrip_idem. Qed.

Lemma before_last_shorter s p : before_last_slash s = Some p → (String.length p < String.length s)%nat.
Proof.
  revert p. induction s as [|c s IH]; intros p; [done|]. simpl.
  destruct (before_last_slash s) as [q|]; [intros [= <-]; simpl; specialize (IH q eq_refl); lia|].
  destruct (Ascii.eqb c "/"); intros [= <-]. simpl. lia.
Qed.

Lemma rpartition_shorter s : s ≠ "" → (String.length (rpartition_head s) < String.length s)%nat.
Proof.
  intros Hs. unfold rpartition_head. destruct (before_last_slash s) eqn:E; [by apply before_last_shorter|].
  destruct s; [done|]. simpl. lia.
Qed.

(** What one call gives: the entry has the name it returns, names given before
    stay, an entry named already changes nothing, and only the entry and its
    parents are named. *)
Record synthetic_spec (st : naming) (rel : string) (st' : naming) (syn : string) : Prop := {
  sy_ok : naming_ok st';
  sy_named : named st' rel = Some syn;
  sy_extends : extends st st';
  sy_stable s : named st rel = Some s → st' = st;
  sy_new r s : dget r (nm_names st') = Some s →
    dget r (nm_names st) = Some s ∨ (String.length r ≤ String.length (strip_slash rel))%nat
}.

Lemma count_of_dset st names sp n sp' :
  count_of (mkNaming names (dset sp n (nm_counts st))) sp' = if String.eqb sp' sp then n else count_of st sp'.
Proof. unfold count_of. simpl. rewrite dget_dset. by destruct (String.eqb sp' sp). Qed.

Lemma add_name_extends st r sp n : dget r (nm_names st) = None → n = count_of st sp →
  extends st (mkNaming (dset r (entry_name sp n) (nm_names st)) (dset sp (n + 1) (nm_counts st))).
Proof.
  intros Hr ->. split.
  - intros r' s' Hs. simpl. rewrite dget_dset. destruct (String.eqb_spec r' r); [congruence|done].
  - intros sp'. rewrite count_of_dset. destruct (String.eqb_spec sp' sp); [subst|]; lia.
Qed.

(** Naming one more entry under a parent that has its name. *)
Lemma add_name_ok st r sp :
  naming_ok st → strip_slash r = r → r ≠ "" → r ≠ "." → dget r (nm_names st) = None →
  named st (rpartition_head r) = Some sp →
  let n := count_of st sp in
  naming_ok (mkNaming (dset r (entry_name sp n) (nm_names st)) (dset sp (n + 1) (nm_counts st))).
Proof.
  intros [Hp Hi Hc] Hstrip Hne Hnd Hr Hsp n. pose proof (Hc sp) as Hn. fold n in Hn.
  pose proof (add_name_extends st r sp n Hr eq_refl) as Hext.
  assert (∀ r' s, dget r' (nm_names st) = Some s → s ≠ entry_name sp n) as Hfresh.
  { intros r' s Hs ->. destruct (Hp _ _ Hs) as (_ & _ & _ & sp' & n' & _ & He & Hn').
    apply entry_name_inj in He as [<- <-]; [|lia..]. lia. }
  constructor.
  - intros r' s. simpl. rewrite dget_dset. destruct (String.eqb_spec r' r) as [->|Hr'].
    + intros [= <-]. split_and!; [done..|]. exists sp, n. split_and!; [|done|lia|].
      * eapply extends_named; [apply Hext|done].
      * rewrite count_of_dset, String.eqb_refl. lia.
    + intros Hs. destruct (Hp _ _ Hs) as (? & ? & ? & sp' & n' & Hsp' & -> & ?). split_and!; [done..|].
      exists sp', n'. split_and!; [by eapply extends_named|done|lia|].
      pose proof (proj2 Hext sp'). lia.
  - intros r1 r2 s. simpl. rewrite !dget_dset.
    destruct (String.eqb_spec r1 r), (String.eqb_spec r2 r); intros H1 H2; simplify_eq; try done.
    + by destruct (Hfresh _ _ H2).
    + by destruct (Hfresh _ _ H1).
    + by eapply Hi.
  - intros sp'. rewrite count_of_dset. destruct (String.eqb sp' sp); [lia|apply Hc].
Qed.

Lemma named_root st rel : canon rel = "." → named st rel = Some ".".
Proof. intros H. unfold named. by rewrite H. Qed.

Lemma canon_ne rel : strip_slash rel ≠ "" → canon rel = strip_slash rel.
Proof. intros H. unfold canon. by destruct (String.eqb_spec (strip_slash rel) ""). Qed.

Lemma synthetic_go_spec fuel st rel st' syn :
  naming_ok st → (String.length (strip_slash rel) ≤ fuel)%nat →
  synthetic_go fuel st rel = (st', syn) → synthetic_spec st rel st' syn.
Proof.
  revert st rel st' syn. induction fuel as [|fuel IH]; intros st rel st' syn Hst Hfuel; simpl;
    destruct (String.eqb_spec (strip_slash rel) "") as [E|E]; simpl.
  1,3: intros [= <- <-]; constructor; auto; [apply named_root; unfold canon; by rewrite E|done].
  { destruct (strip_slash rel); [done|simpl in Hfuel; lia]. }
  destruct (String.eqb_spec (strip_slash rel) ".") as [E'|E'].
  { intros [= <- <-]. constructor; auto; [apply named_root; by rewrite canon_ne|done]. }
  set (r := strip_slash rel) in *.
  assert (∀ x, named x rel = dget r (nm_names x)) as Hnamed.
  { intros x. unfold named. rewrite canon_ne by done. fold r. by destruct (String.eqb_spec r "."). }
  destruct (dget r (nm_names st)) as [s|] eqn:Es.
  { intros [= <- <-]. constructor; auto; [by rewrite Hnamed|done]. }
  destruct (if String.eqb (rpartition_head r) "" then _ else _) as [st1 sp] eqn:Ep. intros [= <- <-].
  pose proof (rpartition_shorter r E) as Hshort.
  assert (synthetic_spec st (rpartition_head r) st1 sp) as [Hok1 Hn1 Hext1 _ Hnew1].
  { revert Ep. destruct (String.eqb_spec (rpartition_head r) "") as [Eh|Eh].
    - intros [= <- <-]. constructor; auto; [|done]. rewrite Eh. by apply named_root.
    - apply IH; [done|]. pose proof (length_strip (rpartition_head r)). lia. }
  assert (dget r (nm_names st1) = None) as Hr1.
  { destruct (dget r (nm_names st1)) as [s|] eqn:E1; [|done]. apply Hnew1 in E1 as [E1|E1]; [congruence|].
    pose proof (length_strip (rpartition_head r)). lia. }
  pose proof (add_name_extends st1 r sp _ Hr1 eq_refl) as Hext2.
  constructor.
  - apply add_name_ok; auto. unfold r. apply strip_idem.
  - rewrite Hnamed. simpl. by rewrite dget_dset_eq.
  - by etrans.
  - intros s. rewrite Hnamed. congruence.
  - intros r' s. simpl. rewrite dget_dset. destruct (String.eqb_spec r' r) as [->|]; [by right|].
    intros H%Hnew1. pose proof (length_strip (rpartition_head r)). destruct H; [by left|right; fold r; lia].
Qed.

Lemma synthetic_spec_holds st rel : naming_ok st →
  synthetic_spec st rel (_synthetic st rel).1 (_synthetic st rel).2.
Proof.
  intros Hst. destruct (_synthetic st rel) as [st' syn] eqn:E. eapply synthetic_go_spec; [done| |apply E].
  pose proof (length_strip rel). lia.
Qed.

Lemma no_names_ok : naming_ok no_names.
Proof. by constructor. Qed.

(** Names are paths inside the root. *)
Definition inside (s : string) : bool := negb (escapes s).

Lemma inside_entry sp n : 0 ≤ n → sp = "." ∨ (sp ≠ "" ∧ inside sp = true) → inside (entry_name sp n) = true.
Proof.
  intros Hn Hsp. unfold inside, escapes, entry_name.
  pose proof (entry_no_slash n Hn) as Hd.
  destruct (String.eqb_spec sp ".") as [->|Hne].
  - by rewrite split_on_no.
  - destruct Hsp as [?|[Hne' Hin]]; [done|]. change (sp +:+ "/e" +:+ str_of_Z n) with (sp +:+ String (chr 47) ("e" +:+ str_of_Z n)).
    rewrite split_on_app, (split_on_no _ _ Hd), existsb_app by lia.
    unfold inside, escapes in Hin. destruct sp as [|c sp]; [done|]. rewrite sapp_cons.
    cbn [startswith] in Hin |- *. apply negb_true_iff, orb_false_iff in Hin as [-> ->]. done.
Qed.

Lemma names_inside st : naming_ok st → ∀ r s, dget r (nm_names st) = Some s → s ≠ "" ∧ inside s = true.
Proof.
  intros Hst. assert (∀ n r s, (String.length r ≤ n)%nat → dget r (nm_names st) = Some s → s ≠ "" ∧ inside s = true) as H;
    [|intros r s; by apply (H (String.length r))].
  induction n as [|n IH]; intros r s Hl Hs; destruct (no_place st Hst _ _ Hs) as (Hst' & Hne & Hnd & sp & k & Hsp & -> & Hk).
  - destruct r; [done|simpl in Hl; lia].
  - split; [unfold entry_name; destruct (String.eqb sp "."); [done|by destruct sp]|].
    apply inside_entry; [lia|]. unfold named, canon in Hsp. pose proof (rpartition_shorter r Hne).
    pose proof (length_strip (rpartition_head r)).
    destruct (String.eqb_spec (strip_slash (rpartition_head r)) "") as [E|E]; [left; simpl in Hsp; congruence|].
    destruct (String.eqb (strip_slash (rpartition_head r)) "."); [left; congruence|].
    right. eapply IH; [|done]. lia.
Qed.

Lemma synthetic_inside st rel : naming_ok st →
  (_synthetic st rel).2 ≠ "" ∧ inside (_synthetic st rel).2 = true.
Proof.
  intros Hst. destruct (synthetic_spec_holds st rel Hst) as [Hok Hn _ _ _]. unfold named in Hn.
  destruct (String.eqb (canon rel) "."); [by injection Hn as <-|]. by eapply names_inside.
Qed.

Lemma named_inj st a b s : naming_ok st → named st a = Some s → named st b = Some s → canon a = canon b.
Proof.
  intros Hst. assert (∀ r s, dget r (nm_names st) = Some s → s ≠ ".") as Hroot.
  { intros r t Ht. destruct (no_place st Hst _ _ Ht) as (_ & _ & _ & sp & n & _ & -> & Hn).
    apply entry_name_shape. lia. }
  unfold named. destruct (String.eqb_spec (canon a) "."), (String.eqb_spec (canon b) "."); intros Ha Hb; simplify_eq.
  - congruence.
  - by destruct (Hroot _ _ Hb).
  - by destruct (Hroot _ _ Ha).
  - by eapply (no_inj st Hst).
Qed.

Lemma named_canon st a b : canon a = canon b → named st a = named st b.
Proof. intros H. unfold named. by rewrite H. Qed.

Lemma before_last_app p c : has_char 47 c = false → before_last_slash (p +:+ String (chr 47) c) = Some p.
Proof.
  intros Hc. assert (before_last_slash c = None) as Hn.
  { induction c as [|d c IH]; [done|]. simpl in Hc |- *. apply orb_false_iff in Hc as [Hd Hc].
    rewrite IH by done. destruct (Ascii.eqb_spec d "/"); [by subst|done]. }
  induction p as [|d p IH].
  - change ("" +:+ String (chr 47) c) with (String (chr 47) c). simpl. by rewrite Hn.
  - rewrite sapp_cons. simpl. by rewrite IH.
Qed.

Lemma before_last_none c : has_char 47 c = false → before_last_slash c = None.
Proof.
  induction c as [|d c IH]; [done|]. simpl. intros [Hd Hc]%orb_false_iff.
  rewrite IH by done. destruct (Ascii.eqb_spec d "/"); [by subst|done].
Qed.

Lemma parent_entry sp n : 0 ≤ n → sp ≠ "" → parent (entry_name sp n) = sp.
Proof.
  intros Hn Hsp. unfold parent, entry_name.
  pose proof (entry_no_slash n Hn) as Hd.
  destruct (String.eqb_spec sp ".") as [->|Hne]; [by rewrite before_last_none|].
  change (sp +:+ "/e" +:+ str_of_Z n) with (sp +:+ String (chr 47) ("e" +:+ str_of_Z n)).
  rewrite before_last_app by done. by destruct (String.eqb_spec sp "").
Qed.

(** A run of the recorder names some paths in turn. *)
Definition name_all (st : naming) (rels : list string) : naming :=
  fold_left (λ st rel, (_synthetic st rel).1) rels st.

Lemma name_all_ok st rels : naming_ok st → naming_ok (name_all st rels) ∧ extends st (name_all st rels).
Proof.
  revert st. induction rels as [|r rels IH]; intros st Hst; [done|]. simpl.
  destruct (synthetic_spec_holds st r Hst) as [Hok _ Hext _ _]. destruct (IH _ Hok). split; [done|]. by etrans.
Qed.

(** The name of the entry that holds an entry. *)
Lemma named_parent st rel s : naming_ok st → canon rel ≠ "." → named st rel = Some s →
  named st (rpartition_head (canon rel)) = Some (parent s).
Proof.
  intros Hst Hc. unfold named at 1. destruct (String.eqb_spec (canon rel) "."); [done|]. intros Hs.
  destruct (no_place st Hst _ _ Hs) as (_ & _ & _ & sp & n' & Hsp & -> & Hn').
  rewrite parent_entry; [done|lia|]. intros ->. unfold named in Hsp.
  destruct (String.eqb _ "."); [done|]. by destruct (names_inside st Hst _ _ Hsp).
Qed.

(** C25: The synthetic names of a file capture say exactly what the real names
    say: whatever was named before and whatever is named in between, two paths
    get one name iff they name the same entry, the name does not change, the
    name of an entry's directory is the directory of its name, and a name never
    leaves the root. *)
Theorem synthetic_faithful (before between : list string) (a b : string) :
  let st0 := name_all no_names before in
  let '(st1, sa) := _synthetic st0 a in
  let st2 := name_all st1 between in
  let '(st3, sb) := _synthetic st2 b in
  (sa = sb ↔ canon a = canon b) ∧
  (_synthetic st3 a).2 = sa ∧
  (canon a ≠ "." → (_synthetic st3 (rpartition_head (canon a))).2 = parent sa) ∧
  inside sa = true ∧ (sa = "." ↔ canon a = ".").
Proof.
  intros st0. destruct (name_all_ok no_names before no_names_ok) as [H0 _]. fold st0 in H0.
  pose proof (synthetic_spec_holds st0 a H0) as HA. pose proof (synthetic_inside st0 a H0) as [_ HinA].
  destruct (_synthetic st0 a) as [st1 sa]. intros st2. simpl in HA, HinA.
  destruct (name_all_ok st1 between (sy_ok _ _ _ _ HA)) as [H2 Hx]. fold st2 in H2, Hx.
  pose proof (synthetic_spec_holds st2 b H2) as HB.
  destruct (_synthetic st2 b) as [st3 sb]. simpl in HB. destruct HB as [H3 HbN Hx3 _ _].
  assert (named st3 a = Some sa) as HaN.
  { eapply extends_named; [exact (transitivity Hx Hx3)|apply (sy_named _ _ _ _ HA)]. }
  assert (∀ r s, named st3 r = Some s → (_synthetic st3 r).2 = s) as Hagain.
  { intros r s Hs. destruct (synthetic_spec_holds st3 r H3) as [_ Hn Hx' _ _].
    pose proof (extends_named _ _ _ _ Hx' Hs). congruence. }
  split_and!.
  - split; [intros ->; by eapply named_inj|]. intros He. rewrite (named_canon st3 a b He) in HaN. congruence.
  - by apply Hagain.
  - intros Hc. apply Hagain. by apply named_parent.
  - done.
  - split; [|intros He; rewrite (named_root st3 a He) in HaN; congruence].
    intros ->. rewrite (named_inj st3 a "." "." H3 HaN); done.
Qed.

(** ** Object keys *)

(** [s.endswith("/")] *)
Fixpoint ends_slash (s : string) : bool :=
  match s with
  | EmptyString => false
  | String c EmptyString => code c =? 47
  | String _ s => ends_slash s
  end.

(** [[p for p in real.split("/") if p]] *)
Definition key_parts (real : string) : list string :=
  List.filter (λ p, negb (String.eqb p "")) (split_on 47 real).

Record key_naming := mkKeys {
  kn_keys : list (string * string);                       (** real key -> synthetic key *)
  kn_components : list (string * list (string * string))  (** prefix -> component -> synthetic component *)
}.

Definition no_keys : key_naming := mkKeys [] [].

(** The table of a prefix ([setdefault(prefix, {})]). *)
Definition table_of (comps : list (string * list (string * string))) (prefix : string) : list (string * string) :=
  default [] (dget prefix comps).

(** The loop over the components; [done] are those before, in order. *)
Fixpoint name_parts (comps : list (string * list (string * string))) (before parts : list string)
    : list (string * list (string * string)) * list string :=
  match parts with
  | [] => (comps, [])
  | part :: parts =>
      let prefix := py_join "/" before in
      let table := table_of comps prefix in
      let table := if dhas part table then table
                   else dset part ("k" +:+ str_of_Z (Z.of_nat (length table))) table in
      let comps := dset prefix table comps in
      let '(comps, syn) := name_parts comps (before ++ [part]) parts in
      (comps, default "" (dget part table) :: syn)
  end.

Definition _key (st : key_naming) (real : string) : key_naming * string :=
  match dget real (kn_keys st) with
  | Some syn => (st, syn)
  | None =>
      let '(comps, syn) := name_parts (kn_components st) [] (key_parts real) in
      let key := py_join "/" syn +:+ (if ends_slash real then "/" else "") in
      (mkKeys (dset real key (kn_keys st)) comps, key)
  end.

(** [_upload] *)
Definition _upload (uploads : list (string * string)) (real : string) : list (string * string) * string :=
  match dget real uploads with
  | Some syn => (uploads, syn)
  | None => let syn := "u" +:+ str_of_Z (Z.of_nat (length uploads)) in (dset real syn uploads, syn)
  end.

Example key_ex :
  let '(st, a) := _key no_keys "models/llama/0" in
  let '(st, b) := _key st "models/qwen/" in
  let '(st, c) := _key st "models/llama/1" in
  [a; b; c] = ["k0/k0/k0"; "k0/k1/"; "k0/k0/k1"].
Proof. reflexivity. Qed.

(** *** Tables that number their keys *)
Record numbered (pre : string) (t : list (string * string)) : Prop := {
  nu_keys : NoDup (keys t);
  nu_vals i k v : t !! i = Some (k, v) → v = pre +:+ str_of_Z (Z.of_nat i)
}.

Lemma dset_new {A} k (v : A) d : dhas k d = false → dset k v d = d ++ [(k, v)].
Proof.
  unfold dhas. induction d as [|[k' v'] d IH]; [done|]. simpl.
  destruct (String.eqb k k'); [done|]. intros H. by rewrite IH.
Qed.

Lemma numbered_add pre t k : numbered pre t → dhas k t = false →
  numbered pre (dset k (pre +:+ str_of_Z (Z.of_nat (length t))) t).
Proof.
  intros [Hk Hv] Hn. split; [by apply NoDup_dset|]. rewrite dset_new by done.
  intros i k' v'. rewrite lookup_app. destruct (t !! i) as [[k1 v1]|] eqn:E; [intros [= <- <-]; by eapply Hv|].
  apply lookup_ge_None in E. destruct (i - length t)%nat eqn:Ei; [|done]. intros [= <- <-].
  do 3 f_equal. lia.
Qed.

Lemma numbered_inj pre t a b v : numbered pre t → dget a t = Some v → dget b t = Some v → a = b.
Proof.
  intros [Hk Hv] Ha Hb. apply dget_Some_In, list_elem_of_lookup in Ha as [i Hi].
  apply dget_Some_In, list_elem_of_lookup in Hb as [j Hj].
  pose proof (Hv _ _ _ Hi) as Ei. rewrite (Hv _ _ _ Hj) in Ei. apply sapp_inj_l, (inj str_of_Z) in Ei.
  assert (i = j) as -> by lia. congruence.
Qed.

Lemma numbered_shape pre t a v : numbered pre t → dget a t = Some v → ∃ i, v = pre +:+ str_of_Z (Z.of_nat i).
Proof.
  intros [_ Hv] Ha. apply dget_Some_In, list_elem_of_lookup in Ha as [i Hi]. exists i. by eapply Hv.
Qed.

(** *** What the keys keep *)
Notation tables := (list (string * list (string * string))).

(** [syns] are the names of [parts] under the components [before]. *)
Fixpoint named_parts (comps : tables) (before parts syns : list string) : Prop :=
  match parts, syns with
  | [], [] => True
  | p :: ps, s :: ss => dget p (table_of comps (py_join "/" before)) = Some s ∧ named_parts comps (before ++ [p]) ps ss
  | _, _ => False
  end.

Definition tables_ok (comps : tables) : Prop := ∀ prefix, numbered "k" (table_of comps prefix).

Definition grows (comps comps' : tables) : Prop :=
  ∀ prefix p s, dget p (table_of comps prefix) = Some s → dget p (table_of comps' prefix) = Some s.

#[export] Instance grows_preorder : PreOrder grows.
Proof. split; [by intros a prefix p s|]. intros a b c H1 H2 prefix p s H. by apply H2, H1. Qed.

Lemma named_parts_grows comps comps' before parts syns :
  grows comps comps' → named_parts comps before parts syns → named_parts comps' before parts syns.
Proof.
  intros Hg. revert before syns. induction parts as [|p ps IH]; intros before [|s ss]; simpl; [done..|].
  intros [H1 H2]. split; [by apply Hg|by apply IH].
Qed.

Lemma table_of_dset comps prefix t prefix' :
  table_of (dset prefix t comps) prefix' = if String.eqb prefix' prefix then t else table_of comps prefix'.
Proof. unfold table_of. rewrite dget_dset. by destruct (String.eqb prefix' prefix). Qed.

(** Naming one component. *)
Lemma add_component comps prefix part : tables_ok comps →
  let table := table_of comps prefix in
  let table' := if dhas part table then table
                else dset part ("k" +:+ str_of_Z (Z.of_nat (length table))) table in
  tables_ok (dset prefix table' comps) ∧ grows comps (dset prefix table' comps) ∧
  ∃ s, dget part table' = Some s.
Proof.
  intros Hok table. destruct (dhas part table) eqn:E; intros table'.
  - split_and!.
    + intros prefix'. rewrite table_of_dset. destruct (String.eqb_spec prefix' prefix); apply Hok.
    + intros prefix' p s. rewrite table_of_dset. destruct (String.eqb_spec prefix' prefix); by subst.
    + unfold dhas in E. unfold table'. destruct (dget part table); [by eexists|done].
  - split_and!.
    + intros prefix'. rewrite table_of_dset. destruct (String.eqb_spec prefix' prefix); [|apply Hok].
      apply numbered_add; [apply Hok|done].
    + intros prefix' p s. rewrite table_of_dset. destruct (String.eqb_spec prefix' prefix) as [->|]; [|done].
      unfold table'. fold table. rewrite dget_dset. destruct (String.eqb_spec p part) as [->|]; [|done].
      intros Hs. unfold dhas in E. by rewrite Hs in E.
    + eexists. apply dget_dset_eq.
Qed.

Lemma name_parts_spec comps before parts comps' syns : tables_ok comps →
  name_parts comps before parts = (comps', syns) →
  tables_ok comps' ∧ grows comps comps' ∧ named_parts comps' before parts syns.
Proof.
  revert comps before comps' syns. induction parts as [|p ps IH]; intros comps before comps' syns Hok; simpl.
  - by intros [= <- <-].
  - destruct (add_component comps (py_join "/" before) p Hok) as (Hok1 & Hg1 & s & Hs).
    destruct (name_parts _ (before ++ [p]) ps) as [comps2 ss] eqn:E. intros [= <- <-].
    destruct (IH _ _ _ _ Hok1 E) as (Hok2 & Hg2 & Hn). split_and!; [done|by etrans| |done].
    apply Hg2. rewrite table_of_dset, String.eqb_refl. by rewrite Hs.
Qed.

Lemma named_take comps before p1 s1 p2 s2 i : tables_ok comps →
  named_parts comps before p1 s1 → named_parts comps before p2 s2 →
  take i s1 = take i s2 ↔ take i p1 = take i p2.
Proof.
  intros Hok. revert before p2 s1 s2 i. induction p1 as [|a p1 IH]; intros before p2 s1 s2 i H1 H2;
    destruct s1 as [|s s1], p2 as [|b p2], s2 as [|s' s2]; try done; destruct i as [|i]; try done.
  simpl. destruct H1 as [Ha H1], H2 as [Hb H2]. split; intros [= -> He].
  - assert (a = b) as -> by (eapply numbered_inj; [apply (Hok (py_join "/" before))|done..]).
    f_equal. by apply (IH _ _ _ _ i H1 H2).
  - assert (s = s') as -> by congruence. f_equal. by apply (IH _ _ _ _ i H1 H2).
Qed.

Lemma named_eq comps p1 s1 p2 s2 : tables_ok comps →
  named_parts comps [] p1 s1 → named_parts comps [] p2 s2 → s1 = s2 ↔ p1 = p2.
Proof.
  intros Hok H1 H2. pose proof (λ i, named_take comps [] p1 s1 p2 s2 i Hok H1 H2) as H.
  assert (∀ l1 l2 : list string, (∀ i, take i l1 = take i l2) → l1 = l2) as Hall.
  { intros l1 l2 Ht. specialize (Ht (length l1 + length l2)%nat). rewrite !take_ge in Ht by lia. done. }
  split; intros He; apply Hall; intros i; apply H; by subst.
Qed.

Lemma named_plain comps before parts syns : tables_ok comps → named_parts comps before parts syns →
  Forall (λ s, s ≠ "" ∧ has_char 47 s = false) syns.
Proof.
  intros Hok. revert before syns. induction parts as [|p ps IH]; intros before [|s ss]; simpl; try done.
  intros [Hs Hn]. constructor; [|by eapply IH].
  destruct (numbered_shape _ _ _ _ (Hok _) Hs) as [i ->]. split; [done|].
  apply orb_false_iff. split; [done|]. apply digits_no_char; [done|]. apply str_of_Z_digits. lia.
Qed.

Lemma split_on_join syns : syns ≠ [] → Forall (λ s, has_char 47 s = false) syns →
  split_on 47 (py_join "/" syns) = syns.
Proof.
  intros Hne Hs. induction Hs as [|s ss Hs Hss IH]; [done|]. destruct ss as [|s' ss]; [by apply split_on_no|].
  change (py_join "/" (s :: s' :: ss)) with (s +:+ String (chr 47) (py_join "/" (s' :: ss))).
  rewrite split_on_sep by (done || lia). by rewrite IH.
Qed.

Lemma ends_slash_app s t : t ≠ "" → ends_slash (s +:+ t) = ends_slash t.
Proof.
  intros Ht. induction s as [|c s IH]; [done|]. rewrite sapp_cons. simpl. rewrite IH.
  destruct (s +:+ t) eqn:E; [|done]. destruct s, t; done.
Qed.

Lemma no_slash_end s : has_char 47 s = false → ends_slash s = false.
Proof.
  induction s as [|c s IH]; [done|]. simpl. intros [Hc Hs]%orb_false_iff. destruct s; [done|by apply IH].
Qed.

Lemma ends_slash_join syns : Forall (λ s, s ≠ "" ∧ has_char 47 s = false) syns → ends_slash (py_join "/" syns) = false.
Proof.
  induction 1 as [|s ss [Hne Hs] Hss IH]; [done|]. destruct ss as [|s' ss]; [by apply no_slash_end|].
  change (py_join "/" (s :: s' :: ss)) with (s +:+ ("/" +:+ py_join "/" (s' :: ss))).
  rewrite ends_slash_app by done. rewrite ends_slash_app; [done|].
  apply Forall_cons in Hss as [[? _] _]. destruct ss, s'; done.
Qed.

(** The parts of a synthetic key are the names of the parts. *)
Lemma parts_of_key syns (b : bool) : Forall (λ s, s ≠ "" ∧ has_char 47 s = false) syns →
  key_parts (py_join "/" syns +:+ (if b then "/" else "")) = syns ∧
  ends_slash (py_join "/" syns +:+ (if b then "/" else "")) = b.
Proof.
  intros Hs. assert (List.filter (λ p, negb (String.eqb p "")) syns = syns) as Hf.
  { induction Hs as [|s ss [Hne _] _ IH]; [done|]. simpl. destruct (String.eqb_spec s ""); [done|]. simpl. by rewrite IH. }
  assert (syns ≠ [] → split_on 47 (py_join "/" syns) = syns) as Hj.
  { intros Hne. apply split_on_join; [done|]. eapply Forall_impl; [apply Hs|]. by intros ? []. }
  unfold key_parts. destruct b.
  - split; [|by rewrite ends_slash_app]. change "/" with (String (chr 47) "") at 2.
    rewrite split_on_app, List.filter_app by lia. destruct syns; [done|]. rewrite Hj by done.
    rewrite Hf. by rewrite app_nil_r.
  - rewrite sapp_nil_r. split; [|by apply ends_slash_join]. destruct syns; [done|]. by rewrite Hj.
Qed.

(** The names of [st] are those of its tables. *)
Definition key_named (st : key_naming) (real syn : string) : Prop :=
  ∃ syns, named_parts (kn_components st) [] (key_parts real) syns ∧
          syn = py_join "/" syns +:+ (if ends_slash real then "/" else "").

Record keys_ok (st : key_naming) : Prop := {
  ko_tables : tables_ok (kn_components st);
  ko_keys real syn : dget real (kn_keys st) = Some syn → key_named st real syn
}.

Lemma key_named_grows st st' real syn :
  grows (kn_components st) (kn_components st') → key_named st real syn → key_named st' real syn.
Proof. intros Hg (syns & Hn & ->). exists syns. split; [by eapply named_parts_grows|done]. Qed.

Lemma key_spec st real : keys_ok st →
  keys_ok (_key st real).1 ∧ grows (kn_components st) (kn_components (_key st real).1) ∧
  key_named (_key st real).1 real (_key st real).2.
Proof.
  intros [Ht Hk]. unfold _key. destruct (dget real (kn_keys st)) as [syn|] eqn:E.
  - split_and!; [done..|]. by apply Hk.
  - destruct (name_parts _ _ _) as [comps syns] eqn:En.
    destruct (name_parts_spec _ _ _ _ _ Ht En) as (Ht' & Hg & Hn). simpl.
    assert (key_named (mkKeys (dset real (py_join "/" syns +:+ (if ends_slash real then "/" else "")) (kn_keys st)) comps)
              real (py_join "/" syns +:+ (if ends_slash real then "/" else ""))) as Hnew by (by exists syns).
    split_and!; [|done..]. constructor; [done|]. intros r s. simpl. rewrite dget_dset.
    destruct (String.eqb_spec r real) as [->|]; [by intros [= <-]|].
    intros Hs%Hk. eapply key_named_grows; [|apply Hs]. done.
Qed.

Definition key_all (st : key_naming) (reals : list string) : key_naming :=
  fold_left (λ st real, (_key st real).1) reals st.

Lemma key_all_ok st reals : keys_ok st →
  keys_ok (key_all st reals) ∧ grows (kn_components st) (kn_components (key_all st reals)).
Proof.
  revert st. induction reals as [|r reals IH]; intros st Hst; [done|]. simpl.
  destruct (key_spec st r Hst) as (Hok & Hg & _). destruct (IH _ Hok). split; [done|]. by etrans.
Qed.

Lemma no_keys_ok : keys_ok no_keys.
Proof. constructor; [|done]. intros prefix. constructor; [constructor|done]. Qed.

(** The synthetic keys of an object capture keep the component structure of
    the real ones: whatever was named before, two keys agree on their first [i]
    components iff their synthetic keys do, for every [i]; a trailing slash
    stays; and two keys get one synthetic key iff they have the same components
    and the same trailing slash. *)
Theorem keys_faithful (before : list string) (a b : string) :
  let st0 := key_all no_keys before in
  let '(st1, sa) := _key st0 a in
  let '(st2, sb) := _key st1 b in
  (∀ i, take i (key_parts sa) = take i (key_parts sb) ↔ take i (key_parts a) = take i (key_parts b)) ∧
  length (key_parts sa) = length (key_parts a) ∧ ends_slash sa = ends_slash a ∧
  (sa = sb ↔ key_parts a = key_parts b ∧ ends_slash a = ends_slash b).
Proof.
  intros st0. destruct (key_all_ok no_keys before no_keys_ok) as [H0 _]. fold st0 in H0.
  destruct (key_spec st0 a H0) as (H1 & _ & HA). destruct (_key st0 a) as [st1 sa]. simpl in H1, HA.
  destruct (key_spec st1 b H1) as (H2 & Hg & HB). destruct (_key st1 b) as [st2 sb]. simpl in H2, Hg, HB.
  apply (key_named_grows _ st2) in HA; [|done]. destruct HA as (la & Na & ->), HB as (lb & Nb & ->).
  pose proof (ko_tables _ H2) as Ht.
  destruct (parts_of_key la (ends_slash a) (named_plain _ _ _ _ Ht Na)) as [Pa Ea].
  destruct (parts_of_key lb (ends_slash b) (named_plain _ _ _ _ Ht Nb)) as [Pb Eb].
  rewrite Pa, Pb, Ea. split_and!; [|clear -Na|done|].
  - intros i. by apply (named_take (kn_components st2) []).
  - revert Na. generalize (@nil string) as bf. generalize (key_parts a) as ps.
    induction la as [|s la IH]; intros [|p ps] bf; try done. simpl. intros [_ H]. f_equal. by eapply IH.
  - rewrite <- (named_eq _ _ _ _ _ Ht Na Nb). split; [|intros [-> Hsl]; by rewrite Hsl].
    intros He. split; [by rewrite <- Pa, <- Pb, He|by rewrite <- Ea, <- Eb, He].
Qed.

(** A listing by a prefix that ends inside a component is not kept: the prefix
    becomes a component of its own, which no synthetic key starts with. *)
Example partial_prefix_lost :
  let '(st, key) := _key no_keys "models/llama" in
  let '(st, prefix) := _key st "mod" in
  startswith "mod" "models/llama" = true ∧ startswith prefix key = false.
Proof. vm_compute. done. Qed.

(** A prefix without its slash matches more synthetic keys than real ones. *)
Example wide_prefix_gained :
  let st := key_all no_keys ["a"; "b"; "c"; "d"; "e"; "f"; "g"; "h"; "i"; "j"; "k"] in
  startswith "b" "k" = false ∧ startswith (_key st "b").2 (_key st "k").2 = true.
Proof. vm_compute. done. Qed.
