(* ===== verification/RecordFS.v ===== *)
(** * File captures ([tools/kvio/posix_fs.py])

    [RecordingFS] performs an application's file operations and records each of
    them under synthetic names; [normalize_posix_capture] turns the recorded
    lines into a typed workload and a timing sidecar.

    What the operating system does is an argument of each call: the answer of
    the system call (its value or its errno), the resolved path, the directory
    walk of the snapshot and the two clock readings.  The recorder's state and
    every record it writes are computed as in the code.  The log keeps the
    records; the file is their text. *)

From stdpp Require Import prelude strings list numbers gmap sorting.
From Stdlib Require Import ZArith Lia Ascii.
From S2P Require Import Prelude PyText PyJson JsonText Intent2 Workload3 FakeFS CaptureEvents Naming.
Local Open Scope Z_scope.

(** ** Results *)
Definition ERRNO_OUTCOME : list (Z * string) :=
  [(ENOENT, "miss"); (EEXIST, "exists"); (ENOTEMPTY, "not_empty"); (13, "denied"); (1, "denied");
   (20, "error"); (21, "error"); (EBADF, "error")].

Definition outcome_of_oserror (errno : Z) : string :=
  match List.find (λ kv, kv.1 =? errno) ERRNO_OUTCOME with Some kv => kv.2 | None => "error" end.

Definition as_dict (r : Result) : json :=
  JObj [("outcome", JStr (rs_outcome r)); ("errno", JInt (rs_errno r)); ("bytes", JInt (rs_bytes r));
        ("meta", JObj (rs_meta r)); ("handle", default JNull (rs_handle r))].

(** The result of a call that raised: [Result(oc, en)]. *)
Definition failure (errno : Z) : Result := result (outcome_of_oserror errno) errno 0 [].

(** ** The recorder *)

(** What the recorder reads of an [os.stat_result]. *)
Record stat := mkStat { st_dev : Z; st_ino : Z; st_isdir : bool; st_size : Z }.

(** A system call returns or raises [OSError]. *)
Inductive answer (A : Type) := Gave (a : A) | Failed (errno : Z).
Arguments Gave {A} a.
Arguments Failed {A} errno.

Definition oserror {A} : res A := Raise (Exn OSError "{e}").

Record RecordingFS := mkRec {
  rc_stream : string; rc_seq : Z;
  rc_handles : gmap Z string;               (** fd -> handle id *)
  rc_naming : naming;
  rc_nodes : gmap (Z * Z) string;           (** (dev, ino) -> node id *)
  rc_incarnations : gmap (Z * Z) Z;
  rc_mapping : list (string * (Z * Z * Z)); (** node id -> dev, ino, incarnation *)
  rc_log : list dict
}.

Definition set_naming (r : RecordingFS) (n : naming) : RecordingFS :=
  mkRec (rc_stream r) (rc_seq r) (rc_handles r) n (rc_nodes r) (rc_incarnations r) (rc_mapping r) (rc_log r).
Definition set_handles (r : RecordingFS) (h : gmap Z string) : RecordingFS :=
  mkRec (rc_stream r) (rc_seq r) h (rc_naming r) (rc_nodes r) (rc_incarnations r) (rc_mapping r) (rc_log r).

(** [_synthetic], on the recorder. *)
Definition synthetic (r : RecordingFS) (rel : string) : RecordingFS * string :=
  let '(n, syn) := _synthetic (rc_naming r) rel in (set_naming r n, syn).

Definition _node (r : RecordingFS) (st : stat) : RecordingFS * string :=
  let key := (st_dev st, st_ino st) in
  match rc_nodes r !! key with
  | Some nid => (r, nid)
  | None =>
      let inc := default 0 (rc_incarnations r !! key) + 1 in
      let nid := "n" +:+ str_of_Z (Z.of_nat (size (rc_nodes r))) in
      (mkRec (rc_stream r) (rc_seq r) (rc_handles r) (rc_naming r) (<[ key := nid ]> (rc_nodes r))
         (<[ key := inc ]> (rc_incarnations r)) (dset nid (st_dev st, st_ino st, inc) (rc_mapping r)) (rc_log r),
       nid)
  end.

(** [_rel], on the components of the root and of the resolved path. *)
Definition _rel (root p : list string) : res string :=
  raise_unless (bool_decide (root `prefix_of` p)) (Exn ValueError "path escapes the application root: {path}") ;;
  Ok (match drop (length root) p with [] => "." | l => py_join "/" l end).

Definition _put (r : RecordingFS) (rec : dict) : RecordingFS :=
  let s := rc_seq r + 1 in
  mkRec (rc_stream r) s (rc_handles r) (rc_naming r) (rc_nodes r) (rc_incarnations r) (rc_mapping r)
    (rc_log r ++ [dset "producer_seq" (JInt s) rec]).

(** The record of a call between two clock readings. *)
Record op_rec := mkOp { or_call : string; or_args : dict; or_begin : Z; or_end : Z; or_result : Result }.

Definition op_event (stream : string) (o : op_rec) : dict :=
  [("ev", JStr "op"); ("call", JStr (or_call o)); ("args", JObj (or_args o)); ("begin_ns", JInt (or_begin o));
   ("end_ns", JInt (or_end o)); ("result", as_dict (or_result o)); ("stream", JStr stream); ("deps", JList [])].

Definition _record (r : RecordingFS) (call : string) (args : dict) (t : Z * Z) (res : Result) : RecordingFS :=
  _put r (op_event (rc_stream r) (mkOp call args t.1 t.2 res)).

(** [f"{..}"] of [self._handles.get(fd)] in the arguments of a call. *)
Definition handle_of (r : RecordingFS) (fd : Z) : json := from_option JStr JNull (rc_handles r !! fd).

(** *** The calls *)
Section calls.
Variable root : list string.

(** [f"h{len(self._handles)}{fd}-{self._seq}"] *)
Definition handle_id (r : RecordingFS) (fd : Z) : string :=
  "h" +:+ str_of_Z (Z.of_nat (size (rc_handles r))) +:+ str_of_Z fd +:+ "-" +:+ str_of_Z (rc_seq r).

(** The answer: the descriptor and its [fstat]. *)
Definition rec_open (r : RecordingFS) (p : list string) (flags : list string) (t : Z * Z)
    (ans : answer (Z * stat)) : RecordingFS * res Z :=
  match _rel root p with
  | Raise e => (r, Raise e)
  | Ok rel =>
      if negb (forallb (λ f, bool_decide (f ∈ OPEN_FLAGS)) flags) then (r, Raise (Exn KeyError "{f}")) else
      match ans with
      | Failed en =>
          let '(r, syn) := synthetic r rel in
          (_record r "open" [("path", JStr syn); ("flags", JList (map JStr flags)); ("handle", JNull)] t (failure en),
           oserror)
      | Gave (fd, st) =>
          let hid := handle_id r fd in
          let r := set_handles r (<[ fd := hid ]> (rc_handles r)) in
          let '(r, nid) := _node r st in
          let '(r, syn) := synthetic r rel in
          (_record r "open" [("path", JStr syn); ("flags", JList (map JStr flags)); ("handle", JStr hid)] t
             (mkResult "success" 0 0 [("node", JStr nid); ("size", JInt (st_size st))] (Some (JStr hid))),
           Ok fd)
      end
  end.

Definition rec_close (r : RecordingFS) (fd : Z) (t : Z * Z) (ans : answer unit) : RecordingFS * res unit :=
  let hid := handle_of r fd in
  let r := set_handles r (delete fd (rc_handles r)) in
  match ans with
  | Failed en => (_record r "close" [("handle", hid)] t (failure en), oserror)
  | Gave _ => (_record r "close" [("handle", hid)] t success, Ok tt)
  end.

(** [n] bytes were written of the [len] given. *)
Definition rec_pwrite (r : RecordingFS) (fd : Z) (len : nat) (offset : Z) (t : Z * Z) (ans : answer Z)
    : RecordingFS * res Z :=
  let args := [("handle", handle_of r fd); ("offset", JInt offset); ("length", JInt (Z.of_nat len))] in
  match ans with
  | Failed en => (_record r "pwrite" args t (failure en), oserror)
  | Gave n => (_record r "pwrite" args t (result (if n =? Z.of_nat len then "success" else "short") 0 n []), Ok n)
  end.

(** [n] bytes were read. *)
Definition rec_pread (r : RecordingFS) (fd : Z) (len offset : Z) (t : Z * Z) (ans : answer nat)
    : RecordingFS * res nat :=
  let args := [("handle", handle_of r fd); ("offset", JInt offset); ("length", JInt len)] in
  match ans with
  | Failed en => (_record r "pread" args t (failure en), oserror)
  | Gave n => (_record r "pread" args t (result (if Z.of_nat n =? len then "success" else "eof") 0 (Z.of_nat n) []), Ok n)
  end.

(** The calls without a [try]: a failure leaves no record. *)
Definition rec_write (r : RecordingFS) (fd : Z) (len : nat) (t : Z * Z) (ans : answer Z) : RecordingFS * res Z :=
  match ans with
  | Failed _ => (r, oserror)
  | Gave n => (_record r "write" [("handle", handle_of r fd); ("length", JInt (Z.of_nat len))] t
                 (result (if n =? Z.of_nat len then "success" else "short") 0 n []), Ok n)
  end.

Definition rec_read (r : RecordingFS) (fd len : Z) (t : Z * Z) (ans : answer nat) : RecordingFS * res nat :=
  match ans with
  | Failed _ => (r, oserror)
  | Gave n => (_record r "read" [("handle", handle_of r fd); ("length", JInt len)] t
                 (result (if Z.of_nat n =? len then "success" else "eof") 0 (Z.of_nat n) []), Ok n)
  end.

Definition rec_fstat (r : RecordingFS) (fd : Z) (t : Z * Z) (ans : answer stat) : RecordingFS * res stat :=
  match ans with
  | Failed _ => (r, oserror)
  | Gave st =>
      let h := handle_of r fd in
      let '(r, nid) := _node r st in
      (_record r "fstat" [("handle", h)] t (result "success" 0 0 [("size", JInt (st_size st)); ("node", JStr nid)]), Ok st)
  end.

Definition rec_stat (r : RecordingFS) (p : list string) (t : Z * Z) (ans : answer stat) : RecordingFS * res stat :=
  match _rel root p with
  | Raise e => (r, Raise e)
  | Ok rel =>
      let '(r, syn) := synthetic r rel in
      match ans with
      | Failed en => (_record r "stat" [("path", JStr syn)] t (failure en), oserror)
      | Gave st =>
          let '(r, nid) := _node r st in
          (_record r "stat" [("path", JStr syn)] t (result "success" 0 0 [("size", JInt (st_size st)); ("node", JStr nid)]),
           Ok st)
      end
  end.

Definition rec_readdir (r : RecordingFS) (p : list string) (t : Z * Z) (ans : answer (list string))
    : RecordingFS * res (list string) :=
  match _rel root p with
  | Raise e => (r, Raise e)
  | Ok rel =>
      let '(r, syn) := synthetic r rel in
      match ans with
      | Failed en => (_record r "readdir" [("path", JStr syn)] t (failure en), oserror)
      | Gave names => (_record r "readdir" [("path", JStr syn)] t
                         (result "success" 0 0 [("count", JInt (Z.of_nat (length names)))]),
                       Ok (stable_sort String.le names))
      end
  end.

Definition rec_rename (r : RecordingFS) (a b : list string) (t : Z * Z) (ans : answer unit) : RecordingFS * res unit :=
  match _rel root a, _rel root b with
  | Raise e, _ | _, Raise e => (r, Raise e)
  | Ok ra, Ok rb =>
      let '(r, sa) := synthetic r ra in
      let '(r, sb) := synthetic r rb in
      let args := [("path", JStr sa); ("new_path", JStr sb)] in
      match ans with
      | Failed en => (_record r "rename" args t (failure en), oserror)
      | Gave _ => (_record r "rename" args t success, Ok tt)
      end
  end.

Definition _one_path (r : RecordingFS) (call : string) (p : list string) (extra : dict) (t : Z * Z) (ans : answer unit)
    : RecordingFS * res unit :=
  match _rel root p with
  | Raise e => (r, Raise e)
  | Ok rel =>
      let '(r, syn) := synthetic r rel in
      let args := ("path", JStr syn) :: extra in
      match ans with
      | Failed en => (_record r call args t (failure en), oserror)
      | Gave _ => (_record r call args t success, Ok tt)
      end
  end.

(** [ftruncate], [fsync] and [fdatasync]: no [try] either. *)
Definition rec_fd (r : RecordingFS) (call : string) (fd : Z) (extra : dict) (t : Z * Z) (ans : answer unit)
    : RecordingFS * res unit :=
  match ans with
  | Failed _ => (r, oserror)
  | Gave _ => (_record r call (("handle", handle_of r fd) :: extra) t success, Ok tt)
  end.

(** What an application can ask of the recorder, with the system's answer. *)
Inductive fs_call :=
  | COpen (p flags : list string) (ans : answer (Z * stat))
  | CClose (fd : Z) (ans : answer unit)
  | CPwrite (fd : Z) (len : nat) (offset : Z) (ans : answer Z)
  | CPread (fd len offset : Z) (ans : answer nat)
  | CWrite (fd : Z) (len : nat) (ans : answer Z)
  | CRead (fd len : Z) (ans : answer nat)
  | CFstat (fd : Z) (ans : answer stat)
  | CStat (p : list string) (ans : answer stat)
  | CReaddir (p : list string) (ans : answer (list string))
  | CRename (a b : list string) (ans : answer unit)
  | CUnlink (p : list string) (ans : answer unit)
  | CMkdir (p : list string) (ans : answer unit)
  | CRmdir (p : list string) (ans : answer unit)
  | CTruncate (p : list string) (size : Z) (ans : answer unit)
  | CFtruncate (fd size : Z) (ans : answer unit)
  | CFsync (fd : Z) (ans : answer unit)
  | CFdatasync (fd : Z) (ans : answer unit).

Definition do_call (r : RecordingFS) (tc : (Z * Z) * fs_call) : RecordingFS :=
  let t := tc.1 in
  match tc.2 with
  | COpen p flags ans => (rec_open r p flags t ans).1
  | CClose fd ans => (rec_close r fd t ans).1
  | CPwrite fd len offset ans => (rec_pwrite r fd len offset t ans).1
  | CPread fd len offset ans => (rec_pread r fd len offset t ans).1
  | CWrite fd len ans => (rec_write r fd len t ans).1
  | CRead fd len ans => (rec_read r fd len t ans).1
  | CFstat fd ans => (rec_fstat r fd t ans).1
  | CStat p ans => (rec_stat r p t ans).1
  | CReaddir p ans => (rec_readdir r p t ans).1
  | CRename a b ans => (rec_rename r a b t ans).1
  | CUnlink p ans => (_one_path r "unlink" p [] t ans).1
  | CMkdir p ans => (_one_path r "mkdir" p [] t ans).1
  | CRmdir p ans => (_one_path r "rmdir" p [] t ans).1
  | CTruncate p size ans => (_one_path r "truncate" p [("size", JInt size)] t ans).1
  | CFtruncate fd size ans => (rec_fd r "ftruncate" fd [("size", JInt size)] t ans).1
  | CFsync fd ans => (rec_fd r "fsync" fd [] t ans).1
  | CFdatasync fd ans => (rec_fd r "fdatasync" fd [] t ans).1
  end.
End calls.

(** *** The snapshot and the two ends of a capture *)

(** One directory of [os.walk], by its path below the root ([.] for the root). *)
Record walked := mkWalked { wk_dir : string; wk_dirs : list string; wk_files : list string }.

(** [os.path.relpath(os.path.join(dirpath, name), root)] *)
Definition child_path (dir name : string) : string :=
  if String.eqb dir "." then name else dir +:+ "/" +:+ name.

(** The entries in the order the snapshot visits them. *)
Definition walk_paths (walk : list walked) : list string :=
  mjoin (map (λ w, map (child_path (wk_dir w)) (stable_sort String.le (wk_dirs w) ++ stable_sort String.le (wk_files w))) walk).

Definition snapshot_node (st : stat) : json :=
  JObj [("kind", JStr (if st_isdir st then "dir" else "file")); ("size", JInt (if st_isdir st then 0 else st_size st));
        ("incarnation", JInt 1)].

(** One entry: the recorder, the nodes and the entries so far. *)
Definition snapshot_entry (lstat : string → stat) (acc : RecordingFS * dict * list json) (rel : string)
    : RecordingFS * dict * list json :=
  let '(r, nodes, entries) := acc in
  let st := lstat rel in
  let '(r, nid) := _node r st in
  let '(r, syn) := synthetic r rel in
  (r, dset nid (snapshot_node st) nodes, entries ++ [JObj [("path", JStr syn); ("node", JStr nid)]]).

Definition _snapshot (r : RecordingFS) (walk : list walked) (lstat : string → stat) : RecordingFS :=
  let '(r, nodes, entries) := fold_left (snapshot_entry lstat) (walk_paths walk) (r, [], []) in
  _put r [("ev", JStr "namespace"); ("nodes", JObj nodes); ("entries", JList entries)].

Definition CAPTURE_SCHEMA : string := "kvio.posix-capture.v1".

Definition start_event (stream root_digest : string) : dict :=
  [("ev", JStr "start"); ("schema", JStr CAPTURE_SCHEMA); ("stream", JStr stream);
   ("clock", JObj [("domain", JStr "CLOCK_MONOTONIC"); ("unit", JStr "ns")]); ("root_digest", JStr root_digest)].

(** [RecordingFS.__init__] *)
Definition new_recorder (stream root_digest : string) (walk : list walked) (lstat : string → stat) : RecordingFS :=
  let r := mkRec stream 0 ∅ no_names ∅ ∅ [] [] in
  _snapshot (_put r (start_event stream root_digest)) walk lstat.

Definition open_handles (r : RecordingFS) : list string := stable_sort String.le (map_to_list (rc_handles r)).*2.

Definition close_capture (r : RecordingFS) : RecordingFS :=
  _put r [("ev", JStr "end"); ("open_handles", JList (map JStr (open_handles r)))].

(** The lines of the file. *)
Definition capture_lines (r : RecordingFS) : list string := map (λ rec, dumps Spaced (JObj rec) +:+ LF) (rc_log r).

(** ** Normalizing *)

(** [[json.loads(l) for l in f if l.strip()]] *)
Definition parse_lines (lines : list string) : res (list json) :=
  mapMR loads (List.filter (λ l, negb (String.eqb (strip l) "")) lines).

(** [next((e for e in events if e.get("ev") == kind), None)] *)
Fixpoint next_event (kind : string) (events : list json) : res (option json) :=
  match events with
  | [] => Ok None
  | e :: events => ev ← get e "ev"; if eq_str ev kind then Ok (Some e) else next_event kind events
  end.

(** [len(v)] *)
Definition py_len (v : json) : res Z :=
  match v with
  | JStr s => Ok (Z.of_nat (String.length s))
  | JList l => Ok (Z.of_nat (length l))
  | JObj d => Ok (Z.of_nat (length d))
  | _ => Raise (Exn TypeError "object has no len()")
  end.

Definition capture_notes (events : list json) : res (list json) :=
  e ← next_event "end" events;
  match e with
  | None => Ok [JStr "no end marker: the capture did not close"]
  | Some e =>
      h ← get e "open_handles";
      if py_true h then (n ← py_len h; Ok [JStr (str_of_Z n +:+ " handles still open at capture end")]) else Ok []
  end.

(** [dict(v)]: a dictionary, or pairs whose first parts become the keys.  A key
    that is not a string is refused here; the code refuses it, with the same
    class of exception, where the dictionary becomes keyword arguments. *)
Definition pair_of (v : json) : res (string * json) :=
  l ← iterate v;
  match l with
  | [JStr k; x] => Ok (k, x)
  | [_; _] => Raise (Exn TypeError "keywords must be strings")
  | _ => Raise (Exn ValueError "dictionary update sequence element has length {}; 2 is required")
  end.

Definition py_dict (v : json) : res dict :=
  match v with
  | JObj d => Ok d
  | _ => l ← iterate v; ps ← mapMR pair_of l; Ok (fold_left (λ d kv, dset kv.1 kv.2 d) ps [])
  end.

(** The names that [add_op] takes besides its fields: those every caller here
    gives, and those it leaves to their defaults. *)
Definition GIVEN : list string :=
  ["wl"; "op_id"; "family"; "call"; "stream"; "deps"; "release_ns"; "expected"].
Definition DEFAULTED : list string := ["declared_delay_ns"; "attempt"; "batch_id"].

(** [add_op(wl, op_id=.., family=.., call=.., stream=.., deps=.., release_ns=.., expected=.., **args)] *)
Definition add_captured_op (wl : dict) (op_id family : string) (call stream : json) (deps : list json)
    (release : json) (expected args : dict) : res dict :=
  raise_if (existsb (λ k, dhas k args) GIVEN) (Exn TypeError "got multiple values for keyword argument") ;;
  match call with
  | JStr c =>
      add_op wl (JStr op_id) family c stream deps release (getd args "declared_delay_ns") expected
        (default (JInt 1) (dget "attempt" args)) (getd args "batch_id")
        (List.filter (λ kv, negb (bool_decide (kv.1 ∈ DEFAULTED))) args)
  | JList _ | JObj _ => unhashable
  | _ => Raise (w3err "unknown call {family}.{call}")
  end.

Record norm_state := mkNorm {
  ns_wl : dict; ns_prev : list (hkey * string); ns_n : Z; ns_sidecar : list json
}.

(** [wl["operations"][-1]["args"]["handle"] = ..; ["expected"]["no_handle"] = True] *)
Definition mark_failed_open (op_id : string) (op : json) : res json :=
  match op with
  | JObj o =>
      args ← dict_at o "args"; exp ← dict_at o "expected";
      Ok (JObj (dset "expected" (JObj (dset "no_handle" (JBool true) exp))
                 (dset "args" (JObj (dset "handle" (JStr ("failed-" +:+ op_id)) args)) o)))
  | _ => Raise (Exn TypeError "object does not support item assignment")
  end.

Definition update_last_op (f : json → res json) (wl : dict) : res dict :=
  ops ← list_at wl "operations";
  match last ops with
  | Some op => op' ← f op; Ok (dset "operations" (JList (removelast ops ++ [op'])) wl)
  | None => Raise (Exn IndexError "list index out of range")
  end.

(** The expected outcome that a result becomes. *)
Definition expected_of (r : json) : res dict :=
  oc ← item r "outcome"; b ← get r "bytes"; meta ← get_default r "meta" (JObj []);
  node ← get meta "node"; count ← get meta "count";
  Ok ([("outcome", oc)] ++ (if py_true b then [("bytes", b)] else []) ++
      (if py_true node then [("node", node)] else []) ++ (if is_none count then [] else [("count", count)])).

Definition normalize_event (st : norm_state) (e : json) : res norm_state :=
  ev ← get e "ev";
  if negb (eq_str ev "op") then Ok st else
  let n := ns_n st + 1 in
  let op_id := "p" +:+ str_of_Z n in
  stream ← item e "stream"; k ← hkey_of stream;
  let deps := match hget k (ns_prev st) with
              | Some p => [JObj [("op", JStr p); ("kind", JStr "program")]]
              | None => []
              end in
  args ← (a ← item e "args"; py_dict a);
  result ← item e "result";
  call ← item e "call";
  let args := if eq_str call "open" && is_none (getd args "handle")
              then dset "handle" (JStr ("failed-" +:+ op_id)) args else args in
  exp ← expected_of result;
  release ← item e "begin_ns";
  wl ← add_captured_op (ns_wl st) op_id "posix" call stream deps release exp args;
  outcome ← item result "outcome";
  wl ← (if eq_str call "open" && negb (eq_str outcome "success")
        then update_last_op (mark_failed_open op_id) wl else Ok wl);
  end_ns ← item e "end_ns"; errno ← get_default result "errno" (JInt 0); b ← get_default result "bytes" (JInt 0);
  Ok (mkNorm wl (hset k op_id (ns_prev st)) n
        (ns_sidecar st ++ [JObj [("op_id", JStr op_id); ("begin_ns", release); ("end_ns", end_ns);
                                 ("outcome", outcome); ("errno", errno); ("bytes", b)]])).

Definition relax_op (op : json) : res json :=
  fam ← item op "family"; call ← item op "call";
  if eq_str fam "posix" && eq_str call "open" then
    exp ← item op "expected"; nh ← get exp "no_handle";
    if py_true nh then
      match op with
      | JObj o => args ← dict_at o "args"; id ← item op "op_id";
                  Ok (JObj (dset "args" (JObj (dset "handle" (JStr ("failed-" +:+ py_str id)) args)) o))
      | _ => Raise (Exn TypeError "object does not support item assignment")
      end
    else Ok op
  else Ok op.

Definition _relax_failed_opens (wl : dict) : res dict :=
  ops ← list_at wl "operations"; ops' ← mapMR relax_op ops; Ok (dset "operations" (JList ops') wl).

(** The nodes and the entries of the namespace event. *)
Definition add_captured_node (wl : dict) (kv : string * json) : res dict :=
  kind ← item kv.2 "kind"; inc ← get_default kv.2 "incarnation" (JInt 1); size ← get_default kv.2 "size" (JInt 0);
  add_node wl kv.1 kind inc size "storage".

Definition add_captured_entry (wl : dict) (e : json) : res dict :=
  p ← item e "path"; n ← item e "node"; add_entry wl p n.

Definition add_captured_namespace (wl : dict) (events : list json) : res dict :=
  ns ← next_event "namespace" events;
  let ns := default (JObj [("nodes", JObj []); ("entries", JList [])]) ns in
  nodes ← (v ← item ns "nodes"; match v with JObj d => Ok d | _ => no_attribute end);
  wl ← foldM add_captured_node wl nodes;
  entries ← (v ← item ns "entries"; iterate v);
  foldM add_captured_entry wl entries.

Definition POSIX_ENGINE : dict :=
  [("family", JStr "posix"); ("name", JStr "application-in-process"); ("revision", JStr "unknown")].

(** [engine or {...}] *)
Definition engine_or (engine : option dict) (dflt : dict) : dict :=
  match engine with None | Some [] => dflt | Some d => d end.

Section normalize.
(** [hashlib.sha256(data).hexdigest()] *)
Context (sha256 : string → string).

Definition normalize_posix_capture (lines : list string) (engine : option dict) : res (json * string) :=
  events ← parse_lines lines;
  match events with
  | [] => Raise (w3err "capture must begin with a start event")
  | start :: _ =>
      ev ← get start "ev";
      raise_unless (eq_str ev "start") (w3err "capture must begin with a start event") ;;
      notes ← capture_notes events;
      schema ← get start "schema"; digest ← get start "root_digest";
      wl ← new_workload (JStr "api") (JStr "declared") (JStr "captured") (JStr "observed_submission")
             (engine_or engine POSIX_ENGINE) (JStr (match notes with [] => "complete" | _ => "partial" end))
             (JList notes) (JObj [("schema", schema); ("root_digest", digest)]) "incompressible";
      wl ← add_captured_namespace wl events;
      st ← foldM normalize_event (mkNorm wl [] 0 []) events;
      let side := sidecar_text (ns_sidecar st) in
      let wl := dset "timing" (JObj [("sidecar", JStr "timing.jsonl"); ("sidecar_sha256", JStr (sha256 side))]) (ns_wl st) in
      let wl := dset "health" (JObj [("events", JInt (Z.of_nat (length events))); ("operations", JInt (ns_n st))]) wl in
      wl ← _relax_failed_opens wl;
      validate_workload (JObj wl) ;;
      Ok (JObj wl, side)
  end.
End normalize.
