(* ===== verification/CaptureDoc.v ===== *)
(** * Captured documents

    What the normalizers of file and object captures share: records that are
    written to a file and read back, the document they build operation by
    operation, and the conditions under which the validator accepts it. *)

From stdpp Require Import prelude strings list numbers gmap sorting.
From Stdlib Require Import ZArith Lia Ascii.
From S2P Require Import Prelude PyText PyJson JsonText Intent Intent2 Workload3 FakeFS CaptureEvents Naming RecordFS.
Local Open Scope Z_scope.

(** Decide a closed proposition, such as membership in a list of names. *)
Ltac name_in := apply (bool_decide_unpack _); vm_compute; exact I.

(** ** Records in a file *)

(** A value that is written and read back as it is. *)
Definition plain (v : json) : Prop := sort_keys v = v ∧ float_free v = true ∧ json_wf v.

Definition plain_fields (d : dict) : Prop := NoDup (keys d) ∧ Forall (λ kv, plain kv.2) d.

Lemma plain_str s : plain (JStr s).
Proof. done. Qed.
Lemma plain_int z : plain (JInt z).
Proof. done. Qed.
Lemma plain_null : plain JNull.
Proof. done. Qed.
Lemma plain_strs l : plain (JList (map JStr l)).
Proof.
  induction l as [|s l (H1 & H2 & H3)]; [done|]. injection H1 as H1.
  split_and!; [simpl; by rewrite H1|done|by split].
Qed.

#[export] Hint Resolve plain_str plain_int plain_null plain_strs : kvio.

(** Each element of a list that is written out. *)
Ltac each tac := cbn [fst snd map keys]; repeat (constructor; [solve [cbn [fst snd dget String.eqb Ascii.eqb Bool.eqb from_option]; tac]|]); constructor.

Lemma json_wf_fields d : NoDup (keys d) → Forall (λ kv, json_wf kv.2) d → json_wf (JObj d).
Proof. intros. by apply json_wf_obj. Qed.

Lemma plain_wf d : plain_fields d → json_wf (JObj d) ∧ float_free (JObj d) = true.
Proof.
  intros [Hk Hp]. split.
  - apply json_wf_obj. split; [done|]. eapply Forall_impl; [apply Hp|]. by intros kv (? & ? & ?).
  - simpl. apply forallb_forall. intros kv Hin%list_elem_of_In. rewrite Forall_forall in Hp.
    by destruct (Hp _ Hin) as (? & ? & ?).
Qed.

(** Fields read back from their sorted text. *)
Lemma dget_plain d k : plain_fields d → dget k (sorted_fields d) = dget k d.
Proof.
  intros [Hk Hp]. rewrite dget_sorted_fields by done. destruct (dget k d) as [v|] eqn:E; [|done]. simpl.
  rewrite Forall_forall in Hp. apply dget_Some_In in E. destruct (Hp _ E) as [Hv _]. simpl in Hv. by rewrite Hv.
Qed.


(** The lines of a file of records. *)
Lemma parse_records (log : list dict) :
  Forall (λ rec, json_wf (JObj rec) ∧ float_free (JObj rec) = true) log →
  parse_lines (map (λ rec, dumps Spaced (JObj rec) +:+ LF) log) = Ok (map (λ rec, JObj (sorted_fields rec)) log).
Proof.
  intros H. unfold parse_lines.
  assert (List.filter (λ l, negb (String.eqb (strip l) "")) (map (λ rec, dumps Spaced (JObj rec) +:+ LF) log) =
          map (λ rec, dumps Spaced (JObj rec) +:+ LF) log) as ->.
  { clear H. induction log as [|rec log IH]; [done|]. cbn [map List.filter].
    destruct (String.eqb_spec (strip (dumps Spaced (JObj rec) +:+ LF)) "") as [E|E]; [|cbn [negb]; by rewrite IH].
    by destruct (dumps_line_strip Spaced rec). }
  induction H as [|rec log [Hw Hf] _ IH]; [done|]. cbn [map mapMR]. rewrite (loads_line Spaced rec Hf Hw).
  cbn [mbind res_bind]. rewrite IH. done.
Qed.

(** A field of a record that was read back. *)
Lemma item_sorted d k v : NoDup (keys d) → dget k d = Some v → item (JObj (sorted_fields d)) k = Ok (sort_keys v).
Proof. intros Hd Hk. simpl. by rewrite dget_sorted_fields, Hk. Qed.

Lemma get_sorted d k : NoDup (keys d) → get (JObj (sorted_fields d)) k = Ok (default JNull (sort_keys <$> dget k d)).
Proof. intros Hd. simpl. unfold getd. by rewrite dget_sorted_fields. Qed.

Lemma get_default_sorted d k v : NoDup (keys d) →
  get_default (JObj (sorted_fields d)) k v = Ok (default v (sort_keys <$> dget k d)).
Proof. intros Hd. simpl. by rewrite dget_sorted_fields. Qed.

(** ** The document *)
Definition captured_doc (provenance engine : json) (nodes : dict) (entries ops : list json) (health timing : json) : dict :=
  [("schema", JStr SCHEMA3); ("provenance", provenance); ("engine", engine); ("content_profile", JStr "incompressible");
   ("namespace", JObj [("nodes", JObj nodes); ("entries", JList entries); ("handles", JObj [])]);
   ("objects", JObj []); ("operations", JList ops); ("health", health); ("timing", timing)].

Lemma doc_operations prov eng nodes entries ops h tm :
  list_at (captured_doc prov eng nodes entries ops h tm) "operations" = Ok ops.
Proof. done. Qed.

Lemma doc_set_operations prov eng nodes entries ops ops' h tm :
  dset "operations" (JList ops') (captured_doc prov eng nodes entries ops h tm) =
  captured_doc prov eng nodes entries ops' h tm.
Proof. done. Qed.

Definition no_timing : json := JObj [("sidecar", JNull); ("sidecar_sha256", JNull)].

Definition captured_provenance (notes : list json) (source : dict) : json :=
  JObj [("capture_level", JStr "api"); ("mapping_method", JStr "declared");
        ("completeness", JObj [("status", JStr (match notes with [] => "complete" | _ => "partial" end)); ("notes", JList notes)]);
        ("timing_model", JStr "captured"); ("release_provenance", JStr "observed_submission"); ("source", JObj source)].

(** The engine of the document: its three names and its configuration. *)
Definition engine_names (eng : dict) : list json :=
  map (λ k, default (JStr "unknown") (dget k eng)) ["family"; "name"; "revision"].
Definition engine_config (eng : dict) : json := default (JObj []) (dget "config" eng).
Definition engine_ok (eng : dict) : bool :=
  forallb (λ v, is_str v && py_true v) (engine_names eng) && is_dict (engine_config eng).
Definition engine_json (eng : dict) : json :=
  JObj [("family", default (JStr "unknown") (dget "family" eng)); ("name", default (JStr "unknown") (dget "name" eng));
        ("revision", default (JStr "unknown") (dget "revision" eng)); ("config", engine_config eng)].

Lemma new_captured eng notes source : engine_ok eng = true → source ≠ [] →
  new_workload (JStr "api") (JStr "declared") (JStr "captured") (JStr "observed_submission") eng
    (JStr (match notes with [] => "complete" | _ => "partial" end)) (JList notes) (JObj source) "incompressible" =
  Ok (captured_doc (captured_provenance notes source) (engine_json eng) [] [] [] (JObj []) no_timing).
Proof.
  intros [_ Hc]%andb_true_iff Hs. unfold new_workload, engine_json.
  assert (list_or (JList notes) = Ok notes) as -> by (by destruct notes).
  assert (dict_or (JObj source) = Ok source) as -> by (by destruct source).
  cbn [mbind res_bind]. unfold engine_config in *. by destruct (default (JObj []) (dget "config" eng)).
Qed.

(** The operation that a recorded call becomes. *)
Definition captured_op (op_id family call : string) (i : nat) (args : dict) (stream : json) (deps : list json)
    (release : Z) (expected : dict) : json :=
  JObj [("op_id", JStr op_id); ("seq", JInt (Z.of_nat i)); ("family", JStr family); ("call", JStr call);
        ("args", JObj args); ("stream", stream); ("batch_id", JNull); ("attempt", JInt 1); ("deps", JList deps);
        ("release_ns", JInt release); ("declared_delay_ns", JNull); ("expected", JObj expected)].

(** The arguments of a call do not collide with the names of [add_op]. *)
Definition own_args (args : dict) : Prop := Forall (λ k, dget k args = None) (GIVEN ++ DEFAULTED).

Lemma own_args_filter args : own_args args →
  existsb (λ k, dhas k args) GIVEN = false ∧
  List.filter (λ kv, negb (bool_decide (kv.1 ∈ DEFAULTED))) args = args.
Proof.
  intros [Hg Hd]%Forall_app. split.
  - apply not_true_iff_false. rewrite existsb_exists. intros (k & Hk & Hh). rewrite Forall_forall in Hg.
    apply list_elem_of_In, Hg in Hk. unfold dhas in Hh. by rewrite Hk in Hh.
  - rewrite Forall_forall in Hd. assert (∀ kv, kv ∈ args → kv.1 ∉ DEFAULTED) as Hn.
    { intros [k v] Hin Hk%Hd. apply dget_None_keys in Hk. destruct Hk. apply list_elem_of_fmap. by exists (k, v). }
    clear -Hn. induction args as [|kv args IH]; [done|]. simpl. rewrite bool_decide_false by (apply Hn; by left).
    cbn [negb]. f_equal. apply IH. intros kv' Hin. apply Hn. by right.
Qed.

Lemma add_captured prov eng nodes entries ops h tm op_id family call stream deps release expected args :
  own_args args → dhas family CALLS = true → dhas call (calls_of family) = true → forallb is_dict deps = true →
  add_captured_op (captured_doc prov eng nodes entries ops h tm) op_id family (JStr call) stream deps (JInt release)
    expected args =
  Ok (captured_doc prov eng nodes entries
        (ops ++ [captured_op op_id family call (length ops) args stream deps release expected]) h tm).
Proof.
  intros Ho Hf Hc Hd. destruct (own_args_filter args Ho) as [Hg Hfl].
  unfold add_captured_op, add_op. rewrite Hg, Hf, Hc, Hfl. cbn [raise_if raise_unless andb mbind res_bind].
  apply Forall_app in Ho as [_ Ho]. unfold getd.
  assert (map (λ d, if is_dict d then d else JObj [("op", d); ("kind", JStr "program")]) deps = deps) as ->.
  { clear -Hd. induction deps as [|d deps IH]; [done|]. simpl in *. apply andb_true_iff in Hd as [Hd Hds].
    by rewrite Hd, IH. }
  unfold DEFAULTED in Ho. repeat (apply Forall_cons in Ho as [-> Ho]). done.
Qed.

(** ** Validating it *)
Lemma enum3_ok s l : s ∈ l → _enum3 (JStr s) l = Ok s.
Proof.
  intros H. unfold _enum3. assert (in_tuple (JStr s) l = true) as ->; [|done]. apply in_tuple_true. by exists s.
Qed.

Lemma str3_ok s : s ≠ "" → _str3 (JStr s) = Ok s.
Proof. intros H. unfold _str3. by destruct (String.eqb_spec s ""). Qed.

Lemma int3_ok z m : m ≤ z → _int3 (JInt z) m = Ok z.
Proof. intros H. unfold _int3. destruct (Z.ltb_spec z m); [lia|done]. Qed.

Definition dep_json (op kind : string) : json := JObj [("op", JStr op); ("kind", JStr kind)].

Lemma dep_ok seen seq op kind j : seen !! op = Some j → (j < seq)%nat → kind ∈ DEP_KINDS →
  check_dep3 seen seq (dep_json op kind) = Ok tt.
Proof.
  intros Hs Hj Hk. unfold check_dep3, dep_json. getd_simpl. cbv beta iota zeta. rewrite Hs.
  assert ((seq <=? j)%nat = false) as -> by (apply Nat.leb_gt; lia). cbn [raise_if mbind res_bind].
  by rewrite (enum3_ok _ _ Hk).
Qed.

Lemma mapMR_unit {A} (f : A → res unit) l : Forall (λ x, f x = Ok tt) l → ∃ k, mapMR f l = Ok k.
Proof.
  intros H. destruct (mapMR_total f (λ _ _, True) l) as (k & Hk & _); [|by exists k].
  intros x Hx. exists tt. split; [|done]. rewrite Forall_forall in H. by apply H.
Qed.

(** The steps of the validator on one operation. *)
Lemma check_captured_op nodes objects st seq op_id family call args stream deps release expected oc open' :
  op_id ≠ "" → w_seen st !! op_id = None → family ∈ FAMILIES → call ∈ keys (calls_of family) →
  check_args nodes objects family call args = Ok tt → check_handles (w_open st) family call args = Ok open' →
  stream ≠ JNull → Forall (λ d, check_dep3 (<[ op_id := seq ]> (w_seen st)) seq d = Ok tt) deps → 0 ≤ release →
  dget "outcome" expected = Some (JStr oc) → oc ∈ OUTCOMES3 → dget "outcomes" expected = None →
  check_op3 nodes objects "captured" st seq (captured_op op_id family call seq args stream deps release expected) =
  Ok {| w_seen := <[ op_id := seq ]> (w_seen st); w_open := open' |}.
Proof.
  intros Hid Hnew Hf Hc Ha Hh Hs Hd Hr He Ho Ho'. unfold check_op3, captured_op. getd_simpl.  cbv beta iota zeta.
  rewrite py_eq_int_int, Z.eqb_refl. cbn [raise_unless mbind res_bind]. rewrite (str3_ok _ Hid). cbn [mbind res_bind].
  rewrite bool_decide_false by (rewrite Hnew; by intros [? ?]). cbn [raise_if mbind res_bind].
  rewrite (enum3_ok _ _ Hf). cbn [mbind res_bind]. rewrite (enum3_ok _ _ Hc). cbn [mbind res_bind].
  rewrite Ha. cbn [mbind res_bind]. rewrite Hh. cbn [mbind res_bind].
  assert (is_none stream = false) as -> by (by destruct stream). cbn [raise_if mbind res_bind].
  change (default (JInt 1) (dget "attempt" _)) with (JInt 1).
  change (default (JObj []) (dget "expected" _)) with (JObj expected).
  rewrite int3_ok by lia. cbn [mbind res_bind].
  destruct (mapMR_unit _ _ Hd) as [k ->]. cbn [mbind res_bind].
  unfold check_release. getd_simpl. cbn [is_none negb]. rewrite int3_ok by lia. cbn [mbind res_bind raise_if String.eqb Ascii.eqb Bool.eqb].
  unfold check_expected. rewrite He, Ho'. rewrite (enum3_ok _ _ Ho). done.
Qed.

Lemma name_str v : is_str v && py_true v = true → ∃ s, v = JStr s ∧ s ≠ "".
Proof. destruct v as [| | | |s| |]; try done. intros H. exists s. split; [done|]. by intros ->. Qed.

Lemma validate_captured notes source eng nodes entries ops health digest st :
  engine_ok eng = true →
  check_namespace (JObj [("nodes", JObj nodes); ("entries", JList entries); ("handles", JObj [])]) = Ok (nodes, []) →
  foldiM (check_op3 nodes (JObj []) "captured") 0 {| w_seen := ∅; w_open := [] |} ops = Ok st →
  digest ≠ "" →
  validate_workload (JObj (captured_doc (captured_provenance notes source) (engine_json eng) nodes entries ops
    (JObj health) (JObj [("sidecar", JStr "timing.jsonl"); ("sidecar_sha256", JStr digest)]))) = Ok tt.
Proof.
  intros [He _]%andb_true_iff Hns Hops Hdg. unfold validate_workload, captured_doc. getd_simpl.
  assert (check_provenance3 (captured_provenance notes source) = Ok "captured") as ->.
  { unfold check_provenance3, captured_provenance. getd_simpl. by destruct notes. }
  assert (check_engine3 (engine_json eng) = Ok tt) as ->.
  { unfold check_engine3, engine_json. unfold engine_names in He. cbn [map forallb] in He.
    apply andb_true_iff in He as [Hf He]. apply andb_true_iff in He as [Hn He]. apply andb_true_iff in He as [Hr _].
    apply name_str in Hf as (f & -> & Hf), Hn as (n & -> & Hn), Hr as (r & -> & Hr).
    getd_simpl. by rewrite !str3_ok. }
  cbn [mbind res_bind raise_unless eq_str String.eqb Ascii.eqb Bool.eqb SCHEMA3]. simpl in Hns |- *. rewrite Hns.
  cbn [mbind res_bind]. rewrite Hops. cbn [mbind res_bind]. unfold check_sidecar. simpl.
  by destruct (String.eqb_spec digest "").
Qed.

(** ** The events of a file *)

(** A record with its number, as it is read back. *)
Definition read_back (rec : dict) (s : Z) : json := JObj (sorted_fields (rec ++ [("producer_seq", JInt s)])).

Fixpoint events_from (s : Z) (log : list dict) : list json :=
  match log with [] => [] | rec :: log => read_back rec s :: events_from (s + 1) log end.

Definition numbered_log (events : list dict) : list dict :=
  imap (λ i rec, rec ++ [("producer_seq", JInt (Z.of_nat i + 1))]) events.

Lemma events_of_log log : map (λ rec, JObj (sorted_fields rec)) (numbered_log log) = events_from 1 log.
Proof.
  unfold numbered_log. change 1 with (Z.of_nat 0 + 1) at 2.
  assert (∀ k, map (λ rec, JObj (sorted_fields rec))
    (imap (λ i rec, rec ++ [("producer_seq", JInt (Z.of_nat (k + i) + 1))]) log) = events_from (Z.of_nat k + 1) log) as H;
    [|apply (H 0%nat)].
  induction log as [|rec log IH]; intros k; [done|]. simpl. f_equal.
  - by rewrite Nat.add_0_r.
  - replace (Z.of_nat k + 1 + 1) with (Z.of_nat (S k) + 1) by lia. rewrite <- IH. f_equal. apply imap_ext.
    intros i rec' _. simpl. by replace (S (k + i)) with (k + S i)%nat by lia.
Qed.

(** A record of the kind [ev]. *)
Definition headed (ev : string) (rec : dict) : Prop :=
  dget "ev" rec = Some (JStr ev) ∧ NoDup ("producer_seq" :: keys rec).

Lemma headed_keys ev rec s : headed ev rec → NoDup (keys (rec ++ [("producer_seq", JInt s)])).
Proof.
  intros [_ H]. unfold keys. rewrite map_app. simpl. rewrite Permutation_app_comm. exact H.
Qed.

Lemma headed_dget ev rec s k : headed ev rec → k ≠ "producer_seq" →
  dget k (rec ++ [("producer_seq", JInt s)]) = dget k rec.
Proof.
  intros _ Hk. rewrite dget_app. destruct (dget k rec); [done|]. simpl. by destruct (String.eqb_spec k "producer_seq").
Qed.

Lemma headed_item ev rec s k v : headed ev rec → k ≠ "producer_seq" → dget k rec = Some v →
  item (read_back rec s) k = Ok (sort_keys v).
Proof.
  intros Hh Hk Hv. apply item_sorted; [by eapply headed_keys|]. by rewrite (headed_dget ev).
Qed.

Lemma headed_get ev rec s k : headed ev rec → k ≠ "producer_seq" →
  get (read_back rec s) k = Ok (default JNull (sort_keys <$> dget k rec)).
Proof.
  intros Hh Hk. unfold read_back. rewrite get_sorted by (by eapply headed_keys). by rewrite (headed_dget ev).
Qed.

Lemma headed_get_default ev rec s k v : headed ev rec → k ≠ "producer_seq" →
  get_default (read_back rec s) k v = Ok (default v (sort_keys <$> dget k rec)).
Proof.
  intros Hh Hk. unfold read_back. rewrite get_default_sorted by (by eapply headed_keys). by rewrite (headed_dget ev).
Qed.

Lemma headed_ev ev rec s : headed ev rec → get (read_back rec s) "ev" = Ok (JStr ev).
Proof. intros Hh. rewrite (headed_get ev) by done. by rewrite (proj1 Hh). Qed.

(** The first event of a kind. *)
Lemma next_event_none kind log s : Forall (λ rec, ∃ ev, headed ev rec ∧ ev ≠ kind) log →
  next_event kind (events_from s log) = Ok None.
Proof.
  intros H. revert s. induction H as [|rec log (ev & Hh & Hne) _ IH]; intros s; [done|]. cbn [events_from next_event].
  rewrite (headed_ev ev) by done. cbn [mbind res_bind eq_str]. destruct (String.eqb_spec ev kind); [done|]. apply IH.
Qed.

Lemma next_event_some kind pre rec post s : Forall (λ rec, ∃ ev, headed ev rec ∧ ev ≠ kind) pre → headed kind rec →
  next_event kind (events_from s (pre ++ rec :: post)) = Ok (Some (read_back rec (s + Z.of_nat (length pre)))).
Proof.
  intros H Hrec. revert s. induction H as [|x pre (ev & Hh & Hne) _ IH]; intros s; cbn [app events_from next_event length].
  - rewrite (headed_ev kind) by done. cbn [mbind res_bind eq_str]. rewrite String.eqb_refl. do 3 f_equal. lia.
  - rewrite (headed_ev ev) by done. cbn [mbind res_bind eq_str]. destruct (String.eqb_spec ev kind); [done|].
    rewrite IH. do 3 f_equal. lia.
Qed.

Lemma events_from_app s l1 l2 : events_from s (l1 ++ l2) = events_from s l1 ++ events_from (s + Z.of_nat (length l1)) l2.
Proof.
  revert s. induction l1 as [|x l1 IH]; intros s; cbn [app events_from length]; [by rewrite Z.add_0_r|].
  rewrite IH. do 3 f_equal. lia.
Qed.

Lemma length_events s l : length (events_from s l) = length l.
Proof. revert s. induction l as [|x l IH]; intros s; simpl; [done|]. by rewrite IH. Qed.

(** Values that can be written, and the records made of them. *)
Definition writable (v : json) : Prop := json_wf v ∧ float_free v = true.

Lemma writable_obj d : NoDup (keys d) → Forall (λ kv, writable kv.2) d → writable (JObj d).
Proof.
  intros Hk Hp. split.
  - apply json_wf_obj. split; [done|]. eapply Forall_impl; [apply Hp|]. by intros kv [? ?].
  - simpl. apply forallb_forall. intros kv Hin%list_elem_of_In. rewrite Forall_forall in Hp. by destruct (Hp _ Hin).
Qed.

Lemma writable_list l : Forall writable l → writable (JList l).
Proof.
  intros Hl. split.
  - apply json_wf_list. eapply Forall_impl; [apply Hl|]. by intros v [? ?].
  - simpl. apply forallb_forall. intros v Hin%list_elem_of_In. rewrite Forall_forall in Hl. by destruct (Hl _ Hin).
Qed.

Lemma writable_check v : json_wfb v && float_free v = true → writable v.
Proof. intros [? ?]%andb_true_iff. split; [by apply json_wfb_sound|done]. Qed.

Lemma plain_writable v : plain v → writable v.
Proof. by intros (_ & ? & ?). Qed.

Lemma writable_fields d : plain_fields d → writable (JObj d).
Proof. apply plain_wf. Qed.

Lemma writable_record ev rec s : headed ev rec → Forall (λ kv, writable kv.2) rec →
  writable (JObj (rec ++ [("producer_seq", JInt s)])).
Proof.
  intros Hh Hr. apply writable_obj; [by eapply headed_keys|]. apply Forall_app. split; [done|]. by apply Forall_singleton.
Qed.

Lemma writable_log log : Forall (λ rec, (∃ ev, headed ev rec) ∧ Forall (λ kv, writable kv.2) rec) log →
  Forall (λ rec, writable (JObj rec)) (numbered_log log).
Proof.
  intros H. apply Forall_forall. intros rec Hin. apply list_elem_of_lookup in Hin as [i Hi].
  apply list_lookup_imap_Some in Hi as (rec' & Hi & ->). rewrite Forall_forall in H.
  destruct (H rec' (list_elem_of_lookup_2 _ _ _ Hi)) as [[ev Hh] Hw]. by eapply writable_record.
Qed.

(** ** Numbered operations *)
Definition numbered_id (p : string) (i : nat) : string := p +:+ str_of_Z (Z.of_nat i + 1).

#[export] Instance numbered_id_inj p : Inj (=) (=) (numbered_id p).
Proof. intros i j H. unfold numbered_id in H. apply sapp_inj_l, (inj str_of_Z) in H. lia. Qed.

(** What the validator has seen after [n] operations. *)
Definition seen_ok (id : nat → string) (n : nat) (seen : gmap string nat) : Prop :=
  ∀ j, seen !! id j = if decide (j < n)%nat then Some j else None.

Lemma seen_step id `{!Inj (=) (=) id} n seen : seen_ok id n seen → seen_ok id (S n) (<[ id n := n ]> seen).
Proof.
  intros H j. rewrite lookup_insert. case_decide as E.
  - apply (inj id) in E as <-. rewrite decide_True by lia. done.
  - rewrite H. assert (j ≠ n) by (intros ->; done). do 2 case_decide; done || lia.
Qed.

(** [wl["provenance"]["completeness"]["status"]] *)
Definition status (wl : dict) : json := fld (fld (getd wl "provenance") "completeness") "status".
