(* ===== verification/RecordFSCorrect.v ===== *)
(** * Correctness of file captures

    Whatever an application does through the recorder, the capture is a valid
    workload: one operation per recorded call, in order, each after the one
    before, with the recorded arguments, outcome and release time.  The recorder
    keeps a discipline of handles and names (an invariant of its calls); the
    normalizer turns a log under that discipline into a document in closed form,
    and the validator accepts it. *)

From stdpp Require Import prelude strings list numbers gmap sorting.
From Stdlib Require Import ZArith Lia Ascii.
From S2P Require Import Prelude PyText PyJson JsonText Intent Intent2 Workload3 FakeFS CaptureEvents Naming RecordFS CaptureDoc.
Local Open Scope Z_scope.

(** ** What the recorder keeps *)

Definition CALL_NAMES : list string := keys (calls_of "posix").

(** A record of a call: what the validator asks of its operation. *)
Record op_typed (o : op_rec) : Prop := {
  ot_call : or_call o ∈ CALL_NAMES;
  ot_args : plain_fields (or_args o);
  ot_own : Forall (λ k, dget k (or_args o) = None) (GIVEN ++ DEFAULTED ++ ["node"]);
  ot_fields : Forall (λ f, is_Some (dget f (or_args o))) (fields_of "posix" (or_call o));
  ot_int : Forall (λ k, from_option (λ v, ∃ z, v = JInt z ∧ 0 ≤ z) True (dget k (or_args o)))
             ["size"; "offset"; "length"; "part"];
  ot_path : Forall (λ k, from_option (λ v, ∃ p, v = JStr p ∧ inside p = true) True (dget k (or_args o)))
              ["path"; "new_path"];
  ot_flags : from_option (λ v, ∃ l, v = JList (map JStr l) ∧ Forall (.∈ OPEN_FLAGS) l) True
               (dget "flags" (or_args o));
  ot_begin : 0 ≤ or_begin o;
  ot_outcome : rs_outcome (or_result o) ∈ OUTCOMES3;
  ot_meta : plain_fields (rs_meta (or_result o));
  ot_handle : plain (default JNull (rs_handle (or_result o)));
  ot_open : or_call o = "open" →
    (∃ h, dget "handle" (or_args o) = Some (JStr h) ∧ startswith "h" h = true ∧ rs_outcome (or_result o) = "success") ∨
    (dget "handle" (or_args o) = Some JNull ∧ rs_outcome (or_result o) ≠ "success")
}.

(** The handles live after a call, if the call may be made: an open makes a new
    one unless it failed, the other calls use a live one, a close ends it. *)
Definition live_step (live : gset string) (o : op_rec) : option (gset string) :=
  match dget "handle" (or_args o) with
  | None => Some live
  | Some JNull => if String.eqb (or_call o) "open" then Some live else None
  | Some (JStr h) =>
      if String.eqb (or_call o) "open" then if decide (h ∈ live) then None else Some ({[ h ]} ∪ live)
      else if decide (h ∈ live) then Some (if String.eqb (or_call o) "close" then live ∖ {[ h ]} else live)
      else None
  | Some _ => None
  end.

Definition live_after (ops : list op_rec) : option (gset string) :=
  foldl (λ acc o, acc ≫= λ live, live_step live o) (Some ∅) ops.

Lemma live_after_snoc ops o : live_after (ops ++ [o]) = live_after ops ≫= λ live, live_step live o.
Proof. unfold live_after. by rewrite foldl_app. Qed.

(** A handle id carries the number of records before it. *)
Definition handle_name (n fd s : Z) : string := "h" +:+ str_of_Z n +:+ str_of_Z fd +:+ "-" +:+ str_of_Z s.

Lemma handle_name_inj n fd s n' fd' s' : 0 ≤ s → 0 ≤ s' →
  handle_name n fd s = handle_name n' fd' s' → s = s'.
Proof.
  intros Hs Hs' He. unfold handle_name in He.
  assert (∀ k, 0 ≤ k → has_char 45 (str_of_Z k) = false) as Hd.
  { intros k Hk. by apply digits_no_char; [|apply str_of_Z_digits]. }
  apply (inj str_of_Z).
  apply (app_sep_inj 45 ("h" +:+ str_of_Z n +:+ str_of_Z fd) ("h" +:+ str_of_Z n' +:+ str_of_Z fd')); [auto..|done|].
  by rewrite !sapp_assoc.
Qed.

(** The live handles [live] of a recorder that has written [seq] records. *)
Record live_ok (handles : gmap Z string) (seq : Z) (live : gset string) : Prop := {
  lo_live fd h : handles !! fd = Some h → h ∈ live;
  lo_inj fd fd' h : handles !! fd = Some h → handles !! fd' = Some h → fd = fd';
  lo_old h : h ∈ live → ∃ n fd s, 0 ≤ s < seq ∧ h = handle_name n fd s
}.

Lemma live_ok_later handles seq seq' live : seq ≤ seq' → live_ok handles seq live → live_ok handles seq' live.
Proof.
  intros Hle [H1 H2 H3]. constructor; [done..|]. intros h Hh.
  destruct (H3 h Hh) as (n & fd & s & Hs & ->). exists n, fd, s. split; [lia|done].
Qed.

Lemma live_ok_open handles seq live n fd : 0 ≤ seq → live_ok handles seq live →
  handle_name n fd seq ∉ live ∧
  live_ok (<[ fd := handle_name n fd seq ]> handles) (seq + 1) ({[ handle_name n fd seq ]} ∪ live).
Proof.
  intros Hseq [H1 H2 H3]. set (h := handle_name n fd seq).
  assert (h ∉ live) as Hnew.
  { intros Hh. destruct (H3 h Hh) as (n' & fd' & s & Hs & He). apply handle_name_inj in He; lia. }
  split; [done|]. constructor.
  - intros fd' h'. rewrite lookup_insert. case_decide; [intros [= <-]; set_solver|]. intros Hh. apply elem_of_union_r. eauto.
  - clearbody h. intros f1 f2 h'. rewrite !lookup_insert.
    do 2 case_decide; intros E1 E2; simplify_eq; try done; [destruct Hnew..|]; eauto.
  - intros h' [->%elem_of_singleton|Hh]%elem_of_union; [exists n, fd, seq; split; [lia|done]|].
    destruct (H3 h' Hh) as (n' & fd' & s & Hs & ->). exists n', fd', s. split; [lia|done].
Qed.

Lemma live_ok_close handles seq live fd h : handles !! fd = Some h → live_ok handles seq live →
  live_ok (delete fd handles) seq (live ∖ {[ h ]}).
Proof.
  intros Hfd [H1 H2 H3]. constructor.
  - intros fd' h' [Hne Hh]%lookup_delete_Some. apply elem_of_difference. split; [eauto|].
    intros ->%elem_of_singleton. by destruct (Hne (H2 _ _ _ Hfd Hh)).
  - intros f1 f2 h' [_ E1]%lookup_delete_Some [_ E2]%lookup_delete_Some. eauto.
  - intros h' [Hh _]%elem_of_difference. auto.
Qed.

(** The invariant: the records are those of the two first events and of [ops],
    numbered, and the handles follow the discipline. *)
Record rec_inv (stream : string) (head : list dict) (ops : list op_rec) (r : RecordingFS) : Prop := {
  ri_stream : rc_stream r = stream;
  ri_log : rc_log r = numbered_log (head ++ map (op_event stream) ops);
  ri_seq : rc_seq r = Z.of_nat (length (rc_log r));
  ri_typed : Forall op_typed ops;
  ri_names : naming_ok (rc_naming r);
  ri_live : ∃ live, live_after ops = Some live ∧ live_ok (rc_handles r) (rc_seq r) live
}.

(** One more record. *)
Lemma rec_inv_record stream head ops r r1 call args t result live live' :
  rec_inv stream head ops r →
  rc_stream r1 = rc_stream r → rc_log r1 = rc_log r → rc_seq r1 = rc_seq r → naming_ok (rc_naming r1) →
  live_after ops = Some live →
  let o := mkOp call args t.1 t.2 result in
  op_typed o → live_step live o = Some live' → live_ok (rc_handles r1) (rc_seq r + 1) live' →
  rec_inv stream head (ops ++ [o]) (_record r1 call args t result).
Proof.
  intros [H1 H2 H3 H4 H5 _] Es El Eq Hn Hlive o Ho Hstep Hok. unfold _record, _put.
  constructor; simpl; [congruence| | | |done|].
  - rewrite El, H2, map_app, app_assoc. unfold numbered_log at 2. rewrite imap_app. simpl. f_equal.
    rewrite Es, H1. fold o. f_equal. rewrite Nat.add_0_r, Eq, H3, H2. unfold numbered_log. by rewrite length_imap.
  - rewrite length_app, El, Eq, H3. simpl. lia.
  - apply Forall_app. split; [done|]. by apply Forall_singleton.
  - exists live'. split; [by rewrite live_after_snoc, Hlive|]. by rewrite Eq.
Qed.

(** *** The calls keep it *)
Definition call_name (c : fs_call) : string :=
  match c with
  | COpen _ _ _ => "open" | CClose _ _ => "close" | CPwrite _ _ _ _ => "pwrite" | CPread _ _ _ _ => "pread"
  | CWrite _ _ _ => "write" | CRead _ _ _ => "read" | CFstat _ _ => "fstat" | CStat _ _ => "stat"
  | CReaddir _ _ => "readdir" | CRename _ _ _ => "rename" | CUnlink _ _ => "unlink" | CMkdir _ _ => "mkdir"
  | CRmdir _ _ => "rmdir" | CTruncate _ _ _ => "truncate" | CFtruncate _ _ _ => "ftruncate"
  | CFsync _ _ => "fsync" | CFdatasync _ _ => "fdatasync"
  end.

Definition gave {A} (a : answer A) : bool := match a with Gave _ => true | Failed _ => false end.

Section session.
Variable root : list string.

(** The calls that are recorded: the path is below the root, the flags are
    known, and a call without an error path succeeded. *)
Definition recorded (c : fs_call) : bool :=
  match c with
  | COpen p flags _ => is_ok (_rel root p) && forallb (λ f, bool_decide (f ∈ OPEN_FLAGS)) flags
  | CStat p _ | CReaddir p _ | CUnlink p _ | CMkdir p _ | CRmdir p _ | CTruncate p _ _ => is_ok (_rel root p)
  | CRename a b _ => is_ok (_rel root a) && is_ok (_rel root b)
  | CClose _ _ | CPwrite _ _ _ _ | CPread _ _ _ _ => true
  | CWrite _ _ ans => gave ans
  | CRead _ _ ans => gave ans
  | CFstat _ ans => gave ans
  | CFtruncate _ _ ans | CFsync _ ans | CFdatasync _ ans => gave ans
  end.

(** A descriptor that the recorder gave out, sizes and offsets that are not
    negative, a clock that is not negative. *)
Definition known (r : RecordingFS) (fd : Z) : bool := bool_decide (is_Some (rc_handles r !! fd)).

Definition args_sane (r : RecordingFS) (c : fs_call) : bool :=
  match c with
  | CClose fd _ | CFstat fd _ | CFsync fd _ | CFdatasync fd _ => known r fd
  | CPwrite fd _ offset _ => known r fd && (0 <=? offset)
  | CPread fd len offset _ => known r fd && (0 <=? len) && (0 <=? offset)
  | CWrite fd _ _ => known r fd
  | CRead fd len _ => known r fd && (0 <=? len)
  | CTruncate _ size _ => 0 <=? size
  | CFtruncate fd size _ => known r fd && (0 <=? size)
  | COpen _ _ _ | CStat _ _ | CReaddir _ _ | CRename _ _ _ | CUnlink _ _ | CMkdir _ _ | CRmdir _ _ => true
  end.

Definition sane (r : RecordingFS) (tc : (Z * Z) * fs_call) : bool :=
  negb (recorded tc.2) || ((0 <=? tc.1.1) && args_sane r tc.2).

Fixpoint sane_session (r : RecordingFS) (calls : list ((Z * Z) * fs_call)) : bool :=
  match calls with
  | [] => true
  | tc :: calls => sane r tc && sane_session (do_call root r tc) calls
  end.

(** A step of the recorder: nothing was recorded, or the record of the call was. *)
Definition steps_to (stream : string) (head : list dict) (ops : list op_rec) (r' : RecordingFS)
    (tc : (Z * Z) * fs_call) : Prop :=
  if recorded tc.2
  then ∃ o, or_call o = call_name tc.2 ∧ (or_begin o, or_end o) = tc.1 ∧ rec_inv stream head (ops ++ [o]) r'
  else rec_inv stream head ops r'.

Lemma synthetic_keeps r rel : naming_ok (rc_naming r) →
  ∃ n syn, synthetic r rel = (set_naming r n, syn) ∧ naming_ok n ∧ inside syn = true.
Proof.
  intros Hn. unfold synthetic. destruct (_synthetic (rc_naming r) rel) as [n syn] eqn:E.
  pose proof (synthetic_spec_holds _ rel Hn) as [Hok _ _ _ _]. pose proof (synthetic_inside _ rel Hn) as [_ Hin].
  rewrite E in Hok, Hin. eauto.
Qed.

(** Naming a node changes only the tables of nodes. *)
Lemma node_keeps r st : ∃ r' nid, _node r st = (r', nid) ∧ rc_stream r' = rc_stream r ∧ rc_log r' = rc_log r ∧
  rc_seq r' = rc_seq r ∧ rc_naming r' = rc_naming r ∧ rc_handles r' = rc_handles r.
Proof. unfold _node. destruct (rc_nodes r !! _); eexists _, _; split_and!; done. Qed.

Lemma failure_outcome en : rs_outcome (failure en) ∈ OUTCOMES3 ∧ rs_outcome (failure en) ≠ "success".
Proof.
  unfold failure, outcome_of_oserror. simpl.
  repeat (match goal with |- context [if ?b then _ else _] => destruct b end; [split; [|done]; by repeat constructor|]).
  split; [|done]. by repeat constructor.
Qed.

(** [op_typed] of a record whose arguments are written out. *)
Ltac typed :=
  constructor;
  cbn [or_call or_args or_begin or_end or_result rs_outcome rs_meta rs_handle success result from_option];
  [ name_in
  | split; [apply (bool_decide_unpack _); vm_compute; exact I|each ltac:(auto with kvio)]
  | each ltac:(reflexivity)
  | each ltac:(by eexists)
  | each ltac:(first [exact I|eexists; split; [reflexivity|lia]])
  | each ltac:(first [exact I|eexists; split; [reflexivity|assumption]])
  | cbn; first [exact I|eexists; split; [reflexivity|assumption]]
  | assumption || lia
  | first [assumption|name_in|apply failure_outcome|idtac]
  | split; [cbn; apply (bool_decide_unpack _); vm_compute; exact I|each ltac:(auto with kvio)]
  | cbn; auto with kvio
  | try discriminate ].

Lemma rec_inv_same stream head ops r r' : rec_inv stream head ops r →
  rc_stream r' = rc_stream r → rc_log r' = rc_log r → rc_seq r' = rc_seq r → naming_ok (rc_naming r') →
  rc_handles r' = rc_handles r → rec_inv stream head ops r'.
Proof. intros [H1 H2 H3 H4 H5 H6] E1 E2 E3 E4 E5. constructor; rewrite ?E1, ?E2, ?E3, ?E5; done. Qed.

Section step.
Context (stream : string) (head : list dict) (ops : list op_rec) (r : RecordingFS).
Context (Hinv : rec_inv stream head ops r).

(** A call on paths only, which leaves the handles alone. *)
Lemma step_path r1 call args t result :
  rc_stream r1 = rc_stream r → rc_log r1 = rc_log r → rc_seq r1 = rc_seq r → naming_ok (rc_naming r1) →
  rc_handles r1 = rc_handles r →
  dget "handle" args = None ∨ (dget "handle" args = Some JNull ∧ call = "open") →
  op_typed (mkOp call args t.1 t.2 result) →
  rec_inv stream head (ops ++ [mkOp call args t.1 t.2 result]) (_record r1 call args t result).
Proof.
  intros E1 E2 E3 Hn E4 Hh Ho. destruct (ri_live _ _ _ _ Hinv) as (live & Hl & Hok).
  eapply (rec_inv_record _ _ _ r r1 _ _ _ _ live live); try done.
  - unfold live_step. simpl. by destruct Hh as [->|[-> ->]].
  - rewrite E4. eapply live_ok_later; [|done]. lia.
Qed.

(** A call on a descriptor that the recorder knows. *)
Lemma step_fd r1 call args t result fd :
  known r fd = true →
  rc_stream r1 = rc_stream r → rc_log r1 = rc_log r → rc_seq r1 = rc_seq r → rc_naming r1 = rc_naming r →
  rc_handles r1 = (if String.eqb call "close" then delete fd (rc_handles r) else rc_handles r) →
  dget "handle" args = Some (handle_of r fd) → call ≠ "open" →
  op_typed (mkOp call args t.1 t.2 result) →
  rec_inv stream head (ops ++ [mkOp call args t.1 t.2 result]) (_record r1 call args t result).
Proof.
  intros Hk E1 E2 E3 E4 E5 Hh Hc Ho. apply bool_decide_eq_true in Hk as [h Hfd].
  destruct (ri_live _ _ _ _ Hinv) as (live & Hl & Hok).
  assert (h ∈ live) as Hin by (by eapply lo_live).
  eapply (rec_inv_record _ _ _ r r1 _ _ _ _ live (if String.eqb call "close" then live ∖ {[ h ]} else live)); try done.
  - rewrite E4. apply (ri_names _ _ _ _ Hinv).
  - unfold live_step. simpl. rewrite Hh. unfold handle_of. rewrite Hfd. simpl.
    destruct (String.eqb_spec call "open"); [done|]. by rewrite decide_True.
  - rewrite E5. eapply (live_ok_later _ (rc_seq r)); [lia|].
    destruct (String.eqb call "close"); [by apply live_ok_close|done].
Qed.
End step.

Lemma plain_handle r fd : plain (handle_of r fd).
Proof. unfold handle_of. by destruct (rc_handles r !! fd). Qed.
#[local] Hint Resolve plain_handle : kvio.

Lemma open_steps stream head ops r p flags t ans : rec_inv stream head ops r →
  sane r (t, COpen p flags ans) = true → steps_to stream head ops (do_call root r (t, COpen p flags ans)) (t, COpen p flags ans).
Proof.
  intros Hinv. unfold sane, steps_to, do_call, rec_open. cbn [fst snd recorded args_sane call_name].
  destruct (_rel root p) as [rel|e]; simpl; [|done].
  destruct (forallb _ flags) eqn:Ef; simpl; [|done]. rewrite andb_true_r. intros Ht%Z.leb_le.
  assert (Forall (.∈ OPEN_FLAGS) flags) as Hflags.
  { apply Forall_forall. intros f Hf%list_elem_of_In. rewrite forallb_forall in Ef.
    by apply Ef, bool_decide_eq_true in Hf. }
  destruct t as [t0 t1]. cbn [fst snd] in *. destruct ans as [[fd st]|en].
  - set (r1 := set_handles r _). destruct (node_keeps r1 st) as (r2 & nid & -> & Es & El & Eq & En & Eh).
    destruct (synthetic_keeps r2 rel) as (n & syn & -> & Hn & Hin).
    { rewrite En. apply (ri_names _ _ _ _ Hinv). }
    destruct (ri_live _ _ _ _ Hinv) as (live & Hl & Hok).
    assert (0 ≤ rc_seq r) as Hseq by (rewrite (ri_seq _ _ _ _ Hinv); lia).
    destruct (live_ok_open _ _ _ (Z.of_nat (size (rc_handles r))) fd Hseq Hok) as [Hnew Hok'].
    eexists. split; [|split; [|eapply (rec_inv_record _ _ _ r _ _ _ (t0, t1) _ live ({[ handle_id r fd ]} ∪ live) Hinv);
      simpl; try done] ]; try done.
    + typed. intros _. left. by eexists.
    + unfold live_step. simpl. rewrite decide_False by exact Hnew. done.
    + rewrite Eh. exact Hok'.
  - destruct (synthetic_keeps r rel) as (n & syn & -> & Hn & Hin); [apply (ri_names _ _ _ _ Hinv)|].
    eexists. split; [|split; [|eapply (step_path _ _ _ r Hinv _ _ _ (t0, t1)); simpl; try done] ]; try done.
    + by right.
    + typed. intros _. right. split; [done|]. apply failure_outcome.
Qed.

(** The outcomes of a transfer. *)
Lemma transfer_outcome (b : bool) (other : string) : other ∈ ["short"; "eof"] →
  (if b then "success" else other) ∈ OUTCOMES3.
Proof. intros Ho. destruct b; [name_in|]. apply elem_of_cons in Ho as [->| ->%list_elem_of_singleton]; name_in. Qed.

Ltac transfer := apply transfer_outcome; name_in.

Ltac boolean := repeat match goal with
  | H : _ && _ = true |- _ => apply andb_true_iff in H as [? ?]
  | H : (_ <=? _) = true |- _ => apply Z.leb_le in H
  end.

(** A step on a known descriptor, and a step on names that were just given. *)
Ltac fd_step t0 t1 fd :=
  eexists; split; [|split; [|eapply (step_fd _ _ _ _ ltac:(eassumption) _ _ _ (t0, t1) _ fd); simpl; try done] ]; try done;
  typed; try transfer.
Ltac path_step t0 t1 :=
  eexists; split; [|split; [|eapply (step_path _ _ _ _ ltac:(eassumption) _ _ _ (t0, t1)); simpl; try done] ]; try done;
  [by left|typed].

Section one_call.
Context (stream : string) (head : list dict) (ops : list op_rec) (r : RecordingFS).
Context (Hinv : rec_inv stream head ops r).
Context (t0 t1 : Z).
Notation steps c := (sane r ((t0, t1), c) = true → steps_to stream head ops (do_call root r ((t0, t1), c)) ((t0, t1), c)).

Ltac start := unfold sane, steps_to, do_call; cbn [fst snd recorded args_sane call_name negb orb gave]; intros; boolean.

Lemma close_steps fd ans : steps (CClose fd ans).
Proof. start. unfold rec_close. destruct ans; cbn [fst]; fd_step t0 t1 fd. Qed.

Lemma pwrite_steps fd len offset ans : steps (CPwrite fd len offset ans).
Proof. start. unfold rec_pwrite. destruct ans; cbn [fst]; fd_step t0 t1 fd. Qed.

Lemma pread_steps fd len offset ans : steps (CPread fd len offset ans).
Proof. start. unfold rec_pread. destruct ans; cbn [fst]; fd_step t0 t1 fd. Qed.

Lemma write_steps fd len ans : steps (CWrite fd len ans).
Proof. unfold do_call, rec_write. destruct ans; [|done]. start. fd_step t0 t1 fd. Qed.

Lemma read_steps fd len ans : steps (CRead fd len ans).
Proof. unfold do_call, rec_read. destruct ans; [|done]. start. fd_step t0 t1 fd. Qed.

Lemma fstat_steps fd ans : steps (CFstat fd ans).
Proof.
  unfold do_call, rec_fstat. destruct ans as [st|]; [|done]. start.
  destruct (node_keeps r st) as (r2 & nid & -> & Es & El & Eq & En & Eh). cbn [fst]. fd_step t0 t1 fd.
Qed.

Lemma ftruncate_steps fd size ans : steps (CFtruncate fd size ans).
Proof. unfold do_call, rec_fd. destruct ans; [|done]. start. fd_step t0 t1 fd. Qed.

Lemma fsync_steps fd ans : steps (CFsync fd ans).
Proof. unfold do_call, rec_fd. destruct ans; [|done]. start. fd_step t0 t1 fd. Qed.

Lemma fdatasync_steps fd ans : steps (CFdatasync fd ans).
Proof. unfold do_call, rec_fd. destruct ans; [|done]. start. fd_step t0 t1 fd. Qed.

(** The path is below the root and gets its name. *)
Lemma named_path p : is_ok (_rel root p) = true →
  ∃ rel n syn, _rel root p = Ok rel ∧ synthetic r rel = (set_naming r n, syn) ∧ naming_ok n ∧ inside syn = true.
Proof.
  destruct (_rel root p) as [rel|]; [|done]. intros _.
  destruct (synthetic_keeps r rel) as (n & syn & H); [apply (ri_names _ _ _ _ Hinv)|]. by exists rel, n, syn.
Qed.

Lemma outside_path p : is_ok (_rel root p) = false → ∃ e, _rel root p = Raise e.
Proof. destruct (_rel root p); [done|]. eauto. Qed.

Lemma stat_steps p ans : steps (CStat p ans).
Proof.
  unfold sane, steps_to, do_call, rec_stat. cbn [fst snd recorded args_sane call_name].
  destruct (is_ok (_rel root p)) eqn:E; simpl; [|by destruct (outside_path p E) as [e ->]].
  intros. boolean. destruct (named_path p E) as (rel & n & syn & -> & -> & Hn & Hin).
  destruct ans as [st|en]; cbn [fst]; [|path_step t0 t1].
  destruct (node_keeps (set_naming r n) st) as (r2 & nid & -> & Es & El & Eq & En & Eh). cbn [fst]. 
  eexists; split; [|split; [|eapply (step_path _ _ _ _ ltac:(eassumption) r2 _ _ (t0, t1)); simpl; try done] ]; try done;
    [by rewrite En|by left|typed].
Qed.

Lemma readdir_steps p ans : steps (CReaddir p ans).
Proof.
  unfold sane, steps_to, do_call, rec_readdir. cbn [fst snd recorded args_sane call_name].
  destruct (is_ok (_rel root p)) eqn:E; simpl; [|by destruct (outside_path p E) as [e ->]].
  intros. boolean. destruct (named_path p E) as (rel & n & syn & -> & -> & Hn & Hin).
  destruct ans; cbn [fst]; path_step t0 t1.
Qed.

Lemma rename_steps a b ans : steps (CRename a b ans).
Proof.
  unfold sane, steps_to, do_call, rec_rename. cbn [fst snd recorded args_sane call_name].
  destruct (is_ok (_rel root a)) eqn:Ea; simpl; [|by destruct (outside_path a Ea) as [e ->]].
  destruct (named_path a Ea) as (ra & n & sa & -> & Hsa & Hn & Hina).
  destruct (_rel root b) as [rb|]; simpl; [|done]. intros. boolean. rewrite Hsa.
  destruct (synthetic_keeps (set_naming r n) rb Hn) as (n' & sb & -> & Hn' & Hinb).
  destruct ans; cbn [fst]; path_step t0 t1.
Qed.

(** The calls of [_one_path]; a size must not be negative. *)
Lemma one_path_steps c call p extra ans :
  call = call_name c → recorded c = is_ok (_rel root p) →
  do_call root r ((t0, t1), c) = (_one_path root r call p extra (t0, t1) ans).1 →
  (∀ syn res, inside syn = true → 0 ≤ t0 → args_sane r c = true → rs_outcome res ∈ OUTCOMES3 → rs_meta res = [] →
     rs_handle res = None → op_typed (mkOp call (("path", JStr syn) :: extra) t0 t1 res)) →
  dget "handle" extra = None → steps c.
Proof.
  intros -> Hrec Hdo Ho Hh. unfold sane, steps_to. rewrite Hdo. cbn [fst snd]. rewrite Hrec. unfold _one_path.
  destruct (is_ok (_rel root p)) eqn:E; simpl; [|by destruct (outside_path p E) as [e ->]].
  intros. boolean. destruct (named_path p E) as (rel & n & syn & -> & -> & Hn & Hin).
  destruct ans as [[]|en]; cbn [fst]; eexists;
    (split; [|split; [|eapply (step_path _ _ _ _ ltac:(eassumption) _ _ _ (t0, t1)); simpl; try done; [by left|apply Ho] ] ]);
    try done; [name_in|apply failure_outcome].
Qed.

Ltac one_path p ans :=
  eapply (one_path_steps _ _ p _ ans); try reflexivity; intros syn [oc en nb meta hd]; simpl; intros; subst; boolean; typed.

Lemma unlink_steps p ans : steps (CUnlink p ans).
Proof. one_path p ans. Qed.
Lemma mkdir_steps p ans : steps (CMkdir p ans).
Proof. one_path p ans. Qed.
Lemma rmdir_steps p ans : steps (CRmdir p ans).
Proof. one_path p ans. Qed.
Lemma truncate_steps p size ans : steps (CTruncate p size ans).
Proof. one_path p ans. Qed.
End one_call.

Lemma do_call_steps stream head ops r tc : rec_inv stream head ops r → sane r tc = true →
  steps_to stream head ops (do_call root r tc) tc.
Proof.
  intros Hinv. destruct tc as [[t0 t1] c]. destruct c; [by apply open_steps|..];
    eauto using close_steps, pwrite_steps, pread_steps, write_steps, read_steps, fstat_steps, stat_steps, readdir_steps,
      rename_steps, unlink_steps, mkdir_steps, rmdir_steps, truncate_steps, ftruncate_steps, fsync_steps, fdatasync_steps.
Qed.

(** A session records exactly the recorded calls, in order. *)
Definition trace (calls : list ((Z * Z) * fs_call)) : list (string * (Z * Z)) :=
  map (λ tc, (call_name tc.2, tc.1)) (List.filter (λ tc, recorded tc.2) calls).

Lemma session_inv stream head ops r calls : rec_inv stream head ops r → sane_session r calls = true →
  ∃ ops', rec_inv stream head (ops ++ ops') (fold_left (do_call root) calls r) ∧
    map (λ o, (or_call o, (or_begin o, or_end o))) ops' = trace calls.
Proof.
  revert ops r. induction calls as [|tc calls IH]; intros ops r Hinv.
  - intros _. exists []. by rewrite app_nil_r.
  - cbn [sane_session fold_left]. intros [Hs Hss]%andb_true_iff.
    pose proof (do_call_steps _ _ _ _ _ Hinv Hs) as Hstep. unfold steps_to in Hstep. unfold trace. simpl.
    destruct (recorded tc.2).
    + destruct Hstep as (o & Hc & Ht & Hinv'). destruct (IH _ _ Hinv' Hss) as (ops' & Hf & Htr).
      exists (o :: ops'). rewrite <- app_assoc in Hf. split; [done|]. simpl. rewrite Hc, Ht. by f_equal.
    + apply IH; done.
Qed.
End session.

(** ** The snapshot *)

(** The namespace as the snapshot collects it: nodes with their kind and size,
    entries with their node. *)
Definition node_json (n : bool * Z) : json :=
  JObj [("kind", JStr (if n.1 then "dir" else "file")); ("size", JInt n.2); ("incarnation", JInt 1)].
Definition nodes_json (nodes : list (string * (bool * Z))) : dict := map (λ kv, (kv.1, node_json kv.2)) nodes.
Definition entry_json (e : string * string) : json := JObj [("path", JStr e.1); ("node", JStr e.2)].

Definition ns_event (nodes : list (string * (bool * Z))) (entries : list (string * string)) : dict :=
  [("ev", JStr "namespace"); ("nodes", JObj (nodes_json nodes)); ("entries", JList (map entry_json entries))].

(** What the validator asks of it. *)
Record namespace_ok (nodes : list (string * (bool * Z))) (entries : list (string * string)) : Prop := {
  no_nodes : NoDup (keys nodes);
  no_ids : Forall (λ kv, kv.1 ≠ "" ∧ 0 ≤ kv.2.2) nodes;
  no_entries : NoDup entries.*1;
  no_inside : Forall (λ e, e.1 ≠ "" ∧ inside e.1 = true) entries;
  no_known : Forall (λ e, e.2 ∈ keys nodes) entries
}.

Lemma dset_map {A B} (f : A → B) k v d :
  dset k (f v) (map (λ kv, (kv.1, f kv.2)) d) = map (λ kv, (kv.1, f kv.2)) (dset k v d).
Proof. induction d as [|[k' v'] d IH]; [done|]. simpl. destruct (String.eqb k k'); simpl; [done|]. by rewrite IH. Qed.

Lemma fold_left_prefix {A S} (f : S → A → S) (P : list A → S → Prop) (l pre : list A) s :
  (∀ pre x s, P pre s → P (pre ++ [x]) (f s x)) → P pre s → P (pre ++ l) (fold_left f l s).
Proof.
  intros Hf. revert pre s. induction l as [|x l IH]; intros pre s Hs; [by rewrite app_nil_r|].
  rewrite cons_middle, app_assoc. by apply IH, Hf.
Qed.

Section snapshot.
Context (lstat : string → stat) (lstat_size : ∀ p, 0 ≤ st_size (lstat p)).
Context (r0 : RecordingFS).

Record snap_inv (pre : list string) (acc : RecordingFS * dict * list json) : Prop := {
  sn_log : rc_log acc.1.1 = rc_log r0; sn_seq : rc_seq acc.1.1 = rc_seq r0;
  sn_stream : rc_stream acc.1.1 = rc_stream r0; sn_handles : rc_handles acc.1.1 = rc_handles r0;
  sn_naming : naming_ok (rc_naming acc.1.1);
  sn_ids : map_Forall (λ _ nid, nid ≠ "") (rc_nodes acc.1.1);
  sn_parts : ∃ nodes entries, acc.1.2 = nodes_json nodes ∧ acc.2 = map entry_json entries ∧
    NoDup (keys nodes) ∧ Forall (λ kv, kv.1 ≠ "" ∧ 0 ≤ kv.2.2) nodes ∧
    Forall (λ e, (e.1 ≠ "" ∧ inside e.1 = true) ∧ e.2 ∈ keys nodes) entries ∧
    Forall2 (λ rel e, named (rc_naming acc.1.1) rel = Some e.1) pre entries
}.

Lemma node_id_ok r st : map_Forall (λ _ nid, nid ≠ "") (rc_nodes r) →
  map_Forall (λ _ nid, nid ≠ "") (rc_nodes (_node r st).1) ∧ (_node r st).2 ≠ "".
Proof.
  intros H. unfold _node. destruct (rc_nodes r !! _) as [nid|] eqn:E; simpl; [split; [done|by eapply H]|].
  split; [|done]. by apply map_Forall_insert_2.
Qed.

Lemma Forall_dset {A} (P : string * A → Prop) k v d : Forall P d → P (k, v) → Forall P (dset k v d).
Proof.
  intros Hd Hp. induction Hd as [|[k' v'] d Hx Hd IH]; simpl; [by constructor|].
  destruct (String.eqb_spec k k') as [->|]; by constructor.
Qed.

Lemma elem_of_keys_dset {A} k k' (v : A) d : k' ∈ keys (dset k v d) ↔ k' = k ∨ k' ∈ keys d.
Proof.
  rewrite keys_dset. destruct (dhas k d) eqn:E; [|set_solver].
  apply dhas_keys in E. split; [by right|]. by intros [->|].
Qed.

Lemma snapshot_step pre rel acc : snap_inv pre acc → snap_inv (pre ++ [rel]) (snapshot_entry lstat acc rel).
Proof.
  destruct acc as [[r nodes] entries]. intros [H1 H2 H3 H4 H5 H6 (ns & es & E1 & E2 & Hnd & Hids & Hes & Hnm)].
  simpl in *. subst nodes entries.
  pose proof (node_id_ok r (lstat rel) H6) as [Hids' Hnid].
  destruct (node_keeps r (lstat rel)) as (r2 & nid & En & Es & El & Eq & Enm & Eh).
  rewrite En in *. simpl in Hids', Hnid. unfold synthetic.
  assert (naming_ok (rc_naming r2)) as Hok2 by (by rewrite Enm).
  pose proof (synthetic_spec_holds _ rel Hok2) as [Hok' Hnamed Hext _ _].
  pose proof (synthetic_inside _ rel Hok2) as Hin.
  destruct (_synthetic (rc_naming r2) rel) as [n syn]. simpl in *.
  constructor; simpl; try congruence; try done.
  set (x := (st_isdir (lstat rel), if st_isdir (lstat rel) then 0 else st_size (lstat rel))).
  exists (dset nid x ns), (es ++ [(syn, nid)]). split_and!.
  - unfold nodes_json. rewrite <- dset_map. unfold snapshot_node, node_json, x. simpl. done.
  - by rewrite map_app.
  - by apply NoDup_dset.
  - apply Forall_dset; [done|]. split; [done|]. unfold x. simpl. destruct (st_isdir _); [lia|apply lstat_size].
  - apply Forall_app. split; [|apply Forall_singleton; split; [done|]; apply elem_of_keys_dset; by left].
    eapply Forall_impl; [apply Hes|]. intros e [He Hk]. split; [done|]. apply elem_of_keys_dset. by right.
  - apply Forall2_app; [|by repeat constructor]. eapply Forall2_impl; [apply Hnm|].
    intros rel' e He. eapply extends_named; [apply Hext|by rewrite Enm].
Qed.
End snapshot.

(** The paths of the walk name different entries. *)
Definition walk_ok (walk : list walked) : Prop := NoDup (map canon (walk_paths walk)).

Lemma named_paths_NoDup nm rels (entries : list (string * string)) : naming_ok nm →
  Forall2 (λ rel e, named nm rel = Some e.1) rels entries → NoDup (map canon rels) → NoDup entries.*1.
Proof.
  intros Hok. induction 1 as [|rel e rels es Hn Hall IH]; simpl; [constructor|].
  rewrite NoDup_cons. intros [Hni Hnd]. constructor; [|by apply IH].
  intros Hin. apply Hni. apply list_elem_of_fmap in Hin as (e' & He & Hin).
  apply list_elem_of_lookup in Hin as [i Hi]. destruct (Forall2_lookup_r _ _ _ _ _ Hall Hi) as (rel' & Hr & Hn').
  rewrite <- He in Hn'. rewrite (named_inj nm rel rel' e.1 Hok Hn Hn').
  apply list_elem_of_fmap. exists rel'. split; [done|]. by eapply list_elem_of_lookup_2.
Qed.

Lemma new_recorder_inv stream digest walk lstat : (∀ p, 0 ≤ st_size (lstat p)) → walk_ok walk →
  ∃ nodes entries, namespace_ok nodes entries ∧
    rec_inv stream [start_event stream digest; ns_event nodes entries] [] (new_recorder stream digest walk lstat).
Proof.
  intros Hsz Hwalk. unfold new_recorder, _snapshot. set (r1 := _put _ _).
  pose proof (fold_left_prefix (snapshot_entry lstat) (snap_inv r1) (walk_paths walk) [] (r1, [], [])
    (λ pre x s, snapshot_step lstat Hsz r1 pre x s)) as Hinv.
  destruct (fold_left _ _ _) as [[r nodes] entries].
  destruct Hinv as [H1 H2 H3 H4 H5 H6 (ns & es & E1 & E2 & Hnd & Hids & Hes & Hnm)].
  { constructor; try done. exists [], []. split_and!; done || constructor. }
  simpl in *. subst. exists ns, es. split.
  - constructor; [done|done|by eapply named_paths_NoDup| |]; eapply Forall_impl; try apply Hes; by intros e [? ?].
  - constructor; simpl; try done.
    + by rewrite H1, H2.
    + by rewrite H2, H1.
    + exists ∅. split; [done|]. rewrite H4. constructor; simpl; set_solver.
Qed.

(** ** The document of a log *)
Definition pid : nat → string := numbered_id "p".

Definition failed_open (o : op_rec) : bool :=
  String.eqb (or_call o) "open" && negb (String.eqb (rs_outcome (or_result o)) "success").

(** The arguments of the operation: those recorded, with a name of its own for
    the handle that a failed open did not make. *)
Definition normal_args (i : nat) (o : op_rec) : dict :=
  if failed_open o then dset "handle" (JStr ("failed-" +:+ pid i)) (sorted_fields (or_args o))
  else sorted_fields (or_args o).

Definition expected_fields (r : Result) : dict :=
  [("outcome", JStr (rs_outcome r))] ++ (if rs_bytes r =? 0 then [] else [("bytes", JInt (rs_bytes r))]) ++
  (if py_true (getd (rs_meta r) "node") then [("node", getd (rs_meta r) "node")] else []) ++
  (if is_none (getd (rs_meta r) "count") then [] else [("count", getd (rs_meta r) "count")]).

Definition normal_expected (o : op_rec) : dict :=
  expected_fields (or_result o) ++ (if failed_open o then [("no_handle", JBool true)] else []).

(** Each operation depends on the one before it. *)
Definition program_deps (i : nat) : list json :=
  match i with O => [] | S j => [dep_json (pid j) "program"] end.

Definition normal_op (stream : string) (i : nat) (o : op_rec) : json :=
  captured_op (pid i) "posix" (or_call o) i (normal_args i o) (JStr stream) (program_deps i) (or_begin o) (normal_expected o).

Definition normal_row (i : nat) (o : op_rec) : json :=
  JObj [("op_id", JStr (pid i)); ("begin_ns", JInt (or_begin o)); ("end_ns", JInt (or_end o));
        ("outcome", JStr (rs_outcome (or_result o))); ("errno", JInt (rs_errno (or_result o)));
        ("bytes", JInt (rs_bytes (or_result o)))].

(** The previous operation of the stream. *)
Definition prev_of (stream : string) (n : nat) : list (hkey * string) :=
  match n with O => [] | S j => [(KStr stream, pid j)] end.

Lemma dset_idem {A} k (v w : A) d : dset k v (dset k w d) = dset k v d.
Proof.
  induction d as [|[k' v'] d IH]; simpl; [by rewrite String.eqb_refl|].
  destruct (String.eqb k k') eqn:E; simpl; rewrite ?E, ?String.eqb_refl; [done|by rewrite IH].
Qed.

Lemma expected_of_result r : plain_fields (rs_meta r) →
  expected_of (sort_keys (as_dict r)) = Ok (expected_fields r).
Proof.
  intros Hm. unfold as_dict. set (d := [("outcome", _); _; _; _; _]).
  change (sort_keys (JObj d)) with (JObj (sorted_fields d)).
  assert (NoDup (keys d)) as Hd by name_in. unfold expected_of.
  rewrite (item_sorted d "outcome" (JStr (rs_outcome r)) Hd eq_refl). cbn [mbind res_bind].
  rewrite (get_sorted d "bytes" Hd), (get_default_sorted d "meta" _ Hd). cbn [mbind res_bind].
  change (default (JObj []) (sort_keys <$> dget "meta" d)) with (JObj (sorted_fields (rs_meta r))).
  change (default JNull (sort_keys <$> dget "bytes" d)) with (JInt (rs_bytes r)).
  unfold get, getd. rewrite !(dget_plain _ _ Hm). cbn [mbind res_bind]. unfold expected_fields, getd.
  unfold py_true at 1. by destruct (rs_bytes r =? 0).
Qed.

Lemma own_normal_args i o : op_typed o → own_args (normal_args i o).
Proof.
  intros Ho. pose proof (ot_own _ Ho) as H. rewrite app_assoc in H. apply Forall_app in H as [H _].
  apply Forall_forall. intros k Hin. rewrite Forall_forall in H. pose proof (H k Hin) as Hk. unfold normal_args.
  assert (dget k (sorted_fields (or_args o)) = None) as Hs by (by rewrite dget_plain by apply Ho).
  destruct (failed_open o); [|done]. rewrite dget_dset. destruct (String.eqb_spec k "handle") as [->|]; [|done].
  exfalso. revert Hin. name_in.
Qed.

Section normalize_ops.
Context (prov eng : json) (nodes : dict) (entries : list json) (h tm : json) (stream : string).

Definition norm_at (ops : list op_rec) : norm_state :=
  mkNorm (captured_doc prov eng nodes entries (imap (normal_op stream) ops) h tm) (prev_of stream (length ops))
    (Z.of_nat (length ops)) (imap normal_row ops).

Lemma normalize_other ops ev rec s : NoDup (keys (("ev", JStr ev) :: rec ++ [("producer_seq", JInt s)])) → ev ≠ "op" →
  normalize_event (norm_at ops) (read_back (("ev", JStr ev) :: rec) s) = Ok (norm_at ops).
Proof.
  intros Hd He. unfold normalize_event, read_back. change ((?x :: rec) ++ ?l) with (x :: rec ++ l).
  rewrite (get_sorted _ "ev" Hd). simpl. by destruct (String.eqb_spec ev "op").
Qed.

Lemma mark_op id fam call i args st deps release exp :
  mark_failed_open id (captured_op id fam call i args st deps release exp) =
  Ok (captured_op id fam call i (dset "handle" (JStr ("failed-" +:+ id)) args) st deps release
        (dset "no_handle" (JBool true) exp)).
Proof. done. Qed.

(** The failed open is marked on the operation just added. *)
Lemma mark_captured ops i o : op_typed o → failed_open o = true → length ops = i →
  update_last_op (mark_failed_open (pid i))
    (captured_doc prov eng nodes entries
       (ops ++ [captured_op (pid i) "posix" (or_call o) i (normal_args i o) (JStr stream) (program_deps i) (or_begin o)
                  (expected_fields (or_result o))]) h tm) =
  Ok (captured_doc prov eng nodes entries (ops ++ [normal_op stream i o]) h tm).
Proof.
  intros Ho Hf <-. unfold update_last_op. rewrite doc_operations. cbn [mbind res_bind].
  rewrite last_snoc, removelast_last, mark_op. cbn [mbind res_bind]. rewrite doc_set_operations.
  unfold normal_op, normal_args, normal_expected. rewrite Hf, dset_idem.
  assert (dset "no_handle" (JBool true) (expected_fields (or_result o)) =
          expected_fields (or_result o) ++ [("no_handle", JBool true)]) as ->; [|done].
  apply dset_new. unfold expected_fields. by repeat case_match.
Qed.

(** Reading one field of the record of a call. *)
Lemma op_event_item o s k v : dget k (op_event stream o ++ [("producer_seq", JInt s)]) = Some v →
  item (read_back (op_event stream o) s) k = Ok (sort_keys v).
Proof. intros H. apply item_sorted; [name_in|done]. Qed.

(** Which opens failed, as the normalizer sees it. *)
Lemma failed_args n o : op_typed o →
  (if eq_str (JStr (or_call o)) "open" && is_none (getd (sorted_fields (or_args o)) "handle")
   then dset "handle" (JStr ("failed-" +:+ pid n)) (sorted_fields (or_args o)) else sorted_fields (or_args o)) =
  normal_args n o.
Proof.
  intros Ho. unfold normal_args, failed_open, eq_str, getd. rewrite dget_plain by apply Ho.
  destruct (String.eqb_spec (or_call o) "open") as [E|E]; [|done].
  destruct (ot_open _ Ho E) as [(h' & -> & _ & ->)|[-> Hne]]; [done|]. by destruct (String.eqb_spec (rs_outcome (or_result o)) "success").
Qed.

(** Reading the fields of a result. *)
Lemma result_keys r : NoDup (keys [("outcome", JStr (rs_outcome r)); ("errno", JInt (rs_errno r));
  ("bytes", JInt (rs_bytes r)); ("meta", JObj (rs_meta r)); ("handle", default JNull (rs_handle r))]).
Proof. name_in. Qed.

Lemma result_item r k v : match as_dict r with JObj d => dget k d = Some v | _ => False end →
  item (sort_keys (as_dict r)) k = Ok (sort_keys v).
Proof. apply item_sorted, result_keys. Qed.

Lemma result_default r k dflt v : match as_dict r with JObj d => dget k d = Some v | _ => False end →
  get_default (sort_keys (as_dict r)) k dflt = Ok (sort_keys v).
Proof.
  intros H. etransitivity; [apply (get_default_sorted _ _ _ (result_keys r))|].
  unfold as_dict in H. by rewrite H.
Qed.

Lemma norm_at_snoc ops o : norm_at (ops ++ [o]) =
  mkNorm (captured_doc prov eng nodes entries (imap (normal_op stream) ops ++ [normal_op stream (length ops) o]) h tm)
    (hset (KStr stream) (pid (length ops)) (ns_prev (norm_at ops))) (ns_n (norm_at ops) + 1)
    (ns_sidecar (norm_at ops) ++ [normal_row (length ops) o]).
Proof.
  unfold norm_at. cbn [ns_prev ns_n ns_sidecar]. rewrite !imap_app, length_app. simpl. rewrite !Nat.add_0_r.
  replace (length ops + 1)%nat with (S (length ops)) by lia. f_equal; [|lia].
  simpl. destruct (length ops); simpl; [done|]. by rewrite decide_True.
Qed.

Lemma normalize_op ops o s : op_typed o →
  normalize_event (norm_at ops) (read_back (op_event stream o) s) = Ok (norm_at (ops ++ [o])).
Proof.
  intros Ho. unfold normalize_event.
  assert (get (read_back (op_event stream o) s) "ev" = Ok (JStr "op")) as -> by (apply get_sorted; name_in).
  cbn [mbind res_bind eq_str String.eqb Ascii.eqb Bool.eqb negb].
  rewrite (op_event_item o s "stream" (JStr stream) eq_refl), (op_event_item o s "args" (JObj (or_args o)) eq_refl),
    (op_event_item o s "result" (as_dict (or_result o)) eq_refl), (op_event_item o s "call" (JStr (or_call o)) eq_refl),
    (op_event_item o s "begin_ns" (JInt (or_begin o)) eq_refl), (op_event_item o s "end_ns" (JInt (or_end o)) eq_refl).
  change (sort_keys (JObj (or_args o))) with (JObj (sorted_fields (or_args o))).
  cbn [mbind res_bind hkey_of sort_keys py_dict].
  rewrite (expected_of_result _ (ot_meta _ Ho)). cbn [mbind res_bind].
  change (negb ("op" =? "op")%string) with false. cbv beta iota.
  set (n := length ops). change ("p" +:+ str_of_Z (ns_n (norm_at ops) + 1)) with (pid n).
  assert (match hget (KStr stream) (ns_prev (norm_at ops)) with
          | Some p => [JObj [("op", JStr p); ("kind", JStr "program")]] | None => [] end = program_deps n) as ->.
  { unfold norm_at, ns_prev. fold n. destruct n; simpl; [done|]. by rewrite decide_True. }
  rewrite (failed_args n o Ho).
  assert (length (imap (normal_op stream) ops) = n) as Hlen by apply length_imap.
  pose proof (ot_call _ Ho) as Hc. apply dhas_keys in Hc.
  change (ns_wl (norm_at ops)) with (captured_doc prov eng nodes entries (imap (normal_op stream) ops) h tm).
  rewrite (add_captured _ _ _ _ _ _ _ _ "posix"); [|by apply own_normal_args|done|done|by destruct n].
  rewrite Hlen. cbn [mbind res_bind].
  rewrite (result_item _ "outcome" (JStr (rs_outcome (or_result o)))) by done. cbn [mbind res_bind sort_keys].
  rewrite (result_default _ "errno" (JInt 0) (JInt (rs_errno (or_result o)))), (result_default _ "bytes" (JInt 0) (JInt (rs_bytes (or_result o)))) by done.
  cbn [mbind res_bind sort_keys].
  rewrite norm_at_snoc. fold n. destruct (failed_open o) eqn:Ef.
  - change (eq_str (JStr (or_call o)) "open" && negb (eq_str (JStr (rs_outcome (or_result o))) "success")) with (failed_open o).
    rewrite Ef, mark_captured by done. done.
  - change (eq_str (JStr (or_call o)) "open" && negb (eq_str (JStr (rs_outcome (or_result o))) "success")) with (failed_open o).
    rewrite Ef. cbn [mbind res_bind]. unfold normal_op, normal_expected. by rewrite Ef, app_nil_r.
Qed.
End normalize_ops.

(** *** The namespace of the document *)
Definition sorted_node (n : bool * Z) : json :=
  JObj [("incarnation", JInt 1); ("kind", JStr (if n.1 then "dir" else "file")); ("size", JInt n.2)].
Definition stored_node (n : bool * Z) : json :=
  JObj [("kind", JStr (if n.1 then "dir" else "file")); ("incarnation", JInt 1); ("size", JInt n.2);
        ("tier", JStr "storage")].
Definition stored_nodes (nodes : list (string * (bool * Z))) : dict := map (λ kv, (kv.1, stored_node kv.2)) nodes.

Lemma sorted_nodes nodes : ∃ nodes', nodes' ≡ₚ nodes ∧
  sorted_fields (nodes_json nodes) = map (λ kv, (kv.1, sorted_node kv.2)) nodes'.
Proof.
  pose proof (sort_keys_perm (nodes_json nodes)) as Hp. fold (sorted_fields (nodes_json nodes)) in Hp.
  unfold nodes_json in Hp at 2. rewrite map_map in Hp.
  change (map _ nodes) with (map (λ kv : string * (bool * Z), (kv.1, sorted_node kv.2)) nodes) in Hp.
  destruct (Permutation_map_inv _ _ Hp) as (nodes' & -> & Hn). by exists nodes'.
Qed.

Section namespace.
Context (prov eng : json) (h tm : json).

Lemma fold_nodes nodes acc entries : NoDup (keys (acc ++ nodes)) →
  foldM add_captured_node (captured_doc prov eng (stored_nodes acc) entries [] h tm)
    (map (λ kv, (kv.1, sorted_node kv.2)) nodes) =
  Ok (captured_doc prov eng (stored_nodes (acc ++ nodes)) entries [] h tm).
Proof.
  revert acc. induction nodes as [|[nid n] nodes IH]; intros acc Hnd; [by rewrite app_nil_r|].
  cbn [map foldM fst snd].
  assert (add_captured_node (captured_doc prov eng (stored_nodes acc) entries [] h tm) (nid, sorted_node n) =
          Ok (captured_doc prov eng (dset nid (stored_node n) (stored_nodes acc)) entries [] h tm)) as -> by done.
  cbn [mbind res_bind]. rewrite dset_new.
  - change (stored_nodes acc ++ [(nid, stored_node n)]) with (stored_nodes acc ++ stored_nodes [(nid, n)]).
    unfold stored_nodes at 1 2. rewrite <- map_app. fold (stored_nodes (acc ++ [(nid, n)])).
    rewrite IH; [by rewrite <- app_assoc|by rewrite <- app_assoc].
  - apply not_true_iff_false. rewrite dhas_keys. unfold stored_nodes, keys. rewrite map_map. simpl.
    unfold keys in Hnd. rewrite map_app in Hnd. simpl in Hnd. apply NoDup_app in Hnd as (_ & Hd & _).
    intros Hin. apply (Hd _ Hin). by left.
Qed.

Lemma fold_entries nodes entries acc :
  foldM add_captured_entry (captured_doc prov eng nodes (map entry_json acc) [] h tm)
    (map sort_keys (map entry_json entries)) =
  Ok (captured_doc prov eng nodes (map entry_json (acc ++ entries)) [] h tm).
Proof.
  revert acc. induction entries as [|e entries IH]; intros acc; [by rewrite app_nil_r|]. cbn [map foldM].
  assert (add_captured_entry (captured_doc prov eng nodes (map entry_json acc) [] h tm) (sort_keys (entry_json e)) =
          Ok (captured_doc prov eng nodes (map entry_json acc ++ [entry_json e]) [] h tm)) as -> by done.
  cbn [mbind res_bind]. change [entry_json e] with (map entry_json [e]). rewrite <- map_app, IH.
  by rewrite <- app_assoc.
Qed.
End namespace.

Lemma headed_start stream digest : headed "start" (start_event stream digest).
Proof. split; [done|]. name_in. Qed.
Lemma headed_ns nodes entries : headed "namespace" (ns_event nodes entries).
Proof. split; [done|]. name_in. Qed.
Lemma headed_op stream o : headed "op" (op_event stream o).
Proof. split; [done|]. name_in. Qed.

Definition end_event (handles : list string) : dict := [("ev", JStr "end"); ("open_handles", JList (map JStr handles))].

Lemma headed_end handles : headed "end" (end_event handles).
Proof. split; [done|]. name_in. Qed.

Lemma check_entries nodes entries paths :
  Forall (λ e, (e.1 ≠ "" ∧ inside e.1 = true) ∧ dhas e.2 nodes = true) entries → NoDup (entries.*1 ++ paths) →
  ∃ k, foldM (check_entry nodes) paths (map entry_json entries) = Ok k.
Proof.
  intros He. revert paths. induction He as [|e entries [[Hne Hin] Hk] _ IH]; intros paths Hnd; [by eexists|].
  simpl in Hnd. apply NoDup_cons in Hnd as [Hnew Hnd]. cbn [map foldM].
  assert (check_entry nodes paths (entry_json e) = Ok (e.1 :: paths)) as ->.
  { unfold check_entry, entry_json. cbn [get]. getd_simpl. cbn [mbind res_bind]. rewrite (str3_ok _ Hne).
    cbn [mbind res_bind]. apply negb_true_iff in Hin. rewrite Hin. cbn [raise_if mbind res_bind in_keys]. rewrite Hk.
    cbn [raise_unless mbind res_bind]. by rewrite bool_decide_false by set_solver. }
  cbn [mbind res_bind]. apply IH. rewrite <- Permutation_middle. constructor; done.
Qed.

Lemma check_stored_namespace nodes nodes' entries : namespace_ok nodes entries → nodes' ≡ₚ nodes →
  check_namespace (JObj [("nodes", JObj (stored_nodes nodes')); ("entries", JList (map entry_json entries)); ("handles", JObj [])]) =
  Ok (stored_nodes nodes', []).
Proof.
  intros [H1 H2 H3 H4 H5] Hp. unfold check_namespace. getd_simpl. cbv beta iota zeta.
  assert (∃ k, mapMR check_node (stored_nodes nodes') = Ok k) as [k ->].
  { apply mapMR_unit, Forall_forall. intros kv Hin. apply list_elem_of_fmap in Hin as ([nid [d z]] & -> & Hin).
    rewrite Forall_forall in H2. rewrite Hp in Hin. destruct (H2 _ Hin) as [Hid Hz]. unfold check_node. simpl in *.
    destruct (String.eqb_spec nid ""); [done|]. destruct (Z.ltb_spec z 0); [lia|]. by destruct d. }
  cbn [mbind res_bind].
  destruct (check_entries (stored_nodes nodes') entries []) as [k' ->].
  - apply Forall_forall. intros e He. rewrite Forall_forall in H4, H5. split; [by apply H4|]. apply dhas_keys.
    unfold stored_nodes, keys. rewrite map_map. simpl. rewrite Hp. by apply H5.
  - by rewrite app_nil_r.
  - done.
Qed.

(** ** The validator accepts it *)
Lemma normal_dget i o k : op_typed o →
  dget k (normal_args i o) =
  if failed_open o && String.eqb k "handle" then Some (JStr ("failed-" +:+ pid i)) else dget k (or_args o).
Proof.
  intros Ho. unfold normal_args. destruct (failed_open o); simpl; [|apply dget_plain, Ho].
  rewrite dget_dset. destruct (String.eqb k "handle"); [done|]. apply dget_plain, Ho.
Qed.

Lemma normal_dget_ne i o k : op_typed o → k ≠ "handle" → dget k (normal_args i o) = dget k (or_args o).
Proof. intros Ho Hk. rewrite normal_dget by done. destruct (String.eqb_spec k "handle"); [done|]. by rewrite andb_false_r. Qed.

Lemma check_normal_args nodes objects i o : op_typed o →
  check_args nodes objects "posix" (or_call o) (normal_args i o) = Ok tt.
Proof.
  intros Ho. unfold check_args.
  assert (forallb (λ f, dhas f (normal_args i o)) (fields_of "posix" (or_call o)) = true) as ->.
  { apply forallb_forall. intros f Hf%list_elem_of_In. pose proof (ot_fields _ Ho) as H. rewrite Forall_forall in H.
    destruct (H f Hf) as [v Hv]. unfold dhas. rewrite normal_dget by done. rewrite Hv. by destruct (_ && _). }
  cbn [raise_unless mbind res_bind].
  assert (∃ k, mapMR (check_int_arg (normal_args i o)) ["size"; "offset"; "length"; "part"] = Ok k) as [k ->].
  { apply mapMR_unit. pose proof (ot_int _ Ho) as H. rewrite Forall_forall in H. apply Forall_forall. intros k Hk.
    specialize (H k Hk). unfold check_int_arg. rewrite normal_dget_ne; [|done|by intros ->; revert Hk; name_in].
    destruct (dget k (or_args o)) as [v|]; [|done]. destruct H as (z & -> & Hz). by rewrite int3_ok. }
  cbn [mbind res_bind].
  assert (∀ k, k ∈ ["path"; "new_path"] → check_path_arg (normal_args i o) k = Ok tt) as Hpath.
  { intros k' Hk. pose proof (ot_path _ Ho) as H. rewrite Forall_forall in H. specialize (H k' Hk).
    unfold check_path_arg. rewrite normal_dget_ne; [|done|by intros ->; revert Hk; name_in].
    destruct (dget k' (or_args o)) as [v|]; [|done]. destruct H as (q & -> & Hq). apply negb_true_iff in Hq. by rewrite Hq. }
  rewrite !Hpath by name_in. cbn [mbind res_bind].
  assert (check_flags (normal_args i o) = Ok tt) as ->.
  { unfold check_flags. rewrite normal_dget_ne by done. pose proof (ot_flags _ Ho) as H.
    destruct (dget "flags" (or_args o)) as [v|]; [|done]. destruct H as (l & -> & Hl). cbn [iterate mbind res_bind].
    destruct (mapMR_total (λ f, _enum3 f OPEN_FLAGS) (λ _ _, True) (map JStr l)) as (k' & -> & _); [|done].
    intros f Hf. apply list_elem_of_fmap in Hf as (s & -> & Hs). exists s. split; [|done]. apply enum3_ok.
    rewrite Forall_forall in Hl. by apply Hl. }
  cbn [mbind res_bind]. unfold check_node_arg. rewrite normal_dget_ne by done.
  pose proof (ot_own _ Ho) as H. rewrite Forall_forall in H. by rewrite (H "node") by name_in.
Qed.

#[local] Instance pid_inj : Inj (=) (=) pid.
Proof. apply numbered_id_inj. Qed.

(** The validator's handles and the live handles, after [n] operations: the
    others are those of failed opens. *)
Record handles_ok (n : nat) (live : gset string) (open : list hkey) : Prop := {
  ho_live h : h ∈ live → KStr h ∈ open;
  ho_open k : k ∈ open → (∃ h, h ∈ live ∧ k = KStr h) ∨ (∃ j, (j < n)%nat ∧ k = KStr ("failed-" +:+ pid j));
  ho_names h : h ∈ live → startswith "h" h = true
}.

Lemma handles_ok_later n n' live open : (n ≤ n')%nat → handles_ok n live open → handles_ok n' live open.
Proof.
  intros Hn [H1 H2 H3]. constructor; [done| |done]. intros k [H|(j & Hj & ->)]%H2; [by left|].
  right. exists j. split; [lia|done].
Qed.

(** A failed open adds the name that the normalizer made for it. *)
Lemma handles_failed n live open : handles_ok n live open →
  hmem (KStr ("failed-" +:+ pid n)) open = false ∧ handles_ok (S n) live (KStr ("failed-" +:+ pid n) :: open).
Proof.
  intros [H1 H2 H3]. split.
  - apply bool_decide_eq_false. intros [(h & Hh & [= <-])|(j & Hj & [= E])]%H2.
    + by apply H3 in Hh.
    + apply (inj str_of_Z) in E. lia.
  - constructor; [|  |done].
    + intros h Hh. right. by apply H1.
    + intros k [->|[H|(j & Hj & ->)]%H2]%elem_of_cons; [right; exists n; split; [lia|done]|by left|].
      right. exists j. split; [lia|done].
Qed.

Lemma handles_opened n live open h : handles_ok n live open → h ∉ live → startswith "h" h = true →
  hmem (KStr h) open = false ∧ handles_ok n ({[ h ]} ∪ live) (KStr h :: open).
Proof.
  intros [H1 H2 H3] Hnew Hh. split.
  - apply bool_decide_eq_false. intros [(h' & Hh' & [= <-])|(j & Hj & [= ->])]%H2; done.
  - constructor.
    + intros h' [->%elem_of_singleton|Hin]%elem_of_union; [by left|]. right. by apply H1.
    + intros k [->|[(h' & Hh' & ->)|H]%H2]%elem_of_cons; [left; exists h; set_solver|left; exists h'; set_solver|by right].
    + intros h' [->%elem_of_singleton|Hin]%elem_of_union; [done|by apply H3].
Qed.

Lemma handles_closed n live open h : handles_ok n live open →
  handles_ok n (live ∖ {[ h ]}) (filter (λ x, x ≠ KStr h) open).
Proof.
  intros [H1 H2 H3]. constructor.
  - intros h' [Hin Hne]%elem_of_difference. apply list_elem_of_filter. split; [|by apply H1]. intros [= ->]. set_solver.
  - intros k [Hne [(h' & Hin & ->)|H]%H2]%list_elem_of_filter; [|by right]. left. exists h'. split; [|done].
    apply elem_of_difference. split; [done|]. intros ->%elem_of_singleton. done.
  - intros h' [Hin _]%elem_of_difference. by apply H3.
Qed.

Lemma handles_step n live live' open o : op_typed o → live_step live o = Some live' → handles_ok n live open →
  ∃ open', check_handles open "posix" (or_call o) (normal_args n o) = Ok open' ∧ handles_ok (S n) live' open'.
Proof.
  intros Ho Hstep Hok. unfold check_handles. change (String.eqb "posix" "posix") with true. cbv beta iota.
  rewrite normal_dget by done. rewrite String.eqb_refl, andb_true_r. unfold live_step in Hstep.
  destruct (failed_open o) eqn:Ef.
  - apply andb_true_iff in Ef as [Hc%String.eqb_eq Hs%negb_true_iff%String.eqb_neq].
    destruct (ot_open _ Ho Hc) as [(h & _ & _ & E)|[Eh _]]; [done|]. rewrite Eh, Hc in Hstep. injection Hstep as <-.
    destruct (handles_failed n live open Hok) as [Hm Hok']. rewrite Hc. cbn [hkey_of mbind res_bind].
    change (String.eqb "open" "open") with true. cbv beta iota. rewrite Hm. cbn [raise_if mbind res_bind]. eauto.
  - apply (handles_ok_later n (S n)) in Hok; [|lia].
    destruct (dget "handle" (or_args o)) as [[| | | |h| |]|] eqn:Eh; try done.
    + destruct (String.eqb_spec (or_call o) "open") as [Hc|]; [|done].
      unfold failed_open in Ef. rewrite Hc in Ef. destruct (ot_open _ Ho Hc) as [(h & E & _)|[_ Hne]]; [congruence|].
      by destruct (String.eqb_spec (rs_outcome (or_result o)) "success").
    + cbn [hkey_of mbind res_bind]. destruct (String.eqb_spec (or_call o) "open") as [Hc|Hc].
      * destruct (ot_open _ Ho Hc) as [(h' & E & Hh & _)|[E _]]; [|congruence]. assert (h' = h) as -> by congruence.
        destruct (decide (h ∈ live)); [done|]. injection Hstep as <-.
        destruct (handles_opened _ _ _ h Hok) as [-> Hok']; [done..|]. cbn [raise_if mbind res_bind]. eauto.
      * destruct (decide (h ∈ live)) as [Hin|]; [|done]. injection Hstep as <-.
        assert (hmem (KStr h) open = true) as -> by (apply bool_decide_eq_true; by eapply ho_live).
        cbn [raise_unless mbind res_bind]. eexists. split; [done|].
        destruct (String.eqb (or_call o) "close"); [by apply handles_closed|done].
    + injection Hstep as <-. eauto.
Qed.

Lemma check_normal_op stream nodes n live live' st o : op_typed o → live_step live o = Some live' →
  seen_ok pid n (w_seen st) → handles_ok n live (w_open st) →
  ∃ st', check_op3 nodes (JObj []) "captured" st n (normal_op stream n o) = Ok st' ∧
    seen_ok pid (S n) (w_seen st') ∧ handles_ok (S n) live' (w_open st').
Proof.
  intros Ho Hstep Hseen Hok. destruct (handles_step _ _ _ _ _ Ho Hstep Hok) as (open' & Hh & Hok').
  exists {| w_seen := <[ pid n := n ]> (w_seen st); w_open := open' |}.
  split; [|split; [apply (seen_step pid _ _ Hseen)|exact Hok'] ].
  eapply (check_captured_op _ _ _ _ _ _ _ _ _ _ _ _ (rs_outcome (or_result o))); try done.
  - by rewrite Hseen, decide_False by lia.
  - name_in.
  - apply (ot_call _ Ho).
  - by apply check_normal_args.
  - destruct n as [|j]; [constructor|]. apply Forall_singleton. apply (dep_ok _ _ _ _ j); [|lia|name_in].
    rewrite (seen_step pid _ _ Hseen). by rewrite decide_True by lia.
  - apply (ot_begin _ Ho).
  - apply (ot_outcome _ Ho).
  - unfold normal_expected, expected_fields. by repeat case_match.
Qed.

Lemma check_normal_ops stream nodes ops live : Forall op_typed ops → live_after ops = Some live →
  ∃ st, foldiM (check_op3 nodes (JObj []) "captured") 0 {| w_seen := ∅; w_open := [] |} (imap (normal_op stream) ops) = Ok st.
Proof.
  intros Hops. assert (∀ post n live0 st, Forall op_typed post →
    foldl (λ acc o, acc ≫= λ live, live_step live o) (Some live0) post = Some live →
    seen_ok pid n (w_seen st) → handles_ok n live0 (w_open st) →
    ∃ st', foldiM (check_op3 nodes (JObj []) "captured") n st (imap (λ i o, normal_op stream (n + i) o) post) = Ok st') as Hgen.
  { induction post as [|o post IH]; intros n live0 st Ht Hl Hs Hh; [by eexists|].
    apply Forall_cons in Ht as [Ho Ht]. simpl in Hl. cbn [imap foldiM]. rewrite Nat.add_0_r.
    destruct (live_step live0 o) as [live1|] eqn:E.
    - destruct (check_normal_op stream nodes n _ _ st o Ho E Hs Hh) as (st1 & -> & Hs1 & Hh1). cbn [mbind res_bind].
      destruct (IH (S n) live1 st1 Ht Hl Hs1 Hh1) as (st' & Hst'). exists st'. rewrite <- Hst'. f_equal.
      apply imap_ext. intros i o' _. simpl. by rewrite Nat.add_succ_r.
    - exfalso. clear -Hl. induction post; simpl in Hl; done || auto. }
  intros Hl. apply (Hgen ops 0%nat ∅ {| w_seen := ∅; w_open := [] |}); [done|exact Hl|done|].
  constructor; simpl; set_solver.
Qed.

(** ** The capture as a whole *)
Lemma relax_captured id call i args st deps release exp :
  relax_op (captured_op id "posix" call i args st deps release exp) =
  if String.eqb call "open" && py_true (getd exp "no_handle")
  then Ok (captured_op id "posix" call i (dset "handle" (JStr ("failed-" +:+ id)) args) st deps release exp)
  else Ok (captured_op id "posix" call i args st deps release exp).
Proof.
  unfold relax_op, captured_op. simpl. destruct (String.eqb call "open"); simpl; [|done].
  by destruct (py_true (getd exp "no_handle")).
Qed.

Lemma relax_normal stream i o : relax_op (normal_op stream i o) = Ok (normal_op stream i o).
Proof.
  unfold normal_op. rewrite relax_captured.
  assert (getd (normal_expected o) "no_handle" = if failed_open o then JBool true else JNull) as ->.
  { unfold normal_expected, getd. rewrite dget_app.
    assert (dget "no_handle" (expected_fields (or_result o)) = None) as ->.
    { unfold expected_fields. by repeat case_match. }
    by destruct (failed_open o). }
  unfold normal_args. destruct (failed_open o) eqn:E; [|by rewrite andb_false_r].
  apply andb_true_iff in E as [-> _]. cbn [py_true andb]. by rewrite dset_idem.
Qed.

Lemma relax_doc prov eng nodes entries stream ops h tm :
  _relax_failed_opens (captured_doc prov eng nodes entries (imap (normal_op stream) ops) h tm) =
  Ok (captured_doc prov eng nodes entries (imap (normal_op stream) ops) h tm).
Proof.
  unfold _relax_failed_opens. rewrite doc_operations. cbn [mbind res_bind].
  assert (mapMR relax_op (imap (normal_op stream) ops) = Ok (imap (normal_op stream) ops)) as ->; [|done].
  apply mapMR_Ok, Forall2_same_length_lookup_2; [done|]. intros i x y Hx Hy.
  assert (x = y) as -> by congruence. apply list_lookup_imap_Some in Hy as (o & _ & ->). apply relax_normal.
Qed.

(** Every record can be written. *)
Lemma writable_op stream o : op_typed o → Forall (λ kv, writable kv.2) (op_event stream o).
Proof.
  intros Ho. repeat (apply Forall_cons; split; [try done|]); [| |by apply Forall_nil].
  - apply writable_fields, Ho.
  - apply writable_obj; [apply result_keys|]. repeat (apply Forall_cons; split; [try done|]); [| |by apply Forall_nil].
    + apply writable_fields, Ho.
    + apply plain_writable, Ho.
Qed.

Lemma writable_ns nodes entries : namespace_ok nodes entries → Forall (λ kv, writable kv.2) (ns_event nodes entries).
Proof.
  intros H. repeat (apply Forall_cons; split; [try done|]); [| |by apply Forall_nil].
  - apply writable_obj.
    + unfold nodes_json, keys. rewrite map_map. apply (no_nodes _ _ H).
    + apply Forall_forall. intros kv Hin. apply list_elem_of_fmap in Hin as ([nid n] & -> & _). simpl.
      apply writable_obj; [name_in|]. by repeat constructor.
  - apply writable_list, Forall_forall. intros v Hin. apply list_elem_of_fmap in Hin as (e & -> & _).
    apply writable_obj; [name_in|]. by repeat constructor.
Qed.

Definition closing (closed : bool) (r : RecordingFS) : RecordingFS := if closed then close_capture r else r.

Definition last_events (closed : bool) (r : RecordingFS) : list dict :=
  if closed then [end_event (open_handles r)] else [].

(** The notes of a capture: nothing, when it was closed with no handle open. *)
Definition notes_of (closed : bool) (handles : list string) : list json :=
  if closed then
    match handles with
    | [] => []
    | _ => [JStr (str_of_Z (Z.of_nat (length handles)) +:+ " handles still open at capture end")]
    end
  else [JStr "no end marker: the capture did not close"].

Section capture.
Context (stream digest : string) (nodes : list (string * (bool * Z))) (entries : list (string * string)).
Context (ops : list op_rec) (r : RecordingFS).
Context (Hns : namespace_ok nodes entries).
Context (Hinv : rec_inv stream [start_event stream digest; ns_event nodes entries] ops r).
Context (closed : bool).

Definition full_log : list dict :=
  start_event stream digest :: ns_event nodes entries :: map (op_event stream) ops ++ last_events closed r.

Lemma closing_log : rc_log (closing closed r) = numbered_log full_log.
Proof.
  destruct Hinv as [_ H2 H3 _ _ _]. unfold closing, full_log, last_events. destruct closed.
  - unfold close_capture, _put. cbn [rc_log].
    change (start_event stream digest :: ns_event nodes entries :: map (op_event stream) ops ++ [end_event (open_handles r)])
      with (([start_event stream digest; ns_event nodes entries] ++ map (op_event stream) ops) ++ [end_event (open_handles r)]).
    unfold numbered_log. rewrite imap_app. rewrite H2 at 1. unfold numbered_log. f_equal. cbn [imap]. f_equal.
    rewrite H3, H2. unfold numbered_log. rewrite length_imap, Nat.add_0_r. done.
  - rewrite app_nil_r. exact H2.
Qed.

Lemma parse_capture : parse_lines (capture_lines (closing closed r)) = Ok (events_from 1 full_log).
Proof.
  unfold capture_lines. rewrite closing_log, parse_records; [by rewrite events_of_log|].
  apply writable_log. unfold full_log. apply Forall_cons. split; [split; [eexists; apply headed_start|by repeat (constructor; [by apply writable_check|])]|].
  apply Forall_cons. split; [split; [eexists; apply headed_ns|by apply writable_ns]|]. apply Forall_app. split.
  - apply Forall_fmap, (Forall_impl op_typed); [apply (ri_typed _ _ _ _ Hinv)|]. intros o Ho. simpl.
    split; [eexists; apply headed_op|by apply writable_op].
  - unfold last_events. destruct closed; [|done]. apply Forall_singleton. split; [eexists; apply headed_end|].
    repeat (apply Forall_cons; split; [try done|]); [|by apply Forall_nil]. apply plain_writable, plain_strs.
Qed.

Lemma captured_notes : capture_notes (events_from 1 full_log) = Ok (notes_of closed (open_handles r)).
Proof.
  assert (Forall (λ rec, ∃ ev, headed ev rec ∧ ev ≠ "end")
    (start_event stream digest :: ns_event nodes entries :: map (op_event stream) ops)) as Hpre.
  { constructor; [eexists; split; [apply headed_start|done]|]. constructor; [eexists; split; [apply headed_ns|done]|].
    apply Forall_fmap, Forall_forall. intros o _. eexists. split; [apply headed_op|done]. }
  unfold capture_notes, full_log, last_events. destruct closed.
  - rewrite !app_comm_cons, (next_event_some "end" (start_event stream digest :: ns_event nodes entries :: map (op_event stream) ops));
      [|done|apply headed_end].
    cbn [mbind res_bind]. rewrite (headed_get "end") by (apply headed_end || done).
    change (dget "open_handles" (end_event (open_handles r))) with (Some (JList (map JStr (open_handles r)))).
    cbn [fmap option_fmap option_map]. rewrite (proj1 (plain_strs _)). cbn [from_option id mbind res_bind].
    unfold notes_of. destruct (open_handles r) as [|x l] eqn:E; [done|]. cbn [map py_true]. simpl. by rewrite length_map.
  - rewrite app_nil_r, next_event_none by done. done.
Qed.

Lemma captured_namespace prov eng h tm : ∃ nodes', nodes' ≡ₚ nodes ∧
  add_captured_namespace (captured_doc prov eng [] [] [] h tm) (events_from 1 full_log) =
  Ok (captured_doc prov eng (stored_nodes nodes') (map entry_json entries) [] h tm).
Proof.
  destruct (sorted_nodes nodes) as (nodes' & Hp & Hs). exists nodes'. split; [done|].
  unfold add_captured_namespace, full_log.
  assert (Forall (λ rec, ∃ ev, headed ev rec ∧ ev ≠ "namespace") [start_event stream digest]) as Hpre.
  { apply Forall_singleton. eexists. split; [apply headed_start|done]. }
  pose proof (next_event_some "namespace" _ _ (map (op_event stream) ops ++ last_events closed r) 1 Hpre
    (headed_ns nodes entries)) as Hnext.
  cbn [app] in Hnext. rewrite Hnext. cbn [mbind res_bind default from_option id].
  rewrite (headed_item "namespace" _ _ "nodes" (JObj (nodes_json nodes))) by (apply headed_ns || done).
  rewrite (headed_item "namespace" _ _ "entries" (JList (map entry_json entries))) by (apply headed_ns || done).
  change (sort_keys (JObj (nodes_json nodes))) with (JObj (sorted_fields (nodes_json nodes))). rewrite Hs.
  change (sort_keys (JList (map entry_json entries))) with (JList (map sort_keys (map entry_json entries))).
  cbn [mbind res_bind iterate].
  change (captured_doc prov eng [] [] [] h tm) with (captured_doc prov eng (stored_nodes []) [] [] h tm).
  rewrite (fold_nodes prov eng h tm nodes' [] []).
  - cbn [app mbind res_bind]. apply (fold_entries prov eng h tm (stored_nodes nodes') entries []).
  - unfold keys. simpl. rewrite Hp. apply (no_nodes _ _ Hns).
Qed.

Lemma fold_normalize prov eng nds ents h tm pre l s : Forall op_typed l →
  foldM normalize_event (norm_at prov eng nds ents h tm stream pre) (events_from s (map (op_event stream) l)) =
  Ok (norm_at prov eng nds ents h tm stream (pre ++ l)).
Proof.
  intros Hl. revert pre s. induction Hl as [|o l Ho _ IH]; intros pre s; [by rewrite app_nil_r|].
  cbn [map events_from foldM]. rewrite normalize_op by done. cbn [mbind res_bind]. rewrite IH. by rewrite <- app_assoc.
Qed.

Lemma captured_ops prov eng nds ents h tm :
  foldM normalize_event (mkNorm (captured_doc prov eng nds ents [] h tm) [] 0 []) (events_from 1 full_log) =
  Ok (norm_at prov eng nds ents h tm stream ops).
Proof.
  change (mkNorm (captured_doc prov eng nds ents [] h tm) [] 0 []) with (norm_at prov eng nds ents h tm stream []).
  assert (∀ ev rec s pre, headed ev rec → ev ≠ "op" →
    normalize_event (norm_at prov eng nds ents h tm stream pre) (read_back rec s) =
    Ok (norm_at prov eng nds ents h tm stream pre)) as Hother.
  { intros ev rec s pre Hh Hne. unfold normalize_event. rewrite (headed_ev ev) by done. cbn [mbind res_bind eq_str].
    by destruct (String.eqb_spec ev "op"). }
  unfold full_log. cbn [events_from foldM].
  rewrite (Hother "start") by (apply headed_start || done). cbn [mbind res_bind].
  rewrite (Hother "namespace") by (apply headed_ns || done). cbn [mbind res_bind].
  rewrite events_from_app, foldM_app, fold_normalize by apply (ri_typed _ _ _ _ Hinv). cbn [mbind res_bind app].
  unfold last_events. destruct closed; [|done]. cbn [events_from foldM].
  by rewrite (Hother "end") by (apply headed_end || done).
Qed.

Context (sha256 : string → string) (Hsha : ∀ s, sha256 s ≠ "").
Context (engine : option dict) (Heng : engine_ok (engine_or engine POSIX_ENGINE) = true).

(** The document: [nodes'] are the nodes of the snapshot by their ids. *)
Definition posix_doc (nodes' : list (string * (bool * Z))) : dict :=
  captured_doc
    (captured_provenance (notes_of closed (open_handles r)) [("schema", JStr CAPTURE_SCHEMA); ("root_digest", JStr digest)])
    (engine_json (engine_or engine POSIX_ENGINE)) (stored_nodes nodes') (map entry_json entries)
    (imap (normal_op stream) ops)
    (JObj [("events", JInt (Z.of_nat (length full_log))); ("operations", JInt (Z.of_nat (length ops)))])
    (JObj [("sidecar", JStr "timing.jsonl"); ("sidecar_sha256", JStr (sha256 (sidecar_text (imap normal_row ops))))]).

Lemma normalize_capture_doc : ∃ nodes', nodes' ≡ₚ nodes ∧
  validate_workload (JObj (posix_doc nodes')) = Ok tt ∧
  normalize_posix_capture sha256 (capture_lines (closing closed r)) engine =
  Ok (JObj (posix_doc nodes'), sidecar_text (imap normal_row ops)).
Proof.
  destruct (captured_namespace
    (captured_provenance (notes_of closed (open_handles r)) [("schema", JStr CAPTURE_SCHEMA); ("root_digest", JStr digest)])
    (engine_json (engine_or engine POSIX_ENGINE)) (JObj []) no_timing) as (nodes' & Hp & Hadd).
  destruct (ri_live _ _ _ _ Hinv) as (live & Hlive & _).
  destruct (check_normal_ops stream (stored_nodes nodes') ops live (ri_typed _ _ _ _ Hinv) Hlive) as [st Hst].
  assert (validate_workload (JObj (posix_doc nodes')) = Ok tt) as Hval.
  { eapply validate_captured; [done|by eapply check_stored_namespace|exact Hst|apply Hsha]. }
  exists nodes'. split_and!; [done..|].
  unfold normalize_posix_capture. rewrite parse_capture. cbn [mbind res_bind]. rewrite captured_notes.
  change (events_from 1 full_log) with (read_back (start_event stream digest) 1 :: events_from (1 + 1) (tail full_log)) at 1.
  cbv beta iota zeta. rewrite (headed_ev "start") by apply headed_start.
  cbn [mbind res_bind]. change (eq_str (JStr "start") "start") with true. cbn [raise_unless mbind res_bind].
  rewrite !(headed_get "start") by (apply headed_start || done). cbn [mbind res_bind].
  change (default JNull (sort_keys <$> dget "schema" (start_event stream digest))) with (JStr CAPTURE_SCHEMA).
  change (default JNull (sort_keys <$> dget "root_digest" (start_event stream digest))) with (JStr digest).
  rewrite new_captured by done. cbn [mbind res_bind]. rewrite Hadd. cbn [mbind res_bind].
  rewrite captured_ops. cbn [mbind res_bind]. cbv zeta. rewrite length_events.
  match goal with |- context [_relax_failed_opens ?d] => change d with (posix_doc nodes') end.
  unfold posix_doc at 1. rewrite relax_doc. cbn [mbind res_bind]. fold (posix_doc nodes'). rewrite Hval. done.
Qed.
End capture.


Lemma complete_iff closed r : notes_of closed (open_handles r) = [] ↔ closed = true ∧ rc_handles r = ∅.
Proof.
  unfold notes_of, open_handles. destruct closed; [|by split; [|intros []]].
  pose proof (Permutation_length (stable_sort_Permutation String.le (map_to_list (rc_handles r)).*2)) as Hlen.
  rewrite length_fmap, length_map_to_list in Hlen.
  destruct (stable_sort _ _) as [|x l]; simpl in Hlen.
  - split; [|done]. intros _. split; [done|]. by apply map_size_empty_inv.
  - split; [done|]. intros [_ Hr]. rewrite Hr, map_size_empty in Hlen. lia.
Qed.

(** C5: Every capture of a sane session becomes a valid workload.  Whatever the
    operating system answered and whenever the session stopped, the file that
    the recorder wrote is read back and normalized without an error; the
    operations are exactly the recorded calls in their order, each with its
    synthetic arguments and outcome, each after the one before; the timing
    sidecar has a row for each; the document is valid; and it is marked complete
    iff the capture was closed with no handle open.  A session is sane when its
    recorded calls use descriptors that the recorder gave out, sizes and offsets
    that are not negative and a clock that is not negative. *)
Theorem posix_capture_normalizes (sha256 : string → string) (root : list string) (stream digest : string)
    (walk : list walked) (lstat : string → stat) (calls : list ((Z * Z) * fs_call)) (closed : bool) (engine : option dict) :
  (∀ s, sha256 s ≠ "") → (∀ p, 0 ≤ st_size (lstat p)) → walk_ok walk →
  engine_ok (engine_or engine POSIX_ENGINE) = true →
  sane_session root (new_recorder stream digest walk lstat) calls = true →
  let r := fold_left (do_call root) calls (new_recorder stream digest walk lstat) in
  ∃ ops head wl,
    map (λ o, (or_call o, (or_begin o, or_end o))) ops = trace root calls ∧
    rc_log r = numbered_log (head ++ map (op_event stream) ops) ∧
    normalize_posix_capture sha256 (capture_lines (closing closed r)) engine =
      Ok (JObj wl, sidecar_text (imap normal_row ops)) ∧
    getd wl "operations" = JList (imap (normal_op stream) ops) ∧
    validate_workload (JObj wl) = Ok tt ∧
    (status wl = JStr "complete" ↔ closed = true ∧ rc_handles r = ∅).
Proof.
  intros Hsha Hsize Hwalk Heng Hsane r.
  destruct (new_recorder_inv stream digest walk lstat Hsize Hwalk) as (nodes & entries & Hns & Hinv0).
  destruct (session_inv root _ _ _ _ _ Hinv0 Hsane) as (ops & Hinv & Htrace). fold r in Hinv. simpl in Hinv.
  destruct (normalize_capture_doc stream digest nodes entries ops r Hns Hinv closed sha256 Hsha engine Heng)
    as (nodes' & _ & Hval & Hnorm).
  exists ops, [start_event stream digest; ns_event nodes entries], (posix_doc stream digest nodes entries ops r closed sha256 engine nodes').
  split_and!; [done|apply (ri_log _ _ _ _ Hinv)|done|done|done|].
  rewrite <- complete_iff.
  change (status _) with (JStr (match notes_of closed (open_handles r) with [] => "complete" | _ => "partial" end)).
  by destruct (notes_of closed (open_handles r)).
Qed.

(** ** An example session *)
Definition ex_walk : list walked := [mkWalked "." ["models"] ["index"]; mkWalked "models" [] ["a"; "b"]].
Definition ex_lstat (p : string) : stat :=
  mkStat 1 (Z.of_nat (String.length p)) (String.eqb p "models") (if String.eqb p "index" then 5 else 4096).
Definition ex_calls : list ((Z * Z) * fs_call) :=
  [((10, 11), COpen ["srv"; "models"; "a"] ["rd"] (Gave (3, mkStat 1 8 false 4096)));
   ((12, 13), CPread 3 4096 0 (Gave 4096%nat));
   ((14, 15), COpen ["srv"; "models"; "missing"] ["rd"] (Failed ENOENT));
   ((16, 17), CClose 3 (Gave tt))].

Lemma posix_capture_normalizes_witness :
  ∃ ops head wl,
    map (λ o, (or_call o, (or_begin o, or_end o))) ops = trace ["srv"] ex_calls ∧
    rc_log (fold_left (do_call ["srv"]) ex_calls (new_recorder "app" "d0" ex_walk ex_lstat)) =
      numbered_log (head ++ map (op_event "app") ops) ∧
    normalize_posix_capture (λ _, "00") (capture_lines (closing true
        (fold_left (do_call ["srv"]) ex_calls (new_recorder "app" "d0" ex_walk ex_lstat)))) None =
      Ok (JObj wl, sidecar_text (imap normal_row ops)) ∧
    getd wl "operations" = JList (imap (normal_op "app") ops) ∧
    validate_workload (JObj wl) = Ok tt ∧
    (status wl = JStr "complete" ↔
       true = true ∧ rc_handles (fold_left (do_call ["srv"]) ex_calls (new_recorder "app" "d0" ex_walk ex_lstat)) = ∅).
Proof.
  apply (posix_capture_normalizes (λ _, "00") ["srv"] "app" "d0" ex_walk ex_lstat ex_calls true None).
  - done.
  - intros p. unfold ex_lstat. simpl. destruct (String.eqb p "index"); lia.
  - unfold walk_ok. vm_compute. name_in.
  - reflexivity.
  - vm_compute. reflexivity.
Defined.

(** ** What a capture loses *)

Definition ex_start : RecordingFS := new_recorder "app" "d0" ex_walk ex_lstat.

(** A failed write leaves no record, and the capture is complete without it. *)
Example failed_write_unrecorded :
  rc_log (do_call ["srv"] ex_start ((10, 11), CWrite 3 4096 (Failed 28))) = rc_log ex_start.
Proof. reflexivity. Qed.

(** A recorded error can make the capture unusable: the offset that the kernel
    refused, or the descriptor that it did not know, is refused again. *)
Example refused_offset_rejected :
  let r := fold_left (do_call ["srv"])
    [((10, 11), COpen ["srv"; "index"] ["rd"] (Gave (3, mkStat 1 5 false 5))); ((12, 13), CPread 3 1 (-1) (Failed 22))] ex_start in
  is_ok (normalize_posix_capture (λ _, "00") (capture_lines (close_capture r)) None) = false.
Proof. vm_compute. reflexivity. Qed.

Example unknown_descriptor_rejected :
  let r := do_call ["srv"] ex_start ((10, 11), CClose 9 (Failed EBADF)) in
  is_ok (normalize_posix_capture (λ _, "00") (capture_lines (close_capture r)) None) = false.
Proof. vm_compute. reflexivity. Qed.

(** After a directory was renamed its entries get new names: the replay looks
    for [e2/e0] where its own rename put [e0/e1]. *)
Example renamed_directory_loses_names :
  let r := do_call ["srv"] ex_start ((10, 11), CRename ["srv"; "models"] ["srv"; "moved"] (Gave tt)) in
  ((synthetic ex_start "models").2, (synthetic ex_start "models/b").2) = ("e0", "e0/e1") ∧
  ((synthetic r "moved").2, (synthetic r "moved/b").2) = ("e2", "e2/e0").
Proof. vm_compute. done. Qed.

(** A node id outlives its file: an inode number that the system reuses keeps
    the id of the file before. *)
Example reused_inode_keeps_node :
  let '(r, a) := _node ex_start (mkStat 1 77 false 10) in
  let r := do_call ["srv"] r ((10, 11), CUnlink ["srv"; "a"] (Gave tt)) in
  (_node r (mkStat 1 77 false 99)).2 = a.
Proof. vm_compute. reflexivity. Qed.
