(* ===== verification/RecordS3.v ===== *)
(** * Object captures ([tools/kvio/s3_client.py])

    [RecordingS3] performs an application's S3 calls through its client and
    records each of them under synthetic keys and upload ids;
    [normalize_s3_capture] turns the recorded lines into a typed workload and a
    timing sidecar.  What the client answers is an argument of each call: a
    response, a client error with its code and status, a timeout, or another
    exception, which passes the recorder by. *)

From stdpp Require Import prelude strings list numbers gmap sorting.
From Stdlib Require Import ZArith Lia Ascii.
From S2P Require Import Prelude PyText PyJson JsonText Intent2 Workload3 FakeFS CaptureEvents FakeS3 Naming RecordFS.
Local Open Scope Z_scope.

(** ** The recorder *)
Inductive reply (A : Type) :=
  | Replied (a : A)
  | ClientError (code : string) (status : Z)
  | TimedOut (class : string)              (** [EndpointConnectionError], [ReadTimeoutError] *)
  | Raised.                                (** any other exception *)
Arguments Replied {A} a.
Arguments ClientError {A} code status.
Arguments TimedOut {A} class.
Arguments Raised {A}.

Definition s3_as_dict (r : S3Result) : json :=
  JObj [("outcome", JStr (s3r_outcome r)); ("code", JStr (s3r_code r)); ("bytes", JInt (s3r_bytes r));
        ("meta", JObj (s3r_meta r)); ("upload", s3r_upload r)].

Record RecordingS3 := mkRecS3 {
  r3_stream : string; r3_seq : Z;
  r3_keys : key_naming;
  r3_uploads : list (string * string);     (** real upload id -> synthetic upload id *)
  r3_log : list dict
}.

Definition s3_put (r : RecordingS3) (rec : dict) : RecordingS3 :=
  let s := r3_seq r + 1 in
  mkRecS3 (r3_stream r) s (r3_keys r) (r3_uploads r) (r3_log r ++ [dset "producer_seq" (JInt s) rec]).

(** [_key] and [_upload], on the recorder. *)
Definition s3_key (r : RecordingS3) (real : string) : RecordingS3 * string :=
  let '(k, syn) := _key (r3_keys r) real in (mkRecS3 (r3_stream r) (r3_seq r) k (r3_uploads r) (r3_log r), syn).
Definition s3_upload (r : RecordingS3) (real : string) : RecordingS3 * string :=
  let '(u, syn) := _upload (r3_uploads r) real in (mkRecS3 (r3_stream r) (r3_seq r) (r3_keys r) u (r3_log r), syn).

Record s3_rec := mkS3Op { sr_call : string; sr_args : dict; sr_begin : Z; sr_end : Z; sr_result : S3Result }.

Definition s3_event (stream : string) (o : s3_rec) : dict :=
  [("ev", JStr "op"); ("call", JStr (sr_call o)); ("args", JObj (sr_args o)); ("begin_ns", JInt (sr_begin o));
   ("end_ns", JInt (sr_end o)); ("result", s3_as_dict (sr_result o)); ("stream", JStr stream)].

Definition s3_record (r : RecordingS3) (call : string) (args : dict) (t : Z * Z) (res : S3Result) : RecordingS3 :=
  s3_put r (s3_event (r3_stream r) (mkS3Op call args t.1 t.2 res)).

(** [_call]; [fn] makes the result of a response. *)
Definition _call {A} (r : RecordingS3) (call : string) (args : dict) (t : Z * Z)
    (fn : RecordingS3 → A → RecordingS3 * S3Result) (ans : reply A) : RecordingS3 * res S3Result :=
  match ans with
  | Replied a => let '(r, result) := fn r a in (s3_record r call args t result, Ok result)
  | ClientError code status =>
      let '(oc, c) := outcome_of_client_error code status in
      (s3_record r call args t (s3_result oc c 0 []), Raise (Exn RuntimeError "ClientError"))
  | TimedOut class =>
      (s3_record r call args t (s3_result "timeout" class 0 []), Raise (Exn RuntimeError class))
  | Raised => (r, Raise (Exn RuntimeError "other"))
  end.

Definition keep {A} (f : A → S3Result) (r : RecordingS3) (a : A) : RecordingS3 * S3Result := (r, f a).

Definition put (r : RecordingS3) (key : string) (len : nat) (t : Z * Z) (ans : reply unit) :=
  let '(r, k) := s3_key r key in
  _call r "put" [("key", JStr k); ("size", JInt (Z.of_nat len))] t
    (keep (λ _, s3_result "success" "200" (Z.of_nat len) [])) ans.

(** A range has an offset and a length.  The response: the HTTP status and the
    length of the body. *)
Definition get_ (r : RecordingS3) (key : string) (range : option (Z * Z)) (t : Z * Z) (ans : reply (Z * nat)) :=
  let '(r, k) := s3_key r key in
  _call r "get" (("key", JStr k) :: match range with Some (o, l) => [("offset", JInt o); ("length", JInt l)] | None => [] end) t
    (keep (λ a, s3_result "success" (str_of_Z a.1) (Z.of_nat a.2) [])) ans.

Definition head_ (r : RecordingS3) (key : string) (t : Z * Z) (ans : reply Z) :=
  let '(r, k) := s3_key r key in
  _call r "head" [("key", JStr k)] t (keep (λ size, s3_result "success" "200" 0 [("size", JInt size)])) ans.

(** The responses: the number of keys on each page. *)
Definition list_ (r : RecordingS3) (prefix : string) (t : Z * Z) (ans : reply (list Z)) :=
  let '(r, k) := if String.eqb prefix "" then (r, "") else s3_key r prefix in
  _call r "list" [("prefix", JStr k)] t
    (keep (λ pages, s3_result "success" "200" 0
       [("count", JInt (foldr Z.add 0 pages)); ("pages", JInt (Z.of_nat (length pages)))])) ans.

Definition delete_ (r : RecordingS3) (key : string) (t : Z * Z) (ans : reply unit) :=
  let '(r, k) := s3_key r key in
  _call r "delete" [("key", JStr k)] t (keep (λ _, s3_result "success" "204" 0 [])) ans.

(** The response: the upload id. *)
Definition mpu_create (r : RecordingS3) (key : string) (t : Z * Z) (ans : reply string) :=
  let '(r, k) := s3_key r key in
  _call r "mpu_create" [("key", JStr k); ("upload", JNull)] t
    (λ r id, let '(r, u) := s3_upload r id in (r, mkS3Result "success" "200" 0 [] (JStr u))) ans.

Definition mpu_part (r : RecordingS3) (key upload_id : string) (part : Z) (len : nat) (t : Z * Z) (ans : reply unit) :=
  let '(r, k) := s3_key r key in
  let '(r, u) := s3_upload r upload_id in
  _call r "mpu_part" [("key", JStr k); ("upload", JStr u); ("part", JInt part); ("size", JInt (Z.of_nat len))] t
    (keep (λ _, s3_result "success" "200" (Z.of_nat len) [])) ans.

(** The response: the code of an error inside the body, if there is one. *)
Definition mpu_complete (r : RecordingS3) (key upload_id : string) (t : Z * Z) (ans : reply (option string)) :=
  let '(r, k) := s3_key r key in
  let '(r, u) := s3_upload r upload_id in
  _call r "mpu_complete" [("key", JStr k); ("upload", JStr u)] t
    (keep (λ e, match e with Some code => s3_result "error" code 0 [] | None => s3_result "success" "200" 0 [] end)) ans.

Definition mpu_abort (r : RecordingS3) (key upload_id : string) (t : Z * Z) (ans : reply unit) :=
  let '(r, k) := s3_key r key in
  let '(r, u) := s3_upload r upload_id in
  _call r "mpu_abort" [("key", JStr k); ("upload", JStr u)] t (keep (λ _, s3_result "success" "204" 0 [])) ans.

Definition S3_SCHEMA : string := "kvio.s3-capture.v1".

Definition s3_start (stream sdk bucket_digest : string) : dict :=
  [("ev", JStr "start"); ("schema", JStr S3_SCHEMA); ("stream", JStr stream); ("sdk", JStr sdk);
   ("bucket_digest", JStr bucket_digest); ("clock", JObj [("domain", JStr "CLOCK_MONOTONIC"); ("unit", JStr "ns")])].

(** [RecordingS3.__init__] *)
Definition new_s3_recorder (stream sdk bucket_digest : string) : RecordingS3 :=
  s3_put (mkRecS3 stream 0 no_keys [] []) (s3_start stream sdk bucket_digest).

Definition s3_close_capture (r : RecordingS3) : RecordingS3 := s3_put r [("ev", JStr "end")].

Definition s3_capture_lines (r : RecordingS3) : list string := map (λ rec, dumps Spaced (JObj rec) +:+ LF) (r3_log r).

(** What an application can ask of the recorder, with the client's answer. *)
Inductive s3_call :=
  | SPut (key : string) (len : nat) (ans : reply unit)
  | SGet (key : string) (range : option (Z * Z)) (ans : reply (Z * nat))
  | SHead (key : string) (ans : reply Z)
  | SList (prefix : string) (ans : reply (list Z))
  | SDelete (key : string) (ans : reply unit)
  | SCreate (key : string) (ans : reply string)
  | SPart (key upload_id : string) (part : Z) (len : nat) (ans : reply unit)
  | SComplete (key upload_id : string) (ans : reply (option string))
  | SAbort (key upload_id : string) (ans : reply unit).

Definition do_s3_call (r : RecordingS3) (tc : (Z * Z) * s3_call) : RecordingS3 :=
  let t := tc.1 in
  match tc.2 with
  | SPut key len ans => (put r key len t ans).1
  | SGet key range ans => (get_ r key range t ans).1
  | SHead key ans => (head_ r key t ans).1
  | SList prefix ans => (list_ r prefix t ans).1
  | SDelete key ans => (delete_ r key t ans).1
  | SCreate key ans => (mpu_create r key t ans).1
  | SPart key u part len ans => (mpu_part r key u part len t ans).1
  | SComplete key u ans => (mpu_complete r key u t ans).1
  | SAbort key u ans => (mpu_abort r key u t ans).1
  end.

(** ** Normalizing *)
Record s3_norm := mkS3Norm {
  n3_wl : dict; n3_prev : list (hkey * string); n3_creates : list (hkey * string); n3_n : Z; n3_sidecar : list json
}.

(** The expected outcome: size and count when the result has them. *)
Definition s3_expected_of (r : json) : res dict :=
  oc ← item r "outcome"; b ← get r "bytes"; meta ← get_default r "meta" (JObj []);
  extra ← mapMR (λ k, has ← py_in (JStr k) meta;
                      if (has : bool) then (v ← item meta k; Ok [(k, v)]) else Ok []) ["size"; "count"];
  Ok ([("outcome", oc)] ++ (if py_true b then [("bytes", b)] else []) ++ mjoin extra).

Definition OF_UPLOAD : list string := ["mpu_part"; "mpu_complete"; "mpu_abort"].

(** The edges of an operation: after the last one of its stream, and after the
    creation of its upload when that is another one. *)
Definition s3_deps (st : s3_norm) (k : hkey) (call : json) (args : dict) : res (list json) :=
  let program := match hget k (n3_prev st) with
                 | Some p => [JObj [("op", JStr p); ("kind", JStr "program")]]
                 | None => []
                 end in
  if in_tuple call OF_UPLOAD then
    u ← hkey_of (getd args "upload");
    match hget u (n3_creates st) with
    | Some c => if bool_decide (hget k (n3_prev st) = Some c) then Ok program
                else Ok (program ++ [JObj [("op", JStr c); ("kind", JStr "sync")]])
    | None => Ok program
    end
  else Ok program.

Definition normalize_s3_event (st : s3_norm) (e : json) : res s3_norm :=
  ev ← get e "ev";
  if negb (eq_str ev "op") then Ok st else
  let n := n3_n st + 1 in
  let op_id := "s" +:+ str_of_Z n in
  args ← (a ← item e "args"; py_dict a);
  result ← item e "result";
  call ← item e "call";
  ac ← (if eq_str call "mpu_create" then
          u ← get result "upload";
          let u := if py_true u then u else JStr ("failed-" +:+ op_id) in
          k ← hkey_of u; Ok (dset "upload" u args, hset k op_id (n3_creates st))
        else Ok (args, n3_creates st));
  let '(args, creates) := ac in
  stream ← item e "stream"; k ← hkey_of stream;
  deps ← s3_deps (mkS3Norm (n3_wl st) (n3_prev st) creates (n3_n st) (n3_sidecar st)) k call args;
  exp ← s3_expected_of result;
  release ← item e "begin_ns";
  wl ← add_captured_op (n3_wl st) op_id "s3" call stream deps release exp args;
  end_ns ← item e "end_ns"; outcome ← item result "outcome";
  code ← get_default result "code" (JStr ""); b ← get_default result "bytes" (JInt 0);
  Ok (mkS3Norm wl (hset k op_id (n3_prev st)) creates n
        (n3_sidecar st ++ [JObj [("op_id", JStr op_id); ("begin_ns", release); ("end_ns", end_ns);
                                 ("outcome", outcome); ("code", code); ("bytes", b)]])).

Section normalize.
(** [hashlib.sha256(data).hexdigest()] *)
Context (sha256 : string → string).

Definition s3_engine (sdk : json) : dict :=
  [("family", JStr "s3"); ("name", JStr "application-sdk"); ("revision", sdk)].

Definition normalize_s3_capture (lines : list string) (engine : option dict) : res (json * string) :=
  events ← parse_lines lines;
  match events with
  | [] => Raise (w3err "capture must begin with a start event")
  | start :: _ =>
      ev ← get start "ev";
      raise_unless (eq_str ev "start") (w3err "capture must begin with a start event") ;;
      e ← next_event "end" events;
      let notes := match e with Some _ => [] | None => [JStr "no end marker"] end in
      sdk ← get_default start "sdk" (JStr "unknown");
      schema ← get start "schema"; digest ← get start "bucket_digest";
      wl ← new_workload (JStr "api") (JStr "declared") (JStr "captured") (JStr "observed_submission")
             (engine_or engine (s3_engine sdk)) (JStr (match notes with [] => "complete" | _ => "partial" end))
             (JList notes) (JObj [("schema", schema); ("bucket_digest", digest)]) "incompressible";
      st ← foldM normalize_s3_event (mkS3Norm wl [] [] 0 []) events;
      let side := sidecar_text (n3_sidecar st) in
      let wl := dset "timing" (JObj [("sidecar", JStr "timing.jsonl"); ("sidecar_sha256", JStr (sha256 side))]) (n3_wl st) in
      let wl := dset "health" (JObj [("events", JInt (Z.of_nat (length events))); ("operations", JInt (n3_n st))]) wl in
      validate_workload (JObj wl) ;;
      Ok (JObj wl, side)
  end.
End normalize.
