(* ===== verification/RecordS3Correct.v ===== *)
(** * Correctness of object captures

    Whatever an application does through the recorder, the capture is a valid
    workload: one operation per recorded call, in order, each after the one
    before and, for the calls of a multipart upload, after the creation of the
    upload. *)

From stdpp Require Import prelude strings list numbers gmap sorting.
From Stdlib Require Import ZArith Lia Ascii.
From S2P Require Import Prelude PyText PyJson JsonText Intent Intent2 Workload3 FakeFS CaptureEvents FakeS3 Naming RecordFS CaptureDoc RecordS3.
Local Open Scope Z_scope.

(** ** What the recorder keeps *)
Record s3_typed (o : s3_rec) : Prop := {
  st_call : sr_call o ∈ keys (calls_of "s3");
  st_args : plain_fields (sr_args o);
  st_own : Forall (λ k, dget k (sr_args o) = None) (GIVEN ++ DEFAULTED ++ ["node"; "path"; "new_path"; "flags"]);
  st_fields : Forall (λ f, is_Some (dget f (sr_args o))) (fields_of "s3" (sr_call o));
  st_int : Forall (λ k, from_option (λ v, ∃ z, v = JInt z ∧ 0 ≤ z) True (dget k (sr_args o)))
             ["size"; "offset"; "length"; "part"];
  st_begin : 0 ≤ sr_begin o;
  st_outcome : s3r_outcome (sr_result o) ∈ OUTCOMES3;
  st_meta : plain_fields (s3r_meta (sr_result o));
  st_upload : s3r_upload (sr_result o) = JNull ∨ ∃ u, s3r_upload (sr_result o) = JStr u ∧ u ≠ "";
  st_of_upload : sr_call o ∈ OF_UPLOAD → ∃ u, dget "upload" (sr_args o) = Some (JStr u)
}.

Record s3_inv (stream : string) (start : dict) (ops : list s3_rec) (r : RecordingS3) : Prop := {
  si_stream : r3_stream r = stream;
  si_log : r3_log r = numbered_log (start :: map (s3_event stream) ops);
  si_seq : r3_seq r = Z.of_nat (length (r3_log r));
  si_typed : Forall s3_typed ops;
  si_uploads : Forall (λ kv, kv.2 ≠ "") (r3_uploads r)
}.

(** Only the tables of names differ. *)
Record same_log (r r' : RecordingS3) : Prop := {
  sl_stream : r3_stream r' = r3_stream r; sl_log : r3_log r' = r3_log r; sl_seq : r3_seq r' = r3_seq r;
  sl_uploads : Forall (λ kv, kv.2 ≠ "") (r3_uploads r) → Forall (λ kv, kv.2 ≠ "") (r3_uploads r')
}.

#[export] Instance same_log_preorder : PreOrder same_log.
Proof.
  split; [done|]. intros a b c [H1 H2 H3 H4] [E1 E2 E3 E4]. constructor; [congruence..|auto].
Qed.

Lemma key_same r real : ∃ r' k, s3_key r real = (r', k) ∧ same_log r r'.
Proof. unfold s3_key. destruct (_key _ _) as [ks k]. eexists _, _. by split. Qed.

Lemma Forall_dset_snd {A} (P : A → Prop) k v (d : list (string * A)) :
  Forall (λ kv, P kv.2) d → P v → Forall (λ kv, P kv.2) (dset k v d).
Proof.
  intros Hd Hv. induction Hd as [|[k' v'] d Hx Hd IH]; simpl; [by constructor|].
  destruct (String.eqb k k'); by constructor.
Qed.

Lemma upload_same r real : Forall (λ kv, kv.2 ≠ "") (r3_uploads r) →
  ∃ r' u, s3_upload r real = (r', u) ∧ same_log r r' ∧ u ≠ "".
Proof.
  intros Hu. unfold s3_upload, _upload. destruct (dget real (r3_uploads r)) as [u|] eqn:E.
  - eexists _, _. split_and!; [done|done|]. apply dget_Some_In in E. rewrite Forall_forall in Hu. by apply (Hu _ E).
  - eexists _, _. split_and!; [done| |done]. constructor; try done. intros H. by apply (Forall_dset_snd (λ s, s ≠ "")).
Qed.

Lemma s3_inv_same stream start ops r r' : same_log r r' → s3_inv stream start ops r → s3_inv stream start ops r'.
Proof. intros [H1 H2 H3 H4] [E1 E2 E3 E4 E5]. constructor; rewrite ?H1, ?H2, ?H3; auto. Qed.

Lemma s3_inv_record stream start ops r call args t result : s3_inv stream start ops r →
  s3_typed (mkS3Op call args t.1 t.2 result) →
  s3_inv stream start (ops ++ [mkS3Op call args t.1 t.2 result]) (s3_record r call args t result).
Proof.
  intros [H1 H2 H3 H4 H5] Ho. unfold s3_record, s3_put. constructor; simpl; [done| | | |done].
  - rewrite H2, map_app, H1. unfold numbered_log at 2. rewrite app_comm_cons, imap_app. f_equal. cbn [imap map]. f_equal.
    rewrite Nat.add_0_r, H3, H2. unfold numbered_log. by rewrite length_imap.
  - rewrite length_app, H3. simpl. lia.
  - apply Forall_app. split; [done|]. by apply Forall_singleton.
Qed.

(** ** The calls keep it *)
Definition s3_name (c : s3_call) : string :=
  match c with
  | SPut _ _ _ => "put" | SGet _ _ _ => "get" | SHead _ _ => "head" | SList _ _ => "list" | SDelete _ _ => "delete"
  | SCreate _ _ => "mpu_create" | SPart _ _ _ _ _ => "mpu_part" | SComplete _ _ _ => "mpu_complete"
  | SAbort _ _ _ => "mpu_abort"
  end.

Definition answered {A} (a : reply A) : bool := match a with Raised => false | _ => true end.

(** The calls that are recorded: the client answered, or failed in a way the recorder knows. *)
Definition s3_recorded (c : s3_call) : bool :=
  match c with
  | SPut _ _ a | SDelete _ a | SPart _ _ _ _ a | SAbort _ _ a => answered a
  | SGet _ _ a => answered a
  | SHead _ a => answered a
  | SList _ a => answered a
  | SCreate _ a => answered a
  | SComplete _ _ a => answered a
  end.

(** Ranges and part numbers that are not negative. *)
Definition s3_args_sane (c : s3_call) : bool :=
  match c with
  | SGet _ (Some (o, l)) _ => (0 <=? o) && (0 <=? l)
  | SPart _ _ part _ _ => 0 <=? part
  | _ => true
  end.

Definition s3_sane (tc : (Z * Z) * s3_call) : bool :=
  negb (s3_recorded tc.2) || ((0 <=? tc.1.1) && s3_args_sane tc.2).

Lemma client_outcome code status : (outcome_of_client_error code status).1 ∈ OUTCOMES3.
Proof. unfold outcome_of_client_error. repeat case_match; name_in. Qed.

(** What a call records, whatever the client answered. *)
Lemma call_inv {A} stream start ops r call args t fn (ans : reply A) : s3_inv stream start ops r →
  (∀ result, s3r_outcome result ∈ OUTCOMES3 → plain_fields (s3r_meta result) →
     s3r_upload result = JNull ∨ (∃ u, s3r_upload result = JStr u ∧ u ≠ "") →
     s3_typed (mkS3Op call args t.1 t.2 result)) →
  (∀ a, let '(r', result) := fn r a in same_log r r' ∧ s3r_outcome result ∈ OUTCOMES3 ∧ plain_fields (s3r_meta result) ∧
     (s3r_upload result = JNull ∨ ∃ u, s3r_upload result = JStr u ∧ u ≠ "")) →
  if answered ans
  then ∃ o, sr_call o = call ∧ (sr_begin o, sr_end o) = t ∧ s3_inv stream start (ops ++ [o]) (_call r call args t fn ans).1
  else s3_inv stream start ops (_call r call args t fn ans).1.
Proof.
  intros Hinv Ht Hfn. assert (plain_fields ([] : dict)) as Hnil by (split; constructor).
  destruct ans as [a|code status|class|]; simpl.
  - specialize (Hfn a). destruct (fn r a) as [r' result]. destruct Hfn as (Hsame & H1 & H2 & H3).
    eexists. split; [|split; [|apply s3_inv_record; [by eapply s3_inv_same|by apply Ht] ] ]; simpl; [done|by destruct t].
  - pose proof (client_outcome code status) as Ho. destruct (outcome_of_client_error code status) as [oc c].
    eexists. split; [|split; [|apply s3_inv_record; [done|apply Ht; simpl; auto] ] ]; simpl; [done|by destruct t].
  - eexists. split; [|split; [|apply s3_inv_record; [done|apply Ht; simpl; auto] ] ]; simpl; [done|by destruct t|name_in].
  - done.
Qed.

(** [s3_typed] of a record whose arguments are written out. *)
Ltac s3_fields :=
  constructor; cbn [sr_call sr_args sr_begin sr_end sr_result];
  [ name_in
  | split; [apply (bool_decide_unpack _); vm_compute; exact I|each ltac:(auto with kvio)]
  | each ltac:(reflexivity)
  | each ltac:(by eexists)
  | each ltac:(first [exact I|eexists; split; [reflexivity|lia]])
  | assumption
  | assumption
  | assumption
  | assumption
  | first [intros _; by eexists|let H := fresh in intros H; exfalso; revert H; name_in] ].

Ltac plain_result := split; [reflexivity|split; [name_in|split; [|by left]]];
  split; [apply (bool_decide_unpack _); vm_compute; exact I|each ltac:(auto with kvio)].

Section one_call.
Context (stream : string) (start : dict) (ops : list s3_rec) (r : RecordingS3).
Context (Hinv : s3_inv stream start ops r).
Context (t0 t1 : Z).

(** Nothing was recorded, or the record of the call was. *)
Definition s3_steps_to (r' : RecordingS3) (tc : (Z * Z) * s3_call) : Prop :=
  if s3_recorded tc.2
  then ∃ o, sr_call o = s3_name tc.2 ∧ (sr_begin o, sr_end o) = tc.1 ∧ s3_inv stream start (ops ++ [o]) r'
  else s3_inv stream start ops r'.

(** The call after its key and its upload were named. *)
Lemma named_call {A} r1 c call args fn (ans : reply A) :
  same_log r r1 → s3_name c = call → s3_recorded c = answered ans →
  do_s3_call r ((t0, t1), c) = (_call r1 call args (t0, t1) fn ans).1 →
  (0 ≤ t0 → s3_args_sane c = true → ∀ result, s3r_outcome result ∈ OUTCOMES3 → plain_fields (s3r_meta result) →
     s3r_upload result = JNull ∨ (∃ u, s3r_upload result = JStr u ∧ u ≠ "") → s3_typed (mkS3Op call args t0 t1 result)) →
  (∀ a, let '(r', result) := fn r1 a in same_log r1 r' ∧ s3r_outcome result ∈ OUTCOMES3 ∧ plain_fields (s3r_meta result) ∧
     (s3r_upload result = JNull ∨ ∃ u, s3r_upload result = JStr u ∧ u ≠ "")) →
  s3_sane ((t0, t1), c) = true → s3_steps_to (do_s3_call r ((t0, t1), c)) ((t0, t1), c).
Proof.
  intros Hs Hn Hr Hdo Ht Hfn. unfold s3_sane, s3_steps_to. cbn [fst snd]. rewrite Hr, Hdo, Hn.
  destruct (answered ans) eqn:Ea; intros Hsane.
  - simpl in Hsane. apply andb_true_iff in Hsane as [H0 Hargs]. apply Z.leb_le in H0.
    pose proof (call_inv stream start ops r1 call args (t0, t1) fn ans (s3_inv_same _ _ _ _ _ Hs Hinv)
      (Ht H0 Hargs) Hfn) as H. by rewrite Ea in H.
  - destruct ans; try done. simpl. by eapply s3_inv_same.
Qed.

Lemma key_named_step key : ∃ r1 k, s3_key r key = (r1, k) ∧ same_log r r1.
Proof. apply key_same. Qed.

Lemma upload_named_step key u :
  ∃ r1 r2 k u', s3_key r key = (r1, k) ∧ s3_upload r1 u = (r2, u') ∧ same_log r r2.
Proof.
  destruct (key_same r key) as (r1 & k & E & Hs).
  destruct (upload_same r1 u (sl_uploads _ _ Hs (si_uploads _ _ _ _ Hinv))) as (r2 & u' & E' & Hs' & _).
  exists r1, r2, k, u'. split_and!; [done..|]. by etrans.
Qed.

Ltac sane_args := repeat match goal with
  | H : _ && _ = true |- _ => apply andb_true_iff in H as [? ?]
  | H : (_ <=? _) = true |- _ => apply Z.leb_le in H
  end.

(** A call on a key, and a call on a key and an upload. *)
Ltac on_key key ans :=
  let r1 := fresh "r1" in let k := fresh "k" in let E := fresh "E" in let Hs := fresh "Hs" in
  destruct (key_named_step key) as (r1 & k & E & Hs); eapply (named_call r1 _ _ _ _ ans Hs); try done;
  [unfold do_s3_call, put, get_, head_, delete_, mpu_create; cbn [fst snd]; by rewrite E|..].
Ltac on_upload key u ans :=
  let r1 := fresh "r1" in let k := fresh "k" in let E := fresh "E" in let Hs := fresh "Hs" in
  let r2 := fresh "r2" in let u' := fresh "u'" in let E' := fresh "E'" in
  destruct (upload_named_step key u) as (r1 & r2 & k & u' & E & E' & Hs); eapply (named_call r2 _ _ _ _ ans Hs); try done;
  [unfold do_s3_call, mpu_part, mpu_complete, mpu_abort; cbn [fst snd]; by rewrite E, E'
  |simpl; intros; sane_args; s3_fields|].

Lemma do_s3_call_steps c : s3_sane ((t0, t1), c) = true → s3_steps_to (do_s3_call r ((t0, t1), c)) ((t0, t1), c).
Proof.
  destruct c as [key len ans|key range ans|key ans|prefix ans|key ans|key ans|key u part len ans|key u ans|key u ans].
  - on_key key ans; [intros; s3_fields|intros []; plain_result].
  - on_key key ans; [|intros []; plain_result].
    destruct range as [[o l]|]; simpl; intros; sane_args; s3_fields.
  - on_key key ans; [intros; s3_fields|intros ?; plain_result].
  - assert (∃ r1 k, (if String.eqb prefix "" then (r, "") else s3_key r prefix) = (r1, k) ∧ same_log r r1) as (r1 & k & E & Hs).
    { destruct (String.eqb prefix ""); [by eexists _, _|apply key_named_step]. }
    eapply (named_call r1 _ _ _ _ ans Hs); try done;
      [unfold do_s3_call, list_; cbn [fst snd]; by rewrite E|intros; s3_fields|intros ?; plain_result].
  - on_key key ans; [intros; s3_fields|intros []; plain_result].
  - on_key key ans; [intros; s3_fields|].
    intros id. destruct (upload_same r1 id (sl_uploads _ _ Hs (si_uploads _ _ _ _ Hinv))) as (r2 & u' & -> & Hs' & Hu).
    split_and!; [done|name_in|split; constructor|right; by exists u'].
  - on_upload key u ans. intros []. plain_result.
  - on_upload key u ans. intros [code|]; plain_result.
  - on_upload key u ans. intros []. plain_result.
Qed.
End one_call.

(** A session records exactly the recorded calls, in order. *)
Definition s3_trace (calls : list ((Z * Z) * s3_call)) : list (string * (Z * Z)) :=
  map (λ tc, (s3_name tc.2, tc.1)) (List.filter (λ tc, s3_recorded tc.2) calls).

Lemma s3_session_inv stream start ops r calls : s3_inv stream start ops r → forallb s3_sane calls = true →
  ∃ ops', s3_inv stream start (ops ++ ops') (fold_left do_s3_call calls r) ∧
    map (λ o, (sr_call o, (sr_begin o, sr_end o))) ops' = s3_trace calls.
Proof.
  revert ops r. induction calls as [|[[t0 t1] c] calls IH]; intros ops r Hinv.
  - intros _. exists []. by rewrite app_nil_r.
  - cbn [forallb fold_left]. intros [Hs Hss]%andb_true_iff.
    pose proof (do_s3_call_steps _ _ _ _ Hinv t0 t1 c Hs) as Hstep. unfold s3_steps_to in Hstep. unfold s3_trace.
    cbn [List.filter fst snd] in Hstep |- *. destruct (s3_recorded c).
    + destruct Hstep as (o & Hc & Ht & Hinv'). destruct (IH _ _ Hinv' Hss) as (ops' & Hf & Htr).
      exists (o :: ops'). rewrite <- app_assoc in Hf. split; [done|]. cbn [map fst snd]. rewrite Hc, Ht. by f_equal.
    + apply IH; done.
Qed.

(** ** The document of a log *)
Definition sid : nat → string := numbered_id "s".

Definition creates (o : s3_rec) : bool := String.eqb (sr_call o) "mpu_create".

(** The upload that a creation made, or a name of its own when it failed. *)
Definition new_upload (i : nat) (o : s3_rec) : string :=
  match s3r_upload (sr_result o) with JStr u => u | _ => "failed-" +:+ sid i end.

Definition s3_args (i : nat) (o : s3_rec) : dict :=
  if creates o then dset "upload" (JStr (new_upload i o)) (sorted_fields (sr_args o)) else sorted_fields (sr_args o).

Definition s3_expected (r : S3Result) : dict :=
  [("outcome", JStr (s3r_outcome r))] ++ (if s3r_bytes r =? 0 then [] else [("bytes", JInt (s3r_bytes r))]) ++
  from_option (λ v, [("size", v)]) [] (dget "size" (s3r_meta r)) ++
  from_option (λ v, [("count", v)]) [] (dget "count" (s3r_meta r)).

(** The operation that created each upload, after the operations [ops], of
    which the first is number [i]. *)
Fixpoint creators (i : nat) (c : list (hkey * string)) (ops : list s3_rec) : list (hkey * string) :=
  match ops with
  | [] => c
  | o :: ops => creators (S i) (if creates o then hset (KStr (new_upload i o)) (sid i) c else c) ops
  end.

Definition last_op (n : nat) : option string := match n with O => None | S j => Some (sid j) end.

(** The edge to the creation of the upload, when that is not the last operation. *)
Definition sync_deps (pre : list s3_rec) (o : s3_rec) : list json :=
  if bool_decide (sr_call o ∈ OF_UPLOAD) then
    match getd (sr_args o) "upload" with
    | JStr u =>
        match hget (KStr u) (creators 0 [] pre) with
        | Some c => if bool_decide (last_op (length pre) = Some c) then [] else [dep_json c "sync"]
        | None => []
        end
    | _ => []
    end
  else [].

Definition s3_op (stream : string) (pre : list s3_rec) (o : s3_rec) : json :=
  let i := length pre in
  captured_op (sid i) "s3" (sr_call o) i (s3_args i o) (JStr stream)
    (from_option (λ p, [dep_json p "program"]) [] (last_op i) ++ sync_deps pre o) (sr_begin o) (s3_expected (sr_result o)).

Definition s3_ops (stream : string) (ops : list s3_rec) : list json := imap (λ i o, s3_op stream (take i ops) o) ops.

Definition s3_row (i : nat) (o : s3_rec) : json :=
  JObj [("op_id", JStr (sid i)); ("begin_ns", JInt (sr_begin o)); ("end_ns", JInt (sr_end o));
        ("outcome", JStr (s3r_outcome (sr_result o))); ("code", JStr (s3r_code (sr_result o)));
        ("bytes", JInt (s3r_bytes (sr_result o)))].

Lemma s3_ops_snoc stream ops o : s3_ops stream (ops ++ [o]) = s3_ops stream ops ++ [s3_op stream ops o].
Proof.
  unfold s3_ops. rewrite imap_app. cbn [imap]. rewrite Nat.add_0_r, take_app_length. f_equal.
  apply imap_ext. intros i o' Hi. apply lookup_lt_Some in Hi. by rewrite take_app_le by lia.
Qed.

Lemma creators_snoc i c ops o : creators i c (ops ++ [o]) =
  if creates o then hset (KStr (new_upload (i + length ops) o)) (sid (i + length ops)) (creators i c ops) else creators i c ops.
Proof.
  revert i c. induction ops as [|x ops IH]; intros i c; simpl; [by rewrite Nat.add_0_r|].
  rewrite IH. by rewrite Nat.add_succ_r.
Qed.

Lemma s3_result_keys r : NoDup (keys [("outcome", JStr (s3r_outcome r)); ("code", JStr (s3r_code r));
  ("bytes", JInt (s3r_bytes r)); ("meta", JObj (s3r_meta r)); ("upload", s3r_upload r)]).
Proof. name_in. Qed.

Lemma s3_result_item r k v : match s3_as_dict r with JObj d => dget k d = Some v | _ => False end →
  item (sort_keys (s3_as_dict r)) k = Ok (sort_keys v).
Proof. apply item_sorted, s3_result_keys. Qed.

Lemma s3_result_get r k v : match s3_as_dict r with JObj d => dget k d = Some v | _ => False end →
  get (sort_keys (s3_as_dict r)) k = Ok (sort_keys v).
Proof.
  intros H. etransitivity; [apply (get_sorted _ _ (s3_result_keys r))|]. unfold s3_as_dict in H. by rewrite H.
Qed.

Lemma s3_result_default r k dflt v : match s3_as_dict r with JObj d => dget k d = Some v | _ => False end →
  get_default (sort_keys (s3_as_dict r)) k dflt = Ok (sort_keys v).
Proof.
  intros H. etransitivity; [apply (get_default_sorted _ _ _ (s3_result_keys r))|]. unfold s3_as_dict in H. by rewrite H.
Qed.

Lemma s3_expected_of_result r : plain_fields (s3r_meta r) →
  s3_expected_of (sort_keys (s3_as_dict r)) = Ok (s3_expected r).
Proof.
  intros Hm. unfold s3_expected_of.
  rewrite (s3_result_item _ "outcome" (JStr (s3r_outcome r))), (s3_result_get _ "bytes" (JInt (s3r_bytes r))),
    (s3_result_default _ "meta" _ (JObj (s3r_meta r))) by done.
  change (sort_keys (JObj (s3r_meta r))) with (JObj (sorted_fields (s3r_meta r))).
  cbn [mbind res_bind sort_keys mapMR py_in in_keys item]. unfold dhas. rewrite !(dget_plain _ _ Hm).
  unfold s3_expected. change (py_true (JInt (s3r_bytes r))) with (negb (s3r_bytes r =? 0)).
  destruct (dget "size" (s3r_meta r)), (dget "count" (s3r_meta r)), (s3r_bytes r =? 0); done.
Qed.

Section normalize_ops.
Context (prov eng : json) (stream : string).

Definition s3_at (ops : list s3_rec) : s3_norm :=
  mkS3Norm (captured_doc prov eng [] [] (s3_ops stream ops) (JObj []) no_timing)
    (from_option (λ p, [(KStr stream, p)]) [] (last_op (length ops))) (creators 0 [] ops) (Z.of_nat (length ops))
    (imap s3_row ops).

Lemma prev_at ops : hget (KStr stream) (n3_prev (s3_at ops)) = last_op (length ops).
Proof. simpl. destruct (length ops); simpl; [done|]. by rewrite decide_True. Qed.

Lemma own_s3_args i o : s3_typed o → own_args (s3_args i o).
Proof.
  intros Ho. pose proof (st_own _ Ho) as H. rewrite app_assoc in H. apply Forall_app in H as [H _].
  apply Forall_forall. intros k Hin. rewrite Forall_forall in H. pose proof (H k Hin) as Hk. unfold s3_args.
  assert (dget k (sorted_fields (sr_args o)) = None) as Hs by (by rewrite dget_plain by apply Ho).
  destruct (creates o); [|done]. rewrite dget_dset. destruct (String.eqb_spec k "upload") as [->|]; [|done].
  exfalso. revert Hin. name_in.
Qed.

(** What the normalizer does with the upload of a call. *)
Definition upload_step (st : s3_norm) (op_id : string) (result call : json) (args : dict) : res (dict * list (hkey * string)) :=
  if eq_str call "mpu_create" then
    u ← get result "upload";
    let u := if py_true u then u else JStr ("failed-" +:+ op_id) in
    k ← hkey_of u; Ok (dset "upload" u args, hset k op_id (n3_creates st))
  else Ok (args, n3_creates st).

Lemma upload_at ops o : s3_typed o →
  upload_step (s3_at ops) (sid (length ops)) (sort_keys (s3_as_dict (sr_result o))) (JStr (sr_call o))
    (sorted_fields (sr_args o)) = Ok (s3_args (length ops) o, creators 0 [] (ops ++ [o])).
Proof.
  intros Ho. unfold upload_step, s3_args. rewrite creators_snoc. unfold creates, eq_str.
  destruct (String.eqb (sr_call o) "mpu_create"); [|done].
  rewrite (s3_result_get _ "upload" (s3r_upload (sr_result o))) by done. cbn [mbind res_bind]. unfold new_upload.
  destruct (st_upload _ Ho) as [->|(u & -> & Hu)]; [done|]. cbn [sort_keys py_true].
  by destruct (String.eqb_spec u "").
Qed.

Lemma deps_at ops o st : s3_typed o → n3_prev st = n3_prev (s3_at ops) → n3_creates st = creators 0 [] (ops ++ [o]) →
  s3_deps st (KStr stream) (JStr (sr_call o)) (s3_args (length ops) o) =
  Ok (from_option (λ p, [dep_json p "program"]) [] (last_op (length ops)) ++ sync_deps ops o).
Proof.
  intros Ho Hprev Hc. unfold s3_deps. rewrite Hprev, prev_at, Hc. unfold sync_deps.
  assert (in_tuple (JStr (sr_call o)) OF_UPLOAD = bool_decide (sr_call o ∈ OF_UPLOAD)) as ->.
  { apply eq_true_iff_eq. rewrite in_tuple_true, bool_decide_eq_true. naive_solver. }
  assert (match last_op (length ops) with
          | Some p => [JObj [("op", JStr p); ("kind", JStr "program")]] | None => [] end =
          from_option (λ p, [dep_json p "program"]) [] (last_op (length ops))) as -> by (by destruct (last_op _)).
  case_bool_decide as Hup; [|by rewrite app_nil_r].
  assert (creates o = false) as Hcr.
  { unfold creates. apply String.eqb_neq. intros E. rewrite E in Hup. revert Hup. name_in. }
  destruct (st_of_upload _ Ho Hup) as [u Hu]. rewrite creators_snoc. unfold s3_args. rewrite Hcr.
  unfold getd. rewrite dget_plain, Hu by apply Ho. cbn [from_option id hkey_of mbind res_bind].
  destruct (hget (KStr u) (creators 0 [] ops)) as [c|]; [|by rewrite app_nil_r].
  case_bool_decide; [by rewrite app_nil_r|done].
Qed.

Lemma s3_at_snoc ops o : s3_at (ops ++ [o]) =
  mkS3Norm (captured_doc prov eng [] [] (s3_ops stream ops ++ [s3_op stream ops o]) (JObj []) no_timing)
    (hset (KStr stream) (sid (length ops)) (n3_prev (s3_at ops))) (creators 0 [] (ops ++ [o])) (n3_n (s3_at ops) + 1)
    (n3_sidecar (s3_at ops) ++ [s3_row (length ops) o]).
Proof.
  unfold s3_at. cbn [n3_prev n3_n n3_sidecar]. rewrite s3_ops_snoc, imap_app, length_app. simpl. rewrite Nat.add_0_r.
  replace (length ops + 1)%nat with (S (length ops)) by lia. f_equal; [|lia].
  simpl. destruct (length ops); simpl; [done|]. by rewrite decide_True.
Qed.

Lemma normalize_s3_op ops o s : s3_typed o →
  normalize_s3_event (s3_at ops) (read_back (s3_event stream o) s) = Ok (s3_at (ops ++ [o])).
Proof.
  intros Ho. assert (headed "op" (s3_event stream o)) as Hh by (split; [done|name_in]).
  unfold normalize_s3_event. rewrite (headed_ev "op") by done. cbn [mbind res_bind].
  change (negb (eq_str (JStr "op") "op")) with false. cbv beta iota.
  set (n := length ops). change ("s" +:+ str_of_Z (n3_n (s3_at ops) + 1)) with (sid n).
  rewrite (headed_item "op" _ s "args" (JObj (sr_args o)) Hh), (headed_item "op" _ s "result" (s3_as_dict (sr_result o)) Hh),
    (headed_item "op" _ s "call" (JStr (sr_call o)) Hh), (headed_item "op" _ s "stream" (JStr stream) Hh),
    (headed_item "op" _ s "begin_ns" (JInt (sr_begin o)) Hh), (headed_item "op" _ s "end_ns" (JInt (sr_end o)) Hh) by done.
  change (sort_keys (JObj (sr_args o))) with (JObj (sorted_fields (sr_args o))). cbn [mbind res_bind hkey_of sort_keys py_dict].
  pose proof (upload_at ops o Ho) as Hup. unfold upload_step in Hup. fold n in Hup. rewrite Hup. cbn [mbind res_bind].
  rewrite (deps_at ops o) by done. fold n. cbn [mbind res_bind].
  rewrite (s3_expected_of_result _ (st_meta _ Ho)). cbn [mbind res_bind].
  change (n3_wl (s3_at ops)) with (captured_doc prov eng [] [] (s3_ops stream ops) (JObj []) no_timing).
  pose proof (st_call _ Ho) as Hc. apply dhas_keys in Hc.
  rewrite (add_captured _ _ _ _ _ _ _ _ "s3"); [|by apply own_s3_args|done|done|].
  2:{ rewrite forallb_app. unfold sync_deps. destruct (last_op n); simpl; by repeat case_match. }
  assert (length (s3_ops stream ops) = n) as -> by apply length_imap. cbn [mbind res_bind].
  rewrite (s3_result_item _ "outcome" (JStr (s3r_outcome (sr_result o)))),
    (s3_result_default _ "code" (JStr "") (JStr (s3r_code (sr_result o)))),
    (s3_result_default _ "bytes" (JInt 0) (JInt (s3r_bytes (sr_result o)))) by done.
  cbn [mbind res_bind sort_keys]. rewrite s3_at_snoc. done.
Qed.

Lemma fold_normalize_s3 pre l s : Forall s3_typed l →
  foldM normalize_s3_event (s3_at pre) (events_from s (map (s3_event stream) l)) = Ok (s3_at (pre ++ l)).
Proof.
  intros Hl. revert pre s. induction Hl as [|o l Ho _ IH]; intros pre s; [by rewrite app_nil_r|].
  cbn [map events_from foldM]. rewrite normalize_s3_op by done. cbn [mbind res_bind]. rewrite IH. by rewrite <- app_assoc.
Qed.
End normalize_ops.

(** ** The validator accepts it *)
#[local] Instance sid_inj : Inj (=) (=) sid.
Proof. apply numbered_id_inj. Qed.

Lemma s3_dget_ne i o k : s3_typed o → k ≠ "upload" → dget k (s3_args i o) = dget k (sr_args o).
Proof.
  intros Ho Hk. unfold s3_args. destruct (creates o); [|apply dget_plain, Ho]. rewrite dget_dset.
  destruct (String.eqb_spec k "upload"); [done|]. apply dget_plain, Ho.
Qed.

Lemma check_s3_args nodes objects i o : s3_typed o →
  check_args nodes objects "s3" (sr_call o) (s3_args i o) = Ok tt.
Proof.
  intros Ho. unfold check_args.
  assert (forallb (λ f, dhas f (s3_args i o)) (fields_of "s3" (sr_call o)) = true) as ->.
  { apply forallb_forall. intros f Hf%list_elem_of_In. pose proof (st_fields _ Ho) as H. rewrite Forall_forall in H.
    destruct (H f Hf) as [v Hv]. unfold dhas. unfold s3_args. destruct (creates o); rewrite ?dget_dset.
    - destruct (String.eqb f "upload"); [done|]. by rewrite dget_plain, Hv by apply Ho.
    - by rewrite dget_plain, Hv by apply Ho. }
  cbn [raise_unless mbind res_bind].
  assert (∃ k, mapMR (check_int_arg (s3_args i o)) ["size"; "offset"; "length"; "part"] = Ok k) as [k ->].
  { apply mapMR_unit. pose proof (st_int _ Ho) as H. rewrite Forall_forall in H. apply Forall_forall. intros k Hk.
    specialize (H k Hk). unfold check_int_arg. rewrite s3_dget_ne; [|done|by intros ->; revert Hk; name_in].
    destruct (dget k (sr_args o)) as [v|]; [|done]. destruct H as (z & -> & Hz). by rewrite int3_ok. }
  cbn [mbind res_bind]. unfold check_path_arg, check_flags, check_node_arg. rewrite !s3_dget_ne by done.
  pose proof (st_own _ Ho) as H. rewrite Forall_forall in H. by rewrite !H by name_in.
Qed.

Lemma creators_earlier ops k c : hget k (creators 0 [] ops) = Some c → ∃ j, (j < length ops)%nat ∧ c = sid j.
Proof.
  induction ops as [|o ops IH] using rev_ind; [done|]. rewrite creators_snoc, length_app. simpl.
  destruct (creates o); [rewrite hget_hset; case_decide|]; intros Hc.
  - injection Hc as <-. exists (length ops). split; [lia|done].
  - destruct (IH Hc) as (j & Hj & ->). exists j. split; [lia|done].
  - destruct (IH Hc) as (j & Hj & ->). exists j. split; [lia|done].
Qed.

Lemma check_s3_op stream nodes pre st o : s3_typed o → seen_ok sid (length pre) (w_seen st) →
  ∃ st', check_op3 nodes (JObj []) "captured" st (length pre) (s3_op stream pre o) = Ok st' ∧
    seen_ok sid (S (length pre)) (w_seen st').
Proof.
  intros Ho Hseen. exists {| w_seen := <[ sid (length pre) := length pre ]> (w_seen st); w_open := w_open st |}.
  pose proof (seen_step sid _ _ Hseen) as Hseen'. split; [|exact Hseen'].
  assert (∀ j kind, (j < length pre)%nat → kind ∈ DEP_KINDS →
    check_dep3 (<[ sid (length pre) := length pre ]> (w_seen st)) (length pre) (dep_json (sid j) kind) = Ok tt) as Hdep.
  { intros j kind Hj Hk. apply (dep_ok _ _ _ _ j); [|done|done]. rewrite Hseen'. by rewrite decide_True by lia. }
  eapply (check_captured_op _ _ _ _ _ _ _ _ _ _ _ _ (s3r_outcome (sr_result o))); try done.
  - by rewrite Hseen, decide_False by lia.
  - name_in.
  - apply (st_call _ Ho).
  - by apply check_s3_args.
  - apply Forall_app. split.
    + destruct (length pre); [constructor|]. apply Forall_singleton, Hdep; [lia|name_in].
    + unfold sync_deps. repeat case_match; try constructor; [|constructor].
      match goal with H : hget _ _ = Some _ |- _ => destruct (creators_earlier _ _ _ H) as (j & Hj & ->) end.
      apply Hdep; [done|name_in].
  - apply (st_begin _ Ho).
  - apply (st_outcome _ Ho).
  - unfold s3_expected. destruct (_ =? _), (dget "size" _), (dget "count" _); done.
Qed.

Lemma check_s3_ops stream nodes ops : Forall s3_typed ops →
  ∃ st, foldiM (check_op3 nodes (JObj []) "captured") 0 {| w_seen := ∅; w_open := [] |} (s3_ops stream ops) = Ok st.
Proof.
  intros Hops. assert (∀ post pre st, Forall s3_typed post → seen_ok sid (length pre) (w_seen st) →
    ∃ st', foldiM (check_op3 nodes (JObj []) "captured") (length pre) st
             (imap (λ i o, s3_op stream (take (length pre + i) (pre ++ post)) o) post) = Ok st') as Hgen.
  { induction post as [|o post IH]; intros pre st Ht Hs; [by eexists|].
    apply Forall_cons in Ht as [Ho Ht]. cbn [imap foldiM]. rewrite Nat.add_0_r, take_app_length.
    destruct (check_s3_op stream nodes pre st o Ho Hs) as (st1 & -> & Hs1). cbn [mbind res_bind].
    destruct (IH (pre ++ [o]) st1 Ht) as (st' & Hst').
    - rewrite length_app. simpl. by rewrite Nat.add_1_r.
    - exists st'. rewrite <- Hst', length_app. simpl. rewrite Nat.add_1_r. f_equal. apply imap_ext. intros i o' _. simpl.
      rewrite <- app_assoc. simpl. by rewrite Nat.add_succ_r. }
  apply (Hgen ops [] {| w_seen := ∅; w_open := [] |} Hops). done.
Qed.

(** ** The capture as a whole *)
Definition s3_closing (closed : bool) (r : RecordingS3) : RecordingS3 := if closed then s3_close_capture r else r.
Definition s3_end : dict := [("ev", JStr "end")].

Section capture.
Context (stream sdk digest : string) (ops : list s3_rec) (r : RecordingS3).
Context (Hinv : s3_inv stream (s3_start stream sdk digest) ops r).
Context (closed : bool).

Definition s3_full_log : list dict :=
  s3_start stream sdk digest :: map (s3_event stream) ops ++ (if closed then [s3_end] else []).

Lemma headed_s3_start : headed "start" (s3_start stream sdk digest).
Proof. split; [done|]. name_in. Qed.
Lemma headed_s3_op o : headed "op" (s3_event stream o).
Proof. split; [done|]. name_in. Qed.
Lemma headed_s3_end : headed "end" s3_end.
Proof. split; [done|]. name_in. Qed.

Lemma s3_closing_log : r3_log (s3_closing closed r) = numbered_log s3_full_log.
Proof.
  destruct Hinv as [_ H2 H3 _ _]. unfold s3_closing, s3_full_log. destruct closed; [|by rewrite app_nil_r].
  unfold s3_close_capture, s3_put. cbn [r3_log]. rewrite app_comm_cons. unfold numbered_log. rewrite imap_app.
  rewrite H2 at 1. unfold numbered_log. f_equal. cbn [imap]. f_equal.
  rewrite H3, H2. unfold numbered_log. rewrite length_imap, Nat.add_0_r. done.
Qed.

Lemma writable_s3_op o : s3_typed o → Forall (λ kv, writable kv.2) (s3_event stream o).
Proof.
  intros Ho. repeat (apply Forall_cons; split; [try done|]); [| |by apply Forall_nil].
  - apply writable_fields, Ho.
  - apply writable_obj; [apply s3_result_keys|]. repeat (apply Forall_cons; split; [try done|]); [| |by apply Forall_nil].
    + apply writable_fields, Ho.
    + simpl. by destruct (st_upload _ Ho) as [->|(u & -> & _)].
Qed.

Lemma s3_parse_capture : parse_lines (s3_capture_lines (s3_closing closed r)) = Ok (events_from 1 s3_full_log).
Proof.
  unfold s3_capture_lines. rewrite s3_closing_log, parse_records; [by rewrite events_of_log|].
  apply writable_log. unfold s3_full_log. apply Forall_cons.
  split; [split; [eexists; apply headed_s3_start|by repeat (constructor; [by apply writable_check|])]|].
  apply Forall_app. split.
  - apply Forall_fmap, (Forall_impl s3_typed); [apply (si_typed _ _ _ _ Hinv)|]. intros o Ho. simpl.
    split; [eexists; apply headed_s3_op|by apply writable_s3_op].
  - destruct closed; [|done]. apply Forall_singleton. split; [eexists; apply headed_s3_end|]. by repeat constructor.
Qed.

Definition s3_notes : list json := if closed then [] else [JStr "no end marker"].

Lemma s3_captured_notes : ∃ e, next_event "end" (events_from 1 s3_full_log) = Ok e ∧
  match e with Some _ => [] | None => [JStr "no end marker"] end = s3_notes.
Proof.
  assert (Forall (λ rec, ∃ ev, headed ev rec ∧ ev ≠ "end") (s3_start stream sdk digest :: map (s3_event stream) ops)) as Hpre.
  { constructor; [eexists; split; [apply headed_s3_start|done]|].
    apply Forall_fmap, Forall_forall. intros o _. eexists. split; [apply headed_s3_op|done]. }
  unfold s3_full_log, s3_notes. destruct closed.
  - rewrite app_comm_cons, (next_event_some "end") by (done || apply headed_s3_end). by eexists.
  - rewrite app_nil_r, next_event_none by done. by eexists.
Qed.

Lemma s3_captured_ops prov eng :
  foldM normalize_s3_event (mkS3Norm (captured_doc prov eng [] [] [] (JObj []) no_timing) [] [] 0 []) (events_from 1 s3_full_log) =
  Ok (s3_at prov eng stream ops).
Proof.
  change (mkS3Norm (captured_doc prov eng [] [] [] (JObj []) no_timing) [] [] 0 []) with (s3_at prov eng stream []).
  assert (∀ ev rec s pre, headed ev rec → ev ≠ "op" →
    normalize_s3_event (s3_at prov eng stream pre) (read_back rec s) = Ok (s3_at prov eng stream pre)) as Hother.
  { intros ev rec s pre Hh Hne. unfold normalize_s3_event. rewrite (headed_ev ev) by done. cbn [mbind res_bind eq_str].
    by destruct (String.eqb_spec ev "op"). }
  unfold s3_full_log. cbn [events_from foldM].
  rewrite (Hother "start") by (apply headed_s3_start || done). cbn [mbind res_bind].
  rewrite events_from_app, foldM_app, fold_normalize_s3 by apply (si_typed _ _ _ _ Hinv). cbn [mbind res_bind app].
  destruct closed; [|done]. cbn [events_from foldM]. by rewrite (Hother "end") by (apply headed_s3_end || done).
Qed.
End capture.

(** C6: a capture of S3 calls becomes a valid workload when no clock reading, range
    or part number of a recorded call is negative and the engine has non-empty
    names and a configuration.  Whatever the client answered and whenever the
    session stopped, the file that the recorder wrote is read back and normalized without an error; the operations are exactly the
    recorded calls in their order, with their synthetic arguments and outcomes;
    each depends on the one before, and a call of a multipart upload also on the
    creation of that upload; the document is valid and is marked complete iff
    the capture was closed. *)
Theorem s3_capture_normalizes (sha256 : string → string) (stream sdk digest : string)
    (calls : list ((Z * Z) * s3_call)) (closed : bool) (engine : option dict) :
  (∀ s, sha256 s ≠ "") → engine_ok (engine_or engine (s3_engine (JStr sdk))) = true → forallb s3_sane calls = true →
  let r := fold_left do_s3_call calls (new_s3_recorder stream sdk digest) in
  ∃ ops wl,
    map (λ o, (sr_call o, (sr_begin o, sr_end o))) ops = s3_trace calls ∧
    r3_log r = numbered_log (s3_start stream sdk digest :: map (s3_event stream) ops) ∧
    normalize_s3_capture sha256 (s3_capture_lines (s3_closing closed r)) engine =
      Ok (JObj wl, sidecar_text (imap s3_row ops)) ∧
    getd wl "operations" = JList (s3_ops stream ops) ∧
    validate_workload (JObj wl) = Ok tt ∧
    (status wl = JStr "complete" ↔ closed = true).
Proof.
  intros Hsha Heng Hsane r.
  assert (s3_inv stream (s3_start stream sdk digest) [] (new_s3_recorder stream sdk digest)) as Hinv0 by done.
  destruct (s3_session_inv _ _ _ _ _ Hinv0 Hsane) as (ops & Hinv & Htrace). fold r in Hinv. simpl in Hinv.
  set (wl := captured_doc
    (captured_provenance (s3_notes closed) [("schema", JStr S3_SCHEMA); ("bucket_digest", JStr digest)])
    (engine_json (engine_or engine (s3_engine (JStr sdk)))) [] [] (s3_ops stream ops)
    (JObj [("events", JInt (Z.of_nat (length (s3_full_log stream sdk digest ops closed))));
           ("operations", JInt (Z.of_nat (length ops)))])
    (JObj [("sidecar", JStr "timing.jsonl"); ("sidecar_sha256", JStr (sha256 (sidecar_text (imap s3_row ops))))])).
  destruct (check_s3_ops stream [] ops (si_typed _ _ _ _ Hinv)) as [st Hst].
  assert (validate_workload (JObj wl) = Ok tt) as Hval.
  { eapply validate_captured; [done|done|exact Hst|apply Hsha]. }
  exists ops, wl. split_and!; [done|apply (si_log _ _ _ _ Hinv)| |done|done|by destruct closed].
  unfold normalize_s3_capture. rewrite (s3_parse_capture _ _ _ _ _ Hinv). cbn [mbind res_bind].
  destruct (s3_captured_notes stream sdk digest ops closed) as (e & -> & He).
  change (events_from 1 (s3_full_log stream sdk digest ops closed)) with
    (read_back (s3_start stream sdk digest) 1 :: events_from (1 + 1) (tail (s3_full_log stream sdk digest ops closed))) at 1.
  cbv beta iota zeta. rewrite (headed_ev "start") by apply headed_s3_start.
  cbn [mbind res_bind]. change (eq_str (JStr "start") "start") with true. cbn [raise_unless mbind res_bind]. rewrite He.
  rewrite (headed_get_default "start"), !(headed_get "start") by (apply headed_s3_start || done). cbn [mbind res_bind].
  change (default (JStr "unknown") (sort_keys <$> dget "sdk" (s3_start stream sdk digest))) with (JStr sdk).
  change (default JNull (sort_keys <$> dget "schema" (s3_start stream sdk digest))) with (JStr S3_SCHEMA).
  change (default JNull (sort_keys <$> dget "bucket_digest" (s3_start stream sdk digest))) with (JStr digest).
  rewrite new_captured by done. cbn [mbind res_bind].
  rewrite (s3_captured_ops _ _ _ _ _ Hinv). cbn [mbind res_bind]. rewrite length_events.
  match goal with |- context [validate_workload (JObj ?d)] => change d with wl end. by rewrite Hval.
Qed.

(** ** An example session: a multipart upload in two parts, with a read in
    between. *)
Definition ex_s3_calls : list ((Z * Z) * s3_call) :=
  [((1, 2), SCreate "models/llama" (Replied "AbC"));
   ((3, 4), SPart "models/llama" "AbC" 1 5 (Replied tt));
   ((5, 6), SGet "models/qwen" None (ClientError "NoSuchKey" 404));
   ((7, 8), SPart "models/llama" "AbC" 2 3 (Replied tt));
   ((9, 10), SComplete "models/llama" "AbC" (Replied None))].

Example ex_s3_edges :
  let r := fold_left do_s3_call ex_s3_calls (new_s3_recorder "app" "boto3" "b0") in
  match normalize_s3_capture (λ _, "00") (s3_capture_lines (s3_close_capture r)) None with
  | Ok (JObj wl, _) =>
      match getd wl "operations" with
      | JList ops => map (λ o, fld o "deps") ops = [JList []; JList [dep_json "s1" "program"];
          JList [dep_json "s2" "program"]; JList [dep_json "s3" "program"; dep_json "s1" "sync"];
          JList [dep_json "s4" "program"; dep_json "s1" "sync"] ]
      | _ => False
      end
  | _ => False
  end.
Proof. vm_compute. reflexivity. Qed.

Lemma s3_capture_normalizes_witness :
  ∃ ops wl,
    map (λ o, (sr_call o, (sr_begin o, sr_end o))) ops = s3_trace ex_s3_calls ∧
    r3_log (fold_left do_s3_call ex_s3_calls (new_s3_recorder "app" "boto3" "b0")) =
      numbered_log (s3_start "app" "boto3" "b0" :: map (s3_event "app") ops) ∧
    normalize_s3_capture (λ _, "00") (s3_capture_lines (s3_closing true
      (fold_left do_s3_call ex_s3_calls (new_s3_recorder "app" "boto3" "b0")))) None =
      Ok (JObj wl, sidecar_text (imap s3_row ops)) ∧
    getd wl "operations" = JList (s3_ops "app" ops) ∧
    validate_workload (JObj wl) = Ok tt ∧
    (status wl = JStr "complete" ↔ true = true).
Proof.
  apply (s3_capture_normalizes (λ _, "00") "app" "boto3" "b0" ex_s3_calls true None); [done|reflexivity|reflexivity].
Defined.
