(* ===== verification/Catalog.v ===== *)
(** * The workload catalog

    [tools/kvio/workload_catalog.py]: the closed grammar of the catalog of
    published workloads, its loader and its command line.  A catalog is
    accepted exactly when it has the shape [valid_catalog] states; what the
    command line prints as JSON loads back as the same catalog; and the
    listing claims recorded hardware for exactly the measured workloads. *)

From stdpp Require Import prelude strings list.
From Stdlib Require Import ZArith Lia Ascii.
From S2P Require Import Prelude PyText PyJson CaptureFormat Release ReleaseCorrect JsonText.
Local Open Scope Z_scope.

Module Catalog.

Definition EVIDENCE_LABELS : list string := ["trace-derived"; "measured"].
Definition CAPTURE_METHODS : list string :=
  ["application-jsonl"; "sanitized-application-jsonl"; "semantic-jsonl"; "nvme-jsonl"].
Definition TIMING_EVIDENCE : list string := ["recorded"; "derived"; "not-recorded"].
Definition SESSION_EVIDENCE : list string := ["recorded"; "pseudonymous"; "removed"; "not-recorded"].
Definition CONTENT_EVIDENCE : list string :=
  ["prompt-content"; "observed-prefix-accounting"; "opaque-object"; "not-recorded"].
Definition PRIVACY_TRANSFORMS : list string := ["none"; "source-sanitized"; "kvio-sanitized"].
Definition PROMPT_CONTENT : list string := ["retained"; "removed"; "not-applicable"].

Definition caterr (message : string) : exn := Exn CatalogError message.

(** ** The checks of one value *)
Definition _exact_object (value : json) (fields : list string) : res unit :=
  match value with
  | JObj d =>
      raise_unless (forallb (λ k, bool_decide (k ∈ fields)) (keys d))
        (caterr "{where} has unknown fields: {sorted(unknown)}") ;;
      raise_unless (forallb (λ k, dhas k d) fields) (caterr "{where} is missing fields: {sorted(missing)}")
  | _ => Raise (caterr "{where} must be an object")
  end.

Definition _string (value : json) : res unit :=
  raise_unless (is_str value && py_true value) (caterr "{where} must be a non-empty string").

Definition _choice (value : json) (choices : list string) : res unit :=
  _string value ;;
  raise_unless (in_tuple value choices) (caterr "{where} has unsupported value {value!r}").

Definition _sha256 (value : json) (optional : bool) : res unit :=
  if optional && is_none value then Ok tt else
  raise_unless (match value with JStr s => hex_digest s | _ => false end)
    (caterr "{where} must be a lowercase SHA-256 digest").

(** The text of a value that is known to be a string. *)
Definition text_of (value : json) : string := match value with JStr s => s | _ => "" end.

Definition _string_list (value : json) : res unit :=
  raise_unless
    (match value with
     | JList l => py_true value && forallb (λ item, is_str item && py_true item) l
                  && bool_decide (NoDup (map text_of l))
     | _ => false
     end) (caterr "{where} must contain unique non-empty strings").

(** [for field in fields: _string(value[field], ...)] *)
Definition strings_of (value : json) (fields : list string) : res unit :=
  foldM (λ _ field, v ← item value field; _string v) tt fields.

(** ** The parts of an entry *)
Definition SOURCE_FIELDS : list string := ["url"; "revision"; "license"; "artifact_sha256"].
Definition CAPTURE_FIELDS : list string :=
  ["method"; "format"; "timing"; "session_identity"; "content_identity"].
Definition HARDWARE_DETAILS : list string :=
  ["device_model"; "logical_block_bytes"; "max_transfer_bytes"; "kernel"; "capture_tool"].
Definition PRIVACY_FIELDS : list string := ["transformation"; "prompt_content"; "residual_disclosure"].
Definition ENTRY_FIELDS : list string :=
  ["id"; "title"; "workload_class"; "evidence_label"; "source"; "capture"; "hardware_geometry";
   "privacy"; "contribution_lanes"].

Definition check_source (source : json) : res unit :=
  _exact_object source SOURCE_FIELDS ;;
  strings_of source ["url"; "revision"; "license"] ;;
  url ← item source "url";
  raise_unless (startswith "https://" (text_of url)) (caterr "{where}.source.url must use HTTPS") ;;
  artifact ← item source "artifact_sha256";
  _sha256 artifact true.

Definition check_capture (capture : json) : res unit :=
  _exact_object capture CAPTURE_FIELDS ;;
  method ← item capture "method"; _choice method CAPTURE_METHODS ;;
  format ← item capture "format"; _string format ;;
  timing ← item capture "timing"; _choice timing TIMING_EVIDENCE ;;
  session ← item capture "session_identity"; _choice session SESSION_EVIDENCE ;;
  content ← item capture "content_identity"; _choice content CONTENT_EVIDENCE.

(** [type(v) is int and v > 0] *)
Definition positive_int (v : json) : bool := match v with JInt z => 0 <? z | _ => false end.

Definition check_hardware (hardware evidence_label : json) : res unit :=
  _exact_object hardware ("available" :: HARDWARE_DETAILS) ;;
  available ← item hardware "available";
  raise_unless (is_bool available) (caterr "{where}.hardware_geometry.available must be boolean") ;;
  details ← mapMR (item hardware) HARDWARE_DETAILS;
  raise_if (negb (py_true available) && existsb (λ v, negb (is_none v)) details)
    (caterr "{where}.hardware_geometry unavailable details must be null") ;;
  (if py_true available then
     strings_of hardware ["device_model"; "kernel"; "capture_tool"] ;;
     foldM (λ _ field, v ← item hardware field;
              raise_unless (positive_int v) (caterr "{where}.hardware_geometry.{field} must be positive"))
       tt ["logical_block_bytes"; "max_transfer_bytes"]
   else Ok tt) ;;
  raise_unless (Bool.eqb (py_true available) (eq_str evidence_label "measured"))
    (caterr "{where} measured evidence and hardware geometry disagree").

Definition check_privacy (privacy : json) : res unit :=
  _exact_object privacy PRIVACY_FIELDS ;;
  transformation ← item privacy "transformation"; _choice transformation PRIVACY_TRANSFORMS ;;
  prompt ← item privacy "prompt_content"; _choice prompt PROMPT_CONTENT ;;
  disclosure ← item privacy "residual_disclosure"; _string_list disclosure.

(** One turn of the loop: the identifiers seen so far, then the entry. *)
Definition check_entry (identifiers : list string) (entry : json) : res (list string) :=
  _exact_object entry ENTRY_FIELDS ;;
  strings_of entry ["id"; "title"; "workload_class"] ;;
  id ← item entry "id";
  raise_if (in_tuple id identifiers) (caterr "duplicate workload id {entry['id']!r}") ;;
  label ← item entry "evidence_label"; _choice label EVIDENCE_LABELS ;;
  source ← item entry "source"; check_source source ;;
  capture ← item entry "capture"; check_capture capture ;;
  hardware ← item entry "hardware_geometry"; check_hardware hardware label ;;
  privacy ← item entry "privacy"; check_privacy privacy ;;
  lanes ← item entry "contribution_lanes"; _string_list lanes ;;
  Ok (identifiers ++ [text_of id]).

Definition validate_catalog (catalog : json) : res json :=
  _exact_object catalog ["schema_version"; "workloads"] ;;
  version ← item catalog "schema_version";
  raise_unless (py_eq version (JInt 1)) (caterr "unsupported workload catalog schema") ;;
  entries ← item catalog "workloads";
  match entries with
  | JList ((_ :: _) as l) => foldM check_entry [] l ;; Ok catalog
  | _ => Raise (caterr "catalog workloads must be a non-empty list")
  end.

(** ** Loading and listing *)
Definition _unique_object (pairs : dict) : res dict :=
  unique_object (λ _, caterr "duplicate JSON key {key!r}") pairs.

(** The bytes of the file, or [None] when it cannot be opened or read.  A
    file that is not UTF-8 raises a [UnicodeDecodeError], a [ValueError] that
    the handler does not name. *)
Definition load_catalog (file : option string) : res json :=
  match file with
  | None => Raise (Exn OSError "cannot read the catalog")
  | Some raw =>
      match utf8_decode raw with
      | None => Raise (Exn ValueError "codec can't decode")
      | Some text =>
          match loads_hook _unique_object text with
          | Ok catalog => validate_catalog catalog
          | Raise (Exn JSONDecodeError _) => Raise (caterr "{path}: invalid JSON")
          | Raise e => Raise e
          end
      end
  end.

Inductive mode := CheckOnly | AsJson | Listing.

(** One line of the listing. *)
Definition describe (entry : json) : res string :=
  geometry ← item entry "hardware_geometry";
  available ← item geometry "available";
  let hardware := if py_true available then "recorded" else "not-recorded" in
  id ← item entry "id"; label ← item entry "evidence_label";
  capture ← item entry "capture"; method ← item capture "method";
  Ok (py_str id +:+ ": " +:+ py_str label +:+ "; " +:+ py_str method +:+ "; hardware=" +:+ hardware).

Definition entries_of (catalog : json) : res (list json) :=
  workloads ← item catalog "workloads"; iterate workloads.

(** The lines [main] prints, for the flags [--check], [--json] or none. *)
Definition main (m : mode) (file : option string) : res (list string) :=
  catalog ← match load_catalog file with
            | Raise (Exn CatalogError _) | Raise (Exn OSError _) =>
                Raise (Exn SystemExit "kvio catalog: {error}")
            | r => r
            end;
  match m with
  | CheckOnly => l ← entries_of catalog;
                 Ok ["valid workload catalog: " +:+ str_of_Z (Z.of_nat (length l)) +:+ " entries"]
  | AsJson => Ok [dumps Indent2 catalog]
  | Listing => l ← entries_of catalog; mapMR describe l
  end.

(** ** The grammar, as predicates *)

(** An object with exactly the given fields, each of the given shape. *)
Definition object_of (fields : list (string * (json → Prop))) (v : json) : Prop :=
  ∃ d, v = JObj d ∧ (∀ k, k ∈ keys d ↔ k ∈ fields.*1) ∧ Forall (λ f, f.2 (getd d f.1)) fields.

Definition text (v : json) : Prop := ∃ s, v = JStr s ∧ s ≠ "".
Definition one_of (choices : list string) (v : json) : Prop := ∃ s, v = JStr s ∧ s ∈ choices.
Definition texts (v : json) : Prop := ∃ l, v = JList (map JStr l) ∧ l ≠ [] ∧ NoDup l ∧ "" ∉ l.
Definition https_url (v : json) : Prop := ∃ s, v = JStr s ∧ startswith "https://" s = true.
Definition digest (v : json) : Prop := v = JNull ∨ ∃ s, v = JStr s ∧ hex_digest s = true.
Definition positive (v : json) : Prop := ∃ z, v = JInt z ∧ 0 < z.

Definition valid_source : json → Prop :=
  object_of [("url", https_url); ("revision", text); ("license", text); ("artifact_sha256", digest)].

Definition valid_capture : json → Prop :=
  object_of [("method", one_of CAPTURE_METHODS); ("format", text); ("timing", one_of TIMING_EVIDENCE);
             ("session_identity", one_of SESSION_EVIDENCE); ("content_identity", one_of CONTENT_EVIDENCE)].

Definition valid_hardware (measured : bool) : json → Prop :=
  let detail (shape : json → Prop) := if measured then shape else (λ v, v = JNull) in
  object_of [("available", λ v, v = JBool measured); ("device_model", detail text);
             ("logical_block_bytes", detail positive); ("max_transfer_bytes", detail positive);
             ("kernel", detail text); ("capture_tool", detail text)].

Definition valid_privacy : json → Prop :=
  object_of [("transformation", one_of PRIVACY_TRANSFORMS); ("prompt_content", one_of PROMPT_CONTENT);
             ("residual_disclosure", texts)].

Definition label_of (measured : bool) : string := if measured then "measured" else "trace-derived".

Definition valid_entry (measured : bool) : json → Prop :=
  object_of [("id", text); ("title", text); ("workload_class", text);
             ("evidence_label", λ v, v = JStr (label_of measured)); ("source", valid_source);
             ("capture", valid_capture); ("hardware_geometry", valid_hardware measured);
             ("privacy", valid_privacy); ("contribution_lanes", texts)].

Definition entry_id (entry : json) : string := match entry with JObj d => text_of (getd d "id") | _ => "" end.

Definition workloads (v : json) : Prop :=
  ∃ l, v = JList l ∧ l ≠ [] ∧ Forall (λ e, ∃ measured, valid_entry measured e) l ∧ NoDup (map entry_id l).

Definition valid_catalog : json → Prop :=
  object_of [("schema_version", λ v, py_eq v (JInt 1) = true); ("workloads", workloads)].

(** ** The checks decide the grammar *)
Lemma seq_Ok {B} (x : res unit) (f : unit → res B) b : x ≫= f = Ok b ↔ x = Ok tt ∧ f tt = Ok b.
Proof. rewrite bind_Ok. split; [intros ([] & ? & ?); done|intros [? ?]; by exists tt]. Qed.

Lemma exact_object_Ok v fields :
  _exact_object v fields = Ok tt ↔ ∃ d, v = JObj d ∧ ∀ k, k ∈ keys d ↔ k ∈ fields.
Proof.
  destruct v as [| | | | | |d]; try (split; [done|intros (? & [=] & _)]).
  cbn [_exact_object]. rewrite seq_Ok, !raise_unless_Ok, !forallb_forall.
  setoid_rewrite <- list_elem_of_In. setoid_rewrite bool_decide_eq_true. setoid_rewrite dhas_keys.
  split; [intros [? ?]; exists d; naive_solver|intros (? & [= <-] & H); naive_solver].
Qed.

Lemma item_field d k : k ∈ keys d → item (JObj d) k = Ok (getd d k).
Proof. rewrite <- dhas_keys. unfold dhas, item, getd. by destruct (dget k d). Qed.

Lemma string_Ok v : _string v = Ok tt ↔ text v.
Proof.
  unfold _string, text. rewrite raise_unless_Ok.
  destruct v as [| | | |s| |]; try (split; [done|intros (? & [=] & _)]).
  destruct s; simpl; split; [done|naive_solver| |done]. intros _. by eexists.
Qed.

Lemma choice_Ok v choices : "" ∉ choices → _choice v choices = Ok tt ↔ one_of choices v.
Proof.
  intros Hne. unfold _choice, one_of. rewrite seq_Ok, string_Ok, raise_unless_Ok, in_tuple_true. unfold text.
  split; [naive_solver|]. intros (s & -> & Hs). split; [|by exists s]. exists s. split; [done|]. by intros ->.
Qed.

Lemma sha256_Ok v : _sha256 v true = Ok tt ↔ digest v.
Proof. unfold _sha256, digest. destruct v; simpl; rewrite ?raise_unless_Ok; naive_solver. Qed.

Lemma string_list_Ok v : _string_list v = Ok tt ↔ texts v.
Proof.
  unfold _string_list, texts. rewrite raise_unless_Ok.
  destruct v as [| | | | |l|]; try (split; [done|intros (? & [=] & _)]).
  rewrite !andb_true_iff, bool_decide_eq_true, forallb_forall. split.
  - intros [[Hne Hl] Hnd]. exists (map text_of l).
    assert (Forall (λ v, text v) l) as Ht.
    { apply Forall_forall. intros x Hx. apply list_elem_of_In, Hl in Hx.
      apply string_Ok. unfold _string. by rewrite Hx. }
    split; [|split_and!; [by destruct l|done|]].
    + f_equal. rewrite map_map. clear -Ht. induction Ht as [|x l (s & -> & _) _ IH]; [done|].
      cbn [map text_of]. by f_equal.
    + rewrite list_elem_of_In, in_map_iff. intros (x & Hx & Hin).
      apply list_elem_of_In in Hin. rewrite Forall_forall in Ht. destruct (Ht _ Hin) as (s & -> & Hs). done.
  - intros (k & [= ->] & Hne & Hnd & Hk). rewrite map_map. cbn [text_of]. rewrite map_id.
    split; [split; [by destruct k|]|done]. intros x Hx. apply in_map_iff in Hx as (s & <- & Hs).
    destruct s; [|done]. destruct Hk. by apply list_elem_of_In.
Qed.

(** A check of an object, then of its fields, decides [object_of] when the
    second part decides the shapes of the fields. *)
Lemma object_checked {B} fields names v (body : json → res B) b :
  names = fields.*1 →
  (∀ d, (∀ k, k ∈ keys d ↔ k ∈ fields.*1) →
     body (JObj d) = Ok b ↔ Forall (λ f, f.2 (getd d f.1)) fields) →
  (_exact_object v names ≫= λ _, body v) = Ok b ↔ object_of fields v.
Proof.
  intros -> Hbody. rewrite seq_Ok, exact_object_Ok. unfold object_of. split.
  - intros [(d & -> & Hk) Hb]. exists d. split; [done|]. split; [done|]. by apply Hbody.
  - intros (d & -> & Hk & Hf). split; [by exists d|]. by apply Hbody.
Qed.

Lemma bind_done {A B} (a : A) (f : A → res B) : Ok a ≫= f = f a.
Proof. done. Qed.

Ltac field_in := apply (bool_decide_unpack _); vm_compute; exact I.

(** Decide an object by the checks of its fields, read from the dictionary [d]. *)
Ltac by_fields d :=
  match goal with |- (_exact_object ?v ?names ≫= ?k) = _ ↔ object_of ?fields ?v =>
    let body := eval pattern v in (k tt) in
    match body with ?f _ => apply (object_checked fields names v f); [reflexivity|] end
  end;
  let Hk := fresh "Hk" in intros d Hk; unfold strings_of; cbn [foldM mapMR];
  repeat rewrite (item_field d) by (apply Hk; field_in);
  rewrite ?bind_done, ?Forall_cons, ?Forall_nil; cbn [fst snd]; clear Hk.

Lemma check_source_Ok v : check_source v = Ok tt ↔ valid_source v.
Proof.
  unfold check_source, valid_source. by_fields d.
  rewrite !seq_Ok, !string_Ok, raise_unless_Ok, sha256_Ok.
  assert (text (getd d "url") ∧ startswith "https://" (text_of (getd d "url")) = true ↔ https_url (getd d "url")).
  { unfold text, https_url. split; [intros [(s & -> & _) Hs]; by exists s|].
    intros (s & -> & Hs). split; [|done]. exists s. split; [done|]. by intros ->. }
  tauto.
Qed.

Lemma check_capture_Ok v : check_capture v = Ok tt ↔ valid_capture v.
Proof.
  unfold check_capture, valid_capture. by_fields d.
  rewrite !seq_Ok, !choice_Ok, string_Ok by field_in. tauto.
Qed.

Lemma check_privacy_Ok v : check_privacy v = Ok tt ↔ valid_privacy v.
Proof.
  unfold check_privacy, valid_privacy. by_fields d.
  rewrite !seq_Ok, !choice_Ok, string_list_Ok by field_in. tauto.
Qed.

Lemma positive_int_Ok v : positive_int v = true ↔ positive v.
Proof. unfold positive. destruct v; simpl; rewrite ?Z.ltb_lt; naive_solver. Qed.

Lemma is_none_true v : is_none v = true ↔ v = JNull.
Proof. by destruct v. Qed.

Lemma check_hardware_Ok v measured :
  check_hardware v (JStr (label_of measured)) = Ok tt ↔ valid_hardware measured v.
Proof.
  unfold check_hardware, valid_hardware, HARDWARE_DETAILS. by_fields d.
  rewrite seq_Ok, raise_unless_Ok. destruct (getd d "available") as [|a| | | | |];
    try (split; by intros [? _]).
  cbn [existsb is_bool py_true].
  rewrite !seq_Ok. rewrite raise_if_Ok, raise_unless_Ok, ?orb_false_r.
  replace (eq_str (JStr (label_of measured)) "measured") with measured by (by destruct measured).
  destruct a; cbn [negb andb].
  - rewrite !seq_Ok, !string_Ok, !raise_unless_Ok, !positive_int_Ok. destruct measured; naive_solver.
  - rewrite !orb_false_iff, !negb_false_iff, !is_none_true. destruct measured; naive_solver.
Qed.

Lemma label_Ok v : one_of EVIDENCE_LABELS v ↔ ∃ measured, v = JStr (label_of measured).
Proof.
  unfold one_of, EVIDENCE_LABELS. split.
  - intros (s & -> & Hs). assert (s = "trace-derived" ∨ s = "measured") as [-> | ->] by set_solver;
      [by exists false|by exists true].
  - intros (m & ->). eexists. split; [done|]. destruct m; cbn [label_of]; set_solver.
Qed.

Lemma check_entry_Ok ids v ids' :
  check_entry ids v = Ok ids' ↔
  (∃ measured, valid_entry measured v) ∧ entry_id v ∉ ids ∧ ids' = ids ++ [entry_id v].
Proof.
  unfold check_entry, valid_entry, object_of. rewrite seq_Ok, exact_object_Ok. split.
  - intros [(d & -> & Hk) H]. unfold strings_of in H. cbn [foldM] in H.
    repeat rewrite (item_field d) in H by (apply Hk; field_in). rewrite ?bind_done in H.
    rewrite !seq_Ok in H. rewrite !string_Ok, raise_if_Ok, choice_Ok, check_source_Ok, check_capture_Ok,
      check_privacy_Ok, string_list_Ok, label_Ok in H by field_in.
    destruct H as ((Hid & Htitle & Hclass & _) & Hnew & (m & Hm) & Hs & Hc & Hh & Hp & Hl & [= <-]).
    rewrite Hm, check_hardware_Ok in Hh. split; [exists m, d|split; [|done]].
    + split; [done|]. split; [done|]. rewrite !Forall_cons, Forall_nil. done.
    + cbn [entry_id]. destruct Hid as (s & Hid & _). rewrite Hid in *. cbn [text_of]. intros Hin.
      apply not_true_iff_false in Hnew. destruct Hnew. apply in_tuple_true. by exists s.
  - intros ((m & d & -> & Hk & Hf) & Hnew & ->). split; [by exists d|].
    unfold strings_of. cbn [foldM].
    repeat rewrite (item_field d) by (apply Hk; field_in). rewrite ?bind_done.
    rewrite !Forall_cons, Forall_nil in Hf. cbn [fst snd] in Hf.
    destruct Hf as (Hid & Htitle & Hclass & Hm & Hs & Hc & Hh & Hp & Hl & _).
    rewrite !seq_Ok. rewrite !string_Ok, raise_if_Ok, choice_Ok, check_source_Ok, check_capture_Ok,
      check_privacy_Ok, string_list_Ok, label_Ok, Hm, check_hardware_Ok by field_in.
    split_and!; try done; [|by exists m].
    cbn [entry_id] in Hnew. destruct Hid as (s & Hid & _). rewrite Hid in *.
    apply not_true_iff_false. rewrite in_tuple_true. intros (s' & [= ->] & Hin). done.
Qed.

Lemma check_entries_Ok l ids :
  (∃ ids', foldM check_entry ids l = Ok ids') ↔
  Forall (λ e, ∃ measured, valid_entry measured e) l ∧ NoDup (map entry_id l) ∧ ids ## map entry_id l.
Proof.
  revert ids. induction l as [|e l IH]; intros ids; cbn [foldM map].
  - split; [|eauto]. intros _. split; [constructor|]. split; [constructor|]. set_solver.
  - setoid_rewrite bind_Ok. setoid_rewrite check_entry_Ok. rewrite Forall_cons, NoDup_cons. split.
    + intros (ids' & ids1 & (He & Hid & ->) & Hl).
      destruct (proj1 (IH _) (ex_intro _ _ Hl)) as (HF & Hnd & Hdis).
      split; [done|]. split; [split; [|done]|]; set_solver.
    + intros ((He & HF) & (Hid & Hnd) & Hdis).
      destruct (proj2 (IH (ids ++ [entry_id e]))) as [ids' Hl]; [split; [done|]; split; [done|set_solver]|].
      exists ids', (ids ++ [entry_id e]). split; [|done]. split; [done|]. split; [set_solver|done].
Qed.

Lemma workloads_Ok (entries c c' : json) :
  match entries with
  | JList ((_ :: _) as l) => foldM check_entry [] l ;; Ok c
  | _ => Raise (caterr "catalog workloads must be a non-empty list")
  end = Ok c' ↔ c' = c ∧ workloads entries.
Proof.
  unfold workloads. destruct entries as [| | | | |[|e l]|]; try (split; [done|naive_solver]).
  pose proof (check_entries_Ok (e :: l) []) as H. rewrite bind_Ok. split.
  - intros (ids & Hl & [= ->]). split; [done|]. exists (e :: l).
    destruct (proj1 H (ex_intro _ _ Hl)) as (? & ? & _). done.
  - intros (-> & l' & [= <-] & _ & HF & Hnd). destruct (proj2 H) as [ids Hl]; [split_and!; [done..|set_solver]|].
    by exists ids.
Qed.

(** [validate_catalog] decides the grammar. *)
Lemma validate_catalog_Ok c c' : validate_catalog c = Ok c' ↔ c' = c ∧ valid_catalog c.
Proof.
  unfold validate_catalog, valid_catalog, object_of. rewrite seq_Ok, exact_object_Ok. split.
  - intros [(d & -> & Hk) H]. repeat rewrite (item_field d) in H by (apply Hk; field_in).
    rewrite !bind_done, seq_Ok, raise_unless_Ok in H. destruct H as [Hv [-> Hw]%workloads_Ok].
    split; [done|]. exists d. split; [done|]. split; [done|]. by rewrite !Forall_cons, Forall_nil.
  - intros (-> & d & -> & Hk & Hf). rewrite !Forall_cons in Hf. destruct Hf as (Hv & Hw & _).
    split; [by exists d|]. repeat rewrite (item_field d) by (apply Hk; field_in).
    rewrite !bind_done, seq_Ok, raise_unless_Ok, workloads_Ok. done.
Qed.

(** ** Sorted keys *)

(** A shape that does not depend on the order of keys, and has no float. *)
Definition orderless (P : json → Prop) : Prop := ∀ v, json_wf v → P v → P (sort_keys v).
Definition exact (P : json → Prop) : Prop := ∀ v, json_wf v → P v → float_free v = true.

Lemma wf_getd d k : json_wf (JObj d) → json_wf (getd d k).
Proof.
  intros [_ Hw]%json_wf_obj. unfold getd. destruct (dget k d) as [x|] eqn:E; [|done].
  apply dget_Some_In in E. rewrite Forall_forall in Hw. exact (Hw _ E).
Qed.

Lemma getd_sorted d k : json_wf (JObj d) → getd (sorted_fields d) k = sort_keys (getd d k).
Proof. apply getd_sort_keys. Qed.

Lemma keys_sorted d k : k ∈ keys (sorted_fields d) ↔ k ∈ keys d.
Proof. unfold keys, sorted_fields. by rewrite sort_keys_perm, map_map. Qed.

Lemma object_orderless fields : Forall (λ f, orderless f.2) fields → orderless (object_of fields).
Proof.
  intros HP v Hw (d & -> & Hk & Hf). exists (sorted_fields d). split; [done|]. split.
  - intros k. by rewrite keys_sorted.
  - rewrite Forall_forall in HP, Hf |- *. intros f Hin. rewrite getd_sorted by done.
    apply HP; [done|by apply wf_getd|by apply Hf].
Qed.

Lemma object_exact fields : Forall (λ f, exact f.2) fields → exact (object_of fields).
Proof.
  intros HP v Hw (d & -> & Hk & Hf). cbn [float_free]. apply forallb_forall. intros [k x] Hin.
  apply list_elem_of_In in Hin. pose proof (proj1 (json_wf_obj d) Hw) as [Hnd Hwd].
  assert (k ∈ keys d) as Hkd by (apply list_elem_of_In, in_map_iff; exists (k, x); split; [done|by apply list_elem_of_In]).
  apply Hk, list_elem_of_fmap in Hkd as ([k' P] & -> & Hfi). cbn [fst snd] in *.
  rewrite Forall_forall in HP, Hf. rewrite Forall_forall in Hwd. specialize (Hf _ Hfi). cbn [fst snd] in Hf.
  unfold getd in Hf. rewrite (dget_NoDup _ _ _ Hnd Hin) in Hf. exact (HP _ Hfi x (Hwd _ Hin) Hf).
Qed.

(** Values that are not objects keep their form. *)
Definition flat (P : json → Prop) : Prop := ∀ v, P v → sort_keys v = v ∧ float_free v = true.

Lemma flat_orderless P : flat P → orderless P.
Proof. intros H v _ HP. by rewrite (proj1 (H v HP)). Qed.

Lemma flat_exact P : flat P → exact P.
Proof. intros H v _ HP. apply (H v HP). Qed.

Lemma flat_text : flat text.
Proof. by intros v (s & -> & _). Qed.
Lemma flat_one_of l : flat (one_of l).
Proof. by intros v (s & -> & _). Qed.
Lemma flat_https : flat https_url.
Proof. by intros v (s & -> & _). Qed.
Lemma flat_digest : flat digest.
Proof. by intros v [-> |(s & -> & _)]. Qed.
Lemma flat_positive : flat positive.
Proof. by intros v (s & -> & _). Qed.
Lemma flat_is_null : flat (λ v, v = JNull).
Proof. by intros v ->. Qed.
Lemma flat_is_bool b : flat (λ v, v = JBool b).
Proof. by intros v ->. Qed.
Lemma flat_is_str s : flat (λ v, v = JStr s).
Proof. by intros v ->. Qed.
Lemma flat_texts : flat texts.
Proof.
  intros v (l & -> & _). cbn [sort_keys float_free]. rewrite map_map. split; [done|].
  by induction l.
Qed.

Create HintDb shapes.
#[local] Hint Resolve flat_text flat_one_of flat_https flat_digest flat_positive flat_is_null flat_is_bool
  flat_is_str flat_texts flat_orderless flat_exact : shapes.

(** An object is orderless and exact when its fields are. *)
Ltac by_shapes :=
  split; [apply object_orderless|apply object_exact]; repeat (constructor; [cbn [snd]; eauto with shapes|]);
  constructor.

Lemma source_shape : orderless valid_source ∧ exact valid_source.
Proof. unfold valid_source. by_shapes. Qed.
Lemma capture_shape : orderless valid_capture ∧ exact valid_capture.
Proof. unfold valid_capture. by_shapes. Qed.
Lemma privacy_shape : orderless valid_privacy ∧ exact valid_privacy.
Proof. unfold valid_privacy. by_shapes. Qed.
Lemma hardware_shape m : orderless (valid_hardware m) ∧ exact (valid_hardware m).
Proof. unfold valid_hardware. destruct m; by_shapes. Qed.

Lemma entry_shape m : orderless (valid_entry m) ∧ exact (valid_entry m).
Proof.
  destruct source_shape, capture_shape, privacy_shape, (hardware_shape m).
  unfold valid_entry. by_shapes.
Qed.

Lemma entry_id_sorted e : json_wf e → entry_id (sort_keys e) = entry_id e.
Proof.
  destruct e as [| | | | | |d]; try done. intros Hw. change (sort_keys (JObj d)) with (JObj (sorted_fields d)).
  cbn [entry_id]. rewrite getd_sorted by done. by destruct (getd d "id").
Qed.

Lemma workloads_shape : orderless workloads ∧ exact workloads.
Proof.
  split; intros v Hw (l & -> & Hne & Hl & Hnd); apply json_wf_list in Hw; rewrite Forall_forall in Hw, Hl.
  - exists (map sort_keys l). split; [done|]. split; [by destruct l|]. split.
    + apply Forall_map, Forall_forall. intros e He. destruct (Hl e He) as [m Hm]. exists m.
      apply entry_shape; auto.
    + rewrite map_map. erewrite map_ext_in; [exact Hnd|]. intros e He.
      apply entry_id_sorted, Hw. by apply list_elem_of_In.
  - apply forallb_forall. intros e He%list_elem_of_In. destruct (Hl e He) as [m Hm].
    by apply (entry_shape m); auto.
Qed.

(** The version is a number, and a float only if the file says [1.0]. *)
Definition version_of (c : json) : json := match c with JObj d => getd d "schema_version" | _ => JNull end.
Definition is_float (v : json) : bool := match v with JFloat _ => true | _ => false end.

Lemma version_flat v : py_eq v (JInt 1) = true → sort_keys v = v ∧ (is_float v = false → float_free v = true).
Proof. by destruct v. Qed.

Lemma catalog_sorted c : json_wf c → valid_catalog c → valid_catalog (sort_keys c).
Proof.
  apply object_orderless. constructor; [|constructor; [|constructor]]; [|apply workloads_shape].
  intros v _ Hv. cbn [snd] in *. by rewrite (proj1 (version_flat v Hv)).
Qed.

Lemma catalog_float_free c :
  json_wf c → valid_catalog c → is_float (version_of c) = false → float_free c = true.
Proof.
  intros Hw Hc Hv. apply (object_exact [("schema_version", λ v, py_eq v (JInt 1) = true ∧ is_float v = false);
    ("workloads", workloads)]); [|done|].
  - constructor; [|constructor; [|constructor]]; [|apply workloads_shape].
    intros v _ [He Hf]. by apply version_flat.
  - destruct Hc as (d & -> & Hk & Hf). exists d. split; [done|]. split; [done|].
    rewrite !Forall_cons in Hf |- *. destruct Hf as (? & ? & _). done.
Qed.

(** ** The command line *)
Lemma load_Ok file c :
  load_catalog file = Ok c ↔
  ∃ raw txt, file = Some raw ∧ utf8_decode raw = Some txt ∧ loads_hook _unique_object txt = Ok c ∧ valid_catalog c.
Proof.
  unfold load_catalog. destruct file as [raw|]; [|naive_solver].
  destruct (utf8_decode raw) as [txt|] eqn:Eu; [|naive_solver].
  destruct (loads_hook _unique_object txt) as [v|e] eqn:El.
  - rewrite validate_catalog_Ok. split; [intros [-> ?]; by exists raw, txt|].
    intros (r & t & [= <-] & Ht & Hv & Hc). rewrite Eu in Ht. injection Ht as <-.
    rewrite El in Hv. injection Hv as <-. done.
  - split; [by destruct e as [[] ?]|]. intros (r & t & [= <-] & Ht & Hv & _).
    rewrite Eu in Ht. injection Ht as <-. by rewrite El in Hv.
Qed.

Lemma load_wf file c : load_catalog file = Ok c → json_wf c ∧ valid_catalog c.
Proof.
  intros (raw & txt & _ & _ & Hl & Hc)%load_Ok. split; [|done]. unfold loads_hook in Hl.
  apply bind_Ok in Hl as ([v r] & Hv & Hl). apply p_value_wf in Hv.
  destruct (skip_ws r); [|done]. apply Ok_inj in Hl. by subst.
Qed.

Lemma main_Ok m file c : load_catalog file = Ok c →
  main m file = match m with
                | CheckOnly => l ← entries_of c;
                    Ok ["valid workload catalog: " +:+ str_of_Z (Z.of_nat (length l)) +:+ " entries"]
                | AsJson => Ok [dumps Indent2 c]
                | Listing => l ← entries_of c; mapMR describe l
                end.
Proof. intros H. unfold main. by rewrite H. Qed.

Lemma entries_Ok c : valid_catalog c → ∃ l, entries_of c = Ok l ∧ l ≠ [] ∧
  Forall (λ e, ∃ measured, valid_entry measured e) l ∧ NoDup (map entry_id l).
Proof.
  intros (d & -> & Hk & Hf). rewrite !Forall_cons in Hf. destruct Hf as (_ & (l & Hl & Hs) & _). cbn [fst] in Hl.
  exists l. unfold entries_of. rewrite (item_field d) by (apply Hk; field_in). rewrite bind_done, Hl. done.
Qed.

(** What the listing says of an entry. *)
Definition line_for (id : string) (measured : bool) (method : string) : string :=
  id +:+ ": " +:+ label_of measured +:+ "; " +:+ method +:+ "; hardware=" +:+
  (if measured then "recorded" else "not-recorded").

Lemma describe_Ok m e : valid_entry m e → ∃ method, method ∈ CAPTURE_METHODS ∧
  describe e = Ok (line_for (entry_id e) m method).
Proof.
  intros (d & -> & Hk & Hf). rewrite !Forall_cons in Hf. cbn [fst snd] in Hf.
  destruct Hf as (Hid & _ & _ & Hm & _ & Hcap & Hhw & _).
  destruct Hcap as (cd & Hcd & Hck & Hcf). rewrite !Forall_cons in Hcf. destruct Hcf as ((method & Hme & Hin) & _).
  destruct Hhw as (hd & Hhd & Hhk & Hhf). rewrite !Forall_cons in Hhf. destruct Hhf as (Hav & _).
  destruct Hid as (s & Hs & _). cbn [fst snd] in *.
  exists method. split; [done|]. unfold describe. repeat rewrite (item_field d) by (apply Hk; field_in).
  rewrite !bind_done, Hhd, (item_field hd) by (apply Hhk; field_in).
  rewrite !bind_done, Hcd, (item_field cd) by (apply Hck; field_in).
  rewrite !bind_done, Hav, Hm, Hme. cbn [entry_id]. rewrite Hs. by destruct m.
Qed.

(** the listing of a catalog that loads has one line per workload, in the
    order of the file and under distinct identifiers, and says that hardware
    is recorded for exactly the workloads labelled as measured; the check
    counts the same workloads. *)
Theorem listing_truthful file c :
  load_catalog file = Ok c →
  ∃ l lines, entries_of c = Ok l ∧ main Listing file = Ok lines ∧ NoDup (map entry_id l) ∧
    Forall2 (λ e line, ∃ measured method, valid_entry measured e ∧ method ∈ CAPTURE_METHODS ∧
      line = line_for (entry_id e) measured method) l lines ∧
    main CheckOnly file = Ok ["valid workload catalog: " +:+ str_of_Z (Z.of_nat (length lines)) +:+ " entries"].
Proof.
  intros Hl. pose proof (load_wf _ _ Hl) as [_ Hc]. destruct (entries_Ok c Hc) as (l & He & _ & HF & Hnd).
  destruct (mapMR_total describe (λ e line, ∃ measured method, valid_entry measured e ∧ method ∈ CAPTURE_METHODS ∧
      line = line_for (entry_id e) measured method) l) as (lines & Hm & H2).
  { rewrite Forall_forall in HF. intros e (m & Hm)%HF. destruct (describe_Ok m e Hm) as (method & ? & ?). eauto 10. }
  exists l, lines. rewrite !(main_Ok _ _ _ Hl), He, !bind_done, Hm, (Forall2_length _ _ _ H2). done.
Qed.

(** the JSON that the command line prints for a catalog that loads is
    itself a catalog that loads, as the same document with its keys sorted,
    and lists the same workloads; a version written as a float is the one
    exception, as its text is not modelled. *)
Theorem printed_catalog_loads file c :
  load_catalog file = Ok c → is_float (version_of c) = false →
  ∃ out, main AsJson file = Ok [out] ∧ load_catalog (Some (out +:+ LF)) = Ok (sort_keys c) ∧
    py_eq (sort_keys c) c = true.
Proof.
  intros Hl Hv. pose proof (load_wf _ _ Hl) as [Hw Hc]. exists (dumps Indent2 c).
  pose proof (catalog_float_free c Hw Hc Hv) as Hf. rewrite (main_Ok _ _ _ Hl). split; [done|].
  split; [|destruct Hc as (d & -> & _); by apply sort_keys_eq].
  apply load_Ok. exists (dumps Indent2 c +:+ LF), (dumps Indent2 c +:+ LF). split; [done|].
  assert (float_free (sort_keys c) = true) as Hf' by (by rewrite sort_keys_float_free).
  unfold dumps. split_and!.
  - apply utf8_decode_ascii. by rewrite sforall_app, enc_ascii.
  - destruct Hc as (d & -> & _). apply loads_enc_LF; [apply unique_object_NoDup|done..|by apply sort_keys_wf].
  - by apply catalog_sorted.
Qed.

(** The UTF-8 bytes of a text of code points below 256. *)
Fixpoint utf8_encode (txt : string) : string :=
  match txt with
  | EmptyString => EmptyString
  | String c t =>
      if code c <? 128 then String c (utf8_encode t)
      else String (chr (192 + code c / 64)) (String (chr (128 + code c mod 64)) (utf8_encode t))
  end.

Lemma utf8_decode_encode txt : utf8_decode (utf8_encode txt) = Some txt.
Proof.
  induction txt as [|c t IH]; [done|]. cbn [utf8_encode]. destruct (Z.ltb_spec (code c) 128) as [Hc|Hc].
  - cbn [utf8_decode]. destruct (Z.ltb_spec (code c) 128); [|lia]. by rewrite IH.
  - assert (0 ≤ code c < 256) as Hr by (unfold code; pose proof (N_ascii_bounded c); lia).
    assert (2 ≤ code c / 64 ≤ 3) as Hd by (split; [apply Z.div_le_lower_bound; lia|apply Z.lt_succ_r, Z.div_lt_upper_bound; lia]).
    pose proof (Z.mod_pos_bound (code c) 64 ltac:(lia)) as Hm. cbn [utf8_decode]. rewrite !code_chr by lia.
    destruct (Z.ltb_spec (192 + code c / 64) 128); [lia|].
    assert (((192 + code c / 64 =? 194) || (192 + code c / 64 =? 195)) &&
      ((128 <=? 128 + code c mod 64) && (128 + code c mod 64 <? 192)) = true) as -> by lia.
    rewrite IH. cbn. do 2 f_equal. replace ((192 + code c / 64 - 192) * 64 + (128 + code c mod 64 - 128)) with (code c).
    + unfold chr, code. by rewrite N2Z.id, ascii_N_embedding.
    + pose proof (Z.div_mod (code c) 64 ltac:(lia)). lia.
Qed.

(** C39: of the files that are UTF-8 text of code points below 256, loading accepts
    exactly those whose text is a JSON document in which no object repeats a key,
    at any level, and which has the shape [valid_catalog]: the named fields and no
    others at every level, values of the closed enumerations, distinct
    identifiers, an HTTPS source, and hardware details for exactly the measured
    workloads; and it returns that document. *)
Theorem load_catalog_exact txt c :
  load_catalog (Some (utf8_encode txt)) = Ok c ↔ loads_hook Ok txt = Ok c ∧ json_wf c ∧ valid_catalog c.
Proof.
  rewrite load_Ok. unfold _unique_object. split.
  - intros (raw & t & [= <-] & Ht & [Hl Hw]%loads_unique & Hc). rewrite utf8_decode_encode in Ht. injection Ht as <-. done.
  - intros (Hl & Hw & Hc). exists (utf8_encode txt), txt. split; [done|]. split; [apply utf8_decode_encode|].
    split; [|done]. by apply loads_unique.
Qed.

(** A catalog of two workloads, as a file. *)
Definition sample : string := q2
  "{'schema_version': 1, 'workloads': [{'id': 'w1', 'title': 'T', 'workload_class': 'agent', 'evidence_label': 'trace-derived', 'source': {'url': 'https://x', 'revision': 'r', 'license': 'MIT', 'artifact_sha256': null}, 'capture': {'method': 'semantic-jsonl', 'format': 'f', 'timing': 'recorded', 'session_identity': 'removed', 'content_identity': 'opaque-object'}, 'hardware_geometry': {'available': false, 'device_model': null, 'logical_block_bytes': null, 'max_transfer_bytes': null, 'kernel': null, 'capture_tool': null}, 'privacy': {'transformation': 'none', 'prompt_content': 'removed', 'residual_disclosure': ['sizes']}, 'contribution_lanes': ['replay']}, {'id': 'w2', 'title': 'T', 'workload_class': 'agent', 'evidence_label': 'measured', 'source': {'url': 'https://y', 'revision': 'r', 'license': 'MIT', 'artifact_sha256': null}, 'capture': {'method': 'nvme-jsonl', 'format': 'f', 'timing': 'derived', 'session_identity': 'removed', 'content_identity': 'not-recorded'}, 'hardware_geometry': {'available': true, 'device_model': 'd', 'logical_block_bytes': 512, 'max_transfer_bytes': 131072, 'kernel': 'k', 'capture_tool': 't'}, 'privacy': {'transformation': 'none', 'prompt_content': 'removed', 'residual_disclosure': ['sizes']}, 'contribution_lanes': ['replay']}]}".

Definition sample_catalog : json := match load_catalog (Some sample) with Ok c => c | Raise _ => JNull end.

Lemma sample_loads : load_catalog (Some sample) = Ok sample_catalog.
Proof. vm_compute. reflexivity. Qed.

Example sample_listed : main Listing (Some sample) =
  Ok ["w1: trace-derived; semantic-jsonl; hardware=not-recorded"; "w2: measured; nvme-jsonl; hardware=recorded"].
Proof. vm_compute. reflexivity. Qed.

Lemma listing_truthful_witness : ∃ l lines,
  entries_of sample_catalog = Ok l ∧ main Listing (Some sample) = Ok lines ∧ NoDup (map entry_id l).
Proof.
  destruct (listing_truthful (Some sample) sample_catalog) as (l & lines & ? & ? & ? & _); [apply sample_loads|].
  by exists l, lines.
Defined.

Lemma printed_catalog_loads_witness : ∃ out,
  main AsJson (Some sample) = Ok [out] ∧ load_catalog (Some (out +:+ LF)) = Ok (sort_keys sample_catalog).
Proof.
  destruct (printed_catalog_loads (Some sample) sample_catalog) as (out & ? & ? & _);
    [apply sample_loads|vm_compute; reflexivity|]. by exists out.
Defined.
End Catalog.
