(* ===== verification/BlkParse.v ===== *)
(** * Parsing blkparse output

    [analyzers/blktrace_analyzer.py]: the regular expression of a blkparse
    line, the event it yields and the loading of a trace.  A printed event
    parses back; a loaded trace holds exactly the events of its lines, in
    order of time. *)

From stdpp Require Import prelude strings list sorting.
From Stdlib Require Import ZArith Lia Ascii.
From S2P Require Import Prelude PyText PyJson JsonText PyFloat FloatOps.
Local Open Scope Z_scope.

Module BlkParse.

Definition ACTION_QUEUE : string := "Q".
Definition ACTION_ISSUE : string := "D".
Definition ACTION_COMPLETE : string := "C".

Record TraceEvent := mkEvent {
  major : Z; minor : Z; cpu : Z; seq : Z; timestamp : pyfloat; pid : Z;
  action : string; rwbs : string; sector : Z; nblocks : Z; process : string;
  is_read : bool; is_write : bool; is_discard : bool; size_bytes : Z }.

(** ** The regular expression *)

(** The longest prefix in a class, and the rest. *)
Fixpoint span (p : ascii → bool) (s : string) : string * string :=
  match s with
  | EmptyString => (EmptyString, EmptyString)
  | String c t => if p c then let '(d, r) := span p t in (String c d, r) else (EmptyString, s)
  end.

Definition many1 (p : ascii → bool) (s : string) : option (string * string) :=
  let '(d, r) := span p s in if String.eqb d "" then None else Some (d, r).

Definition gap (s : string) : option string := snd <$> many1 is_space s.

Definition lit (z : Z) (s : string) : option string :=
  match s with String c t => if code c =? z then Some t else None | EmptyString => None end.

Definition is_upper (c : ascii) : bool := (65 <=? code c) && (code c <=? 90).
Definition is_stamp (c : ascii) : bool := is_digit09 c || (code c =? 46).

(** [.+?\]]: the shortest non-empty text without a newline before a bracket;
    [first] is the character that may itself be a bracket. *)
Fixpoint lazy_name (first : bool) (s : string) : option string :=
  match s with
  | EmptyString => None
  | String c t =>
      if negb first && (code c =? 93) then Some EmptyString
      else if code c =? 10 then None
      else String c <$> lazy_name false t
  end.

Definition bracketed (s : string) : option string :=
  match s with String c t => if code c =? 91 then lazy_name true t else None | EmptyString => None end.

Record groups := mkGroups {
  g1 : string; g2 : string; g3 : string; g4 : string; g5 : string; g6 : string; g7 : string; g8 : string;
  g9 : string; g10 : string; g11 : option string }.

(** [BLKPARSE_RE.match(line)].  The classes on both sides of every gap are
    disjoint, so a greedy match never has to give characters back, but for
    the gaps around empty flags: they share a run of at least two spaces. *)
Definition BLKPARSE_RE_match (line : string) : option groups :=
  '(g1, s) ← many1 is_digit09 (span is_space line).2;
  s ← lit 44 s;
  '(g2, s) ← many1 is_digit09 s; s ← gap s;
  '(g3, s) ← many1 is_digit09 s; s ← gap s;
  '(g4, s) ← many1 is_digit09 s; s ← gap s;
  '(g5, s) ← many1 is_stamp s; s ← gap s;
  '(g6, s) ← many1 is_digit09 s; s ← gap s;
  match s with
  | String act s =>
      if negb (is_upper act) then None else
      '(w, s) ← many1 is_space s;
      let '(g8, s) := span is_upper s in
      s ← (if String.eqb g8 "" then (if (String.length w <=? 1)%nat then None else Some s) else gap s);
      '(g9, s) ← many1 is_digit09 s;
      s ← lit 43 (span is_space s).2;
      '(g10, s) ← many1 is_digit09 (span is_space s).2;
      Some (mkGroups g1 g2 g3 g4 g5 g6 (String act EmptyString) g8 g9 g10 (bracketed (span is_space s).2))
  | EmptyString => None
  end.

(** [float(s)] for a text of digits and dots. *)
Definition float_text (s : string) : res pyfloat :=
  match split_on 46 s with
  | [a] => Ok (float_of_dec false (digits_val a) 0)
  | [a; b] => if String.eqb (a +:+ b) "" then Raise (Exn ValueError "could not convert string to float")
              else Ok (float_of_dec false (digits_val (a +:+ b)) (- Z.of_nat (String.length b)))
  | _ => Raise (Exn ValueError "could not convert string to float")
  end.

(** [SECTOR_SIZE] is a global that the command line sets. *)
Definition parse_blkparse_line (SECTOR_SIZE : Z) (line : string) : res (option TraceEvent) :=
  match BLKPARSE_RE_match line with
  | None => Ok None
  | Some m =>
      let flags := g8 m in
      let blocks := digits_val (g10 m) in
      ts ← float_text (g5 m);
      Ok (Some (mkEvent (digits_val (g1 m)) (digits_val (g2 m)) (digits_val (g3 m)) (digits_val (g4 m)) ts
        (digits_val (g6 m)) (g7 m) flags (digits_val (g9 m)) blocks (default "" (g11 m))
        (has_char 82 flags) (has_char 87 flags)
        (has_char 68 flags && negb (String.eqb (g7 m) ACTION_ISSUE)) (blocks * SECTOR_SIZE)))
  end.

(** ** Loading a trace *)
Definition ev_le (a b : TraceEvent) : Prop := fle (timestamp a) (timestamp b).
#[export] Instance ev_le_dec : RelDecision ev_le.
Proof. intros a b. unfold ev_le. apply _. Defined.

Definition skipped (line : string) : bool :=
  String.eqb line "" || startswith "CPU" line || startswith "Total" line || substr "==" line.

Record loading := mkLoading { l_events : list TraceEvent; l_errors : Z; l_lines : Z }.

Definition load_line (SECTOR_SIZE : Z) (st : loading) (line : string) : res loading :=
  let line := strip line in
  if skipped line then Ok st else
  ev ← parse_blkparse_line SECTOR_SIZE line;
  Ok (match ev with
      | Some e => mkLoading (l_events st ++ [e]) (l_errors st) (l_lines st + 1)
      | None => mkLoading (l_events st) (l_errors st + 1) (l_lines st + 1)
      end).

(** The lines of the file; the events, the unparseable lines and all lines
    counted. *)
Definition load_trace (SECTOR_SIZE : Z) (lines : list string) : res loading :=
  st ← foldM (load_line SECTOR_SIZE) (mkLoading [] 0 0) lines;
  Ok (mkLoading (stable_sort ev_le (l_events st)) (l_errors st) (l_lines st)).

Example blkparse_ex : parse_blkparse_line 512 "259,0   3    1    0.5  1234  Q  WS  2097152 + 8  [fio]" =
  Ok (Some (mkEvent 259 0 3 1 (FFin false 4503599627370496 (-53)) 1234 "Q" "WS" 2097152 8 "fio" false true false 4096)).
Proof. vm_compute. reflexivity. Qed.

Example parse_empty_flags :
  (parse_blkparse_line 512 "8,0 1 2 1.0 7 Q  16 + 8", parse_blkparse_line 512 "8,0 1 2 1.0 7 Q 16 + 8") =
  (Ok (Some (mkEvent 8 0 1 2 (FFin false 4503599627370496 (-52)) 7 "Q" "" 16 8 "" false false false 4096)), Ok None).
Proof. vm_compute. reflexivity. Qed.

(** A line whose time has two dots matches, and its conversion raises. *)
Example parse_two_dots : parse_blkparse_line 512 "8,0 1 2 1.2.3 7 Q R 16 + 8" =
  Raise (Exn ValueError "could not convert string to float").
Proof. vm_compute. reflexivity. Qed.

(** ** Printed lines parse back *)
Definition halts (p : ascii → bool) (s : string) : bool :=
  match s with String c _ => negb (p c) | EmptyString => true end.

Lemma span_app p d r : sforall p d = true → halts p r = true → span p (d +:+ r) = (d, r).
Proof.
  intros Hd Hr. induction d as [|c d IH].
  - change ("" +:+ r) with r. destruct r as [|c r]; [done|]. simpl in *. by destruct (p c).
  - cbn [sforall] in Hd. apply andb_true_iff in Hd as [Hc Hd]. rewrite sapp_cons. cbn [span].
    by rewrite Hc, IH.
Qed.

Lemma many1_app p d r : sforall p d = true → d ≠ "" → halts p r = true → many1 p (d +:+ r) = Some (d, r).
Proof. intros Hd Hne Hr. unfold many1. rewrite span_app by done. by destruct (String.eqb_spec d ""). Qed.

Lemma number_text z : 0 ≤ z → sforall is_digit09 (str_of_Z z) = true ∧ digits_val (str_of_Z z) = z.
Proof.
  intros Hz. unfold str_of_Z. destruct (Z.ltb_spec z 0); [lia|].
  split; [by apply str_of_nat_digits|]. unfold digits_val. by rewrite parse_str_of_nat.
Qed.

Lemma number_val z : 0 ≤ z → digits_val (str_of_Z z) = z.
Proof. apply number_text. Qed.

Lemma many1_number z r : 0 ≤ z → halts is_digit09 r = true → many1 is_digit09 (str_of_Z z +:+ r) = Some (str_of_Z z, r).
Proof. intros Hz Hr. apply many1_app; [by apply number_text|apply str_of_Z_nonempty|done]. Qed.

Lemma gap_space s : halts is_space s = true → gap (" " +:+ s) = Some s.
Proof. intros Hs. unfold gap. by rewrite many1_app. Qed.

Lemma lazy_name_app first p s : sforall (λ c, negb ((code c =? 93) || (code c =? 10))) p = true →
  (first = true → p ≠ "") → lazy_name first (p +:+ "]" +:+ s) = Some p.
Proof.
  revert first. induction p as [|c p IH]; intros first Hp Hf.
  - destruct first; [by specialize (Hf eq_refl)|]. done.
  - cbn [sforall] in Hp. apply andb_true_iff in Hp as [[H1 H2]%negb_true_iff%orb_false_iff Hp].
    rewrite sapp_cons. cbn [lazy_name]. rewrite H1, H2, andb_false_r, IH; done.
Qed.

Lemma halts_number z r (p : ascii → bool) : 0 ≤ z → (∀ c, is_digit09 c = true → p c = false) →
  halts p (str_of_Z z +:+ r) = true.
Proof.
  intros Hz Hp. destruct (number_text z Hz) as [Hd _]. pose proof (str_of_Z_nonempty z).
  destruct (str_of_Z z) as [|c t]; [done|]. cbn [sforall] in Hd. apply andb_true_iff in Hd as [Hc _].
  rewrite sapp_cons. cbn [halts]. by rewrite Hp.
Qed.

(** The fields of a line of blkparse, and the line. *)
Record fields := mkFields {
  f_major : Z; f_minor : Z; f_cpu : Z; f_seq : Z; f_stamp : string; f_pid : Z; f_action : ascii;
  f_rwbs : string; f_sector : Z; f_nblocks : Z; f_process : string }.

Definition print_fields (f : fields) : string :=
  str_of_Z (f_major f) +:+ "," +:+ str_of_Z (f_minor f) +:+ " " +:+ str_of_Z (f_cpu f) +:+ " " +:+
  str_of_Z (f_seq f) +:+ " " +:+ f_stamp f +:+ " " +:+ str_of_Z (f_pid f) +:+ " " +:+
  String (f_action f) EmptyString +:+ " " +:+ f_rwbs f +:+ " " +:+ str_of_Z (f_sector f) +:+ " + " +:+
  str_of_Z (f_nblocks f) +:+ " [" +:+ f_process f +:+ "]".

Definition printable (f : fields) : Prop :=
  0 ≤ f_major f ∧ 0 ≤ f_minor f ∧ 0 ≤ f_cpu f ∧ 0 ≤ f_seq f ∧ 0 ≤ f_pid f ∧ 0 ≤ f_sector f ∧ 0 ≤ f_nblocks f ∧
  sforall is_stamp (f_stamp f) = true ∧ f_stamp f ≠ "" ∧ is_upper (f_action f) = true ∧
  sforall is_upper (f_rwbs f) = true ∧
  sforall (λ c, negb ((code c =? 93) || (code c =? 10))) (f_process f) = true ∧ f_process f ≠ "".

Lemma span_none p s : halts p s = true → span p s = ("", s).
Proof. apply (span_app p ""). done. Qed.

Lemma lit_head z c s : code c = z → lit z (String c s) = Some s.
Proof. intros <-. cbn [lit]. by rewrite Z.eqb_refl. Qed.

Lemma upper_not_space c : is_upper c = true → is_space c = false.
Proof. unfold is_upper, is_space. lia. Qed.
Lemma digit_not_upper c : is_digit09 c = true → is_upper c = false.
Proof. unfold is_upper, is_digit09. lia. Qed.
Lemma stamp_not_space c : is_stamp c = true → is_space c = false.
Proof. unfold is_stamp, is_space, is_digit09. lia. Qed.

(** The gaps around the flags, empty or not. *)
Lemma match_flags flags r : sforall is_upper flags = true →
  halts is_space r = true → halts is_upper r = true →
  ∃ w s, many1 is_space (" " +:+ flags +:+ " " +:+ r) = Some (w, s) ∧ span is_upper s = (flags, if String.eqb flags "" then r else " " +:+ r) ∧
    (flags = "" → (String.length w <=? 1)%nat = false).
Proof.
  intros Hf Hr Hu. destruct flags as [|c t].
  - exists "  ", r. split; [|split; [by apply span_none|done]].
    change (" " +:+ "" +:+ " " +:+ r) with ("  " +:+ r). by apply many1_app.
  - exists " ", (String c t +:+ " " +:+ r). split; [|split; [|done]].
    + apply many1_app; [done..|]. rewrite sapp_cons. cbn [halts]. cbn [sforall] in Hf.
      apply andb_true_iff in Hf as [Hc _]. by rewrite upper_not_space.
    + by apply span_app.
Qed.

Lemma match_printed f : printable f →
  BLKPARSE_RE_match (print_fields f) = Some (mkGroups (str_of_Z (f_major f)) (str_of_Z (f_minor f))
    (str_of_Z (f_cpu f)) (str_of_Z (f_seq f)) (f_stamp f) (str_of_Z (f_pid f)) (String (f_action f) EmptyString)
    (f_rwbs f) (str_of_Z (f_sector f)) (str_of_Z (f_nblocks f)) (Some (f_process f))).
Proof.
  intros (H1 & H2 & H3 & H4 & H5 & H6 & H7 & Hs & Hs' & Ha & Hr & Hp & Hp').
  assert (∀ z r, 0 ≤ z → halts is_space (str_of_Z z +:+ r) = true) as Hsp
    by (intros; apply halts_number; [done|apply digit09_not_space]).
  unfold BLKPARSE_RE_match, print_fields.
  rewrite span_none by auto. cbn [snd]. rewrite many1_number by done. cbn [mbind option_bind].
  rewrite (sapp_cons ","), lit_head by done. change ("" +:+ ?x) with x. cbn [mbind option_bind].
  rewrite many1_number by done. cbn [mbind option_bind]. rewrite gap_space by auto. cbn [mbind option_bind].
  rewrite many1_number by done. cbn [mbind option_bind]. rewrite gap_space by auto. cbn [mbind option_bind].
  rewrite many1_number by done. cbn [mbind option_bind]. rewrite gap_space.
  2:{ destruct (f_stamp f) as [|c t]; [done|]. rewrite sapp_cons. cbn [halts]. cbn [sforall] in Hs.
      apply andb_true_iff in Hs as [Hc _]. by rewrite stamp_not_space. }
  cbn [mbind option_bind]. rewrite many1_app by done. cbn [mbind option_bind]. rewrite gap_space by auto.
  cbn [mbind option_bind]. rewrite many1_number by done. cbn [mbind option_bind]. rewrite gap_space.
  2:{ rewrite sapp_cons. cbn [halts]. by rewrite upper_not_space. }
  cbn [mbind option_bind]. rewrite (sapp_cons (f_action f)). change ("" +:+ ?x) with x. rewrite Ha. cbn [negb].
  set (r := str_of_Z (f_sector f) +:+ _).
  destruct (match_flags (f_rwbs f) r Hr) as (w & s & -> & Hspan & Hw);
    [by apply Hsp|apply halts_number; [done|apply digit_not_upper]|].
  cbn [mbind option_bind]. rewrite Hspan.
  assert ((if String.eqb (f_rwbs f) "" then if (String.length w <=? 1)%nat then None
    else Some (if String.eqb (f_rwbs f) "" then r else " " +:+ r)
    else gap (if String.eqb (f_rwbs f) "" then r else " " +:+ r)) = Some r) as ->.
  { destruct (String.eqb_spec (f_rwbs f) "") as [E|E]; [by rewrite Hw|]. apply gap_space. by apply Hsp. }
  cbn [mbind option_bind]. unfold r. rewrite many1_number by done. cbn [mbind option_bind].
  change (" + " +:+ ?x) with (" " +:+ "+ " +:+ x). rewrite (span_app is_space " ") by done. cbn [snd].
  change ("+ " +:+ ?x) with (String "+" (" " +:+ x)). rewrite lit_head by done. cbn [mbind option_bind].
  rewrite (span_app is_space " ") by auto. cbn [snd]. rewrite many1_number by done. cbn [mbind option_bind].
  change (" [" +:+ ?x) with (" " +:+ String "[" x). rewrite (span_app is_space " ") by done. cbn [snd bracketed].
  change (code "[" =? 91) with true. cbv iota. change "]" with ("]" +:+ "") at 1. rewrite lazy_name_app by done. done.
Qed.

(** The event a line stands for. *)
Definition event_of (SECTOR_SIZE : Z) (f : fields) (t : pyfloat) : TraceEvent :=
  mkEvent (f_major f) (f_minor f) (f_cpu f) (f_seq f) t (f_pid f) (String (f_action f) EmptyString) (f_rwbs f)
    (f_sector f) (f_nblocks f) (f_process f) (has_char 82 (f_rwbs f)) (has_char 87 (f_rwbs f))
    (has_char 68 (f_rwbs f) && negb (Ascii.eqb (f_action f) "D")) (f_nblocks f * SECTOR_SIZE).

(** a line in the format of blkparse parses to the event it was printed
    for, whatever its fields, flags and process name; it raises exactly when
    its time is not a decimal number. *)
Theorem parse_printed SECTOR_SIZE f : printable f →
  parse_blkparse_line SECTOR_SIZE (print_fields f) =
    match float_text (f_stamp f) with
    | Ok t => Ok (Some (event_of SECTOR_SIZE f t))
    | Raise e => Raise e
    end.
Proof.
  intros Hf. unfold parse_blkparse_line. rewrite match_printed by done.
  destruct Hf as (H1 & H2 & H3 & H4 & H5 & H6 & H7 & _).
  cbn [g1 g2 g3 g4 g5 g6 g7 g8 g9 g10 g11]. destruct (float_text (f_stamp f)) as [t|]; [|done].
  cbn [mbind res_bind]. unfold event_of. rewrite !number_val by done. do 3 f_equal.
  destruct (Ascii.eqb_spec (f_action f) "D") as [-> |E]; [done|].
  destruct (String.eqb_spec (String (f_action f) "") ACTION_ISSUE) as [[= E']|]; [|done]. congruence.
Qed.

Definition sample_fields : fields :=
  mkFields 259 0 3 1 "0.000012345" 1234 "Q" "WS" 2097152 8 "fio".

Lemma parse_printed_witness : ∃ t, float_text (f_stamp sample_fields) = Ok t ∧
  parse_blkparse_line 512 (print_fields sample_fields) = Ok (Some (event_of 512 sample_fields t)).
Proof.
  eexists. split; [vm_compute; reflexivity|].
  rewrite (parse_printed 512 sample_fields); [vm_compute; reflexivity|]. repeat split; vm_compute; done.
Defined.

(** ** A loaded trace *)
Definition counted (line : string) : bool := negb (skipped (strip line)).

Definition parsed (SECTOR_SIZE : Z) (line : string) : option TraceEvent :=
  match parse_blkparse_line SECTOR_SIZE (strip line) with Ok e => e | Raise _ => None end.

(** The events of the lines that are not skipped. *)
Definition events_in (SECTOR_SIZE : Z) (lines : list string) : list TraceEvent :=
  omap (parsed SECTOR_SIZE) (List.filter counted lines).

(** The lines whose time converts. *)
Definition readable (SECTOR_SIZE : Z) (line : string) : Prop :=
  counted line = true → is_ok (parse_blkparse_line SECTOR_SIZE (strip line)) = true.

Lemma load_lines S lines st0 : Forall (readable S) lines →
  foldM (load_line S) st0 lines = Ok (mkLoading (l_events st0 ++ events_in S lines)
    (l_errors st0 + (Z.of_nat (length (List.filter counted lines)) - Z.of_nat (length (events_in S lines))))
    (l_lines st0 + Z.of_nat (length (List.filter counted lines)))).
Proof.
  intros Hr. revert st0. induction Hr as [|line lines Hl _ IH]; intros st0.
  - cbn. rewrite app_nil_r, !Z.add_0_r. by destruct st0.
  - cbn [foldM]. assert (load_line S st0 line = if skipped (strip line) then Ok st0 else
      parse_blkparse_line S (strip line) ≫= λ ev, Ok (match ev with
        | Some e => mkLoading (l_events st0 ++ [e]) (l_errors st0) (l_lines st0 + 1)
        | None => mkLoading (l_events st0) (l_errors st0 + 1) (l_lines st0 + 1) end)) as -> by done.
    unfold readable in Hl. unfold events_in in *. cbn [List.filter].
    destruct (counted line) eqn:Ec; unfold counted in Ec.
    + apply negb_true_iff in Ec. rewrite Ec. specialize (Hl eq_refl).
      destruct (parse_blkparse_line S (strip line)) as [o|] eqn:Eo; [|done].
      assert (parsed S line = o) as Hp by (unfold parsed; by rewrite Eo). cbn [omap list_omap]. rewrite Hp.
      cbn [mbind res_bind]. rewrite IH. f_equal.
      destruct o; cbn [l_events l_errors l_lines length]; f_equal; rewrite <-?app_assoc; try done; lia.
    + apply negb_false_iff in Ec. rewrite Ec. cbn [mbind res_bind]. by rewrite IH.
Qed.

Lemma events_sorted l : Forall (λ e, finite (timestamp e)) l → StronglySorted ev_le (stable_sort ev_le l).
Proof.
  intros Hf. assert (Total ev_le) as Ht by (intros a b; apply (total fle)).
  pose proof (Sorted_stable_sort ev_le l) as Hs. rewrite <- (stable_sort_Permutation ev_le l) in Hf.
  induction Hs as [|a k Hk IH Hhd]; [constructor|]. apply Forall_cons in Hf as [Ha Hf]. specialize (IH Hf).
  constructor; [done|]. destruct Hhd as [|b k Hab]; [done|]. inversion IH as [|? ? _ Hall]; subst.
  apply Forall_cons in Hf as [Hb Hf]. constructor; [done|]. rewrite Forall_forall in Hall, Hf |- *.
  intros x Hx. exact (fle_trans _ _ _ Ha Hb (Hf x Hx) Hab (Hall x Hx)).
Qed.

(** a trace loads unless the time of some line does not convert; it then
    holds exactly the events of the lines that count, in the order of their
    times, and the errors reported are the counted lines without an event. *)
Theorem load_trace_correct SECTOR_SIZE lines : Forall (readable SECTOR_SIZE) lines →
  ∃ st, load_trace SECTOR_SIZE lines = Ok st ∧ l_events st ≡ₚ events_in SECTOR_SIZE lines ∧
    (Forall (λ e, finite (timestamp e)) (l_events st) → StronglySorted ev_le (l_events st)) ∧
    l_lines st = Z.of_nat (length (List.filter counted lines)) ∧
    l_errors st = l_lines st - Z.of_nat (length (l_events st)).
Proof.
  intros Hr. eexists. split; [unfold load_trace; rewrite load_lines by done; reflexivity|].
  cbn [l_events l_errors l_lines app]. split; [apply stable_sort_Permutation|]. split.
  - intros Hf. apply events_sorted. by rewrite stable_sort_Permutation in Hf.
  - rewrite stable_sort_Permutation. lia.
Qed.

Definition sample_lines : list string :=
  ["259,0 3 2 0.5 7 C R 64 + 8 [fio]"; "CPU0 (x):"; ""; "259,0 3 1 0.25 7 D R 64 + 8 [fio]"; "plug"].

Lemma load_trace_correct_witness : ∃ st, load_trace 512 sample_lines = Ok st ∧ l_lines st = 3 ∧
  l_errors st = l_lines st - Z.of_nat (length (l_events st)).
Proof.
  destruct (load_trace_correct 512 sample_lines) as (st & ? & _ & _ & Hl & ?).
  - repeat constructor; intros _; vm_compute; reflexivity.
  - exists st. split; [done|]. split; [|done]. rewrite Hl. vm_compute. reflexivity.
Defined.
End BlkParse.
