(* ===== verification/BlkAnalyze.v ===== *)
(** * The block-trace analyzer

    [analyzers/blktrace_analyzer.py]: the device geometry, the matching of
    queue, issue and completion events into request lifecycles, the alignment
    of requests against the geometry, queue depth, and the series per time
    bucket.  Numpy arrays of float64 are lists of floats; [np.mean] is a
    parameter.  The time axes and the labels of the charts are left out. *)

From stdpp Require Import prelude strings list gmap sorting.
From Stdlib Require Import ZArith Lia Ascii.
From S2P Require Import Prelude PyText PyJson JsonText PyFloat FloatOps BlkParse.
Import BlkParse.
Local Open Scope Z_scope.

Module BlkAnalyze.

(** ** Geometry *)
Record SSDGeometry := mkGeometry {
  lbs : Z; iu_size : Z; npwg : Z; npwa : Z; npdg : Z; awun : Z; awupf : Z; nand_page : Z; device_name : string }.

Definition default_geometry : SSDGeometry := mkGeometry 512 0 0 0 0 0 0 0 "".

Definition has_iu (g : SSDGeometry) : bool := 0 <? iu_size g.
Definition has_npwg (g : SSDGeometry) : bool := 0 <? npwg g.
Definition has_awun (g : SSDGeometry) : bool := 0 <? awun g.

Definition sectors_of (g : SSDGeometry) (size : Z) : Z :=
  if (0 <? size) && (0 <? lbs g) then size / lbs g else 0.
Definition iu_sectors (g : SSDGeometry) : Z := sectors_of g (iu_size g).
Definition npwg_sectors (g : SSDGeometry) : Z := sectors_of g (npwg g).
Definition awun_sectors (g : SSDGeometry) : Z := sectors_of g (awun g).

(** ** Request lifecycles *)
Record IORequest := mkRequest {
  rq_sector : Z; rq_nblocks : Z; rq_read : bool;
  queue_time : option pyfloat; issue_time : option pyfloat; complete_time : option pyfloat }.

Definition set_issue (r : IORequest) (t : pyfloat) : IORequest :=
  mkRequest (rq_sector r) (rq_nblocks r) (rq_read r) (queue_time r) (Some t) (complete_time r).
Definition set_complete (r : IORequest) (t : pyfloat) : IORequest :=
  mkRequest (rq_sector r) (rq_nblocks r) (rq_read r) (queue_time r) (issue_time r) (Some t).

(** [1e6] *)
Definition million : pyfloat := float_of_dec false 1 6.

Definition latency_us (from to : option pyfloat) : option pyfloat :=
  f ← from; t ← to; Some (fmul (fsub t f) million).
Definition q2c_latency_us (r : IORequest) : option pyfloat := latency_us (queue_time r) (complete_time r).
Definition d2c_latency_us (r : IORequest) : option pyfloat := latency_us (issue_time r) (complete_time r).
Definition q2d_latency_us (r : IORequest) : option pyfloat := latency_us (queue_time r) (issue_time r).

Definition ev_key (ev : TraceEvent) : Z * Z := (sector ev, nblocks ev).

Record matching := mkMatching { pending : gmap (Z * Z) (list IORequest); completed_ios : list IORequest }.

(** [pending[key]] of the [defaultdict(list)]. *)
Definition waiting (p : gmap (Z * Z) (list IORequest)) (k : Z * Z) : list IORequest := default [] (p !! k).

(** One turn of the loop of [_compute_latencies]. *)
Definition match_event (st : matching) (ev : TraceEvent) : matching :=
  let key := ev_key ev in let ts := timestamp ev in
  let q := waiting (pending st) key in
  if String.eqb (action ev) ACTION_QUEUE then
    mkMatching (<[key := q ++ [mkRequest (sector ev) (nblocks ev) (is_read ev) (Some ts) None None]]> (pending st))
      (completed_ios st)
  else if String.eqb (action ev) ACTION_ISSUE then
    mkMatching (<[key := match q with
                         | r :: q' => set_issue r ts :: q'
                         | [] => [mkRequest (sector ev) (nblocks ev) (is_read ev) None (Some ts) None]
                         end]> (pending st)) (completed_ios st)
  else if String.eqb (action ev) ACTION_COMPLETE then
    match q with
    | r :: q' => mkMatching (<[key := q']> (pending st)) (completed_ios st ++ [set_complete r ts])
    | [] => st
    end
  else st.

Definition _compute_latencies (events : list TraceEvent) : matching :=
  foldl match_event (mkMatching ∅ []) events.

(** ** The analyzer *)
Record IUAnalysisResult := mkIU {
  r_sector : Z; r_nblocks : Z; r_size : Z; r_read : bool; r_time : pyfloat;
  sub_iu : bool; iu_crossings : Z; iu_aligned : bool; iu_units_touched : Z; iu_units_ideal : Z; iu_waf : pyfloat;
  npwg_aligned : bool; npwg_start_aligned : bool; npwg_units_touched : Z;
  awun_crossings : Z; awun_safe : bool }.

Record BlktraceAnalyzer := mkAnalyzer {
  events : list TraceEvent; time_bucket : pyfloat; lba_bins : Z; geom : SSDGeometry;
  t0 : pyfloat; t_end : pyfloat; duration : pyfloat; completed : list IORequest;
  _iu_results : option (list IUAnalysisResult) }.

Definition new_analyzer (evs : list TraceEvent) (bucket : pyfloat) (bins : Z) (g : option SSDGeometry)
    : res BlktraceAnalyzer :=
  match evs with
  | [] => Raise (Exn ValueError "No events to analyze")
  | first :: rest =>
      let start := timestamp first in
      let stop := timestamp (default first (last evs)) in
      Ok (mkAnalyzer evs bucket bins (default default_geometry g) start stop (fsub stop start)
            (completed_ios (_compute_latencies evs)) None)
  end.

(** ** Alignment *)

(** [a // b] and [a % b] *)
Definition floordiv (a b : Z) : res Z :=
  if b =? 0 then Raise (Exn ZeroDivisionError "integer division or modulo by zero") else Ok (a / b).
Definition modulo (a b : Z) : res Z :=
  if b =? 0 then Raise (Exn ZeroDivisionError "integer modulo by zero") else Ok (a mod b).

Definition fone : pyfloat := FFin false 4503599627370496 (-52).

(** A result with the defaults of its class. *)
Definition plain_result (ev : TraceEvent) : IUAnalysisResult :=
  mkIU (sector ev) (nblocks ev) (size_bytes ev) (is_read ev) (timestamp ev)
    false 0 false 0 0 fone false false 0 0 true.

Definition with_iu (g : SSDGeometry) (ev : TraceEvent) (r : IUAnalysisResult) : res IUAnalysisResult :=
  if negb (has_iu g) then Ok r else
  let iu_s := iu_sectors g in
  let sub := is_write ev && (nblocks ev <? iu_s) in
  start_iu ← floordiv (sector ev) iu_s;
  end_iu ← floordiv (sector ev + nblocks ev - 1) iu_s;
  ratio ← int_truediv (nblocks ev) iu_s;
  units ← ceil_of ratio;
  let ideal := Z.max 1 units in
  smod ← modulo (sector ev) iu_s;
  nmod ← modulo (nblocks ev) iu_s;
  let touched := end_iu - start_iu + 1 in
  waf ← (if 0 <? ideal then int_truediv touched ideal else Ok fone);
  Ok (mkIU (r_sector r) (r_nblocks r) (r_size r) (r_read r) (r_time r)
        sub (end_iu - start_iu) ((smod =? 0) && (nmod =? 0)) touched ideal waf
        (npwg_aligned r) (npwg_start_aligned r) (npwg_units_touched r) (awun_crossings r) (awun_safe r)).

Definition with_npwg (g : SSDGeometry) (ev : TraceEvent) (r : IUAnalysisResult) : res IUAnalysisResult :=
  if negb (has_npwg g) then Ok r else
  let npwg_s := npwg_sectors g in
  nmod ← modulo (nblocks ev) npwg_s;
  smod ← modulo (sector ev) npwg_s;
  start_npwg ← floordiv (sector ev) npwg_s;
  end_npwg ← floordiv (sector ev + nblocks ev - 1) npwg_s;
  Ok (mkIU (r_sector r) (r_nblocks r) (r_size r) (r_read r) (r_time r)
        (sub_iu r) (iu_crossings r) (iu_aligned r) (iu_units_touched r) (iu_units_ideal r) (iu_waf r)
        ((nmod =? 0) && (npwg_s <=? nblocks ev)) (smod =? 0) (end_npwg - start_npwg + 1)
        (awun_crossings r) (awun_safe r)).

Definition with_awun (g : SSDGeometry) (ev : TraceEvent) (r : IUAnalysisResult) : res IUAnalysisResult :=
  if negb (has_awun g && is_write ev) then Ok r else
  let awun_s := awun_sectors g in
  start_awun ← floordiv (sector ev) awun_s;
  end_awun ← floordiv (sector ev + nblocks ev - 1) awun_s;
  let crossings := end_awun - start_awun in
  Ok (mkIU (r_sector r) (r_nblocks r) (r_size r) (r_read r) (r_time r)
        (sub_iu r) (iu_crossings r) (iu_aligned r) (iu_units_touched r) (iu_units_ideal r) (iu_waf r)
        (npwg_aligned r) (npwg_start_aligned r) (npwg_units_touched r) crossings (crossings =? 0)).

Definition analyze_event (g : SSDGeometry) (ev : TraceEvent) : res IUAnalysisResult :=
  r ← with_iu g ev (plain_result ev); r ← with_npwg g ev r; with_awun g ev r.

Definition is_queued (ev : TraceEvent) : bool := String.eqb (action ev) ACTION_QUEUE && (0 <? nblocks ev).

(** The results, computed once and kept in the analyzer. *)
Definition analyze_iu_alignment (a : BlktraceAnalyzer) : res (list IUAnalysisResult * BlktraceAnalyzer) :=
  match _iu_results a with
  | Some results => Ok (results, a)
  | None =>
      results ← mapMR (analyze_event (geom a)) (List.filter is_queued (events a));
      Ok (results, mkAnalyzer (events a) (time_bucket a) (lba_bins a) (geom a) (t0 a) (t_end a) (duration a)
                     (completed a) (Some results))
  end.

(** ** Queue depth *)

(** A change of depth: its time, its delta, and whether it is a read. *)
Definition change : Type := pyfloat * Z * bool.

(** The order of such tuples: the first components that differ decide. *)
Definition change_ltb (a b : change) : bool :=
  let '(t, d, r) := a in let '(t', d', r') := b in
  if negb (fltb t t') && negb (fltb t' t)
  then (d <? d') || ((d =? d') && negb r && r')
  else fltb t t'.
Definition change_le (a b : change) : Prop := change_ltb b a = false.
#[export] Instance change_le_dec : RelDecision change_le.
Proof. intros a b. unfold change_le. apply _. Defined.

Definition changes_of (a : BlktraceAnalyzer) : list change :=
  omap (λ ev, if String.eqb (action ev) ACTION_ISSUE then Some (fsub (timestamp ev) (t0 a), 1, is_read ev)
              else if String.eqb (action ev) ACTION_COMPLETE then Some (fsub (timestamp ev) (t0 a), -1, is_read ev)
              else None) (events a).

Record depth := mkDepth { d_total : Z; d_read : Z; d_write : Z }.

Definition depth_step (d : depth) (c : change) : depth :=
  let '(_, delta, ir) := c in
  mkDepth (Z.max 0 (d_total d + delta)) (Z.max 0 (d_read d + (if ir then delta else 0)))
    (Z.max 0 (d_write d + (if ir then 0 else delta))).

(** The samples of the loop, one per change. *)
Fixpoint depth_samples (d : depth) (changes : list change) : list (pyfloat * depth) :=
  match changes with
  | [] => []
  | c :: rest => let d' := depth_step d c in (c.1.1, d') :: depth_samples d' rest
  end.

Definition compute_queue_depth (a : BlktraceAnalyzer) : list (pyfloat * depth) :=
  match changes_of a with
  | [] => [(fzero, mkDepth 0 0 0)]
  | changes => depth_samples (mkDepth 0 0 0) (stable_sort change_le changes)
  end.

(** ** Series per time bucket *)

(** [max(1, int(np.ceil(duration / time_bucket)))] *)
Definition bucket_count (dur bucket : pyfloat) : res Z :=
  x ← fdiv dur bucket; n ← ceil_of x; Ok (Z.max 1 n).

(** [min(int((t - t0) / time_bucket), n - 1)] *)
Definition bucket_of (start bucket : pyfloat) (n : Z) (t : pyfloat) : res Z :=
  x ← fdiv (fsub t start) bucket; i ← int_of x; Ok (Z.min i (n - 1)).

(** [a[i] += x] on a float64 array; a negative index counts from the end. *)
Definition np_add (a : list pyfloat) (i : Z) (x : pyfloat) : res (list pyfloat) :=
  let n := Z.of_nat (length a) in
  if (- n <=? i) && (i <? n) then Ok (alter (λ y, fadd y x) (Z.to_nat (if i <? 0 then n + i else i)) a)
  else Raise (Exn IndexError "index is out of bounds").

Definition np_zeros (n : Z) : list pyfloat := replicate (Z.to_nat n) fzero.

(** Add the amount of every event to the bucket of its time, in the first or
    the second array; [side] is [None] for an event that neither counts. *)
Definition tally (start bucket : pyfloat) (n : Z) (side : TraceEvent → option bool) (amount : TraceEvent → Z)
    (evs : list TraceEvent) : res (list pyfloat * list pyfloat) :=
  foldM (λ st ev,
    i ← bucket_of start bucket n (timestamp ev);
    match side ev with
    | Some true => x ← float_of_Z (amount ev); r ← np_add st.1 i x; Ok (r, st.2)
    | Some false => x ← float_of_Z (amount ev); w ← np_add st.2 i x; Ok (st.1, w)
    | None => Ok st
    end) (np_zeros n, np_zeros n) evs.

Definition is_completion (ev : TraceEvent) : bool := String.eqb (action ev) ACTION_COMPLETE.

(** The arrays that [compute_throughput] and [compute_iops] fill. *)
Definition completion_tally (a : BlktraceAnalyzer) (amount : TraceEvent → Z) : res (list pyfloat * list pyfloat) :=
  n ← bucket_count (duration a) (time_bucket a);
  tally (t0 a) (time_bucket a) n (λ ev, Some (is_read ev)) amount (List.filter is_completion (events a)).

Definition scale (d : pyfloat) (l : list pyfloat) : res (list pyfloat) := mapMR (λ x, fdiv x d) l.

(** [1024**2] as a float. *)
Definition MB : pyfloat := FFin false 4503599627370496 (-32).

Definition compute_throughput (a : BlktraceAnalyzer) : res (list pyfloat * list pyfloat) :=
  match List.filter is_completion (events a) with
  | [] => Ok ([fzero], [fzero])
  | _ => b ← completion_tally a size_bytes;
         r ← scale (time_bucket a) b.1; r ← scale MB r; w ← scale (time_bucket a) b.2; w ← scale MB w; Ok (r, w)
  end.

Definition compute_iops (a : BlktraceAnalyzer) : res (list pyfloat * list pyfloat) :=
  match List.filter is_completion (events a) with
  | [] => Ok ([fzero], [fzero])
  | _ => b ← completion_tally a (λ _, 1);
         r ← scale (time_bucket a) b.1; w ← scale (time_bucket a) b.2; Ok (r, w)
  end.

(** ** Sizes and latencies *)
Definition compute_io_sizes (a : BlktraceAnalyzer) : list Z * list Z * list Z :=
  let qe := List.filter is_queued (events a) in
  (map size_bytes (List.filter is_read qe), map size_bytes (List.filter is_write qe), map size_bytes qe).

(** [lat is not None and lat > 0] *)
Definition positive_latency (l : option pyfloat) : option pyfloat :=
  x ← l; if fltb fzero x then Some x else None.

Definition latencies (lat : IORequest → option pyfloat) (read : bool) (a : BlktraceAnalyzer) : list pyfloat :=
  omap (λ r, if Bool.eqb (rq_read r) read then positive_latency (lat r) else None) (completed a).

(** The six arrays, in the order of the dictionary. *)
Definition compute_latency_distributions (a : BlktraceAnalyzer) : list (string * list pyfloat) :=
  [("q2c_read", latencies q2c_latency_us true a); ("q2c_write", latencies q2c_latency_us false a);
   ("d2c_read", latencies d2c_latency_us true a); ("d2c_write", latencies d2c_latency_us false a);
   ("q2d_read", latencies q2d_latency_us true a); ("q2d_write", latencies q2d_latency_us false a)].

(** ** Alignment statistics *)

(** Sizes in multiples of the indirection unit: the bucket of one result. *)
Definition max_bucket : Z := 16.
Definition quantum (iu_bytes size : Z) : res Z :=
  ratio ← int_truediv size iu_bytes;
  exact ← modulo size iu_bytes;
  i ← int_of ratio;
  let sixteen := FFin false 4503599627370496 (-48) in
  Ok (if fltb ratio fone then 0
      else if (exact =? 0) && (i <=? max_bucket) then i
      else if negb (fltb sixteen ratio) then i
      else max_bucket + 1).

(** [counts[idx] += 1] on a list of integers. *)
Definition bump (counts : list Z) (i : Z) : list Z := alter (Z.add 1) (Z.to_nat i) counts.

Definition quantize (iu_bytes : Z) (st : list Z * list Z) (r : IUAnalysisResult) : res (list Z * list Z) :=
  i ← quantum iu_bytes (r_size r);
  Ok (if r_read r then (bump st.1 i, st.2) else (st.1, bump st.2 i)).

Definition compute_iu_quantization_histogram (a : BlktraceAnalyzer) : res (list Z * list Z * BlktraceAnalyzer) :=
  ra ← analyze_iu_alignment a;
  let '(results, a) := ra in
  match results with
  | [] => Ok ([], [], a)
  | _ => if negb (has_iu (geom a)) then Ok ([], [], a) else
         let zeros := replicate (Z.to_nat (max_bucket + 2)) 0 in
         c ← foldM (quantize (iu_size (geom a))) (zeros, zeros) results;
         Ok (c.1, c.2, a)
  end.

Definition by_alignment : Type := list pyfloat * list pyfloat * list pyfloat.

Definition correlate (iu_map : gmap (Z * Z) IUAnalysisResult) (st : by_alignment) (req : IORequest) : by_alignment :=
  let '(aligned, misaligned, sub) := st in
  if rq_read req then st else
  match positive_latency (d2c_latency_us req), iu_map !! (rq_sector req, rq_nblocks req) with
  | Some lat, Some r =>
      let '(aligned, misaligned) := if iu_aligned r then (aligned ++ [lat], misaligned) else (aligned, misaligned ++ [lat]) in
      (aligned, misaligned, if sub_iu r then sub ++ [lat] else sub)
  | _, _ => st
  end.

Definition compute_alignment_vs_latency (a : BlktraceAnalyzer) : res (option by_alignment * BlktraceAnalyzer) :=
  if negb (has_iu (geom a)) then Ok (None, a) else
  ra ← analyze_iu_alignment a;
  let '(results, a) := ra in
  let iu_map := foldl (λ m r, <[(r_sector r, r_nblocks r) := r]> m) ∅ (List.filter (λ r, negb (r_read r)) results) in
  Ok (Some (foldl (correlate iu_map) ([], [], []) (completed a)), a).

Section summary.
Context (np_mean : list pyfloat → pyfloat).

(** [n / max(1, d) * 100] *)
Definition pct (n d : nat) : res pyfloat :=
  x ← int_truediv (Z.of_nat n) (Z.max 1 (Z.of_nat d)); Ok (fmul x (FFin false 7036874417766400 (-46))).

Record iu_stats := mkIuStats {
  sub_iu_writes : nat; sub_iu_pct : pyfloat; iu_aligned_writes : nat; iu_aligned_write_pct : pyfloat;
  iu_aligned_reads : nat; iu_aligned_read_pct : pyfloat; iu_crossing_writes : nat; iu_crossing_write_pct : pyfloat;
  mean_waf : pyfloat; max_waf : pyfloat; misaligned_count : nat; misaligned_mean_waf : pyfloat }.
Record npwg_stats := mkNpwgStats {
  fully_aligned_writes : nat; fully_aligned_pct : pyfloat; size_aligned_only : nat; size_aligned_only_pct : pyfloat;
  unaligned_writes : Z; unaligned_pct : pyfloat }.
Record awun_stats := mkAwunStats {
  unsafe_writes : nat; unsafe_pct : pyfloat; safe_writes : Z; safe_pct : pyfloat; max_crossings : Z }.
Record iu_summary := mkSummary {
  total_ios : nat; total_writes : nat; total_reads : nat;
  s_iu : option iu_stats; s_npwg : option npwg_stats; s_awun : option awun_stats }.

(** [max(l)] of floats, and [max(l, default=0)] of integers. *)
Definition fmax_list (l : list pyfloat) : pyfloat :=
  match l with [] => fone | x :: l => foldl (λ m y, if fltb m y then y else m) x l end.
Definition zmax_list (l : list Z) : Z :=
  match l with [] => 0 | x :: l => foldl Z.max x l end.

Definition iu_stats_of (writes reads : list IUAnalysisResult) : res iu_stats :=
  let sub := List.filter sub_iu writes in
  let aligned_w := List.filter iu_aligned writes in
  let crossing_w := List.filter (λ r, 0 <? iu_crossings r) writes in
  let aligned_r := List.filter iu_aligned reads in
  let all_waf := List.filter (fltb fzero) (map iu_waf writes) in
  let mis_waf := List.filter (fltb fone) (map iu_waf writes) in
  p1 ← pct (length sub) (length writes); p2 ← pct (length aligned_w) (length writes);
  p3 ← pct (length aligned_r) (length reads); p4 ← pct (length crossing_w) (length writes);
  Ok (mkIuStats (length sub) p1 (length aligned_w) p2 (length aligned_r) p3 (length crossing_w) p4
        (match all_waf with [] => fone | _ => np_mean all_waf end) (fmax_list all_waf) (length mis_waf)
        (match mis_waf with [] => fone | _ => np_mean mis_waf end)).

(** [z / max(1, d) * 100] of an integer. *)
Definition zpct (z : Z) (d : nat) : res pyfloat :=
  x ← int_truediv z (Z.max 1 (Z.of_nat d)); Ok (fmul x (FFin false 7036874417766400 (-46))).

Definition npwg_stats_of (writes : list IUAnalysisResult) : res npwg_stats :=
  let full := List.filter (λ r, npwg_aligned r && npwg_start_aligned r) writes in
  let size_only := List.filter (λ r, npwg_aligned r && negb (npwg_start_aligned r)) writes in
  let un := Z.of_nat (length writes) - Z.of_nat (length full) - Z.of_nat (length size_only) in
  p1 ← pct (length full) (length writes); p2 ← pct (length size_only) (length writes);
  p3 ← zpct un (length writes);
  Ok (mkNpwgStats (length full) p1 (length size_only) p2 un p3).

Definition awun_stats_of (writes : list IUAnalysisResult) : res awun_stats :=
  let unsafe := List.filter (λ r, negb (awun_safe r)) writes in
  let safe := Z.of_nat (length writes) - Z.of_nat (length unsafe) in
  p1 ← pct (length unsafe) (length writes); p2 ← zpct safe (length writes);
  Ok (mkAwunStats (length unsafe) p1 safe p2 (zmax_list (map awun_crossings writes))).

Definition compute_iu_summary (a : BlktraceAnalyzer) : res (option iu_summary * BlktraceAnalyzer) :=
  ra ← analyze_iu_alignment a;
  let '(results, a) := ra in
  match results with
  | [] => Ok (None, a)
  | _ =>
      let writes := List.filter (λ r, negb (r_read r)) results in
      let reads := List.filter r_read results in
      iu ← (if has_iu (geom a) then s ← iu_stats_of writes reads; Ok (Some s) else Ok None);
      np ← (if has_npwg (geom a) then s ← npwg_stats_of writes; Ok (Some s) else Ok None);
      aw ← (if has_awun (geom a) then s ← awun_stats_of writes; Ok (Some s) else Ok None);
      Ok (Some (mkSummary (length results) (length writes) (length reads) iu np aw), a)
  end.
End summary.

(** Alignment overhead per bucket: units touched, units ideal, and writes
    smaller than a unit. *)
Definition waf_step (start bucket : pyfloat) (n : Z) (st : list pyfloat * list pyfloat * list pyfloat)
    (r : IUAnalysisResult) : res (list pyfloat * list pyfloat * list pyfloat) :=
  if r_read r then Ok st else
  let '(actual, ideal, sub) := st in
  i ← bucket_of start bucket n (r_time r);
  x ← float_of_Z (iu_units_touched r); actual ← np_add actual i x;
  y ← float_of_Z (iu_units_ideal r); ideal ← np_add ideal i y;
  sub ← (if sub_iu r then np_add sub i fone else Ok sub);
  Ok (actual, ideal, sub).

(** [np.where(ideal > 0, actual / ideal, 1.0)] *)
Definition waf_of (x y : pyfloat) : pyfloat :=
  if fltb fzero y then match fdiv x y with Ok z => z | Raise _ => fone end else fone.

Definition compute_waf_over_time (a : BlktraceAnalyzer)
    : res (list pyfloat * list pyfloat * BlktraceAnalyzer) :=
  ra ← analyze_iu_alignment a;
  let '(results, a) := ra in
  match results with
  | [] => Ok ([fone], [fzero], a)
  | _ => if negb (has_iu (geom a)) then Ok ([fone], [fzero], a) else
      n ← bucket_count (duration a) (time_bucket a);
      st ← foldM (waf_step (t0 a) (time_bucket a) n) (np_zeros n, np_zeros n, np_zeros n) results;
      Ok (zip_with waf_of st.1.1 st.1.2, st.2, a)
  end.
End BlkAnalyze.
