(* ===== verification/BlkCorrect.v ===== *)
(** * What the block-trace analyzer computes

    Requests are matched first in, first out per key, and no completion is
    lost or used twice; alignment figures count the units a request overlaps;
    queue depth is the reflected walk of issues and completions; the series
    per bucket conserve what they count. *)

From stdpp Require Import prelude strings list gmap sorting.
From Stdlib Require Import ZArith Lia Ascii.
From S2P Require Import Prelude PyText PyJson JsonText PyFloat FloatOps BlkParse BlkAnalyze.
Import BlkParse BlkAnalyze.
Local Open Scope Z_scope.

(** ** Lifecycles *)
Section lifecycles.
Implicit Types (evs pre : list TraceEvent) (r : IORequest) (k : Z * Z).

(** [r] waits since event [i]: queued there, or issued there without having
    been queued. *)
Definition since evs k r (i : nat) : Prop :=
  ∃ a, evs !! i = Some a ∧ ev_key a = k ∧ (rq_sector r, rq_nblocks r) = k ∧ rq_read r = is_read a ∧
    complete_time r = None ∧
    (action a = "Q" ∧ queue_time r = Some (timestamp a) ∨ action a = "D" ∧ queue_time r = None).

(** The issue time of the request of the key [k] that is next to complete and
    waits since event [i]: that of the last issue of the key, when it came at [i]
    or later and no completion of the key came after it; none when there is no
    such issue. *)
Definition issued evs k (i : nat) (t : option pyfloat) : Prop :=
  match t with
  | Some t => ∃ d ev, (i ≤ d)%nat ∧ evs !! d = Some ev ∧ action ev = "D" ∧ ev_key ev = k ∧ t = timestamp ev ∧
      ∀ n e, (d < n)%nat → evs !! n = Some e → ev_key e = k → action e ≠ "D" ∧ action e ≠ "C"
  | None => ∀ d ev, (i ≤ d)%nat → evs !! d = Some ev → ev_key ev = k → action ev = "D" →
      ∃ n e, (d < n)%nat ∧ evs !! n = Some e ∧ ev_key e = k ∧ action e = "C"
  end.

(** [r] waited since event [i] when event [j] completed it. *)
Definition lifecycle evs r (c : (Z * Z) * nat * nat) : Prop :=
  let '(k, i, j) := c in
  ∃ e r0, evs !! j = Some e ∧ action e = "C" ∧ ev_key e = k ∧ (i < j)%nat ∧
    since (take j evs) k r0 i ∧ issued (take j evs) k i (issue_time r0) ∧ r = set_complete r0 (timestamp e).

(** The starts of the completed requests of a key, in order of completion. *)
Definition starts (cs : list ((Z * Z) * nat * nat)) k : list nat :=
  omap (λ c, if decide (c.1.1 = k) then Some c.1.2 else None) cs.

Definition ends (cs : list ((Z * Z) * nat * nat)) : list nat := map snd cs.

(** Of the requests of a key that wait, the first has the issue time, the others
    have none. *)
Definition issues evs k (q : list IORequest) (l : list nat) : Prop :=
  match q, l with
  | r :: q, i :: _ => issued evs k i (issue_time r) ∧ Forall (λ r, issue_time r = None) q
  | _, _ => True
  end.

(** What holds of the events matched so far. *)
Record matched evs (st : matching) (cs : list ((Z * Z) * nat * nat)) (ws : Z * Z → list nat) : Prop := {
  m_done : Forall2 (lifecycle evs) (completed_ios st) cs;
  m_ends : StronglySorted lt (ends cs);
  m_bound : Forall (λ c, (c.2 < length evs)%nat) cs;
  m_wait k : Forall2 (since evs k) (waiting (pending st) k) (ws k);
  m_issue k : issues evs k (waiting (pending st) k) (ws k);
  m_fifo k : StronglySorted lt (starts cs k ++ ws k);
  m_all i a : evs !! i = Some a → action a = "Q" → i ∈ starts cs (ev_key a) ++ ws (ev_key a);
  m_idle j c : evs !! j = Some c → action c = "C" → j ∉ ends cs →
    ∀ i, i ∈ starts cs (ev_key c) ++ ws (ev_key c) → (i < j)%nat →
    ∃ j', (ev_key c, i, j') ∈ cs ∧ (j' < j)%nat }.

Lemma since_mono evs l k r i : since evs k r i → since (evs ++ l) k r i.
Proof.
  intros (a & Ha & Hk & Hkr & Hrd & Hc & Hq). exists a. split_and!; try done. by apply lookup_app_l_Some.
Qed.

Lemma lifecycle_mono evs l r c : lifecycle evs r c → lifecycle (evs ++ l) r c.
Proof.
  destruct c as [[k i] j]. intros (e & r0 & He & Ha & Hk & Hij & Hs & Hi & ->). exists e, r0.
  assert (j ≤ length evs)%nat by (apply lookup_lt_Some in He; lia).
  rewrite take_app_le by done. split_and!; try done. by apply lookup_app_l_Some.
Qed.

(** An event of another key, or neither an issue nor a completion. *)
Lemma issued_keep evs ev k i t : issued evs k i t → (ev_key ev = k → action ev ≠ "D" ∧ action ev ≠ "C") →
  issued (evs ++ [ev]) k i t.
Proof.
  destruct t as [t|]; cbn [issued].
  - intros (d & e & Hd & He & HD & Hk & -> & Hlast) Hev. exists d, e. split_and!; try done; [by apply lookup_app_l_Some|].
    intros n x Hn [Hx|[-> ->]]%lookup_snoc_cases; [by eapply Hlast|done].
  - intros Hall Hev d e Hd [He|[-> ->]]%lookup_snoc_cases Hk HD; [|by destruct (Hev Hk)].
    destruct (Hall d e Hd He Hk HD) as (n & x & ? & ? & ? & ?). exists n, x. split_and!; try done. by apply lookup_app_l_Some.
Qed.

Lemma issued_now evs ev k i : (i ≤ length evs)%nat → action ev = "D" → ev_key ev = k →
  issued (evs ++ [ev]) k i (Some (timestamp ev)).
Proof.
  intros Hi HD Hk. exists (length evs), ev. rewrite list_lookup_middle by done. split_and!; try done.
  intros n x Hn Hx%lookup_lt_Some. rewrite length_app in Hx. cbn in Hx. lia.
Qed.

(** The next request after a completion has not been issued. *)
Lemma issued_next evs ev k i : action ev = "C" → ev_key ev = k → issued (evs ++ [ev]) k i None.
Proof.
  intros HC Hk d e Hd [He|[-> ->]]%lookup_snoc_cases Hke HD; [|congruence].
  exists (length evs), ev. rewrite list_lookup_middle by done. split_and!; try done. by apply lookup_lt_Some in He.
Qed.

Lemma issued_new evs ev k : action ev ≠ "D" → issued (evs ++ [ev]) k (length evs) None.
Proof.
  intros HD d e Hd [He|[-> ->]]%lookup_snoc_cases; [|done]. apply lookup_lt_Some in He. lia.
Qed.

Lemma issues_keep evs ev k q l : issues evs k q l → (ev_key ev = k → action ev ≠ "D" ∧ action ev ≠ "C") →
  issues (evs ++ [ev]) k q l.
Proof. destruct q, l; try done. intros [? ?] ?. split; [by apply issued_keep|done]. Qed.

Lemma waiting_insert p k q k' : waiting (<[k := q]> p) k' = if decide (k = k') then q else waiting p k'.
Proof. unfold waiting. destruct (decide (k = k')) as [->|?]; [by rewrite lookup_insert_eq|by rewrite lookup_insert_ne]. Qed.

Lemma since_bound evs k r i : since evs k r i → (i < length evs)%nat.
Proof. intros (a & Ha & _). by eapply lookup_lt_Some. Qed.

Lemma starts_app cs c k : starts (cs ++ [c]) k = starts cs k ++ (if decide (c.1.1 = k) then [c.1.2] else []).
Proof. unfold starts. rewrite omap_app. simpl. by destruct (decide _). Qed.

Lemma elem_starts cs k i : i ∈ starts cs k ↔ ∃ j, (k, i, j) ∈ cs.
Proof.
  unfold starts. rewrite list_elem_of_omap. split.
  - intros ([[k' i'] j] & Hin & H). simpl in H. destruct (decide (k' = k)) as [->|]; [|done].
    injection H as ->. by exists j.
  - intros (j & Hin). exists (k, i, j). split; [done|]. simpl. by rewrite decide_True.
Qed.

(** Replace the list of a key. *)
Definition upd (ws : Z * Z → list nat) k (l : list nat) : Z * Z → list nat :=
  λ k', if decide (k = k') then l else ws k'.

Lemma matched_starts evs st cs ws k : matched evs st cs ws → Forall (λ i, (i < length evs)%nat) (starts cs k ++ ws k).
Proof.
  intros Hm. apply Forall_app. split.
  - apply Forall_forall. intros i (j & Hin)%elem_starts.
    apply list_elem_of_lookup in Hin as [x Hx].
    destruct (Forall2_lookup_r _ _ _ _ _ (m_done _ _ _ _ Hm) Hx) as (r & _ & e & r0 & He & _ & _ & Hij & _).
    apply lookup_lt_Some in He. lia.
  - apply Forall_forall. intros i Hin. apply list_elem_of_lookup in Hin as [x Hx].
    destruct (Forall2_lookup_r _ _ _ _ _ (m_wait _ _ _ _ Hm k) Hx) as (r & _ & Hs). by eapply since_bound.
Qed.

Lemma sorted_snoc (l : list nat) n : StronglySorted lt l → Forall (λ i, (i < n)%nat) l → StronglySorted lt (l ++ [n]).
Proof.
  intros Hs Hf. apply StronglySorted_app. split_and!; [|done|repeat constructor].
  intros x y Hx Hy. apply list_elem_of_singleton in Hy as ->. rewrite Forall_forall in Hf. auto.
Qed.

(** A new event that starts a request of its key and completes none. *)
Lemma matched_start evs st cs ws ev r : matched evs st cs ws → action ev ≠ "C" →
  since (evs ++ [ev]) (ev_key ev) r (length evs) →
  issues (evs ++ [ev]) (ev_key ev) (waiting (pending st) (ev_key ev) ++ [r]) (ws (ev_key ev) ++ [length evs]) →
  matched (evs ++ [ev])
    (mkMatching (<[ev_key ev := waiting (pending st) (ev_key ev) ++ [r]]> (pending st)) (completed_ios st))
    cs (upd ws (ev_key ev) (ws (ev_key ev) ++ [length evs])).
Proof.
  intros Hm Hc Hr Hiss. pose proof (λ k, matched_starts _ _ _ _ k Hm) as Hb. split; cbn [pending completed_ios].
  - eapply Forall2_impl; [apply (m_done _ _ _ _ Hm)|]. intros. by apply lifecycle_mono.
  - apply (m_ends _ _ _ _ Hm).
  - eapply Forall_impl; [apply (m_bound _ _ _ _ Hm)|]. intros c Hlt. cbn in *. rewrite length_app. simpl. lia.
  - intros k. rewrite waiting_insert. unfold upd. destruct (decide _) as [<-|].
    + apply Forall2_app; [|by repeat constructor].
      eapply Forall2_impl; [apply (m_wait _ _ _ _ Hm)|]. intros. by apply since_mono.
    + eapply Forall2_impl; [apply (m_wait _ _ _ _ Hm)|]. intros. by apply since_mono.
  - intros k. rewrite waiting_insert. unfold upd. destruct (decide _) as [<-|]; [done|].
    apply issues_keep; [apply (m_issue _ _ _ _ Hm)|done].
  - intros k. unfold upd. destruct (decide _) as [<-|]; [|apply (m_fifo _ _ _ _ Hm)].
    rewrite app_assoc. apply sorted_snoc; [apply (m_fifo _ _ _ _ Hm)|apply Hb].
  - intros i a Ha Hq. unfold upd. apply lookup_snoc_cases in Ha as [Ha|[-> ->]].
    + pose proof (m_all _ _ _ _ Hm i a Ha Hq). destruct (decide _) as [E|]; [|done]. rewrite E.
      rewrite app_assoc. apply elem_of_app. by left.
    + rewrite decide_True by done. rewrite app_assoc. apply elem_of_app. right. apply list_elem_of_singleton. done.
  - intros j c Hj Hac Hend i Hi Hij. apply lookup_snoc_cases in Hj as [Hj|[-> ->]]; [|done].
    apply lookup_lt_Some in Hj as Hlt. apply (m_idle _ _ _ _ Hm j c Hj Hac Hend i); [|done].
    unfold upd in Hi. destruct (decide _) as [E|]; [|done]. rewrite E in Hi.
    rewrite app_assoc, elem_of_app, list_elem_of_singleton in Hi. destruct Hi as [Hi|Hi]; [done|lia].
Qed.

(** A new event that starts and completes nothing. *)
Lemma matched_keep evs st cs ws ev p : matched evs st cs ws → action ev ≠ "Q" →
  (action ev = "C" → ws (ev_key ev) = []) →
  (∀ k, Forall2 (since (evs ++ [ev]) k) (waiting p k) (ws k)) → (∀ k, issues (evs ++ [ev]) k (waiting p k) (ws k)) →
  matched (evs ++ [ev]) (mkMatching p (completed_ios st)) cs ws.
Proof.
  intros Hm Hq Hc Hw Hiss. split; cbn [pending completed_ios].
  - eapply Forall2_impl; [apply (m_done _ _ _ _ Hm)|]. intros. by apply lifecycle_mono.
  - apply (m_ends _ _ _ _ Hm).
  - eapply Forall_impl; [apply (m_bound _ _ _ _ Hm)|]. intros c Hlt. cbn in *. rewrite length_app. simpl. lia.
  - done.
  - done.
  - apply (m_fifo _ _ _ _ Hm).
  - intros i a [Ha|[-> ->]]%lookup_snoc_cases; [|done]. by apply (m_all _ _ _ _ Hm).
  - intros j c [Hj|[-> ->]]%lookup_snoc_cases Hac Hend i Hi Hij; [by apply (m_idle _ _ _ _ Hm)|].
    rewrite (Hc Hac), app_nil_r in Hi. apply elem_starts in Hi as (j' & Hin). exists j'. split; [done|].
    pose proof (m_bound _ _ _ _ Hm) as Hb. rewrite Forall_forall in Hb. exact (Hb _ Hin).
Qed.

(** A completion of the first request that waits. *)
Lemma matched_complete evs st cs ws ev r q i rest : matched evs st cs ws → action ev = "C" →
  waiting (pending st) (ev_key ev) = r :: q → ws (ev_key ev) = i :: rest →
  matched (evs ++ [ev])
    (mkMatching (<[ev_key ev := q]> (pending st)) (completed_ios st ++ [set_complete r (timestamp ev)]))
    (cs ++ [(ev_key ev, i, length evs)]) (upd ws (ev_key ev) rest).
Proof.
  intros Hm Hc Hq Hw. pose proof (m_wait _ _ _ _ Hm (ev_key ev)) as H2. rewrite Hq, Hw in H2.
  inversion H2 as [|? ? ? ? Hr Hrest]; subst.
  pose proof (m_issue _ _ _ _ Hm (ev_key ev)) as Hiss. rewrite Hq, Hw in Hiss. destruct Hiss as [Hiss Hnone].
  assert (∀ k, starts (cs ++ [(ev_key ev, i, length evs)]) k ++ upd ws (ev_key ev) rest k = starts cs k ++ ws k) as Hsame.
  { intros k. rewrite starts_app. cbn [fst snd]. unfold upd. destruct (decide _) as [<-|]; [|by rewrite app_nil_r].
    by rewrite Hw, <- app_assoc. }
  split; cbn [pending completed_ios].
  - apply Forall2_app.
    + eapply Forall2_impl; [apply (m_done _ _ _ _ Hm)|]. intros. by apply lifecycle_mono.
    + repeat constructor. exists ev, r. rewrite list_lookup_middle, take_app_length by done.
      split_and!; try done. by eapply since_bound.
  - unfold ends. rewrite map_app. apply sorted_snoc; [apply (m_ends _ _ _ _ Hm)|].
    apply Forall_map. apply (m_bound _ _ _ _ Hm).
  - rewrite length_app. cbn [length]. apply Forall_app. split; [|repeat constructor; cbn; lia].
    eapply Forall_impl; [apply (m_bound _ _ _ _ Hm)|]. intros c Hlt. cbn in *. lia.
  - intros k. rewrite waiting_insert. unfold upd. destruct (decide _) as [<-|].
    + eapply Forall2_impl; [exact Hrest|]. intros. by apply since_mono.
    + eapply Forall2_impl; [apply (m_wait _ _ _ _ Hm)|]. intros. by apply since_mono.
  - intros k. rewrite waiting_insert. unfold upd. destruct (decide _) as [<-|].
    + destruct q as [|r' q], rest as [|i' rest]; try done. apply Forall_cons in Hnone as [E Hnone].
      cbn [issues]. rewrite E. split; [by apply issued_next|done].
    + apply issues_keep; [apply (m_issue _ _ _ _ Hm)|done].
  - intros k. rewrite Hsame. apply (m_fifo _ _ _ _ Hm).
  - intros i' a [Ha|[-> ->]]%lookup_snoc_cases Hqa; [|congruence]. rewrite Hsame. by apply (m_all _ _ _ _ Hm).
  - intros j c Hj Hac Hend i' Hi Hij. rewrite Hsame in Hi. unfold ends in Hend.
    rewrite map_app, not_elem_of_app in Hend. destruct Hend as [Hend Hn].
    apply lookup_snoc_cases in Hj as [Hj|[-> ->]]; [|destruct Hn; by left].
    destruct (m_idle _ _ _ _ Hm j c Hj Hac Hend i' Hi Hij) as (j' & ? & ?). exists j'.
    split; [apply elem_of_app; by left|done].
Qed.

Lemma since_issue evs ev k r i : since evs k r i → since (evs ++ [ev]) k (set_issue r (timestamp ev)) i.
Proof. intros Hs%(since_mono _ [ev]). exact Hs. Qed.

Lemma match_queue evs st cs ws ev : matched evs st cs ws → action ev = "Q" →
  ∃ cs' ws', matched (evs ++ [ev]) (match_event st ev) cs' ws'.
Proof.
  intros Hm Eq. unfold match_event. rewrite Eq, String.eqb_refl. eexists _, _. apply matched_start; [done|by rewrite Eq|..].
  - exists ev. rewrite list_lookup_middle by done. cbn. split_and!; try done. by left.
  - pose proof (m_wait _ _ _ _ Hm (ev_key ev)) as H2. pose proof (m_issue _ _ _ _ Hm (ev_key ev)) as Hi.
    apply (issues_keep _ ev) in Hi; [|by rewrite Eq].
    destruct (waiting (pending st) (ev_key ev)), (ws (ev_key ev)); try by inversion H2.
    + cbn. split; [apply issued_new; by rewrite Eq|constructor].
    + cbn in *. destruct Hi as [? ?]. split; [done|]. apply Forall_app. split; [done|by repeat constructor].
Qed.

Lemma match_issue evs st cs ws ev : matched evs st cs ws → action ev = "D" →
  ∃ cs' ws', matched (evs ++ [ev]) (match_event st ev) cs' ws'.
Proof.
  intros Hm Ed. unfold match_event. rewrite Ed. change (String.eqb "D" ACTION_QUEUE) with false. change (String.eqb "D" ACTION_ISSUE) with true.
  cbv iota. pose proof (m_wait _ _ _ _ Hm (ev_key ev)) as H2. pose proof (m_issue _ _ _ _ Hm (ev_key ev)) as Hi.
  destruct (waiting (pending st) (ev_key ev)) as [|r q] eqn:Ew.
  - eexists _, _. replace [mkRequest _ _ _ _ _ _] with (waiting (pending st) (ev_key ev) ++
      [mkRequest (sector ev) (nblocks ev) (is_read ev) None (Some (timestamp ev)) None]) by (by rewrite Ew).
    apply matched_start; [done|by rewrite Ed|..].
    + exists ev. rewrite list_lookup_middle by done. cbn. split_and!; try done. by right.
    + destruct (ws (ev_key ev)); [|by inversion H2]. rewrite Ew. cbn. split; [by apply issued_now|constructor].
  - exists cs, ws. apply matched_keep; [done|by rewrite Ed|by rewrite Ed|..]; intros k; rewrite waiting_insert;
      (destruct (decide _) as [<-|Hne]).
    + inversion H2 as [|? i ? l Hr Hl]; subst. constructor; [by apply since_issue|].
      eapply Forall2_impl; [exact Hl|]. intros. by apply since_mono.
    + eapply Forall2_impl; [apply (m_wait _ _ _ _ Hm)|]. intros. by apply since_mono.
    + destruct (ws (ev_key ev)) as [|i l]; [by inversion H2|]. apply Forall2_cons in H2 as [Hr _].
      destruct Hi as [_ Hnone]. split; [|done]. apply since_bound in Hr. cbn. apply issued_now; [lia|done|done].
    + apply issues_keep; [apply (m_issue _ _ _ _ Hm)|done].
Qed.

Lemma match_event_matched evs st cs ws ev : matched evs st cs ws →
  ∃ cs' ws', matched (evs ++ [ev]) (match_event st ev) cs' ws'.
Proof.
  intros Hm. destruct (decide (action ev = "Q")) as [Eq|Nq]; [by eapply match_queue|].
  destruct (decide (action ev = "D")) as [Ed|Nd]; [by eapply match_issue|]. unfold match_event.
  assert (∀ k, Forall2 (since (evs ++ [ev]) k) (waiting (pending st) k) (ws k)) as Hkeep.
  { intros k. eapply Forall2_impl; [apply (m_wait _ _ _ _ Hm)|]. intros. by apply since_mono. }
  destruct (String.eqb_spec (action ev) ACTION_QUEUE) as [?|_]; [done|].
  destruct (String.eqb_spec (action ev) ACTION_ISSUE) as [?|_]; [done|].
  destruct (String.eqb_spec (action ev) ACTION_COMPLETE) as [Ec|Nc].
  - pose proof (m_wait _ _ _ _ Hm (ev_key ev)) as H2.
    destruct (waiting (pending st) (ev_key ev)) as [|r q] eqn:Ew, (ws (ev_key ev)) as [|i rest] eqn:Hw;
      try by inversion H2.
    + exists cs, ws. destruct st. apply (matched_keep _ _ _ _ _ _ Hm); try done. intros k.
      destruct (decide (ev_key ev = k)) as [<-|]; [cbn in Ew; by rewrite Ew|]. apply issues_keep; [apply (m_issue _ _ _ _ Hm)|done].
    + eexists _, _. by apply matched_complete.
  - exists cs, ws. destruct st. apply (matched_keep _ _ _ _ _ _ Hm); try done. intros k.
    apply issues_keep; [apply (m_issue _ _ _ _ Hm)|done].
Qed.

Lemma matched_nil : matched [] (mkMatching ∅ []) [] (λ _, []).
Proof. split; cbn; try constructor; try done. Qed.

Lemma compute_latencies_matched evs : ∃ cs ws, matched evs (_compute_latencies evs) cs ws.
Proof.
  unfold _compute_latencies. induction evs as [|ev evs IH] using rev_ind; [eexists _, _; apply matched_nil|].
  destruct IH as (cs & ws & IH). rewrite foldl_app. by eapply match_event_matched.
Qed.

Lemma later_time evs i j a b : StronglySorted ev_le evs → Forall (λ e, finite (timestamp e)) evs →
  evs !! i = Some a → evs !! j = Some b → (i ≤ j)%nat → fle (timestamp a) (timestamp b).
Proof.
  intros Hs Hf Ha Hb Hij. destruct (decide (i = j)) as [->|].
  - rewrite Hb in Ha. injection Ha as ->. apply fle_refl. rewrite Forall_forall in Hf.
    apply Hf. by eapply list_elem_of_lookup_2.
  - revert i j Ha Hb Hij n. induction Hs as [|x l Hl IH Hall]; intros i j Ha Hb Hij n; [done|].
    apply Forall_cons in Hf as [_ Hf]. destruct i as [|i], j as [|j]; try lia; simpl in *.
    + injection Ha as ->. rewrite Forall_forall in Hall. apply (Hall b). by eapply list_elem_of_lookup_2.
    + apply (IH Hf i j); [done..|lia|lia].
Qed.

(** The stages of a completed request are in order of time. *)
Lemma lifecycle_times evs r c : StronglySorted ev_le evs → Forall (λ e, finite (timestamp e)) evs → lifecycle evs r c →
  ∃ i j a e, evs !! i = Some a ∧ evs !! j = Some e ∧ (i < j)%nat ∧ complete_time r = Some (timestamp e) ∧
    (∀ t, queue_time r = Some t → t = timestamp a) ∧
    (∀ t, issue_time r = Some t → ∃ d ev, evs !! d = Some ev ∧ (i ≤ d ≤ j)%nat ∧ t = timestamp ev).
Proof.
  intros Hs Hf. destruct c as [[k i] j]. intros (e & r0 & He & Ha & Hk & Hij & Hs0 & Hd & ->).
  destruct Hs0 as (a & Hi & _ & _ & _ & _ & Hq). apply lookup_take_Some in Hi as [Hi _].
  exists i, j, a, e. cbn. split_and!; try done.
  - intros t Ht. destruct Hq as [[_ Hq]|(_ & Hq)]; congruence.
  - intros t Ht. rewrite Ht in Hd. destruct Hd as (d & ev & ? & [? ?]%lookup_take_Some & _ & _ & -> & _). exists d, ev.
    split_and!; [done|lia|lia|done].
Qed.

Definition not_negative (l : option pyfloat) : Prop := ∀ x, l = Some x → fltb x fzero = false.

Lemma latency_not_negative f t : finite f → finite t → fle f t → not_negative (latency_us (Some f) (Some t)).
Proof.
  intros Hf Ht Hle x [= <-]. apply nonneg_fltb.
  assert (∃ m e, million = FFin false m e ∧ m ≠ 0%N) as (m & e & -> & Hm) by (eexists _, _; split; vm_compute; done).
  apply fmul_nonneg; [done|]. by apply fsub_nonneg.
Qed.

Lemma lifecycle_latencies evs r c : StronglySorted ev_le evs → Forall (λ e, finite (timestamp e)) evs → lifecycle evs r c →
  not_negative (q2c_latency_us r) ∧ not_negative (d2c_latency_us r) ∧ not_negative (q2d_latency_us r).
Proof.
  intros Hs Hf Hl. destruct (lifecycle_times evs r c Hs Hf Hl) as (i & j & a & e & Ha & He & Hij & Hc & Hq & Hd).
  pose proof (later_time evs) as Hle. rewrite Forall_forall in Hf.
  assert (∀ i a, evs !! i = Some a → finite (timestamp a)) as Hfin
    by (intros i' a' H'; apply Hf; by eapply list_elem_of_lookup_2).
  unfold q2c_latency_us, d2c_latency_us, q2d_latency_us. rewrite Hc.
  destruct (queue_time r) as [tq|]; [rewrite (Hq tq eq_refl)|]; destruct (issue_time r) as [td|];
    try (destruct (Hd td eq_refl) as (d & ev & Hev & Hd' & ->));
    split_and!; try done; try (by intros x [=]);
    apply latency_not_negative; eauto; eapply Hle; eauto; lia || (by apply Forall_forall).
Qed.

End lifecycles.

(** Two requests of one key in flight, both issued before either completes: the
    last issue before the first completion gives the issue time of the first
    request, and the second request has none, since no issue follows. *)
Definition ev_at (t : N) (act : string) : TraceEvent := mkEvent 8 0 0 0 (FFin false t 0) 1 act "R" 64 8 "" true false false 4096.

Example second_issue_overwrites :
  map issue_time (completed_ios (_compute_latencies
    [ev_at 1 "Q"; ev_at 2 "Q"; ev_at 3 "D"; ev_at 4 "D"; ev_at 5 "C"; ev_at 6 "C"])) = [Some (FFin false 4 0); None].
Proof. vm_compute. reflexivity. Qed.

(** ** Alignment *)

(** The request touches a sector of the unit [u] of [s] sectors. *)
Definition touches (ev : TraceEvent) (s u : Z) : Prop :=
  ∃ x, sector ev ≤ x < sector ev + nblocks ev ∧ u * s ≤ x < (u + 1) * s.

Lemma div_between x s u : 0 < s → u * s ≤ x < (u + 1) * s ↔ x / s = u.
Proof.
  intros Hs. split.
  - intros Hx. symmetry. apply (Z.div_unique _ _ _ (x - u * s)); lia.
  - intros <-. pose proof (Z.div_mod x s ltac:(lia)). pose proof (Z.mod_pos_bound x s Hs). nia.
Qed.

(** The units between the first and the last sector are those touched. *)
Lemma touched_units ev s : 0 < s → 0 < nblocks ev →
  let us := seqZ (sector ev / s) ((sector ev + nblocks ev - 1) / s - sector ev / s + 1) in
  NoDup us ∧ (∀ u, u ∈ us ↔ touches ev s u) ∧
  Z.of_nat (length us) = (sector ev + nblocks ev - 1) / s - sector ev / s + 1.
Proof.
  intros Hs Hn. cbv zeta. set (x := sector ev). set (n := nblocks ev) in *.
  assert (x / s ≤ (x + n - 1) / s) as Hle by (apply Z.div_le_mono; lia).
  split; [apply NoDup_seqZ|]. split; [|rewrite length_seqZ; lia].
  intros u. rewrite elem_of_seqZ. unfold touches. fold x n. split.
  - intros Hu. exists (Z.max x (u * s)).
    pose proof (proj2 (div_between x s _ Hs) eq_refl). pose proof (proj2 (div_between (x + n - 1) s _ Hs) eq_refl). nia.
  - intros (y & Hy & Hyu%div_between); [|done]. subst u.
    assert (x / s ≤ y / s) by (apply Z.div_le_mono; lia).
    assert (y / s ≤ (x + n - 1) / s) by (apply Z.div_le_mono; lia). lia.
Qed.

(** At least the ideal number of units, and at most one more. *)
Lemma touched_ideal x n s : 0 < s → 0 < n →
  ceil_div n s ≤ (x + n - 1) / s - x / s + 1 ≤ ceil_div n s + 1 ∧
  (x + n - 1) / s - x / s + 1 ≤ n ∧ 1 ≤ ceil_div n s ∧
  (x mod s = 0 → n mod s = 0 → (x + n - 1) / s - x / s + 1 = ceil_div n s).
Proof.
  intros Hs Hn. pose proof (ceil_div_bounds n s Hs) as Hc. set (c := ceil_div n s) in *.
  pose proof (proj2 (div_between x s _ Hs) eq_refl) as Hx. pose proof (proj2 (div_between (x + n - 1) s _ Hs) eq_refl) as Hy.
  set (a := x / s) in *. set (b := (x + n - 1) / s) in *. assert (a ≤ b) by (apply Z.div_le_mono; lia).
  split_and!; try nia. intros Hxm Hnm.
  pose proof (Z.div_mod x s ltac:(lia)) as Hxd. pose proof (Z.div_mod n s ltac:(lia)) as Hnd.
  fold a in Hxd. rewrite Hxm in Hxd. rewrite Hnm in Hnd. set (m := n / s) in *. nia.
Qed.

(** The units of the geometry are whole numbers of sectors of sane size. *)
Definition unit_ok (s : Z) : Prop := 0 < s < 2 ^ 53.

Definition geometry_ok (g : SSDGeometry) : Prop :=
  (has_iu g = true → unit_ok (iu_sectors g)) ∧ (has_npwg g = true → unit_ok (npwg_sectors g)) ∧
  (has_awun g = true → unit_ok (awun_sectors g)).

(** What [with_iu] sets, and what it keeps. *)
Lemma with_iu_Ok g ev r : geometry_ok g → has_iu g = true → 0 < nblocks ev < 2 ^ 53 →
  let s := iu_sectors g in
  ∃ r', with_iu g ev r = Ok r' ∧
    iu_units_touched r' = (sector ev + nblocks ev - 1) / s - sector ev / s + 1 ∧
    iu_crossings r' = iu_units_touched r' - 1 ∧ iu_units_ideal r' = ceil_div (nblocks ev) s ∧
    iu_aligned r' = (sector ev mod s =? 0) && (nblocks ev mod s =? 0) ∧
    sub_iu r' = is_write ev && (nblocks ev <? s) ∧
    int_truediv (iu_units_touched r') (iu_units_ideal r') = Ok (iu_waf r') ∧
    (npwg_aligned r', npwg_start_aligned r', npwg_units_touched r', awun_crossings r', awun_safe r') =
    (npwg_aligned r, npwg_start_aligned r, npwg_units_touched r, awun_crossings r, awun_safe r).
Proof.
  intros [Hg _] Hi Hn. cbv zeta. unfold with_iu. rewrite Hi. cbn [negb]. set (s := iu_sectors g) in *.
  destruct (Hg Hi) as [Hs Hs']. unfold floordiv, modulo.
  destruct (Z.eqb_spec s 0); [lia|]. cbn [mbind res_bind].
  pose proof (ceil_truediv (nblocks ev) s Hn ltac:(lia)) as Hc. apply bind_Ok in Hc as (f & -> & Hc).
  cbn [mbind res_bind]. rewrite Hc. cbn [mbind res_bind].
  destruct (touched_ideal (sector ev) (nblocks ev) s Hs ltac:(lia)) as (Ht & Ht' & Hone & _).
  rewrite Z.max_r by lia. destruct (Z.ltb_spec 0 (ceil_div (nblocks ev) s)); [|lia].
  set (touched := (sector ev + nblocks ev - 1) / s - sector ev / s + 1) in *.
  destruct (truediv_separates touched (ceil_div (nblocks ev) s)) as (q & e & Hq & _); [lia..|].
  rewrite Hq. cbn [mbind res_bind]. eexists. split; [reflexivity|]. cbn. split_and!; try done. unfold touched. lia.
Qed.

Definition iu_fields (r : IUAnalysisResult) :=
  (sub_iu r, iu_crossings r, iu_aligned r, iu_units_touched r, iu_units_ideal r, iu_waf r).
Definition npwg_fields (r : IUAnalysisResult) := (npwg_aligned r, npwg_start_aligned r, npwg_units_touched r).

Lemma with_npwg_Ok g ev r : geometry_ok g → ∃ r', with_npwg g ev r = Ok r' ∧ iu_fields r' = iu_fields r ∧
  awun_crossings r' = awun_crossings r ∧ awun_safe r' = awun_safe r ∧
  (has_npwg g = true → let s := npwg_sectors g in
    npwg_aligned r' = (nblocks ev mod s =? 0) && (s <=? nblocks ev) ∧
    npwg_start_aligned r' = (sector ev mod s =? 0) ∧
    npwg_units_touched r' = (sector ev + nblocks ev - 1) / s - sector ev / s + 1).
Proof.
  intros (_ & Hg & _). unfold with_npwg. destruct (has_npwg g); [|by exists r].
  destruct (Hg eq_refl) as [Hs _]. cbn [negb]. unfold floordiv, modulo.
  destruct (Z.eqb_spec (npwg_sectors g) 0); [lia|]. eexists. split; [reflexivity|]. done.
Qed.

Lemma with_awun_Ok g ev r : geometry_ok g → ∃ r', with_awun g ev r = Ok r' ∧ iu_fields r' = iu_fields r ∧
  npwg_fields r' = npwg_fields r ∧
  (has_awun g && is_write ev = true → let s := awun_sectors g in
    awun_crossings r' = (sector ev + nblocks ev - 1) / s - sector ev / s ∧
    awun_safe r' = (awun_crossings r' =? 0)).
Proof.
  intros (_ & _ & Hg). unfold with_awun. destruct (has_awun g); [|by exists r].
  destruct (is_write ev); [|by exists r]. destruct (Hg eq_refl) as [Hs _]. cbn [negb andb]. unfold floordiv.
  destruct (Z.eqb_spec (awun_sectors g) 0); [lia|]. eexists. split; [reflexivity|]. done.
Qed.

Lemma with_iu_total g ev r : geometry_ok g → 0 < nblocks ev < 2 ^ 53 → ∃ r', with_iu g ev r = Ok r'.
Proof.
  intros Hg Hn. destruct (has_iu g) eqn:Ei; [|unfold with_iu; rewrite Ei; by eexists].
  destruct (with_iu_Ok g ev r Hg Ei Hn) as (r1 & -> & _). by exists r1.
Qed.

Lemma analyze_event_Ok g ev : geometry_ok g → 0 < nblocks ev < 2 ^ 53 → ∃ r, analyze_event g ev = Ok r.
Proof.
  intros Hg Hn. unfold analyze_event. destruct (with_iu_total g ev (plain_result ev) Hg Hn) as [r1 ->]. cbn [mbind res_bind].
  destruct (with_npwg_Ok g ev r1 Hg) as (r2 & -> & _). cbn [mbind res_bind].
  destruct (with_awun_Ok g ev r2 Hg) as (r3 & -> & _). by exists r3.
Qed.

(** for a geometry whose units are whole sectors, every queued request is
    analyzed, and: the units reported as touched are those that hold a sector
    of it, at least the ideal number and at most one more; boundaries crossed
    are one fewer; the amplification exceeds one exactly when more than the
    ideal number is touched, never for an aligned request; a write smaller
    than a unit is not aligned; and a write is reported as atomic exactly when
    one atomic unit holds all its sectors. *)
Theorem alignment_exact g ev : geometry_ok g → 0 < nblocks ev < 2 ^ 53 →
  ∃ r, analyze_event g ev = Ok r ∧
    (has_iu g = true → ∃ us, NoDup us ∧ (∀ u, u ∈ us ↔ touches ev (iu_sectors g) u) ∧
      iu_units_touched r = Z.of_nat (length us) ∧ iu_crossings r = iu_units_touched r - 1 ∧
      iu_units_ideal r = ceil_div (nblocks ev) (iu_sectors g) ∧
      iu_units_ideal r ≤ iu_units_touched r ≤ iu_units_ideal r + 1 ∧
      fltb fone (iu_waf r) = (iu_units_ideal r <? iu_units_touched r) ∧
      (iu_aligned r = true → iu_units_touched r = iu_units_ideal r) ∧ (sub_iu r = true → iu_aligned r = false)) ∧
    (has_npwg g = true → npwg_aligned r = true ↔ (npwg_sectors g | nblocks ev)) ∧
    (has_awun g && is_write ev = true → awun_safe r = true ↔ ∃ u, ∀ u', touches ev (awun_sectors g) u' → u' = u).
Proof.
  intros Hg Hn. unfold analyze_event.
  destruct (with_iu_total g ev (plain_result ev) Hg Hn) as [r1 H1]. rewrite H1. cbn [mbind res_bind].
  destruct (with_npwg_Ok g ev r1 Hg) as (r2 & H2 & Hi2 & _ & _ & Hnp). rewrite H2. cbn [mbind res_bind].
  destruct (with_awun_Ok g ev r2 Hg) as (r3 & H3 & Hi3 & Hn3 & Haw). rewrite H3. exists r3. split; [done|].
  rewrite Hi2 in Hi3. injection Hi3 as Es Ec Ea Et Ed Ew. injection Hn3 as En _ _. split_and!.
  - intros Ei. destruct (with_iu_Ok g ev (plain_result ev) Hg Ei Hn) as (r & Hr & Ht & Hc & Hd & Hal & Hsub & Hw & _).
    rewrite H1 in Hr. injection Hr as <-. rewrite Es, Ec, Ea, Et, Ed, Ew.
    destruct (proj1 Hg Ei) as [Hs _]. set (s := iu_sectors g) in *.
    destruct (touched_units ev s Hs ltac:(lia)) as (Hnd & Hin & Hlen).
    destruct (touched_ideal (sector ev) (nblocks ev) s Hs ltac:(lia)) as (Hb & Hb' & Hone & Heq).
    eexists. split; [exact Hnd|]. split; [exact Hin|].
    rewrite Hlen. split_and!; try done; try lia.
    + destruct (truediv_separates (iu_units_touched r1) (iu_units_ideal r1)) as (q & e & Hq & Hq0 & He & Hsep); [lia..|].
      rewrite Hw in Hq. injection Hq as ->.
      destruct (truediv_compare (iu_units_touched r1) (iu_units_ideal r1) q e 1 4503599627370496 (-52)) as [_ Hcmp];
        [done..|apply Hsep|]. unfold fone. rewrite Hcmp. f_equal. lia.
    + rewrite Hal, andb_true_iff, !Z.eqb_eq. intros [Hxm Hnm]. rewrite Ht, Hd. by apply Heq.
    + rewrite Hsub, Hal, andb_true_iff, Z.ltb_lt. intros [_ Hlt]. rewrite (Z.mod_small (nblocks ev)) by lia.
      apply andb_false_iff. right. apply Z.eqb_neq. lia.
  - intros Ei. rewrite En. destruct (Hnp Ei) as (-> & _). destruct (proj1 (proj2 Hg) Ei) as [Hs _].
    rewrite andb_true_iff, Z.eqb_eq, Z.leb_le, <- Z.mod_divide by lia. split; [by intros [? _]|].
    intros Hm. split; [done|]. apply Z.mod_divide in Hm as [k Hk]; [|lia]. assert (0 < k) by nia. nia.
  - intros Ei. destruct (Haw Ei) as [Hcr Hsafe]. apply andb_true_iff in Ei as [Ei _].
    destruct (proj2 (proj2 Hg) Ei) as [Hs _]. set (s := awun_sectors g) in *. rewrite Hsafe, Hcr, Z.eqb_eq.
    destruct (touched_units ev s Hs ltac:(lia)) as (_ & Hin & _).
    assert (sector ev / s ≤ (sector ev + nblocks ev - 1) / s) by (apply Z.div_le_mono; lia). split.
    + intros E. exists (sector ev / s). intros u Hu. apply Hin, elem_of_seqZ in Hu. lia.
    + intros (u & Hu). assert (sector ev / s = u) by (apply Hu, Hin, elem_of_seqZ; lia).
      assert ((sector ev + nblocks ev - 1) / s = u) by (apply Hu, Hin, elem_of_seqZ; lia). lia.
Qed.

Definition sample_geometry : SSDGeometry := mkGeometry 512 4096 16384 0 0 16384 0 0 "".
Definition sample_write : TraceEvent := mkEvent 8 0 0 0 fzero 1 "Q" "W" 12 8 "" false true false 4096.

Lemma alignment_exact_witness : ∃ r, analyze_event sample_geometry sample_write = Ok r ∧
  iu_units_ideal r ≤ iu_units_touched r ≤ iu_units_ideal r + 1.
Proof.
  destruct (alignment_exact sample_geometry sample_write) as (r & Hr & Hi & _).
  - repeat split; intros _; vm_compute; done.
  - vm_compute. done.
  - exists r. split; [done|]. destruct (Hi eq_refl) as (us & _ & _ & _ & _ & _ & H & _). exact H.
Defined.

(** A unit smaller than a sector: the analysis divides by zero. *)
Example unit_below_sector : analyze_event (mkGeometry 4096 512 0 0 0 0 0 0 "") sample_write =
  Raise (Exn ZeroDivisionError "integer division or modulo by zero").
Proof. reflexivity. Qed.

(** ** Queue depth *)
Definition net (l : list Z) : Z := foldr Z.add 0 l.

Lemma net_app l1 l2 : net (l1 ++ l2) = net l1 + net l2.
Proof. induction l1 as [|x l1 IH]; simpl; lia. Qed.

(** [d] is the largest net change of a run that ends with the list. *)
Definition surplus (l : list Z) (d : Z) : Prop := (∃ k, d = net (drop k l)) ∧ ∀ k, net (drop k l) ≤ d.

Lemma surplus_nil : surplus [] 0.
Proof. split; [by exists 0%nat|]. intros k. by rewrite drop_nil. Qed.

(** A counter clamped at zero after every change computes it. *)
Lemma surplus_snoc l d x : surplus l d → surplus (l ++ [x]) (Z.max 0 (d + x)).
Proof.
  intros [[k Hk] Hmax].
  assert (∀ i, (i ≤ length l)%nat → net (drop i (l ++ [x])) = net (drop i l) + x) as Hd.
  { intros i Hi. rewrite drop_app_le, net_app by done. simpl. lia. }
  assert (∀ i, (length l < i)%nat → net (drop i (l ++ [x])) = 0) as Ho.
  { intros i Hi. rewrite drop_ge; [done|]. rewrite length_app. simpl. lia. }
  split.
  - destruct (Z.le_gt_cases (d + x) 0); [exists (S (length l)); rewrite Ho by lia; lia|].
    exists (Nat.min k (length l)). rewrite Hd by lia. rewrite Z.max_r by lia. rewrite Hk. f_equal.
    destruct (Nat.le_ge_cases k (length l)); [by rewrite Nat.min_l|].
    rewrite Nat.min_r by done. by rewrite !drop_ge.
  - intros i. destruct (Nat.le_gt_cases i (length l)); [rewrite Hd by done|rewrite Ho by done; lia].
    specialize (Hmax i). lia.
Qed.

(** Without a prefix of more completions than issues it is the net change. *)
Lemma surplus_net l d : surplus l d → (∀ k, 0 ≤ net (take k l)) → d = net l.
Proof.
  intros [[k ->] Hmax] Hpre. specialize (Hmax 0%nat). specialize (Hpre k). rewrite drop_0 in Hmax.
  rewrite <- (take_drop k l) in Hmax at 1. rewrite net_app in Hmax.
  rewrite <- (take_drop k l) at 2. rewrite net_app. lia.
Qed.

Definition delta (c : change) : Z := c.1.2.
Definition read_delta (c : change) : Z := if c.2 then delta c else 0.
Definition write_delta (c : change) : Z := if c.2 then 0 else delta c.

Lemma depth_surplus ch : let d := foldl depth_step (mkDepth 0 0 0) ch in
  surplus (map delta ch) (d_total d) ∧ surplus (map read_delta ch) (d_read d) ∧ surplus (map write_delta ch) (d_write d).
Proof.
  induction ch as [|c ch IH] using rev_ind; [split_and!; apply surplus_nil|]. cbv zeta in *.
  rewrite foldl_app, !map_app. destruct IH as (H1 & H2 & H3). destruct c as [[t x] b]. cbn.
  split_and!; by apply surplus_snoc.
Qed.

Lemma depth_samples_lookup d ch i :
  depth_samples d ch !! i = (λ c : change, (c.1.1, foldl depth_step d (take (S i) ch))) <$> ch !! i.
Proof.
  revert d i. induction ch as [|c ch IH]; intros d [|i]; try done. cbn [depth_samples lookup list_lookup].
  by rewrite IH.
Qed.

#[export] Instance change_le_total : Total change_le.
Proof.
  intros [[t d] b] [[t' d'] b']. unfold change_le, change_ltb.
  destruct (fltb t t') eqn:E1, (fltb t' t) eqn:E2; cbn [negb andb]; auto.
  { destruct (total fle t t') as [H|H]; unfold fle in H; congruence. }
  destruct (Z.ltb_spec d d'), (Z.ltb_spec d' d), (Z.eqb_spec d d'), (Z.eqb_spec d' d); try lia;
    destruct b, b'; simpl; auto.
Qed.

(** the depth samples follow the issues and completions in the order of
    their times, one each; the total, read and write depths after a change
    are the largest net number of issues over completions of the changes
    since some earlier point, which is the number in flight as long as no
    completion comes before its issue. *)
Theorem queue_depth_reflected a : let ch := stable_sort change_le (changes_of a) in
  ch ≡ₚ changes_of a ∧ Sorted change_le ch ∧
  (changes_of a ≠ [] → length (compute_queue_depth a) = length ch ∧
   ∀ i t d, compute_queue_depth a !! i = Some (t, d) →
     (∃ c, ch !! i = Some c ∧ t = c.1.1) ∧
     surplus (map delta (take (S i) ch)) (d_total d) ∧
     surplus (map read_delta (take (S i) ch)) (d_read d) ∧
     surplus (map write_delta (take (S i) ch)) (d_write d) ∧
     ((∀ k, 0 ≤ net (take k (map delta (take (S i) ch)))) → d_total d = net (map delta (take (S i) ch)))).
Proof.
  cbv zeta. split; [apply stable_sort_Permutation|]. split; [apply Sorted_stable_sort, _|]. intros Hne.
  set (ch := stable_sort change_le (changes_of a)).
  assert (compute_queue_depth a = depth_samples (mkDepth 0 0 0) ch) as ->
    by (unfold compute_queue_depth, ch; by destruct (changes_of a)).
  split.
  { generalize (mkDepth 0 0 0). induction ch as [|c l IH]; intros d; simpl; [done|]. by rewrite IH. }
  intros i t d Hi. rewrite depth_samples_lookup in Hi. apply fmap_Some in Hi as (c & Hc & [= -> ->]).
  destruct (depth_surplus (take (S i) ch)) as (H1 & H2 & H3).
  split_and!; try done; [by exists c|]. by apply surplus_net.
Qed.

(** An issue and its completion with one time: the completion is sorted
    first, is clamped, and the issue stays counted. *)
Example instant_request_stays :
  (λ a, map (λ s, d_total s.2) (compute_queue_depth a)) <$> new_analyzer [ev_at 1 "D"; ev_at 1 "C"] fone 16 None = Ok [0; 1].
Proof. vm_compute. reflexivity. Qed.

(** ** Sizes in multiples of the unit *)
Definition quantum_spec (iu size : Z) : Z :=
  if size <? iu then 0 else if size <=? max_bucket * iu then size / iu else max_bucket + 1.

Lemma quantum_Ok iu size : 0 < size < 2 ^ 53 → 0 < iu < 2 ^ 53 → quantum iu size = Ok (quantum_spec iu size).
Proof.
  intros Hs Hi. unfold quantum, quantum_spec.
  pose proof (trunc_truediv size iu Hs Hi) as Ht.
  destruct (truediv_separates size iu Hs Hi) as (q & e & E & Hq & He & Hsep). rewrite E in Ht |- *.
  cbn [mbind res_bind] in Ht |- *. clear E.
  unfold modulo. destruct (Z.eqb_spec iu 0); [lia|]. cbn [mbind res_bind]. rewrite Ht. cbn [mbind res_bind]. f_equal.
  destruct (truediv_compare size iu q e 1 4503599627370496 (-52) Hq He ltac:(lia) eq_refl (Hsep 1)) as [H1 _].
  destruct (truediv_compare size iu q e 16 4503599627370496 (-48) Hq He ltac:(lia) eq_refl (Hsep 16)) as [_ H16].
  unfold fone. rewrite H1, H16, Z.mul_1_l. unfold max_bucket.
  destruct (Z.ltb_spec size iu); [done|]. rewrite Z.ltb_antisym, negb_involutive.
  destruct (Z.leb_spec size (16 * iu)) as [Hle|Hgt]; [by destruct (_ && _)|].
  destruct (Z.eqb_spec (size mod iu) 0) as [E|]; [|done]. cbn [andb].
  pose proof (Z.div_mod size iu ltac:(lia)). destruct (Z.leb_spec (size / iu) 16); [nia|done].
Qed.

Lemma quantum_spec_range iu size : 0 < iu → 0 < size → 0 ≤ quantum_spec iu size ≤ max_bucket + 1.
Proof.
  intros Hi Hs. unfold quantum_spec, max_bucket. destruct (Z.ltb_spec size iu); [lia|].
  destruct (Z.leb_spec size (16 * iu)); [|lia].
  assert (0 ≤ size / iu) by (apply Z.div_pos; lia).
  assert (size / iu < 17) by (apply Z.div_lt_upper_bound; lia). lia.
Qed.

(** How many results of one kind fall in bucket [i]. *)
Definition in_bucket (iu : Z) (read : bool) (rs : list IUAnalysisResult) (i : nat) : Z :=
  Z.of_nat (length (List.filter (λ r, Bool.eqb (r_read r) read && (quantum_spec iu (r_size r) =? Z.of_nat i)) rs)).

Lemma bump_lookup c i j : bump c i !! j = (λ x, x + (if decide (j = Z.to_nat i) then 1 else 0)) <$> c !! j.
Proof.
  unfold bump. destruct (decide (j = Z.to_nat i)) as [->|].
  - rewrite list_lookup_alter_eq. destruct (c !! _); [|done]. cbn. f_equal. lia.
  - rewrite list_lookup_alter_ne by done. destruct (c !! j); [|done]. cbn. f_equal. lia.
Qed.

Lemma quantize_Ok iu st r : 0 < r_size r < 2 ^ 53 → 0 < iu < 2 ^ 53 → quantize iu st r =
  Ok (if r_read r then (bump st.1 (quantum_spec iu (r_size r)), st.2) else (st.1, bump st.2 (quantum_spec iu (r_size r)))).
Proof. intros Hr Hi. unfold quantize. by rewrite quantum_Ok. Qed.

Lemma quantize_all iu rs st : 0 < iu < 2 ^ 53 → Forall (λ r, 0 < r_size r < 2 ^ 53) rs →
  ∃ st', foldM (quantize iu) st rs = Ok st' ∧
    (∀ i, st'.1 !! i = (λ x, x + in_bucket iu true rs i) <$> st.1 !! i) ∧
    (∀ i, st'.2 !! i = (λ x, x + in_bucket iu false rs i) <$> st.2 !! i).
Proof.
  intros Hi Hf. revert st. induction Hf as [|r rs Hr _ IH]; intros st.
  - exists st. split; [done|]. split; intros i; unfold in_bucket; cbn; [destruct (st.1 !! i)|destruct (st.2 !! i)]; cbn; f_equal; lia.
  - cbn [foldM]. rewrite quantize_Ok by lia. cbn [mbind res_bind].
    pose proof (quantum_spec_range iu (r_size r) ltac:(lia) ltac:(lia)) as Hq.
    destruct (IH (if r_read r then (bump st.1 (quantum_spec iu (r_size r)), st.2)
                  else (st.1, bump st.2 (quantum_spec iu (r_size r))))) as (st' & Hst & H1 & H2).
    exists st'. split; [done|]. assert (∀ b i, in_bucket iu b (r :: rs) i = in_bucket iu b rs i +
      (if Bool.eqb (r_read r) b then if decide (i = Z.to_nat (quantum_spec iu (r_size r))) then 1 else 0 else 0)) as Hb.
    { intros b i. unfold in_bucket. cbn [List.filter]. destruct (Bool.eqb (r_read r) b); cbn [andb]; [|lia].
      destruct (Z.eqb_spec (quantum_spec iu (r_size r)) (Z.of_nat i)), (decide _); cbn [length]; lia. }
    split; intros i; rewrite Hb; [rewrite H1|rewrite H2]; destruct (r_read r); cbn [fst snd Bool.eqb];
      rewrite ?bump_lookup; [destruct (st.1 !! i)|destruct (st.1 !! i)|destruct (st.2 !! i)|destruct (st.2 !! i)]; cbn; f_equal; lia.
Qed.

Lemma analyze_event_keeps g ev r : analyze_event g ev = Ok r →
  (r_sector r, r_nblocks r, r_size r, r_read r, r_time r) = (sector ev, nblocks ev, size_bytes ev, is_read ev, timestamp ev).
Proof.
  unfold analyze_event, with_iu, with_npwg, with_awun. intros H. res_inv.
  repeat (case_match; res_inv; try done; cbn in *); simplify_eq; done.
Qed.

Definition queued_ok (evs : list TraceEvent) : Prop :=
  Forall (λ ev, 0 < nblocks ev < 2 ^ 53 ∧ 0 < size_bytes ev < 2 ^ 53) (List.filter is_queued evs).

Lemma analyze_all a : _iu_results a = None → geometry_ok (geom a) → queued_ok (events a) →
  ∃ rs a', analyze_iu_alignment a = Ok (rs, a') ∧ geom a' = geom a ∧
    Forall2 (λ ev r, analyze_event (geom a) ev = Ok r) (List.filter is_queued (events a)) rs.
Proof.
  intros Hn Hg Hq. unfold analyze_iu_alignment. rewrite Hn.
  destruct (mapMR_total (analyze_event (geom a)) (λ ev r, analyze_event (geom a) ev = Ok r) (List.filter is_queued (events a)))
    as (rs & -> & H2).
  { unfold queued_ok in Hq. rewrite Forall_forall in Hq. intros ev Hev. destruct (Hq ev Hev) as [Hb _].
    destruct (analyze_event_Ok (geom a) ev Hg Hb) as (r & Hr). by exists r. }
  cbn [mbind res_bind]. eexists rs, _. done.
Qed.

Lemma count_results g iu b evs rs i : Forall2 (λ ev r, analyze_event g ev = Ok r) evs rs →
  in_bucket iu b rs i =
  Z.of_nat (length (List.filter (λ ev, Bool.eqb (is_read ev) b && (quantum_spec iu (size_bytes ev) =? Z.of_nat i)) evs)).
Proof.
  unfold in_bucket. intros H. f_equal. induction H as [|ev r evs rs Hr _ IH]; [done|]. cbn [List.filter].
  apply analyze_event_keeps in Hr. injection Hr as _ _ -> -> _. destruct (_ && _); cbn [length]; by rewrite IH.
Qed.

(** Counts added to zeros keep their number. *)
Lemma length_counts k (l : list Z) (f : nat → Z) :
  (∀ i, l !! i = (λ x, x + f i) <$> replicate k 0 !! i) → length l = k.
Proof.
  intros Hl. apply Nat.le_antisymm.
  - apply lookup_ge_None. rewrite Hl, lookup_ge_None_2; [done|]. by rewrite length_replicate.
  - destruct (Nat.le_gt_cases k (length l)); [done|]. specialize (Hl (length l)).
    rewrite lookup_ge_None_2, lookup_replicate_2 in Hl by lia. done.
Qed.

(** The histogram of sizes counts every queued request once, in the bucket
    of the whole units it covers: none for less than a unit, sixteen at most,
    then one for all that is larger. *)
Theorem size_histogram_exact a : _iu_results a = None → geometry_ok (geom a) → has_iu (geom a) = true →
  iu_size (geom a) < 2 ^ 53 → queued_ok (events a) → List.filter is_queued (events a) ≠ [] →
  ∃ rc wc a', compute_iu_quantization_histogram a = Ok (rc, wc, a') ∧ length rc = 18%nat ∧ length wc = 18%nat ∧
    ∀ i, (i < 18)%nat → let count b := Z.of_nat (length (List.filter (λ ev, Bool.eqb (is_read ev) b &&
        (quantum_spec (iu_size (geom a)) (size_bytes ev) =? Z.of_nat i)) (List.filter is_queued (events a)))) in
      rc !! i = Some (count true) ∧ wc !! i = Some (count false).
Proof.
  intros Hn Hg Hi Hlt Hq Hne. destruct (analyze_all a Hn Hg Hq) as (rs & a' & Ha & Hga & H2).
  unfold compute_iu_quantization_histogram. rewrite Ha. cbn [mbind res_bind].
  assert (rs ≠ []) as Hrs by (intros ->; by inversion H2).
  assert (Forall (λ r, 0 < r_size r < 2 ^ 53) rs) as Hsz.
  { unfold queued_ok in Hq. clear -Hq H2. induction H2 as [|ev r evs rs Hr _ IH]; [constructor|].
    apply Forall_cons in Hq as [[_ Hs] Hq]. apply analyze_event_keeps in Hr. injection Hr as _ _ E _ _.
    constructor; [by rewrite E|by apply IH]. }
  assert (0 < iu_size (geom a)) by (unfold has_iu in Hi; lia).
  destruct (quantize_all (iu_size (geom a)) rs (replicate 18 0, replicate 18 0) ltac:(lia) Hsz) as (st & Hst & H1 & H3).
  exists st.1, st.2, a'. split.
  { destruct rs as [|r rs']; [done|]. rewrite Hga, Hi. cbn [negb]. change (Z.to_nat (max_bucket + 2)) with 18%nat.
    rewrite Hst. done. }
  split; [by eapply length_counts|]. split; [by eapply length_counts|]. intros i Hi'. cbv zeta.
  rewrite H1, H3. cbn [fst snd]. rewrite !lookup_replicate_2 by done. cbn.
  rewrite !(count_results _ _ _ _ _ _ H2). done.
Qed.

(** ** Series per time bucket *)
Section series.
Context (start : pyfloat) (m' : N) (e' : Z) (n : Z) (side : TraceEvent → option bool) (amount : TraceEvent → Z).
Notation bucket := (FFin false m' e').
Context (Hm0 : m' ≠ 0%N) (He' : -400 ≤ e' ≤ 400) (Hm' : Z.of_N m' < 2 ^ 53) (Hn : 1 ≤ n).

(** A time of the trace, not before its start. *)
Definition in_trace (ev : TraceEvent) : Prop := below 200 (timestamp ev) ∧ fle start (timestamp ev).
Context (Hstart : below 200 start).

(** The bucket of an event. *)
Definition index (ev : TraceEvent) : Z :=
  match bucket_of start bucket n (timestamp ev) with Ok i => i | Raise _ => -1 end.

Lemma index_Ok ev : in_trace ev → bucket_of start bucket n (timestamp ev) = Ok (index ev) ∧ 0 ≤ index ev < n.
Proof.
  intros [Hb Hle]. unfold index, bucket_of.
  destruct (fdiv_below (fsub (timestamp ev) start) m' e') as (f & -> & Hf); [|done..|].
  { by eapply fsub_below. }
  cbn [mbind res_bind]. destruct (int_of_below _ _ Hf) as (i & -> & Hi). cbn [mbind res_bind]. split; [done|lia].
Qed.

(** What the events of one side add to bucket [j]. *)
Definition total (b : bool) (evs : list TraceEvent) (j : nat) : Z :=
  net (map amount (List.filter (λ ev, bool_decide (side ev = Some b) && (index ev =? Z.of_nat j)) evs)).

Lemma np_add_fint c i x : 0 ≤ i < Z.of_nat (length c) → 0 ≤ x → Forall (λ y, 0 ≤ y ∧ y + x < 2 ^ 53) c →
  np_add (map fint c) i (fint x) = Ok (map fint (alter (λ y, y + x) (Z.to_nat i) c)).
Proof.
  intros Hi Hx Hc. unfold np_add. rewrite length_map.
  destruct (Z.leb_spec (- Z.of_nat (length c)) i); [|lia]. destruct (Z.ltb_spec i (Z.of_nat (length c))); [|lia].
  destruct (Z.ltb_spec i 0); [lia|]. cbn [andb]. f_equal. apply list_eq. intros j.
  change (map fint ?l) with (fint <$> l). rewrite list_lookup_fmap.
  destruct (decide (j = Z.to_nat i)) as [->|].
  - rewrite !list_lookup_alter_eq, list_lookup_fmap. destruct (c !! Z.to_nat i) as [y|] eqn:E; [|done]. cbn. f_equal.
    rewrite Forall_forall in Hc. destruct (Hc y) as [? ?]; [by eapply list_elem_of_lookup_2|]. by apply fadd_fint.
  - rewrite !list_lookup_alter_ne, list_lookup_fmap by done. done.
Qed.

(** The arrays hold integers with room for what is still to come. *)
Definition room (c : list Z) (left : Z) : Prop := length c = Z.to_nat n ∧ Forall (λ y, 0 ≤ y ∧ y + left < 2 ^ 53) c.

Lemma room_alter c i x left : 0 ≤ x → 0 ≤ left → room c (x + left) → room (alter (λ y, y + x) i c) left.
Proof.
  intros Hx Hl [Hlen Hc]. split; [by rewrite length_alter|]. rewrite Forall_forall in Hc |- *.
  intros y Hy. apply list_elem_of_lookup in Hy as [j Hj]. destruct (decide (j = i)) as [->|].
  - rewrite list_lookup_alter_eq in Hj. apply fmap_Some in Hj as (z & Hz & ->).
    destruct (Hc z) as [? ?]; [by eapply list_elem_of_lookup_2|]. lia.
  - rewrite list_lookup_alter_ne in Hj by done. destruct (Hc y) as [? ?]; [by eapply list_elem_of_lookup_2|]. lia.
Qed.

Lemma room_weaken c x left : 0 ≤ x → room c (x + left) → room c left.
Proof. intros Hx [Hl Hc]. split; [done|]. eapply Forall_impl; [exact Hc|]. intros y [? ?]. cbn in *. lia. Qed.

Lemma net_nonneg (l : list TraceEvent) : Forall (λ ev, 0 ≤ amount ev) l → 0 ≤ net (map amount l).
Proof. induction 1; simpl; lia. Qed.

Lemma total_cons b ev evs j : total b (ev :: evs) j =
  (if bool_decide (side ev = Some b) && (index ev =? Z.of_nat j) then amount ev else 0) + total b evs j.
Proof. unfold total. cbn [List.filter]. by destruct (_ && _). Qed.

Lemma alter_total b (c : list Z) ev evs j : 0 ≤ index ev → side ev = Some b →
  (λ y, y + total b evs j) <$> alter (λ y, y + amount ev) (Z.to_nat (index ev)) c !! j =
  (λ y, y + total b (ev :: evs) j) <$> c !! j.
Proof.
  intros Hi Hs. rewrite total_cons, bool_decide_true by done. cbn [andb].
  destruct (decide (j = Z.to_nat (index ev))) as [->|Hne].
  - rewrite list_lookup_alter_eq, Z2Nat.id, Z.eqb_refl by done. destruct (c !! _); [|done]. cbn. f_equal. lia.
  - rewrite list_lookup_alter_ne by done. destruct (Z.eqb_spec (index ev) (Z.of_nat j)); [lia|]. by destruct (c !! j).
Qed.

Lemma other_total b (c : list Z) ev evs j : side ev ≠ Some b →
  (λ y, y + total b evs j) <$> c !! j = (λ y, y + total b (ev :: evs) j) <$> c !! j.
Proof. intros Hs. rewrite total_cons, bool_decide_false by done. by destruct (c !! j). Qed.

Definition tally_step (st : list pyfloat * list pyfloat) (ev : TraceEvent) : res (list pyfloat * list pyfloat) :=
  i ← bucket_of start bucket n (timestamp ev);
  match side ev with
  | Some true => x ← float_of_Z (amount ev); r ← np_add st.1 i x; Ok (r, st.2)
  | Some false => x ← float_of_Z (amount ev); w ← np_add st.2 i x; Ok (st.1, w)
  | None => Ok st
  end.

Lemma tally_fold evs rc wc : Forall in_trace evs → Forall (λ ev, 0 ≤ amount ev) evs →
  room rc (net (map amount evs)) → room wc (net (map amount evs)) →
  ∃ rc' wc', foldM tally_step (map fint rc, map fint wc) evs = Ok (map fint rc', map fint wc') ∧
    (∀ j, rc' !! j = (λ y, y + total true evs j) <$> rc !! j) ∧
    (∀ j, wc' !! j = (λ y, y + total false evs j) <$> wc !! j).
Proof.
  intros Ht Ha. revert rc wc. induction Ht as [|ev evs Hev _ IH]; intros rc wc Hr Hw.
  - exists rc, wc. split; [done|]. split; intros j; [destruct (rc !! j)|destruct (wc !! j)]; cbn; f_equal; lia.
  - apply Forall_cons in Ha as [Hae Ha]. specialize (IH Ha). cbn [map net foldr] in Hr, Hw.
    change (foldr Z.add 0 (map amount evs)) with (net (map amount evs)) in *. pose proof (net_nonneg evs Ha) as Hnn.
    destruct (index_Ok ev Hev) as [Hidx Hrange].
    assert (∀ c, room c (amount ev + net (map amount evs)) →
      float_of_Z (amount ev) = Ok (fint (amount ev)) ∧
      np_add (map fint c) (index ev) (fint (amount ev)) =
        Ok (map fint (alter (λ y, y + amount ev) (Z.to_nat (index ev)) c))) as Hadd.
    { intros c [Hlen Hc]. assert (0 < length c)%nat by lia. destruct c as [|y c']; [simpl in *; lia|].
      pose proof (proj1 (Forall_cons _ _ _) Hc) as [[? ?] _]. split; [apply float_of_fint; lia|].
      apply np_add_fint; [lia|done|]. eapply Forall_impl; [exact Hc|]. intros z [? ?]. cbn in *. lia. }
    destruct (Hadd rc Hr) as [Hf Hrc]. destruct (Hadd wc Hw) as [_ Hwc].
    cbn [foldM]. assert (∀ st, tally_step st ev = match side ev with
      | Some true => r ← np_add st.1 (index ev) (fint (amount ev)); Ok (r, st.2)
      | Some false => w ← np_add st.2 (index ev) (fint (amount ev)); Ok (st.1, w)
      | None => Ok st end) as Hstep.
    { intros st. unfold tally_step. rewrite Hidx. cbn [mbind res_bind]. rewrite Hf. done. }
    rewrite Hstep. cbn [fst snd]. destruct (side ev) as [[]|] eqn:Es.
    + rewrite Hrc. cbn [mbind res_bind].
      destruct (IH (alter (λ y, y + amount ev) (Z.to_nat (index ev)) rc) wc) as (rc' & wc' & Hfold & H1 & H2);
        [by apply room_alter|by apply (room_weaken _ (amount ev))|].
      exists rc', wc'. split; [done|]. split; intros j; [rewrite H1; apply alter_total; [lia|done]|].
      rewrite H2. apply other_total. by rewrite Es.
    + rewrite Hwc. cbn [mbind res_bind].
      destruct (IH rc (alter (λ y, y + amount ev) (Z.to_nat (index ev)) wc)) as (rc' & wc' & Hfold & H1 & H2);
        [by apply (room_weaken _ (amount ev))|by apply room_alter|].
      exists rc', wc'. split; [done|]. split; intros j; [rewrite H1; apply other_total; by rewrite Es|].
      rewrite H2. apply alter_total; [lia|done].
    + cbn [mbind res_bind]. destruct (IH rc wc) as (rc' & wc' & Hfold & H1 & H2); [by apply (room_weaken _ (amount ev))..|].
      exists rc', wc'. split; [done|]. split; intros j; [rewrite H1|rewrite H2]; apply other_total; by rewrite Es.
Qed.

Lemma tally_exact evs : Forall in_trace evs → Forall (λ ev, 0 ≤ amount ev) evs → net (map amount evs) < 2 ^ 53 →
  ∃ rc wc, tally start bucket n side amount evs = Ok (map fint rc, map fint wc) ∧
    length rc = Z.to_nat n ∧ length wc = Z.to_nat n ∧
    ∀ j, (j < Z.to_nat n)%nat → rc !! j = Some (total true evs j) ∧ wc !! j = Some (total false evs j).
Proof.
  intros Ht Ha Hlt.
  assert (room (replicate (Z.to_nat n) 0) (net (map amount evs))) as Hr.
  { split; [apply length_replicate|]. apply Forall_replicate. lia. }
  destruct (tally_fold evs _ _ Ht Ha Hr Hr) as (rc & wc & Hfold & H1 & H2). exists rc, wc.
  assert (np_zeros n = map fint (replicate (Z.to_nat n) 0)) as Hz.
  { unfold np_zeros. change (map fint ?l) with (fint <$> l). by rewrite fmap_replicate. }
  split; [unfold tally; rewrite Hz; exact Hfold|].
  split; [by eapply length_counts|]. split; [by eapply length_counts|]. intros j Hj. rewrite H1, H2, lookup_replicate_2 by done. done.
Qed.
End series.

Definition bucket_ok (b : pyfloat) : Prop :=
  ∃ m e, b = FFin false m e ∧ m ≠ 0%N ∧ -400 ≤ e ≤ 400 ∧ Z.of_N m < 2 ^ 53.

(** A trace in order, with times that are not huge. *)
Definition trace_ok (evs : list TraceEvent) : Prop :=
  StronglySorted ev_le evs ∧ Forall (λ e, below 200 (timestamp e)) evs.

Lemma analyzer_times evs bucket bins g a : new_analyzer evs bucket bins g = Ok a → trace_ok evs →
  events a = evs ∧ time_bucket a = bucket ∧ below 200 (t0 a) ∧ below 300 (duration a) ∧
  Forall (in_trace (t0 a)) evs.
Proof.
  intros Ha [Hs Hf]. unfold new_analyzer in Ha. destruct evs as [|ev evs']; [done|]. set (evs := ev :: evs') in *.
  injection Ha as <-. cbn. pose proof (proj1 (Forall_cons _ _ _) Hf) as [Hev _].
  assert (Forall (λ e, finite (timestamp e)) evs) as Hfin by (eapply Forall_impl; [exact Hf|intros x Hx; exact (below_finite _ _ Hx)]).
  assert (∀ j e, evs !! j = Some e → in_trace (timestamp ev) e) as Hin.
  { intros j e He. split; [rewrite Forall_forall in Hf; apply Hf; by eapply list_elem_of_lookup_2|].
    eapply (later_time evs 0 j); eauto with lia. }
  assert (is_Some (last evs)) as [e He] by (apply last_is_Some; done).
  split_and!; try done.
  - change (match evs' with [] => Some ev | _ :: _ => last evs' end) with (last evs). rewrite He. cbn [default from_option id].
    rewrite last_lookup in He. destruct (Hin _ _ He) as [Hb Hle]. by eapply fsub_below.
  - apply Forall_forall. intros x [j Hj]%list_elem_of_lookup. by eapply Hin.
Qed.

Lemma fdiv_Ok x m e : m ≠ 0%N → ∃ y, fdiv x (FFin false m e) = Ok y.
Proof.
  intros Hm. destruct m as [|p]; [done|]. destruct x as [n k z| |]; [|by eexists..].
  cbn [fdiv]. destruct (frac k z), (frac (N.pos p) e). by eexists.
Qed.

Lemma scale_Ok m e l : m ≠ 0%N → ∃ r, scale (FFin false m e) l = Ok r.
Proof.
  intros Hm. unfold scale. destruct (mapMR_total (λ x, fdiv x (FFin false m e)) (λ _ _, True) l) as (r & Hr & _); [|by exists r].
  intros x _. destruct (fdiv_Ok x m e Hm) as [y ->]. by exists y.
Qed.

Definition completions (evs : list TraceEvent) : list TraceEvent := List.filter (λ ev, String.eqb (action ev) "C") evs.

(** The array [c] of [n] buckets holds, in each, what the completions of one
    side and of the times of that bucket add up to. *)
Definition per_bucket (a : BlktraceAnalyzer) (m : N) (e n : Z) (amount : TraceEvent → Z) (read : bool) (c : list Z) : Prop :=
  length c = Z.to_nat n ∧ ∀ j, (j < Z.to_nat n)%nat →
    c !! j = Some (total (t0 a) m e n (λ ev, Some (is_read ev)) amount read (completions (events a)) j).

Lemma completion_tally_exact a m e n amount : m ≠ 0%N → -400 ≤ e ≤ 400 → Z.of_N m < 2 ^ 53 → 1 ≤ n →
  below 200 (t0 a) → Forall (in_trace (t0 a)) (events a) → time_bucket a = FFin false m e →
  bucket_count (duration a) (FFin false m e) = Ok n →
  Forall (λ ev, 0 ≤ amount ev) (completions (events a)) → net (map amount (completions (events a))) < 2 ^ 53 →
  ∃ rc wc, completion_tally a amount = Ok (map fint rc, map fint wc) ∧
    per_bucket a m e n amount true rc ∧ per_bucket a m e n amount false wc.
Proof.
  intros Hm He Hlt H1 Ht0 Hin Hb Hn Hpos Hsum.
  assert (Forall (in_trace (t0 a)) (completions (events a))) as Hin'.
  { rewrite Forall_forall in Hin |- *. intros ev Hx. apply Hin. apply list_elem_of_In, filter_In in Hx as [Hx _].
    by apply list_elem_of_In. }
  destruct (tally_exact (t0 a) m e n (λ ev, Some (is_read ev)) amount Hm He Hlt H1 Ht0 _ Hin' Hpos Hsum)
    as (rc & wc & Htal & Hl1 & Hl2 & Hj).
  exists rc, wc. split.
  - unfold completion_tally. rewrite Hb, Hn. cbn [mbind res_bind]. exact Htal.
  - split; (split; [done|]); intros j Hjn; by apply Hj.
Qed.

(** *** The buckets, by the numbers *)

(** [z] is at most the number [m * 2 ^ e]. *)
Definition at_least (m : N) (e : Z) (z : Z) : Prop := z * 2 ^ Z.max 0 (- e) ≤ Z.of_N m * 2 ^ Z.max 0 e.

(** The bucket [i] of [n] is that of a time [x] widths after the start: [i] is
    the number of whole widths, or the last bucket when there are more. *)
Definition bucket_at (x : pyfloat) (n i : Z) : Prop :=
  0 ≤ i < n ∧ ∃ m e, x = FFin false m e ∧ at_least m e i ∧ (i < n - 1 → ¬ at_least m e (i + 1)).

(** [n] is the least number of buckets, one at least, for [x] widths. *)
Definition buckets_for (x : pyfloat) (n : Z) : Prop :=
  1 ≤ n ∧ ∃ m e, x = FFin false m e ∧
    Z.of_N m * 2 ^ Z.max 0 e ≤ n * 2 ^ Z.max 0 (- e) ∧ (1 < n → (n - 1) * 2 ^ Z.max 0 (- e) < Z.of_N m * 2 ^ Z.max 0 e).

(** In bucket [j], what the completions of one side with that bucket add up to. *)
Definition series (evs : list TraceEvent) (idx : TraceEvent → Z) (n : Z) (amount : TraceEvent → Z) (read : bool) (c : list Z) : Prop :=
  length c = Z.to_nat n ∧ ∀ j, (j < Z.to_nat n)%nat →
    c !! j = Some (net (map amount (List.filter (λ ev, Bool.eqb (is_read ev) read && (idx ev =? Z.of_nat j)) (completions evs)))).

Lemma trunc_at_least m e : at_least m e (float_trunc false m e) ∧ ¬ at_least m e (float_trunc false m e + 1).
Proof.
  unfold at_least, float_trunc. destruct (Z.leb_spec 0 e).
  - rewrite (Z.max_l 0 (- e)), (Z.max_r 0 e) by lia. lia.
  - rewrite (Z.max_r 0 (- e)), (Z.max_l 0 e) by lia. pose proof (Z.pow_pos_nonneg 2 (- e) ltac:(lia) ltac:(lia)).
    pose proof (Z.div_mod (Z.of_N m) (2 ^ (- e)) ltac:(lia)). pose proof (Z.mod_pos_bound (Z.of_N m) (2 ^ (- e)) ltac:(lia)). nia.
Qed.

Lemma at_least_mono m e z z' : z' ≤ z → at_least m e z → at_least m e z'.
Proof. unfold at_least. pose proof (Z.pow_pos_nonneg 2 (Z.max 0 (- e)) ltac:(lia) ltac:(lia)). nia. Qed.

(** The bucket of the analyzer is that bucket. *)
Lemma index_bucket start m e n ev : m ≠ 0%N → -400 ≤ e ≤ 400 → Z.of_N m < 2 ^ 53 → 1 ≤ n → below 200 start → in_trace start ev →
  ∃ x, fdiv (fsub (timestamp ev) start) (FFin false m e) = Ok x ∧ bucket_at x n (index start m e n ev).
Proof.
  intros Hm He Hlt Hn Hs Hin. destruct (index_Ok start m e n Hm He Hlt Hn Hs ev Hin) as [Hidx Hr]. destruct Hin as [Hb Hle].
  destruct (fdiv_below (fsub (timestamp ev) start) m e) as (x & Hx & (q & s & -> & _)); [by eapply fsub_below|done..|].
  exists (FFin false q s). split; [done|]. split; [done|]. exists q, s. split; [done|].
  unfold bucket_of in Hidx. rewrite Hx in Hidx. cbn [mbind res_bind int_of py_int] in Hidx. apply Ok_inj in Hidx.
  destruct (trunc_at_least q s) as [H1 H2]. split; [eapply at_least_mono; [|exact H1]; lia|].
  intros Hc H3. assert (index start m e n ev = float_trunc false q s) as E by lia. apply H2. by rewrite <- E.
Qed.

Lemma buckets_counted dur m e n x : fdiv dur (FFin false m e) = Ok x → below 800 x → bucket_count dur (FFin false m e) = Ok n → buckets_for x n.
Proof.
  intros Hx (q & s & -> & _) Hn. unfold bucket_count in Hn. rewrite Hx in Hn. cbn in Hn. apply Ok_inj in Hn. subst n.
  split; [lia|]. exists q, s. split; [done|].
  destruct (Z.leb_spec 0 s).
  - rewrite (Z.max_l 0 (- s)), (Z.max_r 0 s) by lia. lia.
  - rewrite (Z.max_r 0 (- s)), (Z.max_l 0 s) by lia. pose proof (Z.pow_pos_nonneg 2 (- s) ltac:(lia) ltac:(lia)).
    pose proof (Z.div_mod (- Z.of_N q) (2 ^ (- s)) ltac:(lia)). pose proof (Z.mod_pos_bound (- Z.of_N q) (2 ^ (- s)) ltac:(lia)). nia.
Qed.

Lemma scale_each d l r : scale d l = Ok r → Forall2 (λ x y, fdiv x d = Ok y) l r.
Proof.
  unfold scale. revert r. induction l as [|x l IH]; intros r Hr; cbn [mapMR] in Hr.
  - apply Ok_inj in Hr as <-. constructor.
  - apply bind_Ok in Hr as (y & Hy & Hr). apply bind_Ok in Hr as (r' & Hr' & Hr). apply Ok_inj in Hr as <-.
    constructor; [done|by apply IH].
Qed.

Lemma per_bucket_series a m e n amount read c :
  per_bucket a m e n amount read c → series (events a) (index (t0 a) m e n) n amount read c.
Proof.
  intros [Hl Hc]. split; [done|]. intros j Hj. rewrite (Hc j Hj). unfold total. do 3 f_equal.
  apply filter_ext. intros ev. f_equal. destruct (is_read ev), read; by vm_compute.
Qed.

(** The counts and the bytes of the analyzer are series of its buckets. *)
Lemma completion_series a m e n amount : m ≠ 0%N → -400 ≤ e ≤ 400 → Z.of_N m < 2 ^ 53 → 1 ≤ n →
  below 200 (t0 a) → Forall (in_trace (t0 a)) (events a) → time_bucket a = FFin false m e →
  bucket_count (duration a) (FFin false m e) = Ok n →
  Forall (λ ev, 0 ≤ amount ev) (completions (events a)) → net (map amount (completions (events a))) < 2 ^ 53 →
  ∃ rc wc r w, completion_tally a amount = Ok (map fint rc, map fint wc) ∧
    series (events a) (index (t0 a) m e n) n amount true rc ∧ series (events a) (index (t0 a) m e n) n amount false wc ∧
    scale (FFin false m e) (map fint rc) = Ok r ∧ scale (FFin false m e) (map fint wc) = Ok w.
Proof.
  intros Hm He Hlt H1 Ht0 Hin Hb Hn Hpos Hsum.
  destruct (completion_tally_exact a m e n amount) as (rc & wc & Hi & Hrc & Hwc); try done.
  destruct (scale_Ok m e (map fint rc) Hm) as [r Er]. destruct (scale_Ok m e (map fint wc) Hm) as [w Ew].
  exists rc, wc, r, w. split_and!; try done; by apply per_bucket_series.
Qed.

(** A rate of the series: each sum divided by the width of the bucket, and a
    throughput divided by 1048576 as well. *)
Definition rate (bucket : pyfloat) (c : list Z) (r : list pyfloat) : Prop := Forall2 (λ z y, fdiv (fint z) bucket = Ok y) c r.
Definition megabytes (bucket : pyfloat) (c : list Z) (r : list pyfloat) : Prop :=
  Forall2 (λ z y, ∃ x, fdiv (fint z) bucket = Ok x ∧ fdiv x (fint 1048576) = Ok y) c r.

Lemma scale_rate bucket c r : scale bucket (map fint c) = Ok r → rate bucket c r.
Proof. intros H%scale_each. unfold rate. change (map fint c) with (fint <$> c) in H. by apply Forall2_fmap_l in H. Qed.

Lemma scale_megabytes bucket c r r' : scale bucket (map fint c) = Ok r → scale MB r = Ok r' → megabytes bucket c r'.
Proof.
  assert (MB = fint 1048576) as -> by (vm_compute; reflexivity). intros H1%scale_rate H2%scale_each.
  unfold rate, megabytes in *. clear -H1 H2. revert r' H2.
  induction H1 as [|z x c r Hx _ IH]; intros r' H2; inversion H2; subst; constructor; eauto.
Qed.

(** C22: for a trace in order and a positive bucket width, throughput and
    completion rate are computed without an index out of range: there are as
    many buckets as widths between the first and the last event, rounded up;
    each completion counts in one bucket, that of the whole number of widths
    since the first event (the last bucket when there is none such), on the read
    or the write side; and the figures are exactly the numbers, and the bytes,
    of the completions of each bucket, divided by the width and, for the bytes,
    by 1048576, in floating point. *)
Theorem completion_series_exact evs bucket bins g a first final :
  new_analyzer evs bucket bins g = Ok a → trace_ok evs → bucket_ok bucket → completions evs ≠ [] →
  head evs = Some first → last evs = Some final →
  Forall (λ ev, 0 ≤ size_bytes ev) (completions evs) → net (map size_bytes (completions evs)) < 2 ^ 53 →
  Z.of_nat (length (completions evs)) < 2 ^ 53 →
  ∃ n x idx rc wc rb wb r w r' w',
    fdiv (fsub (timestamp final) (timestamp first)) bucket = Ok x ∧ buckets_for x n ∧
    Forall (λ ev, ∃ y, fdiv (fsub (timestamp ev) (timestamp first)) bucket = Ok y ∧ bucket_at y n (idx ev)) (completions evs) ∧
    compute_iops a = Ok (r, w) ∧ compute_throughput a = Ok (r', w') ∧
    series evs idx n (λ _, 1) true rc ∧ rate bucket rc r ∧ series evs idx n (λ _, 1) false wc ∧ rate bucket wc w ∧
    series evs idx n size_bytes true rb ∧ megabytes bucket rb r' ∧ series evs idx n size_bytes false wb ∧ megabytes bucket wb w'.
Proof.
  intros Ha Ht (m & e & -> & Hm & He & Hlt) Hne Hfirst Hlast Hpos Hsum Hlen.
  destruct (analyzer_times _ _ _ _ _ Ha Ht) as (Hev & Hb & Ht0 & Hdur & Hin).
  assert (t0 a = timestamp first ∧ duration a = fsub (timestamp final) (timestamp first)) as [E0 Ed].
  { unfold new_analyzer in Ha. destruct evs as [|ev evs']; [done|]. injection Hfirst as ->. injection Ha as <-. cbn [t0 duration].
    by rewrite Hlast. }
  rewrite <- Hev, <- E0, <- Ed in *.
  destruct (fdiv_below (duration a) m e Hdur Hm He Hlt) as (f & Hf & Hfb).
  destruct (ceil_of_below _ _ Hfb) as [c Hc].
  assert (bucket_count (duration a) (FFin false m e) = Ok (Z.max 1 c)) as Hn.
  { unfold bucket_count. rewrite Hf. cbn [mbind res_bind]. by rewrite Hc. }
  pose proof (buckets_counted _ _ _ _ _ Hf Hfb Hn) as Hfor.
  set (n := Z.max 1 c) in *. assert (1 ≤ n) as H1 by lia.
  assert (net (map (λ _, 1) (completions (events a))) = Z.of_nat (length (completions (events a)))) as Hones.
  { clear. induction (completions (events a)); cbn [map net foldr length] in *; [done|]. unfold net in *. lia. }
  destruct (completion_series a m e n (λ _, 1)) as (rc & wc & r & w & Hi & Hrc & Hwc & Er & Ew); try done; [by apply Forall_true|lia|].
  destruct (completion_series a m e n size_bytes) as (rb & wb & r1 & w1 & Hth & Hrb & Hwb & Er1 & Ew1); try done.
  destruct (scale_Ok 4503599627370496 (-32) r1) as [r' Er']; [done|].
  destruct (scale_Ok 4503599627370496 (-32) w1) as [w' Ew']; [done|].
  exists n, f, (index (t0 a) m e n), rc, wc, rb, wb, r, w, r', w'. split_and!; try done; try (by apply scale_rate); try (by eapply scale_megabytes).
  - rewrite Forall_forall in Hin |- *. intros ev Hx. apply list_elem_of_In, filter_In in Hx as [Hx%list_elem_of_In _].
    apply index_bucket; auto.
  - unfold compute_iops. change (List.filter is_completion (events a)) with (completions (events a)).
    destruct (completions (events a)); [done|]. rewrite Hi, Hb. cbn [mbind res_bind fst snd]. by rewrite Er, Ew.
  - unfold compute_throughput. change (List.filter is_completion (events a)) with (completions (events a)).
    destruct (completions (events a)); [done|]. rewrite Hth, Hb. cbn [mbind res_bind fst snd]. rewrite Er1. cbn [mbind res_bind].
    unfold MB. rewrite Er'. cbn [mbind res_bind]. rewrite Ew1. cbn [mbind res_bind]. by rewrite Ew'.
Qed.

Definition sample_trace : list TraceEvent := [ev_at 1 "Q"; ev_at 1 "D"; ev_at 3 "C"; ev_at 5 "C"].

Definition sample_analyzer : BlktraceAnalyzer :=
  mkAnalyzer sample_trace fone 16 default_geometry (FFin false 1 0) (FFin false 5 0) (fsub (FFin false 5 0) (FFin false 1 0))
    (completed_ios (_compute_latencies sample_trace)) None.

(** Two completions, in the third and the last of four buckets. *)
Lemma completion_series_exact_witness :
  ∃ n x idx rc wc rb wb r w r' w',
    fdiv (fsub (timestamp (ev_at 5 "C")) (timestamp (ev_at 1 "Q"))) fone = Ok x ∧ buckets_for x n ∧
    Forall (λ ev, ∃ y, fdiv (fsub (timestamp ev) (timestamp (ev_at 1 "Q"))) fone = Ok y ∧ bucket_at y n (idx ev)) (completions sample_trace) ∧
    compute_iops sample_analyzer = Ok (r, w) ∧ compute_throughput sample_analyzer = Ok (r', w') ∧
    series sample_trace idx n (λ _, 1) true rc ∧ rate fone rc r ∧ series sample_trace idx n (λ _, 1) false wc ∧ rate fone wc w ∧
    series sample_trace idx n size_bytes true rb ∧ megabytes fone rb r' ∧ series sample_trace idx n size_bytes false wb ∧ megabytes fone wb w'.
Proof.
  apply (completion_series_exact sample_trace fone 16 None sample_analyzer (ev_at 1 "Q") (ev_at 5 "C")).
  - reflexivity.
  - split; [repeat constructor; vm_compute; reflexivity|].
    repeat constructor; eexists _, _; (split; [reflexivity|]; split; [done|lia]).
  - eexists _, _. split; [reflexivity|]. split; [done|]. split; [lia|done].
  - done.
  - reflexivity.
  - reflexivity.
  - repeat constructor; vm_compute; done.
  - vm_compute. done.
  - vm_compute. done.
Defined.

(** A discard that is queued counts among the writes of the summary. *)
Definition discard : TraceEvent := mkEvent 8 0 0 0 fzero 1 "Q" "D" 64 8 "" false false true 4096.

Example discard_counted_as_write : ∀ np_mean,
  match new_analyzer [discard] fone 16 (Some sample_geometry) with
  | Ok a => match compute_iu_summary np_mean a with Ok (Some s, _) => Some (total_writes s) | _ => None end
  | _ => None
  end = Some 1%nat.
Proof. intros np_mean. vm_compute. reflexivity. Qed.
