(* ===== verification/BlkCompare.v ===== *)
(** * Capture against replay, per bucket

    [analyzers/blktrace_compare.py]: the series that the comparison of two
    block traces extracts from each, over a duration that is the shorter of
    the two. *)

From stdpp Require Import prelude strings list gmap sorting.
From Stdlib Require Import ZArith Lia Ascii.
From S2P Require Import Prelude PyText PyJson JsonText PyFloat FloatOps BlkParse BlkAnalyze BlkCorrect.
Import BlkParse BlkAnalyze.
Local Open Scope Z_scope.

Module BlkCompare.

(** Reads, then writes; other requests count on neither side. *)
Definition rw_side (ev : TraceEvent) : option bool :=
  if is_read ev then Some true else if is_write ev then Some false else None.

Definition rw_counts (evs : list TraceEvent) (start dur bucket : pyfloat) : res (list pyfloat * list pyfloat) :=
  n ← bucket_count dur bucket; tally start bucket n rw_side (λ _, 1) (List.filter is_queued evs).

Definition extract_q_event_rate (evs : list TraceEvent) (start dur bucket : pyfloat) : res (list pyfloat * list pyfloat) :=
  c ← rw_counts evs start dur bucket;
  r ← scale bucket c.1; w ← scale bucket c.2; Ok (r, w).

Definition extract_io_sizes (evs : list TraceEvent) : list Z := map size_bytes (List.filter is_queued evs).

Definition extract_io_sizes_by_type (evs : list TraceEvent) : list Z * list Z :=
  (map size_bytes (List.filter (λ e, is_queued e && is_read e) evs),
   map size_bytes (List.filter (λ e, is_queued e && is_write e) evs)).

(** [np.cumsum] *)
Fixpoint cumsum (acc : pyfloat) (l : list pyfloat) : list pyfloat :=
  match l with [] => [] | x :: l => let s := fadd acc x in s :: cumsum s l end.

Definition np_cumsum (l : list pyfloat) : list pyfloat :=
  match l with [] => [] | x :: l => x :: cumsum x l end.

Definition cumulative_step (start bucket : pyfloat) (n : Z) (st : list pyfloat * list pyfloat) (ev : TraceEvent)
    : res (list pyfloat * list pyfloat) :=
  i ← bucket_of start bucket n (timestamp ev);
  count ← np_add st.1 i fone;
  x ← float_of_Z (size_bytes ev); bytez ← np_add st.2 i x;
  Ok (count, bytez).

Definition extract_cumulative_ios (evs : list TraceEvent) (start dur bucket : pyfloat)
    : res (list pyfloat * list pyfloat) :=
  n ← bucket_count dur bucket;
  st ← foldM (cumulative_step start bucket n) (np_zeros n, np_zeros n) (List.filter is_queued evs);
  Ok (np_cumsum st.1, np_cumsum st.2).

(** [np.where((rc + wc) > 0, rc / (rc + wc), 0.5)] *)
Definition ratio_of (r w : pyfloat) : pyfloat :=
  if fltb fzero (fadd r w) then match fdiv r (fadd r w) with Ok x => x | Raise _ => FFin false 4503599627370496 (-53) end
  else FFin false 4503599627370496 (-53).

Definition extract_rw_ratio_over_time (evs : list TraceEvent) (start dur bucket : pyfloat) : res (list pyfloat) :=
  c ← rw_counts evs start dur bucket; Ok (zip_with ratio_of c.1 c.2).

(** ** The series are exact *)

(** Every queued request of a trace that starts at [start] is counted, in
    the bucket of its time; one later than the duration in the last. *)
Theorem event_rate_exact evs start dur m e :
  m ≠ 0%N → -400 ≤ e ≤ 400 → Z.of_N m < 2 ^ 53 → below 200 start → below 300 dur →
  Forall (in_trace start) evs → Z.of_nat (length evs) < 2 ^ 53 →
  ∃ n rc wc r w, bucket_count dur (FFin false m e) = Ok n ∧
    rw_counts evs start dur (FFin false m e) = Ok (map fint rc, map fint wc) ∧
    extract_q_event_rate evs start dur (FFin false m e) = Ok (r, w) ∧
    scale (FFin false m e) (map fint rc) = Ok r ∧ scale (FFin false m e) (map fint wc) = Ok w ∧
    ∀ j, (j < Z.to_nat n)%nat →
      rc !! j = Some (total start m e n rw_side (λ _, 1) true (List.filter is_queued evs) j) ∧
      wc !! j = Some (total start m e n rw_side (λ _, 1) false (List.filter is_queued evs) j).
Proof.
  intros Hm He Hlt Hs Hd Hin Hlen.
  destruct (fdiv_below dur m e Hd Hm He Hlt) as (f & Hf & Hfb). destruct (ceil_of_below _ _ Hfb) as [c Hc].
  assert (bucket_count dur (FFin false m e) = Ok (Z.max 1 c)) as Hn.
  { unfold bucket_count. rewrite Hf. cbn [mbind res_bind]. by rewrite Hc. }
  set (n := Z.max 1 c) in *. set (q := List.filter is_queued evs).
  assert (Forall (in_trace start) q) as Hq.
  { rewrite Forall_forall in Hin |- *. intros ev Hx. apply Hin. apply list_elem_of_In, filter_In in Hx as [Hx _].
    by apply list_elem_of_In. }
  assert (net (map (λ _, 1) q) < 2 ^ 53) as Hsum.
  { assert (net (map (λ _, 1) q) = Z.of_nat (length q)) as ->.
    { clear. induction q; cbn [map net foldr length] in *; [done|]. unfold net in *. lia. }
    pose proof (filter_length_le is_queued evs). unfold q. lia. }
  destruct (tally_exact start m e n rw_side (λ _, 1) Hm He Hlt ltac:(lia) Hs q Hq) as (rc & wc & Ht & _ & _ & Hj);
    [by apply Forall_true|done|].
  assert (rw_counts evs start dur (FFin false m e) = Ok (map fint rc, map fint wc)) as Hrw.
  { unfold rw_counts. rewrite Hn. exact Ht. }
  destruct (scale_Ok m e (map fint rc) Hm) as [r Er]. destruct (scale_Ok m e (map fint wc) Hm) as [w Ew].
  exists n, rc, wc, r, w. split_and!; try done. unfold extract_q_event_rate. rewrite Hrw. cbn [mbind res_bind fst snd].
  by rewrite Er, Ew.
Qed.

(** A request five seconds after the start counts in the last bucket of a
    common duration of two. *)
Example late_request_folded :
  rw_counts [ev_at 1 "Q"; ev_at 6 "Q"] (FFin false 1 0) (FFin false 2 0) fone = Ok (map fint [1; 1], map fint [0; 0]).
Proof. vm_compute. reflexivity. Qed.
End BlkCompare.
