(* ===== verification/ReplayPlan.v ===== *)
(** * Projected device commands

    [examples/lmcache/kvio_plan.py], [kvio_sem2manifest.py] and
    [kvio_validate.py]: the device commands projected for a stored or loaded
    object, the replay manifest of a captured run, and the check of a traced
    run against the projection.  Records are taken as the hooks write them:
    texts and integers, any field of which may be absent. *)

From stdpp Require Import prelude strings list gmap sorting.
From Stdlib Require Import ZArith Lia Ascii.
From S2P Require Import Prelude PyText PyJson JsonText PyFloat FloatOps.
Local Open Scope Z_scope.

Module ReplayPlan.

(** ** The projection *)
Definition per_token_kv (layers kv_heads head_dim dtype_bytes : Z) : Z := 2 * layers * kv_heads * head_dim * dtype_bytes.

Definition MODELS : list (string * (Z * Z * Z * Z)) :=
  [("Llama-3.2-1B", (16, 8, 64, 2)); ("Llama-3.2-3B", (28, 8, 128, 2)); ("Llama-3.1-8B", (32, 8, 128, 2))].

Definition payload_for_model (name : string) (chunk_tokens : Z) : res Z :=
  match dget name MODELS with
  | Some (layers, kv, hd, db) => Ok (per_token_kv layers kv hd db * chunk_tokens)
  | None => Raise (Exn KeyError name)
  end.

Definition round_up (c lba_bytes : Z) : Z := (c + lba_bytes - 1) / lba_bytes * lba_bytes.

Definition split_commands (nbytes xfer lba_bytes : Z) : res (list Z) :=
  if nbytes <=? 0 then Ok [] else
  q ← int_truediv nbytes xfer;
  n ← ceil_of q;
  let cmds := replicate (Z.to_nat (n - 1)) xfer ++ [nbytes - xfer * (n - 1)] in
  Ok (if 1 <? lba_bytes then map (λ c, round_up c lba_bytes) cmds else cmds).

Record projection := mkProjection {
  p_op : string; p_payload : Z; p_xfer : Z; device_ops : Z; nvme_commands : Z; command_sizes : list Z;
  total_device_bytes : Z; fragmentation : Z }.

Definition sum_of (l : list Z) : Z := foldr Z.add 0 l.

Definition project (payload_bytes : Z) (op : string) (header_bytes max_xfer mdts_bytes lba_bytes : Z) : res projection :=
  let xfer := if max_xfer =? 0 then mdts_bytes else Z.min max_xfer mdts_bytes in
  header ← (if String.eqb op "store" then split_commands header_bytes xfer lba_bytes else Ok []);
  payload ← split_commands payload_bytes xfer lba_bytes;
  let cmds := header ++ payload in
  let len := Z.of_nat (length cmds) in
  Ok (mkProjection op payload_bytes xfer (if String.eqb op "store" then 2 else 1) len cmds (sum_of cmds) len).

(** The tail of a payload that is not a multiple of a block, as the comment
    of the source has it. *)
Example tail_rounded : split_commands 700000 131072 512 = Ok [131072; 131072; 131072; 131072; 131072; 45056].
Proof. vm_compute. reflexivity. Qed.

(** ** A captured run as a manifest *)
Record sem_record := mkSem {
  s_object : option string; s_key : option string; s_trace : option Z; s_op : option string;
  s_bytes : option Z; s_part : option string; s_error : bool }.

Record manifest_object := mkObject { o_payload : Z; o_ops : list string }.

(** [r.get("object_id") or r.get("key")] *)
Definition object_of (r : sem_record) : option string :=
  match s_object r with Some id => if String.eqb id "" then s_key r else Some id | None => s_key r end.

Definition replayable (op : string) : bool := String.eqb op "store" || String.eqb op "load".

Definition observe (objs : list (string * manifest_object)) (r : sem_record) : res (list (string * manifest_object)) :=
  match object_of r, s_op r with
  | Some oid, Some op =>
      if negb (replayable op) || s_error r then Ok objs else
      match s_bytes r with
      | None => Raise (Exn KeyError "bytes")
      | Some n =>
          let o := default (mkObject 0 []) (dget oid objs) in
          Ok (dset oid (mkObject (Z.max (o_payload o) n)
                          (if bool_decide (op ∈ o_ops o) then o_ops o else o_ops o ++ [op])) objs)
      end
  | _, _ => Ok objs
  end.

Definition objects_of (recs : list sem_record) : res (list (string * manifest_object)) := foldM observe [] recs.

(** The size of a slot: given, or the largest payload and a header, rounded
    up to whole blocks. *)
Definition slot_of (slot_bytes header_bytes block_align max_payload : Z) : res Z :=
  if slot_bytes =? 0 then
    let raw := max_payload + header_bytes in
    if block_align =? 0 then Raise (Exn ZeroDivisionError "integer division or modulo by zero")
    else Ok ((raw + block_align - 1) / block_align * block_align)
  else Ok slot_bytes.

Record manifest := mkManifest { m_slot : Z; m_objects : list (Z * manifest_object) }.

Fixpoint numbered {A} (i : Z) (l : list A) : list (Z * A) :=
  match l with [] => [] | x :: l => (i, x) :: numbered (i + 1) l end.

(** [max] of a non-empty list of payloads. *)
Definition max_payload (l : list manifest_object) : Z :=
  match l with [] => 0 | o :: l => foldl Z.max (o_payload o) (map o_payload l) end.

Definition sem2manifest (recs : list sem_record) (slot_bytes header_bytes block_align : Z) : res manifest :=
  objs ← objects_of recs;
  match objs with
  | [] => Raise (Exn SystemExit "no objects found in semantic trace")
  | _ => slot ← slot_of slot_bytes header_bytes block_align (max_payload (map snd objs));
         Ok (mkManifest slot (numbered 0 (map snd objs)))
  end.

(** ** A traced run against the projection *)
Record nvme_event := mkNvme { v_type : option string; v_user_data : Z; v_bytes : Z }.

Record measure := mkMeasure { cmds : Z; mbytes : Z; sizes : list Z }.

Definition no_measure : measure := mkMeasure 0 0 [].

Record measured := mkMeasured { by_trace : gmap Z measure; untagged : measure }.

Definition add_measure (m : measure) (n : Z) : measure := mkMeasure (cmds m + 1) (mbytes m + n) (sizes m ++ [n]).

Definition measure_event (st : measured) (o : nvme_event) : measured :=
  if negb (bool_decide (v_type o = Some "nvme_cmd")) then st else
  let tid := Z.shiftr (v_user_data o) 32 in
  if tid =? 0 then mkMeasured (by_trace st) (add_measure (untagged st) (v_bytes o))
  else mkMeasured (<[tid := add_measure (default no_measure (by_trace st !! tid)) (v_bytes o)]> (by_trace st)) (untagged st).

Definition measure_all (trace : list nvme_event) : measured := foldl measure_event (mkMeasured ∅ no_measure) trace.

(** The dictionary of semantic records by trace id, the last one kept. *)
Definition wanted (r : sem_record) : bool :=
  match s_op r with Some op => replayable op && negb (s_error r) | None => false end.

Definition sem_of (recs : list sem_record) : gmap Z sem_record :=
  foldl (λ m r, match s_trace r with Some tid => if wanted r then <[tid := r]> m else m | None => m end) ∅ recs.

Record verdict := mkVerdict { exact : Z; cmd_exact : Z; size_exact : Z; tot_meas_bytes : Z; tot_abs_err : Z }.

Definition b2z (b : bool) : Z := if b then 1 else 0.

Definition judge (header_bytes max_xfer mdts_bytes lba_bytes : Z) (ms : measured) (v : verdict) (kv : Z * sem_record)
    : res verdict :=
  let '(tid, s) := kv in
  let m := default no_measure (by_trace ms !! tid) in
  n ← match s_bytes s with Some n => Ok n | None => Raise (Exn KeyError "bytes") end;
  p ← project n (default "" (s_op s)) header_bytes max_xfer mdts_bytes lba_bytes;
  let cmd_ok := cmds m =? nvme_commands p in
  let byte_ok := mbytes m =? total_device_bytes p in
  Ok (mkVerdict (exact v + b2z (cmd_ok && byte_ok)) (cmd_exact v + b2z cmd_ok)
        (size_exact v + b2z (bool_decide (stable_sort Z.le (sizes m) = stable_sort Z.le (command_sizes p))))
        (tot_meas_bytes v + mbytes m) (tot_abs_err v + Z.abs (mbytes m - total_device_bytes p))).

(** [sorted(sem.items())]: the records in order of their trace ids. *)
Definition item_le (a b : Z * sem_record) : Prop := a.1 ≤ b.1.
#[export] Instance item_le_dec : RelDecision item_le.
Proof. intros a b. unfold item_le. apply _. Defined.

Definition validate (header_bytes max_xfer mdts_bytes lba_bytes : Z) (trace : list nvme_event) (recs : list sem_record)
    : res verdict :=
  foldM (judge header_bytes max_xfer mdts_bytes lba_bytes (measure_all trace)) (mkVerdict 0 0 0 0 0)
    (stable_sort item_le (map_to_list (sem_of recs))).

(** The percentages of the report, [100 * k / n] over the records compared. *)
Definition rates (v : verdict) (n : Z) : res (pyfloat * pyfloat * pyfloat) :=
  a ← int_truediv (100 * exact v) n; b ← int_truediv (100 * cmd_exact v) n; c ← int_truediv (100 * size_exact v) n;
  Ok (a, b, c).

(** ** Splitting is exact *)
Lemma round_up_spec c lba : 0 < lba → (lba | round_up c lba) ∧ c ≤ round_up c lba < c + lba.
Proof.
  intros Hl. unfold round_up. split; [by exists ((c + lba - 1) / lba)|].
  pose proof (Z.div_mod (c + lba - 1) lba ltac:(lia)). pose proof (Z.mod_pos_bound (c + lba - 1) lba Hl). lia.
Qed.

Lemma round_up_unique c lba r : 0 < lba → (lba | r) → c ≤ r < c + lba → round_up c lba = r.
Proof.
  intros Hl [k ->] Hr. destruct (round_up_spec c lba Hl) as [[i Hi] Hb]. rewrite Hi in *. assert (i = k) as -> by nia. done.
Qed.

Lemma sum_of_app l1 l2 : sum_of (l1 ++ l2) = sum_of l1 + sum_of l2.
Proof. unfold sum_of. induction l1 as [|x l1 IH]; simpl; lia. Qed.

Lemma sum_of_replicate n x : sum_of (replicate n x) = Z.of_nat n * x.
Proof. unfold sum_of. induction n as [|n IH]; cbn [replicate foldr]; lia. Qed.

Lemma split_commands_Ok nbytes xfer lba : 0 < nbytes < 2 ^ 53 → 0 < xfer < 2 ^ 53 → 1 < lba →
  let k := ceil_div nbytes xfer in
  1 ≤ k ∧ 0 < nbytes - xfer * (k - 1) ≤ xfer ∧
  split_commands nbytes xfer lba =
    Ok (replicate (Z.to_nat (k - 1)) (round_up xfer lba) ++ [round_up (nbytes - xfer * (k - 1)) lba]).
Proof.
  intros Hn Hx Hl. cbv zeta. pose proof (ceil_div_bounds nbytes xfer ltac:(lia)) as Hk.
  pose proof (ceil_truediv nbytes xfer Hn Hx) as Hc. set (k := ceil_div nbytes xfer) in *.
  split; [nia|]. split; [nia|]. unfold split_commands. destruct (Z.leb_spec nbytes 0); [lia|].
  apply bind_Ok in Hc as (f & -> & Hc). cbn [mbind res_bind]. rewrite Hc. cbn [mbind res_bind].
  destruct (Z.ltb_spec 1 lba); [|lia]. f_equal. rewrite map_app. f_equal.
  change (map ?f (replicate ?n ?x)) with (f <$> replicate n x). by rewrite fmap_replicate.
Qed.

Lemma split_commands_spec nbytes xfer lba : 0 < nbytes < 2 ^ 53 → 0 < xfer < 2 ^ 53 → 1 < lba →
  ∃ cmds, split_commands nbytes xfer lba = Ok cmds ∧ Z.of_nat (length cmds) = ceil_div nbytes xfer ∧
    Forall (λ c, (lba | c) ∧ 0 < c < xfer + lba) cmds ∧
    nbytes ≤ sum_of cmds < nbytes + lba * Z.of_nat (length cmds) ∧
    ((lba | xfer) → Forall (λ c, c ≤ xfer) cmds ∧ sum_of cmds = round_up nbytes lba).
Proof.
  intros Hn Hx Hl. destruct (split_commands_Ok nbytes xfer lba Hn Hx Hl) as (Hk & Htail & ->).
  set (k := ceil_div nbytes xfer) in *. eexists. split; [reflexivity|].
  destruct (round_up_spec xfer lba ltac:(lia)) as [Hd1 Hb1].
  destruct (round_up_spec (nbytes - xfer * (k - 1)) lba ltac:(lia)) as [Hd2 Hb2].
  rewrite length_app, length_replicate, sum_of_app, sum_of_replicate, Z2Nat.id by lia. cbn [length sum_of foldr].
  split_and!.
  - lia.
  - apply Forall_app. split; [apply Forall_replicate|constructor; [|constructor]]; (split; [done|lia]).
  - nia.
  - nia.
  - intros Hdiv. rewrite (round_up_unique xfer lba xfer) by (done || lia). destruct Hdiv as [i Hi]. split.
    + apply Forall_app. split; [apply Forall_replicate; lia|constructor; [|constructor]].
      destruct Hd2 as [j Hj]. rewrite Hj in *. set (t := nbytes - xfer * (k - 1)) in *.
      assert (j * lba < (i + 1) * lba) by lia. assert (j ≤ i) by nia. nia.
    + symmetry. apply round_up_unique; [lia| |nia].
      apply Z.divide_add_r; [exists ((k - 1) * i); nia|]. by rewrite Z.add_0_r.
Qed.

(** C37: for sizes below [2^53] and a transfer limit of whole blocks, a
    projected load reads its payload, and a store writes a header and its
    payload, in the fewest commands that respect the limit: every command is
    a positive number of whole blocks within the limit, and the device bytes
    are the header and the payload, each rounded up to blocks. *)
Theorem project_exact payload op header max_xfer mdts lba :
  let xfer := if max_xfer =? 0 then mdts else Z.min max_xfer mdts in
  0 < payload < 2 ^ 53 → 0 < header < 2 ^ 53 → 0 < xfer < 2 ^ 53 → 1 < lba → (lba | xfer) →
  ∃ p, project payload op header max_xfer mdts lba = Ok p ∧ p_xfer p = xfer ∧
    nvme_commands p = Z.of_nat (length (command_sizes p)) ∧ total_device_bytes p = sum_of (command_sizes p) ∧
    Forall (λ c, (lba | c) ∧ 0 < c ≤ xfer) (command_sizes p) ∧
    nvme_commands p = (if String.eqb op "store" then ceil_div header xfer else 0) + ceil_div payload xfer ∧
    total_device_bytes p = (if String.eqb op "store" then round_up header lba else 0) + round_up payload lba.
Proof.
  cbv zeta. intros Hp Hh Hx Hl Hdiv. unfold project. set (xfer := if max_xfer =? 0 then mdts else Z.min max_xfer mdts) in *.
  destruct (split_commands_spec payload xfer lba Hp Hx Hl) as (cp & Ep & Hlp & Hfp & _ & Hsp).
  destruct (split_commands_spec header xfer lba Hh Hx Hl) as (ch & Eh & Hlh & Hfh & _ & Hsh).
  destruct (Hsp Hdiv) as [Hmp Htp]. destruct (Hsh Hdiv) as [Hmh Hth].
  assert (∀ l, Forall (λ c, (lba | c) ∧ 0 < c < xfer + lba) l → Forall (λ c, c ≤ xfer) l →
    Forall (λ c, (lba | c) ∧ 0 < c ≤ xfer) l) as Hboth.
  { intros l H1 H2. rewrite Forall_forall in H1, H2 |- *. intros c Hc. destruct (H1 c Hc) as [? ?]. split; [done|].
    specialize (H2 c Hc). cbn in H2. lia. }
  rewrite Ep, Eh. destruct (String.eqb op "store"); cbn [mbind res_bind app]; eexists; (split; [reflexivity|]); cbn;
    rewrite ?length_app, ?sum_of_app; split_and!; try done; try lia.
  - apply Forall_app. auto.
  - auto.
Qed.

Lemma project_exact_witness : ∃ p, project 700000 "store" 4096 0 131072 512 = Ok p ∧
  nvme_commands p = 7 ∧ total_device_bytes p = 704512.
Proof.
  destruct (project_exact 700000 "store" 4096 0 131072 512) as (p & Hp & _ & _ & _ & _ & Hn & Ht);
    [vm_compute; done|vm_compute; done|vm_compute; done|done|exists 256; reflexivity|].
  exists p. split; [done|]. split; [rewrite Hn; vm_compute; reflexivity|rewrite Ht; vm_compute; reflexivity].
Defined.

(** A limit that is not a multiple of a block: commands exceed it. *)
Example limit_exceeded : split_commands 3000 1000 512 = Ok [1024; 1024; 1024].
Proof. vm_compute. reflexivity. Qed.

(** ** The manifest holds what was observed *)

(** The records of an object that can be replayed. *)
Definition observed (oid : string) (r : sem_record) : bool :=
  bool_decide (object_of r = Some oid) && wanted r.

(** The distinct operations of a list, in the order they first occur. *)
Fixpoint firsts (seen l : list string) : list string :=
  match l with [] => seen | x :: l => firsts (if bool_decide (x ∈ seen) then seen else seen ++ [x]) l end.

Lemma firsts_app seen l1 l2 : firsts seen (l1 ++ l2) = firsts (firsts seen l1) l2.
Proof. revert seen. induction l1 as [|x l1 IH]; intros seen; [done|]. apply IH. Qed.

Definition ops_of (recs : list sem_record) (oid : string) : list string :=
  firsts [] (omap s_op (List.filter (observed oid) recs)).

Definition payload_of (recs : list sem_record) (oid : string) : Z :=
  foldl Z.max 0 (omap s_bytes (List.filter (observed oid) recs)).

(** The objects, in the order they are first observed. *)
Definition object_ids (recs : list sem_record) : list string :=
  firsts [] (omap object_of (List.filter wanted recs)).

Definition summary_of (recs : list sem_record) (oid : string) : string * manifest_object :=
  (oid, mkObject (payload_of recs oid) (ops_of recs oid)).

Definition has_bytes (r : sem_record) : Prop := wanted r = true → is_Some (s_bytes r).

Lemma firsts_elem seen l x : x ∈ firsts seen l ↔ x ∈ seen ∨ x ∈ l.
Proof.
  revert seen. induction l as [|y l IH]; intros seen; cbn [firsts]; [set_solver|]. rewrite IH.
  destruct (bool_decide (y ∈ seen)) eqn:E; [apply bool_decide_eq_true in E|]; set_solver.
Qed.

Lemma firsts_NoDup seen l : NoDup seen → NoDup (firsts seen l).
Proof.
  revert seen. induction l as [|y l IH]; intros seen Hnd; cbn [firsts]; [done|]. apply IH.
  destruct (bool_decide (y ∈ seen)) eqn:E; [done|]. apply bool_decide_eq_false in E.
  apply NoDup_app. split; [done|]. split; [set_solver|apply NoDup_singleton].
Qed.

Section keyed.
Context {A : Type} (f : string → A).
Implicit Types ids : list string.

Lemma dget_keyed ids k : dget k (map (λ i, (i, f i)) ids) = if decide (k ∈ ids) then Some (f k) else None.
Proof.
  induction ids as [|i ids IH]; cbn [map dget]; [by rewrite decide_False by set_solver|].
  destruct (String.eqb_spec k i) as [->|Hne]; [by rewrite decide_True by set_solver|]. rewrite IH.
  destruct (decide (k ∈ ids)), (decide (k ∈ i :: ids)); set_solver.
Qed.

Lemma dset_keyed ids k v (g : string → A) : NoDup ids → g k = v → (∀ i, i ≠ k → g i = f i) →
  dset k v (map (λ i, (i, f i)) ids) = map (λ i, (i, g i)) (firsts ids [k]).
Proof.
  intros Hnd Hk Hg. cbn [firsts]. case_bool_decide as Hin.
  - induction Hnd as [|i ids Hi Hnd IH]; [set_solver|]. cbn [map dset].
    destruct (String.eqb_spec k i) as [->|Hne].
    + rewrite Hk. f_equal. apply map_ext_in. intros i' Hi'. rewrite Hg; [done|]. intros ->.
      by apply Hi, list_elem_of_In.
    + rewrite IH by set_solver. by rewrite (Hg i) by done.
  - clear Hnd. induction ids as [|i ids IH]; cbn [map app dset]; [by rewrite Hk|].
    destruct (String.eqb_spec k i) as [->|Hne]; [set_solver|]. rewrite IH by set_solver. by rewrite (Hg i) by done.
Qed.
End keyed.

Lemma filter_snoc {A} (p : A → bool) l x : List.filter p (l ++ [x]) = List.filter p l ++ (if p x then [x] else []).
Proof. rewrite List.filter_app. cbn. by destruct (p x). Qed.

(** Objects never observed have no payload and no operation. *)
Lemma unobserved recs oid : oid ∉ object_ids recs → List.filter (observed oid) recs = [].
Proof.
  intros Hn. destruct (List.filter (observed oid) recs) as [|r l] eqn:E; [done|]. destruct Hn.
  assert (r ∈ List.filter (observed oid) recs) as Hr by (rewrite E; by left).
  apply list_elem_of_In, filter_In in Hr as [Hr Hob]. unfold observed in Hob.
  apply andb_true_iff in Hob as [Ho%bool_decide_eq_true Hw]. apply firsts_elem. right.
  apply list_elem_of_omap. exists r. split; [|done]. apply list_elem_of_In, filter_In. done.
Qed.

Lemma observe_step recs r : has_bytes r →
  observe (map (summary_of recs) (object_ids recs)) r = Ok (map (summary_of (recs ++ [r])) (object_ids (recs ++ [r]))).
Proof.
  intros Hb.
  assert ((∀ oid, observed oid r = false) → omap object_of (if wanted r then [r] else []) = [] →
    map (summary_of recs) (object_ids recs) = map (summary_of (recs ++ [r])) (object_ids (recs ++ [r]))) as Hskip.
  { intros Hno Hnil. assert (object_ids (recs ++ [r]) = object_ids recs) as ->.
    { unfold object_ids. by rewrite filter_snoc, omap_app, Hnil, app_nil_r. }
    apply map_ext. intros oid. unfold summary_of, payload_of, ops_of. by rewrite filter_snoc, Hno, app_nil_r. }
  unfold observe. destruct (object_of r) as [oid|] eqn:Eo.
  2:{ f_equal. apply Hskip; [|by destruct (wanted r); cbn; rewrite ?Eo]. intros oid. unfold observed. by rewrite Eo. }
  assert (observed oid r = wanted r) as Hobs by (unfold observed; by rewrite Eo, bool_decide_true).
  destruct (s_op r) as [op|] eqn:Ep.
  2:{ assert (wanted r = false) as Hw by (unfold wanted; by rewrite Ep).
      f_equal. apply Hskip; [|by rewrite Hw]. intros o. unfold observed. by rewrite Hw, andb_false_r. }
  assert (wanted r = replayable op && negb (s_error r)) as Hw by (unfold wanted; by rewrite Ep).
  destruct (negb (replayable op) || s_error r) eqn:En.
  { assert (wanted r = false) as Hw' by (rewrite Hw; by destruct (replayable op), (s_error r)).
    f_equal. apply Hskip; [|by rewrite Hw']. intros o. unfold observed. by rewrite Hw', andb_false_r. }
  assert (wanted r = true) as Hw' by (rewrite Hw; by destruct (replayable op), (s_error r)).
  destruct (Hb Hw') as [n En']. rewrite En'. f_equal.
  set (obj := λ l i, mkObject (payload_of l i) (ops_of l i)).
  change (map (summary_of ?l) ?ids) with (map (λ i, (i, obj l i)) ids).
  assert (object_ids (recs ++ [r]) = firsts (object_ids recs) [oid]) as ->.
  { unfold object_ids. rewrite filter_snoc, Hw', omap_app, firsts_app. cbn. by rewrite Eo. }
  rewrite dget_keyed.
  assert (default (mkObject 0 []) (if decide (oid ∈ object_ids recs) then Some (obj recs oid) else None) = obj recs oid) as ->.
  { destruct (decide _) as [|Hn]; [done|]. unfold obj, payload_of, ops_of. by rewrite (unobserved _ _ Hn). }
  apply dset_keyed; [apply firsts_NoDup; constructor| |].
  - unfold obj, payload_of, ops_of. rewrite filter_snoc, Hobs, Hw', !omap_app. cbn. rewrite En', Ep.
    rewrite foldl_app, firsts_app. done.
  - intros i Hne. unfold obj, payload_of, ops_of. rewrite filter_snoc.
    assert (observed i r = false) as ->; [|by rewrite app_nil_r].
    unfold observed. rewrite Eo, bool_decide_false; [done|congruence].
Qed.

Lemma objects_of_Ok recs : Forall has_bytes recs → objects_of recs = Ok (map (summary_of recs) (object_ids recs)).
Proof.
  unfold objects_of. induction recs as [|r recs IH] using rev_ind; [done|]. intros [Hrs Hr]%Forall_app.
  rewrite foldM_app, IH by done. cbn [mbind res_bind foldM]. apply Forall_cons in Hr as [Hr _].
  by rewrite observe_step.
Qed.

Lemma foldl_max x l : (∀ y, y ∈ x :: l → y ≤ foldl Z.max x l) ∧ foldl Z.max x l ∈ x :: l.
Proof.
  revert x. induction l as [|z l IH]; intros x; cbn [foldl]; [set_solver|].
  destruct (IH (Z.max x z)) as [Hle Hin]. split.
  - intros y Hy. assert (Z.max x z ≤ foldl Z.max (Z.max x z) l) by (apply Hle; by left).
    rewrite !elem_of_cons in Hy. destruct Hy as [->|[->|Hy]]; [lia..|]. apply Hle. by right.
  - rewrite elem_of_cons in Hin. destruct Hin as [->|Hin]; [|set_solver].
    destruct (Z.max_spec x z) as [[_ ->]|[_ ->]]; set_solver.
Qed.

Lemma max_payload_spec l : l ≠ [] → (∀ o, o ∈ l → o_payload o ≤ max_payload l) ∧ ∃ o, o ∈ l ∧ o_payload o = max_payload l.
Proof.
  destruct l as [|o l]; [done|]. intros _. cbn [max_payload].
  destruct (foldl_max (o_payload o) (map o_payload l)) as [Hle Hin]. split.
  - intros o' Ho'. apply Hle. change (o_payload o :: map o_payload l) with (map o_payload (o :: l)).
    apply list_elem_of_In, in_map. by apply list_elem_of_In.
  - change (o_payload o :: map o_payload l) with (map o_payload (o :: l)) in Hin.
    apply list_elem_of_In, in_map_iff in Hin as (o' & Ho' & Hin). exists o'. split; [by apply list_elem_of_In|done].
Qed.

Lemma numbered_snd {A} i (l : list A) : map snd (numbered i l) = l.
Proof. revert i. induction l as [|x l IH]; intros i; cbn; [done|]. by rewrite IH. Qed.

Lemma numbered_fst {A} i (l : list A) : map fst (numbered i l) = seqZ i (Z.of_nat (length l)).
Proof.
  revert i. induction l as [|x l IH]; intros i; cbn [numbered map length]; [done|].
  rewrite seqZ_cons by lia. rewrite IH. cbn [fst]. do 2 f_equal; lia.
Qed.

(** the manifest of a captured run lists each object that was stored or
    loaded without an error once, numbered in the order of first use, with the
    largest size observed and its operations in the order observed; without a
    given slot size, slots are the least whole number of blocks that holds
    the largest object and its header. *)
Theorem manifest_faithful recs header align :
  Forall has_bytes recs → object_ids recs ≠ [] → 0 < align →
  ∃ m, sem2manifest recs 0 header align = Ok m ∧
    map snd (m_objects m) = map (λ oid, mkObject (payload_of recs oid) (ops_of recs oid)) (object_ids recs) ∧
    map fst (m_objects m) = seqZ 0 (Z.of_nat (length (object_ids recs))) ∧ NoDup (object_ids recs) ∧
    (align | m_slot m) ∧ (∀ o, o ∈ map snd (m_objects m) → o_payload o + header ≤ m_slot m) ∧
    ∃ o, o ∈ map snd (m_objects m) ∧ m_slot m < o_payload o + header + align.
Proof.
  intros Hb Hne Ha. unfold sem2manifest. rewrite objects_of_Ok by done. cbn [mbind res_bind].
  assert (map snd (map (summary_of recs) (object_ids recs)) =
    map (λ oid, mkObject (payload_of recs oid) (ops_of recs oid)) (object_ids recs)) as Hsnd by (by rewrite map_map).
  set (objs := map (λ oid, mkObject _ _) (object_ids recs)) in *.
  assert (objs ≠ []) as Hno by (unfold objs; by destruct (object_ids recs)).
  unfold slot_of. cbn [Z.eqb]. destruct (Z.eqb_spec align 0); [lia|]. rewrite Hsnd.
  set (slot := (max_payload objs + header + align - 1) / align * align).
  exists (mkManifest slot (numbered 0 objs)). cbn [m_slot m_objects]. rewrite numbered_snd, numbered_fst.
  assert (length objs = length (object_ids recs)) as -> by (unfold objs; apply length_map).
  destruct (round_up_spec (max_payload objs + header) align Ha) as [Hdiv Hbnd]. change (round_up _ align) with slot in *.
  destruct (max_payload_spec objs Hno) as [Hle (o & Ho & Heq)].
  split; [by destruct (object_ids recs)|]. split_and!; try done.
  - apply firsts_NoDup. constructor.
  - intros o' Ho'. specialize (Hle o' Ho'). lia.
  - exists o. split; [done|]. lia.
Qed.

Definition sample_recs : list sem_record :=
  [mkSem (Some "a") None (Some 1) (Some "store") (Some 700) None false;
   mkSem None (Some "b") (Some 2) (Some "store") (Some 900) None false;
   mkSem (Some "a") None (Some 3) (Some "load") (Some 800) None false;
   mkSem (Some "c") None (Some 4) (Some "store") None None true].

Lemma manifest_faithful_witness : ∃ m, sem2manifest sample_recs 0 512 512 = Ok m ∧
  map snd (m_objects m) = [mkObject 800 ["store"; "load"]; mkObject 900 ["store"]].
Proof.
  destruct (manifest_faithful sample_recs 512 512) as (m & Hm & Hs & _).
  - do 4 (constructor; [intros Hw; first [eexists; reflexivity|by vm_compute in Hw]|]). constructor.
  - vm_compute. done.
  - done.
  - exists m. split; [exact Hm|]. rewrite Hs. vm_compute. reflexivity.
Defined.

(** ** The check counts the agreements *)

(** The sizes of the commands of the trace that carry the id. *)
Definition commands_of (trace : list nvme_event) (tid : Z) : list Z :=
  map v_bytes (List.filter (λ o, bool_decide (v_type o = Some "nvme_cmd") && (Z.shiftr (v_user_data o) 32 =? tid)) trace).

Definition measure_of (l : list Z) : measure := mkMeasure (Z.of_nat (length l)) (sum_of l) l.

Lemma measure_of_snoc l n : add_measure (measure_of l) n = measure_of (l ++ [n]).
Proof. unfold add_measure, measure_of. rewrite length_app, sum_of_app. cbn. f_equal; lia. Qed.

Lemma measure_all_spec trace :
  untagged (measure_all trace) = measure_of (commands_of trace 0) ∧
  ∀ tid, tid ≠ 0 → default no_measure (by_trace (measure_all trace) !! tid) = measure_of (commands_of trace tid).
Proof.
  unfold measure_all. induction trace as [|o trace [IHu IHt]] using rev_ind; [done|].
  rewrite foldl_app. cbn [foldl]. set (st := foldl measure_event _ trace) in *.
  assert (∀ tid, commands_of (trace ++ [o]) tid = commands_of trace tid ++
    (if bool_decide (v_type o = Some "nvme_cmd") && (Z.shiftr (v_user_data o) 32 =? tid) then [v_bytes o] else [])) as Hc.
  { intros tid. unfold commands_of. rewrite filter_snoc, map_app. by destruct (_ && _). }
  unfold measure_event. setoid_rewrite Hc. destruct (bool_decide (v_type o = Some "nvme_cmd")); cbn [negb andb].
  2:{ setoid_rewrite app_nil_r. done. }
  destruct (Z.eqb_spec (Z.shiftr (v_user_data o) 32) 0) as [E|E]; cbn [untagged by_trace].
  - rewrite IHu, measure_of_snoc. split; [done|]. intros tid Ht. rewrite E.
    destruct (Z.eqb_spec 0 tid); [done|]. rewrite app_nil_r. auto.
  - split; [by rewrite app_nil_r|]. intros tid Ht. destruct (Z.eqb_spec (Z.shiftr (v_user_data o) 32) tid) as [->|Hne].
    + rewrite lookup_insert_eq. cbn [default from_option id]. by rewrite IHt, measure_of_snoc.
    + rewrite lookup_insert_ne, app_nil_r by done. auto.
Qed.

Section validate.
Context (header max_xfer mdts lba : Z) (trace : list nvme_event).

(** The projection of a record, and whether the trace agrees with it. *)
Definition projected (s : sem_record) : projection :=
  match project (default 0 (s_bytes s)) (default "" (s_op s)) header max_xfer mdts lba with
  | Ok p => p
  | Raise _ => mkProjection "" 0 0 0 0 [] 0 0
  end.

Definition projectable (kv : Z * sem_record) : Prop := kv.1 ≠ 0 ∧ ∃ n, s_bytes kv.2 = Some n ∧
  is_ok (project n (default "" (s_op kv.2)) header max_xfer mdts lba) = true.

Definition same_count (kv : Z * sem_record) : bool :=
  Z.of_nat (length (commands_of trace kv.1)) =? nvme_commands (projected kv.2).
Definition same_bytes (kv : Z * sem_record) : bool :=
  sum_of (commands_of trace kv.1) =? total_device_bytes (projected kv.2).
Definition same_sizes (kv : Z * sem_record) : bool :=
  bool_decide (stable_sort Z.le (commands_of trace kv.1) = stable_sort Z.le (command_sizes (projected kv.2))).
Definition bytes_error (kv : Z * sem_record) : Z :=
  Z.abs (sum_of (commands_of trace kv.1) - total_device_bytes (projected kv.2)).

Definition count {A} (p : A → bool) (l : list A) : Z := Z.of_nat (length (List.filter p l)).

Lemma count_cons {A} (p : A → bool) x l : count p (x :: l) = b2z (p x) + count p l.
Proof. unfold count. cbn [List.filter]. destruct (p x); cbn [b2z length]; lia. Qed.

Lemma judge_Ok v kv : projectable kv →
  judge header max_xfer mdts lba (measure_all trace) v kv =
  Ok (mkVerdict (exact v + b2z (same_count kv && same_bytes kv)) (cmd_exact v + b2z (same_count kv))
        (size_exact v + b2z (same_sizes kv)) (tot_meas_bytes v + sum_of (commands_of trace kv.1))
        (tot_abs_err v + bytes_error kv)).
Proof.
  destruct kv as [tid s]. intros (Ht & n & Hn & Hp). cbn [fst snd] in *. unfold judge.
  unfold same_count, same_bytes, same_sizes, bytes_error, projected. cbn [fst snd]. rewrite Hn. change (default 0 (Some n)) with n.
  cbn [mbind res_bind]. destruct (project n _ header max_xfer mdts lba) as [p|]; [|done]. cbn [mbind res_bind].
  rewrite (proj2 (measure_all_spec trace) tid Ht). done.
Qed.

Lemma judge_all l v : Forall projectable l →
  foldM (judge header max_xfer mdts lba (measure_all trace)) v l =
  Ok (mkVerdict (exact v + count (λ kv, same_count kv && same_bytes kv) l) (cmd_exact v + count same_count l)
        (size_exact v + count same_sizes l)
        (tot_meas_bytes v + sum_of (map (λ kv, sum_of (commands_of trace kv.1)) l))
        (tot_abs_err v + sum_of (map bytes_error l))).
Proof.
  intros Hl. revert v. induction Hl as [|kv l Hkv _ IH]; intros v.
  - destruct v. unfold count, sum_of. cbn. do 2 f_equal; lia.
  - cbn [foldM]. rewrite judge_Ok by done. cbn [mbind res_bind]. rewrite IH. cbn [exact cmd_exact size_exact tot_meas_bytes tot_abs_err].
    rewrite !count_cons. unfold sum_of. cbn [map foldr]. do 2 f_equal; lia.
Qed.

Lemma tally_perm {A} (p : A → bool) l k : l ≡ₚ k → count p l = count p k.
Proof. intros H. unfold count. induction H; cbn [List.filter]; repeat case_match; cbn [length]; lia. Qed.

Lemma sum_perm l k : l ≡ₚ k → sum_of l = sum_of k.
Proof. intros H. unfold sum_of. induction H; cbn [foldr]; lia. Qed.

Lemma same_sizes_perm kv : same_sizes kv = true ↔ commands_of trace kv.1 ≡ₚ command_sizes (projected kv.2).
Proof.
  unfold same_sizes. rewrite bool_decide_eq_true. split.
  - intros H. rewrite <- (stable_sort_Permutation Z.le (commands_of _ _)), H. apply stable_sort_Permutation.
  - intros H. apply (Sorted_unique Z.le); [apply Sorted_stable_sort, _..|]. by rewrite !stable_sort_Permutation.
Qed.

(** against a run whose records all project, the check returns and
    counts exactly: the records whose traced commands agree in number, in
    number and bytes, and as a multiset of sizes, and the sum of the byte
    differences; so a run that issued the projected commands scores all its
    records and no error, and commands without an id never count. *)
Theorem validation_counts recs : let l := map_to_list (sem_of recs) in
  Forall projectable l →
  ∃ v, validate header max_xfer mdts lba trace recs = Ok v ∧
    exact v = count (λ kv, same_count kv && same_bytes kv) l ∧ cmd_exact v = count same_count l ∧
    size_exact v = count same_sizes l ∧ tot_abs_err v = sum_of (map bytes_error l) ∧
    (∀ kv, same_sizes kv = true ↔ commands_of trace kv.1 ≡ₚ command_sizes (projected kv.2)) ∧
    ((∀ kv, kv ∈ l → commands_of trace kv.1 ≡ₚ command_sizes (projected kv.2)) →
     exact v = Z.of_nat (size (sem_of recs)) ∧ size_exact v = Z.of_nat (size (sem_of recs)) ∧ tot_abs_err v = 0).
Proof.
  cbv zeta. set (l := map_to_list (sem_of recs)). intros Hl. unfold validate. fold l.
  assert (stable_sort item_le l ≡ₚ l) as Hp by apply stable_sort_Permutation.
  eexists. split; [apply judge_all; by rewrite Hp|]. cbn [exact cmd_exact size_exact tot_meas_bytes tot_abs_err].
  rewrite !(tally_perm _ _ _ Hp), !Z.add_0_l, (sum_perm _ _ (Permutation_map bytes_error Hp)).
  split_and!; try done; [apply same_sizes_perm|]. intros Hall.
  assert (Z.of_nat (size (sem_of recs)) = Z.of_nat (length l)) as -> by (unfold l; by rewrite length_map_to_list).
  assert (∀ kv, kv ∈ l → same_sizes kv = true ∧ same_count kv && same_bytes kv = true ∧ bytes_error kv = 0) as Hagree.
  { intros kv Hkv. specialize (Hall kv Hkv). split; [by apply same_sizes_perm|].
    rewrite Forall_forall in Hl. destruct (Hl kv Hkv) as (_ & n & Hn & Hok).
    unfold same_count, same_bytes, bytes_error. rewrite (sum_perm _ _ Hall), (Permutation_length Hall).
    unfold projected in *. rewrite Hn in *. change (default 0 (Some n)) with n in *.
    assert (∀ p, project n (default "" (s_op kv.2)) header max_xfer mdts lba = Ok p →
      nvme_commands p = Z.of_nat (length (command_sizes p)) ∧ total_device_bytes p = sum_of (command_sizes p)) as Hproj.
    { intros p Hpr. unfold project in Hpr. res_inv. done. }
    destruct (project n (default "" (s_op kv.2)) header max_xfer mdts lba) as [p|]; [|done].
    destruct (Hproj p eq_refl) as [-> ->]. rewrite !Z.eqb_refl, Z.sub_diag. done. }
  clear -Hagree. induction l as [|kv l IH]; [done|]. destruct IH as (H1 & H2 & H3); [intros; apply Hagree; by right|].
  destruct (Hagree kv) as (E1 & E2 & E3); [by left|]. rewrite !count_cons, E1, E2, H1, H2. cbn [map b2z length].
  change (sum_of (?x :: ?k)) with (x + sum_of k). rewrite E3, H3. split_and!; lia.
Qed.
End validate.

Definition sample_device : list nvme_event :=
  [mkNvme (Some "nvme_cmd") (Z.shiftl 1 32) 4096; mkNvme (Some "nvme_cmd") (Z.shiftl 1 32 + 7) 1024;
   mkNvme (Some "nvme_cmd") 3 512; mkNvme (Some "open") (Z.shiftl 1 32) 9].

Definition sample_store : sem_record := mkSem (Some "a") None (Some 1) (Some "store") (Some 700) None false.

Lemma sample_items : map_to_list (sem_of [sample_store]) = [(1, sample_store)].
Proof. vm_compute. reflexivity. Qed.

Lemma validation_counts_witness : ∃ v,
  validate 4096 0 131072 512 sample_device [sample_store] = Ok v ∧ tot_abs_err v = 0.
Proof.
  destruct (validation_counts 4096 0 131072 512 sample_device [sample_store]) as (v & Hv & _ & _ & _ & He & _).
  - rewrite sample_items. constructor; [|constructor]. split; [done|]. exists 700. split; [reflexivity|].
    vm_compute. reflexivity.
  - exists v. split; [exact Hv|]. rewrite He, sample_items. vm_compute. reflexivity.
Defined.

(** An empty semantic trace: the report divides by the number of records. *)
Example empty_report_raises : rates (mkVerdict 0 0 0 0 0) 0 = Raise (Exn ZeroDivisionError "division by zero").
Proof. reflexivity. Qed.
End ReplayPlan.
