(* ===== verification/SyscallFilter.v ===== *)
(** * Filtering a system-call log

    [filter_syscall_log.py]: the records of the system-call monitor are reduced
    to what a replay needs.  The exits of [openat] give the entries their file
    descriptor, first in, first out per process; exits are dropped; a write to
    a descriptor that its process has not opened yet is held back until the
    matching [openat], when one follows within the window.  Records are JSON
    values, so every access can raise; identifiers are dictionary keys. *)

From stdpp Require Import prelude strings list sorting.
From Stdlib Require Import ZArith Lia Ascii.
From S2P Require Import Prelude PyText PyJson JsonText.
Local Open Scope Z_scope.

Module SyscallFilter.

Definition EXIT_FD : Z := 4294967295.
Definition EXIT_SIZE : Z := 1.
Definition DEFAULT_LOOKAHEAD : Z := 250.
Definition OPENAT_NR : Z := 257.
Definition CLOSE_NR : Z := 3.
Definition WRITE_NRS : list Z := [1; 18].

(** ** Records *)
Definition rec_pid (r : json) : res json :=
  tid ← get r "tid"; tgid ← get_default r "tgid" tid; get_default r "pid" tgid.

Definition is_generic_exit (r : json) : res bool :=
  nr ← get r "syscall_nr"; fd ← get_default r "fd" (JInt 0); size ← get_default r "size" (JInt 0);
  Ok (negb (py_eq nr (JInt OPENAT_NR)) && (py_eq fd (JInt (-1)) || py_eq fd (JInt EXIT_FD))
      && py_eq size (JInt EXIT_SIZE)).

Definition is_openat_exit (r : json) : res bool :=
  nr ← get r "syscall_nr"; name ← get_default r "filename" (JStr "");
  Ok (py_eq nr (JInt OPENAT_NR) && eq_str name "").

Definition is_openat_entry (r : json) : res bool :=
  nr ← get r "syscall_nr"; name ← get_default r "filename" (JStr "");
  Ok (py_eq nr (JInt OPENAT_NR) && negb (eq_str name "")).

Definition same_owner_openat_exit_for_fd (r owner_pid cap_fd : json) : res bool :=
  e ← is_openat_exit r; pid ← rec_pid r; ret ← get r "ret";
  Ok (e && py_eq pid owner_pid && py_eq ret cap_fd).

(** [v is not None and v >= 0] *)
Definition valid_fd (v : json) : res bool :=
  match v, num_of v with
  | JNull, _ => Ok false
  | _, Some _ => Ok (py_geb v (JInt 0))
  | _, None => Raise (Exn TypeError "'>=' not supported between instances")
  end.

(** [nr in WRITE_NRS], a set *)
Definition in_write_nrs (nr : json) : res bool :=
  if hashable nr then Ok (existsb (λ w, py_eq nr (JInt w)) WRITE_NRS) else unhashable.

(** [any(f(x) for x in l)] *)
Fixpoint anyM {A} (f : A → res bool) (l : list A) : res bool :=
  match l with
  | [] => Ok false
  | x :: l => b ← f x; if (b : bool) then Ok true else anyM f l
  end.

(** [[x for x in l if f(x)]] *)
Fixpoint filterM {A} (f : A → res bool) (l : list A) : res (list A) :=
  match l with
  | [] => Ok []
  | x :: l => b ← f x; k ← filterM f l; Ok (if (b : bool) then x :: k else k)
  end.

(** [l[i:j]] for an [i] that is not negative *)
Definition window_of {A} (l : list A) (i j : Z) : list A :=
  let n := Z.of_nat (length l) in
  let stop := if j <? 0 then Z.max 0 (j + n) else Z.min j n in
  take (Z.to_nat (stop - i)) (drop (Z.to_nat i) l).

(** ** The tables

    A table keyed by a pair of identifiers keeps the pair itself beside the
    keys under which it is stored: it is sorted by it at the end. *)
Record pending := mkPending { p_key : hkey * hkey; p_id : json * json; p_writes : list json }.

Fixpoint pend_get (k : hkey * hkey) (t : list pending) : list json :=
  match t with
  | [] => []
  | p :: t => if decide (p_key p = k) then p_writes p else pend_get k t
  end.

Fixpoint pend_add (k : hkey * hkey) (id : json * json) (w : json) (t : list pending) : list pending :=
  match t with
  | [] => [mkPending k id [w]]
  | p :: t => if decide (p_key p = k) then mkPending (p_key p) (p_id p) (p_writes p ++ [w]) :: t
              else p :: pend_add k id w t
  end.

Definition pend_pop (k : hkey * hkey) (t : list pending) : list pending :=
  List.filter (λ p, negb (bool_decide (p_key p = k))) t.

Record flt := mkFlt {
  openat_exit_queue : list (hkey * list json);
  pid_registered : list (hkey * list hkey);
  deferred_writes : list pending;
  kept : list json;
  skipped_exit : Z; skipped_openat_exit : Z; openat_patched : Z;
  deferred_count : Z; flushed_count : Z; emitted_unregistered : Z }.

Definition keep (st : flt) (r : json) : flt :=
  mkFlt (openat_exit_queue st) (pid_registered st) (deferred_writes st) (kept st ++ [r])
    (skipped_exit st) (skipped_openat_exit st) (openat_patched st)
    (deferred_count st) (flushed_count st) (emitted_unregistered st).

(** The descriptors open in a process; a process without an entry has none. *)
Definition fds_of (st : flt) (pid : hkey) : list hkey := default [] (hget pid (pid_registered st)).

Definition set_fds (st : flt) (pid : hkey) (fds : list hkey) : flt :=
  mkFlt (openat_exit_queue st) (hset pid fds (pid_registered st)) (deferred_writes st) (kept st)
    (skipped_exit st) (skipped_openat_exit st) (openat_patched st)
    (deferred_count st) (flushed_count st) (emitted_unregistered st).

(** [dw.pop("_deferred_reason", None)] *)
Definition pop_reason (r : json) : json :=
  match r with
  | JObj d => JObj (List.filter (λ kv, negb (String.eqb kv.1 "_deferred_reason")) d)
  | _ => r
  end.

(** [dict(r)] with a field set *)
Definition with_field (r : json) (k : string) (v : json) : json :=
  match r with JObj d => JObj (dset k v d) | _ => r end.

(** Pass 1: the results of the [openat] exits, per process. *)
Definition collect_exit (q : list (hkey * list json)) (r : json) : res (list (hkey * list json)) :=
  e ← is_openat_exit r;
  if (e : bool) then
    pid ← rec_pid r; ret ← get_default r "ret" (JInt (-1)); k ← hkey_of pid;
    Ok (hset k (default [] (hget k q) ++ [ret]) q)
  else Ok q.

(** ** One record of the second pass *)

(** An entry takes the oldest unused exit of its process. *)
Definition patch_entry (st : flt) (k : hkey) (r : json) : res (flt * json) :=
  match hget k (openat_exit_queue st) with
  | Some (exit_ret :: rest) =>
      ok ← valid_fd exit_ret;
      let patched := if (ok : bool) then 1 else 0 in
      Ok (mkFlt (hset k rest (openat_exit_queue st)) (pid_registered st) (deferred_writes st) (kept st)
            (skipped_exit st) (skipped_openat_exit st) (openat_patched st + patched)
            (deferred_count st) (flushed_count st) (emitted_unregistered st),
          if ok then with_field r "ret" exit_ret else r)
  | _ => Ok (st, r)
  end.

Definition flush (st : flt) (key : hkey * hkey) : flt :=
  let ws := pend_get key (deferred_writes st) in
  mkFlt (openat_exit_queue st) (pid_registered st) (pend_pop key (deferred_writes st))
    (kept st ++ map pop_reason ws)
    (skipped_exit st) (skipped_openat_exit st) (openat_patched st)
    (deferred_count st) (flushed_count st + Z.of_nat (length ws)) (emitted_unregistered st).

Definition openat_entry (st : flt) (pid r : json) : res flt :=
  k ← hkey_of pid;
  sr ← patch_entry st k r;
  let '(st, r) := sr in
  cap_fd ← get_default r "ret" (JInt (-1));
  ok ← valid_fd cap_fd;
  st ← (if (ok : bool) then f ← hkey_of cap_fd; Ok (set_fds st k (f :: fds_of st k)) else Ok st);
  let st := keep st r in
  f ← hkey_of cap_fd;
  Ok (flush st (k, f)).

Definition close_entry (st : flt) (pid r : json) : res flt :=
  cap_fd ← get_default r "fd" (JInt (-1));
  st ← (if py_eq cap_fd (JInt (-1)) || py_eq cap_fd (JInt EXIT_FD) then Ok st
        else k ← hkey_of pid; f ← hkey_of cap_fd;
             Ok (set_fds st k (List.filter (λ x, negb (bool_decide (x = f))) (fds_of st k))));
  Ok (keep st r).

Definition defer (st : flt) (k f : hkey) (pid cap_fd r : json) : flt :=
  let dw := with_field r "_deferred_reason" (JStr "same-pid-openat-exit-lookahead") in
  mkFlt (openat_exit_queue st) (pid_registered st)
    (pend_add (k, f) (pid, cap_fd) dw (deferred_writes st)) (kept st)
    (skipped_exit st) (skipped_openat_exit st) (openat_patched st)
    (deferred_count st + 1) (flushed_count st) (emitted_unregistered st).

Definition emit_unregistered (st : flt) (r : json) : flt :=
  let st := keep st r in
  mkFlt (openat_exit_queue st) (pid_registered st) (deferred_writes st) (kept st)
    (skipped_exit st) (skipped_openat_exit st) (openat_patched st)
    (deferred_count st) (flushed_count st) (emitted_unregistered st + 1).

Definition write_entry (data : list json) (lookahead : Z) (st : flt) (idx : nat) (pid r : json) : res flt :=
  cap_fd ← get_default r "fd" (JInt (-1));
  k ← hkey_of pid; f ← hkey_of cap_fd;
  if hmem f (fds_of st k) then Ok (keep st r) else
  let i := Z.of_nat idx + 1 in
  has_same_pid_openat ← anyM (λ rec, same_owner_openat_exit_for_fd rec pid cap_fd) (window_of data i (i + lookahead));
  Ok (if (has_same_pid_openat : bool) then defer st k f pid cap_fd r else emit_unregistered st r).

Definition drop_openat_exit (st : flt) : flt :=
  mkFlt (openat_exit_queue st) (pid_registered st) (deferred_writes st) (kept st)
    (skipped_exit st) (skipped_openat_exit st + 1) (openat_patched st)
    (deferred_count st) (flushed_count st) (emitted_unregistered st).
Definition drop_generic_exit (st : flt) : flt :=
  mkFlt (openat_exit_queue st) (pid_registered st) (deferred_writes st) (kept st)
    (skipped_exit st + 1) (skipped_openat_exit st) (openat_patched st)
    (deferred_count st) (flushed_count st) (emitted_unregistered st).

Definition filter_record (data : list json) (lookahead : Z) (st : flt) (idx : nat) (r : json) : res flt :=
  nr ← get r "syscall_nr"; pid ← rec_pid r;
  oe ← is_openat_exit r;
  if (oe : bool) then Ok (drop_openat_exit st) else
  ge ← is_generic_exit r;
  if (ge : bool) then Ok (drop_generic_exit st) else
  en ← is_openat_entry r;
  if (en : bool) then openat_entry st pid r else
  if py_eq nr (JInt CLOSE_NR) then close_entry st pid r else
  w ← in_write_nrs nr;
  if (w : bool) then write_entry data lookahead st idx pid r else Ok (keep st r).

(** ** The writes that found no [openat], in the order of their keys

    Tuples are compared at the first component that differs; identifiers of
    different kinds have no order. *)
Definition is_num (v : json) : bool := match num_of v with Some _ => true | None => false end.
Definition ordered (x y : json) : bool := (is_str x && is_str y) || (is_num x && is_num y).

Definition comparable (p q : pending) : bool :=
  if decide ((p_key p).1 = (p_key q).1) then
    bool_decide ((p_key p).2 = (p_key q).2) || ordered (p_id p).2 (p_id q).2
  else ordered (p_id p).1 (p_id q).1.

Definition value_le (x y : json) : Prop := if is_str x then str_le x y else num_le x y.
#[export] Instance value_le_dec : RelDecision value_le.
Proof. intros x y. unfold value_le. destruct (is_str x); apply _. Defined.

Definition pending_le (p q : pending) : Prop :=
  if decide ((p_key p).1 = (p_key q).1) then value_le (p_id p).2 (p_id q).2
  else value_le (p_id p).1 (p_id q).1.
#[export] Instance pending_le_dec : RelDecision pending_le.
Proof. intros p q. unfold pending_le. destruct (decide _); apply _. Defined.

Definition sort_pending (t : list pending) : res (list pending) :=
  if forallb (λ p, forallb (comparable p) t) t then Ok (stable_sort pending_le t)
  else Raise (Exn TypeError "'<' not supported between instances").

Definition late_writes (t : list pending) : list json := concat (map (λ p, map pop_reason (p_writes p)) t).

(** ** The program *)
Record report := mkReport {
  exits_found : Z; total_input : Z; n_kept : Z; generic_exits_dropped : Z; openat_exits_dropped : Z;
  entries_patched : Z; writes_deferred : Z; writes_flushed : Z; writes_unregistered : Z; late_deferred : Z }.

Definition select (data : list json) (target_process : list string) (target_pid : option Z) : res (list json) :=
  data ← match target_process with
         | [] => Ok data
         | _ => filterM (λ r, v ← get r "process_name"; k ← hkey_of v; Ok (hmem k (map KStr target_process))) data
         end;
  match target_pid with
  | None => Ok data
  | Some p => filterM (λ r, v ← rec_pid r; Ok (py_eq v (JInt p))) data
  end.

Definition new_filter (q : list (hkey * list json)) : flt := mkFlt q [] [] [] 0 0 0 0 0 0.

Definition filter_records (data : list json) (lookahead : Z) : res (list json * report) :=
  q ← foldM collect_exit [] data;
  st ← foldiM (filter_record data lookahead) 0 (new_filter q) data;
  late ← sort_pending (deferred_writes st);
  let out := kept st ++ late_writes late in
  Ok (out, mkReport (foldr (λ e n, Z.of_nat (length e.2) + n) 0 q) (Z.of_nat (length data)) (Z.of_nat (length out))
             (skipped_exit st) (skipped_openat_exit st) (openat_patched st)
             (deferred_count st) (flushed_count st) (emitted_unregistered st)
             (Z.of_nat (length (late_writes late)))).

(** The input and the output are the texts of the two files. *)
Definition filter_log (input : string) (target_process : list string) (target_pid : option Z) (lookahead : Z)
    : res (string * report) :=
  doc ← loads input;
  data ← iterate doc;
  data ← select data target_process target_pid;
  kr ← filter_records data lookahead;
  Ok (enc Indent2 0 (JList kr.1), kr.2).

End SyscallFilter.
