(* ===== verification/SyscallFilterCorrect.v ===== *)
(** * What the system-call filter keeps, and in which order

    The filter against a reference without tables: each question that the
    program answers from its state (is the descriptor open, which result
    belongs to this entry, which writes wait for this key) is answered here
    from the log itself.  On records as the monitor writes them, the filter
    succeeds, its output is the records at the positions [order] in the form
    [out], and this is a permutation of the records that are not exits. *)

From stdpp Require Import prelude strings list sorting.
From Stdlib Require Import ZArith Lia Ascii.
From S2P Require Import Prelude PyText PyJson JsonText SyscallFilter.
Local Open Scope Z_scope.
Import SyscallFilter.

(** ** Records as events *)
Inductive event :=
  | OpenExit (p ret : Z) | Exit | Open (p ret : Z) | Close (p fd : Z) | Write (p fd : Z) | Other.
#[export] Instance event_eq_dec : EqDecision event.
Proof. solve_decision. Defined.

Definition int_at (d : list (string * json)) (k : string) : option Z :=
  match dget k d with Some (JInt z) => Some z | _ => None end.
Definition str_at (d : list (string * json)) (k : string) : option string :=
  match dget k d with Some (JStr s) => Some s | _ => None end.

Definition classify (p nr fd size ret : Z) (name : string) : event :=
  if nr =? OPENAT_NR then (if String.eqb name "" then OpenExit p ret else Open p ret)
  else if ((fd =? -1) || (fd =? EXIT_FD)) && (size =? EXIT_SIZE) then Exit
  else if nr =? CLOSE_NR then Close p fd
  else if (nr =? 1) || (nr =? 18) then Write p fd else Other.

(** A complete record has all the fields that the filter reads, each of its
    type, and not the mark that the filter itself uses. *)
Definition view (r : json) : option event :=
  match r with
  | JObj d =>
      p ← int_at d "pid"; nr ← int_at d "syscall_nr"; fd ← int_at d "fd"; size ← int_at d "size";
      ret ← int_at d "ret"; name ← str_at d "filename"; comm ← str_at d "process_name";
      if dhas "_deferred_reason" d then None else Some (classify p nr fd size ret name)
  | _ => None
  end.

(** ** The reference *)

(** The results of the [openat] exits of a process, and the number of its
    entries: the entry after [pre] has the result at that position, when it is
    a descriptor. *)
Definition rets (p : Z) (evs : list event) : list Z :=
  omap (λ e, match e with OpenExit q v => if decide (p = q) then Some v else None | _ => None end) evs.
Definition is_open_of (p : Z) (e : event) : bool :=
  match e with Open q _ => bool_decide (p = q) | _ => false end.
Definition opens (p : Z) (evs : list event) : nat := length (List.filter (is_open_of p) evs).
Definition given (evs pre : list event) (p : Z) : option Z :=
  v ← rets p evs !! opens p pre; if 0 <=? v then Some v else None.

Definition resolve (evs pre : list event) (e : event) : event :=
  match e with Open p ret => Open p (default ret (given evs pre p)) | _ => e end.
Definition resolved (evs : list event) : list event := imap (λ i e, resolve evs (take i evs) e) evs.

Definition patched (evs pre : list event) (e : event) (r : json) : json :=
  match e with
  | Open p _ => match given evs pre p with Some v => with_field r "ret" (JInt v) | None => r end
  | _ => r
  end.

(** The descriptor [f] is open in [p] after [h]: the last word on it was an
    entry that returned it, and not a close. *)
Definition opened_step (p f : Z) (b : bool) (e : event) : bool :=
  match e with
  | Open q g => if bool_decide (q = p ∧ g = f) && (0 <=? f) then true else b
  | Close q g => if bool_decide (q = p ∧ g = f) && negb ((f =? -1) || (f =? EXIT_FD)) then false else b
  | _ => b
  end.
Definition opened (h : list event) (p f : Z) : bool := foldl (opened_step p f) false h.

Section reference.
Context (lookahead : Z) (R : list event).

(** A write is held back when its descriptor is not open and an exit of its
    process with this result is among the next records. *)
Definition held_event (i : nat) (e : event) : bool :=
  match e with
  | Write p f => negb (opened (take i R) p f) &&
                 bool_decide (OpenExit p f ∈ take (Z.to_nat lookahead) (drop (S i) R))
  | _ => false
  end.
Definition held (i : nat) : bool := match R !! i with Some e => held_event i e | None => false end.

Definition written (i : nat) (k : Z * Z) : bool := bool_decide (R !! i = Some (Write k.1 k.2)).

(** The held writes of a key that wait at position [i]: no entry has returned
    the key since. *)
Definition waits (i : nat) (k : Z * Z) (j : nat) : bool :=
  held j && written j k && bool_decide (Open k.1 k.2 ∉ take (i - S j) (drop (S j) R)).
Definition waiting (i : nat) (k : Z * Z) : list nat := List.filter (waits i k) (seq 0 i).

Definition emitted (i : nat) : list nat :=
  match R !! i with
  | None | Some (OpenExit _ _) | Some Exit => []
  | Some (Open p f) => i :: waiting i (p, f)
  | Some _ => if held i then [] else [i]
  end.
Definition order_to (i : nat) : list nat := concat (map emitted (seq 0 i)).

(** At the end, the keys for which writes still wait. *)
Definition key_of (i : nat) : option (Z * Z) :=
  match R !! i with Some (Write p f) => Some (p, f) | _ => None end.
Definition id_le (a b : Z * Z) : Prop := a.1 < b.1 ∨ (a.1 = b.1 ∧ a.2 ≤ b.2).
#[export] Instance id_le_dec : RelDecision id_le.
Proof. intros a b. unfold id_le. apply _. Defined.
Definition late_keys : list (Z * Z) :=
  stable_sort id_le (List.filter (λ k, negb (bool_decide (waiting (length R) k = [])))
                      (remove_dups (omap key_of (seq 0 (length R))))).
Definition order : list nat := order_to (length R) ++ concat (map (waiting (length R)) late_keys).
End reference.

(** The record at a position, as it is written. *)
Definition out (data : list json) (evs : list event) (i : nat) : json :=
  match data !! i, evs !! i with
  | Some r, Some e => patched evs (take i evs) e r
  | _, _ => JNull
  end.

Definition is_exit (e : event) : bool := match e with OpenExit _ _ | Exit => true | _ => false end.
Definition survivors (evs : list event) : list nat :=
  List.filter (λ i, match evs !! i with Some e => negb (is_exit e) | None => false end) (seq 0 (length evs)).

Definition selected (procs : list string) (pid : option Z) (r : json) : bool :=
  match r with
  | JObj d =>
      match procs with [] => true | _ => existsb (λ s, eq_str (getd d "process_name") s) procs end &&
      match pid with None => true | Some p => py_eq (getd d "pid") (JInt p) end
  | _ => false
  end.

(** ** Keys of integers *)
Definition kz (z : Z) : hkey := match hkey_of (JInt z) with Ok k => k | Raise _ => KNone end.

Lemma hkey_int z : hkey_of (JInt z) = Ok (kz z).
Proof. unfold kz. cbn. by destruct (odd_part z 0). Qed.

#[export] Instance kz_inj : Inj (=) (=) kz.
Proof. intros a b H. apply hkey_int_inj. by rewrite !hkey_int, H. Qed.

Definition kk (k : Z * Z) : hkey * hkey := (kz k.1, kz k.2).

#[export] Instance kk_inj : Inj (=) (=) kk.
Proof. intros [a b] [c d] [= H1%(inj kz) H2%(inj kz)]. by subst. Qed.

(** ** The accesses to a complete record *)
Record fields (r : json) (p nr fd size ret : Z) (name : string) : Prop := mkFields {
  f_pid : rec_pid r = Ok (JInt p);
  f_nr : get r "syscall_nr" = Ok (JInt nr);
  f_fd v : get_default r "fd" v = Ok (JInt fd);
  f_size v : get_default r "size" v = Ok (JInt size);
  f_ret : get r "ret" = Ok (JInt ret);
  f_retd v : get_default r "ret" v = Ok (JInt ret);
  f_name v : get_default r "filename" v = Ok (JStr name) }.

Lemma int_at_Some d k z : int_at d k = Some z → dget k d = Some (JInt z).
Proof. unfold int_at. destruct (dget k d) as [[]|]; congruence. Qed.
Lemma str_at_Some d k s : str_at d k = Some s → dget k d = Some (JStr s).
Proof. unfold str_at. destruct (dget k d) as [[]|]; congruence. Qed.

Ltac dgets := repeat match goal with
  | H : int_at _ _ = Some _ |- _ => apply int_at_Some in H
  | H : str_at _ _ = Some _ |- _ => apply str_at_Some in H
  end.

Lemma record_inv r e : view r = Some e → ∃ d p nr fd size ret name comm, r = JObj d ∧
  dhas "_deferred_reason" d = false ∧ dget "process_name" d = Some (JStr comm) ∧ dget "pid" d = Some (JInt p) ∧
  fields r p nr fd size ret name ∧ e = classify p nr fd size ret name.
Proof.
  destruct r as [| | | | | |d]; try done. cbn. intros H. simplify_option_eq. dgets. destruct (dhas _ d) eqn:Hd; [done|].
  simplify_eq. eexists d, _, _, _, _, _, _, _. do 4 (split; [done|]). split; [|done].
  constructor; intros; unfold rec_pid; cbn; unfold getd; simplify_option_eq; done.
Qed.

Section accesses.
Context (r : json) (p nr fd size ret : Z) (name : string) (F : fields r p nr fd size ret name).

Lemma generic_exit_view : is_generic_exit r =
  Ok (negb (nr =? OPENAT_NR) && ((fd =? -1) || (fd =? EXIT_FD)) && (size =? EXIT_SIZE)).
Proof.
  unfold is_generic_exit. rewrite (f_nr _ _ _ _ _ _ _ F). cbn [mbind res_bind].
  rewrite (f_fd _ _ _ _ _ _ _ F). cbn [mbind res_bind]. rewrite (f_size _ _ _ _ _ _ _ F). cbn [mbind res_bind].
  by rewrite !py_eq_int_int.
Qed.

Lemma openat_exit_view : is_openat_exit r = Ok ((nr =? OPENAT_NR) && String.eqb name "").
Proof.
  unfold is_openat_exit. rewrite (f_nr _ _ _ _ _ _ _ F). cbn [mbind res_bind].
  rewrite (f_name _ _ _ _ _ _ _ F). cbn [mbind res_bind]. by rewrite py_eq_int_int.
Qed.

Lemma openat_entry_view : is_openat_entry r = Ok ((nr =? OPENAT_NR) && negb (String.eqb name "")).
Proof.
  unfold is_openat_entry. rewrite (f_nr _ _ _ _ _ _ _ F). cbn [mbind res_bind].
  rewrite (f_name _ _ _ _ _ _ _ F). cbn [mbind res_bind]. by rewrite py_eq_int_int.
Qed.

Lemma write_nrs_view : in_write_nrs (JInt nr) = Ok ((nr =? 1) || (nr =? 18)).
Proof. unfold in_write_nrs. cbn [hashable WRITE_NRS existsb]. by rewrite !py_eq_int_int, orb_false_r. Qed.

Lemma same_owner_view q f : same_owner_openat_exit_for_fd r (JInt q) (JInt f) =
  Ok (bool_decide (classify p nr fd size ret name = OpenExit q f)).
Proof.
  unfold same_owner_openat_exit_for_fd. rewrite openat_exit_view. cbn [mbind res_bind].
  rewrite (f_pid _ _ _ _ _ _ _ F). cbn [mbind res_bind]. rewrite (f_ret _ _ _ _ _ _ _ F). cbn [mbind res_bind].
  rewrite !py_eq_int_int. f_equal. unfold classify.
  destruct (nr =? OPENAT_NR); cbn [andb].
  - destruct (String.eqb name ""); cbn [andb]; [|by rewrite bool_decide_false].
    destruct (Z.eqb_spec p q), (Z.eqb_spec ret f); cbn [andb]; symmetry;
      (apply bool_decide_true || apply bool_decide_false); congruence.
  - symmetry. apply bool_decide_false. repeat case_match; congruence.
Qed.
End accesses.

Lemma same_owner_event r e q f : view r = Some e →
  same_owner_openat_exit_for_fd r (JInt q) (JInt f) = Ok (bool_decide (e = OpenExit q f)).
Proof. intros (d & p & nr & fd & size & ret & name & comm & _ & _ & _ & _ & F & ->)%record_inv. by apply same_owner_view. Qed.

Lemma any_exit rs es q f : Forall2 (λ r e, view r = Some e) rs es →
  anyM (λ rec, same_owner_openat_exit_for_fd rec (JInt q) (JInt f)) rs = Ok (bool_decide (OpenExit q f ∈ es)).
Proof.
  induction 1 as [|r e rs es Hr _ IH]; [by rewrite bool_decide_false by (by inversion 1)|].
  cbn [anyM]. rewrite (same_owner_event _ _ _ _ Hr). cbn [mbind res_bind]. rewrite IH.
  destruct (bool_decide_reflect (e = OpenExit q f)) as [He|He]; [subst; by rewrite bool_decide_true by (by left)|].
  f_equal. apply bool_decide_ext. rewrite elem_of_cons. naive_solver.
Qed.

Lemma valid_fd_int z : valid_fd (JInt z) = Ok (0 <=? z).
Proof. cbn [valid_fd num_of]. by rewrite py_geb_int. Qed.

Lemma collect_exit_view q r e : view r = Some e →
  collect_exit q r = Ok (match e with
                         | OpenExit p ret => hset (kz p) (default [] (hget (kz p) q) ++ [JInt ret]) q
                         | _ => q
                         end).
Proof.
  intros (d & p & nr & fd & size & ret & name & comm & _ & _ & _ & _ & F & ->)%record_inv.
  unfold collect_exit. rewrite (openat_exit_view _ _ _ _ _ _ _ F). cbn [mbind res_bind].
  unfold classify. destruct (nr =? OPENAT_NR); cbn [andb]; [|repeat case_match; done].
  destruct (String.eqb name ""); [|done].
  rewrite (f_pid _ _ _ _ _ _ _ F). cbn [mbind res_bind]. rewrite (f_retd _ _ _ _ _ _ _ F). cbn [mbind res_bind].
  rewrite hkey_int. done.
Qed.

(** The first pass: per process, the results of its exits. *)
Lemma collect_exits data evs : Forall2 (λ r e, view r = Some e) data evs → ∃ q, foldM collect_exit [] data = Ok q ∧
  ∀ p, default [] (hget (kz p) q) = map JInt (rets p evs).
Proof.
  intros HF. assert (∀ q0 g, (∀ p, default [] (hget (kz p) q0) = map JInt (g p)) →
    ∃ q, foldM collect_exit q0 data = Ok q ∧ ∀ p, default [] (hget (kz p) q) = map JInt (g p ++ rets p evs)) as Hgen;
    [|by apply (Hgen [] (λ _, []))].
  induction HF as [|r e data evs Hr _ IH]; intros q0 g Hg.
  - exists q0. split; [done|]. intros p. by rewrite app_nil_r.
  - cbn [foldM]. rewrite (collect_exit_view _ _ _ Hr). cbn [mbind res_bind].
    destruct (IH (match e with OpenExit p ret => hset (kz p) (default [] (hget (kz p) q0) ++ [JInt ret]) q0 | _ => q0 end)
      (λ p, g p ++ rets p [e])) as (q & Hq & Hr').
    + intros p. destruct e as [p' v| | | | |]; try (cbn; rewrite app_nil_r; apply Hg).
      rewrite hget_hset. cbn. destruct (decide (p = p')) as [->|Hne].
      * rewrite decide_True by done. cbn. by rewrite Hg, map_app.
      * rewrite decide_False by (intros ?%(inj kz); done). cbn. rewrite app_nil_r. apply Hg.
    + exists q. split; [done|]. intros p. rewrite Hr', <- app_assoc. f_equal. f_equal.
      unfold rets. by rewrite <- omap_app.
Qed.

(** ** The table of held writes *)
Definition writes (t : list pending) : list json := concat (map p_writes t).

Lemma pend_get_add k id w t k' :
  pend_get k' (pend_add k id w t) = pend_get k' t ++ (if decide (k = k') then [w] else []).
Proof.
  induction t as [|p t IH]; cbn; [by destruct (decide (k = k'))|].
  destruct (decide (p_key p = k)) as [<-|Hk]; cbn.
  - destruct (decide (p_key p = k')); [done|by rewrite app_nil_r].
  - destruct (decide (p_key p = k')) as [<-|]; [|done]. by rewrite decide_False, app_nil_r by done.
Qed.

Lemma pend_keys_add k id w t :
  map p_key (pend_add k id w t) = map p_key t ++ (if decide (k ∈ map p_key t) then [] else [k]).
Proof.
  induction t as [|p t IH]; cbn; [by rewrite decide_False by (by inversion 1)|].
  destruct (decide (p_key p = k)) as [<-|Hk]; cbn.
  - rewrite decide_True by (by left). by rewrite app_nil_r.
  - rewrite IH. f_equal. f_equal. apply decide_ext. rewrite elem_of_cons. naive_solver.
Qed.

Lemma pend_NoDup_add k id w t : NoDup (map p_key t) → NoDup (map p_key (pend_add k id w t)).
Proof.
  intros Hn. rewrite pend_keys_add. destruct (decide _); [by rewrite app_nil_r|].
  apply NoDup_app. split; [done|]. split; [|apply NoDup_singleton]. intros x Hx ->%list_elem_of_singleton. done.
Qed.

Lemma pend_writes_add k id w t : writes (pend_add k id w t) ≡ₚ writes t ++ [w].
Proof.
  unfold writes. induction t as [|p t IH]; cbn; [done|]. destruct (decide _); cbn.
  - rewrite <- !app_assoc. f_equiv. apply Permutation_app_comm.
  - rewrite IH. by rewrite app_assoc.
Qed.

Lemma pend_pop_cons k p t :
  pend_pop k (p :: t) = if decide (p_key p = k) then pend_pop k t else p :: pend_pop k t.
Proof. unfold pend_pop. cbn. case_bool_decide; cbn; by destruct (decide (p_key p = k)). Qed.

Lemma pend_get_pop k t k' : pend_get k' (pend_pop k t) = if decide (k = k') then [] else pend_get k' t.
Proof.
  induction t as [|p t IH]; [by cbn; destruct (decide _)|]. rewrite pend_pop_cons.
  destruct (decide (p_key p = k)) as [Hp|Hp]; cbn; [rewrite IH; subst; by destruct (decide (p_key p = k'))|].
  destruct (decide (p_key p = k')) as [<-|]; [by rewrite decide_False by done|done].
Qed.

Lemma pend_pop_absent k t : k ∉ map p_key t → pend_pop k t = t ∧ pend_get k t = [].
Proof.
  induction t as [|p t IH]; [done|]. intros [Hp Ht]%not_elem_of_cons.
  rewrite pend_pop_cons. cbn [pend_get]. rewrite !decide_False by done. destruct (IH Ht) as [-> ->]. done.
Qed.

Lemma pend_writes_pop k t : NoDup (map p_key t) → writes t ≡ₚ pend_get k t ++ writes (pend_pop k t).
Proof.
  unfold writes. induction t as [|p t IH]; [done|]. intros [Hp Ht]%NoDup_cons. rewrite pend_pop_cons.
  cbn [pend_get map concat]. destruct (decide (p_key p = k)) as [<-|Hne].
  - by destruct (pend_pop_absent _ _ Hp) as [-> _].
  - cbn [map concat]. rewrite (IH Ht), !app_assoc. f_equiv. apply Permutation_app_comm.
Qed.

Lemma pend_NoDup_pop k t : NoDup (map p_key t) → NoDup (map p_key (pend_pop k t)).
Proof.
  induction t as [|p t IH]; [done|]. intros [Hp Ht]%NoDup_cons. rewrite pend_pop_cons.
  destruct (decide _); [by apply IH|]. cbn [map]. constructor; [|by apply IH].
  intros (p' & Hk & Hin)%list_elem_of_fmap. apply Hp, list_elem_of_fmap. exists p'. split; [done|].
  unfold pend_pop in Hin. apply list_elem_of_In, filter_In in Hin as [Hin _]. by apply list_elem_of_In.
Qed.

(** ** The mark of a held write *)
Lemma drop_mark (d : list (string * json)) k v : dhas k d = false →
  List.filter (λ kv, negb (String.eqb kv.1 k)) (dset k v d) = d.
Proof.
  induction d as [|[k' v'] d IH]; cbn; [by rewrite String.eqb_refl|].
  unfold dhas. cbn. destruct (String.eqb_spec k k') as [->|Hne]; [done|]. intros Hd. cbn.
  destruct (String.eqb_spec k' k) as [->|]; [done|]. cbn. f_equal. by apply IH.
Qed.

Lemma pop_mark r e v : view r = Some e → pop_reason (with_field r "_deferred_reason" v) = r.
Proof.
  intros (d & p & nr & fd & size & ret & name & comm & -> & Hd & _)%record_inv. cbn. f_equal. by apply drop_mark.
Qed.

(** ** The reference, one record further *)
Section recurrences.
Context (lookahead : Z) (R : list event) (i : nat) (e : event) (He : R !! i = Some e).

Lemma order_to_S : order_to lookahead R (S i) = order_to lookahead R i ++ emitted lookahead R i.
Proof. unfold order_to. rewrite seq_S, map_app, concat_app. cbn. by rewrite app_nil_r. Qed.

Lemma opened_S p f : opened (take (S i) R) p f = opened_step p f (opened (take i R) p f) e.
Proof. unfold opened. by rewrite (take_S_r _ _ _ He), foldl_app. Qed.

Lemma between_S j : (j < i)%nat → take (S i - S j) (drop (S j) R) = take (i - S j) (drop (S j) R) ++ [e].
Proof.
  intros Hj. replace (S i - S j)%nat with (S (i - S j)) by lia. apply take_S_r.
  rewrite lookup_drop. replace (S j + (i - S j))%nat with i by lia. done.
Qed.

Lemma waits_S k j : (j < i)%nat → waits lookahead R (S i) k j = waits lookahead R i k j && negb (bool_decide (e = Open k.1 k.2)).
Proof.
  intros Hj. unfold waits. rewrite (between_S _ Hj). destruct (held lookahead R j && written R j k); [|done]. cbn [andb].
  rewrite <- bool_decide_not, <- bool_decide_and. apply bool_decide_ext. rewrite elem_of_app, list_elem_of_singleton. naive_solver.
Qed.

Lemma waits_here k : waits lookahead R (S i) k i = held lookahead R i && written R i k.
Proof. unfold waits. rewrite Nat.sub_diag. cbn [take]. by rewrite bool_decide_true, andb_true_r by (by inversion 1). Qed.

Lemma waiting_S k : waiting lookahead R (S i) k =
  (if bool_decide (e = Open k.1 k.2) then [] else waiting lookahead R i k) ++
  (if held lookahead R i && written R i k then [i] else []).
Proof.
  unfold waiting. rewrite seq_S, List.filter_app. cbn [List.filter Nat.add]. rewrite waits_here. f_equal.
  case_bool_decide as Ho.
  - rewrite (filter_ext_in _ (λ _, false)); [induction (seq 0 i); done|].
    intros j Hj%in_seq. rewrite waits_S by lia. by rewrite bool_decide_true, andb_false_r.
  - apply filter_ext_in. intros j Hj%in_seq. rewrite waits_S by lia. by rewrite bool_decide_false, andb_true_r.
Qed.

Lemma held_here : held lookahead R i = held_event lookahead R i e.
Proof. unfold held. by rewrite He. Qed.

(** A record that is not a write leaves no one waiting, and one that is not an
    entry either changes nothing. *)
Lemma waiting_other k : (∀ p f, e ≠ Write p f) → (∀ p f, e ≠ Open p f) → waiting lookahead R (S i) k = waiting lookahead R i k.
Proof.
  intros Hw Ho. rewrite waiting_S, bool_decide_false by apply Ho.
  unfold written. rewrite He, (bool_decide_false (Some e = _)), andb_false_r, app_nil_r; [done|]. intros [= ->]. by eapply Hw.
Qed.
End recurrences.

(** ** The second pass *)
Lemma window_take {A} (l : list A) (i : nat) n : 0 ≤ n → (i < length l)%nat →
  window_of l (Z.of_nat i + 1) (Z.of_nat i + 1 + n) = take (Z.to_nat n) (drop (S i) l).
Proof.
  intros Hn Hi. unfold window_of. rewrite (proj2 (Z.ltb_ge _ _)) by lia.
  replace (Z.to_nat (Z.of_nat i + 1)) with (S i) by lia.
  destruct (Z.le_ge_cases (Z.of_nat i + 1 + n) (Z.of_nat (length l))).
  - rewrite Z.min_l by done. f_equal. lia.
  - rewrite Z.min_r by done. rewrite !take_ge; [done|rewrite length_drop; lia..].
Qed.

Lemma lookup_resolved evs i e : evs !! i = Some e → resolved evs !! i = Some (resolve evs (take i evs) e).
Proof. intros He. unfold resolved. by rewrite list_lookup_imap, He. Qed.

Lemma resolved_exits evs n m p f : OpenExit p f ∈ take n (drop m (resolved evs)) ↔ OpenExit p f ∈ take n (drop m evs).
Proof.
  rewrite !list_elem_of_lookup. apply exist_proper. intros j.
  rewrite !lookup_take_Some, !lookup_drop. unfold resolved. rewrite list_lookup_imap.
  destruct (evs !! (m + j)%nat) as [[]|]; cbn; naive_solver.
Qed.

Lemma given_drop evs pre p rest v :
  drop (opens p pre) (rets p evs) = v :: rest → given evs pre p = if 0 <=? v then Some v else None.
Proof.
  intros Hd. unfold given. pose proof (lookup_drop (rets p evs) (opens p pre) 0) as Hl.
  rewrite Hd, Nat.add_0_r in Hl. by rewrite <- Hl.
Qed.

Lemma given_none evs pre p : drop (opens p pre) (rets p evs) = [] → given evs pre p = None.
Proof.
  intros Hd. unfold given. pose proof (lookup_drop (rets p evs) (opens p pre) 0) as Hl.
  rewrite Hd, Nat.add_0_r in Hl. by rewrite <- Hl.
Qed.

Section run.
Context (data : list json) (evs : list event) (lookahead : Z).
Context (HF : Forall2 (λ r e, view r = Some e) data evs) (Hla : 0 ≤ lookahead).
Local Abbreviation R := (resolved evs).
Local Abbreviation o := (out data evs).

Definition survivors_to (i : nat) : list nat :=
  List.filter (λ i, match evs !! i with Some e => negb (is_exit e) | None => false end) (seq 0 i).

Definition entry_ok (p : pending) : Prop :=
  ∃ k, p_key p = kk k ∧ p_id p = (JInt k.1, JInt k.2) ∧ p_writes p ≠ [].

Record inv (i : nat) (st : flt) : Prop := mkInv {
  iv_queue p : default [] (hget (kz p) (openat_exit_queue st)) = map JInt (drop (opens p (take i evs)) (rets p evs));
  iv_fds p f : kz f ∈ fds_of st (kz p) ↔ opened (take i R) p f = true;
  iv_pend k : map pop_reason (pend_get (kk k) (deferred_writes st)) = map o (waiting lookahead R i k);
  iv_keys : NoDup (map p_key (deferred_writes st));
  iv_entries : Forall entry_ok (deferred_writes st);
  iv_kept : kept st = map o (order_to lookahead R i);
  iv_all : kept st ++ map pop_reason (writes (deferred_writes st)) ≡ₚ map o (survivors_to i);
  iv_count : skipped_exit st + skipped_openat_exit st + Z.of_nat (length (survivors_to i)) = Z.of_nat i;
  iv_held : deferred_count st = flushed_count st + Z.of_nat (length (writes (deferred_writes st))) }.

Lemma inv_start q : (∀ p, default [] (hget (kz p) q) = map JInt (rets p evs)) → inv 0 (new_filter q).
Proof.
  intros Hq. constructor; try done; cbn.
  - intros p f. unfold fds_of. cbn. split; [by inversion 1|done].
  - constructor.
Qed.

Section step.
Context (i : nat) (r : json) (e : event) (Hr : data !! i = Some r) (He : evs !! i = Some e).

Lemma view_here : view r = Some e.
Proof. eapply Forall2_lookup_lr in HF; eauto. Qed.

Lemma out_here : o i = patched evs (take i evs) e r.
Proof. unfold out. by rewrite Hr, He. Qed.

Lemma survivors_S : survivors_to (S i) = survivors_to i ++ (if is_exit e then [] else [i]).
Proof. unfold survivors_to. rewrite seq_S, List.filter_app. cbn. rewrite He. by destruct (is_exit e). Qed.

Lemma opens_S p : opens p (take (S i) evs) = (opens p (take i evs) + (if is_open_of p e then 1 else 0))%nat.
Proof.
  unfold opens. rewrite (take_S_r _ _ _ He), List.filter_app, length_app. cbn. by destruct (is_open_of p e).
Qed.

(** Records that are dropped, or kept as they are. *)
Lemma inv_dropped st st' : inv i st → is_exit e = true →
  openat_exit_queue st' = openat_exit_queue st → pid_registered st' = pid_registered st →
  deferred_writes st' = deferred_writes st → kept st' = kept st →
  skipped_exit st' + skipped_openat_exit st' = skipped_exit st + skipped_openat_exit st + 1 →
  deferred_count st' = deferred_count st → flushed_count st' = flushed_count st → inv (S i) st'.
Proof.
  intros [] Hx Hq Hp Hd Hk Hs Hc Hf. pose proof (lookup_resolved _ _ _ He) as HR.
  assert (resolve evs (take i evs) e = e) as He' by (by destruct e). rewrite He' in HR.
  constructor; rewrite ?Hq, ?Hd, ?Hk; try done.
  - intros p. rewrite opens_S. replace (is_open_of p e) with false by (by destruct e). by rewrite Nat.add_0_r.
  - intros p f. unfold fds_of. rewrite Hp. rewrite (opened_S _ _ _ HR).
    destruct e; try discriminate Hx; apply iv_fds0.
  - intros k. rewrite (waiting_other _ _ _ _ HR); [apply iv_pend0|intros ?? ->; discriminate..].
  - rewrite order_to_S. unfold emitted. rewrite HR. destruct e; try discriminate Hx; by rewrite app_nil_r.
  - rewrite survivors_S, Hx, app_nil_r. done.
  - rewrite survivors_S, Hx, app_nil_r. lia.
  - lia.
Qed.

Lemma inv_kept st st' : inv i st → is_exit e = false → (∀ p f, e ≠ Open p f) → held lookahead R i = false →
  openat_exit_queue st' = openat_exit_queue st →
  (∀ p f, kz f ∈ fds_of st' (kz p) ↔ opened_step p f (opened (take i R) p f) e = true) →
  deferred_writes st' = deferred_writes st → kept st' = kept st ++ [r] →
  skipped_exit st' + skipped_openat_exit st' = skipped_exit st + skipped_openat_exit st →
  deferred_count st' = deferred_count st → flushed_count st' = flushed_count st → inv (S i) st'.
Proof.
  intros [] Hx Ho Hh Hq Hp Hd Hk Hs Hc Hf. pose proof (lookup_resolved _ _ _ He) as HR.
  assert (resolve evs (take i evs) e = e) as He' by (destruct e; try done; by edestruct Ho). rewrite He' in HR.
  assert (o i = r) as Hoi by (rewrite out_here; destruct e; try done; by edestruct Ho).
  constructor; rewrite ?Hq, ?Hd, ?Hk; try done.
  - intros p. rewrite opens_S. replace (is_open_of p e) with false by (destruct e; try done; by edestruct Ho).
    by rewrite Nat.add_0_r.
  - intros p f. by rewrite (opened_S _ _ _ HR), Hp.
  - intros k. rewrite (waiting_S _ _ _ _ HR), bool_decide_false, Hh, app_nil_r by apply Ho. apply iv_pend0.
  - rewrite order_to_S, map_app, <- iv_kept0. f_equal. unfold emitted. rewrite HR, Hh. cbn [map].
    destruct e; try discriminate Hx; [by edestruct Ho|..]; cbn; by rewrite Hoi.
  - rewrite survivors_S, Hx, map_app, <- iv_all0. cbn. rewrite Hoi, <- !app_assoc. f_equiv. apply Permutation_app_comm.
  - rewrite survivors_S, Hx, length_app. cbn. lia.
  - lia.
Qed.
(** A write that is held back. *)
Lemma inv_deferred st p f : inv i st → e = Write p f → held lookahead R i = true →
  inv (S i) (defer st (kz p) (kz f) (JInt p) (JInt f) r).
Proof.
  intros [] Ee Hh. pose proof (lookup_resolved _ _ _ He) as HR. rewrite Ee in HR. cbn [resolve] in HR.
  assert (o i = r) as Hoi by (by rewrite out_here, Ee).
  assert (survivors_to (S i) = survivors_to i ++ [i]) as Hs by (by rewrite survivors_S, Ee).
  pose proof (pop_mark _ _ (JStr "same-pid-openat-exit-lookahead") view_here) as Hm.
  constructor; cbn [defer openat_exit_queue pid_registered deferred_writes kept skipped_exit skipped_openat_exit
    deferred_count flushed_count]; try done.
  - intros q. rewrite opens_S, Ee. cbn. by rewrite Nat.add_0_r.
  - intros q g. rewrite (opened_S _ _ _ HR). apply iv_fds0.
  - intros k. rewrite (waiting_S _ _ _ _ HR), bool_decide_false, Hh by done. cbn [andb].
    rewrite pend_get_add, map_app, iv_pend0, map_app. f_equal. unfold written. rewrite HR.
    destruct (decide ((kz p, kz f) = kk k)) as [Hk|Hk].
    + apply (inj kk (p, f) k) in Hk as <-. rewrite bool_decide_true by done. cbn [map]. by rewrite Hoi, Hm.
    + rewrite bool_decide_false; [done|]. intros [= -> ->]. by destruct k.
  - by apply pend_NoDup_add.
  - revert iv_entries0. clear -p f. induction (deferred_writes st) as [|x t IH]; cbn.
    + intros _. repeat constructor. by exists (p, f).
    + intros [Hx Ht]%Forall_cons. destruct (decide _); constructor; eauto.
      destruct Hx as (k & ? & ? & ?). exists k. split_and!; [done..|]. cbn. by destruct (p_writes x).
  - rewrite order_to_S. unfold emitted. by rewrite HR, Hh, app_nil_r.
  - rewrite Hs, pend_writes_add, map_app, map_app, app_assoc, iv_all0. cbn. by rewrite Hoi, Hm.
  - rewrite Hs, length_app. cbn. lia.
  - rewrite (Permutation_length (pend_writes_add _ _ _ _)), length_app. cbn. lia.
Qed.

(** An entry takes the next result of its process. *)
Lemma patch_entry_ok st p ret : inv i st → e = Open p ret → ∃ q n,
  patch_entry st (kz p) r = Ok (mkFlt q (pid_registered st) (deferred_writes st) (kept st) (skipped_exit st)
      (skipped_openat_exit st) n (deferred_count st) (flushed_count st) (emitted_unregistered st), o i) ∧
  ∀ p', default [] (hget (kz p') q) = map JInt (drop (opens p' (take (S i) evs)) (rets p' evs)).
Proof.
  intros [] Ee. rewrite out_here, Ee. cbn [patched]. unfold patch_entry. pose proof (iv_queue0 p) as Hq.
  destruct (drop (opens p (take i evs)) (rets p evs)) as [|v rest] eqn:Hd.
  - rewrite (given_none _ _ _ Hd). exists (openat_exit_queue st), (openat_patched st). split.
    + destruct st as [Q ? ? ? ? ? ? ? ? ?]. cbn in *. destruct (hget (kz p) Q) as [[|]|]; done.
    + intros p'. rewrite iv_queue0, opens_S, Ee. cbn. case_bool_decide as Hp; [subst|by rewrite Nat.add_0_r].
      rewrite Hd, <- drop_drop, Hd. done.
  - destruct (hget (kz p) (openat_exit_queue st)) as [l|] eqn:Hl; [|done]. cbn in Hq. subst l.
    cbn [map]. rewrite valid_fd_int. cbn [mbind res_bind]. rewrite (given_drop _ _ _ _ _ Hd).
    exists (hset (kz p) (map JInt rest) (openat_exit_queue st)), (openat_patched st + (if 0 <=? v then 1 else 0)).
    split; [by destruct (0 <=? v)|]. intros p'. rewrite hget_hset, opens_S, Ee. cbn.
    case_bool_decide as Hp; [subst; rewrite decide_True by done|rewrite decide_False, Nat.add_0_r; [apply iv_queue0|]].
    + cbn. by rewrite <- drop_drop, Hd.
    + by intros ->%(inj kz).
Qed.
Definition fd_here (p ret : Z) : Z := default ret (given evs (take i evs) p).

Lemma open_ret p ret d : e = Open p ret → get_default (o i) "ret" d = Ok (JInt (fd_here p ret)).
Proof.
  intros Ee. rewrite out_here, Ee. cbn [patched]. unfold fd_here. pose proof view_here as Hv.
  apply record_inv in Hv as (d' & p' & nr & fd & size & ret' & name & comm & Hd & _ & _ & _ & F & Hc).
  destruct (given evs (take i evs) p) as [v|]; cbn [default from_option id].
  - rewrite Hd. cbn. by rewrite dget_dset_eq.
  - rewrite (f_retd _ _ _ _ _ _ _ F). do 2 f_equal. rewrite Ee in Hc. unfold classify in Hc. repeat case_match; congruence.
Qed.

Lemma entry_fds st fds p f g q : (∀ p f, kz f ∈ fds_of st (kz p) ↔ opened fds p f = true) →
  kz g ∈ fds_of (if 0 <=? f then set_fds st (kz p) (kz f :: fds_of st (kz p)) else st) (kz q) ↔
  opened_step q g (opened fds q g) (Open p f) = true.
Proof.
  intros Hf. cbn [opened_step]. destruct (Z.leb_spec 0 f) as [Hl|Hl].
  - unfold fds_of. cbn [set_fds pid_registered]. rewrite hget_hset.
    destruct (decide (kz q = kz p)) as [->%(inj kz)|Hne].
    + cbn [default from_option id]. rewrite elem_of_cons. unfold fds_of in Hf. rewrite Hf.
      case_bool_decide as Hb; cbn [andb].
      * destruct Hb as [_ <-]. rewrite (proj2 (Z.leb_le _ _)) by done. naive_solver.
      * split; [intros [->%(inj kz)|?]; [by destruct Hb|done]|by right].
    + rewrite bool_decide_false by (intros [-> _]; done). apply Hf.
  - rewrite Hf. case_bool_decide as Hb; [|done]. destruct Hb as [_ <-]. by rewrite (proj2 (Z.leb_gt _ _)).
Qed.

Lemma inv_opened st st' p ret : let f := fd_here p ret in inv i st → e = Open p ret →
  (∀ p', default [] (hget (kz p') (openat_exit_queue st')) = map JInt (drop (opens p' (take (S i) evs)) (rets p' evs))) →
  (∀ q g, kz g ∈ fds_of st' (kz q) ↔ opened_step q g (opened (take i R) q g) (Open p f) = true) →
  deferred_writes st' = pend_pop (kz p, kz f) (deferred_writes st) →
  kept st' = (kept st ++ [o i]) ++ map pop_reason (pend_get (kz p, kz f) (deferred_writes st)) →
  skipped_exit st' = skipped_exit st → skipped_openat_exit st' = skipped_openat_exit st →
  deferred_count st' = deferred_count st →
  flushed_count st' = flushed_count st + Z.of_nat (length (pend_get (kz p, kz f) (deferred_writes st))) →
  inv (S i) st'.
Proof.
  intros f [] Ee Hq Hp Hd Hk Hs1 Hs2 Hc Hf. pose proof (lookup_resolved _ _ _ He) as HR.
  rewrite Ee in HR. cbn [resolve] in HR. change (default ret (given evs (take i evs) p)) with f in HR.
  assert (survivors_to (S i) = survivors_to i ++ [i]) as Hs by (by rewrite survivors_S, Ee).
  pose proof (iv_pend0 (p, f)) as Hpf. unfold kk in Hpf. cbn [fst snd] in Hpf.
  pose proof (pend_writes_pop (kz p, kz f) _ iv_keys0) as Hw.
  constructor; rewrite ?Hd, ?Hk, ?Hs1, ?Hs2, ?Hc, ?Hf, ?Hs; try done.
  - intros q g. by rewrite (opened_S _ _ _ HR).
  - intros k. rewrite (waiting_S _ _ _ _ HR), pend_get_pop. unfold written. rewrite HR.
    rewrite (bool_decide_false (Some (Open p f) = _)), andb_false_r, app_nil_r by done.
    destruct (decide ((kz p, kz f) = kk k)) as [Hkk|Hkk].
    + apply (inj kk (p, f) k) in Hkk as <-. by rewrite bool_decide_true.
    + rewrite bool_decide_false; [apply iv_pend0|]. intros [= -> ->]. by destruct k.
  - by apply pend_NoDup_pop.
  - unfold pend_pop. rewrite Forall_forall in iv_entries0 |- *. intros x Hx. apply iv_entries0.
    apply list_elem_of_In, filter_In in Hx as [Hx _]. by apply list_elem_of_In.
  - rewrite order_to_S, map_app, <- iv_kept0, <- app_assoc. f_equal. unfold emitted. rewrite HR. cbn. by rewrite Hpf.
  - rewrite map_app, <- iv_all0, Hw, map_app. cbn [map]. rewrite <- !app_assoc. f_equiv.
    rewrite (Permutation_app_comm [o i]). by rewrite <- app_assoc.
  - rewrite length_app. cbn. lia.
  - apply Permutation_length in Hw. rewrite length_app in Hw. lia.
Qed.

Lemma openat_entry_ok st p ret : inv i st → e = Open p ret → ∃ st', openat_entry st (JInt p) r = Ok st' ∧ inv (S i) st'.
Proof.
  intros Hi Ee. destruct (patch_entry_ok _ _ _ Hi Ee) as (q & n & Hp & Hq).
  unfold openat_entry. rewrite hkey_int. cbn [mbind res_bind]. rewrite Hp. cbn [mbind res_bind].
  rewrite (open_ret _ _ _ Ee). cbn [mbind res_bind]. rewrite valid_fd_int, hkey_int. cbn [mbind res_bind].
  set (st1 := mkFlt q (pid_registered st) (deferred_writes st) (kept st) _ _ n _ _ _).
  pose proof (λ q g, entry_fds st1 (take i R) p (fd_here p ret) g q (iv_fds _ _ Hi)) as Hf.
  destruct (0 <=? fd_here p ret); (eexists; split; [reflexivity|]; eapply inv_opened; eauto; done).
Qed.

Lemma close_entry_ok st p f : inv i st → e = Close p f → get_default r "fd" (JInt (-1)) = Ok (JInt f) →
  ∃ st', close_entry st (JInt p) r = Ok st' ∧ inv (S i) st'.
Proof.
  intros Hi Ee Hf. unfold close_entry. rewrite Hf. cbn [mbind res_bind]. rewrite !py_eq_int_int, !hkey_int. cbn [mbind res_bind].
  assert (held lookahead R i = false) as Hh.
  { rewrite (held_here _ _ _ _ (lookup_resolved _ _ _ He)), Ee. done. }
  destruct ((f =? -1) || (f =? EXIT_FD)) eqn:Hx; cbn [mbind res_bind]; (eexists; split; [reflexivity|]);
    (eapply inv_kept; eauto; rewrite ?Ee; try done); intros q g; cbn [opened_step].
  - destruct (bool_decide_reflect (p = q ∧ f = g)) as [[-> <-]|]; [rewrite Hx|]; apply (iv_fds _ _ Hi).
  - pose proof (iv_fds _ _ Hi q g) as Hqg. unfold fds_of at 1. cbn [keep set_fds pid_registered]. rewrite hget_hset.
    destruct (decide (kz q = kz p)) as [->%(inj kz)|Hne].
    + cbn [default from_option id]. rewrite list_elem_of_In, filter_In, <- list_elem_of_In, negb_true_iff, bool_decide_eq_false.
      destruct (bool_decide_reflect (p = p ∧ f = g)) as [[_ <-]|Hn]; [rewrite Hx; cbn; naive_solver|].
      rewrite <- Hqg. split; [tauto|]. intros Hin. split; [done|]. intros ->%(inj kz). by apply Hn.
    + rewrite bool_decide_false by (intros [-> _]; done). apply Hqg.
Qed.

Lemma write_entry_ok st p f : inv i st → e = Write p f → get_default r "fd" (JInt (-1)) = Ok (JInt f) →
  ∃ st', write_entry data lookahead st i (JInt p) r = Ok st' ∧ inv (S i) st'.
Proof.
  intros Hi Ee Hf. unfold write_entry. rewrite Hf. cbn [mbind res_bind]. rewrite !hkey_int. cbn [mbind res_bind].
  pose proof (held_here lookahead _ _ _ (lookup_resolved _ _ _ He)) as Hh. rewrite Ee in Hh. cbn [resolve held_event] in Hh.
  pose proof (iv_fds _ _ Hi p f) as Hpf. unfold hmem.
  destruct (bool_decide_reflect (kz f ∈ fds_of st (kz p))) as [Hin|Hin].
  - apply Hpf in Hin. rewrite Hin in Hh. eexists. split; [reflexivity|].
    eapply inv_kept; eauto; rewrite ?Ee; try done. intros q g. apply (iv_fds _ _ Hi).
  - rewrite window_take by (eauto using lookup_lt_Some).
    erewrite any_exit by (apply Forall2_take, Forall2_drop, HF). cbn [mbind res_bind].
    replace (opened (take i R) p f) with false in Hh by (symmetry; apply not_true_iff_false; tauto).
    rewrite (bool_decide_ext _ _ (resolved_exits _ _ _ _ _)) in Hh. cbn [negb andb] in Hh. rewrite <- Hh.
    eexists. split; [reflexivity|]. destruct (held lookahead R i) eqn:Hb; [by apply inv_deferred|].
    eapply inv_kept; eauto; rewrite ?Ee; try done. intros q g. apply (iv_fds _ _ Hi).
Qed.

Lemma filter_record_ok st : inv i st → ∃ st', filter_record data lookahead st i r = Ok st' ∧ inv (S i) st'.
Proof.
  intros Hi. pose proof view_here as Hv.
  apply record_inv in Hv as (d & p & nr & fd & size & ret & name & comm & Hd & _ & _ & _ & F & Ee).
  unfold filter_record. rewrite (f_nr _ _ _ _ _ _ _ F). cbn [mbind res_bind].
  rewrite (f_pid _ _ _ _ _ _ _ F). cbn [mbind res_bind].
  rewrite (openat_exit_view _ _ _ _ _ _ _ F), (generic_exit_view _ _ _ _ _ _ _ F), (openat_entry_view _ _ _ _ _ _ _ F).
  cbn [mbind res_bind]. rewrite py_eq_int_int, write_nrs_view. cbn [mbind res_bind].
  unfold classify in Ee.
  destruct (nr =? OPENAT_NR); cbn [andb negb].
  { destruct (String.eqb name ""); cbn [andb negb]; [|by eapply openat_entry_ok].
    eexists. split; [reflexivity|]. eapply inv_dropped; eauto; [by rewrite Ee|cbn; lia]. }
  destruct (((fd =? -1) || (fd =? EXIT_FD)) && (size =? EXIT_SIZE)).
  { eexists. split; [reflexivity|]. eapply inv_dropped; eauto; [by rewrite Ee|cbn; lia]. }
  destruct (nr =? CLOSE_NR); [eapply close_entry_ok; eauto; apply F|].
  destruct ((nr =? 1) || (nr =? 18)); [eapply write_entry_ok; eauto; apply F|].
  eexists. split; [reflexivity|]. eapply inv_kept; eauto; rewrite ?Ee; try done.
  - rewrite (held_here _ _ _ _ (lookup_resolved _ _ _ He)), Ee. done.
  - intros q g. apply (iv_fds _ _ Hi).
Qed.
End step.
End run.

(** ** The order of the late writes *)

#[export] Instance id_le_trans : Transitive id_le.
Proof. intros a b c. unfold id_le. lia. Qed.
#[export] Instance id_le_total : Total id_le.
Proof. intros a b. unfold id_le. lia. Qed.
#[export] Instance id_le_antisymm : AntiSymm (=) id_le.
Proof. intros [a1 a2] [b1 b2]. unfold id_le. cbn. intros. f_equal; lia. Qed.

Definition id_key (p : pending) : Z * Z :=
  match p_id p with (JInt a, JInt b) => (a, b) | _ => (0, 0) end.

Lemma entry_key p : entry_ok p → p_key p = kk (id_key p) ∧ p_id p = (JInt (id_key p).1, JInt (id_key p).2) ∧ p_writes p ≠ [].
Proof. intros (k & Hk & Hi & Hw). unfold id_key. rewrite Hi. by destruct k. Qed.

Lemma pending_le_id p q : entry_ok p → entry_ok q → pending_le p q ↔ id_le (id_key p) (id_key q).
Proof.
  intros (Hp & Hip & _)%entry_key (Hq & Hiq & _)%entry_key. unfold pending_le. rewrite Hp, Hq, Hip, Hiq. cbn [fst snd kk].
  unfold value_le, num_le, id_le. cbn [is_str]. rewrite !py_ltb_int.
  destruct (decide _) as [E%(inj kz)|E]; [lia|].
  assert ((id_key p).1 ≠ (id_key q).1) by congruence. lia.
Qed.

Lemma sort_pending_Ok t : Forall entry_ok t → sort_pending t = Ok (stable_sort pending_le t).
Proof.
  intros Ht. unfold sort_pending. rewrite (proj2 (forallb_forall _ _)); [done|].
  intros p Hp%list_elem_of_In. apply forallb_forall. intros q Hq%list_elem_of_In. rewrite Forall_forall in Ht.
  destruct (entry_key _ (Ht _ Hp)) as (_ & Hip & _), (entry_key _ (Ht _ Hq)) as (_ & Hiq & _).
  unfold comparable. rewrite Hip, Hiq. cbn. rewrite orb_true_r. by destruct (decide _).
Qed.

Lemma pend_get_entry t p : NoDup (map p_key t) → p ∈ t → pend_get (p_key p) t = p_writes p.
Proof.
  induction t as [|x t IH]; [by inversion 2|]. cbn. intros [Hx Ht]%NoDup_cons [->|Hp]%elem_of_cons; [by rewrite decide_True|].
  rewrite decide_False; [by apply IH|]. intros Hk. apply Hx. rewrite Hk. apply list_elem_of_fmap. eauto.
Qed.

Lemma pend_get_in t k : pend_get k t ≠ [] → k ∈ map p_key t.
Proof.
  induction t as [|x t IH]; cbn; [done|]. destruct (decide _) as [->|]; [by left|]. intros H. right. by apply IH.
Qed.

Section finish.
Context (data : list json) (evs : list event) (lookahead : Z) (st : flt).
Context (Hinv : inv data evs lookahead (length evs) st).
Local Abbreviation R := (resolved evs).
Local Abbreviation tbl := (deferred_writes st).

Lemma length_resolved : length R = length evs.
Proof. apply length_imap. Qed.

Lemma waiting_key k : k ∈ map id_key tbl ↔ waiting lookahead R (length evs) k ≠ [].
Proof.
  pose proof (iv_entries _ _ _ _ _ Hinv) as He. rewrite Forall_forall in He.
  pose proof (iv_pend _ _ _ _ _ Hinv k) as Hp. transitivity (pend_get (kk k) tbl ≠ []).
  - split.
    + intros (p & -> & Hin)%list_elem_of_fmap. destruct (entry_key _ (He _ Hin)) as (Hk & _ & Hw).
      rewrite <- Hk, (pend_get_entry _ _ (iv_keys _ _ _ _ _ Hinv) Hin). done.
    + intros (p & Hk & Hin)%pend_get_in%list_elem_of_fmap. apply list_elem_of_fmap. exists p. split; [|done].
      destruct (entry_key _ (He _ Hin)) as (Hk' & _). rewrite Hk' in Hk. by apply (inj kk) in Hk.
  - destruct (pend_get (kk k) tbl), (waiting lookahead R (length evs) k); cbn in Hp; done.
Qed.

Lemma late_keys_table : map id_key tbl ≡ₚ
  List.filter (λ k, negb (bool_decide (waiting lookahead R (length R) k = []))) (remove_dups (omap (key_of R) (seq 0 (length R)))).
Proof.
  apply NoDup_Permutation.
  - pose proof (iv_keys _ _ _ _ _ Hinv) as Hn. pose proof (iv_entries _ _ _ _ _ Hinv) as He.
    assert (map p_key tbl = map kk (map id_key tbl)) as Hm.
    { rewrite map_map. apply map_ext_in. intros p Hp%list_elem_of_In. rewrite Forall_forall in He. by apply entry_key, He. }
    rewrite Hm in Hn. by apply (NoDup_fmap_1 kk).
  - apply NoDup_ListNoDup, List.NoDup_filter, NoDup_ListNoDup, NoDup_remove_dups.
  - intros k. rewrite waiting_key, length_resolved.
    rewrite (list_elem_of_In (List.filter _ _)), filter_In, <- list_elem_of_In, negb_true_iff, bool_decide_eq_false.
    split; [|tauto]. intros Hw. split; [|done]. apply elem_of_remove_dups, list_elem_of_omap.
    destruct (waiting lookahead R (length evs) k) as [|j ?] eqn:Hj; [done|].
    assert (j ∈ waiting lookahead R (length evs) k) as Hin by (rewrite Hj; by left).
    apply list_elem_of_In, filter_In in Hin as [Hs Hw']. exists j. split; [by apply list_elem_of_In|].
    apply andb_true_iff in Hw' as [[_ Hk]%andb_true_iff _]. apply bool_decide_eq_true in Hk.
    unfold key_of. rewrite Hk. by destruct k.
Qed.

Lemma late_order : late_writes (stable_sort pending_le tbl) =
  map (out data evs) (concat (map (waiting lookahead R (length R)) (late_keys lookahead R))).
Proof.
  pose proof (iv_entries _ _ _ _ _ Hinv) as He. pose proof (iv_keys _ _ _ _ _ Hinv) as Hn.
  transitivity (concat (map (λ k, map (out data evs) (waiting lookahead R (length R) k)) (map id_key (stable_sort pending_le tbl)))).
  - unfold late_writes. rewrite map_map. f_equal. apply map_ext_in. intros p Hp%list_elem_of_In.
    rewrite stable_sort_Permutation in Hp. rewrite Forall_forall in He. destruct (entry_key _ (He _ Hp)) as (Hk & _).
    rewrite length_resolved, <- (iv_pend _ _ _ _ _ Hinv), <- Hk, (pend_get_entry _ _ Hn Hp). done.
  - rewrite (stable_sort_map id_key entry_ok _ id_le _ pending_le_id) by done.
    rewrite concat_map, map_map. do 2 f_equal. unfold late_keys.
    apply (Sorted_unique id_le); [apply (Sorted_stable_sort id_le)..|]. rewrite !stable_sort_Permutation. apply late_keys_table.
Qed.

Lemma late_perm : kept st ++ late_writes (stable_sort pending_le tbl) ≡ₚ map (out data evs) (survivors evs).
Proof.
  rewrite <- (iv_all _ _ _ _ _ Hinv). f_equiv. unfold late_writes, writes.
  rewrite (stable_sort_Permutation pending_le tbl), concat_map, map_map. done.
Qed.
End finish.

Lemma filter_records_exact data evs lookahead : Forall2 (λ r e, view r = Some e) data evs → 0 ≤ lookahead → ∃ rep,
  filter_records data lookahead = Ok (map (out data evs) (order lookahead (resolved evs)), rep) ∧
  map (out data evs) (order lookahead (resolved evs)) ≡ₚ map (out data evs) (survivors evs) ∧
  n_kept rep = Z.of_nat (length (survivors evs)) ∧ total_input rep = Z.of_nat (length data) ∧
  n_kept rep + generic_exits_dropped rep + openat_exits_dropped rep = total_input rep ∧
  writes_deferred rep = writes_flushed rep + late_deferred rep.
Proof.
  intros HF Hla. pose proof (Forall2_length _ _ _ HF) as Hlen.
  destruct (collect_exits _ _ HF) as (q & Hq & Hr). unfold filter_records. rewrite Hq. cbn [mbind res_bind].
  destruct (foldiM_total (filter_record data lookahead) (λ pre, inv data evs lookahead (length pre)) (new_filter q) data)
    as (st & Hst & Hinv); [by apply inv_start| |].
  { intros pre x post st Hd Hi. assert (data !! length pre = Some x) as Hx by (by rewrite Hd, list_lookup_middle).
    destruct (Forall2_lookup_l _ _ _ _ _ HF Hx) as (e & He & _).
    rewrite length_app, Nat.add_1_r. eapply filter_record_ok; eauto. }
  rewrite Hst. cbn [mbind res_bind]. rewrite Hlen in Hinv. pose proof (late_perm _ _ _ _ Hinv) as Hp.
  rewrite (sort_pending_Ok _ (iv_entries _ _ _ _ _ Hinv)). cbn [mbind res_bind].
  pose proof (late_order _ _ _ _ Hinv) as Ho. pose proof (iv_kept _ _ _ _ _ Hinv) as Hk.
  assert (kept st ++ late_writes (stable_sort pending_le (deferred_writes st)) =
    map (out data evs) (order lookahead (resolved evs))) as HO.
  { unfold order. by rewrite map_app, length_resolved, <- Hk, Ho, length_resolved. }
  eexists. split; [by rewrite HO|]. rewrite <- HO. split; [done|]. cbn [n_kept total_input generic_exits_dropped
    openat_exits_dropped writes_deferred writes_flushed late_deferred].
  pose proof (Permutation_length Hp) as Hl. rewrite length_map in Hl. pose proof (iv_count _ _ _ _ _ Hinv) as Hc.
  unfold survivors_to in Hc. fold (survivors evs) in Hc. pose proof (iv_held _ _ _ _ _ Hinv) as Hh.
  assert (length (late_writes (stable_sort pending_le (deferred_writes st))) = length (writes (deferred_writes st))) as Hw.
  { unfold late_writes, writes. rewrite (stable_sort_Permutation pending_le (deferred_writes st)), <- map_map, <- concat_map.
    apply length_map. }
  rewrite Hl, Hw. split_and!; lia.
Qed.

(** *** The filters by process *)
Lemma filterM_pure {A} (f : A → res bool) (g : A → bool) l :
  (∀ x, x ∈ l → f x = Ok (g x)) → filterM f l = Ok (List.filter g l).
Proof.
  induction l as [|x l IH]; [done|]. intros Hf. cbn. rewrite Hf by (by left). cbn [mbind res_bind].
  rewrite IH by (intros; apply Hf; by right). done.
Qed.

Lemma filter_filter {A} (f g : A → bool) l : List.filter g (List.filter f l) = List.filter (λ x, f x && g x) l.
Proof. induction l as [|x l IH]; [done|]. cbn. destruct (f x); cbn; [destruct (g x)|]; by rewrite ?IH. Qed.

Lemma hmem_names comm l : hmem (KStr comm) (map KStr l) = existsb (λ s, eq_str (JStr comm) s) l.
Proof.
  unfold hmem. induction l as [|x l IH]; [by rewrite bool_decide_false by (by inversion 1)|]. cbn [existsb map].
  rewrite <- IH. cbn [eq_str]. destruct (String.eqb_spec comm x) as [->|Hne]; cbn [orb]; [by rewrite bool_decide_true by (by left)|].
  apply bool_decide_ext. rewrite elem_of_cons. naive_solver.
Qed.

Lemma select_complete data procs pid : Forall (λ r, is_Some (view r)) data →
  select data procs pid = Ok (List.filter (selected procs pid) data).
Proof.
  intros HF. rewrite Forall_forall in HF. unfold select.
  set (bp := λ r, match r with JObj d =>
    match procs with [] => true | _ => existsb (λ s, eq_str (getd d "process_name") s) procs end | _ => false end).
  set (bi := λ r, match r with JObj d => match pid with None => true | Some p => py_eq (getd d "pid") (JInt p) end | _ => false end).
  transitivity (Ok (List.filter bi (List.filter bp data))).
  - assert (∀ P : json → bool, (∀ r, r ∈ data → P r = true) → List.filter P data = data) as Hall.
    { intros P HP. clear -HP. induction data as [|x l IH]; [done|]. cbn. rewrite HP by (by left). f_equal. apply IH.
      intros; apply HP; by right. }
    assert (∀ r, r ∈ data → ∃ d p comm, r = JObj d ∧ dget "process_name" d = Some (JStr comm) ∧
      dget "pid" d = Some (JInt p) ∧ rec_pid r = Ok (JInt p)) as Hv.
    { intros r Hr. destruct (HF r Hr) as [e He].
      apply record_inv in He as (d & p & ? & ? & ? & ? & ? & comm & ? & _ & ? & ? & F & _). exists d, p, comm.
      split_and!; [done..|apply F]. }
    assert (match procs with [] => Ok data | _ => filterM (λ r, v ← get r "process_name"; k ← hkey_of v;
      Ok (hmem k (map KStr procs))) data end = Ok (List.filter bp data)) as ->.
    { destruct procs as [|s procs]; [rewrite Hall; [done|]; intros r Hr; by destruct (Hv r Hr) as (d & ? & ? & -> & _)|].
      apply filterM_pure. intros r Hr. destruct (Hv r Hr) as (d & p & comm & -> & Hc & _).
      unfold get, bp, getd. rewrite Hc. cbn [default from_option id mbind res_bind hkey_of]. f_equal. apply hmem_names. }
    cbn [mbind res_bind]. destruct pid as [p|].
    + apply filterM_pure. intros r Hr%list_elem_of_In%filter_In. destruct Hr as [Hr _]. apply list_elem_of_In in Hr.
      destruct (Hv r Hr) as (d & p' & comm & -> & _ & Hp & ->). cbn. unfold getd. by rewrite Hp.
    + f_equal. clear -Hv. symmetry. assert (∀ x, x ∈ List.filter bp data → bi x = true) as Hb.
      { intros r Hr%list_elem_of_In%filter_In. destruct Hr as [Hr _]. apply list_elem_of_In in Hr.
        by destruct (Hv r Hr) as (d & ? & ? & -> & _). }
      induction (List.filter bp data) as [|x l IH]; [done|]. cbn [List.filter]. rewrite Hb by (by left). f_equal. apply IH.
      intros; apply Hb; by right.
  - f_equal. rewrite filter_filter. apply filter_ext. intros r. unfold bp, bi, selected. by destruct r.
Qed.

(** C17: The filter on a log of complete records: it succeeds; what it writes are
    the records of the reference, in its order; they are the records other than
    exits, each once; and the report adds up. *)
Theorem filter_log_exact input data procs pid lookahead :
  loads input = Ok (JList data) → Forall (λ r, is_Some (view r)) data → 0 ≤ lookahead →
  let sel := List.filter (selected procs pid) data in
  ∃ evs rep, mapM view sel = Some evs ∧
    let written_out := map (out sel evs) (order lookahead (resolved evs)) in
    filter_log input procs pid lookahead = Ok (enc Indent2 0 (JList written_out), rep) ∧
    written_out ≡ₚ map (out sel evs) (survivors evs) ∧
    n_kept rep = Z.of_nat (length (survivors evs)) ∧ total_input rep = Z.of_nat (length sel) ∧
    n_kept rep + generic_exits_dropped rep + openat_exits_dropped rep = total_input rep ∧
    writes_deferred rep = writes_flushed rep + late_deferred rep.
Proof.
  intros Hl Hv Hla sel.
  assert (Forall (λ r, is_Some (view r)) sel) as Hsel.
  { rewrite Forall_forall in Hv |- *. intros r Hr%list_elem_of_In%filter_In. destruct Hr as [Hr _]. by apply Hv, list_elem_of_In. }
  destruct (mapM_is_Some_2 _ _ Hsel) as [evs He]. apply mapM_Some in He.
  destruct (filter_records_exact _ _ lookahead He Hla) as (rep & Hf & Hrest). exists evs, rep.
  split; [by apply mapM_Some|]. split; [|done].
  unfold filter_log. rewrite Hl. cbn [mbind res_bind iterate]. rewrite (select_complete _ _ _ Hv). cbn [mbind res_bind].
  fold sel. rewrite Hf. done.
Qed.

(** ** Examples *)
Definition record (p nr fd size ret : Z) (name : string) : json :=
  JObj [("pid", JInt p); ("process_name", JStr "fio"); ("syscall_nr", JInt nr); ("fd", JInt fd); ("size", JInt size);
        ("filename", JStr name); ("ret", JInt ret)].

(** A write that reached the log before the entry and the exit of its
    [openat], an unrelated write of another process, and the exits. *)
Definition reordered_log : list json :=
  [record 1 1 5 4096 0 ""; record 2 1 5 512 0 ""; record 1 OPENAT_NR 0 0 (-1) "data"; record 1 OPENAT_NR 0 0 5 "";
   record 1 0 EXIT_FD 1 4096 ""].

Lemma filter_log_exact_witness : ∃ rep,
  filter_log (enc Compact 0 (JList reordered_log)) ["fio"] None 250 =
    Ok (enc Indent2 0 (JList [record 2 1 5 512 0 ""; record 1 OPENAT_NR 0 0 5 "data"; record 1 1 5 4096 0 ""]), rep) ∧
  total_input rep = 5.
Proof.
  destruct (filter_log_exact (enc Compact 0 (JList reordered_log)) reordered_log ["fio"] None 250)
    as (evs & rep & He & Hf & _ & _ & Ht & _).
  - vm_compute. reflexivity.
  - repeat constructor; eexists; reflexivity.
  - lia.
  - exists rep. assert (evs = [Write 1 5; Write 2 5; Open 1 (-1); OpenExit 1 5; Exit]) as ->.
    { vm_compute in He. by injection He. }
    split; [rewrite Hf; vm_compute; reflexivity|rewrite Ht; vm_compute; reflexivity].
Defined.

(** A write to a descriptor that was open before the capture, which is closed
    and given to another file soon after: the write is held back until the new
    file is opened, and so moves to the other file. *)
Definition recycled_log : list json :=
  [record 1 1 5 4096 0 ""; record 1 CLOSE_NR 5 0 0 ""; record 1 OPENAT_NR 0 0 (-1) "other"; record 1 OPENAT_NR 0 0 5 ""].

Example recycled_descriptor : fst <$> filter_records recycled_log DEFAULT_LOOKAHEAD =
  Ok [record 1 CLOSE_NR 5 0 0 ""; record 1 OPENAT_NR 0 0 5 "other"; record 1 1 5 4096 0 ""].
Proof. vm_compute. reflexivity. Qed.

(** Two writes to one descriptor, of which only the first is held back: the
    second is written first. *)
Definition overtaking_log : list json :=
  [record 1 1 5 1 0 ""; record 1 OPENAT_NR 0 0 5 ""; record 1 1 5 2 0 ""; record 1 OPENAT_NR 0 0 (-1) "data"].

Example writes_overtake : fst <$> filter_records overtaking_log DEFAULT_LOOKAHEAD =
  Ok [record 1 1 5 2 0 ""; record 1 OPENAT_NR 0 0 5 "data"; record 1 1 5 1 0 ""].
Proof. vm_compute. reflexivity. Qed.
