(* ===== verification/NvmeTrace.v ===== *)
(** * The block-trace parser of the NVMe analyzer

    [analyzers/nvme_io_analyzer.py], class [BlktraceParser]: one pass over the
    text of blkparse that matches completions to queued requests, follows the
    queue depth, fills histograms of every completion and keeps a sample of
    bounded size; and the reader of [FtraceIOCollector], which does the same
    for the lines of the kernel's trace pipe.  The draws of the sampler are a
    parameter. *)

From stdpp Require Import prelude strings list gmap.
From Stdlib Require Import ZArith Lia Ascii.
From S2P Require Import Prelude PyText PyJson JsonText PyFloat FloatOps BlkParse.
Local Open Scope Z_scope.
Import BlkParse.

Module NvmeTrace.

Definition SECTOR_BYTES : Z := 512.
Definition MAX_PLOT_EVENTS : Z := 500000.
Definition MAX_QD_SAMPLES : Z := 200000.

(** ** Lines *)
Record blk_line := mkLine {
  ln_seq : Z; ln_ts : pyfloat; ln_action : string; ln_rwbs : string; ln_lba : Z; ln_secs : Z }.

Definition is_flag (c : ascii) : bool := is_upper c || is_digit09 c.

(** [_BLK_RE_SEQ.match(raw)]: every class is separated from the next by white
    space that neither contains, so the greedy match is the only one. *)
Definition _BLK_RE_SEQ_match (raw : string) : option (string * string * string * string * string * string) :=
  '(_, s) ← many1 is_digit09 (span is_space raw).2; s ← lit 44 s;
  '(_, s) ← many1 is_digit09 s; s ← gap s;
  '(_, s) ← many1 is_digit09 s; s ← gap s;
  '(g1, s) ← many1 is_digit09 s; s ← gap s;
  '(g2, s) ← many1 is_stamp s; s ← gap s;
  '(_, s) ← many1 is_digit09 s; s ← gap s;
  '(g3, s) ← many1 is_upper s; s ← gap s;
  '(g4, s) ← many1 is_flag s; s ← gap s;
  '(g5, s) ← many1 is_digit09 s; s ← gap s;
  s ← lit 43 s; s ← gap s;
  '(g6, _) ← many1 is_digit09 s;
  Some (g1, g2, g3, g4, g5, g6).

Definition parse_line (raw : string) : res (option blk_line) :=
  match _BLK_RE_SEQ_match raw with
  | None => Ok None
  | Some (seq_s, ts_s, action, rwbs, lba_s, secs_s) =>
      ts ← float_text ts_s;
      Ok (Some (mkLine (digits_val seq_s) ts action rwbs (digits_val lba_s) (digits_val secs_s)))
  end.

Example parse_line_ex : parse_line "  8,0    3   232    0.5  23185  Q   WS 3728512 + 8 [kworker]" =
  Ok (Some (mkLine 232 (FFin false 4503599627370496 (-53)) "Q" "WS" 3728512 8)).
Proof. vm_compute. reflexivity. Qed.

(** ** Directions and buckets *)
Inductive rw := RwR | RwW | RwO.
#[export] Instance rw_eq_dec : EqDecision rw.
Proof. solve_decision. Defined.

Definition _rw_flag (rwbs : string) : rw :=
  if has_char 82 rwbs then RwR else if has_char 87 rwbs then RwW else RwO.

Definition _log2b (v : Z) : nat := if v <=? 0 then 0%nat else Z.to_nat (Z.min (Z.log2 v) 31).

(** [hist[b] += 1] on an array of 64-bit counters *)
Definition bump (b : nat) (h : list Z) : list Z := alter (λ x, (x + 1) mod 2 ^ 64) b h.
Definition zeros32 : list Z := replicate 32 0.

(** ** The state of the pass *)
Record io_event := mkIo {
  io_ts : pyfloat; io_action : string; io_rw : rw; io_lba : Z; io_size : Z; io_lat : option pyfloat }.

Record matcher := mkMatcher { q_seq : gmap Z (pyfloat * rw * Z); q_lba : gmap Z (pyfloat * rw) }.

Record hists := mkHists { size_hist_r : list Z; size_hist_w : list Z; lat_hist_r : list Z; lat_hist_w : list Z }.

Record depth := mkDepth { inflight : Z; qd_stride : Z; qd_counter : Z; qd_ts : list (pyfloat * Z) }.

Record parser := mkParser {
  p_match : matcher; p_depth : depth; p_hists : hists;
  line_count : Z; comp_count : Z; reservoir : list io_event }.

(** *** Matching *)
Definition queue (m : matcher) (l : blk_line) : matcher :=
  let r := _rw_flag (ln_rwbs l) in
  mkMatcher (<[ln_seq l := (ln_ts l, r, ln_lba l)]> (q_seq m)) (<[ln_lba l := (ln_ts l, r)]> (q_lba m)).

Definition lat_of (ts q : pyfloat) : pyfloat := fmul (fsub ts q) (FFin false 1000 0).

(** The tables, the latency and the direction of a completion. *)
Definition complete (m : matcher) (l : blk_line) : matcher * option pyfloat * rw :=
  match q_seq m !! ln_seq l with
  | Some (q, r, a) => (mkMatcher (delete (ln_seq l) (q_seq m)) (delete a (q_lba m)), Some (lat_of (ln_ts l) q), r)
  | None =>
      match q_lba m !! ln_lba l with
      | Some (q, r) => (mkMatcher (q_seq m) (delete (ln_lba l) (q_lba m)), Some (lat_of (ln_ts l) q), r)
      | None => (m, None, _rw_flag (ln_rwbs l))
      end
  end.

(** *** Queue depth *)
Fixpoint every_other {A} (l : list A) : list A :=
  match l with [] => [] | [x] => [x] | x :: _ :: l => x :: every_other l end.

Definition depth_queued (d : depth) (ts : pyfloat) : depth :=
  let infl := inflight d + 1 in let c := qd_counter d + 1 in
  if c mod qd_stride d =? 0 then
    let q := qd_ts d ++ [(ts, infl)] in
    if MAX_QD_SAMPLES <=? Z.of_nat (length q) then mkDepth infl (qd_stride d * 2) c (every_other q)
    else mkDepth infl (qd_stride d) c q
  else mkDepth infl (qd_stride d) c (qd_ts d).

Definition depth_completed (d : depth) (ts : pyfloat) : depth :=
  let infl := Z.max 0 (inflight d - 1) in let c := qd_counter d + 1 in
  mkDepth infl (qd_stride d) c (if c mod qd_stride d =? 0 then qd_ts d ++ [(ts, infl)] else qd_ts d).

(** *** Histograms *)
Definition count_size (h : hists) (r : rw) (size_b : Z) : hists :=
  let b := _log2b size_b in
  match r with
  | RwR => mkHists (bump b (size_hist_r h)) (size_hist_w h) (lat_hist_r h) (lat_hist_w h)
  | _ => mkHists (size_hist_r h) (bump b (size_hist_w h)) (lat_hist_r h) (lat_hist_w h)
  end.

Definition count_latency (h : hists) (r : rw) (lat_ms : option pyfloat) : res hists :=
  match lat_ms with
  | Some lat =>
      if fltb fzero lat then
        lat_ns ← int_of (fmul lat (FFin false 1000000 0));
        let b := _log2b lat_ns in
        Ok (match r with
            | RwR => mkHists (size_hist_r h) (size_hist_w h) (bump b (lat_hist_r h)) (lat_hist_w h)
            | _ => mkHists (size_hist_r h) (size_hist_w h) (lat_hist_r h) (bump b (lat_hist_w h))
            end)
      else Ok h
  | None => Ok h
  end.

Section pass.
Context (max_events : Z) (randint : Z → Z).

(** *** The sampler: the draw at the [n]-th event is [rng.randint(0, n - 1)] *)
Definition _add_event (n : Z) (sample : list io_event) (ev : io_event) : list io_event :=
  if n <=? max_events then sample ++ [ev]
  else let j := randint n in if j <? max_events then <[Z.to_nat j := ev]> sample else sample.

Definition on_line (st : parser) (l : blk_line) : res parser :=
  let r := _rw_flag (ln_rwbs l) in
  let size_b := ln_secs l * SECTOR_BYTES in
  let lines := line_count st + 1 in
  if String.eqb (ln_action l) "Q" then
    Ok (mkParser (queue (p_match st) l) (depth_queued (p_depth st) (ln_ts l)) (p_hists st) lines
          (comp_count st) (reservoir st))
  else if String.eqb (ln_action l) "C" then
    let '(m, lat, r) := complete (p_match st) l in
    h ← count_latency (count_size (p_hists st) r size_b) r lat;
    let n := comp_count st + 1 in
    Ok (mkParser m (depth_completed (p_depth st) (ln_ts l)) h lines n
          (_add_event n (reservoir st) (mkIo (ln_ts l) "C" r (ln_lba l) size_b lat)))
  else if String.eqb (ln_action l) "D" then
    let n := comp_count st + 1 in
    Ok (mkParser (p_match st) (p_depth st) (p_hists st) lines n
          (_add_event n (reservoir st) (mkIo (ln_ts l) "D" r (ln_lba l) size_b None)))
  else Ok (mkParser (p_match st) (p_depth st) (p_hists st) lines (comp_count st) (reservoir st)).

Definition parse_raw (st : parser) (raw : string) : res parser :=
  l ← parse_line raw;
  match l with None => Ok st | Some l => on_line st l end.

Definition new_parser : parser :=
  mkParser (mkMatcher ∅ ∅) (mkDepth 0 1 0 []) (mkHists zeros32 zeros32 zeros32 zeros32) 0 0 [].

Definition _parse (lines : list string) : res parser := foldM parse_raw new_parser lines.

(** [_sampled] and [to_dataframe]: the rows with the attributes of the frame. *)
Definition sampled (st : parser) : bool := max_events <? comp_count st.
Definition to_dataframe (st : parser) : res (list io_event * (bool * Z * Z)) :=
  match reservoir st with
  | [] => Raise (Exn ValueError "No I/O events parsed.")
  | _ => Ok (reservoir st, (sampled st, comp_count st, Z.of_nat (length (reservoir st))))
  end.
End pass.

(** ** The reader of the trace pipe *)
Definition N_LBA : Z := 4096.
Definition ZONE_SECS : Z := 1048576.

(** [re.search]: the match at the first place that has one. *)
Fixpoint search {A} (m : string → option A) (s : string) : option A :=
  match m s with
  | Some x => Some x
  | None => match s with EmptyString => None | String _ t => search m t end
  end.

(** [(\d+\.\d+):] *)
Definition _RE_TS (s : string) : option string :=
  '(a, s) ← many1 is_digit09 s; s ← lit 46 s; '(b, s) ← many1 is_digit09 s; _ ← lit 58 s; Some (a +:+ "." +:+ b).

(** [\([^)]*\)] *)
Definition parenthesized (s : string) : option string :=
  s ← lit 40 s; lit 41 (span (λ c, negb (code c =? 41)) s).2.

(** [(\d+)\s+\+\s+(\d+)] *)
Definition sector_range (s : string) : option (string * string) :=
  '(a, s) ← many1 is_digit09 s; s ← gap s; s ← lit 43 s; s ← gap s; '(b, _) ← many1 is_digit09 s; Some (a, b).

(** The start that both patterns share: the name of the event, the device, the
    flags. *)
Definition event_head (name s : string) : option (string * string * string) :=
  s ← drop_prefix name s; s ← gap s;
  '(maj, s) ← many1 is_digit09 s; s ← lit 44 s; '(_, s) ← many1 is_digit09 s; s ← gap s;
  '(rwbs, s) ← many1 is_upper s; s ← gap s; Some (maj, rwbs, s).

(** major, flags, bytes, sector, number of sectors *)
Definition _RE_ISSUE (s : string) : option (string * string * string * string * string) :=
  '(maj, rwbs, s) ← event_head "block_rq_issue:" s;
  '(b, s) ← many1 is_digit09 s; s ← gap s; s ← parenthesized s; s ← gap s;
  '(sec, nrs) ← sector_range s; Some (maj, rwbs, b, sec, nrs).

(** The number of bytes is optional. *)
Definition _RE_COMP (s : string) : option (string * string * string * string) :=
  '(maj, rwbs, s) ← event_head "block_rq_complete:" s;
  let s := match (x ← many1 is_digit09 s; gap x.2) with Some t => t | None => s end in
  s ← parenthesized s; s ← gap s;
  '(sec, nrs) ← sector_range s; Some (maj, rwbs, sec, nrs).

Record ftrace := mkFtrace {
  ft_hists : hists; lba_hist_r : list Z; lba_hist_w : list Z; ft_inflight : gmap Z (pyfloat * bool) }.

Definition starts_R (rwbs : string) : bool := match rwbs with String c _ => code c =? 82 | EmptyString => false end.

Definition issue (st : ftrace) (ts : pyfloat) (rwbs bstr sec nrs : string) : ftrace :=
  let nr := digits_val nrs in
  let bytes_ := if 0 <? digits_val bstr then digits_val bstr else nr * 512 in
  let sector := digits_val sec in
  let is_r := starts_R rwbs in
  let zone := Z.to_nat (Z.min (sector / ZONE_SECS) (N_LBA - 1)) in
  mkFtrace (count_size (ft_hists st) (if is_r then RwR else RwW) bytes_)
    (if is_r then bump zone (lba_hist_r st) else lba_hist_r st)
    (if is_r then lba_hist_w st else bump zone (lba_hist_w st))
    (<[sector := (ts, is_r)]> (ft_inflight st)).

(** The entry leaves the table before its latency is computed, which may
    raise. *)
Definition finish (st : ftrace) (ts : pyfloat) (sec : string) : ftrace * option exn :=
  let sector := digits_val sec in
  let st' := mkFtrace (ft_hists st) (lba_hist_r st) (lba_hist_w st) (delete sector (ft_inflight st)) in
  match ft_inflight st !! sector with
  | Some (t0, is_r) =>
      if fltb fzero ts && fltb fzero t0 then
        match int_of (fmul (fsub ts t0) (FFin false 1000000000 0)) with
        | Ok lat_ns =>
            if 0 <? lat_ns then
              let h := ft_hists st in
              let b := _log2b lat_ns in
              (mkFtrace (if (is_r : bool) then mkHists (size_hist_r h) (size_hist_w h) (bump b (lat_hist_r h)) (lat_hist_w h)
                         else mkHists (size_hist_r h) (size_hist_w h) (lat_hist_r h) (bump b (lat_hist_w h)))
                 (lba_hist_r st) (lba_hist_w st) (ft_inflight st'), None)
            else (st', None)
        | Raise e => (st', Some e)
        end
      else (st', None)
  | None => (st', None)
  end.

Definition read_line (major : Z) (st : ftrace) (line : string) : ftrace * option exn :=
  match (match search _RE_TS line with Some t => float_text t | None => Ok fzero end) with
  | Raise e => (st, Some e)
  | Ok ts =>
      match search _RE_ISSUE line with
      | Some (maj, rwbs, bstr, sec, nrs) =>
          if digits_val maj =? major then (issue st ts rwbs bstr sec nrs, None) else (st, None)
      | None =>
          match search _RE_COMP line with
          | Some (maj, _, sec, _) => if digits_val maj =? major then finish st ts sec else (st, None)
          | None => (st, None)
          end
      end
  end.

(** The lines read before the collection stops; an exception ends the reader
    and is counted. *)
Fixpoint _reader (major : Z) (st : ftrace) (lines : list string) : ftrace * Z :=
  match lines with
  | [] => (st, 0)
  | l :: ls => let '(st, e) := read_line major st l in
               match e with None => _reader major st ls | Some _ => (st, 1) end
  end.

Definition zeros_lba : list Z := replicate (Z.to_nat N_LBA) 0.
Definition new_ftrace : ftrace := mkFtrace (mkHists zeros32 zeros32 zeros32 zeros32) zeros_lba zeros_lba ∅.

Example read_issue :
  search _RE_ISSUE "kworker-1234 [003] d..2 12345.678: block_rq_issue: 259,5 WS 524288 () 3256320 + 1024 [fio]" =
    Some ("259", "WS", "524288", "3256320", "1024") ∧
  search _RE_TS "kworker-1234 [003] d..2 12345.678: block_rq_issue: 259,5 WS" = Some "12345.678" ∧
  search _RE_COMP "kworker-0 [003] d..2 12345.679: block_rq_complete: 259,5 WS () 3256320 + 1024 [0]" =
    Some ("259", "WS", "3256320", "1024").
Proof. vm_compute. done. Qed.
End NvmeTrace.
