(* ===== verification/NvmeCorrect.v ===== *)
(** * What the block-trace parser of the NVMe analyzer records

    The parser against two plain lists: the records of all completions and
    issues, and the queue depth after every queueing and completion.  The
    counters count the first list whatever is sampled, the sample is made of
    its elements, each at most once, and the depths are the second list.  When
    a sequence number stands for one address, a completion is credited to the
    request with its number and address. *)

From stdpp Require Import prelude strings list gmap.
From Stdlib Require Import ZArith Lia Ascii.
From S2P Require Import Prelude PyText PyJson JsonText PyFloat FloatOps BlkParse NvmeTrace.
Local Open Scope Z_scope.
Import BlkParse NvmeTrace.

(** ** The plain lists *)
Fixpoint records (m : matcher) (ls : list blk_line) : list io_event :=
  match ls with
  | [] => []
  | l :: ls =>
      let size_b := ln_secs l * SECTOR_BYTES in
      if String.eqb (ln_action l) "Q" then records (queue m l) ls
      else if String.eqb (ln_action l) "C" then
        let '(m', lat, r) := complete m l in mkIo (ln_ts l) "C" r (ln_lba l) size_b lat :: records m' ls
      else if String.eqb (ln_action l) "D" then
        mkIo (ln_ts l) "D" (_rw_flag (ln_rwbs l)) (ln_lba l) size_b None :: records m ls
      else records m ls
  end.

Fixpoint depths (x : Z) (ls : list blk_line) : list (pyfloat * Z) :=
  match ls with
  | [] => []
  | l :: ls =>
      if String.eqb (ln_action l) "Q" then (ln_ts l, x + 1) :: depths (x + 1) ls
      else if String.eqb (ln_action l) "C" then (ln_ts l, Z.max 0 (x - 1)) :: depths (Z.max 0 (x - 1)) ls
      else depths x ls
  end.

Definition is_completion (e : io_event) : bool := String.eqb (io_action e) "C".
Definition is_rd (e : io_event) : bool := match io_rw e with RwR => true | _ => false end.

(** The number of events, as a 64-bit counter has it. *)
Definition counted (p : io_event → bool) (rs : list io_event) : Z := Z.of_nat (length (List.filter p rs)) mod 2 ^ 64.

Definition sized (rd : bool) (b : nat) (e : io_event) : bool :=
  is_completion e && Bool.eqb (is_rd e) rd && (_log2b (io_size e) =? b)%nat.

(** The bucket of a positive latency, in nanoseconds. *)
Definition lat_bucket (e : io_event) : option nat :=
  match io_lat e with
  | Some lat => if fltb fzero lat then
                  match int_of (fmul lat (FFin false 1000000 0)) with Ok ns => Some (_log2b ns) | Raise _ => None end
                else None
  | None => None
  end.
Definition timed (rd : bool) (b : nat) (e : io_event) : bool :=
  Bool.eqb (is_rd e) rd && bool_decide (lat_bucket e = Some b).

(** ** Latencies are numbers *)
Lemma fmul_below x B m : below B x → m ≠ 0%N → Z.of_N m < 2 ^ 53 → 0 ≤ B ≤ 700 → below (B + 110) (fmul x (FFin false m 0)).
Proof.
  intros (k & e & -> & Hk & He) Hm Hlt HB. cbn [fmul xorb].
  destruct (frac k e) as [a b] eqn:E1. change (frac m 0) with (Z.of_N m * 1, 1).
  pose proof (log2_below (Z.of_N k) 53 ltac:(lia) Hk) as Hlk. pose proof (log2_below (Z.of_N m) 53 ltac:(lia) Hlt) as Hlm.
  assert (0 ≤ a ∧ 0 < b ∧ Z.log2 a - Z.log2 b ≤ B + 53) as (Ha & Hb & Hab).
  { unfold frac in E1. destruct (Z.leb_spec 0 e); injection E1 as <- <-.
    - pose proof (log2_mul_pow (Z.of_N k) e ltac:(lia) ltac:(lia)). change (Z.log2 1) with 0. split_and!; [nia|lia|lia].
    - rewrite Z.log2_pow2 by lia. split_and!; [lia|apply Z.pow_pos_nonneg; lia|lia]. }
  assert (below (B + 110) (quotient false (a * (Z.of_N m * 1)) (b * 1))) as Hq.
  { rewrite !Z.mul_1_r. apply quotient_below; [nia|lia| |lia].
    destruct (Z.eq_dec a 0) as [->|Hnz]; [rewrite Z.mul_0_l; change (Z.log2 0) with 0; pose proof (Z.log2_nonneg b); lia|].
    pose proof (Z.log2_mul_above a (Z.of_N m) ltac:(lia) ltac:(lia)). lia. }
  destruct k; exact Hq.
Qed.

(** The product of a negative number and a positive one is not positive. *)
Definition nonpos (f : pyfloat) : Prop := match f with FFin n m _ => n = true ∨ m = 0%N | FInf n => n = true | FNaN => False end.

Lemma quotient_nonpos num den : nonpos (quotient true num den).
Proof. unfold quotient. repeat case_match; simpl; auto. Qed.

Lemma nonpos_fltb f : nonpos f → fltb fzero f = false.
Proof.
  destruct f as [n m e|n|]; simpl; [|by intros ->|done]. intros H. unfold fzero.
  rewrite (fltb_fin _ _ _ _ _ _ (Z.min e 0)) by lia. cbn [sgn]. apply Z.ltb_ge.
  assert (0 < 2 ^ (e - Z.min e 0)) by (apply Z.pow_pos_nonneg; lia). unfold sgn.
  destruct H as [-> | ->]; [nia|]. destruct n; simpl; lia.
Qed.

Lemma fmul_nonpos x m : m ≠ 0%N → nonpos x → nonpos (fmul x (FFin false m 0)).
Proof.
  intros Hm. destruct x as [n k e1|n|]; [|destruct m; [done|by intros ->]|done]. cbn [nonpos fmul].
  destruct (frac k e1) as [a b] eqn:E1, (frac m 0) as [c d] eqn:E2. intros [-> | ->]; [destruct k; apply quotient_nonpos|].
  assert (a = 0) as ->; [|by simpl; right]. unfold frac in E1. destruct (0 <=? e1); injection E1; lia.
Qed.

Lemma fsub_nonpos x y : finite x → finite y → fltb x y = true → nonpos (fsub x y).
Proof.
  intros (n & m & e & ->) (n' & m' & e' & ->). rewrite (fltb_fin _ _ _ _ _ _ (Z.min e e')) by lia.
  intros Hlt%Z.ltb_lt. unfold fsub, fadd, fopp.
  replace (sgn (negb n') m') with (- sgn n' m') by (destruct n'; simpl; lia).
  set (s := sgn n m * _ + _). assert (s < 0) as Hs by (unfold s; lia).
  destruct (Z.eqb_spec s 0); [lia|]. rewrite (proj2 (Z.ltb_lt s 0)) by done.
  destruct (0 <=? Z.min e e'); apply quotient_nonpos.
Qed.

Lemma count_latency_ok h r ts q : below 200 ts → below 200 q → is_ok (count_latency h r (Some (lat_of ts q))) = true.
Proof.
  intros Ht Hq. unfold count_latency. destruct (fltb fzero (lat_of ts q)) eqn:Hpos; [|done].
  destruct (fltb ts q) eqn:Hlt.
  - rewrite nonpos_fltb in Hpos; [done|]. apply fmul_nonpos; [done|].
    apply fsub_nonpos; eauto using below_finite.
  - pose proof (fsub_below _ _ _ Ht Hq Hlt) as Hs.
    pose proof (fmul_below _ _ 1000 Hs ltac:(done) ltac:(done) ltac:(lia)) as H1.
    pose proof (fmul_below _ _ 1000000 H1 ltac:(done) ltac:(done) ltac:(lia)) as H2.
    destruct (int_of_below _ _ H2) as (i & Hi & _). unfold lat_of. rewrite Hi. done.
Qed.

(** ** Counters *)
Definition hist_of (p : nat → io_event → bool) (rs : list io_event) (h : list Z) : Prop :=
  length h = 32%nat ∧ ∀ b, (b < 32)%nat → h !! b = Some (counted (p b) rs).

Lemma counted_snoc p rs e : counted p (rs ++ [e]) = if p e then (counted p rs + 1) mod 2 ^ 64 else counted p rs.
Proof.
  unfold counted. rewrite List.filter_app, length_app. cbn. destruct (p e); cbn; [|by rewrite Nat.add_0_r].
  rewrite Nat2Z.inj_add, Zplus_mod_idemp_l. done.
Qed.

Lemma hist_bump p rs h e b : hist_of p rs h → (∀ b', p b' e = bool_decide (b = b')) → hist_of p (rs ++ [e]) (bump b h).
Proof.
  intros [Hl Hh] Hp. split; [unfold bump; by rewrite length_alter|]. intros b' Hb'. rewrite counted_snoc, Hp.
  case_bool_decide as Hb; unfold bump.
  - subst b'. rewrite list_lookup_alter, decide_True, Hh by done. done.
  - rewrite list_lookup_alter_ne by done. by rewrite Hh.
Qed.

Lemma hist_same p rs h e : hist_of p rs h → (∀ b, p b e = false) → hist_of p (rs ++ [e]) h.
Proof. intros [Hl Hh] Hp. split; [done|]. intros b Hb. by rewrite counted_snoc, Hp, Hh. Qed.

Lemma hist_start p : hist_of p [] zeros32.
Proof. split; [done|]. intros b Hb. unfold zeros32. by rewrite lookup_replicate_2. Qed.

Definition hists_of (rs : list io_event) (h : hists) : Prop :=
  hist_of (sized true) rs (size_hist_r h) ∧ hist_of (sized false) rs (size_hist_w h) ∧
  hist_of (timed true) rs (lat_hist_r h) ∧ hist_of (timed false) rs (lat_hist_w h).

Lemma hists_completed rs h ts r a size lat h' : hists_of rs h → count_latency (count_size h r size) r lat = Ok h' →
  hists_of (rs ++ [mkIo ts "C" r a size lat]) h'.
Proof.
  intros (H1 & H2 & H3 & H4) Hc. set (e := mkIo ts "C" r a size lat).
  assert (∀ rd b, sized rd b e = Bool.eqb (match r with RwR => true | _ => false end) rd && bool_decide (_log2b size = b)) as Hsz.
  { intros rd b. unfold sized. cbn. f_equal. destruct (Nat.eqb_spec (_log2b size) b); symmetry;
      [by apply bool_decide_true|by apply bool_decide_false]. }
  assert (∃ h1, count_size h r size = h1 ∧ hist_of (sized true) (rs ++ [e]) (size_hist_r h1) ∧
    hist_of (sized false) (rs ++ [e]) (size_hist_w h1) ∧ lat_hist_r h1 = lat_hist_r h ∧ lat_hist_w h1 = lat_hist_w h)
    as (h1 & E1 & S1 & S2 & L1 & L2).
  { eexists. split; [reflexivity|]. destruct r; cbn; (split_and!; [..|done|done]);
      first [apply hist_bump; [done|]; intros b; rewrite Hsz; done|apply hist_same; [done|]; intros b; by rewrite Hsz]. }
  rewrite E1 in Hc. clear E1 Hsz.
  assert (∀ rd b, timed rd b e = Bool.eqb (match r with RwR => true | _ => false end) rd && bool_decide (lat_bucket e = Some b))
    as Htm by done.
  unfold count_latency in Hc. destruct lat as [lat|].
  2:{ res_inv. unfold hists_of. rewrite L1, L2. split_and!; [done..| |];
        (apply hist_same; [done|]; intros b; rewrite Htm; by rewrite bool_decide_false, andb_false_r). }
  destruct (fltb fzero lat) eqn:Hpos.
  2:{ res_inv. unfold hists_of. rewrite L1, L2. split_and!; [done..| |];
        (apply hist_same; [done|]; intros b; rewrite Htm; rewrite bool_decide_false, andb_false_r; [done|]);
        unfold lat_bucket; cbn [io_lat e]; by rewrite Hpos. }
  apply bind_Ok in Hc as (ns & Hns & Hc). apply Ok_inj in Hc as <-.
  assert (∀ b, bool_decide (lat_bucket e = Some b) = bool_decide (_log2b ns = b)) as Hb.
  { intros b. apply bool_decide_ext. unfold lat_bucket. cbn [io_lat e]. rewrite Hpos, Hns. split; congruence. }
  unfold hists_of. destruct r; cbn; rewrite ?L1, ?L2; (split_and!; [done..| |]);
    first [apply hist_bump; [done|]; intros b; rewrite Htm, Hb; done|apply hist_same; [done|]; intros b; by rewrite Htm].
Qed.

Lemma hists_issued rs h ts r a size : hists_of rs h → hists_of (rs ++ [mkIo ts "D" r a size None]) h.
Proof.
  intros (H1 & H2 & H3 & H4). unfold hists_of. split_and!; (apply hist_same; [done|]); intros b; [done|done|..];
    unfold timed; by rewrite bool_decide_false, andb_false_r.
Qed.

(** ** The sample *)
Definition sample_of (max_events : Z) (rs sample : list io_event) : Prop :=
  Z.of_nat (length sample) = Z.min (Z.max 0 max_events) (Z.of_nat (length rs)) ∧
  (Z.of_nat (length rs) ≤ max_events → sample = rs) ∧
  ∃ js, NoDup js ∧ Forall2 (λ j x, rs !! j = Some x) js sample.

Lemma NoDup_insert_fresh {A} (l : list A) i x : NoDup l → x ∉ l → NoDup (<[i := x]> l).
Proof.
  revert i. induction l as [|y l IH]; intros i; [done|]. intros [Hy Hl]%NoDup_cons [Hxy Hx]%not_elem_of_cons.
  destruct i as [|i]; [by constructor|]. change (<[S i := x]> (y :: l)) with (y :: <[i := x]> l).
  constructor; [|by apply IH].
  intros (k & Hk)%list_elem_of_lookup. destruct (decide (i = k)) as [->|Hne].
  - apply list_lookup_insert_Some in Hk as [(_ & -> & _)|(? & _)]; done.
  - rewrite list_lookup_insert_ne in Hk by done. apply Hy, list_elem_of_lookup. eauto.
Qed.

Lemma sample_add max_events randint rs sample e n : (∀ n, 0 < n → 0 ≤ randint n < n) → sample_of max_events rs sample →
  n = Z.of_nat (length rs) + 1 → sample_of max_events (rs ++ [e]) (_add_event max_events randint n sample e).
Proof.
  intros Hr (Hl & Heq & js & Hnd & HF) ->. unfold _add_event, sample_of. rewrite length_app. cbn [length].
  assert (Forall2 (λ j x, (rs ++ [e]) !! j = Some x) js sample) as HF'.
  { eapply Forall2_impl; [exact HF|]. intros j x Hj. cbn in *. by apply lookup_app_l_Some. }
  assert ((rs ++ [e]) !! length rs = Some e) as Hlast by (by rewrite list_lookup_middle).
  assert (length rs ∉ js) as Hfresh.
  { intros Hin. apply list_elem_of_lookup in Hin as (i & Hi). destruct (Forall2_lookup_l _ _ _ _ _ HF Hi) as (x & _ & Hx).
    apply lookup_lt_Some in Hx. lia. }
  destruct (Z.leb_spec (Z.of_nat (length rs) + 1) max_events) as [Hle|Hgt].
  - rewrite (Heq ltac:(lia)) in HF' |- *. rewrite length_app. cbn. split; [lia|]. split; [done|].
    exists (js ++ [length rs]). split.
    + apply NoDup_app. split; [done|]. split; [|apply NoDup_singleton]. intros x Hx ->%list_elem_of_singleton. done.
    + apply Forall2_app; [done|]. by constructor.
  - specialize (Hr (Z.of_nat (length rs) + 1) ltac:(lia)). cbv zeta. destruct (Z.ltb_spec (randint (Z.of_nat (length rs) + 1)) max_events).
    + rewrite length_insert. split; [lia|]. split; [lia|].
      exists (<[Z.to_nat (randint (Z.of_nat (length rs) + 1)) := length rs]> js).
      split; [by apply NoDup_insert_fresh|by apply Forall2_insert].
    + split; [lia|]. split; [lia|]. by exists js.
Qed.

(** ** The depths *)
Definition depth_of (dq : list (pyfloat * Z)) (d : depth) : Prop :=
  Z.of_nat (length dq) < MAX_QD_SAMPLES → qd_stride d = 1 ∧ qd_ts d = dq.

Lemma depth_queued_ok dq d ts : depth_of dq d →
  depth_of (dq ++ [(ts, inflight d + 1)]) (depth_queued d ts) ∧ inflight (depth_queued d ts) = inflight d + 1.
Proof.
  intros Hd. unfold depth_queued. cbv zeta. split.
  - unfold depth_of. rewrite length_app. cbn [length]. intros Hl. destruct (Hd ltac:(lia)) as [-> ->].
    rewrite Z.mod_1_r, Z.eqb_refl. destruct (Z.leb_spec MAX_QD_SAMPLES (Z.of_nat (length (dq ++ [(ts, inflight d + 1)]))));
      [|done]. rewrite length_app in *. cbn [length] in *. lia.
  - by repeat case_match.
Qed.

Lemma depth_completed_ok dq d ts : depth_of dq d →
  depth_of (dq ++ [(ts, Z.max 0 (inflight d - 1))]) (depth_completed d ts) ∧
  inflight (depth_completed d ts) = Z.max 0 (inflight d - 1).
Proof.
  intros Hd. split; [|done]. unfold depth_of. rewrite length_app. cbn [length]. intros Hl.
  destruct (Hd ltac:(lia)) as [Hs Hq]. unfold depth_completed. cbv zeta. cbn [qd_stride qd_ts].
  by rewrite Hs, Hq, Z.mod_1_r, Z.eqb_refl.
Qed.

(** ** The pass *)
Definition tables_ok (m : matcher) : Prop :=
  map_Forall (λ _ x, below 200 x.1.1) (q_seq m) ∧ map_Forall (λ _ x, below 200 x.1) (q_lba m).

Lemma queue_ok m l : tables_ok m → below 200 (ln_ts l) → tables_ok (queue m l).
Proof. intros [H1 H2] Hl. split; by apply map_Forall_insert_2. Qed.

Lemma complete_ok m l h : tables_ok m → below 200 (ln_ts l) → ∃ m' lat r, complete m l = (m', lat, r) ∧ tables_ok m' ∧
  is_ok (count_latency (count_size h r (ln_secs l * SECTOR_BYTES)) r lat) = true.
Proof.
  intros [H1 H2] Hl. unfold complete. destruct (q_seq m !! ln_seq l) as [[[q r] a]|] eqn:E.
  - eexists _, _, _. split; [reflexivity|]. split; [split; cbn; by apply map_Forall_delete|].
    apply count_latency_ok; [done|]. exact (H1 _ _ E).
  - destruct (q_lba m !! ln_lba l) as [[q r]|] eqn:E'; (eexists _, _, _; split; [reflexivity|]); [|done].
    split; [split; cbn; [done|by apply map_Forall_delete]|]. apply count_latency_ok; [done|]. exact (H2 _ _ E').
Qed.

Section pass.
Context (max_events : Z) (randint : Z → Z) (Hr : ∀ n, 0 < n → 0 ≤ randint n < n).

Record inv (rs : list io_event) (dq : list (pyfloat * Z)) (n : Z) (st : parser) : Prop := mkInv {
  iv_tables : tables_ok (p_match st);
  iv_hists : hists_of rs (p_hists st);
  iv_count : comp_count st = Z.of_nat (length rs);
  iv_sample : sample_of max_events rs (reservoir st);
  iv_depth : depth_of dq (p_depth st);
  iv_lines : line_count st = n }.

Lemma inv_new : inv [] [] 0 new_parser.
Proof.
  constructor; [done| |done| |done|done].
  - split; [apply hist_start|]. split; [apply hist_start|]. split; apply hist_start.
  - split; [cbn; lia|]. split; [done|]. exists []. split; constructor.
Qed.

Lemma on_lines ls : ∀ rs dq n st, inv rs dq n st → Forall (λ l, below 200 (ln_ts l)) ls → ∃ st',
  foldM (on_line max_events randint) st ls = Ok st' ∧
  inv (rs ++ records (p_match st) ls) (dq ++ depths (inflight (p_depth st)) ls) (n + Z.of_nat (length ls)) st'.
Proof.
  induction ls as [|l ls IH]; intros rs dq n st Hi Hls.
  { exists st. split; [done|]. cbn. by rewrite !app_nil_r, Z.add_0_r. }
  apply Forall_cons in Hls as [Hl Hls]. destruct Hi as [Ht Hh Hc Hs Hd Hn]. cbn [foldM records depths length].
  set (F := foldM (on_line max_events randint)) in *. unfold on_line. cbv zeta.
  replace (n + Z.of_nat (S (length ls))) with (n + 1 + Z.of_nat (length ls)) by lia.
  destruct (String.eqb_spec (ln_action l) "Q") as [Hq|Hq].
  - cbn [mbind res_bind]. destruct (depth_queued_ok dq _ (ln_ts l) Hd) as [Hd' Hin].
    destruct (IH rs (dq ++ [(ln_ts l, inflight (p_depth st) + 1)]) (n + 1) (mkParser (queue (p_match st) l)
      (depth_queued (p_depth st) (ln_ts l)) (p_hists st) (line_count st + 1) (comp_count st) (reservoir st))) as (st' & Hst & Hinv); [|done|].
    { constructor; cbn [p_match p_hists comp_count reservoir p_depth line_count]; try done; [by apply queue_ok|lia]. }
    exists st'. split; [exact Hst|]. cbn in Hinv. rewrite Hin, <- app_assoc in Hinv. exact Hinv.
  - destruct (String.eqb_spec (ln_action l) "C") as [Hac|Hac].
    + destruct (complete_ok (p_match st) l (p_hists st) Ht Hl) as (m & lat & r & -> & Hm & Hok).
      destruct (count_latency _ r lat) as [h|] eqn:Hcl; [|done]. cbn [mbind res_bind].
      destruct (depth_completed_ok dq _ (ln_ts l) Hd) as [Hd' Hin].
      set (e := mkIo (ln_ts l) "C" r (ln_lba l) (ln_secs l * SECTOR_BYTES) lat).
      destruct (IH (rs ++ [e]) (dq ++ [(ln_ts l, Z.max 0 (inflight (p_depth st) - 1))]) (n + 1) (mkParser m
        (depth_completed (p_depth st) (ln_ts l)) h (line_count st + 1) (comp_count st + 1)
        (_add_event max_events randint (comp_count st + 1) (reservoir st) e))) as (st' & Hst & Hinv); [|done|].
      { constructor; cbn [p_match p_hists comp_count reservoir p_depth line_count]; try done.
        - by eapply hists_completed.
        - rewrite length_app. cbn. lia.
        - apply sample_add; [done|done|lia].
        - lia. }
      exists st'. split; [exact Hst|]. cbn [p_match p_depth] in Hinv. rewrite Hin, <- !app_assoc in Hinv. exact Hinv.
    + destruct (String.eqb_spec (ln_action l) "D") as [Had|Had]; cbn [mbind res_bind].
      * set (e := mkIo (ln_ts l) "D" _ (ln_lba l) (ln_secs l * SECTOR_BYTES) None).
        destruct (IH (rs ++ [e]) dq (n + 1) (mkParser (p_match st) (p_depth st) (p_hists st) (line_count st + 1)
          (comp_count st + 1) (_add_event max_events randint (comp_count st + 1) (reservoir st) e))) as (st' & Hst & Hinv); [|done|].
        { constructor; cbn [p_match p_hists comp_count reservoir p_depth line_count]; try done.
          - by apply hists_issued.
          - rewrite length_app. cbn. lia.
          - apply sample_add; [done|done|lia].
          - lia. }
        exists st'. split; [exact Hst|]. cbn [p_match p_depth] in Hinv. rewrite <- !app_assoc in Hinv. exact Hinv.
      * destruct (IH rs dq (n + 1) (mkParser (p_match st) (p_depth st) (p_hists st) (line_count st + 1) (comp_count st)
          (reservoir st))) as (st' & Hst & Hinv); [constructor; cbn; try done; lia|done|].
        exists st'. split; [exact Hst|]. exact Hinv.
Qed.

Lemma parse_lines raws ols st : mapMR parse_line raws = Ok ols →
  foldM (parse_raw max_events randint) st raws = foldM (on_line max_events randint) st (omap id ols).
Proof.
  revert ols st. induction raws as [|raw raws IH]; intros ols st H; cbn in H; res_inv; [done|].
  cbn [foldM]. assert (parse_raw max_events randint st raw = match v with None => Ok st | Some l => on_line max_events randint st l end)
    as -> by (unfold parse_raw; by rewrite E). destruct v as [l|]; cbn [mbind res_bind].
  - cbn. destruct (on_line max_events randint st l); cbn; [by apply IH|done].
  - cbn. by apply IH.
Qed.
End pass.

(** ** Which request a completion is credited to

    The tables of the parser are two dictionaries, by number and by address.
    Here the request is read off the lines before the completion. *)
Definition pairs_up (l : blk_line) : bool := String.eqb (ln_action l) "Q" || String.eqb (ln_action l) "C".

(** The last of the queueings and completions with [p], when it is a queueing. *)
Definition outstanding (p : blk_line → bool) (pre : list blk_line) : option blk_line :=
  match last (List.filter (λ l, pairs_up l && p l) pre) with
  | Some q => if String.eqb (ln_action q) "Q" then Some q else None
  | None => None
  end.

Definition same_key (c l : blk_line) : bool := (ln_seq l =? ln_seq c) && (ln_lba l =? ln_lba c).
Definition same_lba (c l : blk_line) : bool := ln_lba l =? ln_lba c.

(** The request of a completion: the one outstanding under its number and
    address, and failing that the one outstanding at its address. *)
Definition request_of (pre : list blk_line) (c : blk_line) : option blk_line :=
  match outstanding (same_key c) pre with Some q => Some q | None => outstanding (same_lba c) pre end.

(** [R] when the flags have an R, else [W] when they have a W. *)
Definition direction (rwbs : string) : rw :=
  if bool_decide ("R"%char ∈ String.list_ascii_of_string rwbs) then RwR
  else if bool_decide ("W"%char ∈ String.list_ascii_of_string rwbs) then RwW else RwO.

(** The record of a completion: the direction of its request and the
    milliseconds since, or its own direction and no latency. *)
Definition completion_record (pre : list blk_line) (c : blk_line) : io_event :=
  match request_of pre c with
  | Some q => mkIo (ln_ts c) "C" (direction (ln_rwbs q)) (ln_lba c) (ln_secs c * 512)
                (Some (fmul (fsub (ln_ts c) (ln_ts q)) (FFin false 1000 0)))
  | None => mkIo (ln_ts c) "C" (direction (ln_rwbs c)) (ln_lba c) (ln_secs c * 512) None
  end.

(** The records of the lines [ls] after the lines [pre]. *)
Fixpoint expected (pre ls : list blk_line) : list io_event :=
  match ls with
  | [] => []
  | l :: ls =>
      (if String.eqb (ln_action l) "C" then [completion_record pre l]
       else if String.eqb (ln_action l) "D" then [mkIo (ln_ts l) "D" (direction (ln_rwbs l)) (ln_lba l) (ln_secs l * 512) None]
       else []) ++ expected (pre ++ [l]) ls
  end.

(** A sequence number is used at one address only. *)
Definition one_address (ls : list blk_line) : Prop :=
  ∀ l l', l ∈ ls → l' ∈ ls → pairs_up l = true → pairs_up l' = true → ln_seq l = ln_seq l' → ln_lba l = ln_lba l'.

Lemma outstanding_snoc p pre l :
  outstanding p (pre ++ [l]) =
    if pairs_up l && p l then if String.eqb (ln_action l) "Q" then Some l else None else outstanding p pre.
Proof.
  unfold outstanding. rewrite List.filter_app. cbn [List.filter]. destruct (pairs_up l && p l); [by rewrite last_snoc|by rewrite app_nil_r].
Qed.

Lemma outstanding_Some p pre q : outstanding p pre = Some q → q ∈ pre ∧ ln_action q = "Q" ∧ p q = true.
Proof.
  unfold outstanding. destruct (last _) as [x|] eqn:E; [|done]. destruct (String.eqb_spec (ln_action x) "Q"); [|done].
  intros [= ->]. apply last_Some_elem_of, list_elem_of_In, filter_In in E as [Hin [_ Hp]%andb_true_iff].
  split; [by apply list_elem_of_In|done].
Qed.

Lemma has_char_elem c s : has_char (code c) s = bool_decide (c ∈ String.list_ascii_of_string s).
Proof.
  induction s as [|d s IH]; [done|]. cbn [has_char String.list_ascii_of_string]. rewrite IH.
  apply Bool.eq_true_iff_eq. rewrite orb_true_iff, !bool_decide_eq_true, elem_of_cons, Z.eqb_eq. split.
  - intros [E|?]; [left|by right]. unfold code in E. apply N2Z.inj in E.
    by rewrite <- (ascii_N_embedding c), <- E, ascii_N_embedding.
  - intros [->|?]; [by left|by right].
Qed.

Lemma direction_flag rwbs : _rw_flag rwbs = direction rwbs.
Proof. unfold _rw_flag, direction. by rewrite <- !has_char_elem. Qed.

(** The tables hold what is outstanding. *)
Record tables_of (pre : list blk_line) (m : matcher) : Prop := {
  to_seq s : q_seq m !! s = (λ q, (ln_ts q, _rw_flag (ln_rwbs q), ln_lba q)) <$> outstanding (λ l, ln_seq l =? s) pre;
  to_lba a : q_lba m !! a = (λ q, (ln_ts q, _rw_flag (ln_rwbs q))) <$> outstanding (λ l, ln_lba l =? a) pre
}.

Lemma tables_queue pre m l : ln_action l = "Q" → tables_of pre m → tables_of (pre ++ [l]) (queue m l).
Proof.
  intros Hq [H1 H2]. assert (pairs_up l = true) as Hp by (unfold pairs_up; by rewrite Hq).
  constructor; intros k; cbn [queue q_seq q_lba]; rewrite outstanding_snoc, Hp, Hq; cbn [andb].
  - destruct (Z.eqb_spec (ln_seq l) k) as [<-|]; [by rewrite lookup_insert_eq|by rewrite lookup_insert_ne].
  - destruct (Z.eqb_spec (ln_lba l) k) as [<-|]; [by rewrite lookup_insert_eq|by rewrite lookup_insert_ne].
Qed.

Lemma tables_other pre m l : pairs_up l = false → tables_of pre m → tables_of (pre ++ [l]) m.
Proof. intros Hp [H1 H2]. constructor; intros k; by rewrite outstanding_snoc, Hp. Qed.

(** A completion takes its request out of both tables. *)
Lemma tables_complete pre m l : ln_action l = "C" → tables_of pre m → one_address (pre ++ [l]) →
  tables_of (pre ++ [l]) (complete m l).1.1 ∧
  (complete m l).1.2 = (λ q, lat_of (ln_ts l) (ln_ts q)) <$> request_of pre l ∧
  (complete m l).2 = _rw_flag (ln_rwbs (default l (request_of pre l))).
Proof.
  intros Hc [H1 H2] Hone. assert (pairs_up l = true) as Hp by (unfold pairs_up; by rewrite Hc, orb_true_r).
  assert (l ∈ pre ++ [l]) as Hl by (apply elem_of_app; right; by left).
  assert (∀ x, x ∈ pre → pairs_up x = true → ln_seq x = ln_seq l → ln_lba x = ln_lba l) as Hsame.
  { intros x Hx Hpx Hs. apply (Hone x l); [apply elem_of_app; by left|done..]. }
  assert (outstanding (λ x, ln_seq x =? ln_seq l) pre = outstanding (same_key l) pre) as Hkey.
  { unfold outstanding. rewrite (List.filter_ext_in _ (λ x, pairs_up x && same_key l x) pre); [done|].
    intros x Hx%list_elem_of_In. unfold same_key.
    destruct (pairs_up x) eqn:Hpx; [|done]. destruct (Z.eqb_spec (ln_seq x) (ln_seq l)) as [Hs|]; [|done].
    rewrite (Hsame x Hx Hpx Hs), Z.eqb_refl. done. }
  assert (∀ m', (∀ s, s ≠ ln_seq l → q_seq m' !! s = q_seq m !! s) → q_seq m' !! ln_seq l = None →
    (∀ a, a ≠ ln_lba l → q_lba m' !! a = q_lba m !! a) → q_lba m' !! ln_lba l = None → tables_of (pre ++ [l]) m') as Hgo.
  { intros m' A1 A2 A3 A4. constructor; intros k; rewrite outstanding_snoc, Hp, Hc; cbn [andb].
    - destruct (Z.eqb_spec (ln_seq l) k) as [<-|]; [by rewrite A2|]. by rewrite A1.
    - destruct (Z.eqb_spec (ln_lba l) k) as [<-|]; [by rewrite A4|]. by rewrite A3. }
  unfold complete, request_of. rewrite H1, H2, Hkey.
  destruct (outstanding (same_key l) pre) as [q|] eqn:Eq; cbn [fmap option_fmap option_map fst snd default from_option id].
  - apply outstanding_Some in Eq as (Hq & HQ & [Hs%Z.eqb_eq Ha%Z.eqb_eq]%andb_true_iff). rewrite Ha. split; [|done].
    apply Hgo; cbn [q_seq q_lba]; [intros; by rewrite lookup_delete_ne|by rewrite lookup_delete_eq|intros; by rewrite lookup_delete_ne|by rewrite lookup_delete_eq].
  - assert (q_seq m !! ln_seq l = None) as Hnone by (rewrite H1, Hkey; by rewrite ?Eq).
    change (λ x, ln_lba x =? ln_lba l) with (same_lba l) in *.
    destruct (outstanding (same_lba l) pre) as [q|] eqn:El; cbn [fmap option_fmap option_map fst snd default from_option id].
    + split; [|done]. apply Hgo; cbn [q_seq q_lba]; [done|done|intros; by rewrite lookup_delete_ne|by rewrite lookup_delete_eq].
    + split; [|done]. apply Hgo; try done. rewrite H2. change (λ x, ln_lba x =? ln_lba l) with (same_lba l). by rewrite El.
Qed.

Lemma records_expected ls : ∀ pre m, tables_of pre m → one_address (pre ++ ls) → records m ls = expected pre ls.
Proof.
  induction ls as [|l ls IH]; intros pre m Ht Hone; [done|]. cbn [records expected].
  assert (one_address ((pre ++ [l]) ++ ls)) as Hone' by (by rewrite <- app_assoc).
  assert (one_address (pre ++ [l])) as Hone1.
  { intros x y Hx Hy. apply Hone'; apply elem_of_app; by left. }
  destruct (String.eqb_spec (ln_action l) "Q") as [Hq|Hnq].
  { rewrite Hq. cbn [app]. apply IH; [by apply tables_queue|done]. }
  destruct (String.eqb_spec (ln_action l) "C") as [Hc|Hnc].
  { destruct (tables_complete pre m l Hc Ht Hone1) as (Ht' & El & Er). destruct (complete m l) as [[m' lat] r]. cbn [fst snd] in *.
    subst lat r. cbn [app]. f_equal; [|by apply IH]. unfold completion_record, lat_of. rewrite direction_flag.
    by destruct (request_of pre l). }
  assert (pairs_up l = false) as Hp by (unfold pairs_up; by destruct (String.eqb_spec (ln_action l) "Q"), (String.eqb_spec (ln_action l) "C")).
  destruct (String.eqb_spec (ln_action l) "D"); cbn [app].
  - rewrite direction_flag. f_equal. apply IH; [by apply tables_other|done].
  - apply IH; [by apply tables_other|done].
Qed.

(** ** The buckets, by the numbers *)

(** Bucket [b] of 32: from [2 ^ b] up to [2 ^ (b + 1)]; the first has all smaller
    numbers as well, the last all larger ones. *)
Definition in_pow (b : nat) (v : Z) : bool :=
  ((b =? 0)%nat || (2 ^ Z.of_nat b <=? v)) && ((b =? 31)%nat || (v <? 2 ^ (Z.of_nat b + 1))).

Lemma log2b_pow b v : (b < 32)%nat → (_log2b v =? b)%nat = in_pow b v.
Proof.
  intros Hb. unfold _log2b, in_pow. destruct (Z.leb_spec v 0) as [Hv|Hv].
  - destruct b as [|b]; cbn [Nat.eqb orb andb].
    + symmetry. apply Z.ltb_lt. cbn. lia.
    + symmetry. apply andb_false_iff. left. apply Z.leb_gt. pose proof (Z.pow_pos_nonneg 2 (Z.of_nat (S b)) ltac:(lia) ltac:(lia)). lia.
  - pose proof (Z.log2_spec v Hv) as [Hlo Hhi]. pose proof (Z.log2_nonneg v) as H0. set (k := Z.log2 v) in *.
    assert (∀ n, 0 ≤ n → (2 ^ n <=? v) = (n <=? k)) as Hge.
    { intros n Hn. apply Bool.eq_true_iff_eq. rewrite !Z.leb_le. unfold k. rewrite <- Z.log2_le_pow2 by lia. done. }
    assert (∀ n, 0 ≤ n → (v <? 2 ^ n) = (k <? n)) as Hlt.
    { intros n Hn. rewrite <- (negb_involutive (v <? 2 ^ n)), <- (negb_involutive (k <? n)), <- !Z.leb_antisym. by rewrite Hge. }
    rewrite Hge, Hlt by lia.
    destruct (Nat.eqb_spec (Z.to_nat (Z.min k 31)) b), (Nat.eqb_spec b 0), (Nat.eqb_spec b 31), (Z.leb_spec (Z.of_nat b) k),
      (Z.ltb_spec k (Z.of_nat b + 1)); try done; exfalso; lia.
Qed.

(** The number of completions with [p], as a 64-bit counter has it. *)
Definition tallied (p : nat → io_event → bool) (rs : list io_event) (h : list Z) : Prop :=
  length h = 32%nat ∧ ∀ b, (b < 32)%nat →
    h !! b = Some (Z.of_nat (length (List.filter (λ e, String.eqb (io_action e) "C" && p b e) rs)) mod 2 ^ 64).

(** By direction and size, and by direction and latency in nanoseconds. *)
Definition by_size (rd : bool) (b : nat) (e : io_event) : bool := Bool.eqb (is_rd e) rd && in_pow b (io_size e).
Definition by_latency (rd : bool) (b : nat) (e : io_event) : bool :=
  Bool.eqb (is_rd e) rd &&
  match io_lat e with
  | Some lat => fltb fzero lat && match int_of (fmul lat (FFin false 1000000 0)) with Ok ns => in_pow b ns | Raise _ => false end
  | None => false
  end.

Lemma hist_tallied p p' rs h : (∀ b e, (b < 32)%nat → e ∈ rs → p b e = String.eqb (io_action e) "C" && p' b e) →
  hist_of p rs h → tallied p' rs h.
Proof.
  intros Hp [Hl Hh]. split; [done|]. intros b Hb. rewrite (Hh b Hb). unfold counted. do 4 f_equal.
  apply List.filter_ext_in. intros e He%list_elem_of_In. by apply Hp.
Qed.

Lemma expected_lat ls : ∀ pre e, e ∈ expected pre ls → io_action e ≠ "C" → io_lat e = None.
Proof.
  induction ls as [|l ls IH]; intros pre e He Ha; cbn [expected] in He; [by apply elem_of_nil in He|].
  apply elem_of_app in He as [He|He]; [|by eapply IH].
  destruct (String.eqb (ln_action l) "C").
  - apply list_elem_of_singleton in He as ->. unfold completion_record in *. by destruct (request_of pre l).
  - destruct (String.eqb (ln_action l) "D"); [by apply list_elem_of_singleton in He as ->|by apply elem_of_nil in He].
Qed.


(** ** The reader of the trace pipe: both views count the same requests *)
Definition total (h : list Z) : Z := foldr Z.add 0 h.
Definition counts (len : nat) (n : Z) (h : list Z) : Prop := length h = len ∧ Forall (λ x, 0 ≤ x ≤ n) h.

Lemma counts_mono len n n' h : counts len n h → n ≤ n' → counts len n' h.
Proof. intros [Hl Hf] Hn. split; [done|]. eapply Forall_impl; [exact Hf|]. cbn. lia. Qed.

Lemma total_bump len n h b : counts len n h → (b < len)%nat → n + 1 < 2 ^ 64 →
  total (bump b h) = total h + 1 ∧ counts len (n + 1) (bump b h).
Proof.
  intros [Hl Hf] Hb Hn. unfold counts. unfold bump at 2. rewrite length_alter.
  assert (total (bump b h) = total h + 1 ∧ Forall (λ x, 0 ≤ x ≤ n + 1) (bump b h)) as [? ?]; [|done].
  subst len. clear -Hf Hb Hn. revert b Hb. induction Hf as [|x h Hx Hf IH]; intros b Hb; [cbn in Hb; lia|].
  destruct b as [|b]; [change (bump 0 (x :: h)) with ((x + 1) mod 2 ^ 64 :: h)|change (bump (S b) (x :: h)) with (x :: bump b h)].
  - unfold total. cbn [foldr]. rewrite Z.mod_small by lia. split; [lia|]. constructor; [lia|].
    eapply Forall_impl; [exact Hf|]. cbn. lia.
  - cbn in Hb. destruct (IH b ltac:(lia)) as [Ht HF]. unfold total in *. cbn [foldr]. split; [lia|]. constructor; [lia|done].
Qed.

Lemma log2b_range v : (_log2b v < 32)%nat.
Proof. unfold _log2b. destruct (Z.leb_spec v 0); [lia|]. pose proof (Z.log2_nonneg v). lia. Qed.

(** Every request of the device is in one size and one zone of its direction,
    and no more latencies than requests are counted. *)
Record reader_inv (n : Z) (st : ftrace) : Prop := mkReader {
  rd_size_r : counts 32 n (size_hist_r (ft_hists st)); rd_size_w : counts 32 n (size_hist_w (ft_hists st));
  rd_lat_r : counts 32 n (lat_hist_r (ft_hists st)); rd_lat_w : counts 32 n (lat_hist_w (ft_hists st));
  rd_lba_r : counts (Z.to_nat N_LBA) n (lba_hist_r st); rd_lba_w : counts (Z.to_nat N_LBA) n (lba_hist_w st);
  rd_r : total (size_hist_r (ft_hists st)) = total (lba_hist_r st);
  rd_w : total (size_hist_w (ft_hists st)) = total (lba_hist_w st);
  rd_all : total (lat_hist_r (ft_hists st)) + total (lat_hist_w (ft_hists st)) + Z.of_nat (size (ft_inflight st)) ≤
           total (size_hist_r (ft_hists st)) + total (size_hist_w (ft_hists st)) }.

Lemma reader_mono n st : reader_inv n st → reader_inv (n + 1) st.
Proof. intros []. constructor; try done; (eapply counts_mono; [done|lia]). Qed.

Lemma digits_val_nonneg s : 0 ≤ digits_val s.
Proof.
  unfold digits_val. assert (∀ s acc prev z, 0 ≤ acc → parse_digits acc prev s = Some z → 0 ≤ z) as H.
  { clear s. induction s as [|c s IH]; intros acc prev z Ha; cbn; [destruct prev; by intros [= <-]|].
    destruct (is_digit09 c) eqn:Hc; [|destruct (code c =? 95); [|done]; destruct prev; [|done]; by apply IH].
    apply IH. unfold is_digit09 in Hc. unfold digit_val. apply andb_true_iff in Hc as [?%Z.leb_le _]. lia. }
  destruct (parse_digits 0 false s) eqn:E; cbn; [by eapply H|lia].
Qed.

Lemma issue_inv n st ts rwbs bstr sec nrs : reader_inv n st → n + 1 < 2 ^ 64 →
  reader_inv (n + 1) (issue st ts rwbs bstr sec nrs).
Proof.
  intros Hi Hn. pose proof (reader_mono _ _ Hi) as []. destruct Hi. unfold issue. cbv zeta.
  set (size_b := if 0 <? digits_val bstr then _ else _). set (zone := Z.to_nat _). pose proof (log2b_range size_b) as Hb.
  assert (zone < Z.to_nat N_LBA)%nat as Hz.
  { unfold zone, N_LBA. pose proof (digits_val_nonneg sec).
    pose proof (Z.div_pos (digits_val sec) ZONE_SECS ltac:(done) ltac:(done)). lia. }
  assert (∀ x, size (<[digits_val sec := x]> (ft_inflight st)) ≤ S (size (ft_inflight st)))%nat as Hsz.
  { intros x. destruct (ft_inflight st !! digits_val sec) eqn:E; [rewrite map_size_insert_Some by eauto|rewrite map_size_insert_None by done]; lia. }
  destruct (starts_R rwbs); unfold count_size; [destruct (total_bump _ _ _ _ rd_size_r1 Hb Hn), (total_bump _ _ _ _ rd_lba_r1 Hz Hn)
    |destruct (total_bump _ _ _ _ rd_size_w1 Hb Hn), (total_bump _ _ _ _ rd_lba_w1 Hz Hn)];
    (constructor; cbn [ft_hists size_hist_r size_hist_w lat_hist_r lat_hist_w lba_hist_r lba_hist_w ft_inflight]; try done; try lia);
    match goal with |- context [<[_ := ?x]> _] => specialize (Hsz x) end; lia.
Qed.

Lemma finish_inv n st ts sec : reader_inv n st → n + 1 < 2 ^ 64 → reader_inv (n + 1) (finish st ts sec).1.
Proof.
  intros Hi Hn. pose proof (reader_mono _ _ Hi) as []. destruct Hi. unfold finish. cbv zeta.
  assert (∀ m : gmap Z (pyfloat * bool), size (delete (digits_val sec) m) ≤ size m)%nat as Hle.
  { intros m. destruct (m !! digits_val sec) eqn:E; [rewrite map_size_delete_Some by eauto; lia|].
    by rewrite delete_id. }
  specialize (Hle (ft_inflight st)).
  destruct (ft_inflight st !! digits_val sec) as [[t0 is_r]|] eqn:E; [|constructor; cbn; try done; lia].
  assert (size (ft_inflight st) = S (size (delete (digits_val sec) (ft_inflight st)))) as Hsz.
  { rewrite map_size_delete_Some by eauto. destruct (size (ft_inflight st)) eqn:Hs; [|done].
    apply map_size_empty_inv in Hs. by rewrite Hs in E. }
  destruct (fltb fzero ts && fltb fzero t0); [|constructor; cbn; try done; lia].
  destruct (int_of _) as [ns|]; [|constructor; cbn; try done; lia].
  destruct (0 <? ns); [|constructor; cbn; try done; lia]. pose proof (log2b_range ns) as Hb.
  destruct is_r; [destruct (total_bump _ _ _ _ rd_lat_r1 Hb Hn)|destruct (total_bump _ _ _ _ rd_lat_w1 Hb Hn)];
    (constructor; cbn [fst ft_hists size_hist_r size_hist_w lat_hist_r lat_hist_w lba_hist_r lba_hist_w ft_inflight]; try done; lia).
Qed.

(** Whatever the pipe says: per direction, the histograms of sizes and of
    zones count the same number of requests, and the latencies and the
    requests in flight are together no more than the requests. *)
Theorem reader_views major lines : Z.of_nat (length lines) + 1 < 2 ^ 64 →
  let st := (_reader major new_ftrace lines).1 in
  total (size_hist_r (ft_hists st)) = total (lba_hist_r st) ∧
  total (size_hist_w (ft_hists st)) = total (lba_hist_w st) ∧
  total (lat_hist_r (ft_hists st)) + total (lat_hist_w (ft_hists st)) + Z.of_nat (size (ft_inflight st)) ≤
    total (size_hist_r (ft_hists st)) + total (size_hist_w (ft_hists st)).
Proof.
  intros Hlen. assert (∀ ls n st, reader_inv n st → n + Z.of_nat (length ls) + 1 < 2 ^ 64 → ∃ n',
    reader_inv n' (_reader major st ls).1) as Hgen.
  { induction ls as [|l ls IH]; intros n st Hi Hn; [by exists n|]. cbn [length] in Hn. cbn [_reader].
    assert (reader_inv (n + 1) (read_line major st l).1) as H1.
    { pose proof (reader_mono _ _ Hi) as Hm. unfold read_line.
      destruct (match search _RE_TS l with Some t => float_text t | None => Ok fzero end) as [ts|x]; [|exact Hm].
      destruct (search _RE_ISSUE l) as [[[[[? ?] ?] ?] ?]|].
      - destruct (_ =? major); [apply issue_inv; [done|lia]|exact Hm].
      - destruct (search _RE_COMP l) as [[[[? ?] ?] ?]|]; [|exact Hm].
        destruct (_ =? major); [apply finish_inv; [done|lia]|exact Hm]. }
    destruct (read_line major st l) as [st' [e|]]; [by eexists|]. apply (IH (n + 1)); [done|lia]. }
  destruct (Hgen lines 0 new_ftrace) as (n & []); [|lia|by split_and!].
  constructor; try done; try (split; [done|]; by apply Forall_replicate).
Qed.

(** ** Examples *)
Definition sample_lines : list string :=
  ["8,0 0 7 1.0 100 Q R 1000 + 8"; "8,0 0 8 1.5 100 D R 1000 + 8"; "8,0 1 7 2.0 100 C R 1000 + 8"; "CPU0 (8,0):"].

Definition sample_parsed : list blk_line := omap id (match mapMR parse_line sample_lines with Ok l => l | _ => [] end).


(** Sequence numbers are counted per CPU: a completed write of one CPU is
    credited to a read that another CPU queued at another address. *)
Example number_of_another_cpu :
  (st ← _parse 10 (λ _, 0) ["8,0 0 7 1.0 100 Q R 1000 + 8"; "8,0 1 7 2.0 200 C W 5000 + 8"]; Ok (reservoir st)) =
  Ok [mkIo (FFin false 4503599627370496 (-51)) "C" RwR 5000 4096 (Some (FFin false 8796093022208000 (-43)))].
Proof. vm_compute. reflexivity. Qed.

(** An issue counts as a completion. *)
Example issue_counted :
  (st ← _parse 10 (λ _, 0) ["8,0 0 7 1.0 100 D R 1000 + 8"]; Ok (comp_count st)) = Ok 1.
Proof. vm_compute. reflexivity. Qed.

(** A flush counts among the writes. *)
Example flush_counted :
  (st ← _parse 10 (λ _, 0) ["8,0 0 7 1.0 100 C F 0 + 0"]; Ok (nth 0 (size_hist_w (p_hists st)) 0)) = Ok 1.
Proof. vm_compute. reflexivity. Qed.
