(* ===== verification/IoPath.v ===== *)
(** * The IO path observer

    [io_path_observer.py]: the parsing of strace output, of [/proc/<pid>/maps]
    and of page-map entries, and the cross-reference of a system call with the
    mapping it touches.  What the kernel or the file system answers (the lines
    of a file, the bytes at an offset, [os.path.exists] and [realpath]) is an
    argument. *)

From stdpp Require Import prelude strings list gmap.
From Stdlib Require Import ZArith Lia Ascii.
From S2P Require Import Prelude PyText PyJson JsonText PyFloat BlkParse.
Local Open Scope Z_scope.

Module IoPath.

(** ** Integers in other bases *)
Fixpoint base_digits (b acc : Z) (prev : bool) (s : string) : option Z :=
  match s with
  | EmptyString => if prev then Some acc else None
  | String c s =>
      match hex_val c with
      | Some v => if v <? b then base_digits b (b * acc + v) true s else None
      | None => if (code c =? 95) && prev then base_digits b acc false s else None
      end
  end.

(** The text after a prefix such as [0x]; [z] is the small letter. *)
Definition after_prefix (z : Z) (s : string) : option string :=
  match s with
  | String c (String x t) =>
      if (code c =? 48) && ((code x =? z) || (code x =? z - 32)) then
        Some (match t with String u t' => if code u =? 95 then t' else t | EmptyString => t end)
      else None
  | _ => None
  end.

Definition unsigned_hex (s : string) : option Z :=
  match after_prefix 120 s with Some t => base_digits 16 0 false t | None => base_digits 16 0 false s end.

Definition starts_zero (s : string) : bool := match s with String c _ => code c =? 48 | EmptyString => false end.

(** Base 0: the prefix says the base, and a decimal number other than zero does
    not start with a zero. *)
Definition unsigned_any (s : string) : option Z :=
  match after_prefix 120 s, after_prefix 111 s, after_prefix 98 s with
  | Some t, _, _ => base_digits 16 0 false t
  | _, Some t, _ => base_digits 8 0 false t
  | _, _, Some t => base_digits 2 0 false t
  | None, None, None =>
      n ← base_digits 10 0 false s; if starts_zero s && negb (n =? 0) then None else Some n
  end.

Definition signed (f : string → option Z) (s : string) : res Z :=
  let bad := Raise (Exn ValueError "invalid literal for int()") in
  match strip s with
  | EmptyString => bad
  | String c t =>
      let '(sign, digits) := if code c =? 45 then (-1, t) else if code c =? 43 then (1, t) else (1, String c t) in
      match f digits with Some n => Ok (sign * n) | None => bad end
  end.

(** [int(s, 16)] and [int(s, 0)] *)
Definition int16 : string → res Z := signed unsigned_hex.
Definition int0 : string → res Z := signed unsigned_any.

Example int16_ex : map int16 ["7ffd1000"; "0xFF"; " -1f "; "g"; "0x_a"; ""] =
  [Ok 2147291136; Ok 255; Ok (-31); Raise (Exn ValueError "invalid literal for int()"); Ok 10;
   Raise (Exn ValueError "invalid literal for int()")].
Proof. vm_compute. reflexivity. Qed.
Example int0_ex : map int0 ["0x10"; "12"; "010"; "0"; "-0b11"; "NULL"] =
  [Ok 16; Ok 12; Raise (Exn ValueError "invalid literal for int()"); Ok 0; Ok (-3);
   Raise (Exn ValueError "invalid literal for int()")].
Proof. vm_compute. reflexivity. Qed.

(** ** System calls *)
Record SyscallEvent := mkSyscall {
  timestamp : pyfloat; pid : Z; syscall : string; fd : Z; offset : Z; len : Z; address : Z;
  return_value : Z; filename : string }.

Definition set_fd (e : SyscallEvent) (z : Z) : SyscallEvent :=
  mkSyscall (timestamp e) (pid e) (syscall e) z (offset e) (len e) (address e) (return_value e) (filename e).
Definition set_offset (e : SyscallEvent) (z : Z) : SyscallEvent :=
  mkSyscall (timestamp e) (pid e) (syscall e) (fd e) z (len e) (address e) (return_value e) (filename e).
Definition set_len (e : SyscallEvent) (z : Z) : SyscallEvent :=
  mkSyscall (timestamp e) (pid e) (syscall e) (fd e) (offset e) z (address e) (return_value e) (filename e).
Definition set_address (e : SyscallEvent) (z : Z) : SyscallEvent :=
  mkSyscall (timestamp e) (pid e) (syscall e) (fd e) (offset e) (len e) z (return_value e) (filename e).
Definition set_filename (e : SyscallEvent) (s : string) : SyscallEvent :=
  mkSyscall (timestamp e) (pid e) (syscall e) (fd e) (offset e) (len e) (address e) (return_value e) s.

(** The assignments of a [try] block, in order: the first conversion that
    raises ends them and leaves what was assigned. *)
Fixpoint assigns (l : list (res Z * (SyscallEvent → Z → SyscallEvent))) (e : SyscallEvent) : SyscallEvent :=
  match l with
  | [] => e
  | (Ok z, set) :: l => assigns l (set e z)
  | (Raise _, _) :: _ => e
  end.

(** [s.strip] of double quotes *)
Definition is_quote (c : ascii) : bool := code c =? 34.
Fixpoint lstrip_quotes (s : string) : string :=
  match s with String c t => if is_quote c then lstrip_quotes t else s | EmptyString => EmptyString end.
Fixpoint rstrip_quotes (s : string) : string :=
  match s with
  | EmptyString => EmptyString
  | String c t => let r := rstrip_quotes t in if is_quote c && String.eqb r "" then EmptyString else String c r
  end.
Definition strip_quotes (s : string) : string := rstrip_quotes (lstrip_quotes s).

Definition part (parts : list string) (i : nat) : string := default "" (parts !! i).
Definition has_part (parts : list string) (i : nat) : bool := (i <? length parts)%nat.
(** [int(parts[i]) if len(parts) > i else 0] *)
Definition int_part (parts : list string) (i : nat) : res Z :=
  if has_part parts i then int_of_str (part parts i) else Ok 0.

Definition is_path (p : string) : bool := has_char 47 p || has_char 46 p.

Definition _parse_strace_args (e : SyscallEvent) (call args : string) : SyscallEvent :=
  let parts := map strip (split_on 44 args) in
  let one_of := λ l, existsb (String.eqb call) l in
  if one_of ["open"; "openat"] then
    match List.find is_path (map (λ p, strip_quotes (strip p)) parts) with
    | Some p => set_filename e p
    | None => e
    end
  else if one_of ["mmap"] then
    if (5 <=? length parts)%nat then
      assigns ([(if String.eqb (part parts 0) "NULL" then Ok 0 else int0 (part parts 0), set_address);
                (int_of_str (part parts 1), set_len); (int_of_str (part parts 4), set_fd)] ++
               (if (6 <=? length parts)%nat then [(int_of_str (part parts 5), set_offset)] else [])) e
    else e
  else if one_of ["read"; "write"] then
    assigns [(int_of_str (part parts 0), set_fd); (int_part parts 2, set_len)] e
  else if one_of ["pread64"; "pwrite64"] then
    assigns [(int_of_str (part parts 0), set_fd); (int_part parts 2, set_len); (int_part parts 3, set_offset)] e
  else if one_of ["fsync"; "fdatasync"] then assigns [(int_of_str (part parts 0), set_fd)] e
  else if one_of ["msync"] then assigns [(int0 (part parts 0), set_address); (int_part parts 1, set_len)] e
  else e.

(** [\w]: letters, digits and the underscore, in Latin-1. *)
Definition is_word (c : ascii) : bool :=
  let z := code c in
  is_digit09 c || ((65 <=? z) && (z <=? 90)) || ((97 <=? z) && (z <=? 122)) || (z =? 95) ||
  existsb (Z.eqb z) [170; 178; 179; 181; 185; 186; 188; 189; 190] ||
  ((192 <=? z) && negb (z =? 215) && negb (z =? 247)).
Definition is_hex (c : ascii) : bool := match hex_val c with Some _ => true | None => false end.

(** [(?:\[pid\s+(\d+)\]\s+)?] *)
Definition pid_prefix (s : string) : option string * string :=
  match (t ← drop_prefix "[pid" s; t ← BlkParse.gap t; '(d, t) ← BlkParse.many1 is_digit09 t;
         t ← BlkParse.lit 93 t; t ← BlkParse.gap t; Some (d, t)) with
  | Some (d, t) => (Some d, t)
  | None => (None, s)
  end.

(** [-?(?:0x[0-9a-fA-F]+|\d+)] *)
Definition return_text (s : string) : option string :=
  let '(sign, t) := match BlkParse.lit 45 s with Some t => ("-", t) | None => ("", s) end in
  match (u ← drop_prefix "0x" t; '(d, _) ← BlkParse.many1 is_hex u; Some ("0x" +:+ d)) with
  | Some d => Some (sign +:+ d)
  | None => '(d, _) ← BlkParse.many1 is_digit09 t; Some (sign +:+ d)
  end.

(** [STRACE_RE.match(line)]: the process, the time, the name, the arguments and
    the result. *)
Definition STRACE_RE_match (line : string) : option (option string * string * string * string * string) :=
  let '(p, s) := pid_prefix line in
  '(a, s) ← BlkParse.many1 is_digit09 s; s ← BlkParse.lit 46 s; '(b, s) ← BlkParse.many1 is_digit09 s; s ← BlkParse.gap s;
  '(name, s) ← BlkParse.many1 is_word s; s ← BlkParse.lit 40 s;
  let '(args, s) := BlkParse.span (λ c, negb (code c =? 41)) s in
  s ← BlkParse.lit 41 s; s ← BlkParse.gap s; s ← BlkParse.lit 61 s; s ← BlkParse.gap s;
  ret ← return_text s;
  Some (p, a +:+ "." +:+ b, name, args, ret).

Record ForkEvent := mkFork { fork_time : pyfloat; parent_pid : Z; child_pid : Z }.

Record tracer := mkTracer { events : list SyscallEvent; fork_events : list ForkEvent; tracked_pids : gset Z }.

Definition is_fork (call : string) : bool := existsb (String.eqb call) ["clone"; "clone3"; "fork"; "vfork"].

(** One line of the output of strace. *)
Definition strace_line (default_pid : Z) (st : tracer) (line : string) : res tracer :=
  match STRACE_RE_match (strip line) with
  | None => Ok st
  | Some (pid_str, ts, sc, args_str, ret) =>
      let event_pid := match pid_str with Some s => digits_val s | None => default_pid end in
      let ret_val := match int0 ret with Ok z => z | Raise _ => 0 end in
      t ← BlkParse.float_text ts;
      Ok (if is_fork sc && (0 <? ret_val) then
            mkTracer (events st) (fork_events st ++ [mkFork t event_pid ret_val]) ({[ret_val]} ∪ tracked_pids st)
          else
            mkTracer (events st ++ [_parse_strace_args (mkSyscall t event_pid sc (-1) 0 0 0 ret_val "") sc args_str])
              (fork_events st) ({[event_pid]} ∪ tracked_pids st))
  end.

Definition parse_strace (default_pid : Z) (st : tracer) (stdout : string) : res tracer :=
  foldM (strace_line default_pid) st (splitlines stdout).

(** ** Memory mappings *)
Record MemoryMapping := mkMapping {
  start_addr : Z; end_addr : Z; permissions : string; map_offset : Z; device : string; inode : Z; pathname : string }.

Definition mapping_size (m : MemoryMapping) : Z := end_addr m - start_addr m.
Definition is_file_backed (m : MemoryMapping) : bool :=
  negb (String.eqb (pathname m) "") && negb (startswith "[" (pathname m)).

(** [s.split(None, n)] *)
Fixpoint split_max (n : nat) (s : string) : list string :=
  match lstrip s with
  | EmptyString => []
  | t => match n with
         | O => [t]
         | S n => let '(w, r) := BlkParse.span (λ c, negb (is_space c)) t in w :: split_max n r
         end
  end.

Definition parse_map_line (line : string) : res (option MemoryMapping) :=
  match split_max 5 (strip line) with
  | addr_range :: perms :: off :: dev :: ino :: rest =>
      let path := match rest with p :: _ => p | [] => "" end in
      match split_on 45 addr_range with
      | [start; stop] =>
          a ← int16 start; b ← int16 stop; o ← int16 off; i ← int_of_str ino;
          Ok (Some (mkMapping a b perms o dev i (strip path)))
      | _ => Raise (Exn ValueError "wrong number of values to unpack")
      end
  | _ => Ok None
  end.

(** The lines of the file, [None] when it cannot be read. *)
Definition parse_maps (lines : option (list string)) : res (list MemoryMapping) :=
  match lines with
  | None => Ok []
  | Some ls => match mapMR parse_map_line ls with Ok ms => Ok (omap id ms) | Raise e => Raise e end
  end.

Definition contains (m : MemoryMapping) (addr : Z) : bool := (start_addr m <=? addr) && (addr <? end_addr m).

Definition find_mapping_for_address (maps : list MemoryMapping) (addr : Z) : option MemoryMapping :=
  List.find (λ m, contains m addr) maps.
Definition find_mappings_for_file (maps : list MemoryMapping) (filepath : string) : list MemoryMapping :=
  List.filter (λ m, negb (String.eqb (pathname m) "") && substr filepath (pathname m)) maps.

(** [os.path.basename] *)
Definition basename (p : string) : string := default "" (last (split_on 47 p)).

Section files.
Context (path_exists : string → bool) (realpath : string → string).

Definition real (p : string) : string := if path_exists p then realpath p else p.

Definition same_file (filepath : string) (m : MemoryMapping) : bool :=
  is_file_backed m && (String.eqb (real filepath) (pathname m) || String.eqb filepath (pathname m) ||
                       String.eqb (basename filepath) (basename (pathname m))).

Definition cross_reference (e : SyscallEvent) (fd_path : option string) (maps : list MemoryMapping)
    : option MemoryMapping :=
  let mmap := String.eqb (syscall e) "mmap" in
  let by_return := if mmap && (0 <? return_value e) then find_mapping_for_address maps (return_value e) else None in
  let by_hint := if mmap && (0 <? address e) then find_mapping_for_address maps (address e) else None in
  let filepath := default "" fd_path in
  let by_fd := if negb (String.eqb filepath "") && negb (startswith "<" filepath)
               then List.find (same_file filepath) maps else None in
  let by_name := if negb (String.eqb (filename e) "")
                 then List.find (λ m, is_file_backed m && substr (filename e) (pathname m)) maps else None in
  match by_return with
  | Some m => Some m
  | None => match by_hint with
            | Some m => Some m
            | None => match by_fd with Some m => Some m | None => by_name end
            end
  end.

Definition find_all_file_backed_mappings (maps : list MemoryMapping) : list MemoryMapping :=
  List.filter (λ m, is_file_backed m &&
    negb (existsb (λ p, startswith p (pathname m)) ["/usr/lib"; "/lib"; "/usr/share"; "["])) maps.

(** The targets are a set, in any order. *)
Definition find_target_file_mappings (targets : list string) (maps : list MemoryMapping) : list MemoryMapping :=
  List.filter (λ m, is_file_backed m &&
    existsb (λ tp, String.eqb (pathname m) tp || String.eqb (pathname m) (real tp) ||
                   String.eqb (basename (pathname m)) (basename tp)) targets) maps.
End files.

(** ** Pages *)
Definition PAGE_SIZE : Z := 4096.

(** [int.from_bytes(data, "little")] *)
Definition from_bytes_little (data : list Z) : Z := foldr (λ b acc, b + 256 * acc) 0 data.

Record page := mkPage {
  vaddr : Z; present : bool; swapped : bool; file_mapped : bool; dirty : bool; pfn : option Z }.

Definition flag (entry n : Z) : bool := negb (Z.land entry (Z.shiftl 1 n) =? 0).

(** [read8 off] are the bytes, at most eight, that the file gives at an offset;
    it may raise [OSError]. *)
Section pagemap.
Context (read8 : Z → res (list Z)).

(** [inr] is an entry, [inl] the text of an error. *)
Definition read_pagemap_entry (addr : Z) : string + page :=
  match read8 (addr / PAGE_SIZE * 8) with
  | Raise e => inl (exn_msg e)
  | Ok data =>
      if (length data <? 8)%nat then inl "short read" else
      let entry := from_bytes_little data in
      inr (mkPage addr (flag entry 63) (flag entry 62) (flag entry 61) (flag entry 55)
             (if flag entry 63 then Some (Z.land entry (Z.shiftl 1 55 - 1)) else None))
  end.

(** [range(start, stop, PAGE_SIZE)] *)
Definition page_range (start stop : Z) : list Z :=
  map (λ i, start + PAGE_SIZE * Z.of_nat i) (seq 0 (Z.to_nat ((stop - start + PAGE_SIZE - 1) / PAGE_SIZE))).

Definition scan_range (start stop : Z) : list page :=
  omap (λ a, match read_pagemap_entry a with
             | inr p => if present p || dirty p then Some p else None
             | inl _ => None
             end) (page_range start stop).

(** One pass of [monitor_dirty_pages] over a mapping. *)
Definition dirty_count (m : MemoryMapping) : nat :=
  length (List.filter (λ a, match read_pagemap_entry a with inr p => dirty p | inl _ => false end)
            (page_range (start_addr m) (end_addr m))).
End pagemap.

Record PageMonEvent := mkPageMon { pm_address : Z; pm_page_count : nat; pm_mapping_file : string }.

(** The iterations that the clock allows: [None] when the dirty bits cannot be
    cleared, which ends the loop, or the page map as it is after the pause. *)
Fixpoint monitor_dirty_pages (m : MemoryMapping) (iterations : list (option (Z → res (list Z)))) : list PageMonEvent :=
  match iterations with
  | [] | None :: _ => []
  | Some read8 :: rest =>
      let n := dirty_count read8 m in
      (if (0 <? n)%nat then [mkPageMon (start_addr m) n (pathname m)] else []) ++ monitor_dirty_pages m rest
  end.

(** [check_kpageflags]: the named bits of the word at a page frame. *)
Definition kpageflags : list (string * Z) :=
  [("locked", 0); ("referenced", 2); ("dirty", 4); ("lru", 5); ("active", 6); ("slab", 7); ("writeback", 8);
   ("mmap", 11); ("swapbacked", 13)].
Definition check_kpageflags (read8 : Z → res (list Z)) (frame : Z) : list (string * bool) :=
  match read8 (frame * 8) with
  | Raise _ => [("error", true)]
  | Ok data => map (λ nb, (nb.1, flag (from_bytes_little data) nb.2)) kpageflags
  end.

(** ** Granularity of the page map *)
Definition GRANULARITY_PRESETS : list (string * Z) :=
  [("page", 4); ("fine", 64); ("medium", 256); ("coarse", 1024); ("auto", 0)].

Definition resolve_granularity (name_or_kb : string) : Z :=
  match dget name_or_kb GRANULARITY_PRESETS with
  | Some z => z
  | None => match int_of_str name_or_kb with Ok z => z | Raise _ => 0 end
  end.

Definition auto_granularity (region_size_kb : Z) : Z :=
  if region_size_kb <=? 256 then 4 else if region_size_kb <=? 4096 then 16
  else if region_size_kb <=? 65536 then 64 else if region_size_kb <=? 524288 then 256 else 1024.

End IoPath.
