(* ===== verification/IoPathCorrect.v ===== *)
(** * Mappings and pages of the IO path observer

    A line of [/proc/<pid>/maps] is read as the mapping it prints, so that an
    address is attributed to the one mapping that holds it; the pages of a scan
    are exactly the pages of the range that are present or dirty, with the bits
    that the kernel documents. *)

From stdpp Require Import prelude strings list gmap.
From Stdlib Require Import ZArith Lia Ascii.
From S2P Require Import Prelude PyText PyJson JsonText PyFloat BlkParse IoPath.
Local Open Scope Z_scope.
Import IoPath.

(** ** Lines of the map *)

(** The value of hexadecimal digits. *)
Fixpoint hexv (acc : Z) (s : string) : Z :=
  match s with EmptyString => acc | String c s => hexv (16 * acc + default 0 (hex_val c)) s end.

Definition hex_text (s : string) : bool := sforall is_hex s && negb (String.eqb s "").

Lemma hex_val_range c v : hex_val c = Some v → 0 ≤ v < 16.
Proof. unfold hex_val. repeat case_match; intros [= <-]; lia. Qed.

Lemma base_digits_hex s acc prev : sforall is_hex s = true → (s = "" → prev = true) →
  base_digits 16 acc prev s = Some (hexv acc s).
Proof.
  revert acc prev. induction s as [|c s IH]; intros acc prev Hs Hp; cbn; [by rewrite Hp|].
  cbn [sforall] in Hs. apply andb_true_iff in Hs as [Hc Hs]. unfold is_hex in Hc.
  destruct (hex_val c) as [v|] eqn:E; [|done]. pose proof (hex_val_range _ _ E).
  rewrite (proj2 (Z.ltb_lt v 16)) by lia. cbn. by apply IH.
Qed.

Lemma hex_not_space c : is_hex c = true → is_space c = false.
Proof.
  unfold is_hex, hex_val, is_space. intros H. repeat case_match; try done; lia.
Qed.

Lemma hex_nospace s : sforall is_hex s = true → nospace s = true.
Proof. intros Hs. unfold nospace. eapply sforall_impl; [|exact Hs]. intros c Hc. by rewrite hex_not_space. Qed.

Lemma int16_hex s : hex_text s = true → int16 s = Ok (hexv 0 s).
Proof.
  intros [Hs Hne%negb_true_iff%String.eqb_neq]%andb_true_iff. unfold int16, signed.
  rewrite strip_nospace by (by apply hex_nospace). destruct s as [|c t]; [done|].
  pose proof Hs as Hs'. cbn [sforall] in Hs'. apply andb_true_iff in Hs' as [Hc Ht].
  assert (code c ≠ 45 ∧ code c ≠ 43) as [H1 H2] by (unfold is_hex, hex_val in Hc; repeat case_match; try done; lia).
  rewrite (proj2 (Z.eqb_neq _ _) H1), (proj2 (Z.eqb_neq _ _) H2). unfold unsigned_hex.
  assert (after_prefix 120 (String c t) = None) as ->.
  { destruct t as [|x t]; [done|]. cbn [after_prefix]. cbn [sforall] in Ht. apply andb_true_iff in Ht as [Hx _].
    assert (code x ≠ 120 ∧ code x ≠ 120 - 32) as [H3 H4]; [unfold is_hex, hex_val in Hx; repeat case_match; try done; lia|].
    rewrite (proj2 (Z.eqb_neq _ _) H3), (proj2 (Z.eqb_neq _ _) H4). by rewrite andb_false_r. }
  rewrite base_digits_hex by done. by rewrite Z.mul_1_l.
Qed.

Lemma has_char_hex s : sforall is_hex s = true → has_char 45 s = false.
Proof.
  induction s as [|c s IH]; [done|]. cbn. intros [Hc Hs]%andb_true_iff. rewrite IH by done.
  unfold is_hex, hex_val in Hc. repeat case_match; try done; lia.
Qed.

(** *** Words and white space *)
Definition word (s : string) : Prop := nospace s = true ∧ s ≠ "".

Lemma lstrip_word w r : word w → lstrip (w +:+ r) = w +:+ r.
Proof.
  intros [Hw Hne]. destruct w as [|c w]; [done|]. cbn in Hw. apply andb_true_iff in Hw as [Hc _].
  rewrite sapp_cons. cbn. by destruct (is_space c).
Qed.

Lemma split_max_space n s : split_max n (" " +:+ s) = split_max n s.
Proof. by destruct n. Qed.

Lemma split_max_word n w r : word w → split_max (S n) (w +:+ " " +:+ r) = w :: split_max n r.
Proof.
  intros Hw. cbn [split_max]. rewrite lstrip_word by done. pose proof Hw as [Hn Hne].
  destruct (w +:+ " " +:+ r) as [|c t] eqn:E; [by destruct w|]. rewrite <- E.
  rewrite (BlkParse.span_app _ w (" " +:+ r)); [|exact Hn|done]. by rewrite split_max_space.
Qed.

Lemma split_max_last n w : word w → split_max (S n) w = [w].
Proof.
  intros Hw. cbn [split_max]. pose proof (lstrip_word w "" Hw) as Hl. rewrite sapp_nil_r in Hl. rewrite Hl.
  destruct Hw as [Hn Hne]. destruct w as [|c t] eqn:E; [done|]. rewrite <- E.
  pose proof (BlkParse.span_app (λ c, negb (is_space c)) w "") as Hs. rewrite sapp_nil_r in Hs. rewrite Hs; [|by subst|done].
  by destruct n.
Qed.

Lemma lstrip_spaces n s : lstrip (spaces n +:+ s) = lstrip s.
Proof. induction n as [|n IH]; [done|]. cbn [spaces]. by rewrite sapp_cons. Qed.

(** A path as the map prints it: white space may be inside, not around. *)
Definition path_text (p : string) : Prop := strip p = p ∧ p ≠ "".

Lemma rstrip_LF s : rstrip (s +:+ LF) = rstrip s.
Proof. induction s as [|c s IH]; [done|]. rewrite sapp_cons. cbn [rstrip]. by rewrite IH. Qed.

Lemma lstrip_length s : (String.length (lstrip s) ≤ String.length s)%nat.
Proof. induction s as [|c s IH]; cbn; [lia|]. destruct (is_space c); cbn; lia. Qed.
Lemma rstrip_length s : (String.length (rstrip s) ≤ String.length s)%nat.
Proof. induction s as [|c s IH]; cbn; [lia|]. destruct (is_space c && _); cbn; lia. Qed.

Lemma path_strips p : path_text p → lstrip p = p ∧ rstrip p = p.
Proof.
  intros [Hs _]. unfold strip in Hs. pose proof (rstrip_length (lstrip p)) as H1. pose proof (lstrip_length p) as H2.
  assert (lstrip p = p) as Hl; [|rewrite Hl in Hs; done].
  rewrite Hs in H1. destruct p as [|c p]; [done|]. cbn in *. destruct (is_space c); [|done].
  pose proof (lstrip_length p). lia.
Qed.

(** The line of a mapping: texts of the numbers, and the path after a gap. *)
Record map_text := mkMapText {
  t_start : string; t_end : string; t_perms : string; t_off : string; t_dev : string; t_ino : Z; t_pad : nat; t_path : string }.

Definition map_line (t : map_text) : string :=
  t_start t +:+ "-" +:+ t_end t +:+ " " +:+ t_perms t +:+ " " +:+ t_off t +:+ " " +:+ t_dev t +:+ " " +:+ str_of_Z (t_ino t)
  +:+ (if String.eqb (t_path t) "" then "" else " " +:+ spaces (t_pad t) +:+ t_path t) +:+ LF.

Definition mapping_of (t : map_text) : MemoryMapping :=
  mkMapping (hexv 0 (t_start t)) (hexv 0 (t_end t)) (t_perms t) (hexv 0 (t_off t)) (t_dev t) (t_ino t) (t_path t).

Definition map_text_ok (t : map_text) : Prop :=
  hex_text (t_start t) = true ∧ hex_text (t_end t) = true ∧ word (t_perms t) ∧ hex_text (t_off t) = true ∧
  word (t_dev t) ∧ (t_path t = "" ∨ path_text (t_path t)).

(** The same line before its newline. *)
Definition map_body (t : map_text) : string :=
  (t_start t +:+ "-" +:+ t_end t) +:+ " " +:+ t_perms t +:+ " " +:+ t_off t +:+ " " +:+ t_dev t +:+ " " +:+ str_of_Z (t_ino t)
  +:+ (if String.eqb (t_path t) "" then "" else " " +:+ spaces (t_pad t) +:+ t_path t).

Lemma map_line_body t : map_line t = map_body t +:+ LF.
Proof. unfold map_line, map_body. by rewrite !sapp_assoc. Qed.

Lemma hex_word s : hex_text s = true → word s.
Proof. intros [Hs Hn%negb_true_iff%String.eqb_neq]%andb_true_iff. split; [by apply hex_nospace|done]. Qed.

Lemma range_word a b : word a → word b → word (a +:+ "-" +:+ b).
Proof.
  intros [Ha Hna] [Hb _]. split; [|by destruct a]. unfold nospace in *. rewrite !sforall_app, Ha, Hb. done.
Qed.

Lemma word_rstrip w : word w → rstrip w = w.
Proof. intros [Hw _]. by apply rstrip_nospace. Qed.

Lemma number_word z : word (str_of_Z z).
Proof. split; [apply str_of_Z_nospace|apply str_of_Z_nonempty]. Qed.

Lemma map_body_strip t : map_text_ok t → strip (map_line t) = map_body t.
Proof.
  intros (Hs & He & Hp & Ho & Hd & Hpath). rewrite map_line_body. unfold strip, map_body.
  rewrite sapp_assoc, lstrip_word by (apply range_word; by apply hex_word). rewrite <- sapp_assoc, rstrip_LF.
  destruct (String.eqb_spec (t_path t) "") as [E|E].
  - rewrite sapp_nil_r. rewrite <- !sapp_assoc. apply rstrip_end; [apply number_word|apply word_rstrip, number_word].
  - destruct Hpath as [?|Hpath]; [done|]. rewrite <- !sapp_assoc. apply rstrip_end; [done|]. by apply path_strips.
Qed.

Lemma split_max_pad n p : path_text p → split_max 0 (spaces n +:+ p) = [p].
Proof.
  intros Hp. cbn [split_max]. rewrite lstrip_spaces. destruct (path_strips _ Hp) as [-> _].
  destruct Hp as [_ Hne]. by destruct p.
Qed.

(** A line of the map is read as the mapping it prints. *)
Lemma parse_map_line_ok t : map_text_ok t → parse_map_line (map_line t) = Ok (Some (mapping_of t)).
Proof.
  intros Hok. unfold parse_map_line. rewrite (map_body_strip _ Hok). destruct Hok as (Hs & He & Hp & Ho & Hd & Hpath).
  unfold map_body. rewrite !split_max_word by (auto using range_word, hex_word).
  assert (split_max 1 (str_of_Z (t_ino t) +:+ (if String.eqb (t_path t) "" then "" else " " +:+ spaces (t_pad t) +:+ t_path t)) =
    str_of_Z (t_ino t) :: (if String.eqb (t_path t) "" then [] else [t_path t])) as ->.
  { destruct (String.eqb_spec (t_path t) "") as [E|E].
    - rewrite sapp_nil_r. apply split_max_last, number_word.
    - destruct Hpath as [?|Hpath]; [done|]. rewrite split_max_word by apply number_word. by rewrite split_max_pad. }
  pose proof Hs as [Hs' _]%andb_true_iff. pose proof He as [He' _]%andb_true_iff.
  change ("-" +:+ t_end t) with (String (chr 45) (t_end t)).
  rewrite split_on_sep by (lia || by apply has_char_hex). rewrite split_on_no by (by apply has_char_hex).
  rewrite !int16_hex by done. cbn [mbind res_bind]. rewrite int_of_str_of_Z. cbn [mbind res_bind]. unfold mapping_of.
  destruct (String.eqb_spec (t_path t) "") as [E|E]; [by rewrite E|]. destruct Hpath as [?|[-> _]]; [done|]. done.
Qed.

Lemma parse_maps_ok ts : Forall map_text_ok ts → parse_maps (Some (map map_line ts)) = Ok (map mapping_of ts).
Proof.
  intros Hts. unfold parse_maps.
  assert (mapMR parse_map_line (map map_line ts) = Ok (map (λ t, Some (mapping_of t)) ts)) as ->.
  { induction Hts as [|t ts Ht _ IH]; [done|]. cbn [map mapMR]. rewrite parse_map_line_ok by done. cbn [mbind res_bind].
    by rewrite IH. }
  f_equal. clear. induction ts as [|t ts IH]; [done|]. cbn. f_equal. exact IH.
Qed.

(** *** Attribution *)
Definition disjoint_maps (ms : list MemoryMapping) : Prop :=
  ∀ i j m m' a, ms !! i = Some m → ms !! j = Some m' →
    start_addr m ≤ a < end_addr m → start_addr m' ≤ a < end_addr m' → i = j.

Lemma contains_iff m a : contains m a = true ↔ start_addr m ≤ a < end_addr m.
Proof. unfold contains. rewrite andb_true_iff, Z.leb_le, Z.ltb_lt. done. Qed.

Lemma find_disjoint ms m a : disjoint_maps ms → m ∈ ms → start_addr m ≤ a < end_addr m → find_mapping_for_address ms a = Some m.
Proof.
  intros Hd (i & Hi)%list_elem_of_lookup Ha%contains_iff. unfold find_mapping_for_address.
  destruct (List.find (λ m, contains m a) ms) as [m'|] eqn:E.
  - apply find_some in E as [(j & Hj)%list_elem_of_In%list_elem_of_lookup Ha'].
    assert (i = j) as -> by (eapply Hd; [done..| |]; by apply contains_iff). congruence.
  - eapply find_none in E; [|by eapply list_elem_of_In, list_elem_of_lookup_2]. cbn in E. congruence.
Qed.

(** C40: The text of a memory map whose mappings do not overlap: it is read as
    the mappings it prints, whatever the padding, and with any names of the
    files; a successful [mmap] is attributed to the mapping that holds the
    returned address, whatever the descriptor, the hint or the name say; and
    every attribution is to a mapping of the map. *)
Theorem mmap_attributed path_exists realpath ts e fd_path :
  Forall map_text_ok ts → disjoint_maps (map mapping_of ts) → ∃ maps,
  parse_maps (Some (map map_line ts)) = Ok maps ∧ maps = map mapping_of ts ∧
  (∀ m, m ∈ maps → syscall e = "mmap" → 0 < return_value e → start_addr m ≤ return_value e < end_addr m →
     cross_reference path_exists realpath e fd_path maps = Some m) ∧
  (∀ m, cross_reference path_exists realpath e fd_path maps = Some m → m ∈ maps).
Proof.
  intros Hts Hd. exists (map mapping_of ts). split; [by apply parse_maps_ok|]. split; [done|]. split.
  - intros m Hm Hs Hr Hc. unfold cross_reference. rewrite Hs, (proj2 (Z.ltb_lt _ _) Hr). cbn [andb].
    rewrite (find_disjoint _ m) by done. done.
  - intros m. unfold cross_reference, find_mapping_for_address. intros H.
    repeat match type of H with context [List.find ?p ?l] =>
      let E := fresh in destruct (List.find p l) eqn:E; [apply find_some in E as [E%list_elem_of_In _]|] end;
      repeat case_match; simplify_eq; done.
Qed.

(** ** Pages *)
Lemma flag_testbit entry n : 0 ≤ n → flag entry n = Z.testbit entry n.
Proof.
  intros Hn. unfold flag. rewrite Z.shiftl_1_l. destruct (Z.testbit entry n) eqn:E.
  - apply negb_true_iff, Z.eqb_neq. intros H. assert (Z.testbit (Z.land entry (2 ^ n)) n = true) as Hb.
    { rewrite Z.land_spec, E, Z.pow2_bits_true; done. }
    rewrite H, Z.bits_0 in Hb. done.
  - apply negb_false_iff, Z.eqb_eq, Z.bits_inj'. intros k Hk. rewrite Z.land_spec, Z.bits_0.
    destruct (Z.eq_dec k n) as [->|Hne]; [by rewrite E|]. rewrite Z.pow2_bits_false by lia. apply andb_false_r.
Qed.

(** The bytes of a word, least significant first. *)
Fixpoint to_bytes_little (n : nat) (z : Z) : list Z :=
  match n with O => [] | S n => z mod 256 :: to_bytes_little n (z / 256) end.

Lemma from_to_bytes n z : 0 ≤ z < 256 ^ Z.of_nat n → from_bytes_little (to_bytes_little n z) = z.
Proof.
  revert z. induction n as [|n IH]; intros z Hz; [cbn in *; lia|]. unfold from_bytes_little in *. cbn [to_bytes_little foldr].
  rewrite IH; [pose proof (Z.div_mod z 256 ltac:(lia)); lia|].
  rewrite Nat2Z.inj_succ, Z.pow_succ_r in Hz by lia. split; [apply Z.div_pos; lia|apply Z.div_lt_upper_bound; lia].
Qed.

Lemma length_to_bytes n z : length (to_bytes_little n z) = n.
Proof. revert z. induction n as [|n IH]; intros z; cbn; auto. Qed.

(** The entry of a page as the kernel documents it. *)
Definition page_of (addr entry : Z) : page :=
  mkPage addr (Z.testbit entry 63) (Z.testbit entry 62) (Z.testbit entry 61) (Z.testbit entry 55)
    (if Z.testbit entry 63 then Some (entry mod 2 ^ 55) else None).

Lemma read_entry_exact read8 addr entry : 0 ≤ entry < 2 ^ 64 →
  read8 (addr / PAGE_SIZE * 8) = Ok (to_bytes_little 8 entry) → read_pagemap_entry read8 addr = inr (page_of addr entry).
Proof.
  intros He Hr. unfold read_pagemap_entry. rewrite Hr, length_to_bytes. cbn [Nat.ltb Nat.leb].
  rewrite from_to_bytes by (change (256 ^ Z.of_nat 8) with (2 ^ 64); lia). rewrite !flag_testbit by lia. unfold page_of.
  rewrite Z.shiftl_1_l. change (2 ^ 55 - 1) with (Z.ones 55). by rewrite Z.land_ones by lia.
Qed.

Lemma page_range_in start stop a : a ∈ page_range start stop ↔ ∃ k, 0 ≤ k ∧ a = start + PAGE_SIZE * k ∧ a < stop.
Proof.
  unfold page_range, PAGE_SIZE. rewrite list_elem_of_fmap. pose proof (Z.div_mod (stop - start + 4096 - 1) 4096 ltac:(lia)) as Hdm.
  pose proof (Z.mod_pos_bound (stop - start + 4096 - 1) 4096 ltac:(lia)) as Hmod. split.
  - intros (i & -> & Hi%list_elem_of_In%in_seq). exists (Z.of_nat i). split; [lia|]. split; [done|]. lia.
  - intros (k & Hk & -> & Hlt). exists (Z.to_nat k). split; [by rewrite Z2Nat.id|]. apply list_elem_of_In, in_seq. lia.
Qed.

(** A scan finds exactly the pages of the range that are present or dirty. *)
Theorem scan_range_exact read8 entry_of start stop :
  (∀ a, a ∈ page_range start stop →
     0 ≤ entry_of (a / PAGE_SIZE) < 2 ^ 64 ∧ read8 (a / PAGE_SIZE * 8) = Ok (to_bytes_little 8 (entry_of (a / PAGE_SIZE)))) →
  ∀ p, p ∈ scan_range read8 start stop ↔ ∃ k, 0 ≤ k ∧ start + PAGE_SIZE * k < stop ∧
    let a := start + PAGE_SIZE * k in p = page_of a (entry_of (a / PAGE_SIZE)) ∧ (present p || dirty p) = true.
Proof.
  intros Hr p. unfold scan_range. rewrite list_elem_of_omap. split.
  - intros (a & Ha & Hp). destruct (Hr _ Ha) as [He Hb]. rewrite (read_entry_exact _ _ _ He Hb) in Hp.
    apply page_range_in in Ha as (k & Hk & -> & Hlt). exists k. split; [done|]. split; [done|].
    destruct (present _ || dirty _) eqn:E; simplify_eq. done.
  - intros (k & Hk & Hlt & -> & Hpd). exists (start + PAGE_SIZE * k).
    assert (start + PAGE_SIZE * k ∈ page_range start stop) as Hin by (apply page_range_in; eauto).
    split; [done|]. destruct (Hr _ Hin) as [He Hb]. by rewrite (read_entry_exact _ _ _ He Hb), Hpd.
Qed.

(** ** Examples *)
Definition sample_maps : list map_text :=
  [mkMapText "55d000" "55e000" "r-xp" "00000000" "08:01" 131 10 "/usr/bin/fio";
   mkMapText "7f0000000000" "7f0000100000" "rw-s" "1000" "08:01" 77 3 "/data/my file (deleted)";
   mkMapText "7ffc0000" "7ffd0000" "rw-p" "00000000" "00:00" 0 0 ""].

Definition sample_mmap : SyscallEvent := mkSyscall (FFin false 0 0) 1 "mmap" 3 0 4096 0 139637976731648 "".

Lemma sample_maps_disjoint : disjoint_maps (map mapping_of sample_maps).
Proof.
  intros i j m m' a Hi Hj Ha Hb. change (map mapping_of sample_maps) with
    [mkMapping 5623808 5627904 "r-xp" 0 "08:01" 131 "/usr/bin/fio";
     mkMapping 139637976727552 139637977776128 "rw-s" 4096 "08:01" 77 "/data/my file (deleted)";
     mkMapping 2147221504 2147287040 "rw-p" 0 "00:00" 0 ""] in Hi, Hj.
  destruct i as [|[|[|i]]]; cbn in Hi; simplify_eq; cbn in Ha;
    destruct j as [|[|[|j]]]; cbn in Hj; simplify_eq; cbn in Hb; try done; lia.
Qed.

Lemma mmap_attributed_witness : ∃ maps m, parse_maps (Some (map map_line sample_maps)) = Ok maps ∧
  cross_reference (λ _, false) id sample_mmap None maps = Some m ∧ pathname m = "/data/my file (deleted)".
Proof.
  destruct (mmap_attributed (λ _, false) id sample_maps sample_mmap None) as (maps & Hp & -> & Ha & _).
  - repeat constructor; cbn; try done; (left; reflexivity) || (right; split; [reflexivity|done]).
  - apply sample_maps_disjoint.
  - eexists _, (mapping_of (mkMapText "7f0000000000" "7f0000100000" "rw-s" "1000" "08:01" 77 3 "/data/my file (deleted)")).
    split; [exact Hp|]. split; [|reflexivity].
    apply Ha; [right; left|reflexivity|reflexivity|vm_compute; split; [discriminate|reflexivity]].
Defined.

(** A comma in the data of a write: the length is not read. *)
Example comma_in_data :
  (st ← parse_strace 1 (mkTracer [] [] ∅) (q2 "1.5 write(3, 'a,b', 3) = 3"); Ok (map (λ e, (fd e, len e)) (events st))) =
  Ok [(3, 0)].
Proof. vm_compute. reflexivity. Qed.

(** A parenthesis in the data: the call is not recorded at all. *)
Example parenthesis_in_data :
  (st ← parse_strace 1 (mkTracer [] [] ∅) (q2 "1.5 write(3, 'f()', 3) = 3"); Ok (length (events st))) = Ok 0%nat.
Proof. vm_compute. reflexivity. Qed.

(** Two mapped files with one base name: the first one is taken, although the
    path of the descriptor is the second. *)
Example base_name_first :
  let a := mkMapping 4096 8192 "rw-s" 0 "08:01" 1 "/data/a/part.bin" in
  let b := mkMapping 8192 12288 "rw-s" 0 "08:01" 2 "/data/b/part.bin" in
  cross_reference (λ _, false) id (mkSyscall (FFin false 0 0) 1 "write" 3 0 4096 0 4096 "")
    (Some "/data/b/part.bin") [a; b] = Some a.
Proof. vm_compute. reflexivity. Qed.
