(* ===== verification/SyscallViz.v ===== *)
(** * The data behind the system-call plots

    [syscall_visualizer.py]: the log of the monitor is split by process, the
    busiest processes are chosen and their request sizes are counted in
    buckets.  The processes partition the events, in order; the choice is a
    stable ranking; every request of a chosen process is in exactly one bucket
    of the plot. *)

From stdpp Require Import prelude strings list sorting.
From Stdlib Require Import ZArith Lia Ascii.
From S2P Require Import Prelude PyText PyJson JsonText.
Local Open Scope Z_scope.

Module SyscallViz.

(** ** Loading *)
Record proc := mkProc { pr_pid : json; pr_name : json; pr_events : list json }.

(** The processes by the key of their id, in the order of their first event. *)
Definition table := list (hkey * proc).

Definition add_event (t : table) (ev : json) : res table :=
  pid ← item ev "pid"; k ← hkey_of pid;
  p ← match hget k t with
      | Some p => Ok p
      | None => name ← item ev "process_name"; Ok (mkProc pid name [])
      end;
  Ok (hset k (mkProc (pr_pid p) (pr_name p) (pr_events p ++ [ev])) t).

(** The content of the file; an empty log and text that is not JSON end the
    program. *)
Definition load_data (content : string) : res (list json * table) :=
  match loads content with
  | Raise (Exn JSONDecodeError _) => Raise (Exn SystemExit "1")
  | Raise e => Raise e
  | Ok data =>
      evs ← get_default data "raw_events" (JList []);
      if negb (py_true evs) then Raise (Exn SystemExit "1") else
      l ← iterate evs;
      t ← foldM add_event [] l;
      Ok (l, t)
  end.

(** ** Buckets of request sizes *)

Definition get_io_size_bucket (size : Z) : string :=
  if size =? 0 then "0 B" else if size =? 1 then "1 B"
  else if size <=? 4 then "2-4 B" else if size <=? 8 then "5-8 B"
  else if size <=? 16 then "9-16 B" else if size <=? 32 then "17-32 B"
  else if size <=? 64 then "33-64 B" else if size <=? 128 then "65-128 B"
  else if size <=? 256 then "129-256 B" else if size <=? 512 then "257-512 B"
  else if size <? 1024 then "513-1023 B"
  else if size <? 2 * 1024 then "1-2 KB" else if size <? 4 * 1024 then "2-4 KB"
  else if size <? 8 * 1024 then "4-8 KB" else if size <? 16 * 1024 then "8-16 KB"
  else if size <? 32 * 1024 then "16-32 KB" else if size <? 64 * 1024 then "32-64 KB"
  else if size <? 128 * 1024 then "64-128 KB" else if size <? 256 * 1024 then "128-256 KB"
  else if size <? 512 * 1024 then "256-512 KB" else if size <? 1024 * 1024 then "512KB-1MB"
  else if size <? 2 * 1024 * 1024 then "1-2 MB" else if size <? 4 * 1024 * 1024 then "2-4 MB"
  else if size <? 8 * 1024 * 1024 then "4-8 MB" else if size <? 16 * 1024 * 1024 then "8-16 MB"
  else "> 16 MB".

Definition bucket_order_all : list string :=
  ["0 B"; "1 B"; "2-4 B"; "5-8 B"; "9-16 B"; "17-32 B"; "33-64 B"; "65-128 B"; "129-256 B"; "257-512 B"; "513-1023 B";
   "1-2 KB"; "2-4 KB"; "4-8 KB"; "8-16 KB"; "16-32 KB"; "32-64 KB"; "64-128 KB"; "128-256 KB"; "256-512 KB"; "512KB-1MB";
   "1-2 MB"; "2-4 MB"; "4-8 MB"; "8-16 MB"; "> 16 MB"].

(** ** The busiest processes *)
Definition busier (a b : hkey * proc) : Prop := (length (pr_events b.2) ≤ length (pr_events a.2))%nat.
#[export] Instance busier_dec : RelDecision busier.
Proof. intros a b. unfold busier. apply _. Defined.

Definition get_top_processes (t : table) (n : nat) : list (hkey * proc) := take n (stable_sort busier t).

(** [plot_io_size_buckets]: a row per bucket, with a column per process. *)
Definition event_size (ev : json) : res Z :=
  v ← item ev "size";
  match v with JInt z => Ok z | _ => Raise (Exn TypeError "size is not an integer") end.

Definition bucket_count (sizes : list Z) (b : string) : nat :=
  length (List.filter (λ s, String.eqb (get_io_size_bucket s) b) sizes).

Definition bucket_data_all (t : table) : res (list (string * list nat)) :=
  cols ← mapMR (λ p, mapMR event_size (pr_events p.2)) (get_top_processes t 10);
  Ok (map (λ b, (b, map (λ sizes, bucket_count sizes b) cols)) bucket_order_all).

(** ** The processes partition the events *)

(** The events of the process with key [k]. *)
Definition of_process (k : hkey) (ev : json) : bool :=
  match (pid ← item ev "pid"; hkey_of pid) with Ok k' => bool_decide (k' = k) | Raise _ => false end.

Definition grouped (evs : list json) (t : table) : Prop :=
  NoDup (map fst t) ∧ ∀ k, default [] (pr_events <$> hget k t) = List.filter (of_process k) evs.

Lemma hset_keys {A} k (v : A) d : map fst (hset k v d) = map fst d ++ (if decide (k ∈ map fst d) then [] else [k]).
Proof.
  induction d as [|[k' v'] d IH]; cbn; [by rewrite decide_False by (by inversion 1)|].
  destruct (decide (k = k')) as [->|Hne]; cbn.
  - rewrite decide_True by (by left). by rewrite app_nil_r.
  - rewrite IH. f_equal. f_equal. apply decide_ext. rewrite elem_of_cons. naive_solver.
Qed.

Lemma add_event_grouped evs t ev t' : grouped evs t → add_event t ev = Ok t' → grouped (evs ++ [ev]) t'.
Proof.
  intros [Hn Hg] H. unfold add_event in H. apply bind_Ok in H as (pid & Hp & H). apply bind_Ok in H as (k & Hk & H).
  apply bind_Ok in H as (p & Hpr & H). apply Ok_inj in H as <-. split.
  - rewrite hset_keys. destruct (decide _); [by rewrite app_nil_r|].
    apply NoDup_app. split; [done|]. split; [|apply NoDup_singleton]. intros x Hx ->%list_elem_of_singleton. done.
  - intros k'. rewrite hget_hset, List.filter_app. cbn. unfold of_process at 2. rewrite Hp. cbn [mbind res_bind]. rewrite Hk.
    destruct (decide (k' = k)) as [->|Hne].
    + rewrite bool_decide_true by done. cbn. rewrite <- Hg. f_equal.
      destruct (hget k t); [by apply Ok_inj in Hpr as <-|]. apply bind_Ok in Hpr as (nm & _ & Hpr). by apply Ok_inj in Hpr as <-.
    + rewrite bool_decide_false by congruence. by rewrite app_nil_r.
Qed.

Lemma load_grouped evs t : foldM add_event [] evs = Ok t → grouped evs t.
Proof.
  intros H. eapply (foldM_inv add_event grouped); [| |exact H].
  - split; [constructor|done].
  - intros pre ev s1 s2 Hg _ Hs. by eapply add_event_grouped.
Qed.

(** *** Each size is in exactly one bucket *)
Lemma bucket_listed size : get_io_size_bucket size ∈ bucket_order_all.
Proof. apply (bool_decide_unpack _). unfold get_io_size_bucket. repeat case_match; vm_compute; done. Qed.

Lemma buckets_sum (ls : list string) sizes : NoDup ls → (∀ s, get_io_size_bucket s ∈ ls) →
  foldr Nat.add 0%nat (map (bucket_count sizes) ls) = length sizes.
Proof.
  intros Hn Hin. unfold bucket_count. induction sizes as [|s sizes IH]; cbn.
  { clear. induction ls as [|b ls IH]; [done|]. cbn. done. }
  rewrite <- IH. clear IH. specialize (Hin s).
  assert (∀ ks, NoDup ks → foldr Nat.add 0%nat (map (λ b, length (if String.eqb (get_io_size_bucket s) b
      then s :: List.filter (λ s, String.eqb (get_io_size_bucket s) b) sizes
      else List.filter (λ s, String.eqb (get_io_size_bucket s) b) sizes)) ks) =
    ((if bool_decide (get_io_size_bucket s ∈ ks) then 1 else 0) +
     foldr Nat.add 0%nat (map (λ b, length (List.filter (λ s, String.eqb (get_io_size_bucket s) b) sizes)) ks))%nat) as Hg.
  { clear. induction 1 as [|b ks Hb _ IH]; [by rewrite bool_decide_false by (by inversion 1)|]. cbn [map foldr]. rewrite IH. destruct (String.eqb_spec (get_io_size_bucket s) b) as [E|E].
    - rewrite (bool_decide_false (get_io_size_bucket s ∈ ks)) by (by rewrite E). rewrite bool_decide_true by (rewrite E; by left).
      cbn [length]. lia.
    - rewrite (bool_decide_ext (get_io_size_bucket s ∈ b :: ks) (get_io_size_bucket s ∈ ks)); [lia|].
      rewrite elem_of_cons. naive_solver. }
  rewrite Hg by done. by rewrite bool_decide_true.
Qed.

(** What is loaded and plotted: the processes partition the log, each with its
    events in order; the ranking lists the processes by their number of events,
    those with equal numbers in the order of the log; and the column of a
    process adds up to its number of requests. *)
Theorem log_plotted content evs t : load_data content = Ok (evs, t) →
  NoDup (map fst t) ∧ (∀ k, default [] (pr_events <$> hget k t) = List.filter (of_process k) evs) ∧
  (∀ n, ∃ rest, Sorted busier (get_top_processes t n ++ rest) ∧ get_top_processes t n ++ rest ≡ₚ t) ∧
  (∀ c, List.filter (λ p, Nat.eqb (length (pr_events p.2)) c) (get_top_processes t (length t)) =
        List.filter (λ p, Nat.eqb (length (pr_events p.2)) c) t) ∧
  (∀ sizes, foldr Nat.add 0%nat (map (bucket_count sizes) bucket_order_all) = length sizes).
Proof.
  intros H. assert (foldM add_event [] evs = Ok t) as Hf.
  { unfold load_data in H. destruct (loads content) as [data|[[] ?]]; try discriminate H.
    apply bind_Ok in H as (e & _ & H). destruct (negb (py_true e)); [discriminate H|].
    apply bind_Ok in H as (l & _ & H). apply bind_Ok in H as (t' & Ht & H). apply Ok_inj in H. by injection H as <- <-. }
  destruct (load_grouped _ _ Hf) as [Hn Hg]. split; [done|]. split; [done|]. split; [|split].
  - intros n. exists (drop n (stable_sort busier t)). unfold get_top_processes. rewrite take_drop.
    assert (Total busier) by (intros a b; unfold busier; lia).
    split; [apply Sorted_stable_sort; apply _|apply stable_sort_Permutation].
  - intros c. unfold get_top_processes. rewrite take_ge by (by rewrite stable_sort_Permutation).
    apply stable_sort_class. intros a b Ha%Nat.eqb_eq Hb%Nat.eqb_eq. unfold busier. lia.
  - intros sizes. apply buckets_sum; [apply (bool_decide_unpack _); vm_compute; done|apply bucket_listed].
Qed.

(** A request of exactly 16 MB is labelled as larger. *)
Example sixteen_megabytes : get_io_size_bucket (16 * 1024 * 1024) = "> 16 MB".
Proof. reflexivity. Qed.

End SyscallViz.
