(* ===== verification/FixJson.v ===== *)
(** * Repairing the log of the monitor

    [fix_json.py]: the array of raw events is cut out of the text of the
    monitor by counting brackets, missing and superfluous commas are repaired
    line by line, and the events of the chosen processes are written.  On a text
    that needs no repair the result is exactly the chosen events, which the
    filter of [filter_syscall_log.py] then reads. *)

From stdpp Require Import prelude strings list.
From Stdlib Require Import ZArith Lia Ascii.
From S2P Require Import Prelude PyText PyJson JsonText BlkParse.
Local Open Scope Z_scope.

Module FixJson.

(** ** Where the events are *)
Definition quoted (s : string) : string := String (chr 34) (s +:+ String (chr 34) EmptyString).

(** The text from the bracket on, when the pattern (the quoted name, a colon
    and a bracket) matches here. *)
Definition raw_events_at (s : string) : option string :=
  s ← drop_prefix (quoted "raw_events") s;
  s ← BlkParse.lit 58 (BlkParse.span is_space s).2;
  let t := (BlkParse.span is_space s).2 in _ ← BlkParse.lit 91 t; Some t.

Fixpoint find_raw_events (s : string) : option string :=
  match raw_events_at s with
  | Some t => Some t
  | None => match s with EmptyString => None | String _ t => find_raw_events t end
  end.

(** The number of characters up to the bracket that closes the first one;
    [None] when it is not closed. *)
Fixpoint scan (escape_next in_string : bool) (count : Z) (s : string) : option nat :=
  match s with
  | EmptyString => None
  | String c t =>
      if escape_next then S <$> scan false in_string count t
      else if code c =? 92 then S <$> scan true in_string count t
      else if code c =? 34 then S <$> scan false (negb in_string) count t
      else if in_string then S <$> scan false in_string count t
      else if code c =? 91 then S <$> scan false in_string (count + 1) t
      else if code c =? 93 then
        if count - 1 =? 0 then Some 1%nat else S <$> scan false in_string (count - 1) t
      else S <$> scan false in_string count t
  end.

Fixpoint stake (n : nat) (s : string) : string :=
  match n, s with S n, String c s => String c (stake n s) | _, _ => EmptyString end.

Definition json_content (content : string) : string :=
  let s := default content (find_raw_events content) in
  match scan false false 0 s with Some n => stake n s | None => s end.

(** ** Commas *)
Fixpoint last_char (s : string) : option ascii :=
  match s with EmptyString => None | String c EmptyString => Some c | String _ t => last_char t end.
Definition ends_with (z : Z) (s : string) : bool := match last_char s with Some c => code c =? z | None => false end.
Definition starts_quote (s : string) : bool := match s with String c _ => code c =? 34 | EmptyString => false end.
Definition comma (s : string) : string := s +:+ ",".

(** The line is a field [offset] with a number and nothing after it. *)
Definition offset_line (s : string) : bool :=
  match (t ← drop_prefix (quoted "offset" +:+ ":") (BlkParse.span is_space s).2;
         '(_, r) ← BlkParse.many1 is_digit09 (BlkParse.span is_space t).2; Some r) with
  | Some r => String.eqb r ""
  | None => false
  end.

(** [s.rstrip(',')] *)
Fixpoint rstrip_commas (s : string) : string :=
  match s with
  | EmptyString => EmptyString
  | String c t => let r := rstrip_commas t in if (code c =? 44) && String.eqb r "" then EmptyString else String c r
  end.

(** One line; [rest] are the lines after it. *)
Definition fix_line (line : string) (rest : list string) : string :=
  let stripped := rstrip line in
  if String.eqb stripped "" then line else
  let next := strip <$> head rest in
  let stripped :=
    if offset_line stripped then
      match next with Some n => if starts_quote n then comma stripped else stripped | None => stripped end
    else match next with
         | Some n => if ends_with 34 stripped && negb (ends_with 44 stripped) && starts_quote n &&
                        has_char 58 n && negb (has_char 123 n) then comma stripped else stripped
         | None => stripped
         end in
  let stripped :=
    if substr (quoted "open_flags_str" +:+ ":") stripped && negb (ends_with 44 stripped) then
      match next with Some n => if starts_quote n then comma stripped else stripped | None => stripped end
    else stripped in
  if ends_with 44 stripped then
    match List.find (λ n, negb (String.eqb n "")) (map strip rest) with
    | Some n => if String.eqb n "}" || String.eqb n "}," then rstrip (rstrip_commas stripped) else stripped
    | None => stripped
    end
  else stripped.

Fixpoint fix_lines (lines : list string) : list string :=
  match lines with [] => [] | l :: ls => fix_line l ls :: fix_lines ls end.

Definition fixed_text (content : string) : string := py_join LF (fix_lines (split_on 10 (json_content content))).

(** ** Which events are kept *)
Inductive choice := Pids (pids : list Z) | ProcessName (name : string) | All.

Fixpoint keep_if (f : json → res bool) (l : list json) : res (list json) :=
  match l with
  | [] => Ok []
  | x :: l => b ← f x; k ← keep_if f l; Ok (if (b : bool) then x :: k else k)
  end.

Definition chosen (c : choice) (entry : json) : res bool :=
  match c with
  | Pids pids => v ← get entry "pid"; if hashable v then Ok (existsb (λ p, py_eq v (JInt p)) pids) else unhashable
  | ProcessName name => v ← get entry "process_name"; Ok (eq_str v name)
  | All => Ok true
  end.

(** The text that is written.  Text that is still not JSON is written as it is;
    every other exception ends in the result [False], without an output. *)
Definition fix_json_formatting (content : string) (c : choice) : res string :=
  let text := fixed_text content in
  match loads text with
  | Ok (JList parsed) => k ← keep_if (chosen c) parsed; Ok (enc Indent2 0 (JList k))
  | Ok _ => Ok text
  | Raise (Exn JSONDecodeError _) => Ok text
  | Raise e => Raise e
  end.

(** The arguments after the file: numbers separated by commas or white space
    are ids, anything else is a name. *)
Definition parse_choice (args : list string) : res choice :=
  match args with
  | [] => Ok All
  | _ =>
      let all := py_join " " args in
      let tokens := py_split (String.concat " " (split_on 44 all)) in
      match tokens with
      | [] => Ok (if String.eqb all "" then All else ProcessName all)
      | _ => if forallb isdigit tokens then ps ← mapMR int_of_str tokens; Ok (Pids ps) else Ok (ProcessName all)
      end
  end.

Example fix_missing_commas :
  fixed_text (q2 "{'raw_events': [" +:+ LF +:+ q2 "{" +:+ LF +:+ q2 "  'offset': 0" +:+ LF +:+ q2 "  'filename': 'a'" +:+ LF +:+
    q2 "  'ret': 0," +:+ LF +:+ "}" +:+ LF +:+ "]}") =
  q2 "[" +:+ LF +:+ q2 "{" +:+ LF +:+ q2 "  'offset': 0," +:+ LF +:+ q2 "  'filename': 'a'," +:+ LF +:+
    q2 "  'ret': 0" +:+ LF +:+ "}" +:+ LF +:+ "]".
Proof. vm_compute. reflexivity. Qed.

(** ** The bracket that is found closes the array *)

(** Text that the scan passes over inside an array. *)
Definition passes (w : string) : Prop := ∀ count r, 1 ≤ count →
  scan false false count (w +:+ r) = (λ n, String.length w + n)%nat <$> scan false false count r.

Lemma passes_nil : passes "".
Proof. intros count r _. change ("" +:+ r) with r. by destruct (scan false false count r). Qed.

Lemma passes_app a b : passes a → passes b → passes (a +:+ b).
Proof.
  intros Ha Hb count r Hc. rewrite sapp_assoc, Ha, Hb by done. rewrite slen_app.
  destruct (scan false false count r); cbn; [f_equal; lia|done].
Qed.

Definition plain (c : ascii) : bool :=
  negb ((code c =? 92) || (code c =? 34) || (code c =? 91) || (code c =? 93)).

Lemma passes_char c : plain c = true → passes (String c "").
Proof.
  unfold plain. intros [[[H1 H2]%orb_false_iff H3]%orb_false_iff H4]%negb_true_iff%orb_false_iff count r Hc.
  rewrite sapp_cons. cbn [scan]. rewrite H1, H2, H3, H4. change ("" +:+ r) with r.
  by destruct (scan false false count r).
Qed.

Lemma passes_plain w : sforall plain w = true → passes w.
Proof.
  induction w as [|c w IH]; [intros; apply passes_nil|]. cbn [sforall]. intros [Hc Hw]%andb_true_iff.
  change (String c w) with (String c "" +:+ w). apply passes_app; [by apply passes_char|by apply IH].
Qed.

(** Inside a string only its end counts. *)
Definition within (c : ascii) : bool := negb ((code c =? 92) || (code c =? 34)).

Lemma scan_within w count r : sforall within w = true →
  scan false true count (w +:+ r) = (λ n, String.length w + n)%nat <$> scan false true count r.
Proof.
  induction w as [|c w IH]; [change ("" +:+ r) with r; by destruct (scan false true count r)|]. cbn [sforall].
  intros [[H1 H2]%negb_true_iff%orb_false_iff Hw]%andb_true_iff. rewrite sapp_cons. cbn [scan]. rewrite H1, H2, (IH Hw).
  by destruct (scan false true count r).
Qed.

(** A character of a literal is itself, or a backslash with more after it. *)
Definition literal (w : string) : bool :=
  match w with
  | String b t => if code b =? 92 then match t with String _ u => sforall within u | EmptyString => false end else sforall within w
  | EmptyString => false
  end.

Lemma enc_char_literal c : literal (enc_char c) = true.
Proof. destruct c as [[] [] [] [] [] [] [] []]; vm_compute; reflexivity. Qed.

Lemma scan_literal w count r : literal w = true →
  scan false true count (w +:+ r) = (λ n, String.length w + n)%nat <$> scan false true count r.
Proof.
  destruct w as [|b t]; [done|]. cbn [literal]. destruct (code b =? 92) eqn:Hb; [|apply scan_within].
  destruct t as [|x u]; [done|]. intros Hu. rewrite !sapp_cons. cbn [scan]. rewrite Hb. cbn [scan].
  rewrite (scan_within _ _ _ Hu). by destruct (scan false true count r).
Qed.

Lemma scan_body s count r :
  scan false true count (enc_body s +:+ r) = (λ n, String.length (enc_body s) + n)%nat <$> scan false false count r.
Proof.
  induction s as [|c s IH]; cbn [enc_body].
  - rewrite sapp_cons. cbn [scan]. change (code (chr 34)) with 34. cbn [Z.eqb Pos.eqb negb].
    change ("" +:+ r) with r. by destruct (scan false false count r).
  - rewrite sapp_assoc, slen_app, scan_literal, IH by apply enc_char_literal.
    destruct (scan false false count r); cbn; [f_equal; lia|done].
Qed.

Lemma passes_str s : passes (enc_str s).
Proof.
  intros count r Hc. unfold enc_str. rewrite sapp_cons. cbn [scan]. change (code (chr 34)) with 34. cbn [Z.eqb Pos.eqb negb].
  rewrite scan_body. destruct (scan false false count r); done.
Qed.

Lemma passes_brackets w : passes w → passes ("[" +:+ w +:+ "]").
Proof.
  intros Hw count r Hc. change (("[" +:+ w +:+ "]") +:+ r) with (String "[" ((w +:+ "]") +:+ r)). cbn [scan].
  change (code "["%char) with 91. cbn [Z.eqb Pos.eqb negb]. rewrite sapp_assoc, Hw by lia. change ("]" +:+ r) with (String "]" r). cbn [scan].
  change (code "]"%char) with 93. cbn [Z.eqb Pos.eqb negb]. replace (count + 1 - 1) with count by lia.
  destruct (Z.eqb_spec count 0); [lia|]. rewrite !slen_app.
  destruct (scan false false count r); cbn; [f_equal; lia|done].
Qed.

Lemma passes_join sep l : passes sep → Forall passes l → passes (py_join sep l).
Proof.
  intros Hsep. induction 1 as [|x l Hx Hl IH]; [apply passes_nil|]. destruct l as [|y l]; [exact Hx|].
  rewrite py_join_cons. apply passes_app; [done|]. by apply passes_app.
Qed.

Lemma plain_spaces n : sforall plain (spaces n) = true.
Proof. by induction n. Qed.
Lemma passes_nl st lvl : passes (nl st lvl).
Proof. apply passes_plain. unfold nl. destruct st; [done..|]. rewrite sforall_app. cbn. apply plain_spaces. Qed.
Lemma passes_item st lvl : passes ("," +:+ ws_item st lvl).
Proof. apply passes_app; [by apply passes_plain|]. unfold ws_item. destruct st; [apply passes_nil|by apply passes_plain|apply passes_nl]. Qed.

Lemma passes_digits z : sforall plain (str_of_Z z) = true.
Proof.
  unfold str_of_Z. assert (∀ n, 0 ≤ n → sforall plain (str_of_nat n) = true) as H.
  { intros n Hn. eapply sforall_impl; [|by apply str_of_nat_digits]. intros c. unfold is_digit09, plain. lia. }
  destruct (Z.ltb_spec z 0); [cbn; apply H; lia|by apply H].
Qed.

(** What stands between the brackets of a list. *)
Definition list_body (st : style) (lvl : nat) (l : list json) : string :=
  match l with
  | [] => ""
  | _ => nl st (S lvl) +:+ py_join ("," +:+ ws_item st (S lvl)) (map (enc st (S lvl)) l) +:+ nl st lvl
  end.

Lemma enc_list st lvl l : enc st lvl (JList l) = "[" +:+ list_body st lvl l +:+ "]".
Proof. destruct l as [|x l]; [done|]. cbn [enc list_body]. by rewrite !sapp_assoc. Qed.

Lemma passes_list_body st lvl l : Forall (λ v, ∀ lvl, passes (enc st lvl v)) l → passes (list_body st lvl l).
Proof.
  intros Hl. destruct l as [|x l]; [apply passes_nil|]. unfold list_body.
  apply passes_app; [apply passes_nl|]. apply passes_app; [|apply passes_nl]. apply passes_join; [apply passes_item|].
  apply Forall_map. eapply Forall_impl; [exact Hl|]. intros v Hv. apply Hv.
Qed.

Lemma passes_enc v : ∀ st lvl, float_free v = true → passes (enc st lvl v).
Proof.
  induction v as [|b|z|f|s|l IH|d IH] using json_ind'; intros st lvl Hf; cbn [float_free] in Hf.
  - by apply passes_plain.
  - destruct b; by apply passes_plain.
  - apply passes_plain, passes_digits.
  - done.
  - apply passes_str.
  - rewrite enc_list. apply passes_brackets, passes_list_body. clear -IH Hf. induction IH as [|v l Hv _ IH]; [constructor|]. cbn in Hf.
    apply andb_true_iff in Hf as [H1 H2]. constructor; [|by apply IH]. intros lvl'. by apply Hv.
  - destruct d as [|kv d]; [by apply passes_plain|]. cbn [enc].
    apply passes_app; [by apply passes_plain|]. apply passes_app; [apply passes_nl|]. apply passes_app.
    2:{ apply passes_app; [apply passes_nl|by apply passes_plain]. }
    apply passes_join; [apply passes_item|]. apply Forall_map. revert Hf IH. generalize (kv :: d) as e. intros e Hf IH.
    induction IH as [|p e Hp _ IH]; [constructor|]. cbn in Hf. apply andb_true_iff in Hf as [H1 H2].
    constructor; [|by apply IH]. apply passes_app; [apply passes_str|]. apply passes_app; [by apply passes_plain|].
    apply passes_app; [apply passes_plain; by destruct st|by apply Hp].
Qed.

Lemma scan_array st l r : float_free (JList l) = true →
  scan false false 0 (enc st 0 (JList l) +:+ r) = Some (String.length (enc st 0 (JList l))).
Proof.
  intros Hf. rewrite enc_list. set (w := list_body st 0 l). assert (passes w) as Hw.
  { apply passes_list_body. cbn in Hf. apply Forall_forall. intros v Hv lvl. apply passes_enc.
    by eapply forallb_forall in Hf; [|by apply list_elem_of_In]. }
  change (("[" +:+ w +:+ "]") +:+ r) with (String "[" ((w +:+ "]") +:+ r)). cbn [scan].
  change (code "["%char) with 91. cbn [Z.eqb Pos.eqb negb]. rewrite sapp_assoc, Hw by lia.
  change ("]" +:+ r) with (String "]" r). cbn [scan]. change (code "]"%char) with 93.
  rewrite !slen_app. change (0 + 1 - 1) with 0. cbn. done.
Qed.

Lemma stake_app a b : stake (String.length a) (a +:+ b) = a.
Proof. induction a as [|c a IH]; [by destruct b|]. rewrite sapp_cons. cbn. by rewrite IH. Qed.

(** ** An array on one line needs no repair *)
Definition one_line (s : string) : bool := sforall (λ c, negb (code c =? 10)) s.

Lemma one_line_char s : one_line s = true → has_char 10 s = false.
Proof.
  induction s as [|c s IH]; [done|]. cbn. intros [Hc%negb_true_iff Hs]%andb_true_iff. by rewrite Hc, IH.
Qed.

Lemma one_line_app a b : one_line (a +:+ b) = one_line a && one_line b.
Proof. apply sforall_app. Qed.

Lemma one_line_str s : one_line (enc_str s) = true.
Proof.
  unfold enc_str, one_line. cbn [sforall]. change (code (chr 34)) with 34. cbn [Z.eqb Pos.eqb negb andb].
  induction s as [|c s IH]; [done|]. cbn [enc_body]. rewrite sforall_app, IH, andb_true_r.
  destruct c as [[] [] [] [] [] [] [] []]; vm_compute; reflexivity.
Qed.

Lemma one_line_join sep l : one_line sep = true → forallb one_line l = true → one_line (py_join sep l) = true.
Proof.
  intros Hsep. induction l as [|x l IH]; [done|]. cbn [forallb]. intros [Hx Hl]%andb_true_iff.
  destruct l as [|y l]; [exact Hx|]. rewrite py_join_cons, !one_line_app, Hx, Hsep. by apply IH.
Qed.

Lemma one_line_enc v : ∀ st lvl, st ≠ Indent2 → float_free v = true → one_line (enc st lvl v) = true.
Proof.
  induction v as [|b|z|f|s|l IH|d IH] using json_ind'; intros st lvl Hst Hf; cbn [float_free] in Hf.
  - done.
  - by destruct b.
  - cbn [enc]. unfold one_line. eapply sforall_impl; [|apply str_of_Z_nospace]. intros c. unfold is_space. lia.
  - done.
  - apply one_line_str.
  - destruct l as [|x l]; [done|]. cbn [enc]. rewrite !one_line_app.
    rewrite one_line_join; [by destruct st|by destruct st|]. revert Hf IH. generalize (x :: l) as k. intros k Hf IH.
    induction IH as [|v k Hv _ IH]; [done|]. cbn in *. apply andb_true_iff in Hf as [H1 H2]. by rewrite Hv, IH.
  - destruct d as [|kv d]; [done|]. cbn [enc]. rewrite !one_line_app.
    rewrite one_line_join; [by destruct st|by destruct st|]. revert Hf IH. generalize (kv :: d) as k. intros k Hf IH.
    induction IH as [|p k Hp _ IH]; [done|]. cbn [map forallb] in *. apply andb_true_iff in Hf as [H1 H2].
    rewrite IH by done. rewrite !one_line_app, one_line_str, Hp by done. by destruct st.
Qed.

Lemma last_char_app s c : last_char (s +:+ String c "") = Some c.
Proof.
  induction s as [|x s IH]; [done|]. rewrite sapp_cons. cbn [last_char]. rewrite IH. by destruct s.
Qed.

Lemma fix_line_bracket w : fix_line (w +:+ "]") [] = w +:+ "]".
Proof.
  unfold fix_line. cbv zeta. rewrite rstrip_end by done.
  destruct (String.eqb_spec (w +:+ "]") "") as [E|_]; [by destruct w|]. cbn [head fmap option_fmap option_map].
  assert (ends_with 44 (w +:+ "]") = false) as Hc by (unfold ends_with; by rewrite last_char_app).
  destruct (offset_line (w +:+ "]")); (destruct (substr (quoted "open_flags_str" +:+ ":") (w +:+ "]"));
    rewrite Hc; cbn [andb negb]; by rewrite ?Hc).
Qed.

(** No place before the text [t] has the pattern. *)
Definition first_at (pre t : string) : Prop :=
  ∀ p q, pre = p +:+ q → q ≠ "" → raw_events_at (q +:+ t) = None.

Lemma find_first pre t x : first_at pre t → raw_events_at t = Some x → find_raw_events (pre +:+ t) = Some x.
Proof.
  induction pre as [|c pre IH]; intros Hp Ht.
  - change ("" +:+ t) with t. destruct t; cbn [find_raw_events]; by rewrite Ht.
  - pose proof (Hp "" (String c pre) eq_refl ltac:(done)) as H. rewrite sapp_cons in H |- *. cbn [find_raw_events].
    rewrite H. apply IH; [|done]. intros p q -> Hq. by apply (Hp (String c p) q).
Qed.

Lemma drop_prefix_app p s : drop_prefix p (p +:+ s) = Some s.
Proof. induction p as [|c p IH]; [done|]. rewrite sapp_cons. cbn. by rewrite Ascii.eqb_refl. Qed.

Lemma raw_events_here w r : raw_events_at (quoted "raw_events" +:+ ": [" +:+ w +:+ r) = Some ("[" +:+ w +:+ r).
Proof. unfold raw_events_at. rewrite drop_prefix_app. done. Qed.

(** The log with the events on one line: the output is the chosen events, in
    the form that the next program loads. *)
Theorem fixed_events pre post st l c k : st ≠ Indent2 → float_free (JList l) = true → json_wf (JList l) →
  first_at pre (quoted "raw_events" +:+ ": " +:+ enc st 0 (JList l) +:+ post) →
  keep_if (chosen c) l = Ok k →
  fix_json_formatting (pre +:+ quoted "raw_events" +:+ ": " +:+ enc st 0 (JList l) +:+ post) c = Ok (enc Indent2 0 (JList k)) ∧
  loads (enc Indent2 0 (JList k)) = Ok (JList k).
Proof.
  intros Hst Hf Hw Hfirst Hk.
  assert (json_content (pre +:+ quoted "raw_events" +:+ ": " +:+ enc st 0 (JList l) +:+ post) = enc st 0 (JList l)) as Hc.
  { unfold json_content. rewrite (find_first _ _ (enc st 0 (JList l) +:+ post)); [|done|].
    - cbn [default from_option id]. rewrite scan_array by done. apply stake_app.
    - rewrite enc_list, !sapp_assoc. change (": " +:+ "[" +:+ ?x) with (": [" +:+ x). apply raw_events_here. }
  assert (loads (enc st 0 (JList l)) = Ok (JList l)) as Hl by (by apply loads_enc; [apply dict_of_pairs_NoDup|..]).
  split.
  - unfold fix_json_formatting, fixed_text. rewrite Hc, split_on_no by (by apply one_line_char, one_line_enc).
    cbn [fix_lines]. rewrite enc_list. rewrite <- sapp_assoc, fix_line_bracket, sapp_assoc, <- enc_list. cbn [py_join].
    rewrite Hl, Hk. done.
  - assert (∀ x, x ∈ k → x ∈ l) as Hsub.
    { clear -Hk. revert k Hk. induction l as [|x l IH]; intros k Hk; cbn in Hk; res_inv; [done|].
      intros y. destruct v; rewrite ?elem_of_cons; naive_solver. }
    apply loads_enc; [apply dict_of_pairs_NoDup| |].
    + cbn in *. apply forallb_forall. intros x Hx%list_elem_of_In%Hsub. eapply forallb_forall; [exact Hf|by apply list_elem_of_In].
    + apply json_wf_list, Forall_forall. intros x Hx%Hsub. apply json_wf_list in Hw. by eapply Forall_forall in Hw.
Qed.
End FixJson.
