(* ===== verification/Perfetto.v ===== *)
(** * Device commands joined to stored objects

    [examples/lmcache/kvio2perfetto.py]: the semantic records of a run (one
    per stored or loaded object) and the device commands of an eBPF capture
    are joined and laid out on a time line.  The file models the tolerant
    reader, the three joins (by cookie, by key, by byte range and time), the
    pairing of completions, the segmentation of the commands of an object, the
    inference of the block size, the spans and their lanes, and the counters.
    Rows are classified as JSON values; a classified record is then taken as
    its producer writes it (integers, binary64 seconds and texts), a field that
    the code reads with a default being given that default.  A command carries
    its position in the capture, which stands for the identity of the object.
    Track identifiers, names and the encoding of packets are left out. *)

From stdpp Require Import prelude strings list gmap sorting.
From Stdlib Require Import ZArith Lia Ascii.
From S2P Require Import Prelude PyText PyJson JsonText PyFloat FloatOps Geometry ContentProfile.
Local Open Scope Z_scope.

Module Perfetto.

(** ** Loading *)

(** [json.loads] of one line; a line that is not JSON is skipped. *)
Definition load_line (st : list json * Z) (line : string) : res (list json * Z) :=
  let '(rows, skipped) := st in
  let line := strip line in
  if String.eqb line "" then Ok st else
  match loads line with
  | Ok r => Ok (rows ++ [r], skipped)
  | Raise e => if decide (exn_cls e = JSONDecodeError) then Ok (rows, skipped + 1) else Raise e
  end.

Definition load_jsonl (lines : list string) : res (list json * Z) := foldM load_line ([], 0) lines.

Record rows := mkRows {
  sem_rows : list json; cmd_rows : list json; cmp_rows : list json; anchor_rows : list json;
  meta_rows : list json; other_rows : Z }.

Definition classify_row (st : rows) (r : json) : res rows :=
  let '(mkRows sem cmd cmp_ anchors meta other) := st in
  et ← get r "event_type";
  if eq_str et "nvme_cmd" then Ok (mkRows sem (cmd ++ [r]) cmp_ anchors meta other)
  else if eq_str et "nvme_cmp" then Ok (mkRows sem cmd (cmp_ ++ [r]) anchors meta other)
  else if eq_str et "clock_anchor" then Ok (mkRows sem cmd cmp_ (anchors ++ [r]) meta other)
  else if eq_str et "kvio_meta" then Ok (mkRows sem cmd cmp_ anchors (meta ++ [r]) other)
  else match r with
       | JObj d => if is_none et && dhas "op" d && dhas "trace_id" d
                   then Ok (mkRows (sem ++ [r]) cmd cmp_ anchors meta other)
                   else Ok (mkRows sem cmd cmp_ anchors meta (other + 1))
       | _ => no_attribute
       end.

Definition classify (rs : list json) : res rows := foldM classify_row (mkRows [] [] [] [] [] 0) rs.

(** ** Helpers *)

(** The first [n] characters. *)
Definition prefix_of (n : nat) (s : string) : string := String.substring 0 n s.

Definition parse_key (key : json) : res (option Z * option string * option string) :=
  match split_on 64 (py_str key) with
  | _ :: fmt :: rank :: sha :: _ =>
      r ← (if isdigit rank then r ← int_of_str rank; Ok (Some r) else Ok None);
      Ok (r, Some (prefix_of 12 sha), Some fmt)
  | _ => Ok (None, None, None)
  end.

Definition parse_trace_id_range (spec : option string) : res (option (Z * Z)) :=
  match spec with
  | None => Ok None
  | Some spec =>
      let '(a, b) := partition 45 spec in
      lo ← int_of_str a;
      hi ← (if String.eqb b "" then Ok lo else int_of_str b);
      Ok (Some (lo, hi))
  end.

(** *** Lanes *)
Section lanes.
Context {A : Type}.

Definition span : Type := Z * Z * A.
Definition s_begin (s : span) : Z := s.1.1.
Definition s_end (s : span) : Z := s.1.2.
Definition s_item (s : span) : A := s.2.

Definition span_le (a b : span) : Prop := s_begin a < s_begin b ∨ (s_begin a = s_begin b ∧ s_end a ≤ s_end b).
#[export] Instance span_le_dec : RelDecision span_le.
Proof. intros a b. unfold span_le. apply _. Defined.

(** The first lane that is free before [b], or a new one. *)
Fixpoint place (b e : Z) (i : nat) (lane_free : list Z) : nat * list Z :=
  match lane_free with
  | [] => (i, [e])
  | free_at :: rest =>
      if free_at <? b then (i, e :: rest)
      else let '(k, rest') := place b e (S i) rest in (k, free_at :: rest')
  end.

Definition assign (st : list Z * list (nat * A)) (s : span) : list Z * list (nat * A) :=
  let '(lane_free, out) := st in
  let '(i, lane_free') := place (s_begin s) (s_end s) 0 lane_free in (lane_free', out ++ [(i, s_item s)]).

Definition assign_lanes (spans : list span) : list (nat * A) * nat :=
  let '(lane_free, out) := foldl assign ([], []) (stable_sort span_le spans) in (out, length lane_free).
End lanes.
Arguments span A : clear implicits.

(** *** Completions *)
Definition by_ts (a b : nat * Z) : Prop := a.2 ≤ b.2.
#[export] Instance by_ts_dec : RelDecision by_ts.
Proof. intros a b. unfold by_ts. apply _. Defined.

(** The positions of the commands in the order of their times. *)
Definition cmd_ix (cmds_ts : list Z) : list (nat * Z) := stable_sort by_ts (imap (λ i t, (i, t)) cmds_ts).

(** Commands that are not later than [cts] are pushed on the stack. *)
Fixpoint push (cts : Z) (rest stack : list (nat * Z)) : list (nat * Z) * list (nat * Z) :=
  match rest with
  | (i, t) :: rest' => if t <=? cts then push cts rest' ((i, t) :: stack) else (rest, stack)
  | [] => ([], stack)
  end.

Record pairing := mkPairing { p_rest : list (nat * Z); unpaired : list (nat * Z); p_out : list (nat * Z) }.

Definition pair_step (st : pairing) (cts : Z) : pairing :=
  let '(rest, stack) := push cts (p_rest st) (unpaired st) in
  match stack with
  | (i, t) :: stack => mkPairing rest stack (p_out st ++ [(i, cts - t)])
  | [] => mkPairing rest [] (p_out st)
  end.

Definition pair_completions (cmds_ts cmps_ts : list Z) : list (nat * Z) :=
  p_out (foldl pair_step (mkPairing (cmd_ix cmds_ts) [] []) (stable_sort Z.le cmps_ts)).

(** ** Records *)
Record sem := mkSem {
  r_trace_id : Z; r_key : string; r_key_hex : option string; r_op : option string; r_bytes : Z;
  r_slot : option Z; r_ts : pyfloat; r_start : option pyfloat; r_cookie : option Z }.

Record cmd := mkCmd {
  c_id : nat; c_ts : Z; c_user_data : Z; c_tid : option Z; c_slba : option Z; c_nlb : Z; c_bytes : Z;
  c_data_len : Z; c_op_name : option string; c_key_hex : option string }.

Definition set_trace_id (r : sem) (tid : Z) : sem :=
  mkSem tid (r_key r) (r_key_hex r) (r_op r) (r_bytes r) (r_slot r) (r_ts r) (r_start r) (r_cookie r).

(** [r["_cookie_tid"] = r.get("trace_id"); r["trace_id"] = i + 1] *)
Definition synthesize (r : sem) (tid : Z) : sem :=
  mkSem tid (r_key r) (r_key_hex r) (r_op r) (r_bytes r) (r_slot r) (r_ts r) (r_start r) (Some (r_trace_id r)).

Definition set_tid (c : cmd) (tid : Z) : cmd :=
  mkCmd (c_id c) (c_ts c) (c_user_data c) (Some tid) (c_slba c) (c_nlb c) (c_bytes c) (c_data_len c) (c_op_name c) (c_key_hex c).

Definition cookie (c : cmd) : Z := Z.shiftr (c_user_data c) 32.

(** [c["tid"]], once every command has one *)
Definition tid_of (c : cmd) : Z := default 0 (c_tid c).

Definition e9 : pyfloat := fint 1000000000.

(** [int(float(x) * 1e9)] *)
Definition ns (t : pyfloat) : res Z := int_of (fmul t e9).

(** ** The join by key *)

(** [s.encode().hex()] *)
Fixpoint utf8_hex (s : string) : string :=
  match s with
  | EmptyString => EmptyString
  | String c s =>
      (if code c <? 128 then hex2 (code c) else hex2 (192 + code c / 64) +:+ hex2 (128 + code c mod 64)) +:+ utf8_hex s
  end.

Definition key_text (r : sem) : string :=
  match r_key_hex r with
  | Some h => if String.eqb h "" then utf8_hex (r_key r) else h
  | None => utf8_hex (r_key r)
  end.

(** [keymap.setdefault(kh.lower(), len(keymap) + 1)] *)
Definition key_record (st : list (string * Z) * list sem) (r : sem) : list (string * Z) * list sem :=
  let '(keymap, out) := st in
  let k := py_lower (key_text r) in
  match dget k keymap with
  | Some tid => (keymap, out ++ [set_trace_id r tid])
  | None => let tid := Z.of_nat (length keymap) + 1 in (keymap ++ [(k, tid)], out ++ [set_trace_id r tid])
  end.

Definition key_command (keymap : list (string * Z)) (c : cmd) : cmd :=
  set_tid c (default 0 (dget (py_lower (default "" (c_key_hex c))) keymap)).

Definition join_by_key (sems : list sem) (cmds : list cmd) : list sem * list cmd :=
  let '(keymap, sems') := foldl key_record ([], []) sems in (sems', map (key_command keymap) cmds).

(** ** The join by byte range and time *)
Definition slack_ns : Z := 5000000.

(** [int((self.kmeta or {}).get(k, dflt) or dflt)] *)
Definition meta_int (kmeta : option json) (k : string) (dflt : Z) : res Z :=
  match kmeta with
  | None => Ok dflt
  | Some m => if py_true m then v ← get_default m k (JInt dflt); if py_true v then py_int v else Ok dflt else Ok dflt
  end.

Record window := mkWindow { w_t0 : Z; w_t1 : Z; w_hi : Z; w_rec : sem }.

(** The slots by their base. *)
Definition slots : Type := list (Z * list window).

Fixpoint zget (k : Z) (d : slots) : list window :=
  match d with [] => [] | (k', l) :: d => if k =? k' then l else zget k d end.

Fixpoint zadd (k : Z) (w : window) (d : slots) : slots :=
  match d with
  | [] => [(k, [w])]
  | (k', l) :: d => if k =? k' then (k', l ++ [w]) :: d else (k', l) :: zadd k w d
  end.

Definition slot_end (hdr ba lo bytes : Z) : Z := lo + hdr + (bytes + ba - 1) / ba * ba.

Definition offset_record (hdr ba : Z) (st : slots * list sem) (i : nat) (r : sem) : res (slots * list sem) :=
  let '(by_lo, out) := st in
  match r_slot r with
  | None => Ok (by_lo, out ++ [r])
  | Some lo =>
      t1 ← ns (r_ts r); t0 ← ns (default (r_ts r) (r_start r));
      let r' := synthesize r (Z.of_nat i + 1) in
      Ok (zadd lo (mkWindow (t0 - slack_ns) (t1 + slack_ns) (slot_end hdr ba lo (r_bytes r)) r') by_lo, out ++ [r'])
  end.

Definition offset_records (hdr ba : Z) (sems : list sem) : res (slots * list sem) :=
  foldiM (offset_record hdr ba) 0 ([], []) sems.

(** [bisect.bisect_right(a, x)] on the part of [a] from [lo] to [hi]. *)
Fixpoint bisect_go (fuel : nat) (a : list Z) (x lo hi : Z) : Z :=
  match fuel with
  | O => lo
  | S n => if lo <? hi then
             let mid := (lo + hi) / 2 in
             if x <? nth (Z.to_nat mid) a 0 then bisect_go n a x lo mid else bisect_go n a x (mid + 1) hi
           else lo
  end.

Definition bisect_right (a : list Z) (x : Z) : Z := bisect_go (S (length a)) a x 0 (Z.of_nat (length a)).

(** [dirmap.get(op)] *)
Definition dirmap (op : option string) : option string :=
  match op with
  | Some op => if String.eqb op "store" then Some "write" else if String.eqb op "load" then Some "read" else None
  | None => None
  end.

(** The window that holds [ts]: the first in the direction of the command,
    or the first. *)
Fixpoint pick (c : cmd) (best : option window) (ops : list window) : option window :=
  match ops with
  | [] => best
  | w :: ops =>
      if (w_t0 w <=? c_ts c) && (c_ts c <=? w_t1 w) then
        if decide (dirmap (r_op (w_rec w)) = c_op_name c) then Some w
        else pick c (match best with None => Some w | Some _ => best end) ops
      else pick c best ops
  end.

Inductive outcome := NoAddress | Unmatched | Cross | Gap | Unique (r : sem).

(** The block size of a command: its bytes by its blocks, or the given one. *)
Definition lba_of (lba_bytes : Z) (c : cmd) : Z :=
  if negb (c_nlb c =? 0) && negb (c_bytes c =? 0) then c_bytes c / c_nlb c else lba_bytes.

Definition cmd_length (lba : Z) (c : cmd) : Z := if c_bytes c =? 0 then c_nlb c * lba else c_bytes c.

Definition locate (by_lo : slots) (ulos : list Z) (c : cmd) (off cmd_end : Z) : outcome :=
  let j := bisect_right ulos off - 1 in
  if j <? 0 then Unmatched else
  let ops := zget (nth (Z.to_nat j) ulos 0) by_lo in
  match ops with
  | [] => Unmatched
  | first :: _ =>
      let hi := w_hi first in
      if hi <=? off then Unmatched
      else if hi <? cmd_end then
        match ulos !! Z.to_nat (j + 1) with
        | Some nxt => if nxt <? cmd_end then Cross else Gap
        | None => Gap
        end
      else match pick c None ops with
           | Some w => Unique (w_rec w)
           | None => Unmatched
           end
  end.

Definition attribute (lba_bytes : Z) (by_lo : slots) (ulos : list Z) (c : cmd) : outcome :=
  match c_slba c with
  | None => NoAddress
  | Some slba =>
      let lba := lba_of lba_bytes c in
      let off := slba * lba in
      locate by_lo ulos c off (off + cmd_length lba c)
  end.

Record tally := mkTally {
  n_gt : Z; n_agree : Z; n_off_only : Z; n_unique : Z; n_cross : Z; n_gap : Z; n_unmatched : Z; n_cookie : Z }.

(** The counters after one command. *)
Definition count (n : tally) (c : cmd) (o : outcome) : tally :=
  let '(mkTally gt ag ex un cr gp um ck) := n in
  let tagged := negb (cookie c =? 0) in
  let ck := match o with NoAddress => ck | _ => ck + b2Z tagged end in
  match o with
  | NoAddress => n
  | Unmatched => mkTally gt ag ex un cr gp (um + 1) ck
  | Cross => mkTally gt ag ex un (cr + 1) gp um ck
  | Gap => mkTally gt ag ex un cr (gp + 1) um ck
  | Unique r =>
      if tagged then mkTally (gt + 1) (ag + b2Z (bool_decide (r_cookie r = Some (cookie c)))) ex (un + 1) cr gp um ck
      else mkTally gt ag (ex + 1) (un + 1) cr gp um ck
  end.

Definition offset_command (lba_bytes : Z) (by_lo : slots) (ulos : list Z) (st : tally * list cmd) (c : cmd) : tally * list cmd :=
  let o := attribute lba_bytes by_lo ulos c in
  (count st.1 c o, st.2 ++ [set_tid c (match o with Unique r => r_trace_id r | _ => 0 end)]).

Definition join_by_offset (kmeta : option json) (lba_bytes : Z) (sems : list sem) (cmds : list cmd)
    : res (tally * list sem * list cmd) :=
  hdr ← meta_int kmeta "header_bytes" 0; ba ← meta_int kmeta "block_align" 4096;
  '(by_lo, sems') ← offset_records hdr ba sems;
  let ulos := stable_sort Z.le (map fst by_lo) in
  let '(n, cmds') := foldl (offset_command lba_bytes by_lo ulos) (mkTally 0 0 0 0 0 0 0 0, []) cmds in
  Ok (n, sems', cmds').

(** ** The join *)

(** [if "tid" not in c: c["tid"] = int(c.get("user_data", 0)) >> 32] *)
Definition cookie_command (c : cmd) : cmd :=
  match c_tid c with Some _ => c | None => set_tid c (cookie c) end.

Definition cmds_of (cmds : list cmd) (tid : Z) : list cmd := List.filter (λ c, tid_of c =? tid) cmds.

(** The records by trace id, in the order of their first occurrence. *)
Fixpoint occ_add (r : sem) (d : list (Z * list sem)) : list (Z * list sem) :=
  match d with
  | [] => [(r_trace_id r, [r])]
  | (k, l) :: d => if r_trace_id r =? k then (k, l ++ [r]) :: d else (k, l) :: occ_add r d
  end.

Definition ts_le (a b : sem) : Prop := fle (r_ts a) (r_ts b).
#[export] Instance ts_le_dec : RelDecision ts_le.
Proof. intros a b. unfold ts_le. apply _. Defined.

(** The records by id, and how many had an id that was there before. *)
Definition join_record (st : Z * list (Z * list sem)) (r : sem) : Z * list (Z * list sem) :=
  let '(dups, d) := st in
  (if existsb (λ kl, kl.1 =? r_trace_id r) d then dups + 1 else dups, occ_add r d).

Definition join_records (sems : list sem) : Z * list (Z * list sem) :=
  let '(dups, d) := foldl join_record (0, []) sems in
  (dups, map (λ kl, (kl.1, stable_sort ts_le kl.2)) d).

(** The durations of the commands that a completion answers, by identity. *)
Definition durations_of (cl : list cmd) (pend : list Z) : list (nat * Z) :=
  match pend with
  | [] => []
  | _ => omap (λ id, c ← cl !! id.1; Some (c_id c, id.2)) (pair_completions (map c_ts cl) pend)
  end.

Definition of_user_data (ud : Z) (cmds : list cmd) : list cmd := List.filter (λ c, c_user_data c =? ud) cmds.

(** The distinct cookies, each with its commands and its completions. *)
Fixpoint distinct (l : list Z) : list Z :=
  match l with [] => [] | x :: l => x :: List.filter (λ y, negb (y =? x)) (distinct l) end.

Definition dur_by_id (cmds : list cmd) (cmps : list (Z * Z)) : list (nat * Z) :=
  flat_map (λ ud, durations_of (of_user_data ud cmds)
                    (map snd (List.filter (λ p, p.1 =? ud) cmps))) (distinct (map c_user_data cmds)).

(** ** Filters and segmentation *)
Definition in_range (r : option (Z * Z)) (tid : Z) : bool :=
  match r with None => true | Some (lo, hi) => (lo <=? tid) && (tid <=? hi) end.

Definition keep_cmds (r : option (Z * Z)) (cmds : list cmd) : list cmd := List.filter (λ c, in_range r (tid_of c)) cmds.

Definition keep_occs (r : option (Z * Z)) (occs : list (Z * list sem)) : list (Z * list sem) :=
  List.filter (λ kl, in_range r kl.1) occs.

(** [while j < len(ends) - 1 and ts > ends[j]: j += 1] *)
Fixpoint advance (fuel : nat) (ends : list Z) (ts : Z) (j : nat) : nat :=
  match fuel with
  | O => j
  | S n => if (Z.of_nat j <? Z.of_nat (length ends) - 1) && (nth j ends 0 <? ts) then advance n ends ts (S j) else j
  end.

Fixpoint segment (ends : list Z) (j : nat) (cl : list cmd) : list (nat * nat) :=
  match cl with
  | [] => []
  | c :: cl => let j := advance (length ends) ends (c_ts c) j in (c_id c, j) :: segment ends j cl
  end.

Definition cmd_le (a b : cmd) : Prop := c_ts a ≤ c_ts b.
#[export] Instance cmd_le_dec : RelDecision cmd_le.
Proof. intros a b. unfold cmd_le. apply _. Defined.

Definition occ_of_tid (cmds : list cmd) (kl : Z * list sem) : res (list (nat * nat)) :=
  ends ← mapMR (λ r, ns (r_ts r)) kl.2;
  Ok (segment ends 0 (stable_sort cmd_le (cmds_of cmds kl.1))).

Definition occ_of (cmds : list cmd) (occs : list (Z * list sem)) : res (list (nat * nat)) :=
  l ← mapMR (occ_of_tid cmds) occs; Ok (concat l).

(** [occ_of.get(id(c))] *)
Fixpoint occ_get (id : nat) (o : list (nat * nat)) : option nat :=
  match o with [] => None | (i, j) :: o => if (id =? i)%nat then Some j else occ_get id o end.

(** The commands of an occurrence. *)
Definition occ_cmds (o : list (nat * nat)) (cmds : list cmd) (tid : Z) (oi : nat) : list cmd :=
  List.filter (λ c, bool_decide (occ_get (c_id c) o = Some oi)) (cmds_of cmds tid).

(** ** The block size *)
Definition candidates (lba_bytes : Z) : list Z :=
  foldl (λ cand v, if bool_decide (v ∈ cand) then cand else cand ++ [v]) [] [lba_bytes; 4096; 512].

Record sampling := mkSampling { score : list (Z * Z); sampled : Z }.

(** One occurrence: a store with commands scores every size under which one
    of them starts at its slot. *)
Definition sample (o : list (nat * nat)) (cmds : list cmd) (st : sampling) (tro : Z * nat * sem) : sampling :=
  let '(tid, oi, r) := tro in
  if negb (bool_decide (r_op r = Some "store")) then st else
  let slot := default (-1) (r_slot r) in
  match map (λ c, default 0 (c_slba c)) (occ_cmds o cmds tid oi) with
  | [] => st
  | slbas => mkSampling (map (λ vn, (vn.1, if existsb (λ s, s * vn.1 =? slot) slbas then vn.2 + 1 else vn.2)) (score st))
               (sampled st + 1)
  end.

(** The occurrences, until fifty have been sampled. *)
Fixpoint sample_all (o : list (nat * nat)) (cmds : list cmd) (st : sampling) (l : list (Z * nat * sem)) : sampling :=
  match l with
  | [] => st
  | x :: l => let st := sample o cmds st x in if 50 <=? sampled st then st else sample_all o cmds st l
  end.

Definition occurrences (occs : list (Z * list sem)) : list (Z * nat * sem) :=
  flat_map (λ kl, imap (λ oi r, (kl.1, oi, r)) kl.2) occs.

(** [max(cand, key=...)]: the first of the best. *)
Fixpoint best_of (best : Z * Z) (l : list (Z * Z)) : Z * Z :=
  match l with [] => best | x :: l => best_of (if best.2 <? x.2 then x else best) l end.

Inductive lba_warning := NoHeaders | Inferred (lba matched sampled : Z).

Definition infer_lba (lba_bytes : Z) (o : list (nat * nat)) (cmds : list cmd) (occs : list (Z * list sem))
    : Z * option lba_warning :=
  let st := sample_all o cmds (mkSampling (map (λ v, (v, 0)) (candidates lba_bytes)) 0) (occurrences occs) in
  if sampled st =? 0 then (lba_bytes, None) else
  match score st with
  | [] => (lba_bytes, None)
  | x :: l => let best := best_of x l in
              if best.2 =? 0 then (lba_bytes, Some NoHeaders)
              else if best.1 =? lba_bytes then (lba_bytes, None)
              else (best.1, Some (Inferred best.1 best.2 (sampled st)))
  end.

(** ** The time line *)
Definition min_of (l : list Z) : Z := match l with [] => 0 | x :: l => foldl Z.min x l end.

Definition base_ns (cmds : list cmd) (occs : list (Z * list sem)) (serving : list (pyfloat * pyfloat)) : res Z :=
  sem_ts ← mapMR (λ r, ns (r_ts r)) (flat_map snd occs);
  serving_ts ← mapMR (λ se, ns se.1) serving;
  Ok (min_of (map c_ts cmds ++ sem_ts ++ serving_ts)).

(** [p.timestamp = max(0, ts)] *)
Definition timestamp (ts : Z) : Z := Z.max 0 ts.

(** A request of the serving layer lasts at least a nanosecond. *)
Definition serving_span (base : Z) (se : pyfloat * pyfloat) : res (Z * Z) :=
  b ← ns se.1; e ← ns se.2;
  let b := b - base in let e := e - base in Ok (b, if e <=? b then b + 1 else e).

Record object := mkObject { o_tid : Z; o_occ : nat; o_rec : sem; o_cmds : list cmd; o_begin : Z; o_end : Z }.

Record drawn := mkDrawn { d_spans : list (span object); d_instants : list (Z * Z * nat * sem); clock_anomalies : Z }.

Definition draw (base : Z) (o : list (nat * nat)) (cmds : list cmd) (st : drawn) (tro : Z * nat * sem) : res drawn :=
  let '(tid, oi, r) := tro in
  end_abs ← ns (r_ts r);
  let end_ns := end_abs - base in
  start_ns ← match r_start r with None => Ok None | Some t0 => z ← ns t0; Ok (Some (z - base)) end;
  let add b e cl := d_spans st ++ [(b, e, mkObject tid oi r cl b e)] in
  match occ_cmds o cmds tid oi with
  | c :: cl =>
      let first_cmd := foldl Z.min (c_ts c) (map c_ts cl) - base in
      let max_cmd := foldl Z.max (c_ts c) (map c_ts cl) - base in
      let begin_ns := match start_ns with Some s => Z.min s first_cmd | None => first_cmd end in
      if end_ns <? max_cmd then Ok (mkDrawn (add begin_ns max_cmd (c :: cl)) (d_instants st) (clock_anomalies st + 1))
      else Ok (mkDrawn (add begin_ns end_ns (c :: cl)) (d_instants st) (clock_anomalies st))
  | [] =>
      match start_ns with
      | Some s => if s <? end_ns then Ok (mkDrawn (add s end_ns []) (d_instants st) (clock_anomalies st))
                  else Ok (mkDrawn (d_spans st) (d_instants st ++ [(end_ns, tid, oi, r)]) (clock_anomalies st))
      | None => Ok (mkDrawn (d_spans st) (d_instants st ++ [(end_ns, tid, oi, r)]) (clock_anomalies st))
      end
  end.

Definition draw_all (base : Z) (o : list (nat * nat)) (cmds : list cmd) (occs : list (Z * list sem)) : res drawn :=
  foldM (draw base o cmds) (mkDrawn [] [] 0) (occurrences occs).

(** ** One arm: the joined capture *)
Record capture := mkCapture {
  k_tally : option tally; k_dups : Z; k_occs : list (Z * list sem); k_cmds : list cmd; k_durs : list (nat * Z);
  k_occ_of : list (nat * nat); k_lba : Z * option lba_warning; k_base : Z }.

Definition Capture (by_key by_offset : bool) (kmeta : option json) (lba_bytes : Z) (trace_id : option string)
    (sems : list sem) (cmds : list cmd) (cmps : list (Z * Z)) (serving : list (pyfloat * pyfloat)) : res capture :=
  let '(sems, cmds) := if by_key then join_by_key sems cmds else (sems, cmds) in
  '(n, sems, cmds) ← (if by_offset then '(n, sems, cmds) ← join_by_offset kmeta lba_bytes sems cmds; Ok (Some n, sems, cmds)
                      else Ok (None, sems, cmds));
  let '(dups, occs) := join_records sems in
  let cmds := map cookie_command cmds in
  let durs := dur_by_id cmds cmps in
  range ← parse_trace_id_range trace_id;
  let cmds := keep_cmds range cmds in
  let occs := keep_occs range occs in
  o ← occ_of cmds occs;
  let lba := if by_key || by_offset then (lba_bytes, None) else infer_lba lba_bytes o cmds occs in
  base ← base_ns cmds occs serving;
  Ok (mkCapture n dups occs cmds durs o lba base).

(** *** Objects in flight *)
Definition delta_le (a b : Z * Z) : Prop := a.1 < b.1 ∨ (a.1 = b.1 ∧ a.2 ≤ b.2).
#[export] Instance delta_le_dec : RelDecision delta_le.
Proof. intros a b. unfold delta_le. apply _. Defined.

Fixpoint running (cur : Z) (l : list (Z * Z)) : list (Z * Z) :=
  match l with [] => [] | (ts, d) :: l => (ts, cur + d) :: running (cur + d) l end.

Definition in_flight {A} (spans : list (span A)) : list (Z * Z) :=
  running 0 (stable_sort delta_le (flat_map (λ s, [(s_begin s, 1); (s_end s, -1)]) spans)).

(** *** Command slices *)
Inductive role := Untagged | Writes | Reads | Other.
#[export] Instance role_eq_dec : EqDecision role.
Proof. solve_decision. Defined.

Definition role_of (c : cmd) : role :=
  if (tid_of c =? 0) && match c_key_hex c with None => true | Some h => String.eqb h "" end then Untagged
  else match c_op_name c with
       | Some op => if String.eqb op "write" || String.eqb op "store" then Writes
                    else if String.eqb op "read" || String.eqb op "retrieve" then Reads else Other
       | None => Other
       end.

Definition of_role (ro : role) (cmds : list cmd) : list cmd :=
  stable_sort cmd_le (List.filter (λ c, bool_decide (role_of c = ro)) cmds).

Definition LANE_GAP_FRACTION : pyfloat := float_of_dec false 9 (-1).

(** [dur_by_id.get(id(c))] *)
Fixpoint dur_get (id : nat) (o : list (nat * Z)) : option Z :=
  match o with [] => None | (i, d) :: o => if (id =? i)%nat then Some d else dur_get id o end.

Record entry := mkEntry { n_ts : Z; n_dur : Z; n_real : bool; n_cmd : cmd }.

Definition duration (nominal base : Z) (durs : list (nat * Z)) (c : cmd) (nxt : option cmd) : res entry :=
  let ts := c_ts c - base in
  match dur_get (c_id c) durs with
  | Some real => Ok (mkEntry ts (Z.max 1 real) true c)
  | None =>
      match nxt with
      | None => Ok (mkEntry ts nominal false c)
      | Some c' => g ← float_of_Z (c_ts c' - base - ts); cap ← int_of (fmul g LANE_GAP_FRACTION);
                   Ok (mkEntry ts (Z.max 1 (Z.min nominal cap)) false c)
      end
  end.

Fixpoint entries (nominal base : Z) (durs : list (nat * Z)) (cl : list cmd) : res (list entry) :=
  match cl with
  | [] => Ok []
  | c :: cl => e ← duration nominal base durs c (head cl); es ← entries nominal base durs cl; Ok (e :: es)
  end.

Definition entry_span (e : entry) : span entry := (n_ts e, n_ts e + n_dur e, e).

(** Real durations can overlap and are spread on lanes; nominal ones share one. *)
Definition lay (es : list entry) : list (nat * entry) * nat :=
  if existsb n_real es then assign_lanes (map entry_span es) else (map (λ e, (0%nat, e)) es, 1%nat).

(** The part of a store that a command writes. *)
Inductive part := Header | Payload.

Definition part_of (lba_bytes : Z) (o : list (nat * nat)) (occs : list (Z * list sem)) (c : cmd) : option part :=
  oi ← occ_get (c_id c) o;
  kl ← List.find (λ kl, kl.1 =? tid_of c) occs;
  r ← kl.2 !! oi;
  if bool_decide (r_op r = Some "store") then
    Some (if default 0 (c_slba c) * lba_bytes =? default (-1) (r_slot r) then Header else Payload)
  else None.

(** *** Rates *)
Fixpoint bucket_add (k v : Z) (d : list (Z * Z)) : list (Z * Z) :=
  match d with
  | [] => [(k, v)]
  | (k', v') :: d => if k =? k' then (k', v' + v) :: d else (k', v') :: bucket_add k v d
  end.

Definition bucket_le (a b : Z * Z) : Prop := a.1 ≤ b.1.
#[export] Instance bucket_le_dec : RelDecision bucket_le.
Proof. intros a b. unfold bucket_le. apply _. Defined.

(** The points of a counter: a value per bucket with commands, and a zero
    after a run of them. *)
Fixpoint counter_points (w : Z) (prev : option Z) (l : list (Z * Z)) : list (Z * Z) :=
  match l with
  | [] => match prev with Some p => [((p + 1) * w, 0)] | None => [] end
  | (k, v) :: l =>
      match prev with Some p => if p + 1 <? k then [((p + 1) * w, 0)] else [] | None => [] end
      ++ (k * w, v) :: counter_points w (Some k) l
  end.

Definition bucket_counter (w : Z) (value_fn : cmd → Z) (base : Z) (cmds : list cmd) : list (Z * Z) :=
  counter_points w None (stable_sort bucket_le
    (foldl (λ d c, bucket_add ((c_ts c - base) / w) (value_fn c) d) [] cmds)).

(** ** Writing *)
Record event (A : Type) := mkEvent { e_ts : Z; e_order : Z; e_spec : A; e_lo : Z; e_hi : Z }.
Arguments mkEvent {A}. Arguments e_ts {A}. Arguments e_order {A}. Arguments e_spec {A}. Arguments e_lo {A}. Arguments e_hi {A}.

Definition add_point {A} (ts order : Z) (spec : A) (es : list (event A)) : list (event A) :=
  es ++ [mkEvent ts order spec ts ts].

Definition add_span {A} (ts0 ts1 : Z) (b e : A) (order0 order1 : Z) (es : list (event A)) : list (event A) :=
  es ++ [mkEvent ts0 order0 b ts0 ts1; mkEvent ts1 order1 e ts0 ts1].

Definition event_le {A} (a b : event A) : Prop := e_ts a < e_ts b ∨ (e_ts a = e_ts b ∧ e_order a ≤ e_order b).
#[export] Instance event_le_dec {A} : RelDecision (@event_le A).
Proof. intros a b. unfold event_le. apply _. Defined.

Definition written {A} (range : option (Z * Z)) (es : list (event A)) : list (event A) :=
  List.filter (λ e, match range with None => true | Some (lo, hi) => negb ((e_hi e <? lo) || (hi <? e_lo e)) end)
    (stable_sort event_le es).

End Perfetto.
