(* ===== verification/PerfettoCorrect.v ===== *)
(** * The time line shows what was captured

    Properties of [Perfetto.v]: lanes never overlap and are as few as
    possible; completions are paired with the latest command that still waits;
    the join by byte range agrees with a scan of the records; the commands of an
    object are segmented by the end of its operations; the counters have the
    values of the definition they are named after. *)

From stdpp Require Import prelude strings list gmap sorting.
From Stdlib Require Import ZArith Lia Ascii.
From S2P Require Import Prelude PyText PyJson JsonText PyFloat FloatOps Geometry ContentProfile Perfetto.
Import Perfetto.
Local Open Scope Z_scope.

(** ** Lanes *)
Section lanes.
Context {A : Type}.
Implicit Types (s : span A) (l : list (nat * span A)) (free : list Z).

#[export] Instance span_le_total : Total (@span_le A).
Proof. intros a b. unfold span_le. lia. Qed.
#[export] Instance span_le_trans : Transitive (@span_le A).
Proof. intros a b c. unfold span_le. lia. Qed.

Definition contains s (t : Z) : bool := (s_begin s <=? t) && (t <=? s_end s).
#[local] Arguments contains : simpl never.

(** The lane chosen is the first that is free, and only its end changes. *)
Lemma place_spec b e i free k free' : place b e i free = (k, free') →
  ∃ n, k = (i + n)%nat ∧ (∀ j f, (j < n)%nat → free !! j = Some f → b ≤ f) ∧
    ((n < length free)%nat ∧ (∃ f, free !! n = Some f ∧ f < b) ∧ free' = <[n := e]> free ∨
     n = length free ∧ free' = free ++ [e]).
Proof.
  revert i k free'. induction free as [|f free IH]; intros i k free' H; cbn in H.
  - inversion H; subst. exists 0%nat. split; [lia|]. split; [intros; lia|]. by right.
  - destruct (Z.ltb_spec f b) as [Hlt|Hge].
    + inversion H; subst. exists 0%nat. split; [lia|]. split; [intros; lia|]. left. cbn. split; [lia|]. by split; [exists f|].
    + destruct (place b e (S i) free) as [k1 free1] eqn:E. inversion H; subst.
      destruct (IH _ _ _ E) as (n & -> & Hbusy & Hcase). exists (S n). split; [lia|]. split.
      * intros [|j] f' Hj Hf; cbn in Hf; [by simplify_eq|]. apply (Hbusy j); [lia|done].
      * destruct Hcase as [(Hn & Hf & ->)|[-> ->]]; [left|right]; cbn; [split; [lia|]; by split|done].
Qed.

(** The spans with their lanes, from the state of the lanes on. *)
Fixpoint placed free (ss : list (span A)) : list (nat * span A) :=
  match ss with
  | [] => []
  | s :: ss => let '(k, free') := place (s_begin s) (s_end s) 0 free in (k, s) :: placed free' ss
  end.

Fixpoint frees free (ss : list (span A)) : list Z :=
  match ss with [] => free | s :: ss => frees (place (s_begin s) (s_end s) 0 free).2 ss end.

Lemma assign_placed free out ss :
  foldl assign (free, out) ss = (frees free ss, out ++ map (λ p, (p.1, s_item p.2)) (placed free ss)).
Proof.
  revert free out. induction ss as [|s ss IH]; intros free out; cbn; [by rewrite app_nil_r|].
  destruct (place _ _ _ _) as [k free'] eqn:E. rewrite IH. cbn. by rewrite <- app_assoc.
Qed.

Lemma placed_snd free ss : map snd (placed free ss) = ss.
Proof.
  revert free. induction ss as [|s ss IH]; intros free; cbn; [done|]. destruct (place _ _ _ _). cbn. by rewrite IH.
Qed.

Lemma place_length b e free k free' : place b e 0 free = (k, free') →
  (k < length free')%nat ∧ (length free ≤ length free')%nat ∧ free' !! k = Some e ∧
  (∀ j f, j ≠ k → free !! j = Some f → free' !! j = Some f).
Proof.
  intros H. destruct (place_spec _ _ _ _ _ _ H) as (n & -> & _ & [(Hn & _ & ->)|[-> ->]]); cbn.
  - rewrite length_insert. split; [lia|]. split; [lia|]. split; [by apply list_lookup_insert_eq|].
    intros j f Hj Hf. by rewrite list_lookup_insert_ne by lia.
  - rewrite length_app. cbn. split; [lia|]. split; [lia|]. split; [by rewrite list_lookup_middle|].
    intros j f Hj Hf. rewrite lookup_app_l; [done|]. by apply lookup_lt_Some in Hf.
Qed.

Lemma placed_lt free ss : (length free ≤ length (frees free ss))%nat ∧
  Forall (λ p, (p.1 < length (frees free ss))%nat) (placed free ss).
Proof.
  revert free. induction ss as [|s ss IH]; intros free; cbn; [split; [lia|constructor]|].
  destruct (place _ _ _ _) as [k free'] eqn:E. cbn. destruct (place_length _ _ _ _ _ E) as (Hk & Hl & _).
  destruct (IH free') as [Hle Hall]. split; [lia|]. constructor; [cbn; lia|done].
Qed.

(** A span placed on a lane begins after the lane was free. *)
Lemma placed_after free ss k s f : StronglySorted span_le ss → (k, s) ∈ placed free ss → free !! k = Some f → f < s_begin s.
Proof.
  intros Hs. revert free k s f. induction Hs as [|s0 ss Hs IH Hall]; intros free k s f Hin Hf; cbn in Hin; [set_solver|].
  destruct (place _ _ _ _) as [k0 free'] eqn:E.
  destruct (place_length _ _ _ _ _ E) as (_ & _ & _ & Hother).
  assert (k0 = k → f < s_begin s0) as Hfree.
  { intros <-. destruct (place_spec _ _ _ _ _ _ E) as (n & -> & _ & [(_ & (f' & Hf' & Hlt) & _)|[-> _]]); cbn in Hf.
    - by simplify_eq.
    - by rewrite lookup_ge_None_2 in Hf by lia. }
  apply elem_of_cons in Hin as [[= -> ->]|Hin]; [auto|].
  assert (span_le s0 s) as Hle.
  { rewrite Forall_forall in Hall. apply Hall. rewrite <- (placed_snd free' ss). apply list_elem_of_fmap. by exists (k, s). }
  destruct (decide (k0 = k)) as [->|Hne].
  - specialize (Hfree eq_refl). unfold span_le in Hle. lia.
  - apply (IH free' k s f Hin). apply Hother; [done|done].
Qed.

(** Of two spans on one lane the later begins after the end of the earlier. *)
Definition apart (p q : nat * span A) : Prop := p.1 = q.1 → s_end p.2 < s_begin q.2.

Lemma placed_apart free ss : StronglySorted span_le ss → StronglySorted apart (placed free ss).
Proof.
  intros Hs. revert free. induction Hs as [|s ss Hs IH Hall]; intros free; cbn; [constructor|].
  destruct (place _ _ _ _) as [k free'] eqn:E. destruct (place_length _ _ _ _ _ E) as (_ & _ & Hk & _).
  constructor; [apply IH|]. apply Forall_forall. intros [k' s'] Hin Heq. cbn in *. subst k'.
  by apply (placed_after free' ss k).
Qed.

(** The number of spans at an instant. *)
Definition load (ss : list (span A)) (t : Z) : nat := length (List.filter (λ s, contains s t) ss).

Lemma load_Permutation ss ss' t : ss ≡ₚ ss' → load ss t = load ss' t.
Proof. unfold load. induction 1; cbn; repeat case_match; cbn; lia. Qed.

(** No instant lies in more spans than there are lanes. *)
Lemma load_lanes (ps : list (nat * span A)) n t : StronglySorted apart ps → Forall (λ p, (p.1 < n)%nat) ps →
  (load (map snd ps) t ≤ n)%nat.
Proof.
  intros Hs Hn. set (l := map fst (List.filter (λ p, contains p.2 t) ps)).
  assert (load (map snd ps) t = length l) as ->.
  { unfold load, l. rewrite length_map. clear. induction ps as [|[k s] ps IH]; [done|]. cbn. destruct (contains s t); cbn; lia. }
  assert (NoDup l) as Hnd.
  { unfold l. clear Hn. induction Hs as [|[k s] ps Hs IH Hall]; cbn; [constructor|].
    destruct (contains s t) eqn:E; [|done]. cbn. constructor; [|done].
    intros ([k' s'] & Hk & Hin)%list_elem_of_fmap. cbn in Hk. subst k'.
    apply list_elem_of_In, filter_In in Hin as [Hin Hc]. apply list_elem_of_In in Hin.
    rewrite Forall_forall in Hall. specialize (Hall _ Hin eq_refl). cbn in *. unfold contains in *. lia. }
  rewrite <- (length_seq n 0). apply submseteq_length, NoDup_submseteq; [done|]. intros k Hk. unfold l in Hk.
  apply list_elem_of_fmap in Hk as (p & -> & Hin). apply list_elem_of_In, filter_In in Hin as [Hin _].
  apply list_elem_of_In in Hin. rewrite Forall_forall in Hn. apply elem_of_seq. specialize (Hn _ Hin). cbn in Hn. lia.
Qed.

Definition busy (t : Z) free : nat := length (List.filter (λ f, t <=? f) free).
#[local] Arguments busy : simpl never.

Lemma busy_app t (l1 l2 : list Z) : busy t (l1 ++ l2) = (busy t l1 + busy t l2)%nat.
Proof. unfold busy. by rewrite List.filter_app, length_app. Qed.

(** At an instant that no span begins after, the busy lanes are the spans
    that have not ended. *)
Lemma busy_frees t free ss : Forall (λ s, s_begin s ≤ t) ss →
  busy t (frees free ss) = (busy t free + length (List.filter (λ s, (t <=? s_end s)%Z) ss))%nat.
Proof.
  intros Hb. revert free. induction Hb as [|s ss Hs Hb IH]; intros free; cbn; [by rewrite Nat.add_0_r|]. rewrite IH.
  destruct (place _ _ _ _) as [k free'] eqn:E. cbn.
  assert (busy t free' = busy t free + if (t <=? s_end s)%Z then 1 else 0)%nat as ->.
  { destruct (place_spec _ _ _ _ _ _ E) as (n & _ & _ & [(Hn & (f & Hf & Hlt) & ->)|[_ ->]]).
    - rewrite insert_take_drop by done. rewrite <- (take_drop_middle _ _ _ Hf) at 3. rewrite !busy_app. cbn.
      unfold busy. cbn. destruct (Z.leb_spec t f); [lia|]. destruct (t <=? s_end s); cbn; lia.
    - rewrite busy_app. unfold busy. cbn. by destruct (t <=? s_end s). }
  destruct (t <=? s_end s); cbn; lia.
Qed.

(** A lane is added when all the others are busy. *)
Lemma frees_grow free ss : length (frees free ss) = length free ∨
  ∃ pre s post, ss = pre ++ s :: post ∧ length (frees free ss) = S (length (frees free pre)) ∧
    busy (s_begin s) (frees free pre) = length (frees free pre).
Proof.
  revert free. induction ss as [|s ss IH]; intros free; cbn; [by left|].
  destruct (place _ _ _ _) as [k free'] eqn:E. cbn.
  destruct (IH free') as [Hl|(pre & s' & post & -> & Hl & Hb)].
  - destruct (place_spec _ _ _ _ _ _ E) as (n & _ & Hbusy & [(Hn & _ & ->)|[-> ->]]).
    + left. by rewrite Hl, length_insert.
    + right. exists [], s, ss. cbn. rewrite Hl, length_app. cbn. split; [done|]. split; [lia|].
      unfold busy. rewrite List.forallb_filter_id; [done|]. apply forallb_forall. intros f Hf.
      apply list_elem_of_In, list_elem_of_lookup in Hf as [j Hj]. apply Z.leb_le, (Hbusy j); [by apply lookup_lt_Some in Hj|done].
  - right. exists (s :: pre), s', post. cbn. by rewrite E.
Qed.

Lemma load_peak ss : StronglySorted span_le ss → Forall (λ s, s_begin s ≤ s_end s) ss → frees [] ss ≠ [] →
  ∃ t, (length (frees [] ss) ≤ load ss t)%nat.
Proof.
  intros Hs Hbe Hne. destruct (frees_grow [] ss) as [Hl|(pre & s & post & -> & Hl & Hb)].
  { by apply nil_length_inv in Hl. }
  exists (s_begin s). rewrite Hl. unfold load. rewrite List.filter_app, length_app. cbn.
  rewrite Forall_app, Forall_cons in Hbe. destruct Hbe as (_ & Hbs & _).
  assert (Forall (λ s', s_begin s' ≤ s_begin s) pre) as Hpre.
  { apply Forall_forall. intros s' Hin. eapply (StronglySorted_app_1_elem_of _ pre) in Hs; [|exact Hin|apply list_elem_of_here].
    unfold span_le in Hs. lia. }
  rewrite busy_frees in Hb by done. change (busy _ []) with 0%nat in Hb.
  assert (List.filter (λ s', contains s' (s_begin s)) pre = List.filter (λ s', s_begin s <=? s_end s') pre) as ->.
  { apply List.filter_ext_in. intros s' Hin%list_elem_of_In. rewrite Forall_forall in Hpre. specialize (Hpre _ Hin).
    cbn in Hpre. unfold contains. lia. }
  unfold contains. rewrite Z.leb_refl. destruct (Z.leb_spec (s_begin s) (s_end s)); [|lia]. cbn. lia.
Qed.
End lanes.

(** C21: spans are drawn on as few lanes as possible and never overlap on one.
    Every span, in order of its begin, is given a lane below the number of
    lanes; of two spans on a lane the later begins strictly after the earlier
    ends; and the number of lanes is the largest number of spans that are
    open at one instant. *)
Theorem lanes_exact {A} (spans : list (span A)) out n : assign_lanes spans = (out, n) →
  Forall (λ s, s_begin s ≤ s_end s) spans →
  ∃ ps : list (nat * span A), map snd ps ≡ₚ spans ∧ StronglySorted span_le (map snd ps) ∧
    out = map (λ p, (p.1, s_item p.2)) ps ∧ Forall (λ p, (p.1 < n)%nat) ps ∧ StronglySorted apart ps ∧
    (∀ t, (load spans t ≤ n)%nat) ∧ (spans ≠ [] → ∃ t, load spans t = n).
Proof.
  unfold assign_lanes. rewrite assign_placed. intros [= <- <-] Hbe. set (ss := stable_sort span_le spans).
  assert (ss ≡ₚ spans) as Hp by apply stable_sort_Permutation.
  assert (StronglySorted span_le ss) as Hs by (apply StronglySorted_stable_sort; apply _).
  assert (∀ t, load ss t = load spans t) as Hload.
  { intros t. by apply load_Permutation. }
  destruct (placed_lt [] ss) as [_ Hlt]. pose proof (placed_apart [] ss Hs) as Hap.
  assert (∀ t, (load spans t ≤ length (frees [] ss))%nat) as Hmax.
  { intros t. rewrite <- Hload. rewrite <- (placed_snd [] ss) at 1. by apply load_lanes. }
  exists (placed [] ss). rewrite placed_snd. split_and!; try done. intros Hne.
  destruct (load_peak ss Hs) as [t Ht].
  - by rewrite Hp.
  - destruct ss as [|s ss'] eqn:E; [by apply Permutation_nil_l in Hp|]. cbn.
    destruct (placed_lt (place (s_begin s) (s_end s) 0 []).2 ss') as [Hl _]. cbn in Hl. intros Hn. rewrite Hn in Hl. cbn in Hl. lia.
  - exists t. specialize (Hmax t). rewrite Hload in Ht. lia.
Qed.

Definition ex_spans : list (span string) := [(5, 9, "c"); (0, 3, "a"); (3, 4, "b"); (4, 6, "d")].

Lemma lanes_exact_witness : ∃ ps : list (nat * span string), map snd ps ≡ₚ ex_spans ∧ StronglySorted apart ps ∧
  [(0, "a"); (1, "b"); (0, "d"); (1, "c")]%nat = map (λ p, (p.1, s_item p.2)) ps ∧ ∃ t, load ex_spans t = 2%nat.
Proof.
  destruct (lanes_exact ex_spans _ 2 ltac:(vm_compute; reflexivity)) as (ps & H1 & _ & H2 & _ & H3 & _ & H4).
  - repeat constructor; vm_compute; discriminate.
  - exists ps. split; [exact H1|]. split; [exact H3|]. split; [exact H2|]. by apply H4.
Defined.

(** ** Completions *)

(** The command [i], submitted at [t], is the latest one that still waits for
    a completion at [cts]; of commands submitted together, the last. *)
Definition waits (cmds_ts : list Z) (used : list nat) (cts : Z) (i : nat) (t : Z) : Prop :=
  cmds_ts !! i = Some t ∧ t ≤ cts ∧ i ∉ used.

Definition latest (cmds_ts : list Z) (used : list nat) (cts : Z) (i : nat) (t : Z) : Prop :=
  waits cmds_ts used cts i t ∧ ∀ i' t', waits cmds_ts used cts i' t' → t' < t ∨ (t' = t ∧ (i' ≤ i)%nat).

(** Completions in order of time, each answering the latest command that waits. *)
Inductive paired (cmds_ts : list Z) : list Z → list (nat * Z) → Prop :=
  | paired_nil : paired cmds_ts [] []
  | paired_some cs out cts i t : paired cmds_ts cs out → latest cmds_ts (map fst out) cts i t →
      paired cmds_ts (cs ++ [cts]) (out ++ [(i, cts - t)])
  | paired_none cs out cts : paired cmds_ts cs out → (∀ i t, ¬ waits cmds_ts (map fst out) cts i t) →
      paired cmds_ts (cs ++ [cts]) out.

(** The order of the commands: by time, and by position at one time. *)
Definition before (p q : nat * Z) : Prop := p.2 < q.2 ∨ (p.2 = q.2 ∧ (p.1 < q.1)%nat).

Lemma before_sort_insert (x : nat * Z) l : StronglySorted before l → Forall (λ y, (x.1 < y.1)%nat) l →
  StronglySorted before (sort_insert by_ts x l).
Proof.
  intros Hs. induction Hs as [|y l Hs IH Hall]; intros Hx; cbn; [repeat constructor|].
  apply Forall_cons in Hx as [Hxy Hx]. destruct (decide (by_ts x y)) as [Hle|Hgt]; unfold by_ts in *.
  - constructor; [by constructor|]. constructor; [unfold before; lia|].
    rewrite Forall_forall in Hall, Hx |- *. intros z Hz. specialize (Hall z Hz). specialize (Hx z Hz). cbn in Hx. unfold before in *. lia.
  - constructor; [by apply IH|]. rewrite (sort_insert_Permutation by_ts). constructor; [unfold before; lia|done].
Qed.

Lemma before_stable_sort l : StronglySorted (λ a b : nat * Z, (a.1 < b.1)%nat) l → StronglySorted before (stable_sort by_ts l).
Proof.
  induction 1 as [|x l Hl IH Hall]; [constructor|]. cbn [stable_sort foldr]. fold (stable_sort by_ts l).
  apply before_sort_insert; [done|]. by rewrite (stable_sort_Permutation by_ts).
Qed.

Lemma positions_sorted (cmds_ts : list Z) k : StronglySorted (λ a b : nat * Z, (a.1 < b.1)%nat) (imap (λ i t, ((k + i)%nat, t)) cmds_ts).
Proof.
  revert k. induction cmds_ts as [|t l IH]; intros k; cbn; [constructor|].
  assert (imap ((λ i t, ((k + i)%nat, t)) ∘ S) l = imap (λ i t, ((S k + i)%nat, t)) l) as ->.
  { apply imap_ext. intros i x _. cbn. f_equal. lia. }
  constructor; [apply IH|]. apply Forall_forall. intros p (i & x & -> & _)%elem_of_lookup_imap. cbn. lia.
Qed.

Lemma cmd_ix_before cmds_ts : StronglySorted before (cmd_ix cmds_ts).
Proof. apply before_stable_sort, (positions_sorted cmds_ts 0). Qed.

Lemma cmd_ix_elem cmds_ts i t : (i, t) ∈ cmd_ix cmds_ts ↔ cmds_ts !! i = Some t.
Proof.
  unfold cmd_ix. rewrite (stable_sort_Permutation by_ts), elem_of_lookup_imap. split.
  - intros (j & x & [= -> ->] & H). done.
  - intros H. eauto.
Qed.

Lemma push_spec cts rest stack rest' stack' : push cts rest stack = (rest', stack') →
  ∃ taken, rest = taken ++ rest' ∧ stack' = rev taken ++ stack ∧ Forall (λ p, p.2 ≤ cts) taken ∧
    match rest' with [] => True | q :: _ => cts < q.2 end.
Proof.
  revert stack. induction rest as [|[i t] rest IH]; intros stack H; cbn in H.
  - inversion H; subst. by exists [].
  - destruct (Z.leb_spec t cts) as [Hle|Hgt].
    + destruct (IH _ H) as (taken & -> & -> & Hall & Hhd). exists ((i, t) :: taken). cbn. rewrite <- app_assoc.
      by split_and!; [..|constructor|].
    + inversion H; subst. by exists [].
Qed.

Definition open_in (out : list (nat * Z)) (p : nat * Z) : bool := negb (bool_decide (p.1 ∈ map fst out)).

Lemma open_in_true out p : open_in out p = true ↔ p.1 ∉ map fst out.
Proof. unfold open_in. by rewrite negb_true_iff, bool_decide_eq_false. Qed.

(** The state after the completions [cs]: the commands seen so far are an
    initial part of the order, and the stack holds those that still wait. *)
Record pair_inv (cmds_ts cs : list Z) (st : pairing) (done : list (nat * Z)) : Prop := {
  pi_split : cmd_ix cmds_ts = done ++ p_rest st;
  pi_stack : unpaired st = rev (List.filter (open_in (p_out st)) done);
  pi_done : ∀ p, p ∈ done → ∃ c, c ∈ cs ∧ p.2 ≤ c;
  pi_keys : ∀ i, i ∈ map fst (p_out st) → i ∈ map fst done;
  pi_paired : paired cmds_ts cs (p_out st) }.

Lemma cmd_ix_NoDup cmds_ts : NoDup (map fst (cmd_ix cmds_ts)).
Proof.
  unfold cmd_ix. assert (∀ l, StronglySorted (λ a b : nat * Z, (a.1 < b.1)%nat) l → NoDup (map fst l)) as Hnd.
  { induction 1 as [|x l Hl IH Hall]; cbn; constructor; [|done]. intros (y & Hy & Hin)%list_elem_of_fmap.
    rewrite Forall_forall in Hall. specialize (Hall _ Hin). cbn in Hall. lia. }
  change (map fst (stable_sort by_ts ?l)) with (fst <$> stable_sort by_ts l). rewrite (stable_sort_Permutation by_ts).
  apply Hnd, (positions_sorted cmds_ts 0).
Qed.

Section pair_step.
Context (cmds_ts cs : list Z) (st : pairing) (done : list (nat * Z)) (cts : Z).
Hypothesis (Hinv : pair_inv cmds_ts cs st done) (Hcts : ∀ c, c ∈ cs → c ≤ cts).
Context (taken rest' : list (nat * Z)).
Hypothesis (Hrest : p_rest st = taken ++ rest') (Htaken : Forall (λ p, p.2 ≤ cts) taken)
  (Hhd : match rest' with [] => True | q :: _ => cts < q.2 end).

Let out := p_out st.
Let seen := done ++ taken.

Lemma seen_split : cmd_ix cmds_ts = seen ++ rest'.
Proof. unfold seen. rewrite (pi_split _ _ _ _ Hinv), Hrest. by rewrite <- app_assoc. Qed.

Lemma seen_due p : p ∈ seen → p.2 ≤ cts.
Proof.
  unfold seen. intros [Hp|Hp]%elem_of_app.
  - destruct (pi_done _ _ _ _ Hinv p Hp) as (c & Hc & ?). specialize (Hcts c Hc). lia.
  - by rewrite Forall_forall in Htaken; apply Htaken.
Qed.

Lemma taken_open : List.filter (open_in out) taken = taken.
Proof.
  apply List.forallb_filter_id, forallb_forall. intros p Hp%list_elem_of_In. apply open_in_true. intros Hk%(pi_keys _ _ _ _ Hinv).
  pose proof (cmd_ix_NoDup cmds_ts) as Hnd. rewrite seen_split in Hnd. unfold seen in Hnd. rewrite !map_app in Hnd.
  apply NoDup_app in Hnd as [Hnd _]. apply NoDup_app in Hnd as (_ & Hnd & _). apply (Hnd _ Hk), list_elem_of_fmap. by exists p.
Qed.

Lemma seen_stack : rev taken ++ unpaired st = rev (List.filter (open_in out) seen).
Proof. unfold seen. by rewrite List.filter_app, taken_open, rev_app_distr, (pi_stack _ _ _ _ Hinv). Qed.

Lemma waits_seen i t : waits cmds_ts (map fst out) cts i t ↔ (i, t) ∈ List.filter (open_in out) seen.
Proof.
  assert ((i, t) ∈ List.filter (open_in out) seen ↔ (i, t) ∈ seen ∧ i ∉ map fst out) as ->.
  { by rewrite (list_elem_of_In (List.filter _ _)), filter_In, <- list_elem_of_In, open_in_true. }
  unfold waits. rewrite <- cmd_ix_elem.
  pose proof (cmd_ix_before cmds_ts) as Hs. rewrite seen_split in Hs |- *. rewrite elem_of_app. split.
  - intros ([Hin|Hin] & Hle & Hn); [done|]. destruct rest' as [|q r]; [set_solver|].
    apply StronglySorted_app_1_r in Hs. apply StronglySorted_inv in Hs as [_ Hall].
    rewrite Forall_forall in Hall. apply elem_of_cons in Hin as [<-|Hin]; [cbn in *; lia|].
    specialize (Hall _ Hin). unfold before in Hall. cbn in *. lia.
  - intros [Hin Hn]. split; [by left|]. split; [|done]. by apply (seen_due (i, t)).
Qed.

Lemma seen_fst_NoDup : NoDup (map fst seen).
Proof. pose proof (cmd_ix_NoDup cmds_ts) as Hnd. rewrite seen_split, map_app in Hnd. by apply NoDup_app in Hnd as [Hnd _]. Qed.

(** The last command that waits is the latest. *)
Lemma seen_latest k i t : List.filter (open_in out) seen = k ++ [(i, t)] → latest cmds_ts (map fst out) cts i t.
Proof.
  intros Hf. split; [apply waits_seen; rewrite Hf; set_solver|]. intros i' t' Hw. apply waits_seen in Hw. rewrite Hf in Hw.
  assert (StronglySorted before (k ++ [(i, t)])) as Hs.
  { rewrite <- Hf. pose proof (cmd_ix_before cmds_ts) as Hs. rewrite seen_split in Hs. apply StronglySorted_app_1_l in Hs.
    clear -Hs. induction Hs as [|x l Hl IH Hall]; cbn; [constructor|]. destruct (open_in out x); [|done].
    constructor; [done|]. rewrite Forall_forall in Hall |- *. intros y Hy. apply Hall. apply list_elem_of_In, filter_In in Hy as [Hy _].
    by apply list_elem_of_In. }
  apply elem_of_app in Hw as [Hw|Hw].
  - eapply (StronglySorted_app_1_elem_of _ k) in Hs; [|exact Hw|apply list_elem_of_here]. unfold before in Hs. cbn in Hs. lia.
  - apply list_elem_of_singleton in Hw as [= -> ->]. lia.
Qed.

Lemma seen_pop k i t d : List.filter (open_in out) seen = k ++ [(i, t)] →
  List.filter (open_in (out ++ [(i, d)])) seen = k.
Proof.
  intros Hf. assert (∀ l, List.filter (open_in (out ++ [(i, d)])) l = List.filter (λ p, negb (p.1 =? i)%nat) (List.filter (open_in out) l)) as ->.
  { induction l as [|p l IH]; [done|]. cbn. rewrite IH. unfold open_in. rewrite map_app. cbn.
    destruct (Nat.eqb_spec p.1 i) as [Hi|Hi], (decide (p.1 ∈ map fst out)) as [Ho|Ho].
    - rewrite !bool_decide_eq_true_2 by set_solver. done.
    - rewrite (bool_decide_eq_true_2 (_ ∈ _ ++ _)), (bool_decide_eq_false_2 (_ ∈ map _ _)) by set_solver. cbn.
      by rewrite Hi, Nat.eqb_refl.
    - rewrite !bool_decide_eq_true_2 by set_solver. done.
    - rewrite !bool_decide_eq_false_2 by set_solver. cbn. by destruct (Nat.eqb_spec p.1 i). }
  rewrite Hf, List.filter_app. cbn. rewrite Nat.eqb_refl. cbn. rewrite app_nil_r.
  apply List.forallb_filter_id, forallb_forall. intros p Hp%list_elem_of_In. destruct (Nat.eqb_spec p.1 i) as [Hi|]; [|done].
  exfalso. assert (NoDup (map fst (k ++ [(i, t)]))) as Hnd.
  { rewrite <- Hf. pose proof seen_fst_NoDup as Hnd. clear -Hnd. induction seen as [|x l IH]; cbn in *; [constructor|].
    apply NoDup_cons in Hnd as [Hx Hnd]. destruct (open_in out x); [|auto]. cbn. constructor; [|auto].
    intros (y & Hy & Hin)%list_elem_of_fmap. apply Hx. rewrite Hy. apply list_elem_of_fmap. exists y. split; [done|].
    apply list_elem_of_In, filter_In in Hin as [Hin _]. by apply list_elem_of_In. }
  rewrite map_app in Hnd. apply NoDup_app in Hnd as (_ & Hnd & _). apply (Hnd i); [|cbn; set_solver].
  apply list_elem_of_fmap. by exists p.
Qed.
End pair_step.

Lemma pair_step_inv cmds_ts cs st done cts : pair_inv cmds_ts cs st done → (∀ c, c ∈ cs → c ≤ cts) →
  ∃ done', pair_inv cmds_ts (cs ++ [cts]) (pair_step st cts) done'.
Proof.
  intros Hinv Hcts. unfold pair_step. destruct (push cts (p_rest st) (unpaired st)) as [rest' stack'] eqn:E.
  destruct (push_spec _ _ _ _ _ E) as (taken & Hrest & Hstack & Htaken & Hhd).
  pose proof (seen_stack cmds_ts cs st done Hinv taken rest' Hrest) as Hseen.
  assert (stack' = rev (List.filter (open_in (p_out st)) (done ++ taken))) as Hst by (rewrite Hstack; exact Hseen).
  clear Hstack Hseen. exists (done ++ taken).
  assert (∀ p, p ∈ done ++ taken → ∃ c, c ∈ cs ++ [cts] ∧ p.2 ≤ c) as Hdue.
  { intros p Hp. exists cts. split; [set_solver|]. by eapply (seen_due cmds_ts cs st done). }
  pose proof (pi_keys _ _ _ _ Hinv) as Hkeys.
  destruct stack' as [|[i t] stack']; split; cbn -[List.filter]; try done.
  - by eapply seen_split.
  - intros i Hi. rewrite map_app. set_solver.
  - apply paired_none; [apply (pi_paired _ _ _ _ Hinv)|]. intros i t Hw.
    apply (waits_seen cmds_ts cs st done cts Hinv Hcts taken rest') in Hw; try done.
    symmetry in Hst. apply (f_equal (@rev _)) in Hst. rewrite rev_involutive in Hst. cbn in Hst. rewrite Hst in Hw. set_solver.
  - by eapply seen_split.
  - apply (f_equal (@rev _)) in Hst. rewrite rev_involutive in Hst. cbn in Hst. symmetry in Hst.
    rewrite (seen_pop cmds_ts cs st done cts Hinv Hcts taken rest' Hrest Htaken Hhd _ _ _ _ Hst). by rewrite rev_involutive.
  - apply (f_equal (@rev _)) in Hst. rewrite rev_involutive in Hst. cbn in Hst. symmetry in Hst.
    intros j. rewrite !map_app. cbn. rewrite elem_of_app, list_elem_of_singleton. intros [Hj| ->]; [set_solver|].
    assert ((i, t) ∈ done ++ taken) as Hin.
    { assert ((i, t) ∈ List.filter (open_in (p_out st)) (done ++ taken)) as H by (rewrite Hst; set_solver).
      apply list_elem_of_In, filter_In in H as [H _]. by apply list_elem_of_In. }
    rewrite <- map_app. apply list_elem_of_fmap. by exists (i, t).
  - apply (f_equal (@rev _)) in Hst. rewrite rev_involutive in Hst. cbn in Hst. symmetry in Hst.
    apply paired_some; [apply (pi_paired _ _ _ _ Hinv)|]. by eapply (seen_latest cmds_ts cs st done).
Qed.

Lemma pair_fold_inv cmds_ts cs : StronglySorted Z.le cs →
  ∃ done, pair_inv cmds_ts cs (foldl pair_step (mkPairing (cmd_ix cmds_ts) [] []) cs) done.
Proof.
  induction cs as [|c cs IH] using rev_ind; intros Hs.
  - exists []. split; cbn; try done; [intros p Hp; set_solver|constructor].
  - rewrite foldl_app. cbn. destruct IH as [done Hinv]; [by apply StronglySorted_app_1_l in Hs|].
    eapply pair_step_inv; [exact Hinv|]. intros c' Hc'. eapply (StronglySorted_app_1_elem_of _ cs); [exact Hs|done|set_solver].
Qed.

#[export] Instance Zle_total : Total Z.le.
Proof. intros x y. lia. Qed.

(** C20: completions are paired as the comment says: in order of time, each
    completion answers the latest submission before it that no earlier
    completion has answered, and is dropped only when there is none. *)
Theorem completions_paired cmds_ts cmps_ts :
  paired cmds_ts (stable_sort Z.le cmps_ts) (pair_completions cmds_ts cmps_ts).
Proof.
  destruct (pair_fold_inv cmds_ts (stable_sort Z.le cmps_ts)) as [done Hinv]; [apply StronglySorted_stable_sort; apply _|].
  exact (pi_paired _ _ _ _ Hinv).
Qed.

(** The rule leaves no choice. *)
Lemma paired_unique cmds_ts cs out out' : paired cmds_ts cs out → paired cmds_ts cs out' → out = out'.
Proof.
  intros H. revert out'. induction H as [|cs out cts i t H IH [Hw Hl]|cs out cts H IH Hn]; intros out' H';
    inversion H' as [Hcs|cs' out1 cts' i' t' H1 [Hw' Hl'] Hcs|cs' out1 cts' H1 Hn' Hcs]; subst;
    try (by apply (f_equal length) in Hcs; rewrite length_app in Hcs; cbn in Hcs; lia); [done|..];
    apply app_inj_tail in Hcs as [-> ->]; rewrite <- (IH _ H1) in *; try done.
  - assert (i' = i ∧ t' = t) as [-> ->]; [|done]. specialize (Hl _ _ Hw'). specialize (Hl' _ _ Hw). split; [lia|].
    destruct Hw as [Hi _], Hw' as [Hi' _]. assert (i' = i) as -> by lia. congruence.
  - by destruct (Hn' _ _ Hw).
  - by destruct (Hn _ _ Hw').
Qed.

(** Every command is answered at most once, by a completion that is not
    earlier, and no completion answers twice. *)
Lemma paired_sound cmds_ts cs out : paired cmds_ts cs out → NoDup (map fst out) ∧
  (∀ i d, (i, d) ∈ out → 0 ≤ d ∧ ∃ t, cmds_ts !! i = Some t ∧ t + d ∈ cs) ∧
  ∃ ts, map (λ id, default 0 (cmds_ts !! id.1) + id.2) out = ts ∧ ts `sublist_of` cs.
Proof.
  induction 1 as [|cs out cts i t H (IH1 & IH2 & _ & <- & IH3) [[Hi [Ht Hu]] _]|cs out cts H (IH1 & IH2 & _ & <- & IH3) _].
  - split; [constructor|]. split; [set_solver|]. by exists [].
  - rewrite map_app. cbn. split; [apply NoDup_app; split; [done|]; split; [set_solver|apply NoDup_singleton]|].
    split.
    + intros j d [Hin|Hin]%elem_of_app.
      * destruct (IH2 _ _ Hin) as (Hd & t' & Ht' & Hc). split; [done|]. exists t'. split; [done|set_solver].
      * apply list_elem_of_singleton in Hin as [= -> ->]. split; [lia|]. exists t. split; [done|].
        replace (t + (cts - t)) with cts by lia. set_solver.
    + eexists. split; [done|]. rewrite map_app. cbn. rewrite Hi. cbn. replace (t + (cts - t)) with cts by lia.
      by apply sublist_app.
  - split; [done|]. split; [|eexists; split; [done|]; by apply sublist_inserts_r].
    intros j d Hin. destruct (IH2 _ _ Hin) as (Hd & t' & Ht' & Hc). split; [done|]. exists t'. split; [done|set_solver].
Qed.

(** A command submitted again after a refusal: the second attempt is answered. *)
Example reissued : pair_completions [100; 150] [190] = [(1%nat, 40)].
Proof. vm_compute. reflexivity. Qed.

(** ** The join by byte range *)

(** [bisect_right] splits a sorted list. *)
Lemma nth_lookup_Z (a : list Z) i : 0 ≤ i < Z.of_nat (length a) → a !! Z.to_nat i = Some (nth (Z.to_nat i) a 0).
Proof. intros Hi. rewrite nth_lookup. destruct (lookup_lt_is_Some_2 a (Z.to_nat i)) as [v ->]; [lia|done]. Qed.

Lemma sorted_lookup (a : list Z) i j u v : StronglySorted Z.le a → (i ≤ j)%nat → a !! i = Some u → a !! j = Some v → u ≤ v.
Proof.
  intros Hs. revert i j. induction Hs as [|x a Hs IH Hall]; intros i j Hij Hi Hj; [done|].
  destruct i as [|i], j as [|j]; cbn in *; simplify_eq; try lia; [|by apply (IH i j); [lia|..]].
  rewrite Forall_forall in Hall. by apply Hall, list_elem_of_lookup_2 with j.
Qed.

Lemma bisect_go_spec fuel a x lo hi : StronglySorted Z.le a → 0 ≤ lo ≤ hi → hi ≤ Z.of_nat (length a) → hi - lo < Z.of_nat fuel →
  (∀ i v, a !! i = Some v → Z.of_nat i < lo → v ≤ x) → (∀ i v, a !! i = Some v → hi ≤ Z.of_nat i → x < v) →
  let r := bisect_go fuel a x lo hi in
  0 ≤ r ≤ Z.of_nat (length a) ∧ (∀ i v, a !! i = Some v → (v ≤ x ↔ Z.of_nat i < r)).
Proof.
  intros Hs. revert lo hi. induction fuel as [|fuel IH]; intros lo hi Hlo Hhi Hf H1 H2; [lia|]. cbn.
  destruct (Z.ltb_spec lo hi) as [Hlt|Hge].
  - pose proof (Z.div_mod (lo + hi) 2 ltac:(lia)). pose proof (Z.mod_pos_bound (lo + hi) 2 ltac:(lia)).
    set (mid := (lo + hi) / 2) in *. assert (lo ≤ mid < hi) as Hm by lia.
    pose proof (nth_lookup_Z a mid ltac:(lia)) as Hn.
    destruct (Z.ltb_spec x (nth (Z.to_nat mid) a 0)) as [Hx|Hx]; apply IH; try lia; try done.
    + intros i v Hi Hle. pose proof (sorted_lookup a (Z.to_nat mid) i _ _ Hs ltac:(lia) Hn Hi). lia.
    + intros i v Hi Hle. pose proof (sorted_lookup a i (Z.to_nat mid) _ _ Hs ltac:(lia) Hi Hn). lia.
  - split; [lia|]. intros i v Hi. split; intros Hv.
    + destruct (Z.lt_ge_cases (Z.of_nat i) lo) as [|Hge']; [done|]. specialize (H2 i v Hi ltac:(lia)). lia.
    + by eapply H1.
Qed.

Lemma bisect_right_spec a x : StronglySorted Z.le a → 0 ≤ bisect_right a x ≤ Z.of_nat (length a) ∧
  (∀ i v, a !! i = Some v → (v ≤ x ↔ Z.of_nat i < bisect_right a x)).
Proof.
  intros Hs. apply bisect_go_spec; try done; try lia. intros i v Hi%lookup_lt_Some Hle. lia.
Qed.

(** The window of a record is in time and in the direction of the command. *)
Definition in_time (c : cmd) (w : window) : bool := (w_t0 w <=? c_ts c) && (c_ts c <=? w_t1 w).
Definition in_direction (c : cmd) (w : window) : bool := bool_decide (dirmap (r_op (w_rec w)) = c_op_name c).

Lemma pick_spec c best ops : pick c best ops =
  match List.find (λ w, in_time c w && in_direction c w) ops with
  | Some w => Some w
  | None => match best with Some w => Some w | None => List.find (in_time c) ops end
  end.
Proof.
  revert best. induction ops as [|w ops IH]; intros best; cbn; [by destruct best|].
  change ((w_t0 w <=? c_ts c) && (c_ts c <=? w_t1 w)) with (in_time c w). unfold in_direction at 1.
  destruct (in_time c w); cbn.
  - destruct (decide _) as [Hd|Hd]; [by rewrite bool_decide_eq_true_2|]. rewrite bool_decide_eq_false_2 by done. rewrite IH.
    by destruct (List.find _ ops), best.
  - rewrite IH. by destruct (List.find _ ops), best.
Qed.

(** The windows of the records that have a slot, in the order of the records. *)
Fixpoint windows_of (hdr ba : Z) (i : nat) (sems : list sem) : res (list window) :=
  match sems with
  | [] => Ok []
  | r :: sems =>
      match r_slot r with
      | None => windows_of hdr ba (S i) sems
      | Some lo =>
          t1 ← ns (r_ts r); t0 ← ns (default (r_ts r) (r_start r)); ws ← windows_of hdr ba (S i) sems;
          Ok (mkWindow (t0 - slack_ns) (t1 + slack_ns) (slot_end hdr ba lo (r_bytes r)) (synthesize r (Z.of_nat i + 1)) :: ws)
      end
  end.

Definition w_lo (w : window) : Z := default 0 (r_slot (w_rec w)).

(** What the comments assume: records of one slot agree on its end, and
    distinct slots do not meet. *)
Definition disjoint_slots (ws : list window) : Prop := ∀ w1 w2, w1 ∈ ws → w2 ∈ ws →
  (w_lo w1 = w_lo w2 → w_hi w1 = w_hi w2) ∧ (w_lo w1 < w_lo w2 → w_hi w1 ≤ w_lo w2).

(** The outcome for a command, by a scan of all records. *)
Definition inside (off : Z) (w : window) : bool := (w_lo w <=? off) && (off <? w_hi w).

Definition scan_slots (ws : list window) (c : cmd) (off cmd_end : Z) : outcome :=
  match List.filter (inside off) ws with
  | [] => Unmatched
  | (first :: _) as ops =>
      if w_hi first <? cmd_end then
        if existsb (λ w, (off <? w_lo w) && (w_lo w <? cmd_end)) ws then Cross else Gap
      else match List.find (λ w, in_time c w && in_direction c w) ops with
           | Some w => Unique (w_rec w)
           | None => match List.find (in_time c) ops with Some w => Unique (w_rec w) | None => Unmatched end
           end
  end.

Definition scan (lba_bytes : Z) (ws : list window) (c : cmd) : outcome :=
  match c_slba c with
  | None => NoAddress
  | Some slba => let lba := lba_of lba_bytes c in
                 scan_slots ws c (slba * lba) (slba * lba + cmd_length lba c)
  end.

(** The table of the slots. *)
Definition table (ws : list window) : slots := foldl (λ d w, zadd (w_lo w) w d) [] ws.

Lemma zget_zadd k k' w d : zget k (zadd k' w d) = if k =? k' then zget k d ++ [w] else zget k d.
Proof.
  induction d as [|[k0 l] d IH]; cbn; [destruct (Z.eqb_spec k k'); done|].
  destruct (Z.eqb_spec k' k0) as [->|Hne]; cbn; destruct (Z.eqb_spec k k0) as [->|Hne']; try done.
  destruct (Z.eqb_spec k0 k'); [congruence|done].
Qed.

Lemma zadd_keys k k' w d : k ∈ map fst (zadd k' w d) ↔ k = k' ∨ k ∈ map fst d.
Proof.
  induction d as [|[k0 l] d IH]; cbn; [set_solver|]. destruct (Z.eqb_spec k' k0) as [->|]; cbn; set_solver.
Qed.

Lemma table_spec ws : (∀ k, zget k (table ws) = List.filter (λ w, w_lo w =? k) ws) ∧
  (∀ k, k ∈ map fst (table ws) ↔ ∃ w, w ∈ ws ∧ w_lo w = k).
Proof.
  unfold table. induction ws as [|w ws [IH1 IH2]] using rev_ind; [split; [done|cbn; set_solver]|].
  rewrite foldl_app. cbn. split; intros k.
  - rewrite zget_zadd, IH1, List.filter_app. cbn. rewrite Z.eqb_sym. destruct (w_lo w =? k); [done|]. by rewrite app_nil_r.
  - rewrite zadd_keys, IH2. set_solver.
Qed.

Lemma elem_filter {A} (f : A → bool) l x : x ∈ List.filter f l ↔ x ∈ l ∧ f x = true.
Proof. by rewrite (list_elem_of_In (List.filter _ _)), filter_In, <- list_elem_of_In. Qed.

Section located.
Context (ws : list window) (Hd : disjoint_slots ws).
Let ulos := stable_sort Z.le (map fst (table ws)).

Lemma ulos_sorted : StronglySorted Z.le ulos.
Proof. apply StronglySorted_stable_sort; apply _. Qed.

Lemma ulos_elem k : k ∈ ulos ↔ ∃ w, w ∈ ws ∧ w_lo w = k.
Proof. unfold ulos. rewrite (stable_sort_Permutation Z.le). apply table_spec. Qed.

(** The windows around an address are those of the last base before it. *)
Lemma inside_base off j lo : ulos !! j = Some lo → lo ≤ off → (∀ i v, ulos !! i = Some v → v ≤ off → (i ≤ j)%nat) →
  List.filter (inside off) ws =
  match List.filter (λ w, w_lo w =? lo) ws with
  | (first :: _) as ops => if w_hi first <=? off then [] else ops
  | [] => []
  end.
Proof.
  intros Hj Hlo Hmax.
  assert (∀ w, w ∈ ws → w_lo w ≤ off → w_lo w ≤ lo) as Hbase.
  { intros w Hw Hwo. destruct (proj1 (list_elem_of_lookup ulos (w_lo w))) as [i Hi]; [apply ulos_elem; by exists w|].
    apply (sorted_lookup ulos i j); [apply ulos_sorted|by eapply Hmax|done|done]. }
  assert (∃ w0, w0 ∈ ws ∧ w_lo w0 = lo) as (w0 & Hw0 & Hlo0).
  { apply ulos_elem. by apply list_elem_of_lookup_2 with j. }
  destruct (List.filter (λ w, w_lo w =? lo) ws) as [|first ops] eqn:E.
  { assert (w0 ∈ List.filter (λ w, w_lo w =? lo) ws) as Hin by (apply elem_filter; split; [done|lia]). rewrite E in Hin. set_solver. }
  assert (first ∈ ws ∧ (w_lo first =? lo) = true) as [Hf1 Hf2].
  { apply (elem_filter (λ w, w_lo w =? lo)). rewrite E. set_solver. }
  assert (∀ w, w ∈ ws → inside off w = (w_lo w =? lo) && negb (w_hi first <=? off)) as Hin.
  { intros w Hw. unfold inside. destruct (Hd w first Hw Hf1) as [H1 H2]. specialize (Hbase w Hw). lia. }
  rewrite (List.filter_ext_in _ (λ w, (w_lo w =? lo) && negb (w_hi first <=? off))) by (intros w Hw%list_elem_of_In; auto).
  destruct (w_hi first <=? off); cbn.
  - clear. induction ws as [|w l IH]; [done|]. cbn. by rewrite andb_false_r.
  - transitivity (List.filter (λ w, w_lo w =? lo) ws); [|exact E]. apply List.filter_ext. intros w. by rewrite andb_true_r.
Qed.

(** The next base is the first one behind the address. *)
Lemma next_base off cmd_end j : (∀ i v, ulos !! i = Some v → (v ≤ off ↔ (i ≤ j)%nat)) →
  existsb (λ w, (off <? w_lo w) && (w_lo w <? cmd_end)) ws =
  match ulos !! S j with Some nxt => nxt <? cmd_end | None => false end.
Proof.
  intros Hj. apply eq_true_iff_eq. rewrite existsb_exists. split.
  - intros (w & Hw%list_elem_of_In & Hb). destruct (proj1 (list_elem_of_lookup ulos (w_lo w))) as [i Hi]; [apply ulos_elem; by exists w|].
    assert (¬ (i ≤ j)%nat) as Hi'. { rewrite <- (Hj _ _ Hi). lia. }
    destruct (lookup_lt_is_Some_2 ulos (S j)) as [nxt Hn]; [apply lookup_lt_Some in Hi; lia|]. rewrite Hn.
    pose proof (sorted_lookup ulos (S j) i _ _ ulos_sorted ltac:(lia) Hn Hi). lia.
  - destruct (ulos !! S j) as [nxt|] eqn:Hn; [|done]. intros Hlt.
    destruct (proj1 (ulos_elem nxt)) as (w & Hw & Heq); [by apply list_elem_of_lookup_2 with (S j)|].
    exists w. split; [by apply list_elem_of_In|]. assert (¬ nxt ≤ off) by (rewrite (Hj _ _ Hn); lia). lia.
Qed.

Lemma located c off cmd_end : locate (table ws) ulos c off cmd_end = scan_slots ws c off cmd_end.
Proof.
  unfold locate, scan_slots. destruct (bisect_right_spec ulos off ulos_sorted) as [Hr Hb].
  set (r := bisect_right ulos off) in *. destruct (Z.ltb_spec (r - 1) 0) as [Hneg|Hpos].
  - destruct (List.filter (inside off) ws) as [|w l] eqn:E; [done|]. exfalso.
    assert (w ∈ ws ∧ inside off w = true) as [Hw Hi] by (apply elem_filter; rewrite E; set_solver).
    destruct (proj1 (list_elem_of_lookup ulos (w_lo w))) as [i Hi']; [apply ulos_elem; by exists w|].
    specialize (Hb _ _ Hi'). unfold inside in Hi. lia.
  - set (j := Z.to_nat (r - 1)). assert (∀ i v, ulos !! i = Some v → (v ≤ off ↔ (i ≤ j)%nat)) as Hj.
    { intros i v Hi. rewrite (Hb _ _ Hi). unfold j. lia. }
    pose proof (nth_lookup_Z ulos (r - 1) ltac:(lia)) as Hlo. fold j in Hlo |- *. set (lo := nth j ulos 0) in *.
    rewrite (proj1 (table_spec ws)). rewrite (inside_base off j lo); [|done|by apply (Hj _ _ Hlo)|by intros i v Hi; apply (Hj _ _ Hi)].
    destruct (List.filter (λ w, w_lo w =? lo) ws) as [|first ops]; [done|].
    destruct (w_hi first <=? off); [done|]. destruct (w_hi first <? cmd_end).
    + rewrite (next_base off cmd_end j Hj). replace (Z.to_nat (r - 1 + 1)) with (S j) by (unfold j; lia).
      destruct (ulos !! S j) as [nxt|]; [by destruct (nxt <? cmd_end)|done].
    + rewrite pick_spec. by destruct (List.find (λ w, in_time c w && in_direction c w) (first :: ops)).
Qed.
End located.

Lemma offset_records_windows hdr ba sems ws by_lo out i : windows_of hdr ba i sems = Ok ws →
  ∃ out', foldiM (offset_record hdr ba) i (by_lo, out) sems = Ok (foldl (λ d w, zadd (w_lo w) w d) by_lo ws, out').
Proof.
  revert i ws by_lo out. induction sems as [|r sems IH]; intros i ws by_lo out H; cbn in *.
  { res_inv. by exists out. }
  destruct (r_slot r) as [lo|] eqn:E; [|by apply IH]. res_inv. rewrite E0, E1. cbn. rewrite E.
  destruct (IH (S i) _ (zadd lo (mkWindow (v0 - slack_ns) (v + slack_ns) (slot_end hdr ba lo (r_bytes r)) (synthesize r (Z.of_nat i + 1))) by_lo)
    (out ++ [synthesize r (Z.of_nat i + 1)]) E2) as [out' ->]. by exists out'.
Qed.

(** The object a command is given to. *)
Definition owner (o : outcome) : Z := match o with Unique r => r_trace_id r | _ => 0 end.

Definition is_unique (o : outcome) : bool := match o with Unique _ => true | _ => false end.
Definition has_address (o : outcome) : bool := match o with NoAddress => false | _ => true end.

Definition how_many {A} (f : A → bool) (l : list A) : Z := Z.of_nat (length (List.filter f l)).

Lemma how_many_snoc {A} (f : A → bool) l x : how_many f (l ++ [x]) = how_many f l + b2Z (f x).
Proof. unfold how_many. rewrite List.filter_app, length_app. cbn. destruct (f x); cbn; lia. Qed.

(** The counters of the outcomes seen so far. *)
Record tallied (cos : list (cmd * outcome)) (n : tally) : Prop := {
  tl_total : n_unique n + n_cross n + n_gap n + n_unmatched n = how_many (λ co, has_address co.2) cos;
  tl_unique : n_unique n = how_many (λ co, is_unique co.2) cos;
  tl_split : n_gt n + n_off_only n = n_unique n;
  tl_agree : n_agree n = how_many (λ co, match co.2 with
               | Unique r => negb (cookie co.1 =? 0) && bool_decide (r_cookie r = Some (cookie co.1)) | _ => false end) cos }.

Lemma count_tallied cos n c o : tallied cos n → tallied (cos ++ [(c, o)]) (count n c o).
Proof.
  intros [H1 H2 H3 H4]. destruct n as [gt ag ex un cr gp um ck]. cbn in *.
  split; rewrite ?how_many_snoc; cbn; destruct o as [| | | |r]; cbn; try lia; destruct (cookie c =? 0); cbn; try lia.
Qed.

Lemma offset_fold lba by_lo ulos f (cmds : list cmd) : (∀ c, attribute lba by_lo ulos c = f c) →
  let '(n, out) := foldl (offset_command lba by_lo ulos) (mkTally 0 0 0 0 0 0 0 0, []) cmds in
  tallied (map (λ c, (c, f c)) cmds) n ∧ out = map (λ c, set_tid c (owner (f c))) cmds.
Proof.
  intros Hf. induction cmds as [|c cmds IH] using rev_ind; [by split|]. rewrite foldl_app, !map_app. cbn.
  destruct (foldl _ _ cmds) as [n out]. destruct IH as [IH ->]. unfold offset_command. cbn. rewrite Hf.
  split; [by apply count_tallied|done].
Qed.

(** C38: when the slots are laid out as the comments assume, the join by byte
    range gives every command to the record that a scan of all records finds:
    one whose slot holds all of its bytes and whose window holds its time, the
    first in its direction or else the first; a command that leaves its slot,
    or that no window explains, is given to none.  Every command with an
    address is counted once, and the parity figures count the commands that
    carry a cookie and those whose cookie agrees. *)
Theorem offset_join_exact kmeta lba sems cmds hdr ba ws :
  meta_int kmeta "header_bytes" 0 = Ok hdr → meta_int kmeta "block_align" 4096 = Ok ba →
  windows_of hdr ba 0 sems = Ok ws → disjoint_slots ws →
  ∃ n sems', join_by_offset kmeta lba sems cmds = Ok (n, sems', map (λ c, set_tid c (owner (scan lba ws c))) cmds) ∧
    tallied (map (λ c, (c, scan lba ws c)) cmds) n.
Proof.
  intros Hh Hb Hw Hd. unfold join_by_offset. rewrite Hh, Hb. cbn [mbind res_bind].
  destruct (offset_records_windows hdr ba sems ws [] [] 0 Hw) as [sems' Hr].
  assert (offset_records hdr ba sems = Ok (table ws, sems')) as -> by exact Hr. cbn [mbind res_bind].
  pose proof (offset_fold lba (table ws) (stable_sort Z.le (map fst (table ws))) (scan lba ws) cmds) as Hf.
  destruct (foldl _ _ cmds) as [n out]. destruct Hf as [Ht ->].
  - intros c. unfold attribute, scan. destruct (c_slba c); [|done]. cbn. by apply located.
  - by exists n, sems'.
Qed.

(** ** Segmentation *)

(** The first operation that ends no earlier than [ts], or the last one. *)
Fixpoint occurrence (ends : list Z) (ts : Z) : nat :=
  match ends with
  | e :: (_ :: _) as rest => if ts <=? e then 0 else S (occurrence rest ts)
  | _ => 0
  end.

Lemma occurrence_test ends ts j : (j ≤ occurrence ends ts)%nat →
  (Z.of_nat j <? Z.of_nat (length ends) - 1) && (nth j ends 0 <? ts) = (j <? occurrence ends ts)%nat.
Proof.
  revert j. induction ends as [|e ends IH]; intros j Hj; [by assert (j = 0)%nat as -> by (cbn in Hj; lia)|].
  destruct ends as [|e' ends]; [by assert (j = 0)%nat as -> by (cbn in Hj; lia)|]. cbn [occurrence] in *.
  destruct (Z.leb_spec ts e).
  - assert (j = 0)%nat as -> by lia. cbn [nth length]. destruct (Z.ltb_spec e ts); [lia|]. by rewrite andb_false_r.
  - destruct j as [|j].
    + cbn [nth length]. destruct (Z.ltb_spec e ts); [|lia]. rewrite andb_true_r. change (0 <? S _)%nat with true. apply Z.ltb_lt. lia.
    + specialize (IH j ltac:(lia)). transitivity (j <? occurrence (e' :: ends) ts)%nat; [|done]. etransitivity; [|exact IH]. cbn [length nth].
      by assert ((Z.of_nat (S j) <? Z.of_nat (S (S (length ends))) - 1) = (Z.of_nat j <? Z.of_nat (S (length ends)) - 1)) as ->
        by (apply eq_true_iff_eq; rewrite !Z.ltb_lt; lia).
Qed.

Lemma occurrence_length ends ts : (occurrence ends ts ≤ length ends)%nat.
Proof.
  induction ends as [|e ends IH]; [done|]. cbn. destruct ends as [|e' ends]; [lia|]. destruct (ts <=? e); [lia|]. cbn in *. lia.
Qed.

Lemma occurrence_mono ends ts ts' : ts ≤ ts' → (occurrence ends ts ≤ occurrence ends ts')%nat.
Proof.
  intros Hle. induction ends as [|e ends IH]; [done|]. cbn. destruct ends as [|e' ends]; [done|].
  destruct (Z.leb_spec ts e), (Z.leb_spec ts' e); lia.
Qed.

Lemma advance_occurrence fuel ends ts j : (j ≤ occurrence ends ts)%nat → (occurrence ends ts - j ≤ fuel)%nat →
  advance fuel ends ts j = occurrence ends ts.
Proof.
  revert j. induction fuel as [|fuel IH]; intros j Hj Hf; cbn; [lia|]. rewrite occurrence_test by done.
  destruct (Nat.ltb_spec j (occurrence ends ts)); [apply IH; lia|lia].
Qed.

Lemma segment_exact ends cl j : StronglySorted cmd_le cl → Forall (λ c, (j ≤ occurrence ends (c_ts c))%nat) cl →
  segment ends j cl = map (λ c, (c_id c, occurrence ends (c_ts c))) cl.
Proof.
  intros Hs. revert j. induction Hs as [|c cl Hs IH Hall]; intros j Hj; [done|]. apply Forall_cons in Hj as [Hj _].
  pose proof (occurrence_length ends (c_ts c)). cbn. rewrite advance_occurrence by lia. f_equal. apply IH.
  rewrite Forall_forall in Hall |- *. intros c' Hc'. apply occurrence_mono. by apply Hall.
Qed.

#[export] Instance cmd_le_total : Total cmd_le.
Proof. intros a b. unfold cmd_le. lia. Qed.
#[export] Instance cmd_le_trans : Transitive cmd_le.
Proof. intros a b c. unfold cmd_le. lia. Qed.

(** The commands of an object go to the first of its operations that ends no
    earlier, and to the last one when all have ended. *)
Theorem commands_segmented cmds kl o : occ_of_tid cmds kl = Ok o → ∃ ends, mapMR (λ r, ns (r_ts r)) kl.2 = Ok ends ∧
  o = map (λ c, (c_id c, occurrence ends (c_ts c))) (stable_sort cmd_le (cmds_of cmds kl.1)).
Proof.
  unfold occ_of_tid. intros H. res_inv. eexists. split; [done|]. apply segment_exact.
  - apply StronglySorted_stable_sort; apply _.
  - apply Forall_forall. intros; lia.
Qed.

(** ** Spans of objects *)

(** A span holds every command of its object and is not reversed. *)
Definition well_drawn (base : Z) (s : span object) : Prop :=
  s_begin s ≤ s_end s ∧ o_begin (s_item s) = s_begin s ∧ o_end (s_item s) = s_end s ∧
  Forall (λ c, s_begin s ≤ c_ts c - base ≤ s_end s) (o_cmds (s_item s)).

Lemma foldl_min_le (l : list Z) x : foldl Z.min x l ≤ x ∧ Forall (λ y, foldl Z.min x l ≤ y) l.
Proof.
  revert x. induction l as [|y l IH]; intros x; cbn; [split; [lia|constructor]|]. destruct (IH (Z.min x y)) as [H1 H2].
  split; [lia|]. constructor; [lia|done].
Qed.

Lemma foldl_max_ge (l : list Z) x : x ≤ foldl Z.max x l ∧ Forall (λ y, y ≤ foldl Z.max x l) l.
Proof.
  revert x. induction l as [|y l IH]; intros x; cbn; [split; [lia|constructor]|]. destruct (IH (Z.max x y)) as [H1 H2].
  split; [lia|]. constructor; [lia|done].
Qed.

Lemma commands_between b e base c cl :
  b ≤ foldl Z.min (c_ts c) (map c_ts cl) - base → foldl Z.max (c_ts c) (map c_ts cl) - base ≤ e →
  b ≤ e ∧ Forall (λ c, b ≤ c_ts c - base ≤ e) (c :: cl).
Proof.
  intros Hb He. destruct (foldl_min_le (map c_ts cl) (c_ts c)) as [Hm1 Hm2]. destruct (foldl_max_ge (map c_ts cl) (c_ts c)) as [HM1 HM2].
  split; [lia|]. constructor; [lia|]. rewrite Forall_forall in Hm2, HM2. apply Forall_forall. intros x Hx.
  assert (c_ts x ∈ map c_ts cl) as Hin by (apply list_elem_of_fmap; by exists x). specialize (Hm2 _ Hin). specialize (HM2 _ Hin). lia.
Qed.

Lemma draw_step base o cmds st tro st' : draw base o cmds st tro = Ok st' → Forall (well_drawn base) (d_spans st) →
  Forall (well_drawn base) (d_spans st') ∧
  (length (d_spans st') + length (d_instants st') = S (length (d_spans st) + length (d_instants st)))%nat.
Proof.
  intros H Hw. destruct tro as [[tid oi] r]. unfold draw in H. res_inv. destruct (occ_cmds o cmds tid oi) as [|c cl].
  - destruct v0 as [s|]; [destruct (Z.ltb_spec s (v - base))|]; res_inv; cbn; rewrite ?length_app; cbn; (split; [|lia]); try done.
    apply Forall_app. split; [done|]. constructor; [|constructor]. split; cbn; [lia|]. split; [done|]. split; [done|constructor].
  - destruct (v - base <? _) eqn:Hlt; res_inv; cbn; rewrite ?length_app; cbn; (split; [|lia]);
      (apply Forall_app; split; [done|]; constructor; [|constructor]).
    + destruct (commands_between (match v0 with Some s => Z.min s (foldl Z.min (c_ts c) (map c_ts cl) - base) | None => foldl Z.min (c_ts c) (map c_ts cl) - base end)
        (foldl Z.max (c_ts c) (map c_ts cl) - base) base c cl) as [H1 H2]; [destruct v0; lia|lia|]. by split.
    + destruct (commands_between (match v0 with Some s => Z.min s (foldl Z.min (c_ts c) (map c_ts cl) - base) | None => foldl Z.min (c_ts c) (map c_ts cl) - base end)
        (v - base) base c cl) as [H1 H2]; [destruct v0; lia|lia|]. by split.
Qed.

(** Every occurrence is drawn once, as a span or as an instant, which is what
    the report checks; a span holds the commands of its occurrence. *)
Theorem objects_drawn base o cmds occs d : draw_all base o cmds occs = Ok d →
  Forall (well_drawn base) (d_spans d) ∧
  (length (d_spans d) + length (d_instants d) = length (occurrences occs))%nat.
Proof.
  unfold draw_all. assert (∀ l st d, foldM (draw base o cmds) st l = Ok d → Forall (well_drawn base) (d_spans st) →
    Forall (well_drawn base) (d_spans d) ∧
    (length (d_spans d) + length (d_instants d) = length (d_spans st) + length (d_instants st) + length l)%nat) as Hf.
  { induction l as [|x l IH]; intros st d' H Hw; cbn in H; res_inv; [split; [done|cbn; lia]|].
    destruct (draw_step _ _ _ _ _ _ E Hw) as [Hw' Hl]. destruct (IH _ _ H Hw') as [H1 H2]. split; [done|]. cbn. lia. }
  intros H. destruct (Hf _ _ _ H) as [H1 H2]; [constructor|]. by split.
Qed.

(** ** Counters *)

(** The value a counter shows at [t]: that of its last point not after [t]. *)
Definition shown (v0 : Z) (pts : list (Z * Z)) (t : Z) : Z := foldl (λ v p, if p.1 <=? t then p.2 else v) v0 pts.

Definition total (l : list Z) : Z := foldr Z.add 0 l.

Lemma total_app l1 l2 : total (l1 ++ l2) = total l1 + total l2.
Proof. unfold total. induction l1 as [|x l1 IH]; cbn; lia. Qed.

Lemma total_Permutation l1 l2 : l1 ≡ₚ l2 → total l1 = total l2.
Proof. unfold total. induction 1; cbn; lia. Qed.

#[export] Instance delta_le_total : Total delta_le.
Proof. intros a b. unfold delta_le. lia. Qed.
#[export] Instance delta_le_trans : Transitive delta_le.
Proof. intros a b c. unfold delta_le. lia. Qed.

Lemma shown_running cur v l t : StronglySorted delta_le l →
  shown v (running cur l) t = (if existsb (λ p, p.1 <=? t) l then cur else v) + total (map (λ p, if p.1 <=? t then p.2 else 0) l).
Proof.
  intros Hs. revert cur v. induction Hs as [|[ts d] l Hs IH Hall]; intros cur v; [cbn; lia|].
  cbn [running existsb map fst snd].
  change (shown v ((ts, cur + d) :: ?k) t) with (shown (if ts <=? t then cur + d else v) k t).
  change (total (?x :: ?k)) with (x + total k). rewrite IH.
  destruct (Z.leb_spec ts t) as [Hle|Hgt]; cbn [orb]; [destruct (existsb _ l); lia|].
  assert (existsb (λ p, p.1 <=? t) l = false) as ->; [|lia].
  apply not_true_iff_false. rewrite existsb_exists. intros (p & Hp%list_elem_of_In & Hpt).
  rewrite Forall_forall in Hall. specialize (Hall _ Hp). unfold delta_le in Hall. cbn in Hall. lia.
Qed.

(** The spans open at [t]: begun, and not ended. *)
Definition is_open {A} (t : Z) (s : span A) : bool := (s_begin s <=? t) && (t <? s_end s).

(** At every instant the counter shows the number of open spans. *)
Theorem in_flight_exact {A} (spans : list (span A)) t : Forall (λ s, s_begin s ≤ s_end s) spans →
  shown 0 (in_flight spans) t = how_many (is_open t) spans.
Proof.
  intros Hbe. unfold in_flight. rewrite shown_running by (apply StronglySorted_stable_sort; apply _).
  rewrite (total_Permutation _ (map (λ p, if p.1 <=? t then p.2 else 0) (flat_map (λ s, [(s_begin s, 1); (s_end s, -1)]) spans)))
    by (apply Permutation_map, stable_sort_Permutation).
  transitivity (total (map (λ p : Z * Z, if p.1 <=? t then p.2 else 0) (flat_map (λ s, [(s_begin s, 1); (s_end s, -1)]) spans)));
    [by destruct (existsb _ _)|].
  unfold how_many. induction Hbe as [|s spans Hs Hbe IH]; [done|]. cbn [flat_map map app total foldr List.filter fst snd] in *.
  fold (total (map (λ p : Z * Z, if p.1 <=? t then p.2 else 0) (flat_map (λ s, [(s_begin s, 1); (s_end s, -1)]) spans))) in *.
  rewrite IH. unfold is_open at 2. destruct (Z.leb_spec (s_begin s) t), (Z.ltb_spec t (s_end s)), (Z.leb_spec (s_end s) t); cbn; lia.
Qed.

(** What a bucket holds. *)
Fixpoint bucket_get (k : Z) (d : list (Z * Z)) : Z :=
  match d with [] => 0 | (k', v) :: d => if k =? k' then v else bucket_get k d end.

Lemma bucket_get_add k k' v d : bucket_get k (bucket_add k' v d) = bucket_get k d + (if k =? k' then v else 0).
Proof.
  induction d as [|[k0 v0] d IH]; cbn; [destruct (k =? k'); lia|].
  destruct (Z.eqb_spec k' k0) as [->|Hne]; cbn; destruct (Z.eqb_spec k k0) as [->|Hne']; try lia.
  destruct (Z.eqb_spec k0 k'); [congruence|lia].
Qed.

Lemma bucket_add_keys k v d k' : k' ∈ map fst (bucket_add k v d) ↔ k' = k ∨ k' ∈ map fst d.
Proof. induction d as [|[k0 v0] d IH]; cbn; [set_solver|]. destruct (Z.eqb_spec k k0) as [->|]; cbn; set_solver. Qed.

Lemma bucket_add_NoDup k v d : NoDup (map fst d) → NoDup (map fst (bucket_add k v d)).
Proof.
  induction d as [|[k0 v0] d IH]; cbn; intros Hd; [apply NoDup_singleton|]. apply NoDup_cons in Hd as [H1 H2].
  destruct (Z.eqb_spec k k0) as [->|]; cbn; constructor; try done; [|by apply IH]. rewrite bucket_add_keys. intros [?|?]; [by subst|done].
Qed.

Lemma buckets_spec (f : cmd → Z) (key : cmd → Z) cmds :
  let d := foldl (λ d c, bucket_add (key c) (f c) d) [] cmds in
  NoDup (map fst d) ∧ ∀ k, bucket_get k d = total (map f (List.filter (λ c, key c =? k) cmds)).
Proof.
  cbv zeta. induction cmds as [|c cmds [IH1 IH2]] using rev_ind; [by split; [constructor|]|].
  rewrite foldl_app. cbn. split; [by apply bucket_add_NoDup|]. intros k.
  rewrite bucket_get_add, IH2, List.filter_app, map_app, total_app, Z.eqb_sym. cbn. destruct (key c =? k); cbn; lia.
Qed.

#[export] Instance bucket_le_total : Total bucket_le.
Proof. intros a b. unfold bucket_le. lia. Qed.
#[export] Instance bucket_le_trans : Transitive bucket_le.
Proof. intros a b c. unfold bucket_le. lia. Qed.

Definition bucket_lt (a b : Z * Z) : Prop := a.1 < b.1.

Lemma bucket_sorted d : NoDup (map fst d) → StronglySorted bucket_lt (stable_sort bucket_le d) ∧
  ∀ k, bucket_get k (stable_sort bucket_le d) = bucket_get k d.
Proof.
  intros Hd. pose proof (stable_sort_Permutation bucket_le d) as Hp.
  assert (StronglySorted bucket_le (stable_sort bucket_le d)) as Hs by (apply StronglySorted_stable_sort; apply _).
  revert Hs Hp. generalize (stable_sort bucket_le d). intros l Hs Hp.
  assert (NoDup (map fst l)) as Hl by (change (NoDup (fst <$> l)); by rewrite Hp). split.
  - clear Hp Hd. induction Hs as [|x l Hs IH Hall]; [constructor|]. apply NoDup_cons in Hl as [Hx Hl]. constructor; [by apply IH|].
    rewrite Forall_forall in Hall |- *. intros y Hy. specialize (Hall y Hy). unfold bucket_le, bucket_lt in *.
    assert (x.1 ≠ y.1); [|lia]. intros Heq. apply Hx. rewrite Heq. apply list_elem_of_fmap. by exists y.
  - intros k. clear Hs. assert (∀ d, NoDup (map fst d) → ∀ v, (k, v) ∈ d → bucket_get k d = v) as Hget.
    { clear. induction d as [|[k' v'] d IH]; intros Hd v Hin; [set_solver|]. cbn in *. apply NoDup_cons in Hd as [Hk Hd].
      apply elem_of_cons in Hin as [[= -> ->]|Hin]; [by rewrite Z.eqb_refl|]. destruct (Z.eqb_spec k k') as [->|]; [|by apply IH].
      destruct Hk. apply list_elem_of_fmap. by exists (k', v). }
    assert (∀ d, k ∉ map fst d → bucket_get k d = 0) as Hno.
    { clear. induction d as [|[k' v'] d IH]; intros Hk; [done|]. cbn in *. destruct (Z.eqb_spec k k'); set_solver. }
    destruct (decide (k ∈ map fst d)) as [Hin|Hin].
    + apply list_elem_of_fmap in Hin as ([k' v] & -> & Hin). rewrite (Hget d Hd v Hin). apply Hget; [done|]. by rewrite Hp.
    + rewrite !Hno; [done|done|]. change (k ∉ fst <$> l). by rewrite Hp.
Qed.

Lemma counter_after w p l : 0 < w → StronglySorted bucket_lt l → Forall (λ b, p < b.1) l →
  Forall (λ q, (p + 1) * w ≤ q.1) (counter_points w (Some p) l).
Proof.
  intros Hw Hs. revert p. induction Hs as [|[k v] l Hs IH Hall]; intros p Hp; cbn; [repeat constructor; cbn; lia|].
  apply Forall_cons in Hp as [Hk _]. cbn in Hk. apply Forall_app. split; [destruct (p + 1 <? k); repeat constructor; cbn; lia|].
  constructor; [cbn; nia|]. eapply Forall_impl; [by apply IH|]. intros q Hq. cbn in Hq. nia.
Qed.

Lemma shown_later v pts t : Forall (λ q, t < q.1) pts → shown v pts t = v.
Proof. unfold shown. induction 1 as [|q pts Hq Hpts IH]; [done|]. cbn. destruct (Z.leb_spec q.1 t); [lia|done]. Qed.

Lemma bucket_get_below k l : Forall (λ b, k < b.1) l → bucket_get k l = 0.
Proof. induction 1 as [|[k' v] l Hk Hl IH]; [done|]. cbn in *. destruct (Z.eqb_spec k k'); [lia|done]. Qed.

Lemma bucket_range w t k : 0 < w → k * w ≤ t ↔ k ≤ t / w.
Proof. intros Hw. split; intros H; [apply Z.div_le_lower_bound; lia|]. pose proof (Z.mul_div_le t w Hw). nia. Qed.

Lemma shown_counter w p v0 l t : 0 < w → StronglySorted bucket_lt l → Forall (λ b, p < b.1) l → p * w ≤ t →
  shown v0 (counter_points w (Some p) l) t = if t / w =? p then v0 else bucket_get (t / w) l.
Proof.
  intros Hw Hs. revert p v0. induction Hs as [|[k v] l Hs IH Hall]; intros p v0 Hp Ht.
  - cbn. pose proof (bucket_range w t (p + 1) Hw). pose proof (bucket_range w t p Hw).
    destruct (Z.leb_spec ((p + 1) * w) t), (Z.eqb_spec (t / w) p); lia.
  - apply Forall_cons in Hp as [Hk _]. cbn in Hk. cbn [counter_points].
    pose proof (bucket_range w t (p + 1) Hw) as B1. pose proof (bucket_range w t p Hw) as B0. pose proof (bucket_range w t k Hw) as Bk.
    unfold shown. rewrite foldl_app. cbn [foldl fst snd].
    match goal with |- foldl _ (if _ then _ else ?x) _ = _ => set (v1 := x) end.
    assert (v1 = if (p + 1 <? k) && ((p + 1) * w <=? t) then 0 else v0) as Hv1.
    { unfold v1. destruct (p + 1 <? k); cbn; [done|done]. }
    destruct (Z.leb_spec (k * w) t) as [Hkt|Hkt].
    + fold (shown v (counter_points w (Some k) l) t). rewrite IH; [|exact Hall|done]. cbn.
      destruct (Z.eqb_spec (t / w) p); [lia|]. by destruct (Z.eqb_spec (t / w) k).
    + fold (shown v1 (counter_points w (Some k) l) t). rewrite shown_later.
      * rewrite Hv1. destruct (Z.eqb_spec (t / w) p).
        -- destruct (Z.leb_spec ((p + 1) * w) t); [lia|]. by rewrite andb_false_r.
        -- rewrite (bucket_get_below (t / w) ((k, v) :: l)).
           ++ destruct (Z.ltb_spec (p + 1) k); [|lia]. destruct (Z.leb_spec ((p + 1) * w) t); [done|lia].
           ++ constructor; [cbn; lia|]. eapply Forall_impl; [exact Hall|]. intros q Hq. unfold bucket_lt in Hq. cbn in *. lia.
      * eapply Forall_impl; [by apply counter_after|]. intros q Hq. cbn in Hq. nia.
Qed.

(** A rate counter shows, at every instant, the sum over the commands of
    the bucket that holds it, and zero where a bucket has no command. *)
Theorem rate_exact w value_fn base cmds t : 0 < w →
  shown 0 (bucket_counter w value_fn base cmds) t =
  total (map value_fn (List.filter (λ c, (c_ts c - base) / w =? t / w) cmds)).
Proof.
  intros Hw. unfold bucket_counter. destruct (buckets_spec value_fn (λ c, (c_ts c - base) / w) cmds) as [Hnd Hget].
  destruct (bucket_sorted _ Hnd) as [Hs Hsort]. rewrite <- Hget, <- Hsort. revert Hs. generalize (stable_sort bucket_le (foldl (λ d c, bucket_add ((c_ts c - base) / w) (value_fn c) d) [] cmds)).
  intros l Hs. destruct Hs as [|[k v] l Hs Hall]; [done|]. cbn [counter_points app].
  pose proof (bucket_range w t k Hw) as Bk. unfold shown. cbn [foldl fst snd]. destruct (Z.leb_spec (k * w) t) as [Hkt|Hkt].
  - fold (shown v (counter_points w (Some k) l) t). rewrite shown_counter by done. cbn. by destruct (Z.eqb_spec (t / w) k).
  - fold (shown 0 (counter_points w (Some k) l) t). rewrite shown_later.
    + symmetry. apply bucket_get_below. constructor; [cbn; lia|]. eapply Forall_impl; [exact Hall|]. intros q Hq. unfold bucket_lt in Hq. cbn in *. lia.
    + eapply Forall_impl; [by apply counter_after|]. intros q Hq. cbn in Hq. nia.
Qed.

(** ** Examples *)
Definition ex_sem (tid : Z) (op : string) (slot bytes start ts : Z) : sem :=
  mkSem tid "m@f@0@ab" None (Some op) bytes (Some slot) (fint ts) (Some (fint start)) None.

Definition ex_cmd (id : nat) (ts ud : Z) (tid : option Z) (slba nlb : Z) (op : string) : cmd :=
  mkCmd id ts ud tid (Some slba) nlb (nlb * 4096) (nlb * 4096) (Some op) None.

Definition ex_sems : list sem := [ex_sem 7 "store" 0 8192 1 2; ex_sem 8 "store" 8192 4096 2 3; ex_sem 9 "load" 0 8192 3 4].

Definition ex_cmds : list cmd :=
  [ex_cmd 0 1500000000 (7 * 2 ^ 32) None 0 1 "write"; ex_cmd 1 1600000000 0 None 1 1 "write";
   ex_cmd 2 2500000000 (8 * 2 ^ 32) None 1 2 "write"; ex_cmd 3 3500000000 (9 * 2 ^ 32) None 0 2 "read";
   ex_cmd 4 3500000000 0 None 9 1 "read"].

Definition ex_windows : list window :=
  match windows_of 0 4096 0 ex_sems with Ok ws => ws | Raise _ => [] end.

Lemma ex_disjoint : disjoint_slots ex_windows.
Proof.
  intros w1 w2 H1 H2. vm_compute in H1, H2. apply list_elem_of_In in H1, H2. cbn in H1, H2.
  intuition subst; vm_compute; try done; split; intros H; try discriminate H; done.
Qed.

Lemma offset_join_exact_witness : ∃ n sems', join_by_offset None 4096 ex_sems ex_cmds =
    Ok (n, sems', map (λ c, set_tid c (owner (scan 4096 ex_windows c))) ex_cmds) ∧
  map (λ c, owner (scan 4096 ex_windows c)) ex_cmds = [1; 1; 0; 3; 0] ∧ n_unique n = 3.
Proof.
  destruct (offset_join_exact None 4096 ex_sems ex_cmds 0 4096 ex_windows eq_refl eq_refl) as (n & sems' & Hj & Ht);
    [vm_compute; reflexivity|apply ex_disjoint|].
  exists n, sems'. split; [exact Hj|]. split; [vm_compute; reflexivity|]. rewrite (tl_unique _ _ Ht). vm_compute. reflexivity.
Defined.

Example rate_example : shown 0 (bucket_counter 1000000 (λ _, 1) 1500000000 ex_cmds) 2000500000 = 2.
Proof. rewrite (rate_exact 1000000 (λ _, 1) 1500000000 ex_cmds 2000500000 eq_refl). vm_compute. reflexivity. Qed.

(** A slot that is reused for a larger object keeps the end of its first
    record: a command of the second object is taken for one that spills. *)
Example slot_reused :
  let ws := [ex_sem 1 "store" 0 4096 1 2; ex_sem 2 "store" 0 8192 3 4] in
  let c := ex_cmd 0 3500000000 (2 * 2 ^ 32) None 0 2 "write" in
  (x ← join_by_offset None 4096 ws [c]; Ok (n_gap x.1.1, map c_tid x.2)) = Ok (1, [Some 0]).
Proof. vm_compute. reflexivity. Qed.

(** The monitor writes the thread of a command under the name ["tid"]; the join
    by cookie then takes it for the trace id, and the object has no commands. *)
Example thread_id_joined :
  let c tid := ex_cmd 0 1500000000 (7 * 2 ^ 32) tid 0 2 "write" in
  let joined tid := k ← Capture false false None 4096 None [ex_sem 7 "store" 0 8192 1 2] [c tid] [] [];
                    Ok (map tid_of (k_cmds k), k_occ_of k) in
  joined None = Ok ([7], [(0, 0)]%nat) ∧ joined (Some 4242) = Ok ([4242], []).
Proof. vm_compute. done. Qed.

(** The time line starts at the first command or operation end; an operation
    that began before it is cut when it is written. *)
Example leading_edge_cut :
  let sems := [ex_sem 7 "store" 0 8192 1 2] in
  let cmds := [ex_cmd 0 1500000000 (7 * 2 ^ 32) None 0 2 "write"] in
  (k ← Capture false false None 4096 None sems cmds [] [];
   d ← draw_all (k_base k) (k_occ_of k) (k_cmds k) (k_occs k);
   Ok (map (λ s, (s_begin s, timestamp (s_begin s), s_end s)) (d_spans d))) = Ok [(-500000000, 0, 500000000)].
Proof. vm_compute. reflexivity. Qed.

(** An object whose only command is at its end: its end is counted first. *)
Example in_flight_negative : in_flight [((5, 5, tt) : span unit)] = [(5, -1); (5, 0)].
Proof. vm_compute. reflexivity. Qed.
